(* ===== verification/_CoqProject ===== *)
-Q . S2P
Prelude.v
Extent.v
ExtentFacts.v
ExtentSearch.v
ExtentConflict.v
Clist.v
ClistFacts.v
ClistQueue.v
ClistBlocks.v
Lockf.v
LockfFacts.v
LockfList.v
LockfOps.v
LockfSys.v
Rwlock.v
RwlockFacts.v
Timeout.v
TimeoutFacts.v
TimeoutClock.v
Sem.v
SemFacts.v
SemOps.v
SemInv.v
SemSys.v
Clock.v
ClockFacts.v
Itimer.v
ItimerFacts.v
Msg.v
MsgFacts.v
MsgOps.v
MsgQue.v
MsgSys.v
MsgData.v
MsgRuns.v
Fd.v
FdFacts.v
FdOps.v
FdFile.v
FdRefs.v
FdSys.v
FdFork.v
FdCalls.v
Mbuf.v
MbufOps.v
MbufFacts.v
MbufInv.v
MbufExt.v
MbufFree.v
MbufChain.v
MbufRead.v
MbufTrim.v
MbufJoin.v
MbufPull.v
MbufCopy.v
MbufSplit.v
MbufInject.v
MbufWrite.v
MbufDown.v
MbufDev.v
MbufRun.v
MbufDemo.v
MbufDefects.v
MbufList.v
MbufListFacts.v
Bufq.v
BufqInv.v
BufqSteps.v
BufqMoves.v
BufqSys.v
Pipe.v
PipeInv.v
PipeCalls.v
PipeSys.v
PipeDemo.v
Shm.v
ShmInv.v
ShmCalls.v
ShmSys.v
ShmDemo.v
