(* ===== verification/Prelude.v ===== *)
(** * Bitrig kernel services: a verification library

    This library models the core services of the Bitrig kernel (sys/kern) that
    keep their own data structures and concurrency rules, and proves what
    makes them correct.  The configuration is GENERIC with DIAGNOSTIC and
    MULTIPROCESSOR on a 64-bit port.

    ** The parts and their files

    - The extent manager, sys/kern/subr_extent.c.  An extent is a range of
      numbers (I/O ports, bus addresses) of which parts are allocated.
      [Extent] has the data (region list, descriptor free list, flags, the
      waiters of an extent) and one definition per routine; what other threads
      do while a caller sleeps is an environment, [kenv].  [ExtentFacts]:
      extent_alloc_region and extent_free against the set of allocated
      numbers.  [ExtentSearch]: the searching allocator extent_do_alloc with
      alignment, boundary, subregion and best fit.  [ExtentConflict]:
      EX_CONFLICTOK, conservation of region descriptors, creation.
    - The character lists of terminals, sys/kern/tty_subr.c.  [Clist]: the
      ring buffer and its quote bitmap, with every routine, on explicit memory
      whose reads and writes can fault.  [ClistFacts]: bitmaps and [clrbits];
      [ClistQueue]: a clist as a queue of quoted characters, and the
      one-character operations; [ClistBlocks]: the block operations.
    - Advisory byte-range locks, sys/kern/vfs_lockf.c.  [Lockf]: the lock list
      of a file, blocked requests, per-user accounting, the six overlap cases,
      deadlock detection and sleeping requests.  [LockfFacts], [LockfList] and
      [LockfOps] build up the invariant and the byte-wise meaning of a lock
      list; [LockfSys] has the theorems on the entry points.
    - Reader/writer locks, sys/kern/kern_rwlock.c.  [Rwlock]: a machine whose
      steps are the atomic accesses to the lock word, for any number of
      threads, with the sleep queue; the recursive locks on top.
      [RwlockFacts]: the invariant and the theorems.
    - Timeouts, sys/kern/kern_timeout.c.  [Timeout]: the timing wheel on
      32-bit tick counters.  [TimeoutFacts], [TimeoutClock]: the invariant of
      the wheel, and when handlers are called.
    - System V semaphores, sys/kern/sysv_sem.c, with ipcperm of sysv_ipc.c and
      the routines both call (vaccess, groupmember, sysctl_int).  [Sem]: the
      tables, undo structures with their addresses, the system calls, with
      what others do while semop, semctl or the sysctl sleep as arguments.
      [SemFacts]: undo structures as a table of adjustments; [SemOps]: the
      request vector of semop against a reference; [SemInv]: the invariant
      over all interleavings; [SemSys]: the system calls.

    - The calendar, time arithmetic and rate limits, sys/kern/clock_subr.c,
      sys/sys/time.h and parts of kern_clock.c and kern_time.c.  [Clock]: dates
      and seconds, BCD, timevals and bintimes, ticks of an interval, ratecheck
      and ppsratecheck, with the widths of the C types.  [ClockFacts]: the
      theorems.
    - Interval timers, sys/kern/kern_time.c and hardclock.  [Itimer]: setitimer,
      getitimer, the virtual and profiling timers counted down by hardclock,
      and the real-time timer, a client of the class [TimeoutService];
      [ItimerFacts] shows that the timing wheel of [Timeout] is such a service
      and proves the theorems on the timers.
    - System V messages, sys/kern/sysv_msg.c.  [Msg]: queues and messages as
      objects with addresses, the system calls cut at their sleeps, run by any
      number of threads.  [MsgFacts], [MsgOps], [MsgQue]: the invariant and the
      operations on queues and messages; [MsgSys]: the invariant over all
      interleavings; [MsgData]: the copies between user memory and mbufs, and
      msgsnd and msgrcv on the contents of a queue; [MsgRuns]: executed runs.
    - File descriptors, sys/kern/kern_descrip.c.  [Fd]: a descriptor table with
      its two bitmaps; [FdFile]: open files, their counts, and the system calls,
      with what doopenat of vfs_syscalls.c does to the file of a new descriptor.
      [FdFacts], [FdOps]: the invariant of a table and the allocation of a
      descriptor; [FdRefs]: the counts; [FdSys], [FdFork]: each call;
      [FdCalls]: the calls as transitions, and their contract.
    - Network buffers, sys/kern/uipc_mbuf.c and sys/sys/mbuf.h.  [Mbuf]: mbufs,
      clusters and their sharing rings in a store with addresses, packet
      headers and tags, allocation that can fail, freeing; [MbufOps]: the
      operations on chains.  [MbufFacts], [MbufInv], [MbufExt], [MbufFree],
      [MbufChain]: weakest preconditions, the well-formedness of a store and
      the bytes of a chain.  [MbufRead], [MbufTrim], [MbufJoin], [MbufPull],
      [MbufCopy], [MbufSplit], [MbufInject], [MbufWrite], [MbufDown] and
      [MbufDev]: what each operation does to the bytes.  [MbufRun]: any
      sequence of operations keeps the store typed; [MbufDemo]: executed
      cases; [MbufDefects]: the cases that go wrong.  [MbufList] and
      [MbufListFacts]: mbuf lists and the bounded queues.
    - Disk request queues, sys/kern/kern_bufq.c.  [Bufq]: the disciplines, the
      queues and every routine, cut at its sleeps and run by any number of
      threads.  [BufqInv]: the class [Discipline], the contract of the drivers
      and the invariant; [BufqSteps], [BufqMoves]: every section keeps it;
      [BufqSys]: the theorems.
    - System V shared memory, sys/kern/sysv_shm.c.  [Shm]: the table of
      segments, the attachments of each address space, and the calls, cut where
      they can sleep.  [ShmInv]: the invariant; [ShmCalls]: the changes of the
      tables and the calls; [ShmSys]: any number of threads, and the theorems;
      [ShmDemo]: executed runs and the cases that go wrong.
    - Pipes, sys/kern/sys_pipe.c.  [Pipe]: the ring buffer with its lock and
      flags, and every call cut where it can sleep (a wait on the pipe, a page
      fault in uiomove, an allocation), run by any number of threads.
      [PipeInv]: the ring buffer and the invariant of one pipe; [PipeCalls]:
      the sections of reads, writes and closes keep it; [PipeSys]: the contract
      of the file layer, the invariant of all pipes, and the theorems;
      [PipeDemo]: executed runs and the cases that go wrong.

    This file holds what they share: error numbers, 64-bit words and flag
    words, the outcome type of a kernel routine, tactics and list lemmas.

    ** How the code is rendered

    A structure is a [Record] with the source's field names; a linked list is
    a Rocq list and a pointer into it an index or, where the code keeps the
    pointer across calls that may free the item, the item's address.  A
    machine integer is a [Z] with its wrap-around written out.  A routine that
    can sleep takes what happens meanwhile as an argument and is proved for
    every such argument that keeps the invariant.  Panics, faults and use of
    freed memory are explicit outcomes, so that their absence is a theorem.

    ** What the theorems show

    For each part: its invariant and that every operation keeps it; the effect
    of each operation on an abstract view (a set of numbers, a queue of
    characters, a type per byte and owner, the holders of a lock, ticks to go,
    a map of adjustments, the contents of a queue, the file of each
    descriptor, the bytes of a chain, a stream of bytes) on every branch, errors included; termination of its
    loops.  Interleavings are covered for the locks (every schedule of atomic
    steps), the messages, the disk queues and the pipes (every order in which
    threads go on after their sleeps), the timeouts and the descriptor calls
    (every order of whole operations), the semaphores and the extents (whatever
    others do during a sleep), the shared memory (every order, where a call may
    be overtaken while it waits for a pool item).  Each theorem's comment names
    the conditions it holds under, those its step relation imposes included.
    Where the code does not do what it means to, a theorem exhibits
    the case: the EX_CONFLICTOK cases and the wrap-around of the extent
    search, the boundary lines that lose the alignment, the quote test of ndqb,
    locks that end at the largest offset, a partly applied semop, the undo
    structure used after it is freed, the early stop of semundo_clear, a set
    removed while the sysctl enlarges the tables, the
    length and type errors and the races of the messages, timers armed too
    short, the descriptor count after an open of /dev/fd, the mbuf
    routines on failed allocations and lengths they do not test, a pipe
    that is enlarged while another thread writes to it, and shared segments
    that are removed, made or attached while another call on them sleeps.

    ** Fuel

    Retry loops of the code that are bounded by the data are unfolded with
    fuel, and the theorems show that a stated amount is enough: one retry per
    region for the extent loops, one round per character for the clist loops,
    the length of the lock list for lf_setlock and lf_clearlock, the length of
    the todo queue for softclock, the years of the date for the calendar, the
    intervals missed for realitexpire, the mbufs of a chain and, where one is
    built, its bytes.  A write to a pipe retries at most once
    before it sleeps, since nothing can change between the retry and the lock.
    A descriptor call restarts at most ten
    times, since the table doubles each time and [maxfiles] is at most 12800
    (from 25600 on the code itself reads outside its bitmap).  Sleeps are
    bounded by the list of wake-ups given to the call; a call that uses them up
    is reported as asleep.

    ** What is not modelled

    Printing and debugger commands; the pools and malloc, which appear as the
    item or failure they produce (a wait for a region descriptor of the extents
    is not seen by the extent: the caller has not looked at the map yet);
    interrupt priority levels, taken as exclusive access; in the semaphores, a
    wait for a semu_pool item inside semop (semu_alloc itself has both
    branches), and runs that come to freed memory are outcomes the invariant
    does not go on from; in the messages, a copyout that sleeps is in the runs
    but not in the invariant, which it breaks; of the descriptors, the fcntl
    commands that call the vnode layer, flock, fstat, the kqueue lists and, in
    the step relation, the sleeps inside a call (fdplock) and dupfdopen, which
    makes the count of open descriptors wrong; of the mbufs, mbinit,
    nmbclust_update, m_print and negative lengths; of the pipes, pipe_stat,
    time stamps, the lists of knotes and the use of descriptors by others before
    pipe(2) returns; of the shared memory, the virtual memory itself and, in the
    invariant, the sleeps in [uao_create], [uvm_map], [uvm_deallocate] and the
    copies, which break it.  Sockets (protocol processing), the buffer cache
    (virtual memory), the rest of the kernel and the userland are outside the
    library. *)

From stdpp Require Import base numbers list option.
From Stdlib Require Import ZArith Lia Bool.

#[global] Open Scope Z_scope.

(** ** Errno values used by the modelled code (sys/sys/errno.h) *)

Definition EPERM : Z := 1.
Definition ENOENT : Z := 2.
Definition EINTR : Z := 4.
Definition E2BIG : Z := 7.
Definition EDEADLK : Z := 11.
Definition ENOMEM : Z := 12.
Definition EACCES : Z := 13.
Definition EFAULT : Z := 14.
Definition EBUSY : Z := 16.
Definition EEXIST : Z := 17.
Definition EINVAL : Z := 22.
Definition EFBIG : Z := 27.
Definition ENOSPC : Z := 28.
Definition ERANGE : Z := 34.
Definition EAGAIN : Z := 35.
Definition ENOLCK : Z := 77.
Definition EIDRM : Z := 89.
Definition ENOMSG : Z := 90.

(** ** Machine words

    A [u_long] of the 64-bit ports is an integer in [0, 2^64); every C
    operation on one wraps modulo [2^64].  An [int] is an integer in
    [-2^31, 2^31). *)

Declare Scope kernel_scope.
Delimit Scope kernel_scope with K.
#[global] Open Scope kernel_scope.

Definition UL_MOD : Z := 18446744073709551616.
Definition ULONG_MAX : Z := 18446744073709551615.

Definition ul (x : Z) : Z := x `mod` UL_MOD.
Definition u16 (x : Z) : Z := x `mod` 65536.
Definition uadd (a b : Z) : Z := ul (a + b).
Definition usub (a b : Z) : Z := ul (a - b).

Notation "a +u b" := (uadd a b) (at level 50, left associativity) : kernel_scope.
Notation "a -u b" := (usub a b) (at level 50, left associativity) : kernel_scope.

Definition is_ul (x : Z) : Prop := 0 <= x < UL_MOD.

Definition INT_MAX : Z := 2147483647.
Definition INT_MIN : Z := -2147483648.

(** Two's complement reading of the low [w] bits. *)
Definition sint (w x : Z) : Z :=
  let m := x `mod` 2 ^ w in if m <? 2 ^ (w - 1) then m else m - 2 ^ w.

(** ** Flag words *)

(** [f & m] used as a C condition. *)
Definition has (f m : Z) : bool := negb (Z.land f m =? 0).
(** [f |= m] and [f &= ~m]. *)
Definition set_flag (f m : Z) : Z := Z.lor f m.
Definition clr_flag (f m : Z) : Z := Z.land f (Z.lnot m).

(** ** Outcomes of a kernel routine

    A routine returns, is still asleep when the schedule of wake-ups runs
    out, panics, or (for a bounded unfolding of a retry loop) exhausts its
    fuel. *)

Inductive run (S A : Type) : Type :=
| Done (a : A) (s : S)
| Blocked (s : S)
| Panic
| NoFuel.
Arguments Done {S A} _ _.
Arguments Blocked {S A} _.
Arguments Panic {S A}.
Arguments NoFuel {S A}.

(** ** Lemmas on machine words *)

Create HintDb kernel discriminated.

Lemma ul_range x : is_ul (ul x).
Proof. unfold is_ul, ul, UL_MOD. apply Z.mod_pos_bound. lia. Qed.

Lemma u16_id x : 0 <= x < 65536 -> u16 x = x.
Proof. apply Z.mod_small. Qed.

Lemma ul_id x : is_ul x -> ul x = x.
Proof. unfold is_ul, ul. intros. by apply Z.mod_small. Qed.

Lemma uadd_exact a b : 0 <= a + b < UL_MOD -> a +u b = a + b.
Proof. apply ul_id. Qed.

Lemma usub_exact a b : 0 <= a - b < UL_MOD -> a -u b = a - b.
Proof. apply ul_id. Qed.

Lemma ul_add_mod x k : ul (x + k * UL_MOD) = ul x.
Proof. unfold ul. apply Z_mod_plus_full. Qed.

Lemma ul_ul x : ul (ul x) = ul x.
Proof. apply ul_id, ul_range. Qed.

Lemma ul_add_l x y : ul (ul x + y) = ul (x + y).
Proof. unfold ul. by rewrite Zplus_mod_idemp_l. Qed.

Lemma ul_add_r x y : ul (x + ul y) = ul (x + y).
Proof. unfold ul. by rewrite Zplus_mod_idemp_r. Qed.

Lemma ul_sub_l x y : ul (ul x - y) = ul (x - y).
Proof. unfold ul. by rewrite Zminus_mod_idemp_l. Qed.

Lemma ul_sub_r x y : ul (x - ul y) = ul (x - y).
Proof. unfold ul. by rewrite Zminus_mod_idemp_r. Qed.

#[export] Hint Resolve ul_range ul_id : kernel.

(** A sum that overflows shows as a result below an operand: the test used
    by [LE_OV] and friends. *)
Lemma uadd_wraps a b :
  is_ul a -> is_ul b ->
  (a <= a +u b -> a +u b = a + b) /\ (a +u b < a -> a +u b = a + b - UL_MOD).
Proof.
  unfold is_ul, uadd, ul. intros Ha Hb.
  destruct (decide (a + b < UL_MOD)).
  - rewrite Z.mod_small by lia. lia.
  - rewrite <- (Z_mod_plus_full _ (-1)), Z.mod_small by lia. lia.
Qed.

(** ** Lemmas on flag words *)

Lemma has_pow2 f k : 0 <= k -> has f (2 ^ k) = Z.testbit f k.
Proof.
  intros Hk. unfold has. destruct (Z.testbit f k) eqn:E.
  - apply negb_true_iff, Z.eqb_neq. intros H0.
    assert (Z.testbit (Z.land f (2 ^ k)) k = true) as Hb.
    { by rewrite Z.land_spec, E, Z.pow2_bits_true. }
    by rewrite H0, Z.bits_0 in Hb.
  - apply negb_false_iff, Z.eqb_eq. apply Z.bits_inj'. intros n Hn.
    rewrite Z.land_spec, Z.bits_0.
    destruct (decide (n = k)) as [->|Hne]; [by rewrite E|].
    rewrite Z.pow2_bits_false by lia. apply andb_false_r.
Qed.

Lemma has_set_pow2 f j k :
  0 <= j -> 0 <= k ->
  has (set_flag f (2 ^ j)) (2 ^ k) = has f (2 ^ k) || (j =? k).
Proof.
  intros. rewrite !has_pow2 by done. unfold set_flag.
  rewrite Z.lor_spec, Z.pow2_bits_eqb by done. done.
Qed.

Lemma has_clr_pow2 f j k :
  0 <= j -> 0 <= k ->
  has (clr_flag f (2 ^ j)) (2 ^ k) = has f (2 ^ k) && negb (j =? k).
Proof.
  intros. rewrite !has_pow2 by done. unfold clr_flag.
  rewrite Z.land_spec, Z.lnot_spec, Z.pow2_bits_eqb by done. done.
Qed.

(** ** Tactics *)

(** Turn boolean tests of the code into propositions. *)
Ltac bool_to_prop :=
  repeat match goal with
  | H : andb _ _ = true |- _ => apply andb_true_iff in H as [? ?]
  | H : orb _ _ = false |- _ => apply orb_false_iff in H as [? ?]
  | H : negb _ = true |- _ => apply negb_true_iff in H
  | H : negb _ = false |- _ => apply negb_false_iff in H
  | H : (_ <? _) = true |- _ => apply Z.ltb_lt in H
  | H : (_ <? _) = false |- _ => apply Z.ltb_ge in H
  | H : (_ <=? _) = true |- _ => apply Z.leb_le in H
  | H : (_ <=? _) = false |- _ => apply Z.leb_gt in H
  | H : (_ =? _) = true |- _ => apply Z.eqb_eq in H
  | H : (_ =? _) = false |- _ => apply Z.eqb_neq in H
  | H : (_ >? _) = true |- _ => rewrite Z.gtb_ltb in H
  | H : (_ >? _) = false |- _ => rewrite Z.gtb_ltb in H
  | H : (_ >=? _) = true |- _ => rewrite Z.geb_leb in H
  | H : (_ >=? _) = false |- _ => rewrite Z.geb_leb in H
  end.

(** Case on the next [if] or [match] scrutinee of the goal, keeping the
    equation. *)
Ltac step_if :=
  match goal with
  | |- context [if ?b then _ else _] =>
      lazymatch b with context [if _ then _ else _] => fail | _ => idtac end;
      destruct b eqn:?
  end.

Ltac step_if_in H :=
  match type of H with
  | context [if ?b then _ else _] =>
      lazymatch b with context [if _ then _ else _] => fail | _ => idtac end;
      destruct b eqn:?
  end.

(** ** Lists addressed at the end of a prefix

    The kernel's linked lists are modelled as Rocq lists; a pointer to an
    element is its index, which in proofs is the length of the prefix before
    it. *)

Section Middle.
Context {A : Type}.
Implicit Types (l : list A) (x y z : A).

Lemma lookup_mid l1 x l2 : (l1 ++ x :: l2) !! length l1 = Some x.
Proof. by apply list_lookup_middle. Qed.

Lemma lookup_mid_next l1 x l2 : (l1 ++ x :: l2) !! S (length l1) = head l2.
Proof.
  rewrite lookup_app_r by lia. replace (S (length l1) - length l1)%nat with 1%nat by lia.
  by destruct l2.
Qed.

Lemma insert_mid l1 x l2 y : <[length l1 := y]> (l1 ++ x :: l2) = l1 ++ y :: l2.
Proof. rewrite insert_app_r_alt by lia. by rewrite Nat.sub_diag. Qed.

Lemma insert_mid_next l1 x z l2 y :
  <[S (length l1) := y]> (l1 ++ x :: z :: l2) = l1 ++ x :: y :: l2.
Proof.
  rewrite insert_app_r_alt by lia.
  by replace (S (length l1) - length l1)%nat with 1%nat by lia.
Qed.

Lemma delete_mid_next l1 x z l2 :
  delete (S (length l1)) (l1 ++ x :: z :: l2) = l1 ++ x :: l2.
Proof.
  rewrite (cons_middle x), (app_assoc l1 [x] (z :: l2)).
  replace (S (length l1)) with (length (l1 ++ [x])) by (rewrite length_app; simpl; lia).
  by rewrite delete_middle, <- app_assoc.
Qed.

Lemma take_mid_next l1 x l2 : take (S (length l1)) (l1 ++ x :: l2) = l1 ++ [x].
Proof. rewrite take_app_ge by lia. by replace (S (length l1) - length l1)%nat with 1%nat by lia. Qed.

Lemma drop_mid_next l1 x l2 : drop (S (length l1)) (l1 ++ x :: l2) = l2.
Proof. rewrite drop_app_ge by lia. by replace (S (length l1) - length l1)%nat with 1%nat by lia. Qed.

End Middle.

Create Rewrite HintDb middle.
#[export] Hint Rewrite @lookup_mid @lookup_mid_next @insert_mid @insert_mid_next
  @delete_mid_next @delete_middle @take_mid_next @drop_mid_next : middle.

(** Removing what is not there. *)
Lemma filter_absent (x : nat) (l : list nat) : x ∉ l -> filter (fun y => y <> x) l = l.
Proof.
  induction l as [|y l IH]; [done|]. intros [Hy Hl]%not_elem_of_cons.
  rewrite filter_cons, decide_True by congruence. by rewrite IH.
Qed.

(** Case analysis on the integer comparisons of the goal. *)
Ltac cmp_cases :=
  repeat match goal with
  | |- context [?a <=? ?b] => destruct (Z.leb_spec a b)
  | |- context [?a <? ?b] => destruct (Z.ltb_spec a b)
  | |- context [?a =? ?b] => destruct (Z.eqb_spec a b)
  end; cbn [andb orb negb]; try done; try lia.
