(* ===== verification/Extent.v ===== *)
(** * Extent maps (sys/kern/subr_extent.c, sys/sys/extent.h)

    The allocator of number ranges: I/O ports, device memory, kernel virtual
    space.  The model is the GENERIC kernel (options DIAGNOSTIC and DDB).
    An extent is its descriptor ([struct extent] or [struct extent_fixed]),
    the sorted list of allocated regions, and, for a fixed extent, the free
    list of region descriptors.  A pointer into the region list is the index
    of the region it points at; [NULL] is [None].  A sleeping thread resumes
    with the state the other threads left, which the schedule gives. *)

From stdpp Require Import base numbers list option strings.
From Stdlib Require Import ZArith Lia Bool.
From S2P Require Import Prelude.

(** ** Data *)

Definition ER_ALLOC : Z := 1.
Definition ER_DISCARD : Z := 2.

Definition EXF_FIXED : Z := 1.
Definition EXF_NOCOALESCE : Z := 2.
Definition EXF_WANTED : Z := 4.
Definition EXF_FLWANTED : Z := 8.

Definition EX_WAITOK : Z := 1.
Definition EX_FAST : Z := 2.
Definition EX_CATCH : Z := 4.
Definition EX_NOCOALESCE : Z := 8.
Definition EX_MALLOCOK : Z := 16.
Definition EX_WAITSPACE : Z := 32.
Definition EX_BOUNDZERO : Z := 64.
Definition EX_CONFLICTOK : Z := 128.
Definition EX_FILLED : Z := 256.

Record region := Region {
  er_start : Z;
  er_end : Z;
  er_flags : Z
}.

Record extent := Extent {
  ex_addr : Z;                    (* address of the descriptor *)
  ex_name : string;
  ex_regions : list region;
  ex_start : Z;
  ex_end : Z;
  ex_mtype : Z;
  ex_flags : Z;
  fex_freelist : list region      (* meaningful when EXF_FIXED is set *)
}.

(** Sleep channels. *)
Inductive wchan := W_extent | W_freelist.

(** What the routines use of the rest of the kernel: the list of registered
    extents, the region pool (whether a [PR_NOWAIT] request can be served and
    how many descriptors are handed out), and the wake-ups issued. *)
Record kenv := Kenv {
  ke_ext_list : list Z;
  ke_pool_ok : bool;
  ke_pool_out : Z;
  ke_wakeups : list wchan
}.

(** A wake-up: the value [tsleep] returns and the state found on resumption. *)
Definition wake : Type := Z * (extent * kenv).

Record xstate := XState {
  xs_ex : extent;
  xs_env : kenv;
  xs_sched : list wake
}.

Definition with_regions (ex : extent) (l : list region) : extent :=
  Extent (ex_addr ex) (ex_name ex) l (ex_start ex) (ex_end ex) (ex_mtype ex)
    (ex_flags ex) (fex_freelist ex).
Definition with_exflags (ex : extent) (f : Z) : extent :=
  Extent (ex_addr ex) (ex_name ex) (ex_regions ex) (ex_start ex) (ex_end ex)
    (ex_mtype ex) f (fex_freelist ex).
Definition with_freelist (ex : extent) (l : list region) : extent :=
  Extent (ex_addr ex) (ex_name ex) (ex_regions ex) (ex_start ex) (ex_end ex)
    (ex_mtype ex) (ex_flags ex) l.
Definition upd_ex (x : xstate) (ex : extent) : xstate :=
  XState ex (xs_env x) (xs_sched x).
Definition upd_env (x : xstate) (e : kenv) : xstate :=
  XState (xs_ex x) e (xs_sched x).
Definition with_pool_out (e : kenv) (n : Z) : kenv :=
  Kenv (ke_ext_list e) (ke_pool_ok e) n (ke_wakeups e).
Definition with_ext_list (e : kenv) (l : list Z) : kenv :=
  Kenv l (ke_pool_ok e) (ke_pool_out e) (ke_wakeups e).
Definition wakeup (e : kenv) (c : wchan) : kenv :=
  Kenv (ke_ext_list e) (ke_pool_ok e) (ke_pool_out e) (ke_wakeups e ++ [c]).

(** ** Helpers *)

Definition extent_align (start align skew : Z) : Z :=
  Z.land ((start -u skew) +u (align -u 1)) (ul (- align)) +u skew.

(** [LE_OV(x, y, z)] *)
Definition LE_OV (x y z : Z) : bool := (x +u y >=? x) && (x +u y <=? z).

Definition extent_register (e : kenv) (addr : Z) : option kenv :=
  if existsb (Z.eqb addr) (ke_ext_list e) then None
  else Some (with_ext_list e (addr :: ke_ext_list e)).

(** [pool_get(&ex_region_pl, ...)]: a [PR_WAITOK] request is served. *)
Definition pool_get (e : kenv) (waitok : bool) : option kenv :=
  if waitok || ke_pool_ok e then Some (with_pool_out e (ke_pool_out e + 1))
  else None.
Definition pool_put (e : kenv) : kenv := with_pool_out e (ke_pool_out e - 1).

(** The [alloc:] part of [extent_alloc_region_descriptor].  With [EX_WAITOK] a
    [pool_get] may sleep.  Its callers ask for the descriptor before they look
    at the regions of the extent, so such a sleep is part of the time before
    the call: what others do during it is in the state the call starts from. *)
Definition descr_from_pool (x : xstate) (flags : Z) : run xstate (option region) :=
  match pool_get (xs_env x) (has flags EX_WAITOK) with
  | Some e => Done (Some (Region 0 0 ER_ALLOC)) (upd_env x e)
  | None => Done None x
  end.

(** The free-list loop of a fixed extent, one step per wake-up. *)
Fixpoint descr_from_freelist (sched : list wake) (ex : extent) (e : kenv)
    (flags : Z) : run xstate (option region) :=
  match fex_freelist ex with
  | rp :: fl => Done (Some rp) (XState (with_freelist ex fl) e sched)
  | [] =>
      if has flags EX_MALLOCOK then descr_from_pool (XState ex e sched) flags
      else if negb (has flags EX_WAITOK) then Done None (XState ex e sched)
      else
        match sched with
        | [] => Blocked (XState (with_exflags ex (set_flag (ex_flags ex) EXF_FLWANTED)) e [])
        | (err, (ex', e')) :: sched' =>
            if negb (err =? 0) then Done None (XState ex' e' sched')
            else descr_from_freelist sched' ex' e' flags
        end
  end.

Definition extent_alloc_region_descriptor (x : xstate) (flags : Z)
    : run xstate (option region) :=
  if has (ex_flags (xs_ex x)) EXF_FIXED
  then descr_from_freelist (xs_sched x) (xs_ex x) (xs_env x) flags
  else descr_from_pool x flags.

Definition extent_free_region_descriptor (x : xstate) (rp : region) : xstate :=
  let ex := xs_ex x in
  let e := xs_env x in
  let wake_em_up ex e :=
    upd_env (upd_ex x (with_exflags ex (clr_flag (ex_flags ex) EXF_FLWANTED)))
      (wakeup e W_freelist) in
  if has (er_flags rp) ER_DISCARD then x
  else if has (ex_flags ex) EXF_FIXED then
    if has (er_flags rp) ER_ALLOC then
      if has (ex_flags ex) EXF_FLWANTED then
        wake_em_up (with_freelist ex
          (Region (er_start rp) (er_end rp) ER_ALLOC :: fex_freelist ex)) e
      else upd_env x (pool_put e)
    else
      let ex1 := with_freelist ex
        (Region (er_start rp) (er_end rp) 0 :: fex_freelist ex) in
      if has (ex_flags ex) EXF_FLWANTED then wake_em_up ex1 e
      else upd_ex x ex1
  else upd_env x (pool_put e).

(** ** Creation and destruction *)

(** LP64 sizes, already multiples of [sizeof(long)]. *)
Definition SIZEOF_EXTENT_FIXED : Z := 80.
Definition SIZEOF_EXTENT_REGION : Z := 40.

(** The descriptors carved out of the storage of a fixed extent; the storage
    was cleared.  [fuel] bounds the loop: [sz / 40 + 1] rounds are enough. *)
Fixpoint carve_descriptors (fuel : nat) (sz : Z) (fl : list region) : list region :=
  match fuel with
  | O => fl
  | S fuel =>
      if sz >=? SIZEOF_EXTENT_REGION
      then carve_descriptors fuel (sz - SIZEOF_EXTENT_REGION) (Region 0 0 0 :: fl)
      else fl
  end.

(** [storage] is the address of the storage of a fixed extent, [None] for
    [NULL]; [malloced] is the address [malloc] returns, if it is asked. *)
Definition extent_create (e : kenv) (name : option string) (start en mtype : Z)
    (storage : option Z) (storagesize : Z) (malloced : option Z) (flags : Z)
    : run kenv (option (extent * kenv)) :=
  match name with
  | None => Panic
  | Some nm =>
    if en <? start then Panic
    else if match storage with
            | Some _ => storagesize <? SIZEOF_EXTENT_FIXED
            | None => negb (storagesize =? 0)
            end
    then Panic
    else
      let alloc :=
        match storage with
        | Some addr =>
            let sz := storagesize - SIZEOF_EXTENT_FIXED in
            Some (addr, carve_descriptors (Z.to_nat (sz / SIZEOF_EXTENT_REGION + 1)) sz [])
        | None => match malloced with Some a => Some (a, []) | None => None end
        end in
      match alloc with
      | None => Done None e
      | Some (addr, fl) =>
          let f0 := match storage with Some _ => EXF_FIXED | None => 0 end in
          let f1 := if has flags EX_NOCOALESCE then set_flag f0 EXF_NOCOALESCE else f0 in
          let ex := Extent addr nm [] start en mtype f1 fl in
          let reg x :=
            match extent_register (xs_env x) addr with
            | Some e' => Done (Some (xs_ex x, e')) e'
            | None => Panic
            end in
          if has flags EX_FILLED then
            match extent_alloc_region_descriptor (XState ex e []) flags with
            | Done (Some rp) x =>
                reg (upd_ex x (with_regions (xs_ex x)
                       (Region start en (er_flags rp) :: ex_regions (xs_ex x))))
            | Done None x => Done None (xs_env x)
            | Blocked x => Blocked (xs_env x)
            | Panic => Panic
            | NoFuel => NoFuel
            end
          else reg (XState ex e [])
      end
  end.

Fixpoint free_all_regions (n : nat) (x : xstate) : xstate :=
  match n with
  | O => x
  | S n =>
      match ex_regions (xs_ex x) with
      | [] => x
      | orp :: l =>
          free_all_regions n
            (extent_free_region_descriptor (upd_ex x (with_regions (xs_ex x) l)) orp)
      end
  end.

(** The descriptor of an extent that is not fixed is freed; a fixed one stays
    in the caller's storage. *)
Definition extent_destroy (x : xstate) : kenv * option extent :=
  let x1 := free_all_regions (length (ex_regions (xs_ex x))) x in
  let ex := xs_ex x1 in
  let e := with_ext_list (xs_env x1)
    (List.filter (fun a => negb (a =? ex_addr ex)) (ke_ext_list (xs_env x1))) in
  (e, if has (ex_flags ex) EXF_FIXED then Some ex else None).

(** ** Insertion *)

Definition insert_at (i : nat) (r : region) (l : list region) : list region :=
  take i l ++ r :: drop i l.

Definition extent_insert_and_optimize (x : xstate) (start size : Z)
    (after : option nat) (rp : region) : xstate :=
  let ex := xs_ex x in
  let rs := ex_regions ex in
  let nocoalesce := has (ex_flags ex) EXF_NOCOALESCE in
  let filled := Region start (start +u (size -u 1)) (er_flags rp) in
  match after with
  | None =>
      match rs with
      | r0 :: rs' =>
          if negb nocoalesce && (start +u size =? er_start r0)
          then extent_free_region_descriptor
                 (upd_ex x (with_regions ex
                    (Region start (er_end r0) (er_flags r0) :: rs'))) rp
          else upd_ex x (with_regions ex (filled :: rs))
      | [] => upd_ex x (with_regions ex (filled :: rs))
      end
  | Some i =>
      match rs !! i with
      | None => x
      | Some a =>
          let cant_coalesce := upd_ex x (with_regions ex (insert_at (S i) filled rs)) in
          if nocoalesce then cant_coalesce
          else
            let appended := er_end a +u 1 =? start in
            let a' := if appended
                      then Region (er_start a) (start +u (size -u 1)) (er_flags a)
                      else a in
            let rs1 := <[i := a']> rs in
            let try_append :=
              if appended
              then extent_free_region_descriptor (upd_ex x (with_regions ex rs1)) rp
              else cant_coalesce in
            match rs !! S i with
            | Some nextr =>
                if start +u size =? er_start nextr then
                  if appended then
                    let a2 := Region (er_start a) (er_end nextr) (er_flags a) in
                    let x1 := upd_ex x (with_regions ex
                                (delete (S i) (<[i := a2]> rs))) in
                    extent_free_region_descriptor
                      (extent_free_region_descriptor x1 nextr) rp
                  else
                    extent_free_region_descriptor
                      (upd_ex x (with_regions ex
                        (<[S i := Region start (er_end nextr) (er_flags nextr)]> rs))) rp
                else try_append
            | None => try_append
            end
      end
  end.

(** ** Allocation of a given region *)

Inductive region_scan :=
| Fits (last : option nat)
| Conflict (i : nat) (rp : region).

(** The [LIST_FOREACH] of [extent_alloc_region]. *)
Fixpoint alloc_region_scan (start en : Z) (i : nat) (last : option nat)
    (l : list region) : region_scan :=
  match l with
  | [] => Fits last
  | rp :: l' =>
      if er_start rp >? en then Fits last
      else if er_end rp >=? start then Conflict i rp
      else alloc_region_scan start en (S i) (Some i) l'
  end.

(** From [alloc_start:] on; every [goto alloc_start] takes one unit of fuel. *)
Fixpoint alloc_region_loop (fuel : nat) (x : xstate) (start en size flags : Z)
    (myrp : region) : run xstate Z :=
  match fuel with
  | O => NoFuel
  | S fuel =>
    let ex := xs_ex x in
    match alloc_region_scan start en 0 None (ex_regions ex) with
    | Fits last => Done 0 (extent_insert_and_optimize x start size last myrp)
    | Conflict i rp =>
        if has flags EX_WAITSPACE then
          match xs_sched x with
          | [] => Blocked (upd_ex x (with_exflags ex (set_flag (ex_flags ex) EXF_WANTED)))
          | (err, (ex', e')) :: sched' =>
              let x' := XState ex' e' sched' in
              if negb (err =? 0) then Done err x'
              else alloc_region_loop fuel x' start en size flags myrp
          end
        else if has flags EX_CONFLICTOK then
          if er_start rp <=? start then
            if er_end rp <? ex_end ex then
              let start' := er_end rp +u 1 in
              alloc_region_loop fuel x start' en (en -u start' +u 1) flags myrp
            else Done 0 x
          else if er_end rp <? en then
            let x1 := upd_ex x (with_regions ex (delete i (ex_regions ex))) in
            alloc_region_loop fuel (extent_free_region_descriptor x1 rp)
              start en size flags myrp
          else if er_start rp <? en then
            if er_start rp >? ex_start ex then
              let en' := er_start rp -u 1 in
              alloc_region_loop fuel x start en' (en' -u start +u 1) flags myrp
            else Done 0 x
          else Done 0 x
        else Done EAGAIN (extent_free_region_descriptor x myrp)
    end
  end.

Definition extent_alloc_region (fuel : nat) (x : xstate) (start size flags : Z)
    : run xstate Z :=
  let en := start +u (size -u 1) in
  if size <? 1 then Panic
  else if en <? start then Panic
  else if has flags EX_CONFLICTOK && has flags EX_WAITSPACE then Panic
  else if (start <? ex_start (xs_ex x)) || (en >? ex_end (xs_ex x)) then Panic
  else
    match extent_alloc_region_descriptor x flags with
    | Done (Some myrp) x1 => alloc_region_loop fuel x1 start en size flags myrp
    | Done None x1 => Done ENOMEM x1
    | Blocked x1 => Blocked x1
    | Panic => Panic
    | NoFuel => NoFuel
    end.

(** ** Allocation anywhere in a subregion *)

Inductive bound_check := BC_ok (newstart : Z) | BC_nofit | BC_fail.

(** The boundary check, written twice in the source with the fit test of the
    place: [fits] is [LE_OV(_, size, rp->er_start)] in the loop and
    [LE_OV(_, size - 1, subend)] at the end. *)
Definition do_alloc_boundary (ex : extent) (newstart size boundary flags : Z)
    (fits : Z -> bool) : bound_check :=
  let newend := newstart +u (size -u 1) in
  let dontcross := extent_align (newstart +u 1) boundary
    (if has flags EX_BOUNDZERO then 0 else ex_start ex) -u 1 in
  let last_check ns dc :=
    if (ns +u size -u 1 >? ex_end ex) || (dc <? ns) then BC_fail else BC_ok ns in
  if dontcross <? ex_start ex then last_check newstart (ex_end ex)
  else if newend >? dontcross then
    let newstart' := dontcross +u 1 in
    if negb (fits newstart') then BC_nofit
    else last_check newstart' (dontcross +u boundary)
  else last_check newstart dontcross.

(** The running candidate of the search. *)
Record cand := Cand {
  c_newstart : Z;
  c_last : option nat;
  c_bestovh : Z;
  c_beststart : Z;
  c_bestlast : option nat
}.

Definition better (c : cand) (ovh newstart : Z) : cand :=
  if (c_bestovh c =? 0) || (ovh <? c_bestovh c)
  then Cand (c_newstart c) (c_last c) ovh newstart (c_last c)
  else c.

Inductive alloc_scan :=
| ScanFound (newstart : Z) (last : option nat)
| ScanFail (c : cand)
| ScanEnd (c : cand) (exend : Z).

(** The first [LIST_FOREACH]: [last], the index of [rp], and the list from
    [rp] on. *)
Fixpoint find_first (newstart : Z) (i : nat) (last : option nat)
    (l : list region) : option nat * nat * list region :=
  match l with
  | [] => (last, i, [])
  | rp :: l' =>
      if er_start rp >=? newstart then (last, i, l)
      else find_first newstart (S i) (Some i) l'
  end.

(** The loop over the regions from [rp] on. *)
Fixpoint do_alloc_scan (ex : extent) (subend size alignment skew boundary flags : Z)
    (i : nat) (l : list region) (c : cand) : alloc_scan :=
  match l with
  | [] => ScanEnd c (ex_end ex)
  | rp :: l' =>
    if er_start rp >? subend then ScanEnd c (er_start rp)
    else
      let skip c :=
        let ns := extent_align (er_end rp +u 1) alignment skew in
        if ns <? er_end rp then ScanFail c
        else do_alloc_scan ex subend size alignment skew boundary flags (S i) l'
               (Cand ns (Some i) (c_bestovh c) (c_beststart c) (c_bestlast c)) in
      if LE_OV (c_newstart c) size (er_start rp) then
        match (if boundary =? 0 then BC_ok (c_newstart c)
               else do_alloc_boundary ex (c_newstart c) size boundary flags
                      (fun ns => LE_OV ns size (er_start rp))) with
        | BC_nofit => skip c
        | BC_fail => ScanFail c
        | BC_ok ns =>
            let ovh := er_start rp -u ns -u size in
            if has flags EX_FAST || (ovh =? 0) then ScanFound ns (c_last c)
            else skip (better c ovh ns)
        end
      else skip c
  end.

(** The final check against the end of the subregion. *)
Definition do_alloc_final (ex : extent) (subend size boundary flags : Z)
    (c : cand) (exend : Z) : alloc_scan :=
  if LE_OV (c_newstart c) (size -u 1) subend then
    match (if boundary =? 0 then BC_ok (c_newstart c)
           else do_alloc_boundary ex (c_newstart c) size boundary flags
                  (fun ns => LE_OV ns (size -u 1) subend)) with
    | BC_nofit | BC_fail => ScanFail c
    | BC_ok ns =>
        let ovh := exend -u ns -u (size -u 1) in
        if has flags EX_FAST || (ovh =? 0) then ScanFound ns (c_last c)
        else ScanFail (better c ovh ns)
    end
  else ScanFail c.

(** One attempt, from [alloc_start:] to [fail:] or [found:]. [None] is the
    panic on overflow after alignment; [Some None] is no space. *)
Definition do_alloc_try (ex : extent) (substart subend size alignment skew
    boundary flags : Z) : option (option (Z * option nat)) :=
  let newstart := extent_align substart alignment skew in
  if newstart <? ex_start ex then None
  else
    let '(last, i, rest) := find_first newstart 0 None (ex_regions ex) in
    let newstart1 :=
      match last with
      | Some j =>
          match ex_regions ex !! j with
          | Some r => if er_end r >=? newstart
                      then extent_align (er_end r +u 1) alignment skew else newstart
          | None => newstart
          end
      | None => newstart
      end in
    let fail c :=
      if negb (has flags EX_FAST) && negb (c_bestovh c =? 0)
      then Some (Some (c_beststart c, c_bestlast c)) else Some None in
    match do_alloc_scan ex subend size alignment skew boundary flags i rest
            (Cand newstart1 last 0 0 None) with
    | ScanFound ns l => Some (Some (ns, l))
    | ScanFail c => fail c
    | ScanEnd c exend =>
        match do_alloc_final ex subend size boundary flags c exend with
        | ScanFound ns l => Some (Some (ns, l))
        | ScanFail c => fail c
        | ScanEnd c _ => fail c
        end
    end.

(** The retry loop: one step per wake-up. The value is the error and
    [*result]. *)
Fixpoint do_alloc_loop (sched : list wake) (ex : extent) (e : kenv)
    (substart subend size alignment skew boundary flags : Z) (myrp : region)
    : run xstate (Z * option Z) :=
  match do_alloc_try ex substart subend size alignment skew boundary flags with
  | None => Panic
  | Some (Some (newstart, last)) =>
      Done (0, Some newstart)
        (extent_insert_and_optimize (XState ex e sched) newstart size last myrp)
  | Some None =>
      if has flags EX_WAITSPACE then
        match sched with
        | [] => Blocked (XState (with_exflags ex (set_flag (ex_flags ex) EXF_WANTED)) e [])
        | (err, (ex', e')) :: sched' =>
            if negb (err =? 0) then Done (err, None) (XState ex' e' sched')
            else do_alloc_loop sched' ex' e' substart subend size alignment skew
                   boundary flags myrp
        end
      else Done (EAGAIN, None) (extent_free_region_descriptor (XState ex e sched) myrp)
  end.

Definition extent_do_alloc (x : xstate) (substart subend size alignment skew
    boundary flags : Z) (myrp : region) : run xstate (Z * option Z) :=
  let ex := xs_ex x in
  if (substart <? ex_start ex) || (substart >? ex_end ex)
     || (subend >? ex_end ex) || (subend <? ex_start ex) then Panic
  else if (size <? 1) || (size -u 1 >? subend -u substart) then Panic
  else if alignment =? 0 then Panic
  else if negb (boundary =? 0) && (boundary <? size) then Panic
  else do_alloc_loop (xs_sched x) ex (xs_env x) substart subend size alignment
         skew boundary flags myrp.

Definition extent_alloc_subregion (x : xstate) (substart subend size alignment
    skew boundary flags : Z) : run xstate (Z * option Z) :=
  match extent_alloc_region_descriptor x flags with
  | Done (Some rp) x1 =>
      extent_do_alloc x1 substart subend size alignment skew boundary flags rp
  | Done None x1 => Done (ENOMEM, None) x1
  | Blocked x1 => Blocked x1
  | Panic => Panic
  | NoFuel => NoFuel
  end.

Definition extent_alloc_subregion_with_descr (x : xstate) (substart subend size
    alignment skew boundary flags : Z) (rp : region) : run xstate (Z * option Z) :=
  if negb (has (ex_flags (xs_ex x)) EXF_NOCOALESCE) then Panic
  else extent_do_alloc x substart subend size alignment skew boundary flags
         (Region (er_start rp) (er_end rp) ER_DISCARD).

(** ** Freeing *)

Inductive free_case :=
| Free_whole (i : nat) (rp : region)
| Free_head (i : nat) (rp : region)
| Free_tail (i : nat) (rp : region)
| Free_middle (i : nat) (rp : region)
| Free_none.

(** The [LIST_FOREACH] of [extent_free] up to the case that applies. *)
Fixpoint free_scan (nocoalesce : bool) (start en : Z) (i : nat)
    (l : list region) : free_case :=
  match l with
  | [] => Free_none
  | rp :: l' =>
      let continue := free_scan nocoalesce start en (S i) l' in
      if er_end rp <? start then continue
      else if er_start rp >? en then Free_none
      else if (start =? er_start rp) && (en =? er_end rp) then Free_whole i rp
      else if nocoalesce then continue
      else if (start =? er_start rp) && (en <? er_end rp) then Free_head i rp
      else if (start >? er_start rp) && (en =? er_end rp) then Free_tail i rp
      else if (start >? er_start rp) && (en <? er_end rp) then Free_middle i rp
      else continue
  end.

(** The [done:] part. *)
Definition free_done (x : xstate) (nrp : option region) : run xstate Z :=
  let x1 := match nrp with
            | Some r => extent_free_region_descriptor x r
            | None => x
            end in
  let ex := xs_ex x1 in
  if has (ex_flags ex) EXF_WANTED
  then Done 0 (upd_env (upd_ex x1 (with_exflags ex (clr_flag (ex_flags ex) EXF_WANTED)))
                 (wakeup (xs_env x1) W_extent))
  else Done 0 x1.

Definition free_found (x : xstate) (start en : Z) (nrp : option region)
    : run xstate Z :=
  let ex := xs_ex x in
  let rs := ex_regions ex in
  let put l := upd_ex x (with_regions ex l) in
  match free_scan (has (ex_flags ex) EXF_NOCOALESCE) start en 0 rs with
  | Free_none => Panic
  | Free_whole i rp =>
      free_done (extent_free_region_descriptor (put (delete i rs)) rp) nrp
  | Free_head i rp =>
      free_done (put (<[i := Region (en +u 1) (er_end rp) (er_flags rp)]> rs)) nrp
  | Free_tail i rp =>
      free_done (put (<[i := Region (er_start rp) (start -u 1) (er_flags rp)]> rs)) nrp
  | Free_middle i rp =>
      match nrp with
      | Some n =>
          free_done (put (insert_at (S i) (Region (en +u 1) (er_end rp) (er_flags n))
            (<[i := Region (er_start rp) (start -u 1) (er_flags rp)]> rs))) None
      | None => Panic
      end
  end.

Definition extent_free (x : xstate) (start size flags : Z) : run xstate Z :=
  let en := start +u (size -u 1) in
  if (start <? ex_start (xs_ex x)) || (en >? ex_end (xs_ex x)) then Panic
  else if en <? start then Panic
  else if negb (has (ex_flags (xs_ex x)) EXF_NOCOALESCE) then
    match extent_alloc_region_descriptor x flags with
    | Done (Some nrp) x1 => free_found x1 start en (Some nrp)
    | Done None x1 => Done ENOMEM x1
    | Blocked x1 => Blocked x1
    | Panic => Panic
    | NoFuel => NoFuel
    end
  else free_found x start en None.
