(* ===== verification/ExtentFacts.v ===== *)
(** * Correctness of the extent allocator

    The abstract view of an extent is the set of numbers its regions cover.
    The invariant [ext_wf] says the region list is sorted, disjoint and
    within the extent; every operation keeps it and acts on the abstract set
    as documented. *)

From stdpp Require Import base numbers list option strings.
From Stdlib Require Import ZArith Lia Bool.
From S2P Require Import Prelude Extent.

(** ** Alignment *)

Lemma ul_neg_pow2 k :
  0 <= k < 64 -> ul (- 2 ^ k) = Z.shiftl (Z.ones (64 - k)) k.
Proof.
  intros Hk. rewrite Z.shiftl_mul_pow2, Z.ones_equiv by lia.
  unfold ul. rewrite <- (Z_mod_plus_full _ 1). change UL_MOD with (2 ^ 64).
  replace (2 ^ 64) with (2 ^ (64 - k) * 2 ^ k) at 1
    by (rewrite <- Z.pow_add_r by lia; f_equal; lia).
  assert (0 < 2 ^ k) by (apply Z.pow_pos_nonneg; lia).
  assert (2 ^ k * 1 <= 2 ^ k * 2 ^ (64 - k)).
  { apply Z.mul_le_mono_nonneg_l; [lia|].
    assert (0 < 2 ^ (64 - k)) by (apply Z.pow_pos_nonneg; lia). lia. }
  assert (2 ^ (64 - k) * 2 ^ k = 2 ^ 64) as E
    by (rewrite <- Z.pow_add_r by lia; f_equal; lia).
  rewrite Z.mod_small by lia. lia.
Qed.

Lemma land_neg_pow2 x k :
  0 <= k < 64 -> is_ul x -> Z.land x (ul (- 2 ^ k)) = x - x `mod` 2 ^ k.
Proof.
  intros Hk Hx. rewrite ul_neg_pow2 by done.
  assert (x - x `mod` 2 ^ k = Z.shiftl (Z.shiftr x k) k) as ->.
  { rewrite Z.shiftl_mul_pow2, Z.shiftr_div_pow2 by lia.
    rewrite (Z.div_mod x (2 ^ k)) at 1 by (apply Z.pow_nonzero; lia). lia. }
  apply Z.bits_inj'. intros n Hn. rewrite Z.land_spec.
  destruct (decide (n < k)).
  { rewrite !Z.shiftl_spec_low by lia. apply andb_false_r. }
  rewrite !Z.shiftl_spec, Z.shiftr_spec by lia.
  replace (n - k + k) with n by lia.
  rewrite Z.testbit_ones_nonneg by lia.
  destruct (Z.ltb_spec (n - k) (64 - k)); [apply andb_true_r|].
  rewrite andb_false_r. symmetry.
  destruct (decide (x = 0)) as [->|]; [apply Z.bits_0|].
  apply Z.bits_above_log2; [apply Hx|].
  assert (Z.log2 x < 64); [|lia].
  apply Z.log2_lt_pow2; [unfold is_ul in Hx; lia|].
  change (2 ^ 64) with UL_MOD. apply Hx.
Qed.

Lemma mod_ul_pow2 x k : 0 <= k < 64 -> (ul x) `mod` 2 ^ k = x `mod` 2 ^ k.
Proof.
  intros Hk. unfold ul. change UL_MOD with (2 ^ 64).
  replace 64 with (k + (64 - k)) by lia. rewrite Z.pow_add_r by lia.
  rewrite Z.rem_mul_r by (try apply Z.pow_nonzero; try apply Z.pow_pos_nonneg; lia).
  rewrite Z.mul_comm, Z_mod_plus_full. apply Z.mod_mod. apply Z.pow_nonzero; lia.
Qed.

(** The mask arithmetic rounds up to the next value congruent to [skew]. *)
Lemma extent_align_eq start k skew :
  0 <= k < 64 ->
  extent_align start (2 ^ k) skew = ul (start + (skew - start) `mod` 2 ^ k).
Proof.
  intros Hk. unfold extent_align. set (a := 2 ^ k).
  assert (0 < a) by (apply Z.pow_pos_nonneg; lia).
  assert (start -u skew +u (a -u 1) = ul (start - skew + a - 1)) as ->.
  { unfold uadd, usub. rewrite ul_add_l, ul_add_r. f_equal. lia. }
  unfold a at 2. rewrite land_neg_pow2, mod_ul_pow2 by auto with kernel.
  fold a. unfold uadd.
  rewrite <- (Z.add_opp_r (ul _)), <- Z.add_assoc, ul_add_l. f_equal.
  rewrite (Z.mod_eq _ a), (Z.mod_eq (skew - start) a) by lia.
  assert ((start - skew + a - 1) / a = - ((skew - start) / a)) as ->; [|lia].
  symmetry. apply Z.div_unique with (r := a - 1 - (skew - start) `mod` a).
  - left. pose proof (Z.mod_pos_bound (skew - start) a). lia.
  - rewrite (Z.mod_eq (skew - start) a) by lia. lia.
Qed.

(** The sum in [extent_align_eq] does not wrap. *)
Definition align_fits (start align skew : Z) : Prop :=
  start + (skew - start) `mod` align < UL_MOD.

Lemma extent_align_exact start k skew :
  0 <= k < 64 -> 0 <= start -> align_fits start (2 ^ k) skew ->
  extent_align start (2 ^ k) skew = start + (skew - start) `mod` 2 ^ k.
Proof.
  intros Hk Hs Hf. rewrite extent_align_eq by done. apply ul_id.
  unfold is_ul, align_fits in *.
  pose proof (Z.mod_pos_bound (skew - start) (2 ^ k)
    ltac:(apply Z.pow_pos_nonneg; lia)). lia.
Qed.

(** ** Region lists *)

(** Regions are non-empty, ordered and disjoint, within [lo, hi]. *)
Fixpoint regs_ok (lo hi : Z) (l : list region) : Prop :=
  match l with
  | [] => True
  | r :: l' => lo <= er_start r <= er_end r /\ er_end r <= hi /\
               regs_ok (er_end r + 1) hi l'
  end.

Definition in_region (z : Z) (r : region) : Prop := er_start r <= z <= er_end r.

(** The set of numbers a region list covers. *)
Definition covers (l : list region) (z : Z) : Prop := Exists (in_region z) l.

Definition allocated (ex : extent) (z : Z) : Prop := covers (ex_regions ex) z.

Definition ext_wf (ex : extent) : Prop :=
  0 <= ex_start ex <= ex_end ex /\ ex_end ex < UL_MOD /\
  regs_ok (ex_start ex) (ex_end ex) (ex_regions ex).

Definition ends_before (n : Z) (r : region) : Prop := er_end r < n.

Lemma covers_cons r l z : covers (r :: l) z <-> in_region z r \/ covers l z.
Proof. apply Exists_cons. Qed.

Lemma covers_nil z : covers [] z <-> False.
Proof. apply Exists_nil. Qed.

Lemma covers_app l1 l2 z : covers (l1 ++ l2) z <-> covers l1 z \/ covers l2 z.
Proof. apply Exists_app. Qed.

Lemma regs_ok_weaken lo lo' hi l : lo' <= lo -> regs_ok lo hi l -> regs_ok lo' hi l.
Proof. destruct l; simpl; [done|]. intros ? (?&?&?). split_and!; try done; lia. Qed.

(** End of the last region of a prefix, or [lo - 1]. *)
Fixpoint last_end (lo : Z) (l : list region) : Z :=
  match l with [] => lo - 1 | r :: l' => last_end (er_end r + 1) l' end.

Lemma last_end_app lo l r : last_end lo (l ++ [r]) = er_end r.
Proof. revert lo. induction l; intros; simpl; [lia|done]. Qed.

Lemma regs_ok_app lo hi l1 l2 :
  regs_ok lo hi (l1 ++ l2) <-> regs_ok lo hi l1 /\ regs_ok (last_end lo l1 + 1) hi l2.
Proof.
  revert lo. induction l1 as [|r l1 IH]; intros lo; simpl.
  - replace (lo - 1 + 1) with lo by lia. tauto.
  - rewrite IH. tauto.
Qed.

Lemma regs_ok_covers lo hi l z : regs_ok lo hi l -> covers l z -> lo <= z <= hi.
Proof.
  revert lo. induction l as [|r l IH]; intros lo; simpl.
  - by rewrite covers_nil.
  - intros (?&?&Hl). rewrite covers_cons. intros [Hr|Hc].
    + unfold in_region in Hr. lia.
    + specialize (IH _ Hl Hc). lia.
Qed.

Lemma last_end_before lo n l :
  lo <= n -> Forall (ends_before n) l -> last_end lo l < n.
Proof.
  revert lo. induction l as [|r l IH]; simpl; intros lo Hlo Hf; [lia|].
  inversion Hf; subst. apply IH; [|done]. unfold ends_before in *. lia.
Qed.

Lemma covers_before n l z : Forall (ends_before n) l -> covers l z -> z < n.
Proof.
  intros Hf Hc. unfold covers in Hc. rewrite Exists_exists in Hc.
  destruct Hc as (r & Hin & Hr). rewrite Forall_forall in Hf.
  apply Hf in Hin. unfold ends_before, in_region in *. lia.
Qed.

Lemma regs_ok_hi lo hi hi' l :
  Forall (ends_before (hi' + 1)) l -> regs_ok lo hi l -> regs_ok lo hi' l.
Proof.
  revert lo. induction l as [|r l IH]; intros lo Hf; simpl; [done|].
  inversion Hf; subst. unfold ends_before in *. intros (?&?&?).
  split_and!; try done; try lia. by apply IH.
Qed.

(** The pointer to the last region of a prefix. *)
Definition last_idx (l : list region) : option nat :=
  match l with [] => None | _ :: l' => Some (length l') end.

Lemma last_idx_app l r : last_idx (l ++ [r]) = Some (length l).
Proof. destruct l; simpl; [done|]. rewrite length_app. simpl. f_equal. lia. Qed.

(** ** Descriptor release leaves the map alone *)

Lemma frd_frame x r :
  ex_regions (xs_ex (extent_free_region_descriptor x r)) = ex_regions (xs_ex x) /\
  ex_start (xs_ex (extent_free_region_descriptor x r)) = ex_start (xs_ex x) /\
  ex_end (xs_ex (extent_free_region_descriptor x r)) = ex_end (xs_ex x) /\
  xs_sched (extent_free_region_descriptor x r) = xs_sched x.
Proof. unfold extent_free_region_descriptor. repeat step_if; done. Qed.

Lemma frd_flags x r k :
  0 <= k -> k <> 3 ->
  has (ex_flags (xs_ex (extent_free_region_descriptor x r))) (2 ^ k) =
  has (ex_flags (xs_ex x)) (2 ^ k).
Proof.
  intros Hk Hk3. unfold extent_free_region_descriptor.
  repeat step_if; simpl; try done;
    change EXF_FLWANTED with (2 ^ 3); rewrite has_clr_pow2 by lia;
    replace (3 =? k) with false by lia; apply andb_true_r.
Qed.

Lemma frd_regions x r :
  ex_regions (xs_ex (extent_free_region_descriptor x r)) = ex_regions (xs_ex x).
Proof. apply frd_frame. Qed.
Lemma frd_start x r :
  ex_start (xs_ex (extent_free_region_descriptor x r)) = ex_start (xs_ex x).
Proof. apply frd_frame. Qed.
Lemma frd_end x r :
  ex_end (xs_ex (extent_free_region_descriptor x r)) = ex_end (xs_ex x).
Proof. apply frd_frame. Qed.
Lemma frd_sched x r : xs_sched (extent_free_region_descriptor x r) = xs_sched x.
Proof. apply frd_frame. Qed.

Create Rewrite HintDb extent.
#[export] Hint Rewrite frd_regions frd_start frd_end frd_sched : extent.

(** ** Insertion into a gap *)

(** [start, en] lies between the prefix [l1] and the suffix [l2]. *)
Definition gap (lo hi start en : Z) (l1 l2 : list region) : Prop :=
  lo <= start <= en /\ en <= hi /\ Forall (ends_before start) l1 /\
  match l2 with [] => True | r :: _ => en < er_start r end.

(** What insertion of [start, en] must do to the region list. *)
Definition inserted (lo hi start en : Z) (l l' : list region) : Prop :=
  regs_ok lo hi l' /\ forall z, covers l' z <-> covers l z \/ start <= z <= en.

Lemma gap_insert lo hi start en l1 l2 f :
  regs_ok lo hi (l1 ++ l2) -> gap lo hi start en l1 l2 ->
  inserted lo hi start en (l1 ++ l2) (l1 ++ Region start en f :: l2).
Proof.
  intros Hok (Hs & He & Hf & Hl2). apply regs_ok_app in Hok as [H1 H2].
  split.
  - apply regs_ok_app. split; [done|]. simpl.
    pose proof (last_end_before lo start l1 ltac:(lia) Hf).
    split_and!; try lia. destruct l2 as [|r l2]; simpl in *; [done|].
    destruct H2 as (?&?&?). split_and!; try done; lia.
  - intros z. rewrite !covers_app, covers_cons. unfold in_region. simpl. tauto.
Qed.

(** Growing the region after the gap downwards. *)
Lemma gap_prepend lo hi start en l1 r l2 f :
  regs_ok lo hi (l1 ++ r :: l2) -> gap lo hi start en l1 (r :: l2) ->
  en + 1 = er_start r ->
  inserted lo hi start en (l1 ++ r :: l2) (l1 ++ Region start (er_end r) f :: l2).
Proof.
  intros Hok (Hs & He & Hf & Hl2) Hadj. apply regs_ok_app in Hok as [H1 H2].
  simpl in H2. destruct H2 as (?&?&?).
  pose proof (last_end_before lo start l1 ltac:(lia) Hf). split.
  - apply regs_ok_app. split; [done|]. simpl. split_and!; try done; lia.
  - intros z. rewrite !covers_app, !covers_cons. unfold in_region. simpl.
    destruct (Z.le_gt_cases z en), (Z.le_gt_cases start z); intuition lia.
Qed.

(** Growing the region before the gap upwards. *)
Lemma gap_append lo hi start en l1 a l2 f :
  regs_ok lo hi (l1 ++ a :: l2) -> gap lo hi start en (l1 ++ [a]) l2 ->
  er_end a + 1 = start ->
  inserted lo hi start en (l1 ++ a :: l2) (l1 ++ Region (er_start a) en f :: l2).
Proof.
  intros Hok (Hs & He & Hf & Hl2) Hadj. simpl in *. apply regs_ok_app in Hok as [H1 H2]. simpl in H2.
  destruct H2 as (?&?&H2). split.
  - apply regs_ok_app. split; [done|]. simpl. split_and!; try done; try lia.
    destruct l2; simpl in *; [done|]. destruct H2 as (?&?&?). split_and!; try done; lia.
  - intros z. rewrite !covers_app, !covers_cons. unfold in_region. simpl.
    destruct (Z.le_gt_cases z en), (Z.le_gt_cases start z); intuition lia.
Qed.

(** Closing the gap between two regions. *)
Lemma gap_bridge lo hi start en l1 a r l2 f :
  regs_ok lo hi (l1 ++ a :: r :: l2) ->
  gap lo hi start en (l1 ++ [a]) (r :: l2) ->
  er_end a + 1 = start -> en + 1 = er_start r ->
  inserted lo hi start en (l1 ++ a :: r :: l2)
    (l1 ++ Region (er_start a) (er_end r) f :: l2).
Proof.
  intros Hok (Hs & He & Hf & Hl2) Ha Hr. simpl in *. apply regs_ok_app in Hok as [H1 H2]. simpl in H2.
  destruct H2 as (?&?&?&?&?). split.
  - apply regs_ok_app. split; [done|]. simpl. split_and!; try done; lia.
  - intros z. rewrite !covers_app, !covers_cons. unfold in_region. simpl.
    destruct (Z.le_gt_cases z en), (Z.le_gt_cases start z); intuition lia.
Qed.

(** ** [extent_insert_and_optimize] *)

Lemma insert_head_ok x start size l2 rp :
  let ex := xs_ex x in
  ext_wf ex -> ex_regions ex = l2 -> 1 <= size ->
  gap (ex_start ex) (ex_end ex) start (start + size - 1) [] l2 ->
  inserted (ex_start ex) (ex_end ex) start (start + size - 1) l2
    (ex_regions (xs_ex (extent_insert_and_optimize x start size None rp))).
Proof.
  intros ex (Hb & Hm & Hok) Hl2 Hsz Hgap. pose proof Hgap as (Hs & He & _ & Hl).
  unfold extent_insert_and_optimize. fold ex. fold ex in Hok. rewrite Hl2 in *.
  rewrite (usub_exact size 1), uadd_exact by lia.
  replace (start + (size - 1)) with (start + size - 1) by lia.
  destruct l2 as [|r l2]; simpl; [by apply (gap_insert _ _ _ _ [] [])|].
  assert (start +u size = start + size) as ->.
  { apply uadd_exact. simpl in Hok. lia. }
  step_if; simpl; [|by apply (gap_insert _ _ _ _ [])].
  bool_to_prop. autorewrite with extent. simpl.
  apply (gap_prepend _ _ _ _ [] r l2); try done. lia.
Qed.

(** The cases with a region before the gap. *)
Lemma insert_after_ok x start size l1 a l2 rp :
  let ex := xs_ex x in
  ext_wf ex -> ex_regions ex = l1 ++ a :: l2 -> 1 <= size ->
  gap (ex_start ex) (ex_end ex) start (start + size - 1) (l1 ++ [a]) l2 ->
  inserted (ex_start ex) (ex_end ex) start (start + size - 1) (l1 ++ a :: l2)
    (ex_regions (xs_ex
      (extent_insert_and_optimize x start size (Some (length l1)) rp))).
Proof.
  intros ex (Hb & Hm & Hok) Hl Hsz Hgap. pose proof Hgap as (Hs & He & Hf & Hl2).
  unfold extent_insert_and_optimize. fold ex. fold ex in Hok. rewrite Hl in *.
  rewrite (usub_exact size 1), (uadd_exact start (size - 1)) by lia.
  replace (start + (size - 1)) with (start + size - 1) by lia.
  pose proof Hok as Hok2. apply regs_ok_app in Hok2 as [_ Hok2]. simpl in Hok2.
  assert (ex_start ex <= er_end a < start) as Ha.
  { rewrite Forall_app, Forall_singleton in Hf. destruct Hf as [_ Hf].
    split; [|done]. apply (regs_ok_covers _ _ _ _ Hok).
    rewrite covers_app, covers_cons. unfold in_region. right; left. lia. }
  pose proof (gap_insert _ _ _ _ (l1 ++ [a]) l2 (er_flags rp)
    ltac:(by rewrite <- app_assoc) Hgap) as Hins.
  rewrite <- !app_assoc in Hins. simpl in Hins.
  assert (start +u size = start + size \/ l2 = []) as Hsum.
  { destruct l2 as [|r l2]; [by right|left]. apply uadd_exact. simpl in Hok2. lia. }
  unfold insert_at. autorewrite with middle. rewrite <- app_assoc. simpl.
  rewrite (uadd_exact (er_end a)) by lia.
  destruct (has (ex_flags ex) EXF_NOCOALESCE); [done|].
  destruct (Z.eqb_spec (er_end a + 1) start) as [Hadj|Hadj].
  - pose proof (gap_append _ _ _ _ l1 a l2 (er_flags a) Hok Hgap Hadj).
    destruct l2 as [|r l2]; simpl; autorewrite with extent middle; [done|].
    destruct Hsum as [Hsum|]; [|done]. rewrite Hsum.
    destruct (Z.eqb_spec (start + size) (er_start r)); simpl;
      autorewrite with extent; simpl; autorewrite with middle; [|done].
    apply gap_bridge; try done. lia.
  - destruct l2 as [|r l2]; simpl; [done|].
    destruct Hsum as [Hsum|]; [|done]. rewrite Hsum.
    destruct (Z.eqb_spec (start + size) (er_start r)); simpl; [|done].
    autorewrite with extent. simpl. autorewrite with middle.
    pose proof (gap_prepend _ _ _ _ (l1 ++ [a]) r l2 (er_flags r)
      ltac:(by rewrite <- app_assoc) Hgap ltac:(lia)) as G.
    by rewrite <- !app_assoc in G.
Qed.

Lemma insert_frame x start size after rp :
  let x' := extent_insert_and_optimize x start size after rp in
  ex_start (xs_ex x') = ex_start (xs_ex x) /\ ex_end (xs_ex x') = ex_end (xs_ex x) /\
  xs_sched x' = xs_sched x.
Proof.
  unfold extent_insert_and_optimize.
  destruct after as [i|]; [destruct (_ !! i); [|done]|destruct (ex_regions _)];
    try destruct (_ !! S i);
    repeat step_if; simpl; autorewrite with extent; done.
Qed.

(** Insertion after the regions that end before [start] adds exactly the
    requested range and keeps the list well formed. *)
Lemma insert_ok x start size l1 l2 rp :
  let ex := xs_ex x in
  let x' := extent_insert_and_optimize x start size (last_idx l1) rp in
  ext_wf ex -> ex_regions ex = l1 ++ l2 -> 1 <= size ->
  gap (ex_start ex) (ex_end ex) start (start + size - 1) l1 l2 ->
  ext_wf (xs_ex x') /\
  forall z, allocated (xs_ex x') z <-> allocated ex z \/ start <= z <= start + size - 1.
Proof.
  intros ex x' Hwf Hl Hsz Hgap.
  assert (inserted (ex_start ex) (ex_end ex) start (start + size - 1)
    (ex_regions ex) (ex_regions (xs_ex x'))) as [Hok Hcov].
  { destruct l1 as [|a l1 _] using rev_ind.
    - rewrite Hl. by apply insert_head_ok.
    - subst x'. rewrite last_idx_app. rewrite <- app_assoc in Hl. simpl in Hl.
      rewrite Hl. by apply insert_after_ok. }
  pose proof (insert_frame x start size (last_idx l1) rp) as (E1 & E2 & _).
  fold x' in E1, E2. split; [|done]. unfold ext_wf. rewrite E1, E2.
  destruct Hwf as (?&?&_). done.
Qed.

(** ** States a thread can see

    A call runs on the state it was entered with or, after a sleep, on the
    state of a wake-up. *)

Definition same_map (a b : extent) : Prop :=
  ex_regions a = ex_regions b /\ ex_start a = ex_start b /\ ex_end a = ex_end b /\
  has (ex_flags a) EXF_NOCOALESCE = has (ex_flags b) EXF_NOCOALESCE.

Definition visible (x : xstate) (ex : extent) : Prop :=
  ex = xs_ex x \/ exists w, w ∈ xs_sched x /\ ex = fst (snd w).

(** [ex0] is the map of a visible state. *)
Definition seen (x : xstate) (ex0 : extent) : Prop :=
  exists ex, visible x ex /\ same_map ex0 ex.

Definition bounded (lo hi : Z) (ex : extent) : Prop :=
  ext_wf ex /\ ex_start ex = lo /\ ex_end ex = hi.

(** Every visible state is well formed and has the bounds of the extent. *)
Definition safe_env (lo hi : Z) (x : xstate) : Prop :=
  forall ex, visible x ex -> bounded lo hi ex.

Lemma same_map_allocated a b z : same_map a b -> allocated a z <-> allocated b z.
Proof. intros (E&_). unfold allocated. by rewrite E. Qed.

Lemma same_map_bounded lo hi a b : same_map a b -> bounded lo hi b -> bounded lo hi a.
Proof.
  intros (E1&E2&E3&_) ((?&?&?)&?&?). unfold bounded, ext_wf.
  rewrite E1, E2, E3. done.
Qed.

Lemma same_map_refl a : same_map a a.
Proof. done. Qed.
Lemma same_map_trans a b c : same_map a b -> same_map b c -> same_map a c.
Proof. unfold same_map. intuition congruence. Qed.
#[export] Hint Resolve same_map_refl : kernel.

Lemma frd_same_map x r : same_map (xs_ex (extent_free_region_descriptor x r)) (xs_ex x).
Proof. split_and!; try apply frd_frame. by apply (frd_flags x r 1). Qed.

(** [x'] is a later state of the same call: what it sees, [x] could see. *)
Definition later (x x' : xstate) : Prop :=
  (length (xs_sched x') <= length (xs_sched x))%nat /\
  forall ex, visible x' ex -> seen x ex.

Lemma later_refl x : later x x.
Proof. split; [done|]. intros ex H. exists ex. auto with kernel. Qed.

Lemma later_seen x x' ex : later x x' -> seen x' ex -> seen x ex.
Proof.
  intros [_ H] (ex1 & Hv & Hs). destruct (H _ Hv) as (ex2 & Hv2 & Hs2).
  exists ex2. split; [done|]. by eapply same_map_trans.
Qed.

Lemma later_trans x y z : later x y -> later y z -> later x z.
Proof.
  intros H1 [L2 H2]. split; [destruct H1; lia|].
  intros ex Hv. eapply later_seen; [done|]. by apply H2.
Qed.

Lemma later_safe lo hi x x' : later x x' -> safe_env lo hi x -> safe_env lo hi x'.
Proof.
  intros [_ H] Hs ex Hv. destruct (H _ Hv) as (ex1 & Hv1 & Hm).
  eapply same_map_bounded; [done|]. by apply Hs.
Qed.

Lemma later_map x x' :
  xs_sched x' = xs_sched x -> same_map (xs_ex x') (xs_ex x) -> later x x'.
Proof.
  intros Es Hm. split; [by rewrite Es|]. intros ex [->|(w & Hw & ->)].
  - exists (xs_ex x). split; [by left|done].
  - exists (fst (snd w)). split; [|done]. right. rewrite Es in Hw. eauto.
Qed.

Lemma later_wake x err ex' e' sched' :
  xs_sched x = (err, (ex', e')) :: sched' -> later x (XState ex' e' sched').
Proof.
  intros Es. split; [rewrite Es; simpl; lia|]. intros ex [->|(w & Hw & ->)]; simpl.
  - exists ex'. split; [|done]. right. exists (err, (ex', e')).
    rewrite Es. split; [by left|done].
  - exists (fst (snd w)). split; [|done]. right. exists w. rewrite Es.
    split; [by right|done].
Qed.

Lemma seen_here x : seen x (xs_ex x).
Proof. exists (xs_ex x). split; [by left|done]. Qed.
#[export] Hint Resolve later_refl seen_here : kernel.

Lemma set_flwanted_nocoalesce f :
  has (set_flag f EXF_FLWANTED) EXF_NOCOALESCE = has f EXF_NOCOALESCE.
Proof.
  change EXF_FLWANTED with (2 ^ 3). change EXF_NOCOALESCE with (2 ^ 1).
  rewrite has_set_pow2 by lia. apply orb_false_r.
Qed.
#[export] Hint Rewrite set_flwanted_nocoalesce : extent.

(** ** Descriptor allocation *)

Lemma descr_from_pool_later x flags :
  exists o x', descr_from_pool x flags = Done o x' /\ later x x'.
Proof.
  unfold descr_from_pool. destruct (pool_get _ _); do 2 eexists;
    (split; [done|]); auto with kernel. by apply later_map.
Qed.

Lemma descr_from_freelist_later sched ex e flags :
  match descr_from_freelist sched ex e flags with
  | Done _ x' | Blocked x' => later (XState ex e sched) x'
  | Panic | NoFuel => False
  end.
Proof.
  revert ex e. induction sched as [|[err [ex' e']] sched IH]; intros ex e; simpl.
  - destruct (fex_freelist ex); [|by apply later_map].
    destruct (descr_from_pool_later (XState ex e []) flags) as (o & x' & -> & Hl).
    repeat step_if; auto with kernel. apply later_map; [done|].
    split_and!; try done. apply set_flwanted_nocoalesce.
  - destruct (fex_freelist ex); [|by apply later_map].
    match goal with |- context [descr_from_pool ?x flags] =>
      destruct (descr_from_pool_later x flags) as (o & x' & -> & Hl) end.
    repeat step_if; auto with kernel.
    + by eapply later_wake.
    + specialize (IH ex' e'). destruct (descr_from_freelist _ _ _ _); try done;
        (eapply later_trans; [|exact IH]; by eapply later_wake).
Qed.

Lemma alloc_descr_later x flags :
  match extent_alloc_region_descriptor x flags with
  | Done _ x' | Blocked x' => later x x'
  | Panic | NoFuel => False
  end.
Proof.
  unfold extent_alloc_region_descriptor. step_if.
  - destruct x as [ex e sched]. apply descr_from_freelist_later.
  - by destruct (descr_from_pool_later x flags) as (o & x' & -> & ?).
Qed.

(** ** [extent_alloc_region] *)

Definition next_idx (i : nat) (last : option nat) (l : list region) : option nat :=
  match l with [] => last | _ :: l' => Some (i + length l')%nat end.

Lemma alloc_region_scan_spec start en i last l :
  match alloc_region_scan start en i last l with
  | Fits last' => exists l1 l2, l = l1 ++ l2 /\ Forall (ends_before start) l1 /\
      match l2 with [] => True | r :: _ => en < er_start r end /\
      last' = next_idx i last l1
  | Conflict j rp => exists l1 l2, l = l1 ++ rp :: l2 /\ j = (i + length l1)%nat /\
      Forall (ends_before start) l1 /\ er_start rp <= en /\ start <= er_end rp
  end.
Proof.
  revert i last. induction l as [|r l IH]; intros i last; simpl.
  { exists [], []. simpl. auto. }
  destruct (er_start r >? en) eqn:E1; bool_to_prop.
  { exists [], (r :: l). simpl. auto. }
  destruct (er_end r >=? start) eqn:E2; bool_to_prop.
  { exists [], l. simpl. split_and!; auto. }
  specialize (IH (S i) (Some i)).
  destruct (alloc_region_scan _ _ _ _ _) as [last'|j rp].
  - destruct IH as (l1 & l2 & -> & Hf & Hl2 & ->). exists (r :: l1), l2.
    split_and!; [done|by constructor|done|]. destruct l1; simpl; f_equal; lia.
  - destruct IH as (l1 & l2 & -> & -> & Hf & ? & ?). exists (r :: l1), l2.
    split_and!; [done|simpl; lia|by constructor|done|done].
Qed.

Definition range_free (ex : extent) (start en : Z) : Prop :=
  forall z, start <= z <= en -> ~ allocated ex z.

Lemma gap_free ex start en l1 l2 :
  ext_wf ex -> ex_regions ex = l1 ++ l2 ->
  gap (ex_start ex) (ex_end ex) start en l1 l2 -> range_free ex start en.
Proof.
  intros (Hb & Hm & Hok) E (Hs & He & Hf & Hl2) z Hz. unfold allocated.
  rewrite E, covers_app. rewrite E in Hok. apply regs_ok_app in Hok as [_ Hok].
  intros [Hc|Hc]; [apply (covers_before start) in Hc; [lia|done]|].
  destruct l2 as [|r l2]; [by apply covers_nil in Hc|].
  simpl in Hok. destruct Hok as (?&?&Hok). apply covers_cons in Hc as [Hc|Hc].
  - unfold in_region in Hc. lia.
  - apply (regs_ok_covers _ _ _ _ Hok) in Hc. lia.
Qed.

(** The scan decides whether the requested range is free. *)
Lemma alloc_region_scan_sound ex start en :
  ext_wf ex -> ex_start ex <= start <= en -> en <= ex_end ex ->
  match alloc_region_scan start en 0 None (ex_regions ex) with
  | Fits last' => exists l1 l2, ex_regions ex = l1 ++ l2 /\ last' = last_idx l1 /\
      gap (ex_start ex) (ex_end ex) start en l1 l2 /\ range_free ex start en
  | Conflict j rp => exists l1 l2, ex_regions ex = l1 ++ rp :: l2 /\ j = length l1 /\
      Forall (ends_before start) l1 /\
      er_start rp <= en /\ start <= er_end rp /\ ~ range_free ex start en
  end.
Proof.
  intros Hwf Hs He. pose proof Hwf as (Hb & Hm & Hok).
  pose proof (alloc_region_scan_spec start en 0 None (ex_regions ex)) as H.
  destruct (alloc_region_scan _ _ _ _ _) as [last'|j rp].
  - destruct H as (l1 & l2 & E & Hf & Hl2 & ->). exists l1, l2.
    assert (gap (ex_start ex) (ex_end ex) start en l1 l2) by (by repeat split; try lia).
    split_and!; [done|by destruct l1|done|by eapply gap_free].
  - destruct H as (l1 & l2 & E & -> & Hf & ? & ?). exists l1, l2.
    split_and!; try done. rewrite E in Hok. apply regs_ok_app in Hok as [_ Hok].
    simpl in Hok. intros Hfree. apply (Hfree (Z.max start (er_start rp))); [lia|].
    unfold allocated. rewrite E, covers_app, covers_cons. unfold in_region.
    right; left. lia.
Qed.

(** Outcome of an allocation of [start, en] seen from state [x]: the error
    code decides what happened to the map. *)
Definition region_alloc_post (x : xstate) (start en flags : Z) (err : Z)
    (x' : xstate) : Prop :=
  exists ex0, seen x ex0 /\ ext_wf (xs_ex x') /\
    if err =? 0 then
      range_free ex0 start en /\
      forall z, allocated (xs_ex x') z <-> allocated ex0 z \/ start <= z <= en
    else
      (forall z, allocated (xs_ex x') z <-> allocated ex0 z) /\
      (err = EAGAIN -> has flags EX_WAITSPACE = false -> ~ range_free ex0 start en).

Lemma alloc_region_loop_spec fuel x lo hi start size flags myrp :
  safe_env lo hi x -> lo <= start -> 1 <= size -> start + size - 1 <= hi ->
  has flags EX_CONFLICTOK = false -> (length (xs_sched x) < fuel)%nat ->
  let en := start + size - 1 in
  match alloc_region_loop fuel x start en size flags myrp with
  | Done err x' => region_alloc_post x start en flags err x'
  | Blocked x' => exists ex0, seen x ex0 /\ ~ range_free ex0 start en
  | Panic | NoFuel => False
  end.
Proof.
  intros Hs Hlo Hsz Hhi Hc Hfuel en. subst en.
  revert x Hs Hfuel. induction fuel as [|fuel IH]; intros x Hs Hfuel; [lia|].
  destruct (Hs (xs_ex x) ltac:(by left)) as (Hwf & Elo & Ehi). simpl.
  pose proof (alloc_region_scan_sound (xs_ex x) start (start + size - 1) Hwf
    ltac:(lia) ltac:(lia)) as Hscan.
  destruct (alloc_region_scan _ _ _ _ _) as [last|j rp].
  - destruct Hscan as (l1 & l2 & E & -> & Hgap & Hfree).
    destruct (insert_ok x start size l1 l2 myrp Hwf E Hsz Hgap) as [Hwf' Hcov].
    exists (xs_ex x). split; [auto with kernel|]. simpl. done.
  - destruct Hscan as (l1 & l2 & E & -> & Hf & ? & ? & Hbusy). rewrite Hc.
    destruct (has flags EX_WAITSPACE) eqn:Hw.
    + destruct (xs_sched x) as [|[err [ex' e']] sched'] eqn:Es.
      { exists (xs_ex x). auto with kernel. }
      pose proof (later_wake x err ex' e' sched' Es) as Hlat.
      pose proof (later_safe _ _ _ _ Hlat Hs) as Hs'. simpl in Hfuel.
      destruct (err =? 0) eqn:Herr; simpl.
      * specialize (IH (XState ex' e' sched') Hs' ltac:(simpl; lia)).
        destruct (alloc_region_loop _ _ _ _ _ _ _); try done.
        -- destruct IH as (ex0 & ? & ?). exists ex0. split; [|done].
           by eapply later_seen.
        -- destruct IH as (ex0 & ? & ?). exists ex0. split; [|done].
           by eapply later_seen.
      * exists ex'. rewrite Herr. split_and!; try done.
        -- eapply later_seen; [done|]. apply (seen_here (XState ex' e' sched')).
        -- by apply (Hs' ex' ltac:(by left)).
        -- congruence.
    + exists (xs_ex x). pose proof (frd_same_map x myrp) as Hm.
      split; [auto with kernel|]. split.
      * eapply (same_map_bounded lo hi); [done|]. by split.
      * change (EAGAIN =? 0) with false. split; [|done].
        intros z. by apply same_map_allocated.
Qed.

(** A request the DIAGNOSTIC checks accept. *)
Definition valid_region_request (ex : extent) (start size flags : Z) : Prop :=
  ex_start ex <= start /\ 1 <= size /\ start + size - 1 <= ex_end ex /\
  (has flags EX_CONFLICTOK && has flags EX_WAITSPACE) = false.

(** C1: [extent_alloc_region] without EX_CONFLICTOK, on a well-formed extent
    and whatever the other threads do while it sleeps: it never panics on a
    request within the extent; when it returns 0 the range was entirely free
    in the state it allocated from and the new map is that state's map plus
    exactly the range; when it fails the map is unchanged, and EAGAIN (with
    EX_WAITSPACE off) means the range really conflicts; the region list stays
    sorted, disjoint and inside the extent. *)
Theorem extent_alloc_region_correct fuel x start size flags :
  safe_env (ex_start (xs_ex x)) (ex_end (xs_ex x)) x ->
  valid_region_request (xs_ex x) start size flags ->
  has flags EX_CONFLICTOK = false -> (length (xs_sched x) < fuel)%nat ->
  match extent_alloc_region fuel x start size flags with
  | Done err x' =>
      if err =? ENOMEM then exists ex0, seen x ex0 /\
        forall z, allocated (xs_ex x') z <-> allocated ex0 z
      else region_alloc_post x start (start + size - 1) flags err x'
  | Blocked _ => True
  | Panic | NoFuel => False
  end.
Proof.
  intros Hs (Hst & Hsz & Hen & Hfl) Hc Hfuel.
  destruct (Hs (xs_ex x) ltac:(by left)) as ((Hb & Hm & _) & _).
  unfold extent_alloc_region.
  rewrite (usub_exact size 1), (uadd_exact start) by lia.
  replace (start + (size - 1)) with (start + size - 1) by lia.
  replace (size <? 1) with false by lia.
  replace (start + size - 1 <? start) with false by lia. rewrite Hfl.
  replace ((start <? ex_start (xs_ex x)) || (start + size - 1 >? ex_end (xs_ex x)))
    with false by lia.
  pose proof (alloc_descr_later x flags) as Hlat.
  destruct (extent_alloc_region_descriptor x flags) as [[myrp|] x1| | |]; try done.
  - pose proof (later_safe _ _ _ _ Hlat Hs) as Hs1.
    pose proof (alloc_region_loop_spec fuel x1 _ _ start size flags myrp Hs1 Hst Hsz
      Hen Hc ltac:(destruct Hlat; lia)) as Hloop. simpl in Hloop.
    destruct (alloc_region_loop _ _ _ _ _ _ _) as [err x'| | |]; try done.
    destruct Hloop as (ex0 & Hseen & Hwf & Hpost).
    assert (seen x ex0) by (by eapply later_seen).
    destruct (Z.eqb_spec err ENOMEM) as [->|].
    + simpl in Hpost. exists ex0. split; [done|]. apply Hpost.
    + by exists ex0.
  - simpl. exists (xs_ex x1). split; [|done].
    apply (later_seen x x1); auto with kernel.
Qed.

Definition demo_extent : extent :=
  Extent 4096 "demo" [Region 10 19 0; Region 30 39 0] 0 99 0 0 [].
Definition demo_env : kenv := Kenv [4096] true 2 [].
Definition demo_state : xstate := XState demo_extent demo_env [].

Lemma demo_safe : safe_env 0 99 demo_state.
Proof.
  intros ex [->|(w & Hw & _)]; [|inversion Hw].
  unfold bounded, ext_wf, UL_MOD. simpl. lia.
Qed.

(** Witness: [20, 29] is allocated between two regions. *)
Lemma extent_alloc_region_correct_witness :
  exists x', extent_alloc_region 1 demo_state 20 10 0 = Done 0 x' /\
    region_alloc_post demo_state 20 29 0 0 x'.
Proof.
  pose proof (extent_alloc_region_correct 1 demo_state 20 10 0 demo_safe
    ltac:(unfold valid_region_request; simpl; repeat split; lia)
    eq_refl ltac:(simpl; lia)) as H.
  eexists. split; [vm_compute; reflexivity|]. exact H.
Defined.

(** ** [extent_free] *)

Lemma regs_ok_join s e hi mid l2 :
  s <= e + 1 -> e <= hi -> regs_ok s e mid -> regs_ok (e + 1) hi l2 ->
  regs_ok s hi (mid ++ l2).
Proof.
  revert s. induction mid as [|m mid IH]; intros s Hs He Hm H2; simpl in *.
  - by eapply regs_ok_weaken.
  - destruct Hm as (?&?&?). split_and!; try lia. apply IH; [lia|done..].
Qed.

Lemma regs_ok_last_end lo hi l :
  regs_ok lo hi l -> lo - 1 <= last_end lo l /\ forall z, covers l z -> z <= last_end lo l.
Proof.
  revert lo. induction l as [|r l IH]; intros lo; simpl.
  - intros _. split; [lia|]. intros z. by rewrite covers_nil.
  - intros (?&?&Hl). destruct (IH _ Hl) as [? Hz]. split; [lia|].
    intros z. rewrite covers_cons. unfold in_region. intros [?|?]; [lia|auto].
Qed.

(** Replacing the region [rp] by the regions [mid] it is reduced to. *)
Lemma carve lo hi l1 rp mid l2 start en :
  regs_ok lo hi (l1 ++ rp :: l2) -> er_start rp <= start -> en <= er_end rp ->
  regs_ok (er_start rp) (er_end rp) mid ->
  (forall z, covers mid z <-> in_region z rp /\ ~ start <= z <= en) ->
  regs_ok lo hi (l1 ++ mid ++ l2) /\
  forall z, covers (l1 ++ mid ++ l2) z <-> covers (l1 ++ rp :: l2) z /\ ~ start <= z <= en.
Proof.
  intros Hok Hs He Hmid Hcov. apply regs_ok_app in Hok as [H1 Hr].
  simpl in Hr. destruct Hr as (? & ? & H2). split.
  - apply regs_ok_app. split; [done|]. apply (regs_ok_weaken (er_start rp)); [lia|].
    apply (regs_ok_join _ (er_end rp)); try done. lia.
  - intros z. rewrite !covers_app, covers_cons, Hcov.
    pose proof (proj2 (regs_ok_last_end _ _ _ H1) z).
    pose proof (regs_ok_covers _ _ _ z H2). unfold in_region. intuition lia.
Qed.

(** What [extent_free] accepts: the range lies in one region and, in an
    extent that does not coalesce, is that region. *)
Definition freeable (nocoalesce : bool) (start en : Z) (r : region) : Prop :=
  if nocoalesce then er_start r = start /\ er_end r = en
  else er_start r <= start /\ en <= er_end r.

(** What the scan answers, for the suffix [l] that starts at index [i]. *)
Definition free_case_ok (nc : bool) (start en : Z) (i : nat) (l : list region)
    (c : free_case) : Prop :=
  let at_ j rp := exists l1 l2, l = l1 ++ rp :: l2 /\ j = (i + length l1)%nat in
  match c with
  | Free_whole j rp => at_ j rp /\ er_start rp = start /\ er_end rp = en
  | Free_head j rp => at_ j rp /\ nc = false /\ er_start rp = start /\ en < er_end rp
  | Free_tail j rp => at_ j rp /\ nc = false /\ er_start rp < start /\ er_end rp = en
  | Free_middle j rp => at_ j rp /\ nc = false /\ er_start rp < start /\ en < er_end rp
  | Free_none => ~ exists r, r ∈ l /\ freeable nc start en r
  end.

Lemma free_case_ok_cons nc start en i r l c :
  ~ freeable nc start en r -> free_case_ok nc start en (S i) l c ->
  free_case_ok nc start en i (r :: l) c.
Proof.
  intros Hr. unfold free_case_ok.
  destruct c; try (intros [(l1 & l2 & -> & ->) Hrest]; split; [|done];
                   exists (r :: l1), l2; simpl; split; [done|lia]).
  intros Hn (r' & [->|Hin]%elem_of_cons & Hf); [done|]. apply Hn. eauto.
Qed.

Lemma free_case_here i r (l : list region) :
  exists l1 l2 : list region, r :: l = l1 ++ r :: l2 /\ i = (i + length l1)%nat.
Proof. exists [], l. simpl. split; [done|lia]. Qed.
#[local] Hint Resolve free_case_here : kernel.

Lemma regs_ok_starts lo hi l r : regs_ok lo hi l -> r ∈ l -> lo <= er_start r.
Proof.
  revert lo. induction l as [|r1 l IH]; intros lo Hok Hin; [inversion Hin|].
  simpl in Hok. destruct Hok as (?&?&Hl).
  apply elem_of_cons in Hin as [->|Hin]; [lia|]. specialize (IH _ Hl Hin). lia.
Qed.

Lemma free_scan_spec nc start en i lo hi l :
  start <= en -> regs_ok lo hi l ->
  free_case_ok nc start en i l (free_scan nc start en i l).
Proof.
  intros Hse. revert i lo. induction l as [|r l IH]; intros i lo Hok; simpl in Hok |- *.
  { intros (r & Hr & _). inversion Hr. }
  destruct Hok as (? & ? & Hok). specialize (IH (S i) _ Hok).
  destruct (er_end r <? start) eqn:E1; bool_to_prop.
  { apply free_case_ok_cons; [|done]. unfold freeable. destruct nc; lia. }
  destruct (er_start r >? en) eqn:E2; bool_to_prop.
  { intros (r' & [->|Hin]%elem_of_cons & Hf); unfold freeable in Hf.
    - destruct nc; lia.
    - pose proof (regs_ok_starts _ _ _ _ Hok Hin). destruct nc; lia. }
  destruct ((start =? er_start r) && (en =? er_end r)) eqn:E3; bool_to_prop.
  { simpl. auto with kernel. }
  destruct nc.
  { apply free_case_ok_cons; [|done]. intros [<- <-].
    rewrite !Z.eqb_refl in E3. done. }
  repeat (step_if; bool_to_prop; [simpl; auto with kernel|]).
  apply free_case_ok_cons; [|done]. simpl. lia.
Qed.

(** Releasing the spare descriptor and waking the waiters keeps the map. *)
Lemma free_done_map x nrp :
  exists x', free_done x nrp = Done 0 x' /\ same_map (xs_ex x') (xs_ex x).
Proof.
  unfold free_done.
  set (x1 := match nrp with Some r => _ | None => x end).
  assert (same_map (xs_ex x1) (xs_ex x)) as Hm.
  { destruct nrp; [apply frd_same_map|done]. }
  step_if; eexists; (split; [done|]); [|done].
  eapply same_map_trans; [|exact Hm]. split_and!; try done. simpl.
  change EXF_WANTED with (2 ^ 2). change EXF_NOCOALESCE with (2 ^ 1).
  rewrite has_clr_pow2 by lia. apply andb_true_r.
Qed.

(** The abstract effect of freeing [start, en]: a set difference on a range
    that was entirely allocated. *)
Definition freed (ex ex' : extent) (start en : Z) : Prop :=
  ext_wf ex' /\ (forall z, start <= z <= en -> allocated ex z) /\
  forall z, allocated ex' z <-> allocated ex z /\ ~ start <= z <= en.

Lemma free_done_carve x x1 nrp l1 rp mid l2 start en :
  ext_wf (xs_ex x) -> ex_regions (xs_ex x) = l1 ++ rp :: l2 ->
  er_start rp <= start -> en <= er_end rp ->
  regs_ok (er_start rp) (er_end rp) mid ->
  (forall z, covers mid z <-> in_region z rp /\ ~ start <= z <= en) ->
  ex_regions (xs_ex x1) = l1 ++ mid ++ l2 ->
  ex_start (xs_ex x1) = ex_start (xs_ex x) -> ex_end (xs_ex x1) = ex_end (xs_ex x) ->
  exists x', free_done x1 nrp = Done 0 x' /\ freed (xs_ex x) (xs_ex x') start en.
Proof.
  intros (Hb & Hm & Hok) E H1 H2 Hmid Hcov E1 E2 E3.
  destruct (free_done_map x1 nrp) as (x' & -> & F1 & F2 & F3 & _).
  exists x'. split; [done|]. rewrite E in Hok.
  destruct (carve _ _ _ _ _ _ start en Hok H1 H2 Hmid Hcov) as [Hok' Hc']. split_and!.
  - unfold ext_wf. rewrite F1, F2, F3, E1, E2, E3. done.
  - intros z Hz. unfold allocated. rewrite E, covers_app, covers_cons.
    unfold in_region. right; left. lia.
  - intros z. unfold allocated. by rewrite F1, E1, E.
Qed.

Lemma regs_ok_mid lo hi l1 r l2 :
  regs_ok lo hi (l1 ++ r :: l2) -> lo <= er_start r <= er_end r /\ er_end r <= hi.
Proof.
  intros Hok. pose proof Hok as [_ H]%regs_ok_app. simpl in H.
  pose proof (regs_ok_starts _ _ _ r Hok ltac:(rewrite elem_of_app; right; left)). lia.
Qed.

(** The regions before [r] end before it. *)
Lemma regs_ok_prefix lo hi l1 r l2 :
  regs_ok lo hi (l1 ++ r :: l2) -> Forall (ends_before (er_start r)) l1.
Proof.
  intros [H1 H2]%regs_ok_app. simpl in H2.
  assert (last_end lo l1 < er_start r) as Hlt by lia. clear H2.
  revert lo H1 Hlt. induction l1 as [|a l1 IH]; intros lo; simpl; [constructor|].
  intros (?&?&Hl) Hlt. constructor; [|by eapply IH].
  destruct (regs_ok_last_end _ _ _ Hl). unfold ends_before. lia.
Qed.

(** Apply [free_done_carve] with the regions the freed one is reduced to. *)
Ltac carve_with x Hwf E l1 rp l2 start en mid :=
  match goal with
  | |- context [free_done ?x1 ?n] =>
      destruct (free_done_carve x x1 n l1 rp mid l2 start en Hwf E)
        as (? & -> & ?); [..|by split]
  end; simpl; autorewrite with extent; simpl;
  try done; try lia; try (split_and!; lia);
  try (intros ?; rewrite ?covers_cons, covers_nil; unfold in_region; simpl; lia).

Lemma free_found_spec x start en nrp :
  ext_wf (xs_ex x) -> ex_start (xs_ex x) <= start <= en -> en <= ex_end (xs_ex x) ->
  (nrp = None -> has (ex_flags (xs_ex x)) EXF_NOCOALESCE = true) ->
  match free_found x start en nrp with
  | Done err x' => err = 0 /\ freed (xs_ex x) (xs_ex x') start en
  | Panic => ~ exists r, r ∈ ex_regions (xs_ex x) /\
      freeable (has (ex_flags (xs_ex x)) EXF_NOCOALESCE) start en r
  | Blocked _ | NoFuel => False
  end.
Proof.
  intros Hwf Hs He Hnrp. pose proof Hwf as (Hb & Hm & Hok). unfold free_found.
  pose proof (free_scan_spec (has (ex_flags (xs_ex x)) EXF_NOCOALESCE) start en 0
    _ _ _ (proj2 Hs) Hok) as Hsc.
  destruct (free_scan _ _ _ _ _) as [j rp|j rp|j rp|j rp|]; [..|done];
    destruct Hsc as ((l1 & l2 & E & ->) & Hcase);
    pose proof (regs_ok_mid _ _ l1 rp l2 ltac:(by rewrite <- E)) as Hmid;
    rewrite !E; simpl; autorewrite with middle.
  - carve_with x Hwf E l1 rp l2 start en (@nil region).
  - rewrite (uadd_exact en) by lia.
    carve_with x Hwf E l1 rp l2 start en [Region (en + 1) (er_end rp) (er_flags rp)].
  - rewrite (usub_exact start) by lia.
    carve_with x Hwf E l1 rp l2 start en [Region (er_start rp) (start - 1) (er_flags rp)].
  - destruct nrp as [n|]; [|by destruct Hcase; rewrite Hnrp in *].
    rewrite (uadd_exact en), (usub_exact start) by lia.
    unfold insert_at. autorewrite with middle. rewrite <- app_assoc. simpl.
    carve_with x Hwf E l1 rp l2 start en
      [Region (er_start rp) (start - 1) (er_flags rp); Region (en + 1) (er_end rp) (er_flags n)].
Qed.

(** C2: [extent_free] of a range inside the extent, on a well-formed extent
    and for every behaviour of the other threads: it returns 0 exactly after
    removing the range, which was entirely allocated, from the map; it
    reports ENOMEM with the map unchanged; it panics only if no single region
    contains the range (in a non-coalescing extent: equals it).  The region
    list stays sorted, disjoint and inside the extent. *)
Theorem extent_free_correct x start size flags :
  safe_env (ex_start (xs_ex x)) (ex_end (xs_ex x)) x ->
  ex_start (xs_ex x) <= start -> 1 <= size -> start + size - 1 <= ex_end (xs_ex x) ->
  match extent_free x start size flags with
  | Done err x' => exists ex0, seen x ex0 /\
      if err =? 0 then freed ex0 (xs_ex x') start (start + size - 1)
      else err = ENOMEM /\ same_map (xs_ex x') ex0
  | Panic => exists ex0, seen x ex0 /\
      ~ exists r, r ∈ ex_regions ex0 /\
        freeable (has (ex_flags ex0) EXF_NOCOALESCE) start (start + size - 1) r
  | Blocked _ => True
  | NoFuel => False
  end.
Proof.
  intros Hs Hlo Hsz Hhi.
  destruct (Hs (xs_ex x) ltac:(by left)) as (Hwf & _). pose proof Hwf as (Hb & Hm & _).
  unfold extent_free. rewrite (usub_exact size 1), (uadd_exact start) by lia.
  replace (start + (size - 1)) with (start + size - 1) by lia.
  replace ((start <? ex_start (xs_ex x)) || (start + size - 1 >? ex_end (xs_ex x)))
    with false by lia.
  replace (start + size - 1 <? start) with false by lia.
  assert (forall x1 nrp, later x x1 ->
    (nrp = None -> has (ex_flags (xs_ex x1)) EXF_NOCOALESCE = true) ->
    match free_found x1 start (start + size - 1) nrp with
    | Done err x' => err = 0 /\ freed (xs_ex x1) (xs_ex x') start (start + size - 1)
    | Panic => ~ exists r, r ∈ ex_regions (xs_ex x1) /\
        freeable (has (ex_flags (xs_ex x1)) EXF_NOCOALESCE) start (start + size - 1) r
    | Blocked _ | NoFuel => False
    end) as Hff.
  { intros x1 nrp Hlat Hn.
    destruct (later_safe _ _ _ _ Hlat Hs (xs_ex x1) ltac:(by left)) as (?&?&?).
    apply free_found_spec; try done; lia. }
  assert (forall x1, later x x1 -> seen x (xs_ex x1)) as Hseen.
  { intros x1 Hlat. apply (later_seen x x1); auto with kernel. }
  destruct (has (ex_flags (xs_ex x)) EXF_NOCOALESCE) eqn:Hnc; simpl.
  - specialize (Hff x None ltac:(auto with kernel) ltac:(done)).
    destruct (free_found _ _ _ _); try done.
    + destruct Hff as [-> Hf]. exists (xs_ex x). auto with kernel.
    + exists (xs_ex x). auto with kernel.
  - pose proof (alloc_descr_later x flags) as Hlat.
    destruct (extent_alloc_region_descriptor x flags) as [[nrp|] x1| | |]; try done.
    + specialize (Hff x1 (Some nrp) Hlat ltac:(done)).
      destruct (free_found _ _ _ _); try done.
      * destruct Hff as [-> Hf]. exists (xs_ex x1). auto with kernel.
      * exists (xs_ex x1). auto with kernel.
    + exists (xs_ex x1). simpl. auto with kernel.
Qed.

(** Witness: freeing [12, 14] splits the region [10, 19]. *)
Lemma extent_free_correct_witness :
  exists x', extent_free demo_state 12 3 0 = Done 0 x' /\
    exists ex0, seen demo_state ex0 /\ freed ex0 (xs_ex x') 12 14.
Proof.
  pose proof (extent_free_correct demo_state 12 3 0 demo_safe
    ltac:(simpl; lia) ltac:(lia) ltac:(simpl; lia)) as H.
  eexists. split; [vm_compute; reflexivity|]. exact H.
Defined.
