(* ===== verification/ExtentSearch.v ===== *)
(** * The search of [extent_do_alloc]

    Soundness (a range handed out is free, aligned, inside the subregion and
    crosses no boundary) and completeness (failure means nothing fits) of the
    first-fit/best-fit search of sys/kern/subr_extent.c. *)

From stdpp Require Import base numbers list option strings.
From Stdlib Require Import ZArith Lia Bool.
From S2P Require Import Prelude Extent ExtentFacts.

(** [p] is [skew] modulo [align]. *)
Definition aligned (align skew p : Z) : Prop := (p - skew) `mod` align = 0.

(** First value at or above [p] that is [skew] modulo [align]. *)
Definition round_up (align skew p : Z) : Z := p + (skew - p) `mod` align.

Lemma round_up_aligned a skew p : 0 < a -> aligned a skew (round_up a skew p).
Proof.
  intros Ha. unfold aligned, round_up.
  replace (p + (skew - p) `mod` a - skew) with ((skew - p) `mod` a - (skew - p)) by lia.
  rewrite Zminus_mod_idemp_l. by rewrite Z.sub_diag, Zmod_0_l.
Qed.

Lemma round_up_bounds a skew p : 0 < a -> p <= round_up a skew p < p + a.
Proof.
  intros Ha. unfold round_up. pose proof (Z.mod_pos_bound (skew - p) a Ha). lia.
Qed.

Lemma round_up_least a skew p q :
  0 < a -> aligned a skew q -> p <= q -> round_up a skew p <= q.
Proof.
  intros Ha Hq Hpq. unfold round_up, aligned in *.
  assert ((skew - p) `mod` a = (q - p) `mod` a) as ->.
  { replace (skew - p) with ((q - p) - (q - skew)) by lia.
    rewrite Zminus_mod, Hq, Z.sub_0_r. apply Z.mod_mod. lia. }
  pose proof (Z.mod_le (q - p) a ltac:(lia) Ha). lia.
Qed.

Lemma aligned_mul a b skew base p :
  0 < a -> 0 < b -> (a | b) -> aligned a skew base -> aligned b base p ->
  aligned a skew p.
Proof.
  unfold aligned. intros Ha Hb Hab Hbase Hp.
  apply Z.mod_divide in Hbase; [|lia]. apply Z.mod_divide in Hp; [|lia].
  apply Z.mod_divide; [lia|]. replace (p - skew) with ((p - base) + (base - skew)) by lia.
  apply Z.divide_add_r; [|done]. by apply Z.divide_trans with b.
Qed.

(** A range [p, p + size - 1] that contains no boundary line after its first
    number: it may begin on a line but must end before the next. *)
Definition no_cross (boundary base size p : Z) : Prop :=
  boundary = 0 \/
  forall m, p < m <= p + size - 1 -> ~ aligned boundary base m.

(** The overflow-safe comparison. *)
Lemma LE_OV_true x y z :
  is_ul x -> is_ul y -> LE_OV x y z = true -> x + y <= z \/ UL_MOD <= z.
Proof.
  unfold LE_OV. intros Hx Hy H. bool_to_prop.
  destruct (uadd_wraps x y Hx Hy). lia.
Qed.

Lemma LE_OV_complete x y z :
  is_ul x -> is_ul y -> x + y <= z -> z < UL_MOD -> LE_OV x y z = true.
Proof.
  unfold LE_OV, is_ul. intros. rewrite uadd_exact by lia. lia.
Qed.

Section Search.
#[local] Set Default Proof Using "All".
Context (ex : extent) (substart subend size k skew boundary flags : Z).
Let alignment : Z := 2 ^ k.
Let base : Z := if has flags EX_BOUNDZERO then 0 else ex_start ex.

(** The extent is well formed, the request passes the DIAGNOSTIC checks, and
    rounding up inside the extent does not leave the 64-bit range. *)
Hypothesis Hwf : ext_wf ex.
Hypothesis Hk : 0 <= k < 64.
Hypothesis Hsub : ex_start ex <= substart /\ subend <= ex_end ex.
Hypothesis Hsize : 1 <= size < UL_MOD.
Hypothesis Hroom : ex_end ex + alignment < UL_MOD.
Hypothesis Hbound : boundary = 0 \/
  exists j, 0 <= j < 64 /\ boundary = 2 ^ j /\ size <= boundary /\
    ex_end ex + boundary < UL_MOD /\ (alignment | boundary) /\ aligned alignment skew base.

Lemma alignment_pos : 0 < alignment.
Proof. apply Z.pow_pos_nonneg; lia. Qed.

Lemma align_exact p :
  0 <= p <= ex_end ex + 1 -> extent_align p alignment skew = round_up alignment skew p.
Proof.
  intros Hp. apply extent_align_exact; [done|lia|]. unfold align_fits.
  pose proof (round_up_bounds alignment skew p alignment_pos).
  unfold round_up in *. fold alignment. lia.
Qed.

(** What a placement must satisfy. *)
Definition good (p : Z) (last : option nat) : Prop :=
  (exists l1 l2, ex_regions ex = l1 ++ l2 /\ last = last_idx l1 /\
     gap (ex_start ex) (ex_end ex) p (p + size - 1) l1 l2) /\
  substart <= p /\ p + size - 1 <= subend /\
  aligned alignment skew p /\ no_cross boundary base size p.

(** The boundary adjustment. *)
Lemma boundary_sound ns fits ns' :
  ex_start ex <= ns -> ns + size - 1 <= ex_end ex ->
  aligned alignment skew ns ->
  (if boundary =? 0 then BC_ok ns
   else do_alloc_boundary ex ns size boundary flags fits) = BC_ok ns' ->
  ns <= ns' /\ (ns' = ns \/ fits ns' = true) /\ is_ul ns' /\
  ns' + size - 1 <= ex_end ex /\
  aligned alignment skew ns' /\ no_cross boundary base size ns'.
Proof.
  intros Hns Hend Hal. destruct Hwf as (Hb & Hm & _).
  destruct (Z.eqb_spec boundary 0) as [E|Hne].
  { intros [= <-]. split_and!; try (by left); try done; unfold is_ul; lia. }
  destruct Hbound as [?|(j & Hj & Ej & Hsb & Hrb & Hdiv & Hbase)]; [done|].
  assert (0 < boundary) as Hbp by (subst boundary; apply Z.pow_pos_nonneg; lia).
  unfold do_alloc_boundary. rewrite (usub_exact size), (uadd_exact ns (size - 1)),
    (uadd_exact ns 1) by lia.
  set (m0 := round_up boundary base (ns + 1)).
  pose proof (round_up_bounds boundary base (ns + 1) Hbp) as Hm0. fold m0 in Hm0.
  pose proof (round_up_aligned boundary base (ns + 1) Hbp) as Ham. fold m0 in Ham.
  assert (extent_align (ns + 1) boundary (if has flags EX_BOUNDZERO then 0 else ex_start ex)
          = m0) as ->.
  { fold base. rewrite Ej. rewrite extent_align_exact; [by subst m0; rewrite Ej|done|lia|].
    unfold align_fits. rewrite <- Ej. unfold m0, round_up in Hm0. lia. }
  rewrite (usub_exact m0) by lia. replace (m0 - 1 <? ex_start ex) with false by lia.
  assert (forall p q, m0 + q * boundary <= p -> p + size - 1 < m0 + (q + 1) * boundary ->
    no_cross boundary base size p) as Hnc.
  { intros p q Hp1 Hp2. right. intros m Hmr Ha. unfold aligned in *.
    apply Z.mod_divide in Ha as [c Hc]; [|lia].
    apply Z.mod_divide in Ham as [c0 Hc0]; [|lia].
    assert (c0 + q < c) by (apply (Z.mul_lt_mono_pos_r boundary); lia).
    assert (c < c0 + q + 1) by (apply (Z.mul_lt_mono_pos_r boundary); lia). lia. }
  destruct (ns + (size - 1) >? m0 - 1) eqn:Ecross; bool_to_prop.
  - rewrite (uadd_exact (m0 - 1) 1) by lia. replace (m0 - 1 + 1) with m0 by lia.
    destruct (fits m0) eqn:Hfit; simpl; [|done].
    step_if; [done|]. intros [= <-]. bool_to_prop.
    assert (m0 + size - 1 <= ex_end ex) as Hme.
    { unfold uadd, usub in *. rewrite ul_sub_l, ul_id in *; unfold is_ul; lia. }
    split_and!; try lia; try (by right).
    + unfold is_ul. lia.
    + by apply (aligned_mul _ boundary _ base); try done; apply alignment_pos.
    + apply (Hnc m0 0); lia.
  - step_if; [done|]. intros [= <-]. split_and!; try lia; try (by left); try done.
    + unfold is_ul. lia.
    + apply (Hnc ns (-1)); lia.
Qed.

(** [p] would satisfy a request without boundary. *)
Definition fit (p : Z) : Prop :=
  aligned alignment skew p /\ substart <= p /\ p + size - 1 <= subend /\
  range_free ex p (p + size - 1).

Definition best_ok (c : cand) : Prop :=
  c_bestovh c <> 0 -> good (c_beststart c) (c_bestlast c) /\ has flags EX_FAST = false.

(** The loop invariant, before the regions [l] that start at index [i]. *)
Definition search_inv (i : nat) (l : list region) (c : cand) : Prop :=
  exists pre, ex_regions ex = pre ++ l /\ i = length pre /\
    c_last c = last_idx pre /\ Forall (ends_before (c_newstart c)) pre /\
    substart <= c_newstart c /\ is_ul (c_newstart c) /\
    aligned alignment skew (c_newstart c) /\
    Forall (fun r => substart <= er_start r) l /\ best_ok c /\
    (boundary = 0 -> c_bestovh c = 0 -> forall p, fit p -> c_newstart c <= p).

Definition fail_ok (c : cand) : Prop :=
  best_ok c /\ (boundary = 0 -> c_bestovh c = 0 -> forall p, ~ fit p).

Definition scan_ok (r : alloc_scan) : Prop :=
  match r with
  | ScanFound p last => good p last
  | ScanFail c => fail_ok c
  | ScanEnd c exend => exists i l, search_inv i l c /\
      match l with
      | [] => exend = ex_end ex
      | r :: _ => exend = er_start r /\ subend < er_start r
      end
  end.

Lemma regions_bounds pre rp l :
  ex_regions ex = pre ++ rp :: l ->
  ex_start ex <= er_start rp <= er_end rp /\ er_end rp <= ex_end ex.
Proof. intros E. destruct Hwf as (_ & _ & Hok). rewrite E in Hok. by eapply regs_ok_mid. Qed.

Lemma ends_before_weaken n n' l :
  n <= n' -> Forall (ends_before n) l -> Forall (ends_before n') l.
Proof. intros Hn Hf. eapply Forall_impl; [exact Hf|]. unfold ends_before. lia. Qed.

(** A placement between [pre] and [l]. *)
Lemma found_good pre l ns p :
  ex_regions ex = pre ++ l -> Forall (ends_before ns) pre -> substart <= ns <= p ->
  p + size - 1 <= subend -> match l with [] => True | r :: _ => p + size - 1 < er_start r end ->
  aligned alignment skew p -> no_cross boundary base size p -> good p (last_idx pre).
Proof.
  intros E Hf Hp He Hl Ha Hn. split_and!; try done; try lia.
  exists pre, l. split_and!; try done. split_and!; try lia; [|done].
  by apply (ends_before_weaken ns); [lia|].
Qed.

(** [skip:] moves past the region [rp]. *)
Lemma skip_inv i rp l c bo bs bl :
  search_inv i (rp :: l) c -> (bo <> 0 -> good bs bl /\ has flags EX_FAST = false) ->
  (boundary = 0 -> bo = 0 -> forall p, fit p -> er_end rp < p) ->
  let ns := extent_align (er_end rp +u 1) alignment skew in
  (ns <? er_end rp) = false /\ search_inv (S i) l (Cand ns (Some i) bo bs bl).
Proof.
  intros (pre & E & -> & Hl & Hf & Hns & Hu & Hal & Hst & _) Hg Hfit ns.
  destruct Hwf as (Hb & Hm & Hok). pose proof (regions_bounds _ _ _ E) as Hrp.
  assert (ns = round_up alignment skew (er_end rp + 1)) as Ens.
  { unfold ns. rewrite uadd_exact by lia. apply align_exact. lia. }
  pose proof (round_up_bounds alignment skew (er_end rp + 1) alignment_pos) as Hr.
  split; [lia|]. exists (pre ++ [rp]). simpl. rewrite <- app_assoc. split_and!.
  - done.
  - rewrite length_app. simpl. lia.
  - by rewrite last_idx_app.
  - apply Forall_app. split; [|apply Forall_singleton; unfold ends_before; lia].
    rewrite E in Hok. apply (ends_before_weaken (er_start rp)); [lia|].
    by eapply regs_ok_prefix.
  - apply Forall_cons in Hst as [? _]. lia.
  - unfold is_ul. lia.
  - rewrite Ens. by apply round_up_aligned, alignment_pos.
  - by apply Forall_cons in Hst as [_ ?].
  - done.
  - intros Hb0 Hbo p Hp. rewrite Ens. apply round_up_least; [apply alignment_pos|apply Hp|].
    specialize (Hfit Hb0 Hbo p Hp). lia.
Qed.

Lemma better_ok c ovh p last :
  best_ok c -> c_last c = last -> good p last -> ovh <> 0 ->
  has flags EX_FAST = false ->
  best_ok (better c ovh p) /\ c_bestovh (better c ovh p) <> 0.
Proof.
  intros Hb <- Hg Ho Hfast. unfold better, best_ok in *. step_if; simpl; [done|].
  bool_to_prop. done.
Qed.

(** A fit above the running start clears every region before it. *)
Lemma fit_past pre rp l c p :
  ex_regions ex = pre ++ rp :: l -> fit p -> c_newstart c <= p ->
  is_ul (c_newstart c) -> LE_OV (c_newstart c) size (er_start rp) = false ->
  er_end rp < p.
Proof.
  intros E (Ha & H1 & H2 & Hfree) Hns Hu Hle.
  destruct Hwf as (Hb & Hm & Hok). pose proof (regions_bounds _ _ _ E) as Hrp.
  destruct (Z.le_gt_cases p (er_end rp)) as [Hpe|]; [exfalso|lia].
  destruct (Z.le_gt_cases (er_start rp) (p + size - 1)) as [Hov|Hov].
  - apply (Hfree (Z.max p (er_start rp))); [lia|]. unfold allocated.
    rewrite E, covers_app, covers_cons. unfold in_region. right; left. lia.
  - rewrite LE_OV_complete in Hle; try done; unfold is_ul; lia.
Qed.

Lemma do_alloc_scan_ok l : forall i c,
  search_inv i l c ->
  scan_ok (do_alloc_scan ex subend size alignment skew boundary flags i l c).
Proof.
  induction l as [|rp l IH]; intros i c Hinv; simpl.
  { exists i, []. done. }
  destruct (er_start rp >? subend) eqn:Esub; bool_to_prop.
  { exists i, (rp :: l). done. }
  pose proof Hinv as (pre & E & Hi & Hl & Hf & Hns & Hu & Hal & Hst & Hbest & Hcomp).
  pose proof (regions_bounds _ _ _ E) as Hrp. destruct Hwf as (Hb & Hm & _).
  (* moving on with a given best candidate *)
  assert (forall c', best_ok c' ->
    (boundary = 0 -> c_bestovh c' = 0 -> forall p, fit p -> er_end rp < p) ->
    scan_ok (if extent_align (er_end rp +u 1) alignment skew <? er_end rp then ScanFail c'
      else do_alloc_scan ex subend size alignment skew boundary flags (S i) l
        (Cand (extent_align (er_end rp +u 1) alignment skew) (Some i)
           (c_bestovh c') (c_beststart c') (c_bestlast c')))) as Hskip.
  { intros c' Hg Hfp. destruct (skip_inv i rp l c _ _ _ Hinv Hg Hfp) as [-> Hinv'].
    by apply IH. }
  destruct (LE_OV (c_newstart c) size (er_start rp)) eqn:Hle.
  2:{ apply Hskip; [done|]. intros Hb0 Hbo p Hp.
      apply (fit_past pre rp l c p); auto. }
  assert (c_newstart c + size <= er_start rp) as Hle'.
  { apply LE_OV_true in Hle; unfold is_ul; try done; lia. }
  destruct (if boundary =? 0 then _ else _) as [ns| |] eqn:Hbc.
  - apply boundary_sound in Hbc as (Hn1 & Hn2 & Hu' & Hn3 & Hn4 & Hn5); try done; try lia.
    assert (ns + size <= er_start rp) as Hns'.
    { destruct Hn2 as [->|H2]; [done|].
      apply LE_OV_true in H2; unfold is_ul; try done; lia. }
    assert (good ns (c_last c)) as Hgood.
    { rewrite Hl. apply (found_good pre (rp :: l) (c_newstart c)); try done; lia. }
    step_if; [done|]. bool_to_prop.
    destruct (better_ok c (er_start rp -u ns -u size) ns _ Hbest eq_refl Hgood)
      as [Hb1 Hb2]; [done|done|]. by apply Hskip.
  - apply Hskip; [done|]. intros Hb0. rewrite Hb0 in Hbc. done.
  - split; [done|]. intros Hb0. rewrite Hb0 in Hbc. done.
Qed.

Lemma do_alloc_final_ok i l c exend :
  search_inv i l c ->
  match l with
  | [] => exend = ex_end ex
  | r :: _ => exend = er_start r /\ subend < er_start r
  end ->
  match do_alloc_final ex subend size boundary flags c exend with
  | ScanFound p last => good p last
  | ScanFail c' => fail_ok c'
  | ScanEnd _ _ => False
  end.
Proof.
  intros (pre & E & Hi & Hl & Hf & Hns & Hu & Hal & Hst & Hbest & Hcomp) Hex.
  destruct Hwf as (Hb & Hm & _). unfold do_alloc_final.
  rewrite (usub_exact size 1) by lia.
  destruct (LE_OV (c_newstart c) (size - 1) subend) eqn:Hle.
  2:{ split; [done|]. intros Hb0 Hbo p Hp. pose proof Hp as (_ & _ & ? & _).
      specialize (Hcomp Hb0 Hbo p Hp).
      rewrite LE_OV_complete in Hle; try done; unfold is_ul; lia. }
  assert (c_newstart c + size - 1 <= subend) as Hle'.
  { apply LE_OV_true in Hle; unfold is_ul; try done; lia. }
  destruct (if boundary =? 0 then _ else _) as [ns| |] eqn:Hbc.
  - apply boundary_sound in Hbc as (Hn1 & Hn2 & Hu' & Hn3 & Hn4 & Hn5); try done; try lia.
    assert (ns + size - 1 <= subend) as Hns'.
    { destruct Hn2 as [->|H2]; [done|].
      apply LE_OV_true in H2; unfold is_ul; try done; lia. }
    assert (good ns (c_last c)) as Hgood.
    { rewrite Hl. apply (found_good pre l (c_newstart c)); try done; try lia.
      destruct l; [done|lia]. }
    step_if; [done|]. bool_to_prop.
    destruct (better_ok c (exend -u ns -u (size - 1)) ns _ Hbest eq_refl Hgood);
      done.
  - split; [done|]. intros Hb0. rewrite Hb0 in Hbc. done.
  - split; [done|]. intros Hb0. rewrite Hb0 in Hbc. done.
Qed.

(** The candidate start is moved past the region it would overlap. *)
Lemma find_first_spec ns i last l pre :
  i = length pre -> last = last_idx pre ->
  let '(last', i', rest) := find_first ns i last l in
  exists pre', pre ++ l = pre' ++ rest /\ i' = length pre' /\ last' = last_idx pre' /\
    (Forall (fun r => er_start r < ns) pre -> Forall (fun r => er_start r < ns) pre') /\
    match rest with [] => True | r :: _ => ns <= er_start r end.
Proof.
  revert i last pre. induction l as [|r l IH]; intros i last pre Hi Hl; simpl.
  { exists pre. done. }
  destruct (er_start r >=? ns) eqn:E; bool_to_prop; [by exists pre|].
  specialize (IH (S i) (Some i) (pre ++ [r])).
  destruct (find_first ns (S i) (Some i) l) as [[last' i'] rest].
  destruct IH as (pre' & E1 & E2 & E3 & E4 & E5).
  - rewrite length_app. simpl. lia.
  - rewrite last_idx_app. by subst.
  - exists pre'. rewrite <- app_assoc in E1. split_and!; try done.
    intros Hp. apply E4. apply Forall_app. split; [done|]. by apply Forall_singleton.
Qed.

Definition first_start (ns : Z) (last : option nat) : Z :=
  match last with
  | Some j =>
      match ex_regions ex !! j with
      | Some r => if er_end r >=? ns
                  then extent_align (er_end r +u 1) alignment skew else ns
      | None => ns
      end
  | None => ns
  end.

Lemma fit_from p : fit p -> round_up alignment skew substart <= p.
Proof. intros (Ha & ? & _). apply round_up_least; auto using alignment_pos. Qed.

Lemma first_start_ok pre rest :
  let ns := round_up alignment skew substart in
  let ns1 := first_start ns (last_idx pre) in
  substart <= ex_end ex -> ex_regions ex = pre ++ rest ->
  Forall (fun r => er_start r < ns) pre ->
  ns <= ns1 < UL_MOD /\ aligned alignment skew ns1 /\
  Forall (ends_before ns1) pre /\ forall p, fit p -> ns1 <= p.
Proof.
  intros ns ns1 Hse E Hpre. destruct Hwf as (Hb & Hm & Hok).
  pose proof (round_up_bounds alignment skew substart alignment_pos) as Hns. fold ns in Hns.
  pose proof (round_up_aligned alignment skew substart alignment_pos) as Hal.
  destruct pre as [|r pre _] using rev_ind.
  { change ns1 with ns. split_and!; try lia; try done. apply fit_from. }
  unfold ns1, first_start. rewrite last_idx_app. rewrite <- app_assoc in E. simpl in E.
  rewrite E, lookup_mid. pose proof (regions_bounds _ _ _ E) as Hr.
  apply Forall_app in Hpre as [_ Hrs]. rewrite Forall_singleton in Hrs.
  assert (Forall (ends_before ns) pre) as Hp0.
  { rewrite E in Hok. apply regs_ok_prefix in Hok.
    apply (ends_before_weaken (er_start r)); [lia|done]. }
  destruct (er_end r >=? ns) eqn:Ege; bool_to_prop.
  - rewrite uadd_exact, align_exact by lia.
    pose proof (round_up_bounds alignment skew (er_end r + 1) alignment_pos) as Hr1.
    split_and!; try lia.
    + by apply round_up_aligned, alignment_pos.
    + apply Forall_app. split; [by apply (ends_before_weaken ns); [lia|]|].
      apply Forall_singleton. unfold ends_before. lia.
    + intros p Hp. apply round_up_least; [apply alignment_pos|apply Hp|].
      pose proof (fit_from p Hp) as Hge. fold ns in Hge.
      destruct (Z.le_gt_cases p (er_end r)); [exfalso|lia].
      destruct Hp as (_ & _ & _ & Hfree). apply (Hfree p); [lia|].
      unfold allocated. rewrite E, covers_app, covers_cons. unfold in_region. right; left. lia.
  - split_and!; try lia; try done; [|apply fit_from].
    apply Forall_app. split; [done|]. apply Forall_singleton. unfold ends_before. lia.
Qed.

Lemma rest_starts pre rest n :
  ex_regions ex = pre ++ rest -> match rest with [] => True | r :: _ => n <= er_start r end ->
  Forall (fun r => n <= er_start r) rest.
Proof.
  intros E Hh. destruct Hwf as (_ & _ & Hok). rewrite E in Hok.
  apply regs_ok_app in Hok as [_ Hok]. destruct rest as [|r rest]; [constructor|].
  simpl in Hok. destruct Hok as (?&?&Hok). apply Forall_forall. intros r' Hin.
  apply elem_of_cons in Hin as [->|Hin]; [lia|].
  pose proof (regs_ok_starts _ _ _ _ Hok Hin). lia.
Qed.

(** One attempt: a result is a good placement; no result means that, without
    a boundary, no placement exists. *)
Lemma do_alloc_try_ok :
  substart <= ex_end ex ->
  match do_alloc_try ex substart subend size alignment skew boundary flags with
  | None => False
  | Some (Some (p, last)) => good p last
  | Some None => boundary = 0 -> forall p, ~ fit p
  end.
Proof.
  intros Hse. destruct Hwf as (Hb & Hm & Hok). unfold do_alloc_try.
  rewrite align_exact by lia. set (ns := round_up alignment skew substart).
  pose proof (round_up_bounds alignment skew substart alignment_pos) as Hns. fold ns in Hns.
  replace (ns <? ex_start ex) with false by lia.
  pose proof (find_first_spec ns 0 None (ex_regions ex) [] eq_refl eq_refl) as Hff.
  destruct (find_first ns 0 None (ex_regions ex)) as [[last i] rest].
  destruct Hff as (pre & E & Hi & Hl & Hpre & Hrest). simpl in E.
  specialize (Hpre ltac:(constructor)).
  change (match last with Some j => _ | None => ns end) with (first_start ns last).
  assert (search_inv i rest (Cand (first_start ns last) last 0 0 None)) as Hinv.
  { exists pre. simpl. subst last.
    pose proof (first_start_ok pre rest Hse E Hpre) as Hfs. cbv zeta in Hfs.
    fold ns in Hfs. destruct Hfs as (? & ? & ? & ?).
    split_and!; try done; try (unfold is_ul; lia).
    apply (rest_starts pre); [done|]. destruct rest; [done|lia]. }
  assert (forall c, fail_ok c ->
    match (if negb (has flags EX_FAST) && negb (c_bestovh c =? 0)
           then Some (Some (c_beststart c, c_bestlast c)) else Some None) with
    | None => False
    | Some (Some (p, last)) => good p last
    | Some None => boundary = 0 -> forall p, ~ fit p
    end) as Hfail.
  { intros c [Hb1 Hb2]. step_if; bool_to_prop.
    - by apply Hb1.
    - intros Hb0. apply Hb2; [done|].
      destruct (Z.eqb_spec (c_bestovh c) 0); [done|].
      destruct (Hb1 ltac:(done)) as [_ Hfast]. by rewrite Hfast in Heqb. }
  pose proof (do_alloc_scan_ok rest i _ Hinv) as Hscan.
  destruct (do_alloc_scan _ _ _ _ _ _ _ _ _ _) as [p l|c|c exend]; [done|by apply Hfail|].
  destruct Hscan as (i' & l' & Hinv' & Hex).
  pose proof (do_alloc_final_ok i' l' c exend Hinv' Hex) as Hfin.
  destruct (do_alloc_final _ _ _ _ _ _ _); [done|by apply Hfail|done].
Qed.
End Search.

(** ** [extent_do_alloc] and its entry points *)

(** A request the DIAGNOSTIC checks accept, with a power-of-two alignment
    [2 ^ k] and (when given) a power-of-two boundary whose lines are aligned,
    in an extent that leaves room for rounding up within 64 bits. *)
Definition valid_subregion_request (lo hi substart subend size k skew boundary flags : Z)
    : Prop :=
  lo <= substart /\ subend <= hi /\ 1 <= size /\
  size - 1 <= subend - substart /\ 0 <= k < 64 /\ hi + 2 ^ k < UL_MOD /\
  (boundary = 0 \/ exists j, 0 <= j < 64 /\ boundary = 2 ^ j /\ size <= boundary /\
     hi + boundary < UL_MOD /\ (2 ^ k | boundary) /\
     aligned (2 ^ k) skew (if has flags EX_BOUNDZERO then 0 else lo)).

(** The range [p, p + size - 1] is a correct answer on the map [ex]. *)
Definition placement (ex : extent) (substart subend size k skew boundary flags p : Z)
    : Prop :=
  substart <= p /\ p + size - 1 <= subend /\ aligned (2 ^ k) skew p /\
  no_cross boundary (if has flags EX_BOUNDZERO then 0 else ex_start ex) size p /\
  range_free ex p (p + size - 1).

(** Outcome of an allocation in a subregion, seen from state [x]. *)
Definition subregion_post (x : xstate) (substart subend size k skew boundary flags : Z)
    (err : Z) (res : option Z) (x' : xstate) : Prop :=
  exists ex0, seen x ex0 /\ ext_wf (xs_ex x') /\
  match res with
  | Some p =>
      err = 0 /\ placement ex0 substart subend size k skew boundary flags p /\
      forall z, allocated (xs_ex x') z <-> allocated ex0 z \/ p <= z <= p + size - 1
  | None =>
      err <> 0 /\ (forall z, allocated (xs_ex x') z <-> allocated ex0 z) /\
      (err = EAGAIN -> has flags EX_WAITSPACE = false -> boundary = 0 ->
       forall p, ~ placement ex0 substart subend size k skew 0 flags p)
  end.

Lemma subregion_post_later x x1 substart subend size k skew boundary flags err res x' :
  later x x1 -> subregion_post x1 substart subend size k skew boundary flags err res x' ->
  subregion_post x substart subend size k skew boundary flags err res x'.
Proof.
  intros Hl (ex0 & Hs & H). exists ex0. split; [by eapply later_seen|done].
Qed.

Lemma try_spec lo hi ex substart subend size k skew boundary flags :
  bounded lo hi ex ->
  valid_subregion_request lo hi substart subend size k skew boundary flags ->
  match do_alloc_try ex substart subend size (2 ^ k) skew boundary flags with
  | None => False
  | Some (Some (p, last)) =>
      placement ex substart subend size k skew boundary flags p /\
      exists l1 l2, ex_regions ex = l1 ++ l2 /\ last = last_idx l1 /\
        gap (ex_start ex) (ex_end ex) p (p + size - 1) l1 l2
  | Some None => boundary = 0 ->
      forall p, ~ placement ex substart subend size k skew 0 flags p
  end.
Proof.
  intros (Hwf & <- & <-) (H1 & H2 & H3 & H4 & H5 & H6 & H7).
  pose proof Hwf as (Hb & Hm & _).
  pose proof (do_alloc_try_ok ex substart subend size k skew boundary flags Hwf H5
    (conj H1 H2) ltac:(lia) H6 H7 ltac:(lia)) as H.
  destruct (do_alloc_try _ _ _ _ _ _ _ _) as [[[p last]|]|]; try done.
  - destruct H as ((l1 & l2 & E & -> & Hgap) & ? & ? & ? & ?). split.
    + split_and!; try done. by eapply gap_free.
    + exists l1, l2. done.
  - intros Hb0 p (? & ? & ? & _ & ?). apply (H Hb0 p). by split_and!.
Qed.

Lemma do_alloc_loop_ok lo hi sched ex e substart subend size k skew boundary flags myrp :
  safe_env lo hi (XState ex e sched) ->
  valid_subregion_request lo hi substart subend size k skew boundary flags ->
  match do_alloc_loop sched ex e substart subend size (2 ^ k) skew boundary flags myrp with
  | Done (err, res) x' =>
      subregion_post (XState ex e sched) substart subend size k skew boundary flags err res x'
  | Blocked _ => has flags EX_WAITSPACE = true
  | Panic | NoFuel => False
  end.
Proof.
  revert ex e. induction sched as [|[err [ex' e']] sched IH]; intros ex e Hs Hv;
    pose proof (Hs ex ltac:(by left)) as Hbd; pose proof Hbd as (Hwf & _);
    pose proof (try_spec lo hi ex _ _ _ _ _ _ _ Hbd Hv) as Ht;
    simpl; destruct (do_alloc_try _ _ _ _ _ _ _ _) as [[[p last]|]|]; try done.
  1, 3: destruct Ht as (Hp & l1 & l2 & E & -> & Hgap);
    destruct Hv as (_ & _ & Hsz & _);
    match goal with |- subregion_post ?x _ _ _ _ _ _ _ _ _ _ =>
      destruct (insert_ok x p size l1 l2 myrp Hwf E Hsz Hgap) as [Hwf' Hcov] end;
    exists ex; split; [exists ex; split; [by left|done]|]; done.
  all: destruct (has flags EX_WAITSPACE) eqn:Hw; try done.
  2: { pose proof (later_wake (XState ex e ((err, (ex', e')) :: sched)) err ex' e' sched
         eq_refl) as Hlat.
       pose proof (later_safe _ _ _ _ Hlat Hs) as Hs'.
       destruct (Z.eqb_spec err 0); simpl.
       - specialize (IH ex' e' Hs' Hv). destruct (do_alloc_loop _ _ _ _ _ _ _ _ _ _ _)
           as [[err' res] x'| | |]; try done. by eapply subregion_post_later.
       - apply (subregion_post_later _ _ _ _ _ _ _ _ _ _ _ _ Hlat).
         exists ex'. split; [apply (seen_here (XState ex' e' sched))|].
         split; [apply (Hs' ex' ltac:(by left))|]. split_and!; try done. congruence. }
  all: match goal with |- subregion_post ?x _ _ _ _ _ _ _ _ _ _ =>
      pose proof (frd_same_map x myrp) as Hm end;
    exists ex; split; [exists ex; split; [by left|done]|];
    split; [by eapply (same_map_bounded lo hi)|];
    split_and!; [done|intros z; by apply same_map_allocated|done].
Qed.

Lemma do_alloc_ok lo hi x substart subend size k skew boundary flags myrp :
  safe_env lo hi x ->
  valid_subregion_request lo hi substart subend size k skew boundary flags ->
  match extent_do_alloc x substart subend size (2 ^ k) skew boundary flags myrp with
  | Done (err, res) x' =>
      subregion_post x substart subend size k skew boundary flags err res x'
  | Blocked _ => has flags EX_WAITSPACE = true
  | Panic | NoFuel => False
  end.
Proof.
  intros Hs Hv. pose proof Hv as (H1 & H2 & H3 & H4 & H5 & H6 & H7).
  destruct (Hs (xs_ex x) ltac:(by left)) as ((Hb & Hm & _) & E1 & E2).
  assert (0 < 2 ^ k) by (apply Z.pow_pos_nonneg; lia).
  unfold extent_do_alloc.
  replace (_ || _ || _ || _) with false by lia.
  rewrite (usub_exact size), (usub_exact subend) by lia.
  replace ((size <? 1) || _) with false by lia.
  replace (2 ^ k =? 0) with false by lia.
  replace (negb (boundary =? 0) && (boundary <? size)) with false.
  2:{ destruct H7 as [->|(j & _ & _ & ? & _)]; [done|].
      destruct (boundary =? 0); simpl; lia. }
  destruct x as [ex e sched]. by apply (do_alloc_loop_ok lo hi).
Qed.

(** C27: [extent_alloc_subregion], for every behaviour of the other threads
    that keeps the map well-formed: it never panics; a result is aligned,
    inside the subregion, crosses no boundary line, was free, and exactly that
    range is added to the map; on failure the map is unchanged, and EAGAIN
    without a boundary means that no placement exists at all.  Assumed: a
    subregion of the extent that the DIAGNOSTIC checks accept; alignment and
    boundary are powers of two, and adding either to the end of the extent
    does not overflow 64 bits; and when there is a boundary it is a multiple of
    the alignment and the lines start at an aligned number (0 with
    EX_BOUNDZERO, else the start of the extent): otherwise the result may not
    be aligned ([extent_boundary_misaligns]). *)
Theorem extent_alloc_subregion_correct x substart subend size k skew boundary flags :
  safe_env (ex_start (xs_ex x)) (ex_end (xs_ex x)) x ->
  valid_subregion_request (ex_start (xs_ex x)) (ex_end (xs_ex x))
    substart subend size k skew boundary flags ->
  match extent_alloc_subregion x substart subend size (2 ^ k) skew boundary flags with
  | Done (err, res) x' =>
      if err =? ENOMEM then exists ex0, seen x ex0 /\
        forall z, allocated (xs_ex x') z <-> allocated ex0 z
      else subregion_post x substart subend size k skew boundary flags err res x'
  | Blocked _ => True
  | Panic | NoFuel => False
  end.
Proof.
  intros Hs Hv. unfold extent_alloc_subregion.
  pose proof (alloc_descr_later x flags) as Hlat.
  destruct (extent_alloc_region_descriptor x flags) as [[rp|] x1| | |]; try done.
  - pose proof (do_alloc_ok _ _ x1 _ _ _ _ _ _ _ rp (later_safe _ _ _ _ Hlat Hs) Hv) as H.
    destruct (extent_do_alloc _ _ _ _ _ _ _ _ _) as [[err res] x'| | |]; try done.
    apply (subregion_post_later x) in H; [|done].
    destruct (Z.eqb_spec err ENOMEM) as [->|]; [|done].
    destruct H as (ex0 & Hseen & _ & Hr). exists ex0. split; [done|].
    destruct res; [by destruct Hr|]. apply Hr.
  - simpl. exists (xs_ex x1). split; [|done].
    apply (later_seen x x1); auto with kernel.
Qed.

(** Witness: with EX_FAST 8 numbers aligned to 8 go to [0, 7], the
    first fit; none fits in [8, 15]. *)
Lemma extent_alloc_subregion_correct_witness :
  (exists x', extent_alloc_subregion demo_state 0 99 8 (2 ^ 3) 0 0 EX_FAST =
     Done (0, Some 0) x' /\ subregion_post demo_state 0 99 8 3 0 0 EX_FAST 0 (Some 0) x') /\
  (exists x', extent_alloc_subregion demo_state 8 15 8 (2 ^ 3) 0 0 0 =
     Done (EAGAIN, None) x' /\ subregion_post demo_state 8 15 8 3 0 0 0 EAGAIN None x').
Proof.
  pose proof (extent_alloc_subregion_correct demo_state 0 99 8 3 0 0 EX_FAST demo_safe
    ltac:(unfold valid_subregion_request; simpl; unfold UL_MOD; repeat split;
          try lia; by left)) as H1.
  pose proof (extent_alloc_subregion_correct demo_state 8 15 8 3 0 0 0 demo_safe
    ltac:(unfold valid_subregion_request; simpl; unfold UL_MOD; repeat split;
          try lia; by left)) as H2.
  split; eexists; (split; [vm_compute; reflexivity|]); [exact H1|exact H2].
Defined.

(** The boundary variant on caller-provided descriptors
    ([extent_alloc_subregion_with_descr], used on non-coalescing extents) has
    the same contract, and no wait for a descriptor: it blocks only for
    space, under EX_WAITSPACE. *)
Theorem extent_alloc_with_descr_correct x substart subend size k skew boundary flags rp :
  safe_env (ex_start (xs_ex x)) (ex_end (xs_ex x)) x ->
  has (ex_flags (xs_ex x)) EXF_NOCOALESCE = true ->
  valid_subregion_request (ex_start (xs_ex x)) (ex_end (xs_ex x))
    substart subend size k skew boundary flags ->
  match extent_alloc_subregion_with_descr x substart subend size (2 ^ k) skew boundary
          flags rp with
  | Done (err, res) x' =>
      subregion_post x substart subend size k skew boundary flags err res x'
  | Blocked _ => has flags EX_WAITSPACE = true
  | Panic | NoFuel => False
  end.
Proof.
  intros Hs Hnc Hv. unfold extent_alloc_subregion_with_descr. rewrite Hnc.
  by apply (do_alloc_ok (ex_start (xs_ex x)) (ex_end (xs_ex x))).
Qed.

Definition demo_nc_state : xstate :=
  XState (Extent 4096 "nc" [Region 0 5 ER_DISCARD; Region 6 9 ER_DISCARD] 0 99 0
    EXF_NOCOALESCE []) (Kenv [4096] false 0 []) [].

Lemma demo_nc_safe : safe_env 0 99 demo_nc_state.
Proof.
  intros ex [->|(w & Hw & _)]; [|inversion Hw].
  unfold bounded, ext_wf, UL_MOD. simpl. lia.
Qed.

(** Witness: with boundary 16, [10, 21] would cross 16, so 12 numbers
    go to [16, 27]. *)
Lemma extent_alloc_with_descr_correct_witness :
  exists x', extent_alloc_subregion_with_descr demo_nc_state 0 99 12 (2 ^ 1) 0 16 EX_FAST
    (Region 0 0 0) = Done (0, Some 16) x' /\
    subregion_post demo_nc_state 0 99 12 1 0 16 EX_FAST 0 (Some 16) x'.
Proof.
  pose proof (extent_alloc_with_descr_correct demo_nc_state 0 99 12 1 0 16 EX_FAST
    (Region 0 0 0) demo_nc_safe eq_refl
    ltac:(unfold valid_subregion_request; simpl; unfold UL_MOD; repeat split; try lia;
          right; exists 4; repeat split; try lia; by exists 8)) as H.
  eexists. split; [vm_compute; reflexivity|]. exact H.
Defined.

(** A wrap-around outside the hypotheses of the theorem.  In an extent that
    reaches the top of the 64-bit range, [extent_do_alloc] restarts its
    search at [extent_align(last->er_end + 1)], which wraps to 0 when the
    region over the subregion start ends at ULONG_MAX; it then hands out a
    range that is already allocated and outside the requested subregion. *)
Theorem extent_alloc_subregion_wraps :
  let ex := Extent 4096 "top" [Region 0 99 ER_ALLOC; Region 200 ULONG_MAX ER_ALLOC]
              0 ULONG_MAX 0 0 [] in
  let x := XState ex (Kenv [4096] true 2 []) [] in
  ext_wf ex /\
  exists x', extent_alloc_subregion x 300 ULONG_MAX 10 1 0 0 0 = Done (0, Some 0) x' /\
    allocated ex 0 /\ ~ ext_wf (xs_ex x').
Proof.
  simpl. split.
  - unfold ext_wf, ULONG_MAX, UL_MOD. simpl. lia.
  - eexists. split; [vm_compute; reflexivity|]. split.
    + left. unfold in_region. simpl. lia.
    + intros (_ & _ & H). simpl in H. lia.
Qed.

(** Boundary lines are counted from the start of the extent, which need not be
    aligned, and the search goes on at the line after a range that would cross
    one: in the extent [1, 99] with [1, 4] in use, 4 numbers aligned to 4 that
    do not cross a line every 8 numbers are placed at 9. *)
Theorem extent_boundary_misaligns :
  let ex := Extent 4096 "odd" [Region 1 4 ER_ALLOC] 1 99 0 0 [] in
  let x := XState ex (Kenv [4096] true 1 []) [] in
  ext_wf ex /\
  exists x', extent_alloc_subregion x 1 99 4 4 0 8 EX_FAST = Done (0, Some 9) x' /\
    ~ aligned 4 0 9.
Proof.
  simpl. split.
  - unfold ext_wf, UL_MOD. simpl. lia.
  - eexists. split; [vm_compute; reflexivity|]. unfold aligned. intros H. vm_compute in H. discriminate H.
Qed.
