(* ===== verification/ExtentConflict.v ===== *)
(** * EX_CONFLICTOK requests and descriptor accounting

    What [extent_alloc_region] does when conflicts are tolerated, and the
    conservation of region descriptors by every operation of
    sys/kern/subr_extent.c. *)

From stdpp Require Import base numbers list option strings.
From Stdlib Require Import ZArith Lia Bool.
From S2P Require Import Prelude Extent ExtentFacts ExtentSearch.

(** ** Tolerated conflicts *)

(** Regions a request that starts at [start] may still have to deal with. *)
Fixpoint pending (start : Z) (l : list region) : nat :=
  match l with
  | [] => 0%nat
  | r :: l' => ((if (start <=? er_end r)%Z then 1 else 0) + pending start l')%nat
  end.

Lemma pending_app start l1 l2 :
  pending start (l1 ++ l2) = (pending start l1 + pending start l2)%nat.
Proof. induction l1 as [|r l1 IH]; simpl; lia. Qed.

Lemma pending_before start l : Forall (ends_before start) l -> pending start l = 0%nat.
Proof.
  induction 1 as [|r l Hr _ IH]; simpl; [done|]. rewrite IH.
  unfold ends_before in Hr. replace (start <=? er_end r) with false by lia. done.
Qed.

Lemma pending_mono start start' l :
  start <= start' -> (pending start' l <= pending start l)%nat.
Proof.
  intros Hs. induction l as [|r l IH]; simpl; [done|].
  destruct (Z.leb_spec start' (er_end r)), (Z.leb_spec start (er_end r)); lia.
Qed.

Lemma pending_length start l : (pending start l <= length l)%nat.
Proof. induction l as [|r l IH]; simpl; [done|]. destruct (start <=? er_end r); lia. Qed.

(** The map after deleting the region at the end of the prefix. *)
Lemma delete_region_ok ex l1 rp l2 :
  ext_wf ex -> ex_regions ex = l1 ++ rp :: l2 ->
  regs_ok (ex_start ex) (ex_end ex) (l1 ++ l2) /\
  forall z, covers (l1 ++ l2) z <-> allocated ex z /\ ~ in_region z rp.
Proof.
  intros (_ & _ & Hok) E. rewrite E in Hok.
  destruct (carve _ _ l1 rp [] l2 (er_start rp) (er_end rp) Hok) as [H1 H2].
  - lia.
  - lia.
  - done.
  - intros z. rewrite covers_nil. unfold in_region. lia.
  - split; [done|]. intros z. unfold allocated. by rewrite E, H2.
Qed.

Lemma conflictok_loop fuel x start en size flags myrp :
  ext_wf (xs_ex x) -> ex_start (xs_ex x) <= start <= en -> en <= ex_end (xs_ex x) ->
  size = en - start + 1 -> ~ allocated (xs_ex x) en ->
  has flags EX_CONFLICTOK = true -> has flags EX_WAITSPACE = false ->
  (pending start (ex_regions (xs_ex x)) < fuel)%nat ->
  exists x', alloc_region_loop fuel x start en size flags myrp = Done 0 x' /\
    ext_wf (xs_ex x') /\
    forall z, allocated (xs_ex x') z <-> allocated (xs_ex x) z \/ start <= z <= en.
Proof.
  revert x start size. induction fuel as [|fuel IH]; intros x start size;
    intros Hwf Hs He -> Hen Hc Hw Hfuel; [lia|]. simpl.
  pose proof (alloc_region_scan_sound (xs_ex x) start en Hwf Hs He) as Hscan.
  pose proof Hwf as (Hb & Hm & Hok).
  destruct (alloc_region_scan _ _ _ _ _) as [last|j rp].
  - destruct Hscan as (l1 & l2 & E & -> & Hgap & _).
    replace en with (start + (en - start + 1) - 1) in Hgap by lia.
    destruct (insert_ok x start (en - start + 1) l1 l2 myrp Hwf E ltac:(lia) Hgap) as [H1 H2].
    eexists. split; [done|]. split; [done|]. intros z. rewrite H2.
    replace (start + (en - start + 1) - 1) with en by lia. done.
  - destruct Hscan as (l1 & l2 & E & -> & Hf & H1 & H2 & _). rewrite Hw, Hc.
    assert (er_end rp < en) as Hend.
    { destruct (Z.le_gt_cases en (er_end rp)); [exfalso|lia]. apply Hen.
      unfold allocated. rewrite E, covers_app, covers_cons. unfold in_region.
      right; left. lia. }
    assert (pending start (l1 ++ rp :: l2) = S (pending start l2)) as Hp.
    { rewrite pending_app, (pending_before _ l1) by done. simpl.
      replace (start <=? er_end rp) with true by lia. done. }
    rewrite E in Hfuel. rewrite Hp in Hfuel.
    pose proof (regs_ok_mid _ _ l1 rp l2 ltac:(by rewrite <- E)) as Hrp.
    destruct (er_start rp <=? start) eqn:Ele; bool_to_prop.
    + replace (er_end rp <? ex_end (xs_ex x)) with true by lia.
      rewrite (uadd_exact (er_end rp)), (usub_exact en), uadd_exact by lia.
      destruct (IH x (er_end rp + 1) (en - (er_end rp + 1) + 1)) as (x' & -> & ? & Hz);
        try done; try lia.
      { rewrite E, pending_app. simpl.
        replace (er_end rp + 1 <=? er_end rp) with false by lia.
        rewrite (pending_before _ l1).
        - pose proof (pending_mono start (er_end rp + 1) l2 ltac:(lia)). lia.
        - eapply Forall_impl; [exact Hf|]. unfold ends_before. lia. }
      exists x'. split_and!; try done. intros z. rewrite Hz.
      assert (z <= er_end rp -> start <= z -> allocated (xs_ex x) z).
      { intros. unfold allocated. rewrite E, covers_app, covers_cons.
        unfold in_region. right; left. lia. }
      destruct (Z.le_gt_cases z (er_end rp)), (Z.le_gt_cases start z); intuition lia.
    + replace (er_end rp <? en) with true by lia. rewrite E, delete_middle.
      destruct (delete_region_ok _ _ _ _ Hwf E) as [Hok' Hcov'].
      match goal with |- context [alloc_region_loop fuel ?x1] => set (y := x1) end.
      assert (ex_regions (xs_ex y) = l1 ++ l2 /\ ex_start (xs_ex y) = ex_start (xs_ex x) /\
        ex_end (xs_ex y) = ex_end (xs_ex x)) as (F1 & F2 & F3).
      { unfold y. autorewrite with extent. done. }
      assert (forall z, allocated (xs_ex y) z <->
        allocated (xs_ex x) z /\ ~ in_region z rp) as Hy.
      { intros z. unfold allocated at 1. by rewrite F1. }
      destruct (IH y start (en - start + 1)) as (x' & -> & ? & Hz);
        try done; try lia.
      { unfold ext_wf. by rewrite F1, F2, F3. }
      { rewrite Hy. tauto. }
      { rewrite F1, pending_app, (pending_before _ l1) by done. simpl. lia. }
      exists x'. split_and!; try done. intros z. rewrite Hz, Hy.
      assert (in_region z rp -> start <= z <= en) by (unfold in_region; lia).
      assert (in_region z rp \/ ~ in_region z rp) by (unfold in_region; lia). tauto.
Qed.

(** With EX_CONFLICTOK (and a descriptor at hand), a request inside the
    extent whose last number is free always succeeds, after at most one
    retry per region: the new map is the old one plus the requested range,
    and the region list stays well formed. *)
Theorem extent_alloc_region_conflictok x start size flags myrp x1 :
  ext_wf (xs_ex x) -> ex_start (xs_ex x) <= start -> 1 <= size ->
  start + size - 1 <= ex_end (xs_ex x) ->
  has flags EX_CONFLICTOK = true -> has flags EX_WAITSPACE = false ->
  extent_alloc_region_descriptor x flags = Done (Some myrp) x1 ->
  same_map (xs_ex x1) (xs_ex x) ->
  ~ allocated (xs_ex x) (start + size - 1) ->
  exists x', extent_alloc_region (S (length (ex_regions (xs_ex x)))) x start size flags
      = Done 0 x' /\ ext_wf (xs_ex x') /\
    forall z, allocated (xs_ex x') z <->
      allocated (xs_ex x) z \/ start <= z <= start + size - 1.
Proof.
  intros Hwf Hlo Hsz Hhi Hc Hw Hd Hm Hen. pose proof Hwf as (Hb & Hub & _).
  assert (ext_wf (xs_ex x1)) as Hwf1
    by (by eapply (same_map_bounded (ex_start (xs_ex x)) (ex_end (xs_ex x)))).
  pose proof Hm as (E1 & E2 & E3 & _).
  unfold extent_alloc_region. rewrite (usub_exact size 1), (uadd_exact start) by lia.
  replace (start + (size - 1)) with (start + size - 1) by lia.
  replace (size <? 1) with false by lia.
  replace (start + size - 1 <? start) with false by lia.
  rewrite Hc, Hw. cbn [andb].
  replace ((start <? ex_start (xs_ex x)) || (start + size - 1 >? ex_end (xs_ex x)))
    with false by lia. rewrite Hd.
  destruct (conflictok_loop (S (length (ex_regions (xs_ex x)))) x1 start (start + size - 1)
    size flags myrp) as (x' & -> & Hwf' & Hz); try done; try lia.
  - by rewrite (same_map_allocated _ (xs_ex x)).
  - rewrite E1. pose proof (pending_length start (ex_regions (xs_ex x))). lia.
  - exists x'. split_and!; try done. intros z.
    by rewrite Hz, (same_map_allocated _ (xs_ex x)).
Qed.

(** Witness: [15, 50] over [10, 19] and [30, 39]. *)
Lemma extent_alloc_region_conflictok_witness :
  exists x', extent_alloc_region 3 demo_state 15 36 EX_CONFLICTOK = Done 0 x' /\
    ext_wf (xs_ex x') /\
    forall z, allocated (xs_ex x') z <-> allocated demo_extent z \/ 15 <= z <= 50.
Proof.
  apply (extent_alloc_region_conflictok demo_state 15 36 EX_CONFLICTOK
    (Region 0 0 ER_ALLOC) (upd_env demo_state (Kenv [4096] true 3 []))).
  - apply (demo_safe demo_extent). by left.
  - simpl. lia.
  - lia.
  - simpl. lia.
  - reflexivity.
  - reflexivity.
  - reflexivity.
  - apply same_map_refl.
  - unfold allocated, covers. simpl. intros H.
    repeat (inversion H as [? ? Hr|? ? Hr]; subst; clear H;
            [unfold in_region in Hr; simpl in Hr; lia|rename Hr into H]).
    inversion H.
Defined.

(** The defect of the EX_CONFLICTOK cases when the last number of the
    request is already allocated. A request inside an existing region (the
    comment's case 4, "we're done") cuts that region at the end of the
    request; a request that ends on the first number of a region (case 3)
    returns 0 without allocating anything; a request inside a region that
    reaches the end of the extent returns 0 without releasing its
    descriptor. *)
Theorem extent_alloc_region_conflictok_defects :
  let one s e := XState (Extent 4096 "x" [Region s e ER_ALLOC] 0 99 0 0 [])
                   (Kenv [4096] true 1 []) [] in
  (* [12, 15] requested inside [10, 20]: 16 to 20 become free *)
  (exists x', extent_alloc_region 9 (one 10 20) 12 4 EX_CONFLICTOK = Done 0 x' /\
     ex_regions (xs_ex x') = [Region 10 15 ER_ALLOC]) /\
  (* [5, 10] requested, [10, 20] allocated: 5 to 9 stay free *)
  (exists x', extent_alloc_region 9 (one 10 20) 5 6 EX_CONFLICTOK = Done 0 x' /\
     ex_regions (xs_ex x') = [Region 10 20 ER_ALLOC]) /\
  (* [60, 70] requested inside [50, 99]: the spare descriptor is lost *)
  (exists x', extent_alloc_region 9 (one 50 99) 60 11 EX_CONFLICTOK = Done 0 x' /\
     ex_regions (xs_ex x') = [Region 50 99 ER_ALLOC] /\ ke_pool_out (xs_env x') = 2).
Proof.
  simpl. split_and!; eexists; (split; [vm_compute; reflexivity|done]).
Qed.

(** ** Descriptor accounting *)

(** Descriptors on the two lists, less those owed to the pool. *)
Definition balance (x : xstate) : Z :=
  Z.of_nat (length (ex_regions (xs_ex x)) + length (fex_freelist (xs_ex x)))
  - ke_pool_out (xs_env x).

(** A descriptor the extent owns, as opposed to a caller's. *)
Definition owned (r : region) : Prop := has (er_flags r) ER_DISCARD = false.

Definition all_owned (x : xstate) : Prop :=
  Forall owned (ex_regions (xs_ex x)) /\ Forall owned (fex_freelist (xs_ex x)).

Lemma frd_balance x r :
  owned r -> balance (extent_free_region_descriptor x r) = balance x + 1.
Proof.
  unfold owned, balance, extent_free_region_descriptor. intros ->.
  repeat step_if; simpl; lia.
Qed.

Lemma frd_owned x r :
  owned r -> all_owned x -> all_owned (extent_free_region_descriptor x r).
Proof.
  unfold all_owned. intros Hr [H1 H2]. rewrite frd_regions. split; [done|].
  unfold extent_free_region_descriptor. rewrite Hr.
  repeat step_if; simpl; try done; by constructor.
Qed.

Lemma alloc_descr_balance x flags o x' :
  all_owned x -> xs_sched x = [] ->
  extent_alloc_region_descriptor x flags = Done o x' ->
  xs_sched x' = [] /\ same_map (xs_ex x') (xs_ex x) /\ all_owned x' /\
  match o with
  | Some rp => owned rp /\ balance x' = balance x - 1
  | None => balance x' = balance x
  end.
Proof.
  destruct x as [ex e sched]. intros [H1 H2] Es. simpl in Es. subst sched.
  unfold extent_alloc_region_descriptor. simpl.
  assert (forall o x', descr_from_pool (XState ex e []) flags = Done o x' ->
    xs_sched x' = [] /\ same_map (xs_ex x') ex /\ all_owned x' /\
    match o with
    | Some rp => owned rp /\ balance x' = balance (XState ex e []) - 1
    | None => balance x' = balance (XState ex e [])
    end) as Hpool.
  { intros o' y. unfold descr_from_pool, pool_get. step_if; intros [= <- <-];
      split_and!; try done. unfold balance. simpl. lia. }
  step_if; [|by apply Hpool].
  destruct (fex_freelist ex) as [|rp fl] eqn:Efl.
  - repeat step_if; try done; [apply Hpool|]. intros [= <- <-].
    by split_and!.
  - intros [= <- <-]. simpl in H2. rewrite Efl in H2. apply Forall_cons in H2 as [? ?].
    split_and!; try done. unfold balance. simpl. rewrite Efl. simpl. lia.
Qed.

Lemma length_insert_at i r l : length (insert_at i r l) = S (length l).
Proof.
  unfold insert_at. rewrite length_app. simpl.
  rewrite length_take, length_drop. lia.
Qed.

Lemma Forall_insert_at (P : region -> Prop) i r l :
  P r -> Forall P l -> Forall P (insert_at i r l).
Proof.
  intros Hr Hl. unfold insert_at. apply Forall_app.
  split; [by apply Forall_take|]. constructor; [done|]. by apply Forall_drop.
Qed.

(** The state after [n] more descriptors than [x] are accounted for. *)
Definition accounts (x x' : xstate) (n : Z) : Prop :=
  all_owned x' /\ balance x' = balance x + n.

Lemma put_accounts x l n :
  all_owned x -> Forall owned l ->
  n = Z.of_nat (length l) - Z.of_nat (length (ex_regions (xs_ex x))) ->
  accounts x (upd_ex x (with_regions (xs_ex x) l)) n.
Proof. intros [_ ?] ? ->. split; [by split|]. unfold balance. simpl. lia. Qed.

Lemma frd_accounts x y r n :
  owned r -> accounts x y (n - 1) -> accounts x (extent_free_region_descriptor y r) n.
Proof.
  intros Hr [Ho Hb]. split; [by apply frd_owned|]. rewrite frd_balance, Hb by done. lia.
Qed.

(** The inserted descriptor ends up on the region list or is released, and a
    region merged away releases its own. *)
Lemma insert_accounts x start size after rp :
  all_owned x -> owned rp ->
  match after with Some i => (i < length (ex_regions (xs_ex x)))%nat | None => True end ->
  accounts x (extent_insert_and_optimize x start size after rp) 1.
Proof.
  intros Ho Hrp Hi. pose proof Ho as [H1 _]. unfold extent_insert_and_optimize.
  set (rs := ex_regions (xs_ex x)) in *.
  assert (forall i r, rs !! i = Some r -> owned r) as Hlk.
  { intros i r Hr. rewrite Forall_lookup in H1. by eapply H1. }
  destruct after as [i|].
  - apply lookup_lt_is_Some_2 in Hi as [a Ha]. rewrite Ha.
    assert (accounts x (upd_ex x (with_regions (xs_ex x) (insert_at (S i)
      (Region start (start +u (size -u 1)) (er_flags rp)) rs))) 1) as Hins.
    { apply put_accounts; [done|by apply Forall_insert_at|].
      rewrite length_insert_at. fold rs. lia. }
    pose proof (Hlk _ _ Ha). step_if; [done|].
    destruct (rs !! S i) as [nextr|] eqn:Hn; [pose proof (Hlk _ _ Hn)|].
    + assert (S i < length rs)%nat by (by eapply lookup_lt_Some).
      repeat step_if; try done; repeat (apply frd_accounts; [done|]);
        apply put_accounts; try done; fold rs;
        rewrite ?length_delete, ?length_insert; try lia;
        try (apply lookup_lt_is_Some; rewrite length_insert; lia);
        try apply Forall_delete; apply Forall_insert; done.
    + repeat step_if; try done; apply frd_accounts; try done;
        apply put_accounts; try done; fold rs; rewrite ?length_insert; try lia;
        apply Forall_insert; done.
  - destruct rs as [|r0 rs'] eqn:Ers.
    + apply put_accounts; [done|by constructor|]. fold rs. rewrite Ers. simpl. lia.
    + apply Forall_cons in H1 as [? ?].
      step_if; [apply frd_accounts; [done|]|]; apply put_accounts; try done;
        try (repeat constructor; done); fold rs; rewrite Ers; simpl; lia.
Qed.

Lemma accounts_trans x y z m n : accounts x y m -> accounts y z n -> accounts x z (m + n).
Proof. intros [_ Hb] [Ho Hb']. split; [done|]. lia. Qed.

Lemma last_idx_lt l1 l2 :
  match last_idx l1 with Some i => (i < length (l1 ++ l2))%nat | None => True end.
Proof. destruct l1; simpl; [done|]. rewrite length_app. lia. Qed.

Lemma flags_accounts x f : all_owned x -> accounts x (upd_ex x (with_exflags (xs_ex x) f)) 0.
Proof. intros Ho. split; [done|]. unfold balance. simpl. lia. Qed.

Lemma alloc_region_loop_accounts fuel x start en size flags myrp err x' :
  all_owned x -> owned myrp -> xs_sched x = [] -> has flags EX_CONFLICTOK = false ->
  ext_wf (xs_ex x) -> ex_start (xs_ex x) <= start <= en -> en <= ex_end (xs_ex x) ->
  alloc_region_loop fuel x start en size flags myrp = Done err x' -> accounts x x' 1.
Proof.
  intros Ho Hr Hs Hc Hwf H1 H2. destruct fuel; [done|]. simpl. rewrite Hc, Hs.
  pose proof (alloc_region_scan_sound (xs_ex x) start en Hwf H1 H2) as Hscan.
  destruct (alloc_region_scan _ _ _ _ _).
  - intros [= <- <-]. destruct Hscan as (l1 & l2 & E & -> & _).
    apply insert_accounts; try done. rewrite E. apply last_idx_lt.
  - step_if; [done|]. intros [= <- <-]. apply frd_accounts; [done|].
    split; [done|lia].
Qed.

Lemma do_alloc_accounts x substart subend size k skew boundary flags myrp r x' :
  all_owned x -> owned myrp -> xs_sched x = [] -> ext_wf (xs_ex x) ->
  valid_subregion_request (ex_start (xs_ex x)) (ex_end (xs_ex x))
    substart subend size k skew boundary flags ->
  extent_do_alloc x substart subend size (2 ^ k) skew boundary flags myrp = Done r x' ->
  accounts x x' 1.
Proof.
  intros Ho Hr Hs Hwf Hv. unfold extent_do_alloc. repeat (step_if; [done|]).
  destruct x as [ex e sched]. simpl in *. subst sched. simpl.
  pose proof (try_spec _ _ ex _ _ _ _ _ _ _ ltac:(by split) Hv) as Ht.
  destruct (do_alloc_try _ _ _ _ _ _ _ _) as [[[p last]|]|]; try done.
  - intros [= <- <-]. destruct Ht as (_ & l1 & l2 & E & -> & _).
    apply insert_accounts; try done. simpl. rewrite E. apply last_idx_lt.
  - step_if; [done|]. intros [= <- <-]. apply frd_accounts; [done|]. split; [done|lia].
Qed.

Lemma free_done_accounts x y nrp err x' n :
  accounts x y n -> match nrp with Some r => owned r | None => True end ->
  free_done y nrp = Done err x' ->
  accounts x x' (n + match nrp with Some _ => 1 | None => 0 end).
Proof.
  intros Hy Hn. unfold free_done.
  set (y1 := match nrp with Some r => _ | None => y end).
  assert (accounts x y1 (n + match nrp with Some _ => 1 | None => 0 end)) as Hy1.
  { destruct nrp; subst y1; [|by rewrite Z.add_0_r].
    apply frd_accounts; [done|]. by replace (n + 1 - 1) with n by lia. }
  step_if; intros [= <- <-]; [|done]. destruct Hy1 as [Ho Hb]. split; [done|].
  rewrite <- Hb. done.
Qed.

Lemma free_found_accounts x start en nrp err x' :
  all_owned x -> match nrp with Some r => owned r | None => True end ->
  ext_wf (xs_ex x) -> start <= en ->
  free_found x start en nrp = Done err x' ->
  accounts x x' (match nrp with Some _ => 1 | None => 0 end).
Proof.
  intros Ho Hn (_ & _ & Hok) Hse. unfold free_found.
  pose proof (free_scan_spec (has (ex_flags (xs_ex x)) EXF_NOCOALESCE) start en 0
    _ _ _ Hse Hok) as Hsc.
  pose proof Ho as [Hor _].
  destruct (free_scan _ _ _ _ _) as [j rp|j rp|j rp|j rp|]; [..|done];
    destruct Hsc as ((l1 & l2 & E & ->) & _); rewrite !E in *;
    simpl; autorewrite with middle; apply Forall_app in Hor as [Ho1 Ho2];
    apply Forall_cons in Ho2 as [Horp Ho2].
  - apply (free_done_accounts x _ _ _ _ 0); [|done]. apply frd_accounts; [done|].
    apply put_accounts; [done|by apply Forall_app|]. rewrite E, !length_app. simpl. lia.
  - apply (free_done_accounts x _ _ _ _ 0); [|done].
    apply put_accounts; [done|apply Forall_app; split; [done|by constructor]|].
    rewrite E, !length_app. simpl. lia.
  - apply (free_done_accounts x _ _ _ _ 0); [|done].
    apply put_accounts; [done|apply Forall_app; split; [done|by constructor]|].
    rewrite E, !length_app. simpl. lia.
  - destruct nrp as [n|]; [|done]. apply (free_done_accounts x _ None _ _ 1); [|done].
    unfold insert_at. autorewrite with middle. rewrite <- app_assoc. simpl.
    apply put_accounts; [done|apply Forall_app; split; [done|by repeat constructor]|].
    rewrite E, !length_app. simpl. lia.
Qed.

(** Conservation of region descriptors. When a call that does not sleep
    returns, whatever its error code, the descriptors on the region list and
    the free list, less those owed to the pool, are as many as before: none
    is leaked or freed twice (EX_CONFLICTOK excepted). *)
Theorem extent_descriptors_conserved x :
  all_owned x -> xs_sched x = [] -> ext_wf (xs_ex x) ->
  (forall fuel start size flags err x',
     valid_region_request (xs_ex x) start size flags -> has flags EX_CONFLICTOK = false ->
     extent_alloc_region fuel x start size flags = Done err x' -> accounts x x' 0) /\
  (forall substart subend size k skew boundary flags r x',
     valid_subregion_request (ex_start (xs_ex x)) (ex_end (xs_ex x))
       substart subend size k skew boundary flags ->
     extent_alloc_subregion x substart subend size (2 ^ k) skew boundary flags = Done r x' ->
     accounts x x' 0) /\
  (forall start size flags err x',
     extent_free x start size flags = Done err x' -> accounts x x' 0).
Proof.
  intros Ho Hs Hwf. pose proof Hwf as (Hb & Hm & _).
  assert (forall flags o x1, extent_alloc_region_descriptor x flags = Done o x1 ->
    xs_sched x1 = [] /\ all_owned x1 /\ ext_wf (xs_ex x1) /\ same_map (xs_ex x1) (xs_ex x) /\
    accounts x x1 (match o with Some _ => -1 | None => 0 end) /\
    match o with Some rp => owned rp | None => True end) as Hd.
  { intros flags o x1 E. destruct (alloc_descr_balance x flags o x1 Ho Hs E)
      as (? & Hsm & ? & Hbal).
    assert (bounded (ex_start (xs_ex x)) (ex_end (xs_ex x)) (xs_ex x1)) as (? & _)
      by (by eapply same_map_bounded).
    do 4 (split; [done|]).
    destruct o as [rp|]; [destruct Hbal as [? Hbal]|]; (split; [|done]);
      (split; [done|]); rewrite Hbal; lia. }
  split_and!.
  - intros fuel start size flags err x' (H1 & H2 & H3 & _) Hc. unfold extent_alloc_region.
    repeat (step_if; [done|]). rewrite (usub_exact size 1), (uadd_exact start) by lia.
    destruct (extent_alloc_region_descriptor x flags) as [[rp|] x1| | |] eqn:E; try done;
      destruct (Hd _ _ _ E) as (Hs1 & Ho1 & Hwf1 & (_ & E2 & E3 & _) & Ha & Hrp).
    + intros Hl. apply (accounts_trans x x1 x' (-1) 1); [done|].
      apply (alloc_region_loop_accounts fuel x1 start (start + (size - 1)) size flags rp err);
        try done; rewrite ?E2, ?E3; lia.
    + by intros [= <- <-].
  - intros substart subend size k skew boundary flags r x' Hv.
    unfold extent_alloc_subregion.
    destruct (extent_alloc_region_descriptor x flags) as [[rp|] x1| | |] eqn:E; try done;
      destruct (Hd _ _ _ E) as (Hs1 & Ho1 & Hwf1 & (_ & E2 & E3 & _) & Ha & Hrp).
    + intros Hl. apply (accounts_trans x x1 x' (-1) 1); [done|].
      eapply do_alloc_accounts; try done. by rewrite E2, E3.
    + by intros [= <- <-].
  - intros start size flags err x'. unfold extent_free.
    step_if; [done|]. destruct (_ <? start) eqn:Hse; [done|]. bool_to_prop.
    step_if.
    + destruct (extent_alloc_region_descriptor x flags) as [[rp|] x1| | |] eqn:E; try done;
        destruct (Hd _ _ _ E) as (Hs1 & Ho1 & Hwf1 & _ & Ha & Hrp).
      * intros Hl. apply (accounts_trans x x1 x' (-1) 1); [done|].
        by apply (free_found_accounts x1 _ _ (Some rp)) in Hl.
      * by intros [= <- <-].
    + intros Hl. by apply (free_found_accounts x _ _ None) in Hl.
Qed.

(** Witness, on a fixed extent with two spare descriptors. *)
Lemma extent_descriptors_conserved_witness :
  let x := XState (Extent 4096 "fixed" [Region 10 19 0] 0 99 0 EXF_FIXED
             [Region 0 0 0; Region 0 0 0]) (Kenv [4096] false 0 []) [] in
  (exists x', extent_alloc_region 1 x 20 5 0 = Done 0 x' /\ accounts x x' 0) /\
  (exists x', extent_free x 12 2 0 = Done 0 x' /\ accounts x x' 0).
Proof.
  set (x := XState (Extent 4096 "fixed" [Region 10 19 0] 0 99 0 EXF_FIXED
    [Region 0 0 0; Region 0 0 0]) (Kenv [4096] false 0 []) []).
  destruct (extent_descriptors_conserved x) as (H1 & _ & H3).
  - split; repeat constructor.
  - reflexivity.
  - unfold ext_wf, UL_MOD. simpl. lia.
  - split; eexists; (split; [vm_compute; reflexivity|]).
    + apply (H1 1%nat 20 5 0 0); [|reflexivity|vm_compute; reflexivity].
      unfold valid_region_request. simpl. repeat split; lia.
    + apply (H3 12 2 0 0). vm_compute; reflexivity.
Defined.

(** ** Creation and destruction *)

Lemma carve_descriptors_spec fuel sz fl :
  0 <= sz -> sz / SIZEOF_EXTENT_REGION < Z.of_nat fuel -> Forall owned fl ->
  Forall owned (carve_descriptors fuel sz fl) /\
  Z.of_nat (length (carve_descriptors fuel sz fl)) =
    Z.of_nat (length fl) + sz / SIZEOF_EXTENT_REGION.
Proof.
  unfold SIZEOF_EXTENT_REGION. revert sz fl.
  induction fuel as [|fuel IH]; intros sz fl Hsz Hf Hfl.
  { pose proof (Z.div_pos sz 40 Hsz). lia. }
  simpl. unfold SIZEOF_EXTENT_REGION. destruct (sz >=? 40) eqn:E; bool_to_prop.
  - assert (sz / 40 = (sz - 40) / 40 + 1) as Ediv.
    { rewrite <- (Z_div_plus_full (sz - 40) 1 40) by lia. f_equal. lia. }
    destruct (IH (sz - 40) (Region 0 0 0 :: fl)) as [H1 H2]; try lia; [by constructor|].
    split; [done|]. rewrite H2. simpl. lia.
  - rewrite Z.div_small by lia. split; [done|lia].
Qed.

Definition created (ex : extent) (e' : kenv) (start en : Z) (filled : bool)
    (ndescr : option Z) : Prop :=
  ext_wf ex /\ ex_start ex = start /\ ex_end ex = en /\ ex_addr ex ∈ ke_ext_list e' /\
  (forall z, allocated ex z <-> filled = true /\ start <= z <= en) /\
  Forall owned (fex_freelist ex) /\
  match ndescr with
  | Some n => Z.of_nat (length (ex_regions ex) + length (fex_freelist ex)) = n
  | None => True
  end.

Lemma alloc_descr_addr x flags o x' :
  xs_sched x = [] -> extent_alloc_region_descriptor x flags = Done o x' ->
  ex_addr (xs_ex x') = ex_addr (xs_ex x).
Proof.
  destruct x as [ex e sched]. simpl. intros ->.
  unfold extent_alloc_region_descriptor, descr_from_freelist, descr_from_pool. simpl.
  destruct (pool_get _ _), (fex_freelist ex); repeat step_if; intros [= <- <-]; done.
Qed.

(** The part of [extent_create] after the descriptor storage is obtained. *)
Lemma create_body e nm start en mtype addr fl f1 flags ndescr :
  0 <= start <= en -> en < UL_MOD -> Forall owned fl ->
  (forall n, ndescr = Some n -> has f1 EXF_FIXED = true /\
     has flags EX_MALLOCOK = false /\ Z.of_nat (length fl) = n) ->
  let ex := Extent addr nm [] start en mtype f1 fl in
  let reg x :=
    match extent_register (xs_env x) addr with
    | Some e' => Done (S := kenv) (Some (xs_ex x, e')) e'
    | None => Panic
    end in
  forall ex' e' e1,
  (if has flags EX_FILLED then
     match extent_alloc_region_descriptor (XState ex e []) flags with
     | Done (Some rp) x =>
         reg (upd_ex x (with_regions (xs_ex x)
                (Region start en (er_flags rp) :: ex_regions (xs_ex x))))
     | Done None x => Done None (xs_env x)
     | Blocked x => Blocked (xs_env x)
     | Panic => Panic
     | NoFuel => NoFuel
     end
   else reg (XState ex e [])) = Done (Some (ex', e')) e1 ->
  created ex' e' start en (has flags EX_FILLED) ndescr.
Proof.
  intros Hse Hen Hfl Hn ex reg ex' e' e1.
  assert (forall x y, reg x = Done (Some (ex', e')) y ->
    ex' = xs_ex x /\ addr ∈ ke_ext_list e') as Hreg.
  { intros x y. unfold reg, extent_register. step_if; [done|]. intros [= <- <- <-].
    split; [done|]. simpl. apply elem_of_cons. by left. }
  destruct (has flags EX_FILLED).
  - destruct (extent_alloc_region_descriptor (XState ex e []) flags)
      as [[rp|] x| | |] eqn:Ed; try done.
    intros [-> Hin]%Hreg.
    destruct (alloc_descr_balance (XState ex e []) flags _ _ ltac:(by split) eq_refl Ed)
      as (_ & (E1 & E2 & E3 & _) & [_ Hof] & Hor & Hbal).
    simpl in E1, E2, E3. unfold created, ext_wf, allocated. simpl.
    rewrite E1, E2, E3. simpl. split_and!; try done; try lia.
    + by rewrite (alloc_descr_addr (XState ex e []) flags _ _ eq_refl Ed).
    + intros z. rewrite covers_cons, covers_nil. unfold in_region. simpl. tauto.
    + destruct ndescr as [n|]; [|done]. destruct (Hn n eq_refl) as (Hf & Hm & <-).
      unfold extent_alloc_region_descriptor in Ed. simpl in Ed. rewrite Hf in Ed.
      destruct fl as [|r fl]; simpl in Ed.
      * rewrite Hm in Ed. by destruct (has flags EX_WAITOK).
      * injection Ed as <- <-. simpl. lia.
  - intros [-> Hin]%Hreg. unfold created, ext_wf, allocated. simpl.
    split_and!; try done; try lia.
    + intros z. rewrite covers_nil. intuition discriminate.
    + destruct ndescr as [n|]; [|done]. destruct (Hn n eq_refl) as (_ & _ & <-). lia.
Qed.

(** A successful [extent_create] yields a well-formed extent whose map is
    empty, or full with EX_FILLED; a fixed extent (created without
    EX_MALLOCOK) holds exactly the descriptors its storage has room for, all
    its own; and the extent is registered. *)
Theorem extent_create_correct e nm start en mtype storage storagesize malloced flags ex e' e1 :
  0 <= start -> en < UL_MOD ->
  extent_create e (Some nm) start en mtype storage storagesize malloced flags = Done (Some (ex, e')) e1 ->
  created ex e' start en (has flags EX_FILLED)
    (match storage with
     | Some _ => if has flags EX_MALLOCOK then None else Some ((storagesize - 80) / 40)
     | None => None
     end).
Proof.
  intros Hs He. unfold extent_create.
  destruct (en <? start) eqn:Hse; [done|]. bool_to_prop. destruct storage as [addr|].
  - rename storagesize into ssz. destruct (ssz <? SIZEOF_EXTENT_FIXED) eqn:Hsz; [done|]. bool_to_prop.
    unfold SIZEOF_EXTENT_FIXED in *.
    destruct (carve_descriptors_spec
      (Z.to_nat ((ssz - 80) / SIZEOF_EXTENT_REGION + 1)) (ssz - 80) []) as [H1 H2];
      [lia| |constructor|].
    { pose proof (Z.div_pos (ssz - 80) SIZEOF_EXTENT_REGION).
      unfold SIZEOF_EXTENT_REGION in *. lia. }
    apply create_body; try done. intros n Hn.
    destruct (has flags EX_MALLOCOK); [done|]. injection Hn as <-.
    split_and!; [by destruct (has flags EX_NOCOALESCE)|done|]. by rewrite H2.
  - destruct (negb _); [done|]. destruct malloced as [addr|]; [|done]. by apply create_body.
Qed.

(** Witness: a filled fixed extent with room for three descriptors. *)
Lemma extent_create_correct_witness :
  exists ex e', extent_create (Kenv [] false 0 []) (Some "io"%string) 0 65535 0
      (Some 4096) 200 None EX_FILLED = Done (Some (ex, e')) e' /\
    created ex e' 0 65535 true (Some 3).
Proof.
  do 2 eexists. split; [vm_compute; reflexivity|].
  apply (extent_create_correct (Kenv [] false 0 []) "io" 0 65535 0 (Some 4096) 200 None
    EX_FILLED _ _ (Kenv [4096] false 0 [])); [lia|unfold UL_MOD; lia|].
  vm_compute; reflexivity.
Defined.
