(* ===== verification/Clist.v ===== *)
(** * Terminal ring buffers (sys/kern/tty_subr.c, struct clist of sys/sys/tty.h)

    A clist is a ring buffer of bytes with an optional bitmap of quoted
    characters.  Pointers into the buffer are offsets from [c_cs]; [NULL] is
    [None].  Operations return [None] when the C code would access memory
    outside the buffer or through a null pointer.  The operations run at
    [spltty], so each is one atomic step. *)

From stdpp Require Import base numbers list option.
From Stdlib Require Import ZArith Lia Bool.
From S2P Require Import Prelude.

Definition TTY_QUOTE : Z := 256.
Definition NBBY : Z := 8.
Definition QMEM (n : Z) : Z := (n - 1) / NBBY + 1.

Record clist := Clist {
  c_cc : Z;                  (* characters in the queue *)
  c_cn : Z;                  (* length of the ring buffer *)
  c_cf : option Z;           (* first character *)
  c_cl : option Z;           (* next open slot *)
  c_cs : option (list Z);    (* the ring buffer *)
  c_ce : Z;                  (* end of the buffer *)
  c_cq : option (list Z)     (* quote bitmap *)
}.

(** ** Memory *)

Definition rd (m : list Z) (i : Z) : option Z :=
  if 0 <=? i then m !! Z.to_nat i else None.

Definition wr (m : list Z) (i v : Z) : option (list Z) :=
  if (0 <=? i) && (i <? Z.of_nat (length m)) then Some (<[Z.to_nat i := v]> m) else None.

(** [memcpy] out of, and into, [m] at offset [i]. *)
Definition rd_range (m : list Z) (i n : Z) : option (list Z) :=
  if (0 <=? i) && (0 <=? n) && (i + n <=? Z.of_nat (length m))
  then Some (take (Z.to_nat n) (drop (Z.to_nat i) m)) else None.

Definition wr_range (m : list Z) (i : Z) (bs : list Z) : option (list Z) :=
  if (0 <=? i) && (i + Z.of_nat (length bs) <=? Z.of_nat (length m))
  then Some (take (Z.to_nat i) m ++ bs ++ drop (Z.to_nat i + length bs) m) else None.

(** [setbit], [clrbit] and [isset] of sys/sys/param.h. *)
Definition setbit (a : list Z) (i : Z) : option (list Z) :=
  b ← rd a (Z.shiftr i 3); wr a (Z.shiftr i 3) (Z.lor b (Z.shiftl 1 (Z.land i 7))).
Definition clrbit (a : list Z) (i : Z) : option (list Z) :=
  b ← rd a (Z.shiftr i 3);
  wr a (Z.shiftr i 3) (Z.land b (Z.lnot (Z.shiftl 1 (Z.land i 7)))).
Definition isset (a : list Z) (i : Z) : option bool :=
  b ← rd a (Z.shiftr i 3); Some (has b (Z.shiftl 1 (Z.land i 7))).

(** ** Allocation *)

Definition clalloc (size : Z) (quot : bool) : clist :=
  Clist 0 size None None (Some (replicate (Z.to_nat size) 0)) size
    (if quot then Some (replicate (Z.to_nat (QMEM size)) 0) else None).

(** [explicit_bzero] clears the memory before [free]: the bytes given back
    are returned beside the clist. *)
Definition clfree (clp : clist) : clist * list Z * list Z :=
  (Clist (c_cc clp) (c_cn clp) (c_cf clp) (c_cl clp) None (c_ce clp) None,
   match c_cs clp with Some m => replicate (length m) 0 | None => [] end,
   match c_cq clp with Some m => replicate (length m) 0 | None => [] end).

(** ** Single characters *)

(** [c = *p & 0xff; if (quoted) c |= TTY_QUOTE;] *)
Definition mkchar (quoted : bool) (b : Z) : Z :=
  if quoted then Z.lor (Z.land b 255) TTY_QUOTE else Z.land b 255.

(** Read slot [i] with its quote bit and clear both. *)
Definition take_slot (clp : clist) (i : Z) : option (Z * list Z * option (list Z)) :=
  cs ← c_cs clp;
  b ← rd cs i;
  cs' ← wr cs i 0;
  match c_cq clp with
  | None => Some (mkchar false b, cs', None)
  | Some q =>
      quoted ← isset q i;
      q' ← clrbit q i;
      Some (mkchar quoted b, cs', Some q')
  end.

Definition getc (clp : clist) : option (Z * clist) :=
  if c_cc clp =? 0 then Some (-1, clp)
  else
    cf ← c_cf clp;
    '(c, cs', q') ← take_slot clp cf;
    let cf1 := if cf + 1 =? c_ce clp then 0 else cf + 1 in
    let cc1 := c_cc clp - 1 in
    if cc1 =? 0
    then Some (c, Clist 0 (c_cn clp) None None (Some cs') (c_ce clp) q')
    else Some (c, Clist cc1 (c_cn clp) (Some cf1) (c_cl clp) (Some cs') (c_ce clp) q').

(** The preparation of an empty clist for [putc] and [b_to_q]. *)
Definition open_empty (clp : clist) : clist :=
  if c_cc clp =? 0 then
    let clp1 := match c_cs clp with Some _ => clp | None => clalloc 1024 true end in
    Clist (c_cc clp1) (c_cn clp1) (Some 0) (Some 0) (c_cs clp1) (c_ce clp1) (c_cq clp1)
  else clp.

Definition putc (c : Z) (clp : clist) : option (Z * clist) :=
  if c_cc clp =? c_cn clp then Some (-1, clp)
  else
    let clp1 := open_empty clp in
    cl ← c_cl clp1;
    cs ← c_cs clp1;
    cs' ← wr cs cl (Z.land c 255);
    q' ← match c_cq clp1 with
         | None => Some None
         | Some q => Some <$> (if has c TTY_QUOTE then setbit q cl else clrbit q cl)
         end;
    let cl1 := if cl + 1 =? c_ce clp1 then 0 else cl + 1 in
    Some (0, Clist (c_cc clp1 + 1) (c_cn clp1) (c_cf clp1) (Some cl1) (Some cs')
               (c_ce clp1) q').

Definition unputc (clp : clist) : option (Z * clist) :=
  if c_cc clp =? 0 then Some (-1, clp)
  else
    cl ← c_cl clp;
    let cl1 := if cl =? 0 then c_ce clp - 1 else cl - 1 in
    let cc1 := c_cc clp - 1 in
    '(c, cs', q') ← take_slot clp cl1;
    if cc1 =? 0
    then Some (c, Clist 0 (c_cn clp) None None (Some cs') (c_ce clp) q')
    else Some (c, Clist cc1 (c_cn clp) (c_cf clp) (Some cl1) (Some cs') (c_ce clp) q').

(** ** Clearing a run of bits *)

(** [cp[i] = 0x00] for [i] in [sby, eby). *)
Fixpoint zero_bytes (n : nat) (cp : list Z) (i : Z) : option (list Z) :=
  match n with
  | O => Some cp
  | S n => cp' ← wr cp i 0; zero_bytes n cp' (i + 1)
  end.

Definition and_byte (cp : list Z) (i mask : Z) : option (list Z) :=
  b ← rd cp i; wr cp i (Z.land b mask).

(** [mask] is a [u_char]. *)
Definition clrbits (cp : list Z) (off len : Z) : option (list Z) :=
  if len =? 1 then clrbit cp off
  else
    let sby := off / NBBY in
    let sbi := off `mod` NBBY in
    let eby := (off + len) / NBBY in
    let ebi := (off + len) `mod` NBBY in
    if sby =? eby then
      let mask := Z.land (Z.shiftl (Z.shiftl 1 (ebi - sbi) - 1) sbi) 255 in
      and_byte cp sby (Z.lnot mask)
    else
      let mask := Z.land (Z.shiftl 1 sbi - 1) 255 in
      cp1 ← and_byte cp sby mask;
      cp2 ← zero_bytes (Z.to_nat (eby - (sby + 1))) cp1 (sby + 1);
      let mask := Z.land (Z.shiftl 1 ebi - 1) 255 in
      if negb (mask =? 0) then and_byte cp2 eby (Z.lnot mask) else Some cp2.

(** ** Blocks *)

(** Length of the contiguous run of characters at [c_cf]. *)
Definition run_length (cf cl ce : Z) : Z := if cf >=? cl then ce - cf else cl - cf.

(** The loop of [q_to_b]; the value is the bytes copied so far. *)
Fixpoint q_to_b_loop (fuel : nat) (clp : clist) (count : Z) (out : list Z)
    : option (list Z * clist) :=
  if (count >? 0) && (c_cc clp >? 0) then
    match fuel with
    | O => None
    | S fuel =>
        cf ← c_cf clp;
        cl ← c_cl clp;
        cs ← c_cs clp;
        let cc := Z.min (run_length cf cl (c_ce clp)) count in
        bs ← rd_range cs cf cc;
        cs' ← wr_range cs cf (replicate (Z.to_nat cc) 0);
        q' ← match c_cq clp with
             | None => Some None
             | Some q => Some <$> clrbits q cf cc
             end;
        let cf1 := if cf + cc =? c_ce clp then 0 else cf + cc in
        q_to_b_loop fuel
          (Clist (c_cc clp - cc) (c_cn clp) (Some cf1) (c_cl clp) (Some cs') (c_ce clp) q')
          (count - cc) (out ++ bs)
    end
  else Some (out, clp).

Definition reset_if_empty (clp : clist) : clist :=
  if c_cc clp =? 0
  then Clist (c_cc clp) (c_cn clp) None None (c_cs clp) (c_ce clp) (c_cq clp)
  else clp.

(** The returned count is the length of the bytes moved. *)
Definition q_to_b (clp : clist) (count : Z) : option (list Z * clist) :=
  '(out, clp') ← q_to_b_loop (Z.to_nat count) clp count [];
  Some (out, reset_if_empty clp').

Fixpoint ndflush_loop (fuel : nat) (clp : clist) (count : Z) : option clist :=
  if (count >? 0) && (c_cc clp >? 0) then
    match fuel with
    | O => None
    | S fuel =>
        cf ← c_cf clp;
        cl ← c_cl clp;
        let cc := Z.min (run_length cf cl (c_ce clp)) count in
        let cf1 := if cf + cc =? c_ce clp then 0 else cf + cc in
        ndflush_loop fuel
          (Clist (c_cc clp - cc) (c_cn clp) (Some cf1) (c_cl clp) (c_cs clp) (c_ce clp)
             (c_cq clp))
          (count - cc)
    end
  else Some clp.

Definition ndflush (clp : clist) (count : Z) : option clist :=
  if count =? c_cc clp
  then Some (Clist 0 (c_cn clp) None None (c_cs clp) (c_ce clp) (c_cq clp))
  else
    clp' ← ndflush_loop (Z.to_nat count) clp count;
    Some (reset_if_empty clp').

(** The loop of [b_to_q]; [p] is what is left of the buffer. *)
Fixpoint b_to_q_loop (fuel : nat) (p : list Z) (count : Z) (clp : clist)
    : option (Z * clist) :=
  if (count >? 0) && (c_cc clp <? c_cn clp) then
    match fuel with
    | O => None
    | S fuel =>
        cf ← c_cf clp;
        cl ← c_cl clp;
        cs ← c_cs clp;
        let room := if cf >? cl then cf - cl else c_ce clp - cl in
        let cc := Z.min room count in
        cs' ← wr_range cs cl (take (Z.to_nat cc) p);
        q' ← match c_cq clp with
             | None => Some None
             | Some q => Some <$> clrbits q cl cc
             end;
        let cl1 := if cl + cc =? c_ce clp then 0 else cl + cc in
        b_to_q_loop fuel (drop (Z.to_nat cc) p) (count - cc)
          (Clist (c_cc clp + cc) (c_cn clp) (Some cf) (Some cl1) (Some cs') (c_ce clp) q')
    end
  else Some (count, clp).

Definition b_to_q (cp : list Z) (count : Z) (clp : clist) : option (Z * clist) :=
  if count <=? 0 then Some (0, clp)
  else if c_cc clp =? c_cn clp then Some (count, clp)
  else b_to_q_loop (Z.to_nat count) cp count (open_empty clp).

(** ** Scanning *)

(** The loops of [ndqb]: [quote] selects the one that looks at the bitmap.
    The index is incremented between the two tests of the condition. *)
Fixpoint ndqb_loop (cc : nat) (clp : clist) (flag : Z) (quote : bool) (i count : Z)
    : option Z :=
  match cc with
  | O => Some count
  | S cc =>
      cs ← c_cs clp;
      b ← rd cs i;
      let i1 := i + 1 in
      let stop : option bool :=
        if has b (if quote then clr_flag flag TTY_QUOTE else flag) then Some true
        else if quote then q ← c_cq clp; isset q i1
        else Some false in
      match stop with
      | None => None
      | Some true => Some count
      | Some false =>
          if i1 =? c_cn clp then Some (count + 1)
          else ndqb_loop cc clp flag quote i1 (count + 1)
      end
  end.

Definition ndqb (clp : clist) (flag : Z) : option Z :=
  if c_cc clp =? 0 then Some 0
  else
    cf ← c_cf clp;
    if flag =? 0 then
      cl ← c_cl clp;
      Some (if cl - cf <=? 0 then c_ce clp - cf else cl - cf)
    else ndqb_loop (Z.to_nat (c_cc clp)) clp flag (has flag TTY_QUOTE) cf 0.

(** The character at [i] with its quote bit. *)
Definition peek (clp : clist) (i : Z) : option Z :=
  cs ← c_cs clp;
  b ← rd cs i;
  match c_cq clp with
  | None => Some (mkchar false b)
  | Some q => quoted ← isset q i; Some (mkchar quoted b)
  end.

(** [firstc] and [nextc] share the static counter [cc]; the value is the
    pointer, the character and the counter. *)
Definition firstc (clp : clist) : option (option (Z * Z) * Z) :=
  if c_cc clp =? 0 then Some (None, 0)
  else
    cp ← c_cf clp;
    c ← peek clp cp;
    Some (Some (cp, c), c_cc clp).

Definition nextc (clp : clist) (cp : option Z) (cc : Z) : option (option (Z * Z) * Z) :=
  let cc0 := if decide (c_cf clp = cp) then c_cc clp else cc in
  match cp with
  | None => Some (None, cc0)
  | Some p =>
      if cc0 =? 0 then Some (None, cc0)
      else if cc0 - 1 =? 0 then Some (None, 0)
      else
        let p1 := if p + 1 =? c_ce clp then 0 else p + 1 in
        c ← peek clp p1;
        Some (Some (p1, c), cc0 - 1)
  end.

(** ** Concatenation *)

(** [while ((c = getc(from)) != -1) putc(c, to);] *)
Fixpoint catq_loop (fuel : nat) (from to : clist) : option (clist * clist) :=
  match fuel with
  | O => None
  | S fuel =>
      '(c, from') ← getc from;
      if c =? -1 then Some (from', to)
      else
        '(_, to') ← putc c to;
        catq_loop fuel from' to'
  end.

Definition catq (from to : clist) : option (clist * clist) :=
  if c_cc from =? 0 then Some (from, to)
  else if (c_cc to =? 0) && (c_cn from =? c_cn to) then Some (to, from)
  else catq_loop (S (Z.to_nat (c_cc from))) from to.
