(* ===== verification/ClistFacts.v ===== *)
(** * Correctness of the terminal ring buffers

    The abstract value of a clist is the list of its characters (9 bits: the
    byte and the quote flag).  Each operation of sys/kern/tty_subr.c is shown
    to refine the queue operation its comment names, without touching memory
    outside the buffer. *)

From stdpp Require Import base numbers list option.
From Stdlib Require Import ZArith Lia Bool.
From S2P Require Import Prelude Clist.

(** ** Memory *)

Definition zlen (m : list Z) : Z := Z.of_nat (length m).
Definition at_ (m : list Z) (i : Z) : Z := nth (Z.to_nat i) m 0.

Lemma rd_at m i : 0 <= i < zlen m -> rd m i = Some (at_ m i).
Proof.
  unfold zlen. intros Hi. unfold rd, at_. replace (0 <=? i) with true by lia.
  destruct (nth_lookup_or_length m (Z.to_nat i) 0); [done|lia].
Qed.

Lemma wr_ok m i v :
  0 <= i < zlen m ->
  exists m', wr m i v = Some m' /\ zlen m' = zlen m /\
    forall j, 0 <= j -> at_ m' j = if j =? i then v else at_ m j.
Proof.
  unfold zlen. intros Hi. unfold wr. replace (_ && _) with true by lia.
  eexists. split; [done|]. rewrite length_insert. split; [done|].
  intros j Hj. unfold at_. rewrite !nth_lookup. destruct (Z.eqb_spec j i) as [->|Hne].
  - rewrite list_lookup_insert_eq by lia. done.
  - rewrite list_lookup_insert_ne by lia. done.
Qed.

Lemma at_inj m1 m2 :
  zlen m1 = zlen m2 -> (forall i, 0 <= i < zlen m1 -> at_ m1 i = at_ m2 i) -> m1 = m2.
Proof.
  unfold zlen, at_. intros Hl Ha. apply (nth_ext _ _ 0 0); [lia|].
  intros n Hn. specialize (Ha (Z.of_nat n) ltac:(lia)). by rewrite Nat2Z.id in Ha.
Qed.

Lemma at_app_l m1 m2 i : 0 <= i < zlen m1 -> at_ (m1 ++ m2) i = at_ m1 i.
Proof. unfold zlen, at_. intros. by rewrite app_nth1 by lia. Qed.

Lemma at_app_r m1 m2 i : zlen m1 <= i -> at_ (m1 ++ m2) i = at_ m2 (i - zlen m1).
Proof.
  unfold zlen, at_. intros. rewrite app_nth2 by lia. f_equal. lia.
Qed.

Lemma rd_range_ok m i n :
  0 <= i -> 0 <= n -> i + n <= zlen m ->
  rd_range m i n = Some ((fun k => at_ m k) <$> seqZ i n).
Proof.
  unfold zlen. intros Hi Hn Hl. unfold rd_range. replace (_ && _ && _) with true by lia.
  f_equal. apply list_eq. intros k. rewrite list_lookup_fmap.
  destruct (decide (Z.of_nat k < n)) as [Hk|Hk].
  - rewrite lookup_seqZ_lt, lookup_take_lt, lookup_drop by lia. simpl. unfold at_.
    replace (Z.to_nat (i + Z.of_nat k)) with (Z.to_nat i + k)%nat by lia.
    destruct (nth_lookup_or_length m (Z.to_nat i + k) 0); [done|lia].
  - rewrite lookup_seqZ_ge, lookup_take_ge by lia. done.
Qed.

Lemma wr_range_ok m i bs :
  0 <= i -> i + zlen bs <= zlen m ->
  exists m', wr_range m i bs = Some m' /\ zlen m' = zlen m /\
    forall j, 0 <= j -> at_ m' j =
      if (i <=? j) && (j <? i + zlen bs) then at_ bs (j - i) else at_ m j.
Proof.
  unfold zlen. intros Hi Hl. unfold wr_range. replace (_ && _) with true by lia.
  eexists. split; [done|]. split.
  { rewrite !length_app, length_take, length_drop. lia. }
  intros j Hj. unfold at_. rewrite !nth_lookup.
  destruct ((i <=? j) && (j <? i + Z.of_nat (length bs))) eqn:E.
  - bool_to_prop. rewrite lookup_app_r by (rewrite length_take; lia).
    rewrite length_take. rewrite lookup_app_l by lia. f_equal. f_equal. lia.
  - f_equal. destruct (decide (j < i)).
    + rewrite lookup_app_l by (rewrite length_take; lia). apply lookup_take_lt. lia.
    + rewrite lookup_app_r by (rewrite length_take; lia). rewrite length_take.
      rewrite lookup_app_r by lia. rewrite lookup_drop. f_equal. lia.
Qed.

(** ** The quote bitmap *)

Definition qbit (q : list Z) (j : Z) : bool := Z.testbit (at_ q (j / 8)) (j `mod` 8).

Lemma byte_index i : Z.shiftr i 3 = i / 8.
Proof. by rewrite Z.shiftr_div_pow2. Qed.
Lemma bit_index i : Z.land i 7 = i `mod` 8.
Proof. apply (Z.land_ones i 3). lia. Qed.
Lemma bit_mask i : Z.shiftl 1 (Z.land i 7) = 2 ^ (i `mod` 8).
Proof. by rewrite bit_index, Z.shiftl_1_l. Qed.
Lemma mod8 i : 0 <= i `mod` 8 < 8.
Proof. apply Z.mod_pos_bound. lia. Qed.
Lemma div8 i : i = 8 * (i / 8) + i `mod` 8.
Proof. apply Z.div_mod. lia. Qed.

Lemma div8_range i n : 0 <= i < 8 * n -> 0 <= i / 8 < n.
Proof. pose proof (div8 i). pose proof (mod8 i). lia. Qed.

Lemma isset_ok q i : 0 <= i < 8 * zlen q -> isset q i = Some (qbit q i).
Proof.
  intros Hi. unfold isset. rewrite byte_index, rd_at by (by apply div8_range). simpl.
  rewrite bit_mask, has_pow2 by apply mod8. done.
Qed.

(** A byte update that changes bit [i] only, to [b]. *)
Lemma wr_bit q i v b :
  0 <= i < 8 * zlen q ->
  (forall n, 0 <= n < 8 -> Z.testbit v n =
     if n =? i `mod` 8 then b else Z.testbit (at_ q (i / 8)) n) ->
  exists q', wr q (i / 8) v = Some q' /\ zlen q' = zlen q /\
    forall j, 0 <= j -> qbit q' j = if j =? i then b else qbit q j.
Proof.
  intros Hi Hv. destruct (wr_ok q (i / 8) v (div8_range _ _ Hi)) as (q' & -> & Hl & Hat).
  exists q'. split_and!; [done..|]. intros j Hj. unfold qbit.
  pose proof (div8 i). pose proof (div8 j). pose proof (mod8 i). pose proof (mod8 j).
  rewrite Hat by lia. destruct (Z.eqb_spec (j / 8) (i / 8)) as [E|E].
  - rewrite Hv, E by lia. destruct (Z.eqb_spec (j `mod` 8) (i `mod` 8)), (Z.eqb_spec j i);
      try done; lia.
  - destruct (Z.eqb_spec j i); [congruence|done].
Qed.

Lemma clrbit_ok q i :
  0 <= i < 8 * zlen q ->
  exists q', clrbit q i = Some q' /\ zlen q' = zlen q /\
    forall j, 0 <= j -> qbit q' j = if j =? i then false else qbit q j.
Proof.
  intros Hi. unfold clrbit. rewrite byte_index, rd_at, bit_mask by (by apply div8_range).
  simpl. apply wr_bit; [done|]. intros n Hn. pose proof (mod8 i).
  rewrite Z.land_spec, Z.lnot_spec, Z.pow2_bits_eqb by lia.
  rewrite (Z.eqb_sym n). destruct (_ =? n); [apply andb_false_r|apply andb_true_r].
Qed.

Lemma setbit_ok q i :
  0 <= i < 8 * zlen q ->
  exists q', setbit q i = Some q' /\ zlen q' = zlen q /\
    forall j, 0 <= j -> qbit q' j = if j =? i then true else qbit q j.
Proof.
  intros Hi. unfold setbit. rewrite byte_index, rd_at, bit_mask by (by apply div8_range).
  simpl. apply wr_bit; [done|]. intros n Hn. pose proof (mod8 i).
  rewrite Z.lor_spec, Z.pow2_bits_eqb by lia.
  rewrite (Z.eqb_sym n). destruct (_ =? n); [apply orb_true_r|apply orb_false_r].
Qed.

(** ** [clrbits] *)

Lemma and_byte_ok q i mask :
  0 <= i < zlen q ->
  exists q', and_byte q i mask = Some q' /\ zlen q' = zlen q /\
    forall j, 0 <= j -> qbit q' j =
      if j / 8 =? i then qbit q j && Z.testbit mask (j `mod` 8) else qbit q j.
Proof.
  intros Hi. unfold and_byte. rewrite rd_at by done. simpl.
  destruct (wr_ok q i (Z.land (at_ q i) mask) Hi) as (q' & -> & Hl & Hat).
  exists q'. split_and!; [done..|]. intros j Hj. unfold qbit.
  rewrite Hat by (apply Z.div_pos; lia).
  destruct (Z.eqb_spec (j / 8) i) as [->|]; [by rewrite Z.land_spec|done].
Qed.

Lemma zero_bytes_ok n q i :
  0 <= i -> i + Z.of_nat n <= zlen q ->
  exists q', zero_bytes n q i = Some q' /\ zlen q' = zlen q /\
    forall j, 0 <= j -> qbit q' j =
      if (i <=? j / 8) && (j / 8 <? i + Z.of_nat n) then false else qbit q j.
Proof.
  revert q i. induction n as [|n IH]; intros q i Hi Hn.
  { exists q. split_and!; [done..|]. intros j Hj.
    cmp_cases. }
  simpl. destruct (wr_ok q i 0 ltac:(lia)) as (q1 & -> & Hl1 & Hat1). simpl.
  destruct (IH q1 (i + 1) ltac:(lia) ltac:(lia)) as (q' & -> & Hl & Hq).
  exists q'. split_and!; [done|lia|]. intros j Hj. rewrite Hq by done.
  unfold qbit at 1. rewrite Hat1 by (apply Z.div_pos; lia).
  destruct (Z.eqb_spec (j / 8) i) as [E|E]; [rewrite Z.bits_0|fold (qbit q j)]; cmp_cases.
Qed.

(** Bits of the masks, as [u_char]s. *)
Lemma byte_mask_bit v n : 0 <= n < 8 -> Z.testbit (Z.land v 255) n = Z.testbit v n.
Proof.
  intros Hn. rewrite Z.land_spec. change 255 with (Z.ones 8).
  rewrite Z.testbit_ones_nonneg by lia. replace (n <? 8) with true by lia.
  apply andb_true_r.
Qed.

Lemma low_mask_bit k n :
  0 <= k -> 0 <= n < 8 -> Z.testbit (Z.land (Z.shiftl 1 k - 1) 255) n = (n <? k).
Proof.
  intros Hk Hn. rewrite byte_mask_bit, Z.shiftl_1_l by done.
  change (2 ^ k - 1) with (Z.pred (2 ^ k)). rewrite <- Z.ones_equiv.
  apply Z.testbit_ones_nonneg; lia.
Qed.

Lemma mid_mask_bit a b n :
  0 <= a <= b -> 0 <= n < 8 ->
  Z.testbit (Z.land (Z.shiftl (Z.shiftl 1 (b - a) - 1) a) 255) n = (a <=? n) && (n <? b).
Proof.
  intros Hab Hn. rewrite byte_mask_bit, Z.shiftl_spec, Z.shiftl_1_l by lia.
  change (2 ^ (b - a) - 1) with (Z.pred (2 ^ (b - a))). rewrite <- Z.ones_equiv.
  destruct (Z.leb_spec a n).
  - rewrite Z.testbit_ones_nonneg by lia. simpl. lia.
  - rewrite Z.testbit_neg_r by lia. done.
Qed.

Lemma low_mask_zero k : 0 <= k < 8 -> Z.land (Z.shiftl 1 k - 1) 255 = 0 -> k = 0.
Proof.
  intros Hk H0. destruct (decide (k = 0)); [done|].
  pose proof (low_mask_bit k 0 ltac:(lia) ltac:(lia)) as Hb.
  rewrite H0, Z.bits_0 in Hb. lia.
Qed.

(** [clrbits] clears exactly the bits [off, off + len). *)
Lemma clrbits_ok q off len :
  0 <= off -> 0 < len -> off + len <= 8 * zlen q ->
  exists q', clrbits q off len = Some q' /\ zlen q' = zlen q /\
    forall j, 0 <= j -> qbit q' j =
      if (off <=? j) && (j <? off + len) then false else qbit q j.
Proof.
  intros Ho Hlen Hl. unfold clrbits, NBBY. destruct (Z.eqb_spec len 1) as [->|Hne].
  { destruct (clrbit_ok q off ltac:(lia)) as (q' & -> & ? & Hq). exists q'.
    split_and!; [done..|]. intros j Hj. rewrite Hq by done.
    cmp_cases. }
  pose proof (div8 off). pose proof (mod8 off).
  pose proof (div8 (off + len)). pose proof (mod8 (off + len)).
  set (sby := off / 8) in *. set (sbi := off `mod` 8) in *.
  set (eby := (off + len) / 8) in *. set (ebi := (off + len) `mod` 8) in *.
  destruct (Z.eqb_spec sby eby) as [E|E].
  - destruct (and_byte_ok q sby (Z.lnot (Z.land
      (Z.shiftl (Z.shiftl 1 (ebi - sbi) - 1) sbi) 255)) ltac:(lia)) as (q' & -> & ? & Hq).
    exists q'. split_and!; [done..|]. intros j Hj. rewrite Hq by done.
    pose proof (div8 j). pose proof (mod8 j).
    rewrite Z.lnot_spec, mid_mask_bit by lia.
    destruct (Z.eqb_spec (j / 8) sby); destruct (qbit q j); cmp_cases.
  - destruct (and_byte_ok q sby (Z.land (Z.shiftl 1 sbi - 1) 255) ltac:(lia))
      as (q1 & -> & Hl1 & Hq1). simpl.
    destruct (zero_bytes_ok (Z.to_nat (eby - (sby + 1))) q1 (sby + 1) ltac:(lia) ltac:(lia))
      as (q2 & -> & Hl2 & Hq2). simpl.
    assert (forall j, 0 <= j -> j < 8 * eby \/ off + len <= j -> qbit q2 j =
      if (off <=? j) && (j <? off + len) then false else qbit q j) as Hq12.
    { intros j Hj Hout. rewrite Hq2, Hq1 by done.
      pose proof (div8 j). pose proof (mod8 j). rewrite low_mask_bit by lia.
      destruct (qbit q j); cmp_cases. }
    destruct (Z.eqb_spec (Z.land (Z.shiftl 1 ebi - 1) 255) 0) as [E0|E0]; simpl.
    + apply low_mask_zero in E0; [|lia]. exists q2. split_and!; [done|lia|].
      intros j Hj. apply Hq12; lia.
    + assert (ebi <> 0) by (intros E1; rewrite E1 in E0; done).
      destruct (and_byte_ok q2 eby (Z.lnot (Z.land (Z.shiftl 1 ebi - 1) 255)) ltac:(lia))
        as (q' & -> & Hl' & Hq'). exists q'. split_and!; [done|lia|].
      intros j Hj. rewrite Hq' by done. pose proof (div8 j). pose proof (mod8 j).
      rewrite Z.lnot_spec, low_mask_bit by lia.
      destruct (Z.eqb_spec (j / 8) eby); [|apply Hq12; lia].
      rewrite Hq2, Hq1 by done. destruct (qbit q j); cmp_cases.
Qed.

(** The loop [clrbits] is documented to optimise:
    [for (i = 0; i < len; i++) clrbit(cp, off + i);] *)
Fixpoint clrbits_ref (n : nat) (q : list Z) (off : Z) : option (list Z) :=
  match n with
  | O => Some q
  | S n => q' ← clrbit q off; clrbits_ref n q' (off + 1)
  end.

Definition bytes (m : list Z) : Prop := Forall (fun b => 0 <= b < 256) m.

Lemma wr_bytes m i v m' : bytes m -> 0 <= v < 256 -> wr m i v = Some m' -> bytes m'.
Proof.
  intros Hm Hv. unfold wr. step_if; [|done]. intros [= <-]. by apply Forall_insert.
Qed.

Lemma rd_byte m i b : bytes m -> rd m i = Some b -> 0 <= b < 256.
Proof.
  intros Hm. unfold rd. step_if; [|done]. intros Hb.
  by apply (Forall_lookup_1 _ _ _ _ Hm Hb).
Qed.

Lemma land_byte b m : 0 <= b < 256 -> 0 <= Z.land b m < 256.
Proof.
  intros Hb. replace b with (Z.land b 255).
  - rewrite <- Z.land_assoc, (Z.land_comm 255), Z.land_assoc.
    change 255 with (Z.ones 8). rewrite Z.land_ones by lia.
    apply (Z.mod_pos_bound _ (2 ^ 8)). lia.
  - change 255 with (Z.ones 8). rewrite Z.land_ones by lia. apply Z.mod_small.
    change (2 ^ 8) with 256. lia.
Qed.

Lemma and_byte_bytes q i mask q' : bytes q -> and_byte q i mask = Some q' -> bytes q'.
Proof.
  intros Hq. unfold and_byte. destruct (rd q i) as [b|] eqn:E; [|done]. simpl.
  apply wr_bytes; [done|]. by apply land_byte, (rd_byte q i).
Qed.

Lemma clrbit_bytes q i q' : bytes q -> clrbit q i = Some q' -> bytes q'.
Proof. apply and_byte_bytes. Qed.

Lemma zero_bytes_bytes n q i q' : bytes q -> zero_bytes n q i = Some q' -> bytes q'.
Proof.
  revert q i. induction n as [|n IH]; simpl; intros q i Hq; [by intros [= <-]|].
  destruct (wr q i 0) as [q1|] eqn:E; [|done]. simpl. apply IH.
  by apply (wr_bytes q i 0).
Qed.

Lemma clrbits_bytes q off len q' : bytes q -> clrbits q off len = Some q' -> bytes q'.
Proof.
  intros Hq. unfold clrbits. repeat step_if; try by apply clrbit_bytes.
  1: by apply and_byte_bytes.
  all: destruct (and_byte q _ _) as [q1|] eqn:E1; [|done]; simpl;
    destruct (zero_bytes _ q1 _) as [q2|] eqn:E2; [|done]; simpl;
    assert (bytes q2) by (eapply zero_bytes_bytes, E2; by eapply and_byte_bytes).
  - by apply and_byte_bytes.
  - by intros [= <-].
Qed.

(** Bitmaps of bytes with the same bits are equal. *)
Lemma qbit_inj q1 q2 :
  bytes q1 -> bytes q2 -> zlen q1 = zlen q2 ->
  (forall j, 0 <= j < 8 * zlen q1 -> qbit q1 j = qbit q2 j) -> q1 = q2.
Proof.
  intros H1 H2 Hl Hq. apply at_inj; [done|]. intros i Hi. apply Z.bits_inj'. intros n Hn.
  assert (0 <= at_ q1 i < 256) by (eapply rd_byte; [exact H1|apply rd_at; lia]).
  assert (0 <= at_ q2 i < 256) by (eapply rd_byte; [exact H2|apply rd_at; lia]).
  destruct (decide (n < 8)) as [Hn8|Hn8].
  - specialize (Hq (8 * i + n) ltac:(lia)). unfold qbit in Hq.
    replace ((8 * i + n) / 8) with i in Hq.
    2:{ apply Z.div_unique with n; lia. }
    replace ((8 * i + n) `mod` 8) with n in Hq; [done|].
    apply Z.mod_unique with i; lia.
  - change 256 with (2 ^ 8) in *.
    rewrite <- (Z.mod_small (at_ q1 i) (2 ^ 8)), <- (Z.mod_small (at_ q2 i) (2 ^ 8)) by lia.
    rewrite !Z.mod_pow2_bits_high by lia. done.
Qed.

Lemma clrbits_ref_ok n q off :
  0 <= off -> off + Z.of_nat n <= 8 * zlen q -> bytes q ->
  exists q', clrbits_ref n q off = Some q' /\ zlen q' = zlen q /\ bytes q' /\
    forall j, 0 <= j -> qbit q' j =
      if (off <=? j) && (j <? off + Z.of_nat n) then false else qbit q j.
Proof.
  revert q off. induction n as [|n IH]; intros q off Ho Hl Hb.
  { exists q. split_and!; [done..|]. intros j Hj. cmp_cases. }
  simpl. destruct (clrbit_ok q off ltac:(lia)) as (q1 & E & Hl1 & Hq1). rewrite E. simpl.
  destruct (IH q1 (off + 1) ltac:(lia) ltac:(lia) (clrbit_bytes _ _ _ Hb E))
    as (q' & -> & Hl' & Hb' & Hq'). exists q'. split_and!; [done|lia|done|].
  intros j Hj. rewrite Hq', Hq1 by done. cmp_cases.
Qed.

(** C35: the optimised [clrbits] computes the same bitmap as the bit-by-bit
    loop its comment gives, and stays inside the bitmap. *)
Theorem clrbits_equiv q off len :
  bytes q -> 0 <= off -> 0 < len -> off + len <= 8 * zlen q ->
  exists q', clrbits q off len = Some q' /\ clrbits_ref (Z.to_nat len) q off = Some q'.
Proof.
  intros Hb Ho Hlen Hl. destruct (clrbits_ok q off len Ho Hlen Hl) as (q1 & E1 & L1 & Q1).
  destruct (clrbits_ref_ok (Z.to_nat len) q off Ho ltac:(lia) Hb) as (q2 & E2 & L2 & B2 & Q2).
  exists q1. split; [done|]. rewrite E2. f_equal.
  apply qbit_inj; [done|by apply (clrbits_bytes q off len)|lia|].
  intros j Hj. rewrite Q1, Q2, Z2Nat.id by lia. done.
Qed.

(** Witness: 13 bits from bit 5 of four bytes. *)
Lemma clrbits_equiv_witness :
  clrbits [255; 255; 255; 255] 5 13 = Some [31; 0; 252; 255] /\
  exists q', clrbits [255; 255; 255; 255] 5 13 = Some q' /\
    clrbits_ref 13 [255; 255; 255; 255] 5 = Some q'.
Proof.
  split; [vm_compute; reflexivity|].
  apply (clrbits_equiv [255; 255; 255; 255] 5 13);
    [repeat constructor; lia|lia|lia|unfold zlen; simpl; lia].
Defined.
