(* ===== verification/ClistQueue.v ===== *)
(** * The queue refinement of the terminal ring buffers *)

From stdpp Require Import base numbers list option.
From Stdlib Require Import ZArith Lia Bool.
From S2P Require Import Prelude Clist ClistFacts.

(** ** Rings *)

(** The [cc] values of the ring [v] of size [n] from position [f] on. *)
Definition ring (v : Z -> Z) (n f cc : Z) : list Z :=
  (fun k => v ((f + k) `mod` n)) <$> seqZ 0 cc.

Lemma ring_ext v v' n f cc :
  (forall k, 0 <= k < cc -> v ((f + k) `mod` n) = v' ((f + k) `mod` n)) ->
  ring v n f cc = ring v' n f cc.
Proof.
  intros H. unfold ring. apply list_fmap_ext. intros i k Hk.
  apply lookup_seqZ in Hk as [-> ?]. apply H. lia.
Qed.

Lemma ring_app v n f a b :
  0 <= a -> 0 <= b -> ring v n f (a + b) = ring v n f a ++ ring v n (f + a) b.
Proof.
  intros Ha Hb. unfold ring. rewrite seqZ_app, fmap_app by done. f_equal.
  rewrite Z.add_0_l. rewrite <- (Z.add_0_r a) at 1. rewrite <- fmap_add_seqZ.
  rewrite <- list_fmap_compose. apply list_fmap_ext. intros i k _. simpl.
  f_equal. f_equal. lia.
Qed.

Lemma ring_one v n f : ring v n f 1 = [v (f `mod` n)].
Proof. unfold ring. simpl. by rewrite Z.add_0_r. Qed.

Lemma ring_nil v n f cc : cc <= 0 -> ring v n f cc = [].
Proof. intros. unfold ring. by rewrite seqZ_nil. Qed.

Lemma ring_cons v n f cc :
  0 <= f < n -> 0 < cc -> ring v n f cc = v f :: ring v n (f + 1) (cc - 1).
Proof.
  intros Hf Hc. transitivity (ring v n f (1 + (cc - 1))); [f_equal; lia|].
  rewrite ring_app, ring_one by lia. by rewrite Z.mod_small by lia.
Qed.

Lemma ring_snoc v n f cc :
  0 <= cc -> ring v n f (cc + 1) = ring v n f cc ++ [v ((f + cc) `mod` n)].
Proof. intros Hc. rewrite ring_app, ring_one by lia. done. Qed.

Lemma ring_length v n f cc : length (ring v n f cc) = Z.to_nat cc.
Proof. unfold ring. by rewrite length_fmap, length_seqZ. Qed.

Lemma ring_mod v n f cc : 0 < n -> ring v n (f `mod` n) cc = ring v n f cc.
Proof.
  intros Hn. unfold ring. apply list_fmap_ext. intros i k _. f_equal.
  by rewrite Zplus_mod_idemp_l.
Qed.

(** A run that does not wrap. *)
Lemma ring_run v n f cc : 0 <= f -> f + cc <= n -> ring v n f cc = v <$> seqZ f cc.
Proof.
  intros Hf Hn. unfold ring. transitivity (v <$> seqZ (f + 0) cc); [|by rewrite Z.add_0_r].
  rewrite <- fmap_add_seqZ.
  rewrite <- list_fmap_compose. apply list_fmap_ext. intros i k Hk. simpl.
  apply lookup_seqZ in Hk as [-> ?]. f_equal. apply Z.mod_small. lia.
Qed.

Lemma ring_mod_succ v n f cc : 0 < n -> ring v n (f `mod` n + 1) cc = ring v n (f + 1) cc.
Proof. intros Hn. by rewrite <- (ring_mod _ _ (_ + 1)), Zplus_mod_idemp_l, ring_mod by done. Qed.

Lemma succ_mod n i : 0 <= i < n -> (if i + 1 =? n then 0 else i + 1) = (i + 1) `mod` n.
Proof.
  intros Hi. destruct (Z.eqb_spec (i + 1) n) as [->|].
  - by rewrite Z.mod_same by lia.
  - by rewrite Z.mod_small by lia.
Qed.

Lemma add_mod_wrap n i c :
  0 < n -> 0 <= i -> 0 <= c -> i + c <= n ->
  (if i + c =? n then 0 else i + c) = (i + c) `mod` n.
Proof.
  intros Hn Hi Hc Hle. destruct (Z.eqb_spec (i + c) n) as [->|].
  - by rewrite Z.mod_same by lia.
  - by rewrite Z.mod_small by lia.
Qed.

(** Distinct positions of one turn of the ring. *)
Lemma mod_neq n f a b : 0 < n -> 0 <= a < n -> 0 <= b < n -> a <> b ->
  (f + a) `mod` n <> (f + b) `mod` n.
Proof.
  intros Hn Ha Hb Hab E.
  assert ((a - b) `mod` n = 0) as H0.
  { replace (a - b) with ((f + a) - (f + b)) by lia.
    rewrite Zminus_mod, E, Z.sub_diag. apply Z.mod_0_l. lia. }
  apply Z.mod_divide in H0 as [c Hc]; [|lia].
  destruct (Z.lt_trichotomy c 0) as [|[->|]]; nia.
Qed.

Lemma mod_off n f a : 0 <= f < n -> 0 < a < n -> (f + a) `mod` n <> f.
Proof.
  intros Hf Ha. pose proof (mod_neq n f a 0 ltac:(lia) ltac:(lia) ltac:(lia) ltac:(lia)) as H.
  by rewrite Z.add_0_r, (Z.mod_small f) in H by lia.
Qed.

(** ** Well-formed clists and their contents *)

Definition quote_at (clp : clist) (i : Z) : bool :=
  match c_cq clp with Some q => qbit q i | None => false end.
Definition byte_at (clp : clist) (i : Z) : Z :=
  match c_cs clp with Some m => at_ m i | None => 0 end.

(** The character in slot [i]. *)
Definition slot (clp : clist) (i : Z) : Z := mkchar (quote_at clp i) (byte_at clp i).

Definition first (clp : clist) : Z := default 0 (c_cf clp).

(** Abstraction: the characters of the queue, oldest first. *)
Definition chars (clp : clist) : list Z :=
  ring (slot clp) (c_cn clp) (first clp) (c_cc clp).

(** The memory of a clist. *)
Definition mem_ok (clp : clist) : Prop :=
  0 < c_cn clp /\ c_ce clp = c_cn clp /\
  (exists m, c_cs clp = Some m /\ zlen m = c_cn clp /\ bytes m) /\
  match c_cq clp with Some q => c_cn clp <= 8 * zlen q | None => True end.

(** The pointers of a clist that is open for insertion. *)
Definition ptrs_ok (clp : clist) : Prop :=
  exists f, c_cf clp = Some f /\ 0 <= f < c_cn clp /\
    c_cl clp = Some ((f + c_cc clp) `mod` c_cn clp).

Definition open_ok (clp : clist) : Prop :=
  mem_ok clp /\ 0 <= c_cc clp <= c_cn clp /\ ptrs_ok clp.

(** The invariant: between operations an empty clist has null pointers. *)
Definition cl_ok (clp : clist) : Prop :=
  mem_ok clp /\ 0 <= c_cc clp <= c_cn clp /\
  if c_cc clp =? 0 then c_cf clp = None /\ c_cl clp = None else ptrs_ok clp.

Lemma cl_ok_open clp : cl_ok clp -> c_cc clp <> 0 -> open_ok clp.
Proof.
  intros (Hm & Hc & Hp) Hne. split; [done|]. split; [done|].
  destruct (Z.eqb_spec (c_cc clp) 0); done.
Qed.

Lemma chars_length clp : length (chars clp) = Z.to_nat (c_cc clp).
Proof. apply ring_length. Qed.

Lemma chars_empty clp : c_cc clp <= 0 -> chars clp = [].
Proof. apply ring_nil. Qed.

(** [reset_if_empty] turns an open clist into one that satisfies the
    invariant, with the same contents. *)
Lemma reset_ok clp :
  open_ok clp -> cl_ok (reset_if_empty clp) /\ chars (reset_if_empty clp) = chars clp.
Proof.
  intros (Hm & Hc & Hp). unfold reset_if_empty. destruct (Z.eqb_spec (c_cc clp) 0) as [E|E].
  - split; [|by rewrite !chars_empty by (simpl; lia)].
    split; [done|]. simpl. rewrite E. simpl. split; [lia|done].
  - split; [|done]. split; [done|]. split; [done|].
    destruct (Z.eqb_spec (c_cc clp) 0); done.
Qed.

(** ** Removing one character *)

Lemma take_slot_ok clp i :
  mem_ok clp -> 0 <= i < c_cn clp ->
  exists cs' q', take_slot clp i = Some (slot clp i, cs', q') /\
    forall cc f l, let clp' := Clist cc (c_cn clp) f l (Some cs') (c_ce clp) q' in
      mem_ok clp' /\ forall j, 0 <= j -> j <> i -> slot clp' j = slot clp j.
Proof.
  intros (Hn & He & (m & Ecs & Hlen & Hb) & Hq) Hi. unfold take_slot, slot, quote_at, byte_at.
  rewrite Ecs. simpl. rewrite rd_at by lia. simpl.
  destruct (wr_ok m i 0 ltac:(lia)) as (m' & Ewr & Hl' & Hat). rewrite Ewr. simpl.
  assert (bytes m') by (by apply (wr_bytes m i 0)).
  destruct (c_cq clp) as [q|].
  - rewrite isset_ok by lia. simpl.
    destruct (clrbit_ok q i ltac:(lia)) as (q' & -> & Hlq & Hqb). simpl.
    exists m', (Some q'). split; [done|]. intros cc f l. split.
    + unfold mem_ok. simpl. split_and!; try done; try lia. exists m'. split_and!; try done; lia.
    + intros j Hj Hne. simpl. rewrite Hqb, Hat by done.
      replace (j =? i) with false by lia. done.
  - exists m', None. split; [done|]. intros cc f l. split.
    + unfold mem_ok. simpl. split_and!; try done. exists m'. split_and!; try done; lia.
    + intros j Hj Hne. simpl. rewrite Hat by done. replace (j =? i) with false by lia. done.
Qed.

(** The state after slots have been rewritten, up to the null pointers of an
    empty queue. *)
Lemma open_ok_intro cc n f cs e q clp :
  mem_ok (Clist cc n (Some (f `mod` n)) (Some ((f + cc) `mod` n)) cs e q) ->
  0 <= cc <= n ->
  clp = Clist cc n (Some (f `mod` n)) (Some ((f + cc) `mod` n)) cs e q ->
  open_ok clp /\ chars clp = ring (slot clp) n f cc.
Proof.
  intros Hm Hc ->. assert (0 < n) by apply Hm. split.
  - split; [done|]. split; [done|]. exists (f `mod` n). simpl. split_and!; try done.
    + by apply Z.mod_pos_bound.
    + by apply Z.mod_pos_bound.
    + by rewrite Zplus_mod_idemp_l.
  - unfold chars, first. simpl. by apply ring_mod.
Qed.

Lemma chars_open clp :
  open_ok clp -> exists f, c_cf clp = Some f /\ 0 <= f < c_cn clp /\
    c_cl clp = Some ((f + c_cc clp) `mod` c_cn clp) /\
    chars clp = ring (slot clp) (c_cn clp) f (c_cc clp).
Proof.
  intros (Hm & Hc & f & Ef & Hf & El). exists f. split_and!; try done; try lia.
  unfold chars, first. by rewrite Ef.
Qed.

Lemma getc_spec clp :
  cl_ok clp ->
  exists c clp', getc clp = Some (c, clp') /\ cl_ok clp' /\ c_cn clp' = c_cn clp /\
    match chars clp with
    | [] => c = -1 /\ clp' = clp
    | x :: xs => c = x /\ chars clp' = xs
    end.
Proof.
  intros Hok. unfold getc. destruct (Z.eqb_spec (c_cc clp) 0) as [E0|E0].
  { exists (-1), clp. rewrite chars_empty by lia. done. }
  pose proof (cl_ok_open clp Hok E0) as Hop.
  destruct (chars_open clp Hop) as (f & Ef & Hf & El & ->). destruct Hop as (Hm & Hc & _).
  pose proof Hm as (Hn & He & _). rewrite Ef, El. simpl.
  destruct (take_slot_ok clp f Hm Hf) as (cs' & q' & -> & Hslot). simpl.
  rewrite He, succ_mod by done.
  destruct (Hslot (c_cc clp - 1) (Some ((f + 1) `mod` c_cn clp))
    (Some ((f + 1 + (c_cc clp - 1)) `mod` c_cn clp))) as [Hm' Hs'].
  destruct (open_ok_intro _ _ _ _ _ _ _ Hm' ltac:(lia) eq_refl) as [Hop' Hch].
  destruct (reset_ok _ Hop') as [Hok' Hch'].
  exists (slot clp f). eexists. split.
  { replace (f + c_cc clp) with (f + 1 + (c_cc clp - 1)) by lia. rewrite He in *.
    transitivity (Some (slot clp f, reset_if_empty (Clist (c_cc clp - 1) (c_cn clp)
      (Some ((f + 1) `mod` c_cn clp)) (Some ((f + 1 + (c_cc clp - 1)) `mod` c_cn clp))
      (Some cs') (c_cn clp) q'))); [|reflexivity].
    unfold reset_if_empty. simpl. destruct (Z.eqb_spec (c_cc clp - 1) 0) as [->|]; done. }
  rewrite He in *. split; [done|]. split; [by unfold reset_if_empty; step_if|].
  rewrite (ring_cons (slot clp) (c_cn clp) f (c_cc clp)) by lia. split; [done|].
  rewrite Hch', Hch. apply ring_ext. intros k Hk. apply Hs'.
  - by apply Z.mod_pos_bound.
  - rewrite <- Z.add_assoc. apply mod_off; lia.
Qed.

(** [getc] is removal from the front of the queue: on a well-formed
    clist it never faults, returns -1 exactly when the queue is empty, and
    otherwise returns the oldest character (byte and quote flag), leaving the
    rest in order. *)
Theorem getc_correct clp :
  cl_ok clp ->
  exists c clp', getc clp = Some (c, clp') /\ cl_ok clp' /\ c_cn clp' = c_cn clp /\
    match chars clp with
    | [] => c = -1 /\ clp' = clp
    | x :: xs => c = x /\ chars clp' = xs
    end.
Proof. apply getc_spec. Qed.

(** ** Adding and taking back one character *)

(** A clist whose buffer was given back by [clfree]. *)
Definition freed (clp : clist) : Prop :=
  c_cc clp = 0 /\ c_cs clp = None /\ c_cn clp <> 0.

Lemma clalloc_ok size quot : 0 < size -> cl_ok (clalloc size quot) /\ chars (clalloc size quot) = [].
Proof.
  intros Hs. split; [|by apply chars_empty]. split; [|simpl; split; [lia|done]].
  split; [done|]. split; [done|]. split.
  - exists (replicate (Z.to_nat size) 0). split; [done|]. split.
    + unfold zlen. simpl. rewrite length_replicate. lia.
    + apply Forall_replicate. lia.
  - destruct quot; [|done]. simpl. unfold zlen. rewrite length_replicate. unfold QMEM, NBBY.
    pose proof (div8 (size - 1)). pose proof (mod8 (size - 1)). lia.
Qed.

Lemma open_empty_ok clp :
  cl_ok clp \/ freed clp ->
  open_ok (open_empty clp) /\ chars (open_empty clp) = chars clp /\
  c_cc (open_empty clp) = c_cc clp /\
  c_cn (open_empty clp) = (if c_cs clp is Some _ then c_cn clp else 1024) /\
  (is_Some (c_cs clp) -> is_Some (c_cq (open_empty clp)) <-> is_Some (c_cq clp)).
Proof.
  intros [Hok|(Hc & Hs & Hn)]; unfold open_empty.
  - pose proof Hok as (Hm & Hc & _). destruct Hm as (Hn & He & (m & Ecs & Hm) & Hq).
    rewrite Ecs. destruct (Z.eqb_spec (c_cc clp) 0) as [E|E].
    + split; [|split; [by rewrite !chars_empty by (simpl; lia)|done]].
      split; [|split; [simpl; lia|]].
      * split; [done|]. split; [done|]. split; [|done]. by exists m.
      * exists 0. simpl. rewrite E. split_and!; try done; lia.
    + split; [by apply cl_ok_open|done].
  - rewrite Hs, Hc. simpl. destruct (clalloc_ok 1024 true ltac:(lia)) as [[Hm _] _].
    split; [|split; [by rewrite !chars_empty by (simpl; lia)|split; [done|split; [done|]]]].
    + split; [exact Hm|]. simpl. split; [lia|]. exists 0. simpl. split_and!; try done; lia.
    + by intros [? ?].
Qed.

Lemma has_quote c : has c TTY_QUOTE = Z.testbit c 8.
Proof. apply (has_pow2 c 8). lia. Qed.

(** Write slot [i]: the byte of [c] and, when there is a bitmap, its flag. *)
Definition put_slot (clp : clist) (i c : Z) : option (list Z * option (list Z)) :=
  cs ← c_cs clp;
  cs' ← wr cs i (Z.land c 255);
  q' ← match c_cq clp with
       | None => Some None
       | Some q => Some <$> (if has c TTY_QUOTE then setbit q i else clrbit q i)
       end;
  Some (cs', q').

(** The character a clist keeps for [c]. *)
Definition kept (clp : clist) (c : Z) : Z :=
  mkchar (match c_cq clp with Some _ => has c TTY_QUOTE | None => false end) c.

Lemma mkchar_byte b c : mkchar b (Z.land c 255) = mkchar b c.
Proof. unfold mkchar. by rewrite <- Z.land_assoc. Qed.

Lemma land_255 c : 0 <= Z.land c 255 < 256.
Proof. rewrite Z.land_comm. apply land_byte. lia. Qed.

Lemma put_slot_ok clp i c :
  mem_ok clp -> 0 <= i < c_cn clp ->
  exists cs' q', put_slot clp i c = Some (cs', q') /\
    forall cc f l, let clp' := Clist cc (c_cn clp) f l (Some cs') (c_ce clp) q' in
      mem_ok clp' /\ (is_Some q' <-> is_Some (c_cq clp)) /\
      forall j, 0 <= j -> slot clp' j = if j =? i then kept clp c else slot clp j.
Proof.
  intros (Hn & He & (m & Ecs & Hlen & Hb) & Hq) Hi.
  unfold put_slot, slot, kept, quote_at, byte_at. rewrite Ecs. simpl.
  destruct (wr_ok m i (Z.land c 255) ltac:(lia)) as (m' & Ewr & Hl' & Hat). rewrite Ewr. simpl.
  assert (bytes m') by (apply (wr_bytes m i (Z.land c 255)); by auto using land_255).
  destruct (c_cq clp) as [q|].
  - assert (exists q', (if has c TTY_QUOTE then setbit q i else clrbit q i) = Some q' /\
      zlen q' = zlen q /\ forall j, 0 <= j -> qbit q' j = if j =? i then has c TTY_QUOTE
      else qbit q j) as (q' & -> & Hlq & Hqb).
    { destruct (has c TTY_QUOTE); [apply setbit_ok|apply clrbit_ok]; lia. }
    simpl. exists m', (Some q'). split; [done|]. intros cc f l. split; [|split; [done|]].
    + unfold mem_ok. simpl. split_and!; try done; try lia. exists m'. split_and!; try done; lia.
    + intros j Hj. simpl. rewrite Hqb, Hat by done.
      destruct (j =? i); [apply mkchar_byte|done].
  - exists m', None. split; [done|]. intros cc f l. split; [|split; [done|]].
    + unfold mem_ok. simpl. split_and!; try done. exists m'. split_and!; try done; lia.
    + intros j Hj. simpl. rewrite Hat by done. destruct (j =? i); [by apply (mkchar_byte false)|done].
Qed.

Lemma putc_open clp c :
  open_ok clp -> c_cc clp < c_cn clp ->
  exists cl cs' q', c_cl clp = Some cl /\ put_slot clp cl c = Some (cs', q') /\
    let clp' := Clist (c_cc clp + 1) (c_cn clp) (c_cf clp)
      (Some (if cl + 1 =? c_ce clp then 0 else cl + 1)) (Some cs') (c_ce clp) q' in
    cl_ok clp' /\ chars clp' = chars clp ++ [kept clp c] /\
    (is_Some (c_cq clp') <-> is_Some (c_cq clp)).
Proof.
  intros Hop Hlt. destruct (chars_open clp Hop) as (f & Ef & Hf & El & Hch).
  pose proof Hop as (Hm & Hc & _). pose proof Hm as (Hn & He & _).
  assert (0 <= (f + c_cc clp) `mod` c_cn clp < c_cn clp) as Hl by (by apply Z.mod_pos_bound).
  destruct (put_slot_ok clp _ c Hm Hl) as (cs' & q' & Eput & Hput).
  eexists _, cs', q'. split; [done|]. split; [done|].
  rewrite He, succ_mod, Ef, Zplus_mod_idemp_l by done. rewrite Hch, He in *.
  destruct (Hput (c_cc clp + 1) (Some (f `mod` c_cn clp))
    (Some ((f + (c_cc clp + 1)) `mod` c_cn clp))) as (Hm' & Hqs & Hs').
  destruct (open_ok_intro _ _ _ _ _ _ _ Hm' ltac:(lia) eq_refl) as [Hop' Hch'].
  rewrite (Z.mod_small f) in * by lia. rewrite Z.add_assoc in *.
  split; [|split; [|done]].
  - destruct Hop' as (? & ? & Hp'). split; [done|]. split; [done|]. simpl in *.
    replace (c_cc clp + 1 =? 0) with false by lia. done.
  - rewrite Hch', ring_snoc by lia. f_equal.
    + apply ring_ext. intros k Hk. rewrite Hs' by (by apply Z.mod_pos_bound).
      pose proof (mod_neq (c_cn clp) f k (c_cc clp) Hn ltac:(lia) ltac:(lia) ltac:(lia)).
      destruct (Z.eqb_spec ((f + k) `mod` c_cn clp) ((f + c_cc clp) `mod` c_cn clp)); done.
    + rewrite Hs', Z.eqb_refl by lia. done.
Qed.

Lemma putc_spec clp c :
  cl_ok clp \/ freed clp ->
  exists r clp', putc c clp = Some (r, clp') /\
    if c_cc clp =? c_cn clp then r = -1 /\ clp' = clp
    else r = 0 /\ cl_ok clp' /\ chars clp' = chars clp ++ [kept (open_empty clp) c] /\
         (is_Some (c_cq clp') <-> is_Some (c_cq (open_empty clp))) /\
         c_cn clp' = (if c_cs clp is Some _ then c_cn clp else 1024).
Proof.
  intros Hok. unfold putc. destruct (Z.eqb_spec (c_cc clp) (c_cn clp)) as [E|E]; [by eauto|].
  destruct (open_empty_ok clp Hok) as (Hop & Hch & Hcc & Hcn & _).
  assert (c_cc (open_empty clp) < c_cn (open_empty clp)).
  { destruct Hop as ((? & _) & ? & _). rewrite Hcc, Hcn in *.
    destruct Hok as [(Hm & ? & _)|(-> & -> & _)]; [|lia].
    destruct Hm as (_ & _ & (m & Ecs & _) & _). rewrite Ecs in *. lia. }
  destruct (putc_open _ c Hop ltac:(done)) as (cl & cs' & q' & -> & Eput & Hok' & Hch' & Hq').
  unfold put_slot in Eput. destruct (c_cs (open_empty clp)) as [cs|]; [|done].
  simpl in *. destruct (wr cs cl _); [|done]. simpl in *.
  destruct (match c_cq (open_empty clp) with None => _ | Some _ => _ end); [|done]. simpl in *.
  injection Eput as -> ->. eexists _, _. split; [done|]. split; [done|]. split; [done|].
  rewrite Hch', Hch. done.
Qed.

(** [putc] is insertion at the back: it fails with -1 and no change
    exactly when the ring is full; otherwise the queue gains the byte, with
    its quote flag when the clist has a bitmap, nothing else moves, and a
    clist whose buffer was freed gets a new one of 1024 slots. *)
Theorem putc_correct clp c :
  cl_ok clp \/ freed clp ->
  exists r clp', putc c clp = Some (r, clp') /\
    if c_cc clp =? c_cn clp then r = -1 /\ clp' = clp
    else r = 0 /\ cl_ok clp' /\ chars clp' = chars clp ++ [kept (open_empty clp) c] /\
         (is_Some (c_cq clp') <-> is_Some (c_cq (open_empty clp))) /\
         c_cn clp' = (if c_cs clp is Some _ then c_cn clp else 1024).
Proof. apply putc_spec. Qed.

Lemma pred_mod n i : 0 <= i < n -> (if i =? 0 then n - 1 else i - 1) = (i - 1) `mod` n.
Proof.
  intros Hi. destruct (Z.eqb_spec i 0) as [->|].
  - apply Z.mod_unique with (-1); lia.
  - by rewrite Z.mod_small by lia.
Qed.

Lemma unputc_spec clp :
  cl_ok clp ->
  exists c clp', unputc clp = Some (c, clp') /\ cl_ok clp' /\ c_cn clp' = c_cn clp /\
    if c_cc clp =? 0 then c = -1 /\ clp' = clp
    else chars clp = chars clp' ++ [c].
Proof.
  intros Hok. unfold unputc.
  destruct (Z.eqb_spec (c_cc clp) 0) as [E0|E0]; [by exists (-1), clp|].
  pose proof (cl_ok_open clp Hok E0) as Hop.
  destruct (chars_open clp Hop) as (f & Ef & Hf & El & Hch). destruct Hop as (Hm & Hc & _).
  pose proof Hm as (Hn & He & _). rewrite Ef, El. simpl.
  assert (0 <= (f + c_cc clp) `mod` c_cn clp < c_cn clp) as Hl by (by apply Z.mod_pos_bound).
  rewrite He, pred_mod, Zminus_mod_idemp_l by done.
  replace (f + c_cc clp - 1) with (f + (c_cc clp - 1)) by lia.
  assert (0 <= (f + (c_cc clp - 1)) `mod` c_cn clp < c_cn clp) as Hl'
    by (by apply Z.mod_pos_bound).
  destruct (take_slot_ok clp _ Hm Hl') as (cs' & q' & -> & Hslot). simpl.
  destruct (Hslot (c_cc clp - 1) (Some (f `mod` c_cn clp))
    (Some ((f + (c_cc clp - 1)) `mod` c_cn clp))) as [Hm' Hs'].
  destruct (open_ok_intro _ _ _ _ _ _ _ Hm' ltac:(lia) eq_refl) as [Hop' Hch0].
  destruct (reset_ok _ Hop') as [Hok' Hch'].
  eexists _, _. split.
  { rewrite (Z.mod_small f), He in * by lia.
    transitivity (Some (slot clp ((f + (c_cc clp - 1)) `mod` c_cn clp),
      reset_if_empty (Clist (c_cc clp - 1) (c_cn clp) (Some f)
        (Some ((f + (c_cc clp - 1)) `mod` c_cn clp)) (Some cs') (c_cn clp) q')));
      [|reflexivity].
    unfold reset_if_empty. simpl. destruct (Z.eqb_spec (c_cc clp - 1) 0) as [->|]; done. }
  rewrite (Z.mod_small f), He in * by lia. split; [done|].
  split; [by unfold reset_if_empty; step_if|].
  rewrite Hch', Hch0, Hch.
  assert (ring (slot clp) (c_cn clp) f (c_cc clp) =
    ring (slot clp) (c_cn clp) f (c_cc clp - 1) ++ [slot clp ((f + (c_cc clp - 1)) `mod` c_cn clp)])
    as ->.
  { rewrite <- ring_snoc by lia. f_equal. lia. }
  f_equal. apply ring_ext. intros k Hk. symmetry. apply Hs'; [by apply Z.mod_pos_bound|]. apply mod_neq; lia.
Qed.

(** [unputc] is removal from the back: -1 exactly on an empty queue,
    otherwise the character last put, leaving those before it. *)
Theorem unputc_correct clp :
  cl_ok clp ->
  exists c clp', unputc clp = Some (c, clp') /\ cl_ok clp' /\ c_cn clp' = c_cn clp /\
    if c_cc clp =? 0 then c = -1 /\ clp' = clp
    else chars clp = chars clp' ++ [c].
Proof. apply unputc_spec. Qed.

(** ** A concrete queue *)

(** A queue of three characters that wraps around the end of
    a ring of four. *)
Definition demo_clist : clist :=
  Clist 3 4 (Some 2) (Some 1) (Some [67; 0; 65; 66]) 4 (Some [8]).

Lemma demo_clist_ok : cl_ok demo_clist.
Proof.
  split; [|split; [simpl; lia|exists 2; simpl; split_and!; done || lia]].
  split; [done|]. split; [done|]. split; [|unfold zlen; simpl; lia].
  eexists. split; [done|]. split; [done|]. repeat constructor; lia.
Qed.


Lemma getc_correct_witness :
  exists c clp', getc demo_clist = Some (c, clp') /\ cl_ok clp' /\
    c_cn clp' = c_cn demo_clist /\ c = 65 /\ chars clp' = [322; 67].
Proof. exact (getc_correct demo_clist demo_clist_ok). Defined.

Lemma putc_correct_witness :
  exists r clp', putc 321 demo_clist = Some (r, clp') /\
    r = 0 /\ cl_ok clp' /\ chars clp' = chars demo_clist ++ [kept (open_empty demo_clist) 321] /\
    (is_Some (c_cq clp') <-> is_Some (c_cq (open_empty demo_clist))) /\ c_cn clp' = 4.
Proof. exact (putc_correct demo_clist 321 (or_introl demo_clist_ok)). Defined.

Lemma unputc_correct_witness :
  exists c clp', unputc demo_clist = Some (c, clp') /\ cl_ok clp' /\
    c_cn clp' = c_cn demo_clist /\ chars demo_clist = chars clp' ++ [c].
Proof. exact (unputc_correct demo_clist demo_clist_ok). Defined.
