(* ===== verification/ClistBlocks.v ===== *)
(** * Block transfers, scanning and concatenation of the terminal ring buffers

    [q_to_b], [ndflush], [b_to_q], [catq], [firstc]/[nextc] and [ndqb] of
    sys/kern/tty_subr.c against the queue of characters [chars]. *)

From stdpp Require Import base numbers list option.
From Stdlib Require Import ZArith Lia Bool.
From S2P Require Import Prelude Clist ClistFacts ClistQueue.

(** ** Runs of slots *)

Lemma ring_take v n f a b : 0 <= a <= b -> take (Z.to_nat a) (ring v n f b) = ring v n f a.
Proof.
  intros Ha. replace b with (a + (b - a)) by lia. rewrite ring_app by lia.
  apply take_app_length'. by rewrite ring_length.
Qed.

Lemma ring_drop v n f a b :
  0 <= a <= b -> drop (Z.to_nat a) (ring v n f b) = ring v n (f + a) (b - a).
Proof.
  intros Ha. transitivity (drop (Z.to_nat a) (ring v n f (a + (b - a)))); [do 2 f_equal; lia|].
  rewrite ring_app by lia. apply drop_app_length'. by rewrite ring_length.
Qed.

Lemma run_length_min f cc n :
  0 <= f < n -> 0 < cc <= n ->
  run_length f ((f + cc) `mod` n) n = Z.min cc (n - f).
Proof.
  intros Hf Hc. unfold run_length. destruct (decide (f + cc < n)).
  - rewrite Z.mod_small by lia. rewrite Z.geb_leb. cmp_cases.
  - replace ((f + cc) `mod` n) with (f + cc - n).
    + rewrite Z.geb_leb. cmp_cases.
    + apply Z.mod_unique with 1; lia.
Qed.

Lemma room_min f cc n :
  0 <= f < n -> 0 <= cc < n ->
  let cl := (f + cc) `mod` n in
  (if f >? cl then f - cl else n - cl) = Z.min (n - cc) (n - cl).
Proof.
  intros Hf Hc. simpl. destruct (decide (f + cc < n)).
  - rewrite Z.mod_small by lia. rewrite Z.gtb_ltb. cmp_cases.
  - replace ((f + cc) `mod` n) with (f + cc - n).
    + rewrite Z.gtb_ltb. cmp_cases.
    + apply Z.mod_unique with 1; lia.
Qed.

(** The positions after a run are outside it. *)
Lemma mod_out n f a k : 0 <= f -> f + a <= n -> 0 < n -> 0 <= a <= k -> k < n ->
  ~ f <= (f + k) `mod` n < f + a.
Proof.
  intros Hf Ha Hn Hk Hkn Hin. set (b := (f + k) `mod` n - f).
  apply (mod_neq n f k b); try lia. rewrite (Z.mod_small (f + b)) by lia. lia.
Qed.

Lemma at_bytes m i : bytes m -> 0 <= i < zlen m -> 0 <= at_ m i < 256.
Proof. intros Hb Hi. eapply rd_byte; [exact Hb|by apply rd_at]. Qed.

Lemma wr_range_bytes m i bs m' : bytes m -> bytes bs -> wr_range m i bs = Some m' -> bytes m'.
Proof.
  intros Hm Hbs. unfold wr_range. step_if; [|done]. intros [= <-].
  apply Forall_app. split; [by apply Forall_take|]. apply Forall_app.
  split; [done|by apply Forall_drop].
Qed.

(** Overwriting the run [i, i + len) with the bytes [bs], quotes cleared. *)
Lemma fill_range_ok clp i bs :
  mem_ok clp -> bytes bs -> 0 <= i -> 0 < zlen bs -> i + zlen bs <= c_cn clp ->
  exists cs cs' q', c_cs clp = Some cs /\ wr_range cs i bs = Some cs' /\
    match c_cq clp with
    | None => Some None
    | Some q => Some <$> clrbits q i (zlen bs)
    end = Some q' /\
    forall cc f l, let clp' := Clist cc (c_cn clp) f l (Some cs') (c_ce clp) q' in
      mem_ok clp' /\ (is_Some q' <-> is_Some (c_cq clp)) /\
      forall j, 0 <= j -> slot clp' j =
        if (i <=? j) && (j <? i + zlen bs) then mkchar false (at_ bs (j - i)) else slot clp j.
Proof.
  intros (Hn & He & (m & Ecs & Hlen & Hb) & Hq) Hbs Hi Hl Hin.
  destruct (wr_range_ok m i bs Hi ltac:(lia)) as (m' & Ewr & Hl' & Hat).
  assert (bytes m') by (by apply (wr_range_bytes m i bs)).
  unfold slot, quote_at, byte_at. destruct (c_cq clp) as [q|].
  - destruct (clrbits_ok q i (zlen bs) Hi Hl ltac:(lia)) as (q' & Eq & Hlq & Hqb).
    exists m, m', (Some q'). split_and!; try done; [by rewrite Eq|]. intros cc f l.
    split; [|split; [done|]].
    + unfold mem_ok. simpl. split_and!; try done; try lia. exists m'. split_and!; try done; lia.
    + intros j Hj. simpl. rewrite Hqb, Hat, Ecs by done. by step_if.
  - exists m, m', None. split_and!; try done. intros cc f l. split; [|split; [done|]].
    + unfold mem_ok. simpl. split_and!; try done. exists m'. split_and!; try done; lia.
    + intros j Hj. simpl. rewrite Hat, Ecs by done. by step_if.
Qed.

(** ** [q_to_b] *)

(** The byte of a character. *)
Definition low8 (c : Z) : Z := Z.land c 255.

Lemma low8_mkchar b v : low8 (mkchar b v) = Z.land v 255.
Proof.
  unfold low8, mkchar. destruct b; rewrite ?Z.land_lor_distr_l, <- ?Z.land_assoc; [|done].
  change (Z.land TTY_QUOTE 255) with 0. apply Z.lor_0_r.
Qed.

Lemma land_255_id v : 0 <= v < 256 -> Z.land v 255 = v.
Proof.
  intros Hv. change 255 with (Z.ones 8). rewrite Z.land_ones by lia.
  apply Z.mod_small. change (2 ^ 8) with 256. lia.
Qed.

Lemma run_bytes clp m i n :
  mem_ok clp -> c_cs clp = Some m -> 0 <= i -> 0 <= n -> i + n <= c_cn clp ->
  rd_range m i n = Some (low8 <$> ring (slot clp) (c_cn clp) i n).
Proof.
  intros (Hn & He & (m' & Ecs & Hlen & Hb) & Hq) E Hi Hn0 Hin. rewrite E in Ecs.
  injection Ecs as <-. rewrite rd_range_ok by lia. f_equal. rewrite ring_run by lia.
  rewrite <- list_fmap_compose. apply list_fmap_ext. intros k x Hx.
  apply lookup_seqZ in Hx as [-> Hx]. simpl. unfold slot, byte_at. rewrite E, low8_mkchar.
  by rewrite land_255_id by (apply at_bytes; [done|lia]).
Qed.

Lemma zlen_zeros n : 0 <= n -> zlen (replicate (Z.to_nat n) 0) = n.
Proof. intros. unfold zlen. rewrite length_replicate. lia. Qed.

Lemma zeros_bytes n : bytes (replicate n 0).
Proof. apply Forall_replicate. lia. Qed.

(** One turn of the loop of [q_to_b] or [ndflush] drops a run of the queue. *)
Lemma drop_run clp f cc cs' q' :
  open_ok clp -> c_cf clp = Some f -> 0 <= cc <= Z.min (c_cc clp) (c_cn clp - f) ->
  (forall c f l, let clp' := Clist c (c_cn clp) f l cs' (c_ce clp) q' in
     mem_ok clp' /\
     forall j, 0 <= j -> ~ (default 0 (c_cf clp) <= j < default 0 (c_cf clp) + cc) ->
       slot clp' j = slot clp j) ->
  let clp' := Clist (c_cc clp - cc) (c_cn clp)
    (Some (if f + cc =? c_ce clp then 0 else f + cc)) (c_cl clp) cs' (c_ce clp) q' in
  open_ok clp' /\ chars clp' = drop (Z.to_nat cc) (chars clp).
Proof.
  intros Hop Ef Hcc Hslot clp'. destruct (chars_open clp Hop) as (f' & Ef' & Hf & El & Hch).
  rewrite Ef in Ef'. injection Ef' as <-. destruct Hop as (Hm & Hc & _).
  pose proof Hm as (Hn & He & _). subst clp'. rewrite He, add_mod_wrap, El, Hch by lia.
  rewrite Ef in Hslot. simpl in Hslot.
  destruct (Hslot (c_cc clp - cc) (Some ((f + cc) `mod` c_cn clp))
    (Some ((f + cc + (c_cc clp - cc)) `mod` c_cn clp))) as [Hm' Hs'].
  destruct (open_ok_intro _ _ _ _ _ _ _ Hm' ltac:(lia) eq_refl) as [Hop' Hch'].
  rewrite He in *. replace (f + cc + (c_cc clp - cc)) with (f + c_cc clp) in * by lia.
  split; [done|]. rewrite Hch', ring_drop by lia. apply ring_ext. intros k Hk.
  apply Hs'; [by apply Z.mod_pos_bound|]. rewrite <- Z.add_assoc. apply mod_out; lia.
Qed.

Lemma q_to_b_loop_ok fuel clp count acc :
  open_ok clp -> count <= Z.of_nat fuel ->
  let k := Z.max 0 (Z.min count (c_cc clp)) in
  exists clp', q_to_b_loop fuel clp count acc =
      Some (acc ++ (low8 <$> take (Z.to_nat k) (chars clp)), clp') /\
    open_ok clp' /\ c_cn clp' = c_cn clp /\ chars clp' = drop (Z.to_nat k) (chars clp).
Proof.
  revert clp count acc. induction fuel as [|fuel IH]; intros clp count acc Hop Hf k.
  all: destruct ((count >? 0) && (c_cc clp >? 0)) eqn:E.
  1: { bool_to_prop. lia. }
  1,3: exists clp; simpl; rewrite E; replace k with 0 by (destruct Hop as (_ & ? & _); subst k; lia);
       rewrite take_0, fmap_nil, app_nil_r; done.
  simpl. rewrite E. rewrite !Z.gtb_ltb in E. bool_to_prop.
  destruct (chars_open clp Hop) as (f & Ef & Hf0 & El & Hch).
  pose proof Hop as (Hm & Hc & _). pose proof Hm as (Hn & He & _).
  rewrite Ef, El. simpl. rewrite He, run_length_min by lia.
  set (cc := Z.min (Z.min (c_cc clp) (c_cn clp - f)) count).
  destruct (fill_range_ok clp f (replicate (Z.to_nat cc) 0) Hm (zeros_bytes _) ltac:(lia))
    as (cs & cs' & q' & Ecs & Ewr & Eq & Hfill); [rewrite zlen_zeros by lia; lia..|].
  rewrite zlen_zeros in * by lia. rewrite Ecs. simpl.
  rewrite (run_bytes clp cs f cc Hm Ecs) by lia. simpl. rewrite Ewr. simpl.
  replace (match c_cq clp with Some _ => _ | None => _ end) with (Some q'). simpl.
  destruct (drop_run clp f cc (Some cs') q' Hop Ef ltac:(lia)) as [Hop' Hch'].
  { intros c f1 l1. destruct (Hfill c f1 l1) as (? & _ & Hs). split; [done|].
    intros j Hj Hout. rewrite Hs, Ef in * by done. simpl in Hout. cmp_cases. }
  rewrite He, El in *.
  destruct (IH _ (count - cc) (acc ++ (low8 <$> ring (slot clp) (c_cn clp) f cc)) Hop'
    ltac:(lia)) as (clp' & Eloop & Hop2 & Hn2 & Hch2).
  exists clp'. split; [|split; [done|split; [done|]]].
  - rewrite Eloop. f_equal. f_equal. rewrite Hch'. simpl. rewrite <- app_assoc. f_equal.
    rewrite Hch, ring_drop, !ring_take by lia. rewrite <- fmap_app, <- ring_app by lia.
    do 2 f_equal. lia.
  - rewrite Hch2, Hch', drop_drop. f_equal. simpl. lia.
Qed.

Lemma q_to_b_empty fuel clp count acc :
  c_cc clp = 0 -> q_to_b_loop fuel clp count acc = Some (acc, clp).
Proof. intros E. destruct fuel; simpl; rewrite E; by destruct (count >? 0). Qed.

Lemma reset_cn clp : c_cn (reset_if_empty clp) = c_cn clp.
Proof. unfold reset_if_empty. by step_if. Qed.

Lemma reset_id clp : cl_ok clp -> c_cc clp = 0 -> reset_if_empty clp = clp.
Proof.
  intros (_ & _ & Hp) E. unfold reset_if_empty. rewrite E in *. simpl in *.
  destruct Hp as [Ef El]. destruct clp; simpl in *. by subst.
Qed.

(** [q_to_b] moves the first [min count c_cc] bytes of the queue, in
    order, to the caller's buffer and leaves exactly the rest, whatever the
    position of the queue in the ring; it terminates within [count] rounds
    and touches no memory outside the ring. *)
Theorem q_to_b_correct clp count :
  cl_ok clp -> 0 <= count ->
  exists clp', q_to_b clp count =
      Some (low8 <$> take (Z.to_nat count) (chars clp), clp') /\
    cl_ok clp' /\ c_cn clp' = c_cn clp /\ chars clp' = drop (Z.to_nat count) (chars clp).
Proof.
  intros Hok Hc. unfold q_to_b. destruct (decide (c_cc clp = 0)) as [E|E].
  { exists clp. rewrite q_to_b_empty by done. simpl. rewrite reset_id by done.
    rewrite chars_empty, take_nil, drop_nil by lia. done. }
  pose proof (cl_ok_open clp Hok E) as Hop.
  destruct (q_to_b_loop_ok (Z.to_nat count) clp count [] Hop ltac:(lia))
    as (clp' & -> & Hop' & Hn & Hch). simpl. pose proof (chars_length clp) as Hlen.
  destruct (reset_ok clp' Hop') as [Hok' Hr]. exists (reset_if_empty clp').
  rewrite reset_cn, Hr, Hch. destruct Hok as (_ & Hcc & _).
  destruct (decide (count <= c_cc clp)).
  - replace (Z.max 0 (Z.min count (c_cc clp))) with count by lia. done.
  - replace (Z.max 0 (Z.min count (c_cc clp))) with (c_cc clp) by lia.
    rewrite !take_ge, !drop_ge by lia. done.
Qed.

(** Witness. *)
Lemma q_to_b_correct_witness :
  chars demo_clist = [65; 322; 67] /\
  exists clp', q_to_b demo_clist 2 = Some ([65; 66], clp') /\
    cl_ok clp' /\ c_cn clp' = 4 /\ chars clp' = [67].
Proof.
  split; [reflexivity|].
  exact (q_to_b_correct demo_clist 2 demo_clist_ok ltac:(lia)).
Defined.

(** ** [ndflush] *)

Lemma ndflush_loop_ok fuel clp count :
  open_ok clp -> count <= Z.of_nat fuel ->
  let k := Z.max 0 (Z.min count (c_cc clp)) in
  exists clp', ndflush_loop fuel clp count = Some clp' /\
    open_ok clp' /\ c_cn clp' = c_cn clp /\ chars clp' = drop (Z.to_nat k) (chars clp).
Proof.
  revert clp count. induction fuel as [|fuel IH]; intros clp count Hop Hf k.
  all: destruct ((count >? 0) && (c_cc clp >? 0)) eqn:E.
  1: { bool_to_prop. lia. }
  1,3: exists clp; simpl; rewrite E; replace k with 0
         by (destruct Hop as (_ & ? & _); subst k; lia); done.
  simpl. rewrite E. rewrite !Z.gtb_ltb in E. bool_to_prop.
  destruct (chars_open clp Hop) as (f & Ef & Hf0 & El & _).
  pose proof Hop as (Hm & Hc & _). pose proof Hm as (Hn & He & _).
  rewrite Ef, El. simpl. rewrite He, run_length_min by lia.
  set (cc := Z.min (Z.min (c_cc clp) (c_cn clp - f)) count).
  destruct (drop_run clp f cc (c_cs clp) (c_cq clp) Hop Ef ltac:(lia)) as [Hop' Hch'].
  { intros c f1 l1. split; [exact Hm|done]. }
  rewrite He, El in *.
  destruct (IH _ (count - cc) Hop' ltac:(lia)) as (clp' & Eloop & Hop2 & Hn2 & Hch2).
  exists clp'. split_and!; [done| |done|]; [apply Hop2..|].
  rewrite Hch2, Hch', drop_drop. f_equal. simpl. lia.
Qed.

(** [ndflush] drops exactly the first [min count c_cc] characters. *)
Theorem ndflush_correct clp count :
  cl_ok clp -> 0 <= count ->
  exists clp', ndflush clp count = Some clp' /\
    cl_ok clp' /\ c_cn clp' = c_cn clp /\ chars clp' = drop (Z.to_nat count) (chars clp).
Proof.
  intros Hok Hc. unfold ndflush. pose proof (chars_length clp) as Hlen.
  destruct (Z.eqb_spec count (c_cc clp)) as [->|Hne].
  { eexists. split; [done|]. rewrite drop_ge, chars_empty by (simpl; lia).
    destruct Hok as (Hm & ? & _). split; [|done]. split; [exact Hm|]. simpl. split; [lia|done]. }
  destruct (decide (c_cc clp = 0)) as [E|E].
  { exists clp. assert (ndflush_loop (Z.to_nat count) clp count = Some clp) as ->.
    { destruct (Z.to_nat count); simpl; rewrite E; by destruct (count >? 0). }
    simpl. rewrite reset_id by done. rewrite chars_empty, drop_nil by lia. done. }
  destruct (ndflush_loop_ok (Z.to_nat count) clp count (cl_ok_open clp Hok E) ltac:(lia))
    as (clp' & -> & Hop' & Hn & Hch). simpl.
  destruct (reset_ok clp' Hop') as [Hok' Hr]. exists (reset_if_empty clp').
  rewrite reset_cn, Hr, Hch. destruct Hok as (_ & Hcc & _).
  destruct (decide (count <= c_cc clp)).
  - replace (Z.max 0 (Z.min count (c_cc clp))) with count by lia. done.
  - replace (Z.max 0 (Z.min count (c_cc clp))) with (c_cc clp) by lia.
    rewrite !drop_ge by lia. done.
Qed.

Lemma ndflush_correct_witness :
  exists clp', ndflush demo_clist 2 = Some clp' /\
    cl_ok clp' /\ c_cn clp' = 4 /\ chars clp' = [67].
Proof. exact (ndflush_correct demo_clist 2 demo_clist_ok ltac:(lia)). Defined.

(** ** [b_to_q] *)

(** One turn of the loop of [b_to_q] appends a run. *)
Lemma append_run clp f cl bs cs' q' :
  open_ok clp -> c_cf clp = Some f -> c_cl clp = Some cl -> bytes bs ->
  zlen bs <= Z.min (c_cn clp - c_cc clp) (c_cn clp - cl) ->
  (forall c f l, let clp' := Clist c (c_cn clp) f l cs' (c_ce clp) q' in
     mem_ok clp' /\ (is_Some q' <-> is_Some (c_cq clp)) /\
     forall j, 0 <= j -> slot clp' j =
       if (cl <=? j) && (j <? cl + zlen bs) then mkchar false (at_ bs (j - cl))
       else slot clp j) ->
  let clp' := Clist (c_cc clp + zlen bs) (c_cn clp) (Some f)
    (Some (if cl + zlen bs =? c_ce clp then 0 else cl + zlen bs)) cs' (c_ce clp) q' in
  open_ok clp' /\ chars clp' = chars clp ++ bs.
Proof.
  intros Hop Ef El Hbs Hle Hslot clp'. destruct (chars_open clp Hop) as (f' & Ef' & Hf & El' & Hch).
  rewrite Ef in Ef'. injection Ef' as <-. rewrite El in El'. injection El' as ->.
  destruct Hop as (Hm & Hc & _). pose proof Hm as (Hn & He & _). subst clp'.
  set (cl := (f + c_cc clp) `mod` c_cn clp) in *.
  assert (0 <= cl < c_cn clp) as Hcl by (by apply Z.mod_pos_bound).
  assert (0 <= zlen bs) by (unfold zlen; lia).
  rewrite He, add_mod_wrap, Hch by lia. subst cl.
  rewrite Zplus_mod_idemp_l. set (cl := (f + c_cc clp) `mod` c_cn clp) in *.
  rewrite <- Z.add_assoc.
  destruct (Hslot (c_cc clp + zlen bs) (Some (f `mod` c_cn clp))
    (Some ((f + (c_cc clp + zlen bs)) `mod` c_cn clp))) as (Hm' & _ & Hs').
  destruct (open_ok_intro _ _ _ _ _ _ _ Hm' ltac:(lia) eq_refl) as [Hop' Hch'].
  rewrite He, (Z.mod_small f) in * by lia. split; [done|].
  rewrite Hch', ring_app by lia. f_equal.
  - apply ring_ext. intros k Hk. rewrite Hs' by (by apply Z.mod_pos_bound).
    destruct ((cl <=? (f + k) `mod` c_cn clp) && _) eqn:E; [|done]. bool_to_prop.
    set (b := (f + k) `mod` c_cn clp - cl). exfalso.
    apply (mod_neq (c_cn clp) f k (c_cc clp + b)); try lia.
    rewrite Z.add_assoc, <- (Zplus_mod_idemp_l (f + c_cc clp)). fold cl.
    rewrite (Z.mod_small (cl + b)) by lia. lia.
  - rewrite <- ring_mod by lia. fold cl. rewrite ring_run by lia.
    apply at_inj.
    + unfold zlen. rewrite length_fmap, length_seqZ. lia.
    + unfold zlen at 1. rewrite length_fmap, length_seqZ. intros i Hi.
      unfold at_ at 1. erewrite nth_lookup_Some.
      2:{ rewrite list_lookup_fmap, lookup_seqZ_lt by lia. done. }
      rewrite Z2Nat.id, Hs' by lia. replace (_ && _) with true by lia.
      unfold mkchar. replace (cl + i - cl) with i by lia.
      apply land_255_id, at_bytes; [done|lia].
Qed.

Lemma zlen_take n p : 0 <= n <= zlen p -> zlen (take (Z.to_nat n) p) = n.
Proof. unfold zlen. intros. rewrite length_take. lia. Qed.

Lemma b_to_q_loop_ok fuel p count clp :
  open_ok clp -> count <= Z.of_nat fuel -> 0 <= count <= zlen p -> bytes p ->
  let k := Z.min count (c_cn clp - c_cc clp) in
  exists clp', b_to_q_loop fuel p count clp = Some (count - k, clp') /\
    open_ok clp' /\ c_cn clp' = c_cn clp /\
    chars clp' = chars clp ++ take (Z.to_nat k) p /\ c_cc clp' = c_cc clp + k.
Proof.
  revert p count clp. induction fuel as [|fuel IH]; intros p count clp Hop Hf Hp Hb k.
  all: destruct ((count >? 0) && (c_cc clp <? c_cn clp)) eqn:E.
  1: { bool_to_prop. lia. }
  1,3: exists clp; simpl; rewrite E; destruct Hop as (? & ? & ?); replace k with 0 by (subst k; lia);
       rewrite take_0, app_nil_r, Z.sub_0_r, Z.add_0_r; done.
  simpl. rewrite E. rewrite !Z.gtb_ltb in E. bool_to_prop.
  destruct (chars_open clp Hop) as (f & Ef & Hf0 & El & _).
  pose proof Hop as (Hm & Hc & _). pose proof Hm as (Hn & He & _).
  rewrite Ef, El. simpl. rewrite He, (room_min f (c_cc clp)) by lia.
  set (cl := (f + c_cc clp) `mod` c_cn clp) in *.
  assert (0 <= cl < c_cn clp) as Hcl by (by apply Z.mod_pos_bound).
  set (cc := Z.min (Z.min (c_cn clp - c_cc clp) (c_cn clp - cl)) count).
  assert (zlen (take (Z.to_nat cc) p) = cc) as Hz by (apply zlen_take; lia).
  assert (bytes (take (Z.to_nat cc) p)) as Hbt by (by apply Forall_take).
  destruct (fill_range_ok clp cl (take (Z.to_nat cc) p) Hm Hbt ltac:(lia) ltac:(lia) ltac:(lia))
    as (cs & cs' & q' & Ecs & Ewr & Eq & Hfill).
  rewrite Hz in Eq. rewrite Ecs. simpl. rewrite Ewr. simpl.
  replace (match c_cq clp with Some _ => _ | None => _ end) with (Some q'). simpl.
  destruct (append_run clp f cl (take (Z.to_nat cc) p) (Some cs') q' Hop Ef El Hbt ltac:(lia) Hfill)
    as [Hop' Hch']. rewrite Hz, He in *.
  destruct (IH (drop (Z.to_nat cc) p) (count - cc) _ Hop') as (clp' & Eloop & Hop2 & Hn2 & Hch2 & Hc2).
  { lia. } { unfold zlen in *. rewrite length_drop. lia. } { by apply Forall_drop. }
  simpl in *. exists clp'. split; [|split; [done|split; [done|split; [|lia]]]].
  - rewrite Eloop. do 2 f_equal. lia.
  - rewrite Hch2, Hch', <- app_assoc, take_take_drop. do 2 f_equal. lia.
Qed.

(** [b_to_q] appends, in order and unquoted, as many of the [count]
    bytes as the ring has room for, and returns the number that did not fit;
    a queue that was closed or freed is opened first. *)
Theorem b_to_q_correct cp count clp :
  cl_ok clp \/ freed clp -> bytes cp -> count <= zlen cp ->
  let room := c_cn (open_empty clp) - c_cc clp in
  exists clp', b_to_q cp count clp =
      Some (if c_cc clp =? c_cn clp then Z.max 0 count
            else Z.max 0 count - Z.min (Z.max 0 count) room, clp') /\
    (cl_ok clp -> cl_ok clp' /\ c_cn clp' = c_cn clp /\
       chars clp' = chars clp ++ take (Z.to_nat (Z.min count room)) cp) /\
    (freed clp -> 0 < count -> cl_ok clp' /\ c_cn clp' = 1024 /\
       chars clp' = take (Z.to_nat (Z.min count 1024)) cp).
Proof.
  intros Hok Hb Hl room. unfold b_to_q.
  destruct (open_empty_ok clp Hok) as (Hop & Hch & Hcc & Hcn & _).
  assert (cl_ok clp -> room = c_cn clp - c_cc clp) as Hroom.
  { intros (Hm & _). subst room. rewrite Hcn. by destruct Hm as (_ & _ & (m & -> & _) & _). }
  destruct (Z.leb_spec count 0) as [E|E].
  { exists clp. split.
    { do 2 f_equal. destruct Hop as (? & ? & _). rewrite Hcc in *. subst room. step_if; lia. }
    split; [|lia]. intros Hcl. split; [done|]. split; [done|].
    replace (Z.to_nat _) with 0%nat by lia. by rewrite take_0, app_nil_r. }
  destruct (Z.eqb_spec (c_cc clp) (c_cn clp)) as [Ef|Ef].
  { exists clp. split; [do 2 f_equal; lia|]. split.
    - intros Hcl. split; [done|]. split; [done|]. rewrite (Hroom Hcl).
      replace (Z.to_nat _) with 0%nat by lia. by rewrite take_0, app_nil_r.
    - intros (? & ? & ?). lia. }
  destruct (b_to_q_loop_ok (Z.to_nat count) cp count (open_empty clp) Hop ltac:(lia) ltac:(lia) Hb)
    as (clp' & -> & Hop' & Hn' & Hch' & Hc'). rewrite Hcc in *. fold room in Hc', Hch' |- *.
  exists clp'. split; [do 2 f_equal; lia|]. destruct Hop' as (Hm' & Hcc' & Hp').
  assert (0 < room) as Hr.
  { destruct Hok as [Hcl|(Hz & Hs & _)]; [|subst room; rewrite Hcn, Hs; lia].
    rewrite (Hroom Hcl). destruct Hcl as (_ & ? & _). lia. }
  assert (cl_ok clp') as Hok'.
  { split; [done|]. split; [done|]. destruct Hop as (_ & Hoc & _). rewrite Hcc in Hoc.
    replace (c_cc clp' =? 0) with false by lia. done. }
  rewrite Hch', Hch. split.
  - intros (Hm & _). destruct Hm as (_ & _ & (m & E1 & _) & _). rewrite E1 in Hcn.
    split; [done|]. split; [congruence|done].
  - intros (Hz & E1 & _) _. rewrite E1 in Hcn. split; [done|]. split; [congruence|].
    rewrite chars_empty by lia. simpl. subst room. rewrite Hcn, Hz, Z.sub_0_r. done.
Qed.

Lemma b_to_q_correct_witness :
  let room := c_cn (open_empty demo_clist) - c_cc demo_clist in
  exists clp', b_to_q [88; 89; 90] 3 demo_clist = Some (2, clp') /\
    (cl_ok demo_clist -> cl_ok clp' /\ c_cn clp' = c_cn demo_clist /\
       chars clp' = chars demo_clist ++ take (Z.to_nat (Z.min 3 room)) [88; 89; 90]) /\
    (freed demo_clist -> 0 < 3 -> cl_ok clp' /\ c_cn clp' = 1024 /\
       chars clp' = take (Z.to_nat (Z.min 3 1024)) [88; 89; 90]).
Proof.
  apply (b_to_q_correct [88; 89; 90] 3 demo_clist);
    [left; exact demo_clist_ok|repeat constructor; lia|unfold zlen; simpl; lia].
Defined.

(** ** [catq] *)

Definition is_char (c : Z) : Prop := exists b v, c = mkchar b v.

Lemma chars_are_chars clp : Forall is_char (chars clp).
Proof.
  unfold chars, ring. apply Forall_fmap, Forall_true. intros k. unfold is_char, slot. simpl. by eauto.
Qed.

Lemma mkchar_nonneg b v : 0 <= mkchar b v.
Proof.
  unfold mkchar. pose proof (land_255 v). destruct b; [|lia].
  apply Z.lor_nonneg. unfold TTY_QUOTE. lia.
Qed.

Lemma has_quote_mkchar b v : has (mkchar b v) TTY_QUOTE = b.
Proof.
  rewrite has_quote. unfold mkchar.
  assert (Z.testbit (Z.land v 255) 8 = false) as E.
  { rewrite Z.land_spec. apply andb_false_r. }
  destruct b; [|done]. by rewrite Z.lor_spec, E.
Qed.

Lemma kept_char clp c :
  is_char c -> kept clp c = if c_cq clp is Some _ then c else low8 c.
Proof.
  intros (b & v & ->). unfold kept. destruct (c_cq clp); [|done].
  rewrite has_quote_mkchar. pose proof (low8_mkchar b v) as E. unfold low8 in E.
  unfold mkchar at 1 3. rewrite E. done.
Qed.

(** What a queue with the quote support of [to] keeps of a character. *)
Definition kept_by (to : clist) (c : Z) : Z := if c_cq to is Some _ then c else low8 c.

Lemma open_empty_cq clp :
  cl_ok clp -> (is_Some (c_cq (open_empty clp)) <-> is_Some (c_cq clp)).
Proof.
  intros Hok. destruct (open_empty_ok clp (or_introl Hok)) as (_ & _ & _ & _ & Hq).
  apply Hq. destruct Hok as (Hm & _). by destruct Hm as (_ & _ & (m & -> & _) & _).
Qed.

Lemma kept_by_equiv to to' c :
  (is_Some (c_cq to) <-> is_Some (c_cq to')) -> kept_by to c = kept_by to' c.
Proof.
  unfold kept_by. intros [H1 H2]. destruct (c_cq to), (c_cq to'); try done.
  - destruct H1; [by eauto|done].
  - destruct H2; [by eauto|done].
Qed.

Lemma cl_ok_cc clp : cl_ok clp -> Z.of_nat (length (chars clp)) = c_cc clp.
Proof. intros (_ & Hc & _). rewrite chars_length. lia. Qed.

Lemma catq_loop_ok fuel from to :
  cl_ok from -> cl_ok to -> c_cc from < Z.of_nat fuel ->
  exists from' to', catq_loop fuel from to = Some (from', to') /\
    cl_ok from' /\ cl_ok to' /\ chars from' = [] /\
    chars to' = chars to ++ (kept_by to <$> take (Z.to_nat (c_cn to - c_cc to)) (chars from)).
Proof.
  revert from to. induction fuel as [|fuel IH]; intros from to Hfrom Hto Hfuel.
  { destruct Hfrom as (_ & ? & _). lia. }
  simpl. destruct (getc_spec from Hfrom) as (c & from1 & -> & Hfrom1 & Hn1 & Hget). simpl.
  pose proof (cl_ok_cc from Hfrom) as Hlen. pose proof (chars_are_chars from) as Hch.
  destruct (chars from) as [|x xs] eqn:Ex.
  { destruct Hget as [-> ->]. exists from, to. rewrite take_nil, fmap_nil, app_nil_r.
    simpl. split_and!; try done; apply Hfrom || apply Hto. }
  destruct Hget as [-> Ex1]. apply Forall_inv in Hch as Hx.
  replace (x =? -1) with false.
  2:{ destruct Hx as (b & v & ->). pose proof (mkchar_nonneg b v). lia. }
  destruct (putc_spec to x (or_introl Hto)) as (r & to1 & -> & Hput). simpl.
  pose proof (cl_ok_cc from1 Hfrom1) as Hlen1. rewrite Ex1 in Hlen1. simpl in Hlen.
  destruct (Z.eqb_spec (c_cc to) (c_cn to)) as [Efull|Efull].
  - destruct Hput as [_ ->]. destruct (IH from1 to Hfrom1 Hto ltac:(lia))
      as (from' & to' & -> & Hf' & Ht' & Hc' & Hr). exists from', to'.
    split; [done|]. split; [done|]. split; [done|]. split; [done|].
    rewrite Hr. replace (Z.to_nat (c_cn to - c_cc to)) with 0%nat by lia. done.
  - destruct Hput as (_ & Hto1 & Hcht & Hq & Hcn).
    destruct (IH from1 to1 Hfrom1 Hto1 ltac:(lia)) as (from' & to' & -> & Hf' & Ht' & Hc' & Hr).
    exists from', to'. split; [done|]. split; [done|]. split; [done|]. split; [done|].
    rewrite Hr, Hcht, Ex1, <- app_assoc. f_equal. simpl.
    assert (c_cc to1 = c_cc to + 1) as ->.
    { rewrite <- (cl_ok_cc to Hto), <- (cl_ok_cc to1 Hto1), Hcht, length_app. simpl. lia. }
    replace (c_cn to1) with (c_cn to).
    2:{ rewrite Hcn. destruct Hto as (Hm & _). by destruct Hm as (_ & _ & (m & -> & _) & _). }
    destruct Hto as (Hm & Hc & Hp).
    replace (Z.to_nat (c_cn to - c_cc to)) with (S (Z.to_nat (c_cn to - (c_cc to + 1)))) by lia.
    simpl. pose proof (open_empty_cq to (conj Hm (conj Hc Hp))) as Ho. f_equal.
    + rewrite kept_char by done. apply (kept_by_equiv (open_empty to) to). done.
    + apply list_fmap_ext. intros. apply kept_by_equiv. by rewrite Hq.
Qed.

(** [catq] moves every character of [from] to the back of [to], in
    order, except those that no longer fit in the ring, and leaves [from]
    empty; the shortcut that swaps the two structures has the same result. *)
Theorem catq_correct from to :
  cl_ok from -> cl_ok to -> (is_Some (c_cq from) <-> is_Some (c_cq to)) ->
  exists from' to', catq from to = Some (from', to') /\
    cl_ok from' /\ cl_ok to' /\ chars from' = [] /\
    chars to' = chars to ++ (kept_by to <$> take (Z.to_nat (c_cn to - c_cc to)) (chars from)).
Proof.
  intros Hfrom Hto Hqq. unfold catq. destruct (Z.eqb_spec (c_cc from) 0) as [E|E].
  { exists from, to. rewrite (chars_empty from), take_nil, fmap_nil, app_nil_r by lia. done. }
  destruct ((c_cc to =? 0) && (c_cn from =? c_cn to)) eqn:Es.
  2:{ apply catq_loop_ok; try done. destruct Hfrom as (_ & ? & _). lia. }
  bool_to_prop. exists to, from. rewrite (chars_empty to) by lia.
  split; [done|]. split; [done|]. split; [done|]. split; [done|]. simpl.
  pose proof (cl_ok_cc from Hfrom) as Hlen. destruct Hfrom as (_ & Hc & _).
  rewrite take_ge by lia. symmetry. rewrite <- (list_fmap_id (chars from)) at 2.
  apply list_fmap_ext. intros i c Hin%list_elem_of_lookup_2. simpl. unfold kept_by.
  destruct (c_cq to) eqn:Eq; [done|].
  assert (c_cq from = None) as Eqf.
  { destruct (c_cq from); [|done]. by destruct (proj1 Hqq (mk_is_Some _ _ eq_refl)). }
  unfold chars, ring in Hin. apply list_elem_of_fmap in Hin as (k & -> & _).
  unfold slot, quote_at. rewrite Eqf, low8_mkchar. done.
Qed.

Lemma catq_correct_witness :
  let to := Clist 1 2 (Some 0) (Some 1) (Some [90; 0]) 2 (Some [0]) in
  exists from' to', catq demo_clist to = Some (from', to') /\
    cl_ok from' /\ cl_ok to' /\ chars from' = [] /\
    chars to' = chars to ++ (kept_by to <$> take (Z.to_nat (c_cn to - c_cc to)) (chars demo_clist)).
Proof.
  intros to. apply (catq_correct demo_clist to demo_clist_ok).
  - split; [|split; [simpl; lia|exists 0; simpl; split_and!; done || lia]].
    split; [done|]. split; [done|]. split; [|unfold zlen; simpl; lia].
    eexists. split; [done|]. split; [done|]. repeat constructor; lia.
  - split; by eauto.
Defined.

(** ** [firstc] and [nextc] *)

Lemma peek_ok clp i : mem_ok clp -> 0 <= i < c_cn clp -> peek clp i = Some (slot clp i).
Proof.
  intros (Hn & He & (m & Ecs & Hlen & Hb) & Hq) Hi. unfold peek, slot, quote_at, byte_at.
  rewrite Ecs. simpl. rewrite rd_at by lia. simpl. destruct (c_cq clp) as [q|]; [|done].
  by rewrite isset_ok by lia.
Qed.

(** The characters seen by calling [nextc] from a position until it returns
    [NULL]. *)
Fixpoint scan (fuel : nat) (clp : clist) (st : option (Z * Z) * Z) : option (list Z) :=
  match fst st with
  | None => Some []
  | Some (p, c) =>
      match fuel with
      | O => None
      | S fuel =>
          st' ← nextc clp (Some p) (snd st);
          rest ← scan fuel clp st';
          Some (c :: rest)
      end
  end.

Lemma scan_ok fuel clp f k :
  mem_ok clp -> c_cf clp = Some f -> 0 <= f < c_cn clp -> 0 <= k < c_cc clp ->
  c_cc clp <= c_cn clp -> c_cc clp - k <= Z.of_nat fuel ->
  scan fuel clp (Some ((f + k) `mod` c_cn clp, slot clp ((f + k) `mod` c_cn clp)), c_cc clp - k)
  = Some (ring (slot clp) (c_cn clp) (f + k) (c_cc clp - k)).
Proof.
  intros Hm Ef Hf. revert k. induction fuel as [|fuel IH]; intros k Hk Hle Hfuel; [lia|].
  simpl. pose proof Hm as (Hn & He & _).
  assert ((if decide (c_cf clp = Some ((f + k) `mod` c_cn clp)) then c_cc clp
           else c_cc clp - k) = c_cc clp - k) as E.
  { destruct (decide _) as [E|]; [|done]. rewrite Ef in E. injection E as E.
    destruct (decide (k = 0)); [lia|]. exfalso. by apply (mod_off (c_cn clp) f k); try lia. }
  unfold nextc. rewrite E. replace (c_cc clp - k =? 0) with false by lia.
  rewrite <- (ring_mod _ _ (f + k)), ring_cons, ring_mod_succ by (try apply Z.mod_pos_bound; lia).
  destruct (Z.eqb_spec (c_cc clp - k - 1) 0) as [E1|E1].
  { simpl. by destruct fuel; rewrite ring_nil by lia. }
  rewrite He, succ_mod, Zplus_mod_idemp_l, peek_ok by (try apply Z.mod_pos_bound; done). simpl.
  replace (f + k + 1) with (f + (k + 1)) by lia.
  replace (c_cc clp - k - 1) with (c_cc clp - (k + 1)) by lia.
  rewrite IH by lia. done.
Qed.

(** Starting with [firstc] and calling [nextc] until it returns [NULL]
    visits every character of the queue exactly once, in order, and stops;
    also when the queue fills the ring and its end meets its beginning. *)
Theorem firstc_nextc_scan clp :
  cl_ok clp -> exists st, firstc clp = Some st /\
    scan (Z.to_nat (c_cc clp)) clp st = Some (chars clp).
Proof.
  intros Hok. unfold firstc. destruct (Z.eqb_spec (c_cc clp) 0) as [E|E].
  { eexists. split; [done|]. rewrite E, chars_empty by lia. done. }
  pose proof (cl_ok_open clp Hok E) as Hop. destruct (chars_open clp Hop) as (f & Ef & Hf & _ & ->).
  destruct Hop as (Hm & Hc & _). rewrite Ef. simpl. rewrite peek_ok by done. simpl.
  eexists. split; [done|].
  pose proof (scan_ok (Z.to_nat (c_cc clp)) clp f 0 Hm Ef Hf ltac:(lia) ltac:(lia) ltac:(lia)) as Hs.
  by rewrite Z.add_0_r, Z.sub_0_r, (Z.mod_small f) in Hs by lia.
Qed.

Lemma firstc_nextc_scan_witness :
  exists st, firstc demo_clist = Some st /\
    scan (Z.to_nat (c_cc demo_clist)) demo_clist st = Some (chars demo_clist).
Proof. exact (firstc_nextc_scan demo_clist demo_clist_ok). Defined.

(** ** [ndqb] *)

(** The length of the longest prefix with none of the bits of [flag]. *)
Fixpoint clear_prefix (flag : Z) (l : list Z) : Z :=
  match l with
  | [] => 0
  | c :: l => if has c flag then 0 else 1 + clear_prefix flag l
  end.

Lemma ndqb_loop_plain clp m n i count flag :
  mem_ok clp -> c_cs clp = Some m -> 0 <= i < c_cn clp -> 0 <= flag ->
  ndqb_loop n clp flag false i count =
  Some (count + clear_prefix flag (at_ m <$> seqZ i (Z.min (Z.of_nat n) (c_cn clp - i)))).
Proof.
  intros Hm Ecs. revert i count. induction n as [|n IH]; intros i count Hi Hflag.
  { simpl. rewrite Z.min_l by lia. simpl. f_equal. lia. }
  pose proof Hm as (Hn & He & (m' & Ecs' & Hlen & _) & _). rewrite Ecs in Ecs'. injection Ecs' as <-.
  cbn [ndqb_loop]. rewrite Ecs. simpl. rewrite rd_at by lia. simpl.
  rewrite seqZ_cons by lia. simpl. destruct (has (at_ m i) flag); [f_equal; lia|].
  destruct (Z.eqb_spec (i + 1) (c_cn clp)) as [E|E].
  - rewrite seqZ_nil by lia. done.
  - rewrite IH by lia. f_equal. rewrite <- Z.add_assoc. do 2 f_equal.
    change (Z.succ i) with (i + 1). do 3 f_equal. lia.
Qed.

(** For a flag without [TTY_QUOTE], [ndqb] counts the contiguous
    characters at the front of the queue, up to the end of the buffer, before
    the first one that has a bit of [flag]; with flag 0 all of them. *)
Theorem ndqb_correct clp flag :
  cl_ok clp -> 0 <= flag < 256 ->
  ndqb clp flag = Some (clear_prefix flag (low8 <$>
    take (Z.to_nat (c_cn clp - first clp)) (chars clp))).
Proof.
  intros Hok Hflag. unfold ndqb. destruct (Z.eqb_spec (c_cc clp) 0) as [E|E].
  { by rewrite chars_empty, take_nil by lia. }
  pose proof (cl_ok_open clp Hok E) as Hop.
  destruct (chars_open clp Hop) as (f & Ef & Hf & El & Hch). destruct Hop as (Hm & Hc & _).
  pose proof Hm as (Hn & He & (m & Ecs & Hlen & Hb) & _). unfold first. rewrite Ef, El. simpl.
  set (k := Z.min (c_cc clp) (c_cn clp - f)).
  assert (low8 <$> take (Z.to_nat (c_cn clp - f)) (chars clp) = at_ m <$> seqZ f k) as ->.
  { rewrite Hch. transitivity (low8 <$> take (Z.to_nat k) (ring (slot clp) (c_cn clp) f (c_cc clp))).
    - f_equal. destruct (decide (c_cc clp <= c_cn clp - f)).
      + rewrite !take_ge; [done|rewrite ring_length; lia..].
      + f_equal. lia.
    - rewrite ring_take by lia.
      pose proof (run_bytes clp m f k Hm Ecs ltac:(lia) ltac:(lia) ltac:(lia)) as Hr.
      rewrite rd_range_ok in Hr by lia. injection Hr as Hr. symmetry. exact Hr. }
  destruct (Z.eqb_spec flag 0) as [->|Hne].
  - f_equal. transitivity k.
    + subst k. rewrite <- run_length_min by lia. unfold run_length. rewrite He, Z.geb_leb.
      cmp_cases.
    + assert (forall l, clear_prefix 0 l = zlen l) as ->.
      { unfold zlen. induction l as [|c l IH]; [done|]. simpl. unfold has.
        rewrite Z.land_0_r, IH. simpl. lia. }
      unfold zlen. rewrite length_fmap, length_seqZ. lia.
  - replace (has flag TTY_QUOTE) with false.
    + rewrite (ndqb_loop_plain clp m) by (done || lia). rewrite Z2Nat.id by lia. done.
    + rewrite has_quote. symmetry. apply Z.testbit_false; [lia|].
      rewrite Z.div_small by lia. done.
Qed.

Lemma ndqb_correct_witness :
  clear_prefix 2 [65; 66] = 1 /\ ndqb demo_clist 2 = Some 1.
Proof. split; [reflexivity|]. exact (ndqb_correct demo_clist 2 demo_clist_ok ltac:(lia)). Defined.

(** With [TTY_QUOTE] in the flag the index is advanced before the
    bitmap is consulted, so [ndqb] tests the quote bit of the slot after each
    character: it counts a quoted character at the front, and stops one early before a
    quoted second character. *)
Theorem ndqb_quote_off_by_one :
  let quoted_first := Clist 1 8 (Some 0) (Some 1) (Some [65; 0; 0; 0; 0; 0; 0; 0]) 8 (Some [1]) in
  let quoted_second := Clist 2 8 (Some 0) (Some 2) (Some [65; 66; 0; 0; 0; 0; 0; 0]) 8 (Some [2]) in
  chars quoted_first = [321] /\ ndqb quoted_first TTY_QUOTE = Some 1 /\
  chars quoted_second = [65; 322] /\ ndqb quoted_second TTY_QUOTE = Some 0.
Proof. vm_compute. done. Qed.
