(* ===== verification/Lockf.v ===== *)
(** * Advisory byte-range locks (sys/kern/vfs_lockf.c, struct lockf of
    sys/sys/lockf.h)

    The locks of one file are the list that starts at [*head] and follows
    [lf_next].  A pointer into the list is a split of it: [prev] is the end
    of the part already passed, [block] the part still ahead.  Requests that
    sleep are kept beside the list with the lock each is blocked on (the
    [lf_next] of a sleeping request), and each lock's [lf_blkhd] is a list of
    the addresses of the requests queued on it. *)

From stdpp Require Import base numbers list option gmap.
From Stdlib Require Import ZArith Lia Bool.
From S2P Require Import Prelude.

(** ** Constants of sys/sys/fcntl.h and sys/sys/unistd.h *)

Definition F_GETLK : Z := 7.
Definition F_SETLK : Z := 8.
Definition F_RDLCK : Z := 1.
Definition F_UNLCK : Z := 2.
Definition F_WRLCK : Z := 3.
Definition F_WAIT : Z := 16.
Definition F_FLOCK : Z := 32.
Definition F_POSIX : Z := 64.
Definition SEEK_SET : Z := 0.
Definition SEEK_CUR : Z := 1.
Definition SEEK_END : Z := 2.
Definition SELF : Z := 1.
Definition OTHERS : Z := 2.
Definition MAXDEPTH : nat := 50.
Definition maxlocksperuid : Z := 1024.

(** [off_t] is a signed 64-bit integer. *)
Definition off_t (x : Z) : Z := sint 64 x.

(** ** Data *)

Record lockf := Lockf {
  lf_addr : Z;               (* address of the structure *)
  lf_flags : Z;
  lf_type : Z;
  lf_start : Z;
  lf_end : Z;                (* -1 for end of file *)
  lf_id : Z;
  lf_uid : Z;
  lf_pid : Z
}.

Record flock := Flock {
  l_start : Z;
  l_len : Z;
  l_pid : Z;
  l_type : Z;
  l_whence : Z
}.

Record lfstate := LfState {
  lf_head : list lockf;              (* the locks of the file *)
  lf_blkhd : gmap Z (list Z);        (* per lock, the requests queued on it *)
  lf_blocked : gmap Z Z;             (* lf_next of a sleeping request *)
  lf_reqs : gmap Z lockf;            (* the sleeping requests *)
  ui_lockcnt : Z -> Z;               (* lockf structures per uid *)
  lf_pool : Z;                       (* next address of the pool *)
  lf_woken : list Z                  (* wakeup_one calls, oldest first *)
}.

Definition with_head (s : lfstate) (l : list lockf) : lfstate :=
  LfState l (lf_blkhd s) (lf_blocked s) (lf_reqs s) (ui_lockcnt s) (lf_pool s) (lf_woken s).

Definition with_cnt (s : lfstate) (c : Z -> Z) : lfstate :=
  LfState (lf_head s) (lf_blkhd s) (lf_blocked s) (lf_reqs s) c (lf_pool s) (lf_woken s).

Definition set_start (k : lockf) (v : Z) : lockf :=
  Lockf (lf_addr k) (lf_flags k) (lf_type k) v (lf_end k) (lf_id k) (lf_uid k) (lf_pid k).
Definition set_end (k : lockf) (v : Z) : lockf :=
  Lockf (lf_addr k) (lf_flags k) (lf_type k) (lf_start k) v (lf_id k) (lf_uid k) (lf_pid k).
Definition set_type (k : lockf) (v : Z) : lockf :=
  Lockf (lf_addr k) (lf_flags k) v (lf_start k) (lf_end k) (lf_id k) (lf_uid k) (lf_pid k).
Definition set_addr (k : lockf) (v : Z) : lockf :=
  Lockf v (lf_flags k) (lf_type k) (lf_start k) (lf_end k) (lf_id k) (lf_uid k) (lf_pid k).

Definition add_count (c : Z -> Z) (uid d : Z) : Z -> Z :=
  fun u => if u =? uid then c u + d else c u.

(** ** Allocation *)

(** The address of a fresh structure, or [None] over the user's limit. *)
Definition lf_alloc (s : lfstate) (uid allowfail : Z) : option (Z * lfstate) :=
  if negb (uid =? 0) && negb (allowfail =? 0) &&
     (ui_lockcnt s uid >? (if allowfail =? 1 then maxlocksperuid else maxlocksperuid * 2))
  then None
  else Some (lf_pool s,
    LfState (lf_head s) (lf_blkhd s) (lf_blocked s) (lf_reqs s)
      (add_count (ui_lockcnt s) uid 1) (lf_pool s + 1) (lf_woken s)).

Definition lf_free (s : lfstate) (lock : lockf) : lfstate :=
  with_cnt s (add_count (ui_lockcnt s) (lf_uid lock) (-1)).

(** ** Wait queues *)

Definition waiters (s : lfstate) (a : Z) : list Z := default [] (lf_blkhd s !! a).

(** [lf_wakelock]: empty the queue of the lock at address [a]. *)
Definition lf_wakelock (s : lfstate) (a : Z) : lfstate :=
  LfState (lf_head s) (<[a := []]> (lf_blkhd s))
    (foldr (fun w m => delete w m) (lf_blocked s) (waiters s a))
    (lf_reqs s) (ui_lockcnt s) (lf_pool s) (lf_woken s ++ waiters s a).

(** The loop of case 3 that takes over the queue of [a] for the lock at
    address [b]. *)
Definition take_waiters (s : lfstate) (a b : Z) : lfstate :=
  LfState (lf_head s) (<[b := waiters s b ++ waiters s a]> (<[a := []]> (lf_blkhd s)))
    (foldr (fun w m => <[w := b]> m) (lf_blocked s) (waiters s a))
    (lf_reqs s) (ui_lockcnt s) (lf_pool s) (lf_woken s).

(** ** [lf_findoverlap] *)

(** The case of one lock [lf] against [lock], in the order of the tests;
    [None] is the panic. *)
Definition overlap_case (lf lock : lockf) : option Z :=
  let start := lf_start lock in
  let end_ := lf_end lock in
  if (negb (lf_end lf =? -1) && (start >? lf_end lf)) ||
     (negb (end_ =? -1) && (lf_start lf >? end_)) then Some 0
  else if (lf_start lf =? start) && (lf_end lf =? end_) then Some 1
  else if (lf_start lf <=? start) &&
          ((lf_end lf =? -1) || (negb (end_ =? -1) && (lf_end lf >=? end_))) then Some 2
  else if (start <=? lf_start lf) &&
          ((end_ =? -1) || (negb (lf_end lf =? -1) && (end_ >=? lf_end lf))) then Some 3
  else if (lf_start lf <? start) && ((lf_end lf >=? start) || (lf_end lf =? -1)) then Some 4
  else if (lf_start lf >? start) && negb (end_ =? -1) &&
          ((lf_end lf >? end_) || (lf_end lf =? -1)) then Some 5
  else None.

(** The value is the case, the locks passed over (so that [*prev] is the link
    after them) and the list that begins with [*overlap]. *)
Fixpoint lf_findoverlap (lf : list lockf) (lock : lockf) (type : Z)
    : option (Z * list lockf * list lockf) :=
  match lf with
  | [] => Some (0, [], [])
  | k :: rest =>
      let skip :=
        match lf_findoverlap rest lock type with
        | None => None
        | Some (c, passed, ahead) => Some (c, k :: passed, ahead)
        end in
      if (has type SELF && negb (lf_id k =? lf_id lock)) ||
         (has type OTHERS && (lf_id k =? lf_id lock)) then skip
      else
        match overlap_case k lock with
        | None => None
        | Some c =>
            if c =? 0 then
              if has type SELF && negb (lf_end lock =? -1) && (lf_start k >? lf_end lock)
              then Some (0, [], k :: rest)
              else skip
            else Some (c, [], k :: rest)
        end
  end.

(** ** [lf_getblock] and [lf_getlock] *)

(** [None] is a panic, [Some None] is [NULL]. *)
Fixpoint lf_getblock (fuel : nat) (lf : list lockf) (lock : lockf) : option (option lockf) :=
  match fuel with
  | O => None
  | S fuel =>
      match lf_findoverlap lf lock OTHERS with
      | None => None
      | Some (c, _, ahead) =>
          if c =? 0 then Some None
          else
            match ahead with
            | [] => None
            | overlap :: rest =>
                if (lf_type lock =? F_WRLCK) || (lf_type overlap =? F_WRLCK)
                then Some (Some overlap)
                else lf_getblock fuel rest lock
            end
      end
  end.

Definition getblock (s : lfstate) (lock : lockf) : option (option lockf) :=
  lf_getblock (S (length (lf_head s))) (lf_head s) lock.

Definition lf_getlock (s : lfstate) (lock : lockf) (fl : flock) : option flock :=
  match getblock s lock with
  | None => None
  | Some (Some block) =>
      Some (Flock (lf_start block)
        (if lf_end block =? -1 then 0 else off_t (lf_end block - lf_start block + 1))
        (lf_pid block) (lf_type block) SEEK_SET)
  | Some None => Some (Flock (l_start fl) (l_len fl) (l_pid fl) F_UNLCK (l_whence fl))
  end.

(** ** [lf_split] *)

(** What the three branches leave: [lock1] moved up with [lock2] before it,
    [lock1] shortened with [lock2] after it, or [lock1] shortened with
    [lock2] and a new lock for the rest after it. *)
Inductive split_result :=
| SplitFront (lock1 : lockf)
| SplitBack (lock1 : lockf)
| SplitThree (lock1 splitlock : lockf).

Definition lf_split (s : lfstate) (lock1 lock2 : lockf) : split_result * lfstate :=
  if lf_start lock1 =? lf_start lock2
  then (SplitFront (set_start lock1 (off_t (lf_end lock2 + 1))), s)
  else if lf_end lock1 =? lf_end lock2
  then (SplitBack (set_end lock1 (off_t (lf_start lock2 - 1))), s)
  else
    match lf_alloc s (lf_uid lock1) 0 with
    | None => (SplitBack lock1, s)    (* [lf_alloc] with 0 never fails *)
    | Some (a, s1) =>
        (SplitThree (set_end lock1 (off_t (lf_start lock2 - 1)))
           (set_addr (set_start lock1 (off_t (lf_end lock2 + 1))) a), s1)
    end.

(** ** [lf_clearlock] *)

Fixpoint lf_clearlock_loop (fuel : nat) (s : lfstate) (pre lf : list lockf) (lock : lockf)
    : run lfstate unit :=
  match fuel with
  | O => NoFuel
  | S fuel =>
      match lf_findoverlap lf lock SELF with
      | None => Panic
      | Some (c, passed, ahead) =>
          let pre1 := pre ++ passed in
          match ahead with
          | overlap :: rest =>
              if c =? 0 then Done tt (with_head s (pre1 ++ ahead))
              else
                let s1 := lf_wakelock s (lf_addr overlap) in
                if c =? 1 then Done tt (lf_free (with_head s1 (pre1 ++ rest)) overlap)
                else if c =? 2 then
                  if lf_start overlap =? lf_start lock
                  then Done tt (with_head s1
                    (pre1 ++ set_start overlap (off_t (lf_end lock + 1)) :: rest))
                  else
                    match lf_split s1 overlap lock with
                    | (SplitFront _, _) => Panic   (* excluded by the test above *)
                    | (SplitBack k1, s2) => Done tt (with_head s2 (pre1 ++ k1 :: rest))
                    | (SplitThree k1 k2, s2) => Done tt (with_head s2 (pre1 ++ k1 :: k2 :: rest))
                    end
                else if c =? 3 then
                  lf_clearlock_loop fuel (lf_free s1 overlap) pre1 rest lock
                else if c =? 4 then
                  lf_clearlock_loop fuel s1
                    (pre1 ++ [set_end overlap (off_t (lf_start lock - 1))]) rest lock
                else Done tt (with_head s1
                       (pre1 ++ set_start overlap (off_t (lf_end lock + 1)) :: rest))
          | [] => Done tt (with_head s pre1)
          end
      end
  end.

Definition lf_clearlock (s : lfstate) (lock : lockf) : run lfstate unit :=
  match lf_head s with
  | [] => Done tt s
  | l => lf_clearlock_loop (S (length l)) s [] l lock
  end.

(** ** [lf_setlock] *)

(** The loop that adds the lock once nothing blocks it.  When [needtolink] is
    false, [lock] is already in [pre]. *)
Fixpoint lf_link_loop (fuel : nat) (s : lfstate) (pre block : list lockf) (lock : lockf)
    (needtolink : bool) : run lfstate unit :=
  match fuel with
  | O => NoFuel
  | S fuel =>
      match lf_findoverlap block lock SELF with
      | None => Panic
      | Some (c, passed, ahead) =>
          let pre1 := pre ++ passed in
          let link := if needtolink then [lock] else [] in
          if c =? 0 then Done tt (with_head s (pre1 ++ link ++ ahead))
          else
            match ahead with
            | [] => Panic
            | overlap :: rest =>
                let downgrade := (lf_type lock =? F_RDLCK) && (lf_type overlap =? F_WRLCK) in
                if c =? 1 then
                  let s1 := if downgrade then lf_wakelock s (lf_addr overlap) else s in
                  Done tt (lf_free
                    (with_head s1 (pre1 ++ set_type overlap (lf_type lock) :: rest)) lock)
                else if c =? 2 then
                  if lf_type overlap =? lf_type lock
                  then Done tt (lf_free (with_head s (pre1 ++ overlap :: rest)) lock)
                  else if lf_start overlap =? lf_start lock
                  then Done tt (lf_wakelock (with_head s
                    (pre1 ++ lock :: set_start overlap (off_t (lf_end lock + 1)) :: rest))
                    (lf_addr overlap))
                  else
                    match lf_split s overlap lock with
                    | (SplitFront _, _) => Panic   (* excluded by the test above *)
                    | (SplitBack k1, s1) =>
                        Done tt (lf_wakelock (with_head s1 (pre1 ++ k1 :: lock :: rest))
                                   (lf_addr overlap))
                    | (SplitThree k1 k2, s1) =>
                        Done tt (lf_wakelock (with_head s1 (pre1 ++ k1 :: lock :: k2 :: rest))
                                   (lf_addr overlap))
                    end
                else if c =? 3 then
                  let s1 := if downgrade then lf_wakelock s (lf_addr overlap)
                            else take_waiters s (lf_addr overlap) (lf_addr lock) in
                  lf_link_loop fuel (lf_free s1 overlap) (pre1 ++ link) rest lock false
                else if c =? 4 then
                  lf_link_loop fuel (lf_wakelock s (lf_addr overlap))
                    (pre1 ++ [set_end overlap (off_t (lf_start lock - 1)); lock]) rest lock false
                else Done tt (lf_wakelock (with_head s
                       (pre1 ++ link ++ set_start overlap (off_t (lf_end lock + 1)) :: rest))
                       (lf_addr overlap))
            end
      end
  end.

Definition lf_link (s : lfstate) (lock : lockf) : run lfstate unit :=
  lf_link_loop (S (length (lf_head s))) s [] (lf_head s) lock true.

Section Setlock.
(** What the deadlock check finds for the process an id denotes: [None] when
    it does not sleep in [lf_setlock], otherwise the flags and the id of the
    lock it is blocked on. *)
Context (waits : Z -> option (Z * Z)).

Fixpoint lf_deadlock (depth : nat) (wproc self : Z) : bool :=
  match depth with
  | O => false
  | S depth =>
      match waits wproc with
      | None => false
      | Some (flags, id) =>
          if negb (has flags F_POSIX) then false
          else if id =? self then true
          else lf_deadlock depth id self
      end
  end.

(** Queue [lock] on [block]; and leave that queue after the sleep. *)
Definition lf_enqueue (s : lfstate) (lock block : lockf) : lfstate :=
  LfState (lf_head s)
    (<[lf_addr block := waiters s (lf_addr block) ++ [lf_addr lock]]> (lf_blkhd s))
    (<[lf_addr lock := lf_addr block]> (lf_blocked s))
    (<[lf_addr lock := lock]> (lf_reqs s)) (ui_lockcnt s) (lf_pool s) (lf_woken s).

Definition lf_dequeue (s : lfstate) (lock : lockf) : lfstate :=
  let a := lf_addr lock in
  match lf_blocked s !! a with
  | None => LfState (lf_head s) (lf_blkhd s) (lf_blocked s) (delete a (lf_reqs s))
              (ui_lockcnt s) (lf_pool s) (lf_woken s)
  | Some b =>
      LfState (lf_head s) (<[b := filter (fun w => w <> a) (waiters s b)]> (lf_blkhd s))
        (delete a (lf_blocked s)) (delete a (lf_reqs s))
        (ui_lockcnt s) (lf_pool s) (lf_woken s)
  end.

(** [sched] gives, per sleep, the value of [tsleep] and the state in which
    the process runs again. *)
Fixpoint lf_setlock (sched : list (Z * lfstate)) (s : lfstate) (lock : lockf)
    : run lfstate Z :=
  match getblock s lock with
  | None => Panic
  | Some None =>
      match lf_link s lock with
      | Done _ s' => Done 0 s'
      | Blocked s' => Blocked s'
      | Panic => Panic
      | NoFuel => NoFuel
      end
  | Some (Some block) =>
      if negb (has (lf_flags lock) F_WAIT) then Done EAGAIN (lf_free s lock)
      else if has (lf_flags lock) F_POSIX && has (lf_flags block) F_POSIX &&
              lf_deadlock MAXDEPTH (lf_id block) (lf_id lock)
      then Done EDEADLK (lf_free s lock)
      else
        let cleared :=
          if has (lf_flags lock) F_FLOCK && (lf_type lock =? F_WRLCK)
          then lf_clearlock s (set_type lock F_UNLCK)
          else Done tt s in
        match cleared with
        | Done _ s1 =>
            let s2 := lf_enqueue s1 lock block in
            match sched with
            | [] => Blocked s2
            | (error, s3) :: sched =>
                let s4 := lf_dequeue s3 lock in
                if negb (error =? 0) then Done error (lf_free s4 lock)
                else lf_setlock sched s4 lock
            end
        | Blocked s1 => Blocked s1
        | Panic => Panic
        | NoFuel => NoFuel
        end
  end.

(** ** [lf_advlock] *)

Definition lf_range (size : Z) (fl : flock) : option (Z * Z) :=
  let start :=
    if (l_whence fl =? SEEK_SET) || (l_whence fl =? SEEK_CUR) then Some (l_start fl)
    else if l_whence fl =? SEEK_END then Some (off_t (size + l_start fl))
    else None in
  match start with
  | None => None
  | Some start =>
      if start <? 0 then None
      else if l_len fl =? 0 then Some (start, -1)
      else
        let end_ := off_t (start + l_len fl - 1) in
        if end_ <? start then None else Some (start, end_)
  end.

(** The switch on the operation. *)
Definition lf_advlock_op (sched : list (Z * lfstate)) (s : lfstate) (lock : lockf)
    (op : Z) (fl : flock) : run lfstate (Z * flock) :=
  if op =? F_SETLK then
    match lf_setlock sched s lock with
    | Done e s2 => Done (e, fl) s2
    | Blocked s2 => Blocked s2
    | Panic => Panic
    | NoFuel => NoFuel
    end
  else if op =? F_UNLCK then
    match lf_clearlock s lock with
    | Done _ s2 => Done (0, fl) (lf_free s2 lock)
    | Blocked s2 => Blocked s2
    | Panic => Panic
    | NoFuel => NoFuel
    end
  else if op =? F_GETLK then
    match lf_getlock s lock fl with
    | None => Panic
    | Some fl' => Done (0, fl') (lf_free s lock)
    end
  else Done (EINVAL, fl) (lf_free s lock).

Definition lf_advlock (sched : list (Z * lfstate)) (cr_uid ps_pid : Z) (s : lfstate)
    (size id op : Z) (fl : flock) (flags : Z) : run lfstate (Z * flock) :=
  match lf_range size fl with
  | None => Done (EINVAL, fl) s
  | Some (start, end_) =>
      if (length (lf_head s) =? 0)%nat && negb (op =? F_SETLK)
      then Done (0, Flock (l_start fl) (l_len fl) (l_pid fl) F_UNLCK (l_whence fl)) s
      else
        match lf_alloc s cr_uid (if op =? F_SETLK then 1 else 2) with
        | None => Done (ENOLCK, fl) s
        | Some (a, s1) =>
            lf_advlock_op sched s1
              (Lockf a flags (l_type fl) start end_ id cr_uid
                 (if has flags F_POSIX then ps_pid else -1)) op fl
        end
  end.

End Setlock.
