(* ===== verification/LockfFacts.v ===== *)
(** * Ranges, overlaps and the lock list of sys/kern/vfs_lockf.c

    The search routines [lf_findoverlap] and [lf_getblock], and the algebra
    of replacing an overlapped lock by pieces that the proofs of [lf_setlock]
    and [lf_clearlock] share. *)

From stdpp Require Import base numbers list option gmap sorting.
From Stdlib Require Import ZArith Lia Bool.
From S2P Require Import Prelude Lockf.

(** ** Ranges *)

Definition OFF_MAX : Z := 9223372036854775807.
Definition OFF_INF : Z := 9223372036854775808.

(** The last byte of a lock; the end of file is beyond every offset. *)
Definition hi (k : lockf) : Z := if lf_end k =? -1 then OFF_INF else lf_end k.

Definition covers (k : lockf) (b : Z) : Prop := lf_start k <= b <= hi k.

(** A range that [lf_advlock] accepts; the last offset of all is excluded
    because [lf_end + 1] would overflow. *)
Definition range_ok (k : lockf) : Prop :=
  0 <= lf_start k <= OFF_MAX /\ (lf_end k = -1 \/ lf_start k <= lf_end k < OFF_MAX).

Definition lock_ok (k : lockf) : Prop :=
  range_ok k /\ (lf_type k = F_RDLCK \/ lf_type k = F_WRLCK).

Definition overlaps (k1 k2 : lockf) : Prop :=
  lf_start k1 <= hi k2 /\ lf_start k2 <= hi k1.

#[global] Instance covers_dec k b : Decision (covers k b).
Proof. unfold covers. apply _. Qed.

Lemma range_hi k : range_ok k -> 0 <= lf_start k <= hi k /\ lf_start k <= OFF_MAX.
Proof. unfold range_ok, hi, OFF_MAX, OFF_INF. cmp_cases. Qed.

Lemma hi_end k : range_ok k ->
  (lf_end k = -1 /\ hi k = OFF_INF) \/
  (lf_end k <> -1 /\ hi k = lf_end k /\ lf_start k <= hi k < OFF_MAX).
Proof. unfold range_ok, hi, OFF_MAX. cmp_cases. Qed.

Lemma off_t_id x : - OFF_INF <= x <= OFF_MAX -> off_t x = x.
Proof.
  unfold off_t, sint, OFF_INF, OFF_MAX. intros Hx.
  change (2 ^ 64) with 18446744073709551616. change (2 ^ (64 - 1)) with 9223372036854775808.
  cbv zeta. destruct (decide (0 <= x)).
  - rewrite Z.mod_small by lia. cmp_cases.
  - replace (x `mod` 18446744073709551616) with (x + 18446744073709551616).
    + cmp_cases.
    + apply Z.mod_unique with (-1); lia.
Qed.

(** The relation behind each case number. *)
Inductive case_spec (k L : lockf) : option Z -> Prop :=
| case0 : hi k < lf_start L \/ hi L < lf_start k -> case_spec k L (Some 0)
| case1 : lf_start k = lf_start L -> hi k = hi L -> lf_end k = lf_end L ->
    case_spec k L (Some 1)
| case2 : lf_start k <= lf_start L -> hi L <= hi k ->
    ~ (lf_start k = lf_start L /\ hi k = hi L) -> case_spec k L (Some 2)
| case3 : lf_start L <= lf_start k -> hi k <= hi L -> case_spec k L (Some 3)
| case4 : lf_start k < lf_start L -> lf_start L <= hi k -> hi k < hi L ->
    case_spec k L (Some 4)
| case5 : lf_start L < lf_start k -> lf_start k <= hi L -> hi L < hi k ->
    case_spec k L (Some 5).

Lemma overlap_case_spec k L : range_ok k -> range_ok L -> case_spec k L (overlap_case k L).
Proof.
  intros Hk HL. unfold overlap_case. pose proof (range_hi k Hk). pose proof (range_hi L HL).
  destruct (hi_end k Hk) as [[Ek Hhk]|(Ek & Hhk & ?)],
    (hi_end L HL) as [[EL HhL]|(EL & HhL & ?)]; unfold OFF_INF, OFF_MAX in *;
    repeat (step_if; [first [by exfalso; lia|idtac]|first [by exfalso; lia|idtac]]);
    first [apply case0; lia | apply case1; lia | apply case2; lia | apply case3; lia
          |apply case4; lia | apply case5; lia].
Qed.

(** ** [lf_findoverlap] *)

Lemma find_self l L :
  Forall range_ok l -> range_ok L ->
  exists c passed ahead,
    lf_findoverlap l L SELF = Some (c, passed, ahead) /\ l = passed ++ ahead /\
    (forall k, k ∈ passed -> lf_id k = lf_id L -> hi k < lf_start L) /\
    match ahead with
    | [] => c = 0
    | k :: _ => lf_id k = lf_id L /\ overlap_case k L = Some c /\ (c = 0 -> hi L < lf_start k)
    end.
Proof.
  intros Hl HL. induction Hl as [|k l Hk Hl IH].
  { exists 0, [], []. split_and!; try done. set_solver. }
  destruct IH as (c & passed & ahead & E & -> & Hp & Ha). simpl. rewrite E.
  change (has SELF SELF) with true. change (has SELF OTHERS) with false. simpl.
  rewrite orb_false_r.
  assert ((lf_id k = lf_id L -> hi k < lf_start L) ->
    exists c0 passed0 ahead0, Some (c, k :: passed, ahead) = Some (c0, passed0, ahead0) /\
    k :: passed ++ ahead = passed0 ++ ahead0 /\
    (forall k0, k0 ∈ passed0 -> lf_id k0 = lf_id L -> hi k0 < lf_start L) /\
    match ahead0 with
    | [] => c0 = 0
    | k :: _ => lf_id k = lf_id L /\ overlap_case k L = Some c0 /\ (c0 = 0 -> hi L < lf_start k)
    end) as Hskip.
  { intros Hbefore. exists c, (k :: passed), ahead. split_and!; try done.
    intros k0 [->|Hin]%elem_of_cons; auto. }
  destruct (Z.eqb_spec (lf_id k) (lf_id L)) as [Eid|Eid]; simpl; [|apply Hskip; done].
  pose proof (overlap_case_spec k L Hk HL) as Hc. pose proof (range_hi L HL).
  destruct (overlap_case k L) as [c0|] eqn:Ec; [|inversion Hc].
  destruct (Z.eqb_spec c0 0) as [->|Hne].
  - inversion Hc as [Hd| | | | |]. destruct (hi_end L HL) as [[EL HhL]|(EL & HhL & ?)].
    + rewrite EL. simpl. apply Hskip. intros _. pose proof (range_hi k Hk).
      unfold OFF_INF, OFF_MAX in *. lia.
    + replace (lf_end L =? -1) with false by lia. simpl. rewrite Z.gtb_ltb.
      destruct (Z.ltb_spec (lf_end L) (lf_start k)).
      * exists 0, [], (k :: passed ++ ahead). split_and!; try done; [set_solver|lia].
      * apply Hskip. intros _. lia.
  - exists c0, [], (k :: passed ++ ahead). split_and!; try done. set_solver.
Qed.

Lemma find_others l L :
  Forall range_ok l -> range_ok L ->
  exists c passed ahead,
    lf_findoverlap l L OTHERS = Some (c, passed, ahead) /\ l = passed ++ ahead /\
    (forall k, k ∈ passed -> lf_id k <> lf_id L -> ~ overlaps k L) /\
    match ahead with
    | [] => c = 0
    | k :: _ => lf_id k <> lf_id L /\ overlaps k L /\ c <> 0
    end.
Proof.
  intros Hl HL. induction Hl as [|k l Hk Hl IH].
  { exists 0, [], []. split_and!; try done. set_solver. }
  destruct IH as (c & passed & ahead & E & -> & Hp & Ha). simpl. rewrite E.
  change (has OTHERS SELF) with false. change (has OTHERS OTHERS) with true. simpl.
  pose proof (overlap_case_spec k L Hk HL) as Hc.
  pose proof (range_hi L HL). pose proof (range_hi k Hk).
  destruct (Z.eqb_spec (lf_id k) (lf_id L)) as [Eid|Eid]; simpl.
  { exists c, (k :: passed), ahead. split_and!; try done.
    intros k0 [->|Hin]%elem_of_cons; auto. }
  destruct (overlap_case k L) as [c0|] eqn:Ec; [|inversion Hc].
  destruct (Z.eqb_spec c0 0) as [->|Hne].
  - exists c, (k :: passed), ahead. split_and!; try done.
    inversion Hc. intros k0 [->|Hin]%elem_of_cons; auto. unfold overlaps. lia.
  - exists c0, [], (k :: passed ++ ahead). split_and!; try done; [set_solver|..].
    all: inversion Hc; subst; try done; unfold overlaps; lia.
Qed.

(** ** [lf_getblock] *)

(** [k] blocks the request [r]. *)
Definition blocks (k r : lockf) : Prop :=
  lf_id k <> lf_id r /\ overlaps k r /\ (lf_type r = F_WRLCK \/ lf_type k = F_WRLCK).

Lemma getblock_spec fuel l L :
  Forall range_ok l -> range_ok L -> (length l < fuel)%nat ->
  exists r, lf_getblock fuel l L = Some r /\
    match r with
    | None => forall k, k ∈ l -> ~ blocks k L
    | Some b => exists l1 l2, l = l1 ++ b :: l2 /\ blocks b L /\
                  forall k, k ∈ l1 -> ~ blocks k L
    end.
Proof.
  revert l. induction fuel as [|fuel IH]; intros l Hl HL Hf; [lia|]. simpl.
  destruct (find_others l L Hl HL) as (c & passed & ahead & -> & -> & Hp & Ha).
  assert (forall k, k ∈ passed -> ~ blocks k L) as Hnb.
  { intros k Hin (Hid & Hov & _). by apply (Hp k Hin Hid). }
  destruct ahead as [|k rest].
  { subst c. simpl. exists None. split; [done|]. rewrite app_nil_r. done. }
  destruct Ha as (Hid & Hov & Hc). replace (c =? 0) with false by lia.
  destruct ((lf_type L =? F_WRLCK) || (lf_type k =? F_WRLCK)) eqn:Et.
  { exists (Some k). split; [done|]. exists passed, rest. split; [done|]. split; [|done].
    split; [done|]. split; [done|]. apply orb_true_iff in Et as [E|E]; bool_to_prop; auto. }
  bool_to_prop. apply Forall_app in Hl as [Hl1 Hl2]. apply Forall_inv_tail in Hl2.
  rewrite length_app in Hf. simpl in Hf.
  destruct (IH rest Hl2 HL ltac:(lia)) as (r & -> & Hr). exists r. split; [done|].
  assert (forall k', k' ∈ passed ++ [k] -> ~ blocks k' L) as Hnb'.
  { intros k' [Hin|E%list_elem_of_singleton]%elem_of_app; [by apply Hnb|]. subst k'.
    intros (_ & _ & [?|?]); lia. }
  destruct r as [b|].
  - destruct Hr as (l1 & l2 & -> & Hb & Hl1'). exists (passed ++ k :: l1), l2.
    split; [by rewrite <- app_assoc|]. split; [done|]. intros k' Hk'.
    rewrite cons_middle, app_assoc in Hk'. apply elem_of_app in Hk' as [?|?]; auto.
  - intros k' Hk'. rewrite cons_middle, app_assoc in Hk'.
    apply elem_of_app in Hk' as [?|?]; auto.
Qed.
