(* ===== verification/LockfList.v ===== *)
(** * The lock list as a map from bytes to locks

    Shared by the proofs of [lf_setlock] and [lf_clearlock]: what the list
    says about each byte, the effect of replacing an overlapped lock by
    pieces, the consistency of the wait queues and the count of structures
    per user. *)

From stdpp Require Import base numbers list option gmap sorting.
From Stdlib Require Import ZArith Lia Bool.
From S2P Require Import Prelude Lockf LockfFacts.

#[local] Set Warnings "-clear-no-such-hyp".

(** ** Order and contents *)

(** Locks of one owner are disjoint and in the order of their offsets. *)
Definition order (k1 k2 : lockf) : Prop := lf_id k1 = lf_id k2 -> hi k1 < lf_start k2.
Definition sorted (l : list lockf) : Prop := StronglySorted order l.

(** Owner [id] holds a lock of type [t] on byte [b]. *)
Definition holds (l : list lockf) (id b t : Z) : Prop :=
  exists k, k ∈ l /\ lf_id k = id /\ lf_type k = t /\ covers k b.

(** Two owners never hold conflicting locks on a byte. *)
Definition no_conflict (l : list lockf) : Prop :=
  forall id1 id2 b t1 t2, id1 <> id2 -> holds l id1 b t1 -> holds l id2 b t2 ->
    t1 = F_RDLCK /\ t2 = F_RDLCK.

Definition piece (k' k : lockf) : Prop :=
  lf_id k' = lf_id k /\ lf_type k' = lf_type k /\ lf_start k <= lf_start k' /\ hi k' <= hi k.

Lemma piece_refl k : piece k k.
Proof. unfold piece. lia. Qed.

(** What is left of [rest] once the part of the owner of [L] up to the end of
    [L] is taken out. *)
Record trimmed (L : lockf) (rest T : list lockf) : Prop := {
  tr_sorted : sorted T;
  tr_ok : Forall lock_ok T;
  tr_piece : forall k', k' ∈ T -> exists k, k ∈ rest /\ piece k' k /\
    (lf_id k' = lf_id L -> hi L < lf_start k');
  tr_kept : forall k b, k ∈ rest -> covers k b -> (lf_id k = lf_id L -> hi L < b) ->
    exists k', k' ∈ T /\ piece k' k /\ covers k' b;
  tr_others : forall k, lf_id k <> lf_id L -> k ∈ T <-> k ∈ rest
}.

Lemma trimmed_id L rest :
  sorted rest -> Forall lock_ok rest ->
  (forall k, k ∈ rest -> lf_id k = lf_id L -> hi L < lf_start k) -> trimmed L rest rest.
Proof.
  intros Hs Hok Ha. split; try done.
  - intros k' Hk'. exists k'. split; [done|]. split; [apply piece_refl|auto].
  - intros k b Hk Hb _. exists k. split; [done|]. split; [apply piece_refl|done].
Qed.

Lemma trimmed_skip L passed rest T :
  (forall k, k ∈ passed -> lf_id k <> lf_id L) ->
  sorted (passed ++ rest) -> Forall lock_ok passed -> trimmed L rest T ->
  trimmed L (passed ++ rest) (passed ++ T).
Proof.
  intros Hp Hs Hok [Ts Tok Tp Tk To]. apply StronglySorted_app in Hs as (Hc & Hs1 & _). split.
  - apply StronglySorted_app. split; [|done]. intros k1 k' H1 H'.
    destruct (Tp k' H') as (k & Hk & (Hid & _ & Hst & _) & _). intros E.
    specialize (Hc k1 k H1 Hk ltac:(congruence)). lia.
  - by apply Forall_app.
  - intros k' [H'|H']%elem_of_app.
    + exists k'. split; [set_solver|]. split; [apply piece_refl|]. intros E. by destruct (Hp k' H').
    + destruct (Tp k' H') as (k & Hk & ?). exists k. split; [set_solver|done].
  - intros k b [Hk|Hk]%elem_of_app Hb Hl.
    + exists k. split; [set_solver|]. split; [apply piece_refl|done].
    + destruct (Tk k b Hk Hb Hl) as (k' & H' & ?). exists k'. split; [set_solver|done].
  - intros k Hk. specialize (To k Hk). set_solver.
Qed.

Lemma trimmed_gone L ov rest T :
  lf_id ov = lf_id L -> hi ov <= hi L -> trimmed L rest T -> trimmed L (ov :: rest) T.
Proof.
  intros Hid Hhi [Ts Tok Tp Tk To]. split; try done.
  - intros k' H'. destruct (Tp k' H') as (k & Hk & ?). exists k. split; [set_solver|done].
  - intros k b [->|Hk]%elem_of_cons Hb Hl; [|by apply Tk].
    specialize (Hl Hid). unfold covers in Hb. lia.
  - intros k Hk. rewrite To, elem_of_cons by done. split; [by right|]. by intros [->|?].
Qed.

Lemma cut_front ov L :
  lock_ok ov -> range_ok L -> hi L < hi ov ->
  let ov' := set_start ov (off_t (lf_end L + 1)) in
  lock_ok ov' /\ hi ov' = hi ov /\ lf_start ov' = hi L + 1.
Proof.
  intros [Ho Ht] HL Hlt. pose proof (range_hi ov Ho). pose proof (range_hi L HL). simpl.
  destruct (hi_end L HL) as [[EL HhL]|(EL & HhL & Hr)].
  { destruct (hi_end ov Ho) as [[? ?]|(? & ? & ?)]; unfold OFF_INF, OFF_MAX in *; lia. }
  rewrite off_t_id by (unfold OFF_INF, OFF_MAX in *; lia).
  split; [|split; [done|lia]]. split; [|done]. unfold range_ok, OFF_MAX in *. simpl.
  destruct (hi_end ov Ho) as [[? ?]|(? & ? & ?)]; lia.
Qed.

Lemma cut_back ov L :
  lock_ok ov -> range_ok L -> lf_start ov < lf_start L ->
  let ov' := set_end ov (off_t (lf_start L - 1)) in
  lock_ok ov' /\ hi ov' = lf_start L - 1 /\ lf_start ov' = lf_start ov.
Proof.
  intros [Ho Ht] HL Hlt. pose proof (range_hi ov Ho). pose proof (range_hi L HL). simpl.
  rewrite off_t_id by (unfold OFF_INF, OFF_MAX in *; lia).
  assert (hi (set_end ov (lf_start L - 1)) = lf_start L - 1) as E.
  { unfold hi. simpl. replace (lf_start L - 1 =? -1) with false by lia. done. }
  split; [|done]. split; [|done]. unfold range_ok, OFF_MAX in *. simpl. lia.
Qed.

Lemma trimmed_cut L ov rest :
  lf_id ov = lf_id L -> sorted (ov :: rest) -> Forall lock_ok (ov :: rest) -> range_ok L ->
  lf_start ov <= hi L -> hi L < hi ov ->
  trimmed L (ov :: rest) (set_start ov (off_t (lf_end L + 1)) :: rest).
Proof.
  intros Hid Hs Hok HL Hst Hhi. inversion_clear Hs as [|? ? Hs' Hc].
  inversion_clear Hok as [|? ? Hov Hok'].
  destruct (cut_front ov L Hov HL Hhi) as (Hok & Eh & Es). rewrite Forall_forall in Hc.
  set (ov' := set_start ov (off_t (lf_end L + 1))) in *.
  assert (forall k, k ∈ rest -> lf_id k = lf_id L -> hi L < lf_start k) as Hr.
  { intros k Hk Ek. specialize (Hc k Hk ltac:(congruence)). lia. }
  assert (piece ov' ov) as Hp by (split_and!; [done|done|lia|lia]).
  split.
  - constructor; [done|]. rewrite Forall_forall. intros k Hk E. rewrite Eh. by apply Hc.
  - by constructor.
  - intros k' [->|H']%elem_of_cons.
    + exists ov. split; [set_solver|]. split; [done|]. lia.
    + exists k'. split; [set_solver|]. split; [apply piece_refl|auto].
  - intros k b [->|Hk]%elem_of_cons Hb Hl.
    + exists ov'. split; [set_solver|]. split; [done|]. specialize (Hl Hid).
      unfold covers in *. lia.
    + exists k. split; [set_solver|]. split; [apply piece_refl|done].
  - intros k Hk. rewrite !elem_of_cons. split; (intros [->|?]; [done|by right]).
Qed.

(** ** Replacing the overlapped locks [D] by [M] *)

(** The list [F] holds [newt] for the owner of [L] on the bytes of [L], and
    what [l] held elsewhere; the locks of other owners are the same. *)
Definition updated (L : lockf) (newt : option Z) (l F : list lockf) : Prop :=
  sorted F /\ Forall lock_ok F /\
  (forall k, lf_id k <> lf_id L -> k ∈ F <-> k ∈ l) /\
  forall id b t, holds F id b t <->
    (if decide (id = lf_id L /\ covers L b) then newt = Some t else holds l id b t).

Lemma splice L newt A0 D rest M T :
  sorted (A0 ++ D ++ rest) -> Forall lock_ok A0 -> range_ok L ->
  (forall k, k ∈ A0 -> lf_id k = lf_id L -> hi k < lf_start L) ->
  (forall d, d ∈ D -> lf_id d = lf_id L) ->
  (forall k, k ∈ rest -> lf_id k = lf_id L -> lf_start L < lf_start k) ->
  sorted M ->
  (forall m, m ∈ M -> lf_id m = lf_id L /\ lock_ok m /\
     (lf_start L <= lf_start m \/ exists d, d ∈ D /\ lf_start d <= lf_start m) /\
     (hi m <= hi L \/ exists d, d ∈ D /\ hi m <= hi d)) ->
  (forall m b, m ∈ M -> covers m b ->
     if decide (covers L b) then newt = Some (lf_type m)
     else exists d, d ∈ D /\ covers d b /\ lf_type d = lf_type m) ->
  (forall b t, covers L b -> newt = Some t -> exists m, m ∈ M /\ lf_type m = t /\ covers m b) ->
  (forall d b, d ∈ D -> covers d b -> ~ covers L b ->
     exists m, m ∈ M /\ lf_type m = lf_type d /\ covers m b) ->
  trimmed L rest T ->
  updated L newt (A0 ++ D ++ rest) (A0 ++ M ++ T).
Proof.
  intros Hs HokA HL HA HD Hrest HsM HM S1 S2 S3 [Ts Tok Tp Tk To].
  apply StronglySorted_app in Hs as (HcA & HsA & Hs).
  apply StronglySorted_app in Hs as (HcD & HsD & HsR). split; [|split; [|split]].
  - apply StronglySorted_app. split; [|split; [done|apply StronglySorted_app; split; [|done]]].
    + intros k1 k2 H1 [H2|H2]%elem_of_app E.
      * destruct (HM k2 H2) as (Hid & _ & [Hl|(d & Hd & Hl)] & _).
        -- specialize (HA k1 H1 ltac:(congruence)). lia.
        -- specialize (HcA k1 d H1 ltac:(set_solver)). specialize (HD d Hd).
           specialize (HcA ltac:(congruence)). lia.
      * destruct (Tp k2 H2) as (k & Hk & (Hid & _ & Hst & _) & _).
        specialize (HcA k1 k H1 ltac:(set_solver) ltac:(congruence)). lia.
    + intros m k2 Hm H2 E. destruct (HM m Hm) as (Hid & _ & _ & Hhi).
      destruct (Tp k2 H2) as (k & Hk & (Hid2 & _ & Hst & _) & Hl).
      specialize (Hl ltac:(congruence)). destruct Hhi as [Hh|(d & Hd & Hh)]; [lia|].
      specialize (HD d Hd). specialize (HcD d k Hd Hk ltac:(congruence)). lia.
  - apply Forall_app. split; [done|]. apply Forall_app. split; [|done].
    apply Forall_forall. intros m Hm. by destruct (HM m Hm) as (_ & ? & _).
  - intros k Hk. rewrite !elem_of_app, (To k Hk).
    split; (intros [?|[Hin|?]]; [by auto| |by auto]).
    + by destruct (HM k Hin).
    + by destruct (Hk (HD k Hin)).
  - intros id b t. split.
    + intros (k' & [H'|[H'|H']%elem_of_app]%elem_of_app & <- & <- & Hb).
      * rewrite decide_False; [exists k'; set_solver|]. intros [E Hc]. specialize (HA k' H' E).
        unfold covers in *. lia.
      * destruct (HM k' H') as (Hid & _). specialize (S1 k' b H' Hb).
        destruct (decide (covers L b)); [by rewrite decide_True|].
        rewrite decide_False by tauto. destruct S1 as (d & Hd & Hdb & Et).
        exists d. split; [set_solver|]. split; [rewrite Hid; auto|done].
      * destruct (Tp k' H') as (k & Hk & (Hid & Ht & Hst & Hh) & Hl).
        rewrite decide_False.
        -- exists k. split; [set_solver|]. unfold covers in *. split_and!; try done; lia.
        -- intros [E Hc]. specialize (Hl E). unfold covers in *. lia.
    + destruct (decide _) as [[-> Hc]|Hn].
      * intros E. destruct (S2 b t Hc E) as (m & Hm & Et & Hb). exists m.
        destruct (HM m Hm) as (? & _). split; [set_solver|done].
      * intros (k & [Hk|[Hk|Hk]%elem_of_app]%elem_of_app & <- & <- & Hb).
        -- exists k. set_solver.
        -- specialize (HD k Hk). destruct (S3 k b Hk Hb ltac:(tauto)) as (m & Hm & Et & Hmb).
           exists m. destruct (HM m Hm) as (? & _). split; [set_solver|].
           split; [congruence|done].
        -- destruct (Tk k b Hk Hb) as (k' & H' & (Hid & Ht & _) & Hb').
           { intros E. specialize (Hrest k Hk E). unfold covers in *. pose proof (range_hi L HL).
             destruct (decide (b <= hi L)); [|lia]. exfalso. apply Hn. split; [done|lia]. }
           exists k'. split; [set_solver|done].
Qed.

(** ** Wait queues *)

(** Every sleeping request is queued on a lock of the list that blocks it. *)
Definition waits_ok (s : lfstate) (l : list lockf) : Prop :=
  NoDup (lf_addr <$> l) /\ (forall k, k ∈ l -> lf_addr k < lf_pool s) /\
  (forall a w, w ∈ waiters s a <-> lf_blocked s !! w = Some a) /\
  (forall w a, lf_blocked s !! w = Some a ->
     exists k r, k ∈ l /\ lf_addr k = a /\ lf_reqs s !! w = Some r /\ blocks k r).

Lemma foldr_delete_lookup (ws : list Z) (m : gmap Z Z) (w : Z) :
  foldr (fun w m => delete w m) m ws !! w = if decide (w ∈ ws) then None else m !! w.
Proof.
  induction ws as [|x ws IH]; simpl; [done|].
  destruct (decide (w = x)) as [->|Hne].
  - rewrite lookup_delete_eq. rewrite decide_True by set_solver. done.
  - rewrite lookup_delete_ne, IH by done.
    destruct (decide (w ∈ ws)); [rewrite decide_True by set_solver|rewrite decide_False by set_solver];
      done.
Qed.

Lemma foldr_insert_lookup (ws : list Z) (m : gmap Z Z) (b w : Z) :
  foldr (fun w m => <[w := b]> m) m ws !! w = if decide (w ∈ ws) then Some b else m !! w.
Proof.
  induction ws as [|x ws IH]; simpl; [done|].
  destruct (decide (w = x)) as [->|Hne].
  - rewrite lookup_insert_eq. rewrite decide_True by set_solver. done.
  - rewrite lookup_insert_ne, IH by done.
    destruct (decide (w ∈ ws)); [rewrite decide_True by set_solver|rewrite decide_False by set_solver];
      done.
Qed.

Lemma waiters_wake s a b :
  waiters (lf_wakelock s a) b = if decide (b = a) then [] else waiters s b.
Proof.
  unfold waiters, lf_wakelock. simpl. destruct (decide (b = a)) as [->|].
  - by rewrite lookup_insert_eq.
  - by rewrite lookup_insert_ne.
Qed.

Lemma waiters_take s a b c :
  a <> b -> waiters (take_waiters s a b) c =
    if decide (c = b) then waiters s b ++ waiters s a
    else if decide (c = a) then [] else waiters s c.
Proof.
  intros Hne. unfold waiters, take_waiters. simpl. destruct (decide (c = b)) as [->|].
  - by rewrite lookup_insert_eq.
  - rewrite lookup_insert_ne by done. destruct (decide (c = a)) as [->|].
    + by rewrite lookup_insert_eq.
    + by rewrite lookup_insert_ne.
Qed.

Lemma waits_wake s A k B M :
  waits_ok s (A ++ k :: B) -> NoDup (lf_addr <$> (A ++ M ++ B)) ->
  (forall m, m ∈ M -> lf_addr m < lf_pool s) ->
  waits_ok (lf_wakelock s (lf_addr k)) (A ++ M ++ B).
Proof.
  intros (Hnd & Hp & Hq & Hb) Hnd' HM. split; [done|]. split; [|split].
  - simpl. intros k0 [H0|[H0|H0]%elem_of_app]%elem_of_app; auto; apply Hp; set_solver.
  - intros a w. rewrite waiters_wake. simpl. rewrite foldr_delete_lookup.
    pose proof (Hq (lf_addr k) w) as Hk. pose proof (Hq a w) as Ha.
    destruct (decide (a = lf_addr k)) as [->|Hne]; destruct (decide (w ∈ _)); set_solver.
  - intros w a. simpl. rewrite foldr_delete_lookup.
    destruct (decide (w ∈ _)) as [|Hn]; [done|]. intros Hw.
    destruct (Hb w a Hw) as (k0 & r & Hin & Ea & Hr & Hbl). exists k0, r. split; [|done].
    assert (k0 <> k) by (intros ->; apply Hn, Hq; congruence). set_solver.
Qed.

Lemma waits_keep s A D B M :
  waits_ok s (A ++ D ++ B) -> NoDup (lf_addr <$> (A ++ M ++ B)) ->
  (forall m, m ∈ M -> lf_addr m < lf_pool s) ->
  (forall d, d ∈ D -> exists m, m ∈ M /\ lf_addr m = lf_addr d /\
     forall r, blocks d r -> blocks m r) ->
  waits_ok s (A ++ M ++ B).
Proof.
  intros (Hnd & Hp & Hq & Hb) Hnd' HM HD. split; [done|]. split; [|split; [done|]].
  - intros k0 [H0|[H0|H0]%elem_of_app]%elem_of_app; auto; apply Hp; set_solver.
  - intros w a Hw. destruct (Hb w a Hw) as (k0 & r & [H0|[H0|H0]%elem_of_app]%elem_of_app & <- & Hr & Hbl).
    + exists k0, r. set_solver.
    + destruct (HD k0 H0) as (m & Hm & Ea & Hbm). exists m, r. split; [set_solver|]. auto.
    + exists k0, r. set_solver.
Qed.

Lemma waits_take s A k B L :
  waits_ok s (A ++ k :: B) -> L ∈ A -> (forall r, blocks k r -> blocks L r) ->
  waits_ok (take_waiters s (lf_addr k) (lf_addr L)) (A ++ B).
Proof.
  intros (Hnd & Hp & Hq & Hb) HL Hbl.
  rewrite fmap_app, fmap_cons, NoDup_app in Hnd. destruct Hnd as (HA & Hx & HB).
  inversion_clear HB as [|? ? Hk HB'].
  assert (lf_addr k <> lf_addr L) as Hne.
  { intros E. apply (Hx (lf_addr L)); [by apply list_elem_of_fmap_2|rewrite E; set_solver]. }
  split; [|split; [|split]].
  - rewrite fmap_app, NoDup_app. split; [done|]. split; [|done]. intros x H1 H2.
    apply (Hx x H1). set_solver.
  - simpl. intros k0 [H0|H0]%elem_of_app; apply Hp; set_solver.
  - intros a w. rewrite waiters_take by done. simpl. rewrite foldr_insert_lookup.
    pose proof (Hq (lf_addr k) w) as H1. pose proof (Hq (lf_addr L) w) as H2.
    pose proof (Hq a w) as H3.
    destruct (decide (a = lf_addr L)) as [->|]; [|destruct (decide (a = lf_addr k)) as [->|]];
      destruct (decide (w ∈ _)); set_solver.
  - intros w a. simpl. rewrite foldr_insert_lookup. destruct (decide (w ∈ _)) as [Hin|Hn].
    + intros [= <-]. apply Hq in Hin. destruct (Hb w _ Hin) as (k0 & r & H0 & Ea & Hr & Hb0).
      exists L, r. split; [set_solver|]. split; [done|]. split; [done|]. apply Hbl.
      replace k with k0; [done|]. apply elem_of_app in H0 as [H0|[H0|H0]%elem_of_cons]; [|done|].
      * exfalso. apply (Hx (lf_addr k0)); [by apply list_elem_of_fmap_2|rewrite Ea; set_solver].
      * exfalso. apply Hk. rewrite <- Ea. by apply list_elem_of_fmap_2.
    + intros Hw. destruct (Hb w a Hw) as (k0 & r & Hin & Ea & Hr & Hb0). exists k0, r.
      split; [|done]. assert (k0 <> k) by (intros ->; apply Hn, Hq; congruence). set_solver.
Qed.

(** ** Structures per user *)

Fixpoint ucount (u : Z) (l : list lockf) : Z :=
  match l with
  | [] => 0
  | k :: l => (if u =? lf_uid k then 1 else 0) + ucount u l
  end.

Lemma ucount_app u l1 l2 : ucount u (l1 ++ l2) = ucount u l1 + ucount u l2.
Proof. induction l1; simpl; lia. Qed.
