(* ===== verification/LockfOps.v ===== *)
(** * Correctness of [lf_setlock] and [lf_clearlock] (sys/kern/vfs_lockf.c) *)

From stdpp Require Import base numbers list option gmap sorting.
From Stdlib Require Import ZArith Lia Bool.
From S2P Require Import Prelude Lockf LockfFacts LockfList.

#[local] Set Warnings "-clear-no-such-hyp".

(** ** One step of either loop past the first overlap *)

Lemma ok_ranges l : Forall lock_ok l -> Forall range_ok l.
Proof. intros H. apply (Forall_impl _ _ _ H). by intros k [? _]. Qed.

(** Beyond the start of [L], the first own lock ahead is after [L], inside it,
    or ends after it. *)
Lemma find_beyond L rest :
  range_ok L -> Forall lock_ok rest -> sorted rest ->
  (forall k, k ∈ rest -> lf_id k = lf_id L -> lf_start L < lf_start k) ->
  exists c passed ahead,
    lf_findoverlap rest L SELF = Some (c, passed, ahead) /\ rest = passed ++ ahead /\
    (forall k, k ∈ passed -> lf_id k <> lf_id L) /\
    match ahead with
    | [] => c = 0
    | ov :: _ => lf_id ov = lf_id L /\
        ((c = 0 /\ hi L < lf_start ov) \/ (c = 3 /\ hi ov <= hi L) \/
         (c = 5 /\ lf_start ov <= hi L /\ hi L < hi ov))
    end.
Proof.
  intros HL Hok Hs Hst. destruct (find_self rest L (ok_ranges _ Hok) HL)
    as (c & passed & ahead & E & -> & Hp & Ha). exists c, passed, ahead.
  rewrite Forall_app in Hok. destruct Hok as [Hok1 Hok2]. split; [done|]. split; [done|]. split.
  - intros k Hk Eid. specialize (Hp k Hk Eid). specialize (Hst k ltac:(set_solver) Eid).
    rewrite Forall_forall in Hok1. destruct (Hok1 k Hk) as [Hr _]. pose proof (range_hi k Hr). lia.
  - destruct ahead as [|ov rest']; [done|]. destruct Ha as (Eid & Ec & H0). split; [done|].
    inversion Hok2 as [|? ? [Hr _] _]. subst.
    pose proof (overlap_case_spec ov L Hr HL) as Hc. rewrite Ec in Hc.
    specialize (Hst ov ltac:(set_solver) Eid).
    inversion Hc; subst; lia.
Qed.

Lemma sorted_tail A k B :
  sorted (A ++ k :: B) -> sorted B /\ sorted (k :: B) /\
  forall k', k' ∈ B -> lf_id k = lf_id k' -> hi k < lf_start k'.
Proof.
  intros Hs. apply StronglySorted_app in Hs as (_ & _ & Hs). split; [|split; [done|]].
  - by inversion Hs.
  - inversion Hs as [|? ? _ Hc]. rewrite Forall_forall in Hc. intros. by apply Hc.
Qed.

Lemma nodup_drop A k B :
  NoDup (lf_addr <$> (A ++ k :: B)) -> NoDup (lf_addr <$> (A ++ B)).
Proof.
  rewrite !fmap_app, fmap_cons, !NoDup_app, NoDup_cons. intros (HA & Hx & Hk & HB).
  split_and!; try done. intros x H1 H2. apply (Hx x H1). set_solver.
Qed.

Lemma nodup_same A k k' B :
  lf_addr k' = lf_addr k ->
  NoDup (lf_addr <$> (A ++ k :: B)) -> NoDup (lf_addr <$> (A ++ k' :: B)).
Proof. intros E. by rewrite !fmap_app, !fmap_cons, E. Qed.

(** Wake the waiters of a lock and change it, or take it out. *)
Lemma waits_wake_same s A k k' B :
  lf_addr k' = lf_addr k -> waits_ok s (A ++ k :: B) ->
  waits_ok (lf_wakelock s (lf_addr k)) (A ++ k' :: B).
Proof.
  intros E Hw. apply (waits_wake s A k B [k']); [done| |].
  - apply (nodup_same A k k' B E), Hw.
  - intros m Em%list_elem_of_singleton. rewrite Em, E. apply Hw. set_solver.
Qed.

Lemma waits_wake_gone s A k B :
  waits_ok s (A ++ k :: B) -> waits_ok (lf_wakelock s (lf_addr k)) (A ++ B).
Proof.
  intros Hw. apply (waits_wake s A k B []); [done| |set_solver].
  apply (nodup_drop A k B), Hw.
Qed.

(** ** [lf_clearlock] *)

(** The count of structures of user [u] that are not in the list. *)
Definition loose (s : lfstate) (l : list lockf) (u : Z) : Z := ui_lockcnt s u - ucount u l.

Lemma loose_free s k u :
  ui_lockcnt (lf_free s k) u = ui_lockcnt s u - (if u =? lf_uid k then 1 else 0).
Proof. unfold lf_free. simpl. unfold add_count. destruct (u =? lf_uid k); lia. Qed.

Lemma clear_beyond fuel s pre rest L :
  (length rest < fuel)%nat -> range_ok L -> Forall lock_ok rest -> sorted rest ->
  (forall k, k ∈ rest -> lf_id k = lf_id L -> lf_start L < lf_start k) ->
  waits_ok s (pre ++ rest) ->
  exists s' T, lf_clearlock_loop fuel s pre rest L = Done tt s' /\ lf_head s' = pre ++ T /\
    trimmed L rest T /\ waits_ok s' (pre ++ T) /\
    lf_reqs s' = lf_reqs s /\ forall u, loose s' T u = loose s rest u.
Proof.
  revert s pre rest. induction fuel as [|fuel IH]; intros s pre rest Hf HL Hok Hs Hst Hw; [lia|].
  destruct (find_beyond L rest HL Hok Hs Hst) as (c & passed & ahead & E & -> & Hp & Ha).
  cbn [lf_clearlock_loop]. rewrite E. rewrite Forall_app in Hok. destruct Hok as [Hok1 Hok2].
  destruct ahead as [|ov rest'].
  { exists (with_head s (pre ++ passed)), passed. rewrite app_nil_r in *.
    split; [done|]. split; [done|]. split; [|done]. apply trimmed_id; try done.
    intros k Hk Ek. by destruct (Hp k Hk). }
  destruct Ha as [Eid Hcase]. destruct (sorted_tail _ _ _ Hs) as (Hs' & Hs'' & Hnext).
  inversion Hok2 as [|? ? Hov Hok']. subst. rewrite length_app in Hf. simpl in Hf.
  destruct Hcase as [[-> Hlt]|[[-> Hle]|(-> & Hst1 & Hlt)]]; simpl.
  - eexists _, (passed ++ ov :: rest'). rewrite app_assoc. split; [done|]. split; [done|].
    rewrite app_assoc in Hw. split; [|done]. apply trimmed_skip; try done.
    apply trimmed_id; try done. intros k [->|Hk]%elem_of_cons Ek; [lia|].
    specialize (Hnext k Hk ltac:(congruence)). destruct Hov as [Hr _]. pose proof (range_hi ov Hr). lia.
  - rewrite app_assoc in Hw.
    destruct (IH (lf_free (lf_wakelock s (lf_addr ov)) ov) (pre ++ passed) rest')
      as (s' & T & -> & Eh & Ht & Hw' & Hreq & Hl); try done; [lia|set_solver|
      exact (waits_wake_gone _ _ _ _ Hw)|].
    exists s', (passed ++ T). rewrite app_assoc. split; [done|]. split; [done|].
    split; [|split; [done|]].
    + apply trimmed_skip; try done. by apply trimmed_gone.
    + split; [done|]. intros u. specialize (Hl u). unfold loose in *. rewrite loose_free in Hl. simpl in Hl.
      rewrite !ucount_app. simpl. lia.
  - rewrite app_assoc in Hw. eexists _, (passed ++ _ :: rest'). split; [done|].
    split; [by rewrite app_assoc|]. rewrite app_assoc. split; [|split].
    + apply trimmed_skip; try done. by apply trimmed_cut.
    + exact (waits_wake_same s (pre ++ passed) ov (set_start ov _) rest' eq_refl Hw).
    + split; [done|]. intros u. unfold loose. simpl. rewrite !ucount_app. simpl. lia.
Qed.

(** [m] is a part of [ov] outside [L]. *)
Definition part_outside (L ov m : lockf) : Prop :=
  lock_ok m /\ piece m ov /\ (hi m < lf_start L \/ hi L < lf_start m).

(** [m] locks the range of [L] with its type. *)
Definition like (L m : lockf) : Prop :=
  lock_ok m /\ lf_id m = lf_id L /\ lf_type m = lf_type L /\
  lf_start m = lf_start L /\ hi m = hi L.

Lemma like_refl L : lock_ok L -> like L L.
Proof. done. Qed.

(** The overlapped lock [ov] is replaced by [M]: the parts of [ov] outside
    [L], and for a new type a lock on the range of [L]. *)
Lemma replace_overlap L newt passed ov rest M T :
  sorted (passed ++ ov :: rest) -> Forall lock_ok passed -> range_ok L ->
  (forall k, k ∈ passed -> lf_id k = lf_id L -> hi k < lf_start L) ->
  lf_id ov = lf_id L -> lf_start L <= hi ov -> range_ok ov -> sorted M ->
  (forall m, m ∈ M -> part_outside L ov m \/ (newt = Some (lf_type L) /\ like L m)) ->
  (newt = None \/ newt = Some (lf_type L) /\ exists m, m ∈ M /\ like L m) ->
  (forall b, covers ov b -> ~ covers L b -> exists m, m ∈ M /\ part_outside L ov m /\ covers m b) ->
  trimmed L rest T ->
  updated L newt (passed ++ ov :: rest) (passed ++ M ++ T).
Proof.
  intros Hs Hok HL Hp Eid Hov Hr HsM HM Hnew Hcov Ht. pose proof (range_hi ov Hr).
  destruct (sorted_tail _ _ _ Hs) as (_ & _ & Hnext).
  apply (splice L newt passed [ov] rest M T); try done.
  - set_solver.
  - intros k Hk Ek. specialize (Hnext k Hk ltac:(congruence)). lia.
  - intros m Hm. destruct (HM m Hm) as [(Hok' & (E1 & _ & E2 & E3) & _)|(_ & Hok' & E1 & _ & E2 & E3)].
    + split; [congruence|]. split; [done|]. split; right; exists ov; (split; [set_solver|lia]).
    + split; [done|]. split; [done|]. lia.
  - intros m b Hm Hb. unfold covers in *.
    destruct (HM m Hm) as [(_ & (E1 & E2 & E3 & E4) & Hd)|(-> & _ & _ & E1 & E2 & E3)].
    + rewrite decide_False by lia. exists ov. split; [set_solver|]. split; [lia|done].
    + rewrite decide_True by lia. congruence.
  - intros b t Hb ->. destruct Hnew as [|([= ->] & m & Hm & _ & _ & Et & E1 & E2)]; [done|].
    exists m. split; [done|]. unfold covers in *. split; [done|lia].
  - intros d b Ed%list_elem_of_singleton Hb Hn. subst d.
    destruct (Hcov b Hb Hn) as (m & Hm & (_ & (_ & Et & _) & _) & Hmb). exists m. done.
Qed.

(** The parts of [ov] before and after [L]. *)
Lemma part_back L ov :
  lock_ok ov -> range_ok L -> lf_start ov < lf_start L -> lf_start L <= hi ov ->
  part_outside L ov (set_end ov (off_t (lf_start L - 1))).
Proof.
  intros Hov HL Hlt Hle. destruct (cut_back ov L Hov HL Hlt) as (Hok & Eh & Es).
  split; [done|]. split; [|lia]. split_and!; try done; lia.
Qed.

Lemma part_front L ov :
  lock_ok ov -> range_ok L -> hi L < hi ov -> lf_start ov <= hi L ->
  part_outside L ov (set_start ov (off_t (lf_end L + 1))).
Proof.
  intros Hov HL Hlt Hle. destruct (cut_front ov L Hov HL Hlt) as (Hok & Eh & Es).
  split; [done|]. split; [|lia]. split_and!; try done; lia.
Qed.

Lemma covers_back L ov b :
  lock_ok ov -> range_ok L -> lf_start ov < lf_start L -> covers ov b -> b < lf_start L ->
  covers (set_end ov (off_t (lf_start L - 1))) b.
Proof.
  intros Hov HL Hlt Hb Hle. destruct (cut_back ov L Hov HL Hlt) as (Hok & Eh & Es).
  unfold covers in *. lia.
Qed.

Lemma covers_front L ov b :
  lock_ok ov -> range_ok L -> hi L < hi ov -> covers ov b -> hi L < b ->
  covers (set_start ov (off_t (lf_end L + 1))) b.
Proof.
  intros Hov HL Hlt Hb Hle. destruct (cut_front ov L Hov HL Hlt) as (Hok & Eh & Es).
  unfold covers in *. lia.
Qed.

(** After a lock that reaches past [L], the own locks are beyond [L]. *)
Lemma trimmed_after L passed ov rest :
  sorted (passed ++ ov :: rest) -> Forall lock_ok rest -> lf_id ov = lf_id L ->
  hi L <= hi ov -> trimmed L rest rest.
Proof.
  intros Hs Hok Eid Hle. destruct (sorted_tail _ _ _ Hs) as (Hs' & _ & Hnext).
  apply trimmed_id; try done. intros k Hk Ek. specialize (Hnext k Hk ltac:(congruence)). lia.
Qed.

(** What both operations start from. *)
Definition list_ok (l : list lockf) : Prop := sorted l /\ Forall lock_ok l.

(** The first own lock that overlaps [L]. *)
Lemma find_first_overlap l L :
  list_ok l -> range_ok L ->
  exists c passed ahead,
    lf_findoverlap l L SELF = Some (c, passed, ahead) /\ l = passed ++ ahead /\
    Forall lock_ok passed /\ Forall lock_ok ahead /\
    (forall k, k ∈ passed -> lf_id k = lf_id L -> hi k < lf_start L) /\
    match ahead with
    | [] => c = 0
    | ov :: _ => lf_id ov = lf_id L /\ lock_ok ov /\ case_spec ov L (Some c) /\
        (c = 0 -> hi L < lf_start ov)
    end.
Proof.
  intros [Hs Hok] HL. destruct (find_self l L (ok_ranges _ Hok) HL)
    as (c & passed & ahead & E & -> & Hp & Ha). exists c, passed, ahead.
  rewrite Forall_app in Hok. destruct Hok as [Hok1 Hok2]. split_and!; try done.
  destruct ahead as [|ov rest]; [done|]. destruct Ha as (Eid & Ec & H0).
  inversion Hok2 as [|? ? Hov _]. subst. split_and!; try done. rewrite <- Ec.
  apply overlap_case_spec; [apply Hov|done].
Qed.

Lemma sorted1 k : sorted [k].
Proof. repeat constructor. Qed.

Lemma sorted2 k1 k2 : hi k1 < lf_start k2 -> sorted [k1; k2].
Proof. intros H. constructor; [apply sorted1|]. constructor; [by intros _|constructor]. Qed.

Lemma sorted3 k1 k2 k3 :
  range_ok k2 -> hi k1 < lf_start k2 -> hi k2 < lf_start k3 -> sorted [k1; k2; k3].
Proof.
  intros Hr H1 H2. pose proof (range_hi k2 Hr).
  constructor; [by apply sorted2|]. repeat constructor; intros _; lia.
Qed.

Lemma nodup_insert A x B :
  NoDup (lf_addr <$> (A ++ B)) -> (forall k, k ∈ A ++ B -> lf_addr k <> lf_addr x) ->
  NoDup (lf_addr <$> (A ++ x :: B)).
Proof.
  rewrite !fmap_app, fmap_cons, !NoDup_app, NoDup_cons. intros (HA & Hx & HB) Hf.
  split_and!; try done.
  - intros y H1 [->|H2]%elem_of_cons; [|by apply (Hx y)].
    apply list_elem_of_fmap in H1 as (k & E & Hk). by apply (Hf k); [set_solver|].
  - intros H1. apply list_elem_of_fmap in H1 as (k & E & Hk). by apply (Hf k); [set_solver|].
Qed.

(** A new lock enters the list. *)
Lemma waits_insert s A x B :
  waits_ok s (A ++ B) -> (forall k, k ∈ A ++ B -> lf_addr k <> lf_addr x) ->
  lf_addr x < lf_pool s -> waits_ok s (A ++ x :: B).
Proof.
  intros Hw Hf Hx. apply (waits_keep s A [] B [x]); [done| | |set_solver].
  - apply nodup_insert; [apply Hw|done].
  - intros m Em%list_elem_of_singleton. by subst.
Qed.

Lemma split_case s ov L :
  range_ok ov -> range_ok L -> lf_start ov <> lf_start L ->
  let back := set_end ov (off_t (lf_start L - 1)) in
  let front := set_addr (set_start ov (off_t (lf_end L + 1))) (lf_pool s) in
  (hi ov = hi L /\ lf_split s ov L = (SplitBack back, s)) \/
  (hi ov <> hi L /\ exists s1, lf_split s ov L = (SplitThree back front, s1) /\
     s1 = LfState (lf_head s) (lf_blkhd s) (lf_blocked s) (lf_reqs s)
            (add_count (ui_lockcnt s) (lf_uid ov) 1) (lf_pool s + 1) (lf_woken s)).
Proof.
  intros Ho HL Hne back front. unfold lf_split.
  replace (lf_start ov =? lf_start L) with false by lia.
  destruct (hi_end ov Ho) as [[? ?]|(? & ? & ?)], (hi_end L HL) as [[? ?]|(? & ? & ?)];
    unfold OFF_MAX, OFF_INF in *;
    destruct (Z.eqb_spec (lf_end ov) (lf_end L)); try (left; split; [lia|done]);
    try (right; split; [lia|]; eexists; split; [|done]; unfold lf_alloc;
      simpl; rewrite andb_false_r; done); lia.
Qed.

Lemma waits_pool s s' l :
  lf_blkhd s' = lf_blkhd s -> lf_blocked s' = lf_blocked s -> lf_reqs s' = lf_reqs s ->
  lf_pool s <= lf_pool s' -> waits_ok s l -> waits_ok s' l.
Proof.
  intros E1 E2 E3 Hle (Hnd & Hp & Hq & Hb). unfold waits_ok, waiters in *.
  rewrite E1, E2, E3. split_and!; try done. intros k Hk. specialize (Hp k Hk). lia.
Qed.

Lemma updated_nothing L l :
  list_ok l -> range_ok L -> (forall k, k ∈ l -> lf_id k = lf_id L -> ~ overlaps k L) ->
  updated L None l l.
Proof.
  intros [Hs Hok] HL Hn. split; [done|]. split; [done|]. split; [done|]. intros id b t.
  destruct (decide _) as [[-> Hc]|]; [|done]. split; [|done].
  intros (k & Hk & Eid & _ & Hb). exfalso. apply (Hn k Hk Eid).
  unfold covers, overlaps in *. lia.
Qed.

(** No own lock overlaps [L] when the search ends in case 0. *)
Lemma find_none L passed ahead :
  sorted (passed ++ ahead) -> Forall lock_ok ahead -> range_ok L ->
  (forall k, k ∈ passed -> lf_id k = lf_id L -> hi k < lf_start L) ->
  match ahead with [] => True | ov :: _ => lf_id ov = lf_id L /\ hi L < lf_start ov end ->
  (forall k, k ∈ ahead -> lf_id k = lf_id L -> hi L < lf_start k) /\
  (forall k, k ∈ passed ++ ahead -> lf_id k = lf_id L -> ~ overlaps k L).
Proof.
  intros Hs Hok HL Hp Ha.
  assert (forall k, k ∈ ahead -> lf_id k = lf_id L -> hi L < lf_start k) as Hq.
  { destruct ahead as [|ov rest]; [set_solver|]. destruct Ha as [Eid Hlt].
    destruct (sorted_tail _ _ _ Hs) as (_ & _ & Hnext).
    inversion Hok as [|? ? [Hr _] _]. subst. pose proof (range_hi ov Hr).
    intros k [->|Hk]%elem_of_cons Ek; [done|]. specialize (Hnext k Hk ltac:(congruence)). lia. }
  split; [done|]. unfold overlaps. intros k [Hk|Hk]%elem_of_app Ek.
  - specialize (Hp k Hk Ek). lia.
  - specialize (Hq k Hk Ek). lia.
Qed.

(** The shapes of the replacement for [lf_clearlock]: what is left of the
    overlapped lock. *)
Section Clearing.
Context (L ov : lockf) (passed rest T : list lockf).
Context (Hs : sorted (passed ++ ov :: rest)) (Hok1 : Forall lock_ok passed).
Context (Hok2 : Forall lock_ok rest) (HL : range_ok L) (Hov : lock_ok ov).
Context (Hp : forall k, k ∈ passed -> lf_id k = lf_id L -> hi k < lf_start L).
Context (Eid : lf_id ov = lf_id L).
#[local] Set Default Proof Using "All".

Lemma clear_whole :
  lf_start L <= lf_start ov -> hi ov <= hi L -> trimmed L rest T ->
  updated L None (passed ++ ov :: rest) (passed ++ T).
Proof.
  intros E1 E2 Ht. pose proof (range_hi ov (proj1 Hov)).
  apply (replace_overlap L None passed ov rest [] T); try done; try lia; try apply Hov.
  - constructor.
  - set_solver.
  - by left.
  - intros b. unfold covers. lia.
Qed.

Lemma clear_front :
  lf_start L <= lf_start ov -> lf_start ov <= hi L -> hi L < hi ov ->
  updated L None (passed ++ ov :: rest)
    (passed ++ set_start ov (off_t (lf_end L + 1)) :: rest).
Proof.
  intros E1 E2 E3. pose proof (range_hi ov (proj1 Hov)).
  apply (replace_overlap L None passed ov rest [_] rest); try done; try lia; try apply Hov.
  - apply sorted1.
  - intros m Em%list_elem_of_singleton. subst m. left. by apply part_front.
  - by left.
  - intros b Hb Hn. eexists. split; [by left|]. split; [by apply part_front|].
    apply covers_front; try done. unfold covers in *. lia.
  - apply (trimmed_after L passed ov); try done. lia.
Qed.

Lemma clear_back :
  lf_start ov < lf_start L -> lf_start L <= hi ov -> hi ov <= hi L -> trimmed L rest T ->
  updated L None (passed ++ ov :: rest)
    (passed ++ set_end ov (off_t (lf_start L - 1)) :: T).
Proof.
  intros E1 E2 E3 Ht. pose proof (range_hi ov (proj1 Hov)).
  apply (replace_overlap L None passed ov rest [_] T); try done; try lia; try apply Hov.
  - apply sorted1.
  - intros m Em%list_elem_of_singleton. subst m. left. by apply part_back.
  - by left.
  - intros b Hb Hn. eexists. split; [by left|]. split; [by apply part_back|].
    apply covers_back; try done. unfold covers in *. lia.
Qed.

Lemma clear_middle a :
  lf_start ov < lf_start L -> hi L < hi ov ->
  updated L None (passed ++ ov :: rest)
    (passed ++ set_end ov (off_t (lf_start L - 1)) ::
       set_addr (set_start ov (off_t (lf_end L + 1))) a :: rest).
Proof.
  intros E1 E2. pose proof (range_hi L HL).
  assert (part_outside L ov (set_addr (set_start ov (off_t (lf_end L + 1))) a)) as Hfront
    by (apply part_front; try done; lia).
  assert (part_outside L ov (set_end ov (off_t (lf_start L - 1)))) as Hback
    by (apply part_back; try done; lia).
  apply (replace_overlap L None passed ov rest [_; _] rest); try done; try lia; try apply Hov.
  - apply sorted2. destruct (cut_back ov L Hov HL E1) as (_ & -> & _). simpl.
    destruct (cut_front ov L Hov HL E2) as (_ & _ & Es). simpl in Es. lia.
  - intros m [->|Em%list_elem_of_singleton]%elem_of_cons; [by left|]. subst m. by left.
  - by left.
  - intros b Hb Hn. destruct (decide (b < lf_start L)).
    + eexists. split; [by left|]. split; [done|]. apply covers_back; try done; lia.
    + eexists. split; [by right; left|]. split; [exact Hfront|].
      apply covers_front; try done. unfold covers in *. lia.
  - apply (trimmed_after L passed ov); try done. lia.
Qed.

End Clearing.

(** Case 2 of [lf_clearlock] with different starts. *)
Lemma clear_split s L passed ov rest :
  list_ok (passed ++ ov :: rest) -> range_ok L -> lock_ok ov -> lf_id ov = lf_id L ->
  (forall k, k ∈ passed -> lf_id k = lf_id L -> hi k < lf_start L) ->
  lf_start ov <= lf_start L -> hi L <= hi ov -> lf_start ov <> lf_start L ->
  waits_ok s (passed ++ ov :: rest) ->
  exists s', match lf_split (lf_wakelock s (lf_addr ov)) ov L with
    | (SplitFront _, _) => Panic
    | (SplitBack k1, s2) => Done tt (with_head s2 (passed ++ k1 :: rest))
    | (SplitThree k1 k2, s2) => Done tt (with_head s2 (passed ++ k1 :: k2 :: rest))
    end = Done tt s' /\
    updated L None (passed ++ ov :: rest) (lf_head s') /\ waits_ok s' (lf_head s') /\
    lf_reqs s' = lf_reqs s /\ forall u, loose s' (lf_head s') u = loose s (passed ++ ov :: rest) u.
Proof.
  intros [Hs Hok] HL Hov Eid Hp E1 E2 Est Hw. pose proof (range_hi L HL).
  rewrite Forall_app in Hok. destruct Hok as [Hok1 Hok2]. apply Forall_inv_tail in Hok2.
  pose proof (waits_wake_same s passed ov (set_end ov (off_t (lf_start L - 1))) rest eq_refl Hw)
    as Hw1.
  destruct (split_case (lf_wakelock s (lf_addr ov)) ov L (proj1 Hov) HL Est)
    as [[Ehi ->]|(Ehi & s1 & -> & ->)].
  - eexists. split; [done|]. simpl. split; [|split; [done|]].
    + apply clear_back; try done; try lia. apply (trimmed_after L passed ov); try done.
    + split; [done|]. intros u. unfold loose. simpl. rewrite !ucount_app. simpl. lia.
  - eexists. split; [done|]. simpl. split; [|split].
    + apply clear_middle; try done; lia.
    + rewrite cons_middle, app_assoc. apply waits_insert; rewrite <- ?app_assoc; simpl; [| |lia].
      * by eapply waits_pool, Hw1; simpl; try done; lia.
      * intros k Hk. simpl. destruct Hw1 as (_ & Hlt1 & _). specialize (Hlt1 k Hk).
        simpl in Hlt1. lia.
    + split; [done|]. intros u. unfold loose. simpl. rewrite !ucount_app. simpl. unfold add_count.
      destruct (u =? lf_uid ov); lia.
Qed.

Lemma lf_clearlock_spec s L :
  list_ok (lf_head s) -> range_ok L -> waits_ok s (lf_head s) ->
  exists s', lf_clearlock s L = Done tt s' /\
    updated L None (lf_head s) (lf_head s') /\ waits_ok s' (lf_head s') /\
    lf_reqs s' = lf_reqs s /\ forall u, loose s' (lf_head s') u = loose s (lf_head s) u.
Proof.
  intros Hl HL Hw. unfold lf_clearlock. destruct (lf_head s) as [|k0 l0] eqn:Eh.
  { exists s. rewrite Eh. split; [done|]. split; [|done].
    apply updated_nothing; try done. set_solver. }
  set (l := k0 :: l0) in *. clearbody l. clear Eh k0 l0.
  destruct (find_first_overlap l L Hl HL) as (c & passed & ahead & E & -> & Hok1 & Hok2 & Hp & Ha).
  pose proof (proj1 Hl) as Hs.
  cbn [lf_clearlock_loop]. rewrite E. simpl app at 1 2.
  destruct ahead as [|ov rest].
  { eexists. split; [done|]. simpl. rewrite app_nil_r in *. split; [|done].
    apply updated_nothing; try done. intros k Hk Ek. specialize (Hp k Hk Ek).
    unfold overlaps. lia. }
  destruct Ha as (Eid & Hov & Hc & H0). pose proof (range_hi ov (proj1 Hov)).
  pose proof (range_hi L HL). inversion Hok2 as [|? ? _ Hok']. subst.
  destruct (sorted_tail _ _ _ Hs) as (Hs' & _ & Hnext).
  inversion Hc as [Hd|E1 E2 E3|E1 E2 E3|E1 E2|E1 E2 E3|E1 E2 E3]; subst c; simpl.
  - (* case 0 *)
    eexists. split; [done|]. split; [|done]. simpl.
    apply updated_nothing; try done. apply find_none; try done. auto.
  - (* case 1 *)
    eexists. split; [done|]. simpl. split; [|split].
    + apply clear_whole; try done; try lia. apply (trimmed_after L passed ov); try done. lia.
    + exact (waits_wake_gone _ _ _ _ Hw).
    + split; [done|]. intros u. unfold loose. rewrite loose_free. simpl. rewrite !ucount_app. simpl. lia.
  - (* case 2 *)
    destruct (Z.eqb_spec (lf_start ov) (lf_start L)) as [Est|Est].
    + eexists. split; [done|]. simpl. split; [apply clear_front; try done; lia|split].
      * exact (waits_wake_same s passed ov (set_start ov _) rest eq_refl Hw).
      * split; [done|]. intros u. unfold loose. simpl. rewrite !ucount_app. simpl. lia.
    + by apply clear_split.
  - (* case 3 *)
    destruct (clear_beyond (length (passed ++ ov :: rest)) (lf_free (lf_wakelock s (lf_addr ov)) ov)
      passed rest L) as (s' & T & -> & Eh & Ht & Hw' & Hreq & Hlo); try done.
    { rewrite length_app. simpl. lia. }
    { intros k Hk Ek. specialize (Hnext k Hk ltac:(congruence)). lia. }
    { exact (waits_wake_gone _ _ _ _ Hw). }
    exists s'. split; [done|]. rewrite Eh. split; [by apply clear_whole|split; [done|]].
    split; [done|]. intros u. specialize (Hlo u). unfold loose in *. rewrite loose_free in Hlo. simpl in Hlo.
    rewrite !ucount_app. simpl. lia.
  - (* case 4 *)
    destruct (clear_beyond (length (passed ++ ov :: rest)) (lf_wakelock s (lf_addr ov))
      (passed ++ [set_end ov (off_t (lf_start L - 1))]) rest L)
      as (s' & T & -> & Eh & Ht & Hw' & Hreq & Hlo); try done.
    { rewrite length_app. simpl. lia. }
    { intros k Hk Ek. specialize (Hnext k Hk ltac:(congruence)). lia. }
    { rewrite <- app_assoc. exact (waits_wake_same s passed ov (set_end ov _) rest eq_refl Hw). }
    exists s'. split; [done|]. rewrite Eh. rewrite <- app_assoc in *.
    split; [apply clear_back; try done; lia|split; [done|]].
    split; [done|]. intros u. specialize (Hlo u). unfold loose in *. simpl in Hlo.
    rewrite !ucount_app. simpl. lia.
  - (* case 5 *)
    eexists. split; [done|]. simpl. split; [apply clear_front; try done; lia|split].
    + exact (waits_wake_same s passed ov (set_start ov _) rest eq_refl Hw).
    + split; [done|]. intros u. unfold loose. simpl. rewrite !ucount_app. simpl. lia.
Qed.

(** ** [lf_setlock] once nothing blocks *)

Lemma blocks_wider ov L :
  lf_id ov = lf_id L -> lf_start L <= lf_start ov -> hi ov <= hi L ->
  lock_ok ov -> lock_ok L ->
  (lf_type L =? F_RDLCK) && (lf_type ov =? F_WRLCK) = false ->
  forall r, blocks ov r -> blocks L r.
Proof.
  intros Eid E1 E2 [_ Hto] [_ HtL] Hd r (Hid & [Ho1 Ho2] & Ht). split; [congruence|].
  split; [split; lia|]. unfold F_RDLCK, F_WRLCK in *. lia.
Qed.

Definition swallow (s : lfstate) (ov L : lockf) : lfstate :=
  if (lf_type L =? F_RDLCK) && (lf_type ov =? F_WRLCK) then lf_wakelock s (lf_addr ov)
  else take_waiters s (lf_addr ov) (lf_addr L).

(** Case 3: the waiters of the swallowed lock are woken or handed over. *)
Lemma swallow_waits s A ov B L :
  waits_ok s (A ++ ov :: B) -> L ∈ A -> lf_id ov = lf_id L ->
  lf_start L <= lf_start ov -> hi ov <= hi L -> lock_ok ov -> lock_ok L ->
  waits_ok (swallow s ov L) (A ++ B).
Proof.
  intros Hw HLA Eid E1 E2 Hov HL. unfold swallow. destruct (_ && _) eqn:Ed.
  - by apply waits_wake_gone.
  - apply waits_take; try done. by apply blocks_wider.
Qed.

Lemma swallow_cnt s ov L u :
  ui_lockcnt (swallow s ov L) u = ui_lockcnt s u.
Proof. unfold swallow. by destruct (_ && _). Qed.

Lemma link_beyond fuel s pre rest L :
  (length rest < fuel)%nat -> lock_ok L -> Forall lock_ok rest -> sorted rest -> L ∈ pre ->
  (forall k, k ∈ rest -> lf_id k = lf_id L -> lf_start L < lf_start k) ->
  waits_ok s (pre ++ rest) ->
  exists s' T, lf_link_loop fuel s pre rest L false = Done tt s' /\ lf_head s' = pre ++ T /\
    trimmed L rest T /\ waits_ok s' (pre ++ T) /\
    forall u, loose s' T u = loose s rest u.
Proof.
  revert s pre rest.
  induction fuel as [|fuel IH]; intros s pre rest Hf HokL Hok Hs HLp Hst Hw; [lia|].
  pose proof (proj1 HokL) as HL.
  destruct (find_beyond L rest HL Hok Hs Hst) as (c & passed & ahead & E & -> & Hp & Ha).
  cbn [lf_link_loop]. rewrite E. rewrite Forall_app in Hok. destruct Hok as [Hok1 Hok2].
  rewrite app_assoc in Hw. destruct ahead as [|ov rest'].
  { subst c. exists (with_head s ((pre ++ passed) ++ [])), passed. rewrite !app_nil_r in *.
    split; [done|]. split; [done|]. split; [|done]. apply trimmed_id; try done.
    intros k Hk Ek. by destruct (Hp k Hk). }
  destruct Ha as [Eid Hcase]. destruct (sorted_tail _ _ _ Hs) as (Hs' & Hs'' & Hnext).
  inversion Hok2 as [|? ? Hov Hok']. subst. rewrite length_app in Hf. simpl in Hf.
  destruct Hcase as [[-> Hlt]|[[-> Hle]|(-> & Hst1 & Hlt)]]; simpl.
  - eexists _, (passed ++ ov :: rest'). rewrite app_assoc. split; [done|]. split; [done|].
    split; [|done]. apply trimmed_skip; try done.
    apply trimmed_id; try done. intros k [->|Hk]%elem_of_cons Ek; [lia|].
    specialize (Hnext k Hk ltac:(congruence)). pose proof (range_hi ov (proj1 Hov)). lia.
  - specialize (Hst ov ltac:(set_solver) Eid) as Hst0. rewrite app_nil_r.
    destruct (IH (lf_free (swallow s ov L) ov) (pre ++ passed) rest')
      as (s' & T & El & Eh & Ht & Hw' & Hl); try done; [lia|set_solver|set_solver|
      apply swallow_waits; try done; [set_solver|lia]|].
    exists s', (passed ++ T). fold (swallow s ov L). rewrite El,  app_assoc. split; [done|]. split; [done|].
    split; [|split; [done|]].
    + apply trimmed_skip; try done. by apply trimmed_gone.
    + intros u. specialize (Hl u). unfold loose in *. rewrite loose_free, swallow_cnt in Hl.
      rewrite !ucount_app. simpl. lia.
  - eexists _, (passed ++ _ :: rest'). split; [done|].
    split; [by rewrite app_assoc|]. rewrite app_assoc. split; [|split].
    + apply trimmed_skip; try done. by apply trimmed_cut.
    + exact (waits_wake_same s (pre ++ passed) ov (set_start ov _) rest' eq_refl Hw).
    + intros u. unfold loose. simpl. rewrite !ucount_app. simpl. lia.
Qed.

(** The shapes of the replacement for [lf_setlock]. *)
Section Setting.
Context (L ov : lockf) (passed rest T : list lockf).
Context (Hs : sorted (passed ++ ov :: rest)) (Hok1 : Forall lock_ok passed).
Context (Hok2 : Forall lock_ok rest) (HL : lock_ok L) (Hov : lock_ok ov).
Context (Hp : forall k, k ∈ passed -> lf_id k = lf_id L -> hi k < lf_start L).
Context (Eid : lf_id ov = lf_id L).
#[local] Set Default Proof Using "All".

Lemma set_whole L' :
  like L L' -> lf_start L <= lf_start ov -> hi ov <= hi L -> trimmed L rest T ->
  updated L (Some (lf_type L)) (passed ++ ov :: rest) (passed ++ L' :: T).
Proof.
  intros HL' E1 E2 Ht. pose proof (range_hi ov (proj1 Hov)).
  apply (replace_overlap L _ passed ov rest [L'] T); try done; try lia; try apply Hov; try apply HL.
  - apply sorted1.
  - intros m Em%list_elem_of_singleton. subst m. by right.
  - right. split; [done|]. exists L'. split; [by left|done].
  - intros b. unfold covers. lia.
Qed.

Lemma set_front :
  lf_start L <= lf_start ov -> lf_start ov <= hi L -> hi L < hi ov ->
  updated L (Some (lf_type L)) (passed ++ ov :: rest)
    (passed ++ L :: set_start ov (off_t (lf_end L + 1)) :: rest).
Proof.
  intros E1 E2 E3. pose proof (range_hi ov (proj1 Hov)).
  apply (replace_overlap L _ passed ov rest [L; _] rest); try done; try lia; try apply Hov; try apply HL.
  - apply sorted2. destruct (cut_front ov L Hov (proj1 HL) E3) as (_ & _ & Es). simpl in *. lia.
  - intros m [->|Em%list_elem_of_singleton]%elem_of_cons; [by right|]. subst m. left.
    apply part_front; try done. apply HL.
  - right. split; [done|]. exists L. split; [by left|done].
  - intros b Hb Hn. eexists. split; [by right; left|]. split; [apply part_front; try done; apply HL|].
    apply covers_front; try done; [apply HL|]. unfold covers in *. lia.
  - apply (trimmed_after L passed ov); try done. lia.
Qed.

Lemma set_back :
  lf_start ov < lf_start L -> lf_start L <= hi ov -> hi ov <= hi L -> trimmed L rest T ->
  updated L (Some (lf_type L)) (passed ++ ov :: rest)
    (passed ++ set_end ov (off_t (lf_start L - 1)) :: L :: T).
Proof.
  intros E1 E2 E3 Ht. pose proof (range_hi ov (proj1 Hov)).
  apply (replace_overlap L _ passed ov rest [_; L] T); try done; try lia; try apply Hov; try apply HL.
  - apply sorted2. destruct (cut_back ov L Hov (proj1 HL) E1) as (_ & -> & _). lia.
  - intros m [->|Em%list_elem_of_singleton]%elem_of_cons; [left|subst m; by right].
    apply part_back; try done. apply HL.
  - right. split; [done|]. exists L. split; [by right; left|done].
  - intros b Hb Hn. eexists. split; [by left|]. split; [apply part_back; try done; apply HL|].
    apply covers_back; try done; [apply HL|]. unfold covers in *. lia.
Qed.

Lemma set_middle a :
  lf_start ov < lf_start L -> hi L < hi ov ->
  updated L (Some (lf_type L)) (passed ++ ov :: rest)
    (passed ++ set_end ov (off_t (lf_start L - 1)) :: L ::
       set_addr (set_start ov (off_t (lf_end L + 1))) a :: rest).
Proof.
  intros E1 E2. pose proof (proj1 HL) as HrL. pose proof (range_hi L HrL).
  assert (part_outside L ov (set_addr (set_start ov (off_t (lf_end L + 1))) a)) as Hfront
    by (apply part_front; try done; lia).
  assert (part_outside L ov (set_end ov (off_t (lf_start L - 1)))) as Hback
    by (apply part_back; try done; lia).
  apply (replace_overlap L _ passed ov rest [_; L; _] rest); try done; try lia; try apply Hov.
  - apply sorted3; [done| |].
    + destruct (cut_back ov L Hov HrL E1) as (_ & -> & _). lia.
    + destruct (cut_front ov L Hov HrL E2) as (_ & _ & Es). simpl in *. lia.
  - intros m [->|[->|Em%list_elem_of_singleton]%elem_of_cons]%elem_of_cons; [by left|by right|].
    subst m. by left.
  - right. split; [done|]. exists L. split; [by right; left|done].
  - intros b Hb Hn. destruct (decide (b < lf_start L)).
    + eexists. split; [by left|]. split; [done|]. apply covers_back; try done; lia.
    + eexists. split; [by right; right; left|]. split; [exact Hfront|].
      apply covers_front; try done. unfold covers in *. lia.
  - apply (trimmed_after L passed ov); try done. lia.
Qed.

(** The range is inside a lock of the same type. *)
Lemma set_inside :
  lf_start ov <= lf_start L -> hi L <= hi ov -> lf_type ov = lf_type L ->
  updated L (Some (lf_type L)) (passed ++ ov :: rest) (passed ++ ov :: rest).
Proof.
  intros E1 E2 Et. pose proof (range_hi L (proj1 HL)).
  split; [done|]. split; [by apply Forall_app; split; [|constructor]|].
  split; [done|]. intros id b t.
  destruct (decide _) as [[-> Hc]|]; [|done]. unfold covers in *. split.
  - intros (k & [Hk|[->|Hk]%elem_of_cons]%elem_of_app & Ek & <- & Hb); [|congruence|].
    + specialize (Hp k Hk Ek). unfold covers in *. lia.
    + destruct (sorted_tail _ _ _ Hs) as (_ & _ & Hnext).
      specialize (Hnext k Hk ltac:(congruence)). unfold covers in *. lia.
  - intros [= <-]. exists ov. split; [set_solver|]. split; [done|]. split; [done|].
    unfold covers. lia.
Qed.

End Setting.

Lemma set_disjoint L passed ahead :
  sorted (passed ++ ahead) -> Forall lock_ok passed -> Forall lock_ok ahead -> lock_ok L ->
  (forall k, k ∈ passed -> lf_id k = lf_id L -> hi k < lf_start L) ->
  match ahead with [] => True | ov :: _ => lf_id ov = lf_id L /\ hi L < lf_start ov end ->
  updated L (Some (lf_type L)) (passed ++ ahead) (passed ++ L :: ahead).
Proof.
  intros Hs Hok1 Hok2 HL Hp Ha. pose proof (range_hi L (proj1 HL)).
  destruct (find_none L passed ahead Hs Hok2 (proj1 HL) Hp Ha) as [Hq _].
  apply (splice L _ passed [] ahead [L] ahead); try done; try apply HL.
  - intros d Hd. by apply elem_of_nil in Hd.
  - intros k Hk Ek. specialize (Hq k Hk Ek). lia.
  - apply sorted1.
  - intros m Em%list_elem_of_singleton. subst m. split; [done|]. split; [done|]. split; left; lia.
  - intros m b Em%list_elem_of_singleton Hb. subst m. by rewrite decide_True.
  - intros b t Hb [= <-]. exists L. split; [by left|done].
  - intros d b Hd. by apply elem_of_nil in Hd.
  - apply trimmed_id; try done. by apply StronglySorted_app in Hs as (_ & _ & ?).
Qed.

(** Case 2 of [lf_setlock] with different types and starts. *)
Lemma set_split s L passed ov rest :
  list_ok (passed ++ ov :: rest) -> lock_ok L -> lock_ok ov -> lf_id ov = lf_id L ->
  (forall k, k ∈ passed -> lf_id k = lf_id L -> hi k < lf_start L) ->
  lf_start ov <= lf_start L -> hi L <= hi ov -> lf_start ov <> lf_start L ->
  waits_ok s (passed ++ ov :: rest) -> lf_addr L < lf_pool s ->
  (forall k, k ∈ passed ++ ov :: rest -> lf_addr k <> lf_addr L) ->
  exists s', match lf_split s ov L with
    | (SplitFront _, _) => Panic
    | (SplitBack k1, s1) =>
        Done tt (lf_wakelock (with_head s1 (passed ++ k1 :: L :: rest)) (lf_addr ov))
    | (SplitThree k1 k2, s1) =>
        Done tt (lf_wakelock (with_head s1 (passed ++ k1 :: L :: k2 :: rest)) (lf_addr ov))
    end = Done tt s' /\
    updated L (Some (lf_type L)) (passed ++ ov :: rest) (lf_head s') /\
    waits_ok s' (lf_head s') /\
    forall u, loose s' (lf_head s') u =
      loose s (passed ++ ov :: rest) u - (if u =? lf_uid L then 1 else 0).
Proof.
  intros [Hs Hok] HL Hov Eid Hp E1 E2 Est Hw Hpool Hf. pose proof (range_hi L (proj1 HL)).
  rewrite Forall_app in Hok. destruct Hok as [Hok1 Hok2]. apply Forall_inv_tail in Hok2.
  assert (waits_ok s (passed ++ ov :: L :: rest)) as HwL.
  { rewrite cons_middle, app_assoc. apply waits_insert; rewrite <- ?app_assoc; done. }
  destruct (split_case s ov L (proj1 Hov) (proj1 HL) Est) as [[Ehi ->]|(Ehi & s1 & -> & ->)].
  - eexists. split; [done|]. simpl. split; [|split].
    + apply set_back; try done; try lia. apply (trimmed_after L passed ov); try done.
    + exact (waits_wake_same s passed ov (set_end ov _) (L :: rest) eq_refl HwL).
    + intros u. unfold loose. simpl. rewrite !ucount_app. simpl. lia.
  - eexists. split; [done|]. simpl. split; [|split].
    + apply set_middle; try done; lia.
    + match goal with |- waits_ok (lf_wakelock (with_head ?s2 _) _) _ =>
        assert (waits_ok s2 (passed ++ ov :: L ::
          set_addr (set_start ov (off_t (lf_end L + 1))) (lf_pool s) :: rest)) as HwS end.
      { rewrite (cons_middle ov), (app_assoc passed), (cons_middle L), (app_assoc (passed ++ [ov])).
        apply waits_insert; rewrite <- ?app_assoc; simpl; [| |lia].
        - eapply waits_pool, HwL; simpl; try done. lia.
        - intros k Hk. destruct HwL as (_ & Hlt & _). specialize (Hlt k Hk). lia. }
      exact (waits_wake_same _ passed ov (set_end ov _) (L :: _ :: rest) eq_refl HwS).
    + intros u. unfold loose. simpl. rewrite !ucount_app. simpl. unfold add_count.
      destruct (u =? lf_uid ov); lia.
Qed.

Lemma lf_link_spec s L :
  list_ok (lf_head s) -> lock_ok L -> waits_ok s (lf_head s) -> lf_addr L < lf_pool s ->
  (forall k, k ∈ lf_head s -> lf_addr k <> lf_addr L) ->
  exists s', lf_link s L = Done tt s' /\
    updated L (Some (lf_type L)) (lf_head s) (lf_head s') /\ waits_ok s' (lf_head s') /\
    forall u, loose s' (lf_head s') u =
      loose s (lf_head s) u - (if u =? lf_uid L then 1 else 0).
Proof.
  intros Hl HokL Hw Hpool Hf. unfold lf_link. pose proof (proj1 HokL) as HL.
  set (l := lf_head s) in *. clearbody l.
  destruct (find_first_overlap l L Hl HL) as (c & passed & ahead & E & -> & Hok1 & Hok2 & Hp & Ha).
  pose proof (proj1 Hl) as Hs. cbn [lf_link_loop]. rewrite E. simpl app at 1.
  assert (match ahead with [] => True | ov :: _ => c = 0 -> lf_id ov = lf_id L /\ hi L < lf_start ov end)
    as Ha0 by (destruct ahead; [done|]; intros; split; apply Ha; done).
  destruct (Z.eqb_spec c 0) as [->|Hc0].
  { eexists. split; [done|]. simpl. split; [|split].
    - apply set_disjoint; try done. destruct ahead; auto.
    - by apply waits_insert.
    - intros u. unfold loose. simpl. rewrite !ucount_app. simpl. lia. }
  destruct ahead as [|ov rest]; [done|]. clear Ha0.
  destruct Ha as (Eid & Hov & Hc & _). pose proof (range_hi ov (proj1 Hov)).
  pose proof (range_hi L HL). inversion Hok2 as [|? ? _ Hok']. subst.
  destruct (sorted_tail _ _ _ Hs) as (Hs' & _ & Hnext).
  assert (waits_ok s (passed ++ L :: ov :: rest)) as HwL by (by apply waits_insert).
  inversion Hc as [Hd|E1 E2 E3|E1 E2 E3|E1 E2|E1 E2 E3|E1 E2 E3]; subst c; [done|..]; simpl.
  - (* case 1 *)
    eexists. split; [done|]. simpl. split; [|split].
    + apply set_whole; try done; try lia; [|apply (trimmed_after L passed ov); try done; lia].
      split; [split; [apply Hov|apply HokL]|]. done.
    + destruct (_ && _) eqn:Ed.
      * exact (waits_wake_same s passed ov (set_type ov _) rest eq_refl Hw).
      * apply (waits_keep s passed [ov] rest [set_type ov (lf_type L)]); [done| | |].
        -- apply (nodup_same passed ov); [done|apply Hw].
        -- intros m Em%list_elem_of_singleton. subst m. simpl. apply Hw. set_solver.
        -- intros d Ed'%list_elem_of_singleton. subst d. eexists. split; [by left|].
           split; [done|]. intros r Hr.
           destruct (blocks_wider ov L Eid ltac:(lia) ltac:(lia) Hov HokL Ed r Hr) as (? & ? & ?).
           split_and!; try done; apply Hr.
    + intros u. unfold loose. rewrite loose_free. simpl.
      destruct (_ && _); simpl; rewrite !ucount_app; simpl; lia.
  - (* case 2 *)
    destruct (Z.eqb_spec (lf_type ov) (lf_type L)) as [Et|Et];
      [|destruct (Z.eqb_spec (lf_start ov) (lf_start L)) as [Est|Est]].
    + eexists. split; [done|]. simpl. split; [by apply set_inside|split; [done|]].
      intros u. unfold loose. rewrite loose_free. done || (simpl; lia).
    + eexists. split; [done|]. simpl. split; [apply set_front; try done; lia|split].
      * rewrite (cons_middle L), app_assoc in HwL |- *.
        exact (waits_wake_same s (passed ++ [L]) ov (set_start ov _) rest eq_refl HwL).
      * intros u. unfold loose. simpl. rewrite !ucount_app. simpl. lia.
    + by apply set_split.
  - (* case 3 *)
    destruct (link_beyond (length (passed ++ ov :: rest)) (lf_free (swallow s ov L) ov)
      (passed ++ [L]) rest L) as (s' & T & El & Eh & Ht & Hw' & Hlo); try done.
    { rewrite length_app. simpl. lia. }
    { set_solver. }
    { intros k Hk Ek. specialize (Hnext k Hk ltac:(congruence)). lia. }
    { rewrite (cons_middle L), app_assoc in HwL. apply swallow_waits; try done. set_solver. }
    exists s'. fold (swallow s ov L). rewrite El, Eh. rewrite <- app_assoc in *.
    split; [done|]. split; [by apply set_whole|split; [done|]].
    intros u. specialize (Hlo u). unfold loose in *. rewrite loose_free, swallow_cnt in Hlo.
    rewrite !ucount_app. simpl. lia.
  - (* case 4 *)
    destruct (link_beyond (length (passed ++ ov :: rest)) (lf_wakelock s (lf_addr ov))
      (passed ++ [set_end ov (off_t (lf_start L - 1)); L]) rest L)
      as (s' & T & -> & Eh & Ht & Hw' & Hlo); try done.
    { rewrite length_app. simpl. lia. }
    { set_solver. }
    { intros k Hk Ek. specialize (Hnext k Hk ltac:(congruence)). lia. }
    { rewrite <- app_assoc. apply (waits_wake_same s passed ov (set_end ov _) (L :: rest) eq_refl).
      rewrite cons_middle, app_assoc. apply waits_insert; rewrite <- ?app_assoc; done. }
    exists s'. split; [done|]. rewrite Eh. rewrite <- app_assoc in *.
    split; [apply set_back; try done; lia|split; [done|]].
    intros u. specialize (Hlo u). unfold loose in *. simpl in Hlo.
    rewrite !ucount_app. simpl. lia.
  - (* case 5 *)
    eexists. split; [done|]. simpl. split; [apply set_front; try done; lia|split].
    + rewrite (cons_middle L), app_assoc in HwL |- *.
      exact (waits_wake_same s (passed ++ [L]) ov (set_start ov _) rest eq_refl HwL).
    + intros u. unfold loose. simpl. rewrite !ucount_app. simpl. lia.
Qed.
