(* ===== verification/LockfSys.v ===== *)
(** * The advisory-lock system calls (sys/kern/vfs_lockf.c)

    The invariant of a file's locks and the theorems on [lf_getblock],
    [lf_clearlock], [lf_setlock] with its sleeps, the deadlock check and
    [lf_advlock]. *)

From stdpp Require Import base numbers list option gmap sorting.
From Stdlib Require Import ZArith Lia Bool.
From S2P Require Import Prelude Lockf LockfFacts LockfList LockfOps.

#[local] Set Warnings "-clear-no-such-hyp".

(** ** The invariant *)

(** The locks of each owner are disjoint and sorted, owners do not conflict,
    and every sleeping request waits on a lock that blocks it. *)
Definition lf_ok (s : lfstate) : Prop :=
  list_ok (lf_head s) /\ no_conflict (lf_head s) /\ waits_ok s (lf_head s).

(** [L] is an allocated request that is not in the list of locks. *)
Definition req_ok (s : lfstate) (L : lockf) : Prop :=
  lock_ok L /\ lf_addr L < lf_pool s /\
  forall k, k ∈ lf_head s -> lf_addr k <> lf_addr L.

Lemma updated_no_conflict L newt l F :
  no_conflict l -> Forall lock_ok l -> updated L newt l F ->
  (newt = None \/ newt = Some (lf_type L) /\ lock_ok L /\ forall k, k ∈ l -> ~ blocks k L) ->
  no_conflict F.
Proof.
  intros Hn Hok (_ & _ & _ & Hu) Hnew.
  assert (forall id b t t', id <> lf_id L -> covers L b -> newt = Some t' ->
    holds l id b t -> t' = F_RDLCK /\ t = F_RDLCK) as Hmix.
  { intros id b t t' Hid Hb -> (k & Hk & <- & <- & Hkb).
    destruct Hnew as [|([= ->] & [_ HtL] & Hnb)]; [done|].
    rewrite Forall_forall in Hok. destruct (Hok k Hk) as [_ Htk].
    assert (overlaps k L) by (unfold overlaps, covers in *; lia).
    specialize (Hnb k Hk). unfold blocks in Hnb.
    destruct HtL, Htk; try done; exfalso; apply Hnb; auto. }
  intros id1 id2 b t1 t2 Hne H1 H2. apply Hu in H1, H2.
  destruct (decide (id1 = _ /\ _)) as [[-> Hc]|N1], (decide (id2 = _ /\ _)) as [[-> Hc2]|N2].
  - done.
  - apply (Hmix id2 b t2 t1); done.
  - destruct (Hmix id1 b t1 t2); done.
  - by apply (Hn id1 id2 b).
Qed.

(** ** Leaving and joining wait queues *)

Lemma enqueue_ok s L b :
  lf_ok s -> lf_blocked s !! lf_addr L = None -> b ∈ lf_head s -> blocks b L ->
  lf_ok (lf_enqueue s L b).
Proof.
  intros (Hl & Hn & Hnd & Hp & Hq & Hb) Hnone Hin Hbl. split; [done|]. split; [done|].
  split; [done|]. split; [done|]. unfold lf_enqueue, waiters in *. simpl. split.
  - intros a w. specialize (Hq a w) as Ha. specialize (Hq (lf_addr b) w) as Hqb.
    destruct (decide (a = lf_addr b)) as [->|Hne].
    + rewrite lookup_insert_eq. simpl. rewrite elem_of_app, list_elem_of_singleton.
      destruct (decide (w = lf_addr L)) as [->|].
      * rewrite lookup_insert_eq. split; [done|by right].
      * rewrite lookup_insert_ne, Hqb by done. split; [intros [?|?]; done|by left].
    + rewrite lookup_insert_ne, Ha by done. destruct (decide (w = lf_addr L)) as [->|].
      * rewrite lookup_insert_eq, Hnone. split; [done|congruence].
      * by rewrite lookup_insert_ne.
  - intros w a. destruct (decide (w = lf_addr L)) as [->|].
    + rewrite !lookup_insert_eq. intros [= <-]. by exists b, L.
    + rewrite !lookup_insert_ne by done. apply Hb.
Qed.

Lemma dequeue_ok s L :
  lf_ok s -> lf_ok (lf_dequeue s L) /\ lf_head (lf_dequeue s L) = lf_head s /\
  lf_blocked (lf_dequeue s L) !! lf_addr L = None /\
  lf_pool (lf_dequeue s L) = lf_pool s /\ ui_lockcnt (lf_dequeue s L) = ui_lockcnt s.
Proof.
  intros (Hl & Hn & Hnd & Hp & Hq & Hb). unfold lf_dequeue.
  destruct (lf_blocked s !! lf_addr L) as [b|] eqn:E; simpl.
  - split; [|split; [done|split; [apply lookup_delete_eq|done]]].
    split; [done|]. split; [done|]. split; [done|]. split; [done|]. unfold waiters in *. simpl. split.
    + intros a w. specialize (Hq a w) as Ha. specialize (Hq b w) as Hqb.
      destruct (decide (w = lf_addr L)) as [->|Hw].
      * rewrite lookup_delete_eq. split; [|done]. destruct (decide (a = b)) as [->|].
        -- rewrite lookup_insert_eq. simpl. by intros [? _]%list_elem_of_filter.
        -- rewrite lookup_insert_ne, Ha, E by done. congruence.
      * rewrite lookup_delete_ne by done. destruct (decide (a = b)) as [->|].
        -- rewrite lookup_insert_eq. simpl. rewrite list_elem_of_filter, Hqb. tauto.
        -- by rewrite lookup_insert_ne.
    + intros w a. destruct (decide (w = lf_addr L)) as [->|]; [by rewrite lookup_delete_eq|].
      rewrite !lookup_delete_ne by done. apply Hb.
  - split; [|done]. split; [done|]. split; [done|]. split; [done|]. split; [done|]. split; [done|].
    simpl. intros w a Hw. rewrite lookup_delete_ne by congruence. by apply Hb.
Qed.

(** ** Blocking and deadlock *)

Lemma lf_getblock_spec' s L :
  lf_ok s -> range_ok L ->
  exists r, getblock s L = Some r /\
    match r with
    | None => forall k, k ∈ lf_head s -> ~ blocks k L
    | Some b => b ∈ lf_head s /\ blocks b L
    end.
Proof.
  intros ((_ & Hok) & _) HL.
  destruct (getblock_spec (S (length (lf_head s))) (lf_head s) L (ok_ranges _ Hok) HL ltac:(lia))
    as (r & E & Hr). exists r. split; [done|]. destruct r as [b|]; [|done].
  destruct Hr as (l1 & l2 & -> & Hb & _). split; [set_solver|done].
Qed.

(** [lf_getblock] returns the first lock of another owner that overlaps
    the request and conflicts with it, and [NULL] exactly when there is none;
    the case analysis of [lf_findoverlap] never reaches its panic. *)
Theorem lf_getblock_correct s L :
  Forall range_ok (lf_head s) -> range_ok L ->
  exists r, getblock s L = Some r /\
    match r with
    | None => forall k, k ∈ lf_head s -> ~ blocks k L
    | Some b => exists l1 l2, lf_head s = l1 ++ b :: l2 /\ blocks b L /\
                  forall k, k ∈ l1 -> ~ blocks k L
    end.
Proof. intros Hl HL. apply getblock_spec; [done|done|lia]. Qed.

(** A chain of processes, each asleep on a POSIX lock of the next. *)
Inductive wait_path (waits : Z -> option (Z * Z)) : nat -> Z -> Z -> Prop :=
| wp_last p f q : waits p = Some (f, q) -> has f F_POSIX = true -> wait_path waits 1 p q
| wp_next n p f q r : waits p = Some (f, q) -> has f F_POSIX = true ->
    wait_path waits n q r -> wait_path waits (S n) p r.

Lemma wait_path_zero waits p q : ~ wait_path waits 0 p q.
Proof. by inversion 1. Qed.

Lemma deadlock_complete waits n d w self :
  wait_path waits n w self -> (n <= d)%nat -> lf_deadlock waits d w self = true.
Proof.
  intros H. revert d. induction H as [p f q E Ep|m p f q r E Ep H IH]; intros d Hd;
    (destruct d as [|d]; [lia|]); simpl; rewrite E, Ep; simpl.
  - by rewrite Z.eqb_refl.
  - destruct (q =? r); [done|]. apply IH. lia.
Qed.

Lemma deadlock_sound waits d w self :
  lf_deadlock waits d w self = true -> exists n, (n <= d)%nat /\ wait_path waits n w self.
Proof.
  revert w. induction d as [|d IH]; intros w; simpl; [done|].
  destruct (waits w) as [[f q]|] eqn:E; [|done]. destruct (has f F_POSIX) eqn:Ep; [|done]. simpl.
  destruct (Z.eqb_spec q self) as [->|Hne].
  - intros _. exists 1%nat. split; [lia|by econstructor].
  - intros H. destruct (IH q H) as (n & Hn & Hp). exists (S n). split; [lia|by econstructor].
Qed.

(** The deadlock check answers yes exactly when a chain of at most
    [MAXDEPTH] processes, each asleep on a POSIX lock of the next, leads from
    the owner of the blocking lock back to the requester. *)
Theorem lf_deadlock_correct waits w self :
  lf_deadlock waits MAXDEPTH w self = true <->
  exists n, (n <= MAXDEPTH)%nat /\ wait_path waits n w self.
Proof.
  split; [apply deadlock_sound|]. intros (n & Hn & Hp). by apply (deadlock_complete waits n).
Qed.

(** ** [lf_clearlock] *)

Lemma clear_ok s L :
  lf_ok s -> range_ok L ->
  exists s', lf_clearlock s L = Done tt s' /\ lf_ok s' /\
    updated L None (lf_head s) (lf_head s') /\ lf_reqs s' = lf_reqs s /\
    forall u, loose s' (lf_head s') u = loose s (lf_head s) u.
Proof.
  intros (Hl & Hn & Hw) HL. destruct (lf_clearlock_spec s L Hl HL Hw)
    as (s' & E & Hu & Hw' & Hc). exists s'. split; [done|]. split; [|done].
  split; [split; apply Hu|]. split; [|done].
  apply (updated_no_conflict L None (lf_head s)); try done; [apply Hl|by left].
Qed.

(** [lf_clearlock] always completes; afterwards the owner holds nothing
    on the range, every other byte and every other owner's lock is as before,
    the invariant holds (in particular each request still asleep is queued on
    a lock that blocks it, all others were woken), and the number of lockf
    structures charged to each user is still exact. *)
Theorem lf_clearlock_correct s L :
  lf_ok s -> range_ok L ->
  exists s', lf_clearlock s L = Done tt s' /\ lf_ok s' /\
    updated L None (lf_head s) (lf_head s') /\
    forall u, loose s' (lf_head s') u = loose s (lf_head s) u.
Proof.
  intros Hok HL. destruct (clear_ok s L Hok HL) as (s' & E & Hok' & Hu & _ & Hc).
  by exists s'.
Qed.

(** ** [lf_setlock] *)

Lemma link_ok s L :
  lf_ok s -> req_ok s L -> (forall k, k ∈ lf_head s -> ~ blocks k L) ->
  exists s', lf_link s L = Done tt s' /\ lf_ok s' /\
    updated L (Some (lf_type L)) (lf_head s) (lf_head s') /\
    forall u, loose s' (lf_head s') u =
      loose s (lf_head s) u - (if u =? lf_uid L then 1 else 0).
Proof.
  intros (Hl & Hn & Hw) (HL & Hp & Hf) Hb.
  destruct (lf_link_spec s L Hl HL Hw Hp Hf) as (s' & E & Hu & Hw' & Hc).
  exists s'. split; [done|]. split; [|done]. split; [split; apply Hu|]. split; [|done].
  apply (updated_no_conflict L (Some (lf_type L)) (lf_head s)); try done; [apply Hl|by right].
Qed.

(** The states in which the request can be decided: the one of the call, and
    those in which it runs again after a sleep. *)
Definition decided_in (sched : list (Z * lfstate)) (s s0 : lfstate) (L : lockf) : Prop :=
  s0 = s \/ exists e s3, (e, s3) ∈ sched /\ s0 = lf_dequeue s3 L.

(** Why a request is refused: it may not wait for a lock that blocks it, it
    would wait for itself, or its sleep was cut short. *)
Definition refused (waits : Z -> option (Z * Z)) (sched : list (Z * lfstate)) (s0 : lfstate)
    (L : lockf) (e : Z) : Prop :=
  (e = EAGAIN /\ has (lf_flags L) F_WAIT = false /\ exists k, k ∈ lf_head s0 /\ blocks k L) \/
  (e = EDEADLK /\ has (lf_flags L) F_WAIT = true /\ has (lf_flags L) F_POSIX = true /\
     exists k n, k ∈ lf_head s0 /\ blocks k L /\ has (lf_flags k) F_POSIX = true /\
       (n <= MAXDEPTH)%nat /\ wait_path waits n (lf_id k) (lf_id L)) \/
  (e <> 0 /\ has (lf_flags L) F_WAIT = true /\ exists s3, (e, s3) ∈ sched /\ s0 = lf_dequeue s3 L).

(** What a request does to the locks before it sleeps: a flock upgrade lets go
    of what the owner has. *)
Definition before_sleep (L : lockf) (l l' : list lockf) : Prop :=
  if has (lf_flags L) F_FLOCK && (lf_type L =? F_WRLCK)
  then updated (set_type L F_UNLCK) None l l' else l' = l.

Definition setlock_post (waits : Z -> option (Z * Z)) (sched : list (Z * lfstate)) (s : lfstate) (L : lockf)
    (r : run lfstate Z) : Prop :=
  match r with
  | Done e s' => lf_ok s' /\ exists s0, decided_in sched s s0 L /\
      (forall u, loose s' (lf_head s') u =
         loose s0 (lf_head s0) u - (if u =? lf_uid L then 1 else 0)) /\
      if e =? 0 then updated L (Some (lf_type L)) (lf_head s0) (lf_head s')
      else lf_head s' = lf_head s0 /\ refused waits sched s0 L e
  | Blocked s' => lf_ok s' /\
      (exists k, k ∈ lf_head s' /\ blocks k L /\ lf_blocked s' !! lf_addr L = Some (lf_addr k)) /\
      has (lf_flags L) F_WAIT = true /\
      exists s0, decided_in sched s s0 L /\ before_sleep L (lf_head s0) (lf_head s')
  | Panic => False
  | NoFuel => False
  end.

Lemma free_ok s L : lf_ok s -> lf_ok (lf_free s L).
Proof. done. Qed.

Lemma loose_lf_free s L u :
  loose (lf_free s L) (lf_head (lf_free s L)) u =
  loose s (lf_head s) u - (if u =? lf_uid L then 1 else 0).
Proof. unfold loose. rewrite loose_free. simpl. lia. Qed.

Lemma not_asleep s L :
  lf_ok s -> lf_reqs s !! lf_addr L = None -> lf_blocked s !! lf_addr L = None.
Proof.
  intros (_ & _ & _ & _ & _ & Hb) E. destruct (lf_blocked s !! lf_addr L) as [a|] eqn:E1; [|done].
  destruct (Hb _ _ E1) as (k & r & _ & _ & Hr & _). congruence.
Qed.

Lemma block_survives s L b :
  lf_ok s -> lock_ok L -> b ∈ lf_head s -> blocks b L -> lf_reqs s !! lf_addr L = None ->
  exists s1, (if has (lf_flags L) F_FLOCK && (lf_type L =? F_WRLCK)
              then lf_clearlock s (set_type L F_UNLCK) else Done tt s) = Done tt s1 /\
    lf_ok s1 /\ b ∈ lf_head s1 /\ lf_reqs s1 !! lf_addr L = None /\
    before_sleep L (lf_head s) (lf_head s1).
Proof.
  intros Hok HL Hb Hbl Hnone. unfold before_sleep. destruct (_ && _); [|by exists s].
  destruct (clear_ok s (set_type L F_UNLCK) Hok (proj1 HL)) as (s1 & E & Hok1 & Hu & Hreq & _).
  exists s1. split; [done|]. split; [done|]. split; [apply Hu; [apply Hbl|done]|].
  by rewrite Hreq.
Qed.

Lemma decided_later sched e s3 s s0 L :
  decided_in sched (lf_dequeue s3 L) s0 L -> decided_in ((e, s3) :: sched) s s0 L.
Proof.
  intros [->|(e1 & s1 & Hin & ->)]; right; [exists e, s3; by split; [left|]|].
  exists e1, s1. by split; [right|].
Qed.

Lemma refused_later waits sched x s0 L e :
  refused waits sched s0 L e -> refused waits (x :: sched) s0 L e.
Proof.
  intros [H|[H|(He & Hw & s3 & Hin & E)]]; [by left|by right; left|right; right].
  split; [done|]. split; [done|]. exists s3. by split; [right|].
Qed.

(** A request that sleeps and starts over ends as the second attempt does. *)
Lemma setlock_post_later waits sched e s3 s L r :
  setlock_post waits sched (lf_dequeue s3 L) L r -> setlock_post waits ((e, s3) :: sched) s L r.
Proof.
  unfold setlock_post. destruct r as [e' s'|s'| |]; try done.
  - intros (Hok & s0 & Hd & Hc & Hrest). split; [done|]. exists s0.
    split; [by apply decided_later|]. split; [done|]. destruct (e' =? 0); [done|].
    destruct Hrest. split; [done|by apply refused_later].
  - intros (Hok & Hk & Hw & s0 & Hd & Hb). split; [done|]. split; [done|]. split; [done|].
    exists s0. split; [by apply decided_later|done].
Qed.

(** A request refused at once. *)
Lemma setlock_post_now waits sched s L e :
  lf_ok s -> e <> 0 -> refused waits sched s L e ->
  setlock_post waits sched s L (Done e (lf_free s L)).
Proof.
  intros Hok He Hr. split; [done|]. exists s. split; [by left|]. split; [apply loose_lf_free|].
  by replace (e =? 0) with false by lia.
Qed.

Lemma setlock_spec waits sched s L :
  lf_ok s -> req_ok s L -> lf_reqs s !! lf_addr L = None ->
  (forall e s3, (e, s3) ∈ sched -> lf_ok s3 /\ req_ok s3 L) ->
  setlock_post waits sched s L (lf_setlock waits sched s L).
Proof.
  revert s. induction sched as [|[e s3] sched IH]; intros s Hok Hreq Hnone Hsched;
    pose proof Hreq as (HL & Hp & Hf);
    destruct (lf_getblock_spec' s L Hok (proj1 HL)) as (r & Eg & Hr);
    cbn [lf_setlock]; rewrite Eg; destruct r as [b|].
  2,4: destruct (link_ok s L Hok Hreq Hr) as (s' & -> & Hok' & Hu & Hc);
       split; [done|]; exists s; by split; [left|].
  all: destruct Hr as (Hin & Hbl);
    destruct (has (lf_flags L) F_WAIT) eqn:Hwait;
    [|apply setlock_post_now; [done|done|left; split_and!; try done; by exists b]];
    destruct (_ && lf_deadlock _ _ _ _) eqn:Hdl;
    [apply setlock_post_now; [done|done|right; left]; bool_to_prop;
     destruct (deadlock_sound _ _ _ _ H0) as (n & Hn & Hpath); split_and!; try done;
     exists b, n; by split_and!|];
    destruct (block_survives s L b Hok HL Hin Hbl Hnone) as (s1 & -> & Hok1 & Hin1 & Hnone1 & Hbs); simpl;
    pose proof (enqueue_ok s1 L b Hok1 (not_asleep s1 L Hok1 Hnone1) Hin1 Hbl) as Hok2.
  - split; [done|]. split; [|split; [done|]].
    + exists b. split; [done|]. split; [done|]. by rewrite lookup_insert_eq.
    + exists s. by split; [left|].
  - destruct (Hsched e s3 ltac:(by left)) as [Hok3 (_ & Hp3 & Hf3)].
    destruct (dequeue_ok s3 L Hok3) as (Hok4 & Eh & _ & Ep & _).
    destruct (Z.eqb_spec e 0) as [->|He]; simpl.
    + apply setlock_post_later, IH; try done.
      * split; [done|]. rewrite Eh, Ep. done.
      * unfold lf_dequeue. destruct (lf_blocked s3 !! lf_addr L); apply lookup_delete_eq.
      * intros e' s' Hin'. apply (Hsched e'). by right.
    + split; [done|]. exists (lf_dequeue s3 L).
      split; [right; exists e, s3; split; [by left|done]|].
      split; [apply loose_lf_free|]. replace (e =? 0) with false by lia. split; [done|].
      right; right. split; [done|]. split; [done|]. exists s3. by split; [left|].
Qed.


(** ** [lf_advlock] *)

Lemma off_t_bound x : off_t x <= OFF_MAX.
Proof.
  unfold off_t, sint, OFF_MAX. cbv zeta. change (2 ^ 64) with 18446744073709551616.
  change (2 ^ (64 - 1)) with 9223372036854775808.
  pose proof (Z.mod_pos_bound x 18446744073709551616). cmp_cases.
Qed.

Lemma lf_range_ok size fl start end_ a flags type id uid pid :
  lf_range size fl = Some (start, end_) -> l_start fl <= OFF_MAX -> end_ <> OFF_MAX ->
  range_ok (Lockf a flags type start end_ id uid pid).
Proof.
  unfold lf_range, range_ok. simpl. intros E Hs Hne.
  set (st := if (_ : bool) then _ else _) in E.
  assert (forall x, st = Some x -> x <= OFF_MAX) as Hst.
  { subst st. intros x. repeat step_if; try done; intros [= <-]; [done|apply off_t_bound]. }
  destruct st as [x|]; [|done]. specialize (Hst x eq_refl).
  destruct (Z.ltb_spec x 0); [done|]. destruct (l_len fl =? 0); [injection E as <- <-; lia|].
  pose proof (off_t_bound (x + l_len fl - 1)) as Hb.
  destruct (Z.ltb_spec (off_t (x + l_len fl - 1)) x); [done|]. injection E as <- <-. lia.
Qed.

(** Over the limit on structures of a user who is not root. *)
Definition over_limit (s : lfstate) (uid limit : Z) : Prop :=
  uid <> 0 /\ limit < ui_lockcnt s uid.

Lemma lf_alloc_spec s uid af :
  af = 1 \/ af = 2 ->
  match lf_alloc s uid af with
  | None => over_limit s uid (af * maxlocksperuid)
  | Some (a, s1) => a = lf_pool s /\ lf_head s1 = lf_head s /\ lf_reqs s1 = lf_reqs s /\
      (lf_ok s -> lf_ok s1) /\ lf_pool s1 = lf_pool s + 1 /\
      (forall u, loose s1 (lf_head s1) u =
         loose s (lf_head s) u + (if u =? uid then 1 else 0)) /\
      ~ over_limit s uid (af * maxlocksperuid)
  end.
Proof.
  intros Haf. unfold lf_alloc, over_limit. destruct (_ && _) eqn:E.
  - bool_to_prop. destruct Haf as [-> | ->]; simpl in *; unfold maxlocksperuid in *; lia.
  - split; [done|]. split; [done|]. split; [done|]. split.
    { intros (Hl & Hn & Hw). split; [done|]. split; [done|].
      eapply waits_pool, Hw; simpl; try done. lia. }
    split; [done|]. split.
    + intros u. unfold loose. simpl. unfold add_count. destruct (u =? uid); lia.
    + intros [H1 H2]. destruct Haf as [-> | ->]; simpl in E; unfold maxlocksperuid in *; lia.
Qed.

(** What a request [L] of [lf_advlock] leaves. *)
Definition advlock_post (s : lfstate) (L : lockf) (op : Z) (fl : flock)
    (e : Z) (fl' : flock) (s' : lfstate) : Prop :=
  (e = ENOLCK /\ s' = s /\ fl' = fl /\
     over_limit s (lf_uid L) (if op =? F_SETLK then maxlocksperuid else 2 * maxlocksperuid)) \/
  (op = F_SETLK /\ e = 0 /\ fl' = fl /\ (forall k, k ∈ lf_head s -> ~ blocks k L) /\
     updated L (Some (lf_type L)) (lf_head s) (lf_head s')) \/
  (op = F_SETLK /\ e = EAGAIN /\ fl' = fl /\ (exists k, k ∈ lf_head s /\ blocks k L) /\
     lf_head s' = lf_head s) \/
  (op = F_UNLCK /\ e = 0 /\ updated L None (lf_head s) (lf_head s')) \/
  (op = F_GETLK /\ e = 0 /\ lf_head s' = lf_head s /\
     ((l_type fl' = F_UNLCK /\ forall k, k ∈ lf_head s -> ~ blocks k L) \/
      exists k, k ∈ lf_head s /\ blocks k L /\
        fl' = Flock (lf_start k) (if lf_end k =? -1 then 0 else off_t (lf_end k - lf_start k + 1))
                (lf_pid k) (lf_type k) SEEK_SET)).

Lemma updated_empty L : range_ok L -> updated L None [] [].
Proof.
  intros HL. apply updated_nothing; [split; constructor|done|]. intros k Hk.
  by apply elem_of_nil in Hk.
Qed.

Lemma advlock_op_ok waits s s1 L op fl :
  lf_ok s1 -> range_ok L -> (op = F_SETLK -> req_ok s1 L) -> lf_reqs s1 !! lf_addr L = None -> lf_head s1 = lf_head s ->
  (forall u, loose s1 (lf_head s1) u = loose s (lf_head s) u + (if u =? lf_uid L then 1 else 0)) ->
  has (lf_flags L) F_WAIT = false -> op = F_SETLK \/ op = F_UNLCK \/ op = F_GETLK ->
  exists e fl' s', lf_advlock_op waits [] s1 L op fl = Done (e, fl') s' /\
    lf_ok s' /\ (forall u, loose s' (lf_head s') u = loose s (lf_head s) u) /\
    advlock_post s L op fl e fl' s'.
Proof.
  intros Hok HL Hreq Hnone Eh Hlo Hwait Hop.
  destruct (lf_getblock_spec' s1 L Hok HL) as (r & Eg & Hr). rewrite Eh in Hr.
  unfold lf_advlock_op. destruct Hop as [-> |[-> | ->]]; simpl.
  - rewrite Eg, Hwait. destruct r as [b|]; simpl.
    + eexists _, _, _. split; [done|]. split; [done|]. split.
      * intros u. rewrite loose_lf_free, Hlo. lia.
      * right; right; left. do 3 (split; [done|]). split; [by exists b; apply Hr|done].
    + rewrite <- Eh in Hr. destruct (link_ok s1 L Hok (Hreq eq_refl) Hr) as (s' & -> & Hok' & Hu & Hc).
      rewrite Eh in *. eexists _, _, s'. split; [done|]. split; [done|]. split.
      * intros u. rewrite Hc, Hlo. lia.
      * right; left. done.
  - destruct (clear_ok s1 L Hok HL) as (s' & -> & Hok' & Hu & _ & Hc). rewrite Eh in *.
    eexists _, _, _. split; [done|]. split; [done|]. split.
    + intros u. rewrite loose_lf_free, Hc, Hlo. lia.
    + do 3 right. left. done.
  - unfold lf_getlock. rewrite Eg. destruct r as [b|].
    + eexists _, _, _. split; [done|]. split; [done|]. split.
      * intros u. rewrite loose_lf_free, Hlo. lia.
      * do 4 right. do 3 (split; [done|]). right. exists b. split; [apply Hr|]. split; [apply Hr|done].
    + eexists _, _, _. split; [done|]. split; [done|]. split.
      * intros u. rewrite loose_lf_free, Hlo. lia.
      * do 4 right. do 3 (split; [done|]). by left.
Qed.

(** A request that does not wait either reports an error without
    touching the locks ([ENOLCK] over the user's limit, [EAGAIN] when another
    owner's lock blocks it), or sets, clears or queries exactly the range
    described by the flock structure; in every case the invariant holds and
    no structure is leaked or lost. *)
Theorem lf_advlock_correct waits uid pid s size id op fl flags start end_ :
  lf_ok s -> lf_reqs s !! lf_pool s = None ->
  lf_range size fl = Some (start, end_) -> l_start fl <= OFF_MAX -> end_ <> OFF_MAX ->
  (op = F_SETLK -> l_type fl = F_RDLCK \/ l_type fl = F_WRLCK) ->
  has flags F_WAIT = false -> op = F_SETLK \/ op = F_UNLCK \/ op = F_GETLK ->
  let L := Lockf (lf_pool s) flags (l_type fl) start end_ id uid
             (if has flags F_POSIX then pid else -1) in
  exists e fl' s', lf_advlock waits [] uid pid s size id op fl flags = Done (e, fl') s' /\
    lf_ok s' /\ (forall u, loose s' (lf_head s') u = loose s (lf_head s) u) /\
    advlock_post s L op fl e fl' s'.
Proof.
  intros Hok Hpool Er Hs Hne Ht Hwait Hop L.
  assert (range_ok L) as HL by (by apply (lf_range_ok size fl)).
  unfold lf_advlock. rewrite Er. destruct (_ && _) eqn:Ee.
  { apply andb_true_iff in Ee as [El%Nat.eqb_eq Eo]. apply nil_length_inv in El as Eh.
    eexists _, _, s. split; [done|]. split; [done|]. split; [done|]. unfold advlock_post. rewrite Eh.
    destruct Hop as [-> |[-> | ->]]; [done| |].
    - do 3 right. left. split; [done|]. split; [done|]. by apply updated_empty.
    - do 4 right. split; [done|]. split; [done|]. split; [done|]. left. split; [done|].
      intros k Hk. by apply elem_of_nil in Hk. }
  pose proof (lf_alloc_spec s uid (if op =? F_SETLK then 1 else 2)
    ltac:(destruct (op =? F_SETLK); lia)) as Ha.
  destruct (lf_alloc s uid _) as [[a s1]|].
  - destruct Ha as (-> & Eh & Er1 & Hok1 & Ep & Hlo & _). fold L.
    apply advlock_op_ok; try done; [auto| |by rewrite Er1].
    intros Eop. split; [split; [done|by apply Ht]|]. simpl. split; [lia|]. rewrite Eh. intros k Hk.
    destruct Hok as (_ & _ & _ & Hlt & _). specialize (Hlt k Hk). lia.
  - eexists _, _, s. split; [done|]. split; [done|]. split; [done|]. left.
    split; [done|]. split; [done|]. split; [done|].
    destruct (op =? F_SETLK); by rewrite ?Z.mul_1_l in Ha.
Qed.

(** ** Concrete files *)

(** Owner 1 has a shared lock on [0, 99], owner 2 one on [50, EOF) and a
    sleeping exclusive request of owner 3 for [0, 9] waits on the first. *)
Definition demo_k1 : lockf := Lockf 1 F_POSIX F_RDLCK 0 99 1 1000 11.
Definition demo_k2 : lockf := Lockf 2 F_POSIX F_RDLCK 50 (-1) 2 1000 12.
Definition demo_req : lockf := Lockf 3 (F_POSIX + F_WAIT) F_WRLCK 0 9 3 1001 13.
Definition demo_lf : lfstate :=
  LfState [demo_k1; demo_k2] {[ 1 := [3] ]} {[ 3 := 1 ]} {[ 3 := demo_req ]}
    (fun u => if u =? 1000 then 2 else if u =? 1001 then 1 else 0) 10 [].

Lemma demo_lf_ok : lf_ok demo_lf.
Proof.
  assert (forall k, k ∈ lf_head demo_lf -> k = demo_k1 \/ k = demo_k2) as Hin by set_solver.
  split; [split|split; [|split; [|split; [|split]]]].
  - constructor; [apply sorted1|]. constructor; [|constructor]. unfold order. simpl. lia.
  - repeat constructor; simpl; unfold OFF_MAX; lia.
  - intros id1 id2 b t1 t2 _ (k & Hk & _ & <- & _) (k' & Hk' & _ & <- & _).
    destruct (Hin k Hk) as [-> | ->], (Hin k' Hk') as [-> | ->]; done.
  - apply (bool_decide_unpack _). vm_compute. done.
  - intros k Hk. destruct (Hin k Hk) as [-> | ->]; simpl; lia.
  - intros a w. unfold waiters. simpl. rewrite lookup_singleton_Some.
    destruct (decide (a = 1)) as [->|Ha].
    + rewrite lookup_singleton_eq. simpl. rewrite list_elem_of_singleton. naive_solver.
    + rewrite lookup_singleton_ne by done. simpl. split; [by intros ?%elem_of_nil|naive_solver].
  - intros w a. simpl. rewrite lookup_singleton_Some. intros [<- <-].
    exists demo_k1, demo_req. split; [set_solver|]. split; [done|].
    split; [by rewrite lookup_singleton_eq|]. split; [done|]. split; [|by left].
    unfold overlaps. simpl. unfold hi. simpl. lia.
Qed.

Lemma lf_getblock_correct_witness :
  exists r, getblock demo_lf (Lockf 9 F_POSIX F_WRLCK 120 (-1) 3 1001 13) = Some r /\
    match r with
    | None => forall k, k ∈ lf_head demo_lf -> ~ blocks k (Lockf 9 F_POSIX F_WRLCK 120 (-1) 3 1001 13)
    | Some b => exists l1 l2, lf_head demo_lf = l1 ++ b :: l2 /\
        blocks b (Lockf 9 F_POSIX F_WRLCK 120 (-1) 3 1001 13) /\
        forall k, k ∈ l1 -> ~ blocks k (Lockf 9 F_POSIX F_WRLCK 120 (-1) 3 1001 13)
    end.
Proof.
  apply (lf_getblock_correct demo_lf (Lockf 9 F_POSIX F_WRLCK 120 (-1) 3 1001 13)).
  - repeat constructor; simpl; unfold OFF_MAX; lia.
  - unfold range_ok, OFF_MAX. simpl. lia.
Defined.

(** Clearing [0, 49] of owner 1 wakes the sleeping request. *)
Lemma lf_clearlock_correct_witness :
  let L := Lockf 9 F_POSIX F_UNLCK 0 49 1 1000 11 in
  exists s', lf_clearlock demo_lf L = Done tt s' /\ lf_ok s' /\
    updated L None (lf_head demo_lf) (lf_head s') /\
    forall u, loose s' (lf_head s') u = loose demo_lf (lf_head demo_lf) u.
Proof.
  intros L. apply (lf_clearlock_correct demo_lf L demo_lf_ok).
  unfold range_ok, OFF_MAX. simpl. lia.
Defined.


Lemma lf_advlock_correct_witness :
  let fl := Flock 0 10 0 F_WRLCK SEEK_SET in
  let L := Lockf 10 F_POSIX F_WRLCK 0 9 2 1000 12 in
  exists e fl' s',
    lf_advlock (fun _ => None) [] 1000 12 demo_lf 0 2 F_SETLK fl F_POSIX = Done (e, fl') s' /\
    lf_ok s' /\ (forall u, loose s' (lf_head s') u = loose demo_lf (lf_head demo_lf) u) /\
    advlock_post demo_lf L F_SETLK fl e fl' s'.
Proof.
  intros fl L. apply (lf_advlock_correct (fun _ => None) 1000 12 demo_lf 0 2 F_SETLK fl F_POSIX 0 9
    demo_lf_ok); try reflexivity; try (by left); [done|done|].
  intros _. by right.
Defined.

(** ** The last offset *)

(** A lock that ends at the largest offset breaks the list: with
    [lf_end + 1] wrapping to the most negative offset, an exclusive lock on
    [1, OFF_MAX] inside the owner's shared lock on [1, EOF) leaves a shared
    lock from a negative offset to the end of file beside it, and unlocking
    the whole file afterwards does not remove that lock, because the split
    computes an end of -1, which means the end of file. *)
Theorem lf_setlock_last_offset :
  let s0 := LfState [Lockf 1 F_POSIX F_RDLCK 1 (-1) 1 0 11] ∅ ∅ ∅ (fun _ => 1) 5 [] in
  let set := lf_advlock (fun _ => None) [] 0 11 s0 0 1 F_SETLK
               (Flock 1 OFF_MAX 0 F_WRLCK SEEK_SET) F_POSIX in
  exists s1 s2,
    set = Done (0, Flock 1 OFF_MAX 0 F_WRLCK SEEK_SET) s1 /\
    lf_head s1 = [Lockf 5 F_POSIX F_WRLCK 1 OFF_MAX 1 0 11;
                  Lockf 1 F_POSIX F_RDLCK (- OFF_INF) (-1) 1 0 11] /\
    lf_advlock (fun _ => None) [] 0 11 s1 0 1 F_UNLCK (Flock 0 0 0 F_UNLCK SEEK_SET) F_POSIX =
      Done (0, Flock 0 0 0 F_UNLCK SEEK_SET) s2 /\
    lf_head s2 = [Lockf 1 F_POSIX F_RDLCK (- OFF_INF) (-1) 1 0 11].
Proof. eexists _, _. split; [vm_compute; reflexivity|]. split; [done|]. split; [vm_compute; reflexivity|done]. Qed.
