(* ===== verification/Rwlock.v ===== *)
(** * Reader/writer locks (sys/kern/kern_rwlock.c, sys/sys/rwlock.h)

    The lock is one 64-bit word changed by compare-and-swap.  Threads
    interleave between their accesses to the word and to the sleep queue, so
    each routine is a sequence of atomic steps: a thread's program counter
    says where it is and which word it loaded.  [step] executes one atomic
    step of one thread; a client thread may enter when it holds nothing, and
    leave or downgrade when it holds the lock.  The loads of one assertion
    are one step.  [assertwaitok], the names of the locks and the sleeping
    priorities have no effect on the word and are left out. *)

From stdpp Require Import base numbers list option.
From Stdlib Require Import ZArith Lia Bool.
From S2P Require Import Prelude.

(** ** The lock word *)

Definition RWLOCK_WAIT : Z := 1.
Definition RWLOCK_WRWANT : Z := 2.
Definition RWLOCK_WRLOCK : Z := 4.
Definition RWLOCK_MASK : Z := 7.
Definition RWLOCK_READ_INCR : Z := 8.

Definition RW_WRITE : Z := 1.
Definition RW_READ : Z := 2.
Definition RW_DOWNGRADE : Z := 4.
Definition RW_OPMASK : Z := 7.
Definition RW_INTR : Z := 16.
Definition RW_SLEEPFAIL : Z := 32.
Definition RW_NOSLEEP : Z := 64.
Definition RW_RECURSEFAIL : Z := 128.
Definition RW_WRITE_OTHER : Z := 256.

(** [RW_PROC(p)]: a word without its three low bits; also [RWLOCK_OWNER]. *)
Definition RW_PROC (p : Z) : Z := ul (Z.land p (Z.lnot RWLOCK_MASK)).

(** ** The table of operations *)

Record rwlock_op := RwOp {
  op_inc : Z;
  op_check : Z;
  op_wait_set : Z;
  op_proc_mult : Z
}.

Definition rw_ops (i : Z) : rwlock_op :=
  if i =? 0 then RwOp RWLOCK_WRLOCK ULONG_MAX (Z.lor RWLOCK_WAIT RWLOCK_WRWANT) 1
  else if i =? 1 then RwOp RWLOCK_READ_INCR RWLOCK_WRLOCK RWLOCK_WAIT 0
  else if i =? 3 then RwOp (ul (RWLOCK_READ_INCR - RWLOCK_WRLOCK)) 0 0 (-1)
  else RwOp 0 0 0 0.

Definition op_of (flags : Z) : rwlock_op := rw_ops (Z.land flags RW_OPMASK - 1).

(** [inc = op->inc + RW_PROC(curproc) * op->proc_mult] *)
Definition inc_of (op : rwlock_op) (curproc : Z) : Z :=
  ul (op_inc op + RW_PROC curproc * op_proc_mult op).

(** ** Diagnostics: [true] is a panic *)

Definition rw_enter_diag (owner curproc flags : Z) : bool :=
  let o := Z.land flags RW_OPMASK in
  if (o =? RW_WRITE) || (o =? RW_READ) then RW_PROC curproc =? RW_PROC owner
  else if o =? RW_DOWNGRADE then
    negb (has owner RWLOCK_WRLOCK) || negb (RW_PROC curproc =? RW_PROC owner)
  else true.

Definition rw_assert_wrlock (owner curproc : Z) : bool :=
  negb (has owner RWLOCK_WRLOCK) || negb (RW_PROC owner =? RW_PROC curproc).
Definition rw_assert_rdlock (owner : Z) : bool :=
  (RW_PROC owner =? 0) || has owner RWLOCK_WRLOCK.
Definition rw_assert_unlocked (owner : Z) : bool := negb (owner =? 0).

Definition rw_status (owner curproc : Z) : Z :=
  if has owner RWLOCK_WRLOCK then
    if RW_PROC curproc =? RW_PROC owner then RW_WRITE else RW_WRITE_OTHER
  else if negb (owner =? 0) then RW_READ
  else 0.

(** ** Threads *)

(** The [held] of the exit steps records what the caller holds (true for the
    write lock); the code does not read it. *)
Inductive pc :=
| Idle (r : Z)                (* holds nothing; value of its last rw_enter *)
| HoldR
| HoldW
| FastRead (o : Z)            (* rw_enter_read has loaded the word *)
| FastWrite                   (* rw_enter_write is about to swap *)
| Retry (flags : Z)           (* rw_enter at the condition of its loop *)
| Diag (flags o : Z)          (* the check failed, about to call rw_enter_diag *)
| Queue (flags o : Z)         (* about to give up or call sleep_setup *)
| Setup (flags o : Z)         (* on the sleep queue, about to set the wait bits *)
| Finish (flags : Z) (do_sleep : bool)   (* about to call sleep_finish *)
| Asleep (flags : Z)
| Woken (flags : Z)           (* back from sleep_finish *)
| Swap (flags o : Z)          (* the check passed, about to swap *)
| EnterWake (flags : Z)       (* about to wake the sleepers after a downgrade *)
| CheckR (o : Z)              (* rw_exit_read has loaded the word, about to assert *)
| CheckW (o : Z)
| FastExitR (o : Z)           (* about to swap *)
| FastExitW (o : Z)
| ExitStart (held : bool)     (* rw_exit about to load the word *)
| ExitCheck (held wrlock : bool)
| Leave (held wrlock : bool)  (* rw_exit at the top of its loop *)
| LeaveSwap (held wrlock : bool) (o : Z)
| LeaveWake                   (* about to wake the sleepers *)
| Panicked.

(** A thread is on the sleep queue from [sleep_setup] until it is woken or
    decides not to sleep. *)
Record rwstate := RwState {
  rwl_owner : Z;
  threads : list pc;
  queued : list bool           (* per thread: on the sleep queue *)
}.

Section Step.
(** The address of a thread's [struct proc]. *)
Context (proc : nat -> Z).

Definition goto (s : rwstate) (t : nat) (p : pc) : option rwstate :=
  Some (RwState (rwl_owner s) (<[t := p]> (threads s)) (queued s)).
Definition swap_goto (s : rwstate) (t : nat) (w : Z) (p : pc) : option rwstate :=
  Some (RwState w (<[t := p]> (threads s)) (queued s)).
Definition set_queued (s : rwstate) (t : nat) (b : bool) : rwstate :=
  RwState (rwl_owner s) (threads s) (<[t := b]> (queued s)).

(** [wakeup(rwl)]: everyone leaves the queue; those asleep run again. *)
Definition wake_pc (p : pc) : pc := match p with Asleep f => Woken f | p => p end.
Definition wakeup_all (s : rwstate) : rwstate :=
  RwState (rwl_owner s) (wake_pc <$> threads s) (const false <$> queued s).

(** A client's next call. *)
Inductive call :=
| CallEnterRead
| CallEnterWrite
| CallEnter (flags : Z)
| CallExitRead
| CallExitWrite
| CallExit
| CallContinue (sig : Z).     (* no call: the thread's next atomic step; [sig]
                                 is the value of sleep_finish_signal *)

(** The beginning of a call, up to the load of the word if it starts with one. *)
Definition start (s : rwstate) (t : nat) (c : call) : option rwstate :=
  let w := rwl_owner s in
  match threads s !! t, c with
  | Some (Idle _), CallEnterRead => goto s t (FastRead w)
  | Some (Idle _), CallEnterWrite => goto s t FastWrite
  | Some (Idle _), CallEnter flags =>
      if (Z.land flags RW_OPMASK =? RW_READ) || (Z.land flags RW_OPMASK =? RW_WRITE)
      then goto s t (Retry flags) else None
  | Some HoldW, CallEnter flags =>
      if Z.land flags RW_OPMASK =? RW_DOWNGRADE then goto s t (Retry flags) else None
  | Some HoldR, CallExitRead => goto s t (CheckR w)
  | Some HoldW, CallExitWrite => goto s t (CheckW w)
  | Some HoldR, CallExit => goto s t (ExitStart false)
  | Some HoldW, CallExit => goto s t (ExitStart true)
  | _, _ => None
  end.

(** What a thread holds after a successful [rw_enter]. *)
Definition entered (flags : Z) : pc :=
  if Z.land flags RW_OPMASK =? RW_WRITE then HoldW else HoldR.

(** The other atomic steps. *)
Definition continue (s : rwstate) (t : nat) (sig : Z) : option rwstate :=
  let w := rwl_owner s in
  match threads s !! t with
  | None => None
  | Some (FastRead o) =>
      (* owner & RWLOCK_WRLOCK || rw_cas(&owner, owner, owner + INCR) *)
      if has o RWLOCK_WRLOCK || negb (w =? o) then goto s t (Retry RW_READ)
      else swap_goto s t (o +u RWLOCK_READ_INCR) HoldR
  | Some FastWrite =>
      if negb (w =? 0) then goto s t (Retry RW_WRITE)
      else swap_goto s t (Z.lor (RW_PROC (proc t)) RWLOCK_WRLOCK) HoldW
  | Some (Retry flags) =>
      let op := op_of flags in
      if negb (Z.land w (op_check op) =? 0) then goto s t (Diag flags w)
      else goto s t (Swap flags w)
  | Some (Diag flags o) =>
      goto s t (if rw_enter_diag w (proc t) flags then Panicked else Queue flags o)
  | Some (Queue flags o) =>
      if has flags RW_NOSLEEP then goto s t (Idle EBUSY)
      else goto (set_queued s t true) t (Setup flags o)
  | Some (Setup flags o) =>
      let set := Z.lor o (op_wait_set (op_of flags)) in
      if w =? o then swap_goto s t set (Finish flags true)
      else goto s t (Finish flags false)
  | Some (Finish flags do_sleep) =>
      (* sleep only if still on the queue; otherwise leave it *)
      if do_sleep && default false (queued s !! t) then goto s t (Asleep flags)
      else goto (set_queued s t false) t (Woken flags)
  | Some (Asleep flags) =>
      (* a signal ends an interruptible sleep *)
      if has flags RW_INTR && negb (sig =? 0)
      then goto (set_queued s t false) t (Woken flags) else None
  | Some (Woken flags) =>
      if has flags RW_INTR && negb (sig =? 0) then goto s t (Idle sig)
      else if has flags RW_SLEEPFAIL then goto s t (Idle EAGAIN)
      else goto s t (Retry flags)
  | Some (Swap flags o) =>
      if w =? o then
        let new := o +u inc_of (op_of flags) (proc t) in
        if Z.land o (Z.lor RWLOCK_WRLOCK RWLOCK_WAIT) =? Z.lor RWLOCK_WRLOCK RWLOCK_WAIT
        then swap_goto s t new (EnterWake flags)
        else swap_goto s t new (entered flags)
      else goto s t (Retry flags)
  | Some (EnterWake flags) => goto (wakeup_all s) t (entered flags)
  | Some (CheckR o) => goto s t (if rw_assert_rdlock w then Panicked else FastExitR o)
  | Some (CheckW o) =>
      goto s t (if rw_assert_wrlock w (proc t) then Panicked else FastExitW o)
  | Some (FastExitR o) =>
      if has o RWLOCK_WAIT || negb (w =? o) then goto s t (ExitStart false)
      else swap_goto s t (o -u RWLOCK_READ_INCR) (Idle 0)
  | Some (FastExitW o) =>
      if has o RWLOCK_WAIT || negb (w =? o) then goto s t (ExitStart true)
      else swap_goto s t 0 (Idle 0)
  | Some (ExitStart held) => goto s t (ExitCheck held (has w RWLOCK_WRLOCK))
  | Some (ExitCheck held wrlock) =>
      goto s t (if if wrlock then rw_assert_wrlock w (proc t) else rw_assert_rdlock w
                then Panicked else Leave held wrlock)
  | Some (Leave held wrlock) => goto s t (LeaveSwap held wrlock w)
  | Some (LeaveSwap held wrlock o) =>
      if w =? o then
        let set := if wrlock then 0
                   else Z.land (o -u RWLOCK_READ_INCR)
                          (Z.lnot (Z.lor RWLOCK_WAIT RWLOCK_WRWANT)) in
        swap_goto s t set (if has o RWLOCK_WAIT then LeaveWake else Idle 0)
      else goto s t (Leave held wrlock)
  | Some LeaveWake => goto (wakeup_all s) t (Idle 0)
  | Some (Idle _) | Some HoldR | Some HoldW | Some Panicked => None
  end.

Definition step (s : rwstate) (t : nat) (c : call) : option rwstate :=
  match c with
  | CallContinue sig => continue s t sig
  | c => start s t c
  end.

(** A schedule: which thread moves, and how. *)
Fixpoint execute (s : rwstate) (sched : list (nat * call)) : option rwstate :=
  match sched with
  | [] => Some s
  | (t, c) :: sched => s' ← step s t c; execute s' sched
  end.

Definition rw_init (n : nat) : rwstate :=
  RwState 0 (replicate n (Idle 0)) (replicate n false).

End Step.

(** ** Recursive locks

    [rrwl_wcnt] is only touched by the holder, so a call is modelled without
    interference: [rw_enter_once] is [rw_enter] when its swaps succeed, and
    [Blocked] when it would sleep. *)

Record rrwlock := Rrw { rrwl_owner : Z; rrwl_wcnt : Z }.

Definition rw_enter_once (owner curproc flags : Z) : run Z Z :=
  let op := op_of flags in
  if negb (Z.land owner (op_check op) =? 0) then
    if rw_enter_diag owner curproc flags then Panic
    else if has flags RW_NOSLEEP then Done EBUSY owner
    else Blocked (Z.lor owner (op_wait_set op))
  else Done 0 (owner +u inc_of op curproc).

Definition rw_exit_once (owner curproc : Z) : run Z unit :=
  let wrlock := has owner RWLOCK_WRLOCK in
  if (if wrlock then rw_assert_wrlock owner curproc else rw_assert_rdlock owner) then Panic
  else Done tt (if wrlock then 0
                else Z.land (owner -u RWLOCK_READ_INCR)
                       (Z.lnot (Z.lor RWLOCK_WAIT RWLOCK_WRWANT))).

Definition rrw_init : rrwlock := Rrw 0 0.

Definition u32 (x : Z) : Z := x `mod` 4294967296.

Definition rrw_enter (l : rrwlock) (curproc flags : Z) : run rrwlock Z :=
  if RW_PROC (rrwl_owner l) =? RW_PROC curproc then
    if has flags RW_RECURSEFAIL then Done EDEADLK l
    else Done 0 (Rrw (rrwl_owner l) (u32 (rrwl_wcnt l + 1)))
  else
    match rw_enter_once (rrwl_owner l) curproc flags with
    | Done r o => Done r (Rrw o (if r =? 0 then 1 else rrwl_wcnt l))
    | Blocked o => Blocked (Rrw o (rrwl_wcnt l))
    | Panic => Panic
    | NoFuel => NoFuel
    end.

Definition rrw_exit (l : rrwlock) (curproc : Z) : run rrwlock unit :=
  let leave (l : rrwlock) : run rrwlock unit :=
    match rw_exit_once (rrwl_owner l) curproc with
    | Done _ o => Done tt (Rrw o (rrwl_wcnt l))
    | Blocked o => Blocked (Rrw o (rrwl_wcnt l))
    | Panic => Panic
    | NoFuel => NoFuel
    end in
  if RW_PROC (rrwl_owner l) =? RW_PROC curproc then
    if negb (rrwl_wcnt l >? 0) then Panic
    else
      let l1 := Rrw (rrwl_owner l) (u32 (rrwl_wcnt l - 1)) in
      if negb (rrwl_wcnt l1 =? 0) then Done tt l1 else leave l1
  else leave l.

Definition rrw_status (l : rrwlock) (curproc : Z) : Z := rw_status (rrwl_owner l) curproc.
