(* ===== verification/RwlockFacts.v ===== *)
(** * Mutual exclusion and wake-ups of the reader/writer locks

    Invariants of every interleaving of the steps of
    sys/kern/kern_rwlock.c. *)

From stdpp Require Import base numbers list option.
From Stdlib Require Import ZArith Lia Bool.
From S2P Require Import Prelude Rwlock.

(** ** The bits of the word *)

Lemma tb8 a b n :
  0 <= b < 8 -> 0 <= n ->
  Z.testbit (8 * a + b) n = if n <? 3 then Z.testbit b n else Z.testbit a (n - 3).
Proof.
  intros Hb Hn. destruct (Z.ltb_spec n 3).
  - rewrite <- (Z.mod_pow2_bits_low (8 * a + b) 3 n) by lia. f_equal.
    symmetry. apply Z.mod_unique with a; lia.
  - replace n with (n - 3 + 3) at 1 by lia. rewrite <- Z.div_pow2_bits by lia. f_equal.
    symmetry. apply Z.div_unique with b; lia.
Qed.

Lemma tb_small m n : 0 <= m < 8 -> 3 <= n -> Z.testbit m n = false.
Proof.
  intros Hm Hn. pose proof (tb8 0 m n Hm ltac:(lia)) as H. rewrite Z.mul_0_r, Z.add_0_l in H.
  rewrite H. replace (n <? 3) with false by lia. apply Z.bits_0.
Qed.

Lemma land_low a b m : 0 <= b < 8 -> 0 <= m < 8 -> Z.land (8 * a + b) m = Z.land b m.
Proof.
  intros Hb Hm. apply Z.bits_inj'. intros n Hn. rewrite !Z.land_spec, tb8 by done.
  destruct (Z.ltb_spec n 3); [done|]. by rewrite (tb_small m n), !andb_false_r by lia.
Qed.

Lemma has_low a b m : 0 <= b < 8 -> 0 <= m < 8 -> has (8 * a + b) m = has b m.
Proof. intros. unfold has. by rewrite land_low. Qed.

Lemma lor_small b m : 0 <= b < 8 -> 0 <= m < 8 -> 0 <= Z.lor b m < 8.
Proof.
  intros Hb Hm. split; [apply Z.lor_nonneg; lia|].
  assert (Z.lor b m = Z.lor b m `mod` 8) as ->; [|by apply Z.mod_pos_bound].
  apply Z.bits_inj'. intros n Hn. change 8 with (2 ^ 3). destruct (Z.ltb_spec n 3).
  - by rewrite Z.mod_pow2_bits_low.
  - by rewrite Z.mod_pow2_bits_high, Z.lor_spec, !tb_small by lia.
Qed.

Lemma lor_low a b m : 0 <= b < 8 -> 0 <= m < 8 -> Z.lor (8 * a + b) m = 8 * a + Z.lor b m.
Proof.
  intros Hb Hm. pose proof (lor_small b m Hb Hm). apply Z.bits_inj'. intros n Hn.
  rewrite Z.lor_spec, !tb8 by done. destruct (Z.ltb_spec n 3); [by rewrite Z.lor_spec|].
  by rewrite (tb_small m n), orb_false_r by lia.
Qed.

Lemma clear_low a b : 0 <= b < 8 -> Z.land (8 * a + b) (Z.lnot 7) = 8 * a.
Proof.
  intros Hb. rewrite <- (Z.add_0_r (8 * a)) at 2. apply Z.bits_inj'. intros n Hn.
  rewrite Z.land_spec, Z.lnot_spec, !tb8 by lia. change 7 with (Z.ones 3).
  rewrite Z.testbit_ones_nonneg by lia. destruct (Z.ltb_spec n 3); simpl.
  - rewrite Z.bits_0. apply andb_false_r.
  - apply andb_true_r.
Qed.

Lemma clear_wait a b :
  0 <= b < 8 -> Z.land (8 * a + b) (Z.lnot 3) = 8 * a + Z.land b 4.
Proof.
  intros Hb. assert (0 <= Z.land b 4 < 8) as H4.
  { split; [apply Z.land_nonneg; lia|]. destruct (decide (Z.testbit b 2 = true)) as [E|E].
    - replace (Z.land b 4) with 4; [lia|]. change 4 with (2 ^ 2).
      apply Z.bits_inj'. intros n Hn. rewrite Z.land_spec, Z.pow2_bits_eqb by lia.
      destruct (Z.eqb_spec 2 n) as [<-|]; [by rewrite E|]. by rewrite andb_false_r.
    - replace (Z.land b 4) with 0; [lia|]. change 4 with (2 ^ 2).
      apply Z.bits_inj'. intros n Hn. rewrite Z.land_spec, Z.pow2_bits_eqb, Z.bits_0 by lia.
      destruct (Z.eqb_spec 2 n) as [<-|]; [|by rewrite andb_false_r].
      destruct (Z.testbit b 2); done. }
  apply Z.bits_inj'. intros n Hn. rewrite Z.land_spec, Z.lnot_spec, !tb8 by lia.
  assert (Z.testbit 3 n = (n <? 2)) as -> by (apply (Z.testbit_ones_nonneg 2); lia).
  destruct (Z.ltb_spec n 3).
  - rewrite Z.land_spec. change 4 with (2 ^ 2). rewrite Z.pow2_bits_eqb by lia.
    f_equal. destruct (Z.ltb_spec n 2), (Z.eqb_spec 2 n); try done; lia.
  - replace (n <? 2) with false by lia. apply andb_true_r.
Qed.

Lemma RW_PROC_word a b : 0 <= a -> 0 <= b < 8 -> 8 * a + b < UL_MOD -> RW_PROC (8 * a + b) = 8 * a.
Proof.
  intros Ha Hb Hlt. unfold RW_PROC. rewrite clear_low by done. apply ul_id.
  unfold is_ul. lia.
Qed.

(** ** Counting threads *)

Definition b2z (b : bool) : Z := if b then 1 else 0.

Fixpoint cnt (f : pc -> bool) (l : list pc) : Z :=
  match l with [] => 0 | p :: l => b2z (f p) + cnt f l end.

Lemma cnt_nonneg f l : 0 <= cnt f l <= Z.of_nat (length l).
Proof. induction l as [|p l IH]; simpl; [lia|]. unfold b2z. destruct (f p); lia. Qed.

Lemma cnt_insert f l t p p' :
  l !! t = Some p -> cnt f (<[t := p']> l) = cnt f l - b2z (f p) + b2z (f p').
Proof.
  revert t. induction l as [|q l IH]; intros [|t] E; simpl in *; try done.
  - injection E as ->. lia.
  - rewrite (IH t) by done. lia.
Qed.

Lemma cnt_lookup f l t p : l !! t = Some p -> b2z (f p) <= cnt f l.
Proof.
  revert t. induction l as [|q l IH]; intros [|t] E; simpl in *; try done.
  - injection E as ->. pose proof (cnt_nonneg f l). lia.
  - specialize (IH t E). unfold b2z in *. destruct (f q); lia.
Qed.

Lemma cnt_unique f l t t' p p' :
  l !! t = Some p -> l !! t' = Some p' -> f p = true -> f p' = true -> cnt f l = 1 -> t = t'.
Proof.
  revert t t'. induction l as [|q l IH]; intros [|t] [|t'] E E' Hf Hf' H1; simpl in *; try done.
  - injection E as ->. rewrite Hf in H1. pose proof (cnt_lookup f l t' p' E'). rewrite Hf' in *.
    simpl in *. lia.
  - injection E' as ->. rewrite Hf' in H1. pose proof (cnt_lookup f l t p E). rewrite Hf in *.
    simpl in *. lia.
  - f_equal. apply (IH t t'); try done. pose proof (cnt_lookup f l t p E). rewrite Hf in *.
    pose proof (cnt_nonneg f l). unfold b2z in *. destruct (f q); lia.
Qed.

Lemma cnt_fmap f g l : (forall p, f (g p) = f p) -> cnt f (g <$> l) = cnt f l.
Proof.
  intros H. induction l as [|p l IH]; [done|]. rewrite fmap_cons. cbn [cnt]. by rewrite H, IH.
Qed.

(** ** What a program counter holds *)

Definition is_op (flags op : Z) : bool := Z.land flags RW_OPMASK =? op.

Definition excl (p : pc) : bool :=
  match p with
  | HoldW | CheckW _ | FastExitW _ => true
  | Retry f | Swap f _ => is_op f RW_DOWNGRADE
  | ExitStart h | ExitCheck h _ | Leave h _ | LeaveSwap h _ _ => h
  | _ => false
  end.

Definition shar (p : pc) : bool :=
  match p with
  | HoldR | CheckR _ | FastExitR _ | EnterWake _ => true
  | ExitStart h | ExitCheck h _ | Leave h _ | LeaveSwap h _ _ => negb h
  | _ => false
  end.

(** About to call [wakeup]. *)
Definition waker (p : pc) : bool :=
  match p with EnterWake _ | LeaveWake => true | _ => false end.

(** Asleep, or bound to sleep. *)
Definition sleeper (p : pc) (q : bool) : bool :=
  match p with Asleep _ => true | Finish _ true => q | _ => false end.

Definition enter_op (flags : Z) : Prop :=
  is_op flags RW_READ = true \/ is_op flags RW_WRITE = true.

Definition pc_ok (p : pc) : Prop :=
  match p with
  | Retry f => enter_op f \/ is_op f RW_DOWNGRADE = true
  | Diag f _ | Queue f _ | Setup f _ | Finish f _ | Asleep f | Woken f => enter_op f
  | Swap f o => (enter_op f \/ is_op f RW_DOWNGRADE = true) /\ Z.land o (op_check (op_of f)) = 0
  | EnterWake f => is_op f RW_DOWNGRADE = true
  | ExitCheck h w | Leave h w | LeaveSwap h w _ => h = w
  | Panicked => False
  | _ => True
  end.

Lemma op_read f : is_op f RW_READ = true -> op_of f = rw_ops 1.
Proof. unfold is_op, op_of. intros E. bool_to_prop. by rewrite E. Qed.
Lemma op_write f : is_op f RW_WRITE = true -> op_of f = rw_ops 0.
Proof. unfold is_op, op_of. intros E. bool_to_prop. by rewrite E. Qed.
Lemma op_downgrade f : is_op f RW_DOWNGRADE = true -> op_of f = rw_ops 3.
Proof. unfold is_op, op_of. intros E. bool_to_prop. by rewrite E. Qed.

Lemma enter_not_downgrade f : enter_op f -> is_op f RW_DOWNGRADE = false.
Proof. unfold enter_op, is_op, RW_READ, RW_WRITE, RW_DOWNGRADE. lia. Qed.

Lemma entered_op f :
  (is_op f RW_WRITE = true -> entered f = HoldW) /\ (is_op f RW_WRITE = false -> entered f = HoldR).
Proof. unfold entered, is_op. split; by intros ->. Qed.

Section Invariant.
Context (proc : nat -> Z) (n : nat).

(** Process structures are aligned, distinct, and above every reader count. *)
Hypothesis proc_aligned : forall t, (t < n)%nat -> proc t `mod` 8 = 0.
Hypothesis proc_range : forall t, (t < n)%nat -> 8 * Z.of_nat n + 8 <= proc t < UL_MOD.
Hypothesis proc_inj : forall t t', (t < n)%nat -> (t' < n)%nat -> proc t = proc t' -> t = t'.
#[local] Set Default Proof Using "All".

Record inv (s : rwstate) : Prop := {
  inv_len : length (threads s) = n /\ length (queued s) = n;
  inv_pc : forall t p, threads s !! t = Some p -> pc_ok p;
  inv_word : exists fl, 0 <= fl < 4 /\
    ((cnt excl (threads s) = 0 /\ rwl_owner s = 8 * cnt shar (threads s) + fl) \/
     (exists t p, threads s !! t = Some p /\ excl p = true /\ cnt excl (threads s) = 1 /\
        cnt shar (threads s) = 0 /\ rwl_owner s = proc t + 4 + fl));
  inv_wake : forall t p q, threads s !! t = Some p -> queued s !! t = Some q ->
    sleeper p q = true -> has (rwl_owner s) RWLOCK_WAIT = true \/
    exists t' p', threads s !! t' = Some p' /\ waker p' = true
}.

Lemma proc_split t : (t < n)%nat -> exists a, proc t = 8 * a /\ 0 < a /\ 8 * a + 7 < UL_MOD.
Proof.
  intros Ht. exists (proc t / 8). pose proof (Z.div_mod (proc t) 8 ltac:(lia)) as E.
  rewrite (proc_aligned t Ht) in E. pose proof (proc_range t Ht). unfold UL_MOD in *. lia.
Qed.

Lemma n_range : 8 * Z.of_nat n + 16 <= UL_MOD.
Proof.
  destruct (decide (n = 0%nat)) as [->|Hn]; [unfold UL_MOD; lia|].
  destruct (proc_split 0 ltac:(lia)) as (a & Ea & _ & Hlt).
  pose proof (proc_range 0 ltac:(lia)). unfold UL_MOD in *. lia.
Qed.

Lemma lt_n s t p : inv s -> threads s !! t = Some p -> (t < n)%nat.
Proof. intros Hi Ht. rewrite <- (proj1 (inv_len s Hi)). by eapply lookup_lt_Some. Qed.

(** The word seen from a thread that holds the lock. *)
Lemma word_excl s t p :
  inv s -> threads s !! t = Some p -> excl p = true ->
  exists a fl, 0 <= fl < 4 /\ proc t = 8 * a /\ 0 < a /\ 8 * a + 7 < UL_MOD /\
    cnt excl (threads s) = 1 /\ cnt shar (threads s) = 0 /\ rwl_owner s = 8 * a + (4 + fl).
Proof.
  intros Hi Ht He. destruct (inv_word s Hi) as (fl & Hfl & [[E0 _]|(t' & p' & Ht' & He' & E1 & E2 & Ew)]).
  - pose proof (cnt_lookup excl _ t p Ht). rewrite He in *. simpl in *. lia.
  - assert (t = t') as <- by (by eapply (cnt_unique excl)).
    destruct (proc_split t (lt_n s t p Hi Ht)) as (a & Ea & Ha & Hlt). exists a, fl. split_and!; try done; lia.
Qed.

Lemma word_shar s t p :
  inv s -> threads s !! t = Some p -> shar p = true ->
  exists a fl, 0 <= fl < 4 /\ a = cnt shar (threads s) /\ 1 <= a <= Z.of_nat n /\
    cnt excl (threads s) = 0 /\ rwl_owner s = 8 * a + fl.
Proof.
  intros Hi Ht Hs. pose proof (cnt_lookup shar _ t p Ht) as Hc. rewrite Hs in Hc. simpl in Hc.
  pose proof (cnt_nonneg shar (threads s)) as Hn. rewrite (proj1 (inv_len s Hi)) in Hn.
  destruct (inv_word s Hi) as (fl & Hfl & [[E0 E1]|(t' & p' & _ & _ & _ & E2 & _)]); [|lia].
  exists (cnt shar (threads s)), fl. split_and!; try done; lia.
Qed.

(** Any state of the word. *)
Lemma word_any s :
  inv s -> exists a b, 0 <= a /\ 0 <= b < 8 /\ 8 * a + b + 8 < UL_MOD + 8 /\ rwl_owner s = 8 * a + b /\
    (has b RWLOCK_WRLOCK = false -> cnt excl (threads s) = 0 /\ a = cnt shar (threads s) /\ b < 4) /\
    (has b RWLOCK_WRLOCK = true -> exists t p, threads s !! t = Some p /\ excl p = true /\ proc t = 8 * a).
Proof.
  intros Hi. destruct (inv_word s Hi) as (fl & Hfl & [[E0 E1]|(t & p & Ht & He & E1 & E2 & Ew)]).
  - pose proof (cnt_nonneg shar (threads s)) as Hn. rewrite (proj1 (inv_len s Hi)) in Hn.
    exists (cnt shar (threads s)), fl. pose proof n_range.
    split_and!; try done; try lia.
    assert (fl = 0 \/ fl = 1 \/ fl = 2 \/ fl = 3) as [->|[->|[->| ->]]] by lia; done.
  - destruct (proc_split t (lt_n s t p Hi Ht)) as (a & Ea & Ha & Hlt). exists a, (4 + fl).
    split_and!; try lia.
    + assert (fl = 0 \/ fl = 1 \/ fl = 2 \/ fl = 3) as [->|[->|[->| ->]]] by lia; done.
    + intros _. by exists t, p.
Qed.

(** ** Steps that leave the word alone *)

Lemma inv_local s t p p' qs :
  inv s -> threads s !! t = Some p -> excl p' = excl p -> shar p' = shar p -> pc_ok p' ->
  waker p = false -> length qs = n ->
  (forall t', t' <> t -> qs !! t' = queued s !! t') ->
  (forall q, qs !! t = Some q -> sleeper p' q = true ->
     exists q0, queued s !! t = Some q0 /\ sleeper p q0 = true) ->
  inv (RwState (rwl_owner s) (<[t := p']> (threads s)) qs).
Proof.
  intros Hi Ht He Hs Hp Hw Hlen Hq Hsl. split; simpl.
  - rewrite length_insert. split; [apply (inv_len s Hi)|done].
  - intros t0 p0 [(-> & <- & _)|[Hne H0]]%list_lookup_insert_Some; [done|]. by apply (inv_pc s Hi t0).
  - destruct (inv_word s Hi) as (fl & Hfl & Hc). exists fl. split; [done|].
    rewrite !(cnt_insert _ _ t p p' Ht), He, Hs.
    destruct Hc as [[E0 E1]|(t0 & p0 & Ht0 & He0 & E1 & E2 & Ew)]; [left; split; lia|right].
    destruct (decide (t0 = t)) as [->|Hne].
    + exists t, p'. rewrite list_lookup_insert_eq by (by eapply lookup_lt_Some).
      rewrite Ht in Ht0. injection Ht0 as <-. split_and!; try done; try congruence; lia.
    + exists t0, p0. rewrite list_lookup_insert_ne by done. split_and!; try done; lia.
  - intros t0 p0 q0 H0 Hq0 Hsl0.
    assert (exists q1 p1, threads s !! t0 = Some p1 /\ queued s !! t0 = Some q1 /\
      sleeper p1 q1 = true) as (q1 & p1 & H1 & Hq1 & Hs1).
    { destruct (decide (t0 = t)) as [->|Hne].
      - rewrite list_lookup_insert_eq in H0 by (by eapply lookup_lt_Some). injection H0 as <-.
        destruct (Hsl q0 Hq0 Hsl0) as (q1 & Hq1 & Hs1). by exists q1, p.
      - rewrite list_lookup_insert_ne in H0 by done. rewrite Hq in Hq0 by done. by exists q0, p0. }
    destruct (inv_wake s Hi t0 p1 q1 H1 Hq1 Hs1) as [?|(t' & p2 & H2 & Hw2)]; [by left|right].
    exists t', p2. rewrite list_lookup_insert_ne; [done|]. intros ->. congruence.
Qed.

Lemma inv_goto s t p p' s' :
  inv s -> threads s !! t = Some p -> goto s t p' = Some s' ->
  excl p' = excl p -> shar p' = shar p -> pc_ok p' -> waker p = false ->
  (forall q, sleeper p' q = true -> sleeper p q = true) -> inv s'.
Proof.
  intros Hi Ht [= <-] He Hs Hp Hw Hsl. apply (inv_local s t p); try done.
  - apply (inv_len s Hi).
  - intros q Hq Hq'. exists q. auto.
Qed.

Lemma inv_requeue s t p p' b s' :
  inv s -> threads s !! t = Some p -> goto (set_queued s t b) t p' = Some s' ->
  excl p' = excl p -> shar p' = shar p -> pc_ok p' -> waker p = false ->
  (forall q, sleeper p' q = false) -> inv s'.
Proof.
  intros Hi Ht [= <-] He Hs Hp Hw Hsl. apply (inv_local s t p); try done.
  - rewrite length_insert. apply (inv_len s Hi).
  - intros t' Hne. by rewrite list_lookup_insert_ne.
  - intros q _ Hq'. by rewrite Hsl in Hq'.
Qed.

(** ** Wake-ups *)

Lemma inv_wakeup s t p p' s' :
  inv s -> threads s !! t = Some p -> goto (wakeup_all s) t p' = Some s' ->
  excl p' = excl p -> shar p' = shar p -> pc_ok p' -> (forall q, sleeper p' q = false) -> inv s'.
Proof.
  intros Hi Ht [= <-] He Hs Hp Hsl. destruct (inv_len s Hi) as [L1 L2].
  assert ((wake_pc <$> threads s) !! t = Some (wake_pc p)) as Ht' by (by rewrite list_lookup_fmap, Ht).
  assert (forall p, excl (wake_pc p) = excl p) as Xe by (by intros []).
  assert (forall p, shar (wake_pc p) = shar p) as Xs by (by intros []).
  split; simpl.
  - by rewrite length_insert, !length_fmap.
  - intros t0 p0 [(-> & <- & _)|[Hne H0]]%list_lookup_insert_Some; [done|].
    apply list_lookup_fmap_Some in H0 as (p1 & -> & H1). pose proof (inv_pc s Hi t0 p1 H1).
    by destruct p1.
  - destruct (inv_word s Hi) as (fl & Hfl & Hc). exists fl. split; [done|].
    rewrite !(cnt_insert _ _ t (wake_pc p) p' Ht'), !cnt_fmap by done. rewrite Xe, Xs, He, Hs.
    destruct Hc as [[E0 E1]|(t0 & p0 & Ht0 & He0 & E1 & E2 & Ew)]; [left; split; lia|right].
    destruct (decide (t0 = t)) as [->|Hne].
    + exists t, p'. rewrite list_lookup_insert_eq by (by eapply lookup_lt_Some).
      rewrite Ht in Ht0. injection Ht0 as <-. split_and!; try done; try congruence; lia.
    + exists t0, (wake_pc p0). rewrite list_lookup_insert_ne, list_lookup_fmap, Ht0 by done.
      rewrite Xe. split_and!; try done; lia.
  - intros t0 p0 q0 H0 Hq0 Hsl0. exfalso.
    apply list_lookup_fmap_Some in Hq0 as (q1 & -> & _).
    apply list_lookup_insert_Some in H0 as [(-> & <- & _)|[Hne H0]]; [by rewrite Hsl in Hsl0|].
    apply list_lookup_fmap_Some in H0 as (p1 & -> & _). destruct p1 as [| | | | | | | | | ? [] | | | | | | | | | | | | | |]; done.
Qed.

(** ** Steps that change the word *)

Definition word_clause (w : Z) (th : list pc) : Prop :=
  exists fl, 0 <= fl < 4 /\
    ((cnt excl th = 0 /\ w = 8 * cnt shar th + fl) \/
     (exists t p, th !! t = Some p /\ excl p = true /\ cnt excl th = 1 /\
        cnt shar th = 0 /\ w = proc t + 4 + fl)).

Lemma inv_swap s t p p' w' s' :
  inv s -> threads s !! t = Some p -> swap_goto s t w' p' = Some s' -> pc_ok p' ->
  waker p = false -> word_clause w' (<[t := p']> (threads s)) ->
  (has (rwl_owner s) RWLOCK_WAIT = true -> has w' RWLOCK_WAIT = true \/ waker p' = true) ->
  (forall q, sleeper p' q = true -> has w' RWLOCK_WAIT = true) -> inv s'.
Proof.
  intros Hi Ht [= <-] Hp Hw Hc Hwait Hsl. destruct (inv_len s Hi) as [L1 L2]. split; simpl.
  - by rewrite length_insert.
  - intros t0 p0 [(-> & <- & _)|[Hne H0]]%list_lookup_insert_Some; [done|]. by apply (inv_pc s Hi t0).
  - done.
  - intros t0 p0 q0 [(-> & <- & _)|[Hne H0]]%list_lookup_insert_Some Hq0 Hsl0; [by left; eauto|].
    destruct (inv_wake s Hi t0 p0 q0 H0 Hq0 Hsl0) as [Ho|(t' & p2 & H2 & Hw2)].
    + destruct (Hwait Ho) as [?|Hwk]; [by left|right]. exists t, p'.
      by rewrite list_lookup_insert_eq by (by eapply lookup_lt_Some).
    + right. exists t', p2. rewrite list_lookup_insert_ne; [done|]. intros ->. congruence.
Qed.

(** A reader more, a writer, a reader less, nobody. *)
Lemma clause_reader s t p p' fl :
  threads s !! t = Some p -> excl p = false -> shar p = false -> excl p' = false -> shar p' = true ->
  0 <= fl < 4 -> cnt excl (threads s) = 0 ->
  word_clause (8 * (cnt shar (threads s) + 1) + fl) (<[t := p']> (threads s)).
Proof.
  intros Ht E1 E2 E3 E4 Hfl E0. exists fl. split; [done|]. left.
  rewrite !(cnt_insert _ _ t p p' Ht), E1, E2, E3, E4. simpl. lia.
Qed.

Lemma clause_writer s t p p' :
  threads s !! t = Some p -> excl p = false -> shar p = false -> excl p' = true -> shar p' = false ->
  cnt excl (threads s) = 0 -> cnt shar (threads s) = 0 ->
  word_clause (proc t + 4) (<[t := p']> (threads s)).
Proof.
  intros Ht E1 E2 E3 E4 E0 E5. exists 0. split; [lia|]. right. exists t, p'.
  rewrite list_lookup_insert_eq by (by eapply lookup_lt_Some).
  rewrite !(cnt_insert _ _ t p p' Ht), E1, E2, E3, E4. simpl. split_and!; try done; lia.
Qed.

Lemma clause_leave s t p p' fl :
  threads s !! t = Some p -> excl p' = false -> shar p' = false -> 0 <= fl < 4 ->
  cnt excl (threads s) = b2z (excl p) ->
  word_clause (8 * (cnt shar (threads s) - b2z (shar p)) + fl) (<[t := p']> (threads s)).
Proof.
  intros Ht E3 E4 Hfl E0. exists fl. split; [done|]. left.
  rewrite !(cnt_insert _ _ t p p' Ht), E3, E4. simpl. lia.
Qed.

Lemma clause_downgrade s t p p' fl :
  threads s !! t = Some p -> excl p = true -> shar p = false -> excl p' = false -> shar p' = true ->
  0 <= fl < 4 -> cnt excl (threads s) = 1 -> cnt shar (threads s) = 0 ->
  word_clause (8 + fl) (<[t := p']> (threads s)).
Proof.
  intros Ht E1 E2 E3 E4 Hfl E0 E5. exists fl. split; [done|]. left.
  rewrite !(cnt_insert _ _ t p p' Ht), E1, E2, E3, E4. simpl. lia.
Qed.

(** Wait bits added. *)
Lemma clause_wait s t p p' m :
  inv s -> threads s !! t = Some p -> excl p = false -> shar p = false -> excl p' = false ->
  shar p' = false -> m = 1 \/ m = 3 ->
  word_clause (Z.lor (rwl_owner s) m) (<[t := p']> (threads s)) /\
  has (Z.lor (rwl_owner s) m) RWLOCK_WAIT = true.
Proof.
  intros Hi Ht E1 E2 E3 E4 Hm.
  assert (forall fl, 0 <= fl < 4 -> exists fl', 0 <= fl' < 4 /\ Z.lor fl m = fl' /\
    Z.lor (4 + fl) m = 4 + fl' /\ has fl' 1 = true /\ has (4 + fl') 1 = true) as Hfl'.
  { intros fl Hfl. assert (fl = 0 \/ fl = 1 \/ fl = 2 \/ fl = 3) as [->|[->|[->| ->]]] by lia;
      destruct Hm as [-> | ->]; eexists; split_and!; try (vm_compute; reflexivity); lia. }
  unfold word_clause. rewrite !(cnt_insert _ _ t p p' Ht), E1, E2, E3, E4. simpl.
  destruct (inv_word s Hi) as (fl & Hfl & [[E0 Ew]|(t0 & p0 & Ht0 & He0 & E5 & E6 & Ew)]);
    destruct (Hfl' fl Hfl) as (fl' & Hf & L1 & L2 & B1 & B2).
  - rewrite Ew, lor_low, L1 by lia. unfold RWLOCK_WAIT. rewrite has_low, B1 by lia.
    split; [|done]. exists fl'. split; [done|]. left. lia.
  - destruct (proc_split t0 (lt_n s t0 p0 Hi Ht0)) as (a & Ea & Ha & Hlt).
    rewrite Ew, Ea, <- Z.add_assoc, lor_low, L2 by lia. unfold RWLOCK_WAIT. rewrite has_low, B2 by lia.
    split; [|done]. exists fl'. split; [done|]. right. exists t0, p0.
    rewrite list_lookup_insert_ne by (intros ->; congruence). split_and!; try done; lia.
Qed.

(** ** The steps of a thread *)

Lemma RW_PROC_proc t : (t < n)%nat -> RW_PROC (proc t) = proc t.
Proof.
  intros Ht. destruct (proc_split t Ht) as (a & Ea & Ha & Hlt). rewrite Ea.
  rewrite <- (Z.add_0_r (8 * a)) at 1. apply RW_PROC_word; lia.
Qed.

(** A thread that holds nothing never meets its own address in the word. *)
Lemma diag_ok s t p f :
  inv s -> threads s !! t = Some p -> excl p = false -> enter_op f ->
  rw_enter_diag (rwl_owner s) (proc t) f = false.
Proof.
  intros Hi Ht He Hf. unfold rw_enter_diag.
  replace (_ || _) with true by (unfold enter_op, is_op in Hf; destruct Hf as [-> | ->]; by rewrite ?orb_true_r).
  destruct (word_any s Hi) as (a & b & Ha & Hb & Hlt & -> & H0 & H1).
  pose proof (lt_n s t p Hi Ht) as Hn.
  rewrite RW_PROC_proc, RW_PROC_word by lia. apply Z.eqb_neq. intros E.
  destruct (has b RWLOCK_WRLOCK).
  - destruct H1 as (t' & p' & Ht' & He' & Ep); [done|]. rewrite <- Ep in E.
    apply proc_inj in E as ->; [congruence|done|by apply (lt_n s t' p')].
  - destruct H0 as (_ & -> & _); [done|]. pose proof (cnt_nonneg shar (threads s)) as Hc.
    rewrite (proj1 (inv_len s Hi)) in Hc. pose proof (proc_range t Hn). lia.
Qed.

(** The assertions of the exit routines hold for a holder. *)
Lemma excl_word s t p :
  inv s -> threads s !! t = Some p -> excl p = true ->
  has (rwl_owner s) RWLOCK_WRLOCK = true /\ rw_assert_wrlock (rwl_owner s) (proc t) = false.
Proof.
  intros Hi Ht He. destruct (word_excl s t p Hi Ht He) as (a & fl & Hfl & Ea & Ha & Hlt & _ & _ & ->).
  pose proof (lt_n s t p Hi Ht) as Hn. unfold rw_assert_wrlock, RWLOCK_WRLOCK.
  rewrite has_low, RW_PROC_word, RW_PROC_proc, Ea, Z.eqb_refl by lia.
  assert (fl = 0 \/ fl = 1 \/ fl = 2 \/ fl = 3) as [->|[->|[->| ->]]] by lia; done.
Qed.

Lemma shar_word s t p :
  inv s -> threads s !! t = Some p -> shar p = true ->
  has (rwl_owner s) RWLOCK_WRLOCK = false /\ rw_assert_rdlock (rwl_owner s) = false.
Proof.
  intros Hi Ht Hs. destruct (word_shar s t p Hi Ht Hs) as (a & fl & Hfl & _ & Ha & _ & ->).
  pose proof n_range. unfold rw_assert_rdlock, RWLOCK_WRLOCK.
  rewrite has_low, RW_PROC_word by lia. replace (8 * a =? 0) with false by lia.
  assert (fl = 0 \/ fl = 1 \/ fl = 2 \/ fl = 3) as [->|[->|[->| ->]]] by lia; done.
Qed.

(** Adding a reader to a word without the write bit. *)
Lemma read_swap s t p p' s' o :
  inv s -> threads s !! t = Some p -> rwl_owner s = o -> has o RWLOCK_WRLOCK = false ->
  excl p = false -> shar p = false -> excl p' = false -> shar p' = true -> pc_ok p' ->
  waker p = false -> (forall q, sleeper p' q = false) ->
  swap_goto s t (o +u RWLOCK_READ_INCR) p' = Some s' -> inv s'.
Proof.
  intros Hi Ht <- Hw E1 E2 E3 E4 Hp Hk Hsl Hg.
  destruct (word_any s Hi) as (a & b & Ha & Hb & Hlt & Ew & H0 & _).
  rewrite Ew in Hw. unfold RWLOCK_WRLOCK in Hw. rewrite has_low in Hw by lia.
  destruct (H0 Hw) as (E0 & Ea & Hb4). pose proof (cnt_nonneg shar (threads s)) as Hn.
  rewrite (proj1 (inv_len s Hi)) in Hn. pose proof n_range.
  assert (rwl_owner s +u RWLOCK_READ_INCR = 8 * (cnt shar (threads s) + 1) + b) as Enew.
  { rewrite uadd_exact; unfold RWLOCK_READ_INCR; lia. }
  rewrite Enew in Hg. apply (inv_swap s t p p' (8 * (cnt shar (threads s) + 1) + b) s'); try done.
  - apply (clause_reader s t p); try done. lia.
  - rewrite Ew. unfold RWLOCK_WAIT. rewrite !has_low by lia. by left.
  - intros q Hq. by rewrite Hsl in Hq.
Qed.

(** Taking a free word. *)
Lemma write_swap s t p p' w' s' :
  inv s -> threads s !! t = Some p -> rwl_owner s = 0 -> w' = proc t + 4 ->
  excl p = false -> shar p = false -> excl p' = true -> shar p' = false -> pc_ok p' ->
  waker p = false -> (forall q, sleeper p' q = false) ->
  swap_goto s t w' p' = Some s' -> inv s'.
Proof.
  intros Hi Ht E0 -> E1 E2 E3 E4 Hp Hk Hsl Hg.
  destruct (word_any s Hi) as (a & b & Ha & Hb & Hlt & Ew & H0 & _).
  assert (a = 0 /\ b = 0) as [-> ->] by lia. destruct (H0 eq_refl) as (Ex & Es & _).
  apply (inv_swap s t p p' (proc t + 4) s'); try done.
  - apply (clause_writer s t p); try done.
  - by rewrite E0.
  - intros q Hq. by rewrite Hsl in Hq.
Qed.

Lemma downgrade_inc a fl :
  0 < a -> 8 * a + 7 < UL_MOD -> 0 <= fl < 4 ->
  ul ((8 * a + (4 + fl)) + ul (ul (8 - 4) + 8 * a * -1)) = 8 + fl.
Proof.
  intros Ha Hlt Hfl. rewrite ul_add_r, <- (ul_id (8 + fl)).
  - f_equal. change (ul (8 - 4)) with 4. lia.
  - unfold is_ul, UL_MOD. lia.
Qed.

(** The exclusive holder becomes a reader. *)
Lemma downgrade_swap s t f o s' :
  inv s -> threads s !! t = Some (Swap f o) -> rwl_owner s = o -> is_op f RW_DOWNGRADE = true ->
  (if Z.land o (Z.lor RWLOCK_WRLOCK RWLOCK_WAIT) =? Z.lor RWLOCK_WRLOCK RWLOCK_WAIT
   then swap_goto s t (o +u inc_of (op_of f) (proc t)) (EnterWake f)
   else swap_goto s t (o +u inc_of (op_of f) (proc t)) (entered f)) = Some s' -> inv s'.
Proof.
  intros Hi Ht <- Hd Hg.
  destruct (word_excl s t _ Hi Ht Hd) as (a & fl & Hfl & Ea & Ha & Hlt & Ce & Cs & Ew).
  assert (rwl_owner s +u inc_of (op_of f) (proc t) = 8 + fl) as Enew.
  { rewrite Ew, op_downgrade by done. unfold inc_of. rewrite RW_PROC_proc, Ea by (by apply (lt_n s t _ Hi Ht)). unfold uadd.
    by apply downgrade_inc. }
  assert (entered f = HoldR) as Een.
  { apply entered_op. unfold is_op, RW_WRITE, RW_DOWNGRADE in *. lia. }
  assert (has (rwl_owner s) RWLOCK_WAIT = true -> has (8 + fl) RWLOCK_WAIT = true) as Hkeep.
  { rewrite Ew. unfold RWLOCK_WAIT. rewrite has_low by lia.
    assert (fl = 0 \/ fl = 1 \/ fl = 2 \/ fl = 3) as [->|[->|[->| ->]]] by lia; done. }
  rewrite Enew, Een in Hg.
  step_if_in Hg; eapply (inv_swap s t _ _ _ _ Hi Ht Hg); try done; auto;
    by apply (clause_downgrade s t (Swap f (rwl_owner s))).
Qed.

Lemma swap_step s t f o s' :
  inv s -> threads s !! t = Some (Swap f o) -> rwl_owner s = o ->
  (if Z.land o (Z.lor RWLOCK_WRLOCK RWLOCK_WAIT) =? Z.lor RWLOCK_WRLOCK RWLOCK_WAIT
   then swap_goto s t (o +u inc_of (op_of f) (proc t)) (EnterWake f)
   else swap_goto s t (o +u inc_of (op_of f) (proc t)) (entered f)) = Some s' -> inv s'.
Proof.
  intros Hi Ht Ho Hg. destruct (inv_pc s Hi t _ Ht) as [Hop Hchk].
  destruct Hop as [Hop|Hop]; [|by apply (downgrade_swap s t f o)].
  pose proof (enter_not_downgrade f Hop) as Hnd.
  destruct (word_any s Hi) as (a & b & Ha & Hb & Hlt & Ew & _).
  destruct Hop as [Hop|Hop].
  - rewrite (op_read f Hop) in *. simpl in Hchk.
    assert (has o RWLOCK_WRLOCK = false) as Hw by (unfold has; by rewrite Hchk).
    assert ((Z.land o 5 =? 5) = false) as E5.
    { apply Z.eqb_neq. intros E. assert (Z.land (Z.land o 5) 4 = 4) as E4 by (by rewrite E).
      rewrite <- Z.land_assoc in E4. change (Z.land 5 4) with 4 in E4.
      unfold RWLOCK_WRLOCK in Hchk. lia. }
    change (Z.lor RWLOCK_WRLOCK RWLOCK_WAIT) with 5 in Hg. rewrite E5 in Hg.
    rewrite (proj2 (entered_op f)) in Hg by (unfold is_op, RW_READ, RW_WRITE in *; lia).
    unfold inc_of in Hg. simpl in Hg. rewrite Z.mul_0_r, Z.add_0_r in Hg.
    change (ul RWLOCK_READ_INCR) with RWLOCK_READ_INCR in Hg.
    by apply (read_swap s t (Swap f o) HoldR s' o).
  - rewrite (op_write f Hop) in *. simpl in Hchk.
    assert (o = 0) as Eo.
    { rewrite <- Ho, Ew in *. change ULONG_MAX with (Z.ones 64) in Hchk.
      rewrite Z.land_ones in Hchk by lia. rewrite Z.mod_small in Hchk by (unfold UL_MOD in *; lia). lia. }
    rewrite (proj1 (entered_op f) Hop), Eo in Hg. simpl in Hg.
    assert (0 +u inc_of (RwOp RWLOCK_WRLOCK ULONG_MAX 3 1) (proc t) = proc t + 4) as Enew.
    { pose proof (lt_n s t _ Hi Ht) as Hn. unfold inc_of. simpl. rewrite RW_PROC_proc by done.
      destruct (proc_split t Hn) as (a1 & Ea1 & Ha1 & Hlt1).
      unfold uadd. rewrite Z.add_0_l, ul_ul, ul_id; unfold is_ul, RWLOCK_WRLOCK; lia. }
    rewrite Ho in *. by apply (write_swap s t (Swap f o) HoldW _ s' Hi Ht ltac:(lia) Enew).
Qed.

(** A reader leaves; the wait bits may be cleared if the sleepers are woken. *)
Lemma leave_read s t p p' w' s' :
  inv s -> threads s !! t = Some p -> shar p = true -> excl p = false -> waker p = false ->
  excl p' = false -> shar p' = false -> pc_ok p' -> (forall q, sleeper p' q = false) ->
  w' = rwl_owner s -u RWLOCK_READ_INCR /\ has (rwl_owner s) RWLOCK_WAIT = false \/
  w' = Z.land (rwl_owner s -u RWLOCK_READ_INCR) (Z.lnot 3) /\
    (has (rwl_owner s) RWLOCK_WAIT = true -> waker p' = true) ->
  swap_goto s t w' p' = Some s' -> inv s'.
Proof.
  intros Hi Ht Hs He Hk E3 E4 Hp Hsl Hw Hg.
  destruct (word_shar s t p Hi Ht Hs) as (a & fl & Hfl & Ea & Ha & Ce & Ew).
  pose proof n_range.
  assert (rwl_owner s -u RWLOCK_READ_INCR = 8 * (a - 1) + fl) as Em.
  { rewrite usub_exact; unfold RWLOCK_READ_INCR; lia. }
  assert (exists fl', 0 <= fl' < 4 /\ w' = 8 * (cnt shar (threads s) - 1) + fl') as (fl' & Hfl' & ->).
  { rewrite Em in Hw. destruct Hw as [[-> _]|[-> _]]; [exists fl; lia|]. exists 0.
    rewrite clear_wait by lia. assert (Z.land fl 4 = 0) as ->; [|lia].
    assert (fl = 0 \/ fl = 1 \/ fl = 2 \/ fl = 3) as [->|[->|[->| ->]]] by lia; done. }
  apply (inv_swap s t p p' (8 * (cnt shar (threads s) - 1) + fl') s'); try done.
  - pose proof (clause_leave s t p p' fl' Ht E3 E4 Hfl') as Hc. rewrite Hs, He in Hc.
    apply Hc. simpl. lia.
  - intros Hwait. destruct Hw as [[_ Hn]|[_ Hn]]; [congruence|right; auto].
  - intros q Hq. by rewrite Hsl in Hq.
Qed.

(** The writer leaves. *)
Lemma leave_write s t p p' s' :
  inv s -> threads s !! t = Some p -> excl p = true -> shar p = false -> waker p = false ->
  excl p' = false -> shar p' = false -> pc_ok p' -> (forall q, sleeper p' q = false) ->
  (has (rwl_owner s) RWLOCK_WAIT = true -> waker p' = true) ->
  swap_goto s t 0 p' = Some s' -> inv s'.
Proof.
  intros Hi Ht He Hs Hk E3 E4 Hp Hsl Hw Hg.
  destruct (word_excl s t p Hi Ht He) as (a & fl & _ & _ & _ & _ & Ce & Cs & _).
  apply (inv_swap s t p p' 0 s'); try done.
  - pose proof (clause_leave s t p p' 0 Ht E3 E4 ltac:(lia)) as Hc. rewrite Hs, He, Cs in Hc.
    apply Hc. done.
  - intros Hwait. right. auto.
  - intros q Hq. by rewrite Hsl in Hq.
Qed.

Lemma start_inv s t c s' : inv s -> start s t c = Some s' -> inv s'.
Proof.
  intros Hi Hst. unfold start in Hst. destruct (threads s !! t) as [p|] eqn:Ht; [|done].
  destruct p, c; try done; try (step_if_in Hst; [|done]);
    apply (inv_goto s t _ _ s' Hi Ht Hst); try done; simpl; unfold enter_op, is_op in *;
    unfold RW_READ, RW_WRITE, RW_DOWNGRADE in *; auto; lia.
Qed.

Ltac by_goto Hi Ht Hst := apply (inv_goto _ _ _ _ _ Hi Ht Hst); try done.

Lemma setup_step s t f o s' :
  inv s -> threads s !! t = Some (Setup f o) -> rwl_owner s = o ->
  swap_goto s t (Z.lor o (op_wait_set (op_of f))) (Finish f true) = Some s' -> inv s'.
Proof.
  intros Hi Ht <- Hg. pose proof (inv_pc s Hi t _ Ht) as Hop. simpl in Hop.
  assert (op_wait_set (op_of f) = 1 \/ op_wait_set (op_of f) = 3) as Hm.
  { destruct Hop as [Hop|Hop]; [rewrite op_read by done; by left|rewrite op_write by done; by right]. }
  destruct (clause_wait s t _ (Finish f true) _ Hi Ht eq_refl eq_refl eq_refl eq_refl Hm) as [Hc Hw].
  apply (inv_swap s t _ _ _ s' Hi Ht Hg); try done. auto.
Qed.

Lemma enter_step s t sig s' p :
  inv s -> threads s !! t = Some p -> continue proc s t sig = Some s' ->
  match p with
  | FastRead _ | FastWrite | Retry _ | Diag _ _ | Queue _ _ | Setup _ _ | Finish _ _
  | Asleep _ | Woken _ | Swap _ _ | EnterWake _ => True
  | _ => False
  end -> inv s'.
Proof.
  intros Hi Ht Hst Hp. unfold continue in Hst. rewrite Ht in Hst.
  pose proof (inv_pc s Hi t p Ht) as Hok. destruct p as [| | |o| |f|f o|f o|f o|f d|f|f|f o|f| | | | | | | | | |];
    try done; simpl in Hok.
  - (* FastRead *)
    step_if_in Hst; [by_goto Hi Ht Hst; by left; left|]. apply orb_false_iff in Heqb as [Hw Eo].
    apply negb_false_iff, Z.eqb_eq in Eo. by apply (read_swap s t (FastRead o) HoldR s' o).
  - (* FastWrite *)
    destruct (Z.eqb_spec (rwl_owner s) 0) as [E0|E0]; simpl in Hst; [|by_goto Hi Ht Hst; by left; right].
    apply (write_swap s t FastWrite HoldW (Z.lor (RW_PROC (proc t)) RWLOCK_WRLOCK) s'); try done.
    pose proof (lt_n s t _ Hi Ht) as Hn. destruct (proc_split t Hn) as (a & Ea & Ha & Hlt).
    rewrite RW_PROC_proc, Ea by done. rewrite <- (Z.add_0_r (8 * a)). unfold RWLOCK_WRLOCK. rewrite lor_low by lia.
    change (Z.lor 0 4) with 4. lia.
  - (* Retry *)
    destruct (Z.eqb_spec (Z.land (rwl_owner s) (op_check (op_of f))) 0) as [E|E]; simpl in Hst.
    + by_goto Hi Ht Hst.
    + destruct Hok as [Hok|Hok].
      * by_goto Hi Ht Hst. simpl. by rewrite enter_not_downgrade.
      * rewrite op_downgrade in E by done. simpl in E. by rewrite Z.land_0_r in E.
  - (* Diag *)
    rewrite (diag_ok s t (Diag f o) f) in Hst by done. by_goto Hi Ht Hst.
  - (* Queue *)
    step_if_in Hst; [by_goto Hi Ht Hst|]. by apply (inv_requeue s t _ _ true s' Hi Ht Hst).
  - (* Setup *)
    destruct (Z.eqb_spec (rwl_owner s) o) as [E|E]; [by apply (setup_step s t f o)|by_goto Hi Ht Hst].
  - (* Finish *)
    destruct (d && default false (queued s !! t)) eqn:Ed.
    + apply andb_true_iff in Ed as [-> Eq].
      assert (exists q, queued s !! t = Some q /\ sleeper (Finish f true) q = true) as Hs.
      { destruct (queued s !! t) as [q|]; [|done]. by exists q. }
      injection Hst as <-. apply (inv_local s t (Finish f true) (Asleep f)); try done.
      apply (inv_len s Hi).
    + by apply (inv_requeue s t _ _ false s' Hi Ht Hst).
  - (* Asleep *)
    step_if_in Hst; [|done]. by apply (inv_requeue s t _ _ false s' Hi Ht Hst).
  - (* Woken *)
    pose proof (enter_not_downgrade f Hok) as Hnd.
    step_if_in Hst; [by_goto Hi Ht Hst|]. step_if_in Hst; by_goto Hi Ht Hst. by left.
  - (* Swap *)
    destruct (Z.eqb_spec (rwl_owner s) o) as [E|E]; [by apply (swap_step s t f o)|by_goto Hi Ht Hst].
    apply Hok.
  - (* EnterWake *)
    assert (entered f = HoldR) as Een.
    { apply entered_op. unfold is_op, RW_WRITE, RW_DOWNGRADE in *. lia. }
    rewrite Een in Hst. by apply (inv_wakeup s t (EnterWake f) HoldR s').
Qed.

Lemma exit_step s t sig s' p :
  inv s -> threads s !! t = Some p -> continue proc s t sig = Some s' ->
  match p with
  | CheckR _ | CheckW _ | FastExitR _ | FastExitW _ | ExitStart _ | ExitCheck _ _
  | Leave _ _ | LeaveSwap _ _ _ | LeaveWake => True
  | _ => False
  end -> inv s'.
Proof.
  intros Hi Ht Hst Hp. unfold continue in Hst. rewrite Ht in Hst.
  pose proof (inv_pc s Hi t p Ht) as Hok.
  destruct p as [| | | | | | | | | | | | | |o|o|o|o|h|h w|h w|h w o| |]; try done; simpl in Hok.
  - destruct (shar_word s t _ Hi Ht eq_refl) as [_ Ha]. rewrite Ha in Hst. by_goto Hi Ht Hst.
  - destruct (excl_word s t _ Hi Ht eq_refl) as [_ Ha]. rewrite Ha in Hst. by_goto Hi Ht Hst.
  - step_if_in Hst; [by_goto Hi Ht Hst|]. apply orb_false_iff in Heqb as [Hw Eo].
    apply negb_false_iff, Z.eqb_eq in Eo. subst o.
    apply (leave_read s t _ (Idle 0) (rwl_owner s -u RWLOCK_READ_INCR) s' Hi Ht); try done. by left.
  - step_if_in Hst; [by_goto Hi Ht Hst|]. apply orb_false_iff in Heqb as [Hw Eo].
    apply negb_false_iff, Z.eqb_eq in Eo. subst o.
    apply (leave_write s t _ (Idle 0) s' Hi Ht); try done. by rewrite Hw.
  - by_goto Hi Ht Hst. simpl. destruct h.
    + by destruct (excl_word s t _ Hi Ht eq_refl) as [-> _].
    + by destruct (shar_word s t _ Hi Ht eq_refl) as [-> _].
  - subst w. assert ((if h then rw_assert_wrlock (rwl_owner s) (proc t)
      else rw_assert_rdlock (rwl_owner s)) = false) as Ha.
    { destruct h; [by apply (excl_word s t _ Hi Ht eq_refl)|by apply (shar_word s t _ Hi Ht eq_refl)]. }
    rewrite Ha in Hst. by_goto Hi Ht Hst.
  - by_goto Hi Ht Hst.
  - subst w. destruct (Z.eqb_spec (rwl_owner s) o) as [E|E]; [subst o|by_goto Hi Ht Hst].
    destruct h; destruct (has (rwl_owner s) RWLOCK_WAIT) eqn:Hw.
    1,2: eapply (leave_write s t _ _ s' Hi Ht eq_refl eq_refl eq_refl); try apply Hst;
         rewrite ?Hw; done.
    all: eapply (leave_read s t _ _ _ s' Hi Ht eq_refl eq_refl eq_refl); try apply Hst; try done;
         right; split; [done|]; by rewrite ?Hw.
  - by apply (inv_wakeup s t LeaveWake (Idle 0) s').
Qed.

(** Every atomic step of every thread preserves the invariant. *)
Lemma step_inv s t c s' : inv s -> step proc s t c = Some s' -> inv s'.
Proof.
  intros Hi Hst. destruct c; try (by apply (start_inv s t _ s' Hi Hst)). simpl in Hst.
  destruct (threads s !! t) as [p|] eqn:Ht; [|by unfold continue in Hst; rewrite Ht in Hst].
  destruct p; try (by apply (enter_step s t _ s' _ Hi Ht Hst));
    try (by apply (exit_step s t _ s' _ Hi Ht Hst)); unfold continue in Hst; by rewrite Ht in Hst.
Qed.

Lemma cnt_replicate f m p : f p = false -> cnt f (replicate m p) = 0.
Proof. intros H. induction m; simpl; [done|]. by rewrite H. Qed.

Lemma init_inv : inv (rw_init n).
Proof.
  split; simpl.
  - by rewrite !length_replicate.
  - intros t p [-> _]%lookup_replicate. done.
  - exists 0. split; [lia|]. left. by rewrite !cnt_replicate.
  - intros t p q [-> _]%lookup_replicate. done.
Qed.

Lemma execute_inv s sched s' : inv s -> execute proc s sched = Some s' -> inv s'.
Proof.
  revert s. induction sched as [|[t c] sched IH]; intros s Hi; simpl; [by intros [= <-]|].
  destruct (step proc s t c) as [s1|] eqn:E; [|done]. simpl. apply IH. by apply (step_inv s t c).
Qed.

(** ** The wait bits *)

(** The bit for waiting writers comes with the wait bit, and the wait bit only
    with a holder: every word with a holder is at least 8. *)
Definition word_ok (w : Z) : Prop :=
  (has w RWLOCK_WRWANT = true -> has w RWLOCK_WAIT = true) /\ (has w RWLOCK_WAIT = true -> 8 <= w).

(** A thread on its way to sleep has seen a word that keeps it out. *)
Definition pc_chk (p : pc) : Prop :=
  match p with Diag f o | Queue f o | Setup f o => Z.land o (op_check (op_of f)) <> 0 | _ => True end.

Lemma holder_ge s t p : inv s -> threads s !! t = Some p -> excl p || shar p = true -> 8 <= rwl_owner s.
Proof.
  intros Hi Ht H. destruct (excl p) eqn:He.
  - destruct (word_excl s t p Hi Ht He) as (a & fl & ? & ? & ? & ? & _ & _ & ->). lia.
  - destruct (word_shar s t p Hi Ht H) as (a & fl & ? & ? & ? & _ & ->). lia.
Qed.

Lemma has_ul8 x k m : 0 <= m < 8 -> has (ul (x + 8 * k)) m = has x m.
Proof.
  intros Hm. unfold ul. set (y := (x + 8 * k) `mod` UL_MOD).
  assert (exists c, y = x + 8 * c) as [c ->].
  { exists (k - (x + 8 * k) / UL_MOD * (UL_MOD / 8)). unfold y. pose proof (Z.div_mod (x + 8 * k) UL_MOD ltac:(unfold UL_MOD; lia)).
    change (UL_MOD / 8) with 2305843009213693952. unfold UL_MOD in *. lia. }
  pose proof (Z.div_mod x 8 ltac:(lia)). pose proof (Z.mod_pos_bound x 8 ltac:(lia)).
  replace (x + 8 * c) with (8 * (x / 8 + c) + x `mod` 8) by lia. rewrite has_low by done.
  rewrite H at 2. by rewrite has_low.
Qed.

(** The word after a swap that keeps the two bits and leaves a holder, or has none of the bits. *)
Lemma word_ok_same w w' : word_ok w -> has w' RWLOCK_WAIT = has w RWLOCK_WAIT -> has w' RWLOCK_WRWANT = has w RWLOCK_WRWANT -> 8 <= w' -> word_ok w'.
Proof. intros [H1 H2] E1 E2 H. split; [by rewrite E1, E2|done]. Qed.
Lemma word_ok_none w : has w RWLOCK_WAIT = false -> has w RWLOCK_WRWANT = false -> word_ok w.
Proof. intros E1 E2. split; [by rewrite E2|by rewrite E1]. Qed.

Lemma proc_bits t : (t < n)%nat -> word_ok (proc t + 4).
Proof.
  intros Ht. destruct (proc_split t Ht) as (a & -> & _ & _). apply word_ok_none; unfold RWLOCK_WAIT, RWLOCK_WRWANT; by rewrite has_low.
Qed.

(** A word that keeps somebody out is held. *)
Lemma checked_ge s f : inv s -> word_ok (rwl_owner s) -> enter_op f -> Z.land (rwl_owner s) (op_check (op_of f)) <> 0 -> 8 <= rwl_owner s.
Proof.
  intros Hi [W1 W2] Hf Hc. destruct (word_any s Hi) as (a & b & Ha & Hb & Hlt & Ew & _ & Hx).
  assert (Hr : has (rwl_owner s) RWLOCK_WRLOCK = true -> 8 <= rwl_owner s).
  { intros H. rewrite Ew in H. unfold RWLOCK_WRLOCK in *. rewrite has_low in H by lia. destruct (Hx H) as (t & p & Ht & He & _).
    apply (holder_ge s t p Hi Ht). by rewrite He. }
  destruct Hf as [Hf|Hf].
  - rewrite (op_read f Hf) in Hc. apply Hr. unfold has. apply negb_true_iff, Z.eqb_neq. exact Hc.
  - rewrite (op_write f Hf) in Hc. simpl in Hc. rewrite Ew in *. unfold RWLOCK_WAIT, RWLOCK_WRWANT, RWLOCK_WRLOCK in *.
    rewrite !has_low in * by lia. destruct (Z.eq_dec a 0) as [->|]; [|lia].
    assert (b = 0 \/ b = 1 \/ b = 2 \/ b = 3 \/ b = 4 \/ b = 5 \/ b = 6 \/ b = 7) as Hbb by lia.
    destruct Hbb as [->|[->|[->|[->|[->|[->|[->| ->]]]]]]]; try (by apply W2); try (by apply Hr); by apply W2, W1.
Qed.

Lemma swap_word s t f o s' : inv s -> inv s' -> word_ok (rwl_owner s) -> threads s !! t = Some (Swap f o) -> rwl_owner s = o ->
  threads s' !! t = Some (EnterWake f) \/ threads s' !! t = Some (entered f) ->
  rwl_owner s' = o +u inc_of (op_of f) (proc t) -> word_ok (rwl_owner s').
Proof.
  intros Hi Hi' W Ht Ho Ht' Ew. destruct (inv_pc s Hi t _ Ht) as [Hop Hchk]. pose proof (lt_n s t _ Hi Ht) as Hn.
  assert (Hg : 8 <= rwl_owner s').
  { destruct Ht' as [Ht'|Ht']; apply (holder_ge s' t _ Hi' Ht'); [done|]. unfold entered. by destruct (_ =? _). }
  destruct Hop as [[Hop|Hop]|Hop].
  - rewrite (op_read f Hop) in Ew. unfold inc_of, uadd in Ew. simpl in Ew. rewrite Z.mul_0_r, Z.add_0_r in Ew.
    change (ul RWLOCK_READ_INCR) with (8 * 1) in Ew. apply (word_ok_same (rwl_owner s)); auto; rewrite Ew, Ho; apply has_ul8; done.
  - rewrite (op_write f Hop) in Ew, Hchk. simpl in Hchk.
    assert (o = 0) as Eo.
    { destruct (word_any s Hi) as (a & b & Ha & Hb & Hlt & E & _). rewrite <- Ho, E in *. change ULONG_MAX with (Z.ones 64) in Hchk.
      rewrite Z.land_ones in Hchk by lia. rewrite Z.mod_small in Hchk by (unfold UL_MOD in *; lia). lia. }
    rewrite Eo in Ew. replace (rwl_owner s') with (proc t + 4); [by apply proc_bits|]. rewrite Ew. unfold inc_of, uadd. simpl.
    destruct (proc_split t Hn) as (a & Ea & ? & ?). rewrite RW_PROC_proc by done. rewrite Z.mul_1_r, ul_add_r.
    rewrite ul_id; unfold is_ul, RWLOCK_WRLOCK; lia.
  - assert (Ex : excl (Swap f o) = true) by done. destruct (word_excl s t _ Hi Ht Ex) as (a & fl & Hfl & Ea & Ha & Hlt & _ & _ & Es).
    assert (E8 : rwl_owner s' = 8 + fl).
    { rewrite Ew, <- Ho, Es, (op_downgrade f Hop). unfold inc_of. rewrite RW_PROC_proc, Ea by done. unfold uadd. by apply downgrade_inc. }
    apply (word_ok_same (rwl_owner s)); auto; rewrite E8, Es; unfold RWLOCK_WAIT, RWLOCK_WRWANT; rewrite has_low by lia;
      assert (fl = 0 \/ fl = 1 \/ fl = 2 \/ fl = 3) as [->|[->|[->| ->]]] by lia; done.
Qed.

Lemma entered_chk f : pc_chk (entered f).
Proof. unfold entered. by destruct (Z.land f RW_OPMASK =? RW_WRITE). Qed.

Lemma start_same s t c s' : start s t c = Some s' ->
  exists p', s' = RwState (rwl_owner s) (<[t := p']> (threads s)) (queued s) /\ pc_chk p'.
Proof.
  unfold start. intros Hst. destruct (threads s !! t) as [p|]; [|done].
  destruct p, c; try done; try (step_if_in Hst; [|done]); injection Hst as <-; by eexists.
Qed.

Lemma step_word s t c s' : inv s -> word_ok (rwl_owner s) -> (forall u p, threads s !! u = Some p -> pc_chk p) ->
  step proc s t c = Some s' -> word_ok (rwl_owner s') /\ forall u p, threads s' !! u = Some p -> pc_chk p.
Proof.
  intros Hi W C Hst. pose proof (step_inv s t c s' Hi Hst) as Hi'.
  assert (Keep : forall p' qs w, s' = RwState w (<[t := p']> (threads s)) qs -> pc_chk p' -> forall u p, threads s' !! u = Some p -> pc_chk p).
  { intros p' qs w -> Hp u p [(-> & <- & _)|[Hne H0]]%list_lookup_insert_Some; [done|]. by apply (C u). }
  assert (Wake : forall p' qs w, s' = RwState w (<[t := p']> (wake_pc <$> threads s)) qs -> pc_chk p' -> forall u p, threads s' !! u = Some p -> pc_chk p).
  { intros p' qs w -> Hp u p [(-> & <- & _)|[Hne H0]]%list_lookup_insert_Some; [done|].
    apply list_lookup_fmap_Some in H0 as (p1 & -> & H1). pose proof (C u p1 H1). by destruct p1. }
  destruct (threads s !! t) as [p|] eqn:Ht; [|by destruct c; simpl in Hst; unfold start, continue in Hst; rewrite Ht in Hst].
  pose proof (C t p Ht) as Cp. pose proof (inv_pc s Hi t p Ht) as Hok.
  assert (New : forall w p' qs, s' = RwState w (<[t := p']> (threads s)) qs -> threads s' !! t = Some p').
  { intros w p' qs ->. apply list_lookup_insert_eq. by eapply lookup_lt_Some. }
  assert (Dc : (exists sig, c = CallContinue sig) \/ ~ exists sig, c = CallContinue sig).
  { destruct c; try (right; intros [sig E]; discriminate E). left. by eexists. }
  destruct Dc as [[sig ->]|Nc].
  2:{ destruct (start_same s t c s') as (p' & E & Hp'); [by destruct c; try done; exfalso; apply Nc; eexists|].
      split; [by rewrite E|by eapply Keep]. }
  simpl in Hst. unfold continue in Hst. rewrite Ht in Hst.
  assert (Same : forall p' qs, Some s' = Some (RwState (rwl_owner s) (<[t := p']> (threads s)) qs) -> pc_chk p' ->
    word_ok (rwl_owner s') /\ forall u p, threads s' !! u = Some p -> pc_chk p).
  { intros p' qs [= E] Hp. split; [by rewrite E|by eapply Keep]. }
  destruct p as [| | |o| |f|f o|f o|f o|f d|f|f|f o|f|o|o|o|o|h|h w|h w|h w o| |]; try done; simpl in Hok, Cp.
  - step_if_in Hst; [by eapply Same|]. apply orb_false_iff in Heqb as [_ Eo]. apply negb_false_iff, Z.eqb_eq in Eo.
    injection Hst as E. symmetry in E. split; [|by eapply Keep].
    apply (word_ok_same (rwl_owner s)); [done|..|by apply (holder_ge s' t HoldR Hi' (New _ _ _ E))];
      rewrite E, Eo; unfold uadd; change RWLOCK_READ_INCR with (8 * 1); by apply has_ul8.
  - destruct (Z.eqb_spec (rwl_owner s) 0) as [E0|E0]; simpl in Hst; [|by eapply Same].
    injection Hst as E. symmetry in E. split; [|by eapply Keep]. rewrite E. simpl. pose proof (lt_n s t _ Hi Ht) as Hn.
    rewrite RW_PROC_proc by done. destruct (proc_split t Hn) as (a & Ea & _). rewrite Ea. rewrite <- (Z.add_0_r (8 * a)).
    unfold RWLOCK_WRLOCK. rewrite lor_low by lia. change (Z.lor 0 4) with 4. rewrite <- Ea. by apply proc_bits.
  - destruct (Z.eqb_spec (Z.land (rwl_owner s) (op_check (op_of f))) 0) as [E|E]; simpl in Hst; by eapply Same.
  - by destruct (rw_enter_diag _ _ _); eapply Same.
  - step_if_in Hst; by eapply Same.
  - destruct (Z.eqb_spec (rwl_owner s) o) as [E|E]; [|by eapply Same].
    injection Hst as E1. symmetry in E1. split; [|by eapply Keep]. rewrite E1. simpl. subst o.
    assert (8 <= rwl_owner s) by (by apply (checked_ge s f)).
    destruct (clause_wait s t _ (Finish f true) (op_wait_set (op_of f)) Hi Ht eq_refl eq_refl eq_refl eq_refl) as [_ Hw].
    { destruct Hok as [Hop|Hop]; [rewrite op_read by done; by left|rewrite op_write by done; by right]. }
    split; [done|]. intros _. destruct (word_any s Hi) as (a & b & Ha & Hb & _ & Ew & _). rewrite Ew in *.
    assert (0 <= op_wait_set (op_of f) < 8).
    { destruct Hok as [Hop|Hop]; [rewrite op_read by done; done|rewrite op_write by done; done]. }
    rewrite lor_low by done. pose proof (lor_small b (op_wait_set (op_of f)) Hb ltac:(done)). lia.
  - step_if_in Hst; by eapply Same.
  - step_if_in Hst; [by eapply Same|done].
  - repeat step_if_in Hst; by eapply Same.
  - destruct (Z.eqb_spec (rwl_owner s) o) as [E|E]; [|by eapply Same].
    step_if_in Hst; injection Hst as E1; symmetry in E1; (split; [|eapply Keep; [exact E1|first [done | apply entered_chk]]]);
      (eapply (swap_word s t f o s'); [done..| |by rewrite E1]); [left|right]; by eapply New.
  - injection Hst as E. symmetry in E. split; [by rewrite E|]. eapply Wake; [exact E|apply entered_chk].
  - by destruct (rw_assert_rdlock _); eapply Same.
  - by destruct (rw_assert_wrlock _ _); eapply Same.
  - step_if_in Hst; [by eapply Same|]. apply orb_false_iff in Heqb as [Hw Eo]. apply negb_false_iff, Z.eqb_eq in Eo.
    injection Hst as E. symmetry in E. split; [|by eapply Keep]. rewrite E. simpl. subst o.
    assert (has (rwl_owner s) RWLOCK_WRWANT = false).
    { destruct (has (rwl_owner s) RWLOCK_WRWANT) eqn:Hr; [|done]. by rewrite (proj1 W) in Hw. }
    unfold usub. change RWLOCK_READ_INCR with (8 * 1). rewrite <- Z.add_opp_r, <- Z.mul_opp_r. by apply word_ok_none; rewrite has_ul8.
  - step_if_in Hst; [by eapply Same|]. injection Hst as E. symmetry in E. split; [by rewrite E|by eapply Keep].
  - by eapply Same.
  - by destruct (if w then _ else _); eapply Same.
  - by eapply Same.
  - destruct (Z.eqb_spec (rwl_owner s) o) as [E|E]; [|by eapply Same].
    injection Hst as E1. symmetry in E1. split; [|eapply Keep; [exact E1|by destruct (has o RWLOCK_WAIT)]]. rewrite E1. simpl.
    destruct w; [done|]. change (Z.lor RWLOCK_WAIT RWLOCK_WRWANT) with 3.
    apply word_ok_none; unfold has; rewrite <- Z.land_assoc; change (Z.land (Z.lnot 3) RWLOCK_WAIT) with 0;
      change (Z.land (Z.lnot 3) RWLOCK_WRWANT) with 0; by rewrite Z.land_0_r.
  - injection Hst as E. symmetry in E. split; [by rewrite E|]. by eapply Wake.
Qed.

Lemma execute_word s sched s' : inv s -> word_ok (rwl_owner s) -> (forall u p, threads s !! u = Some p -> pc_chk p) ->
  execute proc s sched = Some s' -> word_ok (rwl_owner s').
Proof.
  revert s. induction sched as [|[t c] sched IH]; intros s Hi W C; simpl; [by intros [= <-]|].
  destruct (step proc s t c) as [s1|] eqn:E; [|done]. simpl. destruct (step_word s t c s1 Hi W C E). apply IH; auto. by apply (step_inv s t c).
Qed.

(** A word of at least 8 has a holder. *)
Lemma cnt_pos f l : 0 < cnt f l -> exists t p, l !! t = Some p /\ f p = true.
Proof.
  induction l as [|p l IH]; simpl; [lia|]. destruct (f p) eqn:E; [intros _; by exists 0%nat, p|]. simpl. intros H.
  destruct IH as (t & q & ? & ?); [lia|]. by exists (S t), q.
Qed.

Lemma held_word s : inv s -> 8 <= rwl_owner s -> exists t p, threads s !! t = Some p /\ excl p || shar p = true.
Proof.
  intros Hi H. destruct (inv_word s Hi) as (fl & Hfl & [[E0 E1]|(t & p & Ht & He & _)]).
  - destruct (cnt_pos shar (threads s)) as (t & p & Ht & Hs); [lia|]. exists t, p. by rewrite Hs, orb_true_r.
  - exists t, p. by rewrite He.
Qed.

End Invariant.

(** ** Theorems *)

(** The addresses of the process structures: aligned as [RW_PROC] needs,
    distinct, and above every possible reader count. *)
Definition procs_ok (proc : nat -> Z) (n : nat) : Prop :=
  (forall t, (t < n)%nat -> proc t `mod` 8 = 0) /\
  (forall t, (t < n)%nat -> 8 * Z.of_nat n + 8 <= proc t < UL_MOD) /\
  (forall t t', (t < n)%nat -> (t' < n)%nat -> proc t = proc t' -> t = t').

Lemma reachable_inv proc n sched s :
  procs_ok proc n -> execute proc (rw_init n) sched = Some s -> inv proc n s.
Proof.
  intros (H1 & H2 & H3). by apply (execute_inv proc n H1 H2 H3), init_inv.
Qed.

(** C4: in every state reached by any interleaving of any number of threads
    that enter, try, downgrade, are interrupted and leave: at most one thread
    holds the lock exclusively, and then no thread holds it shared; the word
    names the exclusive holder, or counts the shared holders; and none of the
    diagnostic panics has fired. *)
Theorem rw_mutual_exclusion proc n sched s :
  procs_ok proc n -> execute proc (rw_init n) sched = Some s ->
  (forall t p, threads s !! t = Some p -> p <> Panicked) /\
  (forall t p, threads s !! t = Some p -> excl p = true ->
     cnt excl (threads s) = 1 /\ cnt shar (threads s) = 0 /\
     has (rwl_owner s) RWLOCK_WRLOCK = true /\ RW_PROC (rwl_owner s) = proc t) /\
  (cnt excl (threads s) = 0 ->
     has (rwl_owner s) RWLOCK_WRLOCK = false /\
     RW_PROC (rwl_owner s) = RWLOCK_READ_INCR * cnt shar (threads s)).
Proof.
  intros Hp Hx. pose proof (reachable_inv proc n sched s Hp Hx) as Hi.
  destruct Hp as (H1 & H2 & H3). split; [|split].
  - intros t p Ht ->. exact (inv_pc _ _ s Hi t _ Ht).
  - intros t p Ht He.
    destruct (word_excl proc n H1 H2 H3 s t p Hi Ht He) as (a & fl & Hfl & Ea & Ha & Hlt & Ce & Cs & Ew).
    destruct (excl_word proc n H1 H2 H3 s t p Hi Ht He) as [Hw _].
    split; [done|]. split; [done|]. split; [done|]. rewrite Ew, RW_PROC_word by lia. done.
  - intros E0. destruct (word_any proc n H1 H2 H3 s Hi) as (a & b & Ha & Hb & Hlt & Ew & H4 & H5).
    assert (has b RWLOCK_WRLOCK = false) as Hb4.
    { destruct (has b RWLOCK_WRLOCK); [|done]. destruct H5 as (t & p & Ht & He & _); [done|].
      pose proof (cnt_lookup excl _ t p Ht). rewrite He in *. simpl in *. lia. }
    rewrite Ew, RW_PROC_word by lia. unfold RWLOCK_WRLOCK. rewrite has_low by lia.
    split; [done|]. destruct (H4 Hb4) as (_ & -> & _). done.
Qed.

(** C9: no wake-up is lost.  Whenever a thread sleeps on the lock, some
    thread still holds the lock and the wait bit is set, so that the release
    will wake it, or a thread that already released is about to wake it, and
    its next step does so; hence a thread never sleeps on a free lock with
    nobody left to wake it.  Process structures are aligned,
    distinct and above every count of readers. *)
Theorem rw_no_lost_wakeup proc n sched s t f :
  procs_ok proc n -> execute proc (rw_init n) sched = Some s -> threads s !! t = Some (Asleep f) ->
  has (rwl_owner s) RWLOCK_WAIT = true /\ (exists t' p', threads s !! t' = Some p' /\ excl p' || shar p' = true) \/
  exists t' p' s', threads s !! t' = Some p' /\ t' <> t /\
    step proc s t' (CallContinue 0) = Some s' /\ threads s' !! t = Some (Woken f).
Proof.
  intros Hp Hx Ht. pose proof (reachable_inv proc n sched s Hp Hx) as Hi.
  destruct (inv_len _ _ s Hi) as [L1 L2].
  destruct (lookup_lt_is_Some_2 (queued s) t) as [q Hq].
  { rewrite L2, <- L1. by eapply lookup_lt_Some. }
  destruct (inv_wake _ _ s Hi t _ q Ht Hq eq_refl) as [Hb|(t' & p' & Ht' & Hw)].
  { left. split; [done|]. destruct Hp as (H1 & H2 & H3). eapply (held_word proc n); eauto.
    assert (W : word_ok (rwl_owner s)); [|by apply W].
    apply (execute_word proc n H1 H2 H3 (rw_init n) sched s (init_inv proc n H1 H2 H3)); [done| |done].
    intros u p [-> _]%lookup_replicate. done. }
  right. assert (t' <> t).
  { intros ->. rewrite Ht in Ht'. by injection Ht' as <-. }
  assert (forall p1, (<[t' := p1]> (wake_pc <$> threads s)) !! t = Some (Woken f)) as Hlook.
  { intros p1. rewrite list_lookup_insert_ne, list_lookup_fmap, Ht by done. done. }
  exists t', p'. destruct p'; try done; simpl; unfold continue; rewrite Ht';
    (eexists; split; [done|]; split; [done|]; split; [reflexivity|]; apply Hlook).
Qed.

(** A waiting request is granted as soon as it runs and the word allows
    it: from the top of the loop of [rw_enter], two undisturbed steps take a
    lock that is free (for writing) or not write-locked (for reading). *)
Theorem rw_enter_acquires proc n sched s t flags :
  procs_ok proc n -> execute proc (rw_init n) sched = Some s ->
  threads s !! t = Some (Retry flags) ->
  (is_op flags RW_WRITE = true /\ rwl_owner s = 0) \/
  (is_op flags RW_READ = true /\ has (rwl_owner s) RWLOCK_WRLOCK = false) ->
  exists s', execute proc s [(t, CallContinue 0); (t, CallContinue 0)] = Some s' /\
    threads s' !! t = Some (entered flags).
Proof.
  intros Hp Hx Ht Hop. pose proof (lookup_lt_Some _ _ _ Ht) as Hlt.
  assert (Z.land (rwl_owner s) (op_check (op_of flags)) = 0 /\
    (Z.land (rwl_owner s) 5 =? 5) = false) as [Hc H5].
  { destruct Hop as [[Ho ->]|[Ho Hw]]; [by rewrite op_write|]. rewrite op_read by done. simpl.
    unfold has in Hw. apply negb_false_iff, Z.eqb_eq in Hw. split; [done|].
    apply Z.eqb_neq. intros E. assert (Z.land (Z.land (rwl_owner s) 5) 4 = 4) as E4 by (by rewrite E).
    rewrite <- Z.land_assoc in E4. change (Z.land 5 4) with RWLOCK_WRLOCK in E4. lia. }
  set (s1 := RwState (rwl_owner s) (<[t := Swap flags (rwl_owner s)]> (threads s)) (queued s)).
  assert (continue proc s t 0 = Some s1) as E1 by (unfold continue; by rewrite Ht, Hc).
  assert (continue proc s1 t 0 = swap_goto s1 t
    (rwl_owner s +u inc_of (op_of flags) (proc t)) (entered flags)) as E2.
  { unfold continue. simpl. rewrite list_lookup_insert_eq by done. rewrite Z.eqb_refl.
    change (Z.lor RWLOCK_WRLOCK RWLOCK_WAIT) with 5. by rewrite H5. }
  eexists. split.
  - cbn [execute step]. rewrite E1. simpl. rewrite E2. reflexivity.
  - simpl. rewrite list_lookup_insert_eq; [done|]. by rewrite length_insert.
Qed.

(** ** Recursive locks *)

(** [k] nested enters by the owner followed by [k] exits. *)
Fixpoint rrw_nest (k : nat) (l : rrwlock) (p flags : Z) : run rrwlock Z :=
  match k with
  | O => Done 0 l
  | S k => match rrw_enter l p flags with
           | Done r l' => if r =? 0 then rrw_nest k l' p flags else Done r l'
           | r => r
           end
  end.

Fixpoint rrw_unnest (k : nat) (l : rrwlock) (p : Z) : run rrwlock unit :=
  match k with
  | O => Done tt l
  | S k => match rrw_exit l p with
           | Done _ l' => rrw_unnest k l' p
           | r => r
           end
  end.

Lemma owner_word p fl :
  p `mod` 8 = 0 -> 0 < p < UL_MOD -> 0 <= fl < 4 ->
  RW_PROC p = p /\ RW_PROC (p + (4 + fl)) = p /\ has (p + (4 + fl)) RWLOCK_WRLOCK = true /\
  has (p + (4 + fl)) RWLOCK_WAIT = has fl RWLOCK_WAIT.
Proof.
  intros Hm Hr Hfl. pose proof (Z.div_mod p 8 ltac:(lia)) as E. rewrite Hm in E.
  set (a := p / 8) in *. unfold UL_MOD in *.
  replace p with (8 * a) at 2 3 5 6 by lia. unfold RWLOCK_WRLOCK, RWLOCK_WAIT.
  rewrite RW_PROC_word, !has_low by (unfold UL_MOD; lia).
  replace p with (8 * a + 0) by lia. rewrite RW_PROC_word by (unfold UL_MOD; lia).
  split; [lia|]. split; [lia|].
  assert (fl = 0 \/ fl = 1 \/ fl = 2 \/ fl = 3) as [->|[->|[->| ->]]] by lia; done.
Qed.

Lemma rrw_nest_held k p flags w :
  p `mod` 8 = 0 -> 0 < p < UL_MOD -> has flags RW_RECURSEFAIL = false ->
  0 < w -> w + Z.of_nat k < 4294967296 ->
  rrw_nest k (Rrw (p + 4) w) p flags = Done 0 (Rrw (p + 4) (w + Z.of_nat k)).
Proof.
  intros Hm Hr Hf. destruct (owner_word p 0 Hm Hr ltac:(lia)) as (E1 & E2 & _).
  rewrite Z.add_0_r in E2. revert w. induction k as [|k IH]; intros w Hw Hk.
  { simpl. do 2 f_equal. lia. }
  cbn [rrw_nest]. unfold rrw_enter. simpl rrwl_owner. rewrite E1, E2, Z.eqb_refl, Hf. simpl.
  unfold u32. rewrite Z.mod_small by lia. rewrite IH by lia. do 2 f_equal. lia.
Qed.

(** While more than one level is held, an exit only counts down. *)
Lemma rrw_unnest_held k p w :
  p `mod` 8 = 0 -> 0 < p < UL_MOD -> Z.of_nat k < w < 4294967296 ->
  rrw_unnest k (Rrw (p + 4) w) p = Done tt (Rrw (p + 4) (w - Z.of_nat k)).
Proof.
  intros Hm Hr. destruct (owner_word p 0 Hm Hr ltac:(lia)) as (E1 & E2 & _).
  rewrite Z.add_0_r in E2. revert w. induction k as [|k IH]; intros w Hw.
  { simpl. do 2 f_equal. lia. }
  cbn [rrw_unnest]. unfold rrw_exit. simpl rrwl_owner. rewrite E1, E2, Z.eqb_refl. simpl.
  replace (w >? 0) with true by lia. simpl. unfold u32. rewrite Z.mod_small by lia.
  replace (w - 1 =? 0) with false by lia. simpl. rewrite IH by lia. do 2 f_equal. lia.
Qed.

(** A recursive lock taken [k] times by one process for writing is
    released by the [k]-th exit and not before: after fewer exits the process
    still owns it, and after [k] the word is free again. *)
Theorem rrw_balanced k j p flags :
  p `mod` 8 = 0 -> 0 < p < UL_MOD -> is_op flags RW_WRITE = true ->
  has flags RW_RECURSEFAIL = false -> (0 < k)%nat -> (j < k)%nat -> Z.of_nat k < 4294967296 ->
  rrw_nest k rrw_init p flags = Done 0 (Rrw (p + 4) (Z.of_nat k)) /\
  rrw_unnest j (Rrw (p + 4) (Z.of_nat k)) p = Done tt (Rrw (p + 4) (Z.of_nat k - Z.of_nat j)) /\
  rrw_status (Rrw (p + 4) (Z.of_nat k - Z.of_nat j)) p = RW_WRITE /\
  rrw_unnest 1 (Rrw (p + 4) 1) p = Done tt rrw_init.
Proof.
  intros Hm Hr Hop Hf Hk Hj Hlt. destruct (owner_word p 0 Hm Hr ltac:(lia)) as (E1 & E2 & E3 & _).
  rewrite Z.add_0_r in *. split; [|split; [|split]].
  - destruct k as [|k]; [lia|]. cbn [rrw_nest]. unfold rrw_enter. simpl rrwl_owner.
    change (RW_PROC 0) with 0. rewrite E1. replace (0 =? p) with false by lia.
    unfold rw_enter_once. rewrite op_write by done. simpl.
    assert (0 +u inc_of (rw_ops 0) p = p + 4) as ->.
    { unfold inc_of. simpl. rewrite E1. unfold uadd, RWLOCK_WRLOCK.
      rewrite Z.add_0_l, ul_ul, ul_id; [lia|]. pose proof (Z.div_mod p 8 ltac:(lia)).
      unfold is_ul, UL_MOD in *. lia. }
    rewrite rrw_nest_held by (done || lia). do 2 f_equal. lia.
  - apply rrw_unnest_held; [done|done|lia].
  - unfold rrw_status, rw_status. simpl. by rewrite E1, E2, E3, Z.eqb_refl.
  - cbn [rrw_unnest]. unfold rrw_exit. simpl rrwl_owner. rewrite E1, E2, Z.eqb_refl. simpl.
    unfold rw_exit_once, rw_assert_wrlock. rewrite E1, E2, E3, Z.eqb_refl. done.
Qed.

(** ** Witnesses *)

Definition demo_proc (t : nat) : Z := 8 * (1000 + Z.of_nat t).

Lemma demo_procs_ok : procs_ok demo_proc 3.
Proof.
  split; [|split].
  - intros t _. unfold demo_proc. rewrite Z.mul_comm. apply Z.mod_mul. lia.
  - intros t Ht. unfold demo_proc, UL_MOD. lia.
  - intros t t' _ _. unfold demo_proc. lia.
Qed.

(** Thread 0 takes the lock for writing; thread 1 wants to read it and falls
    asleep; thread 0 is about to leave. *)
Definition demo_sched : list (nat * call) :=
  [(0%nat, CallEnterWrite); (0%nat, CallContinue 0);
   (1%nat, CallEnterRead); (1%nat, CallContinue 0); (1%nat, CallContinue 0);
   (1%nat, CallContinue 0); (1%nat, CallContinue 0); (1%nat, CallContinue 0);
   (1%nat, CallContinue 0)].

Definition demo_rw : rwstate :=
  RwState (8 * 1000 + 5) [HoldW; Asleep RW_READ; Idle 0] [false; true; false].

Lemma rw_mutual_exclusion_witness :
  execute demo_proc (rw_init 3) demo_sched = Some demo_rw /\
  (forall t p, threads demo_rw !! t = Some p -> p <> Panicked) /\
  (forall t p, threads demo_rw !! t = Some p -> excl p = true ->
     cnt excl (threads demo_rw) = 1 /\ cnt shar (threads demo_rw) = 0 /\
     has (rwl_owner demo_rw) RWLOCK_WRLOCK = true /\ RW_PROC (rwl_owner demo_rw) = demo_proc t) /\
  (cnt excl (threads demo_rw) = 0 ->
     has (rwl_owner demo_rw) RWLOCK_WRLOCK = false /\
     RW_PROC (rwl_owner demo_rw) = RWLOCK_READ_INCR * cnt shar (threads demo_rw)).
Proof.
  split; [vm_compute; reflexivity|].
  exact (rw_mutual_exclusion demo_proc 3 demo_sched demo_rw demo_procs_ok eq_refl).
Defined.

Lemma rw_no_lost_wakeup_witness :
  has (rwl_owner demo_rw) RWLOCK_WAIT = true /\ (exists t' p', threads demo_rw !! t' = Some p' /\ excl p' || shar p' = true) \/
  exists t' p' s', threads demo_rw !! t' = Some p' /\ t' <> 1%nat /\
    step demo_proc demo_rw t' (CallContinue 0) = Some s' /\
    threads s' !! 1%nat = Some (Woken RW_READ).
Proof.
  exact (rw_no_lost_wakeup demo_proc 3 demo_sched demo_rw 1 RW_READ demo_procs_ok eq_refl eq_refl).
Defined.

Lemma rw_enter_acquires_witness :
  exists s', execute demo_proc (RwState 0 [Retry RW_WRITE; Idle 0; Idle 0] [false; false; false])
      [(0%nat, CallContinue 0); (0%nat, CallContinue 0)] = Some s' /\
    threads s' !! 0%nat = Some (entered RW_WRITE).
Proof.
  apply (rw_enter_acquires demo_proc 3 [(0%nat, CallEnter RW_WRITE)] _ 0 RW_WRITE demo_procs_ok);
    [reflexivity|reflexivity|left; split; reflexivity].
Defined.

Lemma rrw_balanced_witness :
  rrw_nest 3 rrw_init 8000 RW_WRITE = Done 0 (Rrw (8000 + 4) 3) /\
  rrw_unnest 2 (Rrw (8000 + 4) 3) 8000 = Done tt (Rrw (8000 + 4) (3 - 2)) /\
  rrw_status (Rrw (8000 + 4) (3 - 2)) 8000 = RW_WRITE /\
  rrw_unnest 1 (Rrw (8000 + 4) 1) 8000 = Done tt rrw_init.
Proof.
  apply (rrw_balanced 3 2 8000 RW_WRITE); try reflexivity; try lia. unfold UL_MOD. lia.
Defined.
