(* ===== verification/Timeout.v ===== *)
(** * The timing wheel (sys/kern/kern_timeout.c, sys/sys/timeout.h)

    Timeouts are identified by their address.  A circular queue is the list
    of the timeouts on it, from its head on; the 1024 buckets are a function
    of the bucket number.  [ticks] and [to_time] are C ints and wrap.  Every
    routine runs under [timeout_mutex], so each is one atomic step, except
    [softclock], which drops the mutex while it calls a handler: its loop body
    is one step that says which handler is to be called. *)

From Stdlib Require Import ZArith Lia Bool.
From stdpp Require Import base numbers list option.
From S2P Require Import Prelude.

Definition BUCKETS : Z := 1024.
Definition WHEELSIZE : Z := 256.
Definition WHEELMASK : Z := 255.
Definition WHEELBITS : Z := 8.

Definition TIMEOUT_ONQUEUE : Z := 2.
Definition TIMEOUT_INITIALIZED : Z := 4.
Definition TIMEOUT_TRIGGERED : Z := 8.
Definition TIMEOUT_MPSAFE : Z := 16.
Definition TIMEOUT_SET_MPSAFE : Z := 1.

Definition int32 (x : Z) : Z := sint 32 x.

Record timeout := Timeout {
  to_func : Z;
  to_arg : Z;
  to_time : Z;
  to_flags : Z
}.

Record tstate := TState {
  ticks : Z;
  timeouts : Z -> timeout;
  timeout_wheel : Z -> list Z;
  timeout_todo : list Z
}.

Definition set_timeout (s : tstate) (id : Z) (t : timeout) : tstate :=
  TState (ticks s) (fun i => if i =? id then t else timeouts s i) (timeout_wheel s)
    (timeout_todo s).
Definition set_time (t : timeout) (v : Z) : timeout :=
  Timeout (to_func t) (to_arg t) v (to_flags t).
Definition set_flags (t : timeout) (v : Z) : timeout :=
  Timeout (to_func t) (to_arg t) (to_time t) v.

(** [to->to_time - ticks] *)
Definition remaining (s : tstate) (id : Z) : Z := int32 (to_time (timeouts s id) - ticks s).

(** ** The wheel *)

Definition MASKWHEEL (wheel time : Z) : Z :=
  Z.land (Z.shiftr time (wheel * WHEELBITS)) WHEELMASK.

Definition BUCKET (rel abs : Z) : Z :=
  if rel <=? Z.shiftl 1 (2 * WHEELBITS) then
    if rel <=? Z.shiftl 1 WHEELBITS then MASKWHEEL 0 abs
    else MASKWHEEL 1 abs + WHEELSIZE
  else if rel <=? Z.shiftl 1 (3 * WHEELBITS) then MASKWHEEL 2 abs + 2 * WHEELSIZE
  else MASKWHEEL 3 abs + 3 * WHEELSIZE.

(** ** Circular queues *)

(** [CIRCQ_INSERT(elem, list)] inserts before the head: at the end. *)
Definition insert_todo (s : tstate) (id : Z) : tstate :=
  TState (ticks s) (timeouts s) (timeout_wheel s) (timeout_todo s ++ [id]).
Definition insert_bucket (s : tstate) (id b : Z) : tstate :=
  TState (ticks s) (timeouts s)
    (fun i => if i =? b then timeout_wheel s i ++ [id] else timeout_wheel s i) (timeout_todo s).

Definition without (id : Z) (l : list Z) : list Z := filter (fun i => i <> id) l.

(** [CIRCQ_REMOVE(elem)] unlinks the element from the queue it is on. *)
Definition circq_remove (s : tstate) (id : Z) : tstate :=
  TState (ticks s) (timeouts s) (fun i => without id (timeout_wheel s i))
    (without id (timeout_todo s)).

(** [MOVEBUCKET]: [CIRCQ_APPEND] of a bucket to the worklist. *)
Definition MOVEBUCKET (s : tstate) (wheel time : Z) : tstate :=
  let b := MASKWHEEL wheel time + wheel * WHEELSIZE in
  TState (ticks s) (timeouts s) (fun i => if i =? b then [] else timeout_wheel s i)
    (timeout_todo s ++ timeout_wheel s b).

(** ** Operations *)

Definition timeout_startup (now : Z) (tos : Z -> timeout) : tstate :=
  TState now tos (fun _ => []) [].

Definition timeout_set_flags (s : tstate) (id fn arg flags : Z) : tstate :=
  set_timeout s id (Timeout fn arg (to_time (timeouts s id))
    (if has flags TIMEOUT_SET_MPSAFE then set_flag TIMEOUT_INITIALIZED TIMEOUT_MPSAFE
     else TIMEOUT_INITIALIZED)).

Definition timeout_pending (s : tstate) (id : Z) : bool :=
  has (to_flags (timeouts s id)) TIMEOUT_ONQUEUE.

Definition timeout_add (s : tstate) (id to_ticks : Z) : run tstate Z :=
  let new := timeouts s id in
  if negb (has (to_flags new) TIMEOUT_INITIALIZED) then Panic
  else if to_ticks <? 0 then Panic
  else
    let old_time := to_time new in
    let new1 := set_flags (set_time new (int32 (to_ticks + ticks s)))
                  (clr_flag (to_flags new) TIMEOUT_TRIGGERED) in
    if has (to_flags new1) TIMEOUT_ONQUEUE then
      let s1 := set_timeout s id new1 in
      if int32 (to_time new1 - ticks s) <? int32 (old_time - ticks s)
      then Done 0 (insert_todo (circq_remove s1 id) id)
      else Done 0 s1
    else
      Done 1 (insert_todo
        (set_timeout s id (set_flags new1 (set_flag (to_flags new1) TIMEOUT_ONQUEUE))) id).

Definition timeout_del (s : tstate) (id : Z) : Z * tstate :=
  let to := timeouts s id in
  let onq := has (to_flags to) TIMEOUT_ONQUEUE in
  let s1 := if onq then circq_remove s id else s in
  let fl := if onq then clr_flag (to_flags to) TIMEOUT_ONQUEUE else to_flags to in
  (if onq then 1 else 0, set_timeout s1 id (set_flags to (clr_flag fl TIMEOUT_TRIGGERED))).

(** The conversions of the [timeout_add_*] family.  [hz] and [tick] are the
    kernel's clock rate and the microseconds per tick. *)
Section Conversions.
Context (hz tick : Z).

Definition clamp (to_ticks : Z) : Z :=
  int32 (if to_ticks >? INT_MAX then INT_MAX else to_ticks).

Definition timeout_add_tv (s : tstate) (id tv_sec tv_usec : Z) : run tstate Z :=
  timeout_add s id (clamp (hz * tv_sec + Z.quot tv_usec tick)).
Definition timeout_add_ts (s : tstate) (id tv_sec tv_nsec : Z) : run tstate Z :=
  timeout_add s id (clamp (hz * tv_sec + Z.quot tv_nsec (tick * 1000))).
Definition timeout_add_bt (s : tstate) (id sec frac : Z) : run tstate Z :=
  timeout_add s id
    (clamp (hz * sec + Z.quot (Z.shiftr (1000000 * Z.shiftr frac 32) 32) tick)).
Definition timeout_add_sec (s : tstate) (id secs : Z) : run tstate Z :=
  timeout_add s id (clamp (hz * secs)).
Definition timeout_add_msec (s : tstate) (id msecs : Z) : run tstate Z :=
  timeout_add s id (clamp (Z.quot (msecs * 1000) tick)).
Definition timeout_add_usec (s : tstate) (id usecs : Z) : run tstate Z :=
  timeout_add s id (Z.quot usecs tick).
Definition timeout_add_nsec (s : tstate) (id nsecs : Z) : run tstate Z :=
  timeout_add s id (Z.quot nsecs (tick * 1000)).

End Conversions.

(** The returned flag asks for a softclock. *)
Definition timeout_hardclock_update (s : tstate) : bool * tstate :=
  let t := int32 (ticks s + 1) in
  let s0 := TState t (timeouts s) (timeout_wheel s) (timeout_todo s) in
  let s1 := MOVEBUCKET s0 0 t in
  let s2 :=
    if MASKWHEEL 0 t =? 0 then
      let s2 := MOVEBUCKET s1 1 t in
      if MASKWHEEL 1 t =? 0 then
        let s3 := MOVEBUCKET s2 2 t in
        if MASKWHEEL 2 t =? 0 then MOVEBUCKET s3 3 t else s3
      else s2
    else s1 in
  (negb (length (timeout_todo s2) =? 0)%nat, s2).

(** One turn of the loop of [softclock]: [Some id] when the handler of [id]
    is to be called. *)
Definition softclock_step (s : tstate) : option (option Z * tstate) :=
  match timeout_todo s with
  | [] => None
  | id :: _ =>
      let s1 := circq_remove s id in
      if remaining s id >? 0
      then Some (None, insert_bucket s1 id (BUCKET (remaining s id) (to_time (timeouts s id))))
      else
        let to := timeouts s id in
        Some (Some id, set_timeout s1 id
          (set_flags to (set_flag (clr_flag (to_flags to) TIMEOUT_ONQUEUE) TIMEOUT_TRIGGERED)))
  end.

(** [softclock] while no handler changes the queues: the handlers called, in
    order. *)
Fixpoint softclock (fuel : nat) (s : tstate) : option (list Z * tstate) :=
  match softclock_step s with
  | None => Some ([], s)
  | Some (r, s') =>
      match fuel with
      | O => None
      | S fuel =>
          match softclock fuel s' with
          | None => None
          | Some (ids, s2) => Some (match r with Some id => id :: ids | None => ids end, s2)
          end
      end
  end.

(** The inner loop of [timeout_adjust_ticks] on one bucket. *)
Fixpoint adjust_bucket (l : list Z) (s : tstate) (adj new_ticks : Z) : tstate :=
  match l with
  | [] => s
  | id :: l =>
      let s1 := if remaining s id <? adj
                then set_timeout s id (set_time (timeouts s id) new_ticks) else s in
      adjust_bucket l (insert_todo (circq_remove s1 id) id) adj new_ticks
  end.

Fixpoint adjust_wheel (n : nat) (b : Z) (s : tstate) (adj new_ticks : Z) : tstate :=
  match n with
  | O => s
  | S n => adjust_wheel n (b + 1) (adjust_bucket (timeout_wheel s b) s adj new_ticks) adj new_ticks
  end.

Definition timeout_adjust_ticks (s : tstate) (adj : Z) : tstate :=
  if adj <=? 0 then s
  else
    let new_ticks := int32 (ticks s + adj) in
    let s1 := adjust_wheel (Z.to_nat BUCKETS) 0 s adj new_ticks in
    TState new_ticks (timeouts s1) (timeout_wheel s1) (timeout_todo s1).
