(* ===== verification/TimeoutFacts.v ===== *)
(** * Correctness of the timing wheel (sys/kern/kern_timeout.c)

    Every queued timeout sits where it will be looked at no later than it is
    due, handlers never run early, and a clock whose softclock keeps up runs
    each handler exactly at its tick. *)

From Stdlib Require Import ZArith Lia Bool.
From stdpp Require Import base numbers list option.
From S2P Require Import Prelude Timeout.

(** ** C ints *)

Definition MOD32 : Z := 4294967296.
Definition is_int (x : Z) : Prop := INT_MIN <= x <= INT_MAX.

Lemma int32_mod x : int32 x `mod` MOD32 = x `mod` MOD32.
Proof.
  unfold int32, sint, MOD32. change (2 ^ 32) with 4294967296. cbv zeta.
  destruct (_ <? _); [apply Z.mod_mod; lia|].
  rewrite <- (Z_mod_plus_full (x `mod` 4294967296 - 4294967296) 1).
  replace (x `mod` 4294967296 - 4294967296 + 1 * 4294967296) with (x `mod` 4294967296) by lia.
  apply Z.mod_mod. lia.
Qed.

Lemma int32_range x : is_int (int32 x).
Proof.
  unfold int32, sint, is_int, INT_MIN, INT_MAX. change (2 ^ 32) with 4294967296.
  change (2 ^ (32 - 1)) with 2147483648. cbv zeta.
  pose proof (Z.mod_pos_bound x 4294967296 ltac:(lia)). cmp_cases.
Qed.

Lemma int32_unique x y : is_int y -> x `mod` MOD32 = y `mod` MOD32 -> int32 x = y.
Proof.
  intros Hy E. pose proof (int32_range x) as Hx. pose proof (int32_mod x) as Em. rewrite E in Em.
  unfold is_int, INT_MIN, INT_MAX, MOD32 in *.
  assert ((int32 x - y) `mod` 4294967296 = 0) as H0.
  { rewrite Zminus_mod, Em, Z.sub_diag. done. }
  apply Z.mod_divide in H0 as [c Hc]; [|lia].
  destruct (Z.lt_trichotomy c 0) as [|[->|]]; lia.
Qed.

Lemma int32_id x : is_int x -> int32 x = x.
Proof. intros H. by apply int32_unique. Qed.

(** ** When a bucket is looked at *)

Definition wheel_of (b : Z) : Z := b / 256.
Definition slot_of (b : Z) : Z := b `mod` 256.
Definition unit_of (b : Z) : Z := 2 ^ (8 * wheel_of b).
Definition period (b : Z) : Z := 256 * unit_of b.

Definition bucket_ok (b : Z) : Prop := 0 <= b < BUCKETS.

(** Bucket [b] is emptied at tick [v]. *)
Definition visited (b v : Z) : Prop := v `mod` period b = slot_of b * unit_of b.

(** Ticks from [t] until the bucket is emptied. *)
Definition dist (b t : Z) : Z := 1 + (slot_of b * unit_of b - t - 1) `mod` period b.

Lemma unit_cases b :
  bucket_ok b -> (wheel_of b = 0 /\ unit_of b = 1) \/ (wheel_of b = 1 /\ unit_of b = 256) \/
    (wheel_of b = 2 /\ unit_of b = 65536) \/ (wheel_of b = 3 /\ unit_of b = 16777216).
Proof.
  unfold bucket_ok, BUCKETS, unit_of, wheel_of. intros Hb.
  pose proof (Z.div_mod b 256 ltac:(lia)). pose proof (Z.mod_pos_bound b 256 ltac:(lia)).
  assert (b / 256 = 0 \/ b / 256 = 1 \/ b / 256 = 2 \/ b / 256 = 3) as [E|[E|[E|E]]] by lia;
    rewrite E; auto.
Qed.

Lemma unit_pos b : bucket_ok b -> 0 < unit_of b.
Proof. intros Hb. destruct (unit_cases b Hb) as [[_ ->]|[[_ ->]|[[_ ->]|[_ ->]]]]; lia. Qed.

Lemma period_divides b : bucket_ok b -> exists c, 0 < c /\ MOD32 = c * period b.
Proof.
  intros Hb. unfold period, MOD32.
  destruct (unit_cases b Hb) as [[_ ->]|[[_ ->]|[[_ ->]|[_ ->]]]];
    [exists 16777216|exists 65536|exists 256|exists 1]; lia.
Qed.

Lemma slot_range b : 0 <= slot_of b < 256.
Proof. apply Z.mod_pos_bound. lia. Qed.

(** Congruent times see a bucket at the same distance. *)
Lemma mod_period b x y :
  bucket_ok b -> x `mod` MOD32 = y `mod` MOD32 -> x `mod` period b = y `mod` period b.
Proof.
  intros Hb E. destruct (period_divides b Hb) as (c & Hc & Em).
  assert ((x - y) `mod` MOD32 = 0) as H0.
  { rewrite Zminus_mod, E, Z.sub_diag. done. }
  apply Z.mod_divide in H0 as [k Hk]; [|unfold MOD32; lia].
  replace x with (y + k * c * period b) by lia. apply Z_mod_plus_full.
Qed.

Lemma period_pos b : bucket_ok b -> 0 < period b.
Proof. intros Hb. pose proof (unit_pos b Hb). unfold period. lia. Qed.

Lemma dist_cong b x y :
  bucket_ok b -> x `mod` MOD32 = y `mod` MOD32 -> dist b x = dist b y.
Proof.
  intros Hb E. unfold dist. f_equal. pose proof (mod_period b x y Hb E) as Ep.
  rewrite <- !Z.sub_add_distr. rewrite (Zminus_mod _ (x + 1)), (Zminus_mod _ (y + 1)).
  by rewrite (Zplus_mod x), (Zplus_mod y), Ep.
Qed.

Lemma dist_range b t : bucket_ok b -> 1 <= dist b t <= period b.
Proof.
  intros Hb. unfold dist. pose proof (Z.mod_pos_bound (slot_of b * unit_of b - t - 1) (period b)
    (period_pos b Hb)). lia.
Qed.

(** A tick later the bucket is one tick nearer, unless it was emptied. *)
Lemma dist_tick b t :
  bucket_ok b -> (dist b t = 1 <-> visited b (t + 1)) /\
  (dist b t <> 1 -> dist b (t + 1) = dist b t - 1).
Proof.
  intros Hb. pose proof (period_pos b Hb) as Hp. pose proof (slot_range b) as Hs.
  pose proof (unit_pos b Hb) as Hu. unfold dist, visited.
  set (x := slot_of b * unit_of b). assert (0 <= x < period b) as Hx by (unfold x, period; nia).
  pose proof (Z.mod_pos_bound (x - t - 1) (period b) Hp) as Hr. split.
  - split.
    + intros E. assert ((x - t - 1) `mod` period b = 0) as H0 by lia.
      apply Z.mod_divide in H0 as [k Hk]; [|lia]. replace (t + 1) with (x + (- k) * period b) by lia.
      rewrite Z_mod_plus_full. by apply Z.mod_small.
    + intros E. replace (x - t - 1) with (x - (t + 1)) by lia.
      rewrite Zminus_mod, E, (Z.mod_small x), Z.sub_diag, Z.mod_0_l by lia. lia.
  - intros Hne. replace (x - (t + 1) - 1) with ((x - t - 1) - 1) by lia.
    rewrite <- Zminus_mod_idemp_l. rewrite (Z.mod_small (_ - 1)); lia.
Qed.

(** ** The buckets that [timeout_hardclock_update] empties *)

Lemma MASKWHEEL_div w t : 0 <= w -> MASKWHEEL w t = (t / 2 ^ (8 * w)) `mod` 256.
Proof.
  intros Hw. unfold MASKWHEEL, WHEELMASK, WHEELBITS. rewrite Z.mul_comm.
  rewrite Z.shiftr_div_pow2 by lia. apply (Z.land_ones _ 8). lia.
Qed.

Lemma MASKWHEEL_range w t : 0 <= w -> 0 <= MASKWHEEL w t < 256.
Proof. intros Hw. rewrite MASKWHEEL_div by done. apply Z.mod_pos_bound. lia. Qed.

(** The low digits of a time, in base 256. *)
Lemma digits w t : 0 <= w -> t `mod` 2 ^ (8 * (w + 1)) = t `mod` 2 ^ (8 * w) + 2 ^ (8 * w) * MASKWHEEL w t.
Proof.
  intros Hw. rewrite MASKWHEEL_div by done. replace (8 * (w + 1)) with (8 * w + 8) by lia.
  rewrite Z.pow_add_r by lia. apply Z.rem_mul_r; lia.
Qed.

Lemma bucket_parts w m : 0 <= m < 256 -> wheel_of (m + w * 256) = w /\ slot_of (m + w * 256) = m.
Proof.
  intros Hm. unfold wheel_of, slot_of. split.
  - rewrite Z.div_add by lia. rewrite Z.div_small by lia. lia.
  - rewrite Z_mod_plus_full. by apply Z.mod_small.
Qed.

Lemma bucket_eq b : b = slot_of b + wheel_of b * 256.
Proof. unfold wheel_of, slot_of. pose proof (Z.div_mod b 256). lia. Qed.

Lemma visited_iff b v :
  bucket_ok b ->
  visited b v <-> v `mod` unit_of b = 0 /\ MASKWHEEL (wheel_of b) v = slot_of b.
Proof.
  intros Hb. unfold visited. assert (0 <= wheel_of b) as Hw.
  { unfold wheel_of. apply Z.div_pos; unfold bucket_ok in Hb; lia. }
  assert (period b = 2 ^ (8 * (wheel_of b + 1))) as ->.
  { unfold period, unit_of. replace (8 * (wheel_of b + 1)) with (8 + 8 * wheel_of b) by lia.
    rewrite Z.pow_add_r by lia. done. }
  rewrite digits by done. fold (unit_of b). pose proof (unit_pos b Hb) as Hu.
  pose proof (Z.mod_pos_bound v (unit_of b) Hu). pose proof (MASKWHEEL_range (wheel_of b) v Hw).
  pose proof (slot_range b). split; [|intros [-> ->]; lia]. intros E.
  assert (v `mod` unit_of b = (slot_of b - MASKWHEEL (wheel_of b) v) * unit_of b) as E1 by lia.
  assert (slot_of b - MASKWHEEL (wheel_of b) v = 0) by nia. lia.
Qed.

Lemma low_digits v :
  (v `mod` 256 = 0 <-> MASKWHEEL 0 v = 0) /\
  (v `mod` 65536 = 0 <-> MASKWHEEL 0 v = 0 /\ MASKWHEEL 1 v = 0) /\
  (v `mod` 16777216 = 0 <-> MASKWHEEL 0 v = 0 /\ MASKWHEEL 1 v = 0 /\ MASKWHEEL 2 v = 0).
Proof.
  pose proof (digits 0 v ltac:(lia)) as D0. pose proof (digits 1 v ltac:(lia)) as D1.
  pose proof (digits 2 v ltac:(lia)) as D2.
  pose proof (MASKWHEEL_range 0 v ltac:(lia)). pose proof (MASKWHEEL_range 1 v ltac:(lia)).
  pose proof (MASKWHEEL_range 2 v ltac:(lia)).
  change (2 ^ (8 * (0 + 1))) with 256 in *. change (2 ^ (8 * 0)) with 1 in *.
  change (2 ^ (8 * (1 + 1))) with 65536 in *. change (2 ^ (8 * 1)) with 256 in *.
  change (2 ^ (8 * (2 + 1))) with 16777216 in *. change (2 ^ (8 * 2)) with 65536 in *.
  rewrite Z.mod_1_r in D0. lia.
Qed.

Definition due (t : Z) : list Z :=
  MASKWHEEL 0 t :: (if MASKWHEEL 0 t =? 0 then
    (MASKWHEEL 1 t + 256) :: (if MASKWHEEL 1 t =? 0 then
      (MASKWHEEL 2 t + 512) :: (if MASKWHEEL 2 t =? 0 then [MASKWHEEL 3 t + 768] else [])
    else []) else []).

Lemma due_iff b t : b ∈ due t <-> bucket_ok b /\ visited b t.
Proof.
  destruct (low_digits t) as (L1 & L2 & L3).
  pose proof (MASKWHEEL_range 0 t ltac:(lia)) as R0. pose proof (MASKWHEEL_range 1 t ltac:(lia)) as R1.
  pose proof (MASKWHEEL_range 2 t ltac:(lia)) as R2. pose proof (MASKWHEEL_range 3 t ltac:(lia)) as R3.
  assert (b ∈ due t <-> b = MASKWHEEL 0 t \/
    (MASKWHEEL 0 t = 0 /\ b = MASKWHEEL 1 t + 256) \/
    (MASKWHEEL 0 t = 0 /\ MASKWHEEL 1 t = 0 /\ b = MASKWHEEL 2 t + 512) \/
    (MASKWHEEL 0 t = 0 /\ MASKWHEEL 1 t = 0 /\ MASKWHEEL 2 t = 0 /\ b = MASKWHEEL 3 t + 768)) as ->.
  { unfold due. destruct (Z.eqb_spec (MASKWHEEL 0 t) 0), (Z.eqb_spec (MASKWHEEL 1 t) 0),
      (Z.eqb_spec (MASKWHEEL 2 t) 0); rewrite ?elem_of_cons, ?elem_of_nil; tauto. }
  assert (forall w m, 0 <= w < 4 -> 0 <= m < 256 -> bucket_ok (m + w * 256)) as Hok
    by (unfold bucket_ok, BUCKETS; lia).
  assert (forall w, 0 <= w < 4 -> bucket_ok b -> wheel_of b = w ->
    (visited b t <-> t `mod` 2 ^ (8 * w) = 0 /\ b = MASKWHEEL w t + w * 256)) as Hv.
  { intros w Hw Hb E. rewrite visited_iff by done. unfold unit_of. rewrite E. pose proof (bucket_eq b) as Eb.
    rewrite E in Eb. lia. }
  assert (forall w, 0 <= w < 4 -> b = MASKWHEEL w t + w * 256 -> bucket_ok b /\ wheel_of b = w) as Hw.
  { intros w Hw ->. pose proof (MASKWHEEL_range w t ltac:(lia)). split; [by apply Hok|].
    by apply bucket_parts. }
  split.
  - intros [E|[[E0 E]|[(E0 & E1 & E)|(E0 & E1 & E2 & E)]]].
    + destruct (Hw 0 ltac:(lia) ltac:(lia)) as [Hb Ew]. split; [done|]. apply (Hv 0 ltac:(lia) Hb Ew).
      change (2 ^ (8 * 0)) with 1. rewrite Z.mod_1_r. lia.
    + destruct (Hw 1 ltac:(lia) ltac:(lia)) as [Hb Ew]. split; [done|]. apply (Hv 1 ltac:(lia) Hb Ew).
      change (2 ^ (8 * 1)) with 256. lia.
    + destruct (Hw 2 ltac:(lia) ltac:(lia)) as [Hb Ew]. split; [done|]. apply (Hv 2 ltac:(lia) Hb Ew).
      change (2 ^ (8 * 2)) with 65536. lia.
    + destruct (Hw 3 ltac:(lia) ltac:(lia)) as [Hb Ew]. split; [done|]. apply (Hv 3 ltac:(lia) Hb Ew).
      change (2 ^ (8 * 3)) with 16777216. lia.
  - intros [Hb Hvis]. destruct (unit_cases b Hb) as [[Ew _]|[[Ew _]|[[Ew _]|[Ew _]]]].
    + apply (Hv 0 ltac:(lia) Hb Ew) in Hvis as [_ Eb]. left. clear -Eb. lia.
    + apply (Hv 1 ltac:(lia) Hb Ew) in Hvis as [Hm Eb]. apply L1 in Hm.
      right; left. clear -Eb Hm. lia.
    + apply (Hv 2 ltac:(lia) Hb Ew) in Hvis as [Hm Eb]. apply L2 in Hm.
      right; right; left. clear -Eb Hm. lia.
    + apply (Hv 3 ltac:(lia) Hb Ew) in Hvis as [Hm Eb]. apply L3 in Hm.
      right; right; right. clear -Eb Hm. lia.
Qed.

Lemma due_nodup t : NoDup (due t).
Proof.
  pose proof (MASKWHEEL_range 0 t ltac:(lia)). pose proof (MASKWHEEL_range 1 t ltac:(lia)).
  pose proof (MASKWHEEL_range 2 t ltac:(lia)). pose proof (MASKWHEEL_range 3 t ltac:(lia)).
  unfold due. destruct (MASKWHEEL 0 t =? 0); [|apply NoDup_singleton].
  destruct (MASKWHEEL 1 t =? 0); [destruct (MASKWHEEL 2 t =? 0)|];
    repeat (constructor; [rewrite ?elem_of_cons, ?elem_of_nil; lia|]); constructor.
Qed.

(** Emptying a list of buckets, one after the other. *)
Definition empty_bucket (s : tstate) (b : Z) : tstate :=
  TState (ticks s) (timeouts s) (fun i => if i =? b then [] else timeout_wheel s i)
    (timeout_todo s ++ timeout_wheel s b).

Lemma empty_buckets l s :
  NoDup l ->
  let s' := foldl empty_bucket s l in
  ticks s' = ticks s /\ timeouts s' = timeouts s /\
  (forall b, timeout_wheel s' b = if decide (b ∈ l) then [] else timeout_wheel s b) /\
  timeout_todo s' = timeout_todo s ++ mjoin (timeout_wheel s <$> l).
Proof.
  revert s. induction l as [|b l IH]; intros s Hnd; simpl.
  { rewrite app_nil_r. split_and!; try done. }
  inversion Hnd as [|? ? Hb Hnd']. subst. destruct (IH (empty_bucket s b) Hnd') as (-> & -> & Hw & ->).
  split; [done|]. split; [done|]. split.
  - intros i. rewrite Hw. simpl. destruct (decide (i ∈ l)) as [Hi|Hi].
    + by rewrite decide_True by (by right).
    + destruct (Z.eqb_spec i b) as [->|Hne].
      * by rewrite decide_True by (by left).
      * rewrite decide_False; [done|]. rewrite elem_of_cons. tauto.
  - simpl. rewrite <- app_assoc. do 2 f_equal. f_equal. apply list_fmap_ext. intros i x Hx.
    destruct (Z.eqb_spec x b) as [->|]; [|done]. by apply list_elem_of_lookup_2 in Hx.
Qed.

(** The wheel after a tick: exactly the buckets due are empty, and their
    contents are on the worklist. *)
Lemma hardclock_spec s r s' :
  timeout_hardclock_update s = (r, s') ->
  ticks s' = int32 (ticks s + 1) /\ timeouts s' = timeouts s /\
  r = negb (length (timeout_todo s') =? 0)%nat /\
  (forall b, timeout_wheel s' b = if decide (b ∈ due (ticks s')) then [] else timeout_wheel s b) /\
  timeout_todo s' = timeout_todo s ++ mjoin (timeout_wheel s <$> due (ticks s')).
Proof.
  unfold timeout_hardclock_update. set (t := int32 (ticks s + 1)).
  set (s0 := TState t (timeouts s) (timeout_wheel s) (timeout_todo s)).
  match goal with |- (_, ?x) = _ -> _ => assert (x = foldl empty_bucket s0 (due t)) as -> end.
  { unfold due, MOVEBUCKET, WHEELSIZE. rewrite Z.add_0_r. by repeat step_if. }
  pose proof (empty_buckets (due t) s0 (due_nodup t)) as (E1 & E2 & Hw & Ht).
  set (x := foldl empty_bucket s0 (due t)) in *. clearbody x. intros [= <- <-].
  rewrite E1, E2. split; [reflexivity|]. split; [reflexivity|]. split; [reflexivity|].
  split; [exact Hw|exact Ht].
Qed.

(** ** Placement *)

Lemma place w T t rel :
  0 <= w < 4 -> rel `mod` MOD32 = (T - t) `mod` MOD32 ->
  0 < rel <= 256 * 2 ^ (8 * w) -> (w <> 0 -> 2 ^ (8 * w) < rel) ->
  let b := MASKWHEEL w T + w * 256 in bucket_ok b /\ dist b t <= rel.
Proof.
  intros Hw Em Hrel Hlow b. pose proof (MASKWHEEL_range w T ltac:(lia)) as Hm.
  destruct (bucket_parts w (MASKWHEEL w T) Hm) as [Ew Es]. fold b in Ew, Es.
  assert (bucket_ok b) as Hb by (unfold b, bucket_ok, BUCKETS; lia). split; [done|].
  pose proof (unit_pos b Hb) as Hu. pose proof (period_pos b Hb) as Hp.
  set (P := unit_of b) in *. assert (P = 2 ^ (8 * w)) as EP by (unfold P, unit_of; by rewrite Ew).
  rewrite <- EP in *. assert (period b = 256 * P) as Eper by done.
  set (r := T `mod` P). pose proof (Z.mod_pos_bound T P Hu) as Hr. fold r in Hr.
  pose proof (digits w T ltac:(lia)) as Hd.
  assert (2 ^ (8 * (w + 1)) = period b) as E1.
  { rewrite Eper, EP. replace (8 * (w + 1)) with (8 + 8 * w) by lia. by rewrite Z.pow_add_r by lia. }
  rewrite E1, <- EP in Hd. fold r in Hd.
  assert ((slot_of b * P - t - 1) `mod` period b = rel - 1 - r) as Edist.
  { rewrite <- (Z.mod_small (rel - 1 - r) (period b)).
    - rewrite Es. replace (MASKWHEEL w T * P - t - 1) with (T `mod` period b - (t + 1 + r)) by lia.
      rewrite Zminus_mod_idemp_l. replace (T - (t + 1 + r)) with (T - t - (1 + r)) by lia.
      replace (rel - 1 - r) with (rel - (1 + r)) by lia.
      rewrite Zminus_mod, <- (mod_period b rel (T - t) Hb Em), <- Zminus_mod. done.
    - rewrite Eper. destruct (decide (w = 0)) as [->|Hne]; [|specialize (Hlow Hne); lia].
      change (2 ^ (8 * 0)) with 1 in EP. rewrite EP in *. lia. }
  unfold dist. fold P. lia.
Qed.

(** A timeout inserted in its bucket is looked at again by its due time. *)
Lemma bucket_placement T t :
  0 < int32 (T - t) ->
  let b := BUCKET (int32 (T - t)) T in bucket_ok b /\ dist b t <= int32 (T - t).
Proof.
  intros Hpos. pose proof (int32_range (T - t)) as Hr. pose proof (int32_mod (T - t)) as Em.
  unfold is_int, INT_MAX in Hr. unfold BUCKET, WHEELBITS, WHEELSIZE.
  change (Z.shiftl 1 (2 * 8)) with 65536. change (Z.shiftl 1 8) with 256.
  change (Z.shiftl 1 (3 * 8)) with 16777216. cbv zeta.
  destruct (Z.leb_spec (int32 (T - t)) 65536); [destruct (Z.leb_spec (int32 (T - t)) 256)|
    destruct (Z.leb_spec (int32 (T - t)) 16777216)].
  - replace (MASKWHEEL 0 T) with (MASKWHEEL 0 T + 0 * 256) by lia.
    apply (place 0 T t); try done; change (256 * 2 ^ (8 * 0)) with 256; lia.
  - apply (place 1 T t); try done; change (2 ^ (8 * 1)) with 256; lia.
  - apply (place 2 T t); try done; change (2 ^ (8 * 2)) with 65536; lia.
  - apply (place 3 T t); try done; change (2 ^ (8 * 3)) with 16777216; lia.
Qed.

(** ** The invariant *)

Record tw_ok (s : tstate) : Prop := {
  tw_ticks : is_int (ticks s);
  tw_times : forall id, is_int (to_time (timeouts s id));
  tw_nodup : NoDup (timeout_todo s) /\ forall b, NoDup (timeout_wheel s b);
  tw_once : forall id b, id ∈ timeout_wheel s b ->
    (id ∉ timeout_todo s) /\ (forall b', id ∈ timeout_wheel s b' -> b' = b);
  tw_queued : forall id, timeout_pending s id = true <->
    (id ∈ timeout_todo s) \/ (exists b, id ∈ timeout_wheel s b);
  tw_due : forall b id, id ∈ timeout_wheel s b ->
    bucket_ok b /\ dist b (ticks s) <= remaining s id
}.

Lemma elem_without (id i : Z) (l : list Z) : (i ∈ without id l) <-> (i <> id /\ i ∈ l).
Proof. unfold without. rewrite list_elem_of_filter. done. Qed.

Lemma nodup_without id l : NoDup l -> NoDup (without id l).
Proof. apply list.NoDup_filter. Qed.

Lemma nodup_snoc (l : list Z) x : NoDup l -> x ∉ l -> NoDup (l ++ [x]).
Proof.
  intros Hl Hx. apply list.NoDup_app. split; [done|]. split; [|apply NoDup_singleton].
  intros y Hy E%list_elem_of_singleton. by subst.
Qed.

Lemma pending_set s id t i :
  timeout_pending (set_timeout s id t) i =
  if i =? id then has (to_flags t) TIMEOUT_ONQUEUE else timeout_pending s i.
Proof. unfold timeout_pending. simpl. by destruct (i =? id). Qed.

Lemma flag_bits f :
  has (clr_flag f TIMEOUT_TRIGGERED) TIMEOUT_ONQUEUE = has f TIMEOUT_ONQUEUE /\
  has (set_flag f TIMEOUT_ONQUEUE) TIMEOUT_ONQUEUE = true /\
  has (clr_flag f TIMEOUT_ONQUEUE) TIMEOUT_ONQUEUE = false /\
  has (set_flag f TIMEOUT_TRIGGERED) TIMEOUT_ONQUEUE = has f TIMEOUT_ONQUEUE.
Proof.
  unfold TIMEOUT_TRIGGERED, TIMEOUT_ONQUEUE. change 8 with (2 ^ 3). change 2 with (2 ^ 1).
  rewrite !has_clr_pow2, !has_set_pow2 by lia. simpl. rewrite andb_true_r, andb_false_r, orb_true_r, orb_false_r.
  done.
Qed.

Lemma not_queued s id :
  tw_ok s -> timeout_pending s id = false ->
  (id ∉ timeout_todo s) /\ (forall b, id ∉ timeout_wheel s b).
Proof.
  intros Hok Hp. split; [|intros b]; intros Hin;
    (assert (timeout_pending s id = true); [|congruence]); apply (tw_queued s Hok); eauto.
Qed.

(** Only the record of [id] changes, and [id] is in no bucket. *)
Lemma remaining_set s id t i : i <> id -> remaining (set_timeout s id t) i = remaining s i.
Proof. intros Hne. unfold remaining. simpl. by replace (i =? id) with false by lia. Qed.

(** [id] goes (back) to the worklist. *)
Lemma wheel_enqueue_ok s id t :
  tw_ok s -> is_int (to_time t) -> has (to_flags t) TIMEOUT_ONQUEUE = true ->
  tw_ok (insert_todo (circq_remove (set_timeout s id t) id) id).
Proof.
  intros [H1 H2 [H3 H3'] H4 H5 H6] Ht Hf. split; simpl.
  - done.
  - intros i. simpl. destruct (i =? id); [done|apply H2].
  - split; [|intros b; by apply nodup_without]. apply nodup_snoc; [by apply nodup_without|].
    rewrite elem_without. tauto.
  - intros i b [Hne Hin]%elem_without. destruct (H4 i b Hin) as [Hn Hu]. split.
    + rewrite elem_of_app, elem_without, list_elem_of_singleton. tauto.
    + intros b' [_ Hin']%elem_without. auto.
  - intros i. change (timeout_pending (set_timeout s id t) i = true <->
      (i ∈ without id (timeout_todo s) ++ [id]) \/ (exists b, i ∈ without id (timeout_wheel s b))).
    rewrite pending_set, elem_of_app, elem_without, list_elem_of_singleton.
    destruct (Z.eqb_spec i id) as [->|Hne]; [tauto|]. rewrite H5. split.
    + intros [?|[b Hb]]; [tauto|]. right. exists b. by apply elem_without.
    + intros [?|[b [_ Hb]%elem_without]]; [tauto|]. eauto.
  - intros b i [Hne Hin]%elem_without. destruct (H6 b i Hin) as [Hb Hd]. split; [done|].
    unfold remaining. simpl. replace (i =? id) with false by lia. exact Hd.
Qed.

Lemma without_id id l : id ∉ l -> without id l = l.
Proof.
  intros H. unfold without. induction l as [|x l IH]; [done|].
  rewrite not_elem_of_cons in H. destruct H as [H1 H2]. rewrite filter_cons_True by congruence.
  f_equal. by apply IH.
Qed.

(** The invariant does not distinguish equal queues and records. *)
Lemma tw_ext s s' :
  ticks s' = ticks s -> (forall i, timeouts s' i = timeouts s i) ->
  (forall b, timeout_wheel s' b = timeout_wheel s b) -> timeout_todo s' = timeout_todo s ->
  tw_ok s -> tw_ok s'.
Proof.
  intros E1 E2 E3 E4 [H1 H2 [H3 H3'] H4 H5 H6]. split.
  - by rewrite E1.
  - intros i. by rewrite E2.
  - rewrite E4. split; [done|]. intros b. by rewrite E3.
  - intros i b. rewrite E3, E4. intros Hin. destruct (H4 i b Hin) as [? Hu]. split; [done|].
    intros b'. rewrite E3. apply Hu.
  - intros i. unfold timeout_pending. rewrite E2, E4. unfold timeout_pending in H5. rewrite H5.
    split; (intros [?|[b Hb]]; [by left|right; exists b; by rewrite ?E3 in *]).
  - intros b i. rewrite E3. unfold remaining. rewrite E1, E2. apply H6.
Qed.

Lemma add_spec s id k :
  tw_ok s -> 0 <= k <= INT_MAX -> has (to_flags (timeouts s id)) TIMEOUT_INITIALIZED = true ->
  exists s', timeout_add s id k = Done (if timeout_pending s id then 0 else 1) s' /\
    tw_ok s' /\ ticks s' = ticks s /\ timeout_pending s' id = true /\ remaining s' id = k /\
    forall i, i <> id -> timeouts s' i = timeouts s i.
Proof.
  intros Hok Hk Hi. unfold timeout_add. rewrite Hi. replace (k <? 0) with false by lia. simpl.
  set (T := int32 (k + ticks s)). set (f1 := clr_flag (to_flags (timeouts s id)) TIMEOUT_TRIGGERED).
  destruct (flag_bits (to_flags (timeouts s id))) as (F1 & _). fold f1 in F1.
  assert (int32 (T - ticks s) = k) as Erem.
  { apply int32_unique; [unfold is_int, INT_MIN; lia|]. unfold T.
    rewrite Zminus_mod, int32_mod, <- Zminus_mod. f_equal. lia. }
  assert (is_int T) as HT by apply int32_range.
  assert (forall fl, has fl TIMEOUT_ONQUEUE = true ->
    timeout_pending (set_timeout s id (Timeout (to_func (timeouts s id)) (to_arg (timeouts s id)) T fl)) id
      = true) as Hpend by (intros fl Hfl; rewrite pending_set, Z.eqb_refl; done).
  assert (forall t i, i <> id -> timeouts (set_timeout s id t) i = timeouts s i) as Hoth.
  { intros t i Hne. simpl. by replace (i =? id) with false by lia. }
  rewrite F1. fold (timeout_pending s id). destruct (timeout_pending s id) eqn:Ep; simpl.
  - assert (has f1 TIMEOUT_ONQUEUE = true) as Hf1 by (by rewrite F1).
    rewrite Erem. fold (remaining s id). destruct (Z.ltb_spec k (remaining s id)) as [Hlt|Hge].
    + eexists. split; [done|]. split; [by apply wheel_enqueue_ok|]. split; [done|].
      split; [by apply Hpend|]. split; [unfold remaining; simpl; rewrite Z.eqb_refl; exact Erem|exact (Hoth _)].
    + eexists. split; [done|]. split; [|split; [done|split; [by apply Hpend|
        split; [unfold remaining; simpl; rewrite Z.eqb_refl; exact Erem|exact (Hoth _)]]]].
      destruct Hok as [H1 H2 H3 H4 H5 H6]. split; simpl; try done.
      * intros i. destruct (i =? id); [done|apply H2].
      * intros i. rewrite pending_set. destruct (Z.eqb_spec i id) as [->|]; [|apply H5].
        rewrite <- H5, Ep. simpl. tauto.
      * intros b i Hin. destruct (H6 b i Hin) as [Hb Hd]. split; [done|].
        destruct (decide (i = id)) as [->|Hne]; [|by rewrite remaining_set].
        unfold remaining at 1. simpl. rewrite Z.eqb_refl. simpl. lia.
  - destruct (not_queued s id Hok Ep) as [Hn1 Hn2]. destruct (flag_bits f1) as (_ & F2 & _).
    eexists. split; [done|]. split; [|split; [done|split; [by apply Hpend|
      split; [unfold remaining; simpl; rewrite Z.eqb_refl; exact Erem|exact (Hoth _)]]]].
    eapply tw_ext; [..|apply (wheel_enqueue_ok s id (Timeout (to_func (timeouts s id))
      (to_arg (timeouts s id)) T (set_flag f1 TIMEOUT_ONQUEUE)) Hok HT F2)]; simpl; try done.
    + intros b. by rewrite without_id.
    + by rewrite without_id.
Qed.

Lemma del_spec s id r s' :
  tw_ok s -> timeout_del s id = (r, s') ->
  tw_ok s' /\ r = (if timeout_pending s id then 1 else 0) /\ ticks s' = ticks s /\
  timeout_pending s' id = false /\ (id ∉ timeout_todo s') /\ (forall b, id ∉ timeout_wheel s' b) /\
  forall i, i <> id -> timeouts s' i = timeouts s i.
Proof.
  intros Hok. unfold timeout_del. fold (timeout_pending s id). intros [= <- <-].
  destruct (flag_bits (to_flags (timeouts s id))) as (F1 & _ & F3 & _).
  destruct (timeout_pending s id) eqn:Ep.
  - destruct (flag_bits (clr_flag (to_flags (timeouts s id)) TIMEOUT_ONQUEUE)) as (F4 & _).
    rewrite F3 in F4. destruct Hok as [H1 H2 [H3 H3'] H4 H5 H6].
    split; [|split; [done|split; [done|split; [by rewrite pending_set, Z.eqb_refl|]]]].
    + split; simpl; try done.
      * intros i. destruct (i =? id); [apply H2|apply H2].
      * split; [by apply nodup_without|]. intros b. by apply nodup_without.
      * intros i b [Hne Hin]%elem_without. destruct (H4 i b Hin) as [Hn Hu]. split.
        -- rewrite elem_without. tauto.
        -- intros b' [_ Hin']%elem_without. auto.
      * intros i. rewrite pending_set. simpl. destruct (Z.eqb_spec i id) as [->|Hne].
        -- simpl. rewrite F4. split; [done|]. intros [H|[b H]]; apply elem_without in H; tauto.
        -- change (timeout_pending (circq_remove s id) i) with (timeout_pending s i). rewrite H5, elem_without.
           split; intros [?|[b Hb]]; try tauto; right; exists b; rewrite elem_without in *; tauto.
      * intros b i [Hne Hin]%elem_without. destruct (H6 b i Hin) as [Hb Hd]. split; [done|].
        by rewrite remaining_set.
    + simpl. split; [rewrite elem_without; tauto|]. split; [intros b; rewrite elem_without; tauto|].
      intros i Hne. by replace (i =? id) with false by lia.
  - destruct (not_queued s id Hok Ep) as [Hn1 Hn2]. simpl.
    destruct Hok as [H1 H2 H3 H4 H5 H6].
    split; [|split; [done|split; [done|split]]].
    + split; simpl; try done.
      * intros i. destruct (i =? id); apply H2.
      * intros i. rewrite pending_set. destruct (Z.eqb_spec i id) as [->|]; [|apply H5].
        simpl. rewrite F1. apply H5.
      * intros b i Hin. destruct (H6 b i Hin) as [Hb Hd]. split; [done|].
        rewrite remaining_set; [done|]. intros ->. by apply (Hn2 b).
    + rewrite pending_set, Z.eqb_refl. simpl. by rewrite F1.
    + split; [done|]. split; [done|]. intros i Hne. by replace (i =? id) with false by lia.
Qed.

(** ** The clock *)

Lemma softclock_step_spec s r s' :
  tw_ok s -> softclock_step s = Some (r, s') ->
  exists id rest, timeout_todo s = id :: rest /\ tw_ok s' /\ ticks s' = ticks s /\
    timeout_todo s' = rest /\ (forall i, i <> id -> timeouts s' i = timeouts s i) /\
    match r with
    | None => 0 < remaining s id /\ timeouts s' id = timeouts s id /\
        id ∈ timeout_wheel s' (BUCKET (remaining s id) (to_time (timeouts s id)))
    | Some i => i = id /\ remaining s id <= 0 /\ timeout_pending s' id = false
    end.
Proof.
  intros Hok. unfold softclock_step. destruct (timeout_todo s) as [|id rest] eqn:Et; [done|].
  intros E. exists id, rest. split; [done|]. pose proof Hok as [H1 H2 [H3 H3'] H4 H5 H6].
  rewrite Et in *. inversion H3 as [|? ? Hid Hrest]. subst.
  assert (without id (id :: rest) = rest) as Ew.
  { unfold without. rewrite filter_cons_False by tauto. by apply without_id. }
  assert (forall b, id ∉ timeout_wheel s b) as Hnb.
  { intros b Hin. destruct (H4 id b Hin) as [Hn _]. apply Hn. by left. }
  assert (forall b, without id (timeout_wheel s b) = timeout_wheel s b) as Ewb
    by (intros b; by apply without_id).
  rewrite Z.gtb_ltb in E. destruct (Z.ltb_spec 0 (remaining s id)) as [Hpos|Hneg]; injection E as <- <-.
  - destruct (bucket_placement (to_time (timeouts s id)) (ticks s) Hpos) as [Hb Hd].
    fold (remaining s id) in Hb, Hd. set (b0 := BUCKET (remaining s id) (to_time (timeouts s id))) in *.
    assert (forall i b, i ∈ timeout_wheel (insert_bucket (circq_remove s id) id b0) b <->
      (i ∈ timeout_wheel s b) \/ (b = b0 /\ i = id)) as Hin.
    { intros i b. simpl. rewrite !Ewb. destruct (Z.eqb_spec b b0) as [->|Hne].
      - rewrite elem_of_app, list_elem_of_singleton. tauto.
      - tauto. }
    split; [|split; [done|split; [simpl; by rewrite Et|split; [done|split; [done|]]]]].
    + split; try done.
      * simpl. rewrite Et, Ew. split; [done|]. intros b. rewrite !Ewb.
        destruct (b =? b0); [by apply nodup_snoc|done].
      * intros i b. rewrite Hin. simpl. rewrite Et, Ew. intros [Hi|[-> ->]].
        -- destruct (H4 i b Hi) as [Hn Hu]. split; [intros Hr; apply Hn; by right|].
           intros b' [Hi'|[-> ->]]%Hin; [auto|]. by destruct (Hnb b Hi).
        -- split; [done|]. intros b' [Hi'|[-> _]]%Hin; [|done]. by destruct (Hnb b' Hi').
      * intros i. change (timeout_pending s i = true <-> (i ∈ without id (timeout_todo s)) \/
          (exists b, i ∈ timeout_wheel (insert_bucket (circq_remove s id) id b0) b)).
        rewrite Et, Ew, H5, elem_of_cons. split.
        -- intros [[->|?]|[b Hi]]; [right; exists b0; apply Hin; tauto|tauto|right; exists b; apply Hin; tauto].
        -- intros [?|[b [Hi|[_ ->]]%Hin]]; eauto.
      * intros b i [Hi|[-> ->]]%Hin; [by apply H6|done].
    + simpl. rewrite Ewb, Z.eqb_refl. split; [done|]. apply elem_of_app. right.
      by apply list_elem_of_singleton.
  - destruct (flag_bits (to_flags (timeouts s id))) as (_ & _ & F3 & _).
    destruct (flag_bits (clr_flag (to_flags (timeouts s id)) TIMEOUT_ONQUEUE)) as (_ & _ & _ & F4).
    rewrite F3 in F4.
    split; [|split; [done|split; [simpl; by rewrite Et|split; [|split; [done|split; [lia|]]]]]].
    + split; simpl; try done.
      * intros i. destruct (i =? id); apply H2.
      * rewrite Et, Ew. split; [done|]. intros b. by rewrite Ewb.
      * intros i b. rewrite Ewb, Et, Ew. intros Hi. destruct (H4 i b Hi) as [Hn Hu].
        split; [intros Hr; apply Hn; by right|]. intros b'. rewrite Ewb. auto.
      * intros i. rewrite pending_set, Et, Ew. simpl. destruct (Z.eqb_spec i id) as [->|Hne].
        -- rewrite F4. split; [done|]. intros [?|[b Hb]]; [done|]. rewrite Ewb in Hb. by destruct (Hnb b).
        -- change (timeout_pending (circq_remove s id) i) with (timeout_pending s i). rewrite H5, elem_of_cons.
           split; [intros [[?|?]|[b Hb]]|intros [?|[b Hb]]]; try tauto; right; exists b; by rewrite ?Ewb in *.
      * intros b i. rewrite Ewb. intros Hi. destruct (H6 b i Hi) as [Hb Hd]. split; [done|].
        rewrite remaining_set; [done|]. intros ->. by destruct (Hnb b).
    + intros i Hne. simpl. by replace (i =? id) with false by lia.
    + rewrite pending_set, Z.eqb_refl. simpl. by rewrite F4.
Qed.

Lemma elem_of_mjoin_fmap (f : Z -> list Z) l i :
  i ∈ mjoin (f <$> l) <-> exists b, b ∈ l /\ i ∈ f b.
Proof.
  rewrite list_elem_of_join. split.
  - intros (x & Hi & Hx). apply list_elem_of_fmap in Hx as (b & -> & Hb). eauto.
  - intros (b & Hb & Hi). exists (f b). split; [done|]. by apply list_elem_of_fmap_2.
Qed.

Lemma nodup_mjoin (f : Z -> list Z) l :
  NoDup l -> (forall b, NoDup (f b)) -> (forall i b b', i ∈ f b -> i ∈ f b' -> b' = b) ->
  NoDup (mjoin (f <$> l)).
Proof.
  intros Hl Hf Hu. induction Hl as [|b l Hb Hl IH]; simpl; [constructor|].
  apply list.NoDup_app. split; [done|]. split; [|done]. intros i Hi Hj.
  apply elem_of_mjoin_fmap in Hj as (b' & Hb' & Hi'). by rewrite (Hu i b b' Hi Hi') in Hb'.
Qed.

Lemma remaining_tick s s' id :
  ticks s' = int32 (ticks s + 1) -> timeouts s' id = timeouts s id -> 1 <= remaining s id ->
  remaining s' id = remaining s id - 1.
Proof.
  intros E1 E2 Hr. unfold remaining in *. rewrite E1, E2.
  pose proof (int32_range (to_time (timeouts s id) - ticks s)) as Hg.
  apply int32_unique; [unfold is_int, INT_MIN, INT_MAX in *; lia|].
  rewrite Zminus_mod, int32_mod, <- Zminus_mod.
  rewrite (Zminus_mod (int32 _) 1), int32_mod, <- Zminus_mod. f_equal. lia.
Qed.

Lemma hardclock_ok s r s' :
  tw_ok s -> timeout_hardclock_update s = (r, s') ->
  tw_ok s' /\ timeouts s' = timeouts s /\ ticks s' = int32 (ticks s + 1) /\
  forall id b, id ∈ timeout_wheel s b -> remaining s' id = remaining s id - 1.
Proof.
  intros Hok E. destruct (hardclock_spec s r s' E) as (Et & Eto & _ & Hw & Htodo).
  destruct Hok as [H1 H2 [H3 H3'] H4 H5 H6].
  assert (forall id b, id ∈ timeout_wheel s b -> remaining s' id = remaining s id - 1) as Hrem.
  { intros id b Hin. destruct (H6 b id Hin) as [Hb Hd]. apply remaining_tick; [done|by rewrite Eto|].
    pose proof (dist_range b (ticks s) Hb). lia. }
  assert (forall id b, id ∈ timeout_wheel s' b <-> (id ∈ timeout_wheel s b) /\ b ∉ due (ticks s')) as Hin'.
  { intros id b. rewrite Hw. destruct (decide (b ∈ due (ticks s'))); rewrite ?elem_of_nil; tauto. }
  split; [|split; [done|split; [done|exact Hrem]]]. split.
  - rewrite Et. apply int32_range.
  - intros id. rewrite Eto. apply H2.
  - rewrite Htodo. split.
    + apply list.NoDup_app. split; [done|]. split.
      * intros i Hi (b & _ & Hb)%elem_of_mjoin_fmap. by destruct (H4 i b Hb).
      * apply nodup_mjoin; [apply due_nodup|done|]. intros i b b' Hb. by apply H4.
    + intros b. rewrite Hw. destruct (decide _); [constructor|done].
  - intros id b [Hin Hnd]%Hin'. destruct (H4 id b Hin) as [Hn Hu]. split.
    + rewrite Htodo. intros [?|(b' & Hb' & Hi')%elem_of_mjoin_fmap]%elem_of_app; [done|].
      by rewrite (Hu b' Hi') in Hb'.
    + intros b' [Hi' _]%Hin'. auto.
  - intros id. unfold timeout_pending. rewrite Eto. fold (timeout_pending s id).
    rewrite H5, Htodo, elem_of_app, elem_of_mjoin_fmap. split.
    + intros [?|[b Hb]]; [tauto|]. destruct (decide (b ∈ due (ticks s'))); [eauto|].
      right. exists b. by apply Hin'.
    + intros [[?|(b & _ & Hb)]|[b [Hb _]%Hin']]; eauto.
  - intros b id [Hin Hnd]%Hin'. destruct (H6 b id Hin) as [Hb Hd]. split; [done|].
    rewrite (Hrem id b Hin). rewrite Et, (dist_cong b _ (ticks s + 1) Hb (int32_mod _)).
    destruct (dist_tick b (ticks s) Hb) as [Hv Hne].
    assert (dist b (ticks s) <> 1) as Hd1.
    { intros E1. apply Hnd, due_iff. split; [done|]. apply Hv in E1. unfold visited in *.
      rewrite Et, <- E1. apply mod_period; [done|]. apply int32_mod. }
    rewrite (Hne Hd1). lia.
Qed.

Lemma softclock_spec fuel s :
  tw_ok s -> (length (timeout_todo s) <= fuel)%nat ->
  exists ids s', softclock fuel s = Some (ids, s') /\ tw_ok s' /\ timeout_todo s' = [] /\
    ticks s' = ticks s /\
    (forall i, i ∈ ids <-> (i ∈ timeout_todo s) /\ remaining s i <= 0) /\
    (forall i, i ∈ ids -> timeout_pending s' i = false) /\
    (forall i, i ∉ ids -> timeouts s' i = timeouts s i).
Proof.
  revert s. induction fuel as [|fuel IH]; intros s Hok Hlen.
  - exists [], s. unfold softclock, softclock_step. destruct (timeout_todo s) eqn:Et; [|simpl in Hlen; lia].
    split; [done|]. split; [done|]. split; [done|]. split; [done|].
    split; [intros i; rewrite elem_of_nil; tauto|]. split; [|done]. intros i Hi. by apply elem_of_nil in Hi.
  - cbn [softclock]. destruct (softclock_step s) as [[r s1]|] eqn:Es.
    2:{ unfold softclock_step in Es. destruct (timeout_todo s) eqn:Et; [|by step_if_in Es].
        exists [], s. split; [done|]. split; [done|]. split; [done|]. split; [done|].
        split; [intros i; rewrite elem_of_nil; tauto|]. split; [|done]. intros i Hi. by apply elem_of_nil in Hi. }
    destruct (softclock_step_spec s r s1 Hok Es) as (id & rest & Et & Hok1 & Etk & Et1 & Hoth & Hr).
    pose proof (proj1 (tw_nodup s Hok)) as Hnd. rewrite Et in Hlen, Hnd.
    assert (id ∉ rest) as Hid by (by inversion Hnd).
    destruct (IH s1 Hok1) as (ids & s' & -> & Hok' & Etd & Etk' & Hids & Hp & Hsame).
    { rewrite Et1. simpl in Hlen. lia. }
    assert (forall i, i ∈ rest -> remaining s1 i = remaining s i) as Hrem.
    { intros i Hi. unfold remaining. rewrite Etk, Hoth; [done|]. by intros ->. }
    assert (forall i, (i ∈ ids) <-> (i ∈ rest) /\ remaining s i <= 0) as Hids'.
    { intros i. rewrite Hids, Et1. split; intros [Hi Hle]; (split; [done|]);
        rewrite ?Hrem in * by done; done. }
    assert (id ∉ ids) as Hidn by (rewrite Hids'; tauto).
    eexists _, s'. split; [done|]. split; [done|]. split; [done|]. split; [congruence|].
    rewrite Et. destruct r as [i0|].
    + destruct Hr as (-> & Hle & Hpn). split; [|split].
      * intros i. rewrite !elem_of_cons, Hids'. split; [intros [->|?]; tauto|]. tauto.
      * intros i [->|Hi]%elem_of_cons; [|by apply Hp]. unfold timeout_pending. by rewrite Hsame.
      * intros i [Hne Hi]%not_elem_of_cons. by rewrite Hsame, Hoth.
    + destruct Hr as (Hpos & Esame & _). split; [|split; [done|]].
      * intros i. rewrite elem_of_cons, Hids'. split; [tauto|]. intros [[->|?] ?]; [lia|tauto].
      * intros i Hi. rewrite Hsame by done. destruct (decide (i = id)) as [->|]; [done|by apply Hoth].
Qed.

(** ** Adjusting the clock *)

Lemma adjust_bucket_spec l s adj nt :
  tw_ok s -> is_int nt -> NoDup l -> (forall i, i ∈ l -> timeout_pending s i = true) ->
  let s' := adjust_bucket l s adj nt in
  tw_ok s' /\ ticks s' = ticks s /\
  (forall i, timeout_pending s' i = timeout_pending s i) /\
  (forall b i, (i ∈ timeout_wheel s' b) <-> (i ∈ timeout_wheel s b) /\ i ∉ l).
Proof.
  revert s. induction l as [|id l IH]; intros s Hok Hnt Hnd Hp; simpl.
  { split; [done|]. split; [done|]. split; [done|]. intros b i. rewrite elem_of_nil. tauto. }
  inversion Hnd as [|? ? Hid Hl]. subst.
  set (t := if remaining s id <? adj then set_time (timeouts s id) nt else timeouts s id).
  set (s1 := if remaining s id <? adj then set_timeout s id (set_time (timeouts s id) nt) else s).
  assert (forall i, timeouts s1 i = timeouts (set_timeout s id t) i) as Es1.
  { intros i. unfold s1, t. destruct (remaining s id <? adj); [done|]. simpl.
    by destruct (Z.eqb_spec i id) as [->|]. }
  assert (timeout_wheel s1 = timeout_wheel s /\ timeout_todo s1 = timeout_todo s /\ ticks s1 = ticks s)
    as (E1 & E2 & E3) by (unfold s1; by destruct (_ <? _)).
  assert (to_flags t = to_flags (timeouts s id)) as Ef by (unfold t; by destruct (_ <? _)).
  assert (tw_ok (insert_todo (circq_remove s1 id) id)) as Hok1.
  { eapply tw_ext; [..|apply (wheel_enqueue_ok s id t Hok)]; simpl.
    - done.
    - exact Es1.
    - intros b. by rewrite E1.
    - by rewrite E2.
    - unfold t. destruct (_ <? _); [done|apply (tw_times s Hok)].
    - rewrite Ef. apply Hp. by left. }
  assert (forall i, timeout_pending (insert_todo (circq_remove s1 id) id) i = timeout_pending s i) as Hpend.
  { intros i. unfold timeout_pending. simpl. rewrite Es1. simpl.
    destruct (Z.eqb_spec i id) as [->|]; [by rewrite Ef|done]. }
  destruct (IH _ Hok1 Hnt Hl) as (Hok' & Et & Hp' & Hw').
  { intros i Hi. rewrite Hpend. apply Hp. by right. }
  split; [done|]. split; [by rewrite Et|]. split; [intros i; by rewrite Hp', Hpend|].
  intros b i. rewrite Hw'. simpl. rewrite E1, elem_without, not_elem_of_cons. tauto.
Qed.

Lemma adjust_wheel_spec n b0 s adj nt :
  tw_ok s -> is_int nt ->
  let s' := adjust_wheel n b0 s adj nt in
  tw_ok s' /\ ticks s' = ticks s /\ (forall i, timeout_pending s' i = timeout_pending s i) /\
  (forall b i, (i ∈ timeout_wheel s' b) <->
     (i ∈ timeout_wheel s b) /\ ~ (b0 <= b < b0 + Z.of_nat n)).
Proof.
  revert b0 s. induction n as [|n IH]; intros b0 s Hok Hnt.
  { cbn [adjust_wheel]. split; [done|]. split; [done|]. split; [done|]. intros b i.
    split; [intros H; split; [done|lia]|tauto]. }
  cbn [adjust_wheel].
  destruct (adjust_bucket_spec (timeout_wheel s b0) s adj nt Hok Hnt (proj2 (tw_nodup s Hok) b0))
    as (Hok1 & Et1 & Hp1 & Hw1).
  { intros i Hi. apply (tw_queued s Hok). eauto. }
  destruct (IH (b0 + 1) _ Hok1 Hnt) as (Hok2 & Et2 & Hp2 & Hw2).
  split; [done|]. split; [congruence|]. split; [intros i; by rewrite Hp2, Hp1|].
  intros b i. rewrite Hw2, Hw1. split.
  - intros [[Hi Hn] Hr]. split; [done|]. intros Hb. apply Hn.
    destruct (decide (b = b0)) as [->|]; [done|]. exfalso. apply Hr. lia.
  - intros [Hi Hr]. split; [split; [done|]|lia]. intros Hi0.
    destruct (tw_once s Hok i b Hi) as [_ Hu]. specialize (Hu b0 Hi0). lia.
Qed.

Lemma adjust_spec s adj :
  tw_ok s -> tw_ok (timeout_adjust_ticks s adj) /\
  (forall i, timeout_pending (timeout_adjust_ticks s adj) i = timeout_pending s i) /\
  (0 < adj -> forall b, timeout_wheel (timeout_adjust_ticks s adj) b = []).
Proof.
  intros Hok. unfold timeout_adjust_ticks.
  pose proof (Z2Nat.id BUCKETS ltac:(unfold BUCKETS; lia)) as Hn. revert Hn.
  generalize (Z.to_nat BUCKETS) as n. intros n En.
  destruct (Z.leb_spec adj 0) as [Hle|Hlt]; [split; [done|split; [done|lia]]|].
  destruct (adjust_wheel_spec n 0 s adj (int32 (ticks s + adj)) Hok (int32_range _))
    as (Hok1 & Et & Hp & Hw).
  set (s1 := adjust_wheel n 0 s adj (int32 (ticks s + adj))) in *. clearbody s1.
  assert (forall b, timeout_wheel s1 b = []) as He.
  { intros b. destruct (timeout_wheel s1 b) as [|i l] eqn:E; [done|]. exfalso.
    assert (i ∈ timeout_wheel s1 b) as Hi by (rewrite E; by left). apply Hw in Hi as [Hi Hn].
    destruct (tw_due s Hok b i Hi) as [Hb _]. apply Hn. unfold bucket_ok in Hb. lia. }
  split; [|split; [exact Hp|intros _; exact He]].
  destruct Hok1 as [H1 H2 H3 H4 H5 H6]. split; simpl; try done.
  - apply int32_range.
  - intros b i. rewrite He. by intros Hi%elem_of_nil.
Qed.
