(* ===== verification/TimeoutClock.v ===== *)
(** * The clock: theorems on the timing wheel (sys/kern/kern_timeout.c) *)

From Stdlib Require Import ZArith Lia Bool.
From stdpp Require Import base numbers list option.
From S2P Require Import Prelude Timeout TimeoutFacts.

(** ** Any interleaving of the operations *)

(** One atomic operation; [Some id] when softclock is to call the handler of
    [id].  A timeout is set up again only while it is not queued, as
    timeout_set(9) demands. *)
Inductive tstep : tstate -> option Z -> tstate -> Prop :=
| t_set s id fn arg flags : timeout_pending s id = false ->
    tstep s None (timeout_set_flags s id fn arg flags)
| t_add s id k r s' : 0 <= k <= INT_MAX -> timeout_add s id k = Done r s' -> tstep s None s'
| t_del s id r s' : timeout_del s id = (r, s') -> tstep s None s'
| t_hardclock s r s' : timeout_hardclock_update s = (r, s') -> tstep s None s'
| t_softclock s r s' : softclock_step s = Some (r, s') -> tstep s r s'
| t_adjust s adj : tstep s None (timeout_adjust_ticks s adj).

(** The handlers called along a run, with the state each was called in. *)
Inductive truns : tstate -> list (Z * tstate) -> tstate -> Prop :=
| tr_nil s : truns s [] s
| tr_quiet s s1 l s2 : truns s l s1 -> tstep s1 None s2 -> truns s l s2
| tr_call s s1 l id s2 : truns s l s1 -> tstep s1 (Some id) s2 -> truns s (l ++ [(id, s1)]) s2.

Lemma set_ok s id fn arg flags :
  tw_ok s -> timeout_pending s id = false -> tw_ok (timeout_set_flags s id fn arg flags).
Proof.
  intros Hok Hp. destruct (not_queued s id Hok Hp) as [Hn1 Hn2].
  destruct Hok as [H1 H2 H3 H4 H5 H6]. unfold timeout_set_flags. split; simpl; try done.
  - intros i. destruct (i =? id); apply H2.
  - intros i. rewrite pending_set. destruct (Z.eqb_spec i id) as [->|]; [|apply H5].
    rewrite <- H5, Hp. simpl. by destruct (has flags TIMEOUT_SET_MPSAFE).
  - intros b i Hin. destruct (H6 b i Hin) as [Hb Hd]. split; [done|].
    rewrite remaining_set; [done|]. intros ->. by apply (Hn2 b).
Qed.

Lemma add_initialized s id k r s' :
  timeout_add s id k = Done r s' -> has (to_flags (timeouts s id)) TIMEOUT_INITIALIZED = true.
Proof. unfold timeout_add. by destruct (has (to_flags (timeouts s id)) TIMEOUT_INITIALIZED). Qed.

Lemma tstep_ok s r s' :
  tw_ok s -> tstep s r s' ->
  tw_ok s' /\ match r with Some id => remaining s id <= 0 | None => True end.
Proof.
  intros Hok Hst. destruct Hst as [s id fn arg flags Hp|s id k r s' Hk E|s id r s' E|s r s' E|s r s' E|s adj].
  - split; [by apply set_ok|done].
  - destruct (add_spec s id k Hok Hk (add_initialized _ _ _ _ _ E)) as (s1 & E1 & Hok1 & _).
    rewrite E in E1. injection E1 as _ ->. done.
  - by destruct (del_spec s id r s' Hok E).
  - by destruct (hardclock_ok s r s' Hok E).
  - destruct (softclock_step_spec s r s' Hok E) as (id & rest & _ & Hok' & _ & _ & _ & Hr).
    split; [done|]. destruct r as [i|]; [|done]. by destruct Hr as (-> & ? & _).
  - split; [by apply adjust_spec|done].
Qed.

(** C8: whatever sequence of [timeout_set], [timeout_add], [timeout_del],
    clock ticks, softclock turns and clock adjustments is performed: a
    timeout is flagged as pending exactly when it is on one queue, every
    timeout on the wheel is in a bucket that will be emptied no later than the
    tick at which it is due, and no handler was called before its time. *)
Theorem timeout_wheel_invariant s l s' :
  tw_ok s -> truns s l s' ->
  tw_ok s' /\ forall id s1, (id, s1) ∈ l -> remaining s1 id <= 0.
Proof.
  intros Hok H. induction H as [s|s s1 l s2 _ IH Hst|s s1 l id s2 _ IH Hst].
  - split; [done|]. intros id s1 H. by apply elem_of_nil in H.
  - destruct (IH Hok) as [Hok1 Hl]. by destruct (tstep_ok s1 None s2 Hok1 Hst).
  - destruct (IH Hok) as [Hok1 Hl]. destruct (tstep_ok s1 (Some id) s2 Hok1 Hst) as [Hok2 Hr].
    split; [done|]. intros i s0 [Hin|E%list_elem_of_singleton]%elem_of_app; [by apply Hl|].
    by injection E as -> ->.
Qed.

(** [timeout_add] on an initialised timeout returns 1 exactly when it
    was not pending, leaves it pending with exactly [to_ticks] ticks to go
    and no other timeout changed; [timeout_del] returns 1 exactly when it was
    pending and leaves it on no queue, so that it cannot fire. *)
Theorem timeout_add_del_correct s id k :
  tw_ok s -> 0 <= k <= INT_MAX -> has (to_flags (timeouts s id)) TIMEOUT_INITIALIZED = true ->
  (exists s', timeout_add s id k = Done (if timeout_pending s id then 0 else 1) s' /\
     tw_ok s' /\ timeout_pending s' id = true /\ remaining s' id = k /\
     forall i, i <> id -> timeouts s' i = timeouts s i) /\
  (exists s', timeout_del s id = (if timeout_pending s id then 1 else 0, s') /\
     tw_ok s' /\ timeout_pending s' id = false /\
     (id ∉ timeout_todo s') /\ (forall b, id ∉ timeout_wheel s' b) /\
     forall i, i <> id -> timeouts s' i = timeouts s i).
Proof.
  intros Hok Hk Hi. split.
  - destruct (add_spec s id k Hok Hk Hi) as (s' & E & Hok' & _ & Hp & Hr & Ho). by exists s'.
  - destruct (timeout_del s id) as [r s'] eqn:E.
    destruct (del_spec s id r s' Hok E) as (Hok' & -> & _ & Hp & H1 & H2 & Ho). by exists s'.
Qed.

(** ** A clock whose softclock keeps up *)

(** One tick of hardclock followed by the softclock it asks for. *)
Definition tick (s : tstate) : option (list Z * tstate) :=
  let '(_, s1) := timeout_hardclock_update s in
  softclock (length (timeout_todo s1)) s1.

(** The handlers called at each of the next [n] ticks. *)
Fixpoint clock (n : nat) (s : tstate) : option (list (list Z) * tstate) :=
  match n with
  | O => Some ([], s)
  | S n =>
      match tick s with
      | None => None
      | Some (ids, s1) =>
          match clock n s1 with
          | None => None
          | Some (l, s2) => Some (ids :: l, s2)
          end
      end
  end.

Definition quiescent (s : tstate) : Prop := tw_ok s /\ timeout_todo s = [].

Lemma quiescent_pending s id :
  quiescent s -> timeout_pending s id = true -> exists b, (id ∈ timeout_wheel s b) /\ 1 <= remaining s id.
Proof.
  intros [Hok Ht] Hp. apply (tw_queued s Hok) in Hp as [Hp|[b Hb]].
  - rewrite Ht in Hp. by apply elem_of_nil in Hp.
  - exists b. split; [done|]. destruct (tw_due s Hok b id Hb) as [Hbk Hd].
    pose proof (dist_range b (ticks s) Hbk). lia.
Qed.

Lemma tick_spec s :
  quiescent s ->
  exists ids s', tick s = Some (ids, s') /\ quiescent s' /\ ticks s' = int32 (ticks s + 1) /\
    (forall id, (id ∈ ids) <-> timeout_pending s id = true /\ remaining s id = 1) /\
    (forall id, id ∈ ids -> timeout_pending s' id = false) /\
    (forall id, timeout_pending s id = true -> id ∉ ids ->
       timeout_pending s' id = true /\ remaining s' id = remaining s id - 1) /\
    (forall id, timeout_pending s id = false -> timeout_pending s' id = false).
Proof.
  intros Hq. pose proof Hq as [Hok Ht]. unfold tick.
  destruct (timeout_hardclock_update s) as [r s1] eqn:E.
  destruct (hardclock_ok s r s1 Hok E) as (Hok1 & Eto & Etk & Hrem).
  destruct (softclock_spec _ s1 Hok1 (le_n _)) as (ids & s' & -> & Hok' & Htd & Etk' & Hids & Hp & Hsame).
  assert (forall id, timeout_pending s1 id = timeout_pending s id) as Hps
    by (intros id; unfold timeout_pending; by rewrite Eto).
  exists ids, s'. split; [done|]. split; [done|]. split; [congruence|].
  assert (forall id, (id ∈ ids) <-> timeout_pending s id = true /\ remaining s id = 1) as Hiff.
  { intros id. rewrite Hids. split.
    - intros [Hin Hle]. assert (timeout_pending s id = true) as Hpd.
      { rewrite <- Hps. apply (tw_queued s1 Hok1). by left. }
      split; [done|]. destruct (quiescent_pending s id Hq Hpd) as (b & Hb & Hr).
      rewrite (Hrem id b Hb) in Hle. lia.
    - intros [Hpd Hr]. destruct (quiescent_pending s id Hq Hpd) as (b & Hb & _).
      pose proof (Hrem id b Hb) as Hr1. split; [|lia].
      rewrite <- Hps in Hpd. apply (tw_queued s1 Hok1) in Hpd as [?|[b' Hb']]; [done|].
      destruct (tw_due s1 Hok1 b' id Hb') as [Hbk Hd]. pose proof (dist_range b' (ticks s1) Hbk). lia. }
  split; [done|]. split; [done|]. split.
  - intros id Hpd Hn. destruct (quiescent_pending s id Hq Hpd) as (b & Hb & _).
    unfold timeout_pending, remaining. rewrite Hsame, Etk' by done. split; [by rewrite Eto|].
    fold (remaining s1 id). by apply (Hrem id b).
  - intros id Hpd. destruct (decide (id ∈ ids)) as [Hin|Hn]; [by apply Hp|].
    unfold timeout_pending. rewrite Hsame by done. by rewrite Eto.
Qed.

Lemma clock_stopped n s id :
  quiescent s -> timeout_pending s id = false ->
  exists l s', clock n s = Some (l, s') /\ quiescent s' /\ Forall (fun ids => id ∉ ids) l.
Proof.
  revert s. induction n as [|n IH]; intros s Hq Hp; simpl; [by exists [], s|].
  destruct (tick_spec s Hq) as (ids & s1 & -> & Hq1 & _ & Hids & _ & _ & Hnp).
  destruct (IH s1 Hq1 (Hnp id Hp)) as (l & s' & -> & Hq' & Hl).
  exists (ids :: l), s'. split; [done|]. split; [done|]. constructor; [|done].
  rewrite Hids. intros [? _]. congruence.
Qed.

Lemma clock_runs n s id k :
  quiescent s -> timeout_pending s id = true -> remaining s id = Z.of_nat (S k) -> (k < n)%nat ->
  exists l s', clock n s = Some (l, s') /\ quiescent s' /\
    forall j ids, l !! j = Some ids -> (id ∈ ids) <-> j = k.
Proof.
  revert s k. induction n as [|n IH]; intros s k Hq Hp Hr Hk; [lia|]. simpl.
  destruct (tick_spec s Hq) as (ids & s1 & -> & Hq1 & _ & Hids & Hfin & Hkeep & _).
  destruct k as [|k].
  - assert (id ∈ ids) as Hin by (apply Hids; split; [done|lia]).
    destruct (clock_stopped n s1 id Hq1 (Hfin id Hin)) as (l & s' & -> & Hq' & Hl).
    exists (ids :: l), s'. split; [done|]. split; [done|]. intros [|j] ids' Hj; simpl in Hj.
    + injection Hj as <-. done.
    + split; [|done]. intros Hin'. exfalso. by apply (Forall_lookup_1 _ _ _ _ Hl Hj).
  - assert (id ∉ ids) as Hn by (rewrite Hids; lia).
    destruct (Hkeep id Hp Hn) as [Hp1 Hr1].
    destruct (IH s1 k Hq1 Hp1 ltac:(lia) ltac:(lia)) as (l & s' & -> & Hq' & Hl).
    exists (ids :: l), s'. split; [done|]. split; [done|]. intros [|j] ids' Hj; simpl in Hj.
    + injection Hj as <-. split; [done|lia].
    + rewrite (Hl j ids' Hj). lia.
Qed.


(** ** Witnesses: a clock near the wrap of the tick counter *)

Definition demo_to : timeout := Timeout 1 2 0 TIMEOUT_INITIALIZED.
Definition demo_start : tstate := timeout_startup INT_MAX (fun _ => demo_to).

Lemma demo_start_ok : tw_ok demo_start.
Proof.
  split; simpl.
  - unfold is_int, INT_MIN, INT_MAX. lia.
  - intros id. simpl. unfold is_int, INT_MIN, INT_MAX. lia.
  - split; [constructor|]. intros b. constructor.
  - intros id b H. by apply elem_of_nil in H.
  - intros id. split; [done|]. intros [H|[b H]]; by apply elem_of_nil in H.
  - intros b id H. by apply elem_of_nil in H.
Qed.

Lemma timeout_add_del_correct_witness :
  (exists s', timeout_add demo_start 7 300 = Done 1 s' /\
     tw_ok s' /\ timeout_pending s' 7 = true /\ remaining s' 7 = 300 /\
     forall i, i <> 7 -> timeouts s' i = timeouts demo_start i) /\
  (exists s', timeout_del demo_start 7 = (0, s') /\
     tw_ok s' /\ timeout_pending s' 7 = false /\
     (7 ∉ timeout_todo s') /\ (forall b, 7 ∉ timeout_wheel s' b) /\
     forall i, i <> 7 -> timeouts s' i = timeouts demo_start i).
Proof.
  apply (timeout_add_del_correct demo_start 7 300 demo_start_ok);
    [unfold INT_MAX; lia|reflexivity].
Defined.

(** Timeout 7, two ticks from now, on wheel 0. *)
Definition demo_armed : tstate :=
  TState INT_MAX (fun i => if i =? 7 then Timeout 1 2 (INT_MIN + 1) 6 else demo_to)
    (fun b => if b =? 1 then [7] else []) [].

Lemma demo_armed_quiescent : quiescent demo_armed.
Proof.
  split; [|done]. split; simpl.
  - unfold is_int, INT_MIN, INT_MAX. lia.
  - intros id. destruct (id =? 7); simpl; unfold is_int, INT_MIN, INT_MAX; lia.
  - split; [constructor|]. intros b. destruct (b =? 1); repeat constructor. by intros H%elem_of_nil.
  - intros id b H. split; [by intros H0%elem_of_nil|]. intros b' H'.
    destruct (Z.eqb_spec b 1), (Z.eqb_spec b' 1); try congruence; by apply elem_of_nil in H || apply elem_of_nil in H'.
  - intros id. unfold timeout_pending. simpl. destruct (Z.eqb_spec id 7) as [->|Hne]; simpl.
    + split; [|done]. intros _. right. exists 1. by left.
    + split; [done|]. intros [H|[b H]]; [by apply elem_of_nil in H|].
      destruct (b =? 1); [apply list_elem_of_singleton in H; congruence|by apply elem_of_nil in H].
  - intros b id H. destruct (Z.eqb_spec b 1) as [->|]; [|by apply elem_of_nil in H].
    apply list_elem_of_singleton in H as ->. split; [unfold bucket_ok, BUCKETS; lia|].
    vm_compute. done.
Qed.


(** Two ticks later softclock finds timeout 7 on its list. *)
Definition demo_due : tstate :=
  snd (timeout_hardclock_update (snd (timeout_hardclock_update demo_armed))).

Lemma timeout_wheel_invariant_witness :
  exists s', truns demo_armed [(7, demo_due)] s' /\ tw_ok s' /\
    forall id s1, (id, s1) ∈ [(7, demo_due)] -> remaining s1 id <= 0.
Proof.
  assert (Hcall : fst <$> softclock_step demo_due = Some (Some 7)) by (vm_compute; reflexivity).
  destruct (softclock_step demo_due) as [[r s']|] eqn:E; [|discriminate Hcall].
  simpl in Hcall. injection Hcall as ->. exists s'.
  assert (truns demo_armed ([] ++ [(7, demo_due)]) s') as H.
  { eapply tr_call; [|exact (t_softclock _ _ _ E)].
    eapply tr_quiet; [eapply tr_quiet; [apply tr_nil|]|].
    - apply (t_hardclock _ (fst (timeout_hardclock_update demo_armed))). apply surjective_pairing.
    - apply (t_hardclock _ (fst (timeout_hardclock_update (snd (timeout_hardclock_update demo_armed))))).
      apply surjective_pairing. }
  split; [exact H|].
  exact (timeout_wheel_invariant demo_armed [(7, demo_due)] _ (proj1 demo_armed_quiescent) H).
Defined.
