(* ===== verification/Sem.v ===== *)
(** * System V semaphores (sys/kern/sysv_sem.c, sys/kern/sysv_ipc.c)

    The data and the operations of the semaphore facility: [seminit],
    [semu_alloc], [semundo_adjust], [semundo_clear], [semctl1] with
    [sys___semctl], [sys_semget], [sys_semop], [semexit] and
    [sysctl_sysvsem], with the permission checks they call ([ipcperm],
    [vaccess], [groupmember]) and the integer sysctl helpers.

    [struct semid_ds] and [struct sem_undo] are pool items that the code
    reaches through pointers it keeps across calls and sleeps, so each item
    carries the address the pool gave it and a kept pointer is that address;
    following a kept pointer to an item that is no longer live is the outcome
    [Freed].  The address a [pool_get] returns is an argument of the
    operation.  What other processes do to the facility while the caller
    sleeps is a function on the state, also an argument.  User memory is
    present only as the results of [copyin] and [copyout]. *)

From stdpp Require Import base numbers list option.
From Stdlib Require Import ZArith Lia Bool.
From S2P Require Import Prelude.

(** ** Credentials and permissions *)

Record ucred := mkCred { cr_uid : Z; cr_gid : Z; cr_groups : list Z }.

Record ipc_perm := mkPerm {
  cuid : Z; cgid : Z; uid : Z; gid : Z; mode : Z; seq : Z; key : Z }.

Definition IPC_R : Z := 256.       (* 000400 *)
Definition IPC_W : Z := 128.       (* 000200 *)
Definition IPC_M : Z := 4096.      (* 010000 *)
Definition IPC_CREAT : Z := 512.   (* 001000 *)
Definition IPC_EXCL : Z := 1024.   (* 002000 *)
Definition IPC_NOWAIT : Z := 2048. (* 004000 *)
Definition IPC_PRIVATE : Z := 0.
Definition IPC_RMID : Z := 0.
Definition IPC_SET : Z := 1.
Definition IPC_STAT : Z := 2.

Definition IPCID_TO_IX (id : Z) : Z := Z.land id 65535.
Definition IPCID_TO_SEQ (id : Z) : Z := Z.land (Z.shiftr id 16) 65535.
Definition IXSEQ_TO_IPCID (ix : Z) (perm : ipc_perm) : Z :=
  Z.lor (Z.shiftl (seq perm) 16) (Z.land ix 65535).

Definition groupmember (g : Z) (cred : ucred) : bool :=
  (cr_gid cred =? g) || existsb (fun g' => g' =? g) (cr_groups cred).

Definition VREAD : Z := 256.
Definition VWRITE : Z := 128.
Definition VEXEC : Z := 64.

(** The three [if]s that collect the bits asked of one class of users; the
    bits of the owner are shifted down by [sh] (0, 3 or 6). *)
Definition access_mask (sh acc_mode : Z) : Z :=
  Z.lor (Z.lor (if has acc_mode VEXEC then Z.shiftr VEXEC sh else 0)
               (if has acc_mode VREAD then Z.shiftr VREAD sh else 0))
        (if has acc_mode VWRITE then Z.shiftr VWRITE sh else 0).

Definition vaccess (isdir : bool) (file_mode fuid fgid acc_mode : Z) (cred : ucred) : Z :=
  let check sh :=
    if Z.land file_mode (access_mask sh acc_mode) =? access_mask sh acc_mode
    then 0 else EACCES in
  if cr_uid cred =? 0 then
    if has acc_mode VEXEC && negb isdir && (Z.land file_mode 73 =? 0)
    then EACCES else 0
  else if cr_uid cred =? fuid then check 0
  else if groupmember fgid cred then check 3
  else check 6.

Definition ipcperm (cred : ucred) (perm : ipc_perm) (m : Z) : Z :=
  if m =? IPC_M then
    if (cr_uid cred =? 0) || (cr_uid cred =? uid perm) || (cr_uid cred =? cuid perm)
    then 0 else EPERM
  else if (vaccess false (mode perm) (uid perm) (gid perm) m cred =? 0) ||
          (vaccess false (mode perm) (cuid perm) (cgid perm) m cred =? 0)
  then 0 else EACCES.

(** ** The state *)

Record sem := mkSem { semval : Z; sempid : Z; semncnt : Z; semzcnt : Z }.

Record semid_ds := mkDs {
  sem_addr : nat;            (* the pool item *)
  sem_perm : ipc_perm;
  sem_base : list sem;
  sem_nsems : Z;
  sem_otime : Z;
  sem_ctime : Z }.

Record sembuf := mkSop { sem_num : Z; sem_op : Z; sem_flg : Z }.

Definition SEM_UNDO : Z := 4096. (* 010000 *)

Record undo := mkUndo { un_adjval : Z; un_num : Z; un_id : Z }.

(** [un_ent] holds the first [un_cnt] entries, the active ones. *)
Record sem_undo := mkSu { un_addr : nat; un_proc : Z; un_ent : list undo }.

Definition un_cnt (su : sem_undo) : nat := length (un_ent su).

Definition SEMUME : Z := 10.
Definition SEMVMX : Z := 32767.
Definition SEMAEM : Z := 16384.

Record seminfo := mkInfo {
  semmni : Z; semmns : Z; semmnu : Z; semmsl : Z; semopm : Z;
  semume : Z; semusz : Z; semvmx : Z; semaem : Z }.

(** SEMUSZ on LP64: a header of 32 bytes and ten entries of 8. *)
Definition default_seminfo : seminfo :=
  mkInfo 10 60 30 60 100 SEMUME 112 SEMVMX SEMAEM.

Record sstate := mkS {
  info : seminfo;
  sema : list (option semid_ds);
  semseqs : list Z;
  semtot : Z;
  semutot : Z;
  semu_list : list sem_undo;
  wakeups : list Z;          (* the channels &sema[ix] woken, latest first *)
  time_second : Z }.

Definition with_sema (f : list (option semid_ds)) (st : sstate) : sstate :=
  mkS (info st) f (semseqs st) (semtot st) (semutot st) (semu_list st) (wakeups st) (time_second st).
Definition with_seqs (q : list Z) (st : sstate) : sstate :=
  mkS (info st) (sema st) q (semtot st) (semutot st) (semu_list st) (wakeups st) (time_second st).
Definition with_semtot (n : Z) (st : sstate) : sstate :=
  mkS (info st) (sema st) (semseqs st) n (semutot st) (semu_list st) (wakeups st) (time_second st).
Definition with_undos (n : Z) (l : list sem_undo) (st : sstate) : sstate :=
  mkS (info st) (sema st) (semseqs st) (semtot st) n l (wakeups st) (time_second st).
Definition with_info (i : seminfo) (st : sstate) : sstate :=
  mkS i (sema st) (semseqs st) (semtot st) (semutot st) (semu_list st) (wakeups st) (time_second st).
Definition wakeup (ix : Z) (st : sstate) : sstate :=
  mkS (info st) (sema st) (semseqs st) (semtot st) (semutot st) (semu_list st)
    (ix :: wakeups st) (time_second st).

Definition with_perm (p : ipc_perm) (ds : semid_ds) : semid_ds :=
  mkDs (sem_addr ds) p (sem_base ds) (sem_nsems ds) (sem_otime ds) (sem_ctime ds).
Definition with_base (b : list sem) (ds : semid_ds) : semid_ds :=
  mkDs (sem_addr ds) (sem_perm ds) b (sem_nsems ds) (sem_otime ds) (sem_ctime ds).
Definition with_otime (t : Z) (ds : semid_ds) : semid_ds :=
  mkDs (sem_addr ds) (sem_perm ds) (sem_base ds) (sem_nsems ds) t (sem_ctime ds).
Definition with_ctime (t : Z) (ds : semid_ds) : semid_ds :=
  mkDs (sem_addr ds) (sem_perm ds) (sem_base ds) (sem_nsems ds) (sem_otime ds) t.

Definition set_semval (v : Z) (s : sem) : sem := mkSem (u16 v) (sempid s) (semncnt s) (semzcnt s).
Definition set_sempid (p : Z) (s : sem) : sem := mkSem (semval s) p (semncnt s) (semzcnt s).
Definition add_ncnt (d : Z) (s : sem) : sem :=
  mkSem (semval s) (sempid s) (u16 (semncnt s + d)) (semzcnt s).
Definition add_zcnt (d : Z) (s : sem) : sem :=
  mkSem (semval s) (sempid s) (semncnt s) (u16 (semzcnt s + d)).

(** [semaptr->sem_base[n].semval += d]. *)
Definition add_semval (n d : Z) (base : list sem) : list sem :=
  alter (fun s => set_semval (semval s + d) s) (Z.to_nat n) base.

(** [sema[ix]] for an index the caller has checked. *)
Definition sema_at (ix : Z) (st : sstate) : option semid_ds :=
  mjoin (sema st !! Z.to_nat ix).
Definition put_ds (ix : Z) (d : option semid_ds) (st : sstate) : sstate :=
  with_sema (<[Z.to_nat ix := d]> (sema st)) st.
Definition upd_ds (ix : Z) (f : semid_ds -> semid_ds) (st : sstate) : sstate :=
  with_sema (alter (fmap f) (Z.to_nat ix) (sema st)) st.

(** What a call does: it returns an error number (0 for success), is asleep
    on [&sema[ix]] when the given wake-ups are used up, panics, or follows a
    pointer to an item that has gone back to its pool. *)
Inductive outcome :=
| Ret (error : Z) (st : sstate)
| Asleep (st : sstate)
| Panicked
| Freed.

Definition seminit (i : seminfo) (now : Z) : sstate :=
  mkS i (replicate (Z.to_nat (semmni i)) None) (replicate (Z.to_nat (semmni i)) 0)
    0 0 [] [] now.

(** ** Undo structures *)

Definition find_proc (pr : Z) (l : list sem_undo) : option sem_undo :=
  snd <$> list_find (fun su => un_proc su = pr) l.

(** [a] is the item the pool hands out.  [slept] is [None] when
    [pool_get(PR_NOWAIT)] succeeds, and what the others did meanwhile when
    the call had to wait for the item. *)
Definition semu_alloc (a : nat) (slept : option (sstate -> sstate)) (pr : Z)
    (st : sstate) : option nat * sstate :=
  let insert st :=
    (Some a, with_undos (semutot st) (mkSu a pr [] :: semu_list st) st) in
  if semutot st =? semmnu (info st) then (None, st)
  else
    let st := with_undos (semutot st + 1) (semu_list st) st in
    match slept with
    | None => insert st
    | Some others =>
        let st := others st in
        match find_proc pr (semu_list st) with
        | Some su => (Some (un_addr su), with_undos (semutot st - 1) (semu_list st) st)
        | None => insert st
        end
    end.

(** Entry [i] goes away: the last entry takes its place unless it is the last
    one itself. *)
Definition drop_entry (i : nat) (ent : list undo) : list undo :=
  let n := pred (length ent) in
  match ent !! n with
  | Some e => if (i <? n)%nat then <[i := e]> (take n ent) else take n ent
  | None => ent
  end.

Definition matches (semid semnum : Z) (e : undo) : Prop :=
  un_id e = semid /\ un_num e = semnum.
#[global] Instance matches_dec semid semnum e : Decision (matches semid semnum e).
Proof. unfold matches. apply _. Defined.

Definition find_addr (a : nat) (l : list sem_undo) : option (nat * sem_undo) :=
  list_find (fun su => un_addr su = a) l.

Definition set_ent (ent : list undo) (su : sem_undo) : sem_undo :=
  mkSu (un_addr su) (un_proc su) ent.

(** The second half of [semundo_adjust]: the entry of the structure at
    address [a].  [None] when that structure has been freed. *)
Definition adjust_entry (a : nat) (semid semnum adjval : Z) (st : sstate)
    : option (Z * sstate) :=
  match find_addr a (semu_list st) with
  | None => None
  | Some (k, su) =>
      let put ent := with_undos (semutot st) (<[k := set_ent ent su]> (semu_list st)) st in
      match list_find (matches semid semnum) (un_ent su) with
      | Some (i, e) =>
          let v := if adjval =? 0 then 0 else sint 16 (un_adjval e + adjval) in
          if negb (v =? 0) then
            Some (0, put (<[i := mkUndo v (un_num e) (un_id e)]> (un_ent su)))
          else if (pred (length (un_ent su)) =? 0)%nat then
            Some (0, with_undos (semutot st - 1) (delete k (semu_list st)) st)
          else Some (0, put (drop_entry i (un_ent su)))
      | None =>
          if adjval =? 0 then Some (0, st)
          else if Z.of_nat (un_cnt su) =? SEMUME then Some (EINVAL, st)
          else Some (0, put (un_ent su ++ [mkUndo (sint 16 adjval) (sint 16 semnum) semid]))
      end
  end.

(** [supptr] is the caller's cached pointer, given back with the result. *)
Definition semundo_adjust (a : nat) (slept : option (sstate -> sstate)) (pr : Z)
    (supptr : option nat) (semid semnum adjval : Z) (st : sstate)
    : option (Z * option nat * sstate) :=
  let entry su st :=
    '(e, st) ← adjust_entry su semid semnum adjval st; Some (e, Some su, st) in
  match supptr with
  | Some su => entry su st
  | None =>
      match find_proc pr (semu_list st) with
      | Some su => entry (un_addr su) st
      | None =>
          if adjval =? 0 then Some (0, None, st)
          else match semu_alloc a slept pr st with
               | (None, st) => Some (ENOSPC, None, st)
               | (Some su, st) => entry su st
               end
      end
  end.

(** The inner [for] of [semundo_clear]; [n] bounds the iterations left, which
    are at most [un_cnt - i]. *)
Fixpoint clear_entries (n : nat) (semid semnum : Z) (i : nat) (ent : list undo)
    : list undo :=
  match n with
  | O => ent
  | S n =>
      match ent !! i with
      | None => ent
      | Some e =>
          if un_id e =? semid then
            if (semnum =? -1) || (un_num e =? semnum) then
              let ent' := drop_entry i ent in
              if negb (semnum =? -1) then ent'
              else clear_entries n semid semnum
                     (if (i <? length ent')%nat then i else S i) ent'
            else if negb (semnum =? -1) then ent
            else clear_entries n semid semnum (S i) ent
          else clear_entries n semid semnum (S i) ent
      end
  end.

Fixpoint clear_list (semid semnum : Z) (l : list sem_undo) (n : Z) : list sem_undo * Z :=
  match l with
  | [] => ([], n)
  | su :: l =>
      let ent := clear_entries (un_cnt su) semid semnum 0 (un_ent su) in
      if (length ent =? 0)%nat then clear_list semid semnum l (n - 1)
      else let '(l', n') := clear_list semid semnum l n in (set_ent ent su :: l', n')
  end.

Definition semundo_clear (semid semnum : Z) (st : sstate) : sstate :=
  let '(l, n) := clear_list semid semnum (semu_list st) (semutot st) in
  with_undos n l st.

(** ** semctl *)

Definition GETNCNT : Z := 3.
Definition GETPID : Z := 4.
Definition GETVAL : Z := 5.
Definition GETALL : Z := 6.
Definition GETZCNT : Z := 7.
Definition SETVAL : Z := 8.
Definition SETALL : Z := 9.

(** The [union semun] argument and the user memory behind it: the value for
    SETVAL, what copying in the buffer or an array element gives (an error or
    the datum), and the error of copying the buffer or an element out. *)
Record semun := mkArg {
  arg_val : Z;
  in_buf : Z + ipc_perm;
  in_array : nat -> Z + Z;
  out_buf : Z;
  out_array : nat -> Z }.

Inductive copied := NoCopy | CopyDs (ds : semid_ds) | CopyVals (vals : list Z).

Record ctlres := mkCtl { ctl_error : Z; ctl_retval : option Z; ctl_out : copied }.

Definition fail (e : Z) : ctlres := mkCtl e None NoCopy.

Fixpoint getall_loop (arg : semun) (i : nat) (base : list sem) : Z * list Z :=
  match base with
  | [] => (0, [])
  | s :: base =>
      if negb (out_array arg i =? 0) then (out_array arg i, [])
      else let '(e, vs) := getall_loop arg (S i) base in (e, semval s :: vs)
  end.

Fixpoint setall_loop (arg : semun) (vmx : Z) (i n : nat) : Z + list Z :=
  match n with
  | O => inr []
  | S n =>
      match in_array arg i with
      | inl e => inl e
      | inr v => if v >? vmx then inl ERANGE
                 else match setall_loop arg vmx (S i) n with
                      | inl e => inl e
                      | inr vs => inr (v :: vs)
                      end
      end
  end.

(** The cases that read one field of one semaphore. *)
Definition get_field (cred : ucred) (ds : semid_ds) (semnum : Z) (field : sem -> Z) : ctlres :=
  let error := ipcperm cred (sem_perm ds) IPC_R in
  if negb (error =? 0) then fail error
  else if (semnum <? 0) || (semnum >=? sem_nsems ds) then fail EINVAL
  else match sem_base ds !! Z.to_nat semnum with
       | Some s => mkCtl 0 (Some (field s)) NoCopy
       | None => fail EINVAL
       end.

(** A kept pointer [semaptr], the item at address [a], is still what
    [sema[ix]] holds. *)
Definition live_ds (ix : Z) (a : nat) (st : sstate) : option semid_ds :=
  ds ← sema_at ix st; guard (sem_addr ds = a);; Some ds.

(** IPC_SET and SETALL may sleep while they allocate and read the caller's
    memory: [slept] is what the others do meanwhile, and the set is used
    afterwards through the pointer read before.  [None] is a call that uses
    the memory of a set removed during the sleep, or runs over the end of the
    array it allocated.  Writing to the caller's memory does not sleep. *)
Definition semctl1 (slept : sstate -> sstate) (cred : ucred) (semid semnum cmd : Z) (arg : semun)
    (st : sstate) : option (ctlres * sstate) :=
  let ix := IPCID_TO_IX semid in
  if (ix <? 0) || (ix >=? semmni (info st)) then Some (fail EINVAL, st)
  else match sema_at ix st with
  | None => Some (fail EINVAL, st)
  | Some ds =>
    if negb (seq (sem_perm ds) =? IPCID_TO_SEQ semid) then Some (fail EINVAL, st)
    else if cmd =? IPC_RMID then
      let error := ipcperm cred (sem_perm ds) IPC_M in
      if negb (error =? 0) then Some (fail error, st)
      else
        let st := with_semtot (semtot st - sem_nsems ds) st in
        let st := put_ds ix None st in
        Some (fail 0, wakeup ix (semundo_clear ix (-1) st))
    else if cmd =? IPC_SET then
      let error := ipcperm cred (sem_perm ds) IPC_M in
      if negb (error =? 0) then Some (fail error, st)
      else
        let st := slept st in
        match in_buf arg with
        | inl error => Some (fail error, st)
        | inr sbuf =>
            match live_ds ix (sem_addr ds) st with
            | None => None
            | Some ds =>
                let p := sem_perm ds in
                let p := mkPerm (cuid p) (cgid p) (uid sbuf) (gid sbuf)
                           (Z.lor (Z.land (mode p) (Z.lnot 511)) (Z.land (mode sbuf) 511))
                           (seq p) (key p) in
                Some (fail 0, put_ds ix (Some (with_ctime (time_second st) (with_perm p ds))) st)
            end
        end
    else if cmd =? IPC_STAT then
      let error := ipcperm cred (sem_perm ds) IPC_R in
      if negb (error =? 0) then Some (fail error, st)
      else if negb (out_buf arg =? 0) then Some (fail (out_buf arg), st)
      else Some (mkCtl 0 None (CopyDs ds), st)
    else if cmd =? GETNCNT then Some (get_field cred ds semnum semncnt, st)
    else if cmd =? GETPID then Some (get_field cred ds semnum sempid, st)
    else if cmd =? GETVAL then Some (get_field cred ds semnum semval, st)
    else if cmd =? GETALL then
      let error := ipcperm cred (sem_perm ds) IPC_R in
      if negb (error =? 0) then Some (fail error, st)
      else let '(e, vs) := getall_loop arg 0 (sem_base ds) in Some (mkCtl e None (CopyVals vs), st)
    else if cmd =? GETZCNT then Some (get_field cred ds semnum semzcnt, st)
    else if cmd =? SETVAL then
      let error := ipcperm cred (sem_perm ds) IPC_W in
      if negb (error =? 0) then Some (fail error, st)
      else if (semnum <? 0) || (semnum >=? sem_nsems ds) then Some (fail EINVAL, st)
      else if arg_val arg >? semvmx (info st) then Some (fail ERANGE, st)
      else
        let base := alter (set_semval (arg_val arg)) (Z.to_nat semnum) (sem_base ds) in
        let st := put_ds ix (Some (with_base base ds)) st in
        Some (fail 0, wakeup ix (semundo_clear ix semnum st))
    else if cmd =? SETALL then
      let error := ipcperm cred (sem_perm ds) IPC_W in
      if negb (error =? 0) then Some (fail error, st)
      else
        let n := sem_nsems ds in
        let st := slept st in
        match live_ds ix (sem_addr ds) st with
        | None => None
        | Some ds =>
            if sem_nsems ds >? n then None
            else match setall_loop arg (semvmx (info st)) 0 (Z.to_nat (sem_nsems ds)) with
            | inl error => Some (fail error, st)
            | inr vs =>
                let base := zip_with (fun s v => set_semval v s) (sem_base ds) vs in
                let st := put_ds ix (Some (with_base base ds)) st in
                Some (fail 0, wakeup ix (semundo_clear ix (-1) st))
            end
        end
    else Some (fail EINVAL, st)
  end.

(** [copyin_arg] is the error of copying the union in. *)
Definition sys___semctl (slept : sstate -> sstate) (cred : ucred)
    (semid semnum cmd copyin_arg : Z) (arg : semun) (st : sstate) : option (ctlres * sstate) :=
  let error :=
    if (cmd =? IPC_SET) || (cmd =? IPC_STAT) || (cmd =? GETALL) || (cmd =? SETVAL) ||
       (cmd =? SETALL) then copyin_arg else 0 in
  if error =? 0 then semctl1 slept cred semid semnum cmd arg st else Some (fail error, st).

(** ** semget *)

Definition has_key (k : Z) (d : option semid_ds) : Prop :=
  match d with Some ds => key (sem_perm ds) = k | None => False end.
#[global] Instance has_key_dec k d : Decision (has_key k d).
Proof. destruct d; simpl; apply _. Defined.

Definition is_free (d : option semid_ds) : Prop := d = None.
#[global] Instance is_free_dec d : Decision (is_free d).
Proof. unfold is_free. destruct d; [right|left]; done. Defined.

(** The allocation at the end of [sys_semget]: [a] is the preallocated item. *)
Definition semget_alloc (a : nat) (cred : ucred) (k nsems semflg : Z) (st : sstate)
    : (Z * option Z) * sstate :=
  match list_find is_free (sema st) with
  | None => ((ENOSPC, None), st)
  | Some (ix, _) =>
      let q := Z.land (default 0 (semseqs st !! ix) + 1) 32767 in
      let p := mkPerm (cr_uid cred) (cr_gid cred) (cr_uid cred) (cr_gid cred)
                 (Z.land semflg 511) q k in
      let ds := mkDs a p (replicate (Z.to_nat nsems) (mkSem 0 0 0 0)) nsems 0 (time_second st) in
      let st := with_seqs (<[ix := q]> (semseqs st)) st in
      let st := put_ds (Z.of_nat ix) (Some ds) st in
      let st := with_semtot (semtot st + nsems) st in
      ((0, Some (IXSEQ_TO_IPCID (Z.of_nat ix) p)), st)
  end.

(** [slept] is what others do while the preallocation waits for memory. *)
Definition sys_semget (a : nat) (slept : sstate -> sstate) (cred : ucred)
    (k nsems semflg : Z) (st : sstate) : (Z * option Z) * sstate :=
  let creat := (k =? IPC_PRIVATE) || has semflg IPC_CREAT in
  if creat && ((nsems <=? 0) || (nsems >? semmsl (info st))) then ((EINVAL, None), st)
  else if creat && (nsems >? semmns (info st) - semtot st) then ((ENOSPC, None), st)
  else
    let st := if creat then slept st else st in
    match (if negb (k =? IPC_PRIVATE) then list_find (has_key k) (sema st) else None) with
    | Some (ix, Some ds) =>
        let error := ipcperm cred (sem_perm ds) (Z.land semflg 448) in
        if negb (error =? 0) then ((error, None), st)
        else if (nsems >? 0) && (sem_nsems ds <? nsems) then ((EINVAL, None), st)
        else if has semflg IPC_CREAT && has semflg IPC_EXCL then ((EEXIST, None), st)
        else ((0, Some (IXSEQ_TO_IPCID (Z.of_nat ix) (sem_perm ds))), st)
    | _ =>
        if creat then semget_alloc a cred k nsems semflg st else ((ENOENT, None), st)
    end.

(** ** semop *)

(** How the scan of the vector ends. *)
Inductive scan :=
| ScanAll (base : list sem) (do_wakeup : bool) (do_undos : Z)
| ScanFbig (base : list sem)
| ScanBreak (i : nat) (sop : sembuf) (base : list sem) (do_undos : Z)
| ScanBad.

Definition count_undo (sop : sembuf) (do_undos : Z) : Z :=
  if has (sem_flg sop) SEM_UNDO then do_undos + 1 else do_undos.

(** The inner [for] of [sys_semop] from request [i] on. *)
Fixpoint semop_scan (nsems : Z) (i : nat) (sops : list sembuf) (base : list sem)
    (do_wakeup : bool) (do_undos : Z) : scan :=
  match sops with
  | [] => ScanAll base do_wakeup do_undos
  | sop :: rest =>
      if sem_num sop >=? nsems then ScanFbig base
      else match base !! Z.to_nat (sem_num sop) with
      | None => ScanBad
      | Some s =>
          if sem_op sop <? 0 then
            if semval s + sem_op sop <? 0 then ScanBreak i sop base do_undos
            else
              semop_scan nsems (S i) rest (add_semval (sem_num sop) (sem_op sop) base)
                (if (u16 (semval s + sem_op sop) =? 0) && (semzcnt s >? 0) then true else do_wakeup)
                (count_undo sop do_undos)
          else if sem_op sop =? 0 then
            if semval s >? 0 then ScanBreak i sop base do_undos
            else semop_scan nsems (S i) rest base do_wakeup do_undos
          else
            semop_scan nsems (S i) rest (add_semval (sem_num sop) (sem_op sop) base)
              (if semncnt s >? 0 then true else do_wakeup) (count_undo sop do_undos)
      end
  end.

(** [for (j = 0; j < i; j++) semval -= sem_op], for the first [i] requests. *)
Definition rollback (sops : list sembuf) (base : list sem) : list sem :=
  fold_left (fun b sop => add_semval (sem_num sop) (- sem_op sop) b) sops base.

Definition undoes (sop : sembuf) : bool :=
  has (sem_flg sop) SEM_UNDO && negb (sem_op sop =? 0).

(** The undos applied so far are taken back, latest first. *)
Fixpoint undo_backward (a : nat) (slept : option (sstate -> sstate)) (pr semid : Z)
    (done : list sembuf) (supptr : option nat) (st : sstate) : outcome :=
  match done with
  | [] => Ret 0 st
  | sop :: done =>
      if undoes sop then
        match semundo_adjust a slept pr supptr semid (sem_num sop) (sem_op sop) st with
        | None => Freed
        | Some (e, supptr, st) =>
            if negb (e =? 0) then Panicked
            else undo_backward a slept pr semid done supptr st
        end
      else undo_backward a slept pr semid done supptr st
  end.

Fixpoint undo_forward (a : nat) (slept : option (sstate -> sstate)) (pr semid : Z)
    (done todo : list sembuf) (supptr : option nat) (st : sstate) : outcome :=
  match todo with
  | [] => Ret 0 st
  | sop :: todo =>
      if undoes sop then
        match semundo_adjust a slept pr supptr semid (sem_num sop) (- sem_op sop) st with
        | None => Freed
        | Some (e, supptr, st) =>
            if e =? 0 then undo_forward a slept pr semid (sop :: done) todo supptr st
            else match undo_backward a slept pr semid done supptr st with
                 | Ret _ st => Ret e st
                 | o => o
                 end
        end
      else undo_forward a slept pr semid (sop :: done) todo supptr st
  end.

Definition set_pids (pid : Z) (sops : list sembuf) (base : list sem) : list sem :=
  fold_left (fun b sop => alter (set_sempid pid) (Z.to_nat (sem_num sop)) b) sops base.

(** From the label [done]. *)
Definition semop_done (a : nat) (slept : option (sstate -> sstate)) (pr pid semid : Z)
    (sa : nat) (sops : list sembuf) (do_wakeup : bool) (do_undos : Z) (st : sstate) : outcome :=
  match (if do_undos =? 0 then Ret 0 st
         else undo_forward a slept pr semid [] sops None st) with
  | Ret e st =>
      match live_ds semid sa st with
      | None => Freed
      | Some ds =>
          if negb (e =? 0) then
            Ret e (upd_ds semid (fun ds => with_base (rollback sops (sem_base ds)) ds) st)
          else
            let st := upd_ds semid (fun ds =>
              with_otime (time_second st) (with_base (set_pids pid sops (sem_base ds)) ds)) st in
            Ret 0 (if do_wakeup then wakeup semid st else st)
      end
  | o => o
  end.

Definition bump (d : Z) (sop : sembuf) (ds : semid_ds) : semid_ds :=
  with_base (alter (if sem_op sop =? 0 then add_zcnt d else add_ncnt d)
    (Z.to_nat (sem_num sop)) (sem_base ds)) ds.

(** The [for (;;)]: each element of [wakes] is one sleep, what the others did
    during it and what [tsleep] returned.  [do_undos] is carried from one
    round to the next, as in the code. *)
Fixpoint semop_loop (a : nat) (slept : option (sstate -> sstate)) (pr pid semid q : Z)
    (sa : nat) (sops : list sembuf) (wakes : list ((sstate -> sstate) * Z)) (do_undos : Z)
    (st : sstate) : outcome :=
  match live_ds semid sa st with
  | None => Freed
  | Some ds =>
      match semop_scan (sem_nsems ds) 0 sops (sem_base ds) false do_undos with
      | ScanBad => Freed
      | ScanFbig base => Ret EFBIG (upd_ds semid (with_base base) st)
      | ScanAll base do_wakeup do_undos =>
          if do_undos <=? SEMUME then
            semop_done a slept pr pid semid sa sops do_wakeup do_undos
              (upd_ds semid (with_base base) st)
          else Ret ENOSPC (upd_ds semid (with_base (rollback sops base)) st)
      | ScanBreak i sop base do_undos =>
          let st := upd_ds semid (with_base (rollback (take i sops) base)) st in
          if do_undos >? SEMUME then Ret ENOSPC st
          else if has (sem_flg sop) IPC_NOWAIT then Ret EAGAIN st
          else
            let st := upd_ds semid (bump 1 sop) st in
            match wakes with
            | [] => Asleep st
            | (others, error) :: wakes =>
                let st := others st in
                match sema_at semid st with
                | None => Ret EIDRM st
                | Some ds =>
                    if negb (bool_decide (sem_addr ds = sa)) then Freed
                    else if negb (seq (sem_perm ds) =? q) then Ret EIDRM st
                    else
                      let st := upd_ds semid (bump (-1) sop) st in
                      if negb (error =? 0) then Ret EINTR st
                      else semop_loop a slept pr pid semid q sa sops wakes do_undos st
                end
            end
      end
  end.

(** [copyin_sops] is what copying the vector in gives, [slept0] what others
    do while its buffer is allocated and copied; [a], [slept] as for
    [semu_alloc]; [pr] is the process and [pid] its number. *)
Definition sys_semop (a : nat) (slept : option (sstate -> sstate)) (slept0 : sstate -> sstate)
    (wakes : list ((sstate -> sstate) * Z)) (cred : ucred) (pr pid id nsops : Z)
    (copyin_sops : Z + list sembuf) (st : sstate) : outcome :=
  let semid := IPCID_TO_IX id in
  if (semid <? 0) || (semid >=? semmni (info st)) then Ret EINVAL st
  else match sema_at semid st with
  | None => Ret EINVAL st
  | Some ds =>
      if negb (seq (sem_perm ds) =? IPCID_TO_SEQ id) then Ret EINVAL st
      else
        let error := ipcperm cred (sem_perm ds) IPC_W in
        if negb (error =? 0) then Ret error st
        else if nsops =? 0 then Ret 0 st
        else if nsops >? semopm (info st) then Ret E2BIG st
        else match copyin_sops with
        | inl error => Ret error (slept0 st)
        | inr sops =>
            semop_loop a slept pr pid semid (IPCID_TO_SEQ id) (sem_addr ds) sops wakes 0
              (slept0 st)
        end
  end.

(** ** semexit *)

Fixpoint apply_undos (ents : list undo) (st : sstate) : option sstate :=
  match ents with
  | [] => Some st
  | e :: ents =>
      match sema_at (un_id e) st with
      | None => None
      | Some ds =>
          if un_num e >=? sem_nsems ds then None
          else match sem_base ds !! Z.to_nat (un_num e) with
          | None => None
          | Some s =>
              let v := if (un_adjval e <? 0) && (semval s <? - un_adjval e) then 0
                       else semval s + un_adjval e in
              let base := alter (set_semval v) (Z.to_nat (un_num e)) (sem_base ds) in
              apply_undos ents (wakeup (un_id e) (put_ds (un_id e) (Some (with_base base ds)) st))
          end
      end
  end.

(** [None] is the panic. *)
Definition semexit (pr : Z) (st : sstate) : option sstate :=
  match list_find (fun su => un_proc su = pr) (semu_list st) with
  | None => Some st
  | Some (k, su) =>
      st ← apply_undos (un_ent su) st;
      Some (with_undos (semutot st - 1) (delete k (semu_list st)) st)
  end.

(** ** sysctl *)

(** The caller's buffers: [oldp] with its length and the error of writing it,
    [newp] with its length and what reading it gives. *)
Record sysctl_io := mkIo {
  oldp : option (Z * Z);        (* ( *oldlenp, error of copyout) *)
  newp : option (Z * (Z + Z)) }.

Definition SIZEOF_INT : Z := 4.

(** Result: the error and the value [*valp] is left with. *)
Definition sysctl_int (io : sysctl_io) (val : Z) : Z * Z :=
  let too_small := match oldp io with Some (len, _) => len <? SIZEOF_INT | None => false end in
  let bad_new := match newp io with Some (len, _) => negb (len =? SIZEOF_INT) | None => false end in
  if too_small then (ENOMEM, val)
  else if bad_new then (EINVAL, val)
  else
    let error := match oldp io with Some (_, e) => e | None => 0 end in
    if error =? 0 then
      match newp io with
      | Some (_, inr v) => (0, v)
      | Some (_, inl e) => (e, val)
      | None => (0, val)
      end
    else (error, val).

Definition sysctl_rdint (io : sysctl_io) : Z :=
  let too_small := match oldp io with Some (len, _) => len <? SIZEOF_INT | None => false end in
  if too_small then ENOMEM
  else if bool_decide (is_Some (newp io)) then EPERM
  else match oldp io with Some (_, e) => e | None => 0 end.

Definition ENOTDIR : Z := 20.
Definition EOPNOTSUPP : Z := 45.

(** One writable limit: [ok] accepts the new value and [set] stores it. *)
Definition sysctl_limit (io : sysctl_io) (cur : Z) (ok : Z -> bool)
    (set : Z -> sstate -> sstate) (st : sstate) : Z * sstate :=
  let '(error, val) := sysctl_int io cur in
  if negb (error =? 0) || (val =? cur) then (error, st)
  else if ok val then (0, set val st) else (EINVAL, st).

(** Growing the tables for a new [semmni]: both allocations may sleep, and
    [sema] is copied between them.  [None] is a copy that runs over the end of
    the new table because another call has raised [semmni] further. *)
Definition grow_sema (slept1 slept2 : sstate -> sstate) (val : Z) (st : sstate)
    : option sstate :=
  let st := slept1 st in
  if semmni (info st) >? val then None
  else
    let n := Z.to_nat (semmni (info st)) in
    let sema_new := take n (sema st) ++ replicate (Z.to_nat val - n) None in
    let st := slept2 st in
    let i := info st in
    if semmni i >? val then None
    else
      let n := Z.to_nat (semmni i) in
      let newseqs := take n (semseqs st) ++ replicate (Z.to_nat val - n) 0 in
      Some (with_info (mkInfo val (semmns i) (semmnu i) (semmsl i) (semopm i)
                         (semume i) (semusz i) (semvmx i) (semaem i))
              (with_seqs newseqs (with_sema sema_new st))).

Definition sysctl_sysvsem (slept1 slept2 : sstate -> sstate) (name namelen : Z)
    (io : sysctl_io) (st : sstate) : option (Z * sstate) :=
  let i := info st in
  if negb (namelen =? 2) && negb ((1 <=? name) && (name <=? 9)) then Some (ENOTDIR, st)
  else if name =? 1 then
    let '(error, val) := sysctl_int io (semmni i) in
    if negb (error =? 0) || (val =? semmni i) then Some (error, st)
    else if (val <? semmni i) || (val >? 65535) then Some (EINVAL, st)
    else pair 0 <$> grow_sema slept1 slept2 val st
  else if name =? 2 then
    Some (sysctl_limit io (semmns i) (fun v => negb ((v <? semmns i) || (v >? 65535)))
      (fun v => with_info (mkInfo (semmni i) v (semmnu i) (semmsl i) (semopm i)
                             (semume i) (semusz i) (semvmx i) (semaem i))) st)
  else if name =? 3 then
    Some (sysctl_limit io (semmnu i) (fun v => negb (v <? semmnu i))
      (fun v => with_info (mkInfo (semmni i) (semmns i) v (semmsl i) (semopm i)
                             (semume i) (semusz i) (semvmx i) (semaem i))) st)
  else if name =? 4 then
    Some (sysctl_limit io (semmsl i) (fun v => negb ((v <? semmsl i) || (v >? 65535)))
      (fun v => with_info (mkInfo (semmni i) (semmns i) (semmnu i) v (semopm i)
                             (semume i) (semusz i) (semvmx i) (semaem i))) st)
  else if name =? 5 then
    Some (sysctl_limit io (semopm i) (fun v => negb (v <=? 0))
      (fun v => with_info (mkInfo (semmni i) (semmns i) (semmnu i) (semmsl i) v
                             (semume i) (semusz i) (semvmx i) (semaem i))) st)
  else if name =? 6 then Some (sysctl_rdint io, st)
  else if name =? 7 then Some (sysctl_rdint io, st)
  else if name =? 8 then Some (sysctl_rdint io, st)
  else if name =? 9 then Some (sysctl_rdint io, st)
  else Some (EOPNOTSUPP, st).
