(* ===== verification/SemFacts.v ===== *)
(** * Undo structures as a table of adjustments

    The list of [struct sem_undo] seen as one finite map from (process,
    semaphore set, semaphore number) to the adjustment owed at exit, and what
    [semundo_adjust] and [semundo_clear] do to that map. *)

From stdpp Require Import base numbers list option gmap.
From Stdlib Require Import ZArith Lia Bool.
From S2P Require Import Prelude Sem.

#[local] Set Warnings "-clear-no-such-hyp".

(** ** Shorts *)

Definition is_short (x : Z) : Prop := -32768 <= x < 32768.

Lemma sint16_range x : is_short (sint 16 x).
Proof.
  unfold is_short, sint. change (2 ^ 16) with 65536. change (2 ^ (16 - 1)) with 32768.
  pose proof (Z.mod_pos_bound x 65536). destruct (_ <? _) eqn:E; bool_to_prop; lia.
Qed.

Lemma sint16_id x : is_short x -> sint 16 x = x.
Proof.
  unfold is_short, sint. change (2 ^ 16) with 65536. change (2 ^ (16 - 1)) with 32768. intros Hx.
  destruct (decide (0 <= x)).
  - rewrite Z.mod_small by lia. destruct (_ <? _) eqn:E; bool_to_prop; lia.
  - rewrite <- (Z_mod_plus_full _ 1), Z.mod_small by lia.
    destruct (_ <? _) eqn:E; bool_to_prop; lia.
Qed.

Lemma sint16_mod x : sint 16 x `mod` 65536 = x `mod` 65536.
Proof.
  unfold sint. change (2 ^ 16) with 65536. change (2 ^ (16 - 1)) with 32768.
  destruct (_ <? _); [by rewrite Zmod_mod|].
  replace (x mod 65536 - 65536) with (x mod 65536 + (-1) * 65536) by lia.
  by rewrite Z_mod_plus_full, Zmod_mod.
Qed.

Lemma sint16_eq x y : x `mod` 65536 = y `mod` 65536 -> sint 16 x = sint 16 y.
Proof. intros H. unfold sint. change (2 ^ 16) with 65536. by rewrite H. Qed.

(** Taking back what was added leaves a short as it was, wrap-around or not. *)
Lemma sint16_add_sub v d : is_short v -> sint 16 (sint 16 (v - d) + d) = v.
Proof.
  intros Hv. rewrite <- (sint16_id v) at 2 by done. apply sint16_eq.
  rewrite Zplus_mod, sint16_mod, <- Zplus_mod. f_equal. lia.
Qed.

(** ** The table *)

#[local] Set Warnings "-notation-for-abbreviation".
Notation ukey := (Z * Z * Z)%type (only parsing).

Definition keyed (pr : Z) (e : undo) : ukey * Z := ((pr, un_id e, un_num e), un_adjval e).

Definition rows (l : list sem_undo) : list (ukey * Z) :=
  l ≫= fun su => keyed (un_proc su) <$> un_ent su.

#[global] Arguments rows : simpl never.

Definition undo_map (l : list sem_undo) : gmap ukey Z := list_to_map (rows l).

Lemma rows_cons su l : rows (su :: l) = (keyed (un_proc su) <$> un_ent su) ++ rows l.
Proof. done. Qed.

Lemma rows_mid l1 su l2 :
  rows (l1 ++ su :: l2) ≡ₚ (keyed (un_proc su) <$> un_ent su) ++ rows (l1 ++ l2).
Proof.
  unfold rows. rewrite !bind_app, bind_cons. rewrite !app_assoc. f_equiv. apply Permutation_app_comm.
Qed.

Definition ekey (e : undo) : Z * Z := (un_id e, un_num e).

Record su_wf (su : sem_undo) : Prop := {
  sw_some : un_ent su <> [];
  sw_max : Z.of_nat (un_cnt su) <= SEMUME;
  sw_keys : NoDup (ekey <$> un_ent su);
  sw_vals : Forall (fun e => un_adjval e <> 0 /\ is_short (un_adjval e)) (un_ent su) }.

Record undo_wf (l : list sem_undo) (n : Z) : Prop := {
  uw_tot : n = Z.of_nat (length l);
  uw_procs : NoDup (un_proc <$> l);
  uw_each : Forall su_wf l }.

Lemma rows_keys_in l k : k ∈ (rows l).*1 -> k.1.1 ∈ (un_proc <$> l).
Proof.
  intros [[k' v] [-> Hin]]%list_elem_of_fmap. simpl.
  apply list_elem_of_bind in Hin as (su & Hin & Hsu).
  apply list_elem_of_fmap in Hin as (e & [= -> ->] & He). simpl.
  apply list_elem_of_fmap. eauto.
Qed.

Lemma ents_keys_nodup pr ents :
  NoDup (ekey <$> ents) -> NoDup ((keyed pr <$> ents).*1).
Proof.
  intros H. rewrite <- list_fmap_compose.
  replace ((fst ∘ keyed pr) <$> ents) with ((fun k : Z * Z => (pr, k.1, k.2)) <$> (ekey <$> ents)).
  2:{ rewrite <- list_fmap_compose. apply list_fmap_ext. done. }
  apply NoDup_fmap_2; [|done]. intros [] [] [=]; simpl in *; by subst.
Qed.

Lemma rows_keys_nodup l :
  NoDup (un_proc <$> l) -> Forall (fun su => NoDup (ekey <$> un_ent su)) l ->
  NoDup ((rows l).*1).
Proof.
  induction l as [|su l IH]; intros Hp Hk; [constructor|].
  rewrite fmap_cons in Hp. apply list.NoDup_cons in Hp as [Hnin Hp].
  inversion_clear Hk as [|? ? Hsu Hl].
  rewrite rows_cons, fmap_app. apply list.NoDup_app. split_and!.
  - by apply ents_keys_nodup.
  - intros k Hk1 Hk2. apply rows_keys_in in Hk2.
    apply list_elem_of_fmap in Hk1 as ([k' v] & -> & Hin).
    apply list_elem_of_fmap in Hin as (e & [= -> ->] & _). simpl in Hk2. done.
  - by apply IH.
Qed.

Lemma undo_wf_nodup l n : undo_wf l n -> NoDup ((rows l).*1).
Proof.
  intros [_ Hp He]. apply rows_keys_nodup; [done|]. eapply Forall_impl; [exact He|].
  intros su Hsu. apply Hsu.
Qed.

(** ** One structure of the list *)

Lemma undo_map_perm l l' :
  NoDup ((rows l).*1) -> rows l ≡ₚ l' -> undo_map l = list_to_map l'.
Proof. intros Hn Hp. by apply list_to_map_proper. Qed.

Lemma undo_map_mid l1 su l2 :
  NoDup ((rows (l1 ++ su :: l2)).*1) ->
  undo_map (l1 ++ su :: l2) =
    (list_to_map (keyed (un_proc su) <$> un_ent su) : gmap ukey Z) ∪ undo_map (l1 ++ l2).
Proof.
  intros Hn. rewrite (undo_map_perm _ _ Hn (rows_mid l1 su l2)). apply list_to_map_app.
Qed.

(** ** Dropping an entry *)

Lemma drop_entry_perm i ents e :
  ents !! i = Some e -> ents ≡ₚ e :: drop_entry i ents.
Proof.
  intros Hi. pose proof (lookup_lt_Some _ _ _ Hi) as Hlt.
  destruct (exists_last (l := ents)) as (pre & lst & Heq); [by intros ->|]. subst ents.
  rewrite length_app in Hlt; simpl in Hlt.
  assert (Hd : drop_entry i (pre ++ [lst]) = if (i <? length pre)%nat then <[i:=lst]> pre else pre).
  { unfold drop_entry. rewrite length_app; simpl.
    replace (pred (length pre + 1)) with (length pre) by lia.
    rewrite lookup_mid, take_app_le, take_ge by lia. done. }
  rewrite Hd. destruct (Nat.ltb_spec i (length pre)) as [Hl|Hl].
  - rewrite lookup_app_l in Hi by done.
    rewrite <- (take_drop_middle pre i e Hi) at 1. rewrite insert_take_drop by done.
    rewrite <- app_assoc. simpl. rewrite <- Permutation_middle.
    do 2 f_equiv. apply Permutation_app_comm.
  - assert (i = length pre) as -> by lia. rewrite lookup_mid in Hi. injection Hi as ->.
    by rewrite Permutation_app_comm.
Qed.

Lemma drop_entry_insert i ents x :
  (i < length ents)%nat -> drop_entry i (<[i:=x]> ents) = drop_entry i ents.
Proof.
  intros Hi. unfold drop_entry. rewrite length_insert.
  destruct (decide (i = pred (length ents))) as [Heq|Hne].
  - rewrite <- Heq. rewrite list_lookup_insert_eq by lia.
    destruct (lookup_lt_is_Some_2 ents i) as [y ->]; [lia|]. rewrite Nat.ltb_irrefl.
    rewrite take_insert_ge by lia. done.
  - rewrite list_lookup_insert_ne by done.
    destruct (lookup_lt_is_Some_2 ents (pred (length ents))) as [y ->]; [lia|].
    replace (i <? pred (length ents))%nat with true by (symmetry; apply Nat.ltb_lt; lia).
    rewrite take_insert_lt by lia. by rewrite list_insert_insert_eq.
Qed.

Lemma insert_entry_perm i ents e x :
  ents !! i = Some e -> <[i:=x]> ents ≡ₚ x :: drop_entry i ents.
Proof.
  intros Hi. pose proof (lookup_lt_Some _ _ _ Hi).
  rewrite <- (drop_entry_insert i ents x) by done.
  apply drop_entry_perm. by apply list_lookup_insert_eq.
Qed.

Lemma drop_entry_length i ents e :
  ents !! i = Some e -> length ents = S (length (drop_entry i ents)).
Proof. intros H. by rewrite (drop_entry_perm i ents e H) at 1. Qed.

(** ** The effect of an adjustment on the table *)

Definition adj_step (k : ukey) (d : Z) (m : gmap ukey Z) : gmap ukey Z :=
  let v := sint 16 (default 0 (m !! k) + d) in
  if v =? 0 then delete k m else <[k := v]> m.

(** The structure the cached pointer [a] leads to belongs to [pr]. *)
Definition owns (a : nat) (pr : Z) (l : list sem_undo) : Prop :=
  exists l1 su l2, l = (l1 ++ su :: l2) /\ (a ∉ (un_addr <$> l1)) /\ un_addr su = a /\ un_proc su = pr.

Lemma find_addr_mid a l1 su l2 :
  a ∉ (un_addr <$> l1) -> un_addr su = a -> find_addr a (l1 ++ su :: l2) = Some (length l1, su).
Proof.
  intros Hn Ha. unfold find_addr. apply list_find_Some. split_and!.
  - apply lookup_mid.
  - done.
  - intros j y Hj Hlt Hy. apply Hn. rewrite lookup_app_l in Hj by done.
    apply list_elem_of_fmap. exists y. split; [done|]. by eapply list_elem_of_lookup_2.
Qed.

(** A structure that may have just been allocated: as [su_wf] but for being
    non-empty. *)
Record su_pre (su : sem_undo) : Prop := {
  sp_max : Z.of_nat (un_cnt su) <= SEMUME;
  sp_keys : NoDup (ekey <$> un_ent su);
  sp_vals : Forall (fun e => un_adjval e <> 0 /\ is_short (un_adjval e)) (un_ent su) }.

Lemma su_wf_pre su : su_wf su -> su_pre su.
Proof. intros []. by constructor. Qed.

Lemma su_pre_wf su : su_pre su -> un_ent su <> [] -> su_wf su.
Proof. intros [] ?. by constructor. Qed.

(** [su_pre] looks at the entries up to order. *)
Lemma su_pre_perm su ents ents' :
  ents ≡ₚ ents' -> su_pre (set_ent ents su) -> su_pre (set_ent ents' su).
Proof.
  intros Hp [H1 H2 H3]; unfold un_cnt in *; simpl in *.
  constructor; unfold un_cnt; simpl; rewrite <- Hp; done.
Qed.

Lemma su_pre_tail su e ents : su_pre (set_ent (e :: ents) su) -> su_pre (set_ent ents su).
Proof.
  intros [H1 H2 H3]; unfold un_cnt in *; simpl in *. inversion_clear H3.
  apply list.NoDup_cons in H2 as [??].
  constructor; unfold un_cnt; simpl; [lia|done|done].
Qed.

Section AdjustEntry.
Context (l1 : list sem_undo) (su : sem_undo) (l2 : list sem_undo) (n : Z).
Context (Htot : n = Z.of_nat (length (l1 ++ su :: l2))).
Context (Hprocs : NoDup (un_proc <$> (l1 ++ su :: l2))).
Context (Hrest : Forall su_wf (l1 ++ l2)).
Context (Hsu : su_pre su).

Lemma replace_wf ents :
  su_pre (set_ent ents su) -> ents <> [] -> undo_wf (l1 ++ set_ent ents su :: l2) n.
Proof.
  intros Hp Hne. apply Forall_app in Hrest as [H1 H2]. constructor.
  - rewrite Htot, !length_app. done.
  - rewrite fmap_app, fmap_cons in *. done.
  - apply Forall_app. split; [done|]. constructor; [by apply su_pre_wf|done].
Qed.

Lemma remove_wf : undo_wf (l1 ++ l2) (n - 1).
Proof.
  constructor; [|..|done].
  - rewrite Htot, !length_app. simpl. lia.
  - rewrite fmap_app in *. rewrite fmap_cons in Hprocs.
    apply list.NoDup_app in Hprocs as (? & Hd & Hc).
    apply list.NoDup_cons in Hc as [? ?]. apply list.NoDup_app. split_and!; [done| |done].
    intros x Hx Hy. apply (Hd x Hx). by right.
Qed.

Lemma mid_keys_nodup ents :
  NoDup (ekey <$> ents) -> NoDup ((rows (l1 ++ set_ent ents su :: l2)).*1).
Proof.
  intros Hk. apply rows_keys_nodup.
  - rewrite fmap_app, fmap_cons in *. done.
  - apply Forall_app in Hrest as [H1 H2]. apply Forall_app. split; [|constructor; [done|]].
    all: eapply Forall_impl; [eassumption|]; by intros ? [].
Qed.

Lemma rows_set ents ents' e :
  ents ≡ₚ e :: ents' ->
  rows (l1 ++ set_ent ents su :: l2) ≡ₚ
    keyed (un_proc su) e :: rows (l1 ++ set_ent ents' su :: l2).
Proof. intros Hp. rewrite !rows_mid. simpl. by rewrite Hp. Qed.

(** The map with entry [e] and with the rest of the entries. *)
Lemma map_set ents ents' e :
  ents ≡ₚ e :: ents' -> NoDup (ekey <$> ents) ->
  undo_map (l1 ++ set_ent ents su :: l2) =
    <[(un_proc su, un_id e, un_num e) := un_adjval e]>
      (undo_map (l1 ++ set_ent ents' su :: l2)) /\
  undo_map (l1 ++ set_ent ents' su :: l2) !! (un_proc su, un_id e, un_num e) = None.
Proof.
  intros Hp Hk. pose proof (mid_keys_nodup _ Hk) as Hnd. split.
  - by rewrite (undo_map_perm _ _ Hnd (rows_set _ _ _ Hp)).
  - rewrite (rows_set _ _ _ Hp) in Hnd. rewrite fmap_cons in Hnd.
    apply list.NoDup_cons in Hnd as [Hnin _]. by apply not_elem_of_list_to_map_1.
Qed.

Lemma map_set_nil : undo_map (l1 ++ set_ent [] su :: l2) = undo_map (l1 ++ l2).
Proof. unfold undo_map, rows. by rewrite !bind_app, bind_cons. Qed.

Lemma map_no_entry semid semnum :
  list_find (matches semid semnum) (un_ent su) = None ->
  undo_map (l1 ++ su :: l2) !! (un_proc su, semid, semnum) = None.
Proof.
  intros Hf. apply not_elem_of_list_to_map_1.
  rewrite rows_mid, fmap_app. intros [Hin|Hin]%elem_of_app.
  - apply list_elem_of_fmap in Hin as ([k v] & Hk & Hin).
    apply list_elem_of_fmap in Hin as (e & Hke & He). unfold keyed in Hke. simplify_eq/=.
    apply list_find_None in Hf. rewrite Forall_forall in Hf. by apply (Hf e He).
  - apply rows_keys_in in Hin. simpl in Hin.
    rewrite fmap_app, fmap_cons in Hprocs. rewrite fmap_app in Hin.
    apply list.NoDup_app in Hprocs as (_ & Hd & Hc). apply list.NoDup_cons in Hc as [Hc _].
    apply elem_of_app in Hin as [Hin|Hin]; [|done]. apply (Hd _ Hin). by left.
Qed.

End AdjustEntry.

Lemma set_ent_same su : set_ent (un_ent su) su = su.
Proof. by destruct su. Qed.

Lemma with_undos_same st : with_undos (semutot st) (semu_list st) st = st.
Proof. by destruct st. Qed.

(** What [adjust_entry] promises: it refuses a new entry when the structure
    is full, and otherwise the table takes one [adj_step]; the pointer stays
    good unless the process has no adjustment left. *)
Definition adjusted (a : nat) (pr semid semnum d : Z) (l : list sem_undo) (st st' : sstate)
    (e : Z) : Prop :=
  (e = EINVAL /\ st' = st /\ undo_map l !! (pr, semid, semnum) = None /\ owns a pr l /\
   exists su, su ∈ l /\ un_proc su = pr /\ Z.of_nat (un_cnt su) = SEMUME) \/
  (e = 0 /\ exists n' l', st' = with_undos n' l' st /\ undo_wf l' n' /\
     undo_map l' = adj_step (pr, semid, semnum) d (undo_map l) /\
     (owns a pr l' \/ pr ∉ (un_proc <$> l'))).

Lemma adjust_entry_spec a semid semnum d st l1 su l2 :
  semu_list st = l1 ++ su :: l2 ->
  semutot st = Z.of_nat (length (l1 ++ su :: l2)) ->
  NoDup (un_proc <$> (l1 ++ su :: l2)) -> Forall su_wf (l1 ++ l2) -> su_pre su ->
  a ∉ (un_addr <$> l1) -> un_addr su = a -> is_short semnum -> sint 16 d <> 0 ->
  exists e st', adjust_entry a semid semnum d st = Some (e, st') /\
    adjusted a (un_proc su) semid semnum d (l1 ++ su :: l2) st st' e.
Proof.
  intros Hl Htot Hprocs Hrest Hsu Ha1 Ha Hnum Hd.
  assert (Hd0 : (d =? 0) = false). { apply Z.eqb_neq. intros ->. by apply Hd. }
  unfold adjust_entry. rewrite Hl, (find_addr_mid a) by done.
  assert (Howns : forall ents, owns a (un_proc su) (l1 ++ set_ent ents su :: l2)).
  { intros ents. by exists l1, (set_ent ents su), l2. }
  assert (Hins : forall ents, <[length l1 := set_ent ents su]> (l1 ++ su :: l2) =
    l1 ++ set_ent ents su :: l2) by (intros; apply insert_mid).
  destruct (list_find _ _) as [[i e]|] eqn:Hf; rewrite Hd0.
  - apply list_find_Some in Hf as (Hi & [Hid Hnu] & _).
    pose proof (drop_entry_perm _ _ _ Hi) as Hperm.
    set (v := sint 16 (un_adjval e + d)). set (k := (un_proc su, semid, semnum)).
    assert (Hmap : undo_map (l1 ++ su :: l2) =
        <[k := un_adjval e]> (undo_map (l1 ++ set_ent (drop_entry i (un_ent su)) su :: l2)) /\
        undo_map (l1 ++ set_ent (drop_entry i (un_ent su)) su :: l2) !! k = None).
    { subst k. rewrite <- Hid, <- Hnu. rewrite <- (set_ent_same su) at 1.
      apply map_set; [done|done|done|apply Hsu]. }
    destruct Hmap as [Hm Hk].
    assert (Hstep : adj_step k d (undo_map (l1 ++ su :: l2)) =
        if v =? 0 then undo_map (l1 ++ set_ent (drop_entry i (un_ent su)) su :: l2)
        else <[k := v]> (undo_map (l1 ++ set_ent (drop_entry i (un_ent su)) su :: l2))).
    { unfold adj_step. rewrite Hm, lookup_insert_eq. simpl. fold v.
      destruct (v =? 0); [by rewrite delete_insert_id|by rewrite insert_insert_eq]. }
    unfold k in Hstep.
    assert (Hpre : su_pre (set_ent (e :: drop_entry i (un_ent su)) su)).
    { eapply su_pre_perm; [exact Hperm|]. by rewrite set_ent_same. }
    destruct (Z.eqb_spec v 0) as [Hv|Hv]; cbn [negb].
    + destruct (Nat.eqb_spec (pred (length (un_ent su))) 0) as [Hz|Hz].
      * assert (Hnil : drop_entry i (un_ent su) = []).
        { apply nil_length_inv. pose proof (drop_entry_length _ _ _ Hi). lia. }
        rewrite delete_middle. eexists _, _. split; [done|]. right. split; [done|].
        exists (semutot st - 1), (l1 ++ l2). split_and!; [done|by eapply remove_wf| |].
        -- rewrite Hstep, Hnil. by rewrite map_set_nil.
        -- right. rewrite fmap_app, fmap_cons in Hprocs. rewrite fmap_app.
           apply list.NoDup_app in Hprocs as (_ & Hdj & Hc). apply list.NoDup_cons in Hc as [Hc _].
           intros [H|H]%elem_of_app; [|done]. apply (Hdj _ H). by left.
      * rewrite Hins. eexists _, _. split; [done|]. right. split; [done|].
        eexists _, _. split; [done|]. split_and!; [|done|left; apply Howns].
        eapply replace_wf; [exact Htot|done|done|by eapply su_pre_tail|].
        intros H0. pose proof (drop_entry_length _ _ _ Hi) as Hlen. rewrite H0 in Hlen. simpl in Hlen. lia.
    + rewrite Hins. eexists _, _. split; [done|]. right. split; [done|].
      eexists _, _. split; [done|].
      set (e' := mkUndo v (un_num e) (un_id e)).
      pose proof (insert_entry_perm i (un_ent su) e e' Hi) as Hperm'.
      assert (Hpre' : su_pre (set_ent (<[i := e']> (un_ent su)) su)).
      { eapply su_pre_perm; [symmetry; exact Hperm'|].
        destruct Hpre as [H1 H2 H3]; unfold un_cnt in *; simpl in *.
        inversion_clear H3. constructor; unfold un_cnt; simpl; [done|done|].
        constructor; [|done]. split; [done|apply sint16_range]. }
      split_and!; [| |left; apply Howns].
      * eapply replace_wf; [exact Htot|done|done|done|]. intros H0.
        apply (f_equal length) in H0. rewrite length_insert in H0.
        apply lookup_lt_Some in Hi. simpl in H0. lia.
      * rewrite Hstep. rewrite <- Hid, <- Hnu.
        destruct (map_set l1 su l2 Hprocs Hrest _ _ e' Hperm') as [-> _]; [apply Hpre'|done].
  - destruct (Z.eqb_spec (Z.of_nat (un_cnt su)) SEMUME) as [Hfull|Hfull].
    + eexists _, _. split; [done|]. left. split; [done|]. split; [done|].
      split_and!; [by apply map_no_entry| |].
      * rewrite <- (set_ent_same su). rewrite set_ent_same. specialize (Howns (un_ent su)).
        by rewrite set_ent_same in Howns.
      * exists su. split_and!; [|done|done]. apply elem_of_app. right. by left.
    + rewrite Hins. eexists _, _. split; [done|]. right. split; [done|].
      eexists _, _. split; [done|].
      set (e := mkUndo (sint 16 d) (sint 16 semnum) semid).
      assert (Hperm : un_ent su ++ [e] ≡ₚ e :: un_ent su) by apply Permutation_app_comm.
      assert (Hpre : su_pre (set_ent (un_ent su ++ [e]) su)).
      { eapply su_pre_perm; [symmetry; exact Hperm|].
        destruct Hsu as [H1 H2 H3]. constructor; unfold un_cnt in *; simpl; [lia| |].
        - apply list.NoDup_cons. split; [|done].
          intros (e1 & Hek & He1)%list_elem_of_fmap. apply list_find_None in Hf.
          rewrite Forall_forall in Hf. apply (Hf e1 He1). unfold ekey in Hek. simpl in Hek.
          rewrite sint16_id in Hek by done. by injection Hek.
        - constructor; [|done]. split; [done|apply sint16_range]. }
      split_and!; [|  |left; apply Howns].
      * eapply replace_wf; [exact Htot|done|done|done|]. intros H0.
        apply app_nil in H0 as [_ ?]. done.
      * destruct (map_set l1 su l2 Hprocs Hrest _ _ e Hperm) as [Hm Hk]; [apply Hpre|].
        rewrite set_ent_same in Hm, Hk. rewrite Hm. unfold adj_step. simpl in Hk.
        rewrite sint16_id in Hk by done.
        rewrite Hk. simpl. rewrite (sint16_id semnum) by done.
        rewrite Z.add_0_l. by destruct (Z.eqb_spec (sint 16 d) 0).
Qed.

(** ** semundo_adjust *)

Lemma find_proc_mid pr l :
  match find_proc pr l with
  | Some su => un_proc su = pr /\ exists l1 l2, l = l1 ++ su :: l2
  | None => pr ∉ (un_proc <$> l)
  end.
Proof.
  unfold find_proc. destruct (list_find _ l) as [[i su]|] eqn:Hf; simpl.
  - apply list_find_Some in Hf as (Hi & Hp & _). split; [done|].
    exists (take i l), (drop (S i) l). symmetry. by apply take_drop_middle.
  - intros (su & -> & Hin)%list_elem_of_fmap. apply list_find_None in Hf.
    rewrite Forall_forall in Hf. by apply (Hf su Hin).
Qed.

Lemma nodup_before {A B} (f : A -> B) l1 x l2 :
  NoDup (f <$> (l1 ++ x :: l2)) -> f x ∉ (f <$> l1).
Proof.
  rewrite fmap_app, fmap_cons. intros (_ & Hd & _)%list.NoDup_app Hin.
  apply (Hd _ Hin). by left.
Qed.

(** The cached pointer is NULL or leads to the structure of the process. *)
Definition cached (sup : option nat) (pr : Z) (l : list sem_undo) : Prop :=
  match sup with Some a => owns a pr l | None => True end.

Lemma undo_map_alloc a pr l : undo_map (mkSu a pr [] :: l) = undo_map l.
Proof. done. Qed.

Lemma adjust_owned a pr semid semnum d st :
  undo_wf (semu_list st) (semutot st) -> owns a pr (semu_list st) ->
  is_short semnum -> sint 16 d <> 0 ->
  exists e st', adjust_entry a semid semnum d st = Some (e, st') /\
    adjusted a pr semid semnum d (semu_list st) st st' e.
Proof.
  intros [Htot Hprocs Heach] (l1 & su & l2 & Hl & Ha1 & Ha & Hpr) Hnum Hd.
  rewrite Hl in *. subst pr. apply Forall_app in Heach as [H1 H2]. inversion_clear H2.
  apply adjust_entry_spec; try done; [by apply Forall_app|by apply su_wf_pre].
Qed.

(** All that can come of [semundo_adjust] with a non-zero adjustment. *)
Lemma semundo_adjust_spec a pr sup semid semnum d st :
  undo_wf (semu_list st) (semutot st) ->
  (sup = None -> NoDup (un_addr <$> semu_list st)) ->
  cached sup pr (semu_list st) -> is_short semnum -> sint 16 d <> 0 ->
  exists e sup' st', semundo_adjust a None pr sup semid semnum d st = Some (e, sup', st') /\
    ((e = ENOSPC /\ st' = st /\ sup' = None /\ sup = None /\
      (pr ∉ (un_proc <$> semu_list st)) /\ semutot st = semmnu (info st)) \/
     (exists b, sup' = Some b /\ (sup = None \/ sup = Some b) /\
        adjusted b pr semid semnum d (semu_list st) st st' e)).
Proof.
  intros Hwf Haddr Hc Hnum Hd. unfold semundo_adjust.
  assert (Hd0 : (d =? 0) = false). { apply Z.eqb_neq. intros ->. by apply Hd. }
  destruct sup as [b|].
  { destruct (adjust_owned b pr semid semnum d st) as (e & st' & -> & Hadj); [done..|].
    simpl. eexists _, _, _. split; [done|]. right. eauto. }
  pose proof (find_proc_mid pr (semu_list st)) as Hf.
  destruct (find_proc pr (semu_list st)) as [su|].
  { destruct Hf as (Hpr & l1 & l2 & Hl).
    destruct (adjust_owned (un_addr su) pr semid semnum d st) as (e & st' & -> & Hadj); [done| |done..|].
    - exists l1, su, l2. split_and!; try done. rewrite Hl in Haddr. eapply nodup_before. by apply Haddr.
    - simpl. eexists _, _, _. split; [done|]. right. eauto. }
  rewrite Hd0. unfold semu_alloc.
  destruct (Z.eqb_spec (semutot st) (semmnu (info st))) as [Hmax|Hmax].
  { eexists _, _, _. split; [done|]. left. done. }
  simpl. set (st1 := with_undos _ (_ :: _) _).
  destruct Hwf as [Htot Hprocs Heach].
  destruct (adjust_entry_spec a semid semnum d st1 [] (mkSu a pr []) (semu_list st))
    as (e & st' & -> & Hadj); try done.
  - simpl. lia.
  - simpl. by constructor.
  - constructor; simpl; [unfold un_cnt, SEMUME; simpl; lia|constructor|constructor].
  - apply not_elem_of_nil.
  - simpl in *. eexists _, _, _. split; [done|]. right. exists a.
    split_and!; [done|by left|].
    destruct Hadj as [(-> & Hst & Hnone & Hown & su & Hin & Hsp & Hcnt)|(-> & n' & l' & -> & H)].
    + exfalso. apply elem_of_cons in Hin as [->|Hin].
      * unfold un_cnt, SEMUME in Hcnt. simpl in Hcnt. lia.
      * apply Hf. apply list_elem_of_fmap. eauto.
    + right. split; [done|]. exists n', l'. split; [done|]. by rewrite undo_map_alloc in H.
Qed.

(** ** semundo_clear *)

Definition cleared (semid semnum : Z) (e : undo) : Prop :=
  un_id e = semid /\ (semnum = -1 \/ un_num e = semnum).

Lemma clear_entries_perm n semid semnum i ents :
  exists gone, ents ≡ₚ gone ++ clear_entries n semid semnum i ents /\
    Forall (cleared semid semnum) gone.
Proof.
  revert i ents. induction n as [|n IH]; intros i ents; simpl; [by exists []|].
  destruct (ents !! i) as [e|] eqn:Hi; [|by exists []].
  destruct (un_id e =? semid) eqn:Hid; [|apply IH].
  destruct (_ || _) eqn:Hnum; [|destruct (negb _); [by exists []|apply IH]].
  pose proof (drop_entry_perm _ _ _ Hi) as Hp.
  assert (He : cleared semid semnum e).
  { bool_to_prop. split; [done|]. apply orb_true_iff in Hnum as [H|H]; bool_to_prop; auto. }
  destruct (negb _).
  - exists [e]. split; [done|]. by apply Forall_singleton.
  - destruct (IH (if (i <? length (drop_entry i ents))%nat then i else S i) (drop_entry i ents))
      as (gone & Hg & Hall).
    exists (e :: gone). split; [|by constructor]. simpl. by rewrite <- Hg.
Qed.

Lemma take_drop_entry i ents e :
  ents !! i = Some e -> take i (drop_entry i ents) = take i ents.
Proof.
  intros Hi%lookup_lt_Some. unfold drop_entry.
  destruct (lookup_lt_is_Some_2 ents (pred (length ents))) as [y ->]; [lia|].
  destruct (Nat.ltb_spec i (pred (length ents))).
  - rewrite take_insert_ge by lia. rewrite take_take. f_equal. lia.
  - rewrite take_take. f_equal. lia.
Qed.

Lemma clear_entries_all n semid i ents :
  (length ents - i <= n)%nat -> Forall (fun e => un_id e <> semid) (take i ents) ->
  Forall (fun e => un_id e <> semid) (clear_entries n semid (-1) i ents).
Proof.
  revert i ents. induction n as [|n IH]; intros i ents Hn Hpre; simpl.
  { rewrite take_ge in Hpre by lia. done. }
  destruct (ents !! i) as [e|] eqn:Hi.
  2:{ apply lookup_ge_None in Hi. by rewrite take_ge in Hpre by lia. }
  pose proof (drop_entry_length _ _ _ Hi). pose proof (lookup_lt_Some _ _ _ Hi).
  destruct (Z.eqb_spec (un_id e) semid) as [Hid|Hid].
  - apply IH; [destruct (_ <? _)%nat; lia|].
    destruct (Nat.ltb_spec i (length (drop_entry i ents))).
    + by rewrite (take_drop_entry _ _ _ Hi).
    + rewrite take_ge by lia. rewrite <- (take_ge (drop_entry i ents) i) by lia.
      by rewrite (take_drop_entry _ _ _ Hi).
  - apply IH; [lia|]. rewrite (take_S_r _ _ _ Hi). apply Forall_app. split; [done|]. by apply Forall_singleton.
Qed.

Definition row_cleared (semid semnum : Z) (r : ukey * Z) : Prop :=
  r.1.1.2 = semid /\ (semnum = -1 \/ r.1.2 = semnum).

Lemma clear_list_shift semid semnum d l m :
  clear_list semid semnum l (m + d) =
    ((clear_list semid semnum l m).1, (clear_list semid semnum l m).2 + d).
Proof.
  revert m. induction l as [|su l IH]; intros m; simpl; [done|].
  destruct (_ =? 0)%nat.
  - replace (m + d - 1) with (m - 1 + d) by lia. apply IH.
  - rewrite (IH m). by destruct (clear_list semid semnum l m).
Qed.

Lemma clear_list_spec semid semnum l n :
  undo_wf l n ->
  let '(l', n') := clear_list semid semnum l n in
  undo_wf l' n' /\ un_proc <$> l' `sublist_of` un_proc <$> l /\
  un_addr <$> l' `sublist_of` un_addr <$> l /\
  (exists gone, rows l ≡ₚ gone ++ rows l' /\ Forall (row_cleared semid semnum) gone) /\
  (semnum = -1 -> Forall (fun r => r.1.1.2 <> semid) (rows l')).
Proof.
  revert n. induction l as [|su l IH]; intros n [Htot Hprocs Heach]; simpl.
  { split_and!; try done; by exists []. }
  rewrite fmap_cons in Hprocs. apply list.NoDup_cons in Hprocs as [Hnin Hprocs].
  inversion_clear Heach as [|? ? Hsu Hl]. simpl in Htot.
  destruct (clear_entries_perm (un_cnt su) semid semnum 0 (un_ent su)) as (gone & Hg & Hgone).
  assert (Hall : semnum = -1 ->
    Forall (fun e => un_id e <> semid) (clear_entries (un_cnt su) semid semnum 0 (un_ent su))).
  { intros ->. apply clear_entries_all; [unfold un_cnt; lia|]. rewrite take_0. constructor. }
  set (ents := clear_entries _ _ _ _ _) in *.
  assert (Hrow : Forall (row_cleared semid semnum) (keyed (un_proc su) <$> gone)).
  { apply Forall_fmap. eapply Forall_impl; [exact Hgone|]. done. }
  assert (Hrow' : semnum = -1 -> Forall (fun r => r.1.1.2 <> semid) (keyed (un_proc su) <$> ents)).
  { intros Hm. apply Forall_fmap. eapply Forall_impl; [by apply Hall|]. done. }
  destruct (Nat.eqb_spec (length ents) 0) as [Hz|Hz].
  - apply nil_length_inv in Hz. rewrite Hz, app_nil_r in Hg.
    specialize (IH (n - 1) ltac:(constructor; [lia|done|done])).
    destruct (clear_list semid semnum l (n - 1)) as [l' n'].
    destruct IH as (Hwf & Hs & Hsa & (gone' & Hg' & Hgone') & Hn).
    split_and!; [done|by apply sublist_cons|by apply sublist_cons| |done].
    exists ((keyed (un_proc su) <$> gone) ++ gone'). split; [|by apply Forall_app].
    rewrite rows_cons, Hg, Hg'. by rewrite app_assoc.
  - specialize (IH (n - 1) ltac:(constructor; [lia|done|done])).
    pose proof (clear_list_shift semid semnum 1 l (n - 1)) as Hn1. replace (n - 1 + 1) with n in Hn1 by lia. rewrite Hn1.
    destruct (clear_list semid semnum l (n - 1)) as [l' n']. simpl.
    destruct IH as ([Ht' Hp' He'] & Hs & Hsa & (gone' & Hg' & Hgone') & Hn).
    split_and!.
    + constructor; simpl; [lia| |].
      * apply list.NoDup_cons. split; [|done]. intros Hin. apply Hnin.
        by eapply elem_of_sublist.
      * constructor; [|done]. apply su_pre_wf; [|simpl; by intros ->].
        apply su_wf_pre in Hsu. rewrite <- (set_ent_same su) in Hsu.
        apply (su_pre_perm _ _ _ Hg) in Hsu. clear -Hsu.
        induction gone as [|e gone IH]; [done|]. apply IH. by apply su_pre_tail in Hsu.
    + by apply sublist_skip.
    + by apply sublist_skip.
    + exists ((keyed (un_proc su) <$> gone) ++ gone'). split; [|by apply Forall_app].
      rewrite !rows_cons, Hg, Hg', fmap_app. simpl. rewrite <- !app_assoc. f_equiv.
      rewrite !app_assoc. f_equiv. apply Permutation_app_comm.
    + intros Hm. rewrite rows_cons. apply Forall_app. split; [by apply Hrow'|by apply Hn].
Qed.

(** ** Reading the table *)

Lemma undo_map_Some l n k v :
  undo_wf l n -> undo_map l !! k = Some v <-> (k, v) ∈ rows l.
Proof.
  intros Hwf%undo_wf_nodup. unfold undo_map. symmetry. by apply elem_of_list_to_map.
Qed.

Lemma undo_map_values l n k v :
  undo_wf l n -> undo_map l !! k = Some v -> v <> 0 /\ is_short v.
Proof.
  intros Hwf Hk. apply (undo_map_Some _ _ _ _ Hwf) in Hk.
  apply list_elem_of_bind in Hk as (su & Hin & Hsu).
  apply list_elem_of_fmap in Hin as (e & Hke & He). unfold keyed in Hke. simplify_eq/=.
  destruct Hwf as [_ _ Heach]. rewrite Forall_forall in Heach.
  destruct (Heach su Hsu) as [_ _ _ Hv]. rewrite Forall_forall in Hv. by apply Hv.
Qed.

(** The process of an entry has a structure, and the other way round. *)
Lemma undo_map_proc l n pr :
  undo_wf l n -> pr ∈ (un_proc <$> l) <-> exists k v, undo_map l !! k = Some v /\ k.1.1 = pr.
Proof.
  intros Hwf. split.
  - intros (su & -> & Hin)%list_elem_of_fmap. destruct Hwf as [Ht Hp He] eqn:Hw. clear Hw.
    pose proof He as He'. rewrite Forall_forall in He'. destruct (He' su Hin) as [Hne _ _ _].
    destruct (un_ent su) as [|e ents] eqn:Hents; [done|].
    exists (un_proc su, un_id e, un_num e), (un_adjval e). split; [|done].
    apply (undo_map_Some _ n); [done|]. apply list_elem_of_bind. exists su. split; [|done].
    rewrite Hents. by left.
  - intros (k & v & Hk & <-). apply (undo_map_Some _ _ _ _ Hwf) in Hk.
    apply rows_keys_in, list_elem_of_fmap. by exists (k, v).
Qed.

Definition of_proc (pr : Z) (m : gmap ukey Z) : gmap ukey Z :=
  filter (fun kv : ukey * Z => kv.1.1.1 = pr) m.

Lemma of_proc_mid l1 su l2 n :
  undo_wf (l1 ++ su :: l2) n ->
  of_proc (un_proc su) (undo_map (l1 ++ su :: l2)) =
    list_to_map (keyed (un_proc su) <$> un_ent su).
Proof.
  intros Hwf. pose proof (undo_wf_nodup _ _ Hwf) as Hnd.
  assert (Hnd' : NoDup ((keyed (un_proc su) <$> un_ent su).*1)).
  { destruct Hwf as [_ _ He]. apply Forall_app in He as [_ He]. inversion_clear He as [|? ? Hsu _].
    apply ents_keys_nodup, Hsu. }
  apply map_eq. intros k. apply option_eq. intros v. unfold of_proc.
  rewrite map_lookup_filter_Some, (undo_map_Some _ _ _ _ Hwf).
  rewrite <- elem_of_list_to_map by done. rewrite rows_mid, elem_of_app. simpl. split.
  - intros [[H|H] Hk]; [done|]. exfalso.
    assert (Hin : k.1.1 ∈ (un_proc <$> (l1 ++ l2))).
    { apply rows_keys_in, list_elem_of_fmap. by exists (k, v). }
    rewrite Hk in Hin. destruct Hwf as [_ Hp _]. rewrite fmap_app, fmap_cons in Hp.
    rewrite fmap_app in Hin. apply list.NoDup_app in Hp as (_ & Hd & Hc).
    apply list.NoDup_cons in Hc as [Hc _].
    apply elem_of_app in Hin as [Hin|Hin]; [|done]. apply (Hd _ Hin). by left.
  - intros H. split; [by left|]. apply list_elem_of_fmap in H as (e & He & _).
    unfold keyed in He. by simplify_eq/=.
Qed.

Lemma of_proc_size l n su :
  undo_wf l n -> su ∈ l -> size (of_proc (un_proc su) (undo_map l)) = un_cnt su.
Proof.
  intros Hwf (l1 & l2 & ->)%list_elem_of_split. rewrite (of_proc_mid _ _ _ _ Hwf).
  rewrite map_size_list_to_map, length_fmap; [done|].
  destruct Hwf as [_ _ He]. apply Forall_app in He as [_ He]. inversion_clear He as [|? ? Hsu _].
  apply ents_keys_nodup, Hsu.
Qed.

Lemma of_proc_max l n pr :
  undo_wf l n -> Z.of_nat (size (of_proc pr (undo_map l))) <= SEMUME.
Proof.
  intros Hwf. destruct (decide (pr ∈ (un_proc <$> l))) as [Hin|Hnin].
  - apply list_elem_of_fmap in Hin as (su & -> & Hin). rewrite (of_proc_size _ _ _ Hwf Hin).
    destruct Hwf as [_ _ He]. rewrite Forall_forall in He. apply (He su Hin).
  - replace (of_proc pr (undo_map l)) with (∅ : gmap ukey Z).
    + rewrite map_size_empty. done.
    + symmetry. apply map_empty_filter_2. intros k v Hk Hpr. apply Hnin.
      apply (undo_map_proc _ _ _ Hwf). by exists k, v.
Qed.
