(* ===== verification/SemOps.v ===== *)
(** * The request vector of semop

    A reference for what a vector of requests does to the semaphore values,
    the scan and the roll back of [sys_semop] against it, and the undo table
    along the two loops that record and take back SEM_UNDO adjustments. *)

From stdpp Require Import base numbers list option gmap.
From Stdlib Require Import ZArith Lia Bool.
From S2P Require Import Prelude Sem SemFacts.

#[local] Set Warnings "-clear-no-such-hyp,-notation-for-abbreviation".

(** ** The reference *)

Definition blocked (sop : sembuf) (v : Z) : bool :=
  if sem_op sop <? 0 then v + sem_op sop <? 0 else (sem_op sop =? 0) && (v >? 0).

Fixpoint semop_ref (sops : list sembuf) (vals : list Z) : option (list Z) :=
  match sops with
  | [] => Some vals
  | sop :: sops =>
      v ← vals !! Z.to_nat (sem_num sop);
      if blocked sop v then None
      else semop_ref sops (alter (fun v => u16 (v + sem_op sop)) (Z.to_nat (sem_num sop)) vals)
  end.

Definition count_undos (sops : list sembuf) : Z := Z.of_nat (length (filter undoes sops)).

Definition base_ok (base : list sem) : Prop := Forall (fun s => 0 <= semval s < 65536) base.

Definition sop_ok (nsems : Z) (sop : sembuf) : Prop :=
  0 <= sem_num sop < nsems /\ is_short (sem_op sop).

(** All requests added, whether they block or not. *)
Definition advance (sops : list sembuf) (base : list sem) : list sem :=
  fold_left (fun b sop => add_semval (sem_num sop) (sem_op sop) b) sops base.

(** ** Adding to one semaphore *)

Lemma alter_same {A} (f : A -> A) i (l : list A) :
  (forall x, l !! i = Some x -> f x = x) -> alter f i l = l.
Proof.
  intros H. apply list_eq. intros j. rewrite list_lookup_alter.
  destruct (decide (i = j)) as [->|]; [|done].
  destruct (l !! j) as [x|] eqn:E; simpl; [|done]. by rewrite (H x eq_refl).
Qed.

Lemma u16_range x : 0 <= u16 x < 65536.
Proof. apply Z.mod_pos_bound. lia. Qed.

Lemma u16_add_l x y : u16 (u16 x + y) = u16 (x + y).
Proof. unfold u16. by rewrite Zplus_mod_idemp_l. Qed.

Lemma add_semval_comm n d m e base :
  add_semval n d (add_semval m e base) = add_semval m e (add_semval n d base).
Proof.
  unfold add_semval. destruct (decide (Z.to_nat n = Z.to_nat m)) as [->|Hne].
  - rewrite !list_alter_alter_eq. apply list_alter_ext; [|done]. intros [v p a b] _.
    unfold compose, set_semval. simpl. rewrite !u16_add_l. do 2 f_equal. lia.
  - by rewrite list_alter_alter_ne.
Qed.

Lemma base_ok_add n d base : base_ok base -> base_ok (add_semval n d base).
Proof.
  intros H. apply Forall_alter; [done|]. intros s _ _. simpl. apply u16_range.
Qed.

Lemma add_semval_back n d base :
  base_ok base -> add_semval n (- d) (add_semval n d base) = base.
Proof.
  intros Hok. unfold add_semval. rewrite list_alter_alter_eq.
  apply alter_same. intros [v p a b] Hl. unfold compose, set_semval. simpl.
  rewrite u16_add_l. f_equal. replace (v + d + - d) with v by lia. apply u16_id.
  unfold base_ok in Hok. rewrite Forall_lookup in Hok. apply (Hok _ _ Hl).
Qed.

Lemma add_semval_0 n base : base_ok base -> add_semval n 0 base = base.
Proof.
  intros Hok. apply alter_same. intros [v p a b] Hl. unfold set_semval. simpl.
  f_equal. rewrite Z.add_0_r. apply u16_id.
  unfold base_ok in Hok. rewrite Forall_lookup in Hok. apply (Hok _ _ Hl).
Qed.

Lemma add_semval_length n d base : length (add_semval n d base) = length base.
Proof. apply length_alter. Qed.

Lemma advance_length sops base : length (advance sops base) = length base.
Proof.
  revert base. induction sops as [|sop sops IH]; intros base; [done|].
  simpl. rewrite IH. apply add_semval_length.
Qed.

Lemma advance_ok sops base : base_ok base -> base_ok (advance sops base).
Proof.
  revert base. induction sops as [|sop sops IH]; intros base Hok; [done|].
  simpl. by apply IH, base_ok_add.
Qed.

Lemma rollback_add sops n d base :
  rollback sops (add_semval n d base) = add_semval n d (rollback sops base).
Proof.
  revert base. induction sops as [|sop sops IH]; intros base; [done|].
  simpl. by rewrite add_semval_comm, IH.
Qed.

(** Taking the requests back in the order they were made restores every
    semaphore, also where a 16-bit value wrapped. *)
Lemma rollback_advance sops base : base_ok base -> rollback sops (advance sops base) = base.
Proof.
  revert base. induction sops as [|sop sops IH]; intros base Hok; [done|].
  simpl. rewrite rollback_add, IH by (by apply base_ok_add). by apply add_semval_back.
Qed.

(** ** The scan *)

Lemma count_undos_cons sop sops :
  count_undos (sop :: sops) = (if undoes sop then 1 else 0) + count_undos sops.
Proof.
  unfold count_undos. rewrite filter_cons. destruct (decide (undoes sop)) as [H|H].
  - rewrite Is_true_true in H. rewrite H. simpl. lia.
  - rewrite Is_true_true in H. apply not_true_is_false in H. rewrite H. done.
Qed.

Definition scan_result (sops : list sembuf) (i : nat) (base : list sem) (u : Z) (r : scan) : Prop :=
  match r with
  | ScanAll base' _ u' =>
      semop_ref sops (semval <$> base) = Some (semval <$> base') /\
      base' = advance sops base /\ u' = u + count_undos sops
  | ScanBreak j sop base' u' =>
      semop_ref sops (semval <$> base) = None /\
      exists s1 s2, sops = s1 ++ sop :: s2 /\ j = (i + length s1)%nat /\
        base' = advance s1 base /\ u' = u + count_undos s1 /\
        exists s, base' !! Z.to_nat (sem_num sop) = Some s /\ blocked sop (semval s) = true
  | ScanFbig _ | ScanBad => False
  end.

Lemma semop_scan_spec nsems i sops base w u :
  base_ok base -> nsems = Z.of_nat (length base) -> Forall (sop_ok nsems) sops ->
  scan_result sops i base u (semop_scan nsems i sops base w u).
Proof.
  intros Hok Hn Hs. revert i base w u Hok Hn.
  induction Hs as [|sop sops [Hnum Hop] Hs IH]; intros i base w u Hok Hn; simpl.
  { split_and!; [done|done|]. unfold count_undos. simpl. lia. }
  replace (sem_num sop >=? nsems) with false by (symmetry; rewrite Z.geb_leb; apply Z.leb_gt; lia).
  destruct (lookup_lt_is_Some_2 base (Z.to_nat (sem_num sop))) as [s Hsem]; [lia|]. rewrite Hsem.
  assert (Hcont : blocked sop (semval s) = false ->
    forall w' u', u' = u + (if undoes sop then 1 else 0) ->
    scan_result (sop :: sops) i base u
      (semop_scan nsems (S i) sops (add_semval (sem_num sop) (sem_op sop) base) w' u')).
  { intros Hb w' u' ->.
    specialize (IH (S i) (add_semval (sem_num sop) (sem_op sop) base) w'
      (u + (if undoes sop then 1 else 0))).
    assert (Hv : alter (fun v => u16 (v + sem_op sop)) (Z.to_nat (sem_num sop)) (semval <$> base) =
      semval <$> add_semval (sem_num sop) (sem_op sop) base).
    { unfold add_semval. symmetry. apply list_fmap_alter. by apply Forall_true. }
    assert (Href : semop_ref (sop :: sops) (semval <$> base) =
      semop_ref sops (semval <$> add_semval (sem_num sop) (sem_op sop) base)).
    { simpl. rewrite list_lookup_fmap, Hsem. simpl. by rewrite Hb, Hv. }
    specialize (IH (base_ok_add _ _ _ Hok)). rewrite add_semval_length in IH. specialize (IH Hn).
    unfold scan_result in *. rewrite Href, count_undos_cons.
    destruct (semop_scan _ _ _ _ _ _); [..|done].
    - destruct IH as (H1 & H2 & H3). split_and!; [done|done|lia].
    - done.
    - destruct IH as (H1 & s1 & s2 & H2 & H3 & H4 & H5 & H6). split; [done|].
      exists (sop :: s1), s2. rewrite count_undos_cons, H2.
      split_and!; [done|simpl; lia|done|lia|done]. }
  assert (Hstop : blocked sop (semval s) = true ->
    scan_result (sop :: sops) i base u (ScanBreak i sop base u)).
  { intros Hb. simpl. rewrite list_lookup_fmap, Hsem. simpl. rewrite Hb. split; [done|].
    exists [], sops. unfold count_undos. simpl. split_and!; [done|lia|done|lia|eauto]. }
  unfold blocked in Hcont, Hstop. unfold count_undo, undoes in *.
  destruct (Z.ltb_spec (sem_op sop) 0) as [Hneg|Hneg].
  - replace (sem_op sop =? 0) with false in Hcont by (symmetry; apply Z.eqb_neq; lia).
    destruct (_ <? 0) eqn:Hb; [by apply Hstop|]. apply Hcont; [done|].
    destruct (has _ _); simpl; lia.
  - destruct (Z.eqb_spec (sem_op sop) 0) as [H0|H0]; simpl in Hcont, Hstop.
    + destruct (_ >? 0) eqn:Hb; [by apply Hstop|].
      rewrite H0, add_semval_0 in Hcont by done. apply Hcont; [done|].
      rewrite andb_false_r. lia.
    + apply Hcont; [done|]. destruct (has _ _); simpl; lia.
Qed.

(** ** The undo table along the loops *)

Definition m_ok (m : gmap ukey Z) : Prop :=
  forall k v, m !! k = Some v -> v <> 0 /\ is_short v.

Lemma adj_step_ok k d m : m_ok m -> m_ok (adj_step k d m).
Proof.
  intros Hm k' v. unfold adj_step. destruct (Z.eqb_spec (sint 16 (default 0 (m !! k) + d)) 0) as [Hz|Hz].
  - rewrite lookup_delete_Some. intros [_ H]. by apply Hm in H.
  - rewrite lookup_insert_Some. intros [[_ <-]|[_ H]]; [|by apply Hm in H].
    split; [done|apply sint16_range].
Qed.

Lemma adj_step_back k d m : m_ok m -> adj_step k d (adj_step k (- d) m) = m.
Proof.
  intros Hm. set (v0 := default 0 (m !! k)).
  assert (Hv0 : is_short v0).
  { subst v0. destruct (m !! k) as [v|] eqn:E; simpl; [by apply (Hm k)|unfold is_short; lia]. }
  pose proof (sint16_add_sub v0 d Hv0) as Hback. set (v1 := sint 16 (v0 + - d)).
  assert (H1 : default 0 (adj_step k (- d) m !! k) = v1).
  { unfold adj_step. fold v0 v1. destruct (Z.eqb_spec v1 0) as [->|];
      [by rewrite lookup_delete_eq|by rewrite lookup_insert_eq]. }
  unfold adj_step at 1. rewrite H1. replace (sint 16 (v1 + d)) with v0 by done.
  assert (H2 : delete k (adj_step k (- d) m) = delete k m).
  { unfold adj_step. fold v0 v1. destruct (v1 =? 0); [by rewrite delete_delete_eq|by rewrite delete_insert_eq]. }
  assert (H3 : forall v, <[k:=v]> (adj_step k (- d) m) = <[k:=v]> m).
  { intros v. unfold adj_step. fold v0 v1. destruct (v1 =? 0);
      [by rewrite insert_delete_eq|by rewrite insert_insert_eq]. }
  rewrite H2, H3. subst v0. destruct (m !! k) as [v|] eqn:E; simpl.
  - destruct (Hm k v E) as [Hv _]. destruct (Z.eqb_spec v 0); [done|]. by apply insert_id.
  - by apply delete_id.
Qed.

Definition adj_all (pr semid : Z) (sops : list sembuf) (m : gmap ukey Z) : gmap ukey Z :=
  fold_left (fun m sop =>
    if undoes sop then adj_step (pr, semid, sem_num sop) (- sem_op sop) m else m) sops m.

Lemma adj_all_snoc pr semid sops sop m :
  adj_all pr semid (sops ++ [sop]) m =
    if undoes sop then adj_step (pr, semid, sem_num sop) (- sem_op sop) (adj_all pr semid sops m)
    else adj_all pr semid sops m.
Proof. unfold adj_all. by rewrite fold_left_app. Qed.

Lemma adj_all_ok pr semid sops m : m_ok m -> m_ok (adj_all pr semid sops m).
Proof.
  revert m. induction sops as [|sop sops IH]; intros m Hm; [done|]. simpl. apply IH.
  destruct (undoes sop); [by apply adj_step_ok|done].
Qed.

(** The requests that touch the table are spread so that the process keeps
    some adjustment between the first and the last of them. *)
Definition undo_stays (pr semid : Z) (sops : list sembuf) (m : gmap ukey Z) : Prop :=
  forall s1 s2, sops = s1 ++ s2 -> existsb undoes s1 = true -> existsb undoes s2 = true ->
    exists k v, adj_all pr semid s1 m !! k = Some v /\ k.1.1 = pr.

(** [st] differs from [st0] in the undo structures only, and they hold [m]. *)
Record tracks (st0 : sstate) (m : gmap ukey Z) (st : sstate) : Prop := {
  t_rest : st = with_undos (semutot st) (semu_list st) st0;
  t_wf : undo_wf (semu_list st) (semutot st);
  t_map : undo_map (semu_list st) = m }.

Lemma snoc_split {A} (l : list A) x s1 s2 :
  l ++ [x] = s1 ++ s2 -> (s1 = l ++ [x] /\ s2 = []) \/ exists s2', s2 = s2' ++ [x] /\ l = s1 ++ s2'.
Proof.
  destruct s2 as [|y s2' _] using rev_ind; intros H.
  - left. by rewrite app_nil_r in H.
  - right. rewrite app_assoc in H. apply app_inj_tail in H as [-> ->]. eauto.
Qed.

Lemma existsb_snoc {A} (f : A -> bool) l x : existsb f (l ++ [x]) = existsb f l || f x.
Proof. rewrite existsb_app. simpl. by rewrite orb_false_r. Qed.

Lemma undoes_op sop : undoes sop = true -> sem_op sop <> 0.
Proof. unfold undoes. intros H. bool_to_prop. done. Qed.

Lemma sint16_op_nonzero x : is_short x -> x <> 0 -> sint 16 x <> 0 /\ sint 16 (- x) <> 0.
Proof.
  intros Hx H0. split; [by rewrite sint16_id|]. intros H.
  apply H0. pose proof (sint16_add_sub 0 x ltac:(unfold is_short; lia)) as Hb.
  replace (0 - x) with (- x) in Hb by lia. rewrite H in Hb. by rewrite Z.add_0_l, sint16_id in Hb.
Qed.

Section UndoLoops.
Context (a : nat) (pr semid : Z) (nsems : Z) (st0 : sstate) (m0 : gmap ukey Z).
Context (Hns : nsems <= 32767) (Hm0 : m_ok m0).

Notation after s := (adj_all pr semid s m0).

(** No more entries of the process than a structure holds. *)
Definition fits (sops : list sembuf) : Prop :=
  forall s1 s2, sops = s1 ++ s2 -> Z.of_nat (size (of_proc pr (after s1))) <= SEMUME.

Lemma fits_snoc sops sop st :
  fits sops -> tracks st0 (after (sops ++ [sop])) st -> fits (sops ++ [sop]).
Proof.
  intros Hf [_ Hwf Hmap] s1 s2 [[-> _]|(s2' & _ & ->)]%snoc_split.
  - rewrite <- Hmap. by eapply of_proc_max.
  - by eapply Hf.
Qed.

Lemma fits_before sops sop : fits (sops ++ [sop]) -> fits sops.
Proof. intros Hf s1 s2 ->. apply (Hf s1 (s2 ++ [sop])). by rewrite app_assoc. Qed.

Lemma stays_before sops sop m : undo_stays pr semid (sops ++ [sop]) m -> undo_stays pr semid sops m.
Proof.
  intros Hf s1 s2 -> H1 H2. apply (Hf s1 (s2 ++ [sop])); [by rewrite app_assoc|done|].
  by rewrite existsb_snoc, H2.
Qed.

(** Room for an entry that is being taken back: the table held it before. *)
Lemma of_proc_grow k m v :
  k.1.1 = pr -> m !! k = None -> size (of_proc pr (<[k:=v]> m)) = S (size (of_proc pr m)).
Proof.
  intros Hk Hn. unfold of_proc. rewrite map_filter_insert_True by done.
  rewrite map_size_insert_None; [done|]. apply map_lookup_filter_None. by left.
Qed.

Lemma take_back_fits sop st :
  undoes sop = true -> sop_ok nsems sop ->
  forall m, m_ok m -> Z.of_nat (size (of_proc pr m)) <= SEMUME ->
  tracks st0 (adj_step (pr, semid, sem_num sop) (- sem_op sop) m) st ->
  undo_map (semu_list st) !! (pr, semid, sem_num sop) = None ->
  forall su, su ∈ semu_list st -> un_proc su = pr -> Z.of_nat (un_cnt su) = SEMUME -> False.
Proof.
  intros Hu [Hnum Hop] m Hm Hsize [_ Hwf Hmap] Hnone su Hin Hpr Hfull.
  pose proof (of_proc_size _ _ _ Hwf Hin) as Hsz. rewrite Hpr in Hsz.
  destruct (sint16_op_nonzero _ Hop (undoes_op _ Hu)) as [_ Hneg].
  rewrite Hmap in Hnone, Hsz. set (k := (pr, semid, sem_num sop)) in *.
  assert (exists v, m !! k = Some v /\ adj_step k (- sem_op sop) m = delete k m) as (v & Hv & Hd).
  { unfold adj_step in *. destruct (_ =? 0) eqn:E; [|by rewrite lookup_insert_eq in Hnone].
    destruct (m !! k) as [v|]; [eauto|]. simpl in E. rewrite Z.add_0_l in E.
    by apply Z.eqb_eq in E. }
  rewrite Hd in Hsz. rewrite <- (insert_id m k v Hv), <- insert_delete_eq in Hsize.
  rewrite of_proc_grow in Hsize by (done || apply lookup_delete_eq). lia.
Qed.

Lemma undo_backward_spec done sup st :
  tracks st0 (after (rev done)) st -> Forall (sop_ok nsems) done -> fits (rev done) ->
  undo_stays pr semid (rev done) m0 ->
  (existsb undoes done = true -> exists b, sup = Some b /\ owns b pr (semu_list st)) ->
  exists st', undo_backward a None pr semid done sup st = Ret 0 st' /\ tracks st0 m0 st'.
Proof.
  revert sup st. induction done as [|sop done IH]; intros sup st Ht Hs Hf Hstay Hown.
  { simpl. eexists. split; [done|]. exact Ht. }
  simpl in Ht, Hf, Hstay. rewrite adj_all_snoc in Ht.
  pose proof (fits_before _ _ Hf) as Hf'. pose proof (stays_before _ _ _ Hstay) as Hstay'.
  inversion_clear Hs as [|? ? Hsop Hs']. simpl in Hown |- *.
  destruct (undoes sop) eqn:Hu; [|by apply IH].
  destruct Hown as (b & -> & Hown); [done|].
  pose proof Hsop as [Hnum Hop]. destruct (sint16_op_nonzero _ Hop (undoes_op _ Hu)) as [Hd _].
  destruct (semundo_adjust_spec a pr (Some b) semid (sem_num sop) (sem_op sop) st)
    as (e & sup' & st' & -> & Hres); [apply Ht|done|done|unfold is_short; lia|done|].
  destruct Hres as [(_ & _ & _ & ? & _)|(b' & -> & [?|[= <-]] & Hadj)]; [done|done|].
  destruct Hadj as [(_ & _ & Hnone & _ & su & Hin & Hpr & Hfull)|(-> & n' & l' & -> & Hwf' & Hmap' & Hown')].
  { exfalso. eapply take_back_fits; [exact Hu|exact Hsop| | |exact Ht|done..].
    - by apply adj_all_ok.
    - by apply (Hf' (rev done) []); rewrite app_nil_r. }
  destruct Ht as [Hrest Hwf Hmap]. rewrite Hmap, adj_step_back in Hmap' by (by apply adj_all_ok).
  simpl. apply IH; [|done..|].
  - constructor; simpl; [|done|done]. rewrite Hrest. done.
  - intros Hmore. exists b. split; [done|]. destruct Hown' as [?|Hnin]; [done|]. exfalso. apply Hnin.
    apply (undo_map_proc _ _ _ Hwf'). destruct (Hstay (rev done) [sop]) as (k & v & Hk & Hkp).
    + done.
    + apply existsb_exists in Hmore as (x & Hx & Hxu). apply existsb_exists. exists x.
      split; [|done]. by apply in_rev in Hx.
    + simpl. by rewrite Hu.
    + exists k, v. by rewrite Hmap'.
Qed.

(** The loop that records the adjustments, with [done] behind it: all of them
    are made, or none is. *)
Lemma undo_forward_spec todo done sup st :
  tracks st0 (after (rev done)) st -> Forall (sop_ok nsems) done -> Forall (sop_ok nsems) todo ->
  fits (rev done) -> undo_stays pr semid (rev done ++ todo) m0 ->
  (existsb undoes done = true ->
     exists b, sup = Some b /\ (owns b pr (semu_list st) \/ pr ∉ (un_proc <$> semu_list st))) ->
  (existsb undoes done = false -> sup = None /\ NoDup (un_addr <$> semu_list st)) ->
  (exists st', undo_forward a None pr semid done todo sup st = Ret 0 st' /\
     tracks st0 (after (rev done ++ todo)) st') \/
  (exists e st', undo_forward a None pr semid done todo sup st = Ret e st' /\
     (e = ENOSPC \/ e = EINVAL) /\ tracks st0 m0 st').
Proof.
  revert done sup st. induction todo as [|sop todo IH]; intros done sup st Ht Hs Hs' Hf Hstay H1 H0.
  { left. rewrite app_nil_r. eexists. split; done. }
  inversion_clear Hs' as [|? ? Hsop Hs'']. simpl.
  assert (Hsplit : rev done ++ sop :: todo = rev (sop :: done) ++ todo).
  { simpl. by rewrite <- app_assoc. }
  destruct (undoes sop) eqn:Hu.
  2:{ rewrite Hsplit. rewrite Hsplit in Hstay. apply IH; try done.
      - simpl. by rewrite adj_all_snoc, Hu.
      - by constructor.
      - eapply fits_snoc; [done|]. rewrite adj_all_snoc, Hu. done.
      - simpl. by rewrite Hu.
      - simpl. by rewrite Hu. }
  pose proof Hsop as [Hnum Hop]. destruct (sint16_op_nonzero _ Hop (undoes_op _ Hu)) as [_ Hd].
  assert (Hstart : cached sup pr (semu_list st) /\ (sup = None -> NoDup (un_addr <$> semu_list st)) /\
    (existsb undoes done = true -> exists b, sup = Some b)).
  { destruct (existsb undoes done) eqn:E.
    - destruct (H1 eq_refl) as (b & -> & Hb). split_and!; [|done|eauto]. simpl.
      destruct Hb as [?|Hnin]; [done|]. exfalso. apply Hnin.
      apply (undo_map_proc _ _ _ (t_wf _ _ _ Ht)).
      destruct (Hstay (rev done) (sop :: todo)) as (k & v & Hk & Hkp); [done| |simpl; by rewrite Hu|].
      + apply existsb_exists in E as (x & Hx & Hxu). apply existsb_exists. exists x.
        split; [|done]. by apply in_rev in Hx.
      + exists k, v. by rewrite (t_map _ _ _ Ht).
    - destruct (H0 eq_refl) as [-> ?]. done. }
  destruct Hstart as (Hc & Haddr & Hsome).
  destruct (semundo_adjust_spec a pr sup semid (sem_num sop) (- sem_op sop) st)
    as (e & sup' & st' & -> & Hres); [apply Ht|done|done|unfold is_short; lia|done|].
  assert (Hback : (existsb undoes done = true -> exists b, sup' = Some b /\ owns b pr (semu_list st)) ->
    exists st2, undo_backward a None pr semid done sup' st = Ret 0 st2 /\ tracks st0 m0 st2).
  { intros Ho. apply undo_backward_spec; try done.
    intros s1 s2 Hs12 Hu1 Hu2. eapply (Hstay s1 (s2 ++ sop :: todo)); [|done|].
    - by rewrite Hs12, <- app_assoc.
    - by rewrite existsb_app, Hu2. }
  destruct Hres as [(-> & -> & -> & Hsup & _)|(b & -> & Hb & Hadj)].
  { right. destruct Hback as (st2 & -> & Ht2).
    - intros E. destruct (Hsome E) as [b Hb]. by rewrite Hsup in Hb.
    - exists ENOSPC, st2. split_and!; [done|by left|done]. }
  destruct Hadj as [(-> & -> & Hnone & Hown & _)|(-> & n' & l' & -> & Hwf' & Hmap' & Hown')].
  { right. destruct Hback as (st2 & -> & Ht2); [by eauto|].
    exists EINVAL, st2. split_and!; [done|by right|done]. }
  assert (Ht' : tracks st0 (after (rev done ++ [sop])) (with_undos n' l' st)).
  { destruct Ht as [Hrest Hwf Hmap]. constructor; simpl; [by rewrite Hrest|done|].
    rewrite adj_all_snoc, Hu, <- Hmap. done. }
  simpl. rewrite Hsplit. rewrite Hsplit in Hstay. apply IH; try done.
  - by constructor.
  - by eapply fits_snoc.
  - intros _. exists b. done.
  - simpl. by rewrite Hu.
Qed.

End UndoLoops.
