(* ===== verification/SemInv.v ===== *)
(** * The invariant of the semaphore tables

    What makes the tables of sysv_sem.c well formed, and that every entry
    point keeps it: the count of semaphores in use is the sum over the sets,
    each process has at most one undo structure, with between one and SEMUME
    distinct entries, and every entry refers to a semaphore that exists - so
    that [semexit] never meets the conditions it panics on. *)

From stdpp Require Import base numbers list option gmap.
From Stdlib Require Import ZArith Lia Bool.
From S2P Require Import Prelude Sem SemFacts SemOps.

#[local] Set Warnings "-clear-no-such-hyp,-notation-for-abbreviation".

(** ** Well-formed tables *)

Record ds_wf (ds : semid_ds) : Prop := {
  dw_len : sem_nsems ds = Z.of_nat (length (sem_base ds));
  dw_max : 1 <= sem_nsems ds <= 32767;
  dw_seq : 0 <= seq (sem_perm ds) < 32768;
  dw_ok : base_ok (sem_base ds) }.

Definition nsems_of (d : option semid_ds) : Z :=
  match d with Some ds => sem_nsems ds | None => 0 end.

Definition total (l : list (option semid_ds)) : Z := foldr Z.add 0 (nsems_of <$> l).

(** Every adjustment is owed to a semaphore that exists. *)
Definition refs_ok (l : list (option semid_ds)) (m : gmap ukey Z) : Prop :=
  forall pr id num v, m !! (pr, id, num) = Some v ->
    0 <= id /\ exists ds, l !! Z.to_nat id = Some (Some ds) /\ 0 <= num < sem_nsems ds.

Record sem_wf (st : sstate) : Prop := {
  w_mni : 0 <= semmni (info st) <= 65535;
  w_msl : semmsl (info st) <= 32767;
  w_len : length (sema st) = Z.to_nat (semmni (info st));
  w_seqs : length (semseqs st) = Z.to_nat (semmni (info st));
  w_ds : forall ix ds, sema st !! ix = Some (Some ds) -> ds_wf ds;
  w_live : forall ix ds, sema st !! ix = Some (Some ds) ->
    semseqs st !! ix = Some (seq (sem_perm ds));
  w_tot : semtot st = total (sema st);
  w_undo : undo_wf (semu_list st) (semutot st);
  w_refs : refs_ok (sema st) (undo_map (semu_list st)) }.

(** ** Slots of the table *)

Lemma sema_at_Some ix st ds :
  sema_at ix st = Some ds <-> sema st !! Z.to_nat ix = Some (Some ds).
Proof. unfold sema_at. destruct (_ !! _) as [[?|]|]; simpl; split; congruence. Qed.

Lemma upd_ds_put ix f st ds :
  sema_at ix st = Some ds -> upd_ds ix f st = put_ds ix (Some (f ds)) st.
Proof.
  rewrite sema_at_Some. intros H. unfold upd_ds, put_ds. f_equal.
  apply list_eq. intros j. rewrite list_lookup_alter, list_lookup_insert.
  pose proof (lookup_lt_Some _ _ _ H).
  destruct (decide (Z.to_nat ix = j)) as [<-|Hne].
  - rewrite H, decide_True by lia. done.
  - rewrite decide_False by lia. done.
Qed.

Lemma put_ds_at ix d st ds :
  sema_at ix st = Some ds -> sema_at ix (put_ds ix d st) = d.
Proof.
  rewrite sema_at_Some. intros H. unfold sema_at, put_ds. simpl.
  rewrite list_lookup_insert_eq by (by eapply lookup_lt_Some). done.
Qed.

Lemma put_ds_put ix d d' st : put_ds ix d (put_ds ix d' st) = put_ds ix d st.
Proof. unfold put_ds. simpl. by rewrite list_insert_insert_eq. Qed.

Lemma put_ds_same ix st ds : sema_at ix st = Some ds -> put_ds ix (Some ds) st = st.
Proof.
  rewrite sema_at_Some. intros H. unfold put_ds. rewrite list_insert_id by done. by destruct st.
Qed.

Lemma with_base_same ds : with_base (sem_base ds) ds = ds.
Proof. by destruct ds. Qed.

(** Storing the rolled back values puts the set back as it was. *)
Lemma upd_same ix st ds base :
  sema_at ix st = Some ds -> base = sem_base ds -> upd_ds ix (with_base base) st = st.
Proof.
  intros H ->. rewrite (upd_ds_put _ _ _ _ H), with_base_same. by apply put_ds_same.
Qed.

Lemma live_ds_at ix st ds : sema_at ix st = Some ds -> live_ds ix (sem_addr ds) st = Some ds.
Proof. intros H. unfold live_ds. rewrite H. simpl. by rewrite option_guard_True. Qed.

Lemma total_cons d l : total (d :: l) = nsems_of d + total l.
Proof. done. Qed.

Lemma total_insert l i d d' :
  l !! i = Some d -> total (<[i := d']> l) = total l - nsems_of d + nsems_of d'.
Proof.
  revert i. induction l as [|x l IH]; intros [|i] H; simplify_eq/=.
  - rewrite !total_cons. lia.
  - rewrite !total_cons, (IH _ H). lia.
Qed.


(** ** Pieces of the state *)

Lemma wf_put ix st ds ds' :
  sem_wf st -> sema_at ix st = Some ds -> ds_wf ds' -> sem_nsems ds' = sem_nsems ds ->
  seq (sem_perm ds') = seq (sem_perm ds) -> sem_wf (put_ds ix (Some ds') st).
Proof.
  intros [Hmni Hmsl Hlen Hseqs Hds Hlive Htot Hundo Hrefs] Hat Hwf Hn Hq. apply sema_at_Some in Hat.
  pose proof (lookup_lt_Some _ _ _ Hat) as Hlt.
  constructor; simpl; try done.
  - by rewrite length_insert.
  - intros j d. rewrite list_lookup_insert.
    destruct (decide _) as [_|_]; [by intros [= <-]|by apply Hds].
  - intros j d. rewrite list_lookup_insert.
    destruct (decide _) as [[<- _]|_]; [intros [= <-]; rewrite Hq; by apply Hlive|by apply Hlive].
  - rewrite (total_insert _ _ _ _ Hat). simpl. lia.
  - intros pr id num v Hk. destruct (Hrefs _ _ _ _ Hk) as (Hid & d & Hd & Hnum).
    split; [done|]. rewrite list_lookup_insert.
    destruct (decide _) as [[He _]|_]; [|eauto].
    rewrite <- He in Hd. rewrite Hat in Hd. injection Hd as <-. exists ds'. split; [done|lia].
Qed.

Lemma wf_undos n l st :
  sem_wf st -> undo_wf l n -> refs_ok (sema st) (undo_map l) -> sem_wf (with_undos n l st).
Proof. intros [] ??. by constructor. Qed.

Lemma wf_wakeup ix st : sem_wf st -> sem_wf (wakeup ix st).
Proof. intros []. by constructor. Qed.

Lemma wf_base ds base :
  ds_wf ds -> length base = length (sem_base ds) -> base_ok base -> ds_wf (with_base base ds).
Proof. intros [] ??. constructor; simpl; try done. lia. Qed.

#[export] Hint Resolve wf_put wf_undos wf_wakeup wf_base : kernel.

Lemma seminit_wf i now :
  0 <= semmni i <= 65535 -> semmsl i <= 32767 -> sem_wf (seminit i now).
Proof.
  intros Hi Hm. constructor; simpl; try done.
  - by rewrite length_replicate.
  - by rewrite length_replicate.
  - intros ix ds H. apply lookup_replicate in H as [? _]. done.
  - intros ix ds H. apply lookup_replicate in H as [? _]. done.
  - induction (Z.to_nat (semmni i)); [done|]. simpl. rewrite total_cons. simpl. lia.
  - by repeat constructor.
Qed.

(** ** The undo structures *)

Lemma adj_step_keys k d m k' v :
  adj_step k d m !! k' = Some v -> k' = k \/ m !! k' = Some v.
Proof.
  unfold adj_step. destruct (_ =? 0).
  - rewrite lookup_delete_Some. naive_solver.
  - rewrite lookup_insert_Some. naive_solver.
Qed.

(** A set with a semaphore of that number. *)
Definition target (L : list (option semid_ds)) (semid semnum : Z) : Prop :=
  0 <= semid /\ exists ds, L !! Z.to_nat semid = Some (Some ds) /\ 0 <= semnum < sem_nsems ds.

Lemma refs_step L pr semid semnum d m :
  refs_ok L m -> target L semid semnum -> refs_ok L (adj_step (pr, semid, semnum) d m).
Proof.
  intros Hm Ht pr' id num v [[= -> -> ->]|Hk]%adj_step_keys; [exact Ht|by eapply Hm].
Qed.

(** Only the undo structures change, and they stay well formed. *)
Definition undo_kept (L : list (option semid_ds)) (st st' : sstate) : Prop :=
  exists n l, st' = with_undos n l st /\ undo_wf l n /\ refs_ok L (undo_map l).

Lemma undo_kept_refl L st :
  undo_wf (semu_list st) (semutot st) -> refs_ok L (undo_map (semu_list st)) -> undo_kept L st st.
Proof. intros. exists (semutot st), (semu_list st). by rewrite with_undos_same. Qed.

Lemma undo_kept_trans L st1 st2 st3 :
  undo_kept L st1 st2 -> undo_kept L st2 st3 -> undo_kept L st1 st3.
Proof. intros (n & l & -> & _) (n' & l' & -> & H). by exists n', l'. Qed.

Lemma adjusted_kept L a pr semid semnum d st st' e :
  undo_wf (semu_list st) (semutot st) -> refs_ok L (undo_map (semu_list st)) ->
  target L semid semnum -> adjusted a pr semid semnum d (semu_list st) st st' e ->
  undo_kept L st st'.
Proof.
  intros Hwf Hr Ht [(_ & -> & _)|(_ & n' & l' & -> & Hwf' & Hm & _)].
  - by apply undo_kept_refl.
  - exists n', l'. split_and!; [done|done|]. rewrite Hm. by apply refs_step.
Qed.

Lemma adjust_entry_kept L a semid semnum d st e st' :
  undo_wf (semu_list st) (semutot st) -> refs_ok L (undo_map (semu_list st)) ->
  target L semid semnum -> is_short semnum -> sint 16 d <> 0 ->
  adjust_entry a semid semnum d st = Some (e, st') -> undo_kept L st st'.
Proof.
  intros Hwf Hr Ht Hnum Hd Hadj.
  destruct (find_addr a (semu_list st)) as [[k su]|] eqn:Hf.
  2:{ unfold adjust_entry in Hadj. by rewrite Hf in Hadj. }
  assert (Ho : owns a (un_proc su) (semu_list st)).
  { unfold find_addr in Hf. apply list_find_Some in Hf as (Hk & Ha & Hfirst).
    exists (take k (semu_list st)), su, (drop (S k) (semu_list st)).
    split_and!; [symmetry; by apply take_drop_middle| |done|done].
    intros (x & Hx & Hin)%list_elem_of_fmap. apply list_elem_of_lookup in Hin as [j Hj].
    apply lookup_take_Some in Hj as [Hj Hlt]. by apply (Hfirst j x). }
  destruct (adjust_owned a _ semid semnum d st Hwf Ho Hnum Hd) as (e' & s' & Hadj' & Hres).
  rewrite Hadj in Hadj'. injection Hadj' as <- <-. by eapply adjusted_kept.
Qed.

Lemma semundo_adjust_kept L a pr sup semid semnum d st e sup' st' :
  undo_wf (semu_list st) (semutot st) -> refs_ok L (undo_map (semu_list st)) ->
  target L semid semnum -> is_short semnum -> sint 16 d <> 0 ->
  semundo_adjust a None pr sup semid semnum d st = Some (e, sup', st') -> undo_kept L st st'.
Proof.
  intros Hwf Hr Ht Hnum Hd. unfold semundo_adjust.
  assert (Hentry : forall b, ('(e, s) ← adjust_entry b semid semnum d st; Some (e, Some b, s)) =
      Some (e, sup', st') -> undo_kept L st st').
  { intros b. destruct (adjust_entry b semid semnum d st) as [[e1 s1]|] eqn:Ha; [|done].
    simpl. intros [= <- <- <-]. by eapply adjust_entry_kept. }
  destruct sup as [b|]; [apply Hentry|].
  pose proof (find_proc_mid pr (semu_list st)) as Hf.
  destruct (find_proc pr (semu_list st)) as [su|]; [apply Hentry|].
  destruct (d =? 0); [intros [= <- <- <-]; by apply undo_kept_refl|].
  unfold semu_alloc. destruct (_ =? _); [intros [= <- <- <-]; by apply undo_kept_refl|].
  simpl. set (st1 := with_undos _ (_ :: _) _). destruct Hwf as [Htot Hprocs Heach].
  destruct (adjust_entry_spec a semid semnum d st1 [] (mkSu a pr []) (semu_list st))
    as (e1 & s1 & -> & Hadj); try done.
  - simpl. lia.
  - simpl. by constructor.
  - constructor; simpl; [unfold un_cnt, SEMUME; simpl; lia|constructor|constructor].
  - apply not_elem_of_nil.
  - simpl. intros [= <- <- <-].
    destruct Hadj as [(_ & _ & _ & _ & su & Hin & Hsp & Hcnt)|(_ & n' & l' & -> & Hw & Hm & _)].
    + exfalso. simpl in Hin, Hsp. apply elem_of_cons in Hin as [->|Hin].
      * unfold un_cnt, SEMUME in Hcnt. simpl in Hcnt. lia.
      * apply Hf. apply list_elem_of_fmap. eauto.
    + exists n', l'. split_and!; [done|done|]. rewrite Hm. by apply refs_step.
Qed.

(** ** semop *)

(** A [struct sembuf]: an unsigned short, a short and flags. *)
Definition sop_typed (sop : sembuf) : Prop := 0 <= sem_num sop /\ is_short (sem_op sop).

Lemma undo_kept_wf L st st' :
  undo_kept L st st' ->
  undo_wf (semu_list st') (semutot st') /\ refs_ok L (undo_map (semu_list st')).
Proof. by intros (n & l & -> & H). Qed.

Lemma undo_backward_kept L a pr semid nsems done sup st e st' :
  (forall n, 0 <= n < nsems -> target L semid n) -> nsems <= 32767 ->
  Forall (sop_ok nsems) done ->
  undo_wf (semu_list st) (semutot st) -> refs_ok L (undo_map (semu_list st)) ->
  undo_backward a None pr semid done sup st = Ret e st' -> undo_kept L st st'.
Proof.
  intros Ht Hns Hs. revert sup st. induction Hs as [|sop done [Hn Hop] Hs IH]; intros sup st Hw Hr; simpl.
  { intros [= <- <-]. by apply undo_kept_refl. }
  destruct (undoes sop) eqn:Hu; [|by apply IH].
  destruct (sint16_op_nonzero _ Hop (undoes_op _ Hu)) as [Hd _].
  destruct (semundo_adjust _ _ _ _ _ _ _ _) as [[[e1 s1] st1]|] eqn:Ha; [|done].
  destruct (negb _); [done|]. intros Hb.
  apply (semundo_adjust_kept L) in Ha; [|done|done|by apply Ht|unfold is_short; lia|done].
  eapply undo_kept_trans; [exact Ha|]. destruct (undo_kept_wf _ _ _ Ha). by eapply IH.
Qed.

Lemma undo_forward_kept L a pr semid nsems done todo sup st e st' :
  (forall n, 0 <= n < nsems -> target L semid n) -> nsems <= 32767 ->
  Forall (sop_ok nsems) done -> Forall (sop_ok nsems) todo ->
  undo_wf (semu_list st) (semutot st) -> refs_ok L (undo_map (semu_list st)) ->
  undo_forward a None pr semid done todo sup st = Ret e st' -> undo_kept L st st'.
Proof.
  intros Ht Hns Hdone Hs. revert done sup st Hdone.
  induction Hs as [|sop todo [Hn Hop] Hs IH]; intros done sup st Hdone Hw Hr; simpl.
  { intros [= <- <-]. by apply undo_kept_refl. }
  assert (Hd' : Forall (sop_ok nsems) (sop :: done)) by (by constructor).
  destruct (undoes sop) eqn:Hu; [|by apply IH].
  destruct (sint16_op_nonzero _ Hop (undoes_op _ Hu)) as [_ Hd].
  destruct (semundo_adjust _ _ _ _ _ _ _ _) as [[[e1 s1] st1]|] eqn:Ha; [|done].
  apply (semundo_adjust_kept L) in Ha; [|done|done|by apply Ht|unfold is_short; lia|done].
  destruct (undo_kept_wf _ _ _ Ha). destruct (e1 =? 0).
  - intros Hf. eapply undo_kept_trans; [exact Ha|]. by eapply IH.
  - destruct (undo_backward _ _ _ _ _ _ _) as [e2 st2| | |] eqn:Hb; [|done..]. intros [= <- <-].
    eapply undo_kept_trans; [exact Ha|]. 
    eapply undo_backward_kept; [exact Ht|exact Hns|exact Hdone|done|done|exact Hb].
Qed.

(** Whatever the vector, a scan only changes semaphore values. *)
Definition scan_shape (nsems : Z) (n : nat) (sops : list sembuf) (r : scan) : Prop :=
  match r with
  | ScanAll base _ _ =>
      length base = n /\ base_ok base /\ Forall (fun sop => sem_num sop < nsems) sops
  | ScanFbig base | ScanBreak _ _ base _ => length base = n /\ base_ok base
  | ScanBad => True
  end.

Lemma semop_scan_shape nsems i sops base w u :
  base_ok base -> scan_shape nsems (length base) sops (semop_scan nsems i sops base w u).
Proof.
  revert i base w u. induction sops as [|sop sops IH]; intros i base w u Hok; simpl; [done|].
  destruct (sem_num sop >=? nsems) eqn:Hn; [done|].
  rewrite Z.geb_leb in Hn. apply Z.leb_gt in Hn.
  destruct (base !! _) as [s|]; [|done].
  assert (Hcont : forall base', base_ok base' -> length base' = length base -> forall w u,
    scan_shape nsems (length base) (sop :: sops) (semop_scan nsems (S i) sops base' w u)).
  { intros base' Hok' Hlen w' u'. specialize (IH (S i) base' w' u' Hok').
    rewrite Hlen in IH. unfold scan_shape in *. destruct (semop_scan _ _ _ _ _ _); [|done..].
    destruct IH as (? & ? & ?). split_and!; [done|done|]. by constructor. }
  assert (Hadd : base_ok (add_semval (sem_num sop) (sem_op sop) base) /\
    length (add_semval (sem_num sop) (sem_op sop) base) = length base).
  { split; [by apply base_ok_add|apply add_semval_length]. }
  destruct Hadd. destruct (sem_op sop <? 0).
  - destruct (_ <? 0); [done|]. by apply Hcont.
  - destruct (_ =? 0); [destruct (_ >? 0); [done|by apply Hcont]|by apply Hcont].
Qed.

Lemma rollback_shape sops base :
  base_ok base -> length (rollback sops base) = length base /\ base_ok (rollback sops base).
Proof.
  revert base. induction sops as [|sop sops IH]; intros base Hok; [done|]. simpl.
  destruct (IH _ (base_ok_add (sem_num sop) (- sem_op sop) base Hok)) as [H1 H2].
  split; [|done]. by rewrite H1, add_semval_length.
Qed.

Lemma set_pids_shape pid sops base :
  base_ok base -> length (set_pids pid sops base) = length base /\ base_ok (set_pids pid sops base).
Proof.
  revert base. induction sops as [|sop sops IH]; intros base Hok; [done|]. simpl.
  destruct (IH (alter (set_sempid pid) (Z.to_nat (sem_num sop)) base)) as [H1 H2].
  - by apply Forall_alter.
  - split; [|done]. by rewrite H1, length_alter.
Qed.

Lemma wf_upd_base ix st ds f :
  sem_wf st -> sema_at ix st = Some ds ->
  (base_ok (sem_base ds) -> length (f (sem_base ds)) = length (sem_base ds) /\ base_ok (f (sem_base ds))) ->
  sem_wf (upd_ds ix (fun ds => with_base (f (sem_base ds)) ds) st).
Proof.
  intros Hwf Hat Hf. rewrite (upd_ds_put _ _ _ _ Hat).
  assert (Hd : ds_wf ds) by (eapply w_ds; [exact Hwf|by apply sema_at_Some]).
  destruct (Hf (dw_ok _ Hd)). apply (wf_put ix st ds); [done|done|by apply wf_base|done|done].
Qed.

Lemma wf_bump ix st ds d sop :
  sem_wf st -> sema_at ix st = Some ds -> sem_wf (upd_ds ix (bump d sop) st).
Proof.
  intros Hwf Hat. unfold bump. eapply (wf_upd_base ix st ds (fun b => alter _ _ b)); [done|done|].
  intros Hok. rewrite length_alter. split; [done|]. apply Forall_alter; [done|].
  intros s _ Hs. by destruct (_ =? 0).
Qed.

(** The state a call leaves behind, returned or asleep, is well formed. *)
Definition outcome_wf (o : outcome) : Prop :=
  match o with Ret _ st | Asleep st => sem_wf st | Panicked | Freed => True end.

Lemma live_ds_Some ix sa st ds : live_ds ix sa st = Some ds -> sema_at ix st = Some ds /\ sem_addr ds = sa.
Proof.
  unfold live_ds. destruct (sema_at ix st) as [d|]; [|done]. simpl.
  destruct (decide (sem_addr d = sa)) as [H|H].
  - rewrite option_guard_True by done. simpl. by intros [= ->].
  - by rewrite option_guard_False.
Qed.

Lemma undo_backward_awake a slept pr semid past sup st s :
  undo_backward a slept pr semid past sup st <> Asleep s.
Proof.
  revert sup st. induction past as [|sop past IH]; intros sup st; simpl; [done|].
  destruct (undoes sop); [|apply IH].
  destruct (semundo_adjust _ _ _ _ _ _ _ _) as [[[e s'] st']|]; [|done].
  destruct (negb _); [done|apply IH].
Qed.

Lemma undo_forward_awake a slept pr semid past todo sup st s :
  undo_forward a slept pr semid past todo sup st <> Asleep s.
Proof.
  revert past sup st. induction todo as [|sop todo IH]; intros past sup st; simpl; [done|].
  destruct (undoes sop); [|apply IH].
  destruct (semundo_adjust _ _ _ _ _ _ _ _) as [[[e s'] st']|]; [|done].
  destruct (_ =? 0); [apply IH|].
  pose proof (undo_backward_awake a slept pr semid past s' st') as Hb.
  by destruct (undo_backward _ _ _ _ _ _ _).
Qed.

Lemma semop_done_wf a pr pid ix sa sops w n st ds :
  0 <= ix -> sem_wf st -> sema_at ix st = Some ds -> Forall (sop_ok (sem_nsems ds)) sops ->
  outcome_wf (semop_done a None pr pid ix sa sops w n st).
Proof.
  intros Hix Hwf Hat Hs. unfold semop_done.
  set (o := if n =? 0 then _ else _).
  assert (Ho : forall e s, o = Ret e s -> undo_kept (sema st) st s).
  { intros e s. unfold o. destruct (n =? 0).
    - intros [= <- <-]. apply undo_kept_refl; apply Hwf.
    - intros Hf. assert (Hd : ds_wf ds) by (eapply w_ds; [exact Hwf|by apply sema_at_Some]).
      eapply (undo_forward_kept _ _ _ _ (sem_nsems ds)); [| | |exact Hs|apply Hwf|apply Hwf|exact Hf].
      + intros num Hnum. split; [done|]. exists ds. split; [by apply sema_at_Some|done].
      + apply Hd.
      + constructor. }
  assert (Hna : forall s, o <> Asleep s).
  { intros s. unfold o. destruct (n =? 0); [done|apply undo_forward_awake]. }
  destruct o as [e s|s| |]; [|by destruct (Hna s)|done|done].
  destruct (Ho e s eq_refl) as (k & l & -> & Hw & Hr).
  assert (Hwf' : sem_wf (with_undos k l st)) by (by apply wf_undos).
  destruct (live_ds ix sa (with_undos k l st)) as [d|] eqn:Hlive; [|done].
  apply live_ds_Some in Hlive as [Hat' _]. destruct (negb _); simpl.
  - eapply wf_upd_base; [done|exact Hat'|]. apply rollback_shape.
  - set (st1 := upd_ds _ _ _). assert (sem_wf st1).
    { unfold st1. rewrite (upd_ds_put _ _ _ _ Hat').
      assert (Hd : ds_wf d) by (eapply w_ds; [exact Hwf'|by apply sema_at_Some]).
      destruct (set_pids_shape pid sops (sem_base d) (dw_ok _ Hd)) as [Hl Hb].
      eapply wf_put; [done|exact Hat'| |done|done].
      destruct Hd. constructor; simpl; try done. lia. }
    destruct w; [by apply wf_wakeup|done].
Qed.

(** One round of the [for (;;)]: how it continues when it has to wait is
    [go], given the state and the undo count. *)
Definition semop_round (a : nat) (slept : option (sstate -> sstate)) (pr pid semid : Z) (sa : nat)
    (sops : list sembuf) (do_undos : Z) (st : sstate)
    (go : sembuf -> Z -> sstate -> outcome) : outcome :=
  match live_ds semid sa st with
  | None => Freed
  | Some ds =>
      match semop_scan (sem_nsems ds) 0 sops (sem_base ds) false do_undos with
      | ScanBad => Freed
      | ScanFbig base => Ret EFBIG (upd_ds semid (with_base base) st)
      | ScanAll base do_wakeup do_undos =>
          if do_undos <=? SEMUME then
            semop_done a slept pr pid semid sa sops do_wakeup do_undos
              (upd_ds semid (with_base base) st)
          else Ret ENOSPC (upd_ds semid (with_base (rollback sops base)) st)
      | ScanBreak i sop base do_undos =>
          let st := upd_ds semid (with_base (rollback (take i sops) base)) st in
          if do_undos >? SEMUME then Ret ENOSPC st
          else if has (sem_flg sop) IPC_NOWAIT then Ret EAGAIN st
          else go sop do_undos (upd_ds semid (bump 1 sop) st)
      end
  end.

Lemma semop_loop_round a slept pr pid semid q sa sops wakes n st :
  semop_loop a slept pr pid semid q sa sops wakes n st =
  semop_round a slept pr pid semid sa sops n st (fun sop n st =>
    match wakes with
    | [] => Asleep st
    | (others, error) :: wakes =>
        match sema_at semid (others st) with
        | None => Ret EIDRM (others st)
        | Some ds =>
            if negb (bool_decide (sem_addr ds = sa)) then Freed
            else if negb (seq (sem_perm ds) =? q) then Ret EIDRM (others st)
            else if negb (error =? 0) then Ret EINTR (upd_ds semid (bump (-1) sop) (others st))
            else semop_loop a slept pr pid semid q sa sops wakes n
                   (upd_ds semid (bump (-1) sop) (others st))
        end
    end).
Proof. by destruct wakes as [|[others error] wakes]. Qed.

Lemma semop_round_wf a pr pid ix sa sops n st go :
  0 <= ix -> sem_wf st -> Forall sop_typed sops ->
  (forall sop n s, sem_wf s -> outcome_wf (go sop n s)) ->
  outcome_wf (semop_round a None pr pid ix sa sops n st go).
Proof.
  intros Hix Hwf Hty Hgo. unfold semop_round.
  destruct (live_ds ix sa st) as [ds|] eqn:Hlive; [|done]. apply live_ds_Some in Hlive as [Hat _].
  assert (Hd : ds_wf ds) by (eapply w_ds; [exact Hwf|by apply sema_at_Some]).
  pose proof (semop_scan_shape (sem_nsems ds) 0 sops (sem_base ds) false n (dw_ok _ Hd)) as Hsh.
  assert (Hput : forall base, length base = length (sem_base ds) -> base_ok base ->
    sem_wf (upd_ds ix (with_base base) st)).
  { intros base Hl Hb. by apply (wf_upd_base ix st ds (fun _ => base)). }
  destruct (semop_scan _ _ _ _ _ _) as [base w u|base|j sop base u|]; simpl in Hsh; try done.
  - destruct Hsh as (Hl & Hb & Hrange). destruct (_ <=? SEMUME).
    + eapply (semop_done_wf _ _ _ _ _ _ _ _ _ (with_base base ds)); [done|by apply Hput| |].
      * rewrite (upd_ds_put _ _ _ _ Hat). by eapply put_ds_at.
      * simpl. rewrite Forall_forall in Hty. rewrite Forall_forall in Hrange.
        apply Forall_forall. intros x Hx. destruct (Hty x Hx). split; [|done]. split; [done|by apply Hrange].
    + destruct (rollback_shape sops base Hb). simpl. apply Hput; [congruence|done].
  - apply Hput; apply Hsh.
  - destruct Hsh as [Hl Hb]. destruct (rollback_shape (take j sops) base Hb) as [Hl' Hb'].
    set (st1 := upd_ds ix _ st).
    assert (Hwf1 : sem_wf st1) by (apply Hput; [congruence|done]).
    cbv zeta. destruct (_ >? SEMUME); [done|]. destruct (has _ _); [done|].
    apply Hgo. eapply wf_bump; [done|]. unfold st1. rewrite (upd_ds_put _ _ _ _ Hat).
    by eapply put_ds_at.
Qed.

(** What the others do during a sleep keeps the invariant. *)
Definition keeps_wf (w : (sstate -> sstate) * Z) : Prop := forall s, sem_wf s -> sem_wf (w.1 s).

Lemma semop_loop_wf a pr pid ix q sa sops wakes n st :
  0 <= ix -> sem_wf st -> Forall sop_typed sops -> Forall keeps_wf wakes ->
  outcome_wf (semop_loop a None pr pid ix q sa sops wakes n st).
Proof.
  intros Hix Hwf Hty Hwakes. revert n st Hwf.
  induction Hwakes as [|[others err] wakes Hother Hwakes IH]; intros n st Hwf;
    rewrite semop_loop_round; apply semop_round_wf; try done.
  intros sop n' s Hs. apply Hother in Hs. simpl in Hs.
  destruct (sema_at ix (others s)) as [d2|] eqn:Hat2; [|done].
  destruct (negb _); [done|]. destruct (negb _); [done|].
  pose proof (wf_bump ix _ d2 (-1) sop Hs Hat2) as Hwf3.
  destruct (negb _); [done|]. by apply IH.
Qed.

Lemma IPCID_TO_IX_nonneg id : 0 <= IPCID_TO_IX id.
Proof. unfold IPCID_TO_IX. apply Z.land_nonneg. lia. Qed.

Lemma sys_semop_wf a slept0 wakes cred pr pid id n sops st :
  sem_wf st -> sem_wf (slept0 st) -> Forall keeps_wf wakes ->
  (forall l, sops = inr l -> Forall sop_typed l) ->
  outcome_wf (sys_semop a None slept0 wakes cred pr pid id n sops st).
Proof.
  intros Hwf Hwf0 Hwakes Hty. unfold sys_semop.
  destruct (_ || _); [done|]. destruct (sema_at _ st) as [ds|]; [|done].
  destruct (negb _); [done|]. cbv zeta. destruct (negb _); [done|]. destruct (_ =? 0); [done|].
  destruct (_ >? _); [done|]. destruct sops as [e|l]; [done|].
  apply semop_loop_wf; [apply IPCID_TO_IX_nonneg|done|by apply Hty|done].
Qed.

(** ** semexit *)

(** Every entry of [ents] refers to a semaphore that exists. *)
Definition ents_ok (L : list (option semid_ds)) (ents : list undo) : Prop :=
  Forall (fun e => target L (un_id e) (un_num e)) ents.

Lemma target_put ix st ds ds' id num :
  sema_at ix st = Some ds -> sem_nsems ds' = sem_nsems ds ->
  target (sema st) id num -> target (sema (put_ds ix (Some ds') st)) id num.
Proof.
  intros Hat Hn (Hid & d & Hd & Hnum). split; [done|]. simpl. rewrite list_lookup_insert.
  destruct (decide _) as [[He Hlt]|_]; [|eauto].
  apply sema_at_Some in Hat. rewrite He, Hd in Hat. injection Hat as ->.
  exists ds'. split; [done|lia].
Qed.

Lemma apply_undos_wf ents st :
  sem_wf st -> ents_ok (sema st) ents ->
  exists st', apply_undos ents st = Some st' /\ sem_wf st' /\
    semu_list st' = semu_list st /\ semutot st' = semutot st.
Proof.
  revert st. induction ents as [|e ents IH]; intros st Hwf Hok; [by exists st|].
  inversion_clear Hok as [|? ? (Hid & ds & Hd & Hnum) Hents]. simpl.
  assert (Hat : sema_at (un_id e) st = Some ds) by (by apply sema_at_Some). rewrite Hat.
  assert (Hdw : ds_wf ds) by (by eapply w_ds).
  replace (un_num e >=? sem_nsems ds) with false
    by (symmetry; rewrite Z.geb_leb; apply Z.leb_gt; lia).
  destruct (lookup_lt_is_Some_2 (sem_base ds) (Z.to_nat (un_num e))) as [s ->].
  { destruct Hdw. lia. }
  set (base := alter _ _ _). set (st1 := wakeup _ _).
  assert (Hn1 : sem_nsems (with_base base ds) = sem_nsems ds) by done.
  destruct (IH st1) as (st' & -> & Hwf' & Hl & Ht).
  - apply wf_wakeup. eapply wf_put; [done|exact Hat| |done|done].
    apply wf_base; [done|apply length_alter|]. apply Forall_alter; [apply Hdw|].
    intros. apply u16_range.
  - eapply Forall_impl; [exact Hents|]. intros e0 Hx.
    exact (target_put _ _ _ _ _ _ Hat Hn1 Hx).
  - exists st'. done.
Qed.

(** [semexit] never panics on a well-formed state. *)
Lemma semexit_wf pr st :
  sem_wf st -> exists st', semexit pr st = Some st' /\ sem_wf st'.
Proof.
  intros Hwf. unfold semexit.
  destruct (list_find _ _) as [[k su]|] eqn:Hf; [|by exists st].
  apply list_find_Some in Hf as (Hk & Hpr & _).
  pose proof (list_elem_of_lookup_2 _ _ _ Hk) as Hin.
  destruct (apply_undos_wf (un_ent su) st Hwf) as (st' & -> & Hwf' & Hl & Ht).
  { apply Forall_forall. intros e He. apply (w_refs _ Hwf (un_proc su) _ _ (un_adjval e)).
    apply (undo_map_Some _ (semutot st)); [apply Hwf|]. apply list_elem_of_bind.
    exists su. split; [|done]. apply list_elem_of_fmap. by exists e. }
  simpl. eexists. split; [done|].
  rewrite Hl, Ht.
  pose proof (take_drop_middle _ _ _ Hk) as Hmid.
  set (l1 := take k (semu_list st)) in *. set (l2 := drop (S k) (semu_list st)) in *.
  assert (Hlen1 : length l1 = k).
  { apply length_take_le. apply lookup_lt_Some in Hk. lia. }
  assert (Hdel : delete k (semu_list st) = l1 ++ l2).
  { rewrite <- Hmid, <- Hlen1. apply delete_middle. }
  pose proof (w_undo _ Hwf) as Huw. rewrite <- Hmid in Huw.
  assert (Hwf2 : undo_wf (l1 ++ l2) (semutot st - 1)).
  { destruct Huw as [H1 H2 H3]. apply (remove_wf l1 su l2); [done|done|].
    apply Forall_app in H3 as [H3 H4]. inversion_clear H4. by apply Forall_app. }
  rewrite Hdel. apply wf_undos; [done|done|].
  intros pr' id num v Hv. apply (w_refs _ Hwf' pr' id num v). rewrite Hl, <- Hmid.
  apply (undo_map_Some _ _ _ _ Hwf2) in Hv. apply (undo_map_Some _ _ _ _ Huw).
  rewrite rows_mid. apply elem_of_app. by right.
Qed.

(** ** semctl *)

Lemma clear_keeps semid semnum st :
  undo_wf (semu_list st) (semutot st) ->
  exists n l, semundo_clear semid semnum st = with_undos n l st /\ undo_wf l n /\
    (forall k v, undo_map l !! k = Some v -> undo_map (semu_list st) !! k = Some v) /\
    (semnum = -1 -> forall k v, undo_map l !! k = Some v -> k.1.2 <> semid).
Proof.
  intros Hwf. unfold semundo_clear. pose proof (clear_list_spec semid semnum _ _ Hwf) as Hc.
  destruct (clear_list _ _ _ _) as [l n]. destruct Hc as (Hw & _ & _ & (gone & Hg & _) & Hall).
  exists n, l. split_and!; [done|done| |].
  - intros k v Hk. apply (undo_map_Some _ _ _ _ Hw) in Hk. apply (undo_map_Some _ _ _ _ Hwf).
    rewrite Hg. apply elem_of_app. by right.
  - intros Hm k v Hk. apply (undo_map_Some _ _ _ _ Hw) in Hk. specialize (Hall Hm).
    rewrite Forall_forall in Hall. by apply (Hall (k, v)).
Qed.

Lemma clear_wf semid semnum st : sem_wf st -> sem_wf (semundo_clear semid semnum st).
Proof.
  intros Hwf. destruct (clear_keeps semid semnum st (w_undo _ Hwf)) as (n & l & -> & Hw & Hk & _).
  apply wf_undos; [done|done|]. intros pr id num v Hv. by eapply (w_refs _ Hwf), Hk.
Qed.

Lemma remove_set_wf ix st ds :
  0 <= ix -> sem_wf st -> sema_at ix st = Some ds ->
  sem_wf (semundo_clear ix (-1) (put_ds ix None (with_semtot (semtot st - sem_nsems ds) st))).
Proof.
  intros Hix Hwf Hat. set (st1 := put_ds ix None _).
  destruct (clear_keeps ix (-1) st1 (w_undo _ Hwf)) as (n & l & -> & Hw & Hk & Hne).
  apply sema_at_Some in Hat. destruct Hwf as [Hmni Hmsl Hlen Hseqs Hds Hlive Htot Hundo Hrefs].
  constructor; simpl; try done.
  - by rewrite length_insert.
  - intros j d. rewrite list_lookup_insert. destruct (decide _); [done|apply Hds].
  - intros j d. rewrite list_lookup_insert. destruct (decide _); [done|apply Hlive].
  - rewrite (total_insert _ _ _ _ Hat). simpl. lia.
  - intros pr id num v Hv. specialize (Hne eq_refl _ _ Hv). simpl in Hne.
    destruct (Hrefs _ _ _ _ (Hk _ _ Hv)) as (Hid & d & Hd & Hnum). split; [done|].
    exists d. split; [|done]. rewrite list_lookup_insert_ne by lia. done.
Qed.

Lemma setall_length arg vmx i n vs : setall_loop arg vmx i n = inr vs -> length vs = n.
Proof.
  revert i vs. induction n as [|n IH]; intros i vs; simpl; [by intros [= <-]|].
  destruct (in_array arg i); [done|]. destruct (_ >? _); [done|].
  destruct (setall_loop arg vmx (S i) n) eqn:E; [done|]. intros [= <-]. simpl. by erewrite IH.
Qed.

(** What a call leaves behind, if it does not use freed memory. *)
Definition ctl_wf {A} (r : option (A * sstate)) : Prop :=
  match r with Some (_, st) => sem_wf st | None => True end.

Lemma semctl1_wf slept cred semid semnum cmd arg st :
  sem_wf st -> sem_wf (slept st) -> ctl_wf (semctl1 slept cred semid semnum cmd arg st).
Proof.
  intros Hwf Hsl. unfold semctl1. pose proof (IPCID_TO_IX_nonneg semid) as Hix.
  destruct (_ || _); [done|]. destruct (sema_at _ st) as [ds|] eqn:Hat; [|done].
  assert (Hset : forall s d base n, sem_wf s -> sema_at (IPCID_TO_IX semid) s = Some d ->
    length base = length (sem_base d) -> base_ok base ->
    sem_wf (wakeup (IPCID_TO_IX semid) (semundo_clear (IPCID_TO_IX semid) n
      (put_ds (IPCID_TO_IX semid) (Some (with_base base d)) s)))).
  { intros s d base n Hs Hd Hl Hb. apply wf_wakeup, clear_wf.
    eapply wf_put; [done|exact Hd| |done|done]. apply wf_base; [|done|done].
    eapply w_ds; [exact Hs|by apply sema_at_Some]. }
  destruct (negb _); [done|]. cbv zeta.
  destruct (cmd =? IPC_RMID).
  { destruct (negb _); [done|]. simpl. apply wf_wakeup. by apply remove_set_wf. }
  destruct (cmd =? IPC_SET).
  { destruct (negb _); [done|]. destruct (in_buf arg); [done|].
    destruct (live_ds _ _ _) as [d|] eqn:Hl; [|done]. apply live_ds_Some in Hl as [Hd _]. simpl.
    eapply wf_put; [done|exact Hd| |done|done].
    apply sema_at_Some, (w_ds _ Hsl) in Hd. destruct Hd. by constructor. }
  destruct (cmd =? IPC_STAT). { destruct (negb _); [done|]. by destruct (negb _). }
  destruct (cmd =? GETNCNT); [done|]. destruct (cmd =? GETPID); [done|]. destruct (cmd =? GETVAL); [done|].
  destruct (cmd =? GETALL). { destruct (negb _); [done|]. by destruct (getall_loop _ _ _). }
  destruct (cmd =? GETZCNT); [done|].
  destruct (cmd =? SETVAL).
  { destruct (negb _); [done|]. destruct (_ || _); [done|]. destruct (_ >? _); [done|]. simpl.
    apply Hset; [done|done|apply length_alter|]. apply Forall_alter; [|intros; apply u16_range].
    eapply dw_ok, w_ds; [exact Hwf|by apply sema_at_Some]. }
  destruct (cmd =? SETALL); [|done].
  destruct (negb _); [done|]. destruct (live_ds _ _ _) as [d|] eqn:Hl; [|done].
  apply live_ds_Some in Hl as [Hd _]. destruct (_ >? _); [done|].
  destruct (setall_loop _ _ _ _) as [e|vs] eqn:E; [done|]. simpl.
  apply setall_length in E. apply Hset; [done|done| |].
  - rewrite length_zip_with. apply sema_at_Some, (w_ds _ Hsl) in Hd. destruct Hd. lia.
  - apply Forall_forall. intros x Hx. apply elem_of_zip_with in Hx as (s & v & -> & _).
    apply u16_range.
Qed.

(** ** semget *)

Lemma land_32767 x : 0 <= Z.land x 32767 < 32768.
Proof. change 32767 with (Z.ones 15). rewrite Z.land_ones by lia. apply Z.mod_pos_bound. lia. Qed.

Lemma semget_alloc_wf a cred k nsems flg st :
  sem_wf st -> 1 <= nsems <= 32767 -> sem_wf (semget_alloc a cred k nsems flg st).2.
Proof.
  intros Hwf Hn. unfold semget_alloc.
  destruct (list_find is_free (sema st)) as [[ix d]|] eqn:Hf; [|done].
  apply list_find_Some in Hf as (Hix & Hd & _). unfold is_free in Hd. subst d.
  destruct Hwf as [Hmni Hmsl Hlen Hseqs Hds Hlive Htot Hundo Hrefs].
  constructor; simpl; rewrite ?Nat2Z.id; try done.
  - by rewrite length_insert.
  - by rewrite length_insert.
  - intros j d. rewrite list_lookup_insert. destruct (decide _); [|apply Hds].
    intros [= <-]. constructor; simpl; [rewrite length_replicate; lia|done|apply land_32767|].
    apply Forall_replicate. simpl. lia.
  - intros j d. rewrite list_lookup_insert. destruct (decide _) as [[<- _]|Hne].
    + intros [= <-]. simpl. apply list_lookup_insert_eq.
      apply lookup_lt_Some in Hix. lia.
    + intros Hj. rewrite list_lookup_insert_ne; [by apply Hlive|]. intros ->. apply Hne.
      split; [done|]. by eapply lookup_lt_Some.
  - rewrite (total_insert _ _ _ _ Hix). simpl. lia.
  - intros pr id num v Hv. destruct (Hrefs _ _ _ _ Hv) as (Hid & d & Hd & Hnum).
    split; [done|]. exists d. split; [|done]. rewrite list_lookup_insert_ne; [done|].
    intros ->. by rewrite Hix in Hd.
Qed.

Lemma sys_semget_wf a slept cred k nsems flg st :
  sem_wf st -> sem_wf (slept st) -> sem_wf (sys_semget a slept cred k nsems flg st).2.
Proof.
  intros Hwf Hsl. pose proof (w_msl _ Hwf) as Hmsl. unfold sys_semget.
  set (creat := (k =? IPC_PRIVATE) || has flg IPC_CREAT).
  destruct (creat && ((nsems <=? 0) || (nsems >? semmsl (info st)))) eqn:Hr; [done|].
  destruct (creat && (nsems >? _)); [done|]. cbv zeta. set (st1 := if creat then slept st else st).
  assert (Hwf1 : sem_wf st1) by (unfold st1; by destruct creat).
  destruct (if negb (k =? IPC_PRIVATE) then _ else None) as [[ix [ds|]]|].
  - repeat (step_if; [done|]). done.
  - destruct creat; [|done]. simpl in Hr. bool_to_prop. apply Z.ltb_ge in H0.
    apply semget_alloc_wf; [done|lia].
  - destruct creat; [|done]. simpl in Hr. bool_to_prop. apply Z.ltb_ge in H0.
    apply semget_alloc_wf; [done|lia].
Qed.

(** ** sysctl *)

Lemma wf_info i st :
  sem_wf st -> semmni i = semmni (info st) -> semmsl i <= 32767 -> sem_wf (with_info i st).
Proof. intros [] Hi Hm. constructor; simpl; rewrite ?Hi; done. Qed.

(** The table of sets is not touched while the second table is allocated. *)
Definition sema_kept (slept : sstate -> sstate) : Prop :=
  forall s, sema (slept s) = sema s /\ semmni (info (slept s)) = semmni (info s).

Lemma grow_sema_wf slept1 slept2 v st st' :
  sem_wf (slept2 (slept1 st)) -> sema_kept slept2 -> v <= 65535 ->
  grow_sema slept1 slept2 v st = Some st' -> sem_wf st'.
Proof.
  intros Hwf Hkeep Hv. unfold grow_sema. destruct (Hkeep (slept1 st)) as [Hs Hn].
  set (s2 := slept2 (slept1 st)) in *. rewrite <- Hs, <- Hn. clearbody s2. clear Hs Hn Hkeep st.
  destruct (semmni (info s2) >? v) eqn:Hle; [done|]. cbv zeta. simpl. intros [= <-].
  rewrite Z.gtb_ltb in Hle. apply Z.ltb_ge in Hle. rename s2 into st.
  destruct Hwf as [Hmni Hmsl Hlen Hseqs Hds Hlive Htot Hundo Hrefs].
  constructor; simpl; try done; try lia.
  - rewrite length_app, length_take, length_replicate. lia.
  - rewrite length_app, length_take, length_replicate. lia.
  - intros ix ds. rewrite take_ge by lia. rewrite lookup_app. destruct (sema st !! ix) eqn:E.
    + intros [= ->]. by eapply Hds.
    + intros [? _]%lookup_replicate. done.
  - intros ix ds. rewrite !take_ge by lia. rewrite lookup_app. destruct (sema st !! ix) eqn:E.
    + intros [= ->]. apply lookup_app_l_Some. by apply Hlive.
    + intros [? _]%lookup_replicate. done.
  - rewrite take_ge by lia. rewrite Htot. clear. induction (sema st) as [|d l IH]; simpl.
    + induction (_ - _)%nat; [done|]. simpl. rewrite total_cons. simpl. lia.
    + rewrite !total_cons. lia.
  - intros pr id num w Hw. destruct (Hrefs _ _ _ _ Hw) as (Hid & d & Hd & Hnum).
    split; [done|]. exists d. split; [|done]. rewrite take_ge by lia. by apply lookup_app_l_Some.
Qed.

Lemma sysctl_limit_wf io cur ok set st :
  sem_wf st -> (forall v, ok v = true -> sem_wf (set v st)) ->
  sem_wf (sysctl_limit io cur ok set st).2.
Proof.
  intros Hwf Hset. unfold sysctl_limit. destruct (sysctl_int io cur) as [e v].
  destruct (_ || _); [done|]. destruct (ok v) eqn:E; [by apply Hset|done].
Qed.

Lemma sysctl_sysvsem_wf slept1 slept2 name namelen io st e st' :
  sem_wf st -> sem_wf (slept2 (slept1 st)) -> sema_kept slept2 ->
  sysctl_sysvsem slept1 slept2 name namelen io st = Some (e, st') ->
  semmsl (info st') <= 32767 -> sem_wf st'.
Proof.
  intros Hwf Hsl Hk. unfold sysctl_sysvsem. destruct (_ && _); [by intros [= <- <-]|].
  assert (Hlim : forall cur ok set, (forall v, ok v = true -> sem_wf (set v st)) ->
    Some (sysctl_limit io cur ok set st) = Some (e, st') -> sem_wf st').
  { intros cur ok set Hset [= Heq]. change st' with (e, st').2. rewrite <- Heq.
    by apply sysctl_limit_wf. }
  destruct (name =? 1).
  { destruct (sysctl_int _ _) as [e' v]. destruct (_ || _); [by intros [= <- <-]|].
    destruct ((v <? _) || (v >? 65535)) eqn:Hv; [by intros [= <- <-]|]. bool_to_prop.
    apply Z.ltb_ge in H0. destruct (grow_sema slept1 slept2 v st) eqn:Hg; [|done].
    intros [= <- <-] _. apply (grow_sema_wf slept1 slept2 v st); [done|done|lia|done]. }
  destruct (name =? 2). { intros H _. eapply Hlim; [|exact H]. intros. apply wf_info; [done..|apply Hwf]. }
  destruct (name =? 3). { intros H _. eapply Hlim; [|exact H]. intros. apply wf_info; [done..|apply Hwf]. }
  destruct (name =? 4).
  { unfold sysctl_limit. destruct (sysctl_int _ _) as [e' v]. destruct (_ || _); [by intros [= <- <-]|].
    destruct (negb _); [|by intros [= <- <-]]. intros [= <- <-] Hm. by apply wf_info. }
  destruct (name =? 5). { intros H _. eapply Hlim; [|exact H]. intros. apply wf_info; [done..|apply Hwf]. }
  repeat (destruct (name =? _); [by intros [= <- <-]|]). by intros [= <- <-].
Qed.

(** ** Reachable states

    What calls, complete or still asleep, can do to the tables.  Whatever
    others do while a call waits is itself made of such calls, so that the
    relation covers the interleavings at the points where the code sleeps,
    with three exceptions: the allocation of an undo structure in the middle
    of [sys_semop] succeeds or fails at once, nobody touches the table of sets
    while [sysctl_sysvsem] allocates the second of the two tables it grows
    ([sysctl_revives_set] shows what happens otherwise), and semmsl is not
    raised beyond what a short can number.  A call that ends in the use of
    freed memory has no successor. *)

Inductive sem_reach : sstate -> sstate -> Prop :=
| reach_refl st : sem_reach st st
| reach_tick st0 st now :
    sem_reach st0 st ->
    sem_reach st0 (mkS (info st) (sema st) (semseqs st) (semtot st) (semutot st)
                     (semu_list st) (wakeups st) now)
| reach_semget st0 st a slept cred k nsems flg :
    sem_reach st0 st -> (forall s, sem_reach s (slept s)) ->
    sem_reach st0 (sys_semget a slept cred k nsems flg st).2
| reach_semctl st0 st slept cred semid semnum cmd copyin_arg arg r st' :
    sem_reach st0 st -> (forall s, sem_reach s (slept s)) ->
    sys___semctl slept cred semid semnum cmd copyin_arg arg st = Some (r, st') ->
    sem_reach st0 st'
| reach_semop st0 st a slept0 wakes cred pr pid id n sops st' :
    sem_reach st0 st -> (forall s, sem_reach s (slept0 s)) ->
    (forall w, w ∈ wakes -> forall s, sem_reach s (w.1 s)) ->
    (forall l, sops = inr l -> Forall sop_typed l) ->
    (exists e, sys_semop a None slept0 wakes cred pr pid id n sops st = Ret e st') \/
      sys_semop a None slept0 wakes cred pr pid id n sops st = Asleep st' ->
    sem_reach st0 st'
| reach_semexit st0 st pr st' :
    sem_reach st0 st -> semexit pr st = Some st' -> sem_reach st0 st'
| reach_sysctl st0 st slept1 slept2 name namelen io e st' :
    sem_reach st0 st -> (forall s, sem_reach s (slept1 s)) -> (forall s, sem_reach s (slept2 s)) ->
    sema_kept slept2 ->
    sysctl_sysvsem slept1 slept2 name namelen io st = Some (e, st') ->
    semmsl (info st') <= 32767 -> sem_reach st0 st'.

Lemma reach_wf st st' : sem_reach st st' -> sem_wf st -> sem_wf st'.
Proof.
  induction 1 as [|st0 st now _ IH|st0 st a slept cred k nsems flg _ IH _ IHs
    |st0 st slept cred semid semnum cmd e arg r st' _ IH _ IHs Hctl
    |st0 st a slept0 wakes cred pr pid id n sops st' _ IH _ IHs _ IHw Hty Hout
    |st0 st pr st' _ IH Hexit|st0 st slept1 slept2 name namelen io e st' _ IH _ IH1 _ IH2 Hk Hctl Hmsl]; intros Hwf; [done|..].
  all: specialize (IH Hwf).
  - destruct IH. by constructor.
  - apply sys_semget_wf; [done|by apply IHs].
  - unfold sys___semctl in Hctl. cbv zeta in Hctl. destruct (_ =? 0) in Hctl; [|by injection Hctl as <- <-].
    pose proof (semctl1_wf slept cred semid semnum cmd arg st IH (IHs _ IH)) as Ho. by rewrite Hctl in Ho.
  - assert (Ho : outcome_wf (sys_semop a None slept0 wakes cred pr pid id n sops st)).
    { apply sys_semop_wf; [done|by apply IHs| |done].
      apply Forall_forall. intros w Hw s Hs. by apply IHw. }
    destruct Hout as [[e Hout]|Hout]; by rewrite Hout in Ho.
  - destruct (semexit_wf pr st IH) as (s & Hs & Hsw). rewrite Hexit in Hs. by injection Hs as ->.
  - eapply sysctl_sysvsem_wf; [exact IH|apply IH2, IH1, IH|exact Hk|exact Hctl|exact Hmsl].
Qed.


(** ** A run

    A process with a set of two semaphores raises both, owing the
    adjustments. *)

Definition root_cred : ucred := mkCred 0 0 [].
Definition boot : sstate := seminit default_seminfo 100.
Definition with_set : sstate := (sys_semget 1 (fun s => s) root_cred 7 2 896 boot).2.
Definition the_id : Z := 65536.
Definition up_both : list sembuf := [mkSop 0 1 SEM_UNDO; mkSop 1 2 SEM_UNDO].

Definition state_of (o : outcome) (default : sstate) : sstate :=
  match o with Ret _ st | Asleep st => st | _ => default end.

Definition after_up : sstate :=
  state_of (sys_semop 9 None (fun s => s) [] root_cred 42 4242 the_id 2 (inr up_both) with_set) boot.

Lemma after_up_reach : sem_reach boot after_up.
Proof.
  apply (reach_semop boot with_set 9 (fun s => s) [] root_cred 42 4242 the_id 2 (inr up_both)).
  - apply (reach_semget boot boot 1 (fun s => s)); intros; apply reach_refl.
  - intros. apply reach_refl.
  - intros w Hw. by apply not_elem_of_nil in Hw.
  - intros l [= <-]. repeat constructor; simpl; lia.
  - left. exists 0. vm_compute. reflexivity.
Defined.

Lemma after_up_table :
  undo_map (semu_list after_up) = {[ (42, 0, 0) := -1; (42, 0, 1) := -2 ]} /\
  (fmap semval ∘ sem_base) <$> sema_at 0 after_up = Some [1; 2].
Proof. split; vm_compute; reflexivity. Qed.


Lemma after_up_wf : sem_wf after_up.
Proof. eapply reach_wf; [exact after_up_reach|]. apply seminit_wf; simpl; lia. Qed.
