(* ===== verification/SemSys.v ===== *)
(** * The semaphore system calls

    What [sys_semop], [sys_semget], [semctl1] and [semexit] do to a
    well-formed state, on every branch. *)

From stdpp Require Import base numbers list option gmap.
From Stdlib Require Import ZArith Lia Bool.
From S2P Require Import Prelude Sem SemFacts SemOps SemInv.

#[local] Set Warnings "-clear-no-such-hyp,-notation-for-abbreviation".

(** ** Waiting and waking *)

Lemma fold_pids_vals pid sops base :
  semval <$> set_pids pid sops base = semval <$> base.
Proof.
  revert base. induction sops as [|sop sops IH]; intros base; [done|].
  simpl. rewrite IH. rewrite (list_fmap_alter semval _ (fun v => v)).
  - by apply list_alter_id.
  - by apply Forall_true.
Qed.

(** A scan that gets through asks for a wake-up when it raised a semaphore
    somebody waits on. *)
Lemma semop_scan_wakes nsems i sops base w u base' w' u' :
  semop_scan nsems i sops base w u = ScanAll base' w' u' ->
  w = true \/ (exists sop s, sop ∈ sops /\ 0 < sem_op sop /\
    base !! Z.to_nat (sem_num sop) = Some s /\ 0 < semncnt s) -> w' = true.
Proof.
  revert i base w u. induction sops as [|sop sops IH]; intros i base w u; simpl.
  { intros [= <- <- <-] [->|(? & ? & Hin & _)]; [done|]. by apply not_elem_of_nil in Hin. }
  assert (Hcnt : forall n d j s, base !! j = Some s ->
    exists s', add_semval n d base !! j = Some s' /\ semncnt s' = semncnt s).
  { intros n d j s Hj. unfold add_semval. rewrite list_lookup_alter.
    destruct (decide (Z.to_nat n = j)) as [->|]; rewrite Hj; simpl; (eexists; split; [reflexivity|done]). }
  destruct (_ >=? _); [done|]. destruct (base !! Z.to_nat (sem_num sop)) as [s|] eqn:Hs; [|done].
  destruct (Z.ltb_spec (sem_op sop) 0) as [Hneg|Hneg].
  - destruct (_ <? 0); [done|]. intros Hsc Hor. eapply IH; [exact Hsc|].
    destruct Hor as [->|(sop' & s' & Hin & Hop & Hl & Hc)]; [left; by destruct (_ && _)|].
    apply elem_of_cons in Hin as [->|Hin]; [lia|]. right.
    destruct (Hcnt (sem_num sop) (sem_op sop) _ _ Hl) as (s2 & ? & Heq).
    exists sop', s2. rewrite Heq. done.
  - destruct (Z.eqb_spec (sem_op sop) 0) as [H0|H0].
    + destruct (_ >? _); [done|]. intros Hsc Hor. eapply IH; [exact Hsc|].
      destruct Hor as [->|(sop' & s' & Hin & Hop & Hl & Hc)]; [by left|].
      apply elem_of_cons in Hin as [->|Hin]; [lia|]. right. by exists sop', s'.
    + intros Hsc Hor. eapply IH; [exact Hsc|].
      destruct Hor as [->|(sop' & s' & Hin & Hop & Hl & Hc)]; [left; by destruct (_ >? _)|].
      apply elem_of_cons in Hin as [->|Hin].
      * left. rewrite Hs in Hl. injection Hl as ->.
        replace (semncnt s' >? 0) with true; [done|]. symmetry. rewrite Z.gtb_ltb. by apply Z.ltb_lt.
      * right. destruct (Hcnt (sem_num sop) (sem_op sop) _ _ Hl) as (s2 & ? & Heq).
        exists sop', s2. rewrite Heq. done.
Qed.

(** ** semop, without a sleep *)

Section Semop.
Context (a : nat) (cred : ucred) (pr pid id : Z) (sops : list sembuf) (st : sstate) (ds : semid_ds).
Notation ix := (IPCID_TO_IX id).
Notation m := (undo_map (semu_list st)).
Context (Hwf : sem_wf st) (Haddr : NoDup (un_addr <$> semu_list st)).
Context (Hds : sema_at ix st = Some ds) (Hseq : seq (sem_perm ds) = IPCID_TO_SEQ id).
Context (Hsops : Forall (sop_ok (sem_nsems ds)) sops).
Context (Hstay : undo_stays pr ix sops m).

Definition wake_if (w : bool) (s : sstate) : sstate := if w then wakeup ix s else s.

(** The set after all requests are granted. *)
Definition granted : semid_ds :=
  with_otime (time_second st) (with_base (set_pids pid sops (advance sops (sem_base ds))) ds).

Lemma sem_ds_wf : ds_wf ds.
Proof. eapply w_ds; [exact Hwf|]. by apply sema_at_Some. Qed.

Lemma undo_m_ok : m_ok m.
Proof. intros k v Hk. eapply undo_map_values; [apply Hwf|exact Hk]. Qed.

(** What [semop_done] does once every request went through. *)
Lemma semop_done_spec w n :
  n = count_undos sops ->
  let out := semop_done a None pr pid ix (sem_addr ds) sops w n
               (put_ds ix (Some (with_base (advance sops (sem_base ds)) ds)) st) in
  (exists k l, out = Ret 0 (with_undos k l (wake_if w (put_ds ix (Some granted) st))) /\
     undo_wf l k /\ undo_map l = adj_all pr ix sops m) \/
  (exists e k l, out = Ret e (with_undos k l st) /\ (e = ENOSPC \/ e = EINVAL) /\
     0 < count_undos sops /\ undo_wf l k /\ undo_map l = m).
Proof.
  intros Hn. set (st1 := put_ds ix _ st).
  assert (H1 : sema_at ix st1 = Some (with_base (advance sops (sem_base ds)) ds)).
  { by eapply put_ds_at. }
  assert (Ht1 : tracks st1 m st1).
  { constructor; [by destruct st|apply Hwf|done]. }
  assert (Hlive : forall k l s, s = with_undos k l st1 ->
    live_ds ix (sem_addr ds) s = Some (with_base (advance sops (sem_base ds)) ds) /\
    sema_at ix s = Some (with_base (advance sops (sem_base ds)) ds)).
  { intros k l s ->. split; [|exact H1]. exact (live_ds_at ix (with_undos k l st1) _ H1). }
  assert (Hend : forall s, tracks st1 (adj_all pr ix sops m) s ->
    (exists k l, Ret 0 (wake_if w (upd_ds ix (fun ds => with_otime (time_second s)
         (with_base (set_pids pid sops (sem_base ds)) ds)) s)) =
       Ret 0 (with_undos k l (wake_if w (put_ds ix (Some granted) st))) /\
     undo_wf l k /\ undo_map l = adj_all pr ix sops m)).
  { intros s [Hr Hw Hm]. exists (semutot s), (semu_list s). split_and!; [|done|done].
    destruct (Hlive _ _ _ Hr) as [_ Hat]. rewrite (upd_ds_put _ _ _ _ Hat), Hr.
    f_equal. unfold wake_if, granted, st1, put_ds. destruct w; simpl;
      unfold with_undos, with_sema, wakeup; simpl; by rewrite list_insert_insert_eq. }
  unfold semop_done. destruct (Z.eqb_spec n 0) as [Hz|Hz].
  - left. destruct (Hlive _ _ _ (t_rest _ _ _ Ht1)) as [-> _]. cbn [negb Z.eqb].
    assert (Hid : forall s m0, (forall x, x ∈ s -> undoes x = false) -> adj_all pr ix s m0 = m0).
    { intros s. induction s as [|x s IH]; intros m0 Hall; [done|]. simpl.
      rewrite (Hall x) by (by left). apply IH. intros y Hy. apply Hall. by right. }
    apply Hend. rewrite Hid; [done|]. intros x Hx. destruct (undoes x) eqn:E; [|done]. exfalso.
    assert (x ∈ filter undoes sops) as Hf by (apply list_elem_of_filter; by rewrite E).
    unfold count_undos in Hn. destruct (filter undoes sops); [by apply not_elem_of_nil in Hf|].
    simpl in Hn. lia.
  - destruct (undo_forward_spec a pr ix (sem_nsems ds) st1 m) with
      (todo := sops) (done := @nil sembuf) (sup := @None nat) (st := st1) as [(s & -> & Hs)|(e & s & -> & He & Hs)].
    all: try done.
    + apply sem_ds_wf.
    + apply undo_m_ok.
    + intros s1 s2 [? _]%symmetry%app_eq_nil. subst. by eapply of_proc_max, Hwf.
    + destruct (Hlive _ _ _ (t_rest _ _ _ Hs)) as [-> _]. cbn [negb Z.eqb]. left. by apply Hend.
    + right. destruct Hs as [Hr Hw Hm]. destruct (Hlive _ _ _ Hr) as [-> Hat].
      exists e, (semutot s), (semu_list s).
      replace (e =? 0) with false by (symmetry; destruct He as [->| ->]; done). cbn [negb].
      split_and!; [|done| |done|done].
      * rewrite (upd_ds_put _ _ _ _ Hat). simpl. rewrite rollback_advance by apply sem_ds_wf.
        f_equal. rewrite Hr at 1. transitivity (with_undos (semutot s) (semu_list s) (put_ds ix (Some ds) st)).
        -- unfold st1, put_ds, with_undos, with_sema. simpl. rewrite list_insert_insert_eq.
           repeat f_equal. by destruct ds.
        -- by rewrite put_ds_same.
      * unfold count_undos in *. lia.
Qed.

Context (Hmni : ix < semmni (info st)) (Hperm : ipcperm cred (sem_perm ds) IPC_W = 0).
Context (Hcnt : 0 < Z.of_nat (length sops) <= semopm (info st)).

Lemma sys_semop_enter wakes :
  sys_semop a None (fun s => s) wakes cred pr pid id (Z.of_nat (length sops)) (inr sops) st =
    semop_loop a None pr pid ix (IPCID_TO_SEQ id) (sem_addr ds) sops wakes 0 st.
Proof.
  unfold sys_semop. rewrite Hds, Hperm, Hseq, Z.eqb_refl.
  assert (0 <= ix) by (unfold IPCID_TO_IX; apply Z.land_nonneg; lia).
  replace (ix <? 0) with false by (symmetry; apply Z.ltb_ge; lia).
  replace (ix >=? _) with false by (symmetry; rewrite Z.geb_leb; apply Z.leb_gt; lia).
  replace (Z.of_nat (length sops) =? 0) with false by (symmetry; apply Z.eqb_neq; lia).
  replace (Z.of_nat (length sops) >? semopm (info st)) with false by (symmetry; rewrite Z.gtb_ltb; apply Z.ltb_ge; lia). done.
Qed.

(** How one call on a set ends when it is not put to sleep and woken again:
    granted, refused for want of undo space, or unable to proceed. *)
Definition semop_outcome (out : outcome) : Prop :=
  match semop_ref sops (semval <$> sem_base ds) with
  | Some vals =>
      (exists w k l, out = Ret 0 (with_undos k l (wake_if w (put_ds ix (Some granted) st))) /\
         semval <$> sem_base granted = vals /\
         undo_wf l k /\ undo_map l = adj_all pr ix sops m /\
         ((exists sop s, sop ∈ sops /\ 0 < sem_op sop /\
             sem_base ds !! Z.to_nat (sem_num sop) = Some s /\ 0 < semncnt s) -> w = true)) \/
      (exists e k l, out = Ret e (with_undos k l st) /\ (e = ENOSPC \/ e = EINVAL) /\
         0 < count_undos sops /\ undo_wf l k /\ undo_map l = m)
  | None =>
      (out = Ret ENOSPC st /\ SEMUME < count_undos sops) \/
      (exists sop, sop ∈ sops /\
         out = if has (sem_flg sop) IPC_NOWAIT then Ret EAGAIN st
               else Asleep (upd_ds ix (bump 1 sop) st))
  end.

Lemma count_undos_app s1 s2 : count_undos (s1 ++ s2) = count_undos s1 + count_undos s2.
Proof. unfold count_undos. rewrite filter_app, length_app. lia. Qed.

(** One pass of the call, up to its first sleep. *)
Lemma semop_once :
  semop_outcome
    (sys_semop a None (fun s => s) [] cred pr pid id (Z.of_nat (length sops)) (inr sops) st).
Proof.
  rewrite sys_semop_enter. simpl. rewrite (live_ds_at _ _ _ Hds).
  destruct sem_ds_wf as [Hlen _ _ Hok].
  pose proof (semop_scan_spec (sem_nsems ds) 0 sops (sem_base ds) false 0 Hok Hlen Hsops) as Hscan.
  unfold semop_outcome.
  destruct (semop_scan _ _ _ _ _ _) as [base w u| |j sop base u|] eqn:Escan; [|done| |done].
  - destruct Hscan as (-> & -> & ->). rewrite Z.add_0_l.
    destruct (Z.leb_spec (count_undos sops) SEMUME) as [Hle|Hgt].
    + rewrite (upd_ds_put _ _ _ _ Hds).
      destruct (semop_done_spec w (count_undos sops) eq_refl)
        as [(k & l & -> & Hw & Hm)|(e & k & l & -> & H)]; [left|right; by exists e, k, l].
      exists w, k, l. split_and!; [done|apply fold_pids_vals|done|done|].
      intros Hex. eapply semop_scan_wakes; [exact Escan|by right].
    + right. rewrite rollback_advance by done. rewrite (upd_same ix st ds) by done.
      exists ENOSPC, (semutot st), (semu_list st). rewrite with_undos_same.
      split_and!; [done|by left|unfold SEMUME in *; lia|apply Hwf|done].
  - destruct Hscan as (-> & s1 & s2 & Hs & -> & -> & -> & _).
    assert (Hb : upd_ds ix (with_base (rollback (take (0 + length s1) sops)
      (advance s1 (sem_base ds)))) st = st).
    { apply (upd_same ix st ds); [done|]. rewrite Hs. simpl.
      rewrite take_app_length. by apply rollback_advance. }
    cbv zeta. rewrite Hb, Z.add_0_l.
    destruct (count_undos s1 >? SEMUME) eqn:Hgt.
    + left. split; [done|]. bool_to_prop. rewrite Hs, count_undos_app.
      apply Z.ltb_lt in Hgt. pose proof (Nat2Z.is_nonneg (length (filter undoes (sop :: s2)))).
      unfold count_undos in *. lia.
    + right. exists sop. split; [rewrite Hs; apply elem_of_app; right; by left|].
      by destruct (has _ _).
Qed.

End Semop.


Definition down_both : list sembuf := [mkSop 0 (-1) 0; mkSop 1 (-1) SEM_UNDO].

Lemma one_undo_stays pr semid sop1 sop2 m :
  undoes sop1 = false -> undo_stays pr semid [sop1; sop2] m.
Proof.
  intros Hu [|x [|y s1]] s2 H H1 H2; [done| |].
  - simpl in H, H1. simplify_eq. by rewrite Hu in H1.
  - simpl in H. simplify_eq. by destruct s1, s2.
Qed.


(** ** semexit *)

(** What a process's exit leaves in a semaphore it owes [adj] to. *)
Definition exit_val (adj v : Z) : Z :=
  if (adj <? 0) && (v <? - adj) then 0 else u16 (v + adj).

(** The value of semaphore [num] of set [id]. *)
Definition val_at (st : sstate) (id num : Z) : option Z :=
  ds ← sema_at id st; semval <$> (sem_base ds !! Z.to_nat num).

Definition owed (ents : list undo) (id num : Z) : option Z :=
  un_adjval <$> (snd <$> list_find (matches id num) ents).

Lemma val_at_put id' ds base st id num :
  0 <= id -> 0 <= id' -> sema_at id' st = Some ds ->
  val_at (wakeup id' (put_ds id' (Some (with_base base ds)) st)) id num =
    if decide (id = id') then semval <$> (base !! Z.to_nat num) else val_at st id num.
Proof.
  intros H1 H2 Hat. unfold val_at, sema_at. simpl.
  apply sema_at_Some in Hat. pose proof (lookup_lt_Some _ _ _ Hat).
  rewrite list_lookup_insert. destruct (decide (id = id')) as [->|Hne].
  - by rewrite decide_True.
  - by rewrite decide_False by lia.
Qed.

Lemma apply_undos_vals ents st :
  sem_wf st -> ents_ok (sema st) ents -> NoDup (ekey <$> ents) ->
  exists st', apply_undos ents st = Some st' /\
    semu_list st' = semu_list st /\
    forall id num, 0 <= id -> 0 <= num ->
    val_at st' id num =
      v ← val_at st id num; Some (match owed ents id num with Some adj => exit_val adj v | None => v end).
Proof.
  revert st. induction ents as [|e ents IH]; intros st Hwf Hok Hnd.
  { exists st. split_and!; [done..|]. intros id num _ _. simpl. by destruct (val_at st id num). }
  apply Forall_cons in Hok as [(Hid & ds & Hd & Hnum) Hents].
  rewrite fmap_cons in Hnd. apply list.NoDup_cons in Hnd as [Hnin Hnd]. simpl.
  assert (Hat : sema_at (un_id e) st = Some ds) by (by apply sema_at_Some). rewrite Hat.
  assert (Hdw : ds_wf ds) by (by eapply w_ds).
  replace (un_num e >=? sem_nsems ds) with false
    by (symmetry; rewrite Z.geb_leb; apply Z.leb_gt; lia).
  destruct (lookup_lt_is_Some_2 (sem_base ds) (Z.to_nat (un_num e))) as [s Hs]; [destruct Hdw; lia|].
  rewrite Hs. set (base := alter _ _ _). set (st1 := wakeup _ _).
  assert (Hwf1 : sem_wf st1).
  { apply wf_wakeup. eapply wf_put; [done|exact Hat| |done|done].
    apply wf_base; [done|apply length_alter|]. apply Forall_alter; [apply Hdw|].
    intros. apply u16_range. }
  assert (Hok1 : ents_ok (sema st1) ents).
  { eapply Forall_impl; [exact Hents|]. intros e0 Hx.
    exact (target_put _ _ _ (with_base base ds) _ _ Hat eq_refl Hx). }
  destruct (IH st1 Hwf1 Hok1 Hnd) as (st' & -> & Hl & Hv). exists st'. split_and!; [done|done|].
  intros id num Hi Hn. rewrite (Hv id num Hi Hn). unfold st1. rewrite (val_at_put (un_id e) ds base st id num Hi Hid Hat).
  assert (Howed : owed (e :: ents) id num =
    if decide (matches id num e) then Some (un_adjval e) else owed ents id num).
  { unfold owed. simpl. destruct (decide (matches id num e)); [done|]. simpl.
    by destruct (list_find (matches id num) ents) as [[]|]. }
  assert (Hnone : matches id num e -> owed ents id num = None).
  { intros [Hei Hen]. unfold owed. replace (list_find _ ents) with (@None (nat * undo)); [done|].
    symmetry. apply list_find_None. apply Forall_forall. intros x Hx [Hxi Hxn]. apply Hnin.
    apply list_elem_of_fmap. exists x. split; [|done]. unfold ekey. congruence. }
  rewrite Howed. destruct (decide (id = un_id e)) as [->|Hne].
  - unfold val_at at 1. rewrite Hat. simpl. unfold base. rewrite list_lookup_alter.
    destruct (decide (matches (un_id e) num e)) as [Hm|Hm].
    + rewrite (Hnone Hm). destruct Hm as [_ <-]. rewrite decide_True by done. rewrite Hs. simpl.
      unfold exit_val. by destruct (_ && _).
    + rewrite decide_False by (intros ?; apply Hm; split; [done|lia]). done.
  - rewrite decide_False by (intros [? _]; done). done.
Qed.

Lemma owed_map l n su id num :
  undo_wf l n -> su ∈ l -> owed (un_ent su) id num = undo_map l !! (un_proc su, id, num).
Proof.
  intros Hwf Hin. pose proof (uw_each _ _ Hwf) as He. rewrite Forall_forall in He.
  destruct (He su Hin) as [_ _ Hkeys _]. unfold owed.
  destruct (list_find (matches id num) (un_ent su)) as [[i e]|] eqn:Hf; simpl.
  - apply list_find_Some in Hf as (Hi & [<- <-] & _). symmetry.
    apply (undo_map_Some _ _ _ _ Hwf). apply list_elem_of_bind. exists su. split; [|done].
    apply list_elem_of_fmap. exists e. split; [done|]. by eapply list_elem_of_lookup_2.
  - symmetry. apply eq_None_not_Some. intros [v Hv]. apply list_elem_of_split in Hin as (l1 & l2 & ->).
    rewrite map_no_entry in Hv; [done|by destruct Hwf|done].
Qed.

Lemma filter_map_gone l1 su l2 n :
  undo_wf (l1 ++ su :: l2) n ->
  undo_map (l1 ++ l2) = filter (fun kv : ukey * Z => kv.1.1.1 <> un_proc su) (undo_map (l1 ++ su :: l2)).
Proof.
  intros Hwf. assert (Hwf2 : undo_wf (l1 ++ l2) (n - 1)).
  { destruct Hwf as [H1 H2 H3]. apply (remove_wf l1 su l2); [done|done|].
    apply Forall_app in H3 as [H3 H4]. apply Forall_cons in H4 as [_ H4]. by apply Forall_app. }
  apply map_eq. intros k. apply option_eq. intros v.
  rewrite map_lookup_filter_Some, (undo_map_Some _ _ _ _ Hwf), (undo_map_Some _ _ _ _ Hwf2).
  rewrite rows_mid, elem_of_app. simpl. split.
  - intros H. split; [by right|]. intros Hk.
    assert (Hin : k.1.1 ∈ (un_proc <$> (l1 ++ l2))).
    { apply rows_keys_in, list_elem_of_fmap. by exists (k, v). }
    rewrite Hk in Hin. destruct Hwf as [_ Hp _]. rewrite fmap_app, fmap_cons in Hp.
    rewrite fmap_app in Hin. apply list.NoDup_app in Hp as (_ & Hd & Hc).
    apply list.NoDup_cons in Hc as [Hc _].
    apply elem_of_app in Hin as [Hin|Hin]; [|done]. apply (Hd _ Hin). by left.
  - intros [[H|H] Hk]; [|done]. exfalso. apply list_elem_of_fmap in H as (e & He & _).
    unfold keyed in He. by simplify_eq/=.
Qed.

(** When a process exits, every adjustment it owes is applied exactly
    once: each semaphore it has an entry for moves by the entry, cut off at
    zero, all other semaphores keep their value, and the process's entries -
    and no others - disappear from the table.  The call does not panic. *)
Theorem semexit_correct pr st :
  sem_wf st ->
  exists st', semexit pr st = Some st' /\ sem_wf st' /\
    (forall id num, 0 <= id -> 0 <= num ->
       val_at st' id num =
         v ← val_at st id num;
         Some (match undo_map (semu_list st) !! (pr, id, num) with
               | Some adj => exit_val adj v
               | None => v
               end)) /\
    undo_map (semu_list st') =
      filter (fun kv : ukey * Z => kv.1.1.1 <> pr) (undo_map (semu_list st)).
Proof.
  intros Hwf. destruct (semexit_wf pr st Hwf) as (st' & Hex & Hwf').
  exists st'. split_and!; [done|done| |].
  all: unfold semexit in Hex; destruct (list_find _ _) as [[k su]|] eqn:Hf;
    [apply list_find_Some in Hf as (Hk & Hpr & _)|apply list_find_None in Hf; injection Hex as <-].
  - pose proof (list_elem_of_lookup_2 _ _ _ Hk) as Hin.
    pose proof (uw_each _ _ (w_undo _ Hwf)) as He. rewrite Forall_forall in He.
    destruct (apply_undos_vals (un_ent su) st Hwf) as (st1 & Hap & Hl & Hv).
    + apply Forall_forall. intros e Hee. apply (w_refs _ Hwf (un_proc su) _ _ (un_adjval e)).
      apply (undo_map_Some _ _ _ _ (w_undo _ Hwf)). apply list_elem_of_bind.
      exists su. split; [|done]. apply list_elem_of_fmap. by exists e.
    + apply (He su Hin).
    + rewrite Hap in Hex. simpl in Hex. injection Hex as <-. intros id num Hi Hn.
      etransitivity; [exact (Hv id num Hi Hn)|].
      rewrite (owed_map _ _ _ _ _ (w_undo _ Hwf) Hin), Hpr. done.
  - intros id num _ _. replace (undo_map (semu_list st) !! (pr, id, num)) with (@None Z).
    + by destruct (val_at st id num).
    + symmetry. apply eq_None_not_Some. intros [v Hv].
      assert (Hp : pr ∈ (un_proc <$> semu_list st)).
      { apply (undo_map_proc _ _ _ (w_undo _ Hwf)). by exists (pr, id, num), v. }
      apply list_elem_of_fmap in Hp as (su & -> & Hin). rewrite Forall_forall in Hf. by apply (Hf su).
  - destruct (apply_undos (un_ent su) st) as [st1|] eqn:Hap; [|done]. simpl in Hex.
    injection Hex as <-. simpl.
    assert (Hl : semu_list st1 = semu_list st).
    { clear -Hap. revert st Hap. induction (un_ent su) as [|e ents IH]; intros st; simpl; [by intros [= ->]|].
      destruct (sema_at _ _); [|done]. destruct (_ >=? _); [done|].
      destruct (_ !! _); [|done]. intros Hap. by rewrite (IH _ Hap). }
    rewrite Hl. pose proof (take_drop_middle _ _ _ Hk) as Hmid.
    pose proof (w_undo _ Hwf) as Huw. rewrite <- Hmid in Huw.
    rewrite <- Hmid at 2. rewrite <- Hpr, <- (filter_map_gone _ _ _ _ Huw). f_equal.
    by rewrite delete_take_drop.
  - symmetry. apply map_filter_id. intros k v Hk Hpr. rewrite Forall_forall in Hf.
    assert (Hp : pr ∈ (un_proc <$> semu_list st)).
    { apply (undo_map_proc _ _ _ (w_undo _ Hwf)). by exists k, v. }
    apply list_elem_of_fmap in Hp as (su & -> & Hin). by apply (Hf su).
Qed.

Lemma semexit_correct_witness :
  exists st', semexit 42 after_up = Some st' /\ val_at st' 0 1 = Some 0 /\ val_at after_up 0 1 = Some 2.
Proof.
  destruct (semexit_correct 42 after_up after_up_wf) as (st' & H & _ & Hv & _).
  exists st'. split; [exact H|]. split; [|vm_compute; reflexivity].
  rewrite (Hv 0 1) by lia. vm_compute. reflexivity.
Defined.

(** ** semget *)

Lemma ipcid_roundtrip ix perm :
  0 <= ix <= 65535 -> 0 <= seq perm < 32768 ->
  IPCID_TO_IX (IXSEQ_TO_IPCID ix perm) = ix /\
  IPCID_TO_SEQ (IXSEQ_TO_IPCID ix perm) = seq perm.
Proof.
  intros Hi Hs. unfold IPCID_TO_IX, IPCID_TO_SEQ, IXSEQ_TO_IPCID.
  change 65535 with (Z.ones 16) in *. rewrite !(Z.land_ones ix 16) by lia.
  rewrite (Z.mod_small ix) by (change (2 ^ 16) with 65536; change (Z.ones 16) with 65535 in *; lia).
  split.
  - rewrite Z.land_lor_distr_l, !Z.land_ones by lia. rewrite Z.shiftl_mul_pow2, Z_mod_mult by lia.
    rewrite Z.lor_0_l. apply Z.mod_small. change (2 ^ 16) with 65536. change (Z.ones 16) with 65535 in *. lia.
  - rewrite Z.shiftr_lor, Z.shiftr_shiftl_l, Z.shiftl_0_r by lia.
    rewrite (Z.shiftr_div_pow2 ix), Z.div_small by (change (2 ^ 16) with 65536; change (Z.ones 16) with 65535 in *; lia).
    rewrite Z.lor_0_r, Z.land_ones by lia. apply Z.mod_small. change (2 ^ 16) with 65536. lia.
Qed.

(** The three ways [sys_semget] ends. *)
Definition semget_refused (r : (Z * option Z) * sstate) (st : sstate) : Prop :=
  exists e, r = ((e, None), st) /\ e <> 0.

(** [id] names the set [ds] of [st]. *)
Definition names (st : sstate) (id : Z) (ds : semid_ds) : Prop :=
  sema_at (IPCID_TO_IX id) st = Some ds /\ seq (sem_perm ds) = IPCID_TO_SEQ id.

Definition semget_found (r : (Z * option Z) * sstate) (cred : ucred) (k nsems flg : Z) (st : sstate) : Prop :=
  exists id ds, r = ((0, Some id), st) /\ names st id ds /\ key (sem_perm ds) = k /\
    k <> IPC_PRIVATE /\ nsems <= sem_nsems ds /\
    ipcperm cred (sem_perm ds) (Z.land flg 448) = 0 /\
    (has flg IPC_CREAT && has flg IPC_EXCL = false).

Definition semget_created (r : (Z * option Z) * sstate) (cred : ucred) (k nsems flg : Z) (st : sstate) : Prop :=
  exists id ds st', r = ((0, Some id), st') /\ sema_at (IPCID_TO_IX id) st = None /\ names st' id ds /\
    (k <> IPC_PRIVATE -> Forall (fun d => ~ has_key k d) (sema st)) /\
    key (sem_perm ds) = k /\ uid (sem_perm ds) = cr_uid cred /\ mode (sem_perm ds) = Z.land flg 511 /\
    sem_nsems ds = nsems /\ sem_base ds = replicate (Z.to_nat nsems) (mkSem 0 0 0 0) /\
    semtot st' = semtot st + nsems /\ semtot st' <= semmns (info st) /\
    semu_list st' = semu_list st /\
    forall j, 0 <= j -> j <> IPCID_TO_IX id -> sema_at j st' = sema_at j st.

Lemma semget_alloc_spec a cred k nsems flg st :
  sem_wf st -> semtot st + nsems <= semmns (info st) ->
  (k <> IPC_PRIVATE -> Forall (fun d => ~ has_key k d) (sema st)) ->
  semget_refused (semget_alloc a cred k nsems flg st) st \/
  semget_created (semget_alloc a cred k nsems flg st) cred k nsems flg st.
Proof.
  intros Hwf Htot Hkey. unfold semget_alloc.
  destruct (list_find is_free (sema st)) as [[ix d]|] eqn:Hf; [right|left; by exists ENOSPC].
  apply list_find_Some in Hf as (Hix & Hd & _). unfold is_free in Hd. subst d.
  set (q := Z.land _ 32767). set (p := mkPerm _ _ _ _ _ _ _).
  pose proof (lookup_lt_Some _ _ _ Hix) as Hlt. rewrite (w_len _ Hwf) in Hlt.
  assert (Hidx : 0 <= Z.of_nat ix <= 65535) by (pose proof (w_mni _ Hwf); lia).
  destruct (ipcid_roundtrip (Z.of_nat ix) p Hidx) as [H1 H2]; [apply land_32767|].
  eexists (IXSEQ_TO_IPCID (Z.of_nat ix) p), _, _. split; [reflexivity|].
  unfold names, sema_at. rewrite H1, H2. simpl. rewrite !Nat2Z.id, Hix.
  rewrite list_lookup_insert_eq by (rewrite (w_len _ Hwf); lia). simpl.
  split_and!; try done. intros j Hj Hne. by rewrite list_lookup_insert_ne by lia.
Qed.

(** Semget, when it does not have to wait for memory, does exactly one
    of three things: it refuses with an error and changes nothing; it returns
    an id that names the existing set with that key, which is large enough,
    permits the access asked for and was not required to be new; or - no set
    has the key - it creates one in a free slot: the id it returns names the
    new set, whose semaphores are all zero, owned by the caller, the total
    stays within semmns, and no other set or undo entry is touched. *)
Theorem semget_correct a cred k nsems flg st :
  sem_wf st ->
  let r := sys_semget a (fun s => s) cred k nsems flg st in
  semget_refused r st \/ semget_found r cred k nsems flg st \/ semget_created r cred k nsems flg st.
Proof.
  intros Hwf. unfold sys_semget. set (creat := (k =? IPC_PRIVATE) || has flg IPC_CREAT).
  destruct (creat && ((nsems <=? 0) || _)); [left; by exists EINVAL|].
  destruct (creat && (nsems >? _)) eqn:Hspace; [left; by exists ENOSPC|].
  cbv zeta. replace (if creat then st else st) with st by (by destruct creat).
  assert (Halloc : (k <> IPC_PRIVATE -> Forall (fun d => ~ has_key k d) (sema st)) ->
    let r := if creat then semget_alloc a cred k nsems flg st else ((ENOENT, None), st) in
    semget_refused r st \/ semget_found r cred k nsems flg st \/ semget_created r cred k nsems flg st).
  { intros Hk. destruct creat; [|left; by exists ENOENT]. simpl in Hspace. bool_to_prop.
    apply Z.ltb_ge in Hspace. cbv zeta.
    destruct (semget_alloc_spec a cred k nsems flg st) as [H|H]; [done|lia|done|by left|by right; right]. }
  destruct (Z.eqb_spec k IPC_PRIVATE) as [Hk|Hk]; simpl; [by apply Halloc|].
  destruct (list_find (has_key k) (sema st)) as [[ix [ds|]]|] eqn:Hf.
  - apply list_find_Some in Hf as (Hix & Hkey & _). simpl in Hkey.
    assert (Hd : ds_wf ds) by (by eapply w_ds).
    destruct (Z.eqb_spec (ipcperm cred (sem_perm ds) (Z.land flg 448)) 0) as [Hp|Hp]; simpl.
    2:{ left. by eexists. }
    destruct ((nsems >? 0) && _) eqn:Hn; [left; by exists EINVAL|].
    destruct (has flg IPC_CREAT && _) eqn:He; [left; by exists EEXIST|].
    right; left. pose proof (lookup_lt_Some _ _ _ Hix) as Hlt. rewrite (w_len _ Hwf) in Hlt.
    destruct (ipcid_roundtrip (Z.of_nat ix) (sem_perm ds)) as [H1 H2];
      [pose proof (w_mni _ Hwf); lia|apply Hd|].
    eexists _, ds. split; [reflexivity|]. unfold names, sema_at. rewrite H1, H2, Nat2Z.id, Hix.
    split_and!; try done. apply andb_false_iff in Hn. destruct Hd.
    destruct Hn as [Hn|Hn]; bool_to_prop; [apply Z.ltb_ge in Hn|]; lia.
  - apply list_find_Some in Hf as (_ & Hkey & _). done.
  - apply Halloc. intros _. by apply list_find_None in Hf.
Qed.

Lemma semget_correct_witness :
  semget_refused (sys_semget 3 (fun s => s) root_cred 7 3 0 after_up) after_up \/
  semget_found (sys_semget 3 (fun s => s) root_cred 7 3 0 after_up) root_cred 7 3 0 after_up \/
  semget_created (sys_semget 3 (fun s => s) root_cred 7 3 0 after_up) root_cred 7 3 0 after_up.
Proof. apply (semget_correct 3 root_cred 7 3 0 after_up). exact after_up_wf. Defined.

(** ** Removing a set *)

Lemma next_seq_differs q : 0 <= q < 32768 -> Z.land (q + 1) 32767 <> q.
Proof.
  intros Hq. change 32767 with (Z.ones 15). rewrite Z.land_ones by lia. change (2 ^ 15) with 32768.
  destruct (decide (q = 32767)) as [->|Hne]; [done|]. rewrite Z.mod_small by lia. lia.
Qed.

Lemma semget_alloc_seq a cred k nsems flg st id st' :
  sem_wf st -> semget_alloc a cred k nsems flg st = ((0, Some id), st') ->
  IPCID_TO_SEQ id = Z.land (default 0 (semseqs st !! Z.to_nat (IPCID_TO_IX id)) + 1) 32767.
Proof.
  intros Hwf. unfold semget_alloc.
  destruct (list_find is_free (sema st)) as [[ix d]|] eqn:Hf; [|done].
  apply list_find_Some in Hf as (Hix & _). set (q := Z.land _ 32767). set (p := mkPerm _ _ _ _ _ _ _).
  pose proof (lookup_lt_Some _ _ _ Hix) as Hlt. rewrite (w_len _ Hwf) in Hlt.
  destruct (ipcid_roundtrip (Z.of_nat ix) p) as [H1 H2]; [pose proof (w_mni _ Hwf); lia|apply land_32767|].
  intros [= <- _]. by rewrite H1, H2, Nat2Z.id.
Qed.

(** IPC_RMID by an owner removes the set for good.  The set, its share
    of the semaphore total and exactly the undo entries that refer to it
    disappear, everybody asleep on it is woken, and the id is dead: semctl and
    semop on it fail with EINVAL and change nothing, and a set created next,
    even one that takes the same slot, is given a different id. *)
Theorem semctl_rmid_revokes slept cred id semnum arg st ds :
  sem_wf st -> names st id ds -> IPCID_TO_IX id < semmni (info st) ->
  ipcperm cred (sem_perm ds) IPC_M = 0 ->
  exists st', semctl1 slept cred id semnum IPC_RMID arg st = Some (fail 0, st') /\ sem_wf st' /\
    sema_at (IPCID_TO_IX id) st' = None /\
    (forall j, 0 <= j -> j <> IPCID_TO_IX id -> sema_at j st' = sema_at j st) /\
    semtot st' = semtot st - sem_nsems ds /\
    undo_map (semu_list st') =
      filter (fun kv : ukey * Z => kv.1.1.2 <> IPCID_TO_IX id) (undo_map (semu_list st)) /\
    wakeups st' = IPCID_TO_IX id :: wakeups st /\
    (forall sl c n cmd arg', semctl1 sl c id n cmd arg' st' = Some (fail EINVAL, st')) /\
    (forall a sl sl0 wk c pr pid n sops, sys_semop a sl sl0 wk c pr pid id n sops st' = Ret EINVAL st') /\
    (forall a c k n flg id' st'', semget_alloc a c k n flg st' = ((0, Some id'), st'') -> id' <> id).
Proof.
  intros Hwf [Hat Hseq] Hix Hp. pose proof (IPCID_TO_IX_nonneg id) as Hix0.
  set (st1 := put_ds (IPCID_TO_IX id) None (with_semtot (semtot st - sem_nsems ds) st)).
  assert (Hctl : semctl1 slept cred id semnum IPC_RMID arg st =
    Some (fail 0, wakeup (IPCID_TO_IX id) (semundo_clear (IPCID_TO_IX id) (-1) st1))).
  { unfold semctl1. rewrite Hat, Hseq, Z.eqb_refl, Hp.
    replace (IPCID_TO_IX id <? 0) with false by (symmetry; apply Z.ltb_ge; lia).
    replace (IPCID_TO_IX id >=? _) with false by (symmetry; rewrite Z.geb_leb; apply Z.leb_gt; lia). done. }
  rewrite Hctl. eexists. split; [reflexivity|].
  pose proof (remove_set_wf _ _ _ Hix0 Hwf Hat) as Hwf1. fold st1 in Hwf1.
  destruct (clear_keeps (IPCID_TO_IX id) (-1) st1 (w_undo _ Hwf)) as (n & l & Hc & Hw & Hk & Hne).
  pose proof (clear_list_spec (IPCID_TO_IX id) (-1) _ _ (w_undo _ Hwf)) as Hcl.
  rewrite Hc in *. set (st' := wakeup _ _).
  pose proof (proj1 (sema_at_Some _ _ _) Hat) as Hslot. pose proof (lookup_lt_Some _ _ _ Hslot) as Hlt.
  assert (Hnone : sema_at (IPCID_TO_IX id) st' = None).
  { unfold sema_at. simpl. by rewrite list_lookup_insert_eq. }
  split_and!.
  - by apply wf_wakeup.
  - done.
  - intros j Hj Hjne. unfold sema_at. simpl. by rewrite list_lookup_insert_ne by lia.
  - done.
  - simpl. apply map_eq. intros k. apply option_eq. intros v. rewrite map_lookup_filter_Some. simpl.
    split; [intros Hv; split; [by apply Hk|by eapply Hne]|]. intros [Hv Hkne].
    unfold semundo_clear in Hc. simpl in Hc. destruct (clear_list _ _ _ _) as [l' n'].
    assert (l' = l) as -> by (by injection Hc).
    destruct Hcl as (_ & _ & _ & (gone & Hg & Hgone) & _).
    apply (undo_map_Some _ _ _ _ (w_undo _ Hwf)) in Hv. rewrite Hg in Hv.
    apply (undo_map_Some _ _ _ _ Hw). apply elem_of_app in Hv as [Hv|Hv]; [|done].
    rewrite Forall_forall in Hgone. by destruct (Hgone _ Hv).
  - done.
  - intros sl c num cmd arg'. unfold semctl1. rewrite Hnone. by destruct (_ || _).
  - intros. unfold sys_semop. rewrite Hnone. by destruct (_ || _).
  - intros a c k num flg id' st'' Hal Heq. subst id'.
    apply semget_alloc_seq in Hal; [|by apply wf_wakeup]. simpl in Hal.
    rewrite (w_live _ Hwf _ _ Hslot) in Hal. simpl in Hal. rewrite <- Hseq in Hal.
    pose proof (dw_seq _ (w_ds _ Hwf _ _ Hslot)) as Hq. by apply (next_seq_differs _ Hq).
Qed.

Lemma semctl_rmid_revokes_witness :
  exists st', semctl1 (fun s => s) root_cred the_id 0 IPC_RMID (mkArg 0 (inl 14) (fun _ => inl 14) 0 (fun _ => 0)) after_up
    = Some (fail 0, st') /\ undo_map (semu_list st') = ∅.
Proof.
  destruct (sema_at 0 after_up) as [ds|] eqn:Hat; [|by vm_compute in Hat].
  destruct (semctl_rmid_revokes (fun s => s) root_cred the_id 0
    (mkArg 0 (inl 14) (fun _ => inl 14) 0 (fun _ => 0)) after_up ds) as (st' & H & _ & _ & _ & _ & Hm & _).
  - exact after_up_wf.
  - split; [exact Hat|]. vm_compute in Hat. injection Hat as <-. vm_compute. reflexivity.
  - vm_compute. reflexivity.
  - vm_compute in Hat. injection Hat as <-. vm_compute. reflexivity.
  - exists st'. split; [exact H|]. rewrite Hm. vm_compute. reflexivity.
Defined.

(** ** Where the code falls short *)

Definition one_up : sstate :=
  state_of (sys_semop 9 None (fun s => s) [] root_cred 42 4242 the_id 1
              (inr [mkSop 0 1 SEM_UNDO]) with_set) boot.

(** C36: three ways in which [sys_semop] is not the atomic operation its
    comment promises.  (1) A request with a number out of range returns EFBIG
    without rolling back the requests before it: semaphore 0 stays raised.
    (2) When a SEM_UNDO request cancels the last adjustment the process owes,
    the undo structure is freed but the caller's cached pointer to it is kept,
    so the next SEM_UNDO request of the same call works on freed memory.
    (3) The count of SEM_UNDO requests is not reset when the call starts over
    after a sleep: a vector with one SEM_UNDO request fails with ENOSPC after
    ten wake-ups although the process owes nothing. *)
Theorem semop_defects :
  (exists st', sys_semop 9 None (fun s => s) [] root_cred 42 4242 the_id 2
                 (inr [mkSop 0 5 0; mkSop 7 1 0]) with_set = Ret EFBIG st' /\
     val_at with_set 0 0 = Some 0 /\ val_at st' 0 0 = Some 5) /\
  (undo_map (semu_list one_up) = {[ (42, 0, 0) := -1 ]} /\
   sys_semop 9 None (fun s => s) [] root_cred 42 4242 the_id 2
     (inr [mkSop 0 (-1) SEM_UNDO; mkSop 1 1 SEM_UNDO]) one_up = Freed) /\
  (semu_list with_set = [] /\
   exists st', sys_semop 9 None (fun s => s) (replicate 10 (fun s => s, 0)) root_cred 42 4242 the_id 2
     (inr [mkSop 0 1 SEM_UNDO; mkSop 1 (-1) 0]) with_set = Ret ENOSPC st').
Proof.
  split_and!; try (vm_compute; reflexivity).
  - eexists. split_and!; vm_compute; reflexivity.
  - eexists. vm_compute. reflexivity.
Qed.

Definition set_to (v : Z) : semun := mkArg v (inl 14) (fun _ => inl 14) 0 (fun _ => 0).

(** SETVAL is meant to clear the adjustments every process owes to the
    semaphore, but [semundo_clear] stops at the first entry of the set even
    when it is for another semaphore.  A process owes -1 to semaphore 0 and
    -2 to semaphore 1; semaphore 1 is set to 5; the entry for semaphore 1
    survives and the exit of the process takes the semaphore to 3. *)
Theorem semundo_clear_stops_early :
  exists st1 st2, semctl1 (fun s => s) root_cred the_id 1 SETVAL (set_to 5) after_up = Some (fail 0, st1) /\
    val_at st1 0 1 = Some 5 /\
    undo_map (semu_list st1) !! (42, 0, 1) = Some (-2) /\
    semexit 42 st1 = Some st2 /\ val_at st2 0 1 = Some 3.
Proof. eexists _, _. split_and!; vm_compute; reflexivity. Qed.

(** Both tables are reallocated when semmni grows, and the second allocation
    may sleep after the sets were copied.  A set removed during that sleep is
    in the new table again, although its memory has been given back: the table
    holds a set of two semaphores and the total says there are none. *)
Theorem sysctl_revives_set :
  let rmid s := match semctl1 (fun s => s) root_cred the_id 0 IPC_RMID (set_to 0) s with
                | Some (_, s') => s' | None => s end in
  exists st ds, sysctl_sysvsem (fun s => s) rmid 1 2 (mkIo None (Some (4, inr 20))) with_set = Some (0, st) /\
    sema_at 0 (rmid with_set) = None /\ sema_at 0 st = Some ds /\ sem_nsems ds = 2 /\
    semtot st = 0 /\ ~ sem_wf st.
Proof.
  intros rmid. eexists _, _. split; [vm_compute; reflexivity|].
  split_and!; try (vm_compute; reflexivity).
  intros [_ _ _ _ _ _ Htot _ _]. vm_compute in Htot. discriminate Htot.
Qed.
