(* ===== verification/Clock.v ===== *)
(** * Dates, time values and ticks

    The conversions between seconds and calendar dates
    (sys/kern/clock_subr.c), the arithmetic on time values (sys/sys/time.h),
    the conversion of a time to clock ticks (sys/kern/kern_clock.c) and the
    checks and rate limits of sys/kern/kern_time.c.  [time_t] and [long] have
    64 bits; an [int] computation that overflows wraps. *)

From stdpp Require Import base numbers list option.
From Stdlib Require Import ZArith Lia Bool.
From S2P Require Import Prelude.

(** ** Widths *)

Definition int (x : Z) : Z := sint 32 x.
Definition u8 (x : Z) : Z := x `mod` 256.
Definition time_t (x : Z) : Z := sint 64 x.
Definition LONG_MAX : Z := 9223372036854775807.

(** ** Calendar *)

Definition SECDAY : Z := 86400.
Definition POSIX_BASE_YEAR : Z := 1970.
Definition FEBRUARY : Z := 2.

Definition month_days : list Z := [31; 28; 31; 30; 31; 30; 31; 31; 30; 31; 30; 31].

Definition leapyear (year : Z) : bool :=
  if Z.land year 3 =? 0 then
    if Z.rem year 100 =? 0 then
      if Z.rem year 400 =? 0 then true else false
    else true
  else false.

Definition days_in_year (y : Z) : Z := if leapyear y then 366 else 365.

Record clock_ymdhms := mkDate {
  dt_year : Z; dt_mon : Z; dt_day : Z; dt_wday : Z; dt_hour : Z; dt_min : Z; dt_sec : Z }.

(** [for (i = POSIX_BASE_YEAR; i < year; i++) days += days_in_year(i)], with
    [n] rounds to go. *)
Fixpoint add_years (n : nat) (i days : Z) : Z :=
  match n with
  | O => days
  | S n => add_years n (i + 1) (int (days + days_in_year i))
  end.

(** [for (i = 1; i < dt_mon; i++) days += days_in_month(i)]; [None] when the
    table is read past its end. *)
Fixpoint add_months (n : nat) (table : list Z) (days : Z) : option Z :=
  match n with
  | O => Some days
  | S n => match table with
           | m :: table => add_months n table (int (days + m))
           | [] => None
           end
  end.

Definition clock_ymdhms_to_secs (dt : clock_ymdhms) : option Z :=
  let year := dt_year dt in
  let days := add_years (Z.to_nat (year - POSIX_BASE_YEAR)) POSIX_BASE_YEAR 0 in
  let days := if leapyear year && (dt_mon dt >? FEBRUARY) then int (days + 1) else days in
  days ← add_months (Z.to_nat (dt_mon dt - 1)) month_days days;
  let days := int (days + (dt_day dt - 1)) in
  Some (time_t (int (int (days * 24 + dt_hour dt) * 60 + dt_min dt) * 60 + dt_sec dt)).

(** [for (i = POSIX_BASE_YEAR; days >= days_in_year(i); i++)]. *)
Fixpoint sub_years (fuel : nat) (i days : Z) : option (Z * Z) :=
  if days >=? days_in_year i then
    match fuel with
    | O => None
    | S fuel => sub_years fuel (i + 1) (days - days_in_year i)
    end
  else Some (i, days).

(** [for (i = 1; days >= days_in_month(i); i++)] on the local copy of the
    table. *)
Fixpoint sub_months (table : list Z) (i days : Z) : option (Z * Z) :=
  match table with
  | [] => None
  | m :: table => if days >=? m then sub_months table (i + 1) (days - m) else Some (i, days)
  end.

Definition mthdays (leap : bool) : list Z :=
  if leap then <[1%nat := 29]> month_days else month_days.

Definition clock_secs_to_ymdhms (secs : Z) : option clock_ymdhms :=
  let days := int (Z.quot secs SECDAY) in
  let rsec := int (Z.rem secs SECDAY) in
  let wday := Z.rem (int (days + 4)) 7 in
  '(year, days) ← sub_years (S (Z.to_nat (days / 365))) POSIX_BASE_YEAR days;
  '(mon, days) ← sub_months (mthdays (leapyear year)) 1 days;
  let hour := Z.quot rsec 3600 in
  let rsec := Z.rem rsec 3600 in
  Some (mkDate (u16 year) (u8 mon) (u8 (days + 1)) (u8 wday)
          (u8 hour) (u8 (Z.quot rsec 60)) (u8 (Z.rem rsec 60))).

Definition FROMBCD (x : Z) : Z := Z.shiftr x 4 * 10 + Z.land x 15.
Definition TOBCD (x : Z) : Z := Z.quot x 10 * 16 + Z.rem x 10.

(** ** Time values *)

Record timeval := mkTv { tv_sec : Z; tv_usec : Z }.
Record timespec := mkTs { ts_sec : Z; tv_nsec : Z }.

Definition timerclear : timeval := mkTv 0 0.
Definition timerisset (tv : timeval) : bool := negb (tv_sec tv =? 0) || negb (tv_usec tv =? 0).

(** [timercmp(tvp, uvp, cmp)] for the operators [<], [>] and [>=]. *)
Definition timercmp (cmp : Z -> Z -> bool) (tv uv : timeval) : bool :=
  if tv_sec tv =? tv_sec uv then cmp (tv_usec tv) (tv_usec uv) else cmp (tv_sec tv) (tv_sec uv).

Definition timeradd (tv uv : timeval) : timeval :=
  let s := time_t (tv_sec tv + tv_sec uv) in
  let u := tv_usec tv + tv_usec uv in
  if u >=? 1000000 then mkTv (time_t (s + 1)) (u - 1000000) else mkTv s u.

Definition timersub (tv uv : timeval) : timeval :=
  let s := time_t (tv_sec tv - tv_sec uv) in
  let u := tv_usec tv - tv_usec uv in
  if u <? 0 then mkTv (time_t (s - 1)) (u + 1000000) else mkTv s u.

Definition TIMESPEC_TO_TIMEVAL (ts : timespec) : timeval :=
  mkTv (ts_sec ts) (Z.quot (tv_nsec ts) 1000).

Record bintime := mkBt { bt_sec : Z; bt_frac : Z }.

Definition timespec2bintime (ts : timespec) : bintime :=
  mkBt (ts_sec ts) (ul (ul (tv_nsec ts) * 18446744073)).

Definition timeval2bintime (tv : timeval) : bintime :=
  mkBt (tv_sec tv) (ul (ul (tv_usec tv) * 18446744073709)).

Definition bintime2timeval (bt : bintime) : timeval :=
  mkTv (bt_sec bt) (Z.shiftr (ul (1000000 * Z.shiftr (bt_frac bt) 32)) 32).

Definition bintime2timespec (bt : bintime) : timespec :=
  mkTs (bt_sec bt) (Z.shiftr (ul (1000000000 * Z.shiftr (bt_frac bt) 32)) 32).

(** ** Ticks *)

Section Ticks.
(** The clock runs at [hz] interrupts per second, one every [tick]
    microseconds. *)
Context (hz tick : Z).

Definition tvtohz (tv : timeval) : Z :=
  let sec := tv_sec tv in
  let usec := tv_usec tv in
  let nticks :=
    if (sec <? 0) || ((sec =? 0) && (usec <=? 0)) then 0
    else if sec <=? LONG_MAX / 1000000 then
      ul (ul (sec * 1000000 + ul usec + (tick - 1)) / tick + 1)
    else if sec <=? LONG_MAX / hz then
      ul (sec * hz + ul (ul usec + (tick - 1)) / tick + 1)
    else LONG_MAX in
  if nticks >? INT_MAX then INT_MAX else nticks.

Definition tstohz (ts : timespec) : Z :=
  let tv := TIMESPEC_TO_TIMEVAL ts in
  let tv :=
    if negb (Z.rem (tv_nsec ts) 1000 =? 0) then
      let u := tv_usec tv + 1 in
      if u >=? 1000000 then mkTv (tv_sec tv + 1) (u - 1000000) else mkTv (tv_sec tv) u
    else tv in
  tvtohz tv.

(** ** Checks on times given by users *)

Definition timespecfix (ts : timespec) : Z :=
  if (ts_sec ts <? 0) || (ts_sec ts >? 100000000) || (tv_nsec ts <? 0) ||
     (tv_nsec ts >=? 1000000000) then EINVAL else 0.

Definition itimerround (tv : timeval) : timeval :=
  if (tv_sec tv =? 0) && negb (tv_usec tv =? 0) && (tv_usec tv <? tick)
  then mkTv (tv_sec tv) tick else tv.

(** The error and the value left in [*tv]. *)
Definition itimerfix (tv : timeval) : Z * timeval :=
  if (tv_sec tv <? 0) || (tv_sec tv >? 100000000) || (tv_usec tv <? 0) || (tv_usec tv >=? 1000000)
  then (EINVAL, tv)
  else (0, itimerround tv).

End Ticks.

(** ** Rate limits

    [now] is what [getmicrouptime] or [microuptime] returns. *)

Definition ratecheck (now lasttime mininterval : timeval) : Z * timeval :=
  let delta := timersub now lasttime in
  if timercmp Z.geb delta mininterval || ((tv_sec lasttime =? 0) && (tv_usec lasttime =? 0))
  then (1, now) else (0, lasttime).

(** Result: the verdict, [*lasttime] and [*curpps]. *)
Definition ppsratecheck (now lasttime : timeval) (curpps maxpps : Z) : Z * timeval * Z :=
  let delta := timersub now lasttime in
  let '(rv, lasttime, curpps) :=
    if maxpps =? 0 then (0, lasttime, curpps)
    else if ((tv_sec lasttime =? 0) && (tv_usec lasttime =? 0)) || (tv_sec delta >=? 1)
    then (1, now, 0)
    else if maxpps <? 0 then (1, lasttime, curpps)
    else if curpps <? maxpps then (1, lasttime, curpps)
    else (0, lasttime, curpps) in
  (rv, lasttime, if int (curpps + 1) >? curpps then int (curpps + 1) else curpps).
