(* ===== verification/ClockFacts.v ===== *)
(** * Dates and ticks: theorems

    The calendar conversions are inverse to each other on the dates whose
    minutes fit in an [int], and a time is turned into enough ticks, and no
    more than one too many. *)

From stdpp Require Import base numbers list option.
From Stdlib Require Import ZArith Lia Bool.
From S2P Require Import Prelude Clock.

(** ** Widths *)

Lemma sint_id w x : 0 < w -> - 2 ^ (w - 1) <= x < 2 ^ (w - 1) -> sint w x = x.
Proof.
  intros Hw Hx. unfold sint.
  assert (Hp : 2 ^ w = 2 * 2 ^ (w - 1)).
  { rewrite <- Z.pow_succ_r by lia. f_equal. lia. }
  rewrite Hp. set (h := 2 ^ (w - 1)) in *.
  destruct (decide (0 <= x)).
  - rewrite Z.mod_small by lia. destruct (Z.ltb_spec x h); lia.
  - rewrite <- (Z_mod_plus_full _ 1), Z.mod_small by lia.
    destruct (Z.ltb_spec (x + 1 * (2 * h)) h); lia.
Qed.

Lemma sint_mod w x : 0 < w -> sint w x `mod` 2 ^ w = x `mod` 2 ^ w.
Proof.
  intros Hw. unfold sint. destruct (_ <? _); [by rewrite Zmod_mod|].
  replace (x mod 2 ^ w - 2 ^ w) with (x mod 2 ^ w + (-1) * 2 ^ w) by lia.
  by rewrite Z_mod_plus_full, Zmod_mod.
Qed.

Lemma int_add_l x y : int (int x + y) = int (x + y).
Proof.
  unfold int. unfold sint at 1 3.
  by rewrite <- (Zplus_mod_idemp_l (sint 32 x)), sint_mod, Zplus_mod_idemp_l by lia.
Qed.

Lemma int_id x : -2147483648 <= x < 2147483648 -> int x = x.
Proof. intros. apply sint_id; [lia|]. change (2 ^ (32 - 1)) with 2147483648. lia. Qed.

(** Removes the wrap-around of the [int] computations that do not overflow,
    the innermost first. *)
Ltac strip_int :=
  repeat match goal with
  | |- context [int ?x] =>
      lazymatch x with context [int _] => fail | _ => rewrite (int_id x) by lia end
  end.

Lemma time_t_id x : -9223372036854775808 <= x < 9223372036854775808 -> time_t x = x.
Proof. intros. apply sint_id; [lia|]. change (2 ^ (64 - 1)) with 9223372036854775808. lia. Qed.

Lemma u8_id x : 0 <= x < 256 -> u8 x = x.
Proof. apply Z.mod_small. Qed.

(** ** Years *)

(** The test that avoids divisions is the Gregorian rule. *)
Lemma leapyear_gregorian y :
  0 <= y ->
  leapyear y = (y mod 4 =? 0) && negb (y mod 100 =? 0) || (y mod 400 =? 0).
Proof.
  intros Hy. unfold leapyear. change 3 with (Z.ones 2). rewrite Z.land_ones by lia.
  change (2 ^ 2) with 4. rewrite !Z.rem_mod_nonneg by lia.
  destruct (Z.eqb_spec (y mod 4) 0), (Z.eqb_spec (y mod 100) 0), (Z.eqb_spec (y mod 400) 0);
    simpl; try done; exfalso; Z.to_euclidean_division_equations; lia.
Qed.

Lemma days_in_year_bounds y : 365 <= days_in_year y <= 366.
Proof. unfold days_in_year. destruct (leapyear y); lia. Qed.

(** Days from the epoch to the start of the [n]-th year after 1970. *)
Fixpoint year_days (n : nat) : Z :=
  match n with
  | O => 0
  | S n => year_days n + days_in_year (POSIX_BASE_YEAR + Z.of_nat n)
  end.

Lemma year_days_bounds n : 365 * Z.of_nat n <= year_days n <= 366 * Z.of_nat n.
Proof.
  induction n as [|n IH]; simpl year_days; [lia|].
  pose proof (days_in_year_bounds (POSIX_BASE_YEAR + Z.of_nat n)). lia.
Qed.

Lemma year_days_mono n m : (n <= m)%nat -> year_days n <= year_days m.
Proof.
  induction 1 as [|m Hm IH]; [lia|]. simpl.
  pose proof (days_in_year_bounds (POSIX_BASE_YEAR + Z.of_nat m)). lia.
Qed.

(** The years after the first [k]. *)
Lemma add_years_from n k :
  Z.of_nat (k + n) <= 65536 ->
  add_years n (POSIX_BASE_YEAR + Z.of_nat k) (year_days k) = year_days (k + n).
Proof.
  revert k. induction n as [|n IH]; intros k Hk; simpl.
  - f_equal. lia.
  - replace (POSIX_BASE_YEAR + Z.of_nat k + 1) with (POSIX_BASE_YEAR + Z.of_nat (S k)) by lia.
    rewrite int_id.
    + change (year_days k + days_in_year (POSIX_BASE_YEAR + Z.of_nat k)) with (year_days (S k)).
      rewrite IH by lia. f_equal. lia.
    + pose proof (year_days_bounds k). pose proof (days_in_year_bounds (POSIX_BASE_YEAR + Z.of_nat k)). lia.
Qed.

Lemma sub_years_spec fuel k days :
  0 <= days -> days / 365 < Z.of_nat fuel ->
  exists n d, sub_years fuel (POSIX_BASE_YEAR + Z.of_nat k) days = Some (POSIX_BASE_YEAR + Z.of_nat n, d) /\
    days + year_days k = year_days n + d /\ 0 <= d < days_in_year (POSIX_BASE_YEAR + Z.of_nat n) /\
    (k <= n)%nat.
Proof.
  revert k days. induction fuel as [|fuel IH]; intros k days Hd Hf.
  { exfalso. pose proof (Z.div_pos days 365). lia. }
  pose proof (days_in_year_bounds (POSIX_BASE_YEAR + Z.of_nat k)) as Hb. simpl sub_years.
  destruct (days >=? _) eqn:E; rewrite Z.geb_leb in E; bool_to_prop.
  - replace (POSIX_BASE_YEAR + Z.of_nat k + 1) with (POSIX_BASE_YEAR + Z.of_nat (S k)) by lia.
    destruct (IH (S k) (days - days_in_year (POSIX_BASE_YEAR + Z.of_nat k))) as (n & d & -> & H1 & H2 & H3).
    + lia.
    + assert ((days - days_in_year (POSIX_BASE_YEAR + Z.of_nat k)) / 365 <= (days - 365) / 365)
        by (apply Z.div_le_mono; lia).
      replace (days - 365) with (days + (-1) * 365) in * by lia.
      rewrite Z.div_add in * by lia. lia.
    + exists n, d. simpl year_days in H1. split_and!; [done|lia|lia|lia|lia].
  - exists k, days. split_and!; [done|lia|lia|lia|lia].
Qed.

(** The year and the day of the year are determined by the days. *)
Lemma year_unique n d n' d' :
  year_days n + d = year_days n' + d' ->
  0 <= d < days_in_year (POSIX_BASE_YEAR + Z.of_nat n) ->
  0 <= d' < days_in_year (POSIX_BASE_YEAR + Z.of_nat n') -> n = n' /\ d = d'.
Proof.
  intros H H1 H2.
  assert (Hlt : forall a b x y, (a < b)%nat -> 0 <= x < days_in_year (POSIX_BASE_YEAR + Z.of_nat a) ->
    0 <= y -> year_days a + x < year_days b + y).
  { intros a b x y Hab Hx Hy. pose proof (year_days_mono (S a) b Hab) as Hm. simpl in Hm. lia. }
  destruct (lt_eq_lt_dec n n') as [[Hn|Hn]|Hn].
  - pose proof (Hlt n n' d d' Hn H1). lia.
  - subst. lia.
  - pose proof (Hlt n' n d' d Hn H2). lia.
Qed.

(** ** Months *)

(** Days from the start of the year to the start of month [m] (1 to 12). *)
Definition month_start (leap : bool) (m : Z) : Z :=
  foldr Z.add 0 (take (Z.to_nat (m - 1)) (mthdays leap)).

Definition days_in_month (leap : bool) (m : Z) : Z :=
  default 0 (mthdays leap !! Z.to_nat (m - 1)).

(** A statement about the twelve months, checked one by one. *)
Lemma months_forall (P : Z -> Prop) :
  Forall P [1;2;3;4;5;6;7;8;9;10;11;12] -> forall m, 1 <= m <= 12 -> P m.
Proof.
  intros H m Hm. repeat (apply Forall_cons_1 in H as [? H]).
  assert (m = 1 \/ m = 2 \/ m = 3 \/ m = 4 \/ m = 5 \/ m = 6 \/ m = 7 \/ m = 8 \/ m = 9 \/
    m = 10 \/ m = 11 \/ m = 12) as Hc by lia.
  destruct Hc as [->|[->|[->|[->|[->|[->|[->|[->|[->|[->|[->| ->]]]]]]]]]]]; assumption.
Qed.

Lemma month_bounds leap m :
  1 <= m <= 12 ->
  0 <= month_start leap m /\ 28 <= days_in_month leap m <= 31 /\
  month_start leap m + days_in_month leap m <= (if leap then 366 else 365).
Proof.
  revert m. apply months_forall.
  destruct leap; repeat apply Forall_cons_2; try apply Forall_nil_2; vm_compute; intuition congruence.
Qed.

Lemma add_months_spec m leap days :
  1 <= m <= 12 -> 0 <= days <= 25000000 ->
  add_months (Z.to_nat (m - 1)) month_days
    (if leap && (m >? FEBRUARY) then int (days + 1) else days) = Some (days + month_start leap m).
Proof.
  intros Hm Hd. revert m Hm. apply months_forall.
  destruct leap; repeat apply Forall_cons_2; try apply Forall_nil_2;
    match goal with
    | |- add_months (Z.to_nat ?e) _ (if ?b then _ else _) = Some (_ + month_start ?l ?m) =>
        let v := eval vm_compute in (month_start l m) in change (month_start l m) with v;
        let k := eval vm_compute in (Z.to_nat e) in change (Z.to_nat e) with k;
        let c := eval vm_compute in b in change b with c;
        cbv beta iota; cbn [add_months month_days]
    end; strip_int; f_equal; lia.
Qed.

Lemma sub_months_spec (leap : bool) days :
  0 <= days < (if leap then 366 else 365) ->
  exists m d, sub_months (mthdays leap) 1 days = Some (m, d) /\ 1 <= m <= 12 /\
    days = month_start leap m + d /\ 0 <= d < days_in_month leap m.
Proof.
  intros Hd.
  destruct leap; simpl mthdays; unfold month_days; simpl list_insert; cbn [sub_months];
    repeat match goal with
    | |- exists _ _, (if ?x >=? ?y then _ else _) = _ /\ _ =>
        rewrite (Z.geb_leb x y); destruct (Z.leb_spec y x);
        [|eexists _, _; split; [reflexivity|]; split; [lia|]; split;
          [match goal with |- _ = month_start ?l ?m + _ =>
             let v := eval vm_compute in (month_start l m) in change (month_start l m) with v end; lia
          |match goal with |- _ <= _ < days_in_month ?l ?m =>
             let v := eval vm_compute in (days_in_month l m) in change (days_in_month l m) with v end; lia]]
    end; lia.
Qed.

Lemma month_unique (leap : bool) m d m' d' :
  1 <= m <= 12 -> 1 <= m' <= 12 ->
  month_start leap m + d = month_start leap m' + d' ->
  0 <= d < days_in_month leap m -> 0 <= d' < days_in_month leap m' -> m = m' /\ d = d'.
Proof.
  assert (Hs : forall a, 1 <= a <= 12 -> forall b, 1 <= b <= 12 -> a < b ->
    month_start leap a + days_in_month leap a <= month_start leap b).
  { apply (months_forall (fun a => forall b, 1 <= b <= 12 -> a < b ->
      month_start leap a + days_in_month leap a <= month_start leap b)).
    repeat apply Forall_cons_2; try apply Forall_nil_2;
      (match goal with |- forall b, _ -> ?a < b -> _ <= _ => refine (months_forall (fun b => a < b ->
        month_start leap a + days_in_month leap a <= month_start leap b) _) end);
      repeat apply Forall_cons_2; try apply Forall_nil_2; destruct leap; vm_compute; congruence. }
  intros Hm Hm' H H1 H2. destruct (Z.lt_total m m') as [Hlt|[->|Hlt]].
  - pose proof (Hs m Hm m' Hm' Hlt). lia.
  - lia.
  - pose proof (Hs m' Hm' m Hm Hlt). lia.
Qed.

(** ** Dates *)

(** The days from the epoch and the seconds of a date: the Gregorian
    calendar, without any width. *)
Definition date_days (dt : clock_ymdhms) : Z :=
  year_days (Z.to_nat (dt_year dt - POSIX_BASE_YEAR)) +
  month_start (leapyear (dt_year dt)) (dt_mon dt) + (dt_day dt - 1).

Definition date_secs (dt : clock_ymdhms) : Z :=
  date_days dt * SECDAY + dt_hour dt * 3600 + dt_min dt * 60 + dt_sec dt.

Record valid_date (dt : clock_ymdhms) : Prop := {
  vd_year : POSIX_BASE_YEAR <= dt_year dt < 65536;
  vd_mon : 1 <= dt_mon dt <= 12;
  vd_day : 1 <= dt_day dt <= days_in_month (leapyear (dt_year dt)) (dt_mon dt);
  vd_wday : dt_wday dt = (date_days dt + 4) mod 7;
  vd_hour : 0 <= dt_hour dt < 24;
  vd_min : 0 <= dt_min dt < 60;
  vd_sec : 0 <= dt_sec dt < 60;
}.

(** The minutes since the epoch are computed in an [int]: dates are converted
    to seconds correctly while there are fewer than [2^31] of them, that is
    until some day of the year 6053. *)
Definition SECS_LIMIT : Z := 60 * 2 ^ 31.

Lemma date_days_nonneg dt : valid_date dt -> 0 <= date_days dt.
Proof.
  intros []. unfold date_days.
  pose proof (year_days_bounds (Z.to_nat (dt_year dt - POSIX_BASE_YEAR))).
  pose proof (month_bounds (leapyear (dt_year dt)) (dt_mon dt)). lia.
Qed.

Lemma ymdhms_to_secs_spec dt :
  valid_date dt -> date_secs dt < SECS_LIMIT ->
  clock_ymdhms_to_secs dt = Some (date_secs dt).
Proof.
  intros Hv Hlim. pose proof (date_days_nonneg dt Hv) as Hnn. destruct Hv.
  unfold date_secs, SECDAY in *. change SECS_LIMIT with 128849018880 in *.
  unfold date_days in *.
  set (n := Z.to_nat (dt_year dt - POSIX_BASE_YEAR)) in *.
  pose proof (year_days_bounds n).
  pose proof (month_bounds (leapyear (dt_year dt)) (dt_mon dt)).
  unfold clock_ymdhms_to_secs. fold n.
  change (add_years n POSIX_BASE_YEAR 0) with
    (add_years n (POSIX_BASE_YEAR + Z.of_nat 0) (year_days 0)).
  rewrite add_years_from by (subst n; lia). change (0 + n)%nat with n.
  rewrite add_months_spec by lia. simpl. strip_int.
  rewrite time_t_id by lia. f_equal. lia.
Qed.

Lemma secs_to_ymdhms_spec secs :
  0 <= secs < SECS_LIMIT ->
  exists dt, clock_secs_to_ymdhms secs = Some dt /\ valid_date dt /\ date_secs dt = secs.
Proof.
  change SECS_LIMIT with 128849018880. intros Hs. unfold clock_secs_to_ymdhms, SECDAY.
  rewrite (Z.quot_div_nonneg secs), (Z.rem_mod_nonneg secs) by lia.
  pose proof (Z.div_mod secs 86400 ltac:(lia)) as Hdm.
  pose proof (Z.mod_pos_bound secs 86400 ltac:(lia)) as Hmb.
  set (days := secs / 86400) in *. set (rsec := secs mod 86400) in *.
  strip_int. rewrite (Z.rem_mod_nonneg (days + 4)) by lia.
  change POSIX_BASE_YEAR with (POSIX_BASE_YEAR + Z.of_nat 0) at 1.
  assert (0 <= days / 365) by (apply Z.div_pos; lia).
  destruct (sub_years_spec (S (Z.to_nat (days / 365))) 0 days) as (n & d & -> & Hd & Hdb & _); [lia..|].
  simpl mbind. simpl year_days in Hd. pose proof (year_days_bounds n) as Hyb.
  set (y := POSIX_BASE_YEAR + Z.of_nat n) in *.
  destruct (sub_months_spec (leapyear y) d Hdb) as (m & d' & -> & Hm & Hd' & Hdb').
  simpl mbind. pose proof (month_bounds (leapyear y) m Hm) as Hmbd.
  rewrite (Z.quot_div_nonneg rsec 3600), (Z.rem_mod_nonneg rsec 3600) by lia.
  pose proof (Z.mod_pos_bound rsec 3600 ltac:(lia)) as Hr.
  rewrite (Z.quot_div_nonneg _ 60), (Z.rem_mod_nonneg _ 60) by lia.
  pose proof (Z.mod_pos_bound (rsec mod 3600) 60 ltac:(lia)) as Hr2.
  pose proof (Z.mod_pos_bound (days + 4) 7 ltac:(lia)) as Hr3.
  pose proof (Z.div_mod rsec 3600 ltac:(lia)). pose proof (Z.div_mod (rsec mod 3600) 60 ltac:(lia)).
  rewrite (u16_id y) by (unfold y, POSIX_BASE_YEAR; lia). rewrite !u8_id by lia.
  assert (Hdd : forall w h mi s, date_days (mkDate y m (d' + 1) w h mi s) = days).
  { intros. unfold date_days. simpl.
    replace (Z.to_nat (y - POSIX_BASE_YEAR)) with n by (unfold y; lia). lia. }
  eexists. split; [reflexivity|]. split.
  - constructor; rewrite ?Hdd; simpl; try lia. unfold y, POSIX_BASE_YEAR. lia.
  - unfold date_secs. rewrite Hdd. simpl. unfold SECDAY. lia.
Qed.

Lemma date_secs_inj dt dt' :
  valid_date dt -> valid_date dt' -> date_secs dt = date_secs dt' -> dt = dt'.
Proof.
  intros [Hy Hm Hd Hw Hh Hmi Hs] [Hy' Hm' Hd' Hw' Hh' Hmi' Hs'] H. unfold date_secs, SECDAY in H.
  assert (Hdd : date_days dt = date_days dt') by lia. rewrite Hdd in Hw, H.
  unfold date_days in Hdd.
  pose proof (month_bounds (leapyear (dt_year dt)) (dt_mon dt) Hm).
  pose proof (month_bounds (leapyear (dt_year dt')) (dt_mon dt') Hm').
  destruct (year_unique (Z.to_nat (dt_year dt - POSIX_BASE_YEAR))
    (month_start (leapyear (dt_year dt)) (dt_mon dt) + (dt_day dt - 1))
    (Z.to_nat (dt_year dt' - POSIX_BASE_YEAR))
    (month_start (leapyear (dt_year dt')) (dt_mon dt') + (dt_day dt' - 1))) as [Hyy Hmm].
  - lia.
  - rewrite Z2Nat.id, Zplus_minus by lia. unfold days_in_year. lia.
  - rewrite Z2Nat.id, Zplus_minus by lia. unfold days_in_year. lia.
  - assert (Hye : dt_year dt = dt_year dt') by lia. rewrite Hye in *.
    destruct (month_unique (leapyear (dt_year dt')) (dt_mon dt) (dt_day dt - 1) (dt_mon dt')
      (dt_day dt' - 1)) as [Hme Hde]; [lia..|].
    destruct dt, dt'; simpl in *. f_equal; lia.
Qed.

(** ** The Gregorian calendar

    Written down from its rules, without the definitions of the code: a year is
    a leap year if 4 divides it, except centuries that 400 does not divide. *)

Definition greg_leap (y : Z) : bool := (y mod 4 =? 0) && negb (y mod 100 =? 0) || (y mod 400 =? 0).

Definition greg_month (y m : Z) : Z :=
  if m =? 2 then (if greg_leap y then 29 else 28)
  else if (m =? 4) || (m =? 6) || (m =? 9) || (m =? 11) then 30 else 31.

(** Days from the start of the year to the start of the month. *)
Fixpoint greg_months (y : Z) (k : nat) : Z :=
  match k with O => 0 | S k => greg_months y k + greg_month y (Z.of_nat (S k)) end.

(** Days since the first of January 1970: 365 a year, and one for every leap
    year passed. *)
Definition greg_days (y m d : Z) : Z :=
  365 * (y - 1970) + ((y - 1) / 4 - 1969 / 4) - ((y - 1) / 100 - 1969 / 100) + ((y - 1) / 400 - 1969 / 400)
  + greg_months y (Z.to_nat (m - 1)) + (d - 1).

Definition greg_secs (dt : clock_ymdhms) : Z :=
  ((greg_days (dt_year dt) (dt_mon dt) (dt_day dt) * 24 + dt_hour dt) * 60 + dt_min dt) * 60 + dt_sec dt.

(** A date and time from 1970 on; the first of January 1970 was a Thursday,
    and Sunday is day 0. *)
Definition gregorian (dt : clock_ymdhms) : Prop :=
  1970 <= dt_year dt < 65536 /\ 1 <= dt_mon dt <= 12 /\ 1 <= dt_day dt <= greg_month (dt_year dt) (dt_mon dt) /\
  dt_wday dt = (greg_days (dt_year dt) (dt_mon dt) (dt_day dt) + 4) mod 7 /\
  0 <= dt_hour dt < 24 /\ 0 <= dt_min dt < 60 /\ 0 <= dt_sec dt < 60.

Lemma days_in_month_greg y m : 0 <= y -> 1 <= m <= 12 -> days_in_month (leapyear y) m = greg_month y m.
Proof.
  intros Hy Hm. rewrite leapyear_gregorian by done. fold (greg_leap y). unfold greg_month. revert m Hm. apply months_forall.
  destruct (greg_leap y); repeat apply Forall_cons_2; try apply Forall_nil_2; reflexivity.
Qed.

Lemma month_start_greg y m : 0 <= y -> 1 <= m <= 12 -> month_start (leapyear y) m = greg_months y (Z.to_nat (m - 1)).
Proof.
  intros Hy Hm. rewrite leapyear_gregorian by done. fold (greg_leap y). revert m Hm. apply months_forall.
  repeat apply Forall_cons_2; try apply Forall_nil_2; cbv [Z.to_nat Z.sub Z.add Z.opp Z.pos_sub Pos.pred_double Pos.to_nat Pos.iter_op Init.Nat.add];
    cbn [greg_months]; unfold greg_month; destruct (greg_leap y); reflexivity.
Qed.

Lemma year_days_greg n : year_days n = 365 * Z.of_nat n + ((1969 + Z.of_nat n) / 4 - 1969 / 4)
  - ((1969 + Z.of_nat n) / 100 - 1969 / 100) + ((1969 + Z.of_nat n) / 400 - 1969 / 400).
Proof.
  induction n as [|n IH]; [reflexivity|]. cbn [year_days]. rewrite IH. unfold days_in_year, POSIX_BASE_YEAR.
  rewrite leapyear_gregorian by lia. set (y := 1969 + Z.of_nat n). replace (1969 + Z.of_nat (S n)) with (y + 1) by lia.
  replace (1970 + Z.of_nat n) with (y + 1) by lia.
  destruct (Z.eqb_spec ((y + 1) mod 4) 0), (Z.eqb_spec ((y + 1) mod 100) 0), (Z.eqb_spec ((y + 1) mod 400) 0); simpl;
    Z.to_euclidean_division_equations; lia.
Qed.

Lemma date_days_greg dt : 1970 <= dt_year dt -> 1 <= dt_mon dt <= 12 -> date_days dt = greg_days (dt_year dt) (dt_mon dt) (dt_day dt).
Proof.
  intros Hy Hm. unfold date_days, greg_days. rewrite year_days_greg, month_start_greg by lia. unfold POSIX_BASE_YEAR.
  rewrite Z2Nat.id by lia. replace (1969 + (dt_year dt - 1970)) with (dt_year dt - 1) by lia. lia.
Qed.

Lemma valid_date_greg dt : valid_date dt <-> gregorian dt.
Proof.
  unfold gregorian. split.
  - intros [Hy Hm Hd Hw Hh Hmi Hs]. unfold POSIX_BASE_YEAR in Hy. rewrite days_in_month_greg in Hd by lia.
    rewrite date_days_greg in Hw by lia. tauto.
  - intros (Hy & Hm & Hd & Hw & Hh & Hmi & Hs). constructor; try done.
    + by rewrite days_in_month_greg by lia.
    + by rewrite date_days_greg by lia.
Qed.

Lemma date_secs_greg dt : gregorian dt -> date_secs dt = greg_secs dt.
Proof. intros (Hy & Hm & _). unfold date_secs, greg_secs, SECDAY. rewrite date_days_greg by lia. lia. Qed.

(** C29: calendar round trip.  Until the year 6053 (as long as the minutes since
    the epoch fit in an [int]), [clock_secs_to_ymdhms] returns a date of the
    Gregorian calendar (whose rules for leap years, months and days of the
    week are written down independently of the code), that stands for the
    given seconds and that [clock_ymdhms_to_secs] maps back to them; and every
    date of that calendar in this range is recovered from its seconds. *)
Theorem clock_roundtrip :
  (forall secs, 0 <= secs < SECS_LIMIT ->
     exists dt, clock_secs_to_ymdhms secs = Some dt /\ gregorian dt /\ greg_secs dt = secs /\
       clock_ymdhms_to_secs dt = Some secs) /\
  (forall dt, gregorian dt -> greg_secs dt < SECS_LIMIT ->
     clock_ymdhms_to_secs dt = Some (greg_secs dt) /\ clock_secs_to_ymdhms (greg_secs dt) = Some dt).
Proof.
  split.
  - intros secs Hs. destruct (secs_to_ymdhms_spec secs Hs) as (dt & ? & Hv & He). assert (G := proj1 (valid_date_greg dt) Hv).
    exists dt. rewrite <- (date_secs_greg dt G). split_and!; [done..|]. rewrite <- He. apply ymdhms_to_secs_spec; [done|lia].
  - intros dt G. rewrite <- (date_secs_greg dt G). assert (Hv := proj2 (valid_date_greg dt) G). intros Hlim.
    split; [by apply ymdhms_to_secs_spec|]. assert (0 <= date_secs dt).
    { pose proof (date_days_nonneg dt Hv). destruct Hv. unfold date_secs, SECDAY. lia. }
    destruct (secs_to_ymdhms_spec (date_secs dt)) as (dt' & -> & Hv' & He); [lia|].
    f_equal. by apply date_secs_inj.
Qed.

(** The bound is sharp: the first second after it comes back negative. *)
Lemma clock_roundtrip_limit :
  exists dt, clock_secs_to_ymdhms SECS_LIMIT = Some dt /\
    clock_ymdhms_to_secs dt = Some (- SECS_LIMIT).
Proof. exists (mkDate 6053 1 23 4 2 8 0). split; vm_compute; reflexivity. Qed.

(** ** Binary coded decimal *)

Lemma bcd_roundtrip x :
  0 <= x < 100 -> FROMBCD (TOBCD x) = x /\ 0 <= TOBCD x < 160.
Proof.
  intros Hx. unfold FROMBCD, TOBCD. change 15 with (Z.ones 4).
  rewrite Z.quot_div_nonneg, Z.rem_mod_nonneg, Z.land_ones, Z.shiftr_div_pow2 by lia.
  change (2 ^ 4) with 16. split; Z.to_euclidean_division_equations; lia.
Qed.

(** ** Time values *)

(** The microseconds a time value stands for. *)
Definition usecs (tv : timeval) : Z := tv_sec tv * 1000000 + tv_usec tv.

(** A normal time value, of at most [b] seconds in absolute value. *)
Definition tv_ok (b : Z) (tv : timeval) : Prop :=
  - b <= tv_sec tv <= b /\ 0 <= tv_usec tv < 1000000.

Lemma timeradd_spec b tv uv :
  b < 2 ^ 61 -> tv_ok b tv -> tv_ok b uv ->
  usecs (timeradd tv uv) = usecs tv + usecs uv /\ tv_ok (2 * b + 1) (timeradd tv uv).
Proof.
  intros Hb [H1 H2] [H3 H4]. change (2 ^ 61) with 2305843009213693952 in Hb.
  unfold usecs, timeradd, tv_ok. rewrite (time_t_id (tv_sec tv + tv_sec uv)) by lia. rewrite Z.geb_leb.
  destruct (Z.leb_spec 1000000 (tv_usec tv + tv_usec uv)); simpl; rewrite ?time_t_id by lia; lia.
Qed.

Lemma timersub_spec b tv uv :
  b < 2 ^ 61 -> tv_ok b tv -> tv_ok b uv ->
  usecs (timersub tv uv) = usecs tv - usecs uv /\ tv_ok (2 * b + 1) (timersub tv uv).
Proof.
  intros Hb [H1 H2] [H3 H4]. change (2 ^ 61) with 2305843009213693952 in Hb.
  unfold usecs, timersub, tv_ok. rewrite (time_t_id (tv_sec tv - tv_sec uv)) by lia.
  destruct (Z.ltb_spec (tv_usec tv - tv_usec uv) 0); simpl; rewrite ?time_t_id by lia; lia.
Qed.

(** The comparisons compare the times. *)
Lemma timercmp_spec b c tv uv :
  tv_ok b tv -> tv_ok c uv ->
  timercmp Z.ltb tv uv = (usecs tv <? usecs uv) /\
  timercmp Z.gtb tv uv = (usecs tv >? usecs uv) /\
  timercmp Z.geb tv uv = (usecs tv >=? usecs uv).
Proof.
  intros [_ H1] [_ H2]. unfold timercmp, usecs. rewrite !Z.gtb_ltb, !Z.geb_leb.
  destruct (Z.eqb_spec (tv_sec tv) (tv_sec uv)) as [->|];
    split_and!; rewrite ?Z.gtb_ltb, ?Z.geb_leb; apply eq_iff_eq_true; rewrite ?Z.ltb_lt, ?Z.leb_le; lia.
Qed.

Lemma timerisset_spec b tv : tv_ok b tv -> timerisset tv = negb (usecs tv =? 0).
Proof.
  intros [_ H]. unfold timerisset, usecs.
  destruct (Z.eqb_spec (tv_sec tv) 0), (Z.eqb_spec (tv_usec tv) 0),
    (Z.eqb_spec (tv_sec tv * 1000000 + tv_usec tv) 0); simpl; try done; lia.
Qed.

Lemma tv_ext tv uv b c :
  tv_ok b tv -> tv_ok c uv -> usecs tv = usecs uv -> tv = uv.
Proof. intros [_ ?] [_ ?]. unfold usecs. destruct tv, uv; simpl in *. intros. f_equal; lia. Qed.

(** A time value survives the binary format but for one microsecond. *)
Lemma bintime_timeval tv :
  0 <= tv_usec tv < 1000000 ->
  tv_sec (bintime2timeval (timeval2bintime tv)) = tv_sec tv /\
  tv_usec tv - 1 <= tv_usec (bintime2timeval (timeval2bintime tv)) <= tv_usec tv.
Proof.
  intros Hu. split; [done|]. unfold bintime2timeval, timeval2bintime. simpl.
  unfold ul. change UL_MOD with 18446744073709551616.
  rewrite (Z.mod_small (tv_usec tv)) by lia.
  rewrite (Z.mod_small (tv_usec tv * 18446744073709)) by lia.
  rewrite !Z.shiftr_div_pow2 by lia. change (2 ^ 32) with 4294967296.
  set (q := tv_usec tv * 18446744073709 / 4294967296).
  assert (0 <= q < 4294967296) by (unfold q; Z.to_euclidean_division_equations; lia).
  rewrite (Z.mod_small (1000000 * q)) by lia.
  unfold q. Z.to_euclidean_division_equations. lia.
Qed.

(** ** Ticks *)

Section Ticks.
Context (hz tick : Z).
Hypothesis Hhz : 1 <= hz.
Hypothesis Htick : 1 <= tick <= 1000000.

Let ticks_for (tv : timeval) : Z := (usecs tv + (tick - 1)) / tick.

Lemma tvtohz_guard tv :
  tv_ok LONG_MAX tv -> 0 < usecs tv ->
  (tv_sec tv <? 0) || ((tv_sec tv =? 0) && (tv_usec tv <=? 0)) = false /\ 0 <= tv_sec tv.
Proof.
  intros [Hs Hu] Hpos. unfold usecs in *.
  destruct (Z.ltb_spec (tv_sec tv) 0), (Z.eqb_spec (tv_sec tv) 0), (Z.leb_spec (tv_usec tv) 0);
    simpl; split; try done; lia.
Qed.

Lemma tvtohz_small tv :
  tv_ok LONG_MAX tv -> 0 < usecs tv -> tv_sec tv <= LONG_MAX / 1000000 ->
  tvtohz hz tick tv = Z.min INT_MAX (ticks_for tv + 1).
Proof.
  intros Hok Hpos Hle. destruct (tvtohz_guard tv Hok Hpos) as [Hg Hs0]. destruct Hok as [Hs Hu].
  unfold tvtohz. rewrite Hg. rewrite (proj2 (Z.leb_le _ _) Hle).
  change (LONG_MAX / 1000000) with 9223372036854 in Hle.
  unfold ticks_for, usecs, INT_MAX in *. unfold ul. change UL_MOD with 18446744073709551616.
  rewrite (Z.mod_small (tv_usec tv)), (Z.mod_small (_ + (tick - 1))) by lia.
  set (n := tv_sec tv * 1000000 + tv_usec tv + (tick - 1)).
  assert (0 <= n / tick <= n) by (split; [apply Z.div_pos; lia|apply Z.div_le_upper_bound; nia]).
  rewrite Z.mod_small by lia. rewrite Z.gtb_ltb.
  destruct (Z.ltb_spec 2147483647 (n / tick + 1)); lia.
Qed.

Lemma tvtohz_large tv :
  tv_ok LONG_MAX tv -> LONG_MAX / 1000000 < tv_sec tv ->
  tvtohz hz tick tv = INT_MAX /\ INT_MAX < ticks_for tv.
Proof.
  intros Hok Hgt. assert (Hpos : 0 < usecs tv).
  { destruct Hok. change (LONG_MAX / 1000000) with 9223372036854 in Hgt. unfold usecs. lia. }
  destruct (tvtohz_guard tv Hok Hpos) as [Hg Hs0]. destruct Hok as [Hs Hu]. split.
  - unfold tvtohz. rewrite Hg. rewrite (proj2 (Z.leb_gt _ _) Hgt).
    change (LONG_MAX / 1000000) with 9223372036854 in Hgt.
    destruct (Z.leb_spec (tv_sec tv) (LONG_MAX / hz)) as [Hh|Hh]; [|done].
    assert (Hm : tv_sec tv * hz <= LONG_MAX).
    { apply Z.le_trans with (LONG_MAX / hz * hz); [nia|].
      rewrite Z.mul_comm. apply Z.mul_div_le. lia. }
    unfold ul, INT_MAX, LONG_MAX in *. change UL_MOD with 18446744073709551616.
    rewrite (Z.mod_small (tv_usec tv)), (Z.mod_small (_ + (tick - 1))) by lia.
    set (q := (tv_usec tv + (tick - 1)) / tick).
    assert (0 <= q <= 2000000)
      by (split; [apply Z.div_pos; lia|unfold q; apply Z.div_le_upper_bound; nia]).
    rewrite Z.mod_small by nia. rewrite Z.gtb_ltb.
    destruct (Z.ltb_spec 2147483647 (tv_sec tv * hz + q + 1)); [done|nia].
  - change (LONG_MAX / 1000000) with 9223372036854 in Hgt. unfold ticks_for, usecs, INT_MAX.
    apply Z.lt_le_trans with ((2147483648 * tick) / tick).
    + rewrite Z.div_mul by lia. lia.
    + apply Z.div_le_mono; lia.
Qed.

Lemma tvtohz_min tv :
  tv_ok LONG_MAX tv -> 0 < usecs tv ->
  tvtohz hz tick tv = Z.min INT_MAX (ticks_for tv + 1).
Proof.
  intros Hok Hpos. destruct (Z.le_gt_cases (tv_sec tv) (LONG_MAX / 1000000)).
  - by apply tvtohz_small.
  - destruct (tvtohz_large tv) as [-> ?]; [done..|]. lia.
Qed.

(** Ticks of a time.  For every normal positive time, whatever its size,
    [tvtohz] returns the ticks that cover the time rounded up, plus the tick
    under way, cut off at [INT_MAX]: a timeout of that many ticks never fires
    before the time has passed, and waits less than two ticks longer; times
    that are not positive give no tick. *)
Theorem tvtohz_correct tv :
  tv_ok LONG_MAX tv ->
  let n := tvtohz hz tick tv in
  0 <= n <= INT_MAX /\
  (usecs tv <= 0 <-> n = 0) /\
  (0 < usecs tv -> n < INT_MAX -> usecs tv <= (n - 1) * tick < usecs tv + tick) /\
  (n = INT_MAX -> (INT_MAX - 2) * tick < usecs tv).
Proof.
  intros Hok n. destruct (Z.le_gt_cases (usecs tv) 0) as [Hn|Hp].
  - assert (Hz : n = 0).
    { destruct Hok as [Hs Hu]. unfold usecs in Hn. unfold n, tvtohz.
      destruct (Z.ltb_spec (tv_sec tv) 0), (Z.eqb_spec (tv_sec tv) 0), (Z.leb_spec (tv_usec tv) 0);
        simpl; try done; lia. }
    rewrite Hz. unfold INT_MAX. lia.
  - assert (Hm := tvtohz_min tv Hok Hp). fold n in Hm. unfold ticks_for in Hm.
    pose proof (Z.div_mod (usecs tv + (tick - 1)) tick ltac:(lia)) as Hd.
    pose proof (Z.mod_pos_bound (usecs tv + (tick - 1)) tick ltac:(lia)) as Hb.
    set (q := (usecs tv + (tick - 1)) / tick) in *.
    assert (0 < q) by nia. unfold INT_MAX in *. split_and!; [lia|lia|lia|..].
    + intros _ Hlt. assert (Hnq : n = q + 1) by lia. rewrite Hnq. nia.
    + intros Hn. nia.
Qed.

(** The nanoseconds that do not make a microsecond count for one. *)
Lemma tstohz_round ts :
  0 <= ts_sec ts <= 100000000 -> 0 <= tv_nsec ts < 1000000000 ->
  exists tv, tstohz hz tick ts = tvtohz hz tick tv /\ tv_ok LONG_MAX tv /\
    ts_sec ts * 1000000000 + tv_nsec ts <= usecs tv * 1000 <
      ts_sec ts * 1000000000 + tv_nsec ts + 1000.
Proof.
  intros Hs Hn. unfold tstohz, TIMESPEC_TO_TIMEVAL.
  rewrite Z.quot_div_nonneg, Z.rem_mod_nonneg by lia. cbn [tv_sec tv_usec].
  eexists. split; [reflexivity|]. unfold tv_ok, usecs, LONG_MAX.
  pose proof (Z.div_mod (tv_nsec ts) 1000 ltac:(lia)).
  pose proof (Z.mod_pos_bound (tv_nsec ts) 1000 ltac:(lia)).
  destruct (Z.eqb_spec (tv_nsec ts mod 1000) 0); cbn [negb tv_sec tv_usec]; [lia|].
  rewrite Z.geb_leb. destruct (Z.leb_spec 1000000 (tv_nsec ts / 1000 + 1)); cbn [tv_sec tv_usec]; lia.
Qed.

Lemma itimerround_spec tv :
  tv_ok 100000000 tv -> 0 <= tv_sec tv -> tick < 1000000 ->
  tv_ok 100000000 (itimerround tick tv) /\ 0 <= tv_sec (itimerround tick tv) /\
  (usecs tv = 0 -> itimerround tick tv = tv) /\
  (0 < usecs tv -> usecs (itimerround tick tv) = Z.max tick (usecs tv)).
Proof.
  intros [Hs Hu] H0 Ht. unfold itimerround, tv_ok, usecs in *.
  destruct (Z.eqb_spec (tv_sec tv) 0), (Z.eqb_spec (tv_usec tv) 0), (Z.ltb_spec (tv_usec tv) tick);
    simpl; split_and!; try lia; try done; lia.
Qed.

Lemma itimerfix_spec tv :
  tick < 1000000 ->
  itimerfix tick tv =
    if decide (0 <= tv_sec tv /\ tv_ok 100000000 tv) then (0, itimerround tick tv) else (EINVAL, tv).
Proof.
  intros Ht. unfold itimerfix, tv_ok. rewrite Z.gtb_ltb, Z.geb_leb.
  destruct (Z.ltb_spec (tv_sec tv) 0), (Z.ltb_spec 100000000 (tv_sec tv)), (Z.ltb_spec (tv_usec tv) 0),
    (Z.leb_spec 1000000 (tv_usec tv)); simpl; case_decide; try done; lia.
Qed.

End Ticks.

Lemma tvtohz_correct_witness :
  tv_ok LONG_MAX (mkTv 1 5000) /\
  0 <= tvtohz 100 10000 (mkTv 1 5000) <= INT_MAX.
Proof.
  assert (H : tv_ok LONG_MAX (mkTv 1 5000)) by (unfold tv_ok, LONG_MAX; simpl; lia).
  split; [exact H|].
  apply (tvtohz_correct 100 10000 ltac:(lia) ltac:(lia) (mkTv 1 5000) H).
Defined.

(** ** Rate limits *)

(** [ratecheck] accepts an event exactly when the minimum interval has passed
    since the last accepted one, or when none was accepted yet. *)
Lemma ratecheck_spec now lasttime mininterval :
  tv_ok (2 ^ 60) now -> tv_ok (2 ^ 60) lasttime -> tv_ok (2 ^ 60) mininterval ->
  ratecheck now lasttime mininterval =
    if (usecs mininterval <=? usecs now - usecs lasttime) || (usecs lasttime =? 0)
    then (1, now) else (0, lasttime).
Proof.
  intros Hn Hl Hm. unfold ratecheck.
  destruct (timersub_spec (2 ^ 60) now lasttime ltac:(lia) Hn Hl) as [Hu Hok].
  destruct (timercmp_spec _ _ _ _ Hok Hm) as (_ & _ & ->). rewrite Hu, Z.geb_leb.
  replace ((tv_sec lasttime =? 0) && (tv_usec lasttime =? 0)) with (usecs lasttime =? 0); [done|].
  destruct Hl as [_ Hl]. unfold usecs.
  destruct (Z.eqb_spec (tv_sec lasttime) 0), (Z.eqb_spec (tv_usec lasttime) 0),
    (Z.eqb_spec (tv_sec lasttime * 1000000 + tv_usec lasttime) 0); simpl; try done; lia.
Qed.

(** The number of events accepted among those at the times [nows]. *)
Fixpoint pps_accepted (nows : list timeval) (lasttime : timeval) (curpps maxpps : Z) : Z :=
  match nows with
  | [] => 0
  | now :: nows =>
      let '(rv, lasttime, curpps) := ppsratecheck now lasttime curpps maxpps in
      rv + pps_accepted nows lasttime curpps maxpps
  end.

Lemma ppsratecheck_same_second now lasttime cur maxpps :
  tv_ok (2 ^ 60) now -> tv_ok (2 ^ 60) lasttime ->
  0 < maxpps -> usecs lasttime <> 0 -> 0 <= cur < INT_MAX ->
  usecs lasttime <= usecs now < usecs lasttime + 1000000 ->
  ppsratecheck now lasttime cur maxpps = (if cur <? maxpps then 1 else 0, lasttime, cur + 1).
Proof.
  intros Hn Hl Hmax Hne Hcur Hlt. unfold ppsratecheck.
  destruct (timersub_spec (2 ^ 60) now lasttime ltac:(lia) Hn Hl) as [Hu [_ Hok]].
  assert (Hd : (tv_sec (timersub now lasttime) >=? 1) = false).
  { rewrite Z.geb_leb. apply Z.leb_gt. unfold usecs in *. lia. }
  assert (Hl0 : (tv_sec lasttime =? 0) && (tv_usec lasttime =? 0) = false).
  { apply andb_false_iff. rewrite !Z.eqb_neq. unfold usecs in Hne. lia. }
  rewrite Hd, Hl0. destruct (Z.eqb_spec maxpps 0), (Z.ltb_spec maxpps 0); [lia..|]. simpl.
  unfold INT_MAX in Hcur.
  destruct (cur <? maxpps); rewrite !int_id by lia; rewrite Z.gtb_ltb;
    (destruct (Z.ltb_spec cur (cur + 1)); [done|lia]).
Qed.

(** Of the events in the second that starts with an accepted one,
    [ppsratecheck] accepts [maxpps] at most, and all of them when there are no
    more: the first one is always accepted, and of the [n] that follow
    exactly [min n (maxpps - 1)]. *)
Theorem ppsratecheck_limits first nows lasttime cur maxpps :
  0 < maxpps -> tv_ok (2 ^ 60) first -> 0 < usecs first ->
  tv_ok (2 ^ 60) lasttime -> usecs lasttime = 0 \/ usecs lasttime + 1000000 <= usecs first ->
  Forall (fun now => tv_ok (2 ^ 60) now /\ usecs first <= usecs now < usecs first + 1000000) nows ->
  Z.of_nat (length nows) < INT_MAX - 1 ->
  pps_accepted (first :: nows) lasttime cur maxpps = 1 + Z.min (Z.of_nat (length nows)) (maxpps - 1).
Proof.
  intros Hmax Hf Hfp Hl Hlast Hall Hlen. simpl.
  assert (Hfirst : ppsratecheck first lasttime cur maxpps = (1, first, 1)).
  { unfold ppsratecheck. destruct (Z.eqb_spec maxpps 0); [lia|].
    destruct (timersub_spec (2 ^ 60) first lasttime ltac:(lia) Hf Hl) as [Hu [_ Hok]].
    replace (_ || _) with true; [done|]. symmetry. apply orb_true_iff.
    rewrite andb_true_iff, !Z.eqb_eq, Z.geb_le. destruct Hl. unfold usecs in *. lia. }
  rewrite Hfirst. f_equal.
  assert (Hgen : forall c, 0 < c -> c + Z.of_nat (length nows) < INT_MAX ->
    pps_accepted nows first c maxpps = Z.max 0 (Z.min (Z.of_nat (length nows)) (maxpps - c))).
  { clear Hfirst Hlen. induction nows as [|now nows IH]; intros c Hc Hb; simpl; [lia|].
    apply Forall_cons_1 in Hall as [[Hn Hlt] Hall]. simpl in Hb.
    rewrite ppsratecheck_same_second; try done; try lia.
    rewrite IH by (done || lia). destruct (Z.ltb_spec c maxpps); lia. }
  rewrite Hgen by lia. lia.
Qed.

Lemma ppsratecheck_limits_witness :
  pps_accepted [mkTv 5 0; mkTv 5 10; mkTv 5 20; mkTv 5 30] (mkTv 3 0) 9 2 = 2.
Proof.
  apply (ppsratecheck_limits (mkTv 5 0) [mkTv 5 10; mkTv 5 20; mkTv 5 30] (mkTv 3 0) 9 2);
    [lia|unfold tv_ok; simpl; lia|reflexivity|unfold tv_ok; simpl; lia|right; vm_compute; congruence| |
     vm_compute; reflexivity].
  repeat constructor; simpl; vm_compute; congruence.
Defined.
