(* ===== verification/Itimer.v ===== *)
(** * Interval timers (sys/kern/kern_time.c, hardclock in sys/kern/kern_clock.c)

    The three interval timers of a process.  [ITIMER_VIRTUAL] and
    [ITIMER_PROF] count down at every clock interrupt; [ITIMER_REAL] holds the
    absolute time of the next expiry and is driven by a timeout.  What the
    timers rely on of the timeout service is the class [TimeoutService]; the
    timing wheel is an instance of it (ItimerFacts.v). *)

From stdpp Require Import base numbers list option.
From Stdlib Require Import ZArith Lia Bool.
From S2P Require Import Prelude Clock.

(** ** The timeout service

    [ts_due s id] is the number of ticks after which the handler of [id] will
    be called, [None] when it will not. *)
Class TimeoutService (T : Type) := {
  ts_add : T -> Z -> Z -> run T Z;
  ts_del : T -> Z -> Z * T;
  ts_ok : T -> Prop;
  ts_ready : T -> Z -> Prop;
  ts_due : T -> Z -> option Z;
  ts_add_spec s id k :
    ts_ok s -> ts_ready s id -> 0 <= k <= INT_MAX ->
    exists r s', ts_add s id k = Done r s' /\ ts_ok s' /\ ts_ready s' id /\ ts_due s' id = Some k /\
      forall i, i <> id -> ts_due s' i = ts_due s i;
  ts_del_spec s id :
    ts_ok s -> ts_ready s id ->
    ts_ok (ts_del s id).2 /\ ts_ready (ts_del s id).2 id /\ ts_due (ts_del s id).2 id = None /\
      forall i, i <> id -> ts_due (ts_del s id).2 i = ts_due s i;
}.

(** ** Data *)

Definition ITIMER_REAL : Z := 0.
Definition ITIMER_VIRTUAL : Z := 1.
Definition ITIMER_PROF : Z := 2.

Definition SIGALRM : Z := 14.

Record itimerval := mkItv { it_interval : timeval; it_value : timeval }.

(** What the timers touch of a process: [ps_timer], [ps_realit_to],
    [PS_EXITING] and the signals sent by [prsignal]; of the running thread,
    [P_ALRMPEND] and [P_PROFPEND]; and the timeout service. *)
Record proc (T : Type) := mkProc {
  ps_timer : Z -> itimerval;
  ps_realit_to : Z;
  ps_exiting : bool;
  ps_siglist : list Z;
  p_alrmpend : bool;
  p_profpend : bool;
  p_timeouts : T;
}.
Arguments mkProc {T} _ _ _ _ _ _ _.
Arguments ps_timer {T} _ _.
Arguments ps_realit_to {T} _.
Arguments ps_exiting {T} _.
Arguments ps_siglist {T} _.
Arguments p_alrmpend {T} _.
Arguments p_profpend {T} _.
Arguments p_timeouts {T} _.

Section Setters.
Context {T : Type}.
Implicit Types p : proc T.

Definition set_timer p (which : Z) (itv : itimerval) : proc T :=
  mkProc (fun i => if i =? which then itv else ps_timer p i) (ps_realit_to p) (ps_exiting p)
    (ps_siglist p) (p_alrmpend p) (p_profpend p) (p_timeouts p).
Definition set_timeouts p (s : T) : proc T :=
  mkProc (ps_timer p) (ps_realit_to p) (ps_exiting p) (ps_siglist p) (p_alrmpend p)
    (p_profpend p) s.
Definition prsignal p (sig : Z) : proc T :=
  mkProc (ps_timer p) (ps_realit_to p) (ps_exiting p) (ps_siglist p ++ [sig]) (p_alrmpend p)
    (p_profpend p) (p_timeouts p).
Definition set_pend p (alrm prof : bool) : proc T :=
  mkProc (ps_timer p) (ps_realit_to p) (ps_exiting p) (ps_siglist p)
    (p_alrmpend p || alrm) (p_profpend p || prof) (p_timeouts p).

End Setters.

(** ** Counting down

    The result is 0 when the timer expired. *)
Definition itimerdecr (itp : itimerval) (usec : Z) : Z * itimerval :=
  let expire usec value :=
    if timerisset (it_interval itp) then
      let v := it_interval itp in
      let u := tv_usec v - usec in
      (0, mkItv (it_interval itp)
            (if u <? 0 then mkTv (time_t (tv_sec v - 1)) (u + 1000000) else mkTv (tv_sec v) u))
    else (0, mkItv (it_interval itp) (mkTv (tv_sec value) 0)) in
  let value := it_value itp in
  let decr value :=
    let value := mkTv (tv_sec value) (tv_usec value - usec) in
    if timerisset value then (1, mkItv (it_interval itp) value) else expire 0 value in
  if tv_usec value <? usec then
    if tv_sec value =? 0 then expire (usec - tv_usec value) value
    else decr (mkTv (time_t (tv_sec value - 1)) (tv_usec value + 1000000))
  else decr value.

Section Itimer.
Context {T : Type} `{TS : TimeoutService T}.
(** [hz] interrupts per second, one every [tick] microseconds. *)
Context (hz tick : Z).
Implicit Types p : proc T.

(** One of the two timers [hardclock] runs: [P_ALRMPEND] or [P_PROFPEND] is
    set when it expires. *)
Definition hardclock_timer (which : Z) p : proc T :=
  if timerisset (it_value (ps_timer p which)) then
    let '(r, itv) := itimerdecr (ps_timer p which) tick in
    let p := set_timer p which itv in
    if r =? 0 then set_pend p (which =? ITIMER_VIRTUAL) (which =? ITIMER_PROF) else p
  else p.

(** The part of [hardclock] that runs the timers of the current process;
    [usermode] is [CLKF_USERMODE(frame)]. *)
Definition hardclock_itimers (usermode : bool) p : proc T :=
  let p := if usermode then hardclock_timer ITIMER_VIRTUAL p else p in
  hardclock_timer ITIMER_PROF p.

(** ** System calls

    [now] is what [getmicrouptime] returns; a pointer of the user is [None]
    when it is NULL, and otherwise holds what [copyin] reads through it or the
    error [copyout] returns. *)

Definition getitimer_value (now : timeval) p (which : Z) : itimerval :=
  let aitv := ps_timer p which in
  if (which =? ITIMER_REAL) && timerisset (it_value aitv) then
    if timercmp Z.ltb (it_value aitv) now then mkItv (it_interval aitv) timerclear
    else mkItv (it_interval aitv) (timersub (it_value aitv) now)
  else aitv.

(** The error and, unless the arguments are refused, the value given to
    [copyout]. *)
Definition sys_getitimer (now : timeval) p (which copyout_err : Z) : Z * option itimerval :=
  if (which <? ITIMER_REAL) || (which >? ITIMER_PROF) then (EINVAL, None)
  else (copyout_err, Some (getitimer_value now p which)).

(** The body after the old value was given back. *)
Definition setitimer_set (now : timeval) p (which : Z) (aitv : itimerval) : run (proc T) Z :=
  let '(e1, value) := itimerfix tick (it_value aitv) in
  if negb (e1 =? 0) then Done EINVAL p
  else
    let '(e2, interval) := itimerfix tick (it_interval aitv) in
    if negb (e2 =? 0) then Done EINVAL p
    else if which =? ITIMER_REAL then
      let p := set_timeouts p (ts_del (p_timeouts p) (ps_realit_to p)).2 in
      if timerisset value then
        match ts_add (p_timeouts p) (ps_realit_to p) (tvtohz hz tick value) with
        | Done _ s =>
            Done 0 (set_timer (set_timeouts p s) ITIMER_REAL (mkItv interval (timeradd value now)))
        | Blocked s => Blocked (set_timeouts p s)
        | Panic => Panic
        | NoFuel => NoFuel
        end
      else Done 0 (set_timer p ITIMER_REAL (mkItv interval value))
    else Done 0 (set_timer p which (mkItv (itimerround tick interval) value)).

(** The error and the old value given to [copyout], if any.  [now1] and
    [now2] are the two readings of the clock. *)
Definition sys_setitimer (now1 now2 : timeval) p (which : Z) (itv : option (Z + itimerval))
    (oitv : option Z) : run (proc T) (Z * option itimerval) :=
  if (which <? ITIMER_REAL) || (which >? ITIMER_PROF) then Done (EINVAL, None) p
  else
    let old := match oitv with
               | Some err => sys_getitimer now1 p which err
               | None => (0, None)
               end in
    match itv with
    | Some (inl err) => Done (err, None) p
    | None => Done old p
    | Some (inr aitv) =>
        if negb (old.1 =? 0) then Done old p
        else
          match setitimer_set now2 p which aitv with
          | Done e p => Done (e, old.2) p
          | Blocked p => Blocked p
          | Panic => Panic
          | NoFuel => NoFuel
          end
    end.

(** The handler of [ps_realit_to].  [now k] is the [k]-th reading of the
    clock; the loop ends when the next expiry is in the future. *)
Fixpoint realit_loop (fuel : nat) (now : nat -> timeval) (k : nat) p : run (proc T) unit :=
  match fuel with
  | O => NoFuel
  | S fuel =>
      let tp := ps_timer p ITIMER_REAL in
      let value := timeradd (it_value tp) (it_interval tp) in
      let p := set_timer p ITIMER_REAL (mkItv (it_interval tp) value) in
      if timercmp Z.gtb value (now k) then
        let timo := tvtohz hz tick (timersub value (now k)) - 1 in
        let timo := if timo <=? 0 then 1 else timo in
        if ps_exiting p then Done tt p
        else
          match ts_add (p_timeouts p) (ps_realit_to p) timo with
          | Done _ s => Done tt (set_timeouts p s)
          | Blocked s => Blocked (set_timeouts p s)
          | Panic => Panic
          | NoFuel => NoFuel
          end
      else realit_loop fuel now (S k) p
  end.

Definition realitexpire (fuel : nat) (now : nat -> timeval) p : run (proc T) unit :=
  let p := prsignal p SIGALRM in
  let tp := ps_timer p ITIMER_REAL in
  if negb (timerisset (it_interval tp)) then
    Done tt (set_timer p ITIMER_REAL (mkItv (it_interval tp) timerclear))
  else realit_loop fuel now 0 p.

End Itimer.
