(* ===== verification/ItimerFacts.v ===== *)
(** * Interval timers: theorems

    The timing wheel is a timeout service; the timers that count down do not
    drift; the real timer is armed for the time asked for, is read back as the
    time left, and is re-armed for the first multiple of its interval that is
    still to come. *)

From stdpp Require Import base numbers list option.
From Stdlib Require Import ZArith Lia Bool.
From S2P Require Import Prelude Clock ClockFacts Timeout TimeoutFacts TimeoutClock Itimer.

(** ** The timing wheel as a timeout service *)

Definition wheel_due (s : tstate) (id : Z) : option Z :=
  if timeout_pending s id then Some (remaining s id) else None.

Lemma wheel_due_ext s s' id :
  ticks s' = ticks s -> timeouts s' id = timeouts s id -> wheel_due s' id = wheel_due s id.
Proof. intros Ht Hi. unfold wheel_due, timeout_pending, remaining. by rewrite Ht, Hi. Qed.

Definition wheel_ready (s : tstate) (id : Z) : Prop :=
  has (to_flags (timeouts s id)) TIMEOUT_INITIALIZED = true.

Lemma flag_init f m m' :
  Z.land TIMEOUT_INITIALIZED m = 0 ->
  has (clr_flag f m) TIMEOUT_INITIALIZED = has f TIMEOUT_INITIALIZED /\
  (Z.land m' TIMEOUT_INITIALIZED = 0 ->
   has (set_flag f m') TIMEOUT_INITIALIZED = has f TIMEOUT_INITIALIZED).
Proof.
  intros Hm. unfold has, clr_flag, set_flag. split.
  - f_equal. f_equal. rewrite <- Z.land_assoc, (Z.land_comm _ TIMEOUT_INITIALIZED). f_equal.
    rewrite <- Z.ldiff_land. apply Z.bits_inj'. intros n Hn. rewrite Z.ldiff_spec.
    destruct (Z.testbit m n) eqn:E; [|by rewrite andb_true_r].
    assert (Hz : Z.testbit (Z.land TIMEOUT_INITIALIZED m) n = false) by (rewrite Hm; apply Z.bits_0).
    rewrite Z.land_spec, E, andb_true_r in Hz. by rewrite Hz.
  - intros Hm'. by rewrite Z.land_lor_distr_l, Hm', Z.lor_0_r.
Qed.

Lemma add_ready s id k r s' :
  timeout_add s id k = Done r s' -> wheel_ready s' id.
Proof.
  intros E. pose proof (add_initialized _ _ _ _ _ E) as Hi. unfold wheel_ready. revert E.
  unfold timeout_add. rewrite Hi. simpl. destruct (k <? 0); [done|].
  set (f1 := clr_flag (to_flags (timeouts s id)) TIMEOUT_TRIGGERED).
  assert (H1 : has f1 TIMEOUT_INITIALIZED = true)
    by (unfold f1; rewrite (proj1 (flag_init _ TIMEOUT_TRIGGERED 0 eq_refl)); done).
  repeat case_match; intros [= <- <-]; simpl; rewrite Z.eqb_refl; simpl; try done.
  by rewrite (proj2 (flag_init f1 0 TIMEOUT_ONQUEUE eq_refl) eq_refl).
Qed.

Lemma del_ready s id : wheel_ready s id -> wheel_ready (timeout_del s id).2 id.
Proof.
  unfold wheel_ready, timeout_del. simpl. intros Hi. rewrite Z.eqb_refl. simpl.
  rewrite (proj1 (flag_init _ TIMEOUT_TRIGGERED 0 eq_refl)). case_match; [|done].
  by rewrite (proj1 (flag_init _ TIMEOUT_ONQUEUE 0 eq_refl)).
Qed.

#[export] Program Instance wheel_service : TimeoutService tstate := {|
  ts_add := timeout_add; ts_del := timeout_del; ts_ok := tw_ok; ts_ready := wheel_ready;
  ts_due := wheel_due |}.
Next Obligation.
  intros s id k Hok Hi Hk. destruct (add_spec s id k Hok Hk Hi) as (s' & E & Hok' & Ht & Hp & Hr & Ho).
  eexists _, s'. split; [exact E|]. split; [done|]. split; [by eapply add_ready|].
  split; [unfold wheel_due; by rewrite Hp, Hr|]. intros i Hne. apply wheel_due_ext; auto.
Qed.
Next Obligation.
  intros s id Hok Hi. destruct (timeout_del s id) as [r s'] eqn:E.
  destruct (del_spec s id r s' Hok E) as (Hok' & _ & Ht & Hp & _ & _ & Ho). simpl.
  split; [done|]. split; [by apply (del_ready s id) in Hi; rewrite E in Hi|].
  split; [unfold wheel_due; by rewrite Hp|]. intros i Hne. apply wheel_due_ext; auto.
Qed.

(** ** Counting down *)

(** A value the system call accepts. *)
Definition user_tv (tv : timeval) : Prop := tv_ok 100000000 tv /\ 0 <= tv_sec tv.

(** A timer as the system calls leave it: an interval is at least a tick. *)
Record itimer_ok (tick : Z) (itv : itimerval) : Prop := {
  ito_value : user_tv (it_value itv);
  ito_interval : user_tv (it_interval itv);
  ito_round : usecs (it_interval itv) = 0 \/ tick <= usecs (it_interval itv);
}.

Lemma itimerdecr_spec d itv :
  0 < d < 1000000 -> itimer_ok d itv -> 0 < usecs (it_value itv) ->
  exists r itv', itimerdecr itv d = (r, itv') /\ it_interval itv' = it_interval itv /\
    itimer_ok d itv' /\
    if d <? usecs (it_value itv) then r = 1 /\ usecs (it_value itv') = usecs (it_value itv) - d
    else r = 0 /\ usecs (it_value itv') =
      if usecs (it_interval itv) =? 0 then 0
      else usecs (it_interval itv) - (d - usecs (it_value itv)).
Proof.
  intros Hd [[[Hv1 Hv2] Hv3] Hi Hr] Hpos. pose proof Hi as Hi'. destruct Hi as [Hiok Hi3].
  unfold itimerdecr. rewrite (timerisset_spec _ _ Hiok). destruct Hiok as [Hi1 Hi2].
  destruct itv as [[ivs ivu] [vs vu]]. unfold usecs in *. cbn [it_interval it_value tv_sec tv_usec] in *.
  unfold timerisset. cbn [tv_sec tv_usec].
  assert (Hfin : forall r tv (b : bool), user_tv tv ->
    (if b then r = 1 /\ tv_sec tv * 1000000 + tv_usec tv = vs * 1000000 + vu - d
     else r = 0 /\ tv_sec tv * 1000000 + tv_usec tv =
       if ivs * 1000000 + ivu =? 0 then 0 else ivs * 1000000 + ivu - (d - (vs * 1000000 + vu))) ->
    exists r' itv', (r, mkItv (mkTv ivs ivu) tv) = (r', itv') /\ it_interval itv' = mkTv ivs ivu /\
      itimer_ok d itv' /\
      if b then r' = 1 /\ tv_sec (it_value itv') * 1000000 + tv_usec (it_value itv') = vs * 1000000 + vu - d
      else r' = 0 /\ tv_sec (it_value itv') * 1000000 + tv_usec (it_value itv') =
        if ivs * 1000000 + ivu =? 0 then 0 else ivs * 1000000 + ivu - (d - (vs * 1000000 + vu))).
  { intros r tv b Htv Hb. exists r, (mkItv (mkTv ivs ivu) tv). split_and!; try done. }
  unfold user_tv, tv_ok in Hfin.
  destruct (Z.ltb_spec vu d), (Z.eqb_spec vs 0), (Z.ltb_spec d (vs * 1000000 + vu)),
    (Z.eqb_spec (ivs * 1000000 + ivu) 0); cbn [negb orb andb]; try lia;
    rewrite ?(time_t_id (vs - 1)) by lia;
    repeat (case_match; bool_to_prop; cbn [negb orb andb] in * ); try done; try lia;
    first [apply (Hfin _ _ true)|apply (Hfin _ _ false)]; cbn [tv_sec tv_usec];
    rewrite ?time_t_id by lia; try lia.
Qed.

(** Where a periodic timer of value [v] and interval [i] stands after [t]
    microseconds: it has expired [k] times, on the grid [v], [v + i],
    [v + 2i], ..., and the next point of the grid is still to come. *)
Definition on_grid (v i t k left : Z) : Prop :=
  0 <= k /\ left = v + k * i - t /\ 0 < left /\ (0 < k -> left <= i).

Lemma on_grid_unique v i t k k' l l' :
  0 < i -> on_grid v i t k l -> on_grid v i t k' l' -> k = k' /\ l = l'.
Proof.
  unfold on_grid. intros Hi (H1 & -> & H3 & H4) (H5 & -> & H7 & H8).
  assert (k = k'); [|by subst].
  destruct (Z.lt_total k k') as [?|[?|?]]; [|done|]; exfalso.
  - assert (v + k' * i >= v + k * i + i) by nia. lia.
  - assert (v + k * i >= v + k' * i + i) by nia. lia.
Qed.

(** One tick of a running timer, on the grid. *)
Lemma itimerdecr_grid d v t k itv :
  0 < d < 1000000 -> itimer_ok d itv -> 0 < usecs (it_interval itv) ->
  on_grid v (usecs (it_interval itv)) t k (usecs (it_value itv)) ->
  exists r itv', itimerdecr itv d = (r, itv') /\ it_interval itv' = it_interval itv /\
    itimer_ok d itv' /\
    on_grid v (usecs (it_interval itv)) (t + d) (if r =? 0 then k + 1 else k) (usecs (it_value itv')).
Proof.
  intros Hd Hok Hi Hg. pose proof Hg as (H1 & H2 & H3 & H4).
  destruct (itimerdecr_spec d itv Hd Hok H3) as (r & itv' & E & Hint & Hok' & Hr).
  exists r, itv'. split_and!; [done..|]. destruct Hok as [_ _ Hround]. unfold on_grid.
  destruct (Z.ltb_spec d (usecs (it_value itv))), (Z.eqb_spec (usecs (it_interval itv)) 0);
    destruct Hr as [-> Hv]; simpl; lia.
Qed.

Section Countdown.
Context {T : Type} (tick : Z).
Hypothesis Htick : 0 < tick < 1000000.
Implicit Types p : proc T.

Definition pending (which : Z) p : bool :=
  if which =? ITIMER_PROF then p_profpend p else p_alrmpend p.

(** The periodic timer [which], of value [v] and interval [i] at the start,
    after [t] microseconds that count for it: it is on the grid, and its flag,
    [pend0] at the start, is set if it has expired. *)
Definition counts (which v i t : Z) (pend0 : bool) p : Prop :=
  itimer_ok tick (ps_timer p which) /\ usecs (it_interval (ps_timer p which)) = i /\
  exists k, on_grid v i t k (usecs (it_value (ps_timer p which))) /\
    pending which p = pend0 || (0 <? k).

Lemma counts_ext which v i t pend0 p p' :
  ps_timer p' which = ps_timer p which -> pending which p' = pending which p ->
  counts which v i t pend0 p -> counts which v i t pend0 p'.
Proof. unfold counts. by intros -> ->. Qed.

Lemma isset_counting tv b : tv_ok b tv -> 0 < usecs tv -> timerisset tv = true.
Proof.
  intros Hok Hp. rewrite (timerisset_spec b) by done. destruct (Z.eqb_spec (usecs tv) 0); [lia|done].
Qed.

Lemma hardclock_timer_other which p w :
  w <> which -> ps_timer (hardclock_timer tick which p) w = ps_timer p w.
Proof.
  intros Hw. unfold hardclock_timer. destruct (timerisset _); [|done].
  destruct (itimerdecr _ _) as [r itv]. apply Z.eqb_neq in Hw. by destruct (r =? 0); simpl; rewrite Hw.
Qed.

Lemma hardclock_timer_pending which p w :
  (which = ITIMER_VIRTUAL /\ w = ITIMER_PROF) \/ (which = ITIMER_PROF /\ w = ITIMER_VIRTUAL) ->
  pending w (hardclock_timer tick which p) = pending w p.
Proof.
  intros Hw. unfold hardclock_timer. destruct (timerisset _); [|done].
  destruct (itimerdecr _ _) as [r itv]. unfold pending.
  destruct Hw as [[-> ->]|[-> ->]]; destruct (r =? 0); simpl; by rewrite ?orb_false_r.
Qed.

Lemma hardclock_timer_counts which v i t pend0 p :
  which = ITIMER_VIRTUAL \/ which = ITIMER_PROF -> 0 < i -> counts which v i t pend0 p ->
  counts which v i (t + tick) pend0 (hardclock_timer tick which p).
Proof.
  intros Hw Hi (Hok & <- & k & Hg & Hp). pose proof Hg as (Hk & _ & Hpos & _).
  destruct (itimerdecr_grid tick v _ k _ Htick Hok Hi Hg) as (r & itv & E & Hint & Hok' & Hg').
  pose proof Hok as [[Hu _] _ _]. unfold hardclock_timer.
  rewrite (isset_counting _ _ Hu Hpos), E. unfold counts.
  replace (ps_timer (if r =? 0 then set_pend (set_timer p which itv) (which =? ITIMER_VIRTUAL)
    (which =? ITIMER_PROF) else set_timer p which itv) which) with itv
    by (destruct (r =? 0); simpl; by rewrite Z.eqb_refl).
  split; [done|]. split; [by rewrite Hint|]. exists (if r =? 0 then k + 1 else k). split; [done|].
  unfold pending in *. destruct (r =? 0); simpl.
  - rewrite (proj2 (Z.ltb_lt 0 (k + 1))), orb_true_r by lia. destruct Hw as [-> | ->]; simpl; apply orb_true_r.
  - done.
Qed.

(** The timers do not drift.  Along any sequence of clock interrupts, a
    running periodic [ITIMER_PROF] expires exactly at the first interrupt
    that reaches each of the instants [v], [v + i], [v + 2i], ... of the time
    that has passed, and [ITIMER_VIRTUAL] likewise for the time passed in user
    mode; the time shown is always what is left to the next of these instants,
    and the signal flag is raised exactly when an expiry has happened. *)
Theorem itimers_do_not_drift p (ms : list bool) v1 i1 v2 i2 :
  0 < i1 -> 0 < i2 ->
  counts ITIMER_VIRTUAL v1 i1 0 (p_alrmpend p) p -> counts ITIMER_PROF v2 i2 0 (p_profpend p) p ->
  let p' := foldl (fun p usermode => hardclock_itimers tick usermode p) p ms in
  counts ITIMER_VIRTUAL v1 i1 (tick * Z.of_nat (length (filter Is_true ms))) (p_alrmpend p) p' /\
  counts ITIMER_PROF v2 i2 (tick * Z.of_nat (length ms)) (p_profpend p) p' /\
  ps_timer p' ITIMER_REAL = ps_timer p ITIMER_REAL.
Proof.
  intros Hi1 Hi2 H1 H2 p'. unfold p'. clear p'.
  induction ms as [|um ms IH] using rev_ind; [simpl; by rewrite Z.mul_0_r|].
  rewrite foldl_snoc, list.filter_app, !length_app. destruct IH as (IH1 & IH2 & IH3).
  set (q := foldl _ p ms) in *. unfold hardclock_itimers.
  set (q1 := if um then hardclock_timer tick ITIMER_VIRTUAL q else q).
  assert (Hq1 : counts ITIMER_VIRTUAL v1 i1
    (tick * Z.of_nat (length (filter Is_true ms) + length (filter Is_true [um]))) (p_alrmpend p) q1).
  { unfold q1. destruct um; simpl.
    - replace (tick * _) with (tick * Z.of_nat (length (filter Is_true ms)) + tick) by lia.
      apply hardclock_timer_counts; auto.
    - by rewrite Nat.add_0_r. }
  assert (Hq2 : counts ITIMER_PROF v2 i2 (tick * Z.of_nat (length ms)) (p_profpend p) q1 /\
    ps_timer q1 ITIMER_REAL = ps_timer p ITIMER_REAL).
  { unfold q1. destruct um; [|done]. rewrite hardclock_timer_other by done. split; [|done].
    eapply counts_ext; [by apply hardclock_timer_other|apply hardclock_timer_pending; by left|done]. }
  destruct Hq2 as [Hq2 Hq3]. split_and!.
  - eapply counts_ext; [by apply hardclock_timer_other|apply hardclock_timer_pending; by right|done].
  - replace (tick * _) with (tick * Z.of_nat (length ms) + tick) by (simpl; lia).
    apply hardclock_timer_counts; auto.
  - by rewrite hardclock_timer_other.
Qed.

End Countdown.

(** ** Setting and reading *)

(** The bound on the clock readings: times of up to [2^60] seconds. *)
Definition TIME_BOUND : Z := 2 ^ 60.

Lemma tv_ok_weaken b c tv : b <= c -> tv_ok b tv -> tv_ok c tv.
Proof. unfold tv_ok. lia. Qed.

Lemma tv_ok_usecs b c tv :
  tv_ok b tv -> - c * 1000000 <= usecs tv <= c * 1000000 -> tv_ok c tv.
Proof. unfold tv_ok, usecs. lia. Qed.

Lemma tv_ok_range b tv : tv_ok b tv -> - b * 1000000 <= usecs tv < (b + 1) * 1000000.
Proof. unfold tv_ok, usecs. lia. Qed.

Lemma user_tv_usecs tv : user_tv tv -> 0 <= usecs tv <= 100000001 * 1000000.
Proof. unfold user_tv, tv_ok, usecs. lia. Qed.

Section Real.
Context {T : Type} `{TS : TimeoutService T} (hz tick : Z).
Hypothesis Hhz : 1 <= hz.
Hypothesis Htick : 1 <= tick < 1000000.
Implicit Types p : proc T.

Lemma itimerfix_user tv :
  itimerfix tick tv = (0, itimerround tick tv) /\ user_tv tv /\ user_tv (itimerround tick tv) \/
  itimerfix tick tv = (EINVAL, tv) /\ ~ user_tv tv.
Proof.
  rewrite itimerfix_spec by lia. case_decide as H; [left|right].
  - split; [done|]. destruct H as [H1 H2]. split; [done|].
    destruct (itimerround_spec tick ltac:(lia) tv H2 H1 ltac:(lia)) as (? & ? & _). done.
  - split; [done|]. intros [? ?]. by apply H.
Qed.

Lemma itimerround_idem tv : itimerround tick (itimerround tick tv) = itimerround tick tv.
Proof.
  unfold itimerround at 2 3. destruct (_ && _ && _) eqn:E; [|by unfold itimerround; rewrite E].
  unfold itimerround. simpl. destruct (Z.ltb_spec tick tick); [lia|]. by rewrite andb_false_r.
Qed.

Lemma itimerround_usecs tv :
  user_tv tv ->
  usecs (itimerround tick tv) = (if usecs tv =? 0 then 0 else Z.max tick (usecs tv)).
Proof.
  intros [H1 H2]. destruct (itimerround_spec tick ltac:(lia) tv H1 H2 ltac:(lia)) as (_ & _ & H3 & H4).
  destruct (Z.eqb_spec (usecs tv) 0); [by rewrite H3|]. apply H4.
  pose proof (user_tv_usecs tv). unfold user_tv in *. intuition lia.
Qed.

(** What [getitimer] returns for the real timer. *)
Lemma getitimer_real now p :
  tv_ok TIME_BOUND now -> tv_ok TIME_BOUND (it_value (ps_timer p ITIMER_REAL)) ->
  let v := getitimer_value now p ITIMER_REAL in
  it_interval v = it_interval (ps_timer p ITIMER_REAL) /\
  usecs (it_value v) =
    if usecs (it_value (ps_timer p ITIMER_REAL)) =? 0 then 0
    else Z.max 0 (usecs (it_value (ps_timer p ITIMER_REAL)) - usecs now).
Proof.
  intros Hn Hv. unfold getitimer_value. rewrite (timerisset_spec _ _ Hv). simpl.
  destruct (Z.eqb_spec (usecs (it_value (ps_timer p ITIMER_REAL))) 0) as [E|]; simpl; [done|].
  destruct (timercmp_spec _ _ _ _ Hv Hn) as (-> & _ & _).
  destruct (Z.ltb_spec (usecs (it_value (ps_timer p ITIMER_REAL))) (usecs now)).
  - simpl. split; [done|]. rewrite Z.max_l by lia. done.
  - simpl. split; [done|].
    destruct (timersub_spec TIME_BOUND _ _ ltac:(unfold TIME_BOUND; lia) Hv Hn) as [-> _]. lia.
Qed.

(** The part of [sys_setitimer] that sets the real timer. *)
Lemma setitimer_real now p aitv :
  ts_ok (p_timeouts p) -> ts_ready (p_timeouts p) (ps_realit_to p) ->
  user_tv (it_value aitv) -> user_tv (it_interval aitv) ->
  exists p', setitimer_set hz tick now p ITIMER_REAL aitv = Done 0 p' /\
    ts_ok (p_timeouts p') /\ ts_ready (p_timeouts p') (ps_realit_to p) /\
    (forall i, i <> ps_realit_to p -> ts_due (p_timeouts p') i = ts_due (p_timeouts p) i) /\
    (forall w, w <> ITIMER_REAL -> ps_timer p' w = ps_timer p w) /\
    it_interval (ps_timer p' ITIMER_REAL) = itimerround tick (it_interval aitv) /\
    let v := itimerround tick (it_value aitv) in
    if usecs (it_value aitv) =? 0 then
      ts_due (p_timeouts p') (ps_realit_to p) = None /\ it_value (ps_timer p' ITIMER_REAL) = v
    else
      ts_due (p_timeouts p') (ps_realit_to p) = Some (tvtohz hz tick v) /\
      it_value (ps_timer p' ITIMER_REAL) = timeradd v now.
Proof.
  intros Hok Hrd Hv Hi. unfold setitimer_set.
  destruct (itimerfix_user (it_value aitv)) as [(-> & _ & Hv')|[_ []]]; [|done].
  destruct (itimerfix_user (it_interval aitv)) as [(-> & _ & Hi')|[_ []]]; [|done]. simpl.
  destruct (ts_del_spec (p_timeouts p) (ps_realit_to p) Hok Hrd) as (Hd1 & Hd2 & Hd3 & Hd4).
  set (v := itimerround tick (it_value aitv)) in *.
  assert (Hvu : (usecs v =? 0) = (usecs (it_value aitv) =? 0)).
  { unfold v. rewrite itimerround_usecs by done.
    destruct (Z.eqb_spec (usecs (it_value aitv)) 0); [done|]. apply Z.eqb_neq. lia. }
  destruct Hv' as [Hvok Hv0]. rewrite (timerisset_spec _ _ Hvok), Hvu.
  destruct (usecs (it_value aitv) =? 0); simpl.
  - eexists. split; [reflexivity|]. simpl. split_and!; try done.
    intros w Hw. apply Z.eqb_neq in Hw. by rewrite Hw.
  - destruct (tvtohz_correct hz tick Hhz ltac:(lia) v) as [Hn _].
    { eapply tv_ok_weaken; [|exact Hvok]. unfold LONG_MAX. lia. }
    destruct (ts_add_spec _ _ _ Hd1 Hd2 Hn) as (r & s' & -> & Ha1 & Ha2 & Ha3 & Ha4).
    eexists. split; [reflexivity|]. simpl. split_and!; try done.
    + intros i Hne. by rewrite Ha4, Hd4.
    + intros w Hw. apply Z.eqb_neq in Hw. by rewrite Hw.
Qed.

(** What [getitimer] returns once the real timer was set. *)
Lemma real_time_left now2 now3 p aitv :
  tv_ok (2 ^ 59) now2 -> 0 < usecs now2 -> tv_ok TIME_BOUND now3 -> usecs now2 <= usecs now3 ->
  user_tv (it_value aitv) ->
  it_interval (ps_timer p ITIMER_REAL) = itimerround tick (it_interval aitv) ->
  it_value (ps_timer p ITIMER_REAL) =
    (if usecs (it_value aitv) =? 0 then itimerround tick (it_value aitv)
     else timeradd (itimerround tick (it_value aitv)) now2) ->
  it_interval (getitimer_value now3 p ITIMER_REAL) = itimerround tick (it_interval aitv) /\
  usecs (it_value (getitimer_value now3 p ITIMER_REAL)) =
    Z.max 0 (usecs (itimerround tick (it_value aitv)) - (usecs now3 - usecs now2)).
Proof.
  intros Hn2 Hp2 Hn3 Hle Hv Hint Hval.
  pose proof (itimerround_usecs _ Hv) as Hru. pose proof (user_tv_usecs _ Hv) as Hub.
  destruct (itimerfix_user (it_value aitv)) as [(_ & _ & Hv')|[_ []]]; [|done].
  destruct Hv' as [Hvok Hv0]. destruct (Z.eqb_spec (usecs (it_value aitv)) 0) as [E|].
  - destruct (getitimer_real now3 p Hn3) as [H1 H2].
    { rewrite Hval. eapply tv_ok_weaken; [|exact Hvok]. unfold TIME_BOUND. lia. }
    split; [by rewrite H1, Hint|]. rewrite H2, Hval, Hru. simpl. lia.
  - destruct (timeradd_spec (2 ^ 59) (itimerround tick (it_value aitv)) now2) as [Hadd Haok];
      [lia|by eapply tv_ok_weaken; [|exact Hvok]|done|].
    destruct (getitimer_real now3 p Hn3) as [H1 H2].
    { rewrite Hval. apply (tv_ok_usecs _ _ _ Haok). rewrite Hadd, Hru.
      destruct Hn2. unfold TIME_BOUND, usecs. change (2 ^ 60) with (2 * 2 ^ 59).
      unfold usecs in Hub. lia. }
    split; [by rewrite H1, Hint|]. rewrite H2, Hval, Hadd.
    destruct (Z.eqb_spec (usecs (itimerround tick (it_value aitv)) + usecs now2) 0); lia.
Qed.

(** [setitimer] then [getitimer].  Arguments out of range are refused and
    change nothing.  Otherwise the timeout of the real timer is armed for the
    ticks of the value (rounded up to a tick), or taken off the queue when the
    value is zero, and no other timeout is touched; from then on [getitimer]
    returns the interval and the time left, 0 once it has passed; the other
    two timers are read back as they were set. *)
Theorem setitimer_getitimer now1 now2 p which aitv :
  ITIMER_REAL <= which <= ITIMER_PROF ->
  ts_ok (p_timeouts p) -> ts_ready (p_timeouts p) (ps_realit_to p) ->
  tv_ok (2 ^ 59) now2 -> 0 < usecs now2 ->
  (~ (user_tv (it_value aitv) /\ user_tv (it_interval aitv)) ->
   sys_setitimer hz tick now1 now2 p which (Some (inr aitv)) None = Done (EINVAL, None) p) /\
  (user_tv (it_value aitv) -> user_tv (it_interval aitv) ->
   exists p', sys_setitimer hz tick now1 now2 p which (Some (inr aitv)) None = Done (0, None) p' /\
     ts_ok (p_timeouts p') /\
     (forall i, i <> ps_realit_to p -> ts_due (p_timeouts p') i = ts_due (p_timeouts p) i) /\
     (which = ITIMER_REAL ->
      ts_due (p_timeouts p') (ps_realit_to p) =
        (if usecs (it_value aitv) =? 0 then None
         else Some (tvtohz hz tick (itimerround tick (it_value aitv))))) /\
     forall now3, tv_ok TIME_BOUND now3 -> usecs now2 <= usecs now3 ->
       exists v, sys_getitimer now3 p' which 0 = (0, Some v) /\
         it_interval v = itimerround tick (it_interval aitv) /\
         let asked := usecs (itimerround tick (it_value aitv)) in
         usecs (it_value v) =
           if which =? ITIMER_REAL then Z.max 0 (asked - (usecs now3 - usecs now2)) else asked).
Proof.
  intros Hw Hok Hrd Hn2 Hp2. unfold sys_setitimer, sys_getitimer.
  assert (Hwb : (which <? ITIMER_REAL) || (which >? ITIMER_PROF) = false).
  { rewrite Z.gtb_ltb. apply orb_false_iff. rewrite !Z.ltb_ge. lia. }
  rewrite Hwb. cbn [fst snd negb Z.eqb]. split.
  - intros Hbad. unfold setitimer_set.
    destruct (itimerfix_user (it_value aitv)) as [(-> & Hv & _)|[-> _]]; [|done]. simpl.
    destruct (itimerfix_user (it_interval aitv)) as [(_ & Hi & _)|[-> _]]; [|done]. by destruct Hbad.
  - intros Hv Hi. destruct (Z.eqb_spec which ITIMER_REAL) as [->|Hne].
    + destruct (setitimer_real now2 p aitv Hok Hrd Hv Hi) as (p' & -> & Hok' & _ & Ho & _ & Hint & Hdue).
      cbv zeta in Hdue.
      exists p'. split_and!; [done..| |].
      { intros _. destruct (usecs (it_value aitv) =? 0); tauto. }
      intros now3 Hn3 Hle. eexists. split; [reflexivity|].
      apply (real_time_left now2 now3 p' aitv); try done.
      destruct (usecs (it_value aitv) =? 0); tauto.
    + unfold setitimer_set.
      destruct (itimerfix_user (it_value aitv)) as [(-> & _ & Hv')|[_ []]]; [|done].
      destruct (itimerfix_user (it_interval aitv)) as [(-> & _ & Hi')|[_ []]]; [|done]. simpl.
      rewrite (proj2 (Z.eqb_neq _ _) Hne). eexists. split; [reflexivity|]. split_and!; try done.
      intros now3 _ _. eexists. split; [reflexivity|]. unfold getitimer_value.
      rewrite (proj2 (Z.eqb_neq _ _) Hne). simpl. rewrite Z.eqb_refl. simpl.
      split; [apply itimerround_idem|done].
Qed.

(** ** Expiry of the real timer *)

(** The ticks the handler arms the timeout for: the time to go in ticks, rounded
    up, or the most that fits in an [int]. *)
Definition rearm (u : Z) : Z := Z.min (INT_MAX - 1) ((u + (tick - 1)) / tick).

Lemma rearm_ticks tv :
  tv_ok LONG_MAX tv -> 0 < usecs tv ->
  (if tvtohz hz tick tv - 1 <=? 0 then 1 else tvtohz hz tick tv - 1) = rearm (usecs tv) /\
  1 <= rearm (usecs tv) <= INT_MAX.
Proof.
  intros Hok Hpos. rewrite (tvtohz_min hz tick Hhz ltac:(lia) tv Hok Hpos). unfold rearm.
  assert (1 <= (usecs tv + (tick - 1)) / tick) by (apply Z.div_le_lower_bound; lia).
  unfold INT_MAX. destruct (Z.leb_spec (Z.min 2147483647 ((usecs tv + (tick - 1)) / tick + 1) - 1) 0); lia.
Qed.

(** The loop from its [k]-th turn on: the expiry is moved by whole intervals
    to the first one that the clock has not reached. *)
Lemma realit_loop_spec fuel now k p B :
  ts_ok (p_timeouts p) -> ts_ready (p_timeouts p) (ps_realit_to p) ->
  user_tv (it_interval (ps_timer p ITIMER_REAL)) ->
  let i := usecs (it_interval (ps_timer p ITIMER_REAL)) in
  let v := usecs (it_value (ps_timer p ITIMER_REAL)) in
  0 < i -> tv_ok (2 ^ 59) (it_value (ps_timer p ITIMER_REAL)) ->
  (forall j, tv_ok (2 ^ 58) (now j) /\ usecs (now j) <= B) ->
  B < v + Z.of_nat fuel * i -> (0 < fuel)%nat ->
  exists n p', (0 < n)%nat /\ realit_loop hz tick fuel now k p = Done tt p' /\
    ps_siglist p' = ps_siglist p /\ ts_ok (p_timeouts p') /\
    (forall w, w <> ITIMER_REAL -> ps_timer p' w = ps_timer p w) /\
    it_interval (ps_timer p' ITIMER_REAL) = it_interval (ps_timer p ITIMER_REAL) /\
    usecs (it_value (ps_timer p' ITIMER_REAL)) = v + Z.of_nat n * i /\
    (forall j, (j < n - 1)%nat -> v + Z.of_nat (S j) * i <= usecs (now (k + j)%nat)) /\
    let now' := usecs (now (k + (n - 1))%nat) in
    now' < v + Z.of_nat n * i /\
    if ps_exiting p then p_timeouts p' = p_timeouts p
    else ts_due (p_timeouts p') (ps_realit_to p) = Some (rearm (v + Z.of_nat n * i - now')).
Proof.
  revert k p. induction fuel as [|fuel IH]; intros k p Hok Hrd Hi i v Hi0 Hv Hnow Hfuel Hf; [lia|].
  simpl realit_loop.
  destruct (timeradd_spec (2 ^ 59) (it_value (ps_timer p ITIMER_REAL))
    (it_interval (ps_timer p ITIMER_REAL))) as [Hadd Haok];
    [lia|done|by eapply tv_ok_weaken; [|apply Hi]|]. fold i v in Hadd.
  set (nv := timeradd _ _) in *. destruct (Hnow k) as [Hnk HnB].
  destruct (timercmp_spec _ _ _ _ Haok Hnk) as (_ & -> & _). rewrite Z.gtb_ltb.
  destruct (Z.ltb_spec (usecs (now k)) (usecs nv)) as [Hgt|Hle].
  - destruct (timersub_spec (2 ^ 60 + 1) nv (now k)) as [Hsub Hsok];
      [lia|eapply tv_ok_weaken; [|exact Haok]; lia|eapply tv_ok_weaken; [|exact Hnk]; lia|].
    destruct (rearm_ticks (timersub nv (now k))) as [Ht1 Ht2];
      [eapply tv_ok_weaken; [|exact Hsok]; unfold LONG_MAX; lia|lia|].
    rewrite Ht1. clear Ht1. set (timo := rearm (usecs (timersub nv (now k)))) in *.
    exists 1%nat. rewrite Nat.add_0_r. simpl. destruct (ps_exiting p) eqn:Ex.
    + eexists. split; [lia|]. split; [reflexivity|]. simpl. rewrite Hadd.
      split_and!; try done; try lia. by intros w Hw%Z.eqb_neq; rewrite Hw.
    + destruct (ts_add_spec _ _ timo Hok Hrd ltac:(lia)) as (r & s' & -> & Ha1 & _ & Ha3 & _).
      eexists. split; [lia|]. split; [reflexivity|]. simpl. rewrite Hadd.
      split_and!; try done; try lia; [by intros w Hw%Z.eqb_neq; rewrite Hw|].
      rewrite Ha3. unfold timo. rewrite Hsub, Hadd. do 2 f_equal. lia.
  - set (q := set_timer p ITIMER_REAL (mkItv (it_interval (ps_timer p ITIMER_REAL)) nv)).
    assert (Hfp : (0 < fuel)%nat) by (destruct fuel; lia).
    destruct (IH (S k) q) as (n & p' & Hn & E & Hr); try done.
    + simpl. apply (tv_ok_usecs _ _ _ Haok). pose proof (tv_ok_range _ _ Hnk). pose proof (tv_ok_range _ _ Hv) as Hvr.
      fold v in Hvr. lia.
    + simpl. rewrite Hadd. fold i. lia.
    + simpl in Hr. rewrite Hadd in Hr. fold i in Hr.
      destruct Hr as (Hr1 & Hr2 & Hr3 & Hr4 & Hr5 & Hr6 & Hr7 & Hr8).
      exists (S n), p'. split; [lia|]. split; [done|]. split_and!; try done.
      * intros w Hw. rewrite Hr3 by done. by apply Z.eqb_neq in Hw; rewrite Hw.
      * lia.
      * intros [|j] Hj; [rewrite Nat.add_0_r; lia|].
        rewrite Nat.add_succ_r. specialize (Hr6 j ltac:(lia)). lia.
      * replace (k + (S n - 1))%nat with (S (k + (n - 1)))%nat by lia.
        replace (v + Z.of_nat (S n) * i) with (v + i + Z.of_nat n * i) by lia. done.
Qed.

(** C33: expiry of the real timer.  The handler sends one [SIGALRM].  Without
    an interval it clears the timer.  Otherwise its loop ends and moves the
    expiry by a whole number of intervals to the first instant that the clock
    has not reached, so that late handling loses alarms but does not shift the
    later ones; unless the process is exiting, the timeout is armed again for
    exactly the ticks to that instant, rounded up, or for INT_MAX - 1 ticks if
    that is less - the alarm then comes early, as the ones of
    [setitimer_long_fires_early] do.  Assumed: the timeout is not pending, the
    interval is one that setitimer accepts, times are below 2^58 seconds, and,
    for a timer with an interval, the clock, which is read once per turn of
    the loop, stays below a bound [B] that the expiries pass within [fuel]
    turns. *)
Theorem realitexpire_correct fuel now p B :
  ts_ok (p_timeouts p) -> ts_ready (p_timeouts p) (ps_realit_to p) ->
  user_tv (it_interval (ps_timer p ITIMER_REAL)) ->
  let i := usecs (it_interval (ps_timer p ITIMER_REAL)) in
  let v := usecs (it_value (ps_timer p ITIMER_REAL)) in
  tv_ok (2 ^ 59) (it_value (ps_timer p ITIMER_REAL)) ->
  (forall j, tv_ok (2 ^ 58) (now j) /\ usecs (now j) <= B) ->
  (i <> 0 -> B < v + Z.of_nat fuel * i) -> (0 < fuel)%nat ->
  exists p', realitexpire hz tick fuel now p = Done tt p' /\
    ps_siglist p' = ps_siglist p ++ [SIGALRM] /\ ts_ok (p_timeouts p') /\
    if i =? 0 then it_value (ps_timer p' ITIMER_REAL) = timerclear /\ p_timeouts p' = p_timeouts p
    else exists n, (0 < n)%nat /\
      usecs (it_value (ps_timer p' ITIMER_REAL)) = v + Z.of_nat n * i /\
      (forall j, (j < n - 1)%nat -> v + Z.of_nat (S j) * i <= usecs (now j)) /\
      let now' := usecs (now (n - 1)%nat) in
      now' < v + Z.of_nat n * i /\
      if ps_exiting p then p_timeouts p' = p_timeouts p
      else ts_due (p_timeouts p') (ps_realit_to p) = Some (rearm (v + Z.of_nat n * i - now')).
Proof.
  intros Hok Hrd Hi i v Hv Hnow Hfuel Hf. unfold realitexpire. simpl ps_timer.
  rewrite (timerisset_spec _ _ (proj1 Hi)). fold i. pose proof (user_tv_usecs _ Hi) as Hib. fold i in Hib.
  destruct (Z.eqb_spec i 0) as [E|E]; simpl.
  - eexists. split; [reflexivity|]. simpl. done.
  - destruct (realit_loop_spec fuel now 0 (prsignal p SIGALRM) B) as
      (n & p' & Hn & -> & Hs & Hok' & _ & _ & Hval & Hj & Hrest); try done; [simpl; lia|by apply Hfuel|].
    exists p'. split; [done|]. split; [done|]. split; [done|]. by exists n.
Qed.

End Real.

(** ** Long timers *)

(** A defect.  Values of up to 100000000 seconds are accepted, but the
    ticks of a timer are cut off at [INT_MAX] and the handler does not look at
    the clock before it sends [SIGALRM]: at 100 Hz, every value of more than
    [INT_MAX] ticks (248 days) is armed for [INT_MAX] ticks, and the alarm
    comes before the time [getitimer] announces. *)
Theorem setitimer_long_fires_early {T} `{TS : TimeoutService T} now1 now2 (p : proc T) sec :
  ts_ok (p_timeouts p) -> ts_ready (p_timeouts p) (ps_realit_to p) ->
  21474837 <= sec <= 100000000 ->
  exists p', sys_setitimer 100 10000 now1 now2 p ITIMER_REAL
      (Some (inr (mkItv timerclear (mkTv sec 0)))) None = Done (0, None) p' /\
    ts_due (p_timeouts p') (ps_realit_to p) = Some INT_MAX /\
    INT_MAX * 10000 < usecs (mkTv sec 0).
Proof.
  intros Hok Hrd Hs. unfold sys_setitimer. cbn [fst snd orb negb Z.eqb Z.ltb Z.gtb Z.compare ITIMER_REAL ITIMER_PROF].
  destruct (setitimer_real 100 10000 ltac:(lia) ltac:(lia) now2 p (mkItv timerclear (mkTv sec 0)) Hok Hrd)
    as (p' & -> & _ & _ & _ & _ & _ & Hdue).
  { unfold user_tv, tv_ok. simpl. lia. }
  { unfold user_tv, tv_ok. simpl. lia. }
  exists p'. split; [done|]. revert Hdue. simpl it_value.
  assert (Hu : usecs (mkTv sec 0) = sec * 1000000) by (unfold usecs; simpl; lia).
  rewrite Hu. destruct (Z.eqb_spec (sec * 1000000) 0); [lia|].
  assert (Hr : itimerround 10000 (mkTv sec 0) = mkTv sec 0).
  { unfold itimerround. simpl. destruct (Z.eqb_spec sec 0); [lia|done]. }
  rewrite Hr. intros [-> _]. split; [|unfold INT_MAX; lia]. f_equal.
  rewrite (tvtohz_min 100 10000); [|lia|lia|unfold tv_ok, LONG_MAX; simpl; lia|lia].
  rewrite Hu. apply Z.min_l. apply Z.le_trans with (21474837 * 1000000 / 10000); [vm_compute; congruence|].
  assert (21474837 * 1000000 / 10000 <= (sec * 1000000 + (10000 - 1)) / 10000)
    by (apply Z.div_le_mono; lia). lia.
Qed.

(** ** Witnesses: a process whose timers use the timing wheel *)

Definition demo_proc : proc tstate :=
  mkProc (fun _ => mkItv (mkTv 0 25000) (mkTv 0 30000)) 7 false [] false false demo_start.

Lemma demo_proc_ok :
  ts_ok (p_timeouts demo_proc) /\ ts_ready (p_timeouts demo_proc) (ps_realit_to demo_proc).
Proof. split; [exact demo_start_ok|reflexivity]. Qed.

Lemma demo_counts w : w = ITIMER_VIRTUAL \/ w = ITIMER_PROF ->
  counts 10000 w 30000 25000 0 false demo_proc.
Proof.
  intros Hw. split.
  - split; simpl; unfold user_tv, tv_ok, usecs; simpl; lia.
  - split; [done|]. exists 0. unfold on_grid, usecs, pending. simpl.
    split; [lia|]. by destruct (w =? ITIMER_PROF).
Qed.

Lemma itimers_do_not_drift_witness :
  counts 10000 ITIMER_PROF 30000 25000 40000 false
    (foldl (fun p usermode => hardclock_itimers 10000 usermode p) demo_proc [true; false; true; true]) /\
  p_profpend (foldl (fun p usermode => hardclock_itimers 10000 usermode p) demo_proc
    [true; false; true; true]) = true.
Proof.
  split; [|reflexivity].
  apply (itimers_do_not_drift 10000 ltac:(lia) demo_proc [true; false; true; true] 30000 25000 30000 25000
    ltac:(lia) ltac:(lia) (demo_counts ITIMER_VIRTUAL (or_introl eq_refl))
    (demo_counts ITIMER_PROF (or_intror eq_refl))).
Defined.

Lemma setitimer_getitimer_witness :
  exists p', sys_setitimer 100 10000 (mkTv 5 0) (mkTv 5 0) demo_proc ITIMER_REAL
      (Some (inr (mkItv timerclear (mkTv 2 5)))) None = Done (0, None) p' /\
    ts_ok (p_timeouts p') /\ ts_due (p_timeouts p') 7 = Some 202.
Proof.
  destruct demo_proc_ok as [H1 H2].
  destruct (setitimer_getitimer 100 10000 ltac:(lia) ltac:(lia) (mkTv 5 0) (mkTv 5 0) demo_proc
    ITIMER_REAL (mkItv timerclear (mkTv 2 5))) as [_ H]; [split; vm_compute; congruence|exact H1|exact H2|
    unfold tv_ok; simpl; lia|reflexivity|].
  destruct H as (p' & E & Hok & _ & Hd & _);
    [unfold user_tv, tv_ok; simpl; lia|unfold user_tv, tv_ok; simpl; lia|].
  exists p'. split; [exact E|]. split; [exact Hok|]. exact (Hd eq_refl).
Defined.

(** The handler runs 60 ms late: two alarms are lost, and the next one is for
    105 ms, on the grid. *)
Lemma realitexpire_correct_witness :
  exists p', realitexpire 100 10000 10 (fun _ => mkTv 0 90000) demo_proc = Done tt p' /\
    usecs (it_value (ps_timer p' ITIMER_REAL)) = 105000 /\
    ps_siglist p' = [SIGALRM].
Proof.
  destruct demo_proc_ok as [H1 H2].
  destruct (realitexpire_correct 100 10000 ltac:(lia) ltac:(lia) 10 (fun _ => mkTv 0 90000) demo_proc 90000)
    as (p' & E & Hs & _); [exact H1|exact H2|unfold user_tv, tv_ok; simpl; lia|unfold tv_ok; simpl; lia|
      intros _; unfold tv_ok, usecs; simpl; lia|intros _; vm_compute; reflexivity|lia|].
  exists p'. split; [exact E|]. split; [|exact Hs].
  vm_compute in E. injection E as <-. reflexivity.
Defined.

Lemma setitimer_long_fires_early_witness :
  exists p', sys_setitimer 100 10000 (mkTv 5 0) (mkTv 5 0) demo_proc ITIMER_REAL
      (Some (inr (mkItv timerclear (mkTv 40000000 0)))) None = Done (0, None) p' /\
    ts_due (p_timeouts p') 7 = Some INT_MAX /\ INT_MAX * 10000 < usecs (mkTv 40000000 0).
Proof.
  destruct demo_proc_ok as [H1 H2].
  exact (setitimer_long_fires_early (mkTv 5 0) (mkTv 5 0) demo_proc 40000000 H1 H2 ltac:(lia)).
Defined.
