(* ===== verification/Msg.v ===== *)
(** * System V messages (sys/kern/sysv_msg.c, sys/sys/msg.h)

    Queues and messages are objects on a heap, reached through the addresses
    the code keeps across sleeps; the queues in use are also on the list
    [msg_queues].  The kernel runs one thread at a time and switches only
    where a thread may sleep: in [tsleep], in an allocation that waits, or in
    [copyin] and [copyout].  A thread inside a system call is therefore at one
    of the points of [thread], and each stretch of code between two of them is
    one function on the state.  [None] is the outcome of following the address
    of an object that has been freed, and of a panic. *)

From stdpp Require Import base numbers list option gmap.
From Stdlib Require Import ZArith Lia Bool.
From S2P Require Import Prelude Sem.

(** ** Constants *)

Definition MSGMAX : Z := 16384.
Definition MSGMNB : Z := 2048.
Definition MSGMNI : Z := 40.
Definition MSGTQL : Z := 40.

(** Sizes of mbufs on the 64-bit ports. *)
Definition MLEN : Z := 224.
Definition MINCLSIZE : Z := 377.
Definition MCLBYTES : Z := 2048.

Definition MSGQ_READERS : Z := 1.
Definition MSGQ_WRITERS : Z := 2.
Definition MSGQ_DYING : Z := 4.

(** ** Data *)

Record msqid_ds := mkMds {
  msg_perm : ipc_perm;
  msg_cbytes : Z;
  msg_qnum : Z;
  msg_qbytes : Z;
  msg_lspid : Z;
  msg_lrpid : Z;
  msg_stime : Z;
  msg_rtime : Z;
  msg_ctime : Z }.

(** [msg_data] is the chain of mbufs, each with its bytes. *)
Record msg := mkMsg { msg_type : Z; msg_len : Z; msg_data : list (list Z) }.

Record que := mkQue {
  q_ds : msqid_ds;
  que_ix : Z;
  que_flags : Z;
  que_references : Z;
  que_msgs : list nat }.

Definition q_with_ds (d : msqid_ds) (q : que) : que :=
  mkQue d (que_ix q) (que_flags q) (que_references q) (que_msgs q).
Definition q_with_flags (f : Z) (q : que) : que :=
  mkQue (q_ds q) (que_ix q) f (que_references q) (que_msgs q).
Definition q_with_refs (r : Z) (q : que) : que :=
  mkQue (q_ds q) (que_ix q) (que_flags q) r (que_msgs q).
Definition q_with_msgs (l : list nat) (q : que) : que :=
  mkQue (q_ds q) (que_ix q) (que_flags q) (que_references q) l.

(** The arguments of a call.  A user buffer is the type in its first word and
    the bytes that follow, as far as they are mapped: reading or writing past
    them is [EFAULT].  A sender's word that is not mapped is a [sa_type] of
    [None], a receiver's a [ra_word] of [false]. *)
Record snd_args := mkSnd {
  sa_pid : Z; sa_cred : ucred; sa_type : option Z; sa_mem : list Z; sa_sz : Z; sa_flg : Z }.
Record rcv_args := mkRcv {
  ra_pid : Z; ra_cred : ucred; ra_word : bool; ra_mem : list Z; ra_sz : Z; ra_typ : Z; ra_flg : Z }.

(** What a call gives back: the error, [*retval], and the user buffer. *)
Record ret := mkRet { r_error : Z; r_val : Z; r_type : option Z; r_mem : list Z }.

Inductive thread :=
| User (r : option ret)                        (* not in a call; the last result *)
| GetAlloc (cred : ucred) (key flg : Z)        (* malloc in que_create *)
| SndSleep (q : nat) (a : snd_args)            (* tsleep in sys_msgsnd *)
| SndWake (q : nat) (a : snd_args)             (* woken *)
| SndAlloc (q : nat) (a : snd_args)            (* pool_get in msg_create *)
| SndCopy (q m : nat) (a : snd_args)           (* m_get, copyin in msg_copyin *)
| RcvSleep (q : nat) (a : rcv_args)            (* tsleep in sys_msgrcv *)
| RcvWake (q : nat) (a : rcv_args)
| RcvCopy (q m : nat) (a : rcv_args)           (* copyout in msg_copyout *)
| RmSleep (q : nat)                            (* tsleep in IPC_RMID *)
| RmWake (q : nat)
| SetCopy (q : nat) (cred : ucred) (tmp : Z + msqid_ds)  (* copyin in IPC_SET *)
| StatCopy (q : nat) (err : Z).                (* copyout in IPC_STAT *)

Record mstate := mkM {
  ques : gmap nat que;
  msgs : gmap nat msg;
  next_addr : nat;
  msg_queues : list nat;
  num_ques : Z;
  num_msgs : Z;
  sequence : Z;
  maxmsgs : Z;
  now_sec : Z;              (* time_second *)
  threads : list thread }.

Definition with_ques (h : gmap nat que) (s : mstate) : mstate :=
  mkM h (msgs s) (next_addr s) (msg_queues s) (num_ques s) (num_msgs s) (sequence s) (maxmsgs s)
    (now_sec s) (threads s).
Definition with_msgs (h : gmap nat msg) (n : Z) (s : mstate) : mstate :=
  mkM (ques s) h (next_addr s) (msg_queues s) (num_ques s) n (sequence s) (maxmsgs s)
    (now_sec s) (threads s).
Definition with_list (l : list nat) (s : mstate) : mstate :=
  mkM (ques s) (msgs s) (next_addr s) l (num_ques s) (num_msgs s) (sequence s) (maxmsgs s)
    (now_sec s) (threads s).
Definition with_num_ques (n : Z) (s : mstate) : mstate :=
  mkM (ques s) (msgs s) (next_addr s) (msg_queues s) n (num_msgs s) (sequence s) (maxmsgs s)
    (now_sec s) (threads s).
Definition with_maxmsgs (n : Z) (s : mstate) : mstate :=
  mkM (ques s) (msgs s) (next_addr s) (msg_queues s) (num_ques s) (num_msgs s) (sequence s) n
    (now_sec s) (threads s).
Definition with_sequence (n : Z) (s : mstate) : mstate :=
  mkM (ques s) (msgs s) (next_addr s) (msg_queues s) (num_ques s) (num_msgs s) n (maxmsgs s)
    (now_sec s) (threads s).
Definition with_threads (l : list thread) (s : mstate) : mstate :=
  mkM (ques s) (msgs s) (next_addr s) (msg_queues s) (num_ques s) (num_msgs s) (sequence s)
    (maxmsgs s) (now_sec s) l.
(** An allocation: a fresh address. *)
Definition with_next (s : mstate) : mstate :=
  mkM (ques s) (msgs s) (S (next_addr s)) (msg_queues s) (num_ques s) (num_msgs s) (sequence s)
    (maxmsgs s) (now_sec s) (threads s).

Definition set_thread (t : nat) (th : thread) (s : mstate) : mstate :=
  with_threads (<[t := th]> (threads s)) s.

Definition upd_que (q : nat) (f : que -> que) (s : mstate) : option mstate :=
  qq ← ques s !! q; Some (with_ques (<[q := f qq]> (ques s)) s).

(** ** Sleep and wakeup *)

(** [wakeup(que)]: every thread asleep on the queue. *)
Definition wake_que (q : nat) (th : thread) : thread :=
  match th with
  | SndSleep q' a => if decide (q' = q) then SndWake q' a else th
  | RcvSleep q' a => if decide (q' = q) then RcvWake q' a else th
  | _ => th
  end.
Definition msg_wakeup (q : nat) (s : mstate) : mstate :=
  with_threads (wake_que q <$> threads s) s.

(** [wakeup_one(&que->que_references)]: the thread that removes the queue. *)
Definition wake_rm (q : nat) (th : thread) : thread :=
  match th with
  | RmSleep q' => if decide (q' = q) then RmWake q' else th
  | _ => th
  end.
Definition wakeup_refs (q : nat) (s : mstate) : mstate :=
  with_threads (wake_rm q <$> threads s) s.

Definition QREF (q : nat) (s : mstate) : option mstate :=
  upd_que q (fun qq => q_with_refs (que_references qq + 1) qq) s.

Definition QRELE (q : nat) (s : mstate) : option mstate :=
  s ← upd_que q (fun qq => q_with_refs (que_references qq - 1) qq) s;
  qq ← ques s !! q;
  Some (if (que_references qq =? 0) && has (que_flags qq) MSGQ_DYING then wakeup_refs q s else s).

(** Leaving a call at [out:], with an error. *)
Definition out_rele (t q : nat) (r : ret) (s : mstate) : option mstate :=
  s ← QRELE q s; Some (set_thread t (User (Some r)) s).

Definition err (e : Z) : ret := mkRet e 0 None [].

(** ** Queues *)

Definition msginit (now : Z) (nthreads : nat) : mstate :=
  mkM ∅ ∅ 0 [] 0 0 1 0 now (replicate nthreads (User None)).

(** The [TAILQ_FOREACH] of the lookups: the first queue that satisfies [f],
    and [None] in the inner option when it is being removed. *)
Fixpoint que_find (f : que -> bool) (h : gmap nat que) (l : list nat) : option (option nat) :=
  match l with
  | [] => Some None
  | q :: l =>
      qq ← h !! q;
      if f qq then Some (if has (que_flags qq) MSGQ_DYING then None else Some q)
      else que_find f h l
  end.

Definition que_lookup (id : Z) (s : mstate) : option (option nat) :=
  que_find (fun qq => que_ix qq =? IPCID_TO_IX id) (ques s) (msg_queues s).

Definition que_key_lookup (k : Z) (s : mstate) : option (option nat) :=
  if k =? IPC_PRIVATE then Some None
  else que_find (fun qq => key (msg_perm (q_ds qq)) =? k) (ques s) (msg_queues s).

(** The search for the next index and the place on the list: the index, the
    queues before and the queues after. *)
Fixpoint que_place (h : gmap nat que) (l : list nat) (nextix : Z) : option (Z * list nat * list nat) :=
  match l with
  | [] => Some (nextix, [], [])
  | q2 :: l' =>
      qq ← h !! q2;
      if nextix <? que_ix qq then Some (nextix, [], l)
      else '(n, b, a) ← que_place h l' (que_ix qq + 1); Some (n, q2 :: b, a)
  end.

(** [que_create] from the return of [malloc] on; [None] in the inner option
    when a queue with the key exists. *)
Definition que_create (k : Z) (cred : ucred) (m : Z) (s : mstate) : option (option nat * mstate) :=
  dup ← que_key_lookup k s;
  match dup with
  | Some _ => Some (None, s)
  | None =>
      '(ix, before, after) ← que_place (ques s) (msg_queues s) 1;
      let sq := sint 32 (sequence s + 1) in
      let perm := mkPerm (cr_uid cred) (cr_gid cred) (cr_uid cred) (cr_gid cred)
                    (Z.land m 511) (Z.land sq 32767) k in
      let ds := mkMds perm 0 0 MSGMNB 0 0 0 0 (now_sec s) in
      let q := next_addr s in
      Some (Some q,
        with_num_ques (num_ques s + 1)
          (with_list (before ++ q :: after)
            (with_sequence sq
              (with_ques (<[q := mkQue ds ix 0 0 []]> (ques s)) (with_next s)))))
  end.

(** [que_wakewriters]: over the whole list. *)
Fixpoint wake_writers (l : list nat) (s : mstate) : option mstate :=
  match l with
  | [] => Some s
  | q :: l =>
      qq ← ques s !! q;
      if has (que_flags qq) MSGQ_WRITERS then
        s ← upd_que q (q_with_flags (clr_flag (que_flags qq) MSGQ_WRITERS)) s;
        wake_writers l (msg_wakeup q s)
      else wake_writers l s
  end.
Definition que_wakewriters (s : mstate) : option mstate := wake_writers (msg_queues s) s.

Definition msg_free (m : nat) (s : mstate) : option mstate :=
  _ ← msgs s !! m; Some (with_msgs (delete m (msgs s)) (num_msgs s - 1) s).

Fixpoint free_msgs (l : list nat) (s : mstate) : option mstate :=
  match l with
  | [] => Some s
  | m :: l => s ← msg_free m s; free_msgs l s
  end.

(** The [DIAGNOSTIC] check is the panic of a queue that is still referenced. *)
Definition que_free (q : nat) (s : mstate) : option mstate :=
  qq ← ques s !! q;
  if que_references qq >? 0 then None
  else
    s ← free_msgs (que_msgs qq) s;
    Some (with_num_ques (num_ques s - 1) (with_ques (delete q (ques s)) s)).

(** ** Messages *)

(** [msg_lookup] receives the type as an [int]. *)
Definition msg_match (msgtyp : Z) (m : msg) : bool :=
  (msgtyp =? 0) || (msgtyp =? msg_type m) || ((msgtyp <? 0) && (sint 32 (- msgtyp) <=? msg_type m)).

Fixpoint msg_find (f : msg -> bool) (h : gmap nat msg) (l : list nat) : option (option nat) :=
  match l with
  | [] => Some None
  | m :: l => mm ← h !! m; if f mm then Some (Some m) else msg_find f h l
  end.

Definition msg_lookup (qq : que) (msgtyp : Z) (s : mstate) : option (option nat) :=
  msg_find (msg_match (sint 32 msgtyp)) (msgs s) (que_msgs qq).

Definition ds_enqueue (len pid now : Z) (d : msqid_ds) : msqid_ds :=
  mkMds (msg_perm d) (msg_cbytes d +u len) (msg_qnum d +u 1) (msg_qbytes d) pid (msg_lrpid d)
    now (msg_rtime d) (msg_ctime d).
Definition ds_dequeue (len pid now : Z) (d : msqid_ds) : msqid_ds :=
  mkMds (msg_perm d) (msg_cbytes d -u len) (msg_qnum d -u 1) (msg_qbytes d) (msg_lspid d) pid
    (msg_stime d) now (msg_ctime d).

Definition msg_enqueue (q m : nat) (pid : Z) (s : mstate) : option mstate :=
  mm ← msgs s !! m;
  upd_que q (fun qq => q_with_msgs (que_msgs qq ++ [m])
    (q_with_ds (ds_enqueue (msg_len mm) pid (now_sec s) (q_ds qq)) qq)) s.

Definition msg_dequeue (q m : nat) (pid : Z) (s : mstate) : option mstate :=
  mm ← msgs s !! m;
  upd_que q (fun qq => q_with_msgs (filter (fun m' => m' <> m) (que_msgs qq))
    (q_with_ds (ds_dequeue (msg_len mm) pid (now_sec s) (q_ds qq)) qq)) s.

(** [msg_create] from the return of [pool_get] on: [None] when the queue is
    being removed. *)
Definition msg_create (q : nat) (s : mstate) : option (option nat * mstate) :=
  qq ← ques s !! q;
  if has (que_flags qq) MSGQ_DYING then Some (None, msg_wakeup q s)
  else
    let m := next_addr s in
    Some (Some m, with_msgs (<[m := mkMsg 0 0 []]> (msgs s)) (num_msgs s + 1) (with_next s)).

(** ** Copying *)

(** The sizes of the mbufs [msg_copyin] allocates: each is sized by the whole
    length [len], until the total reaches it. *)
Fixpoint mbuf_sizes (fuel : nat) (len total : Z) : option (list Z) :=
  if total <? len then
    match fuel with
    | O => None
    | S fuel =>
        let xfer := if len >=? MINCLSIZE then Z.min len MCLBYTES else Z.min len MLEN in
        sizes ← mbuf_sizes fuel len (total + xfer);
        Some (xfer :: sizes)
    end
  else Some [].

(** The [copyin] of each mbuf in turn. *)
Fixpoint copyin_chain (mem : list Z) (sizes : list Z) : option (list (list Z)) :=
  match sizes with
  | [] => Some []
  | n :: sizes =>
      if Z.of_nat (length mem) <? n then None
      else
        rest ← copyin_chain (drop (Z.to_nat n) mem) sizes;
        Some (take (Z.to_nat n) mem :: rest)
  end.

(** The error, or the message filled in. *)
Definition msg_copyin (a : snd_args) : Z + msg :=
  match sa_type a with
  | None => inl EFAULT
  | Some ty =>
      if ty <? 0 then inl EINVAL
      else
        match mbuf_sizes (Z.to_nat (sa_sz a)) (sa_sz a) 0 with
        | None => inl EFAULT
        | Some sizes =>
            match copyin_chain (sa_mem a) sizes with
            | None => inl EFAULT
            | Some chain => inr (mkMsg ty (foldr Z.add 0 sizes) chain)
            end
        end
  end.

(** The [copyout] of each mbuf in turn; [None] is [EFAULT]. *)
Fixpoint copyout_chain (chain : list (list Z)) (mem : list Z) : option (list Z) :=
  match chain with
  | [] => Some mem
  | d :: chain =>
      if (length mem <? length d)%nat then None
      else rest ← copyout_chain chain (drop (length d) mem); Some (d ++ rest)
  end.

(** [None] is the [DIAGNOSTIC] panic of a message longer than [MSGMAX].  The
    type goes out first, to the word of the buffer, then the bytes: the error,
    or the length returned and the user buffer. *)
Definition msg_copyout (mm : msg) (word : bool) (mem : list Z) (len : Z) : option (Z + (Z * list Z)) :=
  if msg_len mm >? MSGMAX then None
  else
    let xfer := Z.min len (msg_len mm) in
    if negb word then Some (inl EFAULT)
    else
      match copyout_chain (msg_data mm) mem with
      | None => Some (inl EFAULT)
      | Some mem => Some (inr (xfer, mem))
      end.

(** ** msgget *)

(** From [again:] to the allocation. *)
Definition msgget_try (t : nat) (cred : ucred) (k flg : Z) (s : mstate) : option mstate :=
  let done_ r s := Some (set_thread t (User (Some r)) s) in
  found ← que_key_lookup k s;
  match found with
  | Some q =>
      qq ← ques s !! q;
      if has flg IPC_CREAT && has flg IPC_EXCL then done_ (err EEXIST) s
      else
        let e := ipcperm cred (msg_perm (q_ds qq)) (Z.land flg 448) in
        if negb (e =? 0) then done_ (err e) s
        else done_ (mkRet 0 (IXSEQ_TO_IPCID (que_ix qq) (msg_perm (q_ds qq))) None []) s
  | None =>
      if negb (k =? IPC_PRIVATE) && negb (has flg IPC_CREAT) then done_ (err ENOENT) s
      else if num_ques s >=? MSGMNI then done_ (err ENOSPC) s
      else Some (set_thread t (GetAlloc cred k flg) s)
  end.

Definition sys_msgget := msgget_try.

(** From the return of [malloc] on. *)
Definition msgget_create (t : nat) (cred : ucred) (k flg : Z) (s : mstate) : option mstate :=
  '(r, s) ← que_create k cred (Z.land flg 511) s;
  match r with
  | None => msgget_try t cred k flg s
  | Some q =>
      qq ← ques s !! q;
      Some (set_thread t (User (Some (mkRet 0
        (IXSEQ_TO_IPCID (que_ix qq) (msg_perm (q_ds qq))) None []))) s)
  end.

(** ** msgsnd *)

Definition MSGQ_SPACE (qq : que) : Z := msg_qbytes (q_ds qq) -u msg_cbytes (q_ds qq).

(** The test of the [while], to the sleep or to the allocation. *)
Definition msgsnd_test (t q : nat) (a : snd_args) (s : mstate) : option mstate :=
  qq ← ques s !! q;
  if (MSGQ_SPACE qq <? sa_sz a) || (num_msgs s >=? MSGTQL) then
    if has (sa_flg a) IPC_NOWAIT then out_rele t q (err EAGAIN) s
    else
      let s := if num_msgs s >=? MSGTQL then with_maxmsgs 1 s else s in
      s ← upd_que q (q_with_flags (set_flag (que_flags qq) MSGQ_WRITERS)) s;
      Some (set_thread t (SndSleep q a) s)
  else Some (set_thread t (SndAlloc q a) s).

Definition sys_msgsnd (t : nat) (msqid : Z) (a : snd_args) (s : mstate) : option mstate :=
  found ← que_lookup msqid s;
  match found with
  | None => Some (set_thread t (User (Some (err EINVAL))) s)
  | Some q =>
      qq ← ques s !! q;
      if (sa_sz a >? msg_qbytes (q_ds qq)) || (sa_sz a >? MSGMAX)
      then Some (set_thread t (User (Some (err EINVAL))) s)
      else
        let e := ipcperm (sa_cred a) (msg_perm (q_ds qq)) IPC_W in
        if negb (e =? 0) then Some (set_thread t (User (Some (err e))) s)
        else s ← QREF q s; msgsnd_test t q a s
  end.

(** After [tsleep] returned [e]. *)
Definition msgsnd_wake (t q : nat) (a : snd_args) (e : Z) (s : mstate) : option mstate :=
  if negb (e =? 0) then out_rele t q (err e) s
  else
    qq ← ques s !! q;
    if has (que_flags qq) MSGQ_DYING then out_rele t q (err EIDRM) s
    else msgsnd_test t q a s.

Definition msgsnd_alloc (t q : nat) (a : snd_args) (s : mstate) : option mstate :=
  '(r, s) ← msg_create q s;
  match r with
  | None => out_rele t q (err EIDRM) s
  | Some m => Some (set_thread t (SndCopy q m a) s)
  end.

(** [msg_copyin] fills a message no other thread knows of, so the sleeps in
    it come before this stretch. *)
Definition msgsnd_copy (t q m : nat) (a : snd_args) (s : mstate) : option mstate :=
  _ ← msgs s !! m;
  match msg_copyin a with
  | inl e => s ← msg_free m s; out_rele t q (err e) s
  | inr mm =>
      s ← msg_enqueue q m (sa_pid a) (with_msgs (<[m := mm]> (msgs s)) (num_msgs s) s);
      qq ← ques s !! q;
      s ← (if has (que_flags qq) MSGQ_READERS then
             s ← upd_que q (q_with_flags (clr_flag (que_flags qq) MSGQ_READERS)) s;
             Some (msg_wakeup q s)
           else Some s);
      qq ← ques s !! q;
      if has (que_flags qq) MSGQ_DYING then out_rele t q (err EIDRM) (msg_wakeup q s)
      else out_rele t q (err 0) s
  end.

(** ** msgrcv

    [paged] says that [copyout] may sleep, because the page of the user buffer
    must be brought in. *)
Section Receive.
Context (paged : bool).

(** [copyout] done, with its result. *)
Definition msgrcv_finish (t q m : nat) (a : rcv_args) (s : mstate) : option mstate :=
  mm ← msgs s !! m;
  res ← msg_copyout mm (ra_word a) (ra_mem a) (ra_sz a);
  match res with
  | inl e => out_rele t q (err e) s
  | inr (len, mem) =>
      s ← msg_dequeue q m (ra_pid a) s;
      s ← msg_free m s;
      qq ← ques s !! q;
      s ← (if has (que_flags qq) MSGQ_WRITERS then
             s ← upd_que q (q_with_flags (clr_flag (que_flags qq) MSGQ_WRITERS)) s;
             Some (msg_wakeup q s)
           else Some s);
      s ← (if negb (maxmsgs s =? 0) then que_wakewriters (with_maxmsgs 0 s) else Some s);
      out_rele t q (mkRet 0 len (Some (msg_type mm)) mem) s
  end.

Definition msgrcv_test (t q : nat) (a : rcv_args) (s : mstate) : option mstate :=
  qq ← ques s !! q;
  found ← msg_lookup qq (ra_typ a) s;
  match found with
  | None =>
      if has (ra_flg a) IPC_NOWAIT then out_rele t q (err ENOMSG) s
      else
        s ← upd_que q (q_with_flags (set_flag (que_flags qq) MSGQ_READERS)) s;
        Some (set_thread t (RcvSleep q a) s)
  | Some m =>
      if paged then Some (set_thread t (RcvCopy q m a) s) else msgrcv_finish t q m a s
  end.

Definition sys_msgrcv (t : nat) (msqid : Z) (a : rcv_args) (s : mstate) : option mstate :=
  found ← que_lookup msqid s;
  match found with
  | None => Some (set_thread t (User (Some (err EINVAL))) s)
  | Some q =>
      qq ← ques s !! q;
      let e := ipcperm (ra_cred a) (msg_perm (q_ds qq)) IPC_R in
      if negb (e =? 0) then Some (set_thread t (User (Some (err e))) s)
      else s ← QREF q s; msgrcv_test t q a s
  end.

Definition msgrcv_wake (t q : nat) (a : rcv_args) (e : Z) (s : mstate) : option mstate :=
  if negb (e =? 0) then out_rele t q (err e) s
  else
    qq ← ques s !! q;
    if has (que_flags qq) MSGQ_DYING then out_rele t q (err EIDRM) s
    else msgrcv_test t q a s.

(** ** msgctl *)

Definition rmid_free (t q : nat) (s : mstate) : option mstate :=
  s ← que_free q s; Some (set_thread t (User (Some (err 0))) s).

(** The switch of [msgctl1], to the sleeps; [tmp] is what [copyin] will read
    and [copyout_err] what [copyout] will return. *)
Definition msgctl1 (t : nat) (cred : ucred) (msqid cmd : Z) (tmp : Z + msqid_ds) (copyout_err : Z)
    (s : mstate) : option mstate :=
  found ← que_lookup msqid s;
  match found with
  | None => Some (set_thread t (User (Some (err EINVAL))) s)
  | Some q =>
      s ← QREF q s;
      qq ← ques s !! q;
      if cmd =? IPC_RMID then
        let e := ipcperm cred (msg_perm (q_ds qq)) IPC_M in
        if negb (e =? 0) then out_rele t q (err e) s
        else
          let s := with_list (filter (fun q' => q' <> q) (msg_queues s)) s in
          s ← upd_que q (fun qq => q_with_refs (que_references qq - 1)
                (q_with_flags (set_flag (que_flags qq) MSGQ_DYING) qq)) s;
          if que_references qq - 1 >? 0 then
            Some (set_thread t (RmSleep q) (msg_wakeup q s))
          else rmid_free t q s
      else if cmd =? IPC_SET then
        let e := ipcperm cred (msg_perm (q_ds qq)) IPC_M in
        if negb (e =? 0) then out_rele t q (err e) s
        else Some (set_thread t (SetCopy q cred tmp) s)
      else if cmd =? IPC_STAT then
        let e := ipcperm cred (msg_perm (q_ds qq)) IPC_R in
        if negb (e =? 0) then out_rele t q (err e) s
        else Some (set_thread t (StatCopy q copyout_err) s)
      else out_rele t q (err EINVAL) s
  end.

(** [IPC_SET] after [copyin]. *)
Definition msgctl_set (t q : nat) (cred : ucred) (tmp : Z + msqid_ds) (s : mstate) : option mstate :=
  match tmp with
  | inl e => out_rele t q (err e) s
  | inr tmp =>
      qq ← ques s !! q;
      let d := q_ds qq in
      if (msg_qbytes tmp >? msg_qbytes d) && negb (cr_uid cred =? 0) then out_rele t q (err EPERM) s
      else
        let qb := if msg_qbytes tmp >? MSGMNB then MSGMNB else msg_qbytes tmp in
        if qb =? 0 then out_rele t q (err EINVAL) s
        else
          let p := msg_perm d in
          let p' := mkPerm (cuid p) (cgid p) (uid (msg_perm tmp)) (gid (msg_perm tmp))
                      (Z.lor (Z.land (mode p) (Z.lnot 511)) (Z.land (mode (msg_perm tmp)) 511))
                      (seq p) (key p) in
          s ← upd_que q (q_with_ds (mkMds p' (msg_cbytes d) (msg_qnum d) qb (msg_lspid d)
                (msg_lrpid d) (msg_stime d) (msg_rtime d) (now_sec s))) s;
          out_rele t q (err 0) s
  end.

(** ** One step of one thread

    [e] is what [tsleep] returns: 0 after a wakeup, an error when a signal
    ends the sleep. *)
Definition resume (t : nat) (e : Z) (s : mstate) : option mstate :=
  match threads s !! t with
  | Some (GetAlloc cred k flg) => msgget_create t cred k flg s
  | Some (SndSleep q a) => msgsnd_wake t q a e s
  | Some (SndWake q a) => msgsnd_wake t q a 0 s
  | Some (SndAlloc q a) => msgsnd_alloc t q a s
  | Some (SndCopy q m a) => msgsnd_copy t q m a s
  | Some (RcvSleep q a) => msgrcv_wake t q a e s
  | Some (RcvWake q a) => msgrcv_wake t q a 0 s
  | Some (RcvCopy q m a) => msgrcv_finish t q m a s
  | Some (RmWake q) => rmid_free t q s
  | Some (SetCopy q cred tmp) => msgctl_set t q cred tmp s
  | Some (StatCopy q e') => out_rele t q (err e') s
  | _ => Some s
  end.

(** The calls a thread makes. *)
Inductive msgcall :=
| CallGet (cred : ucred) (k flg : Z)
| CallSnd (msqid : Z) (a : snd_args)
| CallRcv (msqid : Z) (a : rcv_args)
| CallCtl (cred : ucred) (msqid cmd : Z) (tmp : Z + msqid_ds) (copyout_err : Z).

Definition call (t : nat) (c : msgcall) (s : mstate) : option mstate :=
  match c with
  | CallGet cred k flg => sys_msgget t cred k flg s
  | CallSnd id a => sys_msgsnd t id a s
  | CallRcv id a => sys_msgrcv t id a s
  | CallCtl cred id cmd tmp ce => msgctl1 t cred id cmd tmp ce s
  end.

End Receive.

(** ** sysctl

    The table [ipcs] reads: [MSGMNI] entries, the one of each queue at its
    index; [None] in the inner option is a write past the end of the table. *)
Fixpoint msgids_fill (h : gmap nat que) (l : list nat) (table : list (option msqid_ds)) :
    option (option (list (option msqid_ds))) :=
  match l with
  | [] => Some (Some table)
  | q :: l =>
      qq ← h !! q;
      if (Z.to_nat (que_ix qq) <? length table)%nat
      then msgids_fill h l (<[Z.to_nat (que_ix qq) := Some (q_ds qq)]> table)
      else Some None
  end.

Definition sysctl_msgids (s : mstate) : option (option (list (option msqid_ds))) :=
  msgids_fill (ques s) (msg_queues s) (replicate (Z.to_nat MSGMNI) None).
