(* ===== verification/MsgFacts.v ===== *)
(** * System V messages: the invariant

    References count the threads inside a queue, a queue is freed by the
    thread that removed it once nobody is inside, every message is on one
    queue or in the hands of one sender, and the counters are exact. *)

From stdpp Require Import base numbers list option gmap.
From Stdlib Require Import ZArith Lia Bool Sorted.
From S2P Require Import Prelude Sem Msg.

(** ** Sums over the threads *)

Definition tsum (f : thread -> Z) (l : list thread) : Z := foldr (fun th a => f th + a) 0 l.

Lemma tsum_insert f l t th th' :
  l !! t = Some th -> tsum f (<[t := th']> l) = tsum f l - f th + f th'.
Proof.
  revert t. induction l as [|x l IH]; intros [|t] H; simpl in *; try done.
  - injection H as ->. lia.
  - rewrite IH by done. lia.
Qed.

Lemma tsum_fmap f g l : (forall th, f (g th) = f th) -> tsum f (g <$> l) = tsum f l.
Proof. intros H. induction l as [|x l IH]; simpl; [done|]. rewrite H. f_equal. exact IH. Qed.

Lemma tsum_nonneg f l : (forall th, 0 <= f th) -> 0 <= tsum f l.
Proof. intros H. induction l as [|x l IH]; [done|]. change (0 <= f x + tsum f l). pose proof (H x). lia. Qed.

Lemma tsum_pos f l t th :
  (forall th, 0 <= f th) -> l !! t = Some th -> f th <= tsum f l.
Proof.
  intros H. revert t. induction l as [|x l IH]; intros [|t] Ht; simpl in *; try done.
  - injection Ht as ->. change (f th <= f th + tsum f l). pose proof (tsum_nonneg f l H). lia.
  - change (f th <= f x + tsum f l). pose proof (H x). pose proof (IH t Ht). lia.
Qed.

Lemma tsum_exists f l :
  (forall th, 0 <= f th) -> 0 < tsum f l -> exists t th, l !! t = Some th /\ 0 < f th.
Proof.
  intros H. induction l as [|x l IH]; [simpl; lia|]. change (tsum f (x :: l)) with (f x + tsum f l). intros Hs.
  destruct (Z.lt_ge_cases 0 (f x)); [by exists 0%nat, x|].
  destruct IH as (t & th & Ht & Hp); [lia|]. by exists (S t), th.
Qed.

(** ** Where a thread is *)

(** The queue a thread is inside of, with a reference. *)
Definition inside (th : thread) : option nat :=
  match th with
  | SndSleep q _ | SndWake q _ | SndAlloc q _ | SndCopy q _ _ | RcvSleep q _ | RcvWake q _
  | RcvCopy q _ _ | SetCopy q _ _ | StatCopy q _ => Some q
  | _ => None
  end.

(** The queue a thread is removing. *)
Definition removing (th : thread) : option nat :=
  match th with RmSleep q | RmWake q => Some q | _ => None end.

(** The message a sender holds. *)
Definition carried (th : thread) : list nat :=
  match th with SndCopy _ m _ => [m] | _ => [] end.

Definition ind (o : option nat) (q : nat) : Z := if decide (o = Some q) then 1 else 0.
Definition holders (q : nat) (l : list thread) : Z := tsum (fun th => ind (inside th) q) l.
Definition removers (q : nat) (l : list thread) : Z := tsum (fun th => ind (removing th) q) l.

Lemma ind_nonneg o q : 0 <= ind o q.
Proof. unfold ind. case_decide; lia. Qed.

Lemma ind_some q q' : ind (Some q') q = if decide (q' = q) then 1 else 0.
Proof. unfold ind. repeat case_decide; congruence. Qed.

Lemma ind_none q : ind None q = 0.
Proof. done. Qed.

(** What waking up leaves as it is. *)
Lemma wake_que_keeps q th :
  inside (wake_que q th) = inside th /\ removing (wake_que q th) = removing th /\
  carried (wake_que q th) = carried th.
Proof. destruct th; simpl; repeat case_decide; done. Qed.

Lemma wake_rm_keeps q th :
  inside (wake_rm q th) = inside th /\ removing (wake_rm q th) = removing th /\
  carried (wake_rm q th) = carried th.
Proof. destruct th; simpl; repeat case_decide; done. Qed.

Lemma wake_rm_other q th : removing th <> Some q -> wake_rm q th = th.
Proof. destruct th; simpl; intros H; try done. rewrite decide_False by congruence. done. Qed.

(** ** Messages *)

(** The messages on queues and in the hands of senders. *)
Definition queued (h : gmap nat que) : list nat := map_to_list h ≫= (fun p => que_msgs p.2).
Definition carrieds (l : list thread) : list nat := l ≫= carried.

Lemma queued_lookup h q qq :
  h !! q = Some qq -> queued h ≡ₚ que_msgs qq ++ queued (delete q h).
Proof.
  intros H. unfold queued. by rewrite <- (map_to_list_delete h q qq H).
Qed.

Lemma queued_insert h q qq : queued (<[q := qq]> h) ≡ₚ que_msgs qq ++ queued (delete q h).
Proof.
  rewrite (queued_lookup (<[q := qq]> h) q qq) by apply lookup_insert_eq.
  by rewrite delete_insert_eq.
Qed.

Lemma carrieds_insert l t th th' :
  l !! t = Some th ->
  exists rest, carrieds l ≡ₚ carried th ++ rest /\ carrieds (<[t := th']> l) ≡ₚ carried th' ++ rest.
Proof.
  intros H. exists (carrieds (take t l) ++ carrieds (drop (S t) l)).
  rewrite insert_take_drop by (by eapply lookup_lt_Some).
  rewrite <- (take_drop_middle l t th H) at 1. unfold carrieds. rewrite !bind_app. simpl.
  split; solve_Permutation.
Qed.

Lemma carrieds_fmap g l : (forall th, carried (g th) = carried th) -> carrieds (g <$> l) = carrieds l.
Proof. intros H. induction l as [|x l IH]; [done|]. simpl. rewrite H. f_equal. exact IH. Qed.

(** The bytes of the messages of a queue. *)
Definition bytes (h : gmap nat msg) (l : list nat) : Z :=
  foldr (fun m a => default 0 (msg_len <$> h !! m) + a) 0 l.

Lemma bytes_app h l l' : bytes h (l ++ l') = bytes h l + bytes h l'.
Proof. induction l as [|m l IH]; simpl; [done|]. rewrite IH. lia. Qed.

Lemma bytes_ext h h' l : (forall m, m ∈ l -> h' !! m = h !! m) -> bytes h' l = bytes h l.
Proof.
  induction l as [|m l IH]; intros H; simpl; [done|].
  rewrite (H m), IH; [done| |]; set_solver.
Qed.

Lemma bytes_without h l m :
  NoDup l -> m ∈ l ->
  bytes h (filter (fun m' => m' <> m) l) = bytes h l - default 0 (msg_len <$> h !! m) /\
  Z.of_nat (length (filter (fun m' => m' <> m) l)) = Z.of_nat (length l) - 1 /\
  l ≡ₚ m :: filter (fun m' => m' <> m) l.
Proof.
  induction l as [|x l IH]; intros Hnd Hin; [by apply elem_of_nil in Hin|].
  apply list.NoDup_cons in Hnd as [Hx Hnd]. rewrite filter_cons. case_decide as Hne.
  - apply elem_of_cons in Hin as [->|Hin]; [done|].
    destruct (IH Hnd Hin) as (H1 & H2 & H3). simpl. rewrite H1.
    split_and!; [lia|lia|]. rewrite H3 at 1. constructor.
  - assert (x = m) as -> by (destruct (decide (x = m)); [done|by destruct Hne]).
    assert (Hf : filter (fun m' => m' <> m) l = l).
    { by apply filter_absent. }
    rewrite Hf. simpl. split_and!; [lia|lia|done].
Qed.

(** ** The invariant *)

Definition dying (qq : que) : bool := has (que_flags qq) MSGQ_DYING.

(** A queue: its references are the threads inside; it is on the list until it
    is removed, and then has exactly one thread that will free it; its byte
    and message counts are those of its messages. *)
Record que_ok (s : mstate) (q : nat) (qq : que) : Prop := {
  qo_refs : que_references qq = holders q (threads s);
  qo_list : q ∈ msg_queues s <-> dying qq = false;
  qo_rm : removers q (threads s) = if dying qq then 1 else 0;
  qo_bytes : msg_cbytes (q_ds qq) = ul (bytes (msgs s) (que_msgs qq));
  qo_qnum : msg_qnum (q_ds qq) = ul (Z.of_nat (length (que_msgs qq)));
}.

(** A thread: the queue it works on is there; a sleeper has left its mark on a
    queue that is not being removed; the thread that removes a queue sleeps
    while others are inside and not longer. *)
Definition thread_ok (h : gmap nat que) (th : thread) : Prop :=
  match th with
  | User _ | GetAlloc _ _ _ => True
  | SndSleep q _ => exists qq, h !! q = Some qq /\ dying qq = false /\
      has (que_flags qq) MSGQ_WRITERS = true
  | RcvSleep q _ => exists qq, h !! q = Some qq /\ dying qq = false /\
      has (que_flags qq) MSGQ_READERS = true
  | SndWake q _ | SndAlloc q _ | SndCopy q _ _ | RcvWake q _ | SetCopy q _ _ | StatCopy q _ =>
      is_Some (h !! q)
  | RmSleep q => exists qq, h !! q = Some qq /\ 0 < que_references qq
  | RmWake q => exists qq, h !! q = Some qq /\ que_references qq = 0
  | RcvCopy _ _ _ => False
  end.

Definition ix_lt (h : gmap nat que) (q q' : nat) : Prop :=
  exists qq qq', h !! q = Some qq /\ h !! q' = Some qq' /\ que_ix qq < que_ix qq'.

Record msg_ok (s : mstate) : Prop := {
  mo_que : forall q qq, ques s !! q = Some qq -> que_ok s q qq;
  mo_thread : forall t th, threads s !! t = Some th -> thread_ok (ques s) th;
  mo_list : NoDup (msg_queues s) /\ forall q, q ∈ msg_queues s -> is_Some (ques s !! q);
  mo_sorted : StronglySorted (ix_lt (ques s)) (msg_queues s);
  mo_ix : forall q qq, ques s !! q = Some qq -> 1 <= que_ix qq;
  mo_msgs : queued (ques s) ++ carrieds (threads s) ≡ₚ elements (dom (msgs s));
  mo_num_ques : num_ques s = Z.of_nat (size (ques s));
  mo_num_msgs : num_msgs s = Z.of_nat (size (msgs s));
  mo_fresh : forall a, is_Some (ques s !! a) \/ is_Some (msgs s !! a) -> (a < next_addr s)%nat;
}.

(** ** Flags *)

Lemma has_testbit f k : 0 <= k -> has f (2 ^ k) = Z.testbit f k.
Proof.
  intros Hk. unfold has. destruct (Z.testbit f k) eqn:E.
  - apply negb_true_iff, Z.eqb_neq. intros H.
    assert (Hb : Z.testbit (Z.land f (2 ^ k)) k = false) by (rewrite H; apply Z.bits_0).
    rewrite Z.land_spec, E, Z.pow2_bits_true in Hb by lia. done.
  - apply negb_false_iff, Z.eqb_eq. apply Z.bits_inj'. intros n Hn.
    rewrite Z.land_spec, Z.bits_0, Z.pow2_bits_eqb by lia.
    destruct (Z.eqb_spec k n) as [<-|]; [by rewrite E|apply andb_false_r].
Qed.

Lemma flag_set f j k : 0 <= j -> 0 <= k -> has (set_flag f (2 ^ j)) (2 ^ k) = (j =? k) || has f (2 ^ k).
Proof.
  intros. rewrite !has_testbit by lia. unfold set_flag. rewrite Z.lor_spec, Z.pow2_bits_eqb by lia.
  apply orb_comm.
Qed.

Lemma flag_clr f j k : 0 <= j -> 0 <= k -> has (clr_flag f (2 ^ j)) (2 ^ k) = negb (j =? k) && has f (2 ^ k).
Proof.
  intros. rewrite !has_testbit by lia. unfold clr_flag.
  rewrite Z.land_spec, Z.lnot_spec, Z.pow2_bits_eqb by lia. apply andb_comm.
Qed.

Lemma flags_spec f :
  has (set_flag f MSGQ_WRITERS) MSGQ_WRITERS = true /\
  has (set_flag f MSGQ_READERS) MSGQ_READERS = true /\
  has (set_flag f MSGQ_DYING) MSGQ_DYING = true /\
  has (set_flag f MSGQ_WRITERS) MSGQ_READERS = has f MSGQ_READERS /\
  has (set_flag f MSGQ_READERS) MSGQ_WRITERS = has f MSGQ_WRITERS /\
  has (set_flag f MSGQ_WRITERS) MSGQ_DYING = has f MSGQ_DYING /\
  has (set_flag f MSGQ_READERS) MSGQ_DYING = has f MSGQ_DYING /\
  has (clr_flag f MSGQ_WRITERS) MSGQ_DYING = has f MSGQ_DYING /\
  has (clr_flag f MSGQ_READERS) MSGQ_DYING = has f MSGQ_DYING.
Proof.
  change MSGQ_READERS with (2 ^ 0). change MSGQ_WRITERS with (2 ^ 1). change MSGQ_DYING with (2 ^ 2).
  rewrite !flag_set, !flag_clr by lia. done.
Qed.

(** ** A step on one queue *)

Lemma holders_set q l t th th' :
  l !! t = Some th -> holders q (<[t := th']> l) = holders q l - ind (inside th) q + ind (inside th') q.
Proof. apply (tsum_insert (fun th => ind (inside th) q)). Qed.

Lemma removers_set q l t th th' :
  l !! t = Some th ->
  removers q (<[t := th']> l) = removers q l - ind (removing th) q + ind (removing th') q.
Proof. apply (tsum_insert (fun th => ind (removing th) q)). Qed.

Lemma threads_set s t th : (t < length (threads s))%nat -> threads (set_thread t th s) !! t = Some th.
Proof. intros H. simpl. by apply list_lookup_insert_eq. Qed.

Lemma set_set t th th' s : set_thread t th' (set_thread t th s) = set_thread t th' s.
Proof. unfold set_thread, with_threads. simpl. by rewrite list_insert_insert_eq. Qed.

(** A thread inside a queue shows in its references, a removing one in its
    state. *)
Lemma inside_refs s t th q qq :
  msg_ok s -> threads s !! t = Some th -> inside th = Some q -> ques s !! q = Some qq ->
  0 < que_references qq.
Proof.
  intros Hok Ht Hi Hq. rewrite (qo_refs _ _ _ (mo_que _ Hok q qq Hq)).
  pose proof (tsum_pos (fun th => ind (inside th) q) _ t th (fun th => ind_nonneg _ _) Ht) as H.
  unfold holders. simpl in H. rewrite Hi, ind_some, decide_True in H by done. lia.
Qed.

Lemma removing_dying s t th q qq :
  msg_ok s -> threads s !! t = Some th -> removing th = Some q -> ques s !! q = Some qq ->
  dying qq = true.
Proof.
  intros Hok Ht Hi Hq. pose proof (qo_rm _ _ _ (mo_que _ Hok q qq Hq)) as Hr.
  pose proof (tsum_pos (fun th => ind (removing th) q) _ t th (fun th => ind_nonneg _ _) Ht) as H.
  unfold removers in Hr. simpl in H. rewrite Hi, ind_some, decide_True in H by done.
  destruct (dying qq); [done|lia].
Qed.

Lemma inside_alive h th q : thread_ok h th -> inside th = Some q -> is_Some (h !! q).
Proof.
  destruct th; simpl; intros H [= ->]; try done; try (destruct H as (? & -> & _); done).
Qed.

Lemma ix_lt_insert h q qq qq' a b :
  h !! q = Some qq -> que_ix qq' = que_ix qq -> ix_lt h a b -> ix_lt (<[q := qq']> h) a b.
Proof.
  intros Hq Hix (x & y & Ha & Hb & Hlt).
  assert (Hgen : forall c z, h !! c = Some z -> exists z', <[q := qq']> h !! c = Some z' /\ que_ix z' = que_ix z).
  { intros c z Hc. destruct (decide (c = q)) as [->|Hne].
    - exists qq'. rewrite lookup_insert_eq. split; [done|]. congruence.
    - exists z. by rewrite lookup_insert_ne. }
  destruct (Hgen a x Ha) as (x' & ? & ?), (Hgen b y Hb) as (y' & ? & ?).
  exists x', y'. split_and!; try done. lia.
Qed.

Lemma sorted_impl (R R' : nat -> nat -> Prop) (l : list nat) :
  (forall a b, R a b -> R' a b) -> StronglySorted R l -> StronglySorted R' l.
Proof.
  intros H. induction 1 as [|x l Hs IH Hf]; constructor; [done|].
  eapply Forall_impl; [exact Hf|]. intros a. apply H.
Qed.

(** The state of the queue [q] and of the thread [t] changes, and other
    threads may be woken ([g]), while the messages stay where they are. *)
Lemma que_update s t th th' q qq qq' g :
  (t < length (threads s))%nat -> msg_ok (set_thread t th s) -> ques s !! q = Some qq ->
  que_ix qq' = que_ix qq -> dying qq' = dying qq -> que_msgs qq' = que_msgs qq ->
  msg_cbytes (q_ds qq') = msg_cbytes (q_ds qq) -> msg_qnum (q_ds qq') = msg_qnum (q_ds qq) ->
  que_references qq' = que_references qq - ind (inside th) q + ind (inside th') q ->
  (forall q', q' <> q -> ind (inside th') q' = ind (inside th) q') ->
  removing th' = removing th -> carried th' = carried th ->
  (forall x, inside (g x) = inside x /\ removing (g x) = removing x /\ carried (g x) = carried x) ->
  thread_ok (<[q := qq']> (ques s)) th' ->
  (forall t' x, t' <> t -> threads s !! t' = Some x -> thread_ok (ques s) x ->
     thread_ok (<[q := qq']> (ques s)) (g x)) ->
  msg_ok (set_thread t th' (with_threads (g <$> threads s) (with_ques (<[q := qq']> (ques s)) s))).
Proof.
  intros Hlt Hok Hq Hix Hdy Hms Hcb Hqn Hrf Hin Hrm Hca Hg Hth' Hoth.
  pose proof (lookup_lt_is_Some_2 _ _ Hlt) as [th0 Hth0].
  assert (Hgl : (g <$> threads s) !! t = Some (g th0)) by (by rewrite list_lookup_fmap, Hth0).
  assert (Hh : forall r, holders r (<[t := th']> (g <$> threads s)) =
    holders r (<[t := th]> (threads s)) - ind (inside th) r + ind (inside th') r).
  { intros r. rewrite (holders_set _ _ _ _ _ Hgl), (holders_set _ _ _ _ _ Hth0).
    unfold holders. rewrite (tsum_fmap (fun th => ind (inside th) r))
      by (intros x; by rewrite (proj1 (Hg x))). rewrite (proj1 (Hg th0)). lia. }
  assert (Hr : forall r, removers r (<[t := th']> (g <$> threads s)) = removers r (<[t := th]> (threads s))).
  { intros r. rewrite (removers_set _ _ _ _ _ Hgl), (removers_set _ _ _ _ _ Hth0), Hrm.
    unfold removers. rewrite (tsum_fmap (fun th => ind (removing th) r))
      by (intros x; by rewrite (proj1 (proj2 (Hg x)))). rewrite (proj1 (proj2 (Hg th0))). lia. }
  assert (Hc : carrieds (<[t := th']> (g <$> threads s)) ≡ₚ carrieds (<[t := th]> (threads s))).
  { destruct (carrieds_insert _ t _ th' Hgl) as (r1 & H1 & ->).
    destruct (carrieds_insert _ t _ th Hth0) as (r2 & H2 & ->). rewrite Hca. f_equiv.
    rewrite (carrieds_fmap g) in H1 by (intros x; apply (Hg x)). rewrite H2 in H1.
    rewrite (proj2 (proj2 (Hg th0))) in H1. by apply Permutation_app_inv_l in H1. }
  destruct Hok as [H1 H2 [H3 H3'] H4 H5 H6 H7 H8 H9]. simpl in *. constructor; simpl.
  - intros r qr Hrq. destruct (decide (r = q)) as [->|Hne].
    + rewrite lookup_insert_eq in Hrq. injection Hrq as <-.
      destruct (H1 q qq Hq) as [A1 A2 A3 A4 A5]; simpl in *.
      constructor; simpl; rewrite ?Hh, ?Hr, ?Hms, ?Hdy; try done; congruence || lia.
    + rewrite lookup_insert_ne in Hrq by done. destruct (H1 r qr Hrq) as [A1 A2 A3 A4 A5]; simpl in *.
      constructor; simpl; rewrite ?Hh, ?Hr; try done. rewrite Hin by done. lia.
  - intros t' x Hx. destruct (decide (t' = t)) as [->|Hne].
    + rewrite list_lookup_insert_eq in Hx by (by rewrite length_fmap). by injection Hx as <-.
    + rewrite list_lookup_insert_ne in Hx by done. rewrite list_lookup_fmap in Hx.
      destruct (threads s !! t') as [y|] eqn:Ey; [|done]. injection Hx as <-.
      apply (Hoth t' y Hne Ey). apply (H2 t'). by rewrite list_lookup_insert_ne.
  - split; [done|]. intros r Hrl. destruct (decide (r = q)) as [->|Hne];
      [by rewrite lookup_insert_eq|]. rewrite lookup_insert_ne by done. by apply H3'.
  - eapply sorted_impl; [|exact H4]. intros a b. by apply (ix_lt_insert _ _ qq).
  - intros r qr Hrq. destruct (decide (r = q)) as [->|Hne].
    + rewrite lookup_insert_eq in Hrq. injection Hrq as <-. rewrite Hix. by apply (H5 q).
    + rewrite lookup_insert_ne in Hrq by done. by apply (H5 r).
  - rewrite Hc, queued_insert, Hms. by rewrite <- (queued_lookup _ _ _ Hq).
  - by rewrite map_size_insert_Some by (by rewrite Hq).
  - done.
  - intros a [Ha|Ha]; apply H9; [left|by right].
    destruct (decide (a = q)) as [->|Hne]; [done|]. by rewrite lookup_insert_ne in Ha.
Qed.

(** ** The pieces of the calls *)

Lemma thread_keep h q qq qq' x :
  h !! q = Some qq -> thread_ok h x ->
  (dying qq' = dying qq /\
   (has (que_flags qq) MSGQ_WRITERS = true -> has (que_flags qq') MSGQ_WRITERS = true) /\
   (has (que_flags qq) MSGQ_READERS = true -> has (que_flags qq') MSGQ_READERS = true)) ->
  (removing x = Some q -> que_references qq' = que_references qq) ->
  thread_ok (<[q := qq']> h) x.
Proof.
  intros Hq Hx (Hd & Hw & Hr) Hrm.
  assert (Hs : forall r, is_Some (h !! r) -> is_Some (<[q := qq']> h !! r)).
  { intros r Hr'. destruct (decide (r = q)) as [->|]; [by rewrite lookup_insert_eq|].
    by rewrite lookup_insert_ne. }
  destruct x as [| |r|r|r|r|r|r|r|r|r|r|r]; simpl in *; auto.
  all: destruct (decide (r = q)) as [->|Hne];
    [rewrite lookup_insert_eq, Hq in *|by rewrite lookup_insert_ne];
    destruct Hx as (qx & [= <-] & Hx); exists qq'; split; [done|]; try rewrite Hrm by done; intuition congruence.
Qed.

(** Only a thread that removes [q] cares for its references. *)
Lemma not_removing s t q qq t' x :
  msg_ok s -> ques s !! q = Some qq -> dying qq = false -> t' <> t -> threads s !! t' = Some x ->
  removing x <> Some q.
Proof. intros Hok Hq Hd _ Hx Hr. pose proof (removing_dying s t' x q qq Hok Hx Hr Hq). congruence. Qed.

Lemma insert_self s q qq : ques s !! q = Some qq -> with_ques (<[q := qq]> (ques s)) s = s.
Proof. intros H. unfold with_ques. rewrite insert_id by done. by destruct s. Qed.

Lemma threads_self s : with_threads (id <$> threads s) s = s.
Proof. unfold with_threads. rewrite list_fmap_id. by destruct s. Qed.

Section Pieces.
Context (t : nat).
Implicit Types s : mstate.

(** The thread [t] of [s], wherever the list says it is, stands at [th]. *)
Definition at_ (th : thread) s : Prop := (t < length (threads s))%nat /\ msg_ok (set_thread t th s).

Lemma at_intro th s : msg_ok s -> threads s !! t = Some th -> at_ th s.
Proof.
  intros Hok Ht. split; [by eapply lookup_lt_Some|]. unfold set_thread, with_threads.
  rewrite list_insert_id by done. by destruct s.
Qed.

Lemma at_thread th s : at_ th s -> thread_ok (ques s) th.
Proof. intros [Hlt Hok]. apply (mo_thread _ Hok t). by apply threads_set. Qed.

(** Changes of place that touch nothing else. *)
Lemma at_move th th' s :
  at_ th s -> inside th' = inside th -> removing th' = removing th -> carried th' = carried th ->
  thread_ok (ques s) th' -> at_ th' s.
Proof.
  intros [Hlt Hok] Hi Hr Hc Hth. split; [done|].
  pose proof (lookup_lt_is_Some_2 _ _ Hlt) as [th0 Hth0].
  assert (Hh : forall q, holders q (<[t := th']> (threads s)) = holders q (<[t := th]> (threads s)))
    by (intros q; rewrite !(holders_set _ _ _ _ _ Hth0), Hi; done).
  assert (Hm : forall q, removers q (<[t := th']> (threads s)) = removers q (<[t := th]> (threads s)))
    by (intros q; rewrite !(removers_set _ _ _ _ _ Hth0), Hr; done).
  destruct Hok as [H1 H2 H3 H4 H5 H6 H7 H8 H9]. simpl in *. constructor; simpl; try done.
  - intros q qq Hq. destruct (H1 q qq Hq). constructor; simpl in *; rewrite ?Hh, ?Hm; done.
  - intros t' x Hx. destruct (decide (t' = t)) as [->|Hne].
    + rewrite list_lookup_insert_eq in Hx by done. by injection Hx as <-.
    + rewrite list_lookup_insert_ne in Hx by done. apply (H2 t'). by rewrite list_lookup_insert_ne.
  - rewrite <- H6. destruct (carrieds_insert _ t _ th' Hth0) as (r1 & H10 & ->).
    destruct (carrieds_insert _ t _ th Hth0) as (r2 & H11 & ->). rewrite Hc.
    rewrite H11 in H10. apply Permutation_app_inv_l in H10. by rewrite H10.
Qed.

Lemma at_ext th s s' :
  at_ th s -> ques s' = ques s -> msgs s' = msgs s -> next_addr s' = next_addr s ->
  msg_queues s' = msg_queues s -> num_ques s' = num_ques s -> num_msgs s' = num_msgs s ->
  threads s' = threads s -> at_ th s'.
Proof.
  intros [Hlt [H1 H2 H3 H4 H5 H6 H7 H8 H9]] E1 E2 E3 E4 E5 E6 E7. split; [by rewrite E7|].
  constructor; simpl in *; rewrite ?E1, ?E2, ?E3, ?E4, ?E5, ?E6, ?E7; try done.
  intros q qq Hq. destruct (H1 q qq Hq). constructor; simpl in *; rewrite ?E2, ?E4, ?E7; done.
Qed.

Lemma at_QREF th th' s q qq :
  at_ th s -> inside th = None -> removing th = None -> carried th = [] ->
  ques s !! q = Some qq -> dying qq = false ->
  inside th' = Some q -> removing th' = None -> carried th' = [] ->
  (forall qq', thread_ok (<[q := qq']> (ques s)) th') ->
  exists s', QREF q s = Some s' /\ at_ th' s' /\
    ques s' !! q = Some (q_with_refs (que_references qq + 1) qq) /\ threads s' = threads s /\
    msg_queues s' = msg_queues s /\ msgs s' = msgs s /\ num_msgs s' = num_msgs s.
Proof.
  intros [Hlt Hok] Hi Hr Hc Hq Hd Hi' Hr' Hc' Hth. unfold QREF, upd_que. rewrite Hq. simpl.
  eexists. split; [reflexivity|]. split; [|simpl; by rewrite lookup_insert_eq].
  set (qq' := q_with_refs (que_references qq + 1) qq). split; [done|].
  rewrite <- (threads_self (with_ques _ s)). simpl threads.
  apply (que_update s t th th' q qq qq' id); try done; try congruence.
  - rewrite Hi, Hi', ind_none, ind_some, decide_True by done. simpl. lia.
  - intros q' Hne. rewrite Hi, Hi', ind_none, ind_some, decide_False by done. done.
  - intros t' x Hne Hx Hxo. apply (thread_keep _ _ qq); try done.
    intros Hrx. exfalso. eapply (not_removing (set_thread t th s) t q qq t' x); try done.
    simpl. by rewrite list_lookup_insert_ne.
Qed.

Lemma at_QRELE th s q :
  at_ th s -> inside th = Some q -> carried th = [] ->
  exists s', QRELE q s = Some s' /\ at_ (User None) s' /\ length (threads s') = length (threads s).
Proof.
  intros Hat Hi Hc. pose proof (at_thread _ _ Hat) as Hth. destruct (inside_alive _ _ _ Hth Hi) as [qq Hq].
  destruct Hat as [Hlt Hok].
  assert (Hpos : 0 < que_references qq)
    by (apply (inside_refs (set_thread t th s) t th q); [done|by apply threads_set|done|done]).
  assert (Hrm : removing th = None) by (by destruct th).
  unfold QRELE, upd_que. rewrite Hq. simpl. rewrite lookup_insert_eq. simpl.
  set (qq' := q_with_refs (que_references qq - 1) qq).
  eexists. split; [reflexivity|].
  assert (Hupd : forall g, (forall x, inside (g x) = inside x /\ removing (g x) = removing x /\ carried (g x) = carried x) ->
    (forall t' x, t' <> t -> threads s !! t' = Some x -> thread_ok (ques s) x ->
       thread_ok (<[q := qq']> (ques s)) (g x)) ->
    msg_ok (set_thread t (User None) (with_threads (g <$> threads s) (with_ques (<[q := qq']> (ques s)) s)))).
  { intros g Hg Hx. apply (que_update s t th (User None) q qq qq' g); try done.
    - rewrite Hi. simpl. rewrite ind_none, ind_some, decide_True by done. lia.
    - intros q' Hne. rewrite Hi. simpl. by rewrite ind_none, ind_some, decide_False. }
  destruct ((que_references qq - 1 =? 0) && has (que_flags qq) MSGQ_DYING) eqn:E.
  - apply andb_true_iff in E as [E1%Z.eqb_eq E2].
    split; [|simpl; by rewrite length_fmap]. split; [simpl; by rewrite length_fmap|].
    apply (Hupd (wake_rm q)); [apply wake_rm_keeps|]. intros t' x Hne Hx Hxo.
    destruct (decide (removing x = Some q)) as [Hrx|Hrx].
    + destruct x as [| | | | | | | | |r|r| |]; try done; injection Hrx as ->; simpl.
      * rewrite decide_True by done. exists qq'. rewrite lookup_insert_eq. split; [done|]. simpl. lia.
      * destruct Hxo as (qx & Hqx & Hz). rewrite Hq in Hqx. injection Hqx as <-. lia.
    + rewrite wake_rm_other by done. by apply (thread_keep _ _ qq).
  - split; [|done]. split; [done|]. rewrite <- (threads_self (with_ques _ s)). simpl threads.
    apply (Hupd id); [done|]. intros t' x Hne Hx Hxo.
    destruct (decide (removing x = Some q)) as [Hrx|Hrx]; [|by apply (thread_keep _ _ qq)].
    assert (Hdy : dying qq = true).
    { apply (removing_dying (set_thread t th s) t' x q); try done. simpl. by rewrite list_lookup_insert_ne. }
    unfold dying in Hdy. rewrite Hdy, andb_true_r in E. apply Z.eqb_neq in E.
    destruct x as [| | | | | | | | |r|r| |]; try done; injection Hrx as ->; simpl.
    + exists qq'. rewrite lookup_insert_eq. split; [done|]. simpl. lia.
    + destruct Hxo as (qx & Hqx & Hz). rewrite Hq in Hqx. injection Hqx as <-. lia.
Qed.

(** Leaving a call. *)
Lemma at_out th s q r :
  at_ th s -> inside th = Some q -> carried th = [] -> exists s', out_rele t q r s = Some s' /\ msg_ok s'.
Proof.
  intros Hat Hi Hc. destruct (at_QRELE th s q Hat Hi Hc) as (s' & E & Hat' & _).
  unfold out_rele. rewrite E. simpl. eexists. split; [reflexivity|].
  apply (at_move _ (User (Some r))) in Hat' as [_ ?]; done.
Qed.
End Pieces.
