(* ===== verification/MsgOps.v ===== *)
(** * System V messages: the operations preserve the invariant *)

From stdpp Require Import base numbers list option gmap.
From Stdlib Require Import ZArith Lia Bool Sorted.
From S2P Require Import Prelude Sem Msg MsgFacts.

(** ** Wakeups *)

(** Threads that are not asleep. *)
Definition awake (th : thread) : Prop :=
  match th with SndSleep _ _ | RcvSleep _ _ | RmSleep _ => False | _ => True end.

Lemma wake_que_ok h h' q x qq qq' :
  h !! q = Some qq -> h' = <[q := qq']> h -> dying qq' = dying qq ->
  que_references qq' = que_references qq ->
  thread_ok h x -> thread_ok h' (wake_que q x).
Proof.
  intros Hq -> Hd Hr Hx.
  assert (Hs : forall r, is_Some (h !! r) -> is_Some (<[q := qq']> h !! r)).
  { intros r Hr'. destruct (decide (r = q)) as [->|]; [by rewrite lookup_insert_eq|].
    by rewrite lookup_insert_ne. }
  destruct x as [| |r|r|r|r|r|r|r|r|r|r|r]; simpl in *; auto.
  1,2: case_decide as Hrq; [subst r; simpl; by rewrite lookup_insert_eq|simpl; by rewrite lookup_insert_ne].
  all: destruct (decide (r = q)) as [->|Hne]; [rewrite lookup_insert_eq, Hq in *|by rewrite lookup_insert_ne];
    destruct Hx as (qx & [= <-] & Hx); exists qq'; split; [done|]; congruence.
Qed.

Section Ops.
Context (t : nat).
Implicit Types s : mstate.
Abbreviation at_ := (at_ t).

Lemma awake_ok h th q qq qq' :
  h !! q = Some qq -> thread_ok h th -> awake th -> que_references qq' = que_references qq ->
  thread_ok (<[q := qq']> h) th.
Proof.
  intros Hq Hth Ha Hr.
  assert (Hs : forall r, is_Some (h !! r) -> is_Some (<[q := qq']> h !! r)).
  { intros r Hr'. destruct (decide (r = q)) as [->|]; [by rewrite lookup_insert_eq|].
    by rewrite lookup_insert_ne. }
  destruct th as [| |r|r|r|r|r|r|r|r|r|r|r]; simpl in *; auto; try done.
  destruct (decide (r = q)) as [->|Hne]; [rewrite lookup_insert_eq, Hq in *|by rewrite lookup_insert_ne].
  destruct Hth as (qx & [= <-] & Hz). exists qq'. split; [done|congruence].
Qed.

(** Flags other than [MSGQ_DYING] change, and the sleepers are woken. *)
Lemma at_flags_wake th s q qq f :
  at_ th s -> awake th -> ques s !! q = Some qq -> has f MSGQ_DYING = has (que_flags qq) MSGQ_DYING ->
  exists s', upd_que q (q_with_flags f) s = Some s' /\ at_ th (msg_wakeup q s') /\
    ques s' = <[q := q_with_flags f qq]> (ques s) /\ msg_queues s' = msg_queues s /\
    msgs s' = msgs s /\ maxmsgs s' = maxmsgs s.
Proof.
  intros Hat Ha Hq Hf. pose proof (at_thread _ _ _ Hat) as Hth. destruct Hat as [Hlt Hok].
  unfold upd_que. rewrite Hq. simpl. eexists. split; [reflexivity|]. split; [|done].
  split; [simpl; by rewrite length_fmap|].
  apply (que_update s t th th q qq (q_with_flags f qq) (wake_que q)); try done.
  - simpl. lia.
  - apply wake_que_keeps.
  - by apply (awake_ok _ _ _ qq).
  - intros t' x Hne Hx Hxo. by eapply (wake_que_ok _ _ q x qq).
Qed.

Lemma at_wakeup th s q :
  at_ th s -> awake th -> is_Some (ques s !! q) -> at_ th (msg_wakeup q s).
Proof.
  intros Hat Ha [qq Hq]. destruct (at_flags_wake th s q qq (que_flags qq) Hat Ha Hq eq_refl)
    as (s' & E & Hat' & _). unfold upd_que in E. rewrite Hq in E. simpl in E.
  replace (q_with_flags (que_flags qq) qq) with qq in E by (by destruct qq).
  rewrite insert_self in E by done. injection E as <-. done.
Qed.

(** A thread goes to sleep on a queue, leaving its mark. *)
Lemma at_sleep th th' s q qq f :
  at_ th s -> inside th = Some q -> carried th = [] -> awake th ->
  ques s !! q = Some qq -> has f MSGQ_DYING = has (que_flags qq) MSGQ_DYING ->
  (has (que_flags qq) MSGQ_WRITERS = true -> has f MSGQ_WRITERS = true) ->
  (has (que_flags qq) MSGQ_READERS = true -> has f MSGQ_READERS = true) ->
  inside th' = Some q -> removing th' = None -> carried th' = [] ->
  thread_ok (<[q := q_with_flags f qq]> (ques s)) th' ->
  exists s', upd_que q (q_with_flags f) s = Some s' /\ msg_ok (set_thread t th' s').
Proof.
  intros Hat Hi Hc Ha Hq Hf Hw Hr Hi' Hr' Hc' Hth'. destruct Hat as [Hlt Hok].
  unfold upd_que. rewrite Hq. simpl. eexists. split; [reflexivity|].
  rewrite <- (threads_self (with_ques _ s)). simpl threads.
  apply (que_update s t th th' q qq (q_with_flags f qq) id); try done.
  - rewrite Hi, Hi'. simpl. lia.
  - intros q' _. by rewrite Hi, Hi'.
  - rewrite Hr'. by destruct th.
  - by rewrite Hc, Hc'.
  - intros t' x Hne Hx Hxo. by apply (thread_keep _ _ qq).
Qed.

Lemma at_wake_writers th l s :
  at_ th s -> awake th -> (forall q, q ∈ l -> is_Some (ques s !! q)) ->
  exists s', wake_writers l s = Some s' /\ at_ th s' /\ msg_queues s' = msg_queues s /\
    msgs s' = msgs s /\ (forall q, is_Some (ques s !! q) -> is_Some (ques s' !! q)).
Proof.
  revert s. induction l as [|q l IH]; intros s Hat Ha Hl; [by exists s|].
  destruct (Hl q) as [qq Hq]; [set_solver|]. simpl. rewrite Hq. simpl.
  destruct (has (que_flags qq) MSGQ_WRITERS).
  - destruct (at_flags_wake th s q qq (clr_flag (que_flags qq) MSGQ_WRITERS) Hat Ha Hq)
      as (s1 & -> & Hat1 & Hq1 & Hl1 & Hm1 & _); [apply flags_spec|]. simpl.
    assert (Hs : forall r, is_Some (ques s !! r) -> is_Some (ques (msg_wakeup q s1) !! r)).
    { intros r Hr. simpl. rewrite Hq1. destruct (decide (r = q)) as [->|];
        [by rewrite lookup_insert_eq|by rewrite lookup_insert_ne]. }
    destruct (IH (msg_wakeup q s1)) as (s' & E & Hat' & Hl' & Hm' & Hs'); try done.
    + intros r Hr. apply Hs, Hl. set_solver.
    + exists s'. simpl in *. split_and!; try done; try congruence. intros r Hr. by apply Hs', Hs.
  - apply IH; try done. intros r Hr. apply Hl. set_solver.
Qed.

(** ** Messages *)

(** Messages move between the thread [t] and the queue [q] it is inside of. *)
Lemma msg_update th th' s s' q qq qq' :
  at_ th s -> inside th = Some q -> inside th' = Some q -> removing th' = None -> awake th' ->
  ques s !! q = Some qq -> ques s' = <[q := qq']> (ques s) ->
  que_ix qq' = que_ix qq -> que_flags qq' = que_flags qq -> que_references qq' = que_references qq ->
  threads s' = threads s -> msg_queues s' = msg_queues s -> num_ques s' = num_ques s ->
  msg_cbytes (q_ds qq') = ul (bytes (msgs s') (que_msgs qq')) ->
  msg_qnum (q_ds qq') = ul (Z.of_nat (length (que_msgs qq'))) ->
  (forall r qr, r <> q -> ques s !! r = Some qr -> bytes (msgs s') (que_msgs qr) = bytes (msgs s) (que_msgs qr)) ->
  (forall rest, que_msgs qq ++ carried th ++ rest ≡ₚ elements (dom (msgs s)) ->
     que_msgs qq' ++ carried th' ++ rest ≡ₚ elements (dom (msgs s'))) ->
  num_msgs s' = Z.of_nat (size (msgs s')) ->
  (next_addr s <= next_addr s')%nat ->
  (forall m, is_Some (msgs s' !! m) -> (m < next_addr s')%nat) ->
  (forall b c d, th' <> RcvCopy b c d) ->
  at_ th' s'.
Proof.
  intros Hat Hi Hi' Hr' Ha' Hq Eq Hix Hfl Hrf Et El En Hcb Hqn Hoth Hperm Hnm Hnx Hkeys Hnr.
  pose proof (at_thread _ _ _ Hat) as Hth. destruct Hat as [Hlt Hok]. split; [by rewrite Et|].
  assert (Hrm : removing th = None) by (by destruct th).
  assert (Hdy : dying qq' = dying qq) by (unfold dying; by rewrite Hfl).
  pose proof (lookup_lt_is_Some_2 _ _ Hlt) as [th0 Hth0].
  assert (Hh : forall r, holders r (<[t := th']> (threads s)) = holders r (<[t := th]> (threads s)))
    by (intros r; by rewrite !(holders_set _ _ _ _ _ Hth0), Hi, Hi').
  assert (Hm : forall r, removers r (<[t := th']> (threads s)) = removers r (<[t := th]> (threads s)))
    by (intros r; by rewrite !(removers_set _ _ _ _ _ Hth0), Hrm, Hr').
  destruct (carrieds_insert _ t _ th' Hth0) as (r1 & Hc1 & Hc1').
  destruct (carrieds_insert _ t _ th Hth0) as (r2 & Hc2 & Hc2').
  assert (Hr12 : r1 ≡ₚ r2) by (rewrite Hc2 in Hc1; by apply Permutation_app_inv_l in Hc1).
  destruct Hok as [H1 H2 [H3 H3'] H4 H5 H6 H7 H8 H9]. simpl in *.
  constructor; simpl; rewrite ?Et, ?El, ?En, ?Eq; try done.
  - intros r qr Hrq. destruct (decide (r = q)) as [->|Hne].
    + rewrite lookup_insert_eq in Hrq. injection Hrq as <-. destruct (H1 q qq Hq); simpl in *.
      constructor; simpl; rewrite ?Et, ?El, ?Hh, ?Hm, ?Hdy; congruence.
    + rewrite lookup_insert_ne in Hrq by done. pose proof (Hoth r qr Hne Hrq) as Hb.
      destruct (H1 r qr Hrq); simpl in *. constructor; simpl; rewrite ?Et, ?El, ?Hh, ?Hm, ?Hb; done.
  - intros t' x Hx. destruct (decide (t' = t)) as [->|Hne].
    + rewrite list_lookup_insert_eq in Hx by done. injection Hx as <-.
      destruct th' as [| |r|r|r|r|r|r|r|r|r|r|r]; simpl in *; try done; simplify_eq;
        try (by rewrite lookup_insert_eq); by edestruct Hnr.
    + rewrite list_lookup_insert_ne in Hx by done. apply (thread_keep _ _ qq); try done.
      * apply (H2 t'). by rewrite list_lookup_insert_ne.
      * by rewrite Hfl.
  - split; [done|]. intros r Hr. destruct (decide (r = q)) as [->|]; [by rewrite lookup_insert_eq|].
    rewrite lookup_insert_ne by done. by apply H3'.
  - eapply sorted_impl; [|exact H4]. intros a b. by apply (ix_lt_insert _ _ qq).
  - intros r qr Hrq. destruct (decide (r = q)) as [->|Hne].
    + rewrite lookup_insert_eq in Hrq. injection Hrq as <-. rewrite Hix. by apply (H5 q).
    + rewrite lookup_insert_ne in Hrq by done. by apply (H5 r).
  - rewrite Hc1', queued_insert. rewrite <- (Hperm (queued (delete q (ques s)) ++ r2)).
    + rewrite Hr12. solve_Permutation.
    + rewrite <- H6, Hc2', (queued_lookup _ _ _ Hq). solve_Permutation.
  - by rewrite map_size_insert_Some by (by rewrite Hq).
  - intros a [Haq|Ham]; [|by apply Hkeys]. apply Nat.lt_le_trans with (next_addr s); [|done].
    apply H9. left.
    destruct (decide (a = q)) as [->|]; [done|by rewrite lookup_insert_ne in Haq].
Qed.

Lemma elems_insert_new (h : gmap nat msg) m mm :
  h !! m = None -> elements (dom (<[m := mm]> h)) ≡ₚ m :: elements (dom h).
Proof.
  intros H. rewrite dom_insert_L. apply elements_union_singleton. by apply not_elem_of_dom.
Qed.

Lemma elems_delete (h : gmap nat msg) m :
  is_Some (h !! m) -> elements (dom h) ≡ₚ m :: elements (dom (delete m h)).
Proof.
  intros [mm H]. rewrite <- (insert_delete_id h m mm H) at 1.
  apply elems_insert_new. apply lookup_delete_eq.
Qed.

(** The messages of a queue and those a thread carries exist, and are
    different. *)
Lemma msgs_owned th s q qq :
  at_ th s -> ques s !! q = Some qq ->
  NoDup (que_msgs qq ++ carried th) /\
  (forall m, m ∈ que_msgs qq ++ carried th -> is_Some (msgs s !! m)) /\
  (forall r qr m, r <> q -> ques s !! r = Some qr -> m ∈ que_msgs qr -> m ∉ que_msgs qq ++ carried th).
Proof.
  intros [Hlt Hok] Hq. pose proof (lookup_lt_is_Some_2 _ _ Hlt) as [th0 Hth0].
  pose proof (mo_msgs _ Hok) as Hp. simpl in Hp.
  destruct (carrieds_insert _ t _ th Hth0) as (r2 & _ & Hc). rewrite Hc, (queued_lookup _ _ _ Hq) in Hp.
  assert (Hp' : (que_msgs qq ++ carried th) ++ queued (delete q (ques s)) ++ r2 ≡ₚ elements (dom (msgs s)))
    by (rewrite <- Hp; solve_Permutation).
  assert (Hnd : NoDup ((que_msgs qq ++ carried th) ++ queued (delete q (ques s)) ++ r2))
    by (rewrite Hp'; apply NoDup_elements).
  apply list.NoDup_app in Hnd as (Hnd & Hdis & _). split; [done|]. split.
  - intros m Hm. apply elem_of_dom, elem_of_elements. rewrite <- Hp'. apply elem_of_app. by left.
  - intros r qr m Hne Hr Hm Hin. apply (Hdis m Hin). apply elem_of_app. left.
    unfold queued. apply list_elem_of_bind. exists (r, qr). split; [done|].
    apply elem_of_map_to_list. by rewrite lookup_delete_ne.
Qed.

Lemma at_fresh th s : at_ th s -> ques s !! next_addr s = None /\ msgs s !! next_addr s = None.
Proof.
  intros [_ Hok]. pose proof (mo_fresh _ Hok (next_addr s)) as H. simpl in H.
  split; apply eq_None_not_Some; intros Hs; lapply H; [lia|by left|lia|by right].
Qed.

Lemma bytes_insert_other (h : gmap nat msg) m mm l : m ∉ l -> bytes (<[m := mm]> h) l = bytes h l.
Proof. intros H. apply bytes_ext. intros x Hx. apply lookup_insert_ne. by intros ->. Qed.

Lemma bytes_delete_other (h : gmap nat msg) m l : m ∉ l -> bytes (delete m h) l = bytes h l.
Proof. intros H. apply bytes_ext. intros x Hx. apply lookup_delete_ne. by intros ->. Qed.

Lemma at_create th s q qq a :
  at_ th s -> inside th = Some q -> carried th = [] -> ques s !! q = Some qq -> dying qq = false ->
  exists s', msg_create q s = Some (Some (next_addr s), s') /\ at_ (SndCopy q (next_addr s) a) s'.
Proof.
  intros Hat Hi Hc Hq Hd. unfold msg_create. rewrite Hq. simpl. unfold dying in Hd. rewrite Hd.
  eexists. split; [reflexivity|]. destruct (at_fresh _ _ Hat) as [_ Hf].
  destruct (msgs_owned _ _ _ _ Hat Hq) as (_ & Hex & _).
  assert (Hin : forall r qr, ques s !! r = Some qr -> next_addr s ∉ que_msgs qr).
  { intros r qr Hr Hin. destruct (msgs_owned _ _ _ _ Hat Hr) as (_ & Hex' & _).
    destruct (Hex' (next_addr s)) as [? Hx]; [set_solver|]. congruence. }
  pose proof (proj2 Hat) as Hok. pose proof (mo_que _ Hok q qq Hq) as [_ _ _ Hcb Hqn]. simpl in *.
  eapply (msg_update th _ s _ q qq qq); try done; simpl.
  - by rewrite insert_id.
  - rewrite bytes_insert_other by (by apply (Hin q)). done.
  - intros r qr Hne Hr. apply bytes_insert_other. by apply (Hin r).
  - intros rest Hp. rewrite elems_insert_new by done. rewrite <- Hp, Hc. solve_Permutation.
  - rewrite map_size_insert_None by done. pose proof (mo_num_msgs _ Hok) as Hn. simpl in Hn. lia.
  - lia.
  - intros m Hm. destruct (decide (m = next_addr s)) as [->|]; [lia|].
    rewrite lookup_insert_ne in Hm by done. pose proof (mo_fresh _ Hok m (or_intror Hm)). simpl in *. lia.
Qed.

Lemma at_free s q m a :
  at_ (SndCopy q m a) s -> exists s', msg_free m s = Some s' /\ at_ (SndWake q a) s'.
Proof.
  intros Hat. destruct (at_thread _ _ _ Hat) as [qq Hq].
  destruct (msgs_owned _ _ _ _ Hat Hq) as (Hnd & Hex & Hdis). simpl in *.
  destruct (Hex m) as [mm Hm]; [set_solver|].
  apply list.NoDup_app in Hnd as (_ & Hnd & _).
  pose proof (proj2 Hat) as Hok. pose proof (mo_que _ Hok q qq Hq) as [_ _ _ Hcb Hqn]. simpl in *.
  unfold msg_free. rewrite Hm. simpl. eexists. split; [reflexivity|].
  eapply (msg_update _ _ s _ q qq qq Hat); try done; simpl.
  - by rewrite insert_id.
  - rewrite bytes_delete_other; [done|]. intros Hin. apply (Hnd m Hin). set_solver.
  - intros r qr Hne Hr. apply bytes_delete_other. intros Hin. apply (Hdis r qr m Hne Hr Hin). set_solver.
  - intros rest Hp. rewrite (elems_delete _ m) in Hp by done.
    apply (Permutation_cons_inv (a := m)). rewrite <- Hp. solve_Permutation.
  - rewrite map_size_delete_Some by done. pose proof (mo_num_msgs _ Hok) as Hn. simpl in Hn.
    assert (size (msgs s) <> 0%nat) by (intros Hz; apply map_size_empty_iff in Hz; by rewrite Hz in Hm).
    lia.
  - intros m' Hm'. destruct (decide (m' = m)) as [->|];
      [by rewrite lookup_delete_eq in Hm'; destruct Hm'|].
    rewrite lookup_delete_ne in Hm' by done. by apply (mo_fresh _ Hok m' (or_intror Hm')).
Qed.

Lemma at_enqueue s q qq m a mm pid :
  at_ (SndCopy q m a) s -> ques s !! q = Some qq ->
  exists s', msg_enqueue q m pid (with_msgs (<[m := mm]> (msgs s)) (num_msgs s) s) = Some s' /\
    at_ (SndWake q a) s' /\
    ques s' !! q = Some (q_with_msgs (que_msgs qq ++ [m])
      (q_with_ds (ds_enqueue (msg_len mm) pid (now_sec s) (q_ds qq)) qq)) /\
    (forall r, r <> q -> ques s' !! r = ques s !! r) /\ msgs s' = <[m := mm]> (msgs s) /\
    msg_queues s' = msg_queues s /\ threads s' = threads s.
Proof.
  intros Hat Hq. destruct (msgs_owned _ _ _ _ Hat Hq) as (Hnd & Hex & Hdis). simpl in *.
  destruct (Hex m) as [mm0 Hm]; [set_solver|].
  apply list.NoDup_app in Hnd as (_ & Hnd & _).
  assert (Hmn : m ∉ que_msgs qq) by (intros Hin; apply (Hnd m Hin); set_solver).
  pose proof (proj2 Hat) as Hok. pose proof (mo_que _ Hok q qq Hq) as [_ _ _ Hcb Hqn]. simpl in *.
  unfold msg_enqueue, upd_que. simpl. rewrite lookup_insert_eq. simpl. rewrite Hq. simpl.
  eexists. split; [reflexivity|]. simpl.
  split; [|rewrite lookup_insert_eq; split_and!; try done; intros r Hr; by rewrite lookup_insert_ne].
  eapply (msg_update _ _ s _ q qq _ Hat); try done; simpl; try reflexivity.
  - rewrite bytes_app, bytes_insert_other, Hcb by done. simpl. rewrite lookup_insert_eq. simpl.
    unfold uadd, ul. rewrite Zplus_mod_idemp_l. f_equal. lia.
  - rewrite length_app, Hqn. simpl. unfold uadd, ul. rewrite Zplus_mod_idemp_l. f_equal. lia.
  - intros r qr Hne Hr. apply bytes_insert_other. intros Hin. apply (Hdis r qr m Hne Hr Hin). set_solver.
  - intros rest Hp. rewrite dom_insert_lookup_L by done. rewrite <- Hp. solve_Permutation.
  - rewrite map_size_insert_Some by done. apply (mo_num_msgs _ Hok).
  - intros m' Hm'. destruct (decide (m' = m)) as [->|].
    + apply (mo_fresh _ Hok m). simpl. right. by rewrite Hm.
    + rewrite lookup_insert_ne in Hm' by done. by apply (mo_fresh _ Hok m' (or_intror Hm')).
Qed.

Lemma at_dequeue th s q qq m mm pid :
  at_ th s -> inside th = Some q -> carried th = [] -> awake th -> (forall b c d, th <> RcvCopy b c d) ->
  ques s !! q = Some qq -> m ∈ que_msgs qq -> msgs s !! m = Some mm ->
  exists s1 s2, msg_dequeue q m pid s = Some s1 /\ msg_free m s1 = Some s2 /\ at_ th s2 /\
    ques s2 !! q = Some (q_with_msgs (filter (fun m' => m' <> m) (que_msgs qq))
      (q_with_ds (ds_dequeue (msg_len mm) pid (now_sec s) (q_ds qq)) qq)) /\
    (forall r, r <> q -> ques s2 !! r = ques s !! r) /\ msgs s2 = delete m (msgs s) /\
    msg_queues s2 = msg_queues s /\ maxmsgs s2 = maxmsgs s /\ threads s2 = threads s.
Proof.
  intros Hat Hi Hc Ha Hnr Hq Hm Hmm.
  destruct (msgs_owned _ _ _ _ Hat Hq) as (Hnd & Hex & Hdis). rewrite Hc, app_nil_r in *.
  destruct (bytes_without (msgs s) _ m Hnd Hm) as (Hb & Hl & Hp0).
  pose proof (proj2 Hat) as Hok. pose proof (mo_que _ Hok q qq Hq) as [_ _ _ Hcb Hqn]. simpl in *.
  assert (Hmf : m ∉ filter (fun m' => m' <> m) (que_msgs qq)).
  { intros Hin. by apply list_elem_of_filter in Hin as [? _]. }
  unfold msg_dequeue, msg_free, upd_que. rewrite Hmm. simpl. rewrite Hq. simpl.
  eexists _, _. split; [reflexivity|]. simpl. rewrite Hmm. simpl. split; [reflexivity|]. simpl.
  split; [|rewrite lookup_insert_eq; split_and!; try done; intros r Hr; by rewrite lookup_insert_ne].
  assert (removing th = None) by (by destruct th).
  eapply (msg_update th th s _ q qq _ Hat); try done; simpl; try reflexivity.
  - rewrite bytes_delete_other, Hb, Hmm, Hcb by done. simpl. unfold usub, ul. by rewrite Zminus_mod_idemp_l.
  - rewrite Hl, Hqn. unfold usub, ul. by rewrite Zminus_mod_idemp_l.
  - intros r qr Hne Hr. apply bytes_delete_other. intros Hin. by apply (Hdis r qr m Hne Hr Hin).
  - intros rest Hp. rewrite Hc in *. simpl in *. rewrite (elems_delete _ m) in Hp by (by rewrite Hmm).
    rewrite Hp0 in Hp. simpl in Hp. by apply Permutation_cons_inv in Hp.
  - rewrite map_size_delete_Some by (by rewrite Hmm). pose proof (mo_num_msgs _ Hok) as Hn. simpl in Hn.
    assert (size (msgs s) <> 0%nat) by (intros Hz; apply map_size_empty_iff in Hz; by rewrite Hz in Hmm).
    lia.
  - intros m' Hm'. destruct (decide (m' = m)) as [->|];
      [by rewrite lookup_delete_eq in Hm'; destruct Hm'|].
    rewrite lookup_delete_ne in Hm' by done. by apply (mo_fresh _ Hok m' (or_intror Hm')).
Qed.
End Ops.
