(* ===== verification/MsgQue.v ===== *)
(** * System V messages: creation and removal of queues *)

From stdpp Require Import base numbers list option gmap.
From Stdlib Require Import ZArith Lia Bool Sorted.
From S2P Require Import Prelude Sem Msg MsgFacts MsgOps.

(** ** Lookups *)

(** A lookup finds the first queue of the list that satisfies the test. *)
Lemma que_find_spec f s :
  msg_ok s ->
  exists r, que_find f (ques s) (msg_queues s) = Some r /\
    match r with
    | Some q => exists qq, q ∈ msg_queues s /\ ques s !! q = Some qq /\ f qq = true /\ dying qq = false
    | None => forall q qq, q ∈ msg_queues s -> ques s !! q = Some qq -> f qq = false
    end.
Proof.
  intros Hok. destruct (mo_list _ Hok) as [_ Hal].
  assert (Hd : forall q qq, q ∈ msg_queues s -> ques s !! q = Some qq -> dying qq = false).
  { intros q qq Hq Hqq. by apply (qo_list _ _ _ (mo_que _ Hok q qq Hqq)). }
  revert Hal Hd. generalize (msg_queues s) at 1 2 3 4 5. intros l Hal Hd.
  induction l as [|q l IH]; simpl.
  - exists None. split; [done|]. intros q qq Hq. by apply elem_of_nil in Hq.
  - destruct (Hal q) as [qq Hq]; [set_solver|]. rewrite Hq. simpl.
    pose proof (Hd q qq ltac:(set_solver) Hq) as Hdq. unfold dying in Hdq. rewrite Hdq.
    destruct (f qq) eqn:Ef.
    + exists (Some q). split; [done|]. exists qq. split_and!; try done. set_solver.
    + destruct IH as (r & -> & Hr).
      { intros q' Hq'. apply Hal. set_solver. }
      { intros q' qq' Hq'. apply Hd. set_solver. }
      exists r. split; [done|].
      destruct r as [q'|].
      * destruct Hr as (qq' & ? & ?). exists qq'. split; [set_solver|done].
      * intros q' qq' [->|Hin]%elem_of_cons Hqq'; [by rewrite Hq in Hqq'; injection Hqq' as <-|by eapply Hr].
Qed.

Definition has_ix (h : gmap nat que) (i : Z) (q : nat) : Prop := exists qq, h !! q = Some qq /\ que_ix qq = i.

(** The index of a new queue is the first that is free, and its place keeps
    the list in order. *)
Lemma que_place_spec h l nextix :
  StronglySorted (ix_lt h) l -> (forall q, q ∈ l -> exists qq, h !! q = Some qq /\ nextix <= que_ix qq) ->
  exists n b a, que_place h l nextix = Some (n, b, a) /\ l = b ++ a /\ nextix <= n /\
    (forall q qq, q ∈ b -> h !! q = Some qq -> que_ix qq < n) /\
    (forall q qq, q ∈ a -> h !! q = Some qq -> n < que_ix qq) /\
    (forall i, nextix <= i < n -> exists q, q ∈ b /\ has_ix h i q).
Proof.
  revert nextix. induction l as [|q2 l IH]; intros nextix Hs Hl; simpl.
  - exists nextix, [], []. split_and!; try done; try lia; try (intros q qq Hq; by apply elem_of_nil in Hq).
  - destruct (Hl q2) as (qq & Hq & Hle); [set_solver|]. rewrite Hq. simpl.
    apply StronglySorted_inv in Hs as [Hs Hf]. rewrite list.Forall_forall in Hf.
    assert (Hgt : forall q qq', q ∈ l -> h !! q = Some qq' -> que_ix qq < que_ix qq').
    { intros q qq' Hin Hqq'. destruct (Hf q Hin) as (x & y & Hx & Hy & Hlt).
      congruence. }
    destruct (Z.ltb_spec nextix (que_ix qq)) as [Hlt|Hge].
    + exists nextix, [], (q2 :: l). split_and!; try done; try lia.
      * intros q qq' Hin. by apply elem_of_nil in Hin.
      * intros q qq' [->|Hin]%elem_of_cons Hqq'; [congruence|]. pose proof (Hgt q qq' Hin Hqq'). lia.
    + destruct (IH (que_ix qq + 1)) as (n & b & a & -> & -> & Hn & Hb & Ha & Hi); [done| |].
      { intros q Hin. destruct (Hl q) as (qq' & Hqq' & _); [set_solver|]. exists qq'.
        split; [done|]. pose proof (Hgt q qq' Hin Hqq'). lia. }
      simpl. exists n, (q2 :: b), a. split_and!; try done; try lia.
      * intros q qq' [->|Hin]%elem_of_cons Hqq'; [rewrite Hq in Hqq'; injection Hqq' as <-; lia|by eapply Hb].
      * intros i Hi'. destruct (decide (i = que_ix qq)) as [->|].
        -- exists q2. split; [set_solver|by exists qq].
        -- destruct (Hi i) as (q & ? & ?); [lia|]. exists q. split; [set_solver|done].
Qed.

(** ** Creation *)

Section Que.
Context (t : nat).
Implicit Types s : mstate.
Abbreviation at_ := (at_ t).

Lemma tsum_zero f l : (forall t th, l !! t = Some th -> f th = 0) -> tsum f l = 0.
Proof.
  induction l as [|x l IH]; intros H; [done|]. change (f x + tsum f l = 0).
  rewrite (H 0%nat x), IH; [done| |done]. intros t' th Ht. by apply (H (S t')).
Qed.

(** Nobody works on a queue that is not there. *)
Lemma nobody_there s q :
  msg_ok s -> ques s !! q = None -> holders q (threads s) = 0 /\ removers q (threads s) = 0.
Proof.
  intros Hok Hq. split; apply tsum_zero; intros t' th Ht; pose proof (mo_thread _ Hok _ _ Ht) as Hth;
    unfold ind; case_decide as Hi; try done; exfalso.
  - destruct (inside_alive _ _ _ Hth Hi) as [? ?]. congruence.
  - destruct th; try done; injection Hi as ->; destruct Hth as (? & ? & _); congruence.
Qed.

Lemma thread_ok_fresh h q qq x : h !! q = None -> thread_ok h x -> thread_ok (<[q := qq]> h) x.
Proof.
  intros Hq Hx.
  assert (Hs : forall r y, h !! r = Some y -> <[q := qq]> h !! r = Some y).
  { intros r y Hr. rewrite lookup_insert_ne; [done|]. by intros ->; congruence. }
  destruct x as [| |r|r|r|r|r|r|r|r|r|r|r]; simpl in *; auto;
    try (destruct Hx as [y Hy]; exists y; auto; fail);
    destruct Hx as (y & Hy & Hrest); exists y; auto.
Qed.

Lemma holders_at th s q :
  (t < length (threads s))%nat -> inside th = None -> removing th = None ->
  holders q (threads (set_thread t th s)) = holders q (threads (set_thread t (User None) s)) /\
  removers q (threads (set_thread t th s)) = removers q (threads (set_thread t (User None) s)).
Proof.
  intros Hlt Hi Hr. pose proof (lookup_lt_is_Some_2 _ _ Hlt) as [th0 Hth0]. simpl.
  by rewrite !(holders_set _ _ _ _ _ Hth0), !(removers_set _ _ _ _ _ Hth0), Hi, Hr.
Qed.

Lemma sorted_middle (R : nat -> nat -> Prop) b q a :
  StronglySorted R (b ++ a) -> (forall x, x ∈ b -> R x q) -> (forall x, x ∈ a -> R q x) ->
  StronglySorted R (b ++ q :: a).
Proof.
  induction b as [|x b IH]; simpl; intros Hs Hb Ha.
  - constructor; [done|]. apply list.Forall_forall. intros y Hy. by apply Ha.
  - apply StronglySorted_inv in Hs as [Hs Hf]. constructor.
    + apply IH; [done|intros; apply Hb; set_solver|done].
    + apply Forall_app in Hf as [Hf1 Hf2]. apply Forall_app. split; [done|].
      constructor; [apply Hb; set_solver|done].
Qed.

(** A queue without users is added to the list, in its place. *)
Lemma que_added th s s' qq b a :
  at_ th s -> let q := next_addr s in
  que_flags qq = 0 -> que_references qq = 0 -> que_msgs qq = [] ->
  msg_cbytes (q_ds qq) = 0 -> msg_qnum (q_ds qq) = 0 -> 1 <= que_ix qq ->
  msg_queues s = b ++ a ->
  (forall x y, x ∈ b -> ques s !! x = Some y -> que_ix y < que_ix qq) ->
  (forall x y, x ∈ a -> ques s !! x = Some y -> que_ix qq < que_ix y) ->
  ques s' = <[q := qq]> (ques s) -> msgs s' = msgs s -> next_addr s' = S (next_addr s) ->
  msg_queues s' = b ++ q :: a -> num_ques s' = num_ques s + 1 -> num_msgs s' = num_msgs s ->
  threads s' = threads s -> at_ th s'.
Proof.
  intros Hat q F1 F2 F3 F4 F5 F6 El Hb Ha E1 E2 E3 E4 E5 E6 E7.
  pose proof (proj2 Hat) as Hok. destruct (at_fresh _ _ _ Hat) as [Hqf Hmf]. fold q in Hqf, Hmf.
  assert (Hnl : q ∉ msg_queues s).
  { intros Hin. destruct (proj2 (mo_list _ Hok) q Hin) as [? Hx]. simpl in Hx. congruence. }
  assert (Hnba : (q ∉ b) /\ (q ∉ a)) by (rewrite El in Hnl; set_solver).
  destruct (nobody_there (set_thread t th s) q Hok Hqf) as [Hh0 Hr0].
  split; [rewrite E7; exact (proj1 Hat)|].
  destruct Hok as [H1 H2 [H3 H3'] H4 H5 H6 H7 H8 H9]. simpl in *.
  assert (Hal : forall r y, ques s !! r = Some y -> <[q := qq]> (ques s) !! r = Some y).
  { intros r y Hr. rewrite lookup_insert_ne; [done|]. intros <-. congruence. }
  constructor; simpl; rewrite ?E1, ?E2, ?E3, ?E4, ?E5, ?E6, ?E7.
  - intros r qr Hr. destruct (decide (r = q)) as [->|Hne].
    + rewrite lookup_insert_eq in Hr. injection Hr as <-. constructor; simpl; unfold dying;
        rewrite ?E2, ?E4, ?E7, ?F1, ?F2, ?F3, ?F4, ?F5; try done. split; [done|].
      intros _. set_solver.
    + rewrite lookup_insert_ne in Hr by done. destruct (H1 r qr Hr).
      constructor; simpl in *; rewrite ?E2, ?E4, ?E7; try done. rewrite <- qo_list, El. set_solver.
  - intros t' x Hx. apply thread_ok_fresh; [done|]. by apply (H2 t').
  - rewrite El in *. split.
    + apply list.NoDup_app in H3 as (N1 & N2 & N3). apply list.NoDup_app. split_and!; [done| |].
      * intros x Hx. rewrite elem_of_cons. intros [->|Hin]; [tauto|by apply (N2 x)].
      * apply list.NoDup_cons. tauto.
    + intros r Hr. destruct (decide (r = q)) as [->|]; [by rewrite lookup_insert_eq|].
      rewrite lookup_insert_ne by done. apply H3'. set_solver.
  - rewrite El in H4, H3'. apply sorted_middle.
    + eapply sorted_impl; [|exact H4]. intros x y (u & v & Hu & Hv & Hlt). exists u, v. auto.
    + intros x Hx. destruct (H3' x) as [y Hy]; [set_solver|]. exists y, qq. split_and!; auto.
      * by rewrite lookup_insert_eq.
      * simpl. by apply (Hb x).
    + intros x Hx. destruct (H3' x) as [y Hy]; [set_solver|]. exists qq, y. split_and!; auto.
      * by rewrite lookup_insert_eq.
      * simpl. by apply (Ha x).
  - intros r qr Hr. destruct (decide (r = q)) as [->|Hne].
    + rewrite lookup_insert_eq in Hr. by injection Hr as <-.
    + rewrite lookup_insert_ne in Hr by done. by apply (H5 r).
  - rewrite queued_insert, F3. simpl. by rewrite delete_id.
  - rewrite map_size_insert_None by done. lia.
  - lia.
  - intros x [Hx|Hx].
    + destruct (decide (x = q)) as [->|]; [lia|]. rewrite lookup_insert_ne in Hx by done.
      apply Nat.lt_lt_succ_r. apply H9. by left.
    + apply Nat.lt_lt_succ_r. apply H9. by right.
Qed.

(** [que_create]: a key that is in use is refused; otherwise the queue gets
    the first free index and its place in the list. *)
Lemma at_que_create th s k cred m :
  at_ th s -> exists r s', que_create k cred m s = Some (r, s') /\
    match r with
    | None => s' = s /\ k <> IPC_PRIVATE /\
        exists q qq, que_key_lookup k s = Some (Some q) /\ q ∈ msg_queues s /\ ques s !! q = Some qq /\
          key (msg_perm (q_ds qq)) = k
    | Some q => at_ th s' /\ exists qq, ques s' = <[q := qq]> (ques s) /\ ques s !! q = None /\
        (k <> IPC_PRIVATE -> forall q' qq', q' ∈ msg_queues s -> ques s !! q' = Some qq' ->
           key (msg_perm (q_ds qq')) <> k) /\
        key (msg_perm (q_ds qq)) = k /\ que_msgs qq = [] /\ 1 <= que_ix qq /\
        (forall q' qq', q' ∈ msg_queues s -> ques s !! q' = Some qq' -> que_ix qq' <> que_ix qq) /\
        (forall i, 1 <= i < que_ix qq -> exists q', q' ∈ msg_queues s /\ has_ix (ques s) i q') /\
        (forall q', q' ∈ msg_queues s' <-> q' = q \/ q' ∈ msg_queues s)
    end.
Proof.
  intros Hat. unfold que_create.
  assert (Hk : exists r, que_key_lookup k s = Some r /\
    match r with
    | Some q => k <> IPC_PRIVATE /\ exists qq, q ∈ msg_queues s /\ ques s !! q = Some qq /\
        key (msg_perm (q_ds qq)) = k
    | None => k <> IPC_PRIVATE -> forall q' qq', q' ∈ msg_queues s -> ques s !! q' = Some qq' ->
        key (msg_perm (q_ds qq')) <> k
    end).
  { unfold que_key_lookup. destruct (Z.eqb_spec k IPC_PRIVATE); [by exists None|].
    destruct (que_find_spec (fun qq => key (msg_perm (q_ds qq)) =? k) (set_thread t th s) (proj2 Hat))
      as (r & E & Hr). simpl in *. exists r. split; [done|]. destruct r as [q|].
    - destruct Hr as (qq & ? & ? & He%Z.eqb_eq & _). split; [done|]. by exists qq.
    - intros _ q' qq' Hin Hq'. apply Z.eqb_neq. by eapply Hr. }
  destruct Hk as ([q|] & Ek & Hk); rewrite Ek; simpl.
  { exists None, s. split; [done|]. destruct Hk as (? & qq & ? & ? & ?). split_and!; try done. by exists q, qq. }
  pose proof (proj2 Hat) as Hok. destruct (at_fresh _ _ _ Hat) as [Hqf Hmf].
  destruct (que_place_spec (ques s) (msg_queues s) 1) as (n & b & a & -> & El & Hn & Hb & Ha & Hi).
  { apply (mo_sorted _ Hok). }
  { intros q Hq. destruct (proj2 (mo_list _ Hok) q Hq) as [qq Hqq]. exists qq. split; [done|].
    by apply (mo_ix _ Hok q). }
  simpl. set (q := next_addr s) in *. set (qq := mkQue _ _ _ _ _).
  eexists _, _. split; [reflexivity|]. simpl. split.
  - by eapply (que_added th s _ qq b a).
  - exists qq. split_and!; try done.
    + intros q' qq' Hin Hq' He. simpl in He. rewrite El in Hin. apply elem_of_app in Hin as [Hin|Hin].
      * pose proof (Hb q' qq' Hin Hq'). lia.
      * pose proof (Ha q' qq' Hin Hq'). lia.
    + intros i Hi'. destruct (Hi i Hi') as (q' & Hin & ?). exists q'. split; [rewrite El; set_solver|done].
    + intros q'. rewrite El. set_solver.
Qed.

(** ** Removal *)

(** The queue leaves the list and the thread becomes the one that frees it. *)
Lemma rm_update th th' s q qq g :
  at_ th s -> inside th = Some q -> carried th = [] -> ques s !! q = Some qq -> dying qq = false ->
  removing th' = Some q -> inside th' = None -> carried th' = [] ->
  (forall x, inside (g x) = inside x /\ removing (g x) = removing x /\ carried (g x) = carried x) ->
  let qq' := q_with_refs (que_references qq - 1)
    (q_with_flags (set_flag (que_flags qq) MSGQ_DYING) qq) in
  thread_ok (<[q := qq']> (ques s)) th' ->
  (forall t' x, t' <> t -> threads s !! t' = Some x -> thread_ok (ques s) x ->
     thread_ok (<[q := qq']> (ques s)) (g x)) ->
  msg_ok (set_thread t th' (with_threads (g <$> threads s)
    (with_ques (<[q := qq']> (ques s)) (with_list (filter (fun q' => q' <> q) (msg_queues s)) s)))).
Proof.
  intros [Hlt Hok] Hi Hc Hq Hd Hr' Hi' Hc' Hg qq' Hth' Hoth.
  pose proof (lookup_lt_is_Some_2 _ _ Hlt) as [th0 Hth0].
  assert (Hgl : (g <$> threads s) !! t = Some (g th0)) by (by rewrite list_lookup_fmap, Hth0).
  assert (Hrm : removing th = None) by (by destruct th).
  assert (Hh : forall r, holders r (<[t := th']> (g <$> threads s)) =
    holders r (<[t := th]> (threads s)) - ind (Some q) r).
  { intros r. rewrite (holders_set _ _ _ _ _ Hgl), (holders_set _ _ _ _ _ Hth0).
    unfold holders. rewrite (tsum_fmap (fun th => ind (inside th) r))
      by (intros x; by rewrite (proj1 (Hg x))). rewrite (proj1 (Hg th0)), Hi, Hi', ind_none. lia. }
  assert (Hr : forall r, removers r (<[t := th']> (g <$> threads s)) =
    removers r (<[t := th]> (threads s)) + ind (Some q) r).
  { intros r. rewrite (removers_set _ _ _ _ _ Hgl), (removers_set _ _ _ _ _ Hth0), Hrm, Hr'.
    unfold removers. rewrite (tsum_fmap (fun th => ind (removing th) r))
      by (intros x; by rewrite (proj1 (proj2 (Hg x)))). rewrite (proj1 (proj2 (Hg th0))), ind_none. lia. }
  assert (Hca : carrieds (<[t := th']> (g <$> threads s)) ≡ₚ carrieds (<[t := th]> (threads s))).
  { destruct (carrieds_insert _ t _ th' Hgl) as (r1 & H1 & ->).
    destruct (carrieds_insert _ t _ th Hth0) as (r2 & H2 & ->). rewrite Hc, Hc'. simpl.
    rewrite (carrieds_fmap g) in H1 by (intros x; apply (Hg x)). rewrite H2 in H1.
    rewrite (proj2 (proj2 (Hg th0))) in H1. by apply Permutation_app_inv_l in H1. }
  assert (Hdy : dying qq' = true) by (unfold dying; simpl; apply flags_spec).
  destruct Hok as [H1 H2 [H3 H3'] H4 H5 H6 H7 H8 H9]. simpl in *. constructor; simpl.
  - intros r qr Hrq. destruct (decide (r = q)) as [->|Hne].
    + rewrite lookup_insert_eq in Hrq. injection Hrq as <-.
      destruct (H1 q qq Hq) as [A1 A2 A3 A4 A5]; simpl in *. rewrite Hd in A3.
      constructor; simpl; rewrite ?Hh, ?Hr, ?ind_some, ?(decide_True (P := q = q)) by done; try done.
      * lia.
      * rewrite Hdy. split; [|done]. intros Hin. by apply list_elem_of_filter in Hin as [? _].
      * rewrite Hdy. lia.
    + rewrite lookup_insert_ne in Hrq by done. destruct (H1 r qr Hrq) as [A1 A2 A3 A4 A5]; simpl in *.
      constructor; simpl; rewrite ?Hh, ?Hr, ?ind_some, ?(decide_False (P := q = r)) by done; try lia; try done.
      rewrite <- A2, list_elem_of_filter. tauto.
  - intros t' x Hx. destruct (decide (t' = t)) as [->|Hne].
    + rewrite list_lookup_insert_eq in Hx by (by rewrite length_fmap). by injection Hx as <-.
    + rewrite list_lookup_insert_ne in Hx by done. rewrite list_lookup_fmap in Hx.
      destruct (threads s !! t') as [y|] eqn:Ey; [|done]. injection Hx as <-.
      apply (Hoth t' y Hne Ey). apply (H2 t'). by rewrite list_lookup_insert_ne.
  - split; [by apply NoDup_filter|]. intros r [Hne Hin]%list_elem_of_filter.
    rewrite lookup_insert_ne by done. by apply H3'.
  - apply sorted_impl with (R := ix_lt (ques s)); [intros a b; by apply (ix_lt_insert _ _ qq)|].
    clear -H4. induction H4 as [|x l Hs IH Hf]; [constructor|]. rewrite filter_cons.
    case_decide; [|done]. constructor; [done|].
    apply list.Forall_forall. intros y [_ Hy]%list_elem_of_filter.
    by apply (proj1 (list.Forall_forall _ _) Hf).
  - intros r qr Hrq. destruct (decide (r = q)) as [->|Hne].
    + rewrite lookup_insert_eq in Hrq. injection Hrq as <-. by apply (H5 q qq).
    + rewrite lookup_insert_ne in Hrq by done. by apply (H5 r).
  - rewrite Hca, queued_insert. simpl. by rewrite <- (queued_lookup _ _ _ Hq).
  - by rewrite map_size_insert_Some by (by rewrite Hq).
  - done.
  - intros a [Ha|Ha]; apply H9; [left|by right].
    destruct (decide (a = q)) as [->|Hne]; [done|]. by rewrite lookup_insert_ne in Ha.
Qed.

Lemma free_msgs_spec l s :
  NoDup l -> (forall m, m ∈ l -> is_Some (msgs s !! m)) ->
  exists h, free_msgs l s = Some (with_msgs h (num_msgs s - Z.of_nat (length l)) s) /\
    elements (dom (msgs s)) ≡ₚ l ++ elements (dom h) /\
    (size (msgs s) = length l + size h)%nat /\
    (forall m, m ∉ l -> h !! m = msgs s !! m) /\ (forall m, is_Some (h !! m) -> is_Some (msgs s !! m)).
Proof.
  revert s. induction l as [|m l IH]; intros s Hnd Hex.
  - exists (msgs s). simpl. split; [|done]. f_equal. unfold with_msgs. rewrite Z.sub_0_r. by destruct s.
  - apply list.NoDup_cons in Hnd as [Hm Hnd]. destruct (Hex m) as [mm Hmm]; [set_solver|].
    simpl. unfold msg_free at 1. rewrite Hmm. simpl.
    destruct (IH (with_msgs (delete m (msgs s)) (num_msgs s - 1) s)) as (h & E & Hp & Hsz & Ho & Hsub); [done| |].
    { intros m' Hm'. simpl. rewrite lookup_delete_ne by (by intros ->). apply Hex. set_solver. }
    simpl in *. exists h. rewrite E. split_and!.
    + f_equal. unfold with_msgs. simpl. f_equal. lia.
    + rewrite (elems_delete _ m) by (by rewrite Hmm). by rewrite Hp.
    + rewrite map_size_delete_Some in Hsz by (by rewrite Hmm).
      assert (size (msgs s) <> 0%nat) by (intros Hz; apply map_size_empty_iff in Hz; by rewrite Hz in Hmm).
      lia.
    + intros m' Hm'. apply not_elem_of_cons in Hm' as [Hne Hm']. rewrite Ho by done.
      by rewrite lookup_delete_ne.
    + intros m' Hm'. destruct (Hsub m' Hm') as [x Hx].
      apply lookup_delete_Some in Hx as [_ Hx]. by rewrite Hx.
Qed.

(** The thread that removed the queue frees it, with its messages. *)
Lemma at_que_free s q :
  at_ (RmWake q) s ->
  exists s', que_free q s = Some s' /\ at_ (User None) s' /\ ques s' = delete q (ques s).
Proof.
  intros Hat. destruct (at_thread _ _ _ Hat) as (qq & Hq & Hrf).
  unfold que_free. rewrite Hq. simpl. rewrite Hrf. simpl.
  destruct (msgs_owned _ _ _ _ _ Hat Hq) as (Hnd & Hex & Hdis). simpl in *. rewrite app_nil_r in *.
  destruct (free_msgs_spec (que_msgs qq) s Hnd Hex) as (h & -> & Hp & Hsz & Ho & Hsub). simpl.
  eexists. split; [reflexivity|]. split; [|done]. destruct Hat as [Hlt Hok]. split; [done|].
  pose proof (lookup_lt_is_Some_2 _ _ Hlt) as [th0 Hth0].
  destruct (mo_que _ Hok q qq Hq) as [A1 A2 A3 _ _]. simpl in *.
  assert (Hdy : dying qq = true) by (by apply (removing_dying _ t (RmWake q) q qq Hok); [apply threads_set|..]).
  rewrite Hdy in A3. rewrite Hrf in A1.
  assert (Hh : forall r, holders r (<[t := User None]> (threads s)) = holders r (<[t := RmWake q]> (threads s)))
    by (intros r; by rewrite !(holders_set _ _ _ _ _ Hth0)).
  assert (Hr : forall r, r <> q -> removers r (<[t := User None]> (threads s)) = removers r (<[t := RmWake q]> (threads s))).
  { intros r Hne. rewrite !(removers_set _ _ _ _ _ Hth0). simpl.
    rewrite ind_some, decide_False, ind_none by done. lia. }
  (* nobody else works on the queue *)
  assert (Hnone : forall t' x, t' <> t -> threads s !! t' = Some x -> inside x <> Some q /\ removing x <> Some q).
  { intros t' x Hne Hx.
    assert (Hx' : <[t := User None]> (threads s) !! t' = Some x) by (by rewrite list_lookup_insert_ne).
    split; intros He.
    - pose proof (tsum_pos (fun th => ind (inside th) q) _ t' x (fun th => ind_nonneg _ _) Hx') as H.
      fold (holders q (<[t := User None]> (threads s))) in H. rewrite Hh, <- A1 in H. simpl in H.
      rewrite He, ind_some, decide_True in H by done. lia.
    - pose proof (tsum_pos (fun th => ind (removing th) q) _ t' x (fun th => ind_nonneg _ _) Hx') as H.
      fold (removers q (<[t := User None]> (threads s))) in H.
      rewrite (removers_set _ _ _ _ _ Hth0) in A3. rewrite (removers_set _ _ _ _ _ Hth0) in H. simpl in *.
      rewrite He, ?ind_some, ?decide_True, ?ind_none in * by done. lia. }
  destruct Hok as [H1 H2 [H3 H3'] H4 H5 H6 H7 H8 H9]. simpl in *.
  assert (Hql : q ∉ msg_queues s) by (intros Hin; apply A2 in Hin; congruence).
  assert (Hdel : forall r y, r <> q -> ques s !! r = Some y -> delete q (ques s) !! r = Some y)
    by (intros r y Hne Hy; by rewrite lookup_delete_ne).
  constructor; simpl.
  - intros r qr [Hne Hqr]%lookup_delete_Some. apply not_eq_sym in Hne. destruct (H1 r qr Hqr). simpl in *.
    constructor; simpl; rewrite ?Hh, ?Hr by done; try done.
    rewrite qo_bytes. f_equal. symmetry. apply bytes_ext. intros m Hm. apply Ho. by apply (Hdis r qr).
  - intros t' x Hx. destruct (decide (t' = t)) as [->|Hne].
    + rewrite list_lookup_insert_eq in Hx by done. by injection Hx as <-.
    + rewrite list_lookup_insert_ne in Hx by done. destruct (Hnone t' x Hne Hx) as [Hni Hnr].
      assert (Hxo : thread_ok (ques s) x) by (apply (H2 t'); by rewrite list_lookup_insert_ne).
      destruct x as [| |r|r|r|r|r|r|r|r|r|r|r]; simpl in *; auto;
        rewrite lookup_delete_ne by congruence; done.
  - split; [done|]. intros r Hin. rewrite lookup_delete_ne by (by intros ->). by apply H3'.
  - assert (Hin : forall r, r ∈ msg_queues s -> r <> q) by (by intros r Hin ->).
    clear -H4 Hin Hdel. induction H4 as [|x l Hs IH Hf]; constructor; [apply IH; set_solver|].
    apply list.Forall_forall. intros y Hy.
    destruct (proj1 (list.Forall_forall _ _) Hf y Hy) as (u & v & Hu & Hv & Huv). exists u, v.
    split_and!; [apply Hdel; set_solver|apply Hdel; set_solver|done].
  - intros r qr [_ Hqr]%lookup_delete_Some. by apply (H5 r).
  - apply (Permutation_app_inv_l (que_msgs qq)). rewrite <- Hp, <- H6, (queued_lookup _ _ _ Hq).
    destruct (carrieds_insert _ t _ (User None) Hth0) as (r1 & C1 & ->).
    destruct (carrieds_insert _ t _ (RmWake q) Hth0) as (r2 & C2 & ->). simpl.
    rewrite C2 in C1. apply Permutation_app_inv_l in C1. rewrite C1. solve_Permutation.
  - rewrite map_size_delete_Some by (by rewrite Hq).
    assert (size (ques s) <> 0%nat) by (intros Hz; apply map_size_empty_iff in Hz; by rewrite Hz in Hq).
    lia.
  - lia.
  - intros a [Ha|Ha]; apply H9; [left|right; by apply Hsub].
    destruct Ha as [x [_ Hx]%lookup_delete_Some]. by rewrite Hx.
Qed.
End Que.
