(* ===== verification/MsgSys.v ===== *)
(** * System V messages: the system calls

    Whatever calls the threads make and however they are interleaved, no
    object is used after it was freed, and the invariant of MsgFacts.v holds,
    provided that [copyout] does not sleep. *)

From stdpp Require Import base numbers list option gmap.
From Stdlib Require Import ZArith Lia Bool Sorted.
From S2P Require Import Prelude Sem Msg MsgFacts MsgOps MsgQue.

(** The message [msg_lookup] finds is the first of the queue that matches. *)
Lemma msg_find_spec f h l :
  (forall m, m ∈ l -> is_Some (h !! m)) ->
  exists r, msg_find f h l = Some r /\
    match r with
    | Some m => exists b a mm, l = b ++ m :: a /\ h !! m = Some mm /\ f mm = true /\
        (forall m' mm', m' ∈ b -> h !! m' = Some mm' -> f mm' = false)
    | None => forall m mm, m ∈ l -> h !! m = Some mm -> f mm = false
    end.
Proof.
  induction l as [|m l IH]; intros Hl; simpl.
  - exists None. split; [done|]. intros m mm Hm. by apply elem_of_nil in Hm.
  - destruct (Hl m) as [mm Hm]; [set_solver|]. rewrite Hm. simpl. destruct (f mm) eqn:Ef.
    + exists (Some m). split; [done|]. exists [], l, mm. split_and!; try done.
      intros m' mm' Hm'. by apply elem_of_nil in Hm'.
    + destruct IH as (r & -> & Hr); [intros m' Hm'; apply Hl; set_solver|].
      exists r. split; [done|]. destruct r as [m0|].
      * destruct Hr as (b & a & mm0 & -> & ? & ? & Hb). exists (m :: b), a, mm0. split_and!; try done.
        intros m' mm' [->|Hin]%elem_of_cons Hm'; [congruence|by apply (Hb m')].
      * intros m' mm' [->|Hin]%elem_of_cons Hm'; [congruence|by eapply Hr].
Qed.

(** ** The messages that are there *)

(** A message: its type is not negative, its length is that of its bytes, and
    it is not longer than [MSGMAX]. *)
Definition msg_fits (mm : msg) : Prop :=
  0 <= msg_type mm /\ msg_len mm = Z.of_nat (length (concat (msg_data mm))) /\ msg_len mm <= MSGMAX.

(** A sender inside a queue has passed the test of the length. *)
Definition small (th : thread) : Prop :=
  match th with
  | SndSleep _ a | SndWake _ a | SndAlloc _ a | SndCopy _ _ a => sa_sz a <= MSGMAX
  | _ => True
  end.

Definition fits (s : mstate) : Prop :=
  map_Forall (fun _ => msg_fits) (msgs s) /\ Forall small (threads s).

(** The mbufs of a message are all of one size, so that the total stops at the
    least multiple of it that reaches the length. *)
Definition xfer_of (len : Z) : Z :=
  if len >=? MINCLSIZE then Z.min len MCLBYTES else Z.min len MLEN.

Lemma mbuf_sizes_step k len tot :
  tot < len ->
  mbuf_sizes (S k) len tot = (sizes ← mbuf_sizes k len (tot + xfer_of len); Some (xfer_of len :: sizes)).
Proof. intros H. simpl. destruct (Z.ltb_spec tot len); [done|lia]. Qed.

Lemma mbuf_sizes_stop k len tot : len <= tot -> mbuf_sizes k len tot = Some [].
Proof. intros H. destruct k; simpl; (destruct (Z.ltb_spec tot len); [lia|done]). Qed.

Lemma mbuf_sizes_bound k len a b sizes :
  0 < xfer_of len -> mbuf_sizes k len (a * xfer_of len) = Some sizes ->
  a <= b -> len <= b * xfer_of len ->
  a * xfer_of len + foldr Z.add 0 sizes <= b * xfer_of len /\ Forall (fun n => 0 <= n) sizes.
Proof.
  intros Hx. revert a sizes. induction k as [|k IH]; intros a sizes E Hab Hb.
  - simpl in E. destruct (_ <? _); [done|]. injection E as <-. split; [simpl; nia|constructor].
  - destruct (Z.lt_ge_cases (a * xfer_of len) len) as [Hlt|Hge].
    + rewrite mbuf_sizes_step in E by done.
      replace (a * xfer_of len + xfer_of len) with ((a + 1) * xfer_of len) in E by lia.
      destruct (mbuf_sizes k len _) as [l|] eqn:El; [|done]. injection E as <-.
      destruct (IH (a + 1) l El) as [H1 H2]; [nia|done|]. simpl. split; [lia|].
      constructor; [lia|done].
    + rewrite mbuf_sizes_stop in E by done. injection E as <-. split; [simpl; nia|constructor].
Qed.

Lemma mbuf_sizes_max k len sizes :
  mbuf_sizes k len 0 = Some sizes -> len <= MSGMAX ->
  foldr Z.add 0 sizes <= MSGMAX /\ Forall (fun n => 0 <= n) sizes.
Proof.
  intros E Hm. destruct (Z.le_gt_cases len 0) as [Hl|Hl].
  { rewrite mbuf_sizes_stop in E by done. injection E as <-. done. }
  assert (Hb : exists b, 0 <= b /\ 0 < xfer_of len /\ len <= b * xfer_of len <= MSGMAX).
  { unfold xfer_of, MINCLSIZE, MCLBYTES, MLEN, MSGMAX in *. rewrite Z.geb_leb.
    destruct (Z.leb_spec 377 len); [exists (if 2048 <=? len then 8 else 1)|exists (if 224 <=? len then 2 else 1)];
      case_match; bool_to_prop; lia. }
  destruct Hb as (b & Hb0 & Hx & Hb & Hb').
  destruct (mbuf_sizes_bound k len 0 b sizes Hx) as [H1 H2]; [by rewrite Z.mul_0_l|done|done|].
  split; [lia|done].
Qed.

Lemma copyin_chain_length mem sizes chain :
  Forall (fun n => 0 <= n) sizes -> copyin_chain mem sizes = Some chain ->
  Z.of_nat (length (concat chain)) = foldr Z.add 0 sizes.
Proof.
  intros Hs. revert mem chain. induction Hs as [|n sizes Hn _ IH]; intros mem chain E; simpl in E.
  - injection E as <-. done.
  - destruct (Z.ltb_spec (Z.of_nat (length mem)) n); [done|].
    destruct (copyin_chain _ sizes) as [c|] eqn:Ec; [|done]. injection E as <-.
    simpl. rewrite length_app, length_take, <- (IH _ _ Ec). lia.
Qed.

Lemma copyin_fits a mm : msg_copyin a = inr mm -> sa_sz a <= MSGMAX -> msg_fits mm.
Proof.
  unfold msg_copyin. destruct (sa_type a) as [ty|]; [|done]. destruct (Z.ltb_spec ty 0); [done|].
  destruct (mbuf_sizes _ _ _) as [sizes|] eqn:Es; [|done].
  destruct (copyin_chain _ _) as [chain|] eqn:Ec; [|done]. intros [= <-] Hm.
  destruct (mbuf_sizes_max _ _ _ Es Hm) as [H1 H2]. unfold msg_fits. simpl.
  split; [lia|]. split; [|done]. symmetry. by eapply copyin_chain_length.
Qed.

Lemma copyout_no_panic mm word mem len : msg_fits mm -> is_Some (msg_copyout mm word mem len).
Proof.
  intros (_ & _ & Hl). unfold msg_copyout. rewrite Z.gtb_ltb. destruct (Z.ltb_spec MSGMAX (msg_len mm)); [lia|].
  destruct word; simpl; [|done]. by destruct (copyout_chain _ _).
Qed.

(** The result of a stretch of code, if it has one. *)
Definition fit (o : option mstate) : Prop := forall s', o = Some s' -> fits s'.

Create HintDb msgfit.

Lemma fit_ret s : fits s -> fit (Some s).
Proof. by intros H s' [= <-]. Qed.
Lemma fit_then o k : fit o -> (forall s, fits s -> fit (k s)) -> fit (o ≫= k).
Proof. intros Ho Hk s'. destruct o as [s|]; simpl; [|done]. apply Hk. by apply Ho. Qed.
Lemma fit_get {A} (o : option A) k : (forall x, o = Some x -> fit (k x)) -> fit (o ≫= k).
Proof. intros Hk. destruct o as [x|]; simpl; [by apply Hk|by intros s']. Qed.

Lemma fits_set t th s : fits s -> small th -> fits (set_thread t th s).
Proof. intros [H1 H2] Hth. split; [done|]. by apply Forall_insert. Qed.
Lemma fits_threads g s : fits s -> (forall th, small th -> small (g th)) -> fits (with_threads (g <$> threads s) s).
Proof.
  intros [H1 H2] Hg. split; [done|]. apply Forall_fmap. eapply Forall_impl; [exact H2|]. exact Hg.
Qed.
Lemma fits_wakeup q s : fits s -> fits (msg_wakeup q s).
Proof. intros H. apply fits_threads; [done|]. intros th. destruct th; simpl; try case_decide; done. Qed.
Lemma fits_wakeup_refs q s : fits s -> fits (wakeup_refs q s).
Proof. intros H. apply fits_threads; [done|]. intros th. destruct th; simpl; try case_decide; done. Qed.
Lemma fits_lookup s m mm : fits s -> msgs s !! m = Some mm -> msg_fits mm.
Proof. intros [H _] E. exact (H m mm E). Qed.
Lemma fits_thread s t th : fits s -> threads s !! t = Some th -> small th.
Proof. intros [_ H] E. by apply (Forall_lookup_1 _ _ t th H). Qed.
Lemma fits_same s s' : fits s -> msgs s' = msgs s -> threads s' = threads s -> fits s'.
Proof. intros [H1 H2] E1 E2. split; by rewrite ?E1, ?E2. Qed.
Lemma fits_insert s m mm n : fits s -> msg_fits mm -> fits (with_msgs (<[m := mm]> (msgs s)) n s).
Proof. intros [H1 H2] Hm. split; [|done]. simpl. by apply map_Forall_insert_2. Qed.
#[export] Hint Resolve fits_set fits_wakeup fits_wakeup_refs fits_insert : msgfit.
#[export] Hint Extern 1 (fits (with_ques _ _)) => (eapply fits_same; [|reflexivity|reflexivity]) : msgfit.
#[export] Hint Extern 1 (fits (with_maxmsgs _ _)) => (eapply fits_same; [|reflexivity|reflexivity]) : msgfit.
#[export] Hint Extern 1 (fits (with_list _ _)) => (eapply fits_same; [|reflexivity|reflexivity]) : msgfit.
#[export] Hint Extern 1 (fits (with_num_ques _ _)) => (eapply fits_same; [|reflexivity|reflexivity]) : msgfit.
#[export] Hint Extern 1 (fits (if _ then _ else _)) => case_match : msgfit.
#[export] Hint Extern 1 (small _) => (exact I || assumption) : msgfit.

Lemma fit_upd q f s : fits s -> fit (upd_que q f s).
Proof. intros H. apply fit_get. intros qq _. apply fit_ret. by eapply fits_same. Qed.
#[export] Hint Resolve fit_upd fit_ret : msgfit.

(** Through the body of a function: what is looked up is there, each call
    keeps the property, and the thread is left at a point it may be at. *)
Ltac fit_step :=
  match goal with
  | |- fit (ques _ !! _ ≫= _) => apply fit_get; intros ? ?
  | |- fit (msgs _ !! _ ≫= _) => apply fit_get; intros ? ?
  | |- fit (_ ≫= _) => apply fit_then; [|intros ? ?]
  | |- fit (if ?b then _ else _) => destruct b eqn:?
  | |- fit (let _ := _ in _) => cbv zeta
  | |- fit None => intros ? ?; discriminate
  | |- fit _ => solve [eauto 8 with msgfit]
  end.
Ltac fit_body := repeat fit_step.

Lemma fit_QREF q s : fits s -> fit (QREF q s).
Proof. apply fit_upd. Qed.
Lemma fit_out t q r s : fits s -> fit (out_rele t q r s).
Proof. intros H. unfold out_rele, QRELE. fit_body. Qed.
Lemma fit_free m s : fits s -> fit (msg_free m s).
Proof.
  intros [H1 H2]. unfold msg_free. fit_step. apply fit_ret. split; [|done]. by apply map_Forall_delete.
Qed.
#[export] Hint Resolve fit_QREF fit_out fit_free : msgfit.

Lemma fit_free_msgs l s : fits s -> fit (free_msgs l s).
Proof. revert s. induction l as [|m l IH]; intros s H; simpl; fit_body. Qed.
Lemma fit_wake_writers l s : fits s -> fit (wake_writers l s).
Proof. revert s. induction l as [|q l IH]; intros s H; simpl; fit_body. Qed.
#[export] Hint Resolve fit_free_msgs fit_wake_writers : msgfit.
Lemma fit_que_free q s : fits s -> fit (que_free q s).
Proof. intros H. unfold que_free. fit_body. Qed.
Lemma fit_enqueue q m pid s : fits s -> fit (msg_enqueue q m pid s).
Proof. intros H. unfold msg_enqueue. fit_body. Qed.
Lemma fit_dequeue q m pid s : fits s -> fit (msg_dequeue q m pid s).
Proof. intros H. unfold msg_dequeue. fit_body. Qed.
#[export] Hint Resolve fit_que_free fit_enqueue fit_dequeue : msgfit.

Lemma fit_snd_test t q a s : fits s -> sa_sz a <= MSGMAX -> fit (msgsnd_test t q a s).
Proof. intros H Ha. unfold msgsnd_test. fit_body. Qed.
Lemma fit_snd_wake t q a e s : fits s -> sa_sz a <= MSGMAX -> fit (msgsnd_wake t q a e s).
Proof. intros H Ha. pose proof fit_snd_test. unfold msgsnd_wake. fit_body. Qed.
Lemma fit_snd_alloc t q a s : fits s -> sa_sz a <= MSGMAX -> fit (msgsnd_alloc t q a s).
Proof.
  intros H Ha. unfold msgsnd_alloc, msg_create. destruct (ques s !! q) as [qq|]; simpl; [|by intros s'].
  destruct (has _ _); simpl; [fit_body|]. apply fit_ret, fits_set; [|done].
  apply (fits_insert (with_next s)); [by eapply fits_same|]. by repeat split.
Qed.
Lemma fit_snd_copy t q m a s : fits s -> sa_sz a <= MSGMAX -> fit (msgsnd_copy t q m a s).
Proof.
  intros H Ha. unfold msgsnd_copy. fit_step. destruct (msg_copyin a) as [e|mm] eqn:E; [fit_body|].
  pose proof (copyin_fits _ _ E Ha). fit_body.
Qed.
Lemma fit_rcv_finish t q m a s : fits s -> fit (msgrcv_finish t q m a s).
Proof.
  intros H. unfold msgrcv_finish, que_wakewriters. fit_step. apply fit_get. intros [e|[len mem]] _; fit_body.
Qed.
#[export] Hint Resolve fit_rcv_finish : msgfit.
Lemma fit_rcv_test paged t q a s : fits s -> fit (msgrcv_test paged t q a s).
Proof. intros H. unfold msgrcv_test. fit_step. apply fit_get. intros [m|] _; fit_body. Qed.
#[export] Hint Resolve fit_rcv_test : msgfit.
Lemma fit_rcv_wake paged t q a e s : fits s -> fit (msgrcv_wake paged t q a e s).
Proof. intros H. unfold msgrcv_wake. fit_body. Qed.
Lemma fit_rmid t q s : fits s -> fit (rmid_free t q s).
Proof. intros H. unfold rmid_free. fit_body. Qed.
#[export] Hint Resolve fit_rmid : msgfit.
Lemma fit_get_try t cred k flg s : fits s -> fit (msgget_try t cred k flg s).
Proof. intros H. unfold msgget_try. apply fit_get. intros [q|] _; fit_body. Qed.
#[export] Hint Resolve fit_get_try : msgfit.
Lemma fit_get_create t cred k flg s : fits s -> fit (msgget_create t cred k flg s).
Proof.
  intros H. unfold msgget_create, que_create. destruct (que_key_lookup k s) as [[q|]|]; simpl; [fit_body| |by intros s'].
  destruct (que_place _ _ _) as [[[ix b] c]|]; simpl; [|by intros s']. rewrite lookup_insert_eq. simpl.
  apply fit_ret, fits_set; [|done]. by eapply fits_same.
Qed.
Lemma fit_ctl_set t q cred tmp s : fits s -> fit (msgctl_set t q cred tmp s).
Proof. intros H. unfold msgctl_set. destruct tmp as [e|tmp]; fit_body. Qed.
Lemma fit_ctl t cred id cmd tmp ce s : fits s -> fit (msgctl1 t cred id cmd tmp ce s).
Proof. intros H. unfold msgctl1. apply fit_get. intros [q|] _; fit_body. Qed.

Lemma fit_call paged t c s : fits s -> fit (call paged t c s).
Proof.
  intros H. destruct c as [cred k flg|id a|id a|cred id cmd tmp ce]; simpl.
  - by apply fit_get_try.
  - unfold sys_msgsnd. apply fit_get. intros [q|] _; [|fit_body]. fit_step.
    destruct (_ || _) eqn:E; [fit_body|]. fit_body.
    apply fit_snd_test; [done|]. apply orb_false_iff in E as [_ E]. rewrite Z.gtb_ltb in E.
    apply Z.ltb_ge in E. done.
  - unfold sys_msgrcv. apply fit_get. intros [q|] _; fit_body.
  - by apply fit_ctl.
Qed.

Lemma fit_resume paged t e s : fits s -> fit (resume paged t e s).
Proof.
  intros H. unfold resume. destruct (threads s !! t) as [th|] eqn:Ht; [|by apply fit_ret].
  pose proof (fits_thread _ _ _ H Ht) as Hs.
  destruct th; simpl in Hs; eauto using fit_get_create, fit_snd_wake, fit_snd_alloc, fit_snd_copy,
    fit_rcv_wake, fit_ctl_set with msgfit.
Qed.

Section Steps.
Context (t : nat).
Implicit Types s : mstate.
Abbreviation at_ := (at_ t).

(** The result of a stretch of code: it does not fault and keeps the invariant. *)
Definition safe (o : option mstate) : Prop := exists s', o = Some s' /\ msg_ok s'.

Lemma safe_out th s q r : at_ th s -> inside th = Some q -> carried th = [] -> safe (out_rele t q r s).
Proof. apply at_out. Qed.

Lemma safe_user th s r :
  at_ th s -> inside th = None -> removing th = None -> carried th = [] ->
  safe (Some (set_thread t (User (Some r)) s)).
Proof. intros Hat Hi Hr Hc. eexists. split; [done|]. by apply (at_move t th (User (Some r))). Qed.

Lemma at_alive th s q :
  at_ th s -> inside th = Some q -> exists qq, ques s !! q = Some qq.
Proof. intros Hat Hi. exact (inside_alive _ _ _ (at_thread _ _ _ Hat) Hi). Qed.

Lemma msgsnd_test_safe s q qq a :
  at_ (SndWake q a) s -> ques s !! q = Some qq -> dying qq = false -> safe (msgsnd_test t q a s).
Proof.
  intros Hat Hq Hd. unfold msgsnd_test. rewrite Hq. simpl.
  destruct (_ || _);
    [|eexists; split; [done|]; apply (at_move t (SndWake q a) (SndAlloc q a)); simpl; by rewrite ?Hq].
  destruct (has (sa_flg a) IPC_NOWAIT); [by eapply safe_out|].
  set (s0 := if num_msgs s >=? MSGTQL then with_maxmsgs 1 s else s).
  assert (Hat0 : at_ (SndWake q a) s0)
    by (unfold s0; destruct (num_msgs s >=? MSGTQL); [by eapply at_ext|done]).
  assert (Hq0 : ques s0 !! q = Some qq) by (unfold s0; by destruct (num_msgs s >=? MSGTQL)).
  destruct (flags_spec (que_flags qq)) as (F1 & _ & _ & F4 & _ & F6 & _).
  destruct (at_sleep t (SndWake q a) (SndSleep q a) s0 q qq (set_flag (que_flags qq) MSGQ_WRITERS))
    as (s' & -> & Hok'); try done.
  - by rewrite F4.
  - simpl. rewrite lookup_insert_eq. eexists. split; [done|]. unfold dying in *. simpl. by rewrite F6.
  - simpl. by eexists.
Qed.

Lemma msgsnd_wake_safe s q a e th :
  at_ th s -> inside th = Some q -> carried th = [] ->
  (e = 0 -> th = SndWake q a) -> safe (msgsnd_wake t q a e s).
Proof.
  intros Hat Hi Hc Hth. unfold msgsnd_wake. destruct (Z.eqb_spec e 0) as [E|]; simpl;
    [|by eapply safe_out]. rewrite (Hth E) in *. destruct (at_alive _ _ _ Hat Hi) as [qq Hq]. rewrite Hq. simpl.
  destruct (has (que_flags qq) MSGQ_DYING) eqn:Ed; [by eapply safe_out|]. by eapply msgsnd_test_safe.
Qed.

Lemma msgsnd_alloc_safe s q a : at_ (SndAlloc q a) s -> safe (msgsnd_alloc t q a s).
Proof.
  intros Hat. destruct (at_alive _ _ _ Hat eq_refl) as [qq Hq]. unfold msgsnd_alloc.
  destruct (dying qq) eqn:Ed.
  - unfold msg_create. rewrite Hq. simpl. unfold dying in Ed. rewrite Ed. simpl.
    eapply safe_out; [eapply (at_wakeup t (SndAlloc q a))|done|done]; done.
  - destruct (at_create t (SndAlloc q a) s q qq a) as (s' & -> & Hat'); try done. simpl.
    eexists. split; [done|]. by apply Hat'.
Qed.

Lemma msgsnd_copy_safe s q m a : at_ (SndCopy q m a) s -> safe (msgsnd_copy t q m a s).
Proof.
  intros Hat. destruct (at_alive _ _ _ Hat eq_refl) as [qq Hq]. unfold msgsnd_copy.
  destruct (msgs_owned _ _ _ _ _ Hat Hq) as (_ & Hex & _). destruct (Hex m) as [mm0 Hm]; [set_solver|].
  rewrite Hm. simpl. destruct (msg_copyin a) as [e|mm].
  - destruct (at_free t s q m a Hat) as (s' & -> & Hat'). simpl. by eapply safe_out.
  - destruct (at_enqueue t s q qq m a mm (sa_pid a) Hat Hq) as (s1 & -> & Hat1 & Hq1 & _). simpl.
    rewrite Hq1. simpl.
    assert (Hrest : forall s2, at_ (SndWake q a) s2 -> is_Some (ques s2 !! q) ->
      safe (qq ← ques s2 !! q;
        if has (que_flags qq) MSGQ_DYING then out_rele t q (err EIDRM) (msg_wakeup q s2)
        else out_rele t q (err 0) s2)).
    { intros s2 Hat2 [qq2 Hq2]. rewrite Hq2. simpl.
      destruct (has (que_flags qq2) MSGQ_DYING); [|by eapply safe_out].
      eapply safe_out; [eapply (at_wakeup t (SndWake q a))|done|done]; done. }
    destruct (has (que_flags qq) MSGQ_READERS).
    + destruct (at_flags_wake t (SndWake q a) s1 q _ (clr_flag (que_flags qq) MSGQ_READERS) Hat1 I Hq1)
        as (s2 & -> & Hat2 & Hq2 & _); [apply flags_spec|]. refine (Hrest (msg_wakeup q s2) Hat2 _).
      simpl. rewrite Hq2. by rewrite lookup_insert_eq.
    + refine (Hrest s1 Hat1 _). by rewrite Hq1.
Qed.

Lemma msgrcv_finish_safe s q qq m a :
  at_ (RcvWake q a) s -> fits s -> ques s !! q = Some qq -> m ∈ que_msgs qq -> safe (msgrcv_finish t q m a s).
Proof.
  intros Hat Hft Hq Hm. unfold msgrcv_finish.
  destruct (msgs_owned _ _ _ _ _ Hat Hq) as (_ & Hex & _). destruct (Hex m) as [mm Hmm]; [set_solver|].
  rewrite Hmm. simpl. destruct (copyout_no_panic mm (ra_word a) (ra_mem a) (ra_sz a)) as [res ->];
    [by eapply fits_lookup|]. simpl. destruct res as [e|[len mem]]; [by eapply safe_out|].
  destruct (at_dequeue t (RcvWake q a) s q qq m mm (ra_pid a)) as
    (s1 & s2 & -> & E2 & Hat2 & Hq2 & _ & _ & Hl2 & _); try done. simpl. rewrite E2. simpl. rewrite Hq2. simpl.
  assert (Hrest : forall s3, at_ (RcvWake q a) s3 ->
    safe (s4 ← (if negb (maxmsgs s3 =? 0) then que_wakewriters (with_maxmsgs 0 s3) else Some s3);
      out_rele t q (mkRet 0 len (Some (msg_type mm)) mem) s4)).
  { intros s3 Hat3. destruct (negb (maxmsgs s3 =? 0)); simpl; [|by eapply safe_out].
    assert (Hat3' : at_ (RcvWake q a) (with_maxmsgs 0 s3)) by (by eapply at_ext).
    destruct (at_wake_writers t (RcvWake q a) (msg_queues s3) (with_maxmsgs 0 s3) Hat3' I)
      as (s4 & E4 & Hat4 & _).
    { apply (mo_list _ (proj2 Hat3)). }
    unfold que_wakewriters. simpl msg_queues. rewrite E4. simpl. by eapply safe_out. }
  destruct (has (que_flags qq) MSGQ_WRITERS).
  - destruct (at_flags_wake t (RcvWake q a) s2 q _ (clr_flag (que_flags qq) MSGQ_WRITERS) Hat2 I Hq2)
      as (s3 & -> & Hat3 & _); [apply flags_spec|]. exact (Hrest _ Hat3).
  - exact (Hrest _ Hat2).
Qed.

Lemma msgrcv_test_safe s q qq a :
  at_ (RcvWake q a) s -> fits s -> ques s !! q = Some qq -> dying qq = false -> safe (msgrcv_test false t q a s).
Proof.
  intros Hat Hft Hq Hd. unfold msgrcv_test, msg_lookup. rewrite Hq. simpl.
  destruct (msgs_owned _ _ _ _ _ Hat Hq) as (_ & Hex & _).
  destruct (msg_find_spec (msg_match (sint 32 (ra_typ a))) (msgs s) (que_msgs qq)) as (r & -> & Hr).
  { intros m Hm. apply Hex. set_solver. }
  simpl. destruct r as [m|].
  - destruct Hr as (b & c & mm & El & _). eapply msgrcv_finish_safe; try done. rewrite El. set_solver.
  - destruct (has (ra_flg a) IPC_NOWAIT); [by eapply safe_out|].
    destruct (flags_spec (que_flags qq)) as (_ & F2 & _ & _ & F5 & _ & F7 & _).
    destruct (at_sleep t (RcvWake q a) (RcvSleep q a) s q qq (set_flag (que_flags qq) MSGQ_READERS))
      as (s' & -> & Hok'); try done.
    + by rewrite F5.
    + simpl. rewrite lookup_insert_eq. eexists. split; [done|]. unfold dying in *. simpl. by rewrite F7.
    + simpl. by eexists.
Qed.

Lemma msgrcv_wake_safe s q a e th :
  at_ th s -> fits s -> inside th = Some q -> carried th = [] ->
  (e = 0 -> th = RcvWake q a) -> safe (msgrcv_wake false t q a e s).
Proof.
  intros Hat Hft Hi Hc Hth. unfold msgrcv_wake. destruct (Z.eqb_spec e 0) as [E|]; simpl;
    [|by eapply safe_out]. rewrite (Hth E) in *. destruct (at_alive _ _ _ Hat Hi) as [qq Hq]. rewrite Hq. simpl.
  destruct (has (que_flags qq) MSGQ_DYING) eqn:Ed; [by eapply safe_out|]. by eapply msgrcv_test_safe.
Qed.

Lemma rmid_free_safe s q : at_ (RmWake q) s -> safe (rmid_free t q s).
Proof.
  intros Hat. destruct (at_que_free t s q Hat) as (s' & E & Hat' & _). unfold rmid_free. rewrite E. simpl.
  by eapply safe_user.
Qed.

Lemma msgctl_set_safe s q cred tmp : at_ (SetCopy q cred tmp) s -> safe (msgctl_set t q cred tmp s).
Proof.
  intros Hat. destruct (at_alive _ _ _ Hat eq_refl) as [qq Hq]. unfold msgctl_set.
  destruct tmp as [e|tmp]; [by eapply safe_out|]. rewrite Hq. simpl.
  destruct (_ && _); [by eapply safe_out|].
  set (qb := if msg_qbytes tmp >? MSGMNB then MSGMNB else msg_qbytes tmp).
  destruct (qb =? 0); [by eapply safe_out|].
  unfold upd_que. rewrite Hq. simpl.
  eapply (safe_out (SetCopy q cred (inr tmp))); [|done|done]. destruct Hat as [Hlt Hok]. split; [done|].
  rewrite <- (threads_self (with_ques _ s)). simpl threads.
  apply (que_update s t (SetCopy q cred (inr tmp)) (SetCopy q cred (inr tmp)) q qq _ id); try done; simpl.
  - lia.
  - by rewrite lookup_insert_eq.
  - intros t' x _ _ Hxo. by apply (thread_keep _ _ qq).
Qed.

(** [msgget] up to the allocation. *)
Lemma msgget_try_safe th s cred k flg :
  at_ th s -> inside th = None -> removing th = None -> carried th = [] ->
  safe (msgget_try t cred k flg s).
Proof.
  intros Hat Hi Hr Hc. unfold msgget_try, que_key_lookup.
  assert (Hu : forall r, safe (Some (set_thread t (User (Some r)) s))) by (intros r; by eapply safe_user).
  assert (Ha : safe (if num_ques s >=? MSGMNI then Some (set_thread t (User (Some (err ENOSPC))) s)
    else Some (set_thread t (GetAlloc cred k flg) s))).
  { destruct (num_ques s >=? MSGMNI); [apply Hu|].
    eexists. split; [done|]. by apply (at_move t th (GetAlloc cred k flg)). }
  destruct (k =? IPC_PRIVATE); [done|].
  destruct (que_find_spec (fun qq => key (msg_perm (q_ds qq)) =? k) (set_thread t th s) (proj2 Hat))
    as (r & E & Hr'). simpl in E. rewrite E. simpl.
  destruct r as [q|]; [|destruct (negb (has flg IPC_CREAT)); [apply Hu|done]].
  destruct Hr' as (qq & _ & Hq & _). simpl in Hq. rewrite Hq. simpl.
  destruct (_ && _); [apply Hu|]. destruct (negb _); apply Hu.
Qed.

Lemma msgget_create_safe s cred k flg :
  at_ (GetAlloc cred k flg) s -> safe (msgget_create t cred k flg s).
Proof.
  intros Hat. unfold msgget_create.
  destruct (at_que_create t _ s k cred (Z.land flg 511) Hat) as (r & s' & -> & Hr). simpl.
  destruct r as [q|].
  - destruct Hr as (Hat' & qq & Hq & _). rewrite Hq, lookup_insert_eq. simpl. by eapply safe_user.
  - destruct Hr as (-> & _). by eapply msgget_try_safe.
Qed.

(** What follows a lookup by identifier. *)
Lemma with_lookup th s msqid (f : option nat -> option mstate) :
  at_ th s ->
  safe (f None) ->
  (forall q qq, ques s !! q = Some qq -> dying qq = false -> safe (f (Some q))) ->
  safe (found ← que_lookup msqid s; f found).
Proof.
  intros [_ Hok] Hn Hs. unfold que_lookup.
  destruct (que_find_spec (fun qq => que_ix qq =? IPCID_TO_IX msqid) (set_thread t th s) Hok)
    as (r & E & Hr). simpl in E. rewrite E. simpl. destruct r as [q|]; [|done].
  destruct Hr as (qq & _ & Hq & _ & Hd). by eapply Hs.
Qed.

Lemma sys_msgsnd_safe r0 s msqid a : at_ (User r0) s -> safe (sys_msgsnd t msqid a s).
Proof.
  intros Hat. apply (with_lookup _ _ _ (fun found => _) Hat); [by eapply safe_user|].
  intros q qq Hq Hd. rewrite Hq. simpl. destruct (_ || _); [by eapply safe_user|].
  destruct (negb _); [by eapply safe_user|].
  destruct (at_QREF t (User r0) (SndWake q a) s q qq) as (s' & -> & Hat' & Hq' & _); try done.
  { intros qq'. simpl. by rewrite lookup_insert_eq. }
  simpl. by eapply msgsnd_test_safe.
Qed.

Lemma sys_msgrcv_safe r0 s msqid a : at_ (User r0) s -> fits s -> safe (sys_msgrcv false t msqid a s).
Proof.
  intros Hat Hft. apply (with_lookup _ _ _ (fun found => _) Hat); [by eapply safe_user|].
  intros q qq Hq Hd. rewrite Hq. simpl. destruct (negb _); [by eapply safe_user|].
  destruct (at_QREF t (User r0) (RcvWake q a) s q qq) as (s' & -> & Hat' & Hq' & Et & _ & Em & _); try done.
  { intros qq'. simpl. by rewrite lookup_insert_eq. }
  simpl. eapply msgrcv_test_safe; try done. by eapply fits_same.
Qed.

Lemma wake_dying h q qq' x :
  thread_ok h x -> removing x <> Some q -> thread_ok (<[q := qq']> h) (wake_que q x).
Proof.
  intros Hx Hr.
  assert (Hs : forall r, is_Some (h !! r) -> is_Some (<[q := qq']> h !! r)).
  { intros r Hr'. destruct (decide (r = q)) as [->|]; [by rewrite lookup_insert_eq|].
    by rewrite lookup_insert_ne. }
  destruct x as [| |r|r|r|r|r|r|r|r|r|r|r]; simpl in *; auto.
  1,2: case_decide as Hrq; [subst r; simpl; by rewrite lookup_insert_eq|simpl; by rewrite lookup_insert_ne].
  all: rewrite lookup_insert_ne by congruence; done.
Qed.

Lemma thread_elsewhere h q qq' x :
  thread_ok h x -> inside x <> Some q -> removing x <> Some q -> thread_ok (<[q := qq']> h) x.
Proof.
  intros Hx Hi Hr. destruct x as [| |r|r|r|r|r|r|r|r|r|r|r]; simpl in *; auto;
    rewrite lookup_insert_ne by congruence; done.
Qed.

(** [IPC_RMID] once the caller holds a reference. *)
Lemma rmid_safe th s q qq :
  at_ th s -> inside th = Some q -> carried th = [] -> ques s !! q = Some qq -> dying qq = false ->
  safe (s ← upd_que q (fun qq => q_with_refs (que_references qq - 1)
              (q_with_flags (set_flag (que_flags qq) MSGQ_DYING) qq))
            (with_list (filter (fun q' => q' <> q) (msg_queues s)) s);
        if que_references qq - 1 >? 0 then Some (set_thread t (RmSleep q) (msg_wakeup q s))
        else rmid_free t q s).
Proof.
  intros Hat Hi Hc Hq Hd. unfold upd_que. simpl. rewrite Hq. simpl.
  pose proof Hat as [Hlt Hok].
  assert (Hno : forall t' x, t' <> t -> threads s !! t' = Some x -> removing x <> Some q).
  { intros t' x Hne Hx. eapply (not_removing (set_thread t th s) t q qq t' x); try done.
    simpl. by rewrite list_lookup_insert_ne. }
  rewrite Z.gtb_ltb. destruct (Z.ltb_spec 0 (que_references qq - 1)) as [Hlt0|Hge].
  - eexists. split; [reflexivity|]. eapply (rm_update t th (RmSleep q) s q qq (wake_que q)); try done.
    + apply wake_que_keeps.
    + simpl. rewrite lookup_insert_eq. by eexists.
    + intros t' x Hne Hx Hxo. apply wake_dying; [done|by eapply Hno].
  - apply rmid_free_safe. split; [done|]. rewrite <- (threads_self (with_ques _ _)). simpl threads.
    assert (Hone : que_references qq = 1).
    { pose proof (inside_refs (set_thread t th s) t th q qq Hok (threads_set _ _ _ Hlt) Hi Hq). lia. }
    apply (rm_update t th (RmWake q) s q qq id); try done.
    + simpl. rewrite lookup_insert_eq. eexists. split; [done|]. simpl. lia.
    + intros t' x Hne Hx Hxo. apply thread_elsewhere; [done| |by eapply Hno]. intros Hix.
      pose proof (qo_refs _ _ _ (mo_que _ Hok q qq Hq)) as Hrf. simpl in Hrf.
      pose proof (lookup_lt_is_Some_2 _ _ Hlt) as [th0 Hth0].
      assert (Hx' : <[t := User None]> (threads s) !! t' = Some x) by (by rewrite list_lookup_insert_ne).
      pose proof (tsum_pos (fun th => ind (inside th) q) _ t' x (fun th => ind_nonneg _ _) Hx') as Hp.
      fold (holders q (<[t := User None]> (threads s))) in Hp.
      rewrite (holders_set _ _ _ _ _ Hth0) in Hp. rewrite (holders_set _ _ _ _ _ Hth0) in Hrf. simpl in *.
      rewrite Hix, Hi, ?ind_some, ?(decide_True (P := q = q)), ?ind_none in * by done. lia.
Qed.

Lemma msgctl1_safe r0 s cred msqid cmd tmp ce : at_ (User r0) s -> safe (msgctl1 t cred msqid cmd tmp ce s).
Proof.
  intros Hat. apply (with_lookup _ _ _ (fun found => _) Hat); [by eapply safe_user|].
  intros q qq Hq Hd. set (th := SetCopy q cred tmp).
  destruct (at_QREF t (User r0) th s q qq) as (s' & -> & Hat' & Hq' & _ & El & _); try done.
  { intros qq'. simpl. by rewrite lookup_insert_eq. }
  simpl mbind. rewrite Hq'. simpl mbind.
  destruct (cmd =? IPC_RMID).
  { destruct (negb _); [by eapply safe_out|]. exact (rmid_safe th s' q _ Hat' eq_refl eq_refl Hq' Hd). }
  destruct (cmd =? IPC_SET).
  { destruct (negb _); [by eapply safe_out|]. eexists. split; [done|]. by apply Hat'. }
  destruct (cmd =? IPC_STAT); [|by eapply safe_out].
  destruct (negb _); [by eapply safe_out|]. eexists. split; [done|].
  apply (at_move t th (StatCopy q ce)); try done. simpl. by rewrite Hq'.
Qed.
End Steps.

(** ** All interleavings *)

(** A thread that can go on: a sleeper only when a signal ends its sleep. *)
Definition runnable (th : thread) (e : Z) : Prop :=
  match th with
  | User _ | RmSleep _ => False
  | SndSleep _ _ | RcvSleep _ _ => e <> 0
  | _ => True
  end.

(** One step of the system: a thread makes a call, a thread in a call goes
    on, or time passes.  [None] is a fault. *)
Inductive mstep (paged : bool) : mstate -> option mstate -> Prop :=
| ms_call s t r c : threads s !! t = Some (User r) -> mstep paged s (call paged t c s)
| ms_resume s t th e : threads s !! t = Some th -> runnable th e -> mstep paged s (resume paged t e s)
| ms_time s n : mstep paged s (Some (mkM (ques s) (msgs s) (next_addr s) (msg_queues s) (num_ques s)
    (num_msgs s) (sequence s) (maxmsgs s) n (threads s))).

Inductive mreach (paged : bool) (s0 : mstate) : mstate -> Prop :=
| mr_refl : mreach paged s0 s0
| mr_step s s' : mreach paged s0 s -> mstep paged s (Some s') -> mreach paged s0 s'.

Lemma msginit_ok now n : msg_ok (msginit now n).
Proof.
  assert (Hz : forall f, (forall r, f (User r) = 0) -> tsum f (replicate n (User None)) = 0).
  { intros f Hf. apply tsum_zero. intros t th Ht. apply lookup_replicate in Ht as [-> _]. apply Hf. }
  constructor; simpl.
  - intros q qq Hq. by rewrite lookup_empty in Hq.
  - intros t th Ht. apply lookup_replicate in Ht as [-> _]. done.
  - split; [constructor|]. intros q Hq. by apply elem_of_nil in Hq.
  - constructor.
  - intros q qq Hq. by rewrite lookup_empty in Hq.
  - unfold queued. rewrite map_to_list_empty, dom_empty_L, elements_empty. simpl.
    clear Hz. by induction n.
  - done.
  - done.
  - intros a [[x Hx]|[x Hx]]; by rewrite lookup_empty in Hx.
Qed.

Lemma mstep_safe s o : msg_ok s -> fits s -> mstep false s o -> safe o.
Proof.
  intros Hok Hft Hst. destruct Hst as [s t r c Ht|s t th e Ht Hr|s n].
  - pose proof (at_intro t _ _ Hok Ht) as Hat. destruct c as [cred k flg|id a|id a|cred id cmd tmp ce]; simpl.
    + by eapply msgget_try_safe.
    + by eapply sys_msgsnd_safe.
    + by eapply sys_msgrcv_safe.
    + by eapply msgctl1_safe.
  - pose proof (at_intro t _ _ Hok Ht) as Hat. unfold resume. rewrite Ht.
    destruct th as [r|cred k flg|q a|q a|q a|q m a|q a|q a|q m a|q|q|q cred tmp|q e']; simpl in Hr; try done.
    + by apply msgget_create_safe.
    + by eapply msgsnd_wake_safe.
    + by eapply msgsnd_wake_safe.
    + by apply msgsnd_alloc_safe.
    + by apply msgsnd_copy_safe.
    + by eapply msgrcv_wake_safe.
    + by eapply msgrcv_wake_safe.
    + by destruct (at_thread _ _ _ Hat).
    + by apply rmid_free_safe.
    + by apply msgctl_set_safe.
    + by eapply safe_out.
  - eexists. split; [done|]. destruct Hok as [H1 H2 H3 H4 H5 H6 H7 H8 H9]. constructor; simpl; try done.
    intros q qq Hq. destruct (H1 q qq Hq). by constructor.
Qed.

Lemma mstep_fits paged s s' : fits s -> mstep paged s (Some s') -> fits s'.
Proof.
  intros Hf Hst. remember (Some s') as o eqn:E. destruct Hst as [s t r c Ht|s t th e Ht Hr|s n].
  - by apply (fit_call paged t c s).
  - by apply (fit_resume paged t e s).
  - injection E as <-. by eapply fits_same.
Qed.

Lemma mreach_ok now n s : mreach false (msginit now n) s -> msg_ok s /\ fits s.
Proof.
  induction 1 as [|s s' _ [IH1 IH2] Hst].
  - split; [apply msginit_ok|]. split; [apply map_Forall_empty|]. by apply Forall_replicate.
  - destruct (mstep_safe s (Some s') IH1 IH2 Hst) as (s1 & [= <-] & Hok). split; [done|].
    by eapply mstep_fits.
Qed.

(** C6: message queues, any interleaving.  In every state that any calls of
    any number of threads can lead to, when [copyout] does not sleep: the
    references of a queue are the threads inside it, a removed queue is off
    the list and has exactly one thread that frees it, and that thread sleeps
    exactly while there are others inside; every message is on one queue or in
    the hands of one sender; the byte and message counts of the queues,
    [num_ques] and [num_msgs] are exact, and the indexes of the list increase;
    and every message has a type that is not negative and at most [MSGMAX]
    bytes, as many as its length says.  No step ever touches a queue or a
    message that was freed, nor panics in [que_free] or [msg_copyout]. *)
Theorem msg_invariant now n s :
  mreach false (msginit now n) s ->
  msg_ok s /\ map_Forall (fun _ => msg_fits) (msgs s) /\ forall o, mstep false s o -> exists s', o = Some s'.
Proof.
  intros Hr. destruct (mreach_ok now n s Hr) as [Hok Hft]. split; [done|]. split; [apply Hft|].
  intros o Hst. destruct (mstep_safe s o Hok Hft Hst) as (s' & -> & _). by exists s'.
Qed.
