(* ===== verification/MsgData.v ===== *)
(** * System V messages: what is sent is what is received

    The functional behaviour of [msgsnd] and [msgrcv], and the cases in which
    the code departs from its documentation. *)

From stdpp Require Import base numbers list option gmap.
From Stdlib Require Import ZArith Lia Bool Sorted.
From S2P Require Import Prelude Sem Msg MsgFacts MsgOps MsgQue MsgSys.

(** ** Copying *)

(** The lengths a single mbuf, or a single cluster, holds. *)
Definition one_mbuf (len : Z) : Prop := 0 <= len <= MLEN \/ MINCLSIZE <= len <= MCLBYTES.

(** The bytes [msg_copyin] takes for a message of up to [MCLBYTES] bytes: its
    length, except that from 225 to 376 bytes it fills two mbufs. *)
Definition stored (len : Z) : Z := if (MLEN <? len) && (len <? MINCLSIZE) then 2 * MLEN else len.

Lemma stored_one len : one_mbuf len -> stored len = len.
Proof.
  unfold one_mbuf, stored. intros H. destruct (Z.ltb_spec MLEN len), (Z.ltb_spec len MINCLSIZE); simpl; lia.
Qed.

Lemma mbuf_sizes_stored len :
  0 <= len <= MCLBYTES ->
  exists sizes, mbuf_sizes (Z.to_nat len) len 0 = Some sizes /\ foldr Z.add 0 sizes = stored len.
Proof.
  intros Hl. destruct (Z.eq_dec len 0) as [->|Hne]; [by exists []|].
  destruct (Z.to_nat len) as [|n] eqn:En; [lia|].
  rewrite mbuf_sizes_step by lia.
  unfold stored, MLEN, MINCLSIZE, MCLBYTES in *.
  destruct (Z.ltb_spec 224 len), (Z.ltb_spec len 377); cbn [andb].
  - assert (Hx : xfer_of len = 224) by (unfold xfer_of, MLEN, MINCLSIZE, MCLBYTES; rewrite Z.geb_leb;
      destruct (Z.leb_spec 377 len); lia).
    destruct n as [|n]; [lia|]. rewrite mbuf_sizes_step, Hx, mbuf_sizes_stop by lia. by eexists.
  - assert (Hx : xfer_of len = len) by (unfold xfer_of, MLEN, MINCLSIZE, MCLBYTES; rewrite Z.geb_leb;
      destruct (Z.leb_spec 377 len); lia).
    rewrite Hx, mbuf_sizes_stop by lia. eexists. split; [done|]. simpl. lia.
  - assert (Hx : xfer_of len = len) by (unfold xfer_of, MLEN, MINCLSIZE, MCLBYTES; rewrite Z.geb_leb;
      destruct (Z.leb_spec 377 len); lia).
    rewrite Hx, mbuf_sizes_stop by lia. eexists. split; [done|]. simpl. lia.
  - lia.
Qed.

Lemma copyin_chain_spec mem sizes :
  Forall (fun n => 0 <= n) sizes ->
  if foldr Z.add 0 sizes <=? Z.of_nat (length mem) then
    exists chain, copyin_chain mem sizes = Some chain /\
      concat chain = take (Z.to_nat (foldr Z.add 0 sizes)) mem
  else copyin_chain mem sizes = None.
Proof.
  intros Hs. revert mem. induction Hs as [|n sizes Hn Hs IH]; intros mem; simpl.
  - destruct (Z.leb_spec 0 (Z.of_nat (length mem))); [by exists []|lia].
  - assert (0 <= foldr Z.add 0 sizes) by (clear IH; induction Hs; simpl; lia).
    specialize (IH (drop (Z.to_nat n) mem)). rewrite length_drop in IH.
    destruct (Z.ltb_spec (Z.of_nat (length mem)) n).
    { destruct (Z.leb_spec (n + foldr Z.add 0 sizes) (Z.of_nat (length mem))); [lia|done]. }
    destruct (Z.leb_spec (foldr Z.add 0 sizes) (Z.of_nat (length mem - Z.to_nat n))),
      (Z.leb_spec (n + foldr Z.add 0 sizes) (Z.of_nat (length mem))); try lia.
    + destruct IH as (c & -> & Hc). eexists. split; [reflexivity|]. simpl. rewrite Hc.
      rewrite Z2Nat.inj_add, take_take_drop by lia. done.
    + by rewrite IH.
Qed.

(** What [msg_copyin] makes of a buffer with a type that is not negative. *)
Lemma copyin_spec a ty :
  sa_type a = Some ty -> 0 <= ty -> 0 <= sa_sz a <= MCLBYTES ->
  if stored (sa_sz a) <=? Z.of_nat (length (sa_mem a)) then
    exists mm, msg_copyin a = inr mm /\ msg_type mm = ty /\ msg_len mm = stored (sa_sz a) /\
      concat (msg_data mm) = take (Z.to_nat (stored (sa_sz a))) (sa_mem a)
  else msg_copyin a = inl EFAULT.
Proof.
  intros Hty Hpos Hsz. unfold msg_copyin. rewrite Hty. destruct (Z.ltb_spec ty 0); [lia|].
  destruct (mbuf_sizes_stored (sa_sz a) Hsz) as (sizes & E & Hsum). rewrite E.
  assert (Hs : Forall (fun n => 0 <= n) sizes)
    by (eapply mbuf_sizes_max; [exact E|unfold MCLBYTES, MSGMAX in *; lia]).
  pose proof (copyin_chain_spec (sa_mem a) sizes Hs) as H1. rewrite Hsum in H1.
  destruct (stored (sa_sz a) <=? Z.of_nat (length (sa_mem a))).
  - destruct H1 as (chain & -> & Hc). rewrite <- Hsum in *. by eexists.
  - by rewrite H1.
Qed.

Lemma copyout_chain_spec chain mem :
  copyout_chain chain mem =
    if (length mem <? length (concat chain))%nat then None
    else Some (concat chain ++ drop (length (concat chain)) mem).
Proof.
  revert mem. induction chain as [|d chain IH]; intros mem; simpl.
  - done.
  - rewrite length_app. destruct (Nat.ltb_spec (length mem) (length d)).
    + destruct (Nat.ltb_spec (length mem) (length d + length (concat chain))); [done|lia].
    + rewrite IH, length_drop.
      destruct (Nat.ltb_spec (length mem - length d) (length (concat chain))),
        (Nat.ltb_spec (length mem) (length d + length (concat chain))); try lia; simpl; [done|].
      rewrite drop_drop, app_assoc. done.
Qed.

(** The receiver's buffer can take the message: its word and as many bytes as
    the message has are mapped, whatever size the receiver gave. *)
Definition writable (word : bool) (mem : list Z) (mm : msg) : bool :=
  word && (length (concat (msg_data mm)) <=? length mem)%nat.

Lemma copyout_spec mm word mem len :
  msg_fits mm ->
  msg_copyout mm word mem len = Some
    (if writable word mem mm then
       inr (Z.min len (msg_len mm), concat (msg_data mm) ++ drop (length (concat (msg_data mm))) mem)
     else inl EFAULT).
Proof.
  intros (_ & _ & Hl). unfold msg_copyout, writable. rewrite Z.gtb_ltb.
  destruct (Z.ltb_spec MSGMAX (msg_len mm)); [lia|]. destruct word; simpl; [|done].
  rewrite copyout_chain_spec. rewrite Nat.leb_antisym. by destruct (_ <? _)%nat.
Qed.

(** Round trip of a message.  A message of at most [MLEN] bytes, or of
    [MINCLSIZE] to [MCLBYTES] bytes, copied in from a mapped buffer and out
    again to a buffer at least as long, gives back its type, its length and
    exactly its bytes, and leaves what follows them in the buffer alone. *)
Theorem msg_copy_roundtrip a ty mem sz :
  sa_type a = Some ty -> 0 <= ty -> one_mbuf (sa_sz a) ->
  sa_sz a <= Z.of_nat (length (sa_mem a)) -> sa_sz a <= sz -> sz <= Z.of_nat (length mem) ->
  exists mm, msg_copyin a = inr mm /\ msg_type mm = ty /\ msg_len mm = sa_sz a /\
    msg_copyout mm true mem sz = Some
      (inr (sa_sz a, take (Z.to_nat (sa_sz a)) (sa_mem a) ++ drop (Z.to_nat (sa_sz a)) mem)).
Proof.
  intros Hty Hpos Hone Hlen Hsz Hmem.
  assert (Hb : 0 <= sa_sz a <= MCLBYTES) by (unfold one_mbuf, MINCLSIZE, MLEN, MCLBYTES in *; lia).
  pose proof (copyin_spec a ty Hty Hpos Hb) as H. rewrite stored_one in H by done.
  destruct (Z.leb_spec (sa_sz a) (Z.of_nat (length (sa_mem a)))); [|lia].
  destruct H as (mm & E & Ht & Hl & Hc). exists mm. split_and!; try done.
  rewrite copyout_spec by (eapply copyin_fits; [exact E|unfold MCLBYTES, MSGMAX in *; lia]).
  unfold writable. rewrite Hc, length_take, Hl.
  replace (Z.to_nat (sa_sz a) `min` length (sa_mem a))%nat with (Z.to_nat (sa_sz a)) by lia.
  destruct (Nat.leb_spec (Z.to_nat (sa_sz a)) (length mem)); [|lia]. simpl. by rewrite Z.min_r by lia.
Qed.

Lemma msg_copy_roundtrip_witness :
  exists mm, msg_copyin (mkSnd 1 (mkCred 0 0 []) (Some 5) [10; 11; 12; 13] 3 0) = inr mm /\
    msg_type mm = 5 /\ msg_len mm = 3 /\
    msg_copyout mm true [90; 91; 92; 93; 94] 5 = Some (inr (3, [10; 11; 12; 93; 94])).
Proof.
  apply (msg_copy_roundtrip (mkSnd 1 (mkCred 0 0 []) (Some 5) [10; 11; 12; 13] 3 0) 5 [90; 91; 92; 93; 94] 5);
    [reflexivity|lia|left; unfold MLEN; simpl; lia|simpl; lia|simpl; lia|simpl; lia].
Defined.

(** A defect.  Each mbuf is sized by the whole length instead of by what
    is left, so a message of 225 to 376 bytes is stored as 448 bytes: the
    kernel reads that much of the sender's memory, or fails with [EFAULT] when
    it is not mapped, and charges the queue for it. *)
Theorem msg_copyin_overreads a ty :
  sa_type a = Some ty -> 0 <= ty -> MLEN < sa_sz a < MINCLSIZE ->
  if 448 <=? Z.of_nat (length (sa_mem a)) then
    exists mm, msg_copyin a = inr mm /\ msg_len mm = 448 /\ concat (msg_data mm) = take 448 (sa_mem a)
  else msg_copyin a = inl EFAULT.
Proof.
  intros Hty Hpos Hl.
  assert (Hs : stored (sa_sz a) = 448).
  { unfold stored. destruct (Z.ltb_spec MLEN (sa_sz a)), (Z.ltb_spec (sa_sz a) MINCLSIZE); try lia. done. }
  pose proof (copyin_spec a ty Hty Hpos) as H. rewrite Hs in H.
  lapply H; [clear H; intros H|unfold MLEN, MINCLSIZE, MCLBYTES in *; lia].
  destruct (448 <=? Z.of_nat (length (sa_mem a))); [|done].
  destruct H as (mm & E & _ & H1 & H2). by exists mm.
Qed.

Definition demo_cred : ucred := mkCred 0 0 [].

Lemma msg_copyin_overreads_witness :
  msg_copyin (mkSnd 1 demo_cred (Some 5) (replicate 300 7) 300 0) = inl EFAULT.
Proof.
  exact (msg_copyin_overreads (mkSnd 1 demo_cred (Some 5) (replicate 300 7) 300 0) 5 eq_refl
    ltac:(lia) ltac:(unfold MLEN, MINCLSIZE; simpl; lia)).
Defined.

(** A defect.  [msgrcv] copies out the whole message whatever the size
    the receiver gave: the length returned is cut to it, the bytes written are
    not, so that a receiver with a shorter buffer has the memory behind it
    overwritten (and [MSG_NOERROR] and [E2BIG] do not exist). *)
Theorem msg_copyout_overruns mm mem sz :
  msg_fits mm -> 0 <= sz < msg_len mm -> (length (concat (msg_data mm)) <= length mem)%nat ->
  exists out, msg_copyout mm true mem sz = Some (inr (sz, out)) /\
    take (length (concat (msg_data mm))) out = concat (msg_data mm).
Proof.
  intros Hf Hsz Hmem. rewrite copyout_spec by done. unfold writable.
  destruct (Nat.leb_spec (length (concat (msg_data mm))) (length mem)); [|lia]. simpl.
  eexists. split; [rewrite Z.min_l by lia; reflexivity|]. by rewrite take_app_length.
Qed.

Lemma msg_copyout_overruns_witness :
  exists out, msg_copyout (mkMsg 1 4 [[10; 11; 12; 13]]) true [90; 91; 92; 93; 94] 2 = Some (inr (2, out)) /\
    take 4 out = [10; 11; 12; 13].
Proof.
  apply (msg_copyout_overruns (mkMsg 1 4 [[10; 11; 12; 13]]) [90; 91; 92; 93; 94] 2);
    [unfold msg_fits, MSGMAX; simpl; lia|simpl; lia|simpl; lia].
Defined.

(** A defect.  For a negative type the code takes a message whose type is
    at least the absolute value, where its comment and msgrcv(2) promise one
    whose type is at most that: of the messages of type 1 and 9, [msgtyp] -5
    selects the one of type 9. *)
Theorem msg_match_negative msgtyp m :
  INT_MIN < msgtyp < 0 -> 0 <= msg_type m -> msg_match msgtyp m = (Z.abs msgtyp <=? msg_type m).
Proof.
  unfold INT_MIN. intros Hm Ht. unfold msg_match.
  assert (Hs : sint 32 (- msgtyp) = Z.abs msgtyp).
  { unfold sint. change (2 ^ 32) with 4294967296. change (2 ^ (32 - 1)) with 2147483648.
    rewrite Z.mod_small by lia. destruct (Z.ltb_spec (- msgtyp) 2147483648); lia. }
  rewrite Hs. destruct (Z.eqb_spec msgtyp 0), (Z.eqb_spec msgtyp (msg_type m)), (Z.ltb_spec msgtyp 0);
    simpl; try done; lia.
Qed.

Lemma msg_match_negative_witness :
  msg_match (-5) (mkMsg 9 0 []) = true /\ msg_match (-5) (mkMsg 1 0 []) = false.
Proof.
  split.
  - exact (msg_match_negative (-5) (mkMsg 9 0 []) ltac:(unfold INT_MIN; lia) ltac:(simpl; lia)).
  - exact (msg_match_negative (-5) (mkMsg 1 0 []) ltac:(unfold INT_MIN; lia) ltac:(simpl; lia)).
Defined.

(** ** The contents of the queues *)

(** The abstract state of a queue: its messages, in order. *)
Definition contents (s : mstate) (q : nat) : list msg :=
  match ques s !! q with
  | Some qq => omap (fun m => msgs s !! m) (que_msgs qq)
  | None => []
  end.

(** What touches neither the messages nor the queues they are on. *)
Definition same_msgs (s s' : mstate) : Prop :=
  msgs s' = msgs s /\ (forall r, que_msgs <$> ques s' !! r = que_msgs <$> ques s !! r) /\
  length (threads s') = length (threads s).

Lemma same_msgs_refl s : same_msgs s s.
Proof. done. Qed.

Lemma same_msgs_trans s1 s2 s3 : same_msgs s1 s2 -> same_msgs s2 s3 -> same_msgs s1 s3.
Proof.
  intros (A1 & A2 & A3) (B1 & B2 & B3). split_and!; [congruence| |congruence].
  intros r. by rewrite B2.
Qed.

Lemma contents_que_msgs s q l :
  que_msgs <$> ques s !! q = Some l -> contents s q = omap (fun m => msgs s !! m) l.
Proof. unfold contents. destruct (ques s !! q); simpl; [by intros [= ->]|done]. Qed.

Lemma same_contents s s' q : same_msgs s s' -> contents s' q = contents s q.
Proof.
  intros (A1 & A2 & _). specialize (A2 q). unfold contents. rewrite A1.
  destruct (ques s !! q), (ques s' !! q); simpl in A2; try done. by injection A2 as ->.
Qed.

Lemma same_upd q f s s' :
  upd_que q f s = Some s' -> (forall x, que_msgs (f x) = que_msgs x) -> same_msgs s s'.
Proof.
  unfold upd_que. destruct (ques s !! q) as [qq|] eqn:Hq; simpl; [|done]. intros [= <-] Hf.
  split_and!; try done. intros r. simpl. destruct (decide (r = q)) as [->|].
  - by rewrite lookup_insert_eq, Hq; simpl; rewrite Hf.
  - by rewrite lookup_insert_ne.
Qed.

Lemma same_QREF q s s' : QREF q s = Some s' -> same_msgs s s'.
Proof. intros H. by eapply same_upd. Qed.

Lemma same_threads g s : same_msgs s (with_threads (g <$> threads s) s).
Proof. split_and!; try done. simpl. apply length_fmap. Qed.

Lemma same_set t th s : same_msgs s (set_thread t th s).
Proof. split_and!; try done. simpl. apply length_insert. Qed.

Lemma same_out t q r s s' :
  out_rele t q r s = Some s' -> (t < length (threads s))%nat ->
  same_msgs s s' /\ threads s' !! t = Some (User (Some r)).
Proof.
  unfold out_rele, QRELE. destruct (upd_que q _ s) as [s1|] eqn:E1; simpl; [|done].
  destruct (ques s1 !! q) as [qq|]; simpl; [|done]. intros [= <-] Hlt.
  apply same_upd in E1; [|done].
  set (s2 := if (que_references qq =? 0) && has (que_flags qq) MSGQ_DYING then wakeup_refs q s1 else s1).
  assert (H2 : same_msgs s1 s2) by (unfold s2; destruct (_ && _); [apply same_threads|done]).
  assert (H3 : same_msgs s s2) by (by eapply same_msgs_trans). split.
  - eapply same_msgs_trans; [exact H3|apply same_set].
  - simpl. apply list_lookup_insert_eq. destruct H3 as (_ & _ & ->). done.
Qed.

Lemma same_wake_writers l s s' : wake_writers l s = Some s' -> same_msgs s s'.
Proof.
  revert s. induction l as [|q l IH]; intros s; simpl; [by intros [= <-]|].
  destruct (ques s !! q) as [qq|] eqn:Hq; simpl; [|done].
  destruct (has (que_flags qq) MSGQ_WRITERS); [|apply IH].
  destruct (upd_que q _ s) as [s1|] eqn:E1; simpl; [|done]. intros E.
  eapply same_msgs_trans; [by eapply same_upd|].
  eapply same_msgs_trans; [apply (same_threads (wake_que q))|]. by apply IH.
Qed.

(** The clearing of a flag, with the wakeup, when the flag is set. *)
Lemma same_flag_wake q f (b : bool) s s' :
  (if b then s ← upd_que q (q_with_flags f) s; Some (msg_wakeup q s) else Some s) = Some s' ->
  same_msgs s s'.
Proof.
  destruct b; [|by intros [= <-]]. destruct (upd_que q _ s) as [s1|] eqn:E; simpl; [|done].
  intros [= <-]. eapply same_msgs_trans; [by eapply same_upd|apply (same_threads (wake_que q))].
Qed.

Lemma omap_ext_in (f g : nat -> option msg) (l : list nat) :
  (forall m, m ∈ l -> f m = g m) -> omap f l = omap g l.
Proof.
  induction l as [|x l IH]; intros H; [done|]. simpl. rewrite (H x) by set_solver.
  destruct (g x); [f_equal|]; apply IH; intros y Hy; apply H; set_solver.
Qed.

Lemma msg_enqueue_eq q m pid s mm qq :
  msgs s !! m = Some mm -> ques s !! q = Some qq ->
  msg_enqueue q m pid s = Some (with_ques (<[q := q_with_msgs (que_msgs qq ++ [m])
    (q_with_ds (ds_enqueue (msg_len mm) pid (now_sec s) (q_ds qq)) qq)]> (ques s)) s).
Proof. intros Hm Hq. unfold msg_enqueue, upd_que. rewrite Hm. simpl. by rewrite Hq. Qed.

(** The last stretch of a successful [msgsnd]. *)
Lemma msgsnd_copy_effect t q m a s s' mm qq :
  msgsnd_copy t q m a s = Some s' -> msg_copyin a = inr mm -> ques s !! q = Some qq ->
  (t < length (threads s))%nat ->
  msgs s' = <[m := mm]> (msgs s) /\
  que_msgs <$> ques s' !! q = Some (que_msgs qq ++ [m]) /\
  (forall r, r <> q -> que_msgs <$> ques s' !! r = que_msgs <$> ques s !! r) /\
  exists e, threads s' !! t = Some (User (Some (err e))) /\ (dying qq = false -> e = 0).
Proof.
  unfold msgsnd_copy. intros E Hc Hq Hlt. destruct (msgs s !! m) as [m0|] eqn:Hm; simpl in E; [|done].
  rewrite Hc, (msg_enqueue_eq q m _ _ mm qq) in E by (simpl; rewrite ?lookup_insert_eq; done).
  simpl mbind in E. set (qq1 := q_with_msgs _ _) in E. set (s1 := with_ques _ _) in E.
  rewrite lookup_insert_eq in E. cbn [mbind option_bind] in E. change (que_flags qq1) with (que_flags qq) in E.
  destruct (if has (que_flags qq) MSGQ_READERS then _ else _) as [s2|] eqn:E2; simpl in E; [|done].
  pose proof (same_flag_wake _ _ _ _ _ E2) as H2.
  assert (Hq2 : exists qq2, ques s2 !! q = Some qq2 /\ dying qq2 = dying qq).
  { revert E2. destruct (has (que_flags qq) MSGQ_READERS).
    - unfold upd_que. simpl. rewrite lookup_insert_eq. simpl. intros [= <-]. simpl.
      rewrite lookup_insert_eq. eexists. split; [done|]. unfold dying. simpl. apply flags_spec.
    - intros [= <-]. simpl. rewrite lookup_insert_eq. by eexists. }
  destruct Hq2 as (qq2 & Hq2 & Hd2). rewrite Hq2 in E. simpl in E.
  assert (Hlt2 : (t < length (threads s2))%nat) by (destruct H2 as (_ & _ & ->); done).
  assert (Hend : exists e, same_msgs s2 s' /\ threads s' !! t = Some (User (Some (err e))) /\
    (dying qq = false -> e = 0)).
  { destruct (has (que_flags qq2) MSGQ_DYING) eqn:Ed.
    - destruct (same_out _ _ _ _ _ E) as [H3 H4]; [simpl; by rewrite length_fmap|].
      exists EIDRM. split_and!; [|done|intros Hdq; unfold dying in *; congruence].
      eapply same_msgs_trans; [apply (same_threads (wake_que q))|done].
    - destruct (same_out _ _ _ _ _ E Hlt2) as [H3 H4]. by exists 0. }
  destruct Hend as (e & H3 & H4 & H5).
  destruct (same_msgs_trans _ _ _ H2 H3) as (A1 & A2 & _). split_and!.
  - by rewrite A1.
  - rewrite A2. simpl. by rewrite lookup_insert_eq.
  - intros r Hr. rewrite A2. simpl. by rewrite lookup_insert_ne.
  - by exists e.
Qed.

Lemma lookup_alive msqid s q qq :
  msg_ok s -> que_lookup msqid s = Some (Some q) -> ques s !! q = Some qq -> dying qq = false.
Proof.
  intros Hok Hlk Hq. unfold que_lookup in Hlk.
  destruct (que_find_spec (fun x => que_ix x =? IPCID_TO_IX msqid) s Hok) as (r0 & E & Hr).
  rewrite Hlk in E. injection E as <-. destruct Hr as (qq0 & _ & Hq0 & _ & Hd). congruence.
Qed.

(** A call followed by the stretches it goes on with. *)
Definition msgsnd_run (t : nat) (msqid : Z) (a : snd_args) (s : mstate) : option mstate :=
  s ← call false t (CallSnd msqid a) s; s ← resume false t 0 s; resume false t 0 s.

(** The call of a sender that need not wait comes to [msg_copyin] with a fresh
    message and a reference to the queue, nothing else being changed. *)
Lemma msgsnd_before_copy s t r msqid a q qq :
  msg_ok s -> threads s !! t = Some (User r) ->
  que_lookup msqid s = Some (Some q) -> ques s !! q = Some qq ->
  sa_sz a <= msg_qbytes (q_ds qq) -> sa_sz a <= MSGMAX ->
  ipcperm (sa_cred a) (msg_perm (q_ds qq)) IPC_W = 0 ->
  sa_sz a <= MSGQ_SPACE qq -> num_msgs s < MSGTQL ->
  exists s1 m, msgsnd_run t msqid a s = msgsnd_copy t q m a s1 /\ at_ t (SndCopy q m a) s1 /\
    msgs s !! m = None /\ msgs s1 = <[m := mkMsg 0 0 []]> (msgs s) /\
    ques s1 !! q = Some (q_with_refs (que_references qq + 1) qq) /\
    (forall r, que_msgs <$> ques s1 !! r = que_msgs <$> ques s !! r).
Proof.
  intros Hok Ht Hlk Hq Hsz Hmax Hperm Hsp Hn. unfold msgsnd_run. simpl call.
  pose proof (at_intro t _ _ Hok Ht) as Hat.
  pose proof (lookup_alive _ _ _ _ Hok Hlk Hq) as Hd.
  unfold sys_msgsnd. rewrite Hlk. simpl. rewrite Hq. simpl. rewrite !Z.gtb_ltb.
  destruct (Z.ltb_spec (msg_qbytes (q_ds qq)) (sa_sz a)); [lia|].
  destruct (Z.ltb_spec MSGMAX (sa_sz a)); [lia|]. simpl. rewrite Hperm. simpl.
  destruct (at_QREF t (User r) (SndWake q a) s q qq) as (s1 & E1 & Hat1 & Hq1 & Et1 & _ & Em1 & En1); try done.
  { intros qq'. simpl. by rewrite lookup_insert_eq. }
  rewrite E1. simpl. unfold msgsnd_test. rewrite Hq1. simpl.
  change (MSGQ_SPACE (q_with_refs (que_references qq + 1) qq)) with (MSGQ_SPACE qq).
  destruct (Z.ltb_spec (MSGQ_SPACE qq) (sa_sz a)); [lia|]. rewrite En1, Z.geb_leb.
  destruct (Z.leb_spec MSGTQL (num_msgs s)); [lia|]. simpl.
  assert (Hat2 : at_ t (SndAlloc q a) s1) by (apply (at_move t (SndWake q a)); try done; simpl; by rewrite Hq1).
  pose proof (same_QREF _ _ _ E1) as (_ & S1 & _). pose proof (proj1 Hat2) as Hlt1.
  unfold resume. rewrite threads_set by done. unfold msgsnd_alloc.
  assert (Hat2' : at_ t (SndAlloc q a) (set_thread t (SndAlloc q a) s1))
    by (split; [simpl; by rewrite length_insert|rewrite set_set; apply Hat2]).
  destruct (at_create t (SndAlloc q a) (set_thread t (SndAlloc q a) s1) q _ a Hat2' eq_refl eq_refl Hq1 Hd)
    as (s2 & E2 & Hat3). rewrite E2. simpl.
  destruct (at_fresh _ _ _ Hat2') as [_ Hfresh]. simpl in Hfresh.
  unfold msg_create in E2. simpl in E2. rewrite Hq1 in E2. simpl in E2. unfold dying in Hd. rewrite Hd in E2.
  injection E2 as E2. set (m := next_addr s1) in *.
  rewrite list_lookup_insert_eq by apply Hat3.
  exists (set_thread t (SndCopy q m a) s2), m. rewrite <- Em1.
  split_and!; [done| |done|by rewrite <- E2|by rewrite <- E2|intros r0; rewrite <- S1; by rewrite <- E2].
  split; [simpl; rewrite length_insert; apply Hat3|rewrite set_set; apply Hat3].
Qed.

(** The contents of the queues when a message that is on none of them is
    filled in, and when it is freed. *)
Lemma fresh_on_no_queue s q qq m :
  msg_ok s -> msgs s !! m = None -> ques s !! q = Some qq -> m ∉ que_msgs qq.
Proof.
  intros Hok Hm Hq Hin.
  assert (Hd : m ∈ elements (dom (msgs s))).
  { rewrite <- (mo_msgs _ Hok). apply elem_of_app. left. unfold queued. apply list_elem_of_bind.
    exists (q, qq). split; [done|]. by apply elem_of_map_to_list. }
  apply elem_of_elements, elem_of_dom in Hd as [x Hx]. congruence.
Qed.

Lemma contents_fresh s s' q m mm :
  msg_ok s -> msgs s !! m = None -> msgs s' = <[m := mm]> (msgs s) \/ msgs s' = msgs s ->
  que_msgs <$> ques s' !! q = que_msgs <$> ques s !! q -> contents s' q = contents s q.
Proof.
  intros Hok Hm Hms Hq. unfold contents at 2. destruct (ques s !! q) as [qq|] eqn:E; simpl in Hq.
  - rewrite (contents_que_msgs _ _ _ Hq). apply omap_ext_in. intros m' Hm'.
    destruct Hms as [-> | ->]; [|done]. apply lookup_insert_ne. intros ->.
    by apply (fresh_on_no_queue s q qq m' Hok Hm E).
  - unfold contents. by destruct (ques s' !! q).
Qed.

Lemma contents_appended s s' q qq m mm :
  msg_ok s -> msgs s !! m = None -> ques s !! q = Some qq -> msgs s' = <[m := mm]> (msgs s) ->
  que_msgs <$> ques s' !! q = Some (que_msgs qq ++ [m]) -> contents s' q = contents s q ++ [mm].
Proof.
  intros Hok Hm Hq Hms Hq'. rewrite (contents_que_msgs _ _ _ Hq'), Hms, omap_app. simpl.
  rewrite lookup_insert_eq. unfold contents. rewrite Hq. f_equal. apply omap_ext_in. intros m' Hm'.
  apply lookup_insert_ne. intros ->. by apply (fresh_on_no_queue s q qq m' Hok Hm Hq).
Qed.

(** A message that cannot be read from the sender is freed. *)
Lemma msgsnd_copy_refused t q m a s s' e :
  msgsnd_copy t q m a s = Some s' -> msg_copyin a = inl e -> (t < length (threads s))%nat ->
  threads s' !! t = Some (User (Some (err e))) /\ msgs s' = delete m (msgs s) /\
  (forall r, que_msgs <$> ques s' !! r = que_msgs <$> ques s !! r).
Proof.
  unfold msgsnd_copy, msg_free. intros E Hc Hlt. destruct (msgs s !! m) as [mm|]; simpl in E; [|done].
  rewrite Hc in E. simpl in E. destruct (same_out _ _ _ _ _ E Hlt) as [(A1 & A2 & _) A3].
  split_and!; [done|by rewrite A1|]. intros r. by rewrite A2.
Qed.

(** C31: [msgsnd] that need not wait, with no other thread running while it
    allocates and copies.  When the identifier names a queue, the sender may
    write, the message has at most 2048 bytes (the highest limit a queue can
    have), it fits into the queue and into the global limit, and its type is
    mapped and not negative, then with enough of the sender's memory mapped the
    call returns 0 and puts a message at the end of its queue, behind all that
    were there: its type is the type given and its bytes are those of the
    sender's buffer, in order, exactly as many as the sender said for up to 224
    and for 377 to 2048 bytes, and 448 for 225 to 376 bytes (a defect of
    [msg_copyin], which reads past what the sender gave).  When that much memory
    is not mapped the call fails with [EFAULT] and the queue stays as it is.
    In both cases no other queue changes. *)
Theorem msgsnd_appends s t r msqid a q qq ty :
  msg_ok s -> threads s !! t = Some (User r) ->
  que_lookup msqid s = Some (Some q) -> ques s !! q = Some qq ->
  0 <= sa_sz a <= msg_qbytes (q_ds qq) -> sa_sz a <= MSGMNB ->
  ipcperm (sa_cred a) (msg_perm (q_ds qq)) IPC_W = 0 ->
  sa_sz a <= MSGQ_SPACE qq -> num_msgs s < MSGTQL -> sa_type a = Some ty -> 0 <= ty ->
  let n := if (224 <? sa_sz a) && (sa_sz a <? 377) then 448 else sa_sz a in
  exists s', msgsnd_run t msqid a s = Some s' /\ msg_ok s' /\
    (forall q', q' <> q -> contents s' q' = contents s q') /\
    if n <=? Z.of_nat (length (sa_mem a)) then
      threads s' !! t = Some (User (Some (err 0))) /\
      exists mm, contents s' q = contents s q ++ [mm] /\ msg_type mm = ty /\ msg_len mm = n /\
        concat (msg_data mm) = take (Z.to_nat n) (sa_mem a)
    else threads s' !! t = Some (User (Some (err EFAULT))) /\ contents s' q = contents s q.
Proof.
  intros Hok Ht Hlk Hq [Hpos Hsz] Hmax Hperm Hsp Hn Hty Hty0 n.
  assert (Hmx : sa_sz a <= MSGMAX) by (unfold MSGMNB, MSGMAX in *; lia).
  destruct (msgsnd_before_copy s t r msqid a q qq) as (s1 & m & -> & Hat & Hm & Em & Hq1 & Hqs); try done.
  destruct (msgsnd_copy_safe t s1 q m a Hat) as (s' & E & Hok'). rewrite E.
  exists s'. split; [done|]. split; [done|].
  pose proof (copyin_spec a ty Hty Hty0 (conj Hpos Hmax)) as Hc. change (stored (sa_sz a)) with n in Hc.
  destruct (n <=? Z.of_nat (length (sa_mem a))).
  - destruct Hc as (mm & Hc & Hc'). pose proof (lookup_alive _ _ _ _ Hok Hlk Hq) as Hd.
    destruct (msgsnd_copy_effect t q m a s1 s' mm _ E Hc Hq1 (proj1 Hat)) as (A1 & A2 & A3 & e & A4 & A5).
    rewrite Em, insert_insert_eq in A1. split.
    + intros q' Hne. apply (contents_fresh s s' q' m mm); try done; [by left|]. by rewrite A3.
    + rewrite (A5 Hd) in A4. split; [done|]. exists mm. split; [|done].
      by apply (contents_appended s s' q qq m mm).
  - destruct (msgsnd_copy_refused t q m a s1 s' _ E Hc (proj1 Hat)) as (A1 & A2 & A3).
    rewrite Em, delete_insert_id in A2 by done.
    assert (Hs : forall q', contents s' q' = contents s q').
    { intros q'. apply (contents_fresh s s' q' m (mkMsg 0 0 [])); try done; [by right|]. by rewrite A3. }
    split; [by intros|]. by split.
Qed.

Lemma msg_dequeue_eq q m pid s mm qq :
  msgs s !! m = Some mm -> ques s !! q = Some qq ->
  msg_dequeue q m pid s = Some (with_ques (<[q := q_with_msgs (filter (fun m' => m' <> m) (que_msgs qq))
    (q_with_ds (ds_dequeue (msg_len mm) pid (now_sec s) (q_ds qq)) qq)]> (ques s)) s).
Proof. intros Hm Hq. unfold msg_dequeue, upd_que. rewrite Hm. simpl. by rewrite Hq. Qed.

(** What [msgrcv] gives for a message: the length, cut to the size the receiver
    gave, the type, and the buffer with all the bytes of the message at its
    start and what follows them as it was. *)
Definition received (a : rcv_args) (mm : msg) : ret :=
  mkRet 0 (Z.min (ra_sz a) (msg_len mm)) (Some (msg_type mm))
    (concat (msg_data mm) ++ drop (length (concat (msg_data mm))) (ra_mem a)).

(** The message found is taken off its queue and copied out, or stays where
    it is when it cannot be copied out. *)
Lemma msgrcv_finish_effect t q m a s s' mm qq :
  msgrcv_finish t q m a s = Some s' -> msgs s !! m = Some mm -> ques s !! q = Some qq ->
  (t < length (threads s))%nat -> msg_fits mm ->
  if writable (ra_word a) (ra_mem a) mm then
    threads s' !! t = Some (User (Some (received a mm))) /\
    msgs s' = delete m (msgs s) /\
    que_msgs <$> ques s' !! q = Some (filter (fun m' => m' <> m) (que_msgs qq)) /\
    (forall r, r <> q -> que_msgs <$> ques s' !! r = que_msgs <$> ques s !! r)
  else same_msgs s s' /\ threads s' !! t = Some (User (Some (err EFAULT))).
Proof.
  unfold msgrcv_finish. intros E Hm Hq Hlt Hft. rewrite Hm in E. cbn [mbind option_bind] in E.
  rewrite copyout_spec in E by done. cbn [mbind option_bind] in E.
  destruct (writable (ra_word a) (ra_mem a) mm); [|by eapply same_out].
  rewrite (msg_dequeue_eq q m _ _ mm qq) in E by done.
  cbn [mbind option_bind] in E. set (s1 := with_ques _ s) in E.
  unfold msg_free in E. change (msgs s1) with (msgs s) in E. rewrite Hm in E.
  cbn [mbind option_bind] in E. set (s2 := with_msgs _ _ s1) in E.
  set (qq1 := q_with_msgs (filter (fun m' => m' <> m) (que_msgs qq))
    (q_with_ds (ds_dequeue (msg_len mm) (ra_pid a) (now_sec s) (q_ds qq)) qq)).
  assert (Hq2 : ques s2 !! q = Some qq1) by apply lookup_insert_eq.
  rewrite Hq2 in E. cbn [mbind option_bind] in E.
  destruct (if has (que_flags qq1) MSGQ_WRITERS then _ else _) as [s3|] eqn:E3; [|done].
  cbn [mbind option_bind] in E. pose proof (same_flag_wake _ _ _ _ _ E3) as H3.
  destruct (if negb (maxmsgs s3 =? 0) then _ else _) as [s4|] eqn:E4; [|done].
  cbn [mbind option_bind] in E.
  assert (H4 : same_msgs s3 s4).
  { destruct (negb (maxmsgs s3 =? 0)); [|by injection E4 as <-].
    by eapply (same_msgs_trans s3 (with_maxmsgs 0 s3)); [|by eapply same_wake_writers]. }
  pose proof (same_msgs_trans _ _ _ H3 H4) as H5.
  destruct (same_out _ _ _ _ _ E) as [H6 H7]; [destruct H5 as (_ & _ & ->); done|].
  destruct (same_msgs_trans _ _ _ H5 H6) as (A1 & A2 & _). split_and!.
  - done.
  - by rewrite A1.
  - rewrite A2, Hq2. done.
  - intros r Hr. rewrite A2. simpl. by rewrite lookup_insert_ne.
Qed.

Lemma filter_middle (b a : list nat) m :
  NoDup (b ++ m :: a) -> filter (fun m' => m' <> m) (b ++ m :: a) = b ++ a.
Proof.
  intros Hnd. apply list.NoDup_app in Hnd as (_ & Hd & Hnd). apply list.NoDup_cons in Hnd as [Hma _].
  rewrite list.filter_app, filter_cons, decide_False by (by intros []).
  rewrite !filter_absent; [done|done|]. intros Hin. apply (Hd m Hin). set_solver.
Qed.

(** The contents of the queues once the message [m] of [q] is gone. *)
Lemma contents_removed s s' q m b c mm :
  NoDup (b ++ m :: c) -> msgs s !! m = Some mm ->
  (forall q' qr m', q' <> q -> ques s !! q' = Some qr -> m' ∈ que_msgs qr -> m' ∉ b ++ m :: c) ->
  msgs s' = delete m (msgs s) ->
  que_msgs <$> ques s' !! q = Some (filter (fun m' => m' <> m) (b ++ m :: c)) ->
  (forall q', q' <> q -> que_msgs <$> ques s' !! q' = que_msgs <$> ques s !! q') ->
  (forall q', q' <> q -> contents s' q' = contents s q') /\
  contents s' q = omap (fun m => msgs s !! m) b ++ omap (fun m => msgs s !! m) c.
Proof.
  intros Hnd Hm Hdis Em Hq Ho.
  assert (Hdel : forall l : list nat, m ∉ l ->
    omap (fun m' => delete m (msgs s) !! m') l = omap (fun m' => msgs s !! m') l).
  { intros l Hl. apply omap_ext_in. intros m' Hm'. apply lookup_delete_ne. by intros ->. }
  split.
  - intros q' Hne. specialize (Ho q' Hne). unfold contents at 2.
    destruct (ques s !! q') as [qr|] eqn:Hqr; simpl in Ho.
    + rewrite (contents_que_msgs _ _ _ Ho), Em. apply Hdel. intros Hin.
      apply (Hdis q' qr m Hne Hqr Hin). set_solver.
    + unfold contents. by destruct (ques s' !! q').
  - rewrite (contents_que_msgs _ _ _ Hq), Em, filter_middle, <- omap_app by done. apply Hdel.
    apply list.NoDup_app in Hnd as (_ & Hd & Hnd). apply list.NoDup_cons in Hnd as [Hma _].
    intros [Hin|Hin]%elem_of_app; [apply (Hd m Hin); set_solver|done].
Qed.

(** The messages a receiver asks for, as the code has it: any for 0, those of
    that very type for a positive one, and for a negative one those whose type
    is at least its absolute value. *)
Definition wanted (typ : Z) (mm : msg) : Prop :=
  typ = 0 \/ (0 < typ /\ msg_type mm = typ) \/ (typ < 0 /\ - typ <= msg_type mm).

Lemma msg_match_wanted typ mm :
  INT_MIN < typ <= INT_MAX -> 0 <= msg_type mm -> msg_match typ mm = true <-> wanted typ mm.
Proof.
  intros Ht Hm. unfold wanted. destruct (Z.lt_ge_cases typ 0).
  - rewrite msg_match_negative by lia. rewrite Z.leb_le. lia.
  - unfold msg_match. bool_to_prop. lia.
Qed.

(** The message [msg_lookup] gives is the first of the queue asked for. *)
Lemma msgrcv_found s s1 q qq a refs :
  fits s -> ques s1 !! q = Some (q_with_refs refs qq) -> msgs s1 = msgs s ->
  (forall m, m ∈ que_msgs qq -> is_Some (msgs s !! m)) -> INT_MIN < ra_typ a <= INT_MAX ->
  exists r, msg_lookup (q_with_refs refs qq) (ra_typ a) s1 = Some r /\
    match r with
    | Some m => exists b c mm, que_msgs qq = b ++ m :: c /\ msgs s !! m = Some mm /\
        Forall (fun mm => ~ wanted (ra_typ a) mm) (omap (fun m => msgs s !! m) b) /\ wanted (ra_typ a) mm
    | None => Forall (fun mm => ~ wanted (ra_typ a) mm) (omap (fun m => msgs s !! m) (que_msgs qq))
    end.
Proof.
  intros Hft Hq Em Hex Htyp.
  assert (Hs : sint 32 (ra_typ a) = ra_typ a).
  { unfold sint, INT_MIN, INT_MAX in *. change (2 ^ 32) with 4294967296. change (2 ^ (32 - 1)) with 2147483648.
    pose proof (Z.div_mod (ra_typ a) 4294967296) as Hdm. pose proof (Z.mod_pos_bound (ra_typ a) 4294967296).
    destruct (Z.ltb_spec (ra_typ a `mod` 4294967296) 2147483648); lia. }
  assert (Hmw : forall m mm, msgs s !! m = Some mm -> msg_match (ra_typ a) mm = true <-> wanted (ra_typ a) mm).
  { intros m mm Hm. apply msg_match_wanted; [done|]. apply (fits_lookup _ _ _ Hft Hm). }
  assert (Hno : forall l : list nat,
    (forall m mm, m ∈ l -> msgs s !! m = Some mm -> msg_match (ra_typ a) mm = false) ->
    Forall (fun mm => ~ wanted (ra_typ a) mm) (omap (fun m => msgs s !! m) l)).
  { intros l Hl. apply list.Forall_forall. intros mm (m & Hm & Hmm)%list_elem_of_omap Hh.
    apply (Hmw m mm Hmm) in Hh. by rewrite (Hl m mm Hm Hmm) in Hh. }
  unfold msg_lookup. rewrite Hs, Em. simpl.
  destruct (msg_find_spec (msg_match (ra_typ a)) (msgs s) (que_msgs qq) Hex) as (r0 & -> & Hr0).
  exists r0. split; [done|]. destruct r0 as [m|]; [|by apply Hno].
  destruct Hr0 as (b & c & mm & El & Hm & Hhit & Hb). exists b, c, mm.
  split_and!; try done; [by apply Hno|by apply (Hmw m)].
Qed.

(** No message: the receiver leaves or goes to sleep. *)
Lemma msgrcv_none t q a s s' :
  (if has (ra_flg a) IPC_NOWAIT then out_rele t q (err ENOMSG) s
   else qq ← ques s !! q;
     s2 ← upd_que q (q_with_flags (set_flag (que_flags qq) MSGQ_READERS)) s;
     Some (set_thread t (RcvSleep q a) s2)) = Some s' -> (t < length (threads s))%nat ->
  same_msgs s s' /\
  threads s' !! t = Some (if has (ra_flg a) IPC_NOWAIT then User (Some (err ENOMSG)) else RcvSleep q a).
Proof.
  destruct (has (ra_flg a) IPC_NOWAIT); intros E Hlt; [by apply same_out in E|].
  destruct (ques s !! q) as [qq|]; simpl in E; [|done].
  destruct (upd_que q _ s) as [s2|] eqn:E2; [|done]. injection E as <-.
  pose proof (same_upd _ _ _ _ E2 ltac:(done)) as S2. split.
  - eapply same_msgs_trans; [exact S2|apply same_set].
  - apply threads_set. by destruct S2 as (_ & _ & ->).
Qed.

(** C32: [msgrcv] takes the first message asked for.  With the permission to
    read, a type that fits an [int] and is not [INT_MIN], and a [copyout] that
    does not sleep: a message is asked for when the type given is 0, when it is
    positive and is the type of the message, or when it is negative and the
    type of the message is at least its absolute value (where msgrcv(2) says at
    most).  When the queue has such messages the first one is taken off, the
    order of the others and the other queues staying as they are; the call
    returns 0, the type of the message, its length cut to the size the receiver
    gave, and writes all its bytes to the start of the buffer, also those past
    that size (there is no [E2BIG]), nothing behind them being written.  When
    the word of the type or the room for those bytes is not mapped, and only
    then, the call fails with [EFAULT] and the message stays on the queue.  When
    no message is asked for, the call fails with [ENOMSG] if it may not wait,
    and sleeps otherwise. *)
Theorem msgrcv_takes_first s t r msqid a q qq :
  msg_ok s -> fits s -> threads s !! t = Some (User r) ->
  que_lookup msqid s = Some (Some q) -> ques s !! q = Some qq ->
  ipcperm (ra_cred a) (msg_perm (q_ds qq)) IPC_R = 0 -> INT_MIN < ra_typ a <= INT_MAX ->
  exists s', call false t (CallRcv msqid a) s = Some s' /\ msg_ok s' /\ fits s' /\
    (forall q', q' <> q -> contents s' q' = contents s q') /\
    (Forall (fun mm => ~ wanted (ra_typ a) mm) (contents s q) /\ contents s' q = contents s q /\
       threads s' !! t = Some (if has (ra_flg a) IPC_NOWAIT then User (Some (err ENOMSG)) else RcvSleep q a)
     \/
     exists b mm c, contents s q = b ++ mm :: c /\
       Forall (fun mm => ~ wanted (ra_typ a) mm) b /\ wanted (ra_typ a) mm /\
       let data := concat (msg_data mm) in
       if ra_word a && (length data <=? length (ra_mem a))%nat then
         contents s' q = b ++ c /\
         threads s' !! t = Some (User (Some (mkRet 0 (Z.min (ra_sz a) (Z.of_nat (length data)))
           (Some (msg_type mm)) (data ++ drop (length data) (ra_mem a)))))
       else contents s' q = contents s q /\ threads s' !! t = Some (User (Some (err EFAULT)))).
Proof.
  intros Hok Hft Ht Hlk Hq Hperm Htyp. pose proof (at_intro t _ _ Hok Ht) as Hat.
  destruct (sys_msgrcv_safe t r s msqid a Hat Hft) as (s' & E & Hok').
  exists s'. split; [done|]. split; [done|]. split; [by apply (fit_call false t (CallRcv msqid a) s)|].
  unfold sys_msgrcv in E. rewrite Hlk in E. cbn [mbind option_bind] in E. rewrite Hq in E.
  cbn [mbind option_bind] in E. rewrite Hperm in E. cbn [negb Z.eqb] in E.
  pose proof (lookup_alive _ _ _ _ Hok Hlk Hq) as Hd.
  destruct (at_QREF t (User r) (RcvWake q a) s q qq) as (s1 & E1 & Hat1 & Hq1 & Et1 & _ & Em1 & _); try done.
  { intros qq'. simpl. by rewrite lookup_insert_eq. }
  rewrite E1 in E. cbn [mbind option_bind] in E. pose proof (same_QREF _ _ _ E1) as S1.
  pose proof (proj1 Hat1) as Hlt1.
  destruct (msgs_owned _ _ _ _ _ Hat Hq) as (Hnd & Hex & Hdis). simpl in Hnd, Hex, Hdis. rewrite app_nil_r in *.
  destruct (msgrcv_found s s1 q qq a _ Hft Hq1 Em1 Hex Htyp) as (r0 & Ef & Hr0).
  unfold msgrcv_test in E. rewrite Hq1 in E. cbn [mbind option_bind] in E. rewrite Ef in E.
  cbn [mbind option_bind] in E.
  assert (Hcq : contents s q = omap (fun m => msgs s !! m) (que_msgs qq)) by (unfold contents; by rewrite Hq).
  destruct r0 as [m|].
  - destruct Hr0 as (b & c & mm & El & Hm & Hb & Hhit).
    pose proof (msgrcv_finish_effect t q m a s1 s' mm _ E ltac:(by rewrite Em1) Hq1 Hlt1
      (fits_lookup _ _ _ Hft Hm)) as He.
    assert (Hbc : contents s q = omap (fun m => msgs s !! m) b ++ mm :: omap (fun m => msgs s !! m) c)
      by (rewrite Hcq, El, omap_app; simpl; by rewrite Hm).
    pose proof (proj1 (proj2 (fits_lookup _ _ _ Hft Hm))) as Hlen.
    unfold writable in He. destruct (ra_word a && _) eqn:Ew.
    + destruct He as (He1 & He2 & He3 & He4). destruct S1 as (_ & S1 & _). rewrite Em1 in He2.
      destruct (contents_removed s s' q m b c mm) as [Hc1 Hc2]; try done.
      * by rewrite <- El.
      * intros q' qr Hne Hqr. rewrite <- El. by apply (Hdis q' qr).
      * by rewrite He3, <- El.
      * intros q' Hne. by rewrite He4, S1.
      * split; [done|]. right. eexists _, mm, _. split; [exact Hbc|]. split; [done|]. split; [done|].
        simpl. rewrite Ew. split; [done|]. rewrite <- Hlen. exact He1.
    + destruct He as [He1 He2]. pose proof (same_msgs_trans _ _ _ S1 He1) as S2. split.
      * intros q' _. by apply same_contents.
      * right. eexists _, mm, _. split; [exact Hbc|]. split; [done|]. split; [done|].
        simpl. rewrite Ew. split; [by apply same_contents|done].
  - destruct (msgrcv_none t q a s1 s' ltac:(rewrite Hq1; exact E) Hlt1) as [S2 Hth]. pose proof (same_msgs_trans _ _ _ S1 S2) as S3.
    split; [intros q' _; by apply same_contents|]. left. rewrite Hcq at 1. split; [done|].
    split; [by apply same_contents|done].
Qed.
