(* ===== verification/MsgRuns.v ===== *)
(** * System V messages: runs

    Runs of the system that show what the code does in particular
    interleavings, and the witnesses of the theorems. *)

From stdpp Require Import base numbers list option gmap.
From Stdlib Require Import ZArith Lia Bool Sorted.
From S2P Require Import Prelude Sem Msg MsgFacts MsgOps MsgQue MsgSys MsgData.

(** ** Executable runs *)

Inductive action := Call (t : nat) (c : msgcall) | Go (t : nat) (e : Z).

Inductive outcome := Stuck | Fault | State (s : mstate).

Definition runnableb (th : thread) (e : Z) : bool :=
  match th with
  | User _ | RmSleep _ => false
  | SndSleep _ _ | RcvSleep _ _ => negb (e =? 0)
  | _ => true
  end.

Definition act (paged : bool) (x : action) (s : mstate) : outcome :=
  let ret o := match o with Some s => State s | None => Fault end in
  match x with
  | Call t c => match threads s !! t with Some (User _) => ret (call paged t c s) | _ => Stuck end
  | Go t e => match threads s !! t with
              | Some th => if runnableb th e then ret (resume paged t e s) else Stuck
              | None => Stuck
              end
  end.

Fixpoint runs (paged : bool) (l : list action) (s : mstate) : outcome :=
  match l with
  | [] => State s
  | x :: l => match act paged x s with State s => runs paged l s | o => o end
  end.

Lemma act_step paged x s :
  match act paged x s with
  | Stuck => True
  | Fault => mstep paged s None
  | State s' => mstep paged s (Some s')
  end.
Proof.
  destruct x as [t c|t e]; simpl.
  - destruct (threads s !! t) as [[r| | | | | | | | | | | |]|] eqn:Ht; try done.
    pose proof (ms_call paged s t r c Ht) as H. by destruct (call paged t c s).
  - destruct (threads s !! t) as [th|] eqn:Ht; [|done].
    destruct (runnableb th e) eqn:Hr; [|done].
    assert (Hr' : runnable th e) by (destruct th; simpl in *; try done; bool_to_prop; lia).
    pose proof (ms_resume paged s t th e Ht Hr') as H. by destruct (resume paged t e s).
Qed.

Lemma runs_reach paged l s0 s s' :
  mreach paged s0 s -> runs paged l s = State s' -> mreach paged s0 s'.
Proof.
  revert s. induction l as [|x l IH]; intros s Hr E; simpl in E; [by injection E as <-|].
  pose proof (act_step paged x s) as Hst. destruct (act paged x s) as [| |s1]; try done.
  apply (IH s1); [by econstructor|done].
Qed.

Lemma runs_fault paged l s0 s :
  mreach paged s0 s -> runs paged l s = Fault -> exists s', mreach paged s0 s' /\ mstep paged s' None.
Proof.
  revert s. induction l as [|x l IH]; intros s Hr E; simpl in E; [done|].
  pose proof (act_step paged x s) as Hst. destruct (act paged x s) as [| |s1]; try done; [by exists s|].
  apply (IH s1); [by econstructor|done].
Qed.

(** ** Actors *)

Definition root : ucred := mkCred 0 0 [].
(** A message of [n] bytes of type [ty], from a buffer with room behind it. *)
Definition a_msg (ty n : Z) (flg : Z) : snd_args := mkSnd 7 root (Some ty) (replicate 1000 ty) n flg.
Definition a_buf (n typ flg : Z) : rcv_args := mkRcv 8 root true (replicate 1000 0) n typ flg.

(** [msgget(key, IPC_CREAT | 0600)] and the identifier of the [n]-th queue. *)
Definition create (t : nat) (k : Z) : list action := [Call t (CallGet root k (IPC_CREAT + 384)); Go t 0].
Definition queue_id (n : Z) : Z := (n + 1) * 65536 + n.
Definition send (t : nat) (id : Z) (a : snd_args) : list action := [Call t (CallSnd id a); Go t 0; Go t 0].
Definition receive (t : nat) (id : Z) (a : rcv_args) : list action := [Call t (CallRcv id a)].
Definition remove (t : nat) (id : Z) : list action := [Call t (CallCtl root id IPC_RMID (inl 0) 0)].

Definition boot (n : nat) : mstate := msginit 1000 n.

(** The result of the last call of a thread: error and value. *)
Definition result (s : mstate) (t : nat) : option (Z * Z) :=
  match threads s !! t with Some (User (Some r)) => Some (r_error r, r_val r) | _ => None end.

(** ** Witnesses *)

Definition one_queue : mstate := match runs false (create 0 5) (boot 2) with State s => s | _ => boot 2 end.

Lemma one_queue_reach : mreach false (boot 2) one_queue.
Proof. apply (runs_reach false (create 0 5) _ (boot 2)); [apply mr_refl|]. vm_compute. reflexivity. Qed.

Lemma msg_invariant_witness : msg_ok one_queue /\ num_ques one_queue = 1.
Proof. split; [exact (proj1 (msg_invariant 1000 2 one_queue one_queue_reach))|reflexivity]. Defined.

Definition queue0 (s : mstate) : que :=
  match ques s !! 0%nat with
  | Some qq => qq
  | None => mkQue (mkMds (mkPerm 0 0 0 0 0 0 0) 0 0 0 0 0 0 0 0) 0 0 0 []
  end.

(** Ten bytes are stored as ten bytes. *)
Lemma msgsnd_appends_witness :
  exists s' mm, msgsnd_run 1 (queue_id 1) (a_msg 9 10 0) one_queue = Some s' /\ msg_ok s' /\
    contents s' 0 = [mm] /\ msg_type mm = 9 /\ concat (msg_data mm) = replicate 10 9.
Proof.
  destruct (msgsnd_appends one_queue 1 None (queue_id 1) (a_msg 9 10 0) 0 (queue0 one_queue) 9)
    as (s' & E & Hok & _ & _ & mm & Hc & Ht & _ & Hd);
    [exact (proj1 (mreach_ok 1000 2 one_queue one_queue_reach))|reflexivity|vm_compute; reflexivity|
     vm_compute; reflexivity|vm_compute; intuition congruence|vm_compute; congruence|reflexivity|
     vm_compute; congruence|reflexivity|reflexivity|lia|].
  exists s', mm. split; [exact E|]. split; [exact Hok|]. split; [rewrite Hc; reflexivity|].
  split; [exact Ht|]. rewrite Hd. vm_compute. reflexivity.
Defined.

(** A queue with messages of types 3, 1 and 3. *)
Definition send_three : list action :=
  create 0 5 ++ send 1 (queue_id 1) (a_msg 3 2 0) ++ send 1 (queue_id 1) (a_msg 1 2 0) ++
  send 1 (queue_id 1) (a_msg 3 4 0).
Definition three_msgs : mstate := match runs false send_three (boot 2) with State s => s | _ => boot 2 end.

Lemma three_msgs_reach : mreach false (boot 2) three_msgs.
Proof. apply (runs_reach false send_three _ (boot 2)); [apply mr_refl|]. vm_compute. reflexivity. Qed.

Lemma msgrcv_takes_first_witness :
  exists s', call false 0 (CallRcv (queue_id 1) (mkRcv 8 root true [0; 0; 0; 0; 0] 4 1 0)) three_msgs = Some s' /\
    msg_ok s' /\ contents s' 0 = [mkMsg 3 2 [[3; 3]]; mkMsg 3 4 [[3; 3; 3; 3]]] /\ result s' 0 = Some (0, 2).
Proof.
  destruct (mreach_ok 1000 2 three_msgs three_msgs_reach) as [Hok0 Hft0].
  destruct (msgrcv_takes_first three_msgs 0 (Some (mkRet 0 (queue_id 1) None [])) (queue_id 1)
    (mkRcv 8 root true [0; 0; 0; 0; 0] 4 1 0) 0 (queue0 three_msgs)) as (s' & E & Hok & _);
    [exact Hok0|exact Hft0|vm_compute; reflexivity|vm_compute; reflexivity|vm_compute; reflexivity|reflexivity|
     vm_compute; intuition congruence|].
  exists s'. split; [exact E|]. split; [exact Hok|].
  vm_compute in E. injection E as <-. split; reflexivity.
Defined.

(** ** Defects *)

(** If [copyout] sleeps, two receivers can be given the same
    message: the first frees it while the second still copies it out of the
    freed memory. *)
Lemma msgrcv_race :
  exists s, mreach true (boot 3) s /\ mstep true s None.
Proof.
  apply (runs_fault true (create 0 5 ++ send 0 (queue_id 1) (a_msg 3 10 0) ++
    receive 1 (queue_id 1) (a_buf 100 0 0) ++ receive 2 (queue_id 1) (a_buf 100 0 0) ++
    [Go 1 0; Go 2 0]) (boot 3) (boot 3)); [apply mr_refl|]. vm_compute. reflexivity.
Qed.

(** The bytes charged for a message exceed its length, so five
    messages of 250 bytes bring a queue of 2048 bytes to 2240; the space left
    is then computed as [2^64 - 192], and the limit no longer holds for the
    next senders: 40 messages of 376 bytes fit in. *)
Lemma msg_limit_bypassed :
  exists s qq, mreach false (boot 1) s /\ ques s !! 0%nat = Some qq /\
    msg_qbytes (q_ds qq) = 2048 /\ msg_cbytes (q_ds qq) = 17920 /\ MSGQ_SPACE qq = 2 ^ 64 - 15872.
Proof.
  set (l := create 0 5 ++ concat (replicate 5 (send 0 (queue_id 1) (a_msg 3 250 0))) ++
    concat (replicate 35 (send 0 (queue_id 1) (a_msg 3 376 0)))).
  destruct (runs false l (boot 1)) as [| |s] eqn:E; [vm_compute in E; discriminate..|].
  destruct (ques s !! 0%nat) as [qq|] eqn:Hq; [|vm_compute in E; injection E as <-; vm_compute in Hq; discriminate].
  exists s, qq. split; [exact (runs_reach false l _ _ s (mr_refl _ _) E)|]. split; [done|].
  vm_compute in E. injection E as <-. vm_compute in Hq. injection Hq as <-. vm_compute. done.
Qed.

(** A sender that waits for the global limit is woken by
    [msgrcv] only: when the messages that filled it go away with their queue,
    it sleeps on, although there are no messages left at all and its own queue
    is empty. *)
Lemma msg_rmid_loses_wakeup :
  exists s a, mreach false (boot 2) s /\ threads s !! 1%nat = Some (SndSleep 1 a) /\
    num_msgs s = 0 /\ contents s 1 = [] /\ maxmsgs s = 1.
Proof.
  set (l := create 0 5 ++ create 0 6 ++ concat (replicate 40 (send 0 (queue_id 1) (a_msg 3 1 0))) ++
    [Call 1 (CallSnd (queue_id 2) (a_msg 3 1 0))] ++ remove 0 (queue_id 1)).
  destruct (runs false l (boot 2)) as [| |s] eqn:E; [vm_compute in E; discriminate..|].
  exists s, (a_msg 3 1 0). split; [exact (runs_reach false l _ _ s (mr_refl _ _) E)|].
  vm_compute in E. injection E as <-. vm_compute. done.
Qed.

(** [n] queues with the keys 1 to [n]. *)
Definition create_many (n : nat) : list action :=
  concat ((fun k => create 0 (Z.of_nat k)) <$> List.seq 1 n).

(** The limit on the number of queues is checked before an
    allocation that may sleep, and not again: two threads that create the last
    queue together make one too many. *)
Lemma msgget_limit_race :
  exists s, mreach false (boot 2) s /\ num_ques s = MSGMNI + 1.
Proof.
  set (l := create_many 39 ++ [Call 0 (CallGet root 100 (IPC_CREAT + 384)); Call 1 (CallGet root 101 (IPC_CREAT + 384));
    Go 0 0; Go 1 0]).
  destruct (runs false l (boot 2)) as [| |s] eqn:E; [vm_compute in E; discriminate..|].
  exists s. split; [exact (runs_reach false l _ _ s (mr_refl _ _) E)|].
  vm_compute in E. injection E as <-. done.
Qed.

(** Indexes start at 1 and the table of the [sysctl] has
    [MSGMNI] entries from 0 on: with all the queues the system allows, the
    entry of the last one is written past the end of the table. *)
Lemma sysctl_msgids_overflow :
  exists s, mreach false (boot 1) s /\ num_ques s = MSGMNI /\ sysctl_msgids s = Some None.
Proof.
  set (l := create_many 40).
  destruct (runs false l (boot 1)) as [| |s] eqn:E; [vm_compute in E; discriminate..|].
  exists s. split; [exact (runs_reach false l _ _ s (mr_refl _ _) E)|].
  vm_compute in E. injection E as <-. split; vm_compute; reflexivity.
Qed.

(** The sequence number of an identifier is not looked at: the
    identifier of a queue that was removed goes on to name the queue that got
    its index. *)
Lemma msg_stale_identifier :
  exists s, mreach false (boot 1) s /\ num_ques s = 1 /\
    queue_id 1 <> 65536 * 3 + 1 /\ que_lookup (queue_id 1) s = que_lookup (65536 * 3 + 1) s /\
    que_lookup (queue_id 1) s = Some (Some 1%nat) /\ result s 0 = Some (0, 65536 * 3 + 1).
Proof.
  set (l := create 0 5 ++ remove 0 (queue_id 1) ++ create 0 6).
  destruct (runs false l (boot 1)) as [| |s] eqn:E; [vm_compute in E; discriminate..|].
  exists s. split; [exact (runs_reach false l _ _ s (mr_refl _ _) E)|].
  vm_compute in E. injection E as <-. vm_compute. repeat split; congruence.
Qed.

(** C37: defects of the message queues, each shown by a run: a receiver reads
    a message another one freed, when [copyout] sleeps; the byte limit of a
    queue is passed and then lost; a sender that waits for the global limit is
    not woken when the messages go away with their queue; one queue too many
    can be created; the [sysctl] writes past its table when all the queues are
    in use; and an identifier outlives its queue. *)
Theorem msg_defects :
  (exists s, mreach true (boot 3) s /\ mstep true s None) /\
  (exists s qq, mreach false (boot 1) s /\ ques s !! 0%nat = Some qq /\
     msg_qbytes (q_ds qq) < msg_cbytes (q_ds qq) /\ msg_qbytes (q_ds qq) < MSGQ_SPACE qq) /\
  (exists s q a, mreach false (boot 2) s /\ threads s !! 1%nat = Some (SndSleep q a) /\
     num_msgs s = 0 /\ contents s q = []) /\
  (exists s, mreach false (boot 2) s /\ MSGMNI < num_ques s) /\
  (exists s, mreach false (boot 1) s /\ num_ques s = MSGMNI /\ sysctl_msgids s = Some None) /\
  (exists s, mreach false (boot 1) s /\ que_lookup (queue_id 1) s = Some (Some 1%nat) /\
     result s 0 = Some (0, 65536 * 3 + 1) /\ queue_id 1 <> 65536 * 3 + 1).
Proof.
  split_and!.
  - exact msgrcv_race.
  - destruct msg_limit_bypassed as (s & qq & Hr & Hq & H1 & H2 & H3). exists s, qq.
    rewrite H1, H2, H3. split_and!; try done.
  - destruct msg_rmid_loses_wakeup as (s & a & Hr & Ht & Hn & Hc & _). by exists s, 1%nat, a.
  - destruct msgget_limit_race as (s & Hr & Hn). exists s. rewrite Hn. split; [done|]. unfold MSGMNI. lia.
  - exact sysctl_msgids_overflow.
  - destruct msg_stale_identifier as (s & Hr & _ & Hne & _ & Hl & Hres). by exists s.
Qed.
