(* ===== verification/Fd.v ===== *)
(** * File descriptor tables (sys/kern/kern_descrip.c, sys/sys/filedesc.h)

    The table of a process: the array [fd_ofiles] of pointers to open files,
    and two levels of bitmaps that find a free slot.  Bit [fd] of [fd_lomap]
    is set when descriptor [fd] is in use; bit [b] of [fd_himap] is set when
    the word [b] of [fd_lomap] is full.  A file is its address.  [None] is an
    access outside an array; the functions that change a table take it with
    its lock held. *)

From stdpp Require Import base numbers list option gmap.
From Stdlib Require Import ZArith Lia Bool.
From S2P Require Import Prelude.

Definition EBADF : Z := 9.
Definition ENFILE : Z := 23.
Definition EMFILE : Z := 24.

(** ** Geometry *)

Definition NDFILE : Z := 20.
Definition NDEXTENT : Z := 50.
Definition NDENTRIES : Z := 32.
Definition NDENTRYMASK : Z := 31.
Definition NDENTRYSHIFT : Z := 5.
Definition NDREDUCE (x : Z) : Z := Z.shiftr (x + NDENTRIES - 1) NDENTRYSHIFT.
Definition NDHISLOTS (x : Z) : Z := NDREDUCE (NDREDUCE x).
Definition NDLOSLOTS (x : Z) : Z := Z.shiftl (NDHISLOTS x) NDENTRYSHIFT.

(** [~0] of a [u_int]. *)
Definition ONES : Z := 4294967295.

Definition UF_EXCLOSE : Z := 1.
Definition FD_ADVLOCK : Z := 1.

Record filedesc := mkFd {
  fd_ofiles : list (option nat);
  fd_ofileflags : list Z;
  fd_nfiles : Z;
  fd_openfd : Z;
  fd_himap : list Z;
  fd_lomap : list Z;
  fd_lastfile : Z;
  fd_freefile : Z;
  fd_refcnt : Z;
  fd_flags : Z }.

Definition with_ofiles (o : list (option nat)) (f : filedesc) : filedesc :=
  mkFd o (fd_ofileflags f) (fd_nfiles f) (fd_openfd f) (fd_himap f) (fd_lomap f) (fd_lastfile f)
    (fd_freefile f) (fd_refcnt f) (fd_flags f).
Definition with_oflags (o : list Z) (f : filedesc) : filedesc :=
  mkFd (fd_ofiles f) o (fd_nfiles f) (fd_openfd f) (fd_himap f) (fd_lomap f) (fd_lastfile f)
    (fd_freefile f) (fd_refcnt f) (fd_flags f).
Definition with_maps (hi lo : list Z) (f : filedesc) : filedesc :=
  mkFd (fd_ofiles f) (fd_ofileflags f) (fd_nfiles f) (fd_openfd f) hi lo (fd_lastfile f)
    (fd_freefile f) (fd_refcnt f) (fd_flags f).
Definition with_counts (openfd lastfile freefile : Z) (f : filedesc) : filedesc :=
  mkFd (fd_ofiles f) (fd_ofileflags f) (fd_nfiles f) openfd (fd_himap f) (fd_lomap f) lastfile
    freefile (fd_refcnt f) (fd_flags f).
Definition with_refcnt (n : Z) (f : filedesc) : filedesc :=
  mkFd (fd_ofiles f) (fd_ofileflags f) (fd_nfiles f) (fd_openfd f) (fd_himap f) (fd_lomap f)
    (fd_lastfile f) (fd_freefile f) n (fd_flags f).

(** ** Bitmaps *)

(** [ffs]: the position of the lowest bit set, from 1; 0 when there is none. *)
Fixpoint ffs_from (n : nat) (k m : Z) : Z :=
  match n with
  | O => 0
  | S n => if Z.testbit m k then k + 1 else ffs_from n (k + 1) m
  end.
Definition ffs (m : Z) : Z := ffs_from 32 0 m.

(** The [while (off < maxoff)] loop: the first word that is not full. *)
Fixpoint next_word (n : nat) (bitmap : list Z) (off : Z) : option (option (Z * Z)) :=
  match n with
  | O => Some None
  | S n =>
      sub ← bitmap !! Z.to_nat off;
      if negb (sub =? ONES) then Some (Some (off, sub)) else next_word n bitmap (off + 1)
  end.

(** The first clear bit from [want] on, -1 when there is none. *)
Definition find_next_zero (bitmap : list Z) (want bits : Z) : option Z :=
  if want >? bits then Some (-1)
  else
    let found off sub := Some (Z.shiftl off NDENTRYSHIFT + ffs (Z.lxor sub ONES) - 1) in
    let scan off :=
      r ← next_word (Z.to_nat (NDLOSLOTS bits - off)) bitmap off;
      match r with Some (off, sub) => found off sub | None => Some (-1) end in
    let off := Z.shiftr want NDENTRYSHIFT in
    let i := Z.land want NDENTRYMASK in
    if negb (i =? 0) then
      w ← bitmap !! Z.to_nat off;
      let sub := Z.lor w (Z.shiftr ONES (NDENTRIES - i)) in
      if negb (sub =? ONES) then found off sub else scan (off + 1)
    else scan off.

(** The first loop of [find_last_set], down from word [off]. *)
Fixpoint last_word (n : nat) (bitmap : list Z) (off : Z) : option Z :=
  match n with
  | O => Some (-1)
  | S n =>
      w ← bitmap !! Z.to_nat off;
      if w =? 0 then last_word n bitmap (off - 1) else Some off
  end.
(** The second loop: [while (i > 0 && ofiles[i] == NULL) i--]. *)
Fixpoint last_file (n : nat) (ofiles : list (option nat)) (i : Z) : option Z :=
  match n with
  | O => Some i
  | S n =>
      o ← ofiles !! Z.to_nat i;
      match o with None => last_file n ofiles (i - 1) | Some _ => Some i end
  end.

Definition find_last_set (f : filedesc) (last : Z) : option Z :=
  let off := Z.shiftr (last - 1) NDENTRYSHIFT in
  off ← last_word (Z.to_nat (off + 1)) (fd_lomap f) off;
  if off <? 0 then Some 0
  else
    let i := Z.shiftl (off + 1) NDENTRYSHIFT - 1 in
    let i := if i >=? last then last - 1 else i in
    last_file (Z.to_nat i) (fd_ofiles f) i.

(** [1 << (n & NDENTRYMASK)] *)
Definition fdbit (n : Z) : Z := Z.shiftl 1 (Z.land n NDENTRYMASK).

Definition fd_used (f : filedesc) (fd : Z) : option filedesc :=
  let off := Z.shiftr fd NDENTRYSHIFT in
  w ← fd_lomap f !! Z.to_nat off;
  let w := Z.lor w (fdbit fd) in
  let lo := <[Z.to_nat off := w]> (fd_lomap f) in
  hi ← (if w =? ONES then
          h ← fd_himap f !! Z.to_nat (Z.shiftr off NDENTRYSHIFT);
          Some (<[Z.to_nat (Z.shiftr off NDENTRYSHIFT) := Z.lor h (fdbit off)]> (fd_himap f))
        else Some (fd_himap f));
  let f := with_maps hi lo f in
  Some (with_counts (fd_openfd f + 1)
          (if fd >? fd_lastfile f then fd else fd_lastfile f) (fd_freefile f) f).

Definition fd_unused (f : filedesc) (fd : Z) : option filedesc :=
  let off := Z.shiftr fd NDENTRYSHIFT in
  let free := if fd <? fd_freefile f then fd else fd_freefile f in
  w ← fd_lomap f !! Z.to_nat off;
  hi ← (if w =? ONES then
          h ← fd_himap f !! Z.to_nat (Z.shiftr off NDENTRYSHIFT);
          Some (<[Z.to_nat (Z.shiftr off NDENTRYSHIFT) := Z.ldiff h (fdbit off)]> (fd_himap f))
        else Some (fd_himap f));
  let f := with_maps hi (<[Z.to_nat off := Z.ldiff w (fdbit fd)]> (fd_lomap f)) f in
  if fd >? fd_lastfile f then None (* panic: fd_lastfile inconsistent *)
  else
    last ← (if fd =? fd_lastfile f then find_last_set f fd else Some (fd_lastfile f));
    Some (with_counts (fd_openfd f - 1) last free f).

(** ** Allocation *)

Inductive allocation :=
| Got (fd : Z) (f : filedesc)
| Failed (e : Z).

(** [fdalloc]; [lim] is the smaller of the resource limit and [maxfiles],
    and the fuel bounds the restarts (FdOps.v shows that it suffices). *)
Fixpoint fdalloc (fuel : nat) (lim : Z) (f : filedesc) (want : Z) : option allocation :=
  let last := Z.min (fd_nfiles f) lim in
  let i := if want <? fd_freefile f then fd_freefile f else want in
  let off := Z.shiftr i NDENTRYSHIFT in
  let fail := Some (Failed (if fd_nfiles f >=? lim then EMFILE else ENOSPC)) in
  new ← find_next_zero (fd_himap f) off (Z.shiftr (last + NDENTRIES - 1) NDENTRYSHIFT);
  if new =? -1 then fail
  else
    i ← find_next_zero (drop (Z.to_nat new) (fd_lomap f))
          (if new >? off then 0 else Z.land i NDENTRYMASK) NDENTRIES;
    if i =? -1 then
      match fuel with
      | O => None
      | S fuel => fdalloc fuel lim f (Z.shiftl (new + 1) NDENTRYSHIFT)
      end
    else
      let i := i + Z.shiftl new NDENTRYSHIFT in
      if i <? last then
        f ← fd_used f i;
        let f := with_counts (fd_openfd f) (fd_lastfile f)
                   (if want <=? fd_freefile f then i else fd_freefile f) f in
        _ ← fd_ofileflags f !! Z.to_nat i;
        Some (Got i (with_oflags (<[Z.to_nat i := 0]> (fd_ofileflags f)) f))
      else fail.

(** The table is enlarged; the new parts of the arrays are zero. *)
Definition grow {A} (x : A) (n : Z) (l : list A) : list A := l ++ replicate (Z.to_nat n - length l) x.

Definition fdexpand (f : filedesc) : filedesc :=
  let nfiles := if fd_nfiles f <? NDEXTENT then NDEXTENT else 2 * fd_nfiles f in
  let newofile := grow None nfiles (fd_ofiles f) in
  let newflags := grow 0 nfiles (fd_ofileflags f) in
  let more := NDHISLOTS nfiles >? NDHISLOTS (fd_nfiles f) in
  let hi := if more then grow 0 (NDHISLOTS nfiles) (fd_himap f) else fd_himap f in
  let lo := if more then grow 0 (NDLOSLOTS nfiles) (fd_lomap f) else fd_lomap f in
  mkFd newofile newflags nfiles (fd_openfd f) hi lo (fd_lastfile f) (fd_freefile f)
    (fd_refcnt f) (fd_flags f).

Definition fdinit : filedesc :=
  mkFd (replicate 20 None) (replicate 20 0) NDFILE 0 (replicate 1 0) (replicate 32 0) 0 0 1 0.
