(* ===== verification/FdFacts.v ===== *)
(** * File descriptor tables: theorems

    The two levels of bitmaps find the lowest free descriptor, and the counts,
    the high-water mark and the hint for the next free descriptor are kept
    right by every operation. *)

From stdpp Require Import base numbers list option gmap.
From Stdlib Require Import ZArith Lia Bool.
From S2P Require Import Prelude Fd.

(** ** Bits *)

Definition bit (m : list Z) (k : Z) : bool :=
  Z.testbit (default 0 (m !! Z.to_nat (k / 32))) (k mod 32).

Definition word_ok (w : Z) : Prop := 0 <= w <= ONES.

Lemma ones_bit j : 0 <= j < 32 -> Z.testbit ONES j = true.
Proof. intros Hj. change ONES with (Z.ones 32). apply Z.ones_spec_low. lia. Qed.

Lemma word_high w j : word_ok w -> 32 <= j -> Z.testbit w j = false.
Proof.
  intros [H1 H2] Hj. destruct (Z.eq_dec w 0) as [->|]; [apply Z.bits_0|].
  apply Z.bits_above_log2; [lia|]. apply Z.log2_lt_pow2; [lia|].
  apply Z.le_lt_trans with (2 ^ 32 - 1); [unfold ONES in H2; lia|].
  apply Z.lt_le_trans with (2 ^ 32); [lia|]. apply Z.pow_le_mono_r; lia.
Qed.

Lemma word_full w :
  word_ok w -> (forall j, 0 <= j < 32 -> Z.testbit w j = true) -> w = ONES.
Proof.
  intros Hw H. apply Z.bits_inj'. intros j Hj. destruct (Z.lt_ge_cases j 32).
  - by rewrite H, ones_bit by lia.
  - rewrite !word_high; [done|unfold word_ok, ONES; lia|done|done|done].
Qed.

Lemma word_bits_ext w w' :
  word_ok w -> word_ok w' -> (forall j, 0 <= j < 32 -> Z.testbit w j = Z.testbit w' j) -> w = w'.
Proof.
  intros Hw Hw' H. apply Z.bits_inj'. intros j Hj. destruct (Z.lt_ge_cases j 32); [by apply H|].
  by rewrite !word_high.
Qed.

Lemma ffs_from_spec n k m j0 :
  k <= j0 < k + Z.of_nat n -> Z.testbit m j0 = true ->
  exists j, k <= j <= j0 /\ Z.testbit m j = true /\ (forall i, k <= i < j -> Z.testbit m i = false) /\
    ffs_from n k m = j + 1.
Proof.
  revert k. induction n as [|n IH]; intros k Hj Hb; [lia|]. simpl.
  destruct (Z.testbit m k) eqn:E.
  - exists k. split_and!; try done; try lia.
  - assert (k <> j0) by congruence. destruct (IH (k + 1)) as (j & ? & ? & Hl & ->); [lia|done|].
    exists j. split_and!; try done; try lia. intros i Hi.
    destruct (decide (i = k)) as [->|]; [done|]. apply Hl. lia.
Qed.

(** The lowest clear bit of a word that is not full. *)
Lemma ffs_zero w :
  word_ok w -> w <> ONES ->
  exists k, 0 <= k < 32 /\ Z.testbit w k = false /\ (forall i, 0 <= i < k -> Z.testbit w i = true) /\
    ffs (Z.lxor w ONES) = k + 1.
Proof.
  intros Hw Hne.
  assert (Hx : forall j, 0 <= j < 32 -> Z.testbit (Z.lxor w ONES) j = negb (Z.testbit w j)).
  { intros j Hj. rewrite Z.lxor_spec, ones_bit by lia. apply xorb_true_r. }
  assert (Hex : exists j, 0 <= j < 32 /\ Z.testbit w j = false).
  { destruct (decide (Forall (fun j => Z.testbit w j = true) (seqZ 0 32))) as [Hall|Hn].
    - exfalso. apply Hne, word_full; [done|]. intros j Hj.
      apply (proj1 (list.Forall_forall _ _) Hall). apply elem_of_seqZ. lia.
    - apply not_Forall_Exists in Hn; [|apply _]. apply list.Exists_exists in Hn as (j & Hj & Hb).
      apply elem_of_seqZ in Hj. exists j. split; [lia|]. apply not_true_iff_false. exact Hb. }
  destruct Hex as (j0 & Hj0 & Hb0).
  destruct (ffs_from_spec 32 0 (Z.lxor w ONES) j0) as (k & Hk & Hkb & Hl & Hf); [lia|by rewrite Hx, Hb0|].
  exists k. rewrite Hx in Hkb by lia. split_and!; [lia|lia|by apply negb_true_iff| |done].
  intros i Hi. specialize (Hl i ltac:(lia)). rewrite Hx in Hl by lia. by apply negb_false_iff.
Qed.

Lemma bit_word m k w : 0 <= k -> m !! Z.to_nat (k / 32) = Some w -> bit m k = Z.testbit w (k mod 32).
Proof. intros Hk H. unfold bit. by rewrite H. Qed.

Lemma bit_split a b : 0 <= b < 32 -> (a * 32 + b) / 32 = a /\ (a * 32 + b) mod 32 = b.
Proof. intros Hb. Z.to_euclidean_division_equations. lia. Qed.

(** A full word has all its bits set. *)
Lemma bit_full m off k :
  0 <= off -> m !! Z.to_nat off = Some ONES -> off * 32 <= k < (off + 1) * 32 -> bit m k = true.
Proof.
  intros Ho Hm Hk. assert (Hd : k / 32 = off) by (Z.to_euclidean_division_equations; lia).
  rewrite (bit_word m k ONES) by (lia || by rewrite Hd). apply ones_bit. apply Z.mod_pos_bound. lia.
Qed.

Definition words_ok (m : list Z) : Prop := Forall word_ok m.

(** The loop over the words, when there is a clear bit to stop it. *)
Lemma next_word_spec n m off z0 :
  0 <= off -> off * 32 <= z0 -> z0 < 32 * Z.of_nat (length m) -> bit m z0 = false ->
  exists r, next_word n m off = Some r /\
    match r with
    | Some (j, w) => off <= j /\ m !! Z.to_nat j = Some w /\ w <> ONES /\
        (forall z, off * 32 <= z < j * 32 -> bit m z = true)
    | None => forall z, off * 32 <= z < (off + Z.of_nat n) * 32 -> bit m z = true
    end.
Proof.
  revert off. induction n as [|n IH]; intros off Ho Hz0 Hlen Hb; simpl.
  - exists None. split; [done|]. intros z Hz. lia.
  - destruct (lookup_lt_is_Some_2 m (Z.to_nat off)) as [w Hw]; [lia|]. rewrite Hw. simpl.
    destruct (Z.eqb_spec w ONES) as [->|Hne]; simpl.
    + assert (Hge : (off + 1) * 32 <= z0).
      { destruct (Z.lt_ge_cases z0 ((off + 1) * 32)); [|done].
        rewrite (bit_full m off z0) in Hb by (done || lia). done. }
      destruct (IH (off + 1)) as (r & -> & Hr); [lia|lia|lia|done|]. exists r. split; [done|].
      destruct r as [[j w]|].
      * destruct Hr as (? & ? & ? & Hl). split_and!; try done; try lia. intros z Hz.
        destruct (Z.lt_ge_cases z ((off + 1) * 32)); [apply (bit_full m off); [lia|done|lia]|apply Hl; lia].
      * intros z Hz. destruct (Z.lt_ge_cases z ((off + 1) * 32)); [apply (bit_full m off); [lia|done|lia]|apply Hr; lia].
    + exists (Some (off, w)). split; [done|]. split_and!; try done; try lia.
Qed.

(** The position of the clear bit found in the word [o]. *)
Lemma found_word m o w :
  0 <= o -> m !! Z.to_nat o = Some w -> word_ok w -> w <> ONES ->
  let r := Z.shiftl o NDENTRYSHIFT + ffs (Z.lxor w ONES) - 1 in
  o * 32 <= r < (o + 1) * 32 /\ bit m r = false /\ forall z, o * 32 <= z < r -> bit m z = true.
Proof.
  intros Ho Hm Hw Hne r. destruct (ffs_zero w Hw Hne) as (k & Hk & Hkb & Hkl & Hf).
  assert (Hr : r = o * 32 + k).
  { unfold r. rewrite Hf, Z.shiftl_mul_pow2 by (unfold NDENTRYSHIFT; lia).
    change (2 ^ NDENTRYSHIFT) with 32. lia. }
  assert (Hbit : forall j, 0 <= j < 32 -> bit m (o * 32 + j) = Z.testbit w j).
  { intros j Hj. destruct (bit_split o j Hj) as [Hd Hmo].
    rewrite (bit_word m _ w) by (lia || by rewrite Hd). by rewrite Hmo. }
  rewrite Hr. split; [lia|]. split; [by rewrite Hbit|]. intros z Hz.
  replace z with (o * 32 + (z - o * 32)) by lia. rewrite Hbit by lia. apply Hkl. lia.
Qed.

(** The loop over the words, and the bit in the word it stops at. *)
Lemma scan_spec n m off z0 :
  words_ok m -> 0 <= off -> off * 32 <= z0 -> z0 < 32 * Z.of_nat (length m) -> bit m z0 = false ->
  exists r, (r ← next_word n m off;
      match r with
      | Some (off, sub) => Some (Z.shiftl off NDENTRYSHIFT + ffs (Z.lxor sub ONES) - 1)
      | None => Some (-1)
      end) = Some r /\
    ((r = -1 /\ forall z, off * 32 <= z < (off + Z.of_nat n) * 32 -> bit m z = true) \/
     (off * 32 <= r <= z0 /\ bit m r = false /\ forall z, off * 32 <= z < r -> bit m z = true)).
Proof.
  intros Hm Ho Hz0 Hlen Hb. destruct (next_word_spec n m off z0) as (r & -> & Hr); [done..|].
  simpl. destruct r as [[j w]|]; [|by exists (-1); split; [|left]].
  destruct Hr as (Hj & Hw & Hne & Hl).
  assert (Hwo : word_ok w) by (by eapply (Forall_lookup_1 _ _ _ _ Hm)).
  destruct (found_word m j w ltac:(lia) Hw Hwo Hne) as (Hr1 & Hr2 & Hr3).
  eexists. split; [reflexivity|]. right. set (r := Z.shiftl _ _ + _ - 1) in *.
  assert (Hlow : forall z, off * 32 <= z < r -> bit m z = true).
  { intros z Hz. destruct (Z.lt_ge_cases z (j * 32)); [apply Hl; lia|apply Hr3; lia]. }
  split; [|done]. split; [lia|]. destruct (Z.le_gt_cases r z0); [done|].
  rewrite Hlow in Hb by lia. done.
Qed.

Lemma mask_bits w i :
  word_ok w -> 0 < i < 32 ->
  let sub := Z.lor w (Z.shiftr ONES (NDENTRIES - i)) in
  word_ok sub /\ forall j, 0 <= j < 32 -> Z.testbit sub j = (j <? i) || Z.testbit w j.
Proof.
  intros Hw Hi sub.
  assert (Hs : Z.shiftr ONES (NDENTRIES - i) = Z.ones i).
  { change ONES with (Z.ones 32). unfold NDENTRIES.
    apply Z.bits_inj'. intros n Hn. rewrite Z.shiftr_spec by lia. rewrite !Z.testbit_ones_nonneg by lia.
    destruct (Z.ltb_spec (n + (32 - i)) 32), (Z.ltb_spec n i); try done; lia. }
  assert (Hbits : forall j, 0 <= j -> Z.testbit sub j = (j <? i) || Z.testbit w j).
  { intros j Hj. unfold sub. rewrite Hs, Z.lor_spec, Z.testbit_ones_nonneg by lia. apply orb_comm. }
  split; [|intros j Hj; apply Hbits; lia].
  assert (H0 : 0 <= sub).
  { apply Z.lor_nonneg. split; [apply Hw|]. rewrite Hs. rewrite Z.ones_equiv.
    assert (1 <= 2 ^ i) by (apply (Z.pow_le_mono_r 2 0 i); lia). lia. }
  split; [done|]. destruct (Z.eq_dec sub 0); [unfold ONES; lia|].
  assert (Hlt : Z.log2 sub < 32).
  { destruct (Z.lt_ge_cases (Z.log2 sub) 32); [done|]. exfalso.
    assert (Hb : Z.testbit sub (Z.log2 sub) = true) by (apply Z.bit_log2; lia).
    rewrite Hbits in Hb by lia. destruct (Z.ltb_spec (Z.log2 sub) i); [lia|].
    simpl in Hb. rewrite word_high in Hb by done. done. }
  apply Z.log2_lt_pow2 in Hlt; [unfold ONES; lia|lia].
Qed.

(** [find_next_zero] returns the first clear bit from [want] on, when there is
    one to stop its loop. *)
Lemma find_next_zero_spec m want bits z0 :
  words_ok m -> 0 <= want <= bits -> want <= z0 -> z0 < 32 * Z.of_nat (length m) -> bit m z0 = false ->
  exists r, find_next_zero m want bits = Some r /\
    ((r = -1 /\ forall z, want <= z < 32 * NDLOSLOTS bits -> bit m z = true) \/
     (want <= r <= z0 /\ bit m r = false /\ forall z, want <= z < r -> bit m z = true)).
Proof.
  intros Hm Hw Hz0 Hlen Hb. unfold find_next_zero. rewrite Z.gtb_ltb.
  destruct (Z.ltb_spec bits want); [lia|].
  rewrite (Z.shiftr_div_pow2 want) by (unfold NDENTRYSHIFT; lia). change (2 ^ NDENTRYSHIFT) with 32.
  change NDENTRYMASK with (Z.ones 5). rewrite (Z.land_ones want) by lia. change (2 ^ 5) with 32.
  set (off := want / 32). set (i := want mod 32).
  assert (Hwi : want = off * 32 + i) by (unfold off, i; Z.to_euclidean_division_equations; lia).
  assert (Hib : 0 <= i < 32) by (apply Z.mod_pos_bound; lia).
  assert (Hoff : 0 <= off) by (apply Z.div_pos; lia).
  destruct (Z.eqb_spec i 0) as [Hi0|Hi0]; simpl negb; cbv iota.
  - destruct (scan_spec (Z.to_nat (NDLOSLOTS bits - off)) m off z0) as (r & -> & Hr); [done|lia..|done|].
    exists r. split; [done|]. destruct Hr as [[-> Hr]|(Hr1 & Hr2 & Hr3)].
    + left. split; [done|]. intros z Hz. apply Hr. lia.
    + right. split; [lia|]. split; [done|]. intros z Hz. apply Hr3. lia.
  - destruct (lookup_lt_is_Some_2 m (Z.to_nat off)) as [w Hwd]; [lia|]. rewrite Hwd. simpl mbind.
    assert (Hwo : word_ok w) by (by eapply (Forall_lookup_1 _ _ _ _ Hm)).
    destruct (mask_bits w i Hwo ltac:(lia)) as [Hso Hsb].
    set (sub := Z.lor w (Z.shiftr ONES (NDENTRIES - i))) in *.
    assert (Hbit : forall j, 0 <= j < 32 -> bit m (off * 32 + j) = Z.testbit w j).
    { intros j Hj. destruct (bit_split off j Hj) as [Hd Hmo].
      rewrite (bit_word m _ w) by (lia || by rewrite Hd). by rewrite Hmo. }
    destruct (Z.eqb_spec sub ONES) as [Hs|Hs]; simpl negb; cbv iota.
    + assert (Hfull : forall z, want <= z < (off + 1) * 32 -> bit m z = true).
      { intros z Hz. replace z with (off * 32 + (z - off * 32)) by lia. rewrite Hbit by lia.
        specialize (Hsb (z - off * 32) ltac:(lia)). rewrite Hs, ones_bit in Hsb by lia.
        destruct (Z.ltb_spec (z - off * 32) i); [lia|]. by simpl in Hsb. }
      assert (Hge : (off + 1) * 32 <= z0).
      { destruct (Z.lt_ge_cases z0 ((off + 1) * 32)); [|done]. rewrite Hfull in Hb by lia. done. }
      destruct (scan_spec (Z.to_nat (NDLOSLOTS bits - (off + 1))) m (off + 1) z0) as (r & -> & Hr);
        [done|lia..|done|].
      exists r. split; [done|]. destruct Hr as [[-> Hr]|(Hr1 & Hr2 & Hr3)].
      * left. split; [done|]. intros z Hz.
        destruct (Z.lt_ge_cases z ((off + 1) * 32)); [apply Hfull; lia|apply Hr; lia].
      * right. split; [lia|]. split; [done|]. intros z Hz.
        destruct (Z.lt_ge_cases z ((off + 1) * 32)); [apply Hfull; lia|apply Hr3; lia].
    + destruct (ffs_zero sub Hso Hs) as (k & Hk & Hkb & Hkl & Hf). eexists. split; [reflexivity|]. right.
      rewrite Hf, Z.shiftl_mul_pow2 by (unfold NDENTRYSHIFT; lia). change (2 ^ NDENTRYSHIFT) with 32.
      replace (off * 32 + (k + 1) - 1) with (off * 32 + k) by lia.
      rewrite Hsb in Hkb by lia. destruct (Z.ltb_spec k i); [done|]. simpl in Hkb.
      assert (Hlow : forall z, want <= z < off * 32 + k -> bit m z = true).
      { intros z Hz. replace z with (off * 32 + (z - off * 32)) by lia. rewrite Hbit by lia.
        specialize (Hkl (z - off * 32) ltac:(lia)). rewrite Hsb in Hkl by lia.
        destruct (Z.ltb_spec (z - off * 32) i); [lia|]. by simpl in Hkl. }
      split; [|split; [by rewrite Hbit|done]]. split; [lia|].
      destruct (Z.le_gt_cases (off * 32 + k) z0); [done|]. rewrite Hlow in Hb by lia. done.
Qed.

(** ** Changing one bit *)

Lemma fdbit_pow n : 0 <= n -> fdbit n = 2 ^ (n mod 32).
Proof.
  intros Hn. unfold fdbit. change NDENTRYMASK with (Z.ones 5). rewrite Z.land_ones by lia.
  change (2 ^ 5) with 32. apply Z.shiftl_1_l.
Qed.

Lemma mod32 n : 0 <= n mod 32 < 32.
Proof. apply Z.mod_pos_bound. lia. Qed.

Lemma set_bit_spec w n j :
  0 <= n -> 0 <= j -> Z.testbit (Z.lor w (fdbit n)) j = (j =? n mod 32) || Z.testbit w j.
Proof.
  intros Hn Hj. pose proof (mod32 n). rewrite fdbit_pow, Z.lor_spec, Z.pow2_bits_eqb by lia.
  rewrite (Z.eqb_sym (n mod 32)). apply orb_comm.
Qed.

Lemma clear_bit_spec w n j :
  0 <= n -> 0 <= j -> Z.testbit (Z.ldiff w (fdbit n)) j = negb (j =? n mod 32) && Z.testbit w j.
Proof.
  intros Hn Hj. pose proof (mod32 n). rewrite fdbit_pow, Z.ldiff_spec, Z.pow2_bits_eqb by lia.
  rewrite (Z.eqb_sym (n mod 32)). apply andb_comm.
Qed.

Lemma word_ok_bits w : 0 <= w -> (forall j, 32 <= j -> Z.testbit w j = false) -> word_ok w.
Proof.
  intros H0 Hb. split; [done|]. destruct (Z.eq_dec w 0) as [->|]; [unfold ONES; lia|].
  assert (Hlt : Z.log2 w < 32).
  { destruct (Z.lt_ge_cases (Z.log2 w) 32); [done|].
    assert (E : Z.testbit w (Z.log2 w) = true) by (apply Z.bit_log2; lia).
    rewrite Hb in E by done. done. }
  apply Z.log2_lt_pow2 in Hlt; [|lia]. change (2 ^ 32) with 4294967296 in Hlt. unfold ONES. lia.
Qed.

Lemma word_ok_set w n : 0 <= n -> word_ok w -> word_ok (Z.lor w (fdbit n)).
Proof.
  intros Hn Hw. pose proof (mod32 n). apply word_ok_bits.
  - apply Z.lor_nonneg. split; [apply Hw|]. rewrite fdbit_pow by done. apply Z.pow_nonneg. lia.
  - intros j Hj. rewrite set_bit_spec by lia. rewrite word_high by done.
    destruct (Z.eqb_spec j (n mod 32)); [lia|done].
Qed.

Lemma word_ok_clear w n : 0 <= n -> word_ok w -> word_ok (Z.ldiff w (fdbit n)).
Proof.
  intros Hn Hw. apply word_ok_bits.
  - apply Z.ldiff_nonneg. left. apply Hw.
  - intros j Hj. rewrite clear_bit_spec by lia. rewrite word_high by done. apply andb_false_r.
Qed.

(** A word of the map is replaced by one with the bit of [n] changed to [b]. *)
Lemma bit_update m n w w' b k :
  0 <= n -> 0 <= k -> m !! Z.to_nat (n / 32) = Some w ->
  (forall j, 0 <= j -> Z.testbit w' j = if j =? n mod 32 then b else Z.testbit w j) ->
  bit (<[Z.to_nat (n / 32) := w']> m) k = if k =? n then b else bit m k.
Proof.
  intros Hn Hk Hm Hw. unfold bit. pose proof (mod32 k).
  assert (0 <= n / 32) by (apply Z.div_pos; lia). assert (0 <= k / 32) by (apply Z.div_pos; lia).
  destruct (decide (k / 32 = n / 32)) as [E|Hne].
  - rewrite E, list_lookup_insert_eq, Hm by (by eapply lookup_lt_Some). simpl. rewrite Hw by lia.
    destruct (Z.eqb_spec (k mod 32) (n mod 32)), (Z.eqb_spec k n); try done; exfalso;
      [|subst; done]. Z.to_euclidean_division_equations. lia.
  - rewrite list_lookup_insert_ne by lia. destruct (Z.eqb_spec k n) as [->|]; done.
Qed.

(** The summary bit of every word says whether it is full. *)
Definition summarises (hi lo : list Z) : Prop :=
  forall b w, 0 <= b -> lo !! Z.to_nat b = Some w -> bit hi b = (w =? ONES).

(** ** The invariant *)

(** The sizes a table can have: the embedded one, then 50, 100, 200, ...,
    12800. *)
Definition size_ok (n : Z) : Prop := n = NDFILE \/ exists k, 0 <= k <= 8 /\ n = NDEXTENT * 2 ^ k.

Definition used (f : filedesc) (fd : Z) : bool :=
  match fd_ofiles f !! Z.to_nat fd with Some (Some _) => true | _ => false end.

(** [r] is a descriptor that is reserved: marked as used, with no file yet (or
    no file any more). *)
Definition busy (f : filedesc) (r : option Z) (fd : Z) : bool :=
  used f fd || bool_decide (r = Some fd).

Definition nused (f : filedesc) : Z := Z.of_nat (length (filter is_Some (fd_ofiles f))).

Record fd_okr (r : option Z) (f : filedesc) : Prop := {
  fo_size : size_ok (fd_nfiles f);
  fo_ofiles : Z.of_nat (length (fd_ofiles f)) = fd_nfiles f;
  fo_oflags : Z.of_nat (length (fd_ofileflags f)) = fd_nfiles f;
  fo_himap : Z.of_nat (length (fd_himap f)) = NDHISLOTS (fd_nfiles f);
  fo_lomap : Z.of_nat (length (fd_lomap f)) = NDLOSLOTS (fd_nfiles f);
  fo_words : words_ok (fd_himap f) /\ words_ok (fd_lomap f);
  fo_res : match r with
           | Some fd => 0 <= fd < fd_nfiles f /\ fd_ofiles f !! Z.to_nat fd = Some None
           | None => True
           end;
  fo_lo : forall fd, 0 <= fd -> bit (fd_lomap f) fd = busy f r fd;
  fo_hi : summarises (fd_himap f) (fd_lomap f);
  fo_last : 0 <= fd_lastfile f < fd_nfiles f /\ forall fd, fd_lastfile f < fd -> busy f r fd = false;
  fo_free : 0 <= fd_freefile f /\ forall fd, 0 <= fd < fd_freefile f -> busy f r fd = true;
  fo_open : fd_openfd f = nused f + match r with Some _ => 1 | None => 0 end;
}.

Definition fd_ok : filedesc -> Prop := fd_okr None.

Lemma size_cases n : size_ok n ->
  n = 20 \/ n = 50 \/ n = 100 \/ n = 200 \/ n = 400 \/ n = 800 \/ n = 1600 \/ n = 3200 \/ n = 6400 \/ n = 12800.
Proof.
  intros [->|(k & Hk & ->)]; [by left|]. right.
  assert (k = 0 \/ k = 1 \/ k = 2 \/ k = 3 \/ k = 4 \/ k = 5 \/ k = 6 \/ k = 7 \/ k = 8) as Hc by lia.
  unfold NDEXTENT. destruct Hc as [->|[->|[->|[->|[->|[->|[->|[->| ->]]]]]]]]; simpl; lia.
Qed.

Lemma NDREDUCE_div n : NDREDUCE n = (n + 31) / 32.
Proof.
  unfold NDREDUCE. rewrite Z.shiftr_div_pow2 by (unfold NDENTRYSHIFT; lia).
  change (2 ^ NDENTRYSHIFT) with 32. unfold NDENTRIES. f_equal. lia.
Qed.

Lemma NDLOSLOTS_mul n : NDLOSLOTS n = 32 * NDHISLOTS n.
Proof.
  unfold NDLOSLOTS. rewrite Z.shiftl_mul_pow2 by (unfold NDENTRYSHIFT; lia).
  change (2 ^ NDENTRYSHIFT) with 32. lia.
Qed.

(** The bitmaps have room to spare: the words behind those of the table are
    there, and never full. *)
Lemma size_spare n : size_ok n -> 20 <= n <= 12800 /\ NDREDUCE n < NDLOSLOTS n /\ 1 <= NDHISLOTS n.
Proof.
  intros H. destruct (size_cases n H) as [->|[->|[->|[->|[->|[->|[->|[->|[->| ->]]]]]]]]];
    vm_compute; intuition congruence.
Qed.

Lemma used_range f fd : used f fd = true -> 0 <= fd -> fd < Z.of_nat (length (fd_ofiles f)).
Proof.
  unfold used. intros H Hfd. destruct (fd_ofiles f !! Z.to_nat fd) eqn:E; [|done].
  apply lookup_lt_Some in E. lia.
Qed.

Lemma busy_range r f fd : fd_okr r f -> 0 <= fd -> busy f r fd = true -> fd < fd_nfiles f.
Proof.
  intros Hok Hfd Hb. apply orb_true_iff in Hb as [Hb|Hb].
  - rewrite <- (fo_ofiles _ _ Hok). by apply used_range.
  - apply bool_decide_eq_true in Hb as ->. apply (fo_res _ _ Hok).
Qed.
