(* ===== verification/FdOps.v ===== *)
(** * File descriptor tables: the operations on the bitmaps *)

From stdpp Require Import base numbers list option gmap.
From Stdlib Require Import ZArith Lia Bool.
From S2P Require Import Prelude Fd FdFacts.

Lemma shift32 n : Z.shiftr n NDENTRYSHIFT = n / 32.
Proof. rewrite Z.shiftr_div_pow2 by (unfold NDENTRYSHIFT; lia). done. Qed.

(** The words of a descriptor in the two maps. *)
Lemma words_of r f fd :
  fd_okr r f -> 0 <= fd < fd_nfiles f ->
  (exists w, fd_lomap f !! Z.to_nat (fd / 32) = Some w /\ word_ok w) /\
  (exists h, fd_himap f !! Z.to_nat (fd / 32 / 32) = Some h /\ word_ok h) /\ 0 <= fd / 32.
Proof.
  intros Hok Hfd. destruct (size_spare _ (fo_size _ _ Hok)) as (Hn & Hsp & Hh).
  pose proof (fo_lomap _ _ Hok) as Hl. pose proof (fo_himap _ _ Hok) as Hi.
  rewrite NDLOSLOTS_mul in *. rewrite NDREDUCE_div in Hsp.
  destruct (fo_words _ _ Hok) as [Hwh Hwl].
  assert (H0 : 0 <= fd / 32) by (apply Z.div_pos; lia).
  assert (H1 : fd / 32 < 32 * NDHISLOTS (fd_nfiles f)).
  { apply Z.le_lt_trans with ((fd_nfiles f + 31) / 32); [apply Z.div_le_mono; lia|lia]. }
  assert (H2 : fd / 32 / 32 < NDHISLOTS (fd_nfiles f)) by (apply Z.div_lt_upper_bound; lia).
  assert (H3 : 0 <= fd / 32 / 32) by (apply Z.div_pos; lia).
  split_and!; [| |done].
  - destruct (lookup_lt_is_Some_2 (fd_lomap f) (Z.to_nat (fd / 32))) as [w Hw]; [lia|].
    exists w. split; [done|]. by eapply (Forall_lookup_1 _ _ _ _ Hwl).
  - destruct (lookup_lt_is_Some_2 (fd_himap f) (Z.to_nat (fd / 32 / 32))) as [h Hh']; [lia|].
    exists h. split; [done|]. by eapply (Forall_lookup_1 _ _ _ _ Hwh).
Qed.

(** The summary after the word of [fd] changed from [w] to [w']. *)
Lemma summary_update hi lo fd w w' hi' :
  summarises hi lo -> 0 <= fd -> lo !! Z.to_nat (fd / 32) = Some w ->
  (forall b, 0 <= b -> bit hi' b = if b =? fd / 32 then w' =? ONES else bit hi b) ->
  summarises hi' (<[Z.to_nat (fd / 32) := w']> lo).
Proof.
  intros Hs Hfd Hw Hb b x Hb0 Hx. rewrite Hb by done.
  assert (0 <= fd / 32) by (apply Z.div_pos; lia).
  destruct (Z.eqb_spec b (fd / 32)) as [->|Hne].
  - rewrite list_lookup_insert_eq in Hx by (by eapply lookup_lt_Some). by injection Hx as <-.
  - rewrite list_lookup_insert_ne in Hx by lia. by apply Hs.
Qed.

Lemma words_ok_insert m i w : words_ok m -> word_ok w -> words_ok (<[i := w]> m).
Proof. intros Hm Hw. by apply Forall_insert. Qed.

(** A descriptor becomes used. *)
Lemma fd_used_spec f fd :
  fd_ok f -> 0 <= fd < fd_nfiles f -> used f fd = false ->
  exists f', fd_used f fd = Some f' /\ fd_okr (Some fd) f' /\ fd_ofiles f' = fd_ofiles f /\
    fd_ofileflags f' = fd_ofileflags f /\ fd_nfiles f' = fd_nfiles f /\ fd_freefile f' = fd_freefile f /\
    fd_refcnt f' = fd_refcnt f /\ fd_flags f' = fd_flags f /\
    fd_lastfile f' = Z.max (fd_lastfile f) fd.
Proof.
  intros Hok Hfd Hu. destruct (words_of _ _ _ Hok Hfd) as ((w & Hw & Hwo) & (h & Hh & Hho) & H0).
  unfold fd_used. rewrite !shift32, Hw. simpl.
  set (w' := Z.lor w (fdbit fd)).
  assert (Hw' : forall j, 0 <= j -> Z.testbit w' j = if j =? fd mod 32 then true else Z.testbit w j).
  { intros j Hj. unfold w'. rewrite set_bit_spec by lia. by destruct (j =? fd mod 32). }
  assert (Hnone : fd_ofiles f !! Z.to_nat fd = Some None).
  { pose proof (fo_ofiles _ _ Hok). destruct (lookup_lt_is_Some_2 (fd_ofiles f) (Z.to_nat fd)) as [o Ho]; [lia|].
    unfold used in Hu. rewrite Ho in *. by destruct o. }
  assert (Hwne : w <> ONES).
  { intros ->. pose proof (fo_lo _ _ Hok fd ltac:(lia)) as Hb.
    rewrite (bit_word _ fd _ ltac:(lia) Hw), ones_bit in Hb by apply mod32.
    unfold busy in Hb. rewrite Hu in Hb. done. }
  destruct (fo_words _ _ Hok) as [Hwh Hwl].
  assert (Hhi : exists hi, (if w' =? ONES then h ← fd_himap f !! Z.to_nat (fd / 32 / 32);
      Some (<[Z.to_nat (fd / 32 / 32) := Z.lor h (fdbit (fd / 32))]> (fd_himap f)) else Some (fd_himap f)) = Some hi /\
    length hi = length (fd_himap f) /\ words_ok hi /\
    forall b, 0 <= b -> bit hi b = if b =? fd / 32 then w' =? ONES else bit (fd_himap f) b).
  { destruct (Z.eqb_spec w' ONES) as [E|E].
    - rewrite Hh. simpl. eexists. split; [reflexivity|]. split; [apply length_insert|].
      split; [apply words_ok_insert; [done|by apply word_ok_set]|]. intros b Hb.
      rewrite (bit_update _ (fd / 32) h _ true); try done. intros j Hj. rewrite set_bit_spec by lia.
      by destruct (j =? (fd / 32) mod 32).
    - eexists. split; [reflexivity|]. split_and!; try done. intros b Hb.
      destruct (Z.eqb_spec b (fd / 32)) as [->|]; [|done].
      rewrite (fo_hi _ _ Hok _ w) by done. by apply Z.eqb_neq. }
  destruct Hhi as (hi & -> & Hlen & Hhw & Hhb). simpl. eexists. split; [reflexivity|]. simpl.
  assert (Hbusy : forall x, busy f (Some fd) x = (x =? fd) || busy f None x).
  { intros x. unfold busy. destruct (Z.eqb_spec x fd) as [->|].
    - rewrite (bool_decide_true (Some fd = Some fd)) by done. apply orb_true_r.
    - rewrite !bool_decide_false by congruence. done. }
  split; [|split_and!; try done; rewrite Z.gtb_ltb; destruct (Z.ltb_spec (fd_lastfile f) fd); lia].
  destruct Hok as [S1 S2 S3 S4 S5 S6 S7 S8 S9 [S10 S10'] [S11 S11'] S12].
  constructor; simpl; try done.
  - by rewrite Hlen.
  - by rewrite length_insert.
  - split; [done|]. apply words_ok_insert; [done|apply word_ok_set; [lia|done]].
  - intros x Hx. change (busy _ (Some fd) x) with (busy f (Some fd) x).
    rewrite (bit_update _ fd w w' true) by (done || lia). rewrite Hbusy, S8 by done. by destruct (x =? fd).
  - apply (summary_update (fd_himap f) _ fd w); [done|lia|done|done].
  - rewrite Z.gtb_ltb. split; [destruct (Z.ltb_spec (fd_lastfile f) fd); lia|]. intros x Hx.
    change (busy _ (Some fd) x) with (busy f (Some fd) x). rewrite Hbusy.
    destruct (Z.ltb_spec (fd_lastfile f) fd); rewrite S10' by lia; destruct (Z.eqb_spec x fd); try done; lia.
  - split; [done|]. intros x Hx. change (busy _ (Some fd) x) with (busy f (Some fd) x).
    rewrite Hbusy, S11' by done. apply orb_true_r.
  - rewrite S12. unfold nused. simpl. lia.
Qed.

(** The file of a reserved descriptor is set. *)
Lemma set_file_ok f fd x :
  fd_okr (Some fd) f -> fd_ok (with_ofiles (<[Z.to_nat fd := Some x]> (fd_ofiles f)) f).
Proof.
  intros Hok. pose proof (fo_res _ _ Hok) as [Hfd Hnone].
  assert (Hbusy : forall y, 0 <= y ->
    busy (with_ofiles (<[Z.to_nat fd := Some x]> (fd_ofiles f)) f) None y = busy f (Some fd) y).
  { intros y Hy. unfold busy, used. simpl. destruct (decide (y = fd)) as [->|Hne].
    - rewrite list_lookup_insert_eq by (by eapply lookup_lt_Some).
      rewrite Hnone. by rewrite bool_decide_true.
    - rewrite list_lookup_insert_ne by lia. f_equal. rewrite !bool_decide_false by congruence. done. }
  destruct Hok as [S1 S2 S3 S4 S5 S6 S7 S8 S9 [S10 S10'] [S11 S11'] S12].
  constructor; simpl; try done.
  - by rewrite length_insert.
  - intros y Hy. by rewrite Hbusy, S8.
  - split; [done|]. intros y Hy. rewrite Hbusy by lia. by apply S10'.
  - split; [done|]. intros y Hy. rewrite Hbusy by lia. by apply S11'.
  - rewrite S12. unfold nused. simpl.
    rewrite <- (take_drop_middle _ _ _ Hnone), insert_app_r_alt by (rewrite length_take; lia).
    rewrite length_take, Nat.min_l, Nat.sub_diag by (apply lookup_lt_Some in Hnone; lia). simpl.
    rewrite !list.filter_app, !length_app, !filter_cons. rewrite (decide_True (P := is_Some (Some x))) by done.
    rewrite decide_False by (by intros []). simpl. lia.
Qed.

(** The file of a descriptor in use is taken out. *)
Lemma clear_file_ok f fd x :
  fd_ok f -> 0 <= fd -> fd_ofiles f !! Z.to_nat fd = Some (Some x) ->
  fd_okr (Some fd) (with_ofiles (<[Z.to_nat fd := None]> (fd_ofiles f)) f).
Proof.
  intros Hok Hfd Hx.
  assert (Hbusy : forall y, 0 <= y ->
    busy (with_ofiles (<[Z.to_nat fd := None]> (fd_ofiles f)) f) (Some fd) y = busy f None y).
  { intros y Hy. unfold busy, used. simpl. destruct (decide (y = fd)) as [->|Hne].
    - rewrite Hx, list_lookup_insert_eq by (by eapply lookup_lt_Some). by rewrite bool_decide_true.
    - rewrite list_lookup_insert_ne by lia. f_equal. rewrite !bool_decide_false by congruence. done. }
  assert (Hlt : fd < fd_nfiles f) by (rewrite <- (fo_ofiles _ _ Hok); apply lookup_lt_Some in Hx; lia).
  destruct Hok as [S1 S2 S3 S4 S5 S6 S7 S8 S9 [S10 S10'] [S11 S11'] S12].
  constructor; simpl; try done.
  - by rewrite length_insert.
  - split; [lia|]. apply list_lookup_insert_eq. by eapply lookup_lt_Some.
  - intros y Hy. by rewrite Hbusy, S8.
  - split; [done|]. intros y Hy. rewrite Hbusy by lia. by apply S10'.
  - split; [done|]. intros y Hy. rewrite Hbusy by lia. by apply S11'.
  - rewrite S12. unfold nused. simpl.
    rewrite <- (take_drop_middle _ _ _ Hx), insert_app_r_alt by (rewrite length_take; lia).
    rewrite length_take, Nat.min_l, Nat.sub_diag by (apply lookup_lt_Some in Hx; lia). simpl.
    rewrite !list.filter_app, !length_app, !filter_cons. rewrite (decide_True (P := is_Some (Some x))) by done.
    rewrite decide_False by (by intros []). simpl. lia.
Qed.

(** ** The high-water mark *)

Lemma last_word_spec n m off :
  Z.of_nat n = off + 1 -> off < Z.of_nat (length m) ->
  exists j, last_word n m off = Some j /\ -1 <= j <= off /\
    (forall i, j < i <= off -> m !! Z.to_nat i = Some 0).
Proof.
  revert off. induction n as [|n IH]; intros off Hn Hlen; simpl.
  - exists (-1). split; [done|]. split; [lia|]. intros i Hi. lia.
  - destruct (lookup_lt_is_Some_2 m (Z.to_nat off)) as [w Hw]; [lia|]. rewrite Hw. simpl.
    destruct (Z.eqb_spec w 0) as [->|].
    + destruct (IH (off - 1)) as (j & -> & Hj & Hz); [lia|lia|]. exists j. split; [done|]. split; [lia|].
      intros i Hi. destruct (decide (i = off)) as [->|]; [done|]. apply Hz. lia.
    + exists off. split; [done|]. split; [lia|]. intros i Hi. lia.
Qed.

Lemma last_file_spec n o i :
  Z.of_nat n = i -> i < Z.of_nat (length o) ->
  exists l, last_file n o i = Some l /\ 0 <= l <= i /\
    (forall x, l < x <= i -> o !! Z.to_nat x = Some None).
Proof.
  revert i. induction n as [|n IH]; intros i Hn Hlen; simpl.
  - exists i. split; [done|]. split; [lia|]. intros x Hx. lia.
  - destruct (lookup_lt_is_Some_2 o (Z.to_nat i)) as [y Hy]; [lia|]. rewrite Hy. simpl.
    destruct y as [y|].
    + exists i. split; [done|]. split; [lia|]. intros x Hx. lia.
    + destruct (IH (i - 1)) as (l & -> & Hl & Hz); [lia|lia|]. exists l. split; [done|]. split; [lia|].
      intros x Hx. destruct (decide (x = i)) as [->|]; [done|]. apply Hz. lia.
Qed.

(** [find_last_set] finds the highest descriptor in use below [last]. *)
Lemma find_last_set_spec f last :
  0 <= last <= Z.of_nat (length (fd_ofiles f)) ->
  last <= 32 * Z.of_nat (length (fd_lomap f)) ->
  (forall fd, 0 <= fd -> bit (fd_lomap f) fd = used f fd) ->
  exists l, find_last_set f last = Some l /\ 0 <= l /\ (l < last \/ l = 0) /\
    forall x, l < x < last -> used f x = false.
Proof.
  intros Hlast Hlo Hb. unfold find_last_set. rewrite shift32.
  destruct (last_word_spec (Z.to_nat ((last - 1) / 32 + 1)) (fd_lomap f) ((last - 1) / 32))
    as (off & -> & Hoff & Hz).
  { assert (-1 <= (last - 1) / 32) by (apply (Z.div_le_mono (-1) (last - 1) 32); lia). lia. }
  { apply Z.div_lt_upper_bound; lia. }
  simpl.
  assert (Hhigh : forall x, (off + 1) * 32 <= x < last -> 0 <= x -> used f x = false).
  { intros x Hx Hx0. rewrite <- Hb by done. unfold bit. rewrite (Hz (x / 32)).
    - simpl. apply Z.bits_0.
    - split; [apply Z.lt_le_trans with (off + 1); [lia|]|apply Z.div_le_mono; lia].
      apply Z.div_le_lower_bound; lia. }
  destruct (Z.ltb_spec off 0).
  - exists 0. split; [done|]. split; [lia|]. split; [by right|]. intros x Hx. apply Hhigh; lia.
  - rewrite Z.shiftl_mul_pow2 by (unfold NDENTRYSHIFT; lia). change (2 ^ NDENTRYSHIFT) with 32.
    set (i := if _ >=? last then last - 1 else _).
    assert (Hi : i = Z.min (last - 1) ((off + 1) * 32 - 1)).
    { unfold i. rewrite Z.geb_leb. destruct (Z.leb_spec last ((off + 1) * 32 - 1)); lia. }
    assert (Hpos : 0 <= i).
    { rewrite Hi. assert (off <= (last - 1) / 32) as Ho by lia.
      assert (0 <= (last - 1) / 32) by lia.
      assert (0 <= last - 1); [|lia]. destruct (Z.lt_ge_cases (last - 1) 0); [|done].
      assert ((last - 1) / 32 < 0) by (apply Z.div_lt_upper_bound; lia). lia. }
    destruct (last_file_spec (Z.to_nat i) (fd_ofiles f) i) as (l & -> & Hl & Hn); [lia|lia|].
    exists l. split; [done|]. split; [lia|]. split; [left; lia|]. intros x Hx.
    destruct (Z.le_gt_cases x i).
    + unfold used. by rewrite Hn by lia.
    + apply Hhigh; lia.
Qed.

(** A reserved descriptor becomes free. *)
Lemma fd_unused_spec f fd :
  fd_okr (Some fd) f ->
  exists f', fd_unused f fd = Some f' /\ fd_ok f' /\ fd_ofiles f' = fd_ofiles f /\
    fd_ofileflags f' = fd_ofileflags f /\ fd_nfiles f' = fd_nfiles f /\
    fd_refcnt f' = fd_refcnt f /\ fd_flags f' = fd_flags f /\ fd_lastfile f' <= fd_lastfile f.
Proof.
  intros Hok. pose proof (fo_res _ _ Hok) as [Hfd Hnone].
  destruct (words_of _ _ _ Hok Hfd) as ((w & Hw & Hwo) & (h & Hh & Hho) & H0).
  unfold fd_unused. rewrite !shift32, Hw. simpl.
  set (w' := Z.ldiff w (fdbit fd)).
  assert (Hw' : forall j, 0 <= j -> Z.testbit w' j = if j =? fd mod 32 then false else Z.testbit w j).
  { intros j Hj. unfold w'. rewrite clear_bit_spec by lia. by destruct (j =? fd mod 32). }
  assert (Hwne : w' <> ONES).
  { intros E. pose proof (mod32 fd). specialize (Hw' (fd mod 32) ltac:(lia)).
    rewrite E, ones_bit, Z.eqb_refl in Hw' by done. done. }
  destruct (fo_words _ _ Hok) as [Hwh Hwl].
  assert (Hhi : exists hi, (if w =? ONES then h ← fd_himap f !! Z.to_nat (fd / 32 / 32);
      Some (<[Z.to_nat (fd / 32 / 32) := Z.ldiff h (fdbit (fd / 32))]> (fd_himap f)) else Some (fd_himap f)) = Some hi /\
    length hi = length (fd_himap f) /\ words_ok hi /\
    forall b, 0 <= b -> bit hi b = if b =? fd / 32 then w' =? ONES else bit (fd_himap f) b).
  { assert (Ef : (w' =? ONES) = false) by (by apply Z.eqb_neq). rewrite Ef.
    destruct (Z.eqb_spec w ONES) as [E|E].
    - rewrite Hh. simpl. eexists. split; [reflexivity|]. split; [apply length_insert|].
      split; [apply words_ok_insert; [done|by apply word_ok_clear]|]. intros b Hb.
      rewrite (bit_update _ (fd / 32) h _ false); try done. intros j Hj. rewrite clear_bit_spec by lia.
      by destruct (j =? (fd / 32) mod 32).
    - eexists. split; [reflexivity|]. split_and!; try done. intros b Hb.
      destruct (Z.eqb_spec b (fd / 32)) as [->|]; [|done].
      rewrite (fo_hi _ _ Hok _ w) by done. by apply Z.eqb_neq. }
  destruct Hhi as (hi & -> & Hlen & Hhw & Hhb). simpl.
  assert (Hle : fd <= fd_lastfile f).
  { destruct (Z.le_gt_cases fd (fd_lastfile f)); [done|].
    pose proof (proj2 (fo_last _ _ Hok) fd ltac:(lia)) as Hb. unfold busy in Hb.
    rewrite (bool_decide_true (Some fd = Some fd)), orb_true_r in Hb by done. done. }
  rewrite Z.gtb_ltb. destruct (Z.ltb_spec (fd_lastfile f) fd); [lia|].
  assert (Hbusy : forall x, busy f None x = if x =? fd then false else busy f (Some fd) x).
  { intros x. unfold busy. destruct (Z.eqb_spec x fd) as [->|].
    - unfold used. rewrite Hnone. by rewrite bool_decide_false.
    - rewrite !bool_decide_false by congruence. done. }
  set (f1 := with_maps hi (<[Z.to_nat (fd / 32) := w']> (fd_lomap f)) f).
  assert (Hb1 : forall x, 0 <= x -> bit (fd_lomap f1) x = busy f None x).
  { intros x Hx. simpl. rewrite (bit_update _ fd w w' false) by (done || lia).
    rewrite Hbusy, (fo_lo _ _ Hok) by done. done. }
  assert (Hlast : exists l, (if fd =? fd_lastfile f then find_last_set f1 fd else Some (fd_lastfile f)) = Some l /\
    0 <= l <= fd_lastfile f /\ forall x, l < x -> busy f None x = false).
  { destruct Hok as [S1 S2 S3 S4 S5 S6 S7 S8 S9 [S10 S10'] S11 S12].
    destruct (size_spare _ S1) as (Hn & Hsp & _). rewrite NDREDUCE_div in Hsp.
    destruct (Z.eqb_spec fd (fd_lastfile f)) as [E|E].
    - destruct (find_last_set_spec f1 fd) as (l & El & Hl0 & Hl & Hlu).
      + simpl. lia.
      + simpl. rewrite length_insert, S5. Z.to_euclidean_division_equations. lia.
      + intros x Hx. rewrite Hb1 by done. unfold busy. by rewrite orb_false_r.
      + exists l. split; [done|]. split; [lia|]. intros x Hx. destruct (Z.lt_ge_cases x fd).
        * specialize (Hlu x ltac:(lia)). unfold busy. change (used f1 x) with (used f x) in Hlu.
          rewrite Hlu. done.
        * rewrite Hbusy. destruct (Z.eqb_spec x fd); [done|]. apply S10'. lia.
    - exists (fd_lastfile f). split; [done|]. split; [lia|]. intros x Hx. rewrite Hbusy.
      destruct (Z.eqb_spec x fd); [done|]. by apply S10'. }
  destruct Hlast as (l & El & Hl & Hlx). rewrite El. simpl. eexists. split; [reflexivity|]. simpl.
  split; [|split_and!; try done; lia].
  destruct Hok as [S1 S2 S3 S4 S5 S6 S7 S8 S9 [S10 S10'] [S11 S11'] S12].
  constructor; simpl; try done.
  - by rewrite Hlen.
  - by rewrite length_insert.
  - split; [done|]. apply words_ok_insert; [done|apply word_ok_clear; [lia|done]].
  - apply (summary_update (fd_himap f) _ fd w); [done|lia|done|done].
  - split; [lia|]. exact Hlx.
  - destruct (Z.ltb_spec fd (fd_freefile f)); (split; [lia|]); intros x Hx;
      change (busy _ None x) with (busy f None x); rewrite Hbusy;
      (destruct (Z.eqb_spec x fd); [|apply S11'; lia]).
    + lia.
    + lia.
  - rewrite S12. unfold nused. simpl. lia.
Qed.

(** ** Allocation *)

Lemma bit_drop m n k : 0 <= n -> 0 <= k -> bit (drop (Z.to_nat n) m) k = bit m (n * 32 + k).
Proof.
  intros Hn Hk. unfold bit. rewrite lookup_drop.
  assert (0 <= k / 32) by (apply Z.div_pos; lia).
  replace ((n * 32 + k) / 32) with (n + k / 32) by (rewrite Z.div_add_l; lia).
  replace ((n * 32 + k) mod 32) with (k mod 32) by (rewrite Z.add_comm, Z.mod_add; lia).
  rewrite Z2Nat.inj_add by lia. done.
Qed.

(** The descriptors behind the table are free, and so are their words. *)
Lemma beyond_free f x : fd_ok f -> fd_nfiles f <= x -> bit (fd_lomap f) x = false.
Proof.
  intros Hok Hx. destruct (size_spare _ (fo_size _ _ Hok)) as (Hn & _).
  rewrite (fo_lo _ _ Hok) by lia. destruct (busy f None x) eqn:E; [|done].
  pose proof (busy_range _ _ x Hok ltac:(lia) E). lia.
Qed.

(** The summary of a word. *)
Lemma himap_full f b :
  fd_ok f -> 0 <= b -> bit (fd_himap f) b = true -> forall x, b * 32 <= x < (b + 1) * 32 -> used f x = true.
Proof.
  intros Hok Hb Hbit x Hx.
  assert (Hr : b < 32 * Z.of_nat (length (fd_himap f))).
  { destruct (Z.lt_ge_cases b (32 * Z.of_nat (length (fd_himap f)))); [done|].
    unfold bit in Hbit. rewrite lookup_ge_None_2 in Hbit; [by rewrite Z.bits_0 in Hbit|].
    assert (Z.of_nat (length (fd_himap f)) <= b / 32) by (apply Z.div_le_lower_bound; lia). lia. }
  rewrite (fo_himap _ _ Hok) in Hr. pose proof (fo_lomap _ _ Hok) as Hl. rewrite NDLOSLOTS_mul in Hl.
  destruct (lookup_lt_is_Some_2 (fd_lomap f) (Z.to_nat b)) as [w Hw]; [lia|].
  rewrite (fo_hi _ _ Hok b w) in Hbit by done. apply Z.eqb_eq in Hbit as ->.
  pose proof (fo_lo _ _ Hok x ltac:(lia)) as Hlo.
  rewrite (bit_full _ b x) in Hlo by (done || lia). unfold busy in Hlo. by rewrite orb_false_r in Hlo.
Qed.

Lemma used_bit f x : fd_ok f -> 0 <= x -> bit (fd_lomap f) x = used f x.
Proof. intros Hok Hx. rewrite (fo_lo _ _ Hok) by done. unfold busy. apply orb_false_r. Qed.

(** The search in the summary: the first word from that of [i] on that is not
    full, or none among those that matter. *)
Lemma search_hi f i last :
  fd_ok f -> 0 <= i -> 0 <= last <= fd_nfiles f ->
  exists new, find_next_zero (fd_himap f) (i / 32) (NDREDUCE last) = Some new /\
    ((new = -1 /\ forall x, i <= x < last -> used f x = true) \/
     (i / 32 <= new <= NDREDUCE (fd_nfiles f) /\ i / 32 <= NDREDUCE last /\
      forall x, i <= x < new * 32 -> used f x = true)).
Proof.
  intros Hok Hi Hlast. destruct (size_spare _ (fo_size _ _ Hok)) as (Hn & Hsp & Hh).
  assert (0 <= i / 32) by (apply Z.div_pos; lia).
  assert (Hle : NDREDUCE last <= NDREDUCE (fd_nfiles f)).
  { rewrite !NDREDUCE_div. apply Z.div_le_mono; lia. }
  assert (Hrl : last <= 32 * NDREDUCE last) by (rewrite NDREDUCE_div; Z.to_euclidean_division_equations; lia).
  assert (Hrn : fd_nfiles f <= 32 * NDREDUCE (fd_nfiles f))
    by (rewrite NDREDUCE_div; Z.to_euclidean_division_equations; lia).
  destruct (Z.le_gt_cases (i / 32) (NDREDUCE last)) as [Hoff|Hoff].
  - assert (Hz : bit (fd_himap f) (NDREDUCE (fd_nfiles f)) = false).
    { destruct (bit (fd_himap f) (NDREDUCE (fd_nfiles f))) eqn:E; [|done].
      pose proof (himap_full f (NDREDUCE (fd_nfiles f)) Hok ltac:(lia) E (NDREDUCE (fd_nfiles f) * 32) ltac:(lia)) as Hu.
      rewrite <- used_bit, beyond_free in Hu by (done || lia). done. }
    destruct (find_next_zero_spec (fd_himap f) (i / 32) (NDREDUCE last) (NDREDUCE (fd_nfiles f)))
      as (new & -> & Hnew).
    { apply (fo_words _ _ Hok). }
    { lia. }
    { lia. }
    { rewrite (fo_himap _ _ Hok). rewrite NDLOSLOTS_mul in Hsp. lia. }
    { done. }
    assert (Hused : forall b x, (forall z, i / 32 <= z < b -> bit (fd_himap f) z = true) ->
      i <= x < b * 32 -> used f x = true).
    { intros b x Hall Hx.
      assert (i / 32 <= x / 32) by (apply Z.div_le_mono; lia).
      assert (x / 32 < b) by (apply Z.div_lt_upper_bound; lia).
      apply (himap_full f (x / 32) Hok ltac:(lia)); [apply Hall; lia|].
      Z.to_euclidean_division_equations; lia. }
    exists new. split; [done|]. destruct Hnew as [[-> Hall]|(Hr & _ & Hall)].
    + left. split; [done|]. intros x Hx. apply (Hused (32 * NDLOSLOTS (NDREDUCE last))); [done|].
      rewrite NDLOSLOTS_mul. unfold NDHISLOTS. rewrite (NDREDUCE_div (NDREDUCE _)), (NDREDUCE_div (NDREDUCE last)).
      Z.to_euclidean_division_equations; lia.
    + right. split; [lia|]. split; [lia|]. intros x Hx. by apply (Hused new).
  - exists (-1). unfold find_next_zero. rewrite Z.gtb_ltb.
    destruct (Z.ltb_spec (NDREDUCE last) (i / 32)); [|lia]. split; [done|]. left. split; [done|].
    intros x Hx. exfalso. assert (32 * (i / 32) <= i) by (apply Z.mul_div_le; lia). lia.
Qed.

(** The search in the words, from the word [new] on. *)
Lemma search_lo f i new :
  fd_ok f -> 0 <= i -> i / 32 <= new <= NDREDUCE (fd_nfiles f) ->
  exists r, find_next_zero (drop (Z.to_nat new) (fd_lomap f))
      (if new >? i / 32 then 0 else Z.land i NDENTRYMASK) NDENTRIES = Some r /\
    let from := Z.max i (new * 32) in
    ((r = -1 /\ forall x, from <= x < (new + 1) * 32 -> used f x = true) \/
     (0 <= r /\ from <= r + new * 32 /\ used f (r + new * 32) = false /\
      forall x, from <= x < r + new * 32 -> used f x = true)).
Proof.
  intros Hok Hi Hnew. destruct (size_spare _ (fo_size _ _ Hok)) as (Hn & Hsp & Hh).
  assert (0 <= i / 32) by (apply Z.div_pos; lia).
  change NDENTRYMASK with (Z.ones 5). rewrite Z.land_ones by lia. change (2 ^ 5) with 32.
  pose proof (mod32 i) as Hm. pose proof (Z.div_mod i 32 ltac:(lia)) as Hdm.
  set (start := if new >? i / 32 then 0 else i mod 32).
  assert (Hstart : 0 <= start < 32 /\ new * 32 + start = Z.max i (new * 32)).
  { unfold start. rewrite Z.gtb_ltb. destruct (Z.ltb_spec (i / 32) new); [lia|].
    assert (new = i / 32) by lia. lia. }
  assert (Hrn : fd_nfiles f <= 32 * NDREDUCE (fd_nfiles f))
    by (rewrite NDREDUCE_div; Z.to_euclidean_division_equations; lia).
  set (B := NDREDUCE (fd_nfiles f)) in *.
  assert (Hdrop : forall k, 0 <= k -> bit (drop (Z.to_nat new) (fd_lomap f)) k = used f (k + new * 32)).
  { intros k Hk. rewrite bit_drop, used_bit by (done || lia). f_equal. lia. }
  destruct (find_next_zero_spec (drop (Z.to_nat new) (fd_lomap f)) start NDENTRIES (32 * (B - new) + 31))
    as (r & -> & Hr).
  { apply Forall_drop. apply (fo_words _ _ Hok). }
  { unfold NDENTRIES. lia. }
  { lia. }
  { rewrite length_drop. pose proof (fo_lomap _ _ Hok). lia. }
  { rewrite bit_drop by lia. apply beyond_free; [done|lia]. }
  exists r. split; [done|]. simpl. destruct Hstart as [Hs1 Hs2]. rewrite <- Hs2.
  assert (Hall : forall b, (forall z, start <= z < b -> bit (drop (Z.to_nat new) (fd_lomap f)) z = true) ->
    forall x, new * 32 + start <= x < b + new * 32 -> used f x = true).
  { intros b Hz x Hx. specialize (Hz (x - new * 32) ltac:(lia)). rewrite Hdrop in Hz by lia.
    by replace (x - new * 32 + new * 32) with x in Hz by lia. }
  destruct Hr as [[-> Hz]|(Hr1 & Hr2 & Hz)].
  - left. split; [done|]. intros x Hx. apply (Hall (32 * NDLOSLOTS NDENTRIES)); [done|].
    change (NDLOSLOTS NDENTRIES) with 32. lia.
  - right. rewrite Hdrop in Hr2 by lia. split; [lia|]. split; [lia|]. split; [done|]. by apply Hall.
Qed.

(** [fdalloc] finds the lowest free descriptor from [want] on. *)
Lemma fdalloc_spec fuel lim f want :
  fd_ok f -> 0 <= want -> 0 <= lim -> NDREDUCE (fd_nfiles f) + 1 - want / 32 <= Z.of_nat fuel ->
  exists a, fdalloc fuel lim f want = Some a /\
    match a with
    | Got i f' => want <= i < Z.min (fd_nfiles f) lim /\ used f i = false /\
        (forall x, want <= x < i -> used f x = true) /\ fd_okr (Some i) f' /\
        fd_ofiles f' = fd_ofiles f /\ fd_ofileflags f' = <[Z.to_nat i := 0]> (fd_ofileflags f) /\
        fd_nfiles f' = fd_nfiles f /\ fd_refcnt f' = fd_refcnt f /\ fd_flags f' = fd_flags f /\
        fd_lastfile f' = Z.max (fd_lastfile f) i
    | Failed e => (forall x, want <= x < Z.min (fd_nfiles f) lim -> used f x = true) /\
        e = if fd_nfiles f >=? lim then EMFILE else ENOSPC
    end.
Proof.
  revert want. induction fuel as [|fuel IH]; intros want Hok Hw Hlim Hfuel;
    unfold fdalloc; fold fdalloc; set (last := Z.min (fd_nfiles f) lim).
  all: set (i := if want <? fd_freefile f then fd_freefile f else want).
  all: destruct (size_spare _ (fo_size _ _ Hok)) as (Hn & _).
  all: assert (Hi : i = Z.max want (fd_freefile f))
    by (unfold i; destruct (Z.ltb_spec want (fd_freefile f)); lia).
  all: assert (Hlow : forall x, want <= x < i -> used f x = true)
    by (intros x Hx; pose proof (proj2 (fo_free _ _ Hok) x ltac:(lia)) as Hb; unfold busy in Hb;
        by rewrite orb_false_r in Hb).
  all: rewrite !shift32; rewrite <- (shift32 (last + NDENTRIES - 1));
    change (Z.shiftr (last + NDENTRIES - 1) NDENTRYSHIFT) with (NDREDUCE last).
  all: destruct (search_hi f i last Hok ltac:(lia) ltac:(lia)) as (new & -> & Hnew); simpl mbind.
  all: destruct Hnew as [[-> Hall]|(Hnew & Hoff & Hpre)].
  1,3: eexists; split; [reflexivity|]; split; [|done]; intros x Hx;
    (destruct (Z.lt_ge_cases x i); [apply Hlow; lia|apply Hall; lia]).
  all: assert (0 <= i / 32) by (apply Z.div_pos; lia).
  all: assert (Hwd : want / 32 <= i / 32) by (apply Z.div_le_mono; lia).
  all: destruct (Z.eqb_spec new (-1)); [lia|].
  all: destruct (search_lo f i new Hok ltac:(lia) Hnew) as (r & -> & Hr); simpl mbind; simpl in Hr.
  all: destruct Hr as [[-> Hall]|(Hr0 & Hr1 & Hr2 & Hall)].
  (* a restart needs fuel *)
  1: assert (NDREDUCE last <= NDREDUCE (fd_nfiles f))
       by (rewrite !NDREDUCE_div; apply Z.div_le_mono; lia); lia.
  2: { simpl Z.eqb. cbv iota. rewrite Z.shiftl_mul_pow2 by (unfold NDENTRYSHIFT; lia).
    change (2 ^ NDENTRYSHIFT) with 32.
    destruct (IH ((new + 1) * 32)) as (a & -> & Ha); try done; try lia.
    { rewrite Z.div_mul by lia. lia. }
    exists a. split; [done|].
    assert (Hmid : forall x, want <= x < (new + 1) * 32 -> used f x = true).
    { intros x Hx. destruct (Z.lt_ge_cases x i); [apply Hlow; lia|].
      destruct (Z.lt_ge_cases x (new * 32)); [apply Hpre; lia|apply Hall; lia]. }
    assert (Hwn : want <= (new + 1) * 32).
    { apply Z.le_trans with ((want / 32 + 1) * 32); [|lia]. Z.to_euclidean_division_equations; lia. }
    destruct a as [j f'|e].
    - destruct Ha as (A1 & A2 & A3 & A4). split_and!; try done; try lia; try apply A4.
      intros x Hx. destruct (Z.lt_ge_cases x ((new + 1) * 32)); [apply Hmid; lia|apply A3; lia].
    - destruct Ha as (A1 & A2). split; [|done]. intros x Hx.
      destruct (Z.lt_ge_cases x ((new + 1) * 32)); [apply Hmid; lia|apply A1; lia]. }
  all: destruct (Z.eqb_spec r (-1)); [lia|].
  all: rewrite Z.shiftl_mul_pow2 by (unfold NDENTRYSHIFT; lia); change (2 ^ NDENTRYSHIFT) with 32.
  all: set (fd := r + new * 32) in *.
  all: assert (Hused : forall x, want <= x < fd -> used f x = true)
    by (intros x Hx; destruct (Z.lt_ge_cases x i); [apply Hlow; lia|];
        destruct (Z.lt_ge_cases x (new * 32)); [apply Hpre; lia|apply Hall; lia]).
  all: destruct (Z.ltb_spec fd last).
  2,4: eexists; split; [reflexivity|]; split; [|done]; intros x Hx; apply Hused; lia.
  all: destruct (fd_used_spec f fd Hok ltac:(lia) Hr2) as (f' & -> & Hf' & E1 & E2 & E3 & E4 & E5 & E6 & E7);
    simpl mbind; rewrite E2, E4.
  all: destruct (lookup_lt_is_Some_2 (fd_ofileflags f) (Z.to_nat fd)) as [fl Hfl];
    [pose proof (fo_oflags _ _ Hok); lia|]; rewrite Hfl; simpl mbind.
  all: eexists; split; [reflexivity|]; simpl.
  all: split; [lia|]; split; [done|]; split; [done|]; split; [|split_and!; try done; by rewrite E2].
  all: destruct Hf' as [S1 S2 S3 S4 S5 S6 S7 S8 S9 S10 [S11 S11'] S12]; constructor; simpl; try done;
    [by rewrite length_insert, <- E2|].
  all: destruct (Z.leb_spec want (fd_freefile f)); [|by rewrite <- E4].
  all: split; [lia|]; intros x Hx; destruct (Z.lt_ge_cases x i).
  1,3: apply S11'; rewrite E4; lia.
  all: change (busy _ (Some fd) x) with (busy f' (Some fd) x); unfold busy, used; rewrite E1.
  all: specialize (Hused x ltac:(lia)); unfold used in Hused; by rewrite Hused.
Qed.

(** ** Growth *)

Lemma grow_lookup {A} (x : A) n l i :
  (i < length l)%nat -> grow x n l !! i = l !! i.
Proof. intros H. unfold grow. by apply lookup_app_l. Qed.

Lemma grow_length {A} (x : A) n l : Z.of_nat (length l) <= n -> Z.of_nat (length (grow x n l)) = n.
Proof. intros H. unfold grow. rewrite length_app, length_replicate. lia. Qed.

Lemma bit_grow n m k : 0 <= k -> bit (grow 0 n m) k = bit m k.
Proof.
  intros Hk. unfold bit. destruct (Nat.lt_ge_cases (Z.to_nat (k / 32)) (length m)).
  - by rewrite grow_lookup.
  - rewrite (lookup_ge_None_2 m) by done. simpl. rewrite Z.bits_0. unfold grow.
    rewrite lookup_app_r by done.
    destruct (replicate _ _ !! _) eqn:E; [|apply Z.bits_0].
    apply lookup_replicate in E as [-> _]. apply Z.bits_0.
Qed.

Lemma used_grow f n fd :
  used (with_ofiles (grow None n (fd_ofiles f)) f) fd = used f fd.
Proof.
  unfold used. simpl. destruct (Nat.lt_ge_cases (Z.to_nat fd) (length (fd_ofiles f))).
  - by rewrite grow_lookup.
  - rewrite (lookup_ge_None_2 (fd_ofiles f)) by done. unfold grow. rewrite lookup_app_r by done.
    destruct (replicate _ _ !! _) eqn:E; [|done]. by apply lookup_replicate in E as [-> _].
Qed.

Definition next_size (n : Z) : Z := if n <? NDEXTENT then NDEXTENT else 2 * n.

Lemma next_size_ok n : size_ok n -> n < 12800 -> size_ok (next_size n).
Proof.
  intros [->|(k & Hk & ->)] Hn; unfold next_size.
  - right. by exists 0.
  - right. exists (k + 1). assert (k <> 8) by (intros ->; vm_compute in Hn; done).
    rewrite Z.pow_add_r by lia. unfold NDEXTENT in *.
    assert (1 <= 2 ^ k) by (apply (Z.pow_le_mono_r 2 0 k); lia).
    destruct (Z.ltb_spec (50 * 2 ^ k) 50); lia.
Qed.

Lemma fdexpand_spec f :
  fd_ok f -> fd_nfiles f < 12800 ->
  fd_ok (fdexpand f) /\ fd_nfiles (fdexpand f) = next_size (fd_nfiles f) /\
  fd_nfiles f < fd_nfiles (fdexpand f) /\ (forall fd, used (fdexpand f) fd = used f fd) /\
  (forall fd, (fd < length (fd_ofiles f))%nat -> fd_ofiles (fdexpand f) !! fd = fd_ofiles f !! fd) /\
  omap id (fd_ofiles (fdexpand f)) = omap id (fd_ofiles f) /\
  (forall fd, (fd < length (fd_ofiles f))%nat -> fd_ofileflags (fdexpand f) !! fd = fd_ofileflags f !! fd).
Proof.
  intros Hok Hn. pose proof (fo_size _ _ Hok) as Hs. pose proof (next_size_ok _ Hs Hn) as Hs'.
  destruct (size_spare _ Hs) as (Hr & _). pose proof (fo_ofiles _ _ Hok) as Hl1.
  pose proof (fo_oflags _ _ Hok) as Hl2.
  assert (Hgt : fd_nfiles f < next_size (fd_nfiles f))
    by (unfold next_size, NDEXTENT; destruct (Z.ltb_spec (fd_nfiles f) 50); lia).
  assert (Hhi : NDHISLOTS (fd_nfiles f) <= NDHISLOTS (next_size (fd_nfiles f))).
  { unfold NDHISLOTS. rewrite !NDREDUCE_div. apply Z.div_le_mono; [lia|].
    assert ((fd_nfiles f + 31) / 32 <= (next_size (fd_nfiles f) + 31) / 32) by (apply Z.div_le_mono; lia). lia. }
  assert (Hu : forall fd, used (fdexpand f) fd = used f fd) by (intros fd; apply used_grow).
  split; [|split_and!; try done].
  2: { intros fd Hfd. by apply grow_lookup. }
  2: { simpl. unfold grow. rewrite omap_app. rewrite <- (app_nil_r (omap id (fd_ofiles f))) at 2. f_equal.
       induction (_ - _)%nat; simpl; [done|]. done. }
  2: { intros fd Hfd. apply grow_lookup. lia. }
  destruct Hok as [S1 S2 S3 S4 S5 [S6 S6'] S7 S8 S9 [S10 S10'] [S11 S11'] S12].
  assert (Hbusy : forall fd, busy (fdexpand f) None fd = busy f None fd) by (intros fd; unfold busy; by rewrite Hu).
  set (n' := next_size (fd_nfiles f)) in *.
  assert (Hmaps : exists hi lo, fd_himap (fdexpand f) = hi /\ fd_lomap (fdexpand f) = lo /\
    Z.of_nat (length hi) = NDHISLOTS n' /\ Z.of_nat (length lo) = NDLOSLOTS n' /\ words_ok hi /\ words_ok lo /\
    (forall k, 0 <= k -> bit hi k = bit (fd_himap f) k) /\ (forall k, 0 <= k -> bit lo k = bit (fd_lomap f) k) /\
    (forall i w, lo !! i = Some w -> (i < length (fd_lomap f))%nat \/ w = 0) /\
    (forall i, (i < length (fd_lomap f))%nat -> lo !! i = fd_lomap f !! i)).
  { unfold fdexpand. fold (next_size (fd_nfiles f)). fold n'. simpl. rewrite Z.gtb_ltb.
    assert (Hg : forall k m, words_ok m -> words_ok (grow 0 k m)).
    { intros k m Hm. unfold grow. apply Forall_app. split; [done|]. apply list.Forall_replicate.
      unfold word_ok, ONES. lia. }
    rewrite !NDLOSLOTS_mul in *.
    destruct (Z.ltb_spec (NDHISLOTS (fd_nfiles f)) (NDHISLOTS n')) as [Hm|Hm].
    - eexists _, _. split; [done|]. split; [done|].
      split; [apply grow_length; lia|]. split; [apply grow_length; lia|].
      split_and!; auto using bit_grow.
      + intros i w Hi. unfold grow in Hi. apply lookup_app_Some in Hi as [Hi|[_ Hi]].
        * left. by eapply lookup_lt_Some.
        * right. by apply lookup_replicate in Hi as [-> _].
      + intros i Hi. by apply grow_lookup.
    - eexists _, _. split; [done|]. split; [done|]. split_and!; try done; try lia.
      intros i w Hi. left. by eapply lookup_lt_Some. }
  destruct Hmaps as (hi & lo & Eh & El & L1 & L2 & W1 & W2 & B1 & B2 & Z1 & Z2).
  constructor; rewrite ?Eh, ?El; try done.
  - simpl. apply grow_length. unfold n', next_size in *. lia.
  - simpl. apply grow_length. unfold n', next_size in *. lia.
  - intros fd Hfd. rewrite Hbusy, B2, S8 by done. done.
  - intros b w Hb Hw. rewrite B1 by done. destruct (Z1 _ _ Hw) as [Hlt| ->].
    + rewrite Z2 in Hw by done. by apply S9.
    + destruct (bit (fd_himap f) b) eqn:E; [|done]. exfalso.
      (* a word whose summary is set is full, and the new words are empty *)
      destruct (Nat.lt_ge_cases (Z.to_nat b) (length (fd_lomap f))).
      * rewrite Z2 in Hw by done. rewrite (S9 b 0 Hb Hw) in E. done.
      * unfold bit in E. rewrite lookup_ge_None_2 in E; [by rewrite Z.bits_0 in E|].
        rewrite NDLOSLOTS_mul in S5.
        assert (Z.of_nat (length (fd_himap f)) <= b / 32) by (apply Z.div_le_lower_bound; lia). lia.
  - simpl. split; [unfold n', next_size in *; lia|]. intros fd Hfd. rewrite Hbusy. by apply S10'.
  - simpl. split; [done|]. intros fd Hfd. rewrite Hbusy. by apply S11'.
  - simpl. rewrite S12. unfold nused. simpl. unfold grow. rewrite list.filter_app, length_app.
    assert (Hz : forall k, length (filter is_Some (replicate k (@None nat))) = 0%nat).
    { induction k as [|k IH]; [done|]. simpl. rewrite filter_cons, decide_False by (by intros []). done. }
    rewrite Hz. lia.
Qed.

Lemma bit_zeros k x : bit (replicate k 0) x = false.
Proof.
  unfold bit. destruct (replicate k 0 !! Z.to_nat (x / 32)) eqn:E; [|apply Z.bits_0].
  apply lookup_replicate in E as [-> _]. apply Z.bits_0.
Qed.

Lemma used_empty f k fd : fd_ofiles f = replicate k None -> used f fd = false.
Proof.
  intros E. unfold used. rewrite E. destruct (replicate k None !! Z.to_nat fd) eqn:El; [|done].
  by apply lookup_replicate in El as [-> _].
Qed.

Lemma fdinit_ok : fd_ok fdinit.
Proof.
  assert (Hb : forall fd, busy fdinit None fd = false).
  { intros fd. unfold busy. by rewrite (used_empty fdinit 20). }
  constructor; try done.
  - by left.
  - split; repeat constructor; unfold ONES; simpl; lia.
  - intros fd _. rewrite Hb. apply bit_zeros.
  - intros b w _ Hw. apply (lookup_replicate 32) in Hw as [-> _]. apply bit_zeros.
  - split; [done|]. simpl. intros fd Hfd. lia.
Qed.
