(* ===== verification/FdFile.v ===== *)
(** * Open files and descriptors (sys/kern/kern_descrip.c, sys/sys/file.h)

    The open files of the system with their reference counts, the descriptor
    tables of the processes, and the calls that create, duplicate and close
    descriptors.  A call runs with the lock of its table held and is one step.
    The routine that closes the object behind a file is a parameter, and its
    calls are recorded, as are the releases of POSIX record locks. *)

From stdpp Require Import base numbers list option gmap.
From Stdlib Require Import ZArith Lia Bool.
From S2P Require Import Prelude Clock Fd.

Definition DTYPE_VNODE : Z := 1.
Definition DTYPE_KQUEUE : Z := 4.
Definition DTYPE_SYSTRACE : Z := 6.
Definition FIF_LARVAL : Z := 2.
Definition O_CLOEXEC : Z := 65536.

Record file := mkFile { f_count : Z; f_type : Z; f_flag : Z; f_iflags : Z }.

Definition set_count (n : Z) (f : file) : file := mkFile n (f_type f) (f_flag f) (f_iflags f).
Definition FILE_IS_USABLE (f : file) : bool := negb (has (f_iflags f) FIF_LARVAL).

(** [Closed fp]: the file was given up, its [fo_close] called if it has
    operations; [Unlocked t fp]: the POSIX locks of the owner [t] on the vnode of
    [fp] were released. *)
Inductive event := Closed (fp : nat) | Unlocked (t fp : nat).

Record kfiles := mkK {
  files : gmap nat file;
  filehead : list nat;
  nfiles : Z;
  next_file : nat;
  tables : gmap nat filedesc;
  events : list event }.

Definition with_files (h : gmap nat file) (s : kfiles) : kfiles :=
  mkK h (filehead s) (nfiles s) (next_file s) (tables s) (events s).
Definition with_table (t : nat) (f : filedesc) (s : kfiles) : kfiles :=
  mkK (files s) (filehead s) (nfiles s) (next_file s) (<[t := f]> (tables s)) (events s).
Definition with_event (e : event) (s : kfiles) : kfiles :=
  mkK (files s) (filehead s) (nfiles s) (next_file s) (tables s) (e :: events s).

Definition upd_count (fp : nat) (d : Z) (s : kfiles) : option kfiles :=
  f ← files s !! fp; Some (with_files (<[fp := set_count (f_count f + d) f]> (files s)) s).

Section Files.
(** The error [fo_close] returns for a file, 0 for one without operations. *)
Context (fo_close : nat -> Z).
(** [maxfiles] *)
Context (maxfiles : Z).

(** ** References *)

Definition FREF (fp : nat) (s : kfiles) : option kfiles := upd_count fp 1 s.

(** The file is closed and freed; the count must be zero. *)
Definition fdrop (fp : nat) (s : kfiles) : option (Z * kfiles) :=
  f ← files s !! fp;
  if negb (f_count f =? 0) then None (* panic *)
  else Some (fo_close fp,
    mkK (delete fp (files s)) (filter (fun x => x <> fp) (filehead s)) (nfiles s - 1) (next_file s)
      (tables s) (Closed fp :: events s)).

Definition FRELE (fp : nat) (s : kfiles) : option (Z * kfiles) :=
  s ← upd_count fp (-1) s;
  f ← files s !! fp;
  if f_count f =? 0 then fdrop fp s else Some (0, s).

(** [closef] of a process whose table is [t]. *)
Definition closef (t fp : nat) (s : kfiles) : option (Z * kfiles) :=
  f ← files s !! fp;
  if f_count f <? 2 then None (* panic *)
  else
    s ← upd_count fp (-1) s;
    tab ← tables s !! t;
    let s := if has (fd_flags tab) FD_ADVLOCK && (f_type f =? DTYPE_VNODE)
             then with_event (Unlocked t fp) s else s in
    FRELE fp s.

(** ** Lookup *)

(** The test [(u_int)fd >= fd_nfiles] also refuses negative numbers. *)
Definition fd_getfile (tab : filedesc) (fd : Z) (s : kfiles) : option (option nat) :=
  if (fd <? 0) || (fd >=? fd_nfiles tab) then Some None
  else
    slot ← fd_ofiles tab !! Z.to_nat fd;
    match slot with
    | None => Some None
    | Some fp => f ← files s !! fp; Some (if FILE_IS_USABLE f then Some fp else None)
    end.

(** ** Closing *)

Definition fdrelease (t : nat) (fd : Z) (s : kfiles) : option (Z * kfiles) :=
  tab ← tables s !! t;
  slot ← fd_ofiles tab !! Z.to_nat fd;
  match slot with
  | None => Some (EBADF, s)
  | Some fp =>
      s ← FREF fp s;
      tab ← fd_unused (with_ofiles (<[Z.to_nat fd := None]> (fd_ofiles tab)) tab) fd;
      closef t fp (with_table t tab s)
  end.

Definition sys_close (t : nat) (fd : Z) (s : kfiles) : option (Z * kfiles) :=
  tab ← tables s !! t;
  found ← fd_getfile tab fd s;
  match found with
  | None => Some (EBADF, s)
  | Some _ => fdrelease t fd s
  end.

(** [for (fd = 0; fd <= fd_lastfile; fd++)] over the descriptors that [sel]
    selects by their flags; the bound is read again at each turn. *)
Fixpoint close_loop (n : nat) (sel : Z -> bool) (t : nat) (fd : Z) (s : kfiles) : option kfiles :=
  tab ← tables s !! t;
  if fd <=? fd_lastfile tab then
    match n with
    | O => None
    | S n =>
        fl ← fd_ofileflags tab !! Z.to_nat fd;
        if sel fl then '(_, s) ← fdrelease t fd s; close_loop n sel t (fd + 1) s
        else close_loop n sel t (fd + 1) s
    end
  else Some s.

Definition table_fuel (t : nat) (s : kfiles) : nat :=
  match tables s !! t with Some tab => S (Z.to_nat (fd_nfiles tab)) | None => O end.

Definition fdcloseexec (t : nat) (s : kfiles) : option kfiles :=
  close_loop (table_fuel t s) (fun fl => has fl UF_EXCLOSE) t 0 s.

(** [startfd] is unsigned. *)
Definition sys_closefrom (t : nat) (startfd : Z) (s : kfiles) : option (Z * kfiles) :=
  tab ← tables s !! t;
  if startfd >? fd_lastfile tab then Some (EBADF, s)
  else s ← close_loop (table_fuel t s) (fun _ => true) t startfd s; Some (0, s).

(** ** Opening *)

(** Where a new file goes in the list of open files. *)
Definition insert_after (fq : option nat) (fp : nat) (l : list nat) : list nat :=
  match fq with
  | None => fp :: l
  | Some fq => l ≫= (fun x => if decide (x = fq) then [x; fp] else [x])
  end.

(** [rlim] is the resource limit; the error, or the file and its descriptor. *)
Fixpoint falloc (fuel : nat) (t : nat) (rlim : Z) (s : kfiles) : option ((Z + nat * Z) * kfiles) :=
  tab ← tables s !! t;
  a ← fdalloc (S (Z.to_nat (NDREDUCE (fd_nfiles tab)))) (Z.min rlim maxfiles) tab 0;
  match a with
  | Failed e =>
      if e =? ENOSPC then
        match fuel with
        | O => None
        | S fuel => falloc fuel t rlim (with_table t (fdexpand tab) s)
        end
      else Some (inl e, s)
  | Got i tab =>
      if nfiles s >=? maxfiles then
        tab ← fd_unused tab i; Some (inl ENFILE, with_table t tab s)
      else
        let fp := next_file s in
        fq ← fd_ofiles tab !! 0%nat;
        let s := mkK (<[fp := mkFile 2 0 0 FIF_LARVAL]> (files s)) (insert_after fq fp (filehead s))
                   (nfiles s + 1) (S (next_file s)) (tables s) (events s) in
        Some (inr (fp, i),
          with_table t (with_ofiles (<[Z.to_nat i := Some fp]> (fd_ofiles tab)) tab) s)
  end.

(** The creator of a file is done with it. *)
Definition FILE_SET_MATURE (fp : nat) (s : kfiles) : option (Z * kfiles) :=
  f ← files s !! fp;
  FRELE fp (with_files (<[fp := mkFile (f_count f) (f_type f) (f_flag f)
    (clr_flag (f_iflags f) FIF_LARVAL)]> (files s)) s).

(** ** Duplication *)

(** [fp] is referenced by the caller, and released here. *)
Definition finishdup (t fp : nat) (old new : Z) (dup2 : bool) (s : kfiles) : option (Z * kfiles) :=
  f ← files s !! fp;
  if f_count f =? LONG_MAX - 2 then '(_, s) ← FRELE fp s; Some (EDEADLK, s)
  else
    tab ← tables s !! t;
    oldfp ← fd_ofiles tab !! Z.to_nat new;
    s ← match oldfp with Some ofp => FREF ofp s | None => Some s end;
    flold ← fd_ofileflags tab !! Z.to_nat old;
    _ ← fd_ofileflags tab !! Z.to_nat new;
    let tab := with_oflags (<[Z.to_nat new := clr_flag flold UF_EXCLOSE]> (fd_ofileflags tab))
                 (with_ofiles (<[Z.to_nat new := Some fp]> (fd_ofiles tab)) tab) in
    s ← upd_count fp 1 (with_table t tab s);
    '(_, s) ← FRELE fp s;
    match oldfp with
    | None =>
        if dup2 then tab ← tables s !! t; tab ← fd_used tab new; Some (0, with_table t tab s)
        else Some (0, s)
    | Some ofp => '(_, s) ← closef t ofp s; Some (0, s)
    end.

(** The descriptor flag of [new], after a successful duplication. *)
Definition set_exclose (t : nat) (new : Z) (s : kfiles) : option kfiles :=
  tab ← tables s !! t;
  fl ← fd_ofileflags tab !! Z.to_nat new;
  Some (with_table t (with_oflags (<[Z.to_nat new := set_flag fl UF_EXCLOSE]> (fd_ofileflags tab)) tab) s).

(** [sys_dup] (with [want] 0) and the [F_DUPFD] cases of [sys_fcntl]: the
    lowest free descriptor from [want] on.  The result is the error and the
    new descriptor. *)
Fixpoint dup_from (fuel : nat) (t : nat) (rlim : Z) (old want : Z) (cloexec : bool) (s : kfiles) :
    option (Z * Z * kfiles) :=
  tab ← tables s !! t;
  found ← fd_getfile tab old s;
  match found with
  | None => Some (EBADF, 0, s)
  | Some fp =>
      s ← FREF fp s;
      a ← fdalloc (S (Z.to_nat (NDREDUCE (fd_nfiles tab)))) (Z.min rlim maxfiles) tab want;
      match a with
      | Failed e =>
          '(_, s) ← FRELE fp s;
          if e =? ENOSPC then
            match fuel with
            | O => None
            | S fuel => dup_from fuel t rlim old want cloexec (with_table t (fdexpand tab) s)
            end
          else Some (e, 0, s)
      | Got new tab =>
          '(e, s) ← finishdup t fp old new false (with_table t tab s);
          if (e =? 0) && cloexec then s ← set_exclose t new s; Some (e, new, s)
          else Some (e, new, s)
      end
  end.

Definition sys_dup (fuel : nat) (t : nat) (rlim old : Z) (s : kfiles) : option (Z * Z * kfiles) :=
  dup_from fuel t rlim old 0 false s.

(** A reference is held while the number is checked; it is given back, which
    leaves no trace, when the number is bad. *)
Definition fcntl_dupfd (fuel : nat) (t : nat) (rlim old newmin : Z) (cloexec : bool) (s : kfiles) :
    option (Z * Z * kfiles) :=
  tab ← tables s !! t;
  found ← fd_getfile tab old s;
  match found with
  | None => Some (EBADF, 0, s)
  | Some fp =>
      if (newmin <? 0) || (newmin >=? rlim) || (newmin >=? maxfiles) then Some (EINVAL, 0, s)
      else dup_from fuel t rlim old newmin cloexec s
  end.

(** [dup2] and [dup3]: [new] becomes a copy of [old]. *)
Fixpoint dodup3 (fuel : nat) (t : nat) (rlim old new flags : Z) (s : kfiles) : option (Z * Z * kfiles) :=
  tab ← tables s !! t;
  found ← fd_getfile tab old s;
  match found with
  | None => Some (EBADF, 0, s)
  | Some fp =>
      if (new <? 0) || (new >=? rlim) || (new >=? maxfiles) then Some (EBADF, 0, s)
      else if old =? new then Some (0, new, s)
      else
        s ← FREF fp s;
        let finish s :=
          '(e, s) ← finishdup t fp old new true s;
          if (e =? 0) && has flags O_CLOEXEC then s ← set_exclose t new s; Some (e, new, s)
          else Some (e, new, s) in
        if new >=? fd_nfiles tab then
          a ← fdalloc (S (Z.to_nat (NDREDUCE (fd_nfiles tab)))) (Z.min rlim maxfiles) tab new;
          match a with
          | Failed e =>
              '(_, s) ← FRELE fp s;
              if e =? ENOSPC then
                match fuel with
                | O => None
                | S fuel => dodup3 fuel t rlim old new flags (with_table t (fdexpand tab) s)
                end
              else Some (e, 0, s)
          | Got i tab =>
              if negb (new =? i) then None (* panic *)
              else tab ← fd_unused tab new; finish (with_table t tab s)
          end
        else finish s
  end.

Definition sys_dup2 (fuel : nat) (t : nat) (rlim from to : Z) (s : kfiles) : option (Z * Z * kfiles) :=
  dodup3 fuel t rlim from to 0 s.

Definition sys_dup3 (fuel : nat) (t : nat) (rlim from to flags : Z) (s : kfiles) :
    option (Z * Z * kfiles) :=
  if from =? to then Some (EINVAL, 0, s)
  else if negb (Z.land flags (Z.lnot O_CLOEXEC) =? 0) then Some (EINVAL, 0, s)
  else dodup3 fuel t rlim from to flags s.

(** ** Fork and exit *)

Definition fdshare (t : nat) (s : kfiles) : option kfiles :=
  tab ← tables s !! t; Some (with_table t (with_refcnt (u16 (fd_refcnt tab + 1)) tab) s).

(** [while (i >= 2 * NDEXTENT && i > fd_lastfile * 2) i /= 2] *)
Fixpoint shrink (n : nat) (i last : Z) : Z :=
  match n with
  | O => i
  | S n => if (i >=? 2 * NDEXTENT) && (i >? last * 2) then shrink n (i / 2) last else i
  end.

Definition copy_size (tab : filedesc) : Z :=
  if fd_lastfile tab <? NDFILE then NDFILE
  else shrink (Z.to_nat (fd_nfiles tab)) (fd_nfiles tab) (fd_lastfile tab).

(** The copy of the table, before the files are counted. *)
Definition copy_table (tab : filedesc) : filedesc :=
  let i := copy_size tab in
  mkFd (take (Z.to_nat i) (fd_ofiles tab)) (take (Z.to_nat i) (fd_ofileflags tab)) i (fd_openfd tab)
    (take (Z.to_nat (NDHISLOTS i)) (fd_himap tab)) (take (Z.to_nat (NDLOSLOTS i)) (fd_lomap tab))
    (fd_lastfile tab) (fd_freefile tab) 1 (fd_flags tab).

Definition fdremove (tab : filedesc) (fd : Z) : option filedesc :=
  fd_unused (with_ofiles (<[Z.to_nat fd := None]> (fd_ofiles tab)) tab) fd.

(** The loop over the copied descriptors. *)
Fixpoint copy_loop (n : nat) (t : nat) (i : Z) (s : kfiles) : option kfiles :=
  tab ← tables s !! t;
  if i <=? fd_lastfile tab then
    match n with
    | O => None
    | S n =>
        slot ← fd_ofiles tab !! Z.to_nat i;
        match slot with
        | None => copy_loop n t (i + 1) s
        | Some fp =>
            f ← files s !! fp;
            if (f_count f =? LONG_MAX - 2) || (f_type f =? DTYPE_KQUEUE) || (f_type f =? DTYPE_SYSTRACE)
            then tab ← fdremove tab i; copy_loop n t (i + 1) (with_table t tab s)
            else s ← upd_count fp 1 s; copy_loop n t (i + 1) s
        end
    end
  else Some s.

(** [t'] is the address of the new table. *)
Definition fdcopy (t t' : nat) (s : kfiles) : option kfiles :=
  tab ← tables s !! t;
  let s := with_table t' (copy_table tab) s in
  copy_loop (table_fuel t' s) t' 0 s.

(** The loop of [fdfree]. *)
Fixpoint free_loop (n : nat) (t : nat) (fd : Z) (s : kfiles) : option kfiles :=
  match n with
  | O => Some s
  | S n =>
      tab ← tables s !! t;
      slot ← fd_ofiles tab !! Z.to_nat fd;
      match slot with
      | None => free_loop n t (fd + 1) s
      | Some fp =>
          s ← FREF fp s;
          let s := with_table t (with_ofiles (<[Z.to_nat fd := None]> (fd_ofiles tab)) tab) s in
          '(_, s) ← closef t fp s;
          free_loop n t (fd + 1) s
      end
  end.

Definition fdfree (t : nat) (s : kfiles) : option kfiles :=
  tab ← tables s !! t;
  let n := u16 (fd_refcnt tab - 1) in
  let s := with_table t (with_refcnt n tab) s in
  if n >? 0 then Some s
  else
    s ← free_loop (Z.to_nat (fd_lastfile tab + 1)) t 0 s;
    Some (mkK (files s) (filehead s) (nfiles s) (next_file s) (delete t (tables s)) (events s)).

(** ** Opening, continued *)

(** The creator of a file says what it is: [flag] is [flags & FMASK]. *)
Definition open_vnode (fp : nat) (flag : Z) (s : kfiles) : option kfiles :=
  f ← files s !! fp;
  Some (with_files (<[fp := mkFile (f_count f) DTYPE_VNODE flag (f_iflags f)]> (files s)) s).

(** An open that fails gives back the descriptor [indx] and the file [falloc]
    gave to it. *)
Definition open_failed (t fp : nat) (indx : Z) (s : kfiles) : option (Z * kfiles) :=
  tab ← tables s !! t;
  tab ← fdremove tab indx;
  closef t fp (with_table t tab s).

(** ** Descriptors opened through /dev/fd *)

Definition FREAD : Z := 1.
Definition FWRITE : Z := 2.

(** [indx] is the descriptor [falloc] gave to the caller.  [setugid], [descfd]
    and [dupfd] are the flags of the process that runs a set-id program, and its
    [p_descfd] and [p_dupfd]. *)
Definition dupfdopen (t : nat) (setugid : bool) (descfd dupfd indx dfd mode : Z) (s : kfiles) :
    option (Z * kfiles) :=
  if setugid && ((descfd =? 255) || negb (descfd =? dupfd)) then Some (EPERM, s)
  else
    tab ← tables s !! t;
    found ← fd_getfile tab dfd s;
    match found with
    | None => Some (EBADF, s)
    | Some wfp =>
        f ← files s !! wfp;
        if negb (Z.lor (Z.land mode (Z.lor FREAD FWRITE)) (f_flag f) =? f_flag f) then Some (EACCES, s)
        else if f_count f =? LONG_MAX - 2 then Some (EDEADLK, s)
        else
          fl ← fd_ofileflags tab !! Z.to_nat indx;
          fl' ← fd_ofileflags tab !! Z.to_nat dfd;
          let tab := with_oflags (<[Z.to_nat indx := Z.lor (Z.land fl UF_EXCLOSE) (clr_flag fl' UF_EXCLOSE)]>
                       (fd_ofileflags tab)) (with_ofiles (<[Z.to_nat indx := Some wfp]> (fd_ofiles tab)) tab) in
          s ← upd_count wfp 1 s;
          tab ← fd_used tab indx;
          Some (0, with_table t tab s)
    end.

(** [getdtablecount] *)
Definition sys_getdtablecount (t : nat) (s : kfiles) : option Z := tab ← tables s !! t; Some (fd_openfd tab).

(** ** Flags *)

Definition fcntl_getfd (t : nat) (fd : Z) (s : kfiles) : option (Z * Z) :=
  tab ← tables s !! t;
  found ← fd_getfile tab fd s;
  match found with
  | None => Some (EBADF, 0)
  | Some _ => fl ← fd_ofileflags tab !! Z.to_nat fd; Some (0, if has fl UF_EXCLOSE then 1 else 0)
  end.

Definition fcntl_setfd (t : nat) (fd arg : Z) (s : kfiles) : option (Z * kfiles) :=
  tab ← tables s !! t;
  found ← fd_getfile tab fd s;
  match found with
  | None => Some (EBADF, s)
  | Some _ =>
      fl ← fd_ofileflags tab !! Z.to_nat fd;
      let fl := if negb (Z.land arg 1 =? 0) then set_flag fl UF_EXCLOSE else clr_flag fl UF_EXCLOSE in
      Some (0, with_table t (with_oflags (<[Z.to_nat fd := fl]> (fd_ofileflags tab)) tab) s)
  end.

End Files.
