(* ===== verification/FdRefs.v ===== *)
(** * Open files: reference counts

    The count of a file is the number of descriptors that refer to it, in all
    tables, plus the references held by calls under way; a file goes away, and
    is closed, exactly when the last of them does. *)

From stdpp Require Import base numbers list option gmap.
From Stdlib Require Import ZArith Lia Bool.
From S2P Require Import Prelude Clock Fd FdFacts FdOps FdFile.

(** ** Occurrences *)

Definition occ (x : nat) (l : list nat) : Z := Z.of_nat (length (filter (fun y => y = x) l)).

Lemma occ_perm x l l' : l ≡ₚ l' -> occ x l = occ x l'.
Proof. intros H. unfold occ. by rewrite (filter_Permutation _ _ _ H). Qed.

#[export] Instance occ_proper x : Proper (Permutation ==> eq) (occ x).
Proof. intros l l' H. by apply occ_perm. Qed.

Lemma occ_cons x y l : occ x (y :: l) = (if decide (y = x) then 1 else 0) + occ x l.
Proof. unfold occ. rewrite filter_cons. case_decide; simpl; lia. Qed.

Lemma occ_app x l l' : occ x (l ++ l') = occ x l + occ x l'.
Proof. unfold occ. rewrite list.filter_app, length_app. lia. Qed.

Lemma occ_mid x y l l' : occ x (l ++ y :: l') = (if decide (y = x) then 1 else 0) + occ x (l ++ l').
Proof. rewrite !occ_app, occ_cons. lia. Qed.

Lemma occ_pos x l : (x ∈ l) <-> (0 < occ x l).
Proof.
  unfold occ. split.
  - intros H. assert (Hf : x ∈ filter (fun y => y = x) l) by (by apply list_elem_of_filter).
    destruct (filter (fun y => y = x) l); [by apply elem_of_nil in Hf|]. simpl. lia.
  - intros H. destruct (filter (fun y => y = x) l) as [|y l'] eqn:E; [simpl in H; lia|].
    assert (Hin : y ∈ filter (fun y => y = x) l) by (rewrite E; set_solver).
    by apply list_elem_of_filter in Hin as [-> ?].
Qed.

Lemma occ_nonneg x l : 0 <= occ x l.
Proof. unfold occ. lia. Qed.

(** ** The invariant *)

(** The files of a table, and of all the tables. *)
Definition tfiles (tab : filedesc) : list nat := omap id (fd_ofiles tab).
Definition slots (s : kfiles) : list nat := map_to_list (tables s) ≫= (fun p => tfiles p.2).

(** The files that have been closed. *)
Definition closed (s : kfiles) : list nat :=
  omap (fun e => match e with Closed fp => Some fp | _ => None end) (events s).

(** [extra] lists the references held outside the tables. *)
Record refs_ok (extra : list nat) (s : kfiles) : Prop := {
  ro_count : forall fp f, files s !! fp = Some f -> f_count f = occ fp (slots s ++ extra);
  ro_live : forall fp, fp ∈ slots s ++ extra <-> is_Some (files s !! fp);
  ro_list : filehead s ≡ₚ elements (dom (files s));
  ro_nfiles : nfiles s = Z.of_nat (size (files s));
  ro_closed : NoDup (closed s) /\
    forall fp, fp ∈ closed s <-> (fp < next_file s)%nat /\ files s !! fp = None;
  ro_fresh : forall fp, is_Some (files s !! fp) -> (fp < next_file s)%nat;
}.

Lemma slots_lookup s t tab :
  tables s !! t = Some tab ->
  slots s ≡ₚ tfiles tab ++ (map_to_list (delete t (tables s)) ≫= (fun p => tfiles p.2)).
Proof. intros H. unfold slots. by rewrite <- (map_to_list_delete (tables s) t tab H). Qed.

Lemma slots_insert s t tab' :
  slots (with_table t tab' s) ≡ₚ
  tfiles tab' ++ (map_to_list (delete t (tables s)) ≫= (fun p => tfiles p.2)).
Proof.
  rewrite (slots_lookup (with_table t tab' s) t tab') by (simpl; apply lookup_insert_eq). simpl.
  by rewrite delete_insert_eq.
Qed.

Lemma live_slot extra s t tab i fp :
  refs_ok extra s -> tables s !! t = Some tab -> fd_ofiles tab !! i = Some (Some fp) ->
  fp ∈ slots s /\ exists f, files s !! fp = Some f.
Proof.
  intros Hok Ht Hi. assert (Hin : fp ∈ slots s).
  { rewrite (slots_lookup s t tab Ht). apply elem_of_app. left. unfold tfiles.
    apply list_elem_of_omap. exists (Some fp). split; [by eapply list_elem_of_lookup_2|done]. }
  split; [done|]. apply (ro_live _ _ Hok). apply elem_of_app. by left.
Qed.

(** References move between the table [t] and those held outside. *)
Lemma retable extra extra' s t tab tab' :
  refs_ok extra s -> tables s !! t = Some tab ->
  tfiles tab' ++ extra' ≡ₚ tfiles tab ++ extra -> refs_ok extra' (with_table t tab' s).
Proof.
  intros Hok Ht Hp.
  assert (Hall : slots (with_table t tab' s) ++ extra' ≡ₚ slots s ++ extra).
  { rewrite slots_insert, (slots_lookup s t tab Ht).
    rewrite <- !app_assoc, (Permutation_app_comm _ extra'), (Permutation_app_comm _ extra), !app_assoc.
    by rewrite Hp. }
  destruct Hok as [H1 H2 H3 H4 H5 H6]. constructor; simpl; try done.
  - intros fp f Hf. rewrite (H1 fp f Hf). symmetry. by apply occ_perm.
  - intros fp. rewrite Hall. apply H2.
Qed.

Lemma upd_count_eq fp d s f :
  files s !! fp = Some f ->
  upd_count fp d s = Some (with_files (<[fp := set_count (f_count f + d) f]> (files s)) s).
Proof. intros H. unfold upd_count. by rewrite H. Qed.

(** The count of a file changes with the references outside the tables. *)
Lemma recount extra extra' s fp f d :
  refs_ok extra s -> files s !! fp = Some f ->
  (forall x, occ x extra' = occ x extra + if decide (x = fp) then d else 0) ->
  fp ∈ slots s ++ extra' ->
  refs_ok extra' (with_files (<[fp := set_count (f_count f + d) f]> (files s)) s).
Proof.
  intros Hok Hf Hocc Hin.
  destruct Hok as [H1 H2 H3 H4 [H5 H5'] H6].
  assert (Hex : forall x, is_Some (<[fp := set_count (f_count f + d) f]> (files s) !! x) <-> is_Some (files s !! x)).
  { intros x. destruct (decide (x = fp)) as [->|]; [rewrite lookup_insert_eq, Hf; done|].
    by rewrite lookup_insert_ne. }
  constructor; simpl.
  - intros x g Hg. change (slots (with_files _ s)) with (slots s). rewrite occ_app, Hocc.
    destruct (decide (x = fp)) as [->|].
    + rewrite lookup_insert_eq in Hg. injection Hg as <-. simpl. rewrite (H1 fp f Hf), occ_app. lia.
    + rewrite lookup_insert_ne in Hg by done. rewrite (H1 x g Hg), occ_app. lia.
  - intros x. rewrite Hex, <- H2. change (slots (with_files _ s)) with (slots s).
    destruct (decide (x = fp)) as [->|Hne].
    + split; intros _; [|done]. apply H2. by rewrite Hf.
    + rewrite !occ_pos, !occ_app, Hocc, decide_False by done. by rewrite Z.add_0_r.
  - by rewrite dom_insert_lookup_L.
  - by rewrite map_size_insert_Some.
  - split; [done|]. intros x. rewrite H5'. f_equiv. rewrite !eq_None_not_Some. by rewrite Hex.
  - intros x Hx. apply H6. by apply Hex.
Qed.

(** ** References *)

Lemma FREF_spec extra s fp :
  refs_ok extra s -> fp ∈ slots s ++ extra ->
  exists s', FREF fp s = Some s' /\ refs_ok (fp :: extra) s' /\ tables s' = tables s /\ events s' = events s /\
    next_file s' = next_file s /\
    (forall x, files s' !! x = if decide (x = fp) then set_count (occ fp (slots s ++ extra) + 1) <$> files s !! x
       else files s !! x).
Proof.
  intros Hok Hin. destruct (proj1 (ro_live _ _ Hok fp) Hin) as [f Hf].
  unfold FREF. rewrite (upd_count_eq _ _ _ _ Hf). eexists. split; [reflexivity|]. split.
  - apply (recount extra); try done.
    + intros x. rewrite occ_cons. destruct (decide (fp = x)), (decide (x = fp)); try lia; congruence.
    + apply elem_of_app. right. set_solver.
  - split_and!; try done. intros x. simpl. case_decide as E; [subst|].
    + rewrite lookup_insert_eq, Hf. simpl. by rewrite (ro_count _ _ Hok _ _ Hf).
    + by rewrite lookup_insert_ne.
Qed.

(** One reference of several goes. *)
Lemma drop_ref extra s fp :
  refs_ok (fp :: extra) s -> fp ∈ slots s ++ extra ->
  exists s', upd_count fp (-1) s = Some s' /\ refs_ok extra s' /\ tables s' = tables s /\ events s' = events s /\
    next_file s' = next_file s.
Proof.
  intros Hok Hin.
  assert (Hl : is_Some (files s !! fp)) by (apply (ro_live _ _ Hok); set_solver).
  destruct Hl as [f Hf]. rewrite (upd_count_eq _ _ _ _ Hf). eexists. split; [reflexivity|].
  split; [|done]. apply (recount (fp :: extra)); try done.
  intros x. rewrite occ_cons. destruct (decide (fp = x)), (decide (x = fp)); try lia; congruence.
Qed.

Lemma elements_remove (x : nat) (m : gmap nat file) :
  is_Some (m !! x) -> elements (dom m) ≡ₚ x :: elements (dom m ∖ {[x]}).
Proof.
  intros Hx. rewrite <- elements_union_singleton by set_solver. f_equiv.
  intros y. rewrite elem_of_union, elem_of_difference, elem_of_singleton.
  destruct (decide (y = x)) as [->|]; [|tauto]. split; [by left|]. intros _. by apply elem_of_dom.
Qed.

(** The last reference goes, and the file with it. *)
Lemma forget_file extra s fp f :
  refs_ok (fp :: extra) s -> files s !! fp = Some f -> fp ∉ slots s ++ extra ->
  refs_ok extra (mkK (delete fp (files s)) (filter (fun x => x <> fp) (filehead s)) (nfiles s - 1)
    (next_file s) (tables s) (Closed fp :: events s)).
Proof.
  intros Hok Hf Hin.
  assert (Hnin : fp ∉ closed s).
  { intros Hcl. apply (ro_closed _ _ Hok) in Hcl as [_ Hn]. congruence. }
  destruct Hok as [H1 H2 H3 H4 [H5 H5'] H6]. constructor; simpl.
  - intros x g [Hne Hg]%lookup_delete_Some. rewrite (H1 x g Hg). by rewrite occ_mid, decide_False.
  - intros x. change (slots (mkK _ _ _ _ (tables s) _)) with (slots s).
    destruct (decide (x = fp)) as [->|Hne].
    + rewrite lookup_delete_eq. split; [done|]. by intros [? ?].
    + rewrite lookup_delete_ne by done. rewrite <- H2. set_solver.
  - rewrite dom_delete_L, H3, (elements_remove fp) by (by rewrite Hf).
    rewrite filter_cons, decide_False by (by intros []).
    rewrite filter_absent; [done|]. rewrite elem_of_elements. set_solver.
  - rewrite map_size_delete_Some by (by rewrite Hf).
    assert (size (files s) <> 0%nat) by (intros Hs; apply map_size_empty_iff in Hs; by rewrite Hs in Hf).
    lia.
  - split.
    + change (NoDup (fp :: closed s)). by apply list.NoDup_cons.
    + intros x. change (closed _) with (fp :: closed s). rewrite elem_of_cons, H5'.
      destruct (decide (x = fp)) as [->|Hne].
      * rewrite lookup_delete_eq. split; [|by left]. intros _. split; [|done]. apply H6. by rewrite Hf.
      * rewrite lookup_delete_ne by done. tauto.
  - intros x [g [_ Hg]%lookup_delete_Some]. apply H6. by rewrite Hg.
Qed.

Section Files.
Context (fo_close : nat -> Z).

(** A reference goes; with the last one the file is closed. *)
Lemma FRELE_spec extra s fp :
  refs_ok (fp :: extra) s ->
  exists e s', FRELE fo_close fp s = Some (e, s') /\ refs_ok extra s' /\ tables s' = tables s /\
    next_file s' = next_file s /\
    (if decide (fp ∈ slots s ++ extra) then events s' = events s /\ is_Some (files s' !! fp) /\
       exists f, files s !! fp = Some f /\ files s' = <[fp := set_count (f_count f + -1) f]> (files s)
     else e = fo_close fp /\ events s' = Closed fp :: events s /\ files s' = delete fp (files s)).
Proof.
  intros Hok. assert (Hl : is_Some (files s !! fp)) by (apply (ro_live _ _ Hok); set_solver).
  destruct Hl as [f Hf]. pose proof (ro_count _ _ Hok fp f Hf) as Hc.
  rewrite occ_mid, decide_True in Hc by done.
  unfold FRELE. rewrite (upd_count_eq _ _ _ _ Hf). simpl. rewrite lookup_insert_eq. simpl.
  case_decide as Hin.
  - apply occ_pos in Hin as Hpos. destruct (Z.eqb_spec (f_count f + -1) 0); [lia|].
    eexists 0, _. split; [reflexivity|]. split.
    + apply (recount (fp :: extra)); try done.
      intros x. rewrite occ_cons. destruct (decide (fp = x)), (decide (x = fp)); try lia; congruence.
    + split_and!; try done; simpl; [rewrite lookup_insert_eq; by eexists|by exists f].
  - assert (Hz : occ fp (slots s ++ extra) = 0).
    { pose proof (occ_nonneg fp (slots s ++ extra)). destruct (Z.eq_dec (occ fp (slots s ++ extra)) 0); [done|].
      exfalso. apply Hin, occ_pos. lia. }
    destruct (Z.eqb_spec (f_count f + -1) 0); [|lia]. unfold fdrop. simpl. rewrite lookup_insert_eq. simpl.
    destruct (Z.eqb_spec (f_count f + -1) 0); [|lia]. simpl. rewrite delete_insert_eq.
    eexists _, _. split; [reflexivity|].
    split; [|split_and!; done]. by apply (forget_file extra s fp f).
Qed.

(** [closef] gives up a descriptor's reference and the caller's. *)
Lemma closef_spec extra s t tab fp :
  refs_ok (fp :: fp :: extra) s -> tables s !! t = Some tab ->
  exists e s', closef fo_close t fp s = Some (e, s') /\ refs_ok extra s' /\ tables s' = tables s /\
    next_file s' = next_file s /\
    (if decide (fp ∈ slots s ++ extra) then is_Some (files s' !! fp) /\ closed s' = closed s
     else e = fo_close fp /\ files s' !! fp = None /\ closed s' = fp :: closed s).
Proof.
  intros Hok Ht.
  assert (Hl : is_Some (files s !! fp)) by (apply (ro_live _ _ Hok); set_solver).
  destruct Hl as [f Hf]. pose proof (ro_count _ _ Hok fp f Hf) as Hc.
  assert (H2 : 2 <= f_count f).
  { rewrite Hc, !occ_mid, decide_True by done. pose proof (occ_nonneg fp (slots s ++ extra)). lia. }
  unfold closef. rewrite Hf. simpl. destruct (Z.ltb_spec (f_count f) 2); [lia|].
  destruct (drop_ref (fp :: extra) s fp Hok) as (s1 & -> & Hok1 & Et1 & Ee1 & En1); [set_solver|]. simpl.
  rewrite Et1, Ht. simpl.
  set (s2 := if has (fd_flags tab) FD_ADVLOCK && (f_type f =? DTYPE_VNODE) then with_event (Unlocked t fp) s1 else s1).
  assert (Hok2 : refs_ok (fp :: extra) s2 /\ tables s2 = tables s /\ closed s2 = closed s /\
    next_file s2 = next_file s).
  { unfold s2. destruct (_ && _); [|unfold closed; rewrite Ee1; done].
    split_and!; try done; [|unfold closed; simpl; by rewrite Ee1].
    destruct Hok1 as [A1 A2 A3 A4 A5 A6]. by constructor. }
  destruct Hok2 as (Hok2 & Et2 & Ee2 & En2).
  destruct (FRELE_spec extra s2 fp Hok2) as (e & s' & -> & Hok' & Et' & En' & Hev).
  assert (Hsl : slots s2 = slots s) by (unfold slots; by rewrite Et2). rewrite Hsl in Hev.
  exists e, s'. split; [done|]. split; [done|]. split; [by rewrite Et', Et2|]. split; [by rewrite En', En2|].
  case_decide as Hin.
  - destruct Hev as (Hev & ? & _). split; [done|]. unfold closed. rewrite Hev. exact Ee2.
  - destruct Hev as (-> & Hev & Hfl). split; [done|]. split; [rewrite Hfl; apply lookup_delete_eq|].
    unfold closed. rewrite Hev. simpl. f_equal. exact Ee2.
Qed.
End Files.
