(* ===== verification/FdSys.v ===== *)
(** * Descriptor calls

    What [close], [dup], [dup2], [dup3], [fcntl(F_DUPFD)] and the creation of a
    file do to the descriptors of a process and to the open files of the
    system. *)

From stdpp Require Import base numbers list option gmap.
From Stdlib Require Import ZArith Lia Bool.
From S2P Require Import Prelude Clock Fd FdFacts FdOps FdFile FdRefs.

(** ** Views *)

(** The file a descriptor refers to. *)
Definition file_of (tab : filedesc) (fd : Z) : option nat :=
  if fd <? 0 then None else default None (fd_ofiles tab !! Z.to_nat fd).

(** Whether a descriptor is closed by [exec]. *)
Definition cloexec_of (tab : filedesc) (fd : Z) : bool :=
  has (default 0 (fd_ofileflags tab !! Z.to_nat fd)) UF_EXCLOSE.

(** The state of the system is consistent: the tables, and the counts. *)
Record kok (extra : list nat) (s : kfiles) : Prop := {
  k_refs : refs_ok extra s;
  k_tabs : forall t tab, tables s !! t = Some tab -> fd_ok tab }.

Lemma file_of_slot tab fd x :
  0 <= fd -> fd_ofiles tab !! Z.to_nat fd = Some x -> file_of tab fd = x.
Proof. intros H Hx. unfold file_of. destruct (Z.ltb_spec fd 0); [lia|]. by rewrite Hx. Qed.

Lemma file_of_used tab fd : 0 <= fd -> used tab fd = bool_decide (is_Some (file_of tab fd)).
Proof.
  intros H. unfold used, file_of. destruct (Z.ltb_spec fd 0); [lia|].
  destruct (fd_ofiles tab !! Z.to_nat fd) as [[x|]|]; symmetry;
    [by apply bool_decide_true|apply bool_decide_false; by intros []..].
Qed.

Lemma file_of_insert tab tab' fd y x :
  fd_ofiles tab' = <[Z.to_nat fd := y]> (fd_ofiles tab) -> 0 <= fd < Z.of_nat (length (fd_ofiles tab)) ->
  file_of tab' x = if x =? fd then y else file_of tab x.
Proof.
  intros E Hfd. unfold file_of. rewrite E. destruct (Z.eqb_spec x fd) as [->|Hne].
  - destruct (Z.ltb_spec fd 0); [lia|]. by rewrite list_lookup_insert_eq by lia.
  - destruct (Z.ltb_spec x 0); [done|]. by rewrite list_lookup_insert_ne by lia.
Qed.

Lemma file_of_range tab fd fp :
  fd_ok tab -> file_of tab fd = Some fp ->
  0 <= fd < fd_nfiles tab /\ fd_ofiles tab !! Z.to_nat fd = Some (Some fp).
Proof.
  intros Hok H. unfold file_of in H. destruct (Z.ltb_spec fd 0); [done|].
  destruct (fd_ofiles tab !! Z.to_nat fd) as [[x|]|] eqn:E; try done. simpl in H. injection H as ->.
  split; [|done]. rewrite <- (fo_ofiles _ _ Hok). apply lookup_lt_Some in E. lia.
Qed.

(** The files of a table after one slot changes. *)
Lemma omap_insert (l : list (option nat)) i x y :
  l !! i = Some x -> omap id (<[i := y]> l) ++ option_list x ≡ₚ omap id l ++ option_list y.
Proof.
  revert i. induction l as [|z l IH]; intros i Hi; [done|].
  destruct i as [|i]; simpl in *.
  - injection Hi as ->. destruct x, y; simpl; solve_Permutation.
  - destruct z; simpl; rewrite (IH i Hi); done.
Qed.

Lemma tfiles_update tab tab' i x y :
  fd_ofiles tab !! i = Some x -> fd_ofiles tab' = <[i := y]> (fd_ofiles tab) ->
  tfiles tab' ++ option_list x ≡ₚ tfiles tab ++ option_list y.
Proof. intros Hx E. unfold tfiles. rewrite E. by apply omap_insert. Qed.

Lemma kok_table extra extra' s t tab tab' :
  kok extra s -> tables s !! t = Some tab -> fd_ok tab' ->
  tfiles tab' ++ extra' ≡ₚ tfiles tab ++ extra -> kok extra' (with_table t tab' s).
Proof.
  intros [Hr Ht] Hl Hok Hp. split; [by apply (retable extra _ s t tab)|].
  intros t0 tab0 H0. simpl in H0. apply lookup_insert_Some in H0 as [[<- <-]|[_ H0]]; [done|by apply (Ht t0)].
Qed.

(** Tables and counts are separate. *)
Lemma kok_refs extra s extra' s' : kok extra s -> refs_ok extra' s' -> tables s' = tables s -> kok extra' s'.
Proof. intros [_ Ht] Hr E. split; [done|]. by rewrite E. Qed.

(** A descriptor in use gets another file. *)
Lemma replace_file_ok f fd x y :
  fd_ok f -> 0 <= fd -> fd_ofiles f !! Z.to_nat fd = Some (Some x) ->
  fd_ok (with_ofiles (<[Z.to_nat fd := Some y]> (fd_ofiles f)) f).
Proof.
  intros Hok Hfd Hx. pose proof (set_file_ok _ fd y (clear_file_ok f fd x Hok Hfd Hx)) as H.
  simpl in H. by rewrite list_insert_insert_eq in H.
Qed.

(** The flags of a descriptor change. *)
Lemma with_oflags_ok r f fl :
  fd_okr r f -> length fl = length (fd_ofileflags f) -> fd_okr r (with_oflags fl f).
Proof. intros [? ? ? ? ? ? ? ? ? ? ? ?] E. constructor; try done. simpl. lia. Qed.

(** [fd_used] touches neither files nor flags. *)
Lemma fd_used_frame f fd f' o fl :
  fd_used f fd = Some f' ->
  fd_used (with_oflags fl (with_ofiles o f)) fd = Some (with_oflags fl (with_ofiles o f')).
Proof.
  unfold fd_used. simpl. destruct (fd_lomap f !! _) as [w|]; simpl; [|done].
  destruct (_ =? ONES); simpl; [destruct (fd_himap f !! _); simpl; [|done]|]; by intros [= <-].
Qed.

Lemma lookup_in_table r f fd :
  fd_okr r f -> 0 <= fd < fd_nfiles f ->
  (exists x, fd_ofiles f !! Z.to_nat fd = Some x) /\ exists fl, fd_ofileflags f !! Z.to_nat fd = Some fl.
Proof.
  intros Hok Hfd. pose proof (fo_ofiles _ _ Hok). pose proof (fo_oflags _ _ Hok).
  split; apply lookup_lt_is_Some; lia.
Qed.

(** [fd_getfile] finds the file of a descriptor, when it is usable. *)
Lemma fd_getfile_spec extra s t tab fd :
  kok extra s -> tables s !! t = Some tab ->
  exists r, fd_getfile tab fd s = Some r /\
    match r with
    | Some fp => file_of tab fd = Some fp /\ exists f, files s !! fp = Some f /\ FILE_IS_USABLE f = true
    | None => file_of tab fd = None \/
        exists fp f, file_of tab fd = Some fp /\ files s !! fp = Some f /\ FILE_IS_USABLE f = false
    end.
Proof.
  intros [Hr Ht] Hl. pose proof (Ht t tab Hl) as Hok. unfold fd_getfile.
  destruct (Z.ltb_spec fd 0) as [Hn|Hn]; simpl.
  - exists None. split; [done|]. left. unfold file_of. by destruct (Z.ltb_spec fd 0); [|lia].
  - rewrite Z.geb_leb. destruct (Z.leb_spec (fd_nfiles tab) fd) as [Hge|Hlt].
    + exists None. split; [done|]. left. unfold file_of. destruct (Z.ltb_spec fd 0); [lia|].
      rewrite lookup_ge_None_2; [done|]. pose proof (fo_ofiles _ _ Hok). lia.
    + destruct (lookup_in_table _ _ fd Hok ltac:(lia)) as [[x Hx] _]. rewrite Hx. simpl.
      pose proof (file_of_slot tab fd x ltac:(lia) Hx) as Hfo. destruct x as [fp|].
      * destruct (live_slot _ _ _ _ _ _ Hr Hl Hx) as [_ [f Hf]]. rewrite Hf. simpl.
        destruct (FILE_IS_USABLE f) eqn:E; [exists (Some fp)|exists None]; (split; [done|]); [by eauto|].
        right. by exists fp, f.
      * exists None. split; [done|]. by left.
Qed.

Lemma closed_events s s' : events s' = events s -> closed s' = closed s.
Proof. intros E. unfold closed. by rewrite E. Qed.

Lemma slots_tables s s' : tables s' = tables s -> slots s' = slots s.
Proof. intros E. unfold slots. by rewrite E. Qed.

Lemma occ_length x l : occ x l <= Z.of_nat (length l).
Proof. unfold occ. pose proof (length_filter (fun y => y = x) l). lia. Qed.

(** There are few references, compared with what a count can hold. *)
Definition few (extra : list nat) (s : kfiles) : Prop := Z.of_nat (length (slots s ++ extra)) < LONG_MAX - 3.

(** Whether a file that lost a descriptor is closed: when nothing refers to it
    any more. *)
Definition closed_unless_referenced (extra : list nat) (fp : nat) (s s' : kfiles) : Prop :=
  closed s' = if decide (fp ∈ slots s' ++ extra) then closed s else fp :: closed s.

Section Calls.
Context (fo_close : nat -> Z) (maxfiles : Z).

Lemma closef_closed extra s t tab fp :
  refs_ok (fp :: fp :: extra) s -> tables s !! t = Some tab ->
  exists e s', closef fo_close t fp s = Some (e, s') /\ refs_ok extra s' /\ tables s' = tables s /\
    next_file s' = next_file s /\ closed_unless_referenced extra fp s s' /\
    (fp ∉ slots s' ++ extra -> e = fo_close fp /\ files s' !! fp = None).
Proof.
  intros Hok Ht. destruct (closef_spec fo_close extra s t tab fp Hok Ht) as (e & s' & E & Hr & Et & En & Hc).
  exists e, s'. unfold closed_unless_referenced. rewrite (slots_tables s s' Et).
  split_and!; try done; case_decide; try done; intuition.
Qed.

(** ** Closing *)

Lemma fdrelease_spec extra s t tab fd fp :
  kok extra s -> tables s !! t = Some tab -> 0 <= fd -> fd_ofiles tab !! Z.to_nat fd = Some (Some fp) ->
  exists e s' tab', fdrelease fo_close t fd s = Some (e, s') /\ kok extra s' /\
    tables s' = <[t := tab']> (tables s) /\ fd_ofiles tab' = <[Z.to_nat fd := None]> (fd_ofiles tab) /\
    fd_ofileflags tab' = fd_ofileflags tab /\ fd_nfiles tab' = fd_nfiles tab /\
    fd_lastfile tab' <= fd_lastfile tab /\ next_file s' = next_file s /\
    closed_unless_referenced extra fp s s' /\
    (fp ∉ slots s' ++ extra -> e = fo_close fp /\ files s' !! fp = None).
Proof.
  intros Hk Ht Hfd Hx. pose proof (k_tabs _ _ Hk t tab Ht) as Hok.
  destruct (live_slot _ _ _ _ _ _ (k_refs _ _ Hk) Ht Hx) as [Hin _].
  destruct (FREF_spec extra s fp (k_refs _ _ Hk)) as (s1 & E1 & Hr1 & Et1 & Ee1 & En1 & _); [set_solver|].
  destruct (fd_unused_spec _ fd (clear_file_ok tab fd fp Hok Hfd Hx))
    as (tab' & Eu & Hok' & Eo & Efl & Enf & _ & _ & Hlast). simpl in *.
  assert (Hk2 : kok (fp :: fp :: extra) (with_table t tab' s1)).
  { apply (kok_table (fp :: extra) _ s1 t tab); try done; [|by rewrite Et1|].
    - by apply (kok_refs extra s).
    - pose proof (tfiles_update tab tab' _ _ _ Hx Eo) as Hp. simpl in Hp. rewrite app_nil_r in Hp.
      rewrite <- Hp. solve_Permutation. }
  destruct (closef_closed extra (with_table t tab' s1) t tab' fp (k_refs _ _ Hk2))
    as (e & s' & E & Hr' & Et & En & Hcl & Hgone); [apply lookup_insert_eq|].
  exists e, s', tab'. unfold fdrelease. rewrite Ht. simpl. rewrite Hx. simpl. rewrite E1. simpl.
  rewrite Eu. simpl. split; [done|]. split; [by apply (kok_refs _ _ _ _ Hk2)|].
  split; [rewrite Et; simpl; by rewrite Et1|]. split_and!; try done; [by rewrite En|].
  unfold closed_unless_referenced in *. by rewrite Hcl, (closed_events s (with_table t tab' s1)).
Qed.

(** ** Duplication *)

(** What the table must be like for [finishdup]: a descriptor that has no file
    is reserved, unless [dup2] is set, which marks it as used. *)
Definition dup_ready (tab : filedesc) (new : Z) (dup2 : bool) : Prop :=
  match fd_ofiles tab !! Z.to_nat new with
  | Some None => if dup2 then fd_ok tab else fd_okr (Some new) tab
  | _ => fd_ok tab
  end.

Lemma dup_ready_okr tab new dup2 : dup_ready tab new dup2 -> exists r, fd_okr r tab.
Proof.
  unfold dup_ready. destruct (fd_ofiles tab !! _) as [[x|]|]; [by exists None| |by exists None].
  destruct dup2; [by exists None|by exists (Some new)].
Qed.

(** The table after [finishdup]. *)
Lemma dup_table tab fp new dup2 fl :
  dup_ready tab new dup2 -> 0 <= new < fd_nfiles tab -> length fl = length (fd_ofileflags tab) ->
  let tab1 := with_oflags fl (with_ofiles (<[Z.to_nat new := Some fp]> (fd_ofiles tab)) tab) in
  match fd_ofiles tab !! Z.to_nat new, dup2 with
  | Some None, true => exists tab2, fd_used tab1 new = Some tab2 /\ fd_ok tab2 /\
      fd_ofiles tab2 = fd_ofiles tab1 /\ fd_ofileflags tab2 = fl /\ fd_nfiles tab2 = fd_nfiles tab /\
      fd_refcnt tab2 = fd_refcnt tab /\ fd_flags tab2 = fd_flags tab
  | _, _ => fd_ok tab1
  end.
Proof.
  intros Hr Hnew Hfl tab1. unfold dup_ready in Hr.
  destruct (fd_ofiles tab !! Z.to_nat new) as [[x|]|] eqn:Hx.
  - apply with_oflags_ok; [|done]. by apply (replace_file_ok tab new x); [|lia|].
  - destruct dup2; [|by apply with_oflags_ok; [apply set_file_ok|]].
    assert (Hu : used tab new = false) by (unfold used; by rewrite Hx).
    destruct (fd_used_spec tab new Hr Hnew Hu) as (tab' & Eu & Hok & Eo & Efl & En & Efree & Erc & Eflg & _).
    eexists. split; [by apply fd_used_frame|]. simpl. rewrite <- Eo. split_and!; try done.
    apply with_oflags_ok; [by apply set_file_ok|]. simpl. by rewrite Efl.
  - apply lookup_ge_None in Hx. pose proof (fo_ofiles _ _ Hr). lia.
Qed.

(** A file is counted for a new descriptor and let go by the caller. *)
Lemma count_and_release extra s fp :
  refs_ok extra s -> fp ∈ slots s ->
  exists s1 e s', upd_count fp 1 s = Some s1 /\ FRELE fo_close fp s1 = Some (e, s') /\ refs_ok extra s' /\
    tables s' = tables s /\ next_file s' = next_file s /\ events s' = events s.
Proof.
  intros Hr Hin. destruct (FREF_spec extra s fp Hr) as (s1 & E1 & Hr1 & Et1 & Ee1 & En1 & _); [set_solver|].
  destruct (FRELE_spec fo_close extra s1 fp Hr1) as (e & s' & E & Hr' & Et & En & Hev).
  rewrite (slots_tables s s1 Et1), decide_True in Hev by set_solver. destruct Hev as [Hev _].
  exists s1, e, s'. split_and!; try done; congruence.
Qed.

Lemma slot_in s t tab i fp :
  tables s !! t = Some tab -> fd_ofiles tab !! i = Some (Some fp) -> fp ∈ slots s.
Proof.
  intros Ht Hi. rewrite (slots_lookup s t tab Ht). apply elem_of_app. left. unfold tfiles.
  apply list_elem_of_omap. exists (Some fp). split; [by eapply list_elem_of_lookup_2|done].
Qed.

Lemma kok_insert extra s s' t tab' :
  refs_ok extra s' -> tables s' = <[t := tab']> (tables s) -> fd_ok tab' ->
  (forall t' tab', tables s !! t' = Some tab' -> t' <> t -> fd_ok tab') -> kok extra s'.
Proof.
  intros Hr Et Hok Htabs. split; [done|]. intros t0 tab0. rewrite Et.
  intros [[<- <-]|[Hne H0]]%lookup_insert_Some; [done|by apply (Htabs t0)].
Qed.

(** The new descriptor had a file, which loses a reference. *)
Lemma dup_over extra s t tab tab1 fp new ofp :
  refs_ok (fp :: extra) s -> tables s !! t = Some tab ->
  fd_ofiles tab !! Z.to_nat new = Some (Some ofp) ->
  fd_ofiles tab1 = <[Z.to_nat new := Some fp]> (fd_ofiles tab) ->
  exists s1 s2 e2 s3 e' s', FREF ofp s = Some s1 /\ upd_count fp 1 (with_table t tab1 s1) = Some s2 /\
    FRELE fo_close fp s2 = Some (e2, s3) /\ closef fo_close t ofp s3 = Some (e', s') /\
    refs_ok extra s' /\ tables s' = <[t := tab1]> (tables s) /\ next_file s' = next_file s /\
    closed_unless_referenced extra ofp s s'.
Proof.
  intros Hr Ht Hx E1. destruct (live_slot _ _ _ _ _ _ Hr Ht Hx) as [Hin _].
  pose proof (tfiles_update tab tab1 _ _ (Some fp) Hx E1) as Hp. simpl in Hp.
  destruct (FREF_spec _ s ofp Hr) as (s1 & Ef & Hr1 & Et1 & Ee1 & En1 & _); [set_solver|].
  assert (Hr2 : refs_ok (ofp :: ofp :: extra) (with_table t tab1 s1)).
  { apply (retable (ofp :: fp :: extra) _ s1 t tab); [done|by rewrite Et1|].
    trans ((tfiles tab1 ++ [ofp]) ++ ofp :: extra); [solve_Permutation|]. rewrite Hp. solve_Permutation. }
  destruct (count_and_release _ _ fp Hr2) as (s2 & e2 & s3 & E2 & E3 & Hr3 & Et3 & En3 & Ee3).
  { apply (slot_in _ t tab1 (Z.to_nat new)); [apply lookup_insert_eq|].
    rewrite E1. apply list_lookup_insert_eq. by eapply lookup_lt_Some. }
  destruct (closef_closed extra s3 t tab1 ofp Hr3) as (e' & s' & E' & Hr' & Et' & En' & Hcl & _);
    [rewrite Et3; apply lookup_insert_eq|].
  exists s1, s2, e2, s3, e', s'. split_and!; try done.
  - rewrite Et', Et3. simpl. by rewrite Et1.
  - rewrite En', En3. done.
  - unfold closed_unless_referenced in *. rewrite Hcl, (closed_events s s3); [done|]. by rewrite Ee3.
Qed.

(** The new descriptor had no file. *)
Lemma dup_fresh extra s t tab tab1 fp new :
  refs_ok (fp :: extra) s -> tables s !! t = Some tab -> fd_ofiles tab !! Z.to_nat new = Some None ->
  fd_ofiles tab1 = <[Z.to_nat new := Some fp]> (fd_ofiles tab) ->
  exists s2 e2 s', upd_count fp 1 (with_table t tab1 s) = Some s2 /\
    FRELE fo_close fp s2 = Some (e2, s') /\ refs_ok extra s' /\ tables s' = <[t := tab1]> (tables s) /\
    next_file s' = next_file s /\ closed s' = closed s.
Proof.
  intros Hr Ht Hx E1. pose proof (tfiles_update tab tab1 _ _ (Some fp) Hx E1) as Hp. simpl in Hp.
  rewrite app_nil_r in Hp.
  assert (Hr2 : refs_ok extra (with_table t tab1 s)).
  { apply (retable (fp :: extra) _ s t tab); [done..|]. rewrite Hp. solve_Permutation. }
  destruct (count_and_release _ _ fp Hr2) as (s2 & e2 & s3 & E2 & E3 & Hr3 & Et3 & En3 & Ee3).
  { apply (slot_in _ t tab1 (Z.to_nat new)); [apply lookup_insert_eq|].
    rewrite E1. apply list_lookup_insert_eq. by eapply lookup_lt_Some. }
  exists s2, e2, s3. split_and!; try done. by apply (closed_events (with_table t tab1 s)).
Qed.

Lemma finishdup_spec extra s t tab fp old new dup2 :
  refs_ok (fp :: extra) s -> few (fp :: extra) s -> tables s !! t = Some tab ->
  0 <= old < fd_nfiles tab -> 0 <= new < fd_nfiles tab -> dup_ready tab new dup2 ->
  (forall t' tab', tables s !! t' = Some tab' -> t' <> t -> fd_ok tab') ->
  exists s' tab' flold, finishdup fo_close t fp old new dup2 s = Some (0, s') /\ kok extra s' /\
    tables s' = <[t := tab']> (tables s) /\
    fd_ofiles tab' = <[Z.to_nat new := Some fp]> (fd_ofiles tab) /\
    fd_ofileflags tab !! Z.to_nat old = Some flold /\
    fd_ofileflags tab' = <[Z.to_nat new := clr_flag flold UF_EXCLOSE]> (fd_ofileflags tab) /\
    fd_nfiles tab' = fd_nfiles tab /\ next_file s' = next_file s /\
    match file_of tab new with
    | None => closed s' = closed s
    | Some ofp => closed_unless_referenced extra ofp s s'
    end.
Proof.
  intros Hr Hfew Ht Hold Hnew Hready Htabs.
  destruct (dup_ready_okr _ _ _ Hready) as [r Hokr].
  destruct (lookup_in_table _ _ _ Hokr Hold) as [_ [flold Hflold]].
  destruct (lookup_in_table _ _ _ Hokr Hnew) as [[x Hx] [flnew Hflnew]].
  rewrite (file_of_slot _ _ _ (proj1 Hnew) Hx).
  destruct (proj1 (ro_live _ _ Hr fp) ltac:(set_solver)) as [f Hf].
  set (fl := <[Z.to_nat new := clr_flag flold UF_EXCLOSE]> (fd_ofileflags tab)).
  set (tab1 := with_oflags fl (with_ofiles (<[Z.to_nat new := Some fp]> (fd_ofiles tab)) tab)).
  pose proof (dup_table tab fp new dup2 fl Hready Hnew ltac:(by unfold fl; rewrite length_insert)) as Htab.
  cbv zeta in Htab. fold tab1 in Htab. rewrite Hx in Htab.
  unfold finishdup. rewrite Hf. simpl.
  pose proof (ro_count _ _ Hr _ _ Hf) as Hc. pose proof (occ_length fp (slots s ++ fp :: extra)) as Hlen.
  unfold few in Hfew. destruct (Z.eqb_spec (f_count f) (LONG_MAX - 2)); [lia|].
  rewrite Ht. simpl. rewrite Hx. simpl. destruct x as [ofp|]; simpl.
  - destruct (dup_over extra s t tab tab1 fp new ofp Hr Ht Hx eq_refl)
      as (s1 & s2 & e2 & s3 & e' & s' & E1 & E2 & E3 & E4 & Hr' & Et' & En' & Hcl).
    rewrite E1. simpl. rewrite Hflold. simpl. rewrite Hflnew. simpl. fold fl. fold tab1.
    rewrite E2. simpl. rewrite E3. simpl. rewrite E4. simpl.
    exists s', tab1, flold. split_and!; try done. by apply (kok_insert _ s _ t tab1).
  - destruct (dup_fresh extra s t tab tab1 fp new Hr Ht Hx eq_refl)
      as (s2 & e2 & s' & E2 & E3 & Hr' & Et' & En' & Hcl).
    rewrite Hflold. simpl. rewrite Hflnew. simpl. fold fl. fold tab1. rewrite E2. simpl. rewrite E3. simpl.
    destruct dup2; simpl in Htab.
    + destruct Htab as (tab2 & Eu & Hok2 & Eo & Efl & En & Erc & Eflg).
      rewrite Et', lookup_insert_eq. simpl. rewrite Eu. simpl.
      exists (with_table t tab2 s'), tab2, flold. split; [done|]. split; [|split_and!; try done].
      * apply (kok_insert _ s _ t tab2); try done; [|simpl; by rewrite Et', insert_insert_eq].
        apply (retable extra _ s' t tab1); [done|rewrite Et'; apply lookup_insert_eq|].
        unfold tfiles. by rewrite Eo.
      * simpl. by rewrite Et', insert_insert_eq.
    + exists s', tab1, flold. split_and!; try done. by apply (kok_insert _ s _ t tab1).
Qed.

(** A reference that is taken and given back leaves no trace. *)
Lemma FREF_FRELE extra s fp :
  refs_ok extra s -> fp ∈ slots s ++ extra ->
  exists s1, FREF fp s = Some s1 /\ refs_ok (fp :: extra) s1 /\ tables s1 = tables s /\ closed s1 = closed s /\
    next_file s1 = next_file s /\ FRELE fo_close fp s1 = Some (0, s).
Proof.
  intros Hr Hin. destruct (FREF_spec extra s fp Hr Hin) as (s1 & E1 & Hr1 & Et1 & Ee1 & En1 & _).
  exists s1. split_and!; try done; [by apply closed_events|].
  destruct (proj1 (ro_live _ _ Hr fp) Hin) as [f Hf]. pose proof (ro_count _ _ Hr _ _ Hf) as Hc.
  apply occ_pos in Hin. unfold FREF in E1. rewrite (upd_count_eq _ _ _ _ Hf) in E1. injection E1 as <-.
  unfold FRELE, upd_count. simpl. rewrite lookup_insert_eq. simpl. rewrite lookup_insert_eq. simpl.
  destruct (Z.eqb_spec (f_count f + 1 + -1) 0); [lia|]. rewrite insert_insert_eq, insert_id; [by destruct s|].
  rewrite Hf. f_equal. destruct f. simpl. unfold set_count. simpl. f_equal. lia.
Qed.

Lemma file_of_expand tab x : fd_ok tab -> fd_nfiles tab < 12800 -> file_of (fdexpand tab) x = file_of tab x.
Proof.
  intros Hok Hn. unfold file_of. destruct (Z.ltb_spec x 0); [done|].
  destruct (fdexpand_spec tab Hok Hn) as (_ & _ & _ & Hu & Hl & _).
  destruct (Nat.lt_ge_cases (Z.to_nat x) (length (fd_ofiles tab))) as [Hx|Hx]; [by rewrite Hl|].
  rewrite (lookup_ge_None_2 (fd_ofiles tab)) by done. specialize (Hu x). unfold used in Hu.
  rewrite (lookup_ge_None_2 (fd_ofiles tab)) in Hu by done.
  by destruct (fd_ofiles (fdexpand tab) !! Z.to_nat x) as [[]|].
Qed.

Lemma cloexec_of_expand tab x :
  fd_ok tab -> fd_nfiles tab < 12800 -> cloexec_of (fdexpand tab) x = cloexec_of tab x.
Proof.
  intros Hok Hn. unfold cloexec_of. simpl. unfold grow.
  destruct (Nat.lt_ge_cases (Z.to_nat x) (length (fd_ofileflags tab))) as [Hx|Hx].
  - by rewrite lookup_app_l.
  - rewrite lookup_app_r, (lookup_ge_None_2 (fd_ofileflags tab)) by done.
    destruct (replicate _ _ !! _) eqn:E; [|done]. by apply lookup_replicate in E as [-> _].
Qed.

Lemma cloexec_of_insert tab tab' fd fl x :
  fd_ofileflags tab' = <[Z.to_nat fd := fl]> (fd_ofileflags tab) ->
  0 <= fd < Z.of_nat (length (fd_ofileflags tab)) -> 0 <= x ->
  cloexec_of tab' x = if x =? fd then has fl UF_EXCLOSE else cloexec_of tab x.
Proof.
  intros E Hfd Hx. unfold cloexec_of. rewrite E. destruct (Z.eqb_spec x fd) as [->|Hne].
  - by rewrite list_lookup_insert_eq by lia.
  - by rewrite list_lookup_insert_ne by lia.
Qed.

Lemma fd_getfile_expand tab fd s :
  fd_ok tab -> fd_nfiles tab < 12800 -> fd_getfile (fdexpand tab) fd s = fd_getfile tab fd s.
Proof.
  intros Hok Hn. pose proof (file_of_expand tab fd Hok Hn) as Hf.
  destruct (fdexpand_spec tab Hok Hn) as (Hok' & _ & Hlt & _).
  generalize dependent (fdexpand tab). intros tab' Hf Hok' Hlt. unfold fd_getfile. rewrite !Z.geb_leb.
  unfold file_of in Hf. destruct (Z.ltb_spec fd 0); [done|]. simpl.
  destruct (Z.leb_spec (fd_nfiles tab') fd), (Z.leb_spec (fd_nfiles tab) fd); try lia.
  - done.
  - destruct (lookup_in_table _ _ fd Hok' ltac:(lia)) as [[x Hx] _]. rewrite Hx in Hf |- *. simpl in Hf |- *.
    rewrite (lookup_ge_None_2 (fd_ofiles tab)) in Hf by (pose proof (fo_ofiles _ _ Hok); lia). by subst x.
  - destruct (lookup_in_table _ _ fd Hok' ltac:(lia)) as [[x Hx] _].
    destruct (lookup_in_table _ _ fd Hok ltac:(lia)) as [[y Hy] _].
    rewrite Hx, Hy in Hf |- *. simpl in *. by subst.
Qed.

Lemma fd_getfile_found extra s t tab fd fp :
  kok extra s -> tables s !! t = Some tab -> fd_getfile tab fd s = Some (Some fp) ->
  0 <= fd < fd_nfiles tab /\ file_of tab fd = Some fp /\ fp ∈ slots s.
Proof.
  intros Hk Ht Hg. destruct (fd_getfile_spec _ _ _ _ fd Hk Ht) as (r & Hr & H). rewrite Hg in Hr.
  injection Hr as <-. destruct H as [H _]. destruct (file_of_range _ _ _ (k_tabs _ _ Hk _ _ Ht) H) as [? ?].
  split; [done|]. split; [done|]. by apply (slot_in s t tab (Z.to_nat fd)).
Qed.

(** The table is enlarged, in the state. *)
Lemma expand_state extra s t tab :
  kok extra s -> tables s !! t = Some tab -> fd_nfiles tab < 12800 ->
  kok extra (with_table t (fdexpand tab) s) /\
  length (slots (with_table t (fdexpand tab) s)) = length (slots s).
Proof.
  intros Hk Ht Hn. destruct (fdexpand_spec tab (k_tabs _ _ Hk _ _ Ht) Hn) as (Hok & _ & _ & _ & _ & Ho & _).
  split.
  - apply (kok_table extra _ s t tab); try done. unfold tfiles. by rewrite Ho.
  - rewrite slots_insert, (slots_lookup s t tab Ht). unfold tfiles. by rewrite Ho.
Qed.

(** Twice the size at each turn: the table soon has the greatest size. *)
Lemma next_size_double n : size_ok n -> 2 * n <= next_size n.
Proof.
  intros H. destruct (size_cases _ H) as [->|[->|[->|[->|[->|[->|[->|[->|[->| ->]]]]]]]]]; by vm_compute.
Qed.

(** The descriptors after a duplication of [fp] onto the lowest free number
    from [want] on, below [lim]. *)
Definition duplicated (tab tab' : filedesc) (fp : nat) (want lim : Z) (cloexec : bool) (e new : Z) : Prop :=
  (e = 0 /\ want <= new < lim /\ file_of tab new = None /\
   (forall x, want <= x < new -> is_Some (file_of tab x)) /\
   (forall x, file_of tab' x = if x =? new then Some fp else file_of tab x) /\
   (forall x, 0 <= x -> cloexec_of tab' x = if x =? new then cloexec else cloexec_of tab x)) \/
  (e = EMFILE /\ (forall x, want <= x < lim -> is_Some (file_of tab x)) /\
   (forall x, file_of tab' x = file_of tab x) /\ (forall x, cloexec_of tab' x = cloexec_of tab x)).

Lemma used_file tab x : 0 <= x -> used tab x = true -> is_Some (file_of tab x).
Proof. intros Hx H. rewrite file_of_used in H by done. by apply bool_decide_eq_true in H. Qed.

Lemma unused_file tab x : 0 <= x -> used tab x = false -> file_of tab x = None.
Proof.
  intros Hx H. rewrite file_of_used in H by done. apply bool_decide_eq_false in H.
  by destruct (file_of tab x); [destruct H|].
Qed.

Lemma set_clr_exclose fl :
  has (clr_flag fl UF_EXCLOSE) UF_EXCLOSE = false /\ has (set_flag fl UF_EXCLOSE) UF_EXCLOSE = true.
Proof.
  change UF_EXCLOSE with (2 ^ 0). rewrite has_clr_pow2, has_set_pow2 by lia.
  rewrite Z.eqb_refl. simpl. by rewrite andb_false_r, orb_true_r.
Qed.

Lemma NDREDUCE_fuel n want : size_ok n -> 0 <= want -> NDREDUCE n + 1 - want / 32 <= Z.of_nat (S (Z.to_nat (NDREDUCE n))).
Proof.
  intros Hs Hw. assert (0 <= want / 32) by (apply Z.div_pos; lia). lia.
Qed.

(** [fdalloc] as its callers use it. *)
Lemma fdalloc_call lim f want :
  fd_ok f -> 0 <= want -> 0 <= lim ->
  exists a, fdalloc (S (Z.to_nat (NDREDUCE (fd_nfiles f)))) lim f want = Some a /\
    match a with
    | Got i f' => want <= i < Z.min (fd_nfiles f) lim /\ used f i = false /\
        (forall x, want <= x < i -> used f x = true) /\ fd_okr (Some i) f' /\
        fd_ofiles f' = fd_ofiles f /\ fd_ofileflags f' = <[Z.to_nat i := 0]> (fd_ofileflags f) /\
        fd_nfiles f' = fd_nfiles f
    | Failed e => (forall x, want <= x < Z.min (fd_nfiles f) lim -> used f x = true) /\
        e = if fd_nfiles f >=? lim then EMFILE else ENOSPC
    end.
Proof.
  intros Hok Hw Hl. pose proof (fo_size _ _ Hok) as Hs.
  destruct (fdalloc_spec _ lim f want Hok Hw Hl (NDREDUCE_fuel _ _ Hs Hw)) as (a & Ha & H).
  exists a. split; [done|]. destruct a; [|done]. intuition.
Qed.

Lemma closed_same_slots extra fp s s1 s2 :
  slots s2 ≡ₚ slots s1 -> closed s2 = closed s1 ->
  closed_unless_referenced extra fp s s1 -> closed_unless_referenced extra fp s s2.
Proof.
  intros Hp E H. unfold closed_unless_referenced in *. rewrite E, H. apply decide_ext. by rewrite Hp.
Qed.

(** The flag of the new descriptor. *)
Lemma set_exclose_spec extra s t tab new :
  kok extra s -> tables s !! t = Some tab -> 0 <= new < fd_nfiles tab ->
  exists s' tab', set_exclose t new s = Some s' /\ kok extra s' /\ tables s' = <[t := tab']> (tables s) /\
    closed s' = closed s /\ next_file s' = next_file s /\ (forall x, file_of tab' x = file_of tab x) /\
    fd_nfiles tab' = fd_nfiles tab /\ slots s' ≡ₚ slots s /\
    (forall x, 0 <= x -> cloexec_of tab' x = if x =? new then true else cloexec_of tab x).
Proof.
  intros Hk Ht Hn. pose proof (k_tabs _ _ Hk _ _ Ht) as Hok.
  destruct (lookup_in_table _ _ _ Hok Hn) as [_ [fl Hfl]].
  set (tab' := with_oflags (<[Z.to_nat new := set_flag fl UF_EXCLOSE]> (fd_ofileflags tab)) tab).
  exists (with_table t tab' s), tab'. unfold set_exclose. rewrite Ht. simpl. rewrite Hfl. simpl.
  split; [done|]. split_and!; try done.
  - apply (kok_table extra _ s t tab); try done. apply with_oflags_ok; [done|]. by rewrite length_insert.
  - by rewrite slots_insert, (slots_lookup s t tab Ht).
  - intros x Hx. rewrite (cloexec_of_insert tab tab' new _ x eq_refl) by (pose proof (fo_oflags _ _ Hok); lia).
    destruct (x =? new); [apply set_clr_exclose|done].
Qed.

(** The end of a duplication, with the flag of the new descriptor. *)
Lemma finish_spec extra s t tab fp old new dup2 (cl : bool) :
  refs_ok (fp :: extra) s -> few (fp :: extra) s -> tables s !! t = Some tab ->
  0 <= old < fd_nfiles tab -> 0 <= new < fd_nfiles tab -> dup_ready tab new dup2 ->
  (forall t' tab', tables s !! t' = Some tab' -> t' <> t -> fd_ok tab') ->
  exists s' tab',
    ('(e, s) ← finishdup fo_close t fp old new dup2 s;
     if (e =? 0) && cl then s ← set_exclose t new s; Some (e, new, s) else Some (e, new, s)) = Some (0, new, s') /\
    kok extra s' /\ tables s' = <[t := tab']> (tables s) /\
    (forall x, file_of tab' x = if x =? new then Some fp else file_of tab x) /\
    (forall x, 0 <= x -> cloexec_of tab' x = if x =? new then cl else cloexec_of tab x) /\
    match file_of tab new with
    | None => closed s' = closed s
    | Some ofp => closed_unless_referenced extra ofp s s'
    end.
Proof.
  intros Hr Hfew Ht Hold Hnew Hready Htabs.
  destruct (finishdup_spec extra s t tab fp old new dup2 Hr Hfew Ht Hold Hnew Hready Htabs)
    as (s1 & tab1 & fl & E1 & Hk1 & Et1 & Eo1 & Hfl & Efl1 & En1 & _ & Hcl).
  destruct (dup_ready_okr _ _ _ Hready) as [r Hokr].
  pose proof (fo_ofiles _ _ Hokr) as Hlo. pose proof (fo_oflags _ _ Hokr) as Hlf.
  assert (Hfo : forall x, file_of tab1 x = if x =? new then Some fp else file_of tab x)
    by (intros x; apply file_of_insert; [done|lia]).
  assert (Hcx : forall x, 0 <= x -> cloexec_of tab1 x = if x =? new then false else cloexec_of tab x).
  { intros x Hx. rewrite (cloexec_of_insert tab tab1 new _ x Efl1) by lia.
    destruct (x =? new); [apply set_clr_exclose|done]. }
  rewrite E1. simpl. destruct cl; [|by exists s1, tab1].
  destruct (set_exclose_spec extra s1 t tab1 new Hk1) as (s2 & tab2 & E2 & Hk2 & Et2 & Ec2 & _ & Hfo2 & _ & Hsl & Hcx2);
    [rewrite Et1; apply lookup_insert_eq|lia|].
  rewrite E2. simpl. exists s2, tab2. split_and!; try done.
  - by rewrite Et2, Et1, insert_insert_eq.
  - intros x. by rewrite Hfo2.
  - intros x Hx. rewrite Hcx2, Hcx by done. by destruct (x =? new).
  - destruct (file_of tab new); [by apply (closed_same_slots extra _ s s1)|by rewrite Ec2].
Qed.

#[local] Arguments fdalloc : simpl never.
#[local] Arguments fdexpand : simpl never.

(** A free descriptor was found. *)
Lemma dup_got extra s s1 t tab f' fp old new want lim cl :
  kok extra s -> few (fp :: extra) s -> refs_ok (fp :: extra) s1 -> tables s1 = tables s ->
  closed s1 = closed s -> tables s !! t = Some tab -> 0 <= old < fd_nfiles tab -> 0 <= want ->
  want <= new < Z.min (fd_nfiles tab) lim -> used tab new = false ->
  (forall x, want <= x < new -> used tab x = true) -> fd_okr (Some new) f' ->
  fd_ofiles f' = fd_ofiles tab -> fd_ofileflags f' = <[Z.to_nat new := 0]> (fd_ofileflags tab) ->
  fd_nfiles f' = fd_nfiles tab ->
  exists s' tab',
    ('(e, s) ← finishdup fo_close t fp old new false (with_table t f' s1);
     if (e =? 0) && cl then s ← set_exclose t new s; Some (e, new, s) else Some (e, new, s)) = Some (0, new, s') /\
    kok extra s' /\ tables s' = <[t := tab']> (tables s) /\ closed s' = closed s /\
    duplicated tab tab' fp want lim cl 0 new.
Proof.
  intros Hk Hfew Hr1 Et1 Ec1 Ht Hold Hw Hnew Hu Hbelow Hok' Eo Efl En.
  pose proof (fo_oflags _ _ (k_tabs _ _ Hk _ _ Ht)) as Hlf.
  destruct (fo_res _ _ Hok') as [_ Hnone].
  assert (Hsl : slots (with_table t f' s1) ≡ₚ slots s).
  { rewrite slots_insert, Et1, (slots_lookup s t tab Ht). unfold tfiles. by rewrite Eo. }
  destruct (finish_spec extra (with_table t f' s1) t f' fp old new false cl)
    as (s' & tab' & E & Hk' & Et' & Hfo & Hcx & Hcl).
  - apply (retable (fp :: extra) _ s1 t tab); [done|by rewrite Et1|]. unfold tfiles. by rewrite Eo.
  - unfold few in *. by rewrite length_app, Hsl, <- length_app.
  - apply lookup_insert_eq.
  - lia.
  - lia.
  - unfold dup_ready. by rewrite Hnone.
  - simpl. rewrite Et1. intros t' tab0 [[? _]|[_ H0]]%lookup_insert_Some Hne; [congruence|].
    by apply (k_tabs _ _ Hk t').
  - assert (Hsame : forall x, file_of f' x = file_of tab x) by (intros x; unfold file_of; by rewrite Eo).
    exists s', tab'. split; [done|]. split; [done|]. split; [rewrite Et'; simpl; by rewrite Et1, insert_insert_eq|].
    split; [rewrite Hsame, (unused_file tab new) in Hcl by (lia || done); by rewrite Hcl|]. left.
    split_and!; try done; try lia.
    + apply unused_file; [lia|done].
    + intros x Hx. apply used_file; [lia|by apply Hbelow].
    + intros x. by rewrite Hfo, Hsame.
    + intros x Hx. rewrite Hcx by done. destruct (Z.eqb_spec x new); [done|].
      rewrite (cloexec_of_insert tab f' new 0 x Efl) by lia. by destruct (Z.eqb_spec x new).
Qed.

(** Duplication of an open descriptor: the fuel is enough for the table to
    reach the limit, and the result is as [duplicated] says. *)
Lemma dup_from_spec extra fuel s t tab rlim old want cl fp :
  kok extra s -> few (fp :: extra) s -> tables s !! t = Some tab -> 0 <= want -> 0 <= rlim ->
  0 <= maxfiles <= 12800 -> 12800 <= fd_nfiles tab * 2 ^ Z.of_nat fuel ->
  fd_getfile tab old s = Some (Some fp) ->
  exists e new s' tab', dup_from fo_close maxfiles fuel t rlim old want cl s = Some (e, new, s') /\
    kok extra s' /\ tables s' = <[t := tab']> (tables s) /\ closed s' = closed s /\
    duplicated tab tab' fp want (Z.min rlim maxfiles) cl e new.
Proof.
  revert s tab. induction fuel as [|fuel IH]; intros s tab Hk Hfew Ht Hw Hrl Hmax Hfuel Hg.
  all: pose proof (k_tabs _ _ Hk _ _ Ht) as Hok; pose proof (fo_size _ _ Hok) as Hs.
  all: destruct (fd_getfile_found _ _ _ _ _ _ Hk Ht Hg) as (Hold & _ & Hin).
  all: destruct (FREF_FRELE extra s fp (k_refs _ _ Hk)) as (s1 & E1 & Hr1 & Et1 & Ec1 & _ & E1'); [set_solver|].
  all: destruct (fdalloc_call (Z.min rlim maxfiles) tab want Hok Hw ltac:(lia)) as (a & Ea & Ha).
  all: simpl; rewrite Ht; simpl; rewrite Hg; simpl; rewrite E1; simpl; rewrite Ea; simpl.
  all: destruct a as [i f'|e].
  1, 3: destruct Ha as (Hi & Hu & Hbelow & Hok' & Eo & Efl & En);
        destruct (dup_got extra s s1 t tab f' fp old i want (Z.min rlim maxfiles) cl)
          as (s' & tab' & E & H); try done; try lia; by exists 0, i, s', tab'.
  all: destruct Ha as [Hfull He]; rewrite E1'; simpl; rewrite Z.geb_leb in He;
       destruct (Z.leb_spec (Z.min rlim maxfiles) (fd_nfiles tab)) as [Hlim|Hlim].
  1, 3: rewrite He; exists EMFILE, 0, s, tab; split; [done|]; rewrite insert_id by done; split_and!; try done;
        right; split_and!; try done; intros x Hx; apply used_file; [lia|apply Hfull; lia].
  - exfalso. change (2 ^ Z.of_nat 0) with 1 in Hfuel. lia.
  - rewrite He, Z.eqb_refl. assert (Hn : fd_nfiles tab < 12800) by lia.
    destruct (expand_state extra s t tab Hk Ht Hn) as [Hk2 Hlen].
    destruct (fdexpand_spec tab Hok Hn) as (Hok2 & En2 & _).
    pose proof (next_size_double _ Hs) as Hd.
    destruct (IH (with_table t (fdexpand tab) s) (fdexpand tab)) as (e' & new & s' & tab' & E & Hk' & Et' & Ec' & H);
      try done.
    + unfold few in *. rewrite length_app in *. by rewrite Hlen.
    + apply lookup_insert_eq.
    + rewrite En2. rewrite Nat2Z.inj_succ, Z.pow_succ_r in Hfuel by lia. nia.
    + by rewrite (fd_getfile_expand tab old) by done.
    + exists e', new, s', tab'. split; [done|]. split; [done|].
      split; [rewrite Et'; simpl; by rewrite insert_insert_eq|]. split; [done|].
      unfold duplicated in *.
      setoid_rewrite (fun x => file_of_expand tab x Hok Hn) in H.
      by setoid_rewrite (fun x => cloexec_of_expand tab x Hok Hn) in H.
Qed.

(** The descriptors after [new] became a copy of one that refers to [fp]. *)
Definition replaced (extra : list nat) (tab tab' : filedesc) (fp : nat) (new : Z) (cl : bool) (s s' : kfiles) : Prop :=
  (forall x, file_of tab' x = if x =? new then Some fp else file_of tab x) /\
  (forall x, 0 <= x -> cloexec_of tab' x = if x =? new then cl else cloexec_of tab x) /\
  match file_of tab new with
  | None => closed s' = closed s
  | Some ofp => closed_unless_referenced extra ofp s s'
  end.

(** [new] has a place in the table. *)
Lemma dup_in_table extra s t tab fp old new cl :
  kok extra s -> few (fp :: extra) s -> tables s !! t = Some tab -> 0 <= new < fd_nfiles tab ->
  fd_getfile tab old s = Some (Some fp) ->
  exists s1 s' tab', FREF fp s = Some s1 /\
    ('(e, s) ← finishdup fo_close t fp old new true s1;
     if (e =? 0) && cl then s ← set_exclose t new s; Some (e, new, s) else Some (e, new, s)) = Some (0, new, s') /\
    kok extra s' /\ tables s' = <[t := tab']> (tables s) /\ replaced extra tab tab' fp new cl s s'.
Proof.
  intros Hk Hfew Ht Hnew Hg. pose proof (k_tabs _ _ Hk _ _ Ht) as Hok.
  destruct (fd_getfile_found _ _ _ _ _ _ Hk Ht Hg) as (Hold & _ & Hin).
  destruct (FREF_FRELE extra s fp (k_refs _ _ Hk)) as (s1 & E1 & Hr1 & Et1 & Ec1 & _ & _); [set_solver|].
  destruct (finish_spec extra s1 t tab fp old new true cl) as (s' & tab' & E & Hk' & Et' & Hfo & Hcx & Hcl).
  - done.
  - unfold few in *. by rewrite (slots_tables s s1).
  - by rewrite Et1.
  - lia.
  - lia.
  - unfold dup_ready. by destruct (fd_ofiles tab !! _) as [[]|].
  - rewrite Et1. intros t' tab0 H0 _. by apply (k_tabs _ _ Hk t').
  - exists s1, s', tab'. rewrite Et' , Et1. split_and!; try done. split_and!; try done.
    destruct (file_of tab new); unfold closed_unless_referenced in *; by rewrite Hcl, Ec1.
Qed.

Lemma replaced_expand extra tab tab' fp new cl s s' :
  fd_ok tab -> fd_nfiles tab < 12800 ->
  replaced extra (fdexpand tab) tab' fp new cl s s' -> replaced extra tab tab' fp new cl s s'.
Proof.
  intros Hok Hn (H1 & H2 & H3). split_and!.
  - intros x. by rewrite H1, file_of_expand.
  - intros x Hx. by rewrite H2, cloexec_of_expand.
  - by rewrite file_of_expand in H3.
Qed.

Lemma dodup3_spec extra fuel s t tab rlim old new flags fp :
  kok extra s -> few (fp :: extra) s -> tables s !! t = Some tab ->
  0 <= new < rlim -> new < maxfiles <= 12800 -> old <> new -> 12800 <= fd_nfiles tab * 2 ^ Z.of_nat fuel ->
  fd_getfile tab old s = Some (Some fp) ->
  exists s' tab', dodup3 fo_close maxfiles fuel t rlim old new flags s = Some (0, new, s') /\
    kok extra s' /\ tables s' = <[t := tab']> (tables s) /\
    replaced extra tab tab' fp new (has flags O_CLOEXEC) s s'.
Proof.
  revert s tab. induction fuel as [|fuel IH]; intros s tab Hk Hfew Ht Hrl Hmax Hne Hfuel Hg.
  all: pose proof (k_tabs _ _ Hk _ _ Ht) as Hok; pose proof (fo_size _ _ Hok) as Hs.
  all: simpl; rewrite Ht; simpl; rewrite Hg; simpl.
  all: destruct (Z.ltb_spec new 0); [lia|]; rewrite !Z.geb_leb; destruct (Z.leb_spec rlim new); [lia|];
       destruct (Z.leb_spec maxfiles new); [lia|]; simpl; destruct (Z.eqb_spec old new); [lia|].
  all: destruct (Z.leb_spec (fd_nfiles tab) new) as [Hbig|Hin].
  2, 4: destruct (dup_in_table extra s t tab fp old new (has flags O_CLOEXEC)) as (s1 & s' & tab' & E1 & E & Hres);
        try done; rewrite E1; simpl; rewrite E; by exists s', tab'.
  1: exfalso; change (2 ^ Z.of_nat 0) with 1 in Hfuel; lia.
  destruct (fd_getfile_found _ _ _ _ _ _ Hk Ht Hg) as (_ & _ & Hsl).
  destruct (FREF_FRELE extra s fp (k_refs _ _ Hk)) as (s1 & E1 & _ & _ & _ & _ & E1'); [set_solver|].
  rewrite E1. simpl.
  destruct (fdalloc_call (Z.min rlim maxfiles) tab new Hok ltac:(lia) ltac:(lia)) as (a & Ea & Ha).
  rewrite Ea. simpl. destruct a as [i f'|e]; [destruct Ha as [Hi _]; lia|]. destruct Ha as [_ He].
  rewrite E1'. simpl. rewrite Z.geb_leb in He. destruct (Z.leb_spec (Z.min rlim maxfiles) (fd_nfiles tab)); [lia|].
  rewrite He, Z.eqb_refl. assert (Hn : fd_nfiles tab < 12800) by lia.
  destruct (expand_state extra s t tab Hk Ht Hn) as [Hk2 Hlen].
  destruct (fdexpand_spec tab Hok Hn) as (Hok2 & En2 & _). pose proof (next_size_double _ Hs) as Hd.
  destruct (IH (with_table t (fdexpand tab) s) (fdexpand tab)) as (s' & tab' & E & Hk' & Et' & Hres); try done.
  - unfold few in *. rewrite length_app in *. by rewrite Hlen.
  - apply lookup_insert_eq.
  - rewrite En2. rewrite Nat2Z.inj_succ, Z.pow_succ_r in Hfuel by lia. nia.
  - by rewrite (fd_getfile_expand tab old) by done.
  - exists s', tab'. split; [done|]. split; [done|]. split; [rewrite Et'; simpl; by rewrite insert_insert_eq|].
    by apply replaced_expand.
Qed.

(** ** New files *)

Lemma insert_after_perm fq fp l :
  NoDup l -> match fq with Some x => x ∈ l | None => True end -> insert_after fq fp l ≡ₚ fp :: l.
Proof.
  intros Hnd Hin. unfold insert_after. destruct fq as [fq|]; [|done].
  induction l as [|y l IH]; [by apply elem_of_nil in Hin|]. apply list.NoDup_cons in Hnd as [Hy Hnd].
  rewrite bind_cons. case_decide as E.
  - subst y. clear IH Hin. simpl. rewrite Permutation_swap. do 2 f_equiv. induction l as [|z l IH]; [done|].
    apply not_elem_of_cons in Hy as [Hz Hl]. apply list.NoDup_cons in Hnd as [_ Hnd].
    rewrite bind_cons, decide_False by congruence. simpl. by rewrite IH.
  - apply elem_of_cons in Hin as [->|Hin]; [done|]. simpl. rewrite IH by done. solve_Permutation.
Qed.

Lemma new_file extra s t tab tab1 fq fd :
  refs_ok extra s -> tables s !! t = Some tab -> fd_ofiles tab !! Z.to_nat fd = Some None ->
  fd_ofiles tab1 = <[Z.to_nat fd := Some (next_file s)]> (fd_ofiles tab) ->
  match fq with Some x => x ∈ slots s | None => True end ->
  refs_ok (next_file s :: extra)
    (mkK (<[next_file s := mkFile 2 0 0 FIF_LARVAL]> (files s)) (insert_after fq (next_file s) (filehead s))
       (nfiles s + 1) (S (next_file s)) (<[t := tab1]> (tables s)) (events s)).
Proof.
  intros Hok Ht Hx E1 Hfq. set (fp := next_file s).
  assert (Hno : files s !! fp = None).
  { destruct (files s !! fp) eqn:E; [|done]. pose proof (ro_fresh _ _ Hok fp ltac:(by rewrite E)). unfold fp in *. lia. }
  assert (Hnin : fp ∉ slots s ++ extra) by (rewrite (ro_live _ _ Hok), Hno; by intros []).
  pose proof (tfiles_update tab tab1 _ _ (Some fp) Hx E1) as Hp. simpl in Hp. rewrite app_nil_r in Hp.
  set (s' := mkK _ _ _ _ _ _).
  assert (Hsl : slots s' ≡ₚ fp :: slots s).
  { change (slots s') with (slots (with_table t tab1 s)).
    rewrite slots_insert, (slots_lookup s t tab Ht), Hp. solve_Permutation. }
  destruct Hok as [H1 H2 H3 H4 [H5 H5'] H6]. constructor; simpl.
  - intros x f Hf. rewrite occ_mid, (occ_perm x _ (fp :: slots s ++ extra)) by (by rewrite Hsl).
    rewrite occ_cons. destruct (decide (fp = x)) as [<-|Hne].
    + rewrite lookup_insert_eq in Hf. injection Hf as <-. simpl.
      assert (occ fp (slots s ++ extra) = 0); [|lia].
      pose proof (occ_nonneg fp (slots s ++ extra)). rewrite occ_pos in Hnin. lia.
    + rewrite lookup_insert_ne in Hf by done. rewrite (H1 x f Hf). lia.
  - intros x. destruct (decide (x = fp)) as [->|Hne].
    + rewrite lookup_insert_eq. split; [done|]. intros _. rewrite Hsl. set_solver.
    + rewrite lookup_insert_ne, <- H2, Hsl by done. set_solver.
  - rewrite insert_after_perm.
    + rewrite dom_insert_L, elements_union_singleton, H3; [done|]. by apply not_elem_of_dom.
    + rewrite H3. apply NoDup_elements.
    + destruct fq as [x|]; [|done]. rewrite H3. apply elem_of_elements, elem_of_dom, H2. set_solver.
  - rewrite map_size_insert_None by done. lia.
  - split; [done|]. intros x. change (closed s') with (closed s). rewrite H5'.
    destruct (decide (x = fp)) as [->|Hne].
    + rewrite lookup_insert_eq. split; [unfold fp; intros []; lia|by intros []].
    + rewrite lookup_insert_ne by done. unfold fp in *. split; intros [? ?]; (split; [lia|done]).
  - intros x Hx'. destruct (decide (x = fp)) as [->|Hne]; [unfold fp; lia|].
    rewrite lookup_insert_ne in Hx' by done. specialize (H6 x Hx'). lia.
Qed.

(** A free descriptor was found. *)
Lemma falloc_got extra s t tab f' i lim :
  kok extra s -> tables s !! t = Some tab -> 0 <= i < Z.min (fd_nfiles tab) lim -> used tab i = false ->
  (forall x, 0 <= x < i -> used tab x = true) -> fd_okr (Some i) f' -> fd_ofiles f' = fd_ofiles tab ->
  fd_ofileflags f' = <[Z.to_nat i := 0]> (fd_ofileflags tab) -> fd_nfiles f' = fd_nfiles tab ->
  exists r s' tab',
    (if nfiles s >=? maxfiles then tab ← fd_unused f' i; Some (inl ENFILE, with_table t tab s)
     else
       fq ← fd_ofiles f' !! 0%nat;
       Some (inr (next_file s, i),
         with_table t (with_ofiles (<[Z.to_nat i := Some (next_file s)]> (fd_ofiles f')) f')
           (mkK (<[next_file s := mkFile 2 0 0 FIF_LARVAL]> (files s)) (insert_after fq (next_file s) (filehead s))
              (nfiles s + 1) (S (next_file s)) (tables s) (events s)))) = Some (r, s') /\
    tables s' = <[t := tab']> (tables s) /\ closed s' = closed s /\
    match r with
    | inr (fp, fd) => kok (fp :: extra) s' /\ fp = next_file s /\ files s' !! fp = Some (mkFile 2 0 0 FIF_LARVAL) /\
        nfiles s < maxfiles /\ duplicated tab tab' fp 0 lim false 0 fd
    | inl e => kok extra s' /\ (forall x, file_of tab' x = file_of tab x) /\ e = ENFILE /\ maxfiles <= nfiles s
    end.
Proof.
  intros Hk Ht Hi Hu Hbelow Hok' Eo Efl En. pose proof (k_tabs _ _ Hk _ _ Ht) as Hok.
  pose proof (fo_oflags _ _ Hok) as Hlf. pose proof (fo_ofiles _ _ Hok) as Hlo.
  rewrite Z.geb_leb. destruct (Z.leb_spec maxfiles (nfiles s)) as [Hfull|Hroom].
  - destruct (fd_unused_spec f' i Hok') as (tab' & -> & Hok2 & Eo2 & _). simpl.
    exists (inl ENFILE), (with_table t tab' s), tab'. split_and!; try done.
    + apply (kok_table extra _ s t tab); try done. unfold tfiles. by rewrite Eo2, Eo.
    + intros x. unfold file_of. by rewrite Eo2, Eo.
  - destruct (fo_res _ _ Hok') as [_ Hnone]. rewrite Eo in *.
    destruct (lookup_in_table _ _ 0 Hok ltac:(lia)) as [[fq Hfq] _]. change (Z.to_nat 0) with 0%nat in Hfq.
    rewrite Hfq. simpl. set (tab1 := with_ofiles _ f'). set (s' := with_table _ _ _).
    assert (Hr : refs_ok (next_file s :: extra) s').
    { apply (new_file extra s t tab tab1 fq i); try done; [apply Hk|].
      destruct fq; [|done]. by apply (slot_in s t tab 0). }
    assert (Hok1 : fd_ok tab1) by (unfold tab1; rewrite <- Eo; by apply set_file_ok).
    exists (inr (next_file s, i)), s', tab1. split_and!; try done.
    + apply (kok_insert _ s _ t tab1); try done. intros t' tab0 H0 _. by apply (k_tabs _ _ Hk t').
    + simpl. apply lookup_insert_eq.
    + left. split_and!; try done; try lia.
      * apply unused_file; [lia|done].
      * intros x Hx. apply used_file; [lia|by apply Hbelow].
      * intros x. by apply file_of_insert; [|lia].
      * intros x Hx. rewrite (cloexec_of_insert tab tab1 i 0 x Efl) by lia. by destruct (x =? i).
Qed.

(** A descriptor for a new file: the lowest free one. *)
Lemma falloc_spec extra fuel s t tab rlim :
  kok extra s -> tables s !! t = Some tab -> 0 <= rlim -> 0 <= maxfiles <= 12800 ->
  12800 <= fd_nfiles tab * 2 ^ Z.of_nat fuel ->
  exists r s' tab', falloc maxfiles fuel t rlim s = Some (r, s') /\ tables s' = <[t := tab']> (tables s) /\
    closed s' = closed s /\
    match r with
    | inr (fp, fd) => kok (fp :: extra) s' /\ fp = next_file s /\ files s' !! fp = Some (mkFile 2 0 0 FIF_LARVAL) /\
        nfiles s < maxfiles /\ duplicated tab tab' fp 0 (Z.min rlim maxfiles) false 0 fd
    | inl e => kok extra s' /\ (forall x, file_of tab' x = file_of tab x) /\
        ((e = ENFILE /\ maxfiles <= nfiles s) \/
         (e = EMFILE /\ forall x, 0 <= x < Z.min rlim maxfiles -> is_Some (file_of tab x)))
    end.
Proof.
  revert s tab. induction fuel as [|fuel IH]; intros s tab Hk Ht Hrl Hmax Hfuel.
  all: pose proof (k_tabs _ _ Hk _ _ Ht) as Hok; pose proof (fo_size _ _ Hok) as Hs.
  all: destruct (fdalloc_call (Z.min rlim maxfiles) tab 0 Hok ltac:(lia) ltac:(lia)) as (a & Ea & Ha).
  all: simpl; rewrite Ht; simpl; rewrite Ea; simpl; destruct a as [i f'|e].
  1, 3: destruct Ha as (Hi & Hu & Hbelow & Hok' & Eo & Efl & En);
        destruct (falloc_got extra s t tab f' i (Z.min rlim maxfiles)) as (r & s' & tab' & E & Et & Ec & H); try done;
        exists r, s', tab'; split_and!; try done; destruct r as [e|[fp fd]]; [|done];
        destruct H as (? & ? & ? & ?); split_and!; try done; by left.
  all: destruct Ha as [Hfull He]; rewrite Z.geb_leb in He;
       destruct (Z.leb_spec (Z.min rlim maxfiles) (fd_nfiles tab)) as [Hlim|Hlim].
  1, 3: rewrite He; exists (inl EMFILE), s, tab; split; [done|]; rewrite insert_id by done; split_and!; try done;
        right; split_and!; try done; intros x Hx; apply used_file; [lia|apply Hfull; lia].
  - exfalso. change (2 ^ Z.of_nat 0) with 1 in Hfuel. lia.
  - rewrite He, Z.eqb_refl. assert (Hn : fd_nfiles tab < 12800) by lia.
    destruct (expand_state extra s t tab Hk Ht Hn) as [Hk2 Hlen].
    destruct (fdexpand_spec tab Hok Hn) as (Hok2 & En2 & _).
    pose proof (next_size_double _ Hs) as Hd.
    destruct (IH (with_table t (fdexpand tab) s) (fdexpand tab)) as (r & s' & tab' & E & Et' & Ec' & H);
      try done.
    + apply lookup_insert_eq.
    + rewrite En2. rewrite Nat2Z.inj_succ, Z.pow_succ_r in Hfuel by lia. nia.
    + exists r, s', tab'. split; [done|].
      split; [rewrite Et'; simpl; by rewrite insert_insert_eq|]. split; [done|].
      unfold duplicated in *. destruct r as [e'|[fp fd]];
        setoid_rewrite (fun x => file_of_expand tab x Hok Hn) in H; [done|].
      by setoid_rewrite (fun x => cloexec_of_expand tab x Hok Hn) in H.
Qed.
End Calls.
