(* ===== verification/FdFork.v ===== *)
(** * Descriptors: exec, fork and exit

    The loops over a whole table: [closefrom] and the close at [exec], the copy
    of a table at [fork], and its release at [exit]. *)

From stdpp Require Import base numbers list option gmap.
From Stdlib Require Import ZArith Lia Bool.
From S2P Require Import Prelude Clock Fd FdFacts FdOps FdFile FdRefs FdSys.

(** The files that lost their last reference are closed. *)
Lemma lost_closed extra extra' s s' fp :
  refs_ok extra s -> refs_ok extra' s' -> next_file s' = next_file s ->
  fp ∈ slots s ++ extra -> fp ∉ slots s' ++ extra' -> fp ∈ closed s'.
Proof.
  intros Hr Hr' En Hin Hnin. apply (ro_closed _ _ Hr'). split.
  - rewrite En. by apply (ro_fresh _ _ Hr), (ro_live _ _ Hr).
  - rewrite (ro_live _ _ Hr') in Hnin. by apply eq_None_not_Some.
Qed.

Lemma beyond_last tab x : fd_ok tab -> fd_lastfile tab < x -> file_of tab x = None.
Proof.
  intros Hok Hx. destruct (fo_last _ _ Hok) as [H0 Hb]. specialize (Hb x Hx). unfold busy in Hb.
  apply orb_false_iff in Hb as [Hu _]. apply unused_file; [lia|done].
Qed.

Section Loops.
Context (fo_close : nat -> Z).

(** The descriptors from [fd] on whose flags are selected are closed, and no
    others. *)
Lemma close_loop_spec extra n sel t fd s tab :
  kok extra s -> tables s !! t = Some tab -> 0 <= fd -> fd_lastfile tab - fd < Z.of_nat n ->
  exists s' tab', close_loop fo_close n sel t fd s = Some s' /\ kok extra s' /\
    tables s' = <[t := tab']> (tables s) /\ next_file s' = next_file s /\
    fd_ofileflags tab' = fd_ofileflags tab /\
    (forall x, 0 <= x -> file_of tab' x =
      if (fd <=? x) && sel (default 0 (fd_ofileflags tab !! Z.to_nat x)) then None else file_of tab x).
Proof.
  revert fd s tab. induction n as [|n IH]; intros fd s tab Hk Ht Hfd Hn.
  all: pose proof (k_tabs _ _ Hk _ _ Ht) as Hok; destruct (fo_last _ _ Hok) as [Hlast _].
  all: simpl; rewrite Ht; simpl; destruct (Z.leb_spec fd (fd_lastfile tab)) as [Hle|Hgt]; [|
    exists s, tab; split; [done|]; split; [done|]; split; [by rewrite insert_id|]; split; [done|]; split; [done|];
    intros x Hx; destruct (Z.leb_spec fd x); [|done]; rewrite (beyond_last tab x) by (done || lia);
    by destruct (_ && _)].
  - lia.
  - destruct (lookup_in_table _ _ fd Hok ltac:(lia)) as [[x Hx] [fl Hfl]]. rewrite Hfl. simpl.
    assert (Hskip : forall s1 tab1, kok extra s1 -> tables s1 = <[t := tab1]> (tables s) -> next_file s1 = next_file s ->
      fd_ofileflags tab1 = fd_ofileflags tab -> fd_lastfile tab1 <= fd_lastfile tab ->
      (forall x, 0 <= x -> file_of tab1 x = if (x =? fd) && sel fl then None else file_of tab x) ->
      exists s' tab', close_loop fo_close n sel t (fd + 1) s1 = Some s' /\ kok extra s' /\
        tables s' = <[t := tab']> (tables s) /\ next_file s' = next_file s /\
        fd_ofileflags tab' = fd_ofileflags tab /\
        (forall x, 0 <= x -> file_of tab' x =
          if (fd <=? x) && sel (default 0 (fd_ofileflags tab !! Z.to_nat x)) then None else file_of tab x)).
    { intros s1 tab1 Hk1 Et1 En1 Ef1 Hl1 Hf1.
      destruct (IH (fd + 1) s1 tab1) as (s' & tab' & E & Hk' & Et' & En' & Ef' & Hf');
        [done|rewrite Et1; apply lookup_insert_eq|lia|lia|].
      exists s', tab'. split_and!; try done; [by rewrite Et', Et1, insert_insert_eq|congruence|congruence|].
      intros y Hy. rewrite Hf', Hf1, Ef1 by done.
      destruct (Z.leb_spec (fd + 1) y), (Z.leb_spec fd y), (Z.eqb_spec y fd); try lia; simpl; try done.
      subst y. by rewrite Hfl. }
    destruct (sel fl) eqn:Esel; [|apply (Hskip s tab); try done; [by rewrite insert_id|];
      intros y Hy; by rewrite andb_false_r].
    unfold fdrelease at 1. rewrite Ht. simpl.
    destruct x as [fp|].
    + destruct (fdrelease_spec fo_close extra s t tab fd fp Hk Ht Hfd Hx)
        as (e & s1 & tab1 & E & Hk1 & Et1 & Eo1 & Ef1 & En1 & Hl1 & Enf & _).
      unfold fdrelease in E. rewrite Ht in E. simpl in E. rewrite Hx in E |- *. simpl in E |- *. rewrite E. simpl.
      apply (Hskip s1 tab1); try done. intros y Hy. rewrite (file_of_insert tab tab1 fd None y Eo1).
      * rewrite andb_true_r. done.
      * pose proof (fo_ofiles _ _ Hok). lia.
    + rewrite Hx. simpl. apply (Hskip s tab); try done; [by rewrite insert_id|].
      intros y Hy. rewrite andb_true_r. destruct (Z.eqb_spec y fd) as [->|]; [|done].
      by apply file_of_slot.
Qed.
End Loops.

(** ** The copy of a table *)

(** The loop that halves the size stops where its condition fails, at a size a
    table can have, and keeps room for the last descriptor. *)
Lemma shrink_spec n i last :
  size_ok i -> NDEXTENT <= i -> 0 <= last < i -> i <= Z.of_nat n ->
  let j := shrink n i last in
  size_ok j /\ last < j <= i /\ (j < 2 * NDEXTENT \/ j <= last * 2).
Proof.
  revert i. induction n as [|n IH]; intros i Hs H50 Hl Hn; [unfold NDEXTENT in *; lia|]. simpl.
  rewrite Z.geb_leb, Z.gtb_ltb. unfold NDEXTENT in *. change (2 * 50) with 100 in *.
  destruct (Z.leb_spec 100 i) as [Hbig|]; simpl; [|split_and!; try done; lia].
  destruct (Z.ltb_spec (last * 2) i) as [Hroom|]; [|split_and!; try done; lia].
  destruct Hs as [->|(k & Hk & ->)]; [done|].
  unfold NDEXTENT in *.
  assert (Hk1 : 1 <= k) by (destruct (Z.eq_dec k 0) as [->|]; [change (50 * 2 ^ 0) with 50 in Hbig|]; lia).
  assert (E : 50 * 2 ^ k = 2 * (50 * 2 ^ (k - 1))).
  { replace k with (Z.succ (k - 1)) at 1 by lia. rewrite Z.pow_succ_r by lia. lia. }
  assert (Ed : 50 * 2 ^ k / 2 = 50 * 2 ^ (k - 1)) by (rewrite E, Z.mul_comm; apply Z.div_mul; lia).
  rewrite Ed. assert (1 <= 2 ^ (k - 1)) by (apply (Z.pow_le_mono_r 2 0); lia).
  destruct (IH (50 * 2 ^ (k - 1))) as (? & ? & ?); [right; exists (k - 1); unfold NDEXTENT; lia|lia..|].
  split_and!; try done; lia.
Qed.

Lemma copy_size_ok tab :
  fd_ok tab -> size_ok (copy_size tab) /\ fd_lastfile tab < copy_size tab <= fd_nfiles tab.
Proof.
  intros Hok. destruct (fo_last _ _ Hok) as [Hl _]. pose proof (fo_size _ _ Hok) as Hs.
  destruct (size_spare _ Hs) as (Hr & _). unfold copy_size.
  destruct (Z.ltb_spec (fd_lastfile tab) NDFILE) as [Hlt|Hge]; unfold NDFILE in *.
  - split; [by left|]. lia.
  - destruct (shrink_spec (Z.to_nat (fd_nfiles tab)) (fd_nfiles tab) (fd_lastfile tab)) as (? & ? & _);
      [done| |done|lia|done].
    unfold NDEXTENT. destruct (size_cases _ Hs) as [E|H]; lia.
Qed.

Lemma bit_take n m k : 0 <= k < 32 * n -> bit (take (Z.to_nat n) m) k = bit m k.
Proof.
  intros Hk. unfold bit. rewrite lookup_take_lt; [done|].
  assert (k / 32 < n) by (apply Z.div_lt_upper_bound; lia).
  assert (0 <= k / 32) by (apply Z.div_pos; lia). lia.
Qed.

Lemma bit_out m k : 32 * Z.of_nat (length m) <= k -> bit m k = false.
Proof.
  intros Hk. unfold bit.
  assert (Z.of_nat (length m) <= k / 32) by (apply Z.div_le_lower_bound; lia).
  rewrite lookup_ge_None_2 by lia. apply Z.bits_0.
Qed.

Lemma filter_take_all (l : list (option nat)) i :
  (forall j, (i <= j)%nat -> l !! j = None \/ l !! j = Some None) ->
  filter is_Some (take i l) = filter is_Some l /\ omap id (take i l) = omap id l.
Proof.
  revert i. induction l as [|x l IH]; intros i H; [by rewrite take_nil|].
  assert (Hnil : forall l : list (option nat), (forall j, l !! j = None \/ l !! j = Some None) ->
    filter is_Some l = [] /\ omap id l = []).
  { clear. induction l as [|x l IH]; [done|]. intros H. destruct (H 0%nat) as [|E]; [done|].
    injection E as ->. destruct IH as [E1 E2]; [intros j; apply (H (S j))|].
    rewrite filter_cons, decide_False by (by intros []). by rewrite E1. }
  destruct i as [|i].
  - simpl. destruct (Hnil (x :: l)) as [-> E2]; [intros j; apply H; lia|]. by rewrite <- E2.
  - destruct (IH i) as [E1 E2]; [intros j Hj; apply (H (S j)); lia|]. simpl. rewrite !filter_cons, E1.
    split; [done|]. destruct x; simpl; [f_equal|]; exact E2.
Qed.

Lemma copy_used tab x :
  fd_ok tab -> 0 <= x -> used (copy_table tab) x = used tab x.
Proof.
  intros Hok Hx. destruct (copy_size_ok tab Hok) as (_ & Hi). destruct (fo_last _ _ Hok) as [Hl _].
  unfold used. simpl. destruct (Z.lt_ge_cases x (copy_size tab)) as [Hlt|Hge].
  - by rewrite lookup_take_lt by lia.
  - rewrite lookup_take_ge by lia. pose proof (beyond_last tab x Hok ltac:(lia)) as Hn. unfold file_of in Hn.
    destruct (Z.ltb_spec x 0); [lia|]. by destruct (fd_ofiles tab !! Z.to_nat x) as [[]|].
Qed.

Lemma beyond_slots tab j :
  fd_ok tab -> fd_lastfile tab < Z.of_nat j -> fd_ofiles tab !! j = None \/ fd_ofiles tab !! j = Some None.
Proof.
  intros Hok Hj. destruct (fo_last _ _ Hok) as [Hl _]. pose proof (beyond_last tab (Z.of_nat j) Hok Hj) as Hn.
  unfold file_of in Hn. destruct (Z.ltb_spec (Z.of_nat j) 0); [lia|]. rewrite Nat2Z.id in Hn.
  destruct (fd_ofiles tab !! j) as [[]|]; try done; auto.
Qed.

Lemma copy_table_ok tab : fd_ok tab -> fd_ok (copy_table tab) /\ tfiles (copy_table tab) = tfiles tab.
Proof.
  intros Hok. destruct (copy_size_ok tab Hok) as (Hs & Hi).
  assert (Hu : forall x, 0 <= x -> used (copy_table tab) x = used tab x) by (intros; by apply copy_used).
  pose proof (fun j H => beyond_slots tab j Hok H) as Hby.
  destruct (filter_take_all (fd_ofiles tab) (Z.to_nat (copy_size tab))) as [Ef Eo].
  { destruct (fo_last _ _ Hok) as [? _]. intros j Hj. apply Hby. lia. }
  assert (Hbusy : forall x, 0 <= x -> busy (copy_table tab) None x = busy tab None x)
    by (intros x Hx; unfold busy; by rewrite Hu).
  assert (Hmono : NDHISLOTS (copy_size tab) <= NDHISLOTS (fd_nfiles tab)).
  { unfold NDHISLOTS. rewrite !NDREDUCE_div. do 2 (apply Z.div_le_mono; [lia|]; apply Z.add_le_mono_r). lia. }
  destruct (size_spare _ Hs) as (Hr & _ & Hh1). destruct (size_spare _ (fo_size _ _ Hok)) as (_ & _ & Hh2).
  assert (Hcov : copy_size tab <= 32 * NDLOSLOTS (copy_size tab)).
  { destruct (size_cases _ Hs) as [->|[->|[->|[->|[->|[->|[->|[->|[->| ->]]]]]]]]]; by vm_compute. }
  split; [|done].
  destruct Hok as [S1 S2 S3 S4 S5 [S6 S6'] S7 S8 S9 [S10 S10'] [S11 S11'] S12].
  rewrite NDLOSLOTS_mul in S5.
  constructor; simpl; rewrite ?length_take, ?NDLOSLOTS_mul; try done; try lia.
  - split; by apply Forall_take.
  - intros x Hx. rewrite Hbusy by done. destruct (Z.lt_ge_cases x (32 * (32 * NDHISLOTS (copy_size tab)))) as [Hlt|Hge].
    + rewrite bit_take by lia. by apply S8.
    + rewrite bit_out by (rewrite length_take; lia). rewrite NDLOSLOTS_mul in Hcov. symmetry. apply S10'. lia.
  - intros b w Hb Hw. apply lookup_take_Some in Hw as [Hw Hlt].
    rewrite bit_take by lia. by apply S9.
  - split; [lia|]. intros x Hx. rewrite Hbusy by lia. by apply S10'.
  - split; [done|]. intros x Hx. rewrite Hbusy by lia. by apply S11'.
  - rewrite S12. unfold nused. simpl. by rewrite Ef.
Qed.

(** ** The files of the copy *)

(** The descriptors a child gets: all but those of kqueues and systrace
    files. *)
Definition inherited (s : kfiles) (tab : filedesc) (x : Z) : option nat :=
  fp ← file_of tab x;
  f ← files s !! fp;
  if (f_type f =? DTYPE_KQUEUE) || (f_type f =? DTYPE_SYSTRACE) then None else Some fp.

(** The part of the table that the loop has been over. *)
Definition counted (i : Z) (tab : filedesc) : filedesc :=
  with_ofiles (take (Z.to_nat i) (fd_ofiles tab)) tab.

Lemma counted_step tab i x :
  0 <= i -> fd_ofiles tab !! Z.to_nat i = Some x ->
  tfiles (counted (i + 1) tab) = tfiles (counted i tab) ++ option_list x.
Proof.
  intros Hi Hx. unfold tfiles, counted. simpl. replace (Z.to_nat (i + 1)) with (S (Z.to_nat i)) by lia.
  rewrite (take_S_r _ _ _ Hx), omap_app. by destruct x.
Qed.

(** A table that is replaced twice. *)
Lemma with_table_twice t a b s : with_table t a (with_table t b s) = with_table t a s.
Proof. unfold with_table. simpl. by rewrite insert_insert_eq. Qed.

Lemma with_table_id t a s : tables s !! t = Some a -> with_table t a s = s.
Proof. intros H. unfold with_table. rewrite insert_id by done. by destruct s. Qed.

(** The references counted so far are those of the part gone over. *)
Record copying (extra : list nat) (s0 : kfiles) (t t' : nat) (tab0 : filedesc) (i : Z) (s : kfiles) (tab : filedesc) :
    Prop := {
  cp_refs : refs_ok extra (with_table t' (counted i tab) s);
  cp_tables : tables s = <[t' := tab]> (tables s0);
  cp_ok : fd_ok tab;
  cp_refcnt : fd_refcnt tab = 1;
  cp_frame : next_file s = next_file s0 /\ events s = events s0;
  cp_types : forall x, f_type <$> files s !! x = f_type <$> files s0 !! x;
  cp_todo : forall x, i <= x -> file_of tab x = file_of tab0 x;
  cp_done : forall x, x < i -> file_of tab x = inherited s0 tab0 x }.

(** A slot without a file, or one whose file is not inherited. *)
Lemma copying_skip extra s0 t t' tab0 i s tab tab1 x :
  copying extra s0 t t' tab0 i s tab -> 0 <= i -> fd_ofiles tab !! Z.to_nat i = Some x -> fd_ok tab1 ->
  fd_ofiles tab1 = <[Z.to_nat i := None]> (fd_ofiles tab) -> fd_refcnt tab1 = 1 -> inherited s0 tab0 i = None ->
  copying extra s0 t t' tab0 (i + 1) (with_table t' tab1 s) tab1.
Proof.
  intros [H1 H2 H3 H4 [H5 H5'] H6 H7 H8] Hi Hx Hok1 Eo Erc Hinh. pose proof (lookup_lt_Some _ _ _ Hx) as Hlen.
  assert (Hfo : forall y, file_of tab1 y = if y =? i then None else file_of tab y)
    by (intros y; apply file_of_insert; [done|lia]).
  constructor; try done.
  - rewrite with_table_twice.
    assert (Hr := retable extra extra _ t' (counted i tab) (counted (i + 1) tab1) H1 ltac:(simpl; apply lookup_insert_eq)).
    rewrite with_table_twice in Hr. apply Hr.
    rewrite (counted_step tab1 i None), app_nil_r; [|lia|rewrite Eo; by apply list_lookup_insert_eq].
    unfold tfiles, counted. simpl. by rewrite Eo, take_insert_ge by lia.
  - simpl. by rewrite H2, insert_insert_eq.
  - intros y Hy. rewrite Hfo. destruct (Z.eqb_spec y i); [lia|]. apply H7. lia.
  - intros y Hy. rewrite Hfo. destruct (Z.eqb_spec y i) as [->|]; [done|]. apply H8. lia.
Qed.

(** A file that is inherited. *)
Lemma copying_count extra s0 t t' tab0 i s tab fp f :
  copying extra s0 t t' tab0 i s tab -> 0 <= i -> fd_ofiles tab !! Z.to_nat i = Some (Some fp) ->
  files s !! fp = Some f -> inherited s0 tab0 i = Some fp ->
  exists s1, upd_count fp 1 s = Some s1 /\ copying extra s0 t t' tab0 (i + 1) s1 tab.
Proof.
  intros [H1 H2 H3 H4 [H5 H5'] H6 H7 H8] Hi Hx Hf Hinh.
  assert (Hin : fp ∈ slots (with_table t' (counted i tab) s) ++ extra) by (apply (ro_live _ _ H1); simpl; by rewrite Hf).
  destruct (FREF_spec _ _ fp H1 Hin) as (s1' & E1 & Hr1 & _). unfold FREF in E1.
  rewrite (upd_count_eq fp 1 (with_table t' (counted i tab) s) f Hf) in E1. injection E1 as <-.
  rewrite (upd_count_eq fp 1 s f Hf). eexists. split; [done|]. constructor; try done.
  - assert (Hr := retable (fp :: extra) extra _ t' (counted i tab) (counted (i + 1) tab) Hr1
      ltac:(simpl; apply lookup_insert_eq)).
    match type of Hr with _ -> refs_ok _ ?S => replace S with
      (with_table t' (counted (i + 1) tab) (with_files (<[fp := set_count (f_count f + 1) f]> (files s)) s)) in Hr
      by (unfold with_table, with_files; simpl; by rewrite insert_insert_eq) end.
    apply Hr. rewrite (counted_step tab i (Some fp)) by done. simpl. solve_Permutation.
  - intros x. simpl. rewrite <- H6. destruct (decide (x = fp)) as [->|]; [rewrite lookup_insert_eq, Hf; done|].
    by rewrite lookup_insert_ne.
  - intros x Hy. apply H7. lia.
  - intros x Hy. destruct (decide (x = i)) as [->|]; [|apply H8; lia].
    rewrite Hinh. by apply file_of_slot.
Qed.

(** There are few references even after a fork. *)
Definition fork_few (extra : list nat) (s : kfiles) : Prop :=
  Z.of_nat (length (slots s ++ extra)) < LONG_MAX - 12803.

Lemma omap_length (l : list (option nat)) : (length (omap id l) <= length l)%nat.
Proof. induction l as [|[x|] l IH]; simpl; [lia|..]; unfold omap in IH; lia. Qed.

Lemma copying_few extra s0 t t' tab0 i s tab fp f :
  copying extra s0 t t' tab0 i s tab -> tables s0 !! t' = None -> fork_few extra s0 -> files s !! fp = Some f ->
  f_count f < LONG_MAX - 2.
Proof.
  intros [H1 H2 H3 _ _ _ _ _] Hnone Hfew Hf. rewrite (ro_count _ _ H1 fp f Hf).
  pose proof (occ_length fp (slots (with_table t' (counted i tab) s) ++ extra)) as Hl.
  set (o := occ _ _) in *. clearbody o.
  rewrite length_app, slots_insert, length_app, H2, delete_insert_id in Hl by done.
  unfold fork_few in Hfew. rewrite length_app in Hfew. unfold slots in Hfew.
  pose proof (omap_length (take (Z.to_nat i) (fd_ofiles tab))) as Ho. rewrite length_take in Ho.
  destruct (size_spare _ (fo_size _ _ H3)) as (Hr & _). pose proof (fo_ofiles _ _ H3).
  unfold tfiles in Hl, Hfew. simpl in Hl. lia.
Qed.

Lemma copy_loop_spec extra s0 t t' tab0 n i s tab :
  kok extra s0 -> tables s0 !! t = Some tab0 -> tables s0 !! t' = None -> fork_few extra s0 ->
  copying extra s0 t t' tab0 i s tab -> 0 <= i -> fd_lastfile tab - i < Z.of_nat n ->
  exists s' tab' i', copy_loop n t' i s = Some s' /\ copying extra s0 t t' tab0 i' s' tab' /\ fd_lastfile tab' < i'.
Proof.
  intros Hk Ht0 Hnone Hfew. revert i s tab. induction n as [|n IH]; intros i s tab Hc Hi Hn.
  all: pose proof (cp_ok _ _ _ _ _ _ _ _ Hc) as Hok; destruct (fo_last _ _ Hok) as [Hlast _].
  all: assert (Ht : tables s !! t' = Some tab) by (rewrite (cp_tables _ _ _ _ _ _ _ _ Hc); apply lookup_insert_eq).
  all: simpl; rewrite Ht; simpl; destruct (Z.leb_spec i (fd_lastfile tab)) as [Hle|Hgt]; [|by exists s, tab, i].
  - lia.
  - destruct (lookup_in_table _ _ i Hok ltac:(lia)) as [[x Hx] _]. rewrite Hx. simpl.
    pose proof (file_of_slot tab i x Hi Hx) as Hfo. rewrite (cp_todo _ _ _ _ _ _ _ _ Hc i) in Hfo by lia.
    destruct x as [fp|].
    + destruct (file_of_range _ _ _ (k_tabs _ _ Hk _ _ Ht0) Hfo) as [_ Hx0].
      destruct (live_slot _ _ _ _ _ _ (k_refs _ _ Hk) Ht0 Hx0) as [_ [f0 Hf0]].
      pose proof (cp_types _ _ _ _ _ _ _ _ Hc fp) as Hty. rewrite Hf0 in Hty. simpl in Hty.
      destruct (files s !! fp) as [f|] eqn:Hf; [|done]. simpl in Hty |- *. injection Hty as Hty.
      assert (Hinh : inherited s0 tab0 i =
        if (f_type f =? DTYPE_KQUEUE) || (f_type f =? DTYPE_SYSTRACE) then None else Some fp)
        by (unfold inherited; rewrite Hfo; simpl; by rewrite Hf0, Hty).
      pose proof (copying_few _ _ _ _ _ _ _ _ _ _ Hc Hnone Hfew Hf) as Hcount.
      destruct (Z.eqb_spec (f_count f) (LONG_MAX - 2)); [lia|]. simpl.
      destruct (_ || _) eqn:Ekq.
      * destruct (fd_unused_spec _ i (clear_file_ok tab i fp Hok Hi Hx))
          as (tab1 & Eu & Hok1 & Eo1 & _ & _ & Erc1 & _ & Hl1). simpl in *.
        unfold fdremove. rewrite Eu. simpl. apply (IH (i + 1) _ tab1); [|lia..].
        apply (copying_skip extra s0 t t' tab0 i s tab tab1 (Some fp)); try done.
        by rewrite Erc1, (cp_refcnt _ _ _ _ _ _ _ _ Hc).
      * destruct (copying_count _ _ _ _ _ _ _ _ _ _ Hc Hi Hx Hf Hinh) as (s1 & E1 & Hc1).
        rewrite E1. simpl. apply (IH (i + 1) _ tab); [done|lia..].
    + rewrite <- (with_table_id t' tab s Ht). apply (IH (i + 1) _ tab); [|lia..].
      apply (copying_skip extra s0 t t' tab0 i s tab tab None); try done.
      * by rewrite list_insert_id.
      * apply (cp_refcnt _ _ _ _ _ _ _ _ Hc).
      * unfold inherited. by rewrite Hfo.
Qed.

(** What [fork] gives the child. *)
Lemma fdcopy_spec extra s t t' tab :
  kok extra s -> tables s !! t = Some tab -> tables s !! t' = None -> fork_few extra s ->
  exists s' tab', fdcopy t t' s = Some s' /\ kok extra s' /\ tables s' = <[t' := tab']> (tables s) /\
    fd_refcnt tab' = 1 /\ next_file s' = next_file s /\ closed s' = closed s /\
    (forall x, file_of tab' x = inherited s tab x).
Proof.
  intros Hk Ht Hnone Hfew. pose proof (k_tabs _ _ Hk _ _ Ht) as Hok.
  destruct (copy_table_ok tab Hok) as [Hok1 Etf]. destruct (copy_size_ok tab Hok) as [_ Hsz].
  assert (Hfo : forall x, file_of (copy_table tab) x = file_of tab x).
  { intros x. unfold file_of. destruct (Z.ltb_spec x 0); [done|]. simpl.
    destruct (Z.lt_ge_cases x (copy_size tab)); [by rewrite lookup_take_lt by lia|].
    rewrite lookup_take_ge by lia. simpl.
    destruct (fo_last _ _ Hok) as [Hl _]. by destruct (beyond_slots tab (Z.to_nat x) Hok ltac:(lia)) as [->| ->]. }
  set (s1 := with_table t' (copy_table tab) s).
  destruct (copy_loop_spec extra s t t' tab (table_fuel t' s1) 0 s1 (copy_table tab)) as (s' & tab' & i & E & Hc & Hi);
    try done.
  - constructor; try done.
    + unfold s1. rewrite with_table_twice. destruct (k_refs _ _ Hk) as [H1 H2 H3 H4 H5 H6].
      assert (Hsl : slots (with_table t' (counted 0 (copy_table tab)) s) ≡ₚ slots s).
      { rewrite slots_insert. unfold tfiles, counted. simpl. by rewrite delete_id. }
      constructor; simpl; try done.
      * intros x f Hf. rewrite (H1 x f Hf). apply occ_perm. by rewrite Hsl.
      * intros x. by rewrite Hsl.
    + intros x Hx. unfold inherited, file_of.
      by destruct (Z.ltb_spec x 0); [|lia].
  - unfold table_fuel, s1. simpl. rewrite lookup_insert_eq. simpl.
    destruct (fo_last _ _ Hok1) as [Hl _]. simpl in Hl. lia.
  - destruct Hc as [H1 H2 H3 H4 [H5 H5'] H6 H7 H8]. exists s', tab'. split; [by unfold fdcopy; rewrite Ht; simpl|].
    assert (Hr : refs_ok extra s').
    { rewrite <- (with_table_id t' tab' s') by (rewrite H2; apply lookup_insert_eq).
      assert (Hr := retable extra extra _ t' (counted i tab') tab' H1 ltac:(simpl; apply lookup_insert_eq)).
      rewrite with_table_twice in Hr. apply Hr. unfold tfiles, counted. simpl.
      destruct (fo_last _ _ H3) as [Hl _].
      destruct (filter_take_all (fd_ofiles tab') (Z.to_nat i)) as [_ Eo]; [|by rewrite Eo].
      intros j Hj. apply beyond_slots; [done|lia]. }
    split; [apply (kok_insert _ s _ t' tab'); try done; intros t0 tab0 H0 _; by apply (k_tabs _ _ Hk t0)|].
    split_and!; try done; [by apply closed_events|].
    intros x. destruct (Z.lt_ge_cases x i) as [Hlt|Hge]; [by apply H8|].
    unfold inherited. rewrite <- H7 by lia. by rewrite (beyond_last tab' x) by (done || lia).
Qed.

(** ** Release *)

Section Release.
Context (fo_close : nat -> Z).

(** The loop empties the slots; the bitmaps do not matter any more. *)
Lemma free_loop_spec extra n t fd s tab :
  refs_ok extra s -> tables s !! t = Some tab -> 0 <= fd -> fd + Z.of_nat n <= Z.of_nat (length (fd_ofiles tab)) ->
  exists s' tab', free_loop fo_close n t fd s = Some s' /\ refs_ok extra s' /\
    tables s' = <[t := tab']> (tables s) /\ next_file s' = next_file s /\
    length (fd_ofiles tab') = length (fd_ofiles tab) /\
    (forall x, file_of tab' x = if (fd <=? x) && (x <? fd + Z.of_nat n) then None else file_of tab x).
Proof.
  revert fd s tab. induction n as [|n IH]; intros fd s tab Hr Ht Hfd Hn.
  { exists s, tab. rewrite insert_id by done. split_and!; try done. intros x. rewrite Z.add_0_r.
    destruct (Z.leb_spec fd x), (Z.ltb_spec x fd); try lia; done. }
  simpl. rewrite Ht. simpl.
  destruct (lookup_lt_is_Some_2 (fd_ofiles tab) (Z.to_nat fd) ltac:(lia)) as [x Hx]. rewrite Hx. simpl.
  assert (Hnext : forall s1 tab1, refs_ok extra s1 -> tables s1 = <[t := tab1]> (tables s) ->
    next_file s1 = next_file s -> fd_ofiles tab1 = <[Z.to_nat fd := None]> (fd_ofiles tab) ->
    exists s' tab', free_loop fo_close n t (fd + 1) s1 = Some s' /\ refs_ok extra s' /\
      tables s' = <[t := tab']> (tables s) /\ next_file s' = next_file s /\
      length (fd_ofiles tab') = length (fd_ofiles tab) /\
      (forall x, file_of tab' x = if (fd <=? x) && (x <? fd + Z.of_nat (S n)) then None else file_of tab x)).
  { intros s1 tab1 Hr1 Et1 En1 Eo1.
    destruct (IH (fd + 1) s1 tab1) as (s' & tab' & E & Hr' & Et' & En' & El' & Hf');
      [done|rewrite Et1; apply lookup_insert_eq|lia|rewrite Eo1, length_insert; lia|].
    exists s', tab'. split_and!; try done; [by rewrite Et', Et1, insert_insert_eq|congruence| |].
    - by rewrite El', Eo1, length_insert.
    - intros y. rewrite Hf', (file_of_insert tab tab1 fd None y Eo1) by lia.
      destruct (Z.leb_spec (fd + 1) y), (Z.leb_spec fd y), (Z.eqb_spec y fd), (Z.ltb_spec y (fd + 1 + Z.of_nat n)),
        (Z.ltb_spec y (fd + Z.of_nat (S n))); try lia; done. }
  destruct x as [fp|].
  - destruct (live_slot _ _ _ _ _ _ Hr Ht Hx) as [Hin _].
    destruct (FREF_spec extra s fp Hr) as (s1 & E1 & Hr1 & Et1 & Ee1 & En1 & _); [set_solver|].
    rewrite E1. simpl. set (tab1 := with_ofiles _ tab).
    pose proof (tfiles_update tab tab1 _ _ None Hx eq_refl) as Hp. simpl in Hp. rewrite app_nil_r in Hp.
    destruct (closef_closed fo_close extra (with_table t tab1 s1) t tab1 fp)
      as (e & s2 & E2 & Hr2 & Et2 & En2 & _).
    + apply (retable (fp :: extra) _ s1 t tab); [done|by rewrite Et1|]. rewrite <- Hp. solve_Permutation.
    + apply lookup_insert_eq.
    + rewrite E2. simpl. apply (Hnext s2 tab1); try done; [|by rewrite En2]. rewrite Et2. simpl. by rewrite Et1.
  - apply (Hnext s tab); try done; [by rewrite insert_id|by rewrite list_insert_id].
Qed.

(** A table without files goes. *)
Lemma drop_table extra s t tab :
  refs_ok extra s -> tables s !! t = Some tab -> (forall x, file_of tab x = None) ->
  refs_ok extra (mkK (files s) (filehead s) (nfiles s) (next_file s) (delete t (tables s)) (events s)).
Proof.
  intros Hr Ht Hnone.
  assert (Hempty : tfiles tab = []).
  { unfold tfiles. destruct (filter_take_all (fd_ofiles tab) 0) as [_ H0]; [|by rewrite <- H0].
    intros j _. specialize (Hnone (Z.of_nat j)). unfold file_of in Hnone.
    destruct (Z.ltb_spec (Z.of_nat j) 0); [lia|]. rewrite Nat2Z.id in Hnone.
    destruct (fd_ofiles tab !! j) as [[]|]; auto; done. }
  set (s' := mkK _ _ _ _ _ _). assert (Hsl : slots s ≡ₚ slots s') by (rewrite (slots_lookup s t tab Ht); by rewrite Hempty).
  destruct Hr as [H1 H2 H3 H4 H5 H6]. constructor; simpl; try done.
  - intros x f Hf. by rewrite (H1 x f Hf), Hsl.
  - intros x. by rewrite <- Hsl.
Qed.

Lemma fdfree_spec extra s t tab :
  kok extra s -> tables s !! t = Some tab ->
  exists s', fdfree fo_close t s = Some s' /\ kok extra s' /\ next_file s' = next_file s /\
    tables s' = if u16 (fd_refcnt tab - 1) >? 0 then <[t := with_refcnt (u16 (fd_refcnt tab - 1)) tab]> (tables s)
                else delete t (tables s).
Proof.
  intros Hk Ht. pose proof (k_tabs _ _ Hk _ _ Ht) as Hok. destruct (fo_last _ _ Hok) as [Hl _].
  set (tab1 := with_refcnt (u16 (fd_refcnt tab - 1)) tab).
  assert (Hk1 : kok extra (with_table t tab1 s)).
  { apply (kok_table extra _ s t tab); try done. by destruct Hok; constructor. }
  unfold fdfree. rewrite Ht. simpl. fold tab1.
  destruct (u16 (fd_refcnt tab - 1) >? 0).
  { exists (with_table t tab1 s). done. }
  destruct (free_loop_spec extra (Z.to_nat (fd_lastfile tab + 1)) t 0 (with_table t tab1 s) tab1)
    as (s' & tab' & E & Hr' & Et' & En' & _ & Hf').
  - apply Hk1.
  - apply lookup_insert_eq.
  - lia.
  - simpl. pose proof (fo_ofiles _ _ Hok). lia.
  - rewrite E. simpl. eexists. split; [done|]. simpl.
    assert (Ed : delete t (tables s') = delete t (tables s))
      by (rewrite Et'; simpl; by rewrite insert_insert_eq, delete_insert_eq).
    split_and!; try done. split.
    + apply (drop_table extra s' t tab'); [done|rewrite Et'; apply lookup_insert_eq|].
      intros x. rewrite Hf', Z.add_0_l. destruct (Z.leb_spec 0 x); cbn [andb].
      * destruct (Z.ltb_spec x (Z.of_nat (Z.to_nat (fd_lastfile tab + 1)))); [done|].
        apply (beyond_last tab); [done|lia].
      * unfold file_of. by destruct (Z.ltb_spec x 0); [|lia].
    + simpl. rewrite Ed. intros t0 tab0 [_ H2]%lookup_delete_Some. by apply (k_tabs _ _ Hk t0).
Qed.

(** ** Small steps *)

(** A file changes, but not its count. *)
Lemma reflag extra s fp f g :
  refs_ok extra s -> files s !! fp = Some f -> f_count g = f_count f ->
  refs_ok extra (with_files (<[fp := g]> (files s)) s).
Proof.
  intros [H1 H2 H3 H4 [H5 H5'] H6] Hf Hg.
  assert (Hex : forall x, is_Some (<[fp := g]> (files s) !! x) <-> is_Some (files s !! x)).
  { intros x. destruct (decide (x = fp)) as [->|]; [rewrite lookup_insert_eq, Hf; done|]. by rewrite lookup_insert_ne. }
  constructor; simpl.
  - intros x h Hh. destruct (decide (x = fp)) as [->|].
    + rewrite lookup_insert_eq in Hh. injection Hh as <-. rewrite Hg. by apply H1.
    + rewrite lookup_insert_ne in Hh by done. by apply H1.
  - intros x. by rewrite Hex, <- H2.
  - by rewrite dom_insert_lookup_L.
  - by rewrite map_size_insert_Some.
  - split; [done|]. intros x. rewrite H5'. f_equiv. rewrite !eq_None_not_Some. by rewrite Hex.
  - intros x Hx. apply H6. by apply Hex.
Qed.

(** A new file becomes visible. *)
Lemma mature_spec extra s fp :
  kok (fp :: extra) s ->
  exists e s', FILE_SET_MATURE fo_close fp s = Some (e, s') /\ kok extra s' /\ tables s' = tables s /\
    next_file s' = next_file s /\
    (fp ∈ slots s -> exists f, files s' !! fp = Some f /\ FILE_IS_USABLE f = true).
Proof.
  intros Hk. pose proof (k_refs _ _ Hk) as Hr.
  destruct (proj1 (ro_live _ _ Hr fp) ltac:(set_solver)) as [f Hf].
  unfold FILE_SET_MATURE. rewrite Hf. simpl.
  set (g := mkFile _ _ _ _). set (s1 := with_files _ s).
  assert (Hr1 : refs_ok (fp :: extra) s1) by (by apply (reflag _ s fp f g)).
  destruct (FRELE_spec fo_close extra s1 fp Hr1) as (e & s' & E & Hr' & Et & En & Hev).
  exists e, s'. split_and!; try done; [by apply (kok_refs _ _ _ _ Hk)|].
  intros Hin. rewrite decide_True in Hev by (apply elem_of_app; by left). destruct Hev as (_ & _ & h & Hh & Ef).
  unfold s1 in Hh. simpl in Hh. rewrite lookup_insert_eq in Hh. injection Hh as <-.
  eexists. rewrite Ef, lookup_insert_eq. split; [done|]. unfold FILE_IS_USABLE. simpl.
  change FIF_LARVAL with (2 ^ 1). by rewrite has_clr_pow2, Z.eqb_refl, andb_false_r by lia.
Qed.
End Release.
