(* ===== verification/FdCalls.v ===== *)
(** * Descriptor calls: the contract

    The calls on descriptors as the transitions of the system, the invariant
    they keep, and what each of them does. *)

From stdpp Require Import base numbers list option gmap.
From Stdlib Require Import ZArith Lia Bool.
From S2P Require Import Prelude Clock Fd FdFacts FdOps FdFile FdRefs FdSys FdFork.

(** The restarts of a call: the table doubles at each of them. *)
Definition FD_FUEL : nat := 10.

Inductive fcall :=
| CFalloc (t : nat) (rlim : Z)
| COpened (fp : nat) (flag : Z)
| CMature (fp : nat)
| COpenFailed (t fp : nat) (indx : Z)
| CClose (t : nat) (fd : Z)
| CDup (t : nat) (rlim old : Z)
| CDupfd (t : nat) (rlim old newmin : Z) (cloexec : bool)
| CDup2 (t : nat) (rlim from to : Z)
| CDup3 (t : nat) (rlim from to flags : Z)
| CSetfd (t : nat) (fd arg : Z)
| CClosefrom (t : nat) (startfd : Z)
| CExec (t : nat)
| CShare (t : nat)
| CFork (t t' : nat)
| CExit (t : nat).

Section Contract.
Context (fo_close : nat -> Z) (maxfiles : Z).

(** A state, with the files that are being created. *)
Definition fstate : Type := kfiles * list nat.

(** One occurrence less. *)
Fixpoint remove_one (x : nat) (l : list nat) : list nat :=
  match l with [] => [] | y :: l => if decide (y = x) then l else y :: remove_one x l end.

Definition fstep (c : fcall) (st : fstate) : option fstate :=
  let '(s, larval) := st in
  match c with
  | CFalloc t rlim =>
      '(r, s) ← falloc maxfiles FD_FUEL t rlim s;
      Some (s, match r with inr (fp, _) => fp :: larval | inl _ => larval end)
  | COpened fp flag => s ← open_vnode fp flag s; Some (s, larval)
  | COpenFailed t fp indx =>
      '(_, s) ← open_failed fo_close t fp indx s; Some (s, remove_one fp larval)
  | CMature fp => '(_, s) ← FILE_SET_MATURE fo_close fp s; Some (s, remove_one fp larval)
  | CClose t fd => '(_, s) ← sys_close fo_close t fd s; Some (s, larval)
  | CDup t rlim old => '(_, _, s) ← sys_dup fo_close maxfiles FD_FUEL t rlim old s; Some (s, larval)
  | CDupfd t rlim old newmin cl =>
      '(_, _, s) ← fcntl_dupfd fo_close maxfiles FD_FUEL t rlim old newmin cl s; Some (s, larval)
  | CDup2 t rlim from to => '(_, _, s) ← sys_dup2 fo_close maxfiles FD_FUEL t rlim from to s; Some (s, larval)
  | CDup3 t rlim from to flags =>
      '(_, _, s) ← sys_dup3 fo_close maxfiles FD_FUEL t rlim from to flags s; Some (s, larval)
  | CSetfd t fd arg => '(_, s) ← fcntl_setfd t fd arg s; Some (s, larval)
  | CClosefrom t startfd => '(_, s) ← sys_closefrom fo_close t startfd s; Some (s, larval)
  | CExec t => s ← fdcloseexec fo_close t s; Some (s, larval)
  | CShare t => s ← fdshare t s; Some (s, larval)
  | CFork t t' => s ← fdcopy t t' s; Some (s, larval)
  | CExit t => s ← fdfree fo_close t s; Some (s, larval)
  end.

(** The table of the caller exists; a limit is not negative; the table of a
    child is new; a file that is set up, matures or is given up is being
    created, and given up with the descriptor it was given. *)
Definition valid (c : fcall) (st : fstate) : Prop :=
  let '(s, larval) := st in
  match c with
  | CFalloc t rlim | CDup t rlim _ | CDupfd t rlim _ _ _ | CDup2 t rlim _ _ | CDup3 t rlim _ _ _ =>
      is_Some (tables s !! t) /\ 0 <= rlim
  | CMature fp | COpened fp _ => fp ∈ larval
  | COpenFailed t fp indx =>
      fp ∈ larval /\ (tab ← tables s !! t; file_of tab indx) = Some fp
  | CClose t _ | CSetfd t _ _ | CExec t | CShare t | CExit t => is_Some (tables s !! t)
  | CClosefrom t startfd => is_Some (tables s !! t) /\ 0 <= startfd
  | CFork t t' => is_Some (tables s !! t) /\ tables s !! t' = None
  end.

(** The first process, before it opens anything. *)
Definition boot : fstate := (mkK ∅ [] 0 0 {[ 0%nat := fdinit ]} [], []).

(** The states the system can get into, as long as the references are not so
    many that a count could overflow. *)
Inductive reached : fstate -> Prop :=
| R_boot : reached boot
| R_step c st st' : reached st -> fork_few st.2 st.1 -> valid c st -> fstep c st = Some st' -> reached st'.

(** ** Each call *)

Lemma fork_few_few extra fp s : fork_few extra s -> few (fp :: extra) s.
Proof. unfold fork_few, few. rewrite !length_app. simpl. lia. Qed.

Lemma fuel_enough tab : fd_ok tab -> 12800 <= fd_nfiles tab * 2 ^ Z.of_nat FD_FUEL.
Proof.
  intros Hok. destruct (size_spare _ (fo_size _ _ Hok)) as (H & _). change (2 ^ Z.of_nat FD_FUEL) with 1024. lia.
Qed.

Lemma sys_close_spec extra s t tab fd :
  kok extra s -> tables s !! t = Some tab ->
  exists e s' found, sys_close fo_close t fd s = Some (e, s') /\ kok extra s' /\
    fd_getfile tab fd s = Some found /\
    match found with
    | None => e = EBADF /\ s' = s
    | Some fp => exists tab', tables s' = <[t := tab']> (tables s) /\
        (forall x, file_of tab' x = if x =? fd then None else file_of tab x) /\
        closed_unless_referenced extra fp s s' /\
        (fp ∉ slots s' ++ extra -> e = fo_close fp /\ files s' !! fp = None)
    end.
Proof.
  intros Hk Ht. destruct (fd_getfile_spec _ _ _ _ fd Hk Ht) as (r & Hr & H).
  unfold sys_close. rewrite Ht. simpl. rewrite Hr. simpl. destruct r as [fp|]; [|by exists EBADF, s, None].
  destruct H as [Hf _]. destruct (file_of_range _ _ _ (k_tabs _ _ Hk _ _ Ht) Hf) as [Hfd Hx].
  destruct (fdrelease_spec fo_close extra s t tab fd fp Hk Ht (proj1 Hfd) Hx)
    as (e & s' & tab' & E & Hk' & Et & Eo & _ & _ & _ & _ & Hcl & Hgone).
  exists e, s', (Some fp). split_and!; try done. exists tab'. split_and!; try done.
  intros x. apply file_of_insert; [done|]. pose proof (fo_ofiles _ _ (k_tabs _ _ Hk _ _ Ht)). lia.
Qed.

Lemma fcntl_dupfd_spec extra s t tab rlim old newmin cl :
  kok extra s -> fork_few extra s -> tables s !! t = Some tab -> 0 <= rlim -> 0 <= maxfiles <= 12800 ->
  exists e new s' tab' found, fcntl_dupfd fo_close maxfiles FD_FUEL t rlim old newmin cl s = Some (e, new, s') /\
    kok extra s' /\ tables s' = <[t := tab']> (tables s) /\ closed s' = closed s /\
    fd_getfile tab old s = Some found /\
    match found with
    | None => e = EBADF /\ s' = s
    | Some fp =>
        if (newmin <? 0) || (newmin >=? rlim) || (newmin >=? maxfiles) then e = EINVAL /\ s' = s
        else duplicated tab tab' fp newmin (Z.min rlim maxfiles) cl e new
    end.
Proof.
  intros Hk Hfew Ht Hrl Hmax. destruct (fd_getfile_spec _ _ _ _ old Hk Ht) as (r & Hr & H).
  unfold fcntl_dupfd. rewrite Ht. simpl. rewrite Hr. simpl.
  destruct r as [fp|]; [|exists EBADF, 0, s, tab, None; by rewrite insert_id].
  destruct (_ || _) eqn:Eg; [exists EINVAL, 0, s, tab, (Some fp); by rewrite insert_id|].
  rewrite !orb_false_iff in Eg. destruct Eg as [[E1 E2] E3]. apply Z.ltb_ge in E1.
  destruct (dup_from_spec fo_close maxfiles extra FD_FUEL s t tab rlim old newmin cl fp Hk
    (fork_few_few _ _ _ Hfew) Ht E1 Hrl Hmax (fuel_enough _ (k_tabs _ _ Hk _ _ Ht)) Hr)
    as (e & new & s' & tab' & E & Hk' & Et & Ec & Hd).
  exists e, new, s', tab', (Some fp). auto 10.
Qed.

Lemma sys_dup_spec extra s t tab rlim old :
  kok extra s -> fork_few extra s -> tables s !! t = Some tab -> 0 <= rlim -> 0 <= maxfiles <= 12800 ->
  exists e new s' tab' found, sys_dup fo_close maxfiles FD_FUEL t rlim old s = Some (e, new, s') /\
    kok extra s' /\ tables s' = <[t := tab']> (tables s) /\ closed s' = closed s /\
    fd_getfile tab old s = Some found /\
    match found with
    | None => e = EBADF /\ s' = s
    | Some fp => duplicated tab tab' fp 0 (Z.min rlim maxfiles) false e new
    end.
Proof.
  intros Hk Hfew Ht Hrl Hmax. destruct (fd_getfile_spec _ _ _ _ old Hk Ht) as (r & Hr & H).
  unfold sys_dup. destruct r as [fp|].
  - destruct (dup_from_spec fo_close maxfiles extra FD_FUEL s t tab rlim old 0 false fp Hk
      (fork_few_few _ _ _ Hfew) Ht (Z.le_refl 0) Hrl Hmax (fuel_enough _ (k_tabs _ _ Hk _ _ Ht)) Hr)
      as (e & new & s' & tab' & E & Hk' & Et & Ec & Hd).
    exists e, new, s', tab', (Some fp). auto 10.
  - simpl. rewrite Ht. simpl. rewrite Hr. simpl. exists EBADF, 0, s, tab, None. by rewrite insert_id.
Qed.

Lemma dup2_spec extra s t tab rlim old new flags :
  kok extra s -> fork_few extra s -> tables s !! t = Some tab -> 0 <= rlim -> 0 <= maxfiles <= 12800 ->
  exists e r s' tab' found, dodup3 fo_close maxfiles FD_FUEL t rlim old new flags s = Some (e, r, s') /\
    kok extra s' /\ tables s' = <[t := tab']> (tables s) /\ fd_getfile tab old s = Some found /\
    match found with
    | None => e = EBADF /\ s' = s
    | Some fp =>
        if (new <? 0) || (new >=? rlim) || (new >=? maxfiles) then e = EBADF /\ s' = s
        else e = 0 /\ r = new /\
          if old =? new then s' = s else replaced extra tab tab' fp new (has flags O_CLOEXEC) s s'
    end.
Proof.
  intros Hk Hfew Ht Hrl Hmax. destruct (fd_getfile_spec _ _ _ _ old Hk Ht) as (r & Hr & H).
  destruct r as [fp|]; [|simpl; rewrite Ht; simpl; rewrite Hr; exists EBADF, 0, s, tab, None; by rewrite insert_id].
  destruct ((new <? 0) || (new >=? rlim) || (new >=? maxfiles)) eqn:Eg.
  { simpl; rewrite Ht; simpl; rewrite Hr; simpl; rewrite Eg. exists EBADF, 0, s, tab, (Some fp). by rewrite insert_id. }
  destruct (Z.eqb_spec old new) as [->|Hne].
  { simpl; rewrite Ht; simpl; rewrite Hr; simpl; rewrite Eg, Z.eqb_refl. exists 0, new, s, tab, (Some fp).
    by rewrite insert_id. }
  rewrite !orb_false_iff, !Z.geb_leb in Eg. destruct Eg as [[E1 E2] E3].
  apply Z.ltb_ge in E1. apply Z.leb_gt in E2, E3.
  destruct (dodup3_spec fo_close maxfiles extra FD_FUEL s t tab rlim old new flags fp Hk
    (fork_few_few _ _ _ Hfew) Ht ltac:(lia) ltac:(lia) Hne (fuel_enough _ (k_tabs _ _ Hk _ _ Ht)) Hr)
    as (s' & tab' & E & Hk' & Et & Hres).
  exists 0, new, s', tab', (Some fp). auto 10.
Qed.

(** [closefrom] and the close at [exec]. *)
Lemma close_selected extra s t tab sel start :
  kok extra s -> tables s !! t = Some tab -> 0 <= start ->
  exists s' tab', close_loop fo_close (table_fuel t s) sel t start s = Some s' /\ kok extra s' /\
    tables s' = <[t := tab']> (tables s) /\
    (forall x, 0 <= x -> file_of tab' x =
      if (start <=? x) && sel (default 0 (fd_ofileflags tab !! Z.to_nat x)) then None else file_of tab x) /\
    (forall fp, fp ∈ slots s ++ extra -> fp ∉ slots s' ++ extra -> fp ∈ closed s').
Proof.
  intros Hk Ht Hs.
  destruct (close_loop_spec fo_close extra (table_fuel t s) sel t start s tab Hk Ht Hs)
    as (s' & tab' & E & Hk' & Et & En & _ & Hf).
  - unfold table_fuel. rewrite Ht. destruct (fo_last _ _ (k_tabs _ _ Hk _ _ Ht)) as [? _]. lia.
  - exists s', tab'. split; [exact E|]. split; [exact Hk'|]. split; [exact Et|]. split; [exact Hf|].
    intros fp. apply (lost_closed extra extra s s' fp); [apply Hk|apply Hk'|exact En].
Qed.

Lemma closefrom_spec extra s t tab start :
  kok extra s -> tables s !! t = Some tab -> 0 <= start ->
  exists e s' tab', sys_closefrom fo_close t start s = Some (e, s') /\ kok extra s' /\
    tables s' = <[t := tab']> (tables s) /\ e = (if start >? fd_lastfile tab then EBADF else 0) /\
    (forall x, 0 <= x -> file_of tab' x = if start <=? x then None else file_of tab x) /\
    (forall fp, fp ∈ slots s ++ extra -> fp ∉ slots s' ++ extra -> fp ∈ closed s').
Proof.
  intros Hk Ht Hs. unfold sys_closefrom. rewrite Ht. simpl. rewrite Z.gtb_ltb.
  destruct (Z.ltb_spec (fd_lastfile tab) start) as [Hlt|Hge].
  - exists EBADF, s, tab. rewrite insert_id by done. split_and!; try done. intros x Hx.
    destruct (Z.leb_spec start x); [|done]. apply beyond_last; [by apply (k_tabs _ _ Hk t)|lia].
  - destruct (close_selected extra s t tab (fun _ => true) start Hk Ht Hs) as (s' & tab' & E & Hk' & Et & Hf & Hcl).
    rewrite E. simpl. exists 0, s', tab'. split_and!; try done. intros x Hx. rewrite Hf by done. by rewrite andb_true_r.
Qed.

Lemma closeexec_spec extra s t tab :
  kok extra s -> tables s !! t = Some tab ->
  exists s' tab', fdcloseexec fo_close t s = Some s' /\ kok extra s' /\ tables s' = <[t := tab']> (tables s) /\
    (forall x, 0 <= x -> file_of tab' x = if cloexec_of tab x then None else file_of tab x) /\
    (forall fp, fp ∈ slots s ++ extra -> fp ∉ slots s' ++ extra -> fp ∈ closed s').
Proof.
  intros Hk Ht.
  destruct (close_selected extra s t tab (fun fl => has fl UF_EXCLOSE) 0 Hk Ht (Z.le_refl 0))
    as (s' & tab' & E & Hk' & Et & Hf & Hcl).
  exists s', tab'. split_and!; try done. intros x Hx. rewrite Hf by done. by destruct (Z.leb_spec 0 x); [|lia].
Qed.

(** [fcntl(F_SETFD)]. *)
Lemma setfd_spec extra s t tab fd arg :
  kok extra s -> tables s !! t = Some tab ->
  exists e s' tab', fcntl_setfd t fd arg s = Some (e, s') /\ kok extra s' /\ tables s' = <[t := tab']> (tables s) /\
    (forall x, file_of tab' x = file_of tab x) /\
    (forall x, 0 <= x -> cloexec_of tab' x = if (e =? 0) && (x =? fd) then negb (Z.land arg 1 =? 0) else cloexec_of tab x).
Proof.
  intros Hk Ht. destruct (fd_getfile_spec _ _ _ _ fd Hk Ht) as (r & Hr & H).
  pose proof (k_tabs _ _ Hk _ _ Ht) as Hok. unfold fcntl_setfd. rewrite Ht. simpl. rewrite Hr. simpl.
  destruct r as [fp|]; [|exists EBADF, s, tab; by rewrite insert_id].
  destruct H as [Hf _]. destruct (file_of_range _ _ _ Hok Hf) as [Hfd _].
  destruct (lookup_in_table _ _ fd Hok Hfd) as [_ [fl Hfl]]. rewrite Hfl. simpl.
  set (fl' := if negb (Z.land arg 1 =? 0) then _ else _). set (tab' := with_oflags _ tab).
  exists 0, (with_table t tab' s), tab'. split_and!; try done.
  - apply (kok_table extra _ s t tab); try done. apply with_oflags_ok; [done|]. by rewrite length_insert.
  - intros x Hx. simpl. rewrite (cloexec_of_insert tab tab' fd fl' x eq_refl) by (pose proof (fo_oflags _ _ Hok); lia).
    destruct (x =? fd); [|done]. unfold fl'. destruct (negb _); apply set_clr_exclose.
Qed.

(** ** The invariant *)

Lemma remove_one_perm x l : x ∈ l -> l ≡ₚ x :: remove_one x l.
Proof.
  induction l as [|y l IH]; intros Hin; [by apply elem_of_nil in Hin|]. simpl. case_decide as E; [by subst|].
  apply elem_of_cons in Hin as [->|Hin]; [done|]. rewrite (IH Hin) at 1. apply Permutation_swap.
Qed.

Lemma kok_perm extra extra' s : extra ≡ₚ extra' -> kok extra s -> kok extra' s.
Proof.
  intros Hp [[H1 H2 H3 H4 H5 H6] Ht]. split; [|done]. constructor; try done.
  - intros fp f Hf. rewrite <- Hp. by apply H1.
  - intros fp. by rewrite <- Hp.
Qed.

Lemma boot_ok : kok boot.2 boot.1.
Proof.
  assert (Hsl : slots boot.1 = []) by (unfold slots, boot; simpl; by rewrite map_to_list_singleton).
  split.
  - constructor; rewrite ?Hsl; try done; simpl.
    + intros fp. rewrite lookup_empty. split; intros H; [by apply elem_of_nil in H|by destruct H].
    + split; [apply NoDup_nil; done|]. intros fp. split; intros H; [by apply elem_of_nil in H|]. lia.
    + intros fp. rewrite lookup_empty. by intros [].
  - simpl. intros t tab [_ <-]%lookup_singleton_Some. apply fdinit_ok.
Qed.

(** A file gets its type. *)
Lemma open_vnode_spec extra s fp flag :
  kok extra s -> fp ∈ extra ->
  exists s', open_vnode fp flag s = Some s' /\ kok extra s' /\ tables s' = tables s.
Proof.
  intros Hk Hin. pose proof (k_refs _ _ Hk) as Hr.
  destruct (proj1 (ro_live _ _ Hr fp) ltac:(set_solver)) as [f Hf].
  unfold open_vnode. rewrite Hf. simpl. eexists. split; [reflexivity|]. split; [|done].
  apply (kok_refs _ _ _ _ Hk); [|done]. by apply (reflag _ s fp f).
Qed.

(** An open fails: the descriptor is free again and the file, which nobody
    else refers to, is closed. *)
Lemma open_failed_spec extra s t tab fp indx :
  kok (fp :: extra) s -> tables s !! t = Some tab -> file_of tab indx = Some fp ->
  exists e s' tab', open_failed fo_close t fp indx s = Some (e, s') /\ kok extra s' /\
    tables s' = <[t := tab']> (tables s) /\
    (forall x, file_of tab' x = if x =? indx then None else file_of tab x) /\
    closed_unless_referenced extra fp s s'.
Proof.
  intros Hk Ht Hf. pose proof (k_tabs _ _ Hk t tab Ht) as Hok.
  destruct (file_of_range _ _ _ Hok Hf) as [Hfd Hx].
  destruct (fd_unused_spec _ indx (clear_file_ok tab indx fp Hok (proj1 Hfd) Hx))
    as (tab' & Eu & Hok' & Eo & _). simpl in *.
  assert (Hk2 : kok (fp :: fp :: extra) (with_table t tab' s)).
  { apply (kok_table (fp :: extra) _ s t tab); try done.
    pose proof (tfiles_update tab tab' _ _ _ Hx Eo) as Hp. simpl in Hp. rewrite app_nil_r in Hp.
    rewrite <- Hp. solve_Permutation. }
  destruct (closef_closed fo_close extra (with_table t tab' s) t tab' fp (k_refs _ _ Hk2))
    as (e & s' & E & Hr' & Et & _ & Hcl & _); [apply lookup_insert_eq|].
  exists e, s', tab'. unfold open_failed, fdremove. rewrite Ht. simpl. rewrite Eu. simpl.
  split; [done|]. split; [by apply (kok_refs _ _ _ _ Hk2)|]. split; [by rewrite Et|]. split; [|done].
  intros x. apply file_of_insert; [done|]. pose proof (fo_ofiles _ _ Hok). lia.
Qed.

(** No call fails to finish: the fuel is enough, no panic is reached and no
    array is accessed out of bounds. *)
Lemma fstep_ok c st :
  0 <= maxfiles <= 12800 -> kok st.2 st.1 -> fork_few st.2 st.1 -> valid c st ->
  exists st', fstep c st = Some st' /\ kok st'.2 st'.1.
Proof.
  intros Hmax Hk Hfew Hv. destruct st as [s larval]. simpl in Hk, Hfew. 
  destruct c as [t rlim|fp flag|fp|t fp indx|t fd|t rlim old|t rlim old newmin cloexec|t rlim from to|t rlim from to flags|
    t fd arg|t startfd|t|t|t t'|t]; simpl in Hv.
  2: { destruct (open_vnode_spec larval s fp flag Hk Hv) as (s' & E & Hk' & _). unfold fstep. rewrite E. by eexists. }
  3: { destruct Hv as [Hin Hf]. destruct (tables s !! t) as [tab|] eqn:Ht; [|done].
    assert (Hk1 : kok (fp :: remove_one fp larval) s) by (by apply (kok_perm larval); [apply remove_one_perm|]).
    destruct (open_failed_spec _ _ _ _ _ indx Hk1 Ht Hf) as (e & s' & tab' & E & Hk' & _).
    unfold fstep. rewrite E. by eexists. }
  2: { assert (Hk1 : kok (fp :: remove_one fp larval) s) by (by apply (kok_perm larval); [apply remove_one_perm|]).
    destruct (mature_spec fo_close _ _ _ Hk1) as (e & s' & E & Hk' & _). unfold fstep. rewrite E. by eexists. }
  1, 3, 4, 5, 6, 8, 11: destruct Hv as [[tab Ht] ?].
  8, 9, 10, 11, 12: destruct Hv as [tab Ht].
  all: unfold fstep.
  - destruct (falloc_spec fo_close maxfiles larval FD_FUEL s t tab rlim Hk Ht) as (r & s' & tab' & E & _ & _ & Hres);
      [done|done|apply fuel_enough, (k_tabs _ _ Hk _ _ Ht)|].
    rewrite E. simpl. eexists. split; [reflexivity|]. destruct r as [e|[fp fd]]; apply Hres.
  - destruct (sys_dup_spec larval s t tab rlim old Hk Hfew Ht) as (e & n & s' & tab' & r & E & Hk' & _); [done..|].
    rewrite E. by eexists.
  - destruct (fcntl_dupfd_spec larval s t tab rlim old newmin cloexec Hk Hfew Ht)
      as (e & n & s' & tab' & r & E & Hk' & _); [done..|]. rewrite E. by eexists.
  - destruct (dup2_spec larval s t tab rlim from to 0 Hk Hfew Ht) as (e & n & s' & tab' & r & E & Hk' & _); [done..|].
    unfold sys_dup2. rewrite E. by eexists.
  - unfold sys_dup3. destruct (from =? to); [by eexists|]. destruct (negb _); [by eexists|].
    destruct (dup2_spec larval s t tab rlim from to flags Hk Hfew Ht) as (e & n & s' & tab' & r & E & Hk' & _); [done..|].
    rewrite E. by eexists.
  - destruct (closefrom_spec larval s t tab startfd Hk Ht) as (e & s' & tab' & E & Hk' & _); [done|].
    rewrite E. by eexists.
  - destruct (fdcopy_spec larval s t t' tab Hk Ht) as (s' & tab' & E & Hk' & _); [done..|]. rewrite E. by eexists.
  - destruct (sys_close_spec larval s t tab fd Hk Ht) as (e & s' & r & E & Hk' & _). rewrite E. by eexists.
  - destruct (setfd_spec larval s t tab fd arg Hk Ht) as (e & s' & tab' & E & Hk' & _). rewrite E. by eexists.
  - destruct (closeexec_spec larval s t tab Hk Ht) as (s' & tab' & E & Hk' & _). rewrite E. by eexists.
  - unfold fdshare. rewrite Ht. simpl. eexists. split; [reflexivity|].
    apply (kok_table larval _ s t tab); try done. pose proof (k_tabs _ _ Hk _ _ Ht) as Hok. by destruct Hok; constructor.
  - destruct (fdfree_spec fo_close larval s t tab Hk Ht) as (s' & E & Hk' & _). rewrite E. by eexists.
Qed.

Lemma reached_ok st : 0 <= maxfiles <= 12800 -> reached st -> kok st.2 st.1.
Proof.
  intros Hmax Hr. induction Hr as [|c st st' Hr IH Hfew Hv E]; [apply boot_ok|].
  destruct (fstep_ok c st Hmax IH Hfew Hv) as (st2 & E2 & Hk). congruence.
Qed.

(** ** Runs *)

#[export] Instance valid_dec c st : Decision (valid c st).
Proof. destruct st, c; simpl; apply _. Defined.
#[export] Instance fork_few_dec extra s : Decision (fork_few extra s).
Proof. unfold fork_few. apply _. Defined.

Fixpoint frun (cs : list fcall) (st : fstate) : option fstate :=
  match cs with
  | [] => Some st
  | c :: cs => if decide (fork_few st.2 st.1 /\ valid c st) then st ← fstep c st; frun cs st else None
  end.

Lemma frun_reached cs st st' : reached st -> frun cs st = Some st' -> reached st'.
Proof.
  revert st. induction cs as [|c cs IH]; intros st Hr E; simpl in E; [by injection E as <-|].
  case_decide as Hd; [|done]. destruct (fstep c st) as [st1|] eqn:E1; [|done]. simpl in E.
  apply (IH st1); [|done]. by apply (R_step c st); [..|apply Hd|apply Hd|].
Qed.
End Contract.

(** ** The contract *)

(** C5: the descriptor tables and the open files stay consistent under any
    sequence of falloc, setting up and FILE_SET_MATURE of a new file, a failing
    open, close, dup, dup2, dup3, F_DUPFD, F_SETFD, closefrom, exec, shared
    fork, fork and exit, each one step, starting with the first process.  In
    each table the two bitmaps, the counters and the marks agree with the
    slots; the count of a file is the number of descriptors that refer to it
    plus the references of its creators; the list of files and [nfiles]
    account for the files in use, and every file that is gone was closed
    exactly once.  From such a state every such call finishes: no panic is
    reached and no array is accessed out of bounds.  Assumed: [maxfiles] at
    most 12800, and so few references that counts do not overflow.  Not among
    the calls: dupfdopen (an open of /dev/fd/N), after which fd_openfd is one
    too high ([dupfdopen_miscounts]), and the sleep of fdplock after a
    lookup. *)
Theorem descriptors_invariant fo_close maxfiles st :
  0 <= maxfiles <= 12800 -> reached fo_close maxfiles st ->
  kok st.2 st.1 /\
  (fork_few st.2 st.1 -> forall c, valid c st -> exists st', fstep fo_close maxfiles c st = Some st').
Proof.
  intros Hmax Hr. pose proof (reached_ok _ _ _ Hmax Hr) as Hk. split; [done|]. intros Hfew c Hv.
  destruct (fstep_ok fo_close maxfiles c st Hmax Hk Hfew Hv) as (st' & E & _). by exists st'.
Qed.

(** [falloc] gives a new file the lowest free descriptor below the limit
    and leaves all other descriptors alone; it fails with [EMFILE] only when all
    descriptors below the limit are in use, and with [ENFILE] only when the
    system has [maxfiles] files, and then changes no descriptor.  The new file
    is found through its descriptor once its creator declares it mature. *)
Theorem falloc_correct fo_close maxfiles extra s t tab rlim :
  kok extra s -> tables s !! t = Some tab -> 0 <= rlim -> 0 <= maxfiles <= 12800 ->
  exists r s' tab', falloc maxfiles FD_FUEL t rlim s = Some (r, s') /\ tables s' = <[t := tab']> (tables s) /\
    closed s' = closed s /\
    match r with
    | inr (fp, fd) => kok (fp :: extra) s' /\ nfiles s < maxfiles /\ files s !! fp = None /\
        duplicated tab tab' fp 0 (Z.min rlim maxfiles) false 0 fd /\
        fd_getfile tab' fd s' = Some None /\
        exists e s2, FILE_SET_MATURE fo_close fp s' = Some (e, s2) /\ kok extra s2 /\
          fd_getfile tab' fd s2 = Some (Some fp)
    | inl e => kok extra s' /\ (forall x, file_of tab' x = file_of tab x) /\
        ((e = ENFILE /\ maxfiles <= nfiles s) \/
         (e = EMFILE /\ forall x, 0 <= x < Z.min rlim maxfiles -> is_Some (file_of tab x)))
    end.
Proof.
  intros Hk Ht Hrl Hmax.
  destruct (falloc_spec fo_close maxfiles extra FD_FUEL s t tab rlim Hk Ht Hrl Hmax
    (fuel_enough _ (k_tabs _ _ Hk _ _ Ht))) as (r & s' & tab' & E & Et & Ec & Hres).
  exists r, s', tab'. split; [exact E|]. split; [exact Et|]. split; [exact Ec|].
  destruct r as [e|[fp fd]]; [exact Hres|]. destruct Hres as (Hk' & -> & Hf & Hn & Hd).
  assert (Hfo : file_of tab' fd = Some (next_file s)).
  { destruct Hd as [(_ & _ & _ & _ & Hf' & _)|(? & _)]; [|done]. by rewrite Hf', Z.eqb_refl. }
  assert (Ht' : tables s' !! t = Some tab') by (rewrite Et; apply lookup_insert_eq).
  assert (Hin : next_file s ∈ slots s').
  { destruct (file_of_range _ _ _ (k_tabs _ _ Hk' _ _ Ht') Hfo) as [_ Hx]. by apply (slot_in s' t tab' (Z.to_nat fd)). }
  destruct (mature_spec fo_close extra s' _ Hk') as (e & s2 & E2 & Hk2 & Et2 & _ & Hvis).
  destruct (Hvis Hin) as (f2 & Hf2 & Hu2).
  split_and!; try done.
  - destruct (files s !! next_file s) eqn:E0; [|done].
    pose proof (ro_fresh _ _ (k_refs _ _ Hk) (next_file s) ltac:(by rewrite E0)). lia.
  - destruct (fd_getfile_spec _ _ _ _ fd Hk' Ht') as (r & -> & Hr). destruct r; [|done].
    destruct Hr as [Hr (f & Hf' & Hu)]. rewrite Hfo in Hr. injection Hr as <-. rewrite Hf in Hf'. injection Hf' as <-. done.
  - exists e, s2. split_and!; try done.
    destruct (fd_getfile_spec _ _ t _ fd Hk2 ltac:(rewrite Et2; exact Ht')) as (r & -> & Hr).
    destruct r as [x|]; [destruct Hr as [Hr _]; congruence|].
    destruct Hr as [Hr|(x & f & Hr & Hx & Hu)]; [congruence|]. rewrite Hfo in Hr. injection Hr as <-. congruence.
Qed.

(** [close] makes a descriptor free and leaves the others alone; a
    descriptor that is not open, or whose file is still being created, is
    refused with [EBADF] and nothing changes.  [closefrom] frees the descriptors
    from its argument on, [exec] those marked close-on-exec.  A file that loses
    its last descriptor is closed, and [close] returns the error of that; a
    file with other references is not. *)
Theorem close_correct fo_close extra s t tab :
  kok extra s -> tables s !! t = Some tab ->
  (forall fd, exists e s' found, sys_close fo_close t fd s = Some (e, s') /\ kok extra s' /\
    fd_getfile tab fd s = Some found /\
    match found with
    | None => e = EBADF /\ s' = s
    | Some fp => exists tab', tables s' = <[t := tab']> (tables s) /\
        (forall x, file_of tab' x = if x =? fd then None else file_of tab x) /\
        closed_unless_referenced extra fp s s' /\
        (fp ∉ slots s' ++ extra -> e = fo_close fp /\ files s' !! fp = None)
    end) /\
  (forall start, 0 <= start ->
    exists e s' tab', sys_closefrom fo_close t start s = Some (e, s') /\ kok extra s' /\
    tables s' = <[t := tab']> (tables s) /\ e = (if start >? fd_lastfile tab then EBADF else 0) /\
    (forall x, 0 <= x -> file_of tab' x = if start <=? x then None else file_of tab x) /\
    (forall fp, fp ∈ slots s ++ extra -> fp ∉ slots s' ++ extra -> fp ∈ closed s')) /\
  exists s' tab', fdcloseexec fo_close t s = Some s' /\ kok extra s' /\ tables s' = <[t := tab']> (tables s) /\
    (forall x, 0 <= x -> file_of tab' x = if cloexec_of tab x then None else file_of tab x) /\
    (forall fp, fp ∈ slots s ++ extra -> fp ∉ slots s' ++ extra -> fp ∈ closed s').
Proof.
  intros Hk Ht. split_and!.
  - intros fd. exact (sys_close_spec fo_close extra s t tab fd Hk Ht).
  - intros start Hs. exact (closefrom_spec fo_close extra s t tab start Hk Ht Hs).
  - exact (closeexec_spec fo_close extra s t tab Hk Ht).
Qed.

(** [dup] and [fcntl(F_DUPFD)] make the lowest free descriptor, from 0
    or from the number given on, refer to the file of the old one, with the
    close-on-exec flag clear or, for [F_DUPFD_CLOEXEC], set; no other descriptor
    changes and no file is closed.  [EMFILE] is returned only when all the
    descriptors in question are in use; a bad descriptor gives [EBADF], a bad
    number [EINVAL]. *)
Theorem dup_correct fo_close maxfiles extra s t tab rlim old :
  kok extra s -> fork_few extra s -> tables s !! t = Some tab -> 0 <= rlim -> 0 <= maxfiles <= 12800 ->
  (exists e new s' tab' found, sys_dup fo_close maxfiles FD_FUEL t rlim old s = Some (e, new, s') /\
    kok extra s' /\ tables s' = <[t := tab']> (tables s) /\ closed s' = closed s /\
    fd_getfile tab old s = Some found /\
    match found with
    | None => e = EBADF /\ s' = s
    | Some fp => duplicated tab tab' fp 0 (Z.min rlim maxfiles) false e new
    end) /\
  (forall newmin cl, exists e new s' tab' found,
    fcntl_dupfd fo_close maxfiles FD_FUEL t rlim old newmin cl s = Some (e, new, s') /\
    kok extra s' /\ tables s' = <[t := tab']> (tables s) /\ closed s' = closed s /\
    fd_getfile tab old s = Some found /\
    match found with
    | None => e = EBADF /\ s' = s
    | Some fp =>
        if (newmin <? 0) || (newmin >=? rlim) || (newmin >=? maxfiles) then e = EINVAL /\ s' = s
        else duplicated tab tab' fp newmin (Z.min rlim maxfiles) cl e new
    end).
Proof.
  intros Hk Hfew Ht Hrl Hmax. split.
  - exact (sys_dup_spec fo_close maxfiles extra s t tab rlim old Hk Hfew Ht Hrl Hmax).
  - intros newmin cl. exact (fcntl_dupfd_spec fo_close maxfiles extra s t tab rlim old newmin cl Hk Hfew Ht Hrl Hmax).
Qed.


(** [fork] gives the child a table of its own whose descriptors refer to
    the files of the parent's, except those of kqueues and systrace files, which
    are not inherited; the parent's descriptors do not change and nothing is
    closed.  [exit] of the last process that shares a table closes the files that
    nothing else refers to, and removes the table; otherwise it only drops the
    share. *)
Theorem fork_exit_correct fo_close extra s t tab :
  kok extra s -> tables s !! t = Some tab -> fork_few extra s ->
  (forall t', tables s !! t' = None ->
    exists s' tab', fdcopy t t' s = Some s' /\ kok extra s' /\ tables s' = <[t' := tab']> (tables s) /\
      fd_refcnt tab' = 1 /\ closed s' = closed s /\ forall x, file_of tab' x = inherited s tab x) /\
  exists s', fdfree fo_close t s = Some s' /\ kok extra s' /\
    tables s' = (if u16 (fd_refcnt tab - 1) >? 0 then <[t := with_refcnt (u16 (fd_refcnt tab - 1)) tab]> (tables s)
                 else delete t (tables s)) /\
    (forall fp, fp ∈ slots s ++ extra -> fp ∉ slots s' ++ extra -> fp ∈ closed s').
Proof.
  intros Hk Ht Hfew. split.
  - intros t' Hn. destruct (fdcopy_spec extra s t t' tab Hk Ht Hn Hfew) as (s' & tab' & E & Hk' & Et & Er & _ & Ec & Hf).
    by exists s', tab'.
  - destruct (fdfree_spec fo_close extra s t tab Hk Ht) as (s' & E & Hk' & En & Et). exists s'. split_and!; try done.
    intros fp. by apply (lost_closed extra extra s s' fp); [apply Hk|apply Hk'|].
Qed.

(** ** Witnesses *)

(** A process that has two files open, the second close-on-exec, and whose
    descriptor 3 is a copy of descriptor 0. *)
Definition no_error (fp : nat) : Z := 0.
Definition demo_calls : list fcall :=
  [CFalloc 0 128; COpened 0 1; CMature 0; CFalloc 0 128; CMature 1; CDup2 0 128 0 3; CSetfd 0 1 1].
Definition demo : kfiles :=
  match frun no_error 100 demo_calls boot with Some (s, _) => s | None => boot.1 end.
Definition demo_table : filedesc := default fdinit (tables demo !! 0%nat).

Lemma demo_reached : reached no_error 100 (demo, []).
Proof.
  refine (frun_reached no_error 100 demo_calls boot (demo, []) (R_boot no_error 100) _). vm_compute. reflexivity.
Qed.

Lemma demo_ok : kok [] demo.
Proof.
  assert (Hm : 0 <= 100 <= 12800) by lia. pose proof (reached_ok no_error 100 (demo, []) Hm demo_reached) as H.
  cbn [fst snd] in H. exact H.
Qed.

Lemma demo_lookup : tables demo !! 0%nat = Some demo_table.
Proof. vm_compute. reflexivity. Qed.

Lemma demo_few : fork_few [] demo.
Proof. vm_compute. reflexivity. Qed.

Lemma descriptors_invariant_witness :
  kok [] demo /\ (fork_few [] demo -> forall c, valid c (demo, []) -> exists st', fstep no_error 100 c (demo, []) = Some st').
Proof.
  assert (Hm : 0 <= 100 <= 12800) by lia. pose proof (descriptors_invariant no_error 100 (demo, []) Hm demo_reached) as H.
  cbn [fst snd] in H. exact H.
Defined.

Lemma falloc_correct_witness :
  exists r s' tab', falloc 100 FD_FUEL 0 128 demo = Some (r, s') /\ tables s' = <[0%nat := tab']> (tables demo) /\
    closed s' = closed demo.
Proof.
  destruct (falloc_correct no_error 100 [] demo 0 demo_table 128) as (r & s' & tab' & H1 & H2 & H3 & _);
    [apply demo_ok|apply demo_lookup|lia|lia|]. exists r, s', tab'. exact (conj H1 (conj H2 H3)).
Defined.

Lemma close_correct_witness :
  exists e s' found, sys_close no_error 0 3 demo = Some (e, s') /\ kok [] s' /\ fd_getfile demo_table 3 demo = Some found.
Proof.
  destruct (close_correct no_error [] demo 0 demo_table) as [H _]; [apply demo_ok|apply demo_lookup|].
  destruct (H 3) as (e & s' & found & H1 & H2 & H3 & _). exists e, s', found. exact (conj H1 (conj H2 H3)).
Defined.

Lemma dup_correct_witness :
  exists e new s', sys_dup no_error 100 FD_FUEL 0 128 1 demo = Some (e, new, s') /\ kok [] s' /\ closed s' = closed demo.
Proof.
  destruct (dup_correct no_error 100 [] demo 0 demo_table 128 1) as [H _];
    [apply demo_ok|apply demo_few|apply demo_lookup|lia|lia|].
  destruct H as (e & new & s' & tab' & found & H1 & H2 & _ & H3 & _). exists e, new, s'. exact (conj H1 (conj H2 H3)).
Defined.


Lemma fork_exit_correct_witness :
  exists s' tab', fdcopy 0 1 demo = Some s' /\ kok [] s' /\ forall x, file_of tab' x = inherited demo demo_table x.
Proof.
  destruct (fork_exit_correct no_error [] demo 0 demo_table) as [H _]; [apply demo_ok|apply demo_lookup|apply demo_few|].
  destruct (H 1%nat) as (s' & tab' & H1 & H2 & _ & _ & _ & H3); [vm_compute; reflexivity|]. exists s', tab'. exact (conj H1 (conj H2 H3)).
Defined.

(** The run evaluates: the lowest free descriptor is 2, [close] of the last
    descriptor of a file closes it, [exec] closes descriptor 1. *)
Example demo_evaluates :
  map (file_of demo_table) [0; 1; 2; 3; 4] = [Some 0%nat; Some 1%nat; None; Some 0%nat; None] /\
  (match falloc 100 FD_FUEL 0 128 demo with Some (inr (_, fd), _) => fd | _ => -1 end = 2) /\
  (match sys_close no_error 0 1 demo with Some (_, s) => closed s | None => [] end = [1%nat]) /\
  (match sys_close no_error 0 0 demo with Some (_, s) => closed s | None => [0%nat] end = []) /\
  (match fdcloseexec no_error 0 demo with Some s => closed s | None => [] end = [1%nat]).
Proof. vm_compute. split_and!; reflexivity. Qed.

(** ** Limits of the code *)

(** A table of 25600 descriptors is the first whose summary has words of its
    own up to the last bit: when it is full, the search of a free descriptor
    goes on to read behind the summary, since [find_next_zero] takes
    [NDLOSLOTS] of the number of bits for the number of words. *)
Theorem fdalloc_overreads fuel lim f :
  fd_nfiles f = 25600 -> fd_himap f = replicate (Z.to_nat (NDHISLOTS 25600)) ONES -> 25600 <= lim ->
  0 <= fd_freefile f <= 25600 -> fdalloc fuel lim f 0 = None.
Proof.
  intros Hn Hh Hl Hfree.
  assert (Hscan : forallb (fun k => bool_decide
    (find_next_zero (replicate (Z.to_nat (NDHISLOTS 25600)) ONES) (Z.of_nat k) 800 = None)) (List.seq 0 801) = true)
    by (vm_compute; reflexivity).
  rewrite forallb_forall in Hscan.
  assert (E : forall off, 0 <= off <= 800 ->
    find_next_zero (replicate (Z.to_nat (NDHISLOTS 25600)) ONES) off 800 = None).
  { intros off Hoff. specialize (Hscan (Z.to_nat off)). rewrite bool_decide_eq_true, Z2Nat.id in Hscan by lia.
    apply Hscan, in_seq. lia. }
  assert (Hi : (if 0 <? fd_freefile f then fd_freefile f else 0) = fd_freefile f)
    by (destruct (Z.ltb_spec 0 (fd_freefile f)); lia).
  assert (Hoff : 0 <= fd_freefile f / 32 <= 800)
    by (split; [apply Z.div_pos; lia|apply Z.div_le_upper_bound; lia]).
  destruct fuel; simpl; rewrite Hi, Hh, Hn, Z.min_l, shift32 by lia;
    change (Z.shiftr (25600 + NDENTRIES - 1) NDENTRYSHIFT) with 800;
    rewrite E by done; done.
Qed.

(** When the count of a file cannot grow, [dup] fails with [EDEADLK] and does
    not release the descriptor it had reserved: descriptor 2 has no file and is
    not given out again. *)
Definition saturated : kfiles :=
  with_files (alter (set_count (LONG_MAX - 3)) 0%nat (files demo)) demo.
Theorem dup_edeadlk_leaks :
  match sys_dup no_error 100 FD_FUEL 0 128 0 saturated with
  | Some (e, _, s) =>
      e = EDEADLK /\
      (file_of demo_table 2, option_map (fun tab => file_of tab 2) (tables s !! 0%nat)) = (None, Some None) /\
      (match falloc 100 FD_FUEL 0 128 saturated, falloc 100 FD_FUEL 0 128 s with
       | Some (inr (_, before), _), Some (inr (_, after), _) => before = 2 /\ after = 4
       | _, _ => False
       end)
  | None => False
  end.
Proof. vm_compute. split_and!; reflexivity. Qed.

(** [dupfdopen] marks as used a descriptor that [falloc] has already marked:
    after an open of /dev/fd the count of descriptors, which [getdtablecount]
    returns, is one more than the number of descriptors in use. *)
Theorem dupfdopen_miscounts t setugid descfd dupfd indx dfd mode s tab old s' :
  fd_ok tab -> tables s !! t = Some tab -> 0 <= indx -> fd_ofiles tab !! Z.to_nat indx = Some (Some old) ->
  dupfdopen t setugid descfd dupfd indx dfd mode s = Some (0, s') ->
  exists tab', tables s' !! t = Some tab' /\ is_Some (file_of tab' indx) /\ nused tab' = nused tab /\
    sys_getdtablecount t s = Some (nused tab) /\ sys_getdtablecount t s' = Some (nused tab' + 1).
Proof.
  intros Hok Ht Hi Hx. unfold dupfdopen, sys_getdtablecount. destruct (_ && _); [done|]. rewrite Ht. simpl.
  destruct (fd_getfile tab dfd s) as [[wfp|]|]; simpl; [|done..].
  destruct (files s !! wfp) as [f|]; simpl; [|done]. destruct (negb _); [done|]. destruct (_ =? _); [done|].
  destruct (fd_ofileflags tab !! Z.to_nat indx) as [fl|]; simpl; [|done].
  destruct (fd_ofileflags tab !! Z.to_nat dfd) as [fl'|]; simpl; [|done].
  destruct (upd_count wfp 1 s) as [s1|]; simpl; [|done]. set (tab1 := with_oflags _ _).
  destruct (fd_used tab1 indx) as [tab2|] eqn:Eu; simpl; [|done]. intros [= <-].
  assert (Ho : fd_ofiles tab2 = fd_ofiles tab1 /\ fd_openfd tab2 = fd_openfd tab1 + 1).
  { unfold fd_used in Eu. destruct (fd_lomap tab1 !! _) as [w|]; simpl in Eu; [|done].
    destruct (if (Z.lor w (fdbit indx) =? ONES) then _ else _) as [hi|]; simpl in Eu; [|done]. by simplify_eq. }
  destruct Ho as [Ho Hc].
  pose proof (fo_open _ _ (replace_file_ok tab indx old wfp Hok Hi Hx)) as H1. cbn [fd_openfd with_ofiles] in H1.
  pose proof (fo_open _ _ Hok) as H0. simpl in H0.
  assert (Hn : nused tab2 = nused (with_ofiles (<[Z.to_nat indx := Some wfp]> (fd_ofiles tab)) tab))
    by (unfold nused; by rewrite Ho).
  exists tab2. simpl. rewrite lookup_insert_eq. split; [done|]. split.
  - exists wfp. apply file_of_slot; [done|]. rewrite Ho. simpl. apply list_lookup_insert_eq. by eapply lookup_lt_Some.
  - simpl in Hc. simpl. split_and!; [lia|f_equal; lia..].
Qed.

(** A file opened through /dev/fd/0. *)
Example dupfdopen_miscounts_run :
  match falloc 100 FD_FUEL 0 128 demo with
  | Some (inr (fp, fd), s) =>
      match dupfdopen 0 false 255 0 fd 0 0 s with
      | Some (0, s') => sys_getdtablecount 0 s = Some 4 /\ sys_getdtablecount 0 s' = Some 5 /\
          option_map nused (tables s' !! 0%nat) = Some 4
      | _ => False
      end
  | _ => False
  end.
Proof. vm_compute. split_and!; reflexivity. Qed.
