(* ===== verification/Mbuf.v ===== *)
(** * Network buffers (sys/kern/uipc_mbuf.c, sys/kern/uipc_mbuf2.c, sys/sys/mbuf.h)

    The data of the mbuf layer and the routines that allocate, share and free
    single mbufs.  A chain (the [m_next] pointers) is a Rocq list of mbufs,
    [NULL] the empty list, and a pointer into a chain an index.  What several
    mbufs can share is kept in the store [mst]: the external buffers, each
    with the ring of the mbufs that refer to it ([ext_nextref],
    [ext_prevref]), the pools and the statistics.  A routine is a function of
    the store in the small monad [M]; besides returning it can panic, or touch
    memory outside a buffer or already freed ([Overrun]).

    Lengths are integers; a chain of less than 2^31 bytes never overflows the
    [int] of [m_pkthdr.len].  The kernel is the one of sys/conf/GENERIC, with
    option DIAGNOSTIC. *)

From stdpp Require Import base numbers list option gmap.
From Stdlib Require Import ZArith Lia Bool.
From S2P Require Import Prelude.

(** ** Constants (sys/sys/mbuf.h on a 64-bit machine) *)

Definition MSIZE : Z := 256.
(** [sizeof(struct m_hdr)] and [sizeof(struct pkthdr)]. *)
Definition M_HDR_SIZE : Z := 32.
Definition PKTHDR_SIZE : Z := 72.
Definition MLEN : Z := MSIZE - M_HDR_SIZE.
Definition MHLEN : Z := MLEN - PKTHDR_SIZE.
Definition MCLBYTES : Z := 2048.
Definition MAXMCLBYTES : Z := 65536.
Definition MINCLSIZE : Z := MHLEN + MLEN + 1.

Definition M_EXT : Z := 1.
Definition M_PKTHDR : Z := 2.
Definition M_EXTWR : Z := 8.
Definition M_ZEROIZE : Z := 8192.
(** [M_PKTHDR|M_EOR|M_PROTO1|M_BCAST|M_MCAST|M_CONF|M_COMP|M_AUTH|M_LOOP|
    M_TUNNEL|M_LINK0|M_VLANTAG|M_FILDROP|M_ZEROIZE]: every flag but [M_EXT]
    and [M_EXTWR]. *)
Definition M_COPYFLAGS : Z := 65526.

Definition MT_DATA : Z := 1.
Definition M_WAIT : Z := 1.
Definition M_DONTWAIT : Z := 2.
Definition M_COPYALL : Z := 1000000000.
Definition PACKET_TAG_MAXSIZE : Z := 52.
Definition IFQ_DEFPRIO : Z := 3.
Definition ENOBUFS : Z := 55.

(** The sizes of the cluster pools. *)
Definition mclsizes : list Z := [2048; 4096; 8192; 9216; 12288; 16384; 65536].

(** ** Byte strings indexed by integers *)

Definition zlen {A} (l : list A) : Z := Z.of_nat (length l).
Definition ztake {A} (n : Z) (l : list A) : list A := take (Z.to_nat n) l.
Definition zdrop {A} (n : Z) (l : list A) : list A := drop (Z.to_nat n) l.
(** The [n] bytes at [off], and a write of [bs] at [off]. *)
Definition slice {A} (off n : Z) (l : list A) : list A := ztake n (zdrop off l).
Definition splice {A} (off : Z) (bs l : list A) : list A :=
  ztake off l ++ bs ++ zdrop (off + zlen bs) l.
Definition zeros (n : Z) : list Z := replicate (Z.to_nat n) 0.

(** ** Data *)

Record m_tag := Tag { m_tag_id : Z; m_tag_len : Z; m_tag_data : list Z }.

Record pkthdr_pf := PktPf { pf_statekey : Z; pf_inp : Z; pf_qid : Z; pf_tag : Z;
  pf_flags : Z; pf_routed : Z; pf_prio : Z }.

Record pkthdr := PktHdr { ph_rcvif : Z; ph_tags : list m_tag; ph_len : Z;
  ph_tagsset : Z; ph_csum_flags : Z; ph_ether_vtag : Z; ph_rtableid : Z;
  ph_cookie : Z; ph_pf : pkthdr_pf }.

(** [m_data] is the offset of the data in the external buffer [m_ext] when
    [M_EXT] is set, and in [m_dat] otherwise.  The packet header lies over the
    first [PKTHDR_SIZE] bytes of [m_dat]: with [M_PKTHDR] set the data area is
    [m_pktdat], which starts there. *)
Record mbuf := Mbuf { m_addr : nat; m_type : Z; m_flags : Z; m_len : Z;
  m_data : Z; m_pkthdr : pkthdr; m_ext : nat; m_dat : list Z }.

(** An external buffer and the ring of the mbufs that refer to it. *)
Record cluster := Cluster { cl_buf : list Z; cl_ring : list nat }.

(** The store: the mbufs in use, the external buffers, [mbstat.m_mtypes], the
    number of tags in use; the answers the pools will give to requests that
    may not sleep, the next free addresses, and what fresh memory holds. *)
Record mst := Mst { mb_live : gset nat; mb_cl : gmap nat cluster;
  mb_mtypes : Z -> Z; mb_ntags : Z; mb_env : nat -> bool; mb_fresh : nat;
  mb_clfresh : nat; mb_junk : nat -> mbuf; mb_cljunk : nat -> list Z }.

(** ** The monad *)

Inductive out (A : Type) : Type :=
| Ok (a : A) (s : mst)
| Panics
| Overrun
| OutOfFuel.
Arguments Ok {A} _ _.
Arguments Panics {A}.
Arguments Overrun {A}.
Arguments OutOfFuel {A}.

Definition M (A : Type) : Type := mst -> out A.
Definition ret {A} (a : A) : M A := fun s => Ok a s.
Definition bind {A B} (e : M A) (k : A -> M B) : M B := fun s =>
  match e s with
  | Ok a s' => k a s'
  | Panics => Panics
  | Overrun => Overrun
  | OutOfFuel => OutOfFuel
  end.
Definition panic {A} : M A := fun _ => Panics.
Definition overrun {A} : M A := fun _ => Overrun.
Definition nofuel {A} : M A := fun _ => OutOfFuel.
Definition get_st : M mst := fun s => Ok s s.
Definition put_st (s : mst) : M unit := fun _ => Ok tt s.

Declare Scope mbuf_scope.
Delimit Scope mbuf_scope with mb.
Notation "x <- e ;; k" := (bind e (fun x => k))
  (at level 100, e at next level, right associativity) : mbuf_scope.
Notation "'let*' ' p := e 'in' k" := (bind e (fun x => let p := x in k))
  (at level 10, p strict pattern, e at level 100, k at level 200) : mbuf_scope.
Notation "e ;;; k" := (bind e (fun _ => k))
  (at level 100, right associativity) : mbuf_scope.
Open Scope mbuf_scope.

(** ** Field updates *)

Definition set_len (m : mbuf) (n : Z) : mbuf :=
  Mbuf (m_addr m) (m_type m) (m_flags m) n (m_data m) (m_pkthdr m) (m_ext m) (m_dat m).
Definition set_data (m : mbuf) (d : Z) : mbuf :=
  Mbuf (m_addr m) (m_type m) (m_flags m) (m_len m) d (m_pkthdr m) (m_ext m) (m_dat m).
Definition set_flags (m : mbuf) (f : Z) : mbuf :=
  Mbuf (m_addr m) (m_type m) f (m_len m) (m_data m) (m_pkthdr m) (m_ext m) (m_dat m).
Definition set_ph (m : mbuf) (p : pkthdr) : mbuf :=
  Mbuf (m_addr m) (m_type m) (m_flags m) (m_len m) (m_data m) p (m_ext m) (m_dat m).
Definition set_ext (m : mbuf) (c : nat) : mbuf :=
  Mbuf (m_addr m) (m_type m) (m_flags m) (m_len m) (m_data m) (m_pkthdr m) c (m_dat m).
Definition set_dat (m : mbuf) (d : list Z) : mbuf :=
  Mbuf (m_addr m) (m_type m) (m_flags m) (m_len m) (m_data m) (m_pkthdr m) (m_ext m) d.

Definition ph_set_len (p : pkthdr) (n : Z) : pkthdr :=
  PktHdr (ph_rcvif p) (ph_tags p) n (ph_tagsset p) (ph_csum_flags p)
    (ph_ether_vtag p) (ph_rtableid p) (ph_cookie p) (ph_pf p).
Definition ph_set_tags (p : pkthdr) (t : list m_tag) (b : Z) : pkthdr :=
  PktHdr (ph_rcvif p) t (ph_len p) b (ph_csum_flags p)
    (ph_ether_vtag p) (ph_rtableid p) (ph_cookie p) (ph_pf p).

Definition set_phlen (m : mbuf) (n : Z) : mbuf := set_ph m (ph_set_len (m_pkthdr m) n).

Definition with_cl (s : mst) (c : gmap nat cluster) : mst :=
  Mst (mb_live s) c (mb_mtypes s) (mb_ntags s) (mb_env s) (mb_fresh s)
    (mb_clfresh s) (mb_junk s) (mb_cljunk s).
Definition with_env (s : mst) (e : nat -> bool) : mst :=
  Mst (mb_live s) (mb_cl s) (mb_mtypes s) (mb_ntags s) e (mb_fresh s)
    (mb_clfresh s) (mb_junk s) (mb_cljunk s).
Definition with_live (s : mst) (l : gset nat) (f : nat) : mst :=
  Mst l (mb_cl s) (mb_mtypes s) (mb_ntags s) (mb_env s) f
    (mb_clfresh s) (mb_junk s) (mb_cljunk s).
Definition with_mtypes (s : mst) (t : Z -> Z) : mst :=
  Mst (mb_live s) (mb_cl s) t (mb_ntags s) (mb_env s) (mb_fresh s)
    (mb_clfresh s) (mb_junk s) (mb_cljunk s).
Definition with_ntags (s : mst) (n : Z) : mst :=
  Mst (mb_live s) (mb_cl s) (mb_mtypes s) n (mb_env s) (mb_fresh s)
    (mb_clfresh s) (mb_junk s) (mb_cljunk s).
Definition with_clfresh (s : mst) (n : nat) : mst :=
  Mst (mb_live s) (mb_cl s) (mb_mtypes s) (mb_ntags s) (mb_env s) (mb_fresh s)
    n (mb_junk s) (mb_cljunk s).

(** ** Memory of a single mbuf *)

Definition is_ext (m : mbuf) : bool := has (m_flags m) M_EXT.
Definition is_pkthdr (m : mbuf) : bool := has (m_flags m) M_PKTHDR.

Definition ring (s : mst) (m : mbuf) : list nat :=
  match mb_cl s !! m_ext m with Some k => cl_ring k | None => [] end.

(** The whole buffer the data of [m] lies in. *)
Definition buf (s : mst) (m : mbuf) : list Z :=
  if is_ext m then match mb_cl s !! m_ext m with Some k => cl_buf k | None => [] end
  else m_dat m.

Definition capacity (s : mst) (m : mbuf) : Z := zlen (buf s m).

(** The bytes an mbuf and a chain hold. *)
Definition mdata (s : mst) (m : mbuf) : list Z := slice (m_data m) (m_len m) (buf s m).
Definition bytes (s : mst) (c : list mbuf) : list Z := concat (mdata s <$> c).
Definition chain_len (c : list mbuf) : Z := foldr (fun m n => m_len m + n) 0 c.

(** Reading and writing [n] bytes at [mtod(m) + off]. *)
Definition mread (m : mbuf) (off n : Z) : M (list Z) := fun s =>
  let p := m_data m + off in
  if (0 <=? n) && (0 <=? p) && (p + n <=? capacity s m) then Ok (slice p n (buf s m)) s
  else Overrun.

Definition mwrite (m : mbuf) (off : Z) (bs : list Z) : M mbuf := fun s =>
  let p := m_data m + off in
  if (0 <=? p) && (p + zlen bs <=? capacity s m) then
    if is_ext m then
      match mb_cl s !! m_ext m with
      | None => Overrun
      | Some k => Ok m (with_cl s (<[m_ext m := Cluster (splice p bs (cl_buf k)) (cl_ring k)]> (mb_cl s)))
      end
    else Ok (set_dat m (splice p bs (m_dat m))) s
  else Overrun.

(** MCLISREFERENCED and M_READONLY. *)
Definition MCLISREFERENCED (s : mst) (m : mbuf) : bool := Nat.ltb 1 (length (ring s m)).
Definition M_READONLY (s : mst) (m : mbuf) : bool :=
  is_ext m && (negb (has (m_flags m) M_EXTWR) || MCLISREFERENCED s m).

(** Where the data area of [m] starts in its buffer. *)
Definition data_start (m : mbuf) : Z :=
  if is_ext m then 0 else if is_pkthdr m then PKTHDR_SIZE else 0.

Definition m_leadingspace (s : mst) (m : mbuf) : Z :=
  if M_READONLY s m then 0 else m_data m - data_start m.

Definition m_trailingspace (s : mst) (m : mbuf) : Z :=
  if M_READONLY s m then 0
  else if is_ext m then capacity s m - (m_data m + m_len m)
  else MLEN - (m_data m + m_len m).

(** ** Pools *)

(** A request that may sleep succeeds; one that may not gets the pool's next
    answer. *)
Definition pool_get (how : Z) : M bool := fun s =>
  if how =? M_WAIT then Ok true s
  else Ok (mb_env s 0%nat) (with_env s (fun i => mb_env s (S i))).

(** ** Allocation *)

Definition count_type (t : Z) (d : Z) : M unit := fun s =>
  Ok tt (with_mtypes s (fun u => if u =? t then u16 (mb_mtypes s t + d) else mb_mtypes s u)).

(** The memory of the next mbuf of the pool, as its last user left it. *)
Definition fresh_mbuf : M mbuf := fun s =>
  let a := mb_fresh s in
  let j := mb_junk s a in
  Ok (Mbuf a (m_type j) (m_flags j) (m_len j) (m_data j) (m_pkthdr j) (m_ext j)
        (resize (Z.to_nat MLEN) 0 (m_dat j)))
     (with_live s ({[a]} ∪ mb_live s) (S a)).

Definition set_type (m : mbuf) (t : Z) : mbuf :=
  Mbuf (m_addr m) t (m_flags m) (m_len m) (m_data m) (m_pkthdr m) (m_ext m) (m_dat m).

Definition m_get (nowait type : Z) : M (option mbuf) :=
  b <- pool_get nowait ;;
  if negb b then ret None else
  m <- fresh_mbuf ;;
  count_type type 1 ;;;
  ret (Some (set_flags (set_data (set_type m type) 0) 0)).

Definition zero_pf : pkthdr_pf := PktPf 0 0 0 0 0 0 IFQ_DEFPRIO.
Definition zero_pkthdr : pkthdr := PktHdr 0 [] 0 0 0 0 0 0 zero_pf.

Definition m_inithdr (m : mbuf) : mbuf :=
  set_ph (set_flags (set_data m PKTHDR_SIZE) M_PKTHDR) zero_pkthdr.

Definition m_gethdr (nowait type : Z) : M (option mbuf) :=
  b <- pool_get nowait ;;
  if negb b then ret None else
  m <- fresh_mbuf ;;
  count_type type 1 ;;;
  ret (Some (m_inithdr (set_type m type))).

Definition m_getclr (nowait type : Z) : M (option mbuf) :=
  r <- m_get nowait type ;;
  match r with
  | None => ret None
  | Some m => m <- mwrite m 0 (zeros MLEN) ;; ret (Some m)
  end.

(** ** Packet tags (uipc_mbuf2.c) *)

Definition add_tags (n : Z) : M unit := fun s => Ok tt (with_ntags s (mb_ntags s + n)).

(** [type] and [len] are stored in the 16-bit fields of the tag. *)
Definition m_tag_get (type len wait : Z) : M (option m_tag) :=
  if len <? 0 then ret None else
  if PACKET_TAG_MAXSIZE <? len then panic else
  b <- pool_get wait ;;
  if negb b then ret None else
  add_tags 1 ;;;
  s <- get_st ;;
  ret (Some (Tag (u16 type) (u16 len) (resize (Z.to_nat len) 0 (m_dat (mb_junk s (mb_fresh s)))))).

Definition m_tag_prepend (m : mbuf) (t : m_tag) : mbuf :=
  let p := m_pkthdr m in
  set_ph m (ph_set_tags p (t :: ph_tags p) (Z.lor (ph_tagsset p) (m_tag_id t))).

Definition tags_bits (l : list m_tag) : Z := foldr (fun t b => Z.lor (m_tag_id t) b) 0 l.

(** The tag to delete is the [i]th of the list. *)
Definition m_tag_delete (m : mbuf) (i : nat) : M mbuf :=
  let p := m_pkthdr m in
  match ph_tags p !! i with
  | None => overrun
  | Some _ =>
      add_tags (-1) ;;;
      let l := delete i (ph_tags p) in
      ret (set_ph m (ph_set_tags p l (u16 (tags_bits l))))
  end.

Definition m_tag_delete_chain (m : mbuf) : M mbuf :=
  add_tags (- zlen (ph_tags (m_pkthdr m))) ;;;
  ret (set_ph m (ph_set_tags (m_pkthdr m) [] 0)).

(** The index of the first tag of the type at or after index [i]. *)
Fixpoint tag_scan (l : list m_tag) (type : Z) (i : nat) : option nat :=
  match l with
  | [] => None
  | t :: l' => if m_tag_id t =? type then Some i else tag_scan l' type (S i)
  end.

Definition m_tag_find (m : mbuf) (type : Z) (t : option nat) : option nat :=
  let p := m_pkthdr m in
  if Z.land (ph_tagsset p) type =? 0 then None else
  let i := match t with None => 0%nat | Some j => S j end in
  tag_scan (drop i (ph_tags p)) type i.

Definition m_tag_copy (t : m_tag) (wait : Z) : M (option m_tag) :=
  r <- m_tag_get (m_tag_id t) (m_tag_len t) wait ;;
  match r with
  | None => ret None
  | Some p => ret (Some (Tag (m_tag_id p) (m_tag_len p) (m_tag_data t)))
  end.

Fixpoint tag_copy_loop (to : mbuf) (l : list m_tag) (wait : Z) : M (Z * mbuf) :=
  match l with
  | [] => ret (0, to)
  | p :: l' =>
      r <- m_tag_copy p wait ;;
      match r with
      | None => to <- m_tag_delete_chain to ;; ret (ENOBUFS, to)
      | Some t =>
          let h := m_pkthdr to in
          tag_copy_loop (set_ph to (ph_set_tags h (ph_tags h ++ [t])
                                      (Z.lor (ph_tagsset h) (m_tag_id t)))) l' wait
      end
  end.

Definition m_tag_copy_chain (to from : mbuf) (wait : Z) : M (Z * mbuf) :=
  to <- m_tag_delete_chain to ;;
  tag_copy_loop to (ph_tags (m_pkthdr from)) wait.

Definition m_tag_init (m : mbuf) : mbuf :=
  set_ph m (ph_set_tags (m_pkthdr m) [] (ph_tagsset (m_pkthdr m))).

Definition m_tag_first (m : mbuf) : option nat :=
  match ph_tags (m_pkthdr m) with [] => None | _ => Some 0%nat end.

Definition m_tag_next (m : mbuf) (t : nat) : option nat :=
  match ph_tags (m_pkthdr m) !! S t with Some _ => Some (S t) | None => None end.

(** ** Packet headers *)

Definition m_dup_pkthdr (to from : mbuf) (wait : Z) : M (Z * mbuf) :=
  if negb (is_pkthdr from) then panic else
  let to := set_flags to (Z.lor (Z.land (m_flags to) (Z.lor M_EXT M_EXTWR))
                            (Z.land (m_flags from) M_COPYFLAGS)) in
  let to := set_ph to (m_pkthdr from) in
  let to := m_tag_init to in
  let* '(error, to) := m_tag_copy_chain to from wait in
  if negb (error =? 0) then ret (error, to) else
  ret (0, if is_ext to then to else set_data to PKTHDR_SIZE).

(** [M_MOVE_HDR] and [M_MOVE_PKTHDR]: the new [to] and [from]. *)
Definition M_MOVE_HDR (to from : mbuf) : mbuf * mbuf :=
  (set_ph to (m_pkthdr from),
   m_tag_init (set_flags from (clr_flag (m_flags from) M_PKTHDR))).

Definition M_MOVE_PKTHDR (to from : mbuf) : mbuf * mbuf :=
  let to := set_flags to (Z.lor (Z.land (m_flags to) (Z.lor M_EXT M_EXTWR))
                            (Z.land (m_flags from) M_COPYFLAGS)) in
  let '(to, from) := M_MOVE_HDR to from in
  (if is_ext to then to else set_data to PKTHDR_SIZE, from).

Definition align8 (n : Z) : Z := Z.land n (Z.lnot 7).
Definition M_ALIGN (m : mbuf) (len : Z) : mbuf := set_data m (m_data m + align8 (MLEN - len)).
Definition MH_ALIGN (m : mbuf) (len : Z) : mbuf := set_data m (m_data m + align8 (MHLEN - len)).

(** ** External storage *)

(** The ring with [n] linked in after [o]. *)
Fixpoint ring_insert (o n : nat) (l : list nat) : list nat :=
  match l with
  | [] => []
  | a :: l' => if Nat.eqb a o then a :: n :: l' else a :: ring_insert o n l'
  end.

(** The reference of [n] to the buffer of [o]; the caller has copied
    [m_ext]. *)
Definition m_extref (o n : mbuf) : M mbuf := fun s =>
  match mb_cl s !! m_ext o with
  | None => Overrun
  | Some k =>
      Ok (set_flags n (Z.lor (m_flags n) (Z.land (m_flags o) (Z.lor M_EXT M_EXTWR))))
         (with_cl s (<[m_ext o := Cluster (cl_buf k) (ring_insert (m_addr o) (m_addr n) (cl_ring k))]>
                       (mb_cl s)))
  end.

(** Unlinks [m] from the ring unless it is alone in it; the result says
    whether it was not. *)
Definition m_extunref (m : mbuf) : M bool := fun s =>
  match mb_cl s !! m_ext m with
  | None => Overrun
  | Some k =>
      if negb (MCLISREFERENCED s m) then Ok false s
      else Ok true (with_cl s (<[m_ext m := Cluster (cl_buf k)
                                  (filter (fun a => a <> m_addr m) (cl_ring k))]> (mb_cl s)))
  end.

(** [ext_free] gives the buffer back to its owner, for a cluster of the stack
    its pool ([m_extfree_pool]). *)
Definition ext_free (m : mbuf) : M unit := fun s =>
  match mb_cl s !! m_ext m with
  | None => Overrun
  | Some _ => Ok tt (with_cl s (delete (m_ext m) (mb_cl s)))
  end.

Definition m_extfree (m : mbuf) : M mbuf :=
  refs <- m_extunref m ;;
  (if negb refs then ext_free m else ret tt) ;;;
  ret (set_flags m (clr_flag (m_flags m) (Z.lor M_EXT M_EXTWR))).

(** The size of the first pool whose clusters are large enough. *)
Fixpoint clpool_scan (l : list Z) (pktlen : Z) : option Z :=
  match l with
  | [] => None
  | n :: l' => if pktlen <=? n then Some n else clpool_scan l' pktlen
  end.
Definition m_clpool (pktlen : Z) : option Z := clpool_scan mclsizes pktlen.

(** [MEXTADD] of a buffer of [size] bytes fresh from its pool. *)
Definition MEXTADD (m : mbuf) (size mflags : Z) : M mbuf := fun s =>
  let c := mb_clfresh s in
  let k := Cluster (resize (Z.to_nat size) 0 (mb_cljunk s c)) [m_addr m] in
  Ok (set_ext (set_flags (set_data m 0)
                 (Z.lor (m_flags m) (Z.lor M_EXT (Z.land mflags M_EXTWR)))) c)
     (with_clfresh (with_cl s (<[c := k]> (mb_cl s))) (S c)).

(** ** Freeing *)

Definition pool_put (m : mbuf) : M unit := fun s =>
  if decide (m_addr m ∈ mb_live s) then Ok tt (with_live s (mb_live s ∖ {[m_addr m]}) (mb_fresh s))
  else Overrun.

Definition m_zero (m : mbuf) : M mbuf := fun s =>
  if M_READONLY s m then Panics else
  (m' <- mwrite (set_data m (data_start m)) 0
           (zeros (if is_ext m then capacity s m else if is_pkthdr m then MHLEN else MLEN)) ;;
   ret (set_data m' (m_data m))) s.

(** [m_free] of the first mbuf of a chain; the result is the rest. *)
Definition m_free (c : list mbuf) : M (list mbuf) :=
  match c with
  | [] => overrun
  | m :: n =>
      count_type (m_type m) (-1) ;;;
      let* '(m, n) := (if has (m_flags m) M_ZEROIZE then
                    m <- m_zero m ;;
                    ret (m, match n with
                            | [] => []
                            | n0 :: r => set_flags n0 (Z.lor (m_flags n0) M_ZEROIZE) :: r
                            end)
                  else ret (m, n)) in
      m <- (if is_pkthdr m then m_tag_delete_chain m else ret m) ;;
      m <- (if is_ext m then m_extfree m else ret m) ;;
      pool_put m ;;;
      ret n
  end.

Fixpoint freem_loop (fuel : nat) (c : list mbuf) : M unit :=
  match c with
  | [] => ret tt
  | _ => match fuel with
         | O => nofuel
         | S f => n <- m_free c ;; freem_loop f n
         end
  end.
Definition m_freem (c : list mbuf) : M unit := freem_loop (length c) c.

(** [MCLGETI]/[MCLGET] on an mbuf the caller has: the mbuf, with [M_EXT] set
    when a cluster was found. *)
Definition m_clget (m : mbuf) (how pktlen : Z) : M mbuf :=
  match m_clpool pktlen with
  | None => panic
  | Some size =>
      b <- pool_get how ;;
      if negb b then ret m else MEXTADD m size M_EXTWR
  end.

(** [m_clget(NULL, how, pktlen)]: a new packet header with a cluster. *)
Definition m_clget_new (how pktlen : Z) : M (option mbuf) :=
  match m_clpool pktlen with
  | None => panic
  | Some size =>
      r <- m_gethdr how MT_DATA ;;
      match r with
      | None => ret None
      | Some m0 =>
          b <- pool_get how ;;
          if negb b then m_freem [m0] ;;; ret None
          else m <- MEXTADD m0 size M_EXTWR ;; ret (Some m)
      end
  end.
