(* ===== verification/MbufOps.v ===== *)
(** * Operations on mbuf chains (sys/kern/uipc_mbuf.c, sys/kern/uipc_mbuf2.c)

    The routines that take chains apart, join, copy and rearrange them.  A
    routine that updates a chain in place returns the new chain; one that
    frees its argument returns the empty list.  Loops that are not structural
    carry fuel.  A length argument that the code does not test for being
    negative is taken to be non-negative. *)

From stdpp Require Import base numbers list option gmap.
From Stdlib Require Import ZArith Lia Bool.
From S2P Require Import Prelude Mbuf.

Definition u32 (x : Z) : Z := x `mod` 4294967296.

(** [x > k] for an [int] against a [size_t] constant. *)
Definition ugt (x k : Z) : bool := (x <? 0) || (k <? x).

Definition on_head (f : mbuf -> mbuf) (c : list mbuf) : list mbuf :=
  match c with [] => [] | m :: r => f m :: r end.

(** ** Finding a position *)

Fixpoint getptr_loop (c : list mbuf) (loc : Z) (i : nat) : M (option (nat * Z)) :=
  match c with
  | [] => overrun
  | m :: r =>
      if loc <? m_len m then ret (Some (i, loc))
      else
        let loc := loc - m_len m in
        match r with
        | [] => if loc =? 0 then ret (Some (i, m_len m)) else ret None
        | _ => getptr_loop r loc (S i)
        end
  end.

(** The index of the mbuf and the offset in it. *)
Definition m_getptr (c : list mbuf) (loc : Z) : M (option (nat * Z)) :=
  if loc <? 0 then ret None else getptr_loop c loc 0.

(** [for (m = m0; m && len > m->m_len; m = m->m_next) len -= m->m_len;] *)
Fixpoint seek_len (pre c : list mbuf) (len : Z) : option (list mbuf * mbuf * list mbuf * Z) :=
  match c with
  | [] => None
  | m :: r => if m_len m <? len then seek_len (pre ++ [m]) r (len - m_len m)
              else Some (pre, m, r, len)
  end.

(** ** Copying out *)

Fixpoint copydata_loop (c : list mbuf) (off len : Z) : M (list Z) :=
  if len <=? 0 then ret []
  else match c with
  | [] => panic
  | m :: r =>
      let count := Z.min (m_len m - off) len in
      bs <- mread m off count ;;
      rest <- copydata_loop r 0 (len - count) ;;
      ret (bs ++ rest)
  end.

(** The bytes stored at [cp]. *)
Definition m_copydata (c : list mbuf) (off len : Z) : M (list Z) :=
  if off <? 0 then panic else
  if len <? 0 then panic else
  r <- m_getptr c off ;;
  match r with
  | None => panic
  | Some (i, off) => copydata_loop (drop i c) off len
  end.

(** ** Copying a chain *)

Definition copym_fill (m n : mbuf) (off len wait : Z) (deep : bool) : M mbuf :=
  let n := set_len n (Z.min len (m_len m - off)) in
  if is_ext m then
    if negb deep then
      let n := set_data n (m_data m + off) in
      let n := set_ext n (m_ext m) in
      m_extref m n
    else
      n <- m_clget n wait MCLBYTES ;;
      let n := set_len n 0 in
      s <- get_st ;;
      let n := set_len n (m_trailingspace s n) in
      let n := set_len n (Z.min (m_len n) len) in
      let n := set_len n (Z.min (m_len n) (m_len m - off)) in
      bs <- mread m off (m_len n) ;;
      mwrite n 0 bs
  else
    bs <- mread m off (m_len n) ;;
    mwrite n 0 bs.

(** One new mbuf of the copy; [nospace:] frees what there is. *)
Definition copym_one (m0 m : mbuf) (off len wait : Z) (deep copyhdr : bool) (top : list mbuf)
    : M (option mbuf) :=
  q <- m_get wait (m_type m) ;;
  match q with
  | None => m_freem top ;;; ret None
  | Some n =>
      let* '(e, n) := (if copyhdr then m_dup_pkthdr n m0 wait else ret (0, n)) in
      if negb (e =? 0) then m_freem (top ++ [n]) ;;; ret None else
      let n := if copyhdr && negb (len =? M_COPYALL) then set_phlen n len else n in
      n <- copym_fill m n off len wait deep ;;
      ret (Some n)
  end.

Fixpoint copym_loop (fuel : nat) (m0 : mbuf) (c : list mbuf) (off len wait : Z)
    (deep copyhdr : bool) (top : list mbuf) : M (list mbuf) :=
  if len <=? 0 then ret top else
  match c with
  | [] => if negb (len =? M_COPYALL) then panic else ret top
  | m :: r =>
      match fuel with
      | O => nofuel
      | S f =>
          q <- copym_one m0 m off len wait deep copyhdr top ;;
          match q with
          | None => ret []
          | Some n =>
              let len := if negb (len =? M_COPYALL) then len - m_len n else len in
              let off := off + m_len n in
              if m_len m <? off then panic else
              if off =? m_len m then copym_loop f m0 r 0 len wait deep false (top ++ [n])
              else copym_loop f m0 c off len wait deep false (top ++ [n])
          end
      end
  end.

(** Every turn of the loop leaves an mbuf or copies a byte. *)
Definition copym_fuel (c : list mbuf) : nat := (length c + Z.to_nat (chain_len c))%nat.

Definition m_copym0 (c : list mbuf) (off len wait : Z) (deep : bool) : M (list mbuf) :=
  if (off <? 0) || (len <? 0) then panic else
  match c with
  | [] => overrun
  | m0 :: _ =>
      let copyhdr := (off =? 0) && is_pkthdr m0 in
      r <- m_getptr c off ;;
      match r with
      | None => panic
      | Some (i, off) => copym_loop (copym_fuel c) m0 (drop i c) off len wait deep copyhdr []
      end
  end.

Definition m_copym (c : list mbuf) (off len wait : Z) : M (list mbuf) :=
  m_copym0 c off len wait false.
Definition m_copym2 (c : list mbuf) (off len wait : Z) : M (list mbuf) :=
  m_copym0 c off len wait true.

(** ** Copying in *)

(** A new mbuf with room for [room] bytes, a cluster if they do not fit. *)
Definition copyback_get (type room wait : Z) : M (option mbuf) :=
  q <- m_get wait type ;;
  match q with
  | None => ret None
  | Some n =>
      if ugt room MLEN then
        n <- m_clget n wait room ;;
        if is_ext n then ret (Some n) else m_free [n] ;;; ret None
      else ret (Some n)
  end.

(** The first loop: the error, what is before the mbuf reached, the mbuf, what
    is after it, the offset in it and [totlen]. *)
Fixpoint copyback_seek (fuel : nat) (pre : list mbuf) (m : mbuf) (r : list mbuf)
    (off len totlen wait : Z) : M (Z * list mbuf * mbuf * list mbuf * Z * Z) :=
  if m_len m <? off then
    match fuel with
    | O => nofuel
    | S f =>
      let off := off - m_len m in
      let totlen := totlen + m_len m in
      match r with
      | m' :: r' => copyback_seek f (pre ++ [m]) m' r' off len totlen wait
      | [] =>
          q <- copyback_get (m_type m) (off + len) wait ;;
          match q with
          | None => ret (ENOBUFS, pre, m, [], off, totlen)
          | Some n =>
              n <- mwrite n 0 (zeros off) ;;
              let n := set_len n (len + off) in
              copyback_seek f (pre ++ [m]) n [] off len totlen wait
          end
      end
    end
  else ret (0, pre, m, r, off, totlen).

(** The second loop: the error, the chain from [m] on and [totlen]. *)
Fixpoint copyback_fill (fuel : nat) (m : mbuf) (r : list mbuf) (off : Z) (cp : list Z)
    (len totlen wait : Z) : M (Z * list mbuf * Z) :=
  if len <=? 0 then ret (0, m :: r, totlen) else
  s <- get_st ;;
  let m := match r with
           | [] => if m_len m - off <? len
                   then set_len m (m_len m + Z.min (len - (m_len m - off)) (m_trailingspace s m))
                   else m
           | _ => m
           end in
  let mlen := Z.min (m_len m - off) len in
  if zlen cp <? mlen then overrun else
  m <- mwrite m off (ztake mlen cp) ;;
  let cp := zdrop mlen cp in
  let len := len - mlen in
  let totlen := totlen + mlen + off in
  if len =? 0 then ret (0, m :: r, totlen) else
  match fuel with
  | O => nofuel
  | S f =>
    match r with
    | m' :: r' =>
        let* '(e, c, totlen) := copyback_fill f m' r' 0 cp len totlen wait in
        ret (e, m :: c, totlen)
    | [] =>
        q <- copyback_get (m_type m) len wait ;;
        match q with
        | None => ret (ENOBUFS, [m], totlen)
        | Some n =>
            let n := set_len n len in
            let* '(e, c, totlen) := copyback_fill f n [] 0 cp len totlen wait in
            ret (e, m :: c, totlen)
        end
    end
  end.

Definition copyback_out (c : list mbuf) (totlen : Z) : list mbuf :=
  on_head (fun m => if is_pkthdr m && (ph_len (m_pkthdr m) <? totlen)
                    then set_phlen m totlen else m) c.

Definition m_copyback (c : list mbuf) (off len : Z) (cp : list Z) (wait : Z) : M (Z * list mbuf) :=
  match c with
  | [] => ret (0, [])
  | m0 :: r0 =>
      let* '(e, pre, m, r, off, totlen) := copyback_seek (length c) [] m0 r0 off len 0 wait in
      if negb (e =? 0) then ret (e, copyback_out (pre ++ m :: r) totlen) else
      let* '(e, c', totlen) := copyback_fill (S (S (length r))) m r off cp len totlen wait in
      ret (e, copyback_out (pre ++ c') totlen)
  end.

(** ** Joining and trimming *)

Fixpoint cat_loop (fuel : nat) (m : mbuf) (n : list mbuf) : M (list mbuf) :=
  match n with
  | [] => ret [m]
  | n0 :: _ =>
      match fuel with
      | O => nofuel
      | S f =>
        s <- get_st ;;
        if M_READONLY s m || (m_trailingspace s m <? m_len n0) then ret (m :: n)
        else
          bs <- mread n0 0 (m_len n0) ;;
          m <- mwrite m (m_len m) bs ;;
          let m := set_len m (m_len m + m_len n0) in
          n <- m_free n ;;
          cat_loop f m n
      end
  end.

(** The chain [m] with [n] after it. *)
Fixpoint m_cat (m n : list mbuf) : M (list mbuf) :=
  match m with
  | [] => overrun
  | [m0] => cat_loop (length n) m0 n
  | m0 :: r => c <- m_cat r n ;; ret (m0 :: c)
  end.

(** The loop that trims from the head: the chain and what is left of [len]. *)
Fixpoint adj_head (c : list mbuf) (len : Z) : list mbuf * Z :=
  match c with
  | [] => ([], len)
  | m :: r =>
      if len <=? 0 then (c, len)
      else if m_len m <=? len then
        let '(r', len') := adj_head r (len - m_len m) in (set_len m 0 :: r', len')
      else (set_data (set_len m (m_len m - len)) (m_data m + len) :: r, 0)
  end.

(** Keeping the first [count] bytes. *)
Fixpoint adj_keep (c : list mbuf) (count : Z) : list mbuf :=
  match c with
  | [] => []
  | m :: r =>
      if count <=? m_len m then set_len m count :: ((fun m => set_len m 0) <$> r)
      else m :: adj_keep r (count - m_len m)
  end.

Definition adj_ph (f : Z -> Z) (c : list mbuf) : list mbuf :=
  on_head (fun m => if is_pkthdr m then set_phlen m (f (ph_len (m_pkthdr m))) else m) c.

Definition on_last (f : mbuf -> mbuf) (c : list mbuf) : list mbuf :=
  match last c with
  | None => c
  | Some m => take (length c - 1)%nat c ++ [f m]
  end.

Definition m_adj (mp : list mbuf) (req_len : Z) : list mbuf :=
  match mp with
  | [] => []
  | _ =>
    if 0 <=? req_len then
      let '(c, len) := adj_head mp req_len in
      adj_ph (fun l => l - (req_len - len)) c
    else
      let len := - req_len in
      let count := chain_len mp in
      match last mp with
      | None => []
      | Some ml =>
          if len <=? m_len ml then
            adj_ph (fun l => l - len) (on_last (fun m => set_len m (m_len m - len)) mp)
          else
            let count := if count - len <? 0 then 0 else count - len in
            adj_keep (adj_ph (fun _ => count) mp) count
      end
  end.

(** ** Making room in front, gathering *)

Definition m_prepend (c : list mbuf) (len how : Z) : M (list mbuf) :=
  if ugt len MHLEN then panic else
  match c with
  | [] => overrun
  | m :: r =>
      let done m r := ret ((if is_pkthdr m then set_phlen m (ph_len (m_pkthdr m) + len) else m) :: r) in
      s <- get_st ;;
      if len <=? m_leadingspace s m then
        done (set_len (set_data m (m_data m - len)) (m_len m + len)) r
      else
        q <- m_get how (m_type m) ;;
        match q with
        | None => m_freem c ;;; ret []
        | Some mn =>
            let '(mn, m) := if is_pkthdr m then M_MOVE_PKTHDR mn m else (mn, m) in
            let mn := MH_ALIGN mn len in
            done (set_len mn len) (m :: r)
        end
  end.

(** One turn: what the first mbuf of [n] has goes to [m]. *)
Definition pullup_turn (m n0 : mbuf) (r : list mbuf) (len : Z) : M (mbuf * list mbuf * Z) :=
  let count := Z.min len (m_len n0) in
  bs <- mread n0 0 count ;;
  m <- mwrite m (m_len m) bs ;;
  let len := len - count in
  let m := set_len m (m_len m + count) in
  let n0 := set_len n0 (m_len n0 - count) in
  n <- (if negb (m_len n0 =? 0) then ret (set_data n0 (m_data n0 + count) :: r)
        else m_free (n0 :: r)) ;;
  ret (m, n, len).

(** [inplace] says that [m->m_next] still is the chain [n] the loop frees from;
    [m_free] of [m] reads it, and writes to it when [M_ZEROIZE] is set. *)
Fixpoint pullup_loop (fuel : nat) (inplace : bool) (m : mbuf) (n : list mbuf) (len : Z) : M (list mbuf) :=
  match n with
  | [] => overrun
  | n0 :: r =>
      let* '(m, n, len) := pullup_turn m n0 r len in
      match n with
      | [] =>
          if 0 <? len then
            if inplace && has (m_flags m) M_ZEROIZE then overrun
            else m_free [m] ;;; ret []
          else ret [m]
      | _ =>
          if 0 <? len then
            match fuel with
            | O => nofuel
            | S f => pullup_loop f inplace m n len
            end
          else ret (m :: n)
      end
  end.

Definition m_pullup (c : list mbuf) (len : Z) : M (list mbuf) :=
  match c with
  | [] => overrun
  | n :: r =>
      s <- get_st ;;
      if (negb (is_ext n) && negb (bool_decide (r = [])) && (m_data n + len <? MLEN)) ||
         (is_ext n && ugt len MHLEN && negb (bool_decide (r = [])) &&
          (m_data n + len <? capacity s n)) then
        if len <=? m_len n then ret c
        else pullup_loop (length c) true n r (len - m_len n)
      else
        if MAXMCLBYTES <? len then m_freem c ;;; ret [] else
        q <- m_get M_DONTWAIT (m_type n) ;;
        match q with
        | None => m_freem c ;;; ret []
        | Some m =>
            m <- (if ugt len MHLEN then m_clget m M_DONTWAIT len else ret m) ;;
            if ugt len MHLEN && negb (is_ext m) then m_free [m] ;;; m_freem c ;;; ret []
            else
              let m := set_len m 0 in
              let '(m, n) := if is_pkthdr n then M_MOVE_PKTHDR m n else (m, n) in
              pullup_loop (length c) false m (n :: r) len
        end
  end.

(** ** Splitting and injecting *)

(** [extpacket:] and what follows it in [m_split]. *)
Definition split_tail (m n : mbuf) (r : list mbuf) (len remain : Z) : M (mbuf * list mbuf) :=
  n <- (if is_ext m then
          let n := set_ext n (m_ext m) in
          n <- m_extref m n ;;
          ret (set_data n (m_data m + len))
        else
          bs <- mread m len remain ;;
          mwrite n 0 bs) ;;
  ret (set_len m len, set_len n remain :: r).

(** What is left of the chain, and the chain returned.  [m0->m_pkthdr.len]
    is set when the work is done: until then a failure puts the old value
    back. *)
Fixpoint split_rec (fuel : nat) (c : list mbuf) (len0 wait : Z) : M (list mbuf * list mbuf) :=
  match seek_len [] c (u32 len0), c with
  | Some (pre, m, r, len), m0 :: _ =>
      let remain := m_len m - len in
      if is_pkthdr m0 then
        q <- m_gethdr wait (m_type m0) ;;
        match q with
        | None => ret (c, [])
        | Some n =>
            let* '(e, n) := m_dup_pkthdr n m0 wait in
            if negb (e =? 0) then m_freem [n] ;;; ret (c, []) else
            let n := set_phlen n (ph_len (m_pkthdr n) - len0) in
            let shorten := on_head (fun m0 => set_phlen m0 len0) in
            if is_ext m then
              let* '(m, n) := split_tail m n r len remain in ret (shorten (pre ++ [m]), n)
            else if MHLEN <? remain then
              let n := MH_ALIGN n 0 in
              match fuel with
              | O => nofuel
              | S f =>
                  let* '(mc, nn) := split_rec f (m :: r) len wait in
                  match nn with
                  | [] => m_free [n] ;;; ret (pre ++ mc, [])
                  | _ => ret (shorten (pre ++ mc), n :: nn)
                  end
              end
            else
              let n := MH_ALIGN n remain in
              let* '(m, n) := split_tail m n r len remain in ret (shorten (pre ++ [m]), n)
        end
      else if remain =? 0 then ret (pre ++ [m], r)
      else
        q <- m_get wait (m_type m) ;;
        match q with
        | None => ret (c, [])
        | Some n =>
            let n := M_ALIGN n remain in
            let* '(m, n) := split_tail m n r len remain in ret (pre ++ [m], n)
        end
  | _, _ => ret (c, [])
  end.

(** The call of [m_split] in [m_split] is on a chain without packet header. *)
Definition m_split (c : list mbuf) (len0 wait : Z) : M (list mbuf * list mbuf) :=
  split_rec 2 c len0 wait.

(** The index of the injected mbuf, and the chain. *)
Definition m_inject (c : list mbuf) (len0 siz wait : Z) : M (option nat * list mbuf) :=
  if ugt siz (MHLEN - 1) || (len0 <=? 0) then ret (None, c) else
  let add c := adj_ph (fun l => l + siz) c in
  match seek_len [] c (u32 len0) with
  | None => ret (None, c)
  | Some (pre, m, r, len) =>
      let remain := m_len m - len in
      s <- get_st ;;
      let fits := match r with
                  | m' :: _ => (remain =? 0) && (siz <=? m_leadingspace s m')
                  | [] => false
                  end in
      match r, fits with
      | m' :: r', true =>
          ret (Some (S (length pre)),
               add (pre ++ [m]) ++ set_data (set_len m' (m_len m' + siz)) (m_data m' - siz) :: r')
      | _, _ =>
          n2 <- (if remain =? 0 then ret [] else m_copym2 (m :: r) len remain wait) ;;
          if negb (remain =? 0) && bool_decide (n2 = []) then ret (None, c) else
          q <- m_get wait MT_DATA ;;
          match q with
          | None => m_freem n2 ;;; ret (None, c)
          | Some n =>
              let n := set_len n siz in
              ret (Some (S (length pre)),
                   add (pre ++ [set_len m (m_len m - remain)]) ++ n :: n2 ++ r)
          end
      end
  end.

(** ** From device memory *)

(** The buffer of the next mbuf, and how much of it can be used. *)
Definition devget_room (max_linkhdr : Z) (first : bool) (totlen off : Z) (m : mbuf) (len : Z) : M (mbuf * Z) :=
  if MINCLSIZE <=? totlen + off then
    m <- m_clget m M_DONTWAIT MCLBYTES ;;
    ret (m, if is_ext m then MCLBYTES else len)
  else if first && (totlen + off + max_linkhdr <=? len) then
    ret (set_data m (m_data m + max_linkhdr), len - max_linkhdr)
  else ret (m, len).

Definition devget_fill (dev : list Z) (totlen off : Z) (m : mbuf) (len : Z) : M (mbuf * Z) :=
  let '(m, len) := if negb (off =? 0) then (set_data m (m_data m + off), len - off)
                   else (m, len) in
  let len := Z.min totlen len in
  let m := set_len m len in
  if zlen dev <? len then overrun else
  m <- mwrite m 0 (ztake len dev) ;;
  ret (m, len).

Fixpoint devget_loop (fuel : nat) (max_linkhdr : Z) (dev : list Z) (totlen off : Z)
    (first : mbuf) (top : list mbuf) : M (list mbuf) :=
  if totlen <=? 0 then ret top else
  match fuel with
  | O => nofuel
  | S f =>
    q <- (match top with
          | [] => ret (Some first)
          | _ => m_get M_DONTWAIT MT_DATA
          end) ;;
    match q with
    | None =>
        m_freem (on_head (fun m => set_flags m (Z.lor (m_flags m) M_ZEROIZE)) top) ;;; ret []
    | Some m =>
        let len := match top with [] => MHLEN | _ => MLEN end in
        let* '(m, len) := devget_room max_linkhdr (bool_decide (top = [])) totlen off m len in
        let* '(m, len) := devget_fill dev totlen off m len in
        devget_loop f max_linkhdr (zdrop len dev) (totlen - len) 0 first (top ++ [m])
    end
  end.

Definition m_devget (max_linkhdr : Z) (dev : list Z) (totlen off : Z) : M (list mbuf) :=
  if (off <? 0) || (MHLEN <? off) then ret [] else
  q <- m_gethdr M_DONTWAIT MT_DATA ;;
  match q with
  | None => ret []
  | Some m =>
      let m := set_phlen m totlen in
      devget_loop (S (Z.to_nat totlen)) max_linkhdr dev totlen off m []
  end.

(** ** Walking *)

Section Apply.
Context {St : Type} (f : St -> list Z -> Z * St).

Fixpoint apply_skip (c : list mbuf) (off : Z) : M (list mbuf * Z) :=
  if off <=? 0 then ret (c, off)
  else match c with
  | [] => panic
  | m :: r => if off <? m_len m then ret (c, off) else apply_skip r (off - m_len m)
  end.

Fixpoint apply_loop (c : list mbuf) (off len : Z) (st : St) : M (Z * St) :=
  if len <=? 0 then ret (0, st)
  else match c with
  | [] => panic
  | m :: r =>
      let count := Z.min (m_len m - off) len in
      bs <- mread m off count ;;
      let '(rval, st) := f st bs in
      if negb (rval =? 0) then ret (rval, st)
      else apply_loop r 0 (len - count) st
  end.

Definition m_apply (c : list mbuf) (off len : Z) (st : St) : M (Z * St) :=
  if len <? 0 then panic else
  if off <? 0 then panic else
  let* '(c, off) := apply_skip c off in
  apply_loop c off len st.
End Apply.

(** ** Defragmenting *)

(** [memcpy(&m->m_ext, &m0->m_ext, ...); MCLINITREFERENCE(m)]. *)
Definition ext_move (m m0 : mbuf) : M mbuf := fun s =>
  match mb_cl s !! m_ext m0 with
  | None => Overrun
  | Some k => Ok (set_ext m (m_ext m0))
                 (with_cl s (<[m_ext m0 := Cluster (cl_buf k) [m_addr m]]> (mb_cl s)))
  end.

Definition m_defrag (c : list mbuf) (how : Z) : M (Z * list mbuf) :=
  match c with
  | [] => overrun
  | [m] => ret (0, [m])
  | m :: r =>
      if negb (is_pkthdr m) then panic else
      let plen := ph_len (m_pkthdr m) in
      q <- m_gethdr how (m_type m) ;;
      match q with
      | None => ret (ENOBUFS, c)
      | Some m0 =>
          m0 <- (if ugt plen MHLEN then m_clget m0 how plen else ret m0) ;;
          if ugt plen MHLEN && negb (is_ext m0) then m_free [m0] ;;; ret (ENOBUFS, c) else
          bs <- m_copydata c 0 plen ;;
          m0 <- mwrite m0 0 bs ;;
          let m0 := set_phlen (set_len m0 plen) plen in
          m_freem r ;;;
          m <- (if is_ext m then m_extfree m else ret m) ;;
          m <- (if is_ext m0 then
                  m <- ext_move m m0 ;;
                  ret (set_data (set_flags m (Z.lor (m_flags m)
                                   (Z.land (m_flags m0) (Z.lor M_EXT M_EXTWR)))) 0)
                else
                  let m := set_data m PKTHDR_SIZE in
                  bs <- mread m0 0 (m_len m0) ;;
                  mwrite m 0 bs) ;;
          let m := set_phlen (set_len m (m_len m0)) (m_len m0) in
          let m0 := set_flags m0 (clr_flag (m_flags m0) (Z.lor M_EXT M_EXTWR)) in
          m_free [m0] ;;;
          ret (0, [m])
      end
  end.

(** ** Contiguity in the middle of a chain (uipc_mbuf2.c) *)

Definition m_dup1 (c : list mbuf) (off len wait : Z) : M (option mbuf) :=
  match c with
  | [] => overrun
  | m :: _ =>
      if MAXMCLBYTES <? len then ret None else
      let* '(q, l) :=
        (if (off =? 0) && is_pkthdr m then
           q <- m_gethdr wait (m_type m) ;;
           match q with
           | None => ret (None, MHLEN)
           | Some n =>
               let* '(e, n) := m_dup_pkthdr n m wait in
               if negb (e =? 0) then m_free [n] ;;; ret (None, MHLEN) else ret (Some n, MHLEN)
           end
         else q <- m_get wait (m_type m) ;; ret (q, MLEN)) in
      q <- (match q with
            | Some n =>
                if ugt len l then
                  n <- m_clget n wait len ;;
                  if is_ext n then ret (Some n) else m_free [n] ;;; ret None
                else ret (Some n)
            | None => ret None
            end) ;;
      match q with
      | None => ret None
      | Some n =>
          bs <- m_copydata c off len ;;
          n <- mwrite n 0 bs ;;
          ret (Some (set_len n len))
      end
  end.

(** The position of the target, and the chain; [offp] says whether the caller
    takes an offset. *)
Definition m_pulldown (c : list mbuf) (off len : Z) (offp : bool) : M (option (nat * Z) * list mbuf) :=
  let fail := m_freem c ;;; ret (None, []) in
  match c with
  | [] => panic
  | m :: _ =>
    p <- m_getptr c off ;;
    match p with
    | None => fail
    | Some (i, off) =>
      match drop i c with
      | [] => overrun
      | n :: r =>
        let pre := take i c in
        s <- get_st ;;
        let sharedcluster := M_READONLY s n in
        let okoff := (off =? 0) || offp in
        if okoff && (len <=? m_len n - off) && negb sharedcluster then ret (Some (i, off), c)
        else if len <=? m_len n - off then
          q <- m_dup1 (n :: r) off (m_len n - off) M_DONTWAIT ;;
          match q with
          | None => fail
          | Some o => ret (Some (S i, 0), pre ++ set_len n off :: o :: r)
          end
        else
          let hlen := m_len n - off in
          let tlen := len - hlen in
          let olen := chain_len r in
          if hlen + olen <? len then fail
          else if okoff && (tlen <=? m_trailingspace s n) && negb sharedcluster then
            bs <- m_copydata r 0 tlen ;;
            n <- mwrite n (m_len n) bs ;;
            let n := set_len n (m_len n + tlen) in
            ret (Some (i, off), pre ++ n :: m_adj r tlen)
          else
            match r with
            | [] => overrun
            | n1 :: r' =>
              if okoff && (hlen <=? m_leadingspace s n1) && negb sharedcluster
                 && (tlen <=? m_len n1) then
                let n1 := set_len (set_data n1 (m_data n1 - hlen)) (m_len n1 + hlen) in
                bs <- mread n off hlen ;;
                n1 <- mwrite n1 0 bs ;;
                ret (Some (S i, 0), pre ++ set_len n (m_len n - hlen) :: n1 :: r')
              else if MAXMCLBYTES <? len then fail
              else
                q <- copyback_get (m_type m) len M_DONTWAIT ;;
                match q with
                | None => fail
                | Some o =>
                    let o := set_len o hlen in
                    bs <- mread n off hlen ;;
                    o <- mwrite o 0 bs ;;
                    let n := set_len n (m_len n - hlen) in
                    bs <- m_copydata r 0 tlen ;;
                    o <- mwrite o (m_len o) bs ;;
                    let o := set_len o (m_len o + tlen) in
                    ret (Some (S i, 0), pre ++ n :: o :: m_adj r tlen)
                end
            end
      end
    end
  end.
