(* ===== verification/MbufFacts.v ===== *)
(** * Facts about byte strings and single mbufs

    Slices and writes of byte strings indexed by integers, the weakest
    precondition of the monad of Mbuf.v, and the invariant [W] of the store:
    which mbufs are in use, which of them refer to which external buffer, how
    many tags and mbufs of each type there are.  [W s ms] speaks of all the
    mbufs [ms] of the system, in any order. *)

From stdpp Require Import base numbers list option gmap.
From Stdlib Require Import ZArith Lia Bool.
From S2P Require Import Prelude Mbuf MbufOps.

(** ** Byte strings *)

Section Bytes.
Context {A : Type}.
Implicit Types (l bs : list A) (n off : Z).

Lemma zlen_nil : zlen ([] : list A) = 0. Proof. done. Qed.
Lemma zlen_cons x l : zlen (x :: l) = 1 + zlen l.
Proof. unfold zlen. simpl. lia. Qed.
Lemma zlen_app l1 l2 : zlen (l1 ++ l2) = zlen l1 + zlen l2.
Proof. unfold zlen. rewrite length_app. lia. Qed.
Lemma zlen_nonneg l : 0 <= zlen l.
Proof. unfold zlen. lia. Qed.
Lemma zlen_ztake n l : 0 <= n <= zlen l -> zlen (ztake n l) = n.
Proof. unfold zlen, ztake. rewrite length_take. lia. Qed.
Lemma zlen_zdrop n l : 0 <= n <= zlen l -> zlen (zdrop n l) = zlen l - n.
Proof. unfold zlen, zdrop. rewrite length_drop. lia. Qed.
Lemma zlen_slice off n l : 0 <= off -> 0 <= n -> off + n <= zlen l -> zlen (slice off n l) = n.
Proof. unfold slice, zlen, ztake, zdrop. intros. rewrite length_take, length_drop. lia. Qed.

Lemma zlen_0 l : zlen l = 0 -> l = [].
Proof. unfold zlen. destruct l; [done|simpl; lia]. Qed.

Lemma slice_0 off l : slice off 0 l = [].
Proof. done. Qed.

Lemma slice_all l : slice 0 (zlen l) l = l.
Proof. unfold slice, ztake, zdrop, zlen. rewrite drop_0, Nat2Z.id. by rewrite take_ge. Qed.

Lemma ztake_zdrop n l : ztake n l ++ zdrop n l = l.
Proof. apply take_drop. Qed.

Lemma zdrop_zdrop a b l : 0 <= a -> 0 <= b -> zdrop a (zdrop b l) = zdrop (b + a) l.
Proof. intros. unfold zdrop. rewrite drop_drop. f_equal. lia. Qed.

Lemma ztake_ztake a b l : 0 <= a <= b -> ztake a (ztake b l) = ztake a l.
Proof. intros. unfold ztake. rewrite take_take. f_equal. lia. Qed.

Lemma zdrop_ztake a n l : 0 <= a -> 0 <= n -> zdrop a (ztake (a + n) l) = ztake n (zdrop a l).
Proof. intros. unfold zdrop, ztake. rewrite Z2Nat.inj_add by done. by rewrite <- take_drop_commute. Qed.

Lemma slice_slice a n b k l :
  0 <= a -> 0 <= b -> 0 <= n -> a + n <= k -> slice a n (slice b k l) = slice (b + a) n l.
Proof.
  intros. unfold slice.
  replace k with (a + (k - a)) by lia. rewrite zdrop_ztake by lia.
  rewrite ztake_ztake by lia. by rewrite zdrop_zdrop.
Qed.

Lemma slice_split off a b l :
  0 <= off -> 0 <= a -> 0 <= b -> slice off (a + b) l = slice off a l ++ slice (off + a) b l.
Proof.
  intros. unfold slice. rewrite <- (zdrop_zdrop a off) by done.
  set (k := zdrop off l). rewrite <- (ztake_zdrop a (ztake (a + b) k)).
  rewrite zdrop_ztake by done. by rewrite ztake_ztake by lia.
Qed.

Lemma ztake_app_le n l1 l2 : n <= zlen l1 -> ztake n (l1 ++ l2) = ztake n l1.
Proof. unfold ztake, zlen. intros. by rewrite take_app_le by lia. Qed.
Lemma zdrop_app_le n l1 l2 : n <= zlen l1 -> zdrop n (l1 ++ l2) = zdrop n l1 ++ l2.
Proof. unfold zdrop, zlen. intros. by rewrite drop_app_le by lia. Qed.
Lemma ztake_app_ge n l1 l2 : zlen l1 <= n -> ztake n (l1 ++ l2) = l1 ++ ztake (n - zlen l1) l2.
Proof. unfold ztake, zlen. intros. rewrite take_app_ge by lia. do 2 f_equal. lia. Qed.
Lemma zdrop_app_ge n l1 l2 : zlen l1 <= n -> zdrop n (l1 ++ l2) = zdrop (n - zlen l1) l2.
Proof. unfold zdrop, zlen. intros. rewrite drop_app_ge by lia. f_equal. lia. Qed.
Lemma ztake_0 l n : n <= 0 -> ztake n l = [].
Proof. unfold ztake. intros. by replace (Z.to_nat n) with 0%nat by lia. Qed.
Lemma zdrop_0 l n : n <= 0 -> zdrop n l = l.
Proof. unfold zdrop. intros. by replace (Z.to_nat n) with 0%nat by lia. Qed.
Lemma ztake_all l n : zlen l <= n -> ztake n l = l.
Proof. unfold ztake, zlen. intros. by rewrite take_ge by lia. Qed.
Lemma zdrop_all l n : zlen l <= n -> zdrop n l = [].
Proof. unfold zdrop, zlen. intros. by rewrite drop_ge by lia. Qed.

Lemma slice_app_l off n l1 l2 :
  0 <= off -> 0 <= n -> off + n <= zlen l1 -> slice off n (l1 ++ l2) = slice off n l1.
Proof.
  intros. unfold slice. rewrite zdrop_app_le by lia.
  apply ztake_app_le. rewrite zlen_zdrop; lia.
Qed.

Lemma slice_app_r off n l1 l2 :
  zlen l1 <= off -> slice off n (l1 ++ l2) = slice (off - zlen l1) n l2.
Proof. intros. unfold slice. by rewrite zdrop_app_ge. Qed.

Lemma zlen_splice off bs l :
  0 <= off -> off + zlen bs <= zlen l -> zlen (splice off bs l) = zlen l.
Proof.
  pose proof (zlen_nonneg bs). intros. unfold splice.
  rewrite !zlen_app, zlen_ztake, zlen_zdrop by lia. lia.
Qed.

Lemma slice_splice_same off bs l :
  0 <= off -> off + zlen bs <= zlen l -> slice off (zlen bs) (splice off bs l) = bs.
Proof.
  pose proof (zlen_nonneg bs). intros. unfold splice.
  rewrite slice_app_r by (rewrite zlen_ztake; lia). rewrite zlen_ztake by lia.
  rewrite Z.sub_diag, slice_app_l by lia. apply slice_all.
Qed.

Lemma slice_splice_before a n off bs l :
  0 <= a -> 0 <= n -> a + n <= off -> off <= zlen l -> slice a n (splice off bs l) = slice a n l.
Proof.
  intros. unfold splice. rewrite slice_app_l by (rewrite ?zlen_ztake; lia).
  rewrite <- (ztake_zdrop off l) at 2. by rewrite slice_app_l by (rewrite ?zlen_ztake; lia).
Qed.

Lemma slice_splice_after a n off bs l :
  0 <= off -> off + zlen bs <= a -> off + zlen bs <= zlen l ->
  slice a n (splice off bs l) = slice a n l.
Proof.
  pose proof (zlen_nonneg bs). intros. unfold splice.
  rewrite app_assoc, slice_app_r; rewrite zlen_app, zlen_ztake by lia; [|lia].
  unfold slice. rewrite zdrop_zdrop by lia. do 2 f_equal. lia.
Qed.

Lemma splice_app_at l bs k :
  zlen bs <= k - zlen l -> forall r, zlen r = k - zlen l -> splice (zlen l) bs (l ++ r) = l ++ bs ++ zdrop (zlen bs) r.
Proof.
  intros H r Hr. pose proof (zlen_nonneg l). pose proof (zlen_nonneg bs). unfold splice.
  rewrite ztake_app_ge by lia. rewrite Z.sub_diag, ztake_0, app_nil_r by lia.
  rewrite zdrop_app_ge by lia. do 3 f_equal. lia.
Qed.

Lemma zlen_resize (x : A) n l : 0 <= n -> zlen (resize (Z.to_nat n) x l) = n.
Proof. intros. unfold zlen. rewrite length_resize. lia. Qed.

End Bytes.

Lemma zeros_len n : 0 <= n -> zlen (zeros n) = n.
Proof. intros. unfold zlen, zeros. rewrite length_replicate. lia. Qed.

Create Rewrite HintDb zl.
#[export] Hint Rewrite @zlen_nil @zlen_cons @zlen_app : zl.

(** ** Weakest preconditions *)

(** [e] returns from [s], without a panic and without touching memory it has
    no right to, and the result satisfies [Q]. *)
Definition wp {A} (e : M A) (Q : A -> mst -> Prop) (s : mst) : Prop :=
  match e s with Ok a s' => Q a s' | _ => False end.

Section Wp.
Context {A B : Type}.

Lemma wp_ret (a : A) (Q : A -> mst -> Prop) s : Q a s -> wp (ret a) Q s.
Proof. done. Qed.

Lemma wp_bind (e : M A) (k : A -> M B) Q s : wp e (fun a => wp (k a) Q) s -> wp (bind e k) Q s.
Proof. unfold wp, bind. by destruct (e s). Qed.

Lemma wp_mono (e : M A) (P Q : A -> mst -> Prop) s :
  wp e P s -> (forall a s', P a s' -> Q a s') -> wp e Q s.
Proof. unfold wp. destruct (e s); naive_solver. Qed.

Lemma wp_get (Q : mst -> mst -> Prop) s : Q s s -> wp get_st Q s.
Proof. done. Qed.

Lemma wp_run (e : M A) Q s : wp e Q s -> exists a s', e s = Ok a s' /\ Q a s'.
Proof. unfold wp. destruct (e s); naive_solver. Qed.

End Wp.

(** ** Flags *)

Lemma has_lor f g k : 0 <= k -> has (Z.lor f g) (2 ^ k) = has f (2 ^ k) || has g (2 ^ k).
Proof. intros. rewrite !has_pow2 by done. apply Z.lor_spec. Qed.
Lemma has_land f g k : 0 <= k -> has (Z.land f g) (2 ^ k) = has f (2 ^ k) && has g (2 ^ k).
Proof. intros. rewrite !has_pow2 by done. apply Z.land_spec. Qed.
Lemma has_lnot f k : 0 <= k -> has (Z.lnot f) (2 ^ k) = negb (has f (2 ^ k)).
Proof. intros. rewrite !has_pow2 by done. by apply Z.lnot_spec. Qed.

(** The four flags the code tests, as rewrite rules. *)
Lemma has_lor_EXT f g : has (Z.lor f g) M_EXT = has f M_EXT || has g M_EXT.
Proof. exact (has_lor f g 0 ltac:(lia)). Qed.
Lemma has_land_EXT f g : has (Z.land f g) M_EXT = has f M_EXT && has g M_EXT.
Proof. exact (has_land f g 0 ltac:(lia)). Qed.
Lemma has_lnot_EXT f : has (Z.lnot f) M_EXT = negb (has f M_EXT).
Proof. exact (has_lnot f 0 ltac:(lia)). Qed.
Lemma has_lor_PKTHDR f g : has (Z.lor f g) M_PKTHDR = has f M_PKTHDR || has g M_PKTHDR.
Proof. exact (has_lor f g 1 ltac:(lia)). Qed.
Lemma has_land_PKTHDR f g : has (Z.land f g) M_PKTHDR = has f M_PKTHDR && has g M_PKTHDR.
Proof. exact (has_land f g 1 ltac:(lia)). Qed.
Lemma has_lnot_PKTHDR f : has (Z.lnot f) M_PKTHDR = negb (has f M_PKTHDR).
Proof. exact (has_lnot f 1 ltac:(lia)). Qed.
Lemma has_lor_EXTWR f g : has (Z.lor f g) M_EXTWR = has f M_EXTWR || has g M_EXTWR.
Proof. exact (has_lor f g 3 ltac:(lia)). Qed.
Lemma has_land_EXTWR f g : has (Z.land f g) M_EXTWR = has f M_EXTWR && has g M_EXTWR.
Proof. exact (has_land f g 3 ltac:(lia)). Qed.
Lemma has_lnot_EXTWR f : has (Z.lnot f) M_EXTWR = negb (has f M_EXTWR).
Proof. exact (has_lnot f 3 ltac:(lia)). Qed.
Lemma has_lor_ZEROIZE f g : has (Z.lor f g) M_ZEROIZE = has f M_ZEROIZE || has g M_ZEROIZE.
Proof. exact (has_lor f g 13 ltac:(lia)). Qed.
Lemma has_land_ZEROIZE f g : has (Z.land f g) M_ZEROIZE = has f M_ZEROIZE && has g M_ZEROIZE.
Proof. exact (has_land f g 13 ltac:(lia)). Qed.
Lemma has_lnot_ZEROIZE f : has (Z.lnot f) M_ZEROIZE = negb (has f M_ZEROIZE).
Proof. exact (has_lnot f 13 ltac:(lia)). Qed.
Lemma has_EXT_EXT : has M_EXT M_EXT = true. Proof. done. Qed.
Lemma has_EXT_PKTHDR : has M_EXT M_PKTHDR = false. Proof. done. Qed.
Lemma has_EXT_EXTWR : has M_EXT M_EXTWR = false. Proof. done. Qed.
Lemma has_EXT_ZEROIZE : has M_EXT M_ZEROIZE = false. Proof. done. Qed.
Lemma has_PKTHDR_EXT : has M_PKTHDR M_EXT = false. Proof. done. Qed.
Lemma has_PKTHDR_PKTHDR : has M_PKTHDR M_PKTHDR = true. Proof. done. Qed.
Lemma has_PKTHDR_EXTWR : has M_PKTHDR M_EXTWR = false. Proof. done. Qed.
Lemma has_PKTHDR_ZEROIZE : has M_PKTHDR M_ZEROIZE = false. Proof. done. Qed.
Lemma has_EXTWR_EXT : has M_EXTWR M_EXT = false. Proof. done. Qed.
Lemma has_EXTWR_PKTHDR : has M_EXTWR M_PKTHDR = false. Proof. done. Qed.
Lemma has_EXTWR_EXTWR : has M_EXTWR M_EXTWR = true. Proof. done. Qed.
Lemma has_EXTWR_ZEROIZE : has M_EXTWR M_ZEROIZE = false. Proof. done. Qed.
Lemma has_ZEROIZE_EXT : has M_ZEROIZE M_EXT = false. Proof. done. Qed.
Lemma has_ZEROIZE_PKTHDR : has M_ZEROIZE M_PKTHDR = false. Proof. done. Qed.
Lemma has_ZEROIZE_EXTWR : has M_ZEROIZE M_EXTWR = false. Proof. done. Qed.
Lemma has_ZEROIZE_ZEROIZE : has M_ZEROIZE M_ZEROIZE = true. Proof. done. Qed.
Lemma has_COPYFLAGS_EXT : has M_COPYFLAGS M_EXT = false. Proof. done. Qed.
Lemma has_COPYFLAGS_PKTHDR : has M_COPYFLAGS M_PKTHDR = true. Proof. done. Qed.
Lemma has_COPYFLAGS_EXTWR : has M_COPYFLAGS M_EXTWR = false. Proof. done. Qed.
Lemma has_COPYFLAGS_ZEROIZE : has M_COPYFLAGS M_ZEROIZE = true. Proof. done. Qed.

Create Rewrite HintDb flags.
#[export] Hint Rewrite has_lor_EXT has_land_EXT has_lnot_EXT has_lor_PKTHDR has_land_PKTHDR has_lnot_PKTHDR 
  has_lor_EXTWR has_land_EXTWR has_lnot_EXTWR has_lor_ZEROIZE has_land_ZEROIZE 
  has_lnot_ZEROIZE has_EXT_EXT has_EXT_PKTHDR has_EXT_EXTWR has_EXT_ZEROIZE 
  has_PKTHDR_EXT has_PKTHDR_PKTHDR has_PKTHDR_EXTWR has_PKTHDR_ZEROIZE has_EXTWR_EXT 
  has_EXTWR_PKTHDR has_EXTWR_EXTWR has_EXTWR_ZEROIZE has_ZEROIZE_EXT has_ZEROIZE_PKTHDR 
  has_ZEROIZE_EXTWR has_ZEROIZE_ZEROIZE has_COPYFLAGS_EXT has_COPYFLAGS_PKTHDR 
  has_COPYFLAGS_EXTWR has_COPYFLAGS_ZEROIZE : flags.

(** Compute the flags of an expression over flag words. *)
Ltac flag_simpl :=
  unfold clr_flag, set_flag; autorewrite with flags;
  rewrite ?andb_true_r, ?andb_false_r, ?orb_true_r, ?orb_false_r; cbn [negb andb orb].
