(* ===== verification/MbufInv.v ===== *)
(** * The invariant of the mbuf store and the routines on single mbufs

    [W s ms]: the mbufs in use are exactly [ms]; every external buffer is
    referred to, and its ring is made of the mbufs of [ms] that refer to it;
    tags and mbufs of each type are counted.  A buffer of which nobody is left
    is thus given back, and given back once.  [keeps s s' ms] says that the
    buffers of the mbufs [ms] are the same in both stores. *)

From stdpp Require Import base numbers list option gmap.
From Stdlib Require Import ZArith Lia Bool.
From S2P Require Import Prelude Mbuf MbufOps MbufFacts.

(** ** The invariant *)

(** The mbufs of [ms] that refer to the external buffer [c]. *)
Definition refs (ms : list mbuf) (c : nat) : list nat :=
  m_addr <$> filter (fun m => is_ext m = true /\ m_ext m = c) ms.

Definition tagc (m : mbuf) : Z := if is_pkthdr m then zlen (ph_tags (m_pkthdr m)) else 0.
Definition ntags (ms : list mbuf) : Z := foldr (fun m n => tagc m + n) 0 ms.
Definition ntype (t : Z) (ms : list mbuf) : Z := zlen (filter (fun m => m_type m = t) ms).

(** [d] is what the count of a type is off by, in the middle of a routine. *)
Record Wd (d : Z -> Z) (s : mst) (ms : list mbuf) : Prop := {
  W_nodup : NoDup (m_addr <$> ms);
  W_live : forall a, a ∈ mb_live s <-> a ∈ (m_addr <$> ms);
  W_fresh : forall a, a ∈ (m_addr <$> ms) -> (a < mb_fresh s)%nat;
  W_dat : forall m, m ∈ ms -> zlen (m_dat m) = MLEN;
  W_ext : forall m, m ∈ ms -> is_ext m = true -> is_Some (mb_cl s !! m_ext m);
  W_ring : forall c k, mb_cl s !! c = Some k ->
    cl_ring k ≡ₚ refs ms c /\ cl_ring k <> [] /\ (c < mb_clfresh s)%nat;
  W_tags : mb_ntags s = ntags ms;
  W_types : forall t, mb_mtypes s t = u16 (ntype t ms + d t) }.
Arguments W_nodup {d s ms} _.
Arguments W_live {d s ms} _ _.
Arguments W_fresh {d s ms} _ _ _.
Arguments W_dat {d s ms} _ _ _.
Arguments W_ext {d s ms} _ _ _ _.
Arguments W_ring {d s ms} _ _ _ _.
Arguments W_tags {d s ms} _.
Arguments W_types {d s ms} _ _.
Notation W := (Wd (fun _ => 0)).

#[global] Instance ntags_perm : Proper ((≡ₚ) ==> (=)) ntags.
Proof.
  intros l1 l2 H. induction H; simpl; lia.
Qed.

#[global] Instance ntype_perm t : Proper ((≡ₚ) ==> (=)) (ntype t).
Proof. intros l1 l2 H. unfold ntype, zlen. by rewrite H. Qed.

Lemma ntype_cons t m ms : ntype t (m :: ms) = (if m_type m =? t then 1 else 0) + ntype t ms.
Proof.
  unfold ntype, zlen. rewrite filter_cons.
  destruct (Z.eqb_spec (m_type m) t); [rewrite decide_True by done|by rewrite decide_False].
  simpl. lia.
Qed.

#[global] Instance refs_perm : Proper ((≡ₚ) ==> eq ==> (≡ₚ)) refs.
Proof. intros l1 l2 H c ? <-. unfold refs. by rewrite H. Qed.

#[global] Instance W_perm d s : Proper ((≡ₚ) ==> iff) (Wd d s).
Proof.
  assert (forall l1 l2, l1 ≡ₚ l2 -> Wd d s l1 -> Wd d s l2) as HP.
  { intros l1 l2 H [H1 H2 H3 H4 H5 H6 H7 H8]. split.
    - by rewrite <- H.
    - intros a. by rewrite H2, H.
    - intros a. rewrite <- H. auto.
    - intros m. rewrite <- H. auto.
    - intros m. rewrite <- H. auto.
    - intros c k Hk. destruct (H6 c k Hk) as (?&?&?). rewrite <- H. auto.
    - by rewrite H7, H.
    - intros t. by rewrite H8, H. }
  intros l1 l2 H. split; apply HP; [done|by symmetry].
Qed.

(** The pools grant every request; a request that may not sleep was refused. *)
Definition plenty (s : mst) : Prop := forall i, mb_env s i = true.
Definition refused (how : Z) (s : mst) : Prop := how <> M_WAIT /\ ~ plenty s.

(** The buffers of the mbufs [ms] are the same, and if the pools granted
    everything they still do. *)
Definition keeps (s s' : mst) (ms : list mbuf) : Prop :=
  (forall m, m ∈ ms -> buf s' m = buf s m) /\ (plenty s -> plenty s').

(** All buffers are the same. *)
Definition scl (s s' : mst) : Prop := mb_cl s' = mb_cl s /\ (plenty s -> plenty s').

Lemma scl_refl s : scl s s.
Proof. done. Qed.
Lemma scl_trans s1 s2 s3 : scl s1 s2 -> scl s2 s3 -> scl s1 s3.
Proof. unfold scl. intros [-> ?] [-> ?]. auto. Qed.
Lemma refused_scl how s s' : scl s s' -> refused how s' -> refused how s.
Proof. intros [_ H] [? Hn]. split; auto. Qed.

Lemma keeps_refl s ms : keeps s s ms.
Proof. done. Qed.
Lemma keeps_trans s1 s2 s3 ms : keeps s1 s2 ms -> keeps s2 s3 ms -> keeps s1 s3 ms.
Proof. intros [H1 P1] [H2 P2]. split; [|auto]. intros m Hm. by rewrite (H2 m Hm), (H1 m Hm). Qed.
Lemma keeps_cl s s' ms : scl s s' -> keeps s s' ms.
Proof. intros [H P]. split; [|done]. intros m _. unfold buf. by rewrite H. Qed.
Lemma keeps_sub s s' ms ms' : ms' ⊆ ms -> keeps s s' ms -> keeps s s' ms'.
Proof. intros H1 [H2 P]. split; [|done]. intros m Hm. by apply H2, H1. Qed.
Lemma refused_keeps how s s' ms : keeps s s' ms -> refused how s' -> refused how s.
Proof. intros [_ H] [? Hn]. split; auto. Qed.
Lemma keeps_app s s' l1 l2 : keeps s s' (l1 ++ l2) <-> keeps s s' l1 /\ keeps s s' l2.
Proof.
  unfold keeps. setoid_rewrite elem_of_app. naive_solver.
Qed.
Lemma keeps_cons s s' m l : keeps s s' (m :: l) <-> buf s' m = buf s m /\ keeps s s' l.
Proof.
  unfold keeps. setoid_rewrite elem_of_cons. naive_solver.
Qed.

Lemma buf_cl s s' m : scl s s' -> buf s' m = buf s m.
Proof. intros [H _]. unfold buf. by rewrite H. Qed.

Section Inv.
Context (d : Z -> Z).

(** What [W] needs to know of an mbuf. *)
Record same_core (m m' : mbuf) : Prop := {
  sc_addr : m_addr m' = m_addr m;
  sc_type : m_type m' = m_type m;
  sc_isext : is_ext m' = is_ext m;
  sc_ext : is_ext m = true -> m_ext m' = m_ext m;
  sc_tags : tagc m' = tagc m;
  sc_dat : zlen (m_dat m') = zlen (m_dat m) }.

#[global] Instance same_core_refl : Reflexive same_core.
Proof. by split. Qed.

Lemma same_core_trans m1 m2 m3 : same_core m1 m2 -> same_core m2 m3 -> same_core m1 m3.
Proof.
  intros [] []. split; try congruence. intros H. rewrite sc_ext1, sc_ext0; congruence.
Qed.

Lemma refs_cons m ms c :
  refs (m :: ms) c = if is_ext m && (Nat.eqb (m_ext m) c) then m_addr m :: refs ms c else refs ms c.
Proof.
  unfold refs. rewrite filter_cons.
  destruct (decide (is_ext m = true /\ m_ext m = c)) as [[H1 H2]|Hn].
  - by rewrite H1, H2, Nat.eqb_refl.
  - destruct (is_ext m); simpl; [|done]. destruct (Nat.eqb_spec (m_ext m) c); naive_solver.
Qed.

Lemma refs_app l1 l2 c : refs (l1 ++ l2) c = refs l1 c ++ refs l2 c.
Proof. unfold refs. by rewrite filter_app, fmap_app. Qed.

Lemma refs_core m m' ms c : same_core m m' -> refs (m' :: ms) c = refs (m :: ms) c.
Proof.
  intros []. rewrite !refs_cons, sc_isext0, sc_addr0.
  destruct (is_ext m) eqn:E; simpl; [|done]. by rewrite sc_ext0.
Qed.

Lemma W_core s m m' ms : same_core m m' -> Wd d s (m :: ms) -> Wd d s (m' :: ms).
Proof.
  intros Hc [H1 H2 H3 H4 H5 H6 H7 H8]. pose proof Hc as [Ha Ht Hie He Htg Hd].
  assert ((m_addr <$> m' :: ms) = (m_addr <$> m :: ms)) as Hids by (simpl; by rewrite Ha).
  split.
  - by rewrite Hids.
  - intros a. by rewrite Hids.
  - intros a. rewrite Hids. auto.
  - intros x [->|Hx]%elem_of_cons; [rewrite Hd; apply H4; left|apply H4; by right].
  - intros x [->|Hx]%elem_of_cons; [|apply H5; by right].
    rewrite Hie. intros Hi. rewrite He by done. apply H5; [by left|done].
  - intros c k Hk. rewrite (refs_core m m') by done. auto.
  - rewrite H7. simpl. by rewrite Htg.
  - intros t. rewrite H8. by rewrite !ntype_cons, Ht.
Qed.

Lemma W_core_mid s m m' l1 l2 : same_core m m' -> Wd d s (l1 ++ m :: l2) -> Wd d s (l1 ++ m' :: l2).
Proof. intros Hc. rewrite <- !Permutation_middle. by apply W_core. Qed.

Lemma elem_refs ms c a : a ∈ refs ms c -> a ∈ (m_addr <$> ms).
Proof.
  unfold refs. rewrite !list_elem_of_fmap. intros (m & -> & Hm).
  apply list_elem_of_filter in Hm. naive_solver.
Qed.

(** The ring of an external buffer, from its first member. *)
Lemma W_ring_of s m ms :
  Wd d s (m :: ms) -> is_ext m = true ->
  exists k, mb_cl s !! m_ext m = Some k /\ cl_ring k ≡ₚ m_addr m :: refs ms (m_ext m).
Proof.
  intros HW Hx. destruct (W_ext HW m) as [k Hk]; [by left|done|]. exists k. split; [done|].
  destruct (W_ring HW _ _ Hk) as [Hr _]. by rewrite refs_cons, Hx, Nat.eqb_refl in Hr.
Qed.

(** An mbuf is referenced when another one is in its ring. *)
Lemma W_referenced s m ms :
  Wd d s (m :: ms) -> is_ext m = true ->
  MCLISREFERENCED s m = negb (bool_decide (refs ms (m_ext m) = [])).
Proof.
  intros HW Hx. destruct (W_ring_of _ _ _ HW Hx) as (k & Hk & Hr).
  unfold MCLISREFERENCED, ring. rewrite Hk, Hr. simpl.
  by destruct (refs ms (m_ext m)) as [|a l]; simpl.
Qed.

(** Nobody else refers to the buffer of [m]. *)
Definition alone (m : mbuf) (ms : list mbuf) : Prop :=
  is_ext m = true -> refs ms (m_ext m) = [].

Lemma readonly_alone s m ms : Wd d s (m :: ms) -> M_READONLY s m = false -> alone m ms.
Proof.
  unfold M_READONLY. intros HW Hr Hx. rewrite Hx in Hr. simpl in Hr.
  apply orb_false_iff in Hr as [_ Hr]. rewrite (W_referenced _ _ _ HW Hx) in Hr.
  by apply negb_false_iff, bool_decide_eq_true in Hr.
Qed.

Lemma alone_buf m ms x : alone m ms -> is_ext m = true -> x ∈ ms -> is_ext x = true -> m_ext x <> m_ext m.
Proof.
  intros Ha Hm Hx Hxx He. specialize (Ha Hm).
  assert (m_addr x ∈ refs ms (m_ext m)) as Hin; [|rewrite Ha in Hin; by apply elem_of_nil in Hin].
  apply list_elem_of_fmap. exists x. split; [done|]. by apply list_elem_of_filter.
Qed.

(** Freeing others makes an mbuf less read-only. *)
Lemma readonly_sub s s' m ms ms' :
  Wd d s (m :: ms) -> Wd d s' (m :: ms') -> (is_ext m = true -> length (refs ms' (m_ext m)) <= length (refs ms (m_ext m)))%nat ->
  M_READONLY s m = false -> M_READONLY s' m = false.
Proof.
  unfold M_READONLY. intros HW HW' Hle. destruct (is_ext m) eqn:Hx; [|done]. simpl.
  intros [-> Hr]%orb_false_iff. simpl.
  rewrite (W_referenced _ _ _ HW Hx) in Hr. rewrite (W_referenced _ _ _ HW' Hx).
  apply negb_false_iff, bool_decide_eq_true in Hr. specialize (Hle eq_refl).
  rewrite Hr in Hle. simpl in Hle. destruct (refs ms' (m_ext m)); [done|simpl in Hle; lia].
Qed.

End Inv.

(** ** Pools *)

Lemma wp_pool_get s how Q :
  (forall e, refused how s -> Q false (with_env s e)) ->
  (forall e, scl s (with_env s e) -> Q true (with_env s e)) -> wp (pool_get how) Q s.
Proof.
  intros HF HT. unfold wp, pool_get.
  assert (s = with_env s (mb_env s)) as Hs by (by destruct s).
  destruct (how =? M_WAIT) eqn:E.
  { rewrite Hs. apply HT. by rewrite <- Hs. }
  apply Z.eqb_neq in E. destruct (mb_env s 0%nat) eqn:E0.
  - apply HT. split; [done|]. intros Hp i. apply Hp.
  - apply HF. split; [done|]. intros Hp. specialize (Hp 0%nat). congruence.
Qed.

Lemma scl_refused how s e : refused how s -> scl s (with_env s e).
Proof. intros [_ Hn]. by split. Qed.

Lemma W_env s e ms : W (with_env s e) ms <-> W s ms.
Proof. split; intros []; by split. Qed.

Lemma W_new s ms m t :
  W s ms -> m_addr m = mb_fresh s -> m_type m = t -> is_ext m = false -> tagc m = 0 ->
  zlen (m_dat m) = MLEN ->
  W (with_mtypes (with_live s ({[mb_fresh s]} ∪ mb_live s) (S (mb_fresh s)))
       (fun u => if u =? t then u16 (mb_mtypes s t + 1) else mb_mtypes s u)) (m :: ms).
Proof.
  intros [H1 H2 H3 H4 H5 H6 H7 H8] Ha Ht Hx Htg Hd. split; simpl.
  - rewrite Ha. constructor; [|done]. intros Hin. specialize (H3 _ Hin). lia.
  - intros a. rewrite elem_of_union, elem_of_singleton, elem_of_cons, H2, Ha. done.
  - intros a [->|Hin]%elem_of_cons; [lia|]. specialize (H3 _ Hin). lia.
  - intros x [->|Hin]%elem_of_cons; auto.
  - intros x [->|Hin]%elem_of_cons; [congruence|auto].
  - intros c k Hk. rewrite refs_cons, Hx. simpl. auto.
  - by rewrite Htg, H7.
  - intros u. unfold ntype, zlen. rewrite filter_cons, Ht.
    destruct (Z.eqb_spec u t) as [->|Hne].
    + rewrite decide_True by done. rewrite H8. unfold ntype, zlen. simpl length.
      unfold u16. rewrite Zplus_mod_idemp_l. f_equal. lia.
    + rewrite decide_False by done. apply H8.
Qed.

(** A new mbuf: what [m_get] and [m_gethdr] leave undefined is not said. *)
Definition new_mbuf (m : mbuf) (t : Z) : Prop :=
  m_type m = t /\ m_flags m = 0 /\ m_data m = 0.
Definition new_hdr (m : mbuf) (t : Z) : Prop :=
  m_type m = t /\ m_flags m = M_PKTHDR /\ m_data m = PKTHDR_SIZE /\ m_pkthdr m = zero_pkthdr.

Lemma wp_m_get s ms how t Q :
  W s ms ->
  (forall s', refused how s -> W s' ms -> scl s s' -> Q None s') ->
  (forall m s', W s' (m :: ms) -> scl s s' -> new_mbuf m t -> Q (Some m) s') ->
  wp (m_get how t) Q s.
Proof.
  intros HW HN HS. unfold m_get. apply wp_bind, wp_pool_get; intros e; intros.
  { apply HN; [done|by apply W_env|by eapply scl_refused]. }
  apply HS; [|done..]. apply (W_new (with_env s e)); [by apply W_env|done..|].
  simpl. by apply zlen_resize.
Qed.

Lemma wp_m_gethdr s ms how t Q :
  W s ms ->
  (forall s', refused how s -> W s' ms -> scl s s' -> Q None s') ->
  (forall m s', W s' (m :: ms) -> scl s s' -> new_hdr m t -> Q (Some m) s') ->
  wp (m_gethdr how t) Q s.
Proof.
  intros HW HN HS. unfold m_gethdr. apply wp_bind, wp_pool_get; intros e; intros.
  { apply HN; [done|by apply W_env|by eapply scl_refused]. }
  apply HS; [|done..]. apply (W_new (with_env s e)); [by apply W_env|done..|].
  simpl. by apply zlen_resize.
Qed.

(** ** Reading and writing *)

Lemma wp_mread s m off n Q :
  0 <= n -> 0 <= m_data m + off -> m_data m + off + n <= capacity s m ->
  Q (slice (m_data m + off) n (buf s m)) s -> wp (mread m off n) Q s.
Proof.
  intros. unfold wp, mread.
  rewrite (proj2 (Z.leb_le 0 n)), (proj2 (Z.leb_le 0 _)), (proj2 (Z.leb_le _ (capacity s m))) by lia.
  done.
Qed.

Lemma W_cl_buf d s ms c k b :
  Wd d s ms -> mb_cl s !! c = Some k -> Wd d (with_cl s (<[c := Cluster b (cl_ring k)]> (mb_cl s))) ms.
Proof.
  intros [H1 H2 H3 H4 H5 H6 H7 H8] Hk. split; simpl; try done.
  - intros m Hm Hx. destruct (decide (c = m_ext m)) as [<-|Hne].
    + rewrite lookup_insert_eq. eauto.
    + rewrite lookup_insert_ne by done. auto.
  - intros c' k'. destruct (decide (c = c')) as [<-|Hne].
    + rewrite lookup_insert_eq. intros [= <-]. simpl. by apply (H6 _ k).
    + rewrite lookup_insert_ne by done. auto.
Qed.

(** A write to an mbuf whose buffer nobody else refers to. *)
Lemma wp_mwrite d s m ms off bs Q :
  Wd d s (m :: ms) -> alone m ms ->
  0 <= m_data m + off -> m_data m + off + zlen bs <= capacity s m ->
  (forall m' s', Wd d s' (m' :: ms) -> keeps s s' ms ->
     m' = set_dat m (m_dat m') -> buf s' m' = splice (m_data m + off) bs (buf s m) -> Q m' s') ->
  wp (mwrite m off bs) Q s.
Proof.
  intros HW Hal H0 H1 HQ. unfold wp, mwrite.
  rewrite (proj2 (Z.leb_le 0 _)), (proj2 (Z.leb_le _ (capacity s m))) by lia. simpl.
  destruct (is_ext m) eqn:Hx.
  - destruct (W_ring_of _ _ _ _ HW Hx) as (k & Hk & Hr). rewrite Hk. apply HQ.
    + by apply W_cl_buf.
    + split; [|done]. intros x Hin. unfold buf. simpl. destruct (is_ext x) eqn:Hxx; [|done].
      rewrite lookup_insert_ne; [done|]. symmetry. by eapply alone_buf.
    + by destruct m.
    + unfold buf. rewrite Hx. simpl. by rewrite lookup_insert_eq, Hk.
  - assert (buf s m = m_dat m) as Hb by (unfold buf; by rewrite Hx).
    unfold capacity in H1. rewrite Hb in H1.
    apply HQ; [|done|done|].
    + eapply W_core, HW. split; try done. simpl. by rewrite zlen_splice by lia.
    + unfold buf. unfold is_ext in *. simpl. by rewrite Hx.
Qed.
