(* ===== verification/MbufExt.v ===== *)
(** * External storage, packet tags and freeing

    Sharing an external buffer, dropping a reference to it, attaching a fresh
    cluster, copying a packet header with its tags, and freeing: each keeps
    the invariant [W] and the buffers of all other mbufs. *)

From stdpp Require Import base numbers list option gmap.
From Stdlib Require Import ZArith Lia Bool.
From S2P Require Import Prelude Mbuf MbufOps MbufFacts MbufInv.

(** ** References *)

Lemma ring_insert_perm o n l : o ∈ l -> ring_insert o n l ≡ₚ n :: l.
Proof.
  induction l as [|a l IH]; [by intros ?%elem_of_nil|]. intros H. simpl.
  destruct (Nat.eqb_spec a o) as [->|Hne]; [apply Permutation_swap|].
  apply elem_of_cons in H as [->|H]; [done|]. rewrite (IH H). apply Permutation_swap.
Qed.

(** [n] becomes one more reference to the buffer [c]. *)
Lemma W_ref_add d s n n' ms c k r :
  Wd d s (n :: ms) -> mb_cl s !! c = Some k -> r ≡ₚ m_addr n :: cl_ring k ->
  is_ext n = false -> is_ext n' = true -> m_ext n' = c -> m_addr n' = m_addr n ->
  m_type n' = m_type n -> tagc n' = tagc n -> zlen (m_dat n') = zlen (m_dat n) ->
  Wd d (with_cl s (<[c := Cluster (cl_buf k) r]> (mb_cl s))) (n' :: ms).
Proof.
  intros [H1 H2 H3 H4 H5 H6 H7 H8] Hk Hr Hx Hx' Hc Ha Ht Htg Hd.
  assert ((m_addr <$> n' :: ms) = (m_addr <$> n :: ms)) as Hids by (simpl; by rewrite Ha).
  split; simpl mb_live; simpl mb_cl; simpl mb_fresh; simpl mb_clfresh; simpl mb_ntags; simpl mb_mtypes.
  - by rewrite Hids.
  - intros a. by rewrite Hids.
  - intros a. rewrite Hids. auto.
  - intros x [->|Hin]%elem_of_cons; [rewrite Hd; apply H4; left|apply H4; by right].
  - intros x [->|Hin]%elem_of_cons Hxx.
    + rewrite Hc, lookup_insert_eq. eauto.
    + destruct (decide (c = m_ext x)) as [<-|Hne]; [rewrite lookup_insert_eq; eauto|].
      rewrite lookup_insert_ne by done. apply H5; [by right|done].
  - intros c' k'. rewrite refs_cons, Hx', Hc, Ha. simpl.
    destruct (H6 c k Hk) as (Hp & Hne & Hlt). rewrite refs_cons, Hx in Hp. simpl in Hp.
    destruct (Nat.eqb_spec c c') as [<-|Hcc].
    + rewrite lookup_insert_eq. intros [= <-]. simpl. split_and!; [by rewrite Hr, Hp| |done].
      intros E. rewrite E in Hr. by apply Permutation_nil_cons in Hr.
    + rewrite lookup_insert_ne by done. intros Hk'. destruct (H6 c' k' Hk') as (Hp' & ? & ?).
      rewrite refs_cons, Hx in Hp'. done.
  - rewrite H7. simpl. by rewrite Htg.
  - intros t. rewrite H8. by rewrite !ntype_cons, Ht.
Qed.

(** [m_extref]: [n], which has copied [m_ext], shares the buffer of [o]. *)
Lemma wp_m_extref d s o n ms Q :
  Wd d s (n :: ms) -> o ∈ ms -> is_ext o = true -> is_ext n = false -> m_ext n = m_ext o ->
  (forall s', let n' := set_flags n (Z.lor (m_flags n) (Z.land (m_flags o) (Z.lor M_EXT M_EXTWR))) in
     Wd d s' (n' :: ms) -> keeps s s' ms -> is_ext n' = true -> buf s' n' = buf s o -> Q n' s') ->
  wp (m_extref o n) Q s.
Proof.
  intros HW Ho Hox Hnx He HQ. unfold wp, m_extref.
  destruct (W_ext HW o) as [k Hk]; [by right|done|]. rewrite Hk.
  destruct (W_ring HW _ _ Hk) as (Hr & _ & _).
  assert (m_addr o ∈ cl_ring k) as Hin.
  { rewrite Hr, refs_cons, Hnx. simpl. apply list_elem_of_fmap. exists o. split; [done|].
    by apply list_elem_of_filter. }
  set (n' := set_flags _ _) in *.
  assert (is_ext n' = true) as Hx'.
  { unfold is_ext, n' in *. simpl. flag_simpl. by rewrite Hox, orb_true_r. }
  assert (tagc n' = tagc n) as Htg.
  { unfold tagc, is_pkthdr, n'. simpl. flag_simpl. done. }
  apply HQ; [|split; [intros x Hxin|done]|done|].
  - eapply (W_ref_add d s n n'); try done. by apply ring_insert_perm.
  - unfold buf. destruct (is_ext x); [|done]. simpl.
    destruct (decide (m_ext o = m_ext x)) as [<-|Hne].
    + by rewrite lookup_insert_eq, Hk.
    + by rewrite lookup_insert_ne.
  - unfold buf. rewrite Hx', Hox. simpl. rewrite He. by rewrite lookup_insert_eq, Hk.
Qed.

Lemma nodup_addr_refs d s m ms c : Wd d s (m :: ms) -> m_addr m ∉ refs ms c.
Proof.
  intros HW Hin%elem_refs. pose proof (W_nodup HW) as Hnd. simpl in Hnd.
  by apply list.NoDup_cons in Hnd as [Hn _].
Qed.

(** [m] no longer refers to its buffer. *)
Definition unref (m : mbuf) : mbuf := set_flags m (clr_flag (m_flags m) (Z.lor M_EXT M_EXTWR)).

Lemma unref_facts m : is_ext (unref m) = false /\ tagc (unref m) = tagc m /\
  is_pkthdr (unref m) = is_pkthdr m.
Proof. unfold unref, is_ext, tagc, is_pkthdr. simpl. flag_simpl. done. Qed.

(** The references of the others do not change with one that goes. *)
Lemma W_ref_del d s m ms (cl : gmap nat cluster) :
  Wd d s (m :: ms) -> is_ext m = true ->
  (forall x, x ∈ ms -> is_ext x = true -> is_Some (cl !! m_ext x)) ->
  (forall c k, cl !! c = Some k -> cl_ring k ≡ₚ refs ms c /\ cl_ring k <> [] /\ (c < mb_clfresh s)%nat) ->
  Wd d (with_cl s cl) (unref m :: ms).
Proof.
  intros [H1 H2 H3 H4 H5 H6 H7 H8] Hx Hext Hring. destruct (unref_facts m) as (Hux & Htg & _).
  split; try done; simpl mb_cl; simpl mb_clfresh; simpl mb_ntags; simpl mb_mtypes.
  - intros x [->|Hin]%elem_of_cons; [by apply (H4 m); left|apply H4; by right].
  - intros x [->|Hin]%elem_of_cons Hxx; [congruence|auto].
  - intros c k Hk. rewrite refs_cons, Hux. simpl. auto.
  - rewrite H7. simpl. by rewrite Htg.
  - intros t. rewrite H8. by rewrite !ntype_cons.
Qed.

Lemma wp_m_extfree d s m ms Q :
  Wd d s (m :: ms) -> is_ext m = true ->
  (forall s', Wd d s' (unref m :: ms) -> keeps s s' ms -> Q (unref m) s') ->
  wp (m_extfree m) Q s.
Proof.
  intros HW Hx HQ. destruct (W_ring_of _ _ _ _ HW Hx) as (k & Hk & Hr).
  unfold m_extfree. apply wp_bind. unfold wp at 1, m_extunref. rewrite Hk.
  rewrite (W_referenced _ _ _ _ HW Hx).
  destruct (bool_decide_reflect (refs ms (m_ext m) = [])) as [Hnil|Hn]; cbn [negb].
  - apply wp_bind. unfold wp at 1, ext_free. rewrite Hk. apply wp_ret.
    assert (forall x, x ∈ ms -> is_ext x = true -> m_ext x <> m_ext m) as Hoth.
    { intros x Hin Hxx. eapply alone_buf; [|done..]. by intros _. }
    apply HQ.
    + apply W_ref_del; [done..| |].
      * intros x Hin Hxx. rewrite lookup_delete_ne by (symmetry; auto). apply (W_ext HW); [by right|done].
      * intros c k' Hk'. apply lookup_delete_Some in Hk' as [Hne Hk'].
        destruct (W_ring HW _ _ Hk') as (Hp & ? & ?). rewrite refs_cons, Hx in Hp. simpl in Hp.
        rewrite (proj2 (Nat.eqb_neq _ _)) in Hp by done. done.
    + split; [|done]. intros x Hin. unfold buf. destruct (is_ext x) eqn:Hxx; [|done]. simpl.
      by rewrite lookup_delete_ne by (symmetry; auto).
  - apply wp_bind, wp_ret, wp_ret.
    apply HQ.
    + apply W_ref_del; [done..| |].
      * intros x Hin Hxx. destruct (decide (m_ext m = m_ext x)) as [<-|Hne].
        { rewrite lookup_insert_eq. eauto. }
        rewrite lookup_insert_ne by done. apply (W_ext HW); [by right|done].
      * intros c k'. destruct (decide (m_ext m = c)) as [<-|Hne].
        -- rewrite lookup_insert_eq. intros [= <-]. simpl.
           destruct (W_ring HW _ _ Hk) as (_ & _ & ?).
           assert (filter (fun a => a <> m_addr m) (cl_ring k) ≡ₚ refs ms (m_ext m)) as Hf.
           { rewrite Hr, filter_cons, decide_False by (intros E; by apply E).
             rewrite filter_absent; [done|]. by eapply nodup_addr_refs. }
           split_and!; [done| |done]. intros E. rewrite E in Hf.
           symmetry in Hf. by apply Permutation_nil_r in Hf.
        -- rewrite lookup_insert_ne by done. intros Hk'.
           destruct (W_ring HW _ _ Hk') as (Hp & ? & ?). rewrite refs_cons, Hx in Hp. simpl in Hp.
           rewrite (proj2 (Nat.eqb_neq _ _)) in Hp by done. done.
    + split; [|done]. intros x Hin. unfold buf. destruct (is_ext x) eqn:Hxx; [|done]. simpl.
      destruct (decide (m_ext m = m_ext x)) as [<-|Hne].
      * by rewrite lookup_insert_eq, Hk.
      * by rewrite lookup_insert_ne.
Qed.

(** ** Clusters *)

(** The first pool with clusters of the length, for lengths up to the
    largest. *)
Lemma m_clpool_spec pktlen :
  pktlen <= MAXMCLBYTES -> exists size, m_clpool pktlen = Some size /\ pktlen <= size /\
    size ∈ mclsizes /\ (forall n, n ∈ mclsizes -> pktlen <= n -> size <= n).
Proof.
  intros H. unfold m_clpool, mclsizes, MAXMCLBYTES in *. cbn [clpool_scan].
  repeat match goal with |- context [?a <=? ?b] => destruct (Z.leb_spec a b) end; try lia;
    (eexists; split_and!; [done|lia|set_solver|set_unfold; intros; lia]).
Qed.

(** The state of an mbuf after [MEXTADD]. *)
Definition extended (m m' : mbuf) : Prop :=
  m' = set_ext (set_flags (set_data m 0) (Z.lor (m_flags m) (Z.lor M_EXT M_EXTWR))) (m_ext m').

Lemma W_cl_new d s m ms b mflags :
  Wd d s (m :: ms) -> is_ext m = false -> mflags = M_EXTWR ->
  let c := mb_clfresh s in
  let m' := set_ext (set_flags (set_data m 0) (Z.lor (m_flags m) (Z.lor M_EXT (Z.land mflags M_EXTWR)))) c in
  Wd d (with_clfresh (with_cl s (<[c := Cluster b [m_addr m]]> (mb_cl s))) (S c)) (m' :: ms) /\
  refs ms c = [].
Proof.
  intros HW Hx -> c m'.
  assert (mb_cl s !! c = None) as Hnone.
  { destruct (mb_cl s !! c) as [k|] eqn:E; [|done]. destruct (W_ring HW _ _ E) as (_ & _ & Hlt).
    unfold c in Hlt. lia. }
  assert (refs ms c = []) as Hrefs.
  { destruct (refs ms c) as [|a l] eqn:E; [done|]. exfalso.
    assert (a ∈ refs ms c) as Hin by (rewrite E; left).
    unfold refs in Hin. apply list_elem_of_fmap in Hin as (x & -> & Hin).
    apply list_elem_of_filter in Hin as [[Hxx Hxc] Hin].
    destruct (W_ext HW x) as [k Hk]; [by right|done|]. rewrite Hxc in Hk. congruence. }
  assert (is_ext m' = true) as Hx' by (unfold is_ext, m'; simpl; flag_simpl; done).
  split; [|done].
  destruct HW as [H1 H2 H3 H4 H5 H6 H7 H8]. split; try done;
    simpl mb_cl; simpl mb_clfresh; simpl mb_ntags; simpl mb_mtypes.
  - intros x [->|Hin]%elem_of_cons; [by apply (H4 m); left|apply H4; by right].
  - intros x [->|Hin]%elem_of_cons Hxx; simpl.
    + rewrite lookup_insert_eq. eauto.
    + destruct (decide (c = m_ext x)) as [<-|Hne]; [rewrite lookup_insert_eq; eauto|].
      rewrite lookup_insert_ne by done. apply H5; [by right|done].
  - intros c' k'. rewrite refs_cons, Hx'. simpl.
    destruct (Nat.eqb_spec c c') as [<-|Hne].
    + rewrite lookup_insert_eq. intros [= <-]. simpl. rewrite Hrefs. split_and!; [done|done|lia].
    + rewrite lookup_insert_ne by done. intros Hk'. destruct (H6 _ _ Hk') as (Hp & ? & ?).
      rewrite refs_cons, Hx in Hp. simpl in Hp. split_and!; [done|done|unfold c; lia].
  - rewrite H7. unfold ntags. simpl. unfold tagc, is_pkthdr, m'. simpl. flag_simpl. done.
  - intros t. rewrite H8. by rewrite !ntype_cons.
Qed.

Lemma wp_m_clget d s m ms how pktlen Q :
  Wd d s (m :: ms) -> is_ext m = false -> pktlen <= MAXMCLBYTES ->
  (forall s', refused how s -> Wd d s' (m :: ms) -> scl s s' -> Q m s') ->
  (forall m' s', Wd d s' (m' :: ms) -> keeps s s' ms -> extended m m' -> is_ext m' = true ->
     alone m' ms -> pktlen <= capacity s' m' -> 2048 <= capacity s' m' -> Q m' s') ->
  wp (m_clget m how pktlen) Q s.
Proof.
  intros HW Hx Hlen HN HS. unfold m_clget.
  destruct (m_clpool_spec pktlen Hlen) as (size & -> & Hle & Hin & _).
  assert (2048 <= size) as Hsz.
  { unfold mclsizes in Hin. set_unfold in Hin. lia. }
  apply wp_bind, wp_pool_get; intros e Hscl.
  { apply HN; [done| |by eapply scl_refused]. destruct HW. by split. }
  assert (Wd d (with_env s e) (m :: ms)) as HW' by (destruct HW; by split).
  set (b := resize (Z.to_nat size) 0 (mb_cljunk s (mb_clfresh s))).
  destruct (W_cl_new d (with_env s e) m ms b M_EXTWR HW' Hx eq_refl) as [HWn Hrefs].
  set (s' := with_clfresh (with_cl (with_env s e) (<[mb_clfresh (with_env s e) := Cluster b [m_addr m]]>
               (mb_cl (with_env s e)))) (S (mb_clfresh (with_env s e)))) in *.
  set (m' := set_ext (set_flags (set_data m 0)
        (Z.lor (m_flags m) (Z.lor M_EXT (Z.land M_EXTWR M_EXTWR)))) (mb_clfresh (with_env s e))) in *.
  change (Q m' s').
  assert (is_ext m' = true) as Hx' by (unfold is_ext, m'; simpl; flag_simpl; done).
  assert (capacity s' m' = size) as Hcap.
  { unfold capacity, buf. rewrite Hx'. unfold s', m'. simpl. rewrite lookup_insert_eq. simpl.
    unfold b. rewrite zlen_resize; lia. }
  apply HS; try done; try (rewrite Hcap; done).
  - split; [|done || by destruct Hscl]. intros x Hxin. unfold buf. destruct (is_ext x) eqn:Hxx; [|done]. unfold s'. simpl.
    rewrite lookup_insert_ne; [done|]. intros E.
    destruct (W_ext HW x) as [k Hk]; [by right|done|].
    destruct (W_ring HW _ _ Hk) as (_ & _ & Hlt). lia.
  - intros _. apply Hrefs.
Qed.
