(* ===== verification/MbufFree.v ===== *)
(** * Packet tags and freeing

    Copying a packet header with its tags, zeroing and freeing single mbufs
    and whole chains. *)

From stdpp Require Import base numbers list option gmap.
From Stdlib Require Import ZArith Lia Bool.
From S2P Require Import Prelude Mbuf MbufOps MbufFacts MbufInv MbufExt.

(** ** Tags *)

(** An update that changes the tags of [m] only. *)
Lemma W_retag d s m m' ms :
  Wd d s (m :: ms) -> m_addr m' = m_addr m -> m_type m' = m_type m -> is_ext m' = is_ext m ->
  (is_ext m = true -> m_ext m' = m_ext m) -> zlen (m_dat m') = zlen (m_dat m) ->
  Wd d (with_ntags s (mb_ntags s + (tagc m' - tagc m))) (m' :: ms).
Proof.
  intros [H1 H2 H3 H4 H5 H6 H7 H8] Ha Ht Hie He Hd.
  assert ((m_addr <$> m' :: ms) = (m_addr <$> m :: ms)) as Hids by (simpl; by rewrite Ha).
  split; simpl mb_live; simpl mb_cl; simpl mb_fresh; simpl mb_clfresh; simpl mb_ntags; simpl mb_mtypes.
  - by rewrite Hids.
  - intros a. by rewrite Hids.
  - intros a. rewrite Hids. auto.
  - intros x [->|Hx]%elem_of_cons; [rewrite Hd; apply H4; left|apply H4; by right].
  - intros x [->|Hx]%elem_of_cons; [|apply H5; by right].
    rewrite Hie. intros Hi. rewrite He by done. apply H5; [by left|done].
  - intros c k Hk. destruct (H6 c k Hk) as (Hp & ? & ?). split_and!; [|done..].
    rewrite Hp, !refs_cons, Hie, Ha. destruct (is_ext m); simpl; [|done]. by rewrite He.
  - rewrite H7. simpl. lia.
  - intros t. rewrite H8. by rewrite !ntype_cons, Ht.
Qed.

(** A tag [m_tag_get] can have made. *)
Definition tag_ok (t : m_tag) : Prop :=
  0 <= m_tag_id t < 65536 /\ 0 <= m_tag_len t <= PACKET_TAG_MAXSIZE.

Lemma wp_m_tag_copy s t wait Q :
  tag_ok t ->
  (forall e, refused wait s -> Q None (with_env s e)) ->
  (forall e, scl s (with_env s e) -> Q (Some t) (with_ntags (with_env s e) (mb_ntags s + 1))) ->
  wp (m_tag_copy t wait) Q s.
Proof.
  unfold tag_ok, PACKET_TAG_MAXSIZE. intros [Hi Hl] HN HS. unfold m_tag_copy, m_tag_get.
  rewrite (proj2 (Z.ltb_ge (m_tag_len t) 0)), (proj2 (Z.ltb_ge PACKET_TAG_MAXSIZE (m_tag_len t)))
    by (unfold PACKET_TAG_MAXSIZE; lia).
  apply wp_bind, wp_bind, wp_pool_get; intros e Hscl; [by apply HN|].
  apply wp_bind. unfold wp at 1, add_tags. apply wp_bind, wp_get, wp_ret, wp_ret.
  simpl. rewrite !u16_id by lia. destruct t. by apply HS.
Qed.

Definition tags_or (b : Z) (l : list m_tag) : Z := foldl (fun b t => Z.lor b (m_tag_id t)) b l.

Lemma with_ntags_env s e n : with_ntags (with_env s e) n = with_env (with_ntags s n) e.
Proof. done. Qed.

Lemma tagc_set_tags m l b : is_pkthdr m = true ->
  tagc (set_ph m (ph_set_tags (m_pkthdr m) l b)) = zlen l.
Proof. unfold tagc, is_pkthdr. simpl. by intros ->. Qed.

Lemma W_env_d d s e ms : Wd d (with_env s e) ms <-> Wd d s ms.
Proof. split; intros []; by split. Qed.

(** An mbuf with other tags, counted. *)
Lemma W_set_tags d s m ms l b n :
  Wd d s (m :: ms) -> is_pkthdr m = true -> n = mb_ntags s + (zlen l - zlen (ph_tags (m_pkthdr m))) ->
  Wd d (with_ntags s n) (set_ph m (ph_set_tags (m_pkthdr m) l b) :: ms).
Proof.
  intros HW Hp ->.
  replace (zlen l - zlen (ph_tags (m_pkthdr m))) with
    (tagc (set_ph m (ph_set_tags (m_pkthdr m) l b)) - tagc m).
  - by apply W_retag.
  - rewrite tagc_set_tags by done. unfold tagc. by rewrite Hp.
Qed.

Lemma wp_tag_delete_chain d s m ms Q :
  Wd d s (m :: ms) -> is_pkthdr m = true ->
  (forall s', scl s s' ->
     let m' := set_ph m (ph_set_tags (m_pkthdr m) [] 0) in Wd d s' (m' :: ms) -> Q m' s') ->
  wp (m_tag_delete_chain m) Q s.
Proof.
  intros HW Hp HQ. unfold m_tag_delete_chain. apply wp_bind. unfold wp at 1, add_tags. apply wp_ret.
  apply HQ; [done|]. apply W_set_tags; [done..|]. rewrite zlen_nil. lia.
Qed.

Lemma wp_tag_copy_loop d ms wait l : forall s to Q,
  Wd d s (to :: ms) -> is_pkthdr to = true -> Forall tag_ok l ->
  (forall s', refused wait s -> scl s s' ->
     let to' := set_ph to (ph_set_tags (m_pkthdr to) [] 0) in Wd d s' (to' :: ms) -> Q (ENOBUFS, to') s') ->
  (forall s', scl s s' ->
     let h := m_pkthdr to in
     let to' := set_ph to (ph_set_tags h (ph_tags h ++ l) (tags_or (ph_tagsset h) l)) in
     Wd d s' (to' :: ms) -> Q (0, to') s') ->
  wp (tag_copy_loop to l wait) Q s.
Proof.
  induction l as [|t l IH]; intros s to Q HW Hp Hok HN HS; simpl.
  - apply wp_ret. specialize (HS s (scl_refl s)). simpl in HS. rewrite app_nil_r in HS.
    destruct to as [? ? ? ? ? [] ? ?]. apply HS, HW.
  - apply list.Forall_cons in Hok as [Ht Hok]. apply wp_bind, wp_m_tag_copy; [done|intros e Hw|intros e Hscl].
    + apply wp_bind. eapply wp_tag_delete_chain; [by apply W_env_d|done|].
      intros s' Hcl m' HW'. apply wp_ret. apply HN; [done| |done].
      eapply scl_trans; [by eapply scl_refused|done].
    + set (to1 := set_ph to _). apply IH; [|done|done| |].
      * rewrite with_ntags_env. apply W_env_d.
        apply W_set_tags; [done..|]. rewrite zlen_app, zlen_cons, zlen_nil. lia.
      * intros s' Hw Hcl. apply HN; [by eapply refused_scl|by eapply scl_trans].
      * intros s' Hcl. simpl. rewrite <- app_assoc. apply HS. by eapply scl_trans.
Qed.

(** ** Packet headers *)

(** The flags of a copied packet header. *)
Definition hdr_flags (to from : mbuf) : Z :=
  Z.lor (Z.land (m_flags to) (Z.lor M_EXT M_EXTWR)) (Z.land (m_flags from) M_COPYFLAGS).

Definition dup_hdr (from : mbuf) : pkthdr :=
  ph_set_tags (m_pkthdr from) (ph_tags (m_pkthdr from)) (tags_or 0 (ph_tags (m_pkthdr from))).

(** [to] with the packet header of [from]. *)
Definition dup_to (to from : mbuf) : mbuf :=
  let to' := set_ph (set_flags to (hdr_flags to from)) (dup_hdr from) in
  if is_ext to then to' else set_data to' PKTHDR_SIZE.

Definition dup_failed (to from to' : mbuf) : Prop :=
  m_flags to' = hdr_flags to from /\ m_type to' = m_type to /\ m_addr to' = m_addr to.

Lemma hdr_flags_bits to from :
  has (hdr_flags to from) M_EXT = is_ext to /\
  has (hdr_flags to from) M_EXTWR = has (m_flags to) M_EXTWR /\
  has (hdr_flags to from) M_PKTHDR = is_pkthdr from /\
  has (hdr_flags to from) M_ZEROIZE = has (m_flags from) M_ZEROIZE.
Proof.
  unfold hdr_flags, is_ext, is_pkthdr. change M_COPYFLAGS with 65526.
  flag_simpl. done.
Qed.

Lemma wp_m_dup_pkthdr d s to from ms wait Q :
  Wd d s (to :: ms) -> tagc to = 0 -> is_pkthdr from = true -> Forall tag_ok (ph_tags (m_pkthdr from)) ->
  (forall to' s', refused wait s -> scl s s' -> Wd d s' (to' :: ms) -> dup_failed to from to' ->
     Q (ENOBUFS, to') s') ->
  (forall s', scl s s' -> Wd d s' (dup_to to from :: ms) -> Q (0, dup_to to from) s') ->
  wp (m_dup_pkthdr to from wait) Q s.
Proof.
  intros HW Ht0 Hp Hok HN HS. unfold m_dup_pkthdr. rewrite Hp. cbn [negb].
  change (Z.lor (Z.land (m_flags to) (Z.lor M_EXT M_EXTWR)) (Z.land (m_flags from) M_COPYFLAGS))
    with (hdr_flags to from).
  destruct (hdr_flags_bits to from) as (Hfx & _ & Hfp & _). rewrite Hp in Hfp.
  set (to1 := m_tag_init (set_ph (set_flags to (hdr_flags to from)) (m_pkthdr from))).
  assert (is_pkthdr to1 = true) as Hp1 by done.
  assert (tagc to1 = 0) as Ht1 by (unfold tagc; by rewrite Hp1).
  assert (Wd d s (to1 :: ms)) as HW1.
  { eapply W_core, HW. split; try done. by rewrite Ht0, Ht1. }
  unfold m_tag_copy_chain. apply wp_bind, wp_bind. eapply wp_tag_delete_chain; [done..|].
  intros s1 Hcl1 to2 HW2. apply (wp_tag_copy_loop d ms); [done..| |].
  - intros s2 Hw Hcl2 to' HW'. simpl. apply wp_ret. apply HN; [by eapply refused_scl|by eapply scl_trans|done|done].
  - intros s2 Hcl2 h to' HW'. simpl. apply wp_ret.
    assert ((if is_ext to' then to' else set_data to' PKTHDR_SIZE) = dup_to to from) as ->.
    { unfold dup_to. change (is_ext to') with (has (hdr_flags to from) M_EXT). by rewrite Hfx. }
    apply HS; [by eapply scl_trans|]. eapply W_core, HW'. unfold dup_to.
    by destruct (is_ext to); split.
Qed.

(** The packet header leaves [from]. *)
Lemma M_MOVE_PKTHDR_eq to from :
  M_MOVE_PKTHDR to from =
    (let to' := set_ph (set_flags to (hdr_flags to from)) (m_pkthdr from) in
     (if is_ext to then to' else set_data to' PKTHDR_SIZE),
     m_tag_init (set_flags from (clr_flag (m_flags from) M_PKTHDR))).
Proof.
  unfold M_MOVE_PKTHDR, M_MOVE_HDR. destruct (hdr_flags_bits to from) as (Hfx & _).
  fold (hdr_flags to from). f_equal. unfold is_ext at 1. simpl. by rewrite Hfx.
Qed.

Lemma W_move_hdr d s to from ms :
  Wd d s (to :: from :: ms) -> tagc to = 0 -> is_pkthdr from = true ->
  let '(to', from') := M_MOVE_PKTHDR to from in Wd d s (to' :: from' :: ms).
Proof.
  intros HW Ht Hp. rewrite M_MOVE_PKTHDR_eq.
  destruct (hdr_flags_bits to from) as (Hfx & _ & Hfp & _). rewrite Hp in Hfp.
  set (to' := set_ph (set_flags to (hdr_flags to from)) (m_pkthdr from)).
  set (from' := m_tag_init _).
  assert (tagc from' = 0) as Htf by (unfold tagc; by destruct (is_pkthdr from')).
  assert (tagc to' = tagc from) as Htt.
  { unfold tagc. change (is_pkthdr to') with (has (hdr_flags to from) M_PKTHDR). by rewrite Hfp, Hp. }
  assert (is_ext from' = is_ext from) as Hfe.
  { unfold is_ext, from'. simpl. flag_simpl. done. }
  assert (same_core to' (if is_ext to then to' else set_data to' PKTHDR_SIZE)) as Hsc.
  { destruct (is_ext to); by split. }
  eapply W_core; [exact Hsc|]. clear Hsc.
  set (n := mb_ntags s + (tagc to' - tagc to)).
  assert (Wd d (with_ntags s n) (to' :: from :: ms)) as H1 by (by apply W_retag).
  rewrite Permutation_swap in H1.
  pose proof (W_retag d (with_ntags s n) from from' (to' :: ms) H1 eq_refl eq_refl Hfe ltac:(done) eq_refl) as H2.
  rewrite Permutation_swap in H2.
  replace (with_ntags (with_ntags s n) _) with s in H2; [done|].
  unfold n. destruct s; unfold with_ntags; simpl. f_equal. lia.
Qed.

(** ** Freeing one mbuf *)

Definition zer (m : mbuf) : bool := has (m_flags m) M_ZEROIZE.
Definition zprop (z : bool) (n : list mbuf) : list mbuf :=
  if z then on_head (fun m => set_flags m (Z.lor (m_flags m) M_ZEROIZE)) n else n.

Lemma wp_m_zero d s m ms Q :
  Wd d s (m :: ms) -> M_READONLY s m = false ->
  (forall m' s', Wd d s' (m' :: ms) -> keeps s s' ms -> m' = set_dat m (m_dat m') -> Q m' s') ->
  wp (m_zero m) Q s.
Proof.
  intros HW Hro HQ. unfold wp, m_zero. rewrite Hro.
  set (n := if is_ext m then _ else _).
  change (wp (m' <- mwrite (set_data m (data_start m)) 0 (zeros n) ;; ret (set_data m' (m_data m))) Q s).
  assert (zlen (m_dat m) = MLEN) as Hd by (apply (W_dat HW); left).
  assert (0 <= n /\ data_start m + n <= capacity s m) as [Hn Hc].
  { unfold n, data_start, capacity, buf. destruct (is_ext m); [split; [apply zlen_nonneg|lia]|].
    rewrite Hd. unfold MHLEN, MLEN, PKTHDR_SIZE, M_HDR_SIZE, MSIZE. destruct (is_pkthdr m); lia. }
  apply wp_bind. eapply (wp_mwrite d s _ ms).
  - eapply W_core, HW. by split.
  - by eapply readonly_alone in HW.
  - simpl. unfold data_start. repeat case_match; lia || done.
  - rewrite zeros_len by done. change (capacity s (set_data m (data_start m))) with (capacity s m).
    simpl. lia.
  - intros m' s' HW' Hk Hm' _. apply wp_ret. apply HQ; [|done|].
    + eapply W_core, HW'. by split.
    + rewrite Hm'. by destruct m.
Qed.

Lemma W_put s m ms d :
  Wd d s (m :: ms) -> (forall t, d t = if t =? m_type m then -1 else 0) ->
  is_ext m = false -> tagc m = 0 ->
  W (with_live s (mb_live s ∖ {[m_addr m]}) (mb_fresh s)) ms.
Proof.
  intros [H1 H2 H3 H4 H5 H6 H7 H8] Hd Hx Ht. simpl in H1. apply list.NoDup_cons in H1 as [Hnin Hnd].
  split; simpl; try done.
  - intros a. rewrite elem_of_difference, elem_of_singleton, H2. simpl. rewrite elem_of_cons.
    split; [naive_solver|]. intros Hin. split; [by right|]. intros ->. done.
  - intros a Hin. apply H3. by right.
  - intros x Hin. apply H4. by right.
  - intros x Hin. apply H5. by right.
  - intros c k Hk. specialize (H6 c k Hk). rewrite refs_cons, Hx in H6. done.
  - rewrite H7. simpl. lia.
  - intros t. rewrite H8, ntype_cons, Hd. rewrite (Z.eqb_sym t (m_type m)).
    f_equal. destruct (m_type m =? t); lia.
Qed.

(** [m_free]: the mbuf and its tags are given back, and its external buffer if
    it was the last to refer to it; [M_ZEROIZE] moves on to the next mbuf. *)
Lemma wp_m_free s m n fr Q :
  W s (m :: n ++ fr) -> (zer m = true -> M_READONLY s m = false) ->
  (forall s', W s' (n ++ fr) -> keeps s s' (n ++ fr) -> Q (zprop (zer m) n) s') ->
  wp (m_free (m :: n)) Q s.
Proof.
  intros HW Hz HQ. unfold m_free.
  set (dl := fun t => if t =? m_type m then -1 else 0).
  set (s1 := with_mtypes s (fun u => if u =? m_type m then u16 (mb_mtypes s (m_type m) + -1) else mb_mtypes s u)).
  apply wp_bind. unfold wp at 1, count_type. fold s1.
  assert (Wd dl s1 (m :: n ++ fr)) as HW1.
  { destruct HW as [H1 H2 H3 H4 H5 H6 H7 H8]. split; try done. intros t. unfold s1, dl. simpl.
    destruct (Z.eqb_spec t (m_type m)) as [->|]; rewrite H8; [|done].
    unfold u16. rewrite Zplus_mod_idemp_l. f_equal. lia. }
  assert (forall m' s', Wd dl s' (m' :: n ++ fr) -> keeps s s' (n ++ fr) ->
    m_type m' = m_type m -> is_ext m' = is_ext m ->
    wp (m2 <- (if is_pkthdr m' then m_tag_delete_chain m' else ret m') ;;
        m3 <- (if is_ext m2 then m_extfree m2 else ret m2) ;;
        pool_put m3 ;;; ret (zprop (zer m) n)) Q s') as Hrest.
  { intros m' s' HW' Hk Ht Hx.
    assert (forall m3 s3, Wd dl s3 (m3 :: n ++ fr) -> keeps s s3 (n ++ fr) -> m_type m3 = m_type m ->
      tagc m3 = 0 -> is_ext m3 = false -> wp (pool_put m3 ;;; ret (zprop (zer m) n)) Q s3) as Hput.
    { intros m3 s3 HW3 Hk3 Ht3 Htg Hx3. apply wp_bind. unfold wp at 1, pool_put.
      rewrite decide_True by (apply (W_live HW3); left). apply wp_ret. apply HQ.
      - eapply W_put; [done|by rewrite Ht3|done|done].
      - eapply keeps_trans; [done|]. by apply keeps_cl. }
    assert (forall m2 s2, Wd dl s2 (m2 :: n ++ fr) -> keeps s s2 (n ++ fr) -> m_type m2 = m_type m ->
      tagc m2 = 0 ->
      wp (m3 <- (if is_ext m2 then m_extfree m2 else ret m2) ;;
          pool_put m3 ;;; ret (zprop (zer m) n)) Q s2) as Hext.
    { intros m2 s2 HW2 Hk2 Ht2 Htg. apply wp_bind. destruct (is_ext m2) eqn:Hx2.
      - eapply wp_m_extfree; [done..|]. intros s3 HW3 Hk3.
        destruct (unref_facts m2) as (? & ? & _).
        apply Hput; [done|by eapply keeps_trans|done|congruence|done].
      - apply wp_ret. by apply Hput. }
    apply wp_bind. destruct (is_pkthdr m') eqn:Hp.
    - eapply wp_tag_delete_chain; [done..|]. intros s2 Hcl m2 HW2. apply Hext; [done| |done|].
      + eapply keeps_trans; [done|]. by apply keeps_cl.
      + unfold m2. by rewrite tagc_set_tags.
    - apply wp_ret. apply Hext; try done. unfold tagc. by rewrite Hp. }
  apply wp_bind. unfold zprop, zer in *. destruct (has (m_flags m) M_ZEROIZE) eqn:Ez.
  - apply wp_bind. eapply wp_m_zero; [done| |].
    { by apply Hz. }
    intros m' s' HW' Hk Hm'. apply wp_ret. apply (Hrest m' s'); [done|exact Hk|..]; by rewrite Hm'.
  - apply wp_ret. by apply Hrest.
Qed.

(** ** Freeing a chain *)

(** [M_ZEROIZE] travels down the chain; no mbuf it reaches may be
    read-only. *)
Fixpoint zok (s : mst) (z : bool) (c : list mbuf) : Prop :=
  match c with
  | [] => True
  | m :: r => let z' := z || zer m in (z' = true -> M_READONLY s m = false) /\ zok s z' r
  end.

(** Nothing to zero. *)
Definition nozero (c : list mbuf) : Prop := Forall (fun m => zer m = false) c.

Lemma nozero_zok s c : nozero c -> zok s false c.
Proof. induction 1 as [|m r Hm _ IH]; [done|]. simpl. by rewrite Hm. Qed.

Lemma zprop_zer m : zer (set_flags m (Z.lor (m_flags m) M_ZEROIZE)) = true.
Proof. unfold zer. simpl. flag_simpl. done. Qed.

Lemma zok_zprop s z c : zok s false (zprop z c) <-> zok s z c.
Proof.
  destruct z; [|done]. destruct c as [|m r]; [done|]. cbn [zprop on_head zok].
  rewrite zprop_zer. cbn [orb]. unfold M_READONLY, is_ext, MCLISREFERENCED, ring. simpl.
  flag_simpl. done.
Qed.

Lemma zprop_core z l : Forall2 same_core l (zprop z l).
Proof.
  assert (forall l, Forall2 same_core l l) as Hr by (induction l0; by constructor).
  destruct z; [|apply Hr]. destruct l as [|m r]; [by constructor|]. simpl. constructor; [|apply Hr].
  split; try done; unfold is_ext, tagc, is_pkthdr; simpl; flag_simpl; done.
Qed.

Lemma W_core2 d s l l' fr : Forall2 same_core l l' -> Wd d s (l ++ fr) -> Wd d s (l' ++ fr).
Proof.
  intros H. revert fr. induction H as [|m m' l l' Hm _ IH]; intros fr; [done|]. simpl. intros HW.
  eapply W_core; [done|]. rewrite Permutation_middle in HW. apply IH in HW.
  by rewrite <- Permutation_middle in HW.
Qed.

(** With fewer references around, fewer mbufs are read-only. *)
Lemma zok_mono_in s s' z c : forall fr fr',
  zok s z c -> W s (c ++ fr) -> W s' (c ++ fr') ->
  (forall m, m ∈ c -> is_ext m = true -> length (refs fr' (m_ext m)) <= length (refs fr (m_ext m)))%nat ->
  zok s' z c.
Proof.
  revert z. induction c as [|m r IH]; intros z fr fr'; [done|]. simpl. intros [Hm Hr] HW HW' Hle. split.
  - intros Hz. specialize (Hm Hz). eapply (readonly_sub _ s s' m (r ++ fr)); [done|done| |done].
    intros Hx. rewrite !refs_app, !length_app. specialize (Hle m ltac:(left) Hx). lia.
  - apply (IH _ (m :: fr) (m :: fr')); [done|..].
    + by rewrite <- (Permutation_middle r fr m).
    + by rewrite <- (Permutation_middle r fr' m).
    + intros x Hx Hxx. rewrite !refs_cons. specialize (Hle x ltac:(by right) Hxx).
      destruct (_ && _); simpl; lia.
Qed.

Lemma zok_mono s s' z c fr fr' :
  zok s z c -> W s (c ++ fr) -> W s' (c ++ fr') ->
  (forall k, length (refs fr' k) <= length (refs fr k))%nat -> zok s' z c.
Proof. intros Hz HW HW' Hle. by apply (zok_mono_in s s' z c fr fr'). Qed.

(** A new mbuf that shares nothing with the chain. *)
Lemma zok_new s s' z c fr m :
  zok s z c -> W s (c ++ fr) -> W s' (m :: c ++ fr) -> alone m (c ++ fr) -> zok s' z c.
Proof.
  intros Hz HW HW' Ha. apply (zok_mono_in s s' z c fr (m :: fr)); [done|done| |].
  - by rewrite <- Permutation_middle.
  - intros x Hx Hxx. rewrite refs_cons. destruct (is_ext m) eqn:Hm; simpl; [|lia].
    destruct (Nat.eqb_spec (m_ext m) (m_ext x)) as [E|]; [|lia].
    exfalso. eapply (alone_buf m (c ++ fr) x); [done|done|set_solver|done|done].
Qed.

(** Dropping the mark on the way. *)
Lemma zok_weaken s z c : zok s z c -> zok s false c.
Proof.
  revert z. assert (forall c z z', (z' = true -> z = true) -> zok s z c -> zok s z' c) as H; [|intros z; by apply H].
  induction c0 as [|m r IH]; intros z z' Hzz; [done|]. simpl. intros [Hm Hr]. split.
  - intros E. apply Hm. destruct z', z; try done. by specialize (Hzz eq_refl).
  - eapply IH, Hr. destruct z', z; simpl; try done. by specialize (Hzz eq_refl).
Qed.

Lemma wp_m_freem c : forall s fr Q,
  W s (c ++ fr) -> zok s false c ->
  (forall s', W s' fr -> keeps s s' fr -> Q tt s') -> wp (m_freem c) Q s.
Proof.
  unfold m_freem. remember (length c) as k eqn:Hk. revert c Hk.
  induction k as [|k IH]; intros [|m n] Hk s fr Q HW Hz HQ; simplify_eq/=.
  { by apply HQ. }
  destruct Hz as [Hm Hr].
  apply wp_bind, (wp_m_free s m n fr); [done..|]. intros s' HW' Hk'.
  apply IH with fr.
  - unfold zprop. destruct (zer m); [|done]. by destruct n.
  - eapply W_core2; [apply zprop_core|done].
  - apply zok_zprop. apply (zok_mono s s' _ n (m :: fr) fr); [done| |done|].
    + by rewrite <- Permutation_middle.
    + intros k'. rewrite refs_cons. destruct (_ && _); simpl; lia.
  - intros s2 HW2 Hk2. apply HQ; [done|]. eapply keeps_trans; [|done].
    eapply keeps_sub, Hk'. set_solver.
Qed.
