(* ===== verification/MbufChain.v ===== *)
(** * Chains: finding, copying out, walking and trimming

    [good s m]: the data of [m] lies inside its data area.  A chain of good
    mbufs holds the byte string [bytes s c]; the routines below are the
    list operations on it. *)

From stdpp Require Import base numbers list option gmap.
From Stdlib Require Import ZArith Lia Bool.
From S2P Require Import Prelude Mbuf MbufOps MbufFacts MbufInv MbufExt MbufFree.

(** ** Good mbufs and the bytes of a chain *)

Record good (s : mst) (m : mbuf) : Prop := {
  good_len : 0 <= m_len m;
  good_start : data_start m <= m_data m;
  good_end : m_data m + m_len m <= capacity s m }.

(** The total of the packet header is the length of the chain. *)
Definition hdr_ok (c : list mbuf) : Prop :=
  match c with
  | [] => True
  | m :: _ => is_pkthdr m = true -> ph_len (m_pkthdr m) = chain_len c
  end.

(** The chain [c], in a system whose other mbufs are [fr]. *)
Record owns (s : mst) (c fr : list mbuf) : Prop := {
  owns_W : W s (c ++ fr);
  owns_good : Forall (good s) c }.

Lemma data_start_nonneg m : 0 <= data_start m.
Proof. unfold data_start, PKTHDR_SIZE. repeat case_match; lia. Qed.

Lemma good_data s m : good s m -> 0 <= m_data m.
Proof. intros []. pose proof (data_start_nonneg m). lia. Qed.

Lemma zlen_mdata s m : good s m -> zlen (mdata s m) = m_len m.
Proof.
  intros Hg. pose proof (good_data _ _ Hg). destruct Hg. unfold mdata. by apply zlen_slice.
Qed.

Lemma mdata_buf s s' m : buf s' m = buf s m -> mdata s' m = mdata s m.
Proof. unfold mdata. by intros ->. Qed.

Lemma good_buf s s' m : buf s' m = buf s m -> good s m -> good s' m.
Proof. intros H []. split; [done|done|]. unfold capacity. by rewrite H. Qed.

Lemma good_keeps s s' ms : keeps s s' ms -> Forall (good s) ms -> Forall (good s') ms.
Proof.
  rewrite !list.Forall_forall. intros [Hk _] H m Hm. apply (good_buf s); auto.
Qed.

Lemma bytes_cons s m c : bytes s (m :: c) = mdata s m ++ bytes s c.
Proof. done. Qed.
Lemma chain_bytes_app s c1 c2 : bytes s (c1 ++ c2) = bytes s c1 ++ bytes s c2.
Proof. unfold bytes. by rewrite fmap_app, concat_app. Qed.
Lemma bytes_keeps s s' c : keeps s s' c -> bytes s' c = bytes s c.
Proof.
  induction c as [|m c IH]; [done|]. intros [Hm Hc]%keeps_cons.
  rewrite !bytes_cons, IH by done. by rewrite (mdata_buf s s').
Qed.

Lemma chain_len_app c1 c2 : chain_len (c1 ++ c2) = chain_len c1 + chain_len c2.
Proof. induction c1 as [|m c1 IH]; simpl; lia. Qed.

Lemma zlen_bytes s c : Forall (good s) c -> zlen (bytes s c) = chain_len c.
Proof.
  induction 1 as [|m c Hm _ IH]; [done|]. rewrite bytes_cons, zlen_app, zlen_mdata by done. simpl. lia.
Qed.

Lemma chain_len_nonneg s c : Forall (good s) c -> 0 <= chain_len c.
Proof. induction 1 as [|m c [] _ IH]; simpl; lia. Qed.

Lemma owns_keeps s s' c fr fr' :
  keeps s s' c -> W s' (c ++ fr') -> owns s c fr -> owns s' c fr'.
Proof. intros Hk HW [_ Hg]. split; [done|]. by eapply good_keeps. Qed.

(** ** Finding a position *)

(** A position in the chain: the mbuf, what is before and after it, and the
    offset in it, which is its end only in the last mbuf. *)
Lemma wp_getptr_loop s c : forall loc i Q,
  c <> [] -> Forall (good s) c -> 0 <= loc ->
  (chain_len c < loc -> Q None s) ->
  (forall pre m r off, c = pre ++ m :: r -> loc = chain_len pre + off -> 0 <= off <= m_len m ->
     (off < m_len m \/ r = []) -> Q (Some ((i + length pre)%nat, off)) s) ->
  wp (getptr_loop c loc i) Q s.
Proof.
  induction c as [|m c IH]; intros loc i Q Hne Hg Hl HN HS; [done|]. simpl.
  apply list.Forall_cons in Hg as [Hm Hg]. pose proof (good_len _ _ Hm).
  destruct (Z.ltb_spec loc (m_len m)).
  - apply wp_ret. rewrite <- (Nat.add_0_r i). apply (HS [] m c loc); simpl; auto with lia.
  - destruct c as [|m' c].
    + destruct (Z.eqb_spec (loc - m_len m) 0).
      * apply wp_ret. rewrite <- (Nat.add_0_r i). apply (HS [] m [] (m_len m)); simpl; auto with lia.
      * apply wp_ret. apply HN. simpl. lia.
    + apply (IH (loc - m_len m) (S i)); [done|done|lia| |].
      * intros Hlt. apply HN. simpl in *. lia.
      * intros pre x r off Hc Hloc Hoff Hend.
        replace (S i + length pre)%nat with (i + length (m :: pre))%nat by (simpl; lia).
        apply (HS (m :: pre) x r off); [by rewrite Hc|simpl; lia|done|done].
Qed.

Lemma wp_m_getptr s c loc Q :
  c <> [] -> Forall (good s) c -> 0 <= loc ->
  (chain_len c < loc -> Q None s) ->
  (forall pre m r off, c = pre ++ m :: r -> loc = chain_len pre + off -> 0 <= off <= m_len m ->
     (off < m_len m \/ r = []) -> Q (Some (length pre, off)) s) ->
  wp (m_getptr c loc) Q s.
Proof.
  intros Hne Hg Hl HN HS. unfold m_getptr. rewrite (proj2 (Z.ltb_ge _ _)) by done.
  by apply wp_getptr_loop.
Qed.

Lemma seek_len_spec s c : forall pre len,
  Forall (good s) c -> 0 <= len ->
  match seek_len pre c len with
  | None => chain_len c < len \/ c = []
  | Some (pre', m, r, len') => exists q, pre' = pre ++ q /\ c = q ++ m :: r /\
      len = chain_len q + len' /\ 0 <= len' <= m_len m /\ (0 < len -> 0 < len')
  end.
Proof.
  induction c as [|m c IH]; intros pre len Hg Hl; simpl; [by right|].
  apply list.Forall_cons in Hg as [Hm Hg]. pose proof (good_len _ _ Hm).
  destruct (Z.ltb_spec (m_len m) len) as [Hlt|Hge].
  - specialize (IH (pre ++ [m]) (len - m_len m) Hg ltac:(lia)).
    destruct (seek_len _ c _) as [[[[pre' x] r] len']|].
    + destruct IH as (q & -> & -> & ? & ? & ?). exists (m :: q). rewrite <- app_assoc. simpl.
      split_and!; try done; lia.
    + destruct IH as [?| ->]; left; simpl; lia.
  - exists []. rewrite app_nil_r. simpl. split_and!; auto; lia.
Qed.

(** ** Copying out *)

Lemma wp_copydata_loop s c : forall off len Q,
  Forall (good s) c -> 0 <= off -> 0 <= len -> off + len <= chain_len c ->
  match c with [] => True | m :: _ => off <= m_len m end ->
  Q (slice off len (bytes s c)) s -> wp (copydata_loop c off len) Q s.
Proof.
  induction c as [|m c IH]; intros off len Q Hg Ho Hl Hlen Hm HQ.
  - simpl in *. destruct (Z.leb_spec len 0); [|lia]. apply wp_ret.
    replace len with 0 in HQ by lia. by rewrite slice_0 in HQ.
  - simpl. destruct (Z.leb_spec len 0).
    { apply wp_ret. replace len with 0 in HQ by lia. by rewrite slice_0 in HQ. }
    apply list.Forall_cons in Hg as [Hgm Hg]. pose proof (good_data _ _ Hgm) as Hd.
    pose proof Hgm as [? ? ?]. pose proof (chain_len_nonneg _ _ Hg).
    set (count := Z.min (m_len m - off) len).
    apply wp_bind, wp_mread; [lia..|].
    assert (slice (m_data m + off) count (buf s m) = slice off count (mdata s m)) as ->.
    { unfold mdata. rewrite slice_slice by lia. done. }
    pose proof (zlen_mdata _ _ Hgm) as Hml.
    apply wp_bind, IH; [done|lia|lia|simpl in Hlen; lia| |].
    { destruct c as [|m' c]; [done|]. apply list.Forall_cons in Hg as [[] _]. lia. }
    apply wp_ret. rewrite bytes_cons in HQ.
    destruct (Z.le_gt_cases (off + len) (m_len m)).
    + replace count with len by lia. rewrite Z.sub_diag, slice_0, app_nil_r.
      by rewrite slice_app_l in HQ by lia.
    + replace len with (count + (len - count)) in HQ by lia.
      rewrite slice_split, slice_app_l, slice_app_r in HQ by lia.
      by replace (off + count - zlen (mdata s m)) with 0 in HQ by lia.
Qed.

(** [m_copydata] returns the bytes asked for. *)
Lemma wp_m_copydata s c off len Q :
  c <> [] -> Forall (good s) c -> 0 <= off -> 0 <= len -> off + len <= chain_len c ->
  Q (slice off len (bytes s c)) s -> wp (m_copydata c off len) Q s.
Proof.
  intros Hne Hg Ho Hl Hlen HQ. unfold m_copydata.
  rewrite (proj2 (Z.ltb_ge off 0)), (proj2 (Z.ltb_ge len 0)) by done.
  apply wp_bind, wp_m_getptr; [done..|lia|].
  intros pre m r o -> -> Hoff Hend. rewrite drop_app_length.
  apply list.Forall_app in Hg as [Hgp Hg]. rewrite chain_len_app in Hlen.
  pose proof (zlen_bytes s pre Hgp) as Hlp. pose proof (chain_len_nonneg s pre Hgp).
  apply wp_copydata_loop; [done|lia|done|simpl in *; lia|lia|].
  rewrite chain_bytes_app, slice_app_r in HQ by lia.
  by replace (chain_len pre + o - zlen (bytes s pre)) with o in HQ by lia.
Qed.

Lemma copydata_loop_short s c : forall off len,
  Forall (good s) c -> 0 <= off -> chain_len c < off + len -> 0 < len ->
  match c with [] => off = 0 | m :: _ => off <= m_len m end ->
  copydata_loop c off len s = Panics.
Proof.
  induction c as [|m c IH]; intros off len Hg Ho Hlen Hl Hm; simpl.
  - by rewrite (proj2 (Z.leb_gt _ _)).
  - rewrite (proj2 (Z.leb_gt _ _)) by done.
    apply list.Forall_cons in Hg as [Hgm Hg]. pose proof (good_data _ _ Hgm) as Hd.
    pose proof Hgm as [? ? ?]. pose proof (chain_len_nonneg _ _ Hg). simpl in Hlen.
    set (count := Z.min (m_len m - off) len).
    assert (wp (mread m off count) (fun _ s' => s' = s) s) as Hr by (apply wp_mread; lia || done).
    apply wp_run in Hr as (bs & s' & Hr & ->). unfold bind at 1. rewrite Hr.
    unfold bind. rewrite IH; [done|done|lia|lia|lia|].
    destruct c as [|m' c]; [done|]. apply list.Forall_cons in Hg as [[] _]. lia.
Qed.

(** A request for more than the chain holds panics. *)
Lemma m_copydata_short s c off len :
  c <> [] -> Forall (good s) c -> 0 <= off -> 0 <= len -> chain_len c < off + len ->
  m_copydata c off len s = Panics.
Proof.
  intros Hne Hg Ho Hl Hlen. unfold m_copydata.
  rewrite (proj2 (Z.ltb_ge off 0)), (proj2 (Z.ltb_ge len 0)) by done.
  assert (wp (m_getptr c off) (fun r s' => s' = s /\
    match r with None => True
    | Some (i, o) => exists pre m r, c = pre ++ m :: r /\ i = length pre /\ off = chain_len pre + o /\
                       0 <= o <= m_len m /\ (o < m_len m \/ r = []) end) s) as Hp.
  { apply wp_m_getptr; [done..| |]; [done|]. intros pre m r o -> -> ? ?. split; [done|].
    by exists pre, m, r. }
  apply wp_run in Hp as (r & s' & Hr & -> & Hp). unfold bind. rewrite Hr.
  destruct r as [[i o]|]; [|done]. destruct Hp as (pre & m & r & -> & -> & -> & Ho' & Hend).
  rewrite drop_app_length. apply list.Forall_app in Hg as [Hgp Hg]. rewrite chain_len_app in Hlen.
  simpl in Hlen. apply copydata_loop_short; [done|lia|simpl; lia| |lia].
  apply list.Forall_cons in Hg as [Hm Hg]. pose proof (chain_len_nonneg _ _ Hg).
  destruct Hend as [?| ->]; simpl in *; lia.
Qed.

(** ** Walking *)

Section Apply.
Context {St : Type} (f : St -> list Z -> Z * St).

(** The calls of [f] on the pieces, up to the first that fails. *)
Fixpoint run_segs (st : St) (segs : list (list Z)) : Z * St :=
  match segs with
  | [] => (0, st)
  | b :: r => let '(rval, st') := f st b in
              if negb (rval =? 0) then (rval, st') else run_segs st' r
  end.

Lemma apply_loop_segs s c : forall off len st,
  Forall (good s) c -> 0 <= off -> 0 <= len -> off + len <= chain_len c ->
  match c with [] => True | m :: _ => off <= m_len m end ->
  exists segs, concat segs = slice off len (bytes s c) /\
    apply_loop f c off len st s = Ok (run_segs st segs) s.
Proof.
  induction c as [|m c IH]; intros off len st Hg Ho Hl Hlen Hm.
  - simpl in *. rewrite (proj2 (Z.leb_le _ _)) by lia. exists []. split; [|done].
    by replace len with 0 by lia.
  - simpl. destruct (Z.leb_spec len 0).
    { exists []. split; [|done]. by replace len with 0 by lia. }
    apply list.Forall_cons in Hg as [Hgm Hg]. pose proof (good_data _ _ Hgm) as Hd.
    pose proof Hgm as [? ? ?]. pose proof (chain_len_nonneg _ _ Hg). set (count := Z.min (m_len m - off) len). simpl in Hlen.
    assert (wp (mread m off count) (fun b s' => b = slice off count (mdata s m) /\ s' = s) s) as Hr.
    { apply wp_mread; [lia..|]. split; [|done]. unfold mdata. by rewrite slice_slice by lia. }
    apply wp_run in Hr as (bs & s' & Hr & -> & ->). unfold bind. rewrite Hr.
    pose proof (zlen_mdata _ _ Hgm) as Hml.
    assert (slice off len (bytes s (m :: c)) =
      slice off count (mdata s m) ++ slice 0 (len - count) (bytes s c)) as Hsl.
    { rewrite bytes_cons. destruct (Z.le_gt_cases (off + len) (m_len m)).
      - replace count with len by lia. rewrite Z.sub_diag, slice_0, app_nil_r.
        by rewrite slice_app_l by lia.
      - replace len with (count + (len - count)) at 1 by lia.
        rewrite slice_split, slice_app_l, slice_app_r by lia.
        by replace (off + count - zlen (mdata s m)) with 0 by lia. }
    destruct (f st (slice off count (mdata s m))) as [rval st'] eqn:Hf.
    destruct (IH 0 (len - count) st' Hg ltac:(lia) ltac:(lia) ltac:(lia)) as (segs & Hs & Ha).
    { destruct c as [|m' c]; [done|]. apply list.Forall_cons in Hg as [[] _]. lia. }
    exists (slice off count (mdata s m) :: segs). simpl. rewrite Hs, Hsl, Hf. split; [done|].
    destruct (rval =? 0); [done|done].
Qed.

Lemma apply_skip_spec s c : forall off Q,
  Forall (good s) c -> 0 <= off -> off <= chain_len c ->
  (forall pre c' off', c = pre ++ c' -> off = chain_len pre + off' -> 0 <= off' ->
     match c' with [] => off' = 0 | m :: _ => off' <= m_len m end -> Q (c', off') s) ->
  wp (apply_skip c off) Q s.
Proof.
  induction c as [|m c IH]; intros off Q Hg Ho Hlen HQ; simpl in *.
  - rewrite (proj2 (Z.leb_le _ _)) by lia. apply wp_ret. apply (HQ [] [] off); simpl; auto; lia.
  - apply list.Forall_cons in Hg as [[] Hg]. destruct (Z.leb_spec off 0).
    { apply wp_ret. apply (HQ [] (m :: c) off); simpl; auto; lia. }
    destruct (Z.ltb_spec off (m_len m)).
    { apply wp_ret. apply (HQ [] (m :: c) off); simpl; auto; lia. }
    apply IH; [done|lia|lia|]. intros pre c' off' -> Hoff ? Hm.
    apply (HQ (m :: pre) c' off'); [done|simpl; lia|done|done].
Qed.

End Apply.
