(* ===== verification/MbufRead.v ===== *)
(** * Reading chains: m_copydata, m_apply *)

From stdpp Require Import base numbers list option gmap.
From Stdlib Require Import ZArith Lia Bool.
From S2P Require Import Prelude Mbuf MbufOps MbufFacts MbufInv MbufChain.

(** C34: [m_copydata] returns exactly the [len] bytes from offset [off] on,
    however they are spread over mbufs, and changes nothing; it panics when
    the chain does not hold them. *)
Theorem m_copydata_correct s c off len :
  c <> [] -> Forall (good s) c -> 0 <= off -> 0 <= len ->
  m_copydata c off len s =
    if off + len <=? chain_len c then Ok (slice off len (bytes s c)) s else Panics.
Proof.
  intros Hne Hg Ho Hl. destruct (Z.leb_spec (off + len) (chain_len c)); [|by apply m_copydata_short].
  assert (wp (m_copydata c off len) (fun b s' => b = slice off len (bytes s c) /\ s' = s) s) as H'
    by (by apply wp_m_copydata).
  by apply wp_run in H' as (b & s' & -> & -> & ->).
Qed.

(** [m_apply] calls the function on consecutive pieces that make up
    exactly the [len] bytes from offset [off] on, threads its state through
    and stops at the first call that does not return 0, whose value it
    returns. *)
Theorem m_apply_correct {St} (f : St -> list Z -> Z * St) s c off len st :
  Forall (good s) c -> 0 <= off -> 0 <= len -> off + len <= chain_len c ->
  exists segs, concat segs = slice off len (bytes s c) /\
    m_apply f c off len st s = Ok (run_segs f st segs) s.
Proof.
  intros Hg Ho Hl Hlen. unfold m_apply. rewrite (proj2 (Z.ltb_ge len 0)), (proj2 (Z.ltb_ge off 0)) by done.
  assert (wp (apply_skip c off) (fun p s' => s' = s /\ exists pre, c = pre ++ p.1 /\ off = chain_len pre + p.2 /\
    0 <= p.2 /\ match p.1 with [] => p.2 = 0 | m :: _ => p.2 <= m_len m end) s) as Hs.
  { apply apply_skip_spec; [done|done|lia|]. intros pre c' off' ????. split; [done|]. by exists pre. }
  apply wp_run in Hs as ([c' o] & s' & E & -> & pre & -> & -> & H0 & Hm). simpl in *.
  apply list.Forall_app in Hg as [Hgp Hg]. rewrite chain_len_app in Hlen.
  destruct (apply_loop_segs f s c' o len st Hg H0 Hl ltac:(lia)) as (segs & Hc & Ha); [by destruct c'|].
  exists segs. split; [|unfold bind; by rewrite E].
  rewrite Hc, chain_bytes_app, <- (zlen_bytes s pre), slice_app_r by (done || lia). f_equal. lia.
Qed.
