(* ===== verification/MbufTrim.v ===== *)
(** * Trimming, joining and making room: m_adj, m_cat, m_prepend *)

From stdpp Require Import base numbers list option gmap.
From Stdlib Require Import ZArith Lia Bool.
From S2P Require Import Prelude Mbuf MbufOps MbufFacts MbufInv MbufExt MbufFree MbufChain.

(** ** Trimming *)

(** Only the length and the start of the data differ. *)
Definition trimmed (m m' : mbuf) : Prop := m' = set_data (set_len m (m_len m')) (m_data m').

Lemma trimmed_core m m' : trimmed m m' -> same_core m m'.
Proof. intros ->. by split. Qed.
Lemma trimmed_refl m : trimmed m m.
Proof. by destruct m. Qed.
Lemma trimmed_refl_list c : Forall2 trimmed c c.
Proof. induction c; constructor; [apply trimmed_refl|done]. Qed.
Lemma trimmed_buf s m m' : trimmed m m' -> buf s m' = buf s m.
Proof. by intros ->. Qed.

Lemma owns_trimmed s c c' fr :
  Forall2 trimmed c c' -> Forall (good s) c' -> owns s c fr -> owns s c' fr.
Proof.
  intros Ht Hg [HW _]. split; [|done]. eapply W_core2, HW.
  eapply Forall2_impl; [done|]. apply trimmed_core.
Qed.

Lemma zdrop_slice a off n {A} (l : list A) :
  0 <= a -> 0 <= off -> 0 <= n -> zdrop a (slice off (a + n) l) = slice (off + a) n l.
Proof.
  intros. unfold slice. rewrite zdrop_ztake by lia. by rewrite zdrop_zdrop.
Qed.

Lemma ztake_slice a off n {A} (l : list A) : 0 <= a <= n -> ztake a (slice off n l) = slice off a l.
Proof. intros. unfold slice. by rewrite ztake_ztake. Qed.

Lemma good_set_len s m n : good s m -> 0 <= n <= m_len m -> good s (set_len m n).
Proof. intros [] ?. split; [simpl; lia|done|]. change (capacity s (set_len m n)) with (capacity s m). simpl. lia. Qed.

Lemma mdata_set_len s m n : 0 <= n <= m_len m -> mdata s (set_len m n) = ztake n (mdata s m).
Proof. intros. unfold mdata at 2. by rewrite ztake_slice. Qed.

(** Advancing the start of the data. *)
Lemma good_advance s m n :
  good s m -> 0 <= n <= m_len m -> good s (set_data (set_len m (m_len m - n)) (m_data m + n)).
Proof.
  intros [] ?. split; [simpl; lia|change (data_start (set_data _ _)) with (data_start m); simpl; lia|].
  change (capacity s (set_data _ _)) with (capacity s m). simpl. lia.
Qed.

Lemma mdata_advance s m n :
  good s m -> 0 <= n <= m_len m ->
  mdata s (set_data (set_len m (m_len m - n)) (m_data m + n)) = zdrop n (mdata s m).
Proof.
  intros Hg ?. pose proof (good_data _ _ Hg). unfold mdata.
  change (buf s (set_data _ _)) with (buf s m). simpl.
  replace (m_len m) with (n + (m_len m - n)) at 2 by lia. by rewrite zdrop_slice by lia.
Qed.

Lemma adj_head_spec s c : forall len,
  Forall (good s) c -> 0 <= len ->
  let r := adj_head c len in
  Forall2 trimmed c r.1 /\ Forall (good s) r.1 /\ bytes s r.1 = zdrop len (bytes s c) /\
  chain_len r.1 = chain_len c - (len - r.2) /\ 0 <= r.2.
Proof.
  induction c as [|m c IH]; intros len Hg Hl; simpl.
  { split_and!; try done; [|lia]. symmetry. apply zdrop_all. apply zlen_nonneg || done. }
  apply list.Forall_cons in Hg as [Hm Hg]. pose proof (zlen_mdata _ _ Hm) as Hml. pose proof Hm as [? ? ?].
  destruct (Z.leb_spec len 0).
  { cbn [fst snd]. split_and!; [apply trimmed_refl_list|by constructor| |simpl; lia|lia].
    by rewrite zdrop_0. }
  destruct (Z.leb_spec (m_len m) len).
  - specialize (IH (len - m_len m) Hg ltac:(lia)). destruct (adj_head c (len - m_len m)) as [c' l'].
    cbn [fst snd] in *. destruct IH as (Ht & Hgc & Hb & Hc & Hl'). split_and!.
    + constructor; [done|done].
    + constructor; [|done]. by apply good_set_len; [|lia].
    + rewrite !bytes_cons, mdata_set_len, (ztake_0 (mdata s m)), Hb by lia.
      rewrite zdrop_app_ge by lia. by rewrite Hml.
    + simpl. lia.
    + lia.
  - cbn [fst snd]. split_and!.
    + constructor; [done|apply trimmed_refl_list].
    + constructor; [|done]. by apply good_advance; [|lia].
    + rewrite !bytes_cons. rewrite zdrop_app_le by lia. f_equal. apply mdata_advance; [done|lia].
    + simpl. lia.
    + lia.
Qed.

Lemma zeroed_spec s c : Forall (good s) c ->
  Forall2 trimmed c ((fun m => set_len m 0) <$> c) /\
  Forall (good s) ((fun m => set_len m 0) <$> c) /\
  bytes s ((fun m => set_len m 0) <$> c) = [] /\ chain_len ((fun m => set_len m 0) <$> c) = 0.
Proof.
  induction 1 as [|m c Hm _ (IH1 & IH2 & IH3 & IH4)]; [by split_and!; constructor|].
  pose proof Hm as [? ? ?]. rewrite fmap_cons. split_and!.
  - by constructor.
  - constructor; [|done]. apply good_set_len; [done|lia].
  - rewrite bytes_cons, IH3, app_nil_r. done.
  - exact IH4.
Qed.

Lemma adj_keep_spec s c : forall count,
  Forall (good s) c -> 0 <= count <= chain_len c ->
  Forall2 trimmed c (adj_keep c count) /\ Forall (good s) (adj_keep c count) /\
  bytes s (adj_keep c count) = ztake count (bytes s c) /\ chain_len (adj_keep c count) = count.
Proof.
  induction c as [|m c IH]; intros count Hg Hc; simpl in *.
  { split_and!; [constructor..| |lia]. by rewrite ztake_0 by lia. }
  apply list.Forall_cons in Hg as [Hm Hg]. pose proof (zlen_mdata _ _ Hm) as Hml. pose proof Hm as [? ? ?].
  destruct (Z.leb_spec count (m_len m)).
  - destruct (zeroed_spec s c Hg) as (H1' & H2' & H3' & H4'). split_and!.
    + by constructor.
    + constructor; [|done]. apply good_set_len; [done|lia].
    + rewrite !bytes_cons, H3', app_nil_r, mdata_set_len by lia. by rewrite ztake_app_le by lia.
    + simpl. lia.
  - destruct (IH (count - m_len m) Hg ltac:(lia)) as (H1' & H2' & H3' & H4'). split_and!.
    + constructor; [apply trimmed_refl|done].
    + by constructor.
    + rewrite !bytes_cons, H3'. rewrite ztake_app_ge by lia. by rewrite Hml.
    + simpl. lia.
Qed.

(** The update of the packet header that goes with a trim. *)
Lemma adj_ph_spec s c f fr :
  owns s c fr ->
  owns s (adj_ph f c) fr /\ bytes s (adj_ph f c) = bytes s c /\
  chain_len (adj_ph f c) = chain_len c /\ length (adj_ph f c) = length c.
Proof.
  intros [HW Hg]. destruct c as [|m c]; [by split_and!|]. unfold adj_ph, on_head.
  destruct (is_pkthdr m) eqn:E; [|by split_and!]. split_and!; try done. split.
  - eapply W_core, HW. split; try done.
  - apply list.Forall_cons in Hg as [[] Hg]. constructor; [|done]. by split.
Qed.

Lemma adj_ph_hdr c f :
  (forall m, head c = Some m -> is_pkthdr m = true -> f (ph_len (m_pkthdr m)) = chain_len c) ->
  hdr_ok (adj_ph f c).
Proof.
  intros H. destruct c as [|m c]; [done|]. simpl. destruct (is_pkthdr m) eqn:E; [|congruence].
  intros _. simpl. by apply H.
Qed.

Lemma trimmed_head c c' m' : Forall2 trimmed c c' -> head c' = Some m' ->
  exists m, head c = Some m /\ m_pkthdr m' = m_pkthdr m /\ is_pkthdr m' = is_pkthdr m.
Proof. destruct 1 as [|m x c c' Ht]; [done|]. intros [= <-]. exists m. by rewrite Ht. Qed.

Lemma adj_head_correct s c fr req_len :
  owns s c fr -> hdr_ok c -> 0 <= req_len ->
  let r := adj_head c req_len in
  let c' := adj_ph (fun l => l - (req_len - r.2)) r.1 in
  owns s c' fr /\ hdr_ok c' /\ length c' = length c /\ bytes s c' = zdrop req_len (bytes s c).
Proof.
  intros Ho Hh Hr. pose proof Ho as [HW Hg].
  destruct (adj_head_spec s c req_len Hg Hr) as (Ht & Hg' & Hb & Hcl & _).
  destruct (adj_head c req_len) as [c1 l1]. cbn [fst snd] in *.
  assert (owns s c1 fr) as Ho1 by (by eapply owns_trimmed).
  destruct (adj_ph_spec s c1 (fun l => l - (req_len - l1)) fr Ho1) as (H1 & H2 & H3 & H4).
  split_and!; [done| |rewrite H4; by erewrite <- Forall2_length|by rewrite H2].
  apply adj_ph_hdr. intros m Hm Hp. destruct (trimmed_head _ _ _ Ht Hm) as (x & Hx & Hph & Hpx).
  rewrite Hph. rewrite Hcl. destruct c as [|y c]; [done|]. simplify_eq/=. rewrite Hh by congruence. lia.
Qed.

(** The case in which only the last mbuf is shortened. *)
Lemma adj_last_correct s ci ml fr n :
  owns s (ci ++ [ml]) fr -> hdr_ok (ci ++ [ml]) -> 0 <= n <= m_len ml ->
  let c' := adj_ph (fun l => l - n) (on_last (fun m => set_len m (m_len m - n)) (ci ++ [ml])) in
  owns s c' fr /\ hdr_ok c' /\ length c' = length (ci ++ [ml]) /\
  bytes s c' = ztake (chain_len (ci ++ [ml]) - n) (bytes s (ci ++ [ml])).
Proof.
  intros Ho Hh Hn. pose proof Ho as [HW Hg]. apply list.Forall_app in Hg as [Hgi Hgl].
  apply list.Forall_cons in Hgl as [Hgl _]. pose proof (zlen_bytes s ci Hgi).
  set (f := fun m : mbuf => set_len m (m_len m - n)).
  assert (on_last f (ci ++ [ml]) = ci ++ [f ml]) as ->.
  { unfold on_last. rewrite last_snoc. f_equal. rewrite length_app. simpl.
    replace (length ci + 1 - 1)%nat with (length ci) by lia. by rewrite take_app_length. }
  assert (good s (f ml)) as Hgf by (apply good_set_len; [done|lia]).
  assert (owns s (ci ++ [f ml]) fr) as Ho1.
  { eapply owns_trimmed; [| |done].
    - apply Forall2_app; [apply trimmed_refl_list|]. by constructor.
    - apply list.Forall_app. split; [done|]. by constructor. }
  destruct (adj_ph_spec s (ci ++ [f ml]) (fun l => l - n) fr Ho1) as (H1' & H2' & H3' & H4').
  split_and!; [done| |by rewrite H4', !length_app|].
  - apply adj_ph_hdr. intros m Hm Hp. rewrite chain_len_app. simpl.
    assert (ph_len (m_pkthdr m) = chain_len (ci ++ [ml])) as ->;
      [destruct ci as [|y ci]; simplify_eq/=; exact (Hh Hp)|rewrite chain_len_app; simpl; lia].
  - rewrite H2', !chain_bytes_app, chain_len_app, !bytes_cons, !app_nil_r. simpl.
    unfold f. rewrite mdata_set_len by lia. rewrite ztake_app_ge by lia. do 2 f_equal. lia.
Qed.

Lemma adj_keep_correct s c fr count :
  owns s c fr -> 0 <= count <= chain_len c ->
  let c' := adj_keep (adj_ph (fun _ => count) c) count in
  owns s c' fr /\ hdr_ok c' /\ length c' = length c /\ bytes s c' = ztake count (bytes s c).
Proof.
  intros Ho Hc. destruct (adj_ph_spec s c (fun _ => count) fr Ho) as (H1 & H2 & H3 & H4).
  pose proof H1 as [_ Hg'].
  destruct (adj_keep_spec s _ count Hg') as (K1 & K2 & K3 & K4); [lia|]. split_and!.
  - by eapply owns_trimmed.
  - destruct (adj_keep _ count) as [|m' ck] eqn:Hk; [done|]. intros Hp.
    destruct (trimmed_head _ _ m' K1 eq_refl) as (x & Hx & Hph & Hpx).
    rewrite K4, Hph. rewrite Hpx in Hp. clear -Hx Hp.
    destruct c as [|y c]; simplify_eq/=. destruct (is_pkthdr y) eqn:E; [done|congruence].
  - by rewrite <- (Forall2_length _ _ _ K1).
  - by rewrite K3, H2.
Qed.

Lemma m_adj_spec s c fr req_len :
  owns s c fr -> hdr_ok c ->
  let c' := m_adj c req_len in
  owns s c' fr /\ hdr_ok c' /\ length c' = length c /\
  bytes s c' = (if 0 <=? req_len then zdrop req_len (bytes s c)
                else ztake (chain_len c + req_len) (bytes s c)).
Proof.
  intros Ho Hh. destruct (decide (c = [])) as [->|Hne].
  { simpl. split_and!; try done. change (bytes s []) with (@nil Z). unfold zdrop, ztake.
    rewrite drop_nil, take_nil. by destruct (0 <=? _). }
  assert (m_adj c req_len = if 0 <=? req_len
    then let '(c', len) := adj_head c req_len in adj_ph (fun l => l - (req_len - len)) c'
    else match last c with
         | None => []
         | Some ml => if - req_len <=? m_len ml
             then adj_ph (fun l => l - - req_len) (on_last (fun m => set_len m (m_len m - - req_len)) c)
             else let count := if chain_len c - - req_len <? 0 then 0 else chain_len c - - req_len in
                  adj_keep (adj_ph (fun _ => count) c) count
         end) as -> by (by destruct c).
  destruct (Z.leb_spec 0 req_len) as [Hr|Hr].
  { pose proof (adj_head_correct s c fr req_len Ho Hh Hr) as H.
    by destruct (adj_head c req_len) as [c1 l1]. }
  destruct (last c) as [ml|] eqn:Hlast; [|by apply last_None in Hlast].
  apply last_Some in Hlast as [ci ->].
  destruct (Z.leb_spec (- req_len) (m_len ml)) as [Hl|Hl].
  { replace (chain_len _ + req_len) with (chain_len (ci ++ [ml]) - - req_len) by lia.
    apply adj_last_correct; [done|done|lia]. }
  pose proof Ho as [_ Hg]. pose proof (chain_len_nonneg _ _ Hg).
  set (count := if _ <? 0 then _ else _).
  assert (count = Z.max 0 (chain_len (ci ++ [ml]) + req_len)) as Hcnt.
  { unfold count. destruct (Z.ltb_spec (chain_len (ci ++ [ml]) - - req_len) 0); lia. }
  destruct (adj_keep_correct s (ci ++ [ml]) fr count Ho) as (H1 & H2 & H3 & H4); [lia|].
  split_and!; try done. etransitivity; [exact H4|].
  destruct (Z.le_gt_cases 0 (chain_len (ci ++ [ml]) + req_len)); [f_equal; lia|].
  by rewrite !ztake_0 by lia.
Qed.

(** [m_adj] drops [req_len] bytes from the front of the chain, or
    [-req_len] from its end, all of them if there are fewer; the total in the
    packet header follows, and every buffer stays as it was. *)
Theorem m_adj_correct s c fr req_len :
  owns s c fr -> hdr_ok c ->
  let c' := m_adj c req_len in
  owns s c' fr /\ hdr_ok c' /\ length c' = length c /\
  bytes s c' = (if 0 <=? req_len then zdrop req_len (bytes s c)
                else ztake (chain_len c + req_len) (bytes s c)).
Proof. apply m_adj_spec. Qed.
