(* ===== verification/MbufJoin.v ===== *)
(** * Joining and making room: m_cat, m_prepend *)

From stdpp Require Import base numbers list option gmap.
From Stdlib Require Import ZArith Lia Bool.
From S2P Require Import Prelude Mbuf MbufOps MbufFacts MbufInv MbufExt MbufFree MbufChain MbufTrim.

(** ** Writing data into an mbuf *)

(** A write at an offset [off] up to the end of the data, which then ends
    after it. *)
Lemma wp_write_at s m ms off bs Q :
  W s (m :: ms) -> alone m ms -> good s m -> 0 <= off <= m_len m ->
  m_data m + off + zlen bs <= capacity s m ->
  (forall m' s', let m'' := set_len m' (off + zlen bs) in
     W s' (m'' :: ms) -> keeps s s' ms -> good s' m'' ->
     mdata s' m'' = ztake off (mdata s m) ++ bs -> m' = set_dat m (m_dat m') ->
     buf s' m' = splice (m_data m + off) bs (buf s m) -> Q m' s') ->
  wp (mwrite m off bs) Q s.
Proof.
  intros HW Ha Hg Ho Hc HQ. pose proof (good_data _ _ Hg) as Hd. pose proof Hg as [? ? ?].
  pose proof (zlen_nonneg bs).
  eapply wp_mwrite; [done|done|lia|lia|]. intros m' s' HW' Hk Hm' Hb. apply HQ; try done.
  - eapply W_core, HW'. by split.
  - split; [simpl; lia|rewrite Hm'; done|].
    change (capacity s' (set_len m' _)) with (zlen (buf s' m')). rewrite Hb.
    rewrite zlen_splice by (unfold capacity in *; lia). rewrite Hm'. simpl. unfold capacity in Hc. lia.
  - unfold mdata. change (buf s' (set_len m' _)) with (buf s' m'). rewrite Hb, Hm'. simpl.
    unfold capacity in *. rewrite ztake_slice by lia. rewrite slice_split by lia.
    by rewrite slice_splice_before, slice_splice_same by lia.
Qed.

Lemma wp_append s m ms bs Q :
  W s (m :: ms) -> alone m ms -> good s m -> m_data m + m_len m + zlen bs <= capacity s m ->
  (forall m' s', let m'' := set_len m' (m_len m + zlen bs) in
     W s' (m'' :: ms) -> keeps s s' ms -> good s' m'' ->
     mdata s' m'' = mdata s m ++ bs -> m' = set_dat m (m_dat m') ->
     capacity s' m'' = capacity s m -> Q m' s') ->
  wp (mwrite m (m_len m) bs) Q s.
Proof.
  intros HW Ha Hg Hc HQ. pose proof (good_data _ _ Hg). pose proof (good_len _ _ Hg).
  eapply wp_write_at; [done..|lia|done|]. intros m' s' m'' HW' Hk Hg' Hd Hm' Hb.
  apply HQ; try done.
  - etransitivity; [exact Hd|]. by rewrite ztake_all by (rewrite zlen_mdata by done; lia).
  - change (zlen (buf s' m') = capacity s m). rewrite Hb. unfold capacity in *. by rewrite zlen_splice by lia.
Qed.

(** A write into a new mbuf, whose length is not defined yet. *)
Lemma wp_fill s m ms bs Q :
  W s (m :: ms) -> alone m ms -> data_start m <= m_data m -> m_data m + zlen bs <= capacity s m ->
  (forall m' s', let m'' := set_len m' (zlen bs) in
     W s' (m'' :: ms) -> keeps s s' ms -> good s' m'' -> mdata s' m'' = bs ->
     m' = set_dat m (m_dat m') -> Q m' s') ->
  wp (mwrite m 0 bs) Q s.
Proof.
  intros HW Ha Hs Hc HQ. pose proof (data_start_nonneg m). pose proof (zlen_nonneg bs).
  eapply wp_mwrite; [done|done|lia|lia|]. intros m' s' HW' Hk Hm' Hb.
  rewrite Z.add_0_r in Hb. unfold capacity in Hc. apply HQ; try done.
  - eapply W_core, HW'. by split.
  - split; [simpl; lia|by rewrite Hm'|].
    change (capacity s' (set_len m' _)) with (zlen (buf s' m')). rewrite Hb.
    rewrite zlen_splice by lia. rewrite Hm'. simpl. lia.
  - unfold mdata. change (buf s' (set_len m' _)) with (buf s' m'). rewrite Hb, Hm'. simpl.
    by rewrite slice_splice_same by lia.
Qed.

Lemma capacity_int d s m ms : Wd d s (m :: ms) -> is_ext m = false -> capacity s m = MLEN.
Proof. intros HW Hx. unfold capacity, buf. rewrite Hx. apply (W_dat HW). left. Qed.

Lemma trailing_room d s m ms :
  Wd d s (m :: ms) -> M_READONLY s m = false ->
  m_trailingspace s m = capacity s m - (m_data m + m_len m).
Proof.
  intros HW Hr. unfold m_trailingspace. rewrite Hr. destruct (is_ext m) eqn:Hx; [done|].
  by rewrite (capacity_int _ _ _ _ HW Hx).
Qed.

(** ** Facts about [zprop] *)

Lemma zprop_buf s z c : Forall2 (fun m m' => buf s m' = buf s m) c (zprop z c).
Proof.
  assert (forall c, Forall2 (fun m m' => buf s m' = buf s m) c c) as Hr by (intros l; induction l; by constructor).
  destruct z; [|apply Hr]. destruct c as [|m r]; [by constructor|]. simpl. constructor; [|apply Hr].
  unfold buf, is_ext. simpl. flag_simpl. done.
Qed.

Lemma zprop_bytes s z c : bytes s (zprop z c) = bytes s c.
Proof.
  destruct z; [|done]. destruct c as [|m r]; [done|]. simpl. rewrite !bytes_cons. f_equal.
  unfold mdata, buf, is_ext. simpl. flag_simpl. done.
Qed.

Lemma zprop_good s z c : Forall (good s) c -> Forall (good s) (zprop z c).
Proof.
  destruct z; [|done]. destruct c as [|m r]; [done|]. intros [[Hl Hs He] Hr]%list.Forall_cons. constructor; [|done].
  split; [done|..]; revert Hs He;
    unfold data_start, capacity, buf, is_ext, is_pkthdr; simpl; flag_simpl; done.
Qed.

Lemma zprop_refs z c k : refs (zprop z c) k = refs c k.
Proof.
  pose proof (zprop_core z c) as H. destruct z; [|done]. destruct c as [|m r]; [done|]. simpl in *.
  apply refs_core. by inversion H.
Qed.

Lemma zprop_length z c : length (zprop z c) = length c.
Proof. destruct z; [|done]. by destruct c. Qed.

Lemma zprop_chain_len z c : chain_len (zprop z c) = chain_len c.
Proof. destruct z; [|done]. by destruct c. Qed.

Lemma zprop_keeps s s' z c fr : keeps s s' (c ++ fr) -> keeps s s' (zprop z c ++ fr).
Proof.
  destruct z; [|done]. destruct c as [|m r]; [done|]. simpl. rewrite !keeps_cons.
  intros [Hm Hr]. split; [|done]. revert Hm. unfold buf, is_ext. simpl. flag_simpl. done.
Qed.

(** [m_free] of the first mbuf of a chain, seen from the chain. *)
Lemma wp_m_free_chain s m n fr Q :
  W s ((m :: n) ++ fr) -> zok s false (m :: n) -> Forall (good s) n ->
  (forall n' s', W s' (n' ++ fr) -> zok s' false n' -> Forall (good s') n' -> keeps s s' fr ->
     bytes s' n' = bytes s n -> chain_len n' = chain_len n -> length n' = length n ->
     (forall k, refs n' k = refs n k) -> Q n' s') ->
  wp (m_free (m :: n)) Q s.
Proof.
  intros HW Hz Hg HQ. destruct Hz as [Hm Hz]. apply (wp_m_free s m n fr); [done|done|].
  intros s' HW' Hk. apply keeps_app in Hk as Hk'. destruct Hk' as [Hkn Hkf]. apply HQ.
  - eapply W_core2; [apply zprop_core|done].
  - apply zok_zprop. apply (zok_mono s s' _ n (m :: fr) fr); [done| |done|].
    + by rewrite <- Permutation_middle.
    + intros k'. rewrite refs_cons. destruct (_ && _); simpl; lia.
  - apply zprop_good. by eapply good_keeps.
  - done.
  - rewrite zprop_bytes. by apply bytes_keeps.
  - apply zprop_chain_len.
  - apply zprop_length.
  - apply zprop_refs.
Qed.

(** ** Joining *)

Lemma wp_cat_loop fuel : forall s m n fr Q,
  (length n <= fuel)%nat -> W s (m :: n ++ fr) -> good s m -> Forall (good s) n -> zok s false n ->
  (forall c s', W s' (c ++ fr) -> Forall (good s') c -> keeps s s' fr ->
     bytes s' c = mdata s m ++ bytes s n -> c <> [] -> Q c s') ->
  wp (cat_loop fuel m n) Q s.
Proof.
  induction fuel as [|fuel IH]; intros s m [|n0 n] fr Q Hf HW Hg Hgn Hz HQ; simpl in Hf; try lia; simpl.
  1,2: apply wp_ret; apply HQ; [done|by constructor|done|by rewrite bytes_cons|done].
  apply wp_bind, wp_get. destruct (M_READONLY s m) eqn:Hro; cbn [orb].
  { apply wp_ret, HQ; [done|by constructor|done|done|done]. }
  destruct (Z.ltb_spec (m_trailingspace s m) (m_len n0)) as [Hlt|Hge].
  { apply wp_ret, HQ; [done|by constructor|done|done|done]. }
  apply list.Forall_cons in Hgn as [Hg0 Hgn]. pose proof (good_data _ _ Hg0). pose proof Hg0 as [? ? ?].
  pose proof (trailing_room _ _ _ _ HW Hro) as Htr. pose proof (zlen_mdata _ _ Hg0) as Hl0.
  apply wp_bind, wp_mread; [lia..|]. rewrite Z.add_0_r.
  change (slice (m_data n0) (m_len n0) (buf s n0)) with (mdata s n0).
  apply wp_bind. eapply wp_append; [done|by eapply readonly_alone|done|lia|].
  intros m1 s1 m2 HW1 Hk1 Hg1 Hd1 Hm1 _.
  assert (set_len m1 (m_len m1 + m_len n0) = m2) as -> by (unfold m2; rewrite Hl0; by rewrite Hm1).
  apply keeps_app in Hk1 as Hk1'. destruct Hk1' as [Hkn Hkf].
  apply wp_bind, (wp_m_free_chain s1 n0 n (m2 :: fr)).
  - by rewrite <- Permutation_middle.
  - apply (zok_mono s s1 _ (n0 :: n) (m :: fr) (m2 :: fr)); [done|..].
    + by rewrite <- Permutation_middle.
    + by rewrite <- Permutation_middle.
    + intros k. rewrite (refs_core m m2); [done|]. unfold m2. rewrite Hm1. split; try done. simpl.
      rewrite (W_dat HW m) by left. pose proof (W_dat HW1 m2 ltac:(left)) as Hx.
      unfold m2 in Hx. by simpl in Hx.
  - by eapply good_keeps; [|done]; eapply keeps_sub, Hkn; set_solver.
  - intros n' s2 HW2 Hz2 Hg2 Hk2 Hb2 _ Hlen _. apply keeps_cons in Hk2 as [Hbm Hk2].
    apply (IH s2 m2 n' fr); [lia|by rewrite Permutation_middle|by eapply good_buf|done|done|].
    intros c s3 HW3 Hg3 Hk3 Hb3 Hne. apply HQ; try done.
    + eapply keeps_trans; [done|]. by eapply keeps_trans.
    + rewrite Hb3, Hb2, (mdata_buf s1 s2) by done. rewrite Hd1, bytes_cons, <- app_assoc. do 2 f_equal.
      apply bytes_keeps. eapply keeps_sub, Hkn. set_solver.
Qed.

Lemma m_cat_spec s m n fr :
  m <> [] -> owns s (m ++ n) fr -> zok s false n ->
  wp (m_cat m n) (fun c s' => owns s' c fr /\ keeps s s' fr /\ bytes s' c = bytes s m ++ bytes s n) s.
Proof.
  intros Hne [HW Hg] Hz. revert fr HW Hne Hg. induction m as [|m0 m IH]; intros fr HW Hne Hg; [done|].
  apply list.Forall_cons in Hg as [Hg0 Hg]. destruct m as [|m1 m].
  - simpl in *. apply (wp_cat_loop _ s m0 n fr); [done..|].
    intros c s' HW' Hg' Hk Hb _. split_and!; [by split|done|]. rewrite Hb, bytes_cons. by rewrite app_nil_r.
  - change (m_cat (m0 :: m1 :: m) n) with (c <- m_cat (m1 :: m) n ;; ret (m0 :: c)).
    apply wp_bind. eapply wp_mono; [apply (IH (m0 :: fr)); [|done|done]|].
    + by rewrite <- Permutation_middle.
    + intros c s' ([HW' Hg'] & Hk & Hb). apply keeps_cons in Hk as [Hk0 Hk].
      apply wp_ret. split_and!; [split|done|].
      * by rewrite <- Permutation_middle in HW'.
      * constructor; [|done]. by eapply good_buf.
      * rewrite !(bytes_cons _ m0), Hb, (mdata_buf s s') by done. by rewrite app_assoc.
Qed.

(** [m_cat] joins two chains: the result holds the bytes of the first and
    then those of the second, whether they were copied or linked; every mbuf
    of the second is part of the result or was freed, and no other buffer
    changes. *)
Theorem m_cat_correct s m n fr :
  m <> [] -> owns s (m ++ n) fr -> zok s false n ->
  wp (m_cat m n) (fun c s' => owns s' c fr /\ keeps s s' fr /\ bytes s' c = bytes s m ++ bytes s n) s.
Proof. apply m_cat_spec. Qed.

(** ** Making room in front *)

Lemma align8_bounds n : 0 <= n -> 0 <= align8 n <= n.
Proof.
  intros Hn. unfold align8. change (Z.land n (Z.lnot 7)) with (Z.ldiff n (Z.ones 3)).
  rewrite Z.ldiff_ones_r, Z.shiftl_mul_pow2, Z.shiftr_div_pow2 by lia. change (2 ^ 3) with 8.
  pose proof (Z.div_mod n 8). pose proof (Z.mod_pos_bound n 8). lia.
Qed.

(** Moving the start of the data back into the free space before it. *)
Lemma back_up s m n :
  good s m -> 0 <= n -> n <= m_data m - data_start m ->
  let m' := set_len (set_data m (m_data m - n)) (m_len m + n) in
  good s m' /\ zdrop n (mdata s m') = mdata s m.
Proof.
  intros Hg Hn Hle m'. pose proof Hg as [? ? ?]. pose proof (data_start_nonneg m). split.
  - split; [simpl; lia|change (data_start m') with (data_start m); simpl; lia|].
    change (capacity s m') with (capacity s m). simpl. lia.
  - unfold mdata. change (buf s m') with (buf s m). simpl.
    rewrite (Z.add_comm (m_len m) n), zdrop_slice by lia. f_equal. lia.
Qed.

(** What the mbuf that gives its packet header away keeps. *)
Lemma move_from s m :
  is_pkthdr m = true -> good s m ->
  let m' := m_tag_init (set_flags m (clr_flag (m_flags m) M_PKTHDR)) in
  good s m' /\ mdata s m' = mdata s m /\ is_pkthdr m' = false /\ is_ext m' = is_ext m /\ zer m' = zer m /\
  buf s m' = buf s m.
Proof.
  intros Hp [Hl Hs He] m'.
  assert (is_ext m' = is_ext m) as Hx by (unfold is_ext, m'; simpl; flag_simpl; done).
  assert (is_pkthdr m' = false) as Hp' by (unfold is_pkthdr, m'; simpl; flag_simpl; done).
  assert (zer m' = zer m) as Hz by (unfold zer, m'; simpl; flag_simpl; done).
  assert (buf s m' = buf s m) as Hb by (unfold buf; rewrite Hx; done).
  split_and!; try done.
  - split; [done| |].
    + unfold data_start in *. rewrite Hx, Hp'. rewrite Hp in Hs. simpl.
      destruct (is_ext m); [done|]. unfold PKTHDR_SIZE in Hs. lia.
    + unfold capacity. by rewrite Hb.
  - unfold mdata. by rewrite Hb.
Qed.

Lemma hdr_ok_add m m' r n :
  is_pkthdr m' = is_pkthdr m -> ph_len (m_pkthdr m') = ph_len (m_pkthdr m) + n ->
  m_len m' = m_len m + n -> hdr_ok (m :: r) -> hdr_ok (m' :: r).
Proof. intros Hp Hl Hm H Hp'. simpl. rewrite Hl, H by congruence. simpl. lia. Qed.

(** The new first mbuf of [m_prepend]. *)
Lemma prepend_new s m mn r fr t len :
  W s (mn :: (m :: r) ++ fr) -> Forall (good s) (m :: r) -> hdr_ok (m :: r) -> new_mbuf mn t ->
  0 <= len <= MHLEN ->
  let p := if is_pkthdr m then M_MOVE_PKTHDR mn m else (mn, m) in
  let m1 := set_len (MH_ALIGN p.1 len) len in
  let c := (if is_pkthdr m1 then set_phlen m1 (ph_len (m_pkthdr m1) + len) else m1) :: p.2 :: r in
  owns s c fr /\ zdrop len (bytes s c) = bytes s (m :: r) /\ hdr_ok c /\
  chain_len c = chain_len (m :: r) + len.
Proof.
  intros HW Hg Hh (Ht & Hf & Hd) Hlen p m1 c.
  pose proof (align8_bounds (MHLEN - len)) as Hal.
  apply list.Forall_cons in Hg as [Hgm Hgr].
  assert (is_ext mn = false) as Hx by (unfold is_ext; by rewrite Hf).
  assert (is_pkthdr mn = false) as Hp by (unfold is_pkthdr; by rewrite Hf).
  assert (tagc mn = 0) as Htg by (unfold tagc; by rewrite Hp).
  assert (W s (p.1 :: p.2 :: r ++ fr) /\ is_ext p.1 = false /\ m_data p.1 = data_start p.1 /\
    is_pkthdr p.1 = is_pkthdr m /\ (is_pkthdr m = true -> m_pkthdr p.1 = m_pkthdr m) /\
    good s p.2 /\ mdata s p.2 = mdata s m /\ m_len p.2 = m_len m) as (HW1 & Hx1 & Hd1 & Hp1 & Hph & Hg2 & Hmd & Hl2).
  { unfold p. destruct (is_pkthdr m) eqn:Hpm.
    - pose proof (W_move_hdr _ s mn m (r ++ fr) HW Htg Hpm) as HW1.
      pose proof (move_from s m Hpm Hgm) as (Hg2 & Hmd & _).
      destruct (hdr_flags_bits mn m) as (Hb1 & _ & Hb3 & _).
      rewrite M_MOVE_PKTHDR_eq in *. rewrite Hx in *. cbn [fst snd].
      assert (is_ext (set_data (set_ph (set_flags mn (hdr_flags mn m)) (m_pkthdr m)) PKTHDR_SIZE) = false) as Hx'.
      { unfold is_ext. simpl. by rewrite Hb1. }
      assert (is_pkthdr (set_data (set_ph (set_flags mn (hdr_flags mn m)) (m_pkthdr m)) PKTHDR_SIZE) = true) as Hp'.
      { unfold is_pkthdr. simpl. by rewrite Hb3. }
      split_and!; try done. unfold data_start. by rewrite Hx', Hp'.
    - cbn [fst snd]. split_and!; try done. unfold data_start. by rewrite Hx, Hp. }
  assert (good s m1) as Hg1.
  { unfold m1, MH_ALIGN. split; [simpl; lia| |].
    - change (data_start (set_len _ _)) with (data_start p.1). simpl. lia.
    - change (capacity s (set_len _ _)) with (capacity s p.1). rewrite (capacity_int _ _ _ _ HW1 Hx1).
      simpl. rewrite Hd1. unfold data_start. rewrite Hx1. unfold MHLEN, PKTHDR_SIZE, MLEN in *.
      destruct (is_pkthdr p.1); lia. }
  set (m2 := if is_pkthdr m1 then set_phlen m1 (ph_len (m_pkthdr m1) + len) else m1) in *.
  assert (same_core p.1 m2 /\ good s m2 /\ m_len m2 = len /\ is_pkthdr m2 = is_pkthdr p.1) as (Hsc & Hg2' & Hl & Hp2).
  { unfold m2. destruct (is_pkthdr m1); [|by split_and!; try done; split].
    split_and!; [by split| |done|done]. by destruct Hg1; split. }
  split_and!.
  - split; [by eapply W_core|]. constructor; [done|]. by constructor.
  - unfold c. rewrite !bytes_cons. pose proof (zlen_mdata _ _ Hg2') as Hz. rewrite Hl in Hz.
    rewrite zdrop_app_ge by lia. rewrite Hz, Z.sub_diag, zdrop_0 by lia. by rewrite Hmd.
  - unfold c. intros Hpk. rewrite Hp2 in Hpk. change (is_pkthdr p.1) with (is_pkthdr m1) in Hpk.
    unfold m2. rewrite Hpk. change (is_pkthdr m1) with (is_pkthdr p.1) in Hpk.
    change (m_pkthdr m1) with (m_pkthdr p.1). rewrite Hp1 in Hpk. simpl. rewrite Hph, Hh by done. simpl. lia.
  - unfold c. simpl. lia.
Qed.

Lemma m_prepend_spec s c fr len how :
  c <> [] -> owns s c fr -> hdr_ok c -> zok s false c -> 0 <= len <= MHLEN ->
  wp (m_prepend c len how) (fun c' s' => keeps s s' fr /\
    match c' with
    | [] => refused how s /\ W s' fr
    | m :: _ => owns s' c' fr /\ hdr_ok c' /\ len <= m_len m /\
        chain_len c' = chain_len c + len /\ zdrop len (bytes s' c') = bytes s c
    end) s.
Proof.
  intros Hne [HW Hg] Hh Hz Hlen. unfold m_prepend.
  assert (ugt len MHLEN = false) as ->.
  { unfold ugt. rewrite (proj2 (Z.ltb_ge len 0)), (proj2 (Z.ltb_ge MHLEN len)) by lia. done. }
  destruct c as [|m r]; [done|]. apply wp_bind, wp_get.
  destruct (Z.leb_spec len (m_leadingspace s m)) as [Hls|Hls].
  - apply wp_ret. split; [done|].
    apply list.Forall_cons in Hg as [Hgm Hg]. pose proof Hgm as [? ? ?].
    assert (len <= m_data m - data_start m) as Hle.
    { unfold m_leadingspace in Hls. destruct (M_READONLY s m); lia. }
    destruct (back_up s m len Hgm ltac:(lia) Hle) as [Hg1 Hd1].
    set (m1 := set_len (set_data m (m_data m - len)) (m_len m + len)) in *.
    set (m2 := if is_pkthdr m1 then _ else m1).
    assert (same_core m m2 /\ good s m2 /\ mdata s m2 = mdata s m1 /\ m_len m2 = m_len m + len) as (Hsc & Hg2 & Hd2 & Hl2).
    { unfold m2. destruct (is_pkthdr m1); [|by split_and!; try done; split].
      split_and!; [by split| |done|done]. destruct Hg1. by split. }
    split_and!.
    + split; [by eapply W_core|by constructor].
    + intros Hp. unfold m2 in *. change (is_pkthdr m1) with (is_pkthdr m) in *.
      destruct (is_pkthdr m) eqn:E; [|unfold is_pkthdr in *; simpl in *; congruence].
      simpl. rewrite Hh by done. simpl. lia.
    + lia.
    + simpl. lia.
    + rewrite !bytes_cons, Hd2. pose proof (zlen_mdata _ _ Hg1) as Hz1. simpl in Hz1.
      rewrite zdrop_app_le by lia. by rewrite Hd1.
  - apply wp_bind. eapply wp_m_get; [done|intros s' Hw HW' Hcl|intros mn s' HW' Hcl Hnew].
    + apply wp_bind, (wp_m_freem _ s' fr); [done| |].
      * apply (zok_mono s s' _ _ fr fr); done.
      * intros s2 HW2 Hk2. apply wp_ret. split; [|done]. eapply keeps_trans; [|done]. by apply keeps_cl.
    + pose proof (prepend_new s' m mn r fr _ len HW' ltac:(eapply good_keeps; [by apply keeps_cl|done]) Hh Hnew Hlen)
        as (Ho & Hb & Hh' & Hl).
      destruct (if is_pkthdr m then M_MOVE_PKTHDR mn m else (mn, m)) as [mn1 m1]. cbn [fst snd] in *.
      apply wp_ret. split; [by apply keeps_cl|]. split_and!; try done.
      * by destruct (is_pkthdr _).
      * rewrite Hb. apply bytes_keeps. by apply keeps_cl.
Qed.

(** [m_prepend] gives [len] more bytes in front of the same data, all in
    the first mbuf, with the total in the packet header up to date; when no
    mbuf can be had it frees the whole chain.  No other buffer changes. *)
Theorem m_prepend_correct s c fr len how :
  c <> [] -> owns s c fr -> hdr_ok c -> zok s false c -> 0 <= len <= MHLEN ->
  wp (m_prepend c len how) (fun c' s' => keeps s s' fr /\
    match c' with
    | [] => refused how s /\ W s' fr
    | m :: _ => owns s' c' fr /\ hdr_ok c' /\ len <= m_len m /\
        chain_len c' = chain_len c + len /\ zdrop len (bytes s' c') = bytes s c
    end) s.
Proof. apply m_prepend_spec. Qed.

(** A write that fills an mbuf whose length is set. *)
Lemma wp_fill_len s m ms bs Q :
  W s (m :: ms) -> alone m ms -> data_start m <= m_data m -> m_len m = zlen bs ->
  m_data m + zlen bs <= capacity s m ->
  (forall m' s', W s' (m' :: ms) -> keeps s s' ms -> good s' m' -> mdata s' m' = bs ->
     m' = set_dat m (m_dat m') -> Q m' s') ->
  wp (mwrite m 0 bs) Q s.
Proof.
  intros HW Ha Hs Hl Hc HQ. eapply wp_fill; [done..|]. intros m' s' m'' HW' Hk Hg Hd Hm.
  assert (m'' = m') as E by (unfold m''; rewrite <- Hl, Hm; by destruct m).
  rewrite E in *. by apply HQ.
Qed.
