(* ===== verification/MbufPull.v ===== *)
(** * Gathering the front of a chain: m_pullup *)

From stdpp Require Import base numbers list option gmap.
From Stdlib Require Import ZArith Lia Bool.
From S2P Require Import Prelude Mbuf MbufOps MbufFacts MbufInv MbufExt MbufFree MbufChain MbufTrim.
From S2P Require Import MbufJoin.

(** An external buffer that [m] alone refers to can be written. *)
Definition extwr (m : mbuf) : Prop := is_ext m = true -> has (m_flags m) M_EXTWR = true.

Lemma alone_writable d s m ms :
  Wd d s (m :: ms) -> alone m ms -> extwr m -> M_READONLY s m = false.
Proof.
  intros HW Ha Hw. unfold M_READONLY. destruct (is_ext m) eqn:Hx; [|done].
  rewrite (Hw Hx), (W_referenced _ _ _ _ HW Hx), (Ha Hx). done.
Qed.

Lemma alone_refs m m' ms ms' :
  is_ext m' = is_ext m -> (is_ext m = true -> m_ext m' = m_ext m) ->
  (forall k, refs ms k = [] -> refs ms' k = []) -> alone m ms -> alone m' ms'.
Proof. intros Hx He Hr Ha Hx'. rewrite Hx in Hx'. rewrite He by done. auto. Qed.

Lemma set_len_dat m d n : m_dat m = d -> set_dat (set_len m n) d = set_len m n.
Proof. intros <-. by destruct m. Qed.

(** [m'] is [m] with more data. *)
Record grown (s s' : mst) (m m' : mbuf) (n : Z) : Prop := {
  gr_len : m_len m' = m_len m + n;
  gr_hdr : m_pkthdr m' = m_pkthdr m;
  gr_ishdr : is_pkthdr m' = is_pkthdr m;
  gr_zer : zer m' = zer m;
  gr_extwr : extwr m -> extwr m';
  gr_room : capacity s' m' - m_data m' = capacity s m - m_data m }.

(** One turn of the loop of [m_pullup]. *)
Lemma wp_pullup_turn s m n0 r fr len Q :
  W s (m :: (n0 :: r) ++ fr) -> alone m ((n0 :: r) ++ fr) -> Forall (good s) (m :: n0 :: r) ->
  zok s false (n0 :: r) -> 0 <= len -> m_data m + m_len m + len <= capacity s m ->
  (forall m' n s', let count := Z.min len (m_len n0) in
     W s' (m' :: n ++ fr) -> alone m' (n ++ fr) -> Forall (good s') (m' :: n) -> zok s' false n ->
     keeps s s' fr -> grown s s' m m' count ->
     bytes s' (m' :: n) = mdata s m ++ bytes s (n0 :: r) ->
     chain_len n = chain_len (n0 :: r) - count -> (0 < len - count -> length n = length r) ->
     Q (m', n, len - count) s') ->
  wp (pullup_turn m n0 r len) Q s.
Proof.
  intros HW Ha [Hg [Hg0 Hgr]%list.Forall_cons]%list.Forall_cons Hz Hl Hroom HQ.
  pose proof (good_data _ _ Hg0). pose proof Hg0 as [? ? ?].
  pose proof (zlen_mdata _ _ Hg0) as Hl0. pose proof (chain_len_nonneg _ _ Hgr) as Hcl.
  unfold pullup_turn. set (count := Z.min len (m_len n0)) in *.
  apply wp_bind, wp_mread; [lia..|]. rewrite Z.add_0_r.
  replace (slice (m_data n0) count (buf s n0)) with (ztake count (mdata s n0))
    by (unfold mdata; rewrite ztake_slice by lia; done).
  assert (zlen (ztake count (mdata s n0)) = count) as Hlb by (rewrite zlen_ztake; lia).
  apply wp_bind. eapply wp_append; [done|done|done|lia|].
  intros m1 s1 m2 HW1 Hk1 Hg1 Hd1 Hm1 Hc1.
  assert (set_len m1 (m_len m1 + count) = m2) as -> by (unfold m2; rewrite Hlb; by rewrite Hm1).
  simpl in Hk1. apply keeps_cons in Hk1 as [Hb0 Hk1]. apply keeps_app in Hk1 as [Hkr Hkf].
  assert (grown s s1 m m2 count /\ is_ext m2 = is_ext m /\ m_ext m2 = m_ext m) as (Hgr2 & Hmx & Hme).
  { assert (m2 = set_len (set_dat m (m_dat m1)) (m_len m + count)) as E by (unfold m2; by rewrite Hlb, Hm1).
    split; [split; [..|by rewrite Hc1, E]|]; rewrite E; done. }
  clearbody m2. clear Hm1 m1.
  assert (zok s1 false (n0 :: r)) as Hz1.
  { apply (zok_mono s s1 _ (n0 :: r) (m :: fr) (m2 :: fr)); [done|..].
    1,2: by rewrite <- Permutation_middle.
    intros k. rewrite !refs_cons, Hmx, Hme. destruct (_ && _); simpl; lia. }
  apply wp_bind. cbn [m_len set_len].
  destruct (Z.eqb_spec (m_len n0 - count) 0) as [Hz0|Hz0]; cbn [negb].
  - apply (wp_m_free_chain s1 _ r (m2 :: fr)).
    + apply (W_core _ s1 n0); [by split|]. change (W s1 ((n0 :: r) ++ m2 :: fr)).
      by rewrite <- Permutation_middle.
    + done.
    + by eapply good_keeps.
    + intros n' s2 HW2 Hz2 Hg2 Hk2 Hb2 Hcl2 Hlen Hrf. apply keeps_cons in Hk2 as [Hbm Hk2].
      apply wp_ret, HQ.
      * by rewrite Permutation_middle.
      * eapply alone_refs, Ha; [done|done|]. intros k. rewrite !refs_app, Hrf, refs_cons.
        destruct (_ && _); done.
      * constructor; [by eapply good_buf|done].
      * done.
      * by eapply keeps_trans.
      * destruct Hgr2. split; try done. unfold capacity. by rewrite Hbm.
      * rewrite !bytes_cons, (mdata_buf s1 s2), Hd1, Hb2, (bytes_keeps s s1) by done.
        rewrite <- app_assoc. do 2 f_equal. apply ztake_all. lia.
      * simpl. lia.
      * done.
  - apply wp_ret. set (n1 := set_data _ _).
    assert (n1 = set_data (set_len n0 (m_len n0 - count)) (m_data n0 + count)) as Hn1 by done.
    assert (good s1 n0) as Hg01 by (by eapply good_buf).
    apply wp_ret, HQ; try done; [| | | |simpl; lia|lia].
    + apply (W_core_mid _ s1 n0 n1 [m2]); [by split|done].
    + eapply alone_refs, Ha; [done|done|]. intros k. simpl. rewrite (refs_core n0 n1); [done|]. by split.
    + constructor; [done|]. constructor; [|by eapply good_keeps]. rewrite Hn1. apply good_advance; [done|lia].
    + rewrite !bytes_cons, Hd1, (bytes_keeps s s1) by done. rewrite <- !app_assoc. f_equal.
      rewrite Hn1, mdata_advance by (lia || done).
      rewrite (mdata_buf s s1 n0) by done. by rewrite app_assoc, ztake_zdrop.
Qed.

Lemma pullup_loop_eq fuel ip m n0 r len :
  pullup_loop fuel ip m (n0 :: r) len =
    (let* '(m, n, len) := pullup_turn m n0 r len in
     match n with
     | [] => if 0 <? len then
               if ip && has (m_flags m) M_ZEROIZE then overrun else m_free [m] ;;; ret []
             else ret [m]
     | _ => if 0 <? len then
              match fuel with O => nofuel | S f => pullup_loop f ip m n len end
            else ret (m :: n)
     end).
Proof. by destruct fuel. Qed.

(** The loop of [m_pullup]: [m] gathers [len] bytes from [n]. *)
Lemma wp_pullup_loop fuel : forall s ip m n fr len Q,
  (length n <= S fuel)%nat -> n <> [] -> W s (m :: n ++ fr) -> alone m (n ++ fr) ->
  Forall (good s) (m :: n) -> zok s false n -> 0 <= len -> m_data m + m_len m + len <= capacity s m ->
  (chain_len n < len -> zer m = false \/ (ip = false /\ extwr m)) ->
  (forall s', chain_len n < len -> W s' fr -> keeps s s' fr -> Q [] s') ->
  (forall m' r s', W s' (m' :: r ++ fr) -> Forall (good s') (m' :: r) -> keeps s s' fr ->
     len <= chain_len n -> grown s s' m m' len ->
     bytes s' (m' :: r) = mdata s m ++ bytes s n -> Q (m' :: r) s') ->
  wp (pullup_loop fuel ip m n len) Q s.
Proof.
  induction fuel as [fuel IH] using (well_founded_induction Wf_nat.lt_wf).
  intros s ip m n fr len Q Hf Hne HW Ha Hg Hz Hl Hroom Hsh HN HS.
  destruct n as [|n0 r]; [done|]. rewrite pullup_loop_eq. simpl in Hf.
  apply wp_bind. eapply wp_pullup_turn; [done..|].
  intros m2 n s2 count HW2 Ha2 Hg2 Hz2 Hk2 Hgr2 Hb2 Hc2 Hlen2.
  pose proof Hg as [_ [[? _ _] _]%list.Forall_cons]%list.Forall_cons.
  pose proof Hg2 as [Hgm2 Hgn2]%list.Forall_cons. pose proof (chain_len_nonneg _ _ Hgn2).
  assert (0 <= count <= len) as Hcnt by (unfold count; lia). clearbody count.
  destruct (Z.ltb_spec 0 (len - count)) as [Hlt|Hge].
  2:{ assert (count = len) as -> by lia.
      destruct n as [|x n]; apply wp_ret; apply HS; try done; lia. }
  destruct n as [|x n].
  - assert (chain_len (n0 :: r) < len) as Hshort by (simpl in *; lia). specialize (Hsh Hshort).
    assert (ip && has (m_flags m2) M_ZEROIZE = false) as ->.
    { fold (zer m2). rewrite (gr_zer _ _ _ _ _ Hgr2).
      destruct Hsh as [->|[-> _]]; [by rewrite andb_false_r|done]. }
    apply wp_bind, (wp_m_free s2 m2 [] fr); [done| |].
    + rewrite (gr_zer _ _ _ _ _ Hgr2). destruct Hsh as [->|[_ Hw]]; [done|]. intros _.
      eapply alone_writable; [done|done|]. by apply (gr_extwr _ _ _ _ _ Hgr2).
    + intros s3 HW3 Hk3. apply wp_ret. apply HN; [done|done|]. by eapply keeps_trans.
  - destruct fuel as [|fuel]; [simpl in *; lia|]. destruct Hgr2 as [G1 G2 G3 G4 G5 G6].
    apply (IH fuel) with fr; [lia|simpl in *; lia|done..|lia|lia| | |].
    + intros Hsh'. rewrite G4. destruct Hsh as [?|[? ?]]; [simpl in *; lia|by left|right; auto].
    + intros s3 Hsh' HW3 Hk3. apply HN; [lia|done|by eapply keeps_trans].
    + intros m' r' s3 HW3 Hg3 Hk3 Hle [J1 J2 J3 J4 J5 J6] Hb3.
      apply HS; [done|done|by eapply keeps_trans|lia| |].
      * split; [lia|congruence..|auto|lia].
      * by rewrite Hb3, <- bytes_cons.
Qed.

(** ** New mbufs with room *)

(** A new mbuf with room for [n] bytes, which nobody else refers to. *)
Record blank (s : mst) (ms : list mbuf) (t n : Z) (m : mbuf) : Prop := {
  bl_type : m_type m = t;
  bl_hdr : is_pkthdr m = false;
  bl_zer : zer m = false;
  bl_data : m_data m = 0;
  bl_alone : alone m ms;
  bl_extwr : extwr m;
  bl_room : n <= capacity s m }.

Lemma new_blank s ms t n m : W s (m :: ms) -> new_mbuf m t -> n <= MLEN -> blank s ms t n m.
Proof.
  intros HW (Ht & Hf & Hd) Hn. assert (is_ext m = false) as Hx by (unfold is_ext; by rewrite Hf).
  split; try done.
  - unfold is_pkthdr. by rewrite Hf.
  - unfold zer. by rewrite Hf.
  - intros ?. congruence.
  - intros ?. congruence.
  - by rewrite (capacity_int _ _ _ _ HW Hx).
Qed.

Lemma extended_blank s' ms t n m m' :
  new_mbuf m t -> extended m m' -> is_ext m' = true -> alone m' ms -> n <= capacity s' m' ->
  blank s' ms t n m'.
Proof.
  intros (Ht & Hf & Hd) He Hx Ha Hn. split; try done.
  - by rewrite He.
  - rewrite He. unfold is_pkthdr. simpl. rewrite Hf. done.
  - rewrite He. unfold zer. simpl. rewrite Hf. done.
  - by rewrite He.
  - intros _. rewrite He. simpl. rewrite Hf. done.
Qed.

Lemma ugt_false x k : 0 <= x <= k -> ugt x k = false.
Proof. intros. unfold ugt. rewrite (proj2 (Z.ltb_ge x 0)), (proj2 (Z.ltb_ge k x)) by lia. done. Qed.
Lemma ugt_true x k : 0 <= x -> k < x -> ugt x k = true.
Proof. intros. unfold ugt. rewrite (proj2 (Z.ltb_lt k x)) by lia. by rewrite orb_true_r. Qed.
Lemma ugt_spec x k : 0 <= x -> (ugt x k = true /\ k < x) \/ (ugt x k = false /\ x <= k).
Proof.
  intros. destruct (Z.le_gt_cases x k); [right|left]; split; try lia;
    [apply ugt_false; lia|by apply ugt_true].
Qed.

Lemma wp_free_new s m ms t Q :
  W s (m :: ms) -> new_mbuf m t ->
  (forall s', W s' ms -> keeps s s' ms -> Q [] s') -> wp (m_free [m]) Q s.
Proof.
  intros HW (Ht & Hf & Hd) HQ. apply (wp_m_free s m [] ms); [done| |].
  - unfold zer. by rewrite Hf.
  - intros s' HW' Hk. unfold zprop, zer. rewrite Hf. by apply HQ.
Qed.

Lemma wp_copyback_get s ms t room wait Q :
  W s ms -> 0 <= room <= MAXMCLBYTES ->
  (forall s', refused wait s -> W s' ms -> keeps s s' ms -> Q None s') ->
  (forall n s', W s' (n :: ms) -> keeps s s' ms -> blank s' ms t room n -> Q (Some n) s') ->
  wp (copyback_get t room wait) Q s.
Proof.
  intros HW Hr HN HS. unfold copyback_get. apply wp_bind.
  eapply wp_m_get; [done|intros s' Hw HW' Hcl|intros n s1 HW1 Hcl1 Hnew].
  { apply wp_ret. apply HN; [done|done|by apply keeps_cl]. }
  assert (is_ext n = false) as Hx by (destruct Hnew as (_ & Hf & _); unfold is_ext; by rewrite Hf).
  destruct (ugt_spec room MLEN) as [[-> Hlt]|[-> Hle]]; [lia| |].
  - apply wp_bind. eapply wp_m_clget; [done|done|lia|intros s2 Hw HW2 Hcl2|].
    + rewrite Hx. apply wp_bind. eapply wp_free_new; [done|done|]. intros s3 HW3 Hk3. apply wp_ret.
      apply HN; [by eapply refused_scl|done|].
      eapply keeps_trans, Hk3. apply keeps_cl. by eapply scl_trans.
    + intros n' s2 HW2 Hk2 He Hx' Ha Hc _. rewrite Hx'. apply wp_ret. apply HS; [done| |].
      * eapply keeps_trans, Hk2. by apply keeps_cl.
      * by eapply extended_blank.
  - apply wp_ret. apply HS; [done|by apply keeps_cl|by apply new_blank].
Qed.

(** ** m_pullup *)

Lemma move_readonly s m :
  M_READONLY s (m_tag_init (set_flags m (clr_flag (m_flags m) M_PKTHDR))) = M_READONLY s m.
Proof. unfold M_READONLY, is_ext, MCLISREFERENCED, ring. simpl. flag_simpl. done. Qed.

(** The new first mbuf, with the packet header of the old one if it has one. *)
Lemma pullup_new s m n r fr t len :
  W s (m :: (n :: r) ++ fr) -> Forall (good s) (n :: r) -> zok s false (n :: r) ->
  blank s ((n :: r) ++ fr) t len m -> (is_ext m = false -> len <= MHLEN) -> 0 <= len ->
  let m0 := set_len m 0 in
  let p := if is_pkthdr n then M_MOVE_PKTHDR m0 n else (m0, n) in
  W s (p.1 :: (p.2 :: r) ++ fr) /\ alone p.1 ((p.2 :: r) ++ fr) /\ Forall (good s) (p.1 :: p.2 :: r) /\
  zok s false (p.2 :: r) /\ m_data p.1 + m_len p.1 + len <= capacity s p.1 /\ extwr p.1 /\
  m_len p.1 = 0 /\ m_len p.2 = m_len n /\ bytes s (p.2 :: r) = bytes s (n :: r) /\ is_pkthdr p.1 = is_pkthdr n /\
  (is_pkthdr n = true -> m_pkthdr p.1 = m_pkthdr n).
Proof.
  intros HW Hg Hz [B1 B2 B3 B4 B5 B6 B7] Hi Hl m0 p.
  apply list.Forall_cons in Hg as [Hgn Hgr].
  assert (W s (m0 :: (n :: r) ++ fr)) as HW0 by (eapply W_core, HW; by split).
  assert (capacity s m0 = capacity s m) as Hc by done.
  assert (tagc m0 = 0) as Htg by (unfold tagc; change (is_pkthdr m0) with (is_pkthdr m); by rewrite B2).
  unfold p. destruct (is_pkthdr n) eqn:Hpn.
  - pose proof (W_move_hdr _ s m0 n (r ++ fr) HW0 Htg Hpn) as HW1.
    pose proof (move_from s n Hpn Hgn) as (Hgf & Hmf & Hpf & Hxf & Hzf & Hbf).
    destruct (hdr_flags_bits m0 n) as (Hb1 & Hb2 & Hb3 & Hb4).
    rewrite M_MOVE_PKTHDR_eq in *. cbn [fst snd] in *.
    set (n' := m_tag_init _) in *.
    assert (forall k, refs ((n' :: r) ++ fr) k = refs ((n :: r) ++ fr) k) as Hrefs.
    { intros k. simpl. by rewrite !refs_cons, Hxf. }
    change (is_ext m0) with (is_ext m) in *.
    pose proof (move_readonly s n) as Hro. fold n' in Hro.
    destruct (is_ext m) eqn:Hx.
    all: set (m1 := set_ph (set_flags m0 (hdr_flags m0 n)) (m_pkthdr n)) in *.
    + assert (is_ext m1 = true) as Hx1 by done.
      assert (capacity s m1 = capacity s m) as Hc1.
      { unfold capacity, buf. by rewrite Hx1, Hx. }
      split_and!; try done.
      * intros _. rewrite Hrefs. by apply B5.
      * constructor; [|by constructor]. split; [done| |].
        -- unfold data_start. rewrite Hx1. unfold m1. simpl. lia.
        -- rewrite Hc1. unfold m1. simpl. lia.
      * destruct Hz as [Hz1 Hz2]. split; rewrite Hzf; [|done]. by rewrite Hro.
      * rewrite Hc1. unfold m1. simpl. lia.
      * intros _. unfold m1. simpl. rewrite Hb2. by apply B6.
      * by rewrite !bytes_cons, Hmf.
      * unfold is_pkthdr at 1, m1. simpl. by rewrite Hb3.
    + assert (is_ext (set_data m1 PKTHDR_SIZE) = false) as Hx1.
      { unfold is_ext, m1. simpl. rewrite Hb1. done. }
      assert (capacity s (set_data m1 PKTHDR_SIZE) = MLEN) as Hc1 by (by eapply capacity_int).
      assert (len <= MHLEN) by auto. unfold MHLEN in *.
      split_and!; try done.
      * intros ?. congruence.
      * constructor; [|by constructor]. split; [done| |].
        -- unfold data_start. rewrite Hx1. unfold is_pkthdr at 1, m1. simpl. rewrite Hb3, Hpn. done.
        -- rewrite Hc1. simpl. unfold MLEN, PKTHDR_SIZE in *. lia.
      * destruct Hz as [Hz1 Hz2]. split; rewrite Hzf; [|done]. by rewrite Hro.
      * rewrite Hc1. simpl. unfold PKTHDR_SIZE in *. lia.
      * intros ?. congruence.
      * by rewrite !bytes_cons, Hmf.
      * unfold is_pkthdr at 1, m1. simpl. by rewrite Hb3.
  - cbn [fst snd]. split_and!; try done.
    + constructor; [|by constructor]. split; [done| |].
      * change (data_start m0) with (data_start m). unfold data_start. rewrite B2. simpl.
        destruct (is_ext m); lia.
      * rewrite Hc. simpl. lia.
    + rewrite Hc. simpl. lia.
Qed.

Lemma hdr_ok_same s s' m r m' r' :
  Forall (good s) (m :: r) -> Forall (good s') (m' :: r') -> bytes s' (m' :: r') = bytes s (m :: r) ->
  is_pkthdr m' = is_pkthdr m -> (is_pkthdr m = true -> m_pkthdr m' = m_pkthdr m) ->
  hdr_ok (m :: r) -> hdr_ok (m' :: r').
Proof.
  intros Hg Hg' Hb Hp Hph Hh Hp'. rewrite Hp in Hp'. rewrite Hph, Hh by done.
  by rewrite <- (zlen_bytes s), <- (zlen_bytes s'), Hb.
Qed.

(** The result of gathering [len] bytes at the front of [c]. *)
Definition pulled (s : mst) (c fr : list mbuf) (len : Z) (c' : list mbuf) (s' : mst) : Prop :=
  keeps s s' fr /\
  match c' with
  | [] => W s' fr /\ (chain_len c < len \/ MAXMCLBYTES < len \/ refused M_DONTWAIT s)
  | m :: _ => owns s' c' fr /\ hdr_ok c' /\ len <= m_len m /\ bytes s' c' = bytes s c
  end.

Lemma pullup_fail s s' c fr len :
  W s' (c ++ fr) -> zok s' false c -> keeps s s' fr ->
  (chain_len c < len \/ MAXMCLBYTES < len \/ refused M_DONTWAIT s) ->
  wp (m_freem c ;;; ret []) (pulled s c fr len) s'.
Proof.
  intros HW Hz Hk Hr. apply wp_bind, (wp_m_freem c s' fr); [done..|].
  intros s2 HW2 Hk2. apply wp_ret. split; [by eapply keeps_trans|done].
Qed.

Lemma pullup_inplace s m r fr len :
  r <> [] -> owns s (m :: r) fr -> hdr_ok (m :: r) -> zok s false (m :: r) -> 0 <= len ->
  alone m (r ++ fr) -> (chain_len (m :: r) < len -> zer m = false) -> m_data m + len < capacity s m ->
  wp (if len <=? m_len m then ret (m :: r) else pullup_loop (length (m :: r)) true m r (len - m_len m))
    (pulled s (m :: r) fr len) s.
Proof.
  intros Hne [HW Hg] Hh [_ Hz] Hl Ha Hsh Hroom. destruct (Z.leb_spec len (m_len m)).
  { apply wp_ret. split; [done|]. split_and!; by try split. }
  pose proof Hg as [Hgm Hgr]%list.Forall_cons. pose proof Hgm as [? _ _].
  apply zok_weaken in Hz.
  apply (wp_pullup_loop _ s true m r fr); [simpl; lia|done..|lia|lia| | |].
  - intros Hlt. left. apply Hsh. simpl. lia.
  - intros s' Hlt HW' Hk. split; [done|]. split; [done|]. left. simpl. lia.
  - intros m' r' s' HW' Hg' Hk Hle [G1 G2 G3 G4 G5 G6] Hb. split; [done|]. split_and!; [by split| |lia|done].
    eapply (hdr_ok_same s s' m r); done.
Qed.

Lemma m_pullup_spec s m r fr len :
  owns s (m :: r) fr -> hdr_ok (m :: r) -> zok s false (m :: r) -> 0 <= len ->
  (is_ext m = true -> MHLEN < len -> alone m (r ++ fr)) ->
  (chain_len (m :: r) < len -> zer m = false) ->
  wp (m_pullup (m :: r) len) (pulled s (m :: r) fr len) s.
Proof.
  intros Ho Hh Hz Hl Ha Hsh. pose proof Ho as [HW Hg]. unfold m_pullup. apply wp_bind, wp_get.
  destruct ((negb (is_ext m) && negb (bool_decide (r = [])) && (m_data m + len <? MLEN)) ||
    (is_ext m && ugt len MHLEN && negb (bool_decide (r = [])) && (m_data m + len <? capacity s m))) eqn:Hin.
  - assert (r <> [] /\ alone m (r ++ fr) /\ m_data m + len < capacity s m) as (Hne & Hal & Hroom).
    { apply orb_true_iff in Hin as [Hin|Hin]; bool_to_prop;
        match goal with H : bool_decide _ = false |- _ => apply bool_decide_eq_false in H end.
      - split_and!; [done|intros ?; congruence|]. by rewrite (capacity_int _ _ _ _ HW).
      - destruct (ugt_spec len MHLEN) as [[? ?]|[? ?]]; [done| |congruence].
        split_and!; [done|by apply Ha|done]. }
    by apply pullup_inplace.
  - destruct (Z.ltb_spec MAXMCLBYTES len) as [Hbig|Hbig].
    { apply pullup_fail; [done..|]. by right; left. }
    apply wp_bind. eapply wp_m_get; [done|intros s' Hw HW' Hcl|intros m1 s1 HW1 Hcl1 Hnew].
    { apply pullup_fail; [done|by apply (zok_mono s s' _ _ fr fr)|by apply keeps_cl|]. by right; right. }
    assert (is_ext m1 = false) as Hx1 by (destruct Hnew as (_ & Hf & _); unfold is_ext; by rewrite Hf).
    assert (forall m2 s2, keeps s s2 ((m :: r) ++ fr) -> W s2 (m2 :: (m :: r) ++ fr) ->
      blank s2 ((m :: r) ++ fr) (m_type m) len m2 -> (is_ext m2 = false -> len <= MHLEN) ->
      wp (let m3 := set_len m2 0 in
          let '(m4, n) := if is_pkthdr m then M_MOVE_PKTHDR m3 m else (m3, m) in
          pullup_loop (length (m :: r)) false m4 (n :: r) len) (pulled s (m :: r) fr len) s2) as Hgo.
    { intros m2 s2 Hk2 HW2 Hbl Hi. apply keeps_app in Hk2 as [Hkc Hkf].
      pose proof (good_keeps _ _ _ Hkc Hg) as Hg2. pose proof (bytes_keeps _ _ _ Hkc) as Hbk.
      assert (zok s2 false (m :: r)) as Hz2 by (apply (zok_new s s2 _ _ fr m2); [done..|apply Hbl]).
      pose proof (pullup_new s2 m2 m r fr (m_type m) len HW2 Hg2 Hz2 Hbl Hi Hl)
        as (P1 & P2 & P3 & P4 & P5 & P6 & P7 & P7' & P8 & P9 & P10).
      cbv zeta. destruct (if is_pkthdr m then M_MOVE_PKTHDR (set_len m2 0) m else (set_len m2 0, m)) as [m4 n].
      cbn [fst snd] in *.
      apply (wp_pullup_loop _ s2 false m4 (n :: r) fr); [simpl; lia|done..|by right| |].
      - intros s3 Hlt HW3 Hk3. split; [by eapply keeps_trans|]. split; [done|]. left. simpl in *. lia.
      - intros m' r' s3 HW3 Hg3 Hk3 Hle [G1 G2 G3 G4 G5 G6] Hb3. split; [by eapply keeps_trans|].
        assert (bytes s3 (m' :: r') = bytes s (m :: r)) as Hb4.
        { rewrite Hb3, P8, Hbk. unfold mdata. rewrite P7. by rewrite slice_0. }
        split_and!; [by split| |lia|done]. eapply (hdr_ok_same s s3 m r); try done; [congruence|].
        intros E. rewrite G2. auto. }
    apply wp_bind. destruct (ugt_spec len MHLEN) as [[Hu Hlt]|[Hu Hle]]; [done|..]; rewrite Hu; cbn [andb].
    + eapply wp_m_clget; [done|done|done|intros s2 Hw HW2 Hcl2|].
      * rewrite Hx1. cbn [negb]. apply wp_bind. eapply wp_free_new; [done|done|]. intros s3 HW3 Hk3.
        assert (keeps s s2 ((m :: r) ++ fr)) as Hk2 by (apply keeps_cl; by eapply scl_trans).
        apply pullup_fail; [done|by apply (zok_mono s s3 _ _ fr fr)| |].
        -- eapply keeps_sub; [|by eapply keeps_trans]. set_solver.
        -- right; right. by eapply refused_scl.
      * intros m2 s2 HW2 Hk2 He Hx2 Ha2 Hc2 _. rewrite Hx2. cbn [negb]. apply Hgo; [|done| |congruence].
        -- eapply keeps_trans, Hk2. by apply keeps_cl.
        -- by eapply extended_blank.
    + apply wp_ret. apply Hgo; [by apply keeps_cl|done| |done].
      apply new_blank; [done|done|]. unfold MHLEN, PKTHDR_SIZE in *. lia.
Qed.

(** [m_pullup] makes the first [len] bytes contiguous: the result holds
    the same bytes, at least [len] of them in its first mbuf, and the same
    packet header.  It fails, freeing the whole chain, only when the chain is
    shorter than [len], when [len] exceeds the largest cluster, or when the
    pools refuse; no other buffer changes.  A cluster it gathers into must not
    be shared. *)
Theorem m_pullup_correct s m r fr len :
  owns s (m :: r) fr -> hdr_ok (m :: r) -> zok s false (m :: r) -> 0 <= len ->
  (is_ext m = true -> MHLEN < len -> alone m (r ++ fr)) ->
  (chain_len (m :: r) < len -> zer m = false) ->
  wp (m_pullup (m :: r) len) (pulled s (m :: r) fr len) s.
Proof. apply m_pullup_spec. Qed.
