(* ===== verification/MbufCopy.v ===== *)
(** * Copying chains: m_copym, m_copym2 *)

From stdpp Require Import base numbers list option gmap.
From Stdlib Require Import ZArith Lia Bool.
From S2P Require Import Prelude Mbuf MbufOps MbufFacts MbufInv MbufExt MbufFree MbufChain MbufTrim.
From S2P Require Import MbufJoin MbufPull.

(** [m] is the only one of [ms] that refers to its buffer, and may write to
    it. *)
Definition private (ms : list mbuf) (m : mbuf) : Prop :=
  is_ext m = true -> has (m_flags m) M_EXTWR = true /\ refs ms (m_ext m) = [m_addr m].

Lemma private_writable d s ms m : Wd d s ms -> m ∈ ms -> private ms m -> M_READONLY s m = false.
Proof.
  intros HW Hin Hp. unfold M_READONLY. destruct (is_ext m) eqn:Hx; [|done].
  destruct (Hp Hx) as [-> Hr]. unfold MCLISREFERENCED, ring.
  destruct (W_ext HW m Hin Hx) as [k Hk]. rewrite Hk.
  destruct (W_ring HW _ _ Hk) as (Hpm & _ & _). rewrite Hr in Hpm.
  by rewrite Hpm.
Qed.

Lemma private_alone m ms : alone m ms -> extwr m -> private (m :: ms) m.
Proof.
  intros Ha Hw Hx. split; [auto|]. rewrite refs_cons, Hx, Nat.eqb_refl. simpl. by rewrite (Ha Hx).
Qed.

Lemma private_cons m ms x : private ms x -> x ∈ ms -> alone m ms -> private (m :: ms) x.
Proof.
  intros Hp Hin Ha Hx. destruct (Hp Hx) as [? Hr]. split; [done|]. rewrite refs_cons.
  destruct (is_ext m) eqn:Hm; simpl; [|done].
  destruct (Nat.eqb_spec (m_ext m) (m_ext x)) as [E|]; [|done].
  exfalso. by eapply (alone_buf m ms x).
Qed.

#[global] Instance private_perm : Proper ((≡ₚ) ==> eq ==> iff) private.
Proof.
  intros l1 l2 H m ? <-. unfold private.
  assert (forall c a, refs l1 c = [a] <-> refs l2 c = [a]) as Hr.
  { intros c a. assert (refs l1 c ≡ₚ refs l2 c) as Hp by (by rewrite H).
    split; intros E; rewrite E in Hp; [symmetry in Hp|]; by apply Permutation_singleton_r in Hp. }
  setoid_rewrite Hr. done.
Qed.

(** ** One piece of the copy *)

(** An empty mbuf with an internal data area. *)
Record empty_in (s : mst) (n : mbuf) : Prop := {
  em_ext : is_ext n = false;
  em_data : m_data n = data_start n }.

(** What a piece of [k] bytes is. *)
Record piece (s : mst) (m : mbuf) (off len : Z) (n : mbuf) (s' : mst) (n' : mbuf) : Prop := {
  pc_len : 0 <= m_len n' <= Z.min len (m_len m - off);
  pc_pos : 0 < m_len m - off -> 0 < m_len n';
  pc_good : good s' n';
  pc_data : mdata s' n' = slice off (m_len n') (mdata s m);
  pc_hdr : m_pkthdr n' = m_pkthdr n;
  pc_ishdr : is_pkthdr n' = is_pkthdr n;
  pc_zer : zer n' = zer n }.

(** Copying bytes into a new mbuf. *)
Lemma wp_copy_bytes s m n ms off len k Q :
  W s (n :: ms) -> m ∈ ms -> good s m -> 0 <= off <= m_len m -> alone n ms ->
  0 <= k -> k <= len -> k <= m_len m - off -> (0 < m_len m - off -> 0 < k) ->
  m_data n = data_start n -> m_data n + k <= capacity s n -> m_len n = k ->
  (forall n' s', W s' (n' :: ms) -> keeps s s' ms -> piece s m off len n s' n' ->
     n' = set_dat n (m_dat n') -> Q n' s') ->
  wp (bs <- mread m off (m_len n) ;; mwrite n 0 bs) Q s.
Proof.
  intros HW Hin Hg Hoff Ha Hk0 Hk1 Hk2 Hpos Hd Hc Hl HQ.
  pose proof (good_data _ _ Hg). pose proof Hg as [? ? ?]. rewrite Hl.
  apply wp_bind, wp_mread; [lia..|].
  assert (zlen (slice (m_data m + off) k (buf s m)) = k) as Hz by (rewrite zlen_slice; unfold capacity in *; lia).
  eapply wp_fill_len; [done|done|lia|lia|lia|].
  intros n' s' HW' Hk Hg' Hd' Hn'. apply HQ; try done.
  assert (m_len n' = k) as Hlk by (rewrite Hn'; done).
  split; try done; try (rewrite Hn'; done); try lia.
  - rewrite Hd', Hlk. unfold mdata. by rewrite slice_slice by lia.
Qed.

Lemma wp_copym_fill s m n ms off len wait deep Q :
  W s (n :: ms) -> m ∈ ms -> good s m -> 0 <= off <= m_len m -> 0 < len -> empty_in s n ->
  (is_ext m = false -> Z.min len (m_len m - off) <= MLEN - data_start n) ->
  (forall n' s', W s' (n' :: ms) -> keeps s s' ms -> piece s m off len n s' n' ->
     (deep = false -> m_len n' = Z.min len (m_len m - off)) ->
     (deep = true -> private (n' :: ms) n') -> Q n' s') ->
  wp (copym_fill m n off len wait deep) Q s.
Proof.
  intros HW Hin Hg Hoff Hlen [Hx Hd] Hroom HQ. pose proof (good_data _ _ Hg). pose proof Hg as [? ? ?].
  assert (capacity s n = MLEN) as Hcap by (by eapply capacity_int).
  assert (alone n ms) as Hal by (intros ?; congruence).
  unfold copym_fill. cbv zeta. set (k := Z.min len (m_len m - off)) in *.
  assert (W s (set_len n k :: ms)) as HW0 by (eapply W_core, HW; by split).
  destruct (is_ext m) eqn:Hmx.
  - destruct deep; cbn [negb].
    + apply wp_bind. eapply wp_m_clget; [exact HW0|done|done|intros s1 Hw HW1 Hcl1|].
      * apply wp_bind, wp_get.
        assert (m_trailingspace s1 (set_len (set_len n k) 0) = MLEN - data_start n) as Hts.
        { unfold m_trailingspace, M_READONLY. change (is_ext (set_len _ _)) with (is_ext n). rewrite Hx.
          simpl. rewrite Hd. lia. }
        cbv beta zeta. rewrite Hts. cbn [m_len set_len].
        set (k1 := Z.min (Z.min (MLEN - data_start n) len) (m_len m - off)).
        set (n1 := set_len _ k1).
        assert (data_start n <= PKTHDR_SIZE) as Hds.
        { unfold data_start, PKTHDR_SIZE. repeat case_match; lia. }
        unfold MLEN, PKTHDR_SIZE, MSIZE, M_HDR_SIZE in *.
        eapply (wp_copy_bytes s1 m n1 ms off len k1); [|done|by eapply good_buf; [apply buf_cl|]|done|done|lia|lia|lia|lia| | |done|].
        -- eapply W_core, HW1. by split.
        -- done.
        -- change (capacity s1 n1) with (capacity s1 n). unfold capacity. rewrite (buf_cl s s1) by done.
           fold (capacity s n). rewrite Hcap. simpl. lia.
        -- intros n' s2 HW2 Hk2 [] Hn'. apply HQ; [done|eapply keeps_trans, Hk2; by apply keeps_cl| |done|].
           ++ split; try done. rewrite pc_data0. by rewrite (mdata_buf s s1) by (by apply buf_cl).
           ++ intros _ Hxn. exfalso. rewrite Hn' in Hxn. unfold is_ext in *. simpl in Hxn. congruence.
      * intros n1 s1 HW1 Hk1 He Hx1 Ha1 Hc1 _. apply wp_bind, wp_get.
        assert (M_READONLY s1 (set_len n1 0) = false) as Hro.
        { change (M_READONLY s1 (set_len n1 0)) with (M_READONLY s1 n1).
          eapply alone_writable; [done|done|]. intros _. rewrite He. simpl. flag_simpl. done. }
        assert (m_trailingspace s1 (set_len n1 0) = capacity s1 n1) as Hts.
        { unfold m_trailingspace. rewrite Hro. change (is_ext (set_len n1 0)) with (is_ext n1). rewrite Hx1.
          change (capacity s1 (set_len n1 0)) with (capacity s1 n1). rewrite He. simpl. lia. }
        cbv beta zeta. rewrite Hts. cbn [m_len set_len].
        set (k1 := Z.min (Z.min (capacity s1 n1) len) (m_len m - off)).
        set (n2 := set_len _ k1). unfold MCLBYTES in *.
        assert (good s1 m) as Hgm by (eapply good_buf, Hg; by apply Hk1).
        assert (m_data n1 = 0) as Hd1 by (by rewrite He).
        eapply (wp_copy_bytes s1 m n2 ms off len k1); [|done|done|done| |lia|lia|lia|lia| | |done|].
        -- eapply W_core, HW1. by split.
        -- done.
        -- unfold data_start. change (is_ext n2) with (is_ext n1). rewrite Hx1. unfold n2. rewrite He. done.
        -- change (capacity s1 n2) with (capacity s1 n1). change (m_data n2) with (m_data n1). rewrite Hd1. lia.
        -- intros n' s2 HW2 Hk2 [] Hn'.
           assert (n' = set_dat (set_len n1 k1) (m_dat n')) as Hn'' by (rewrite Hn'; done).
           apply HQ; [done|by eapply keeps_trans| |done|].
           ++ split; try done.
              ** rewrite pc_data0. by rewrite (mdata_buf s s1) by (by apply Hk1).
              ** rewrite Hn'', He. done.
              ** rewrite Hn'', He. unfold is_pkthdr. simpl. flag_simpl. done.
              ** rewrite Hn'', He. unfold zer. simpl. flag_simpl. done.
           ++ intros _. apply private_alone.
              ** rewrite Hn''. exact Ha1.
              ** intros _. rewrite Hn'', He. simpl. flag_simpl. done.
    + set (n1 := set_ext (set_data (set_len n k) (m_data m + off)) (m_ext m)).
      assert (W s (n1 :: ms)) as HW1 by (eapply W_core, HW; split; try done; intros ?; congruence).
      eapply wp_m_extref; [done|done|done|done|done|]. intros s2 n2 HW2 Hk2 Hx2 Hb2.
      apply HQ; [done|done| |done|done].
      assert (capacity s2 n2 = capacity s m) as Hc2 by (unfold capacity; by rewrite Hb2).
      split; try done.
      * unfold n2. simpl. unfold k. lia.
      * unfold n2. simpl. unfold k. lia.
      * split; [unfold n2; simpl; lia| |].
        -- unfold data_start. rewrite Hx2. unfold n2. simpl. lia.
        -- rewrite Hc2. unfold n2. simpl. unfold k. lia.
      * unfold mdata. rewrite Hb2. rewrite slice_slice; [done|lia|lia|unfold n2; simpl; unfold k; lia..].
      * unfold n2, is_pkthdr. simpl. flag_simpl. done.
      * unfold n2, zer. simpl. flag_simpl. done.
  - specialize (Hroom eq_refl).
    eapply (wp_copy_bytes s m (set_len n k) ms off len k); [done..|lia|lia|lia|lia|done| |done|].
    + change (capacity s (set_len n k)) with (capacity s n). simpl. rewrite Hcap, Hd. lia.
    + intros n' s2 HW2 Hk2 [] Hn'. apply HQ; [done|done| | |].
      * by split.
      * intros _. rewrite Hn'. done.
      * intros _ Hxn. exfalso. rewrite Hn' in Hxn. unfold is_ext in *. simpl in Hxn. congruence.
Qed.

Lemma alone_of_private m ms : private (m :: ms) m -> alone m ms.
Proof.
  intros Hp Hx. destruct (Hp Hx) as [_ Hr]. rewrite refs_cons, Hx, Nat.eqb_refl in Hr. simpl in Hr. congruence.
Qed.

Lemma private_snoc deep n top ms :
  (deep = true -> Forall (private (top ++ ms)) top) -> (deep = true -> private (n :: top ++ ms) n) ->
  deep = true -> Forall (private ((top ++ [n]) ++ ms)) (top ++ [n]).
Proof.
  intros Ht Hn Hd. specialize (Ht Hd). specialize (Hn Hd).
  assert ((top ++ [n]) ++ ms ≡ₚ n :: top ++ ms) as Hp.
  { rewrite <- app_assoc. simpl. by rewrite Permutation_middle. }
  apply list.Forall_app. split.
  - rewrite list.Forall_forall in Ht |- *. intros x Hx. rewrite Hp.
    apply private_cons; [auto|set_solver|by apply alone_of_private].
  - constructor; [by rewrite Hp|constructor].
Qed.

(** ** The new mbuf and its packet header *)

(** The header of the first mbuf of a copy of [len] bytes. *)
Definition copied_hdr (m0 : mbuf) (len : Z) : pkthdr :=
  if len =? M_COPYALL then dup_hdr m0 else ph_set_len (dup_hdr m0) len.

(** What the first copied mbuf needs of the packet header it gets. *)
Definition hdr_src (m0 : mbuf) : Prop :=
  is_pkthdr m0 = true /\ zer m0 = false /\ Forall tag_ok (ph_tags (m_pkthdr m0)).

Lemma wp_copym_new s n m0 ms t wait (copyhdr : bool) Q :
  W s (n :: ms) -> new_mbuf n t -> (copyhdr = true -> hdr_src m0) ->
  (forall n' s', refused wait s -> W s' (n' :: ms) -> scl s s' -> zer n' = false -> Q (ENOBUFS, n') s') ->
  (forall n' s', W s' (n' :: ms) -> scl s s' -> empty_in s' n' -> zer n' = false ->
     is_pkthdr n' = copyhdr -> (copyhdr = true -> m_pkthdr n' = dup_hdr m0) -> Q (0, n') s') ->
  wp (if copyhdr then m_dup_pkthdr n m0 wait else ret (0, n)) Q s.
Proof.
  intros HW (Ht & Hf & Hd) Hsrc HN HS.
  assert (is_ext n = false) as Hx by (unfold is_ext; by rewrite Hf).
  assert (is_pkthdr n = false) as Hp by (unfold is_pkthdr; by rewrite Hf).
  destruct copyhdr.
  - destruct (Hsrc eq_refl) as (Hp0 & Hz0 & Htok). destruct (hdr_flags_bits n m0) as (B1 & _ & B3 & B4).
    eapply wp_m_dup_pkthdr; [done| |done|done| |].
    + unfold tagc. by rewrite Hp.
    + intros n' s' Hw Hcl HW' (Hff & _). apply HN; try done. unfold zer. by rewrite Hff, B4.
    + intros s' Hcl HW'. unfold dup_to in *. rewrite Hx in *. apply HS; try done.
      * split; [unfold is_ext; simpl; by rewrite B1|]. simpl.
        unfold data_start, is_ext at 1, is_pkthdr at 1. simpl. by rewrite B1, B3, Hp0.
      * unfold zer. simpl. by rewrite B4.
      * unfold is_pkthdr. simpl. by rewrite B3.
  - apply wp_ret. apply HS; try done; [|unfold zer; by rewrite Hf].
    split; [done|]. unfold data_start. by rewrite Hx, Hp.
Qed.

(** ** The loop *)

(** The bytes a copy from [off] takes. *)
Definition copied (len off : Z) (b : list Z) : list Z :=
  if len =? M_COPYALL then zdrop off b else slice off len b.

Lemma nozero_app l1 l2 : nozero (l1 ++ l2) <-> nozero l1 /\ nozero l2.
Proof. apply list.Forall_app. Qed.

Definition len_ok (len off n : Z) : Prop :=
  len = M_COPYALL \/ (len < M_COPYALL /\ off + len <= n).

Lemma copied_step len off k b :
  0 <= off -> 0 <= k -> 0 <= len -> off + k <= zlen b -> len_ok len off (zlen b) -> (len = M_COPYALL \/ k <= len) ->
  copied len off b =
    slice off k b ++ copied (if negb (len =? M_COPYALL) then len - k else len) (off + k) b.
Proof.
  intros Ho Hk Hl0 Hz Hok Hl. unfold copied. destruct (Z.eqb_spec len M_COPYALL) as [->|Hne]; cbn [negb].
  - rewrite Z.eqb_refl. unfold slice. rewrite <- (zdrop_zdrop k off) by lia. by rewrite ztake_zdrop.
  - destruct Hl as [?|Hl]; [done|]. destruct Hok as [?|[Hlt _]]; [done|].
    rewrite (proj2 (Z.eqb_neq (len - k) M_COPYALL)) by lia.
    replace len with (k + (len - k)) at 1 by lia. by rewrite slice_split by lia.
Qed.

Lemma copied_skip len off a b :
  zlen a <= off -> copied len off (a ++ b) = copied len (off - zlen a) b.
Proof. intros H. unfold copied. destruct (_ =? _); [by rewrite zdrop_app_ge|by rewrite slice_app_r]. Qed.

(** One new mbuf: [m_get], the packet header for the first, and the data. *)
Lemma wp_copym_one s m0 m off len wait deep (copyhdr : bool) top rest Q :
  W s (top ++ rest) -> m ∈ rest -> good s m -> 0 <= off <= m_len m -> 0 < len ->
  (copyhdr = true -> hdr_src m0 /\ (is_ext m = false -> m_len m - off <= MHLEN)) -> nozero top ->
  (forall s', refused wait s -> W s' rest -> keeps s s' rest -> Q None s') ->
  (forall n n0 s', W s' (n :: top ++ rest) -> keeps s s' (top ++ rest) -> piece s m off len n0 s' n ->
     zer n = false -> is_pkthdr n = copyhdr -> (copyhdr = true -> m_pkthdr n = copied_hdr m0 len) ->
     (deep = true -> private (n :: top ++ rest) n) -> Q (Some n) s') ->
  wp (copym_one m0 m off len wait deep copyhdr top) Q s.
Proof.
  intros HW Hin Hgm Hoff Hl Hch Hnz HN HS. unfold copym_one.
  apply wp_bind. eapply wp_m_get; [done|intros s' Hw HW' Hcl|intros n s1 HW1 Hcl1 Hnew].
  { apply wp_bind, (wp_m_freem top s' rest); [done|by apply nozero_zok|]. intros s2 HW2 Hk2. apply wp_ret.
    apply HN; [done|done|]. eapply keeps_trans, Hk2. by apply keeps_cl. }
  apply wp_bind. eapply (wp_copym_new s1 n m0 (top ++ rest)); [done|done|by intros E; apply Hch| |].
  { intros n' s2 Hw HW2 Hcl2 Hz2. cbn [Z.eqb negb ENOBUFS]. apply wp_bind, (wp_m_freem _ s2 rest).
    - rewrite <- app_assoc. simpl. by rewrite <- Permutation_middle.
    - apply nozero_zok, nozero_app. split; [done|by constructor].
    - intros s3 HW3 Hk3. apply wp_ret. apply HN; [by eapply refused_scl|done|].
      eapply keeps_trans, Hk3. apply keeps_cl. by eapply scl_trans. }
  intros n2 s2 HW2 Hcl2 Hem Hz2 Hp2 Hph2. cbn [Z.eqb negb].
  set (n3 := if copyhdr && _ then _ else n2).
  assert (same_core n2 n3 /\ empty_in s2 n3 /\ zer n3 = false /\ is_pkthdr n3 = copyhdr /\
    (copyhdr = true -> m_pkthdr n3 = copied_hdr m0 len)) as (Hsc & Hem3 & Hz3 & Hp3 & Hph3).
  { destruct Hem. unfold n3, copied_hdr. destruct copyhdr; cbn [andb].
    - destruct (Z.eqb_spec len M_COPYALL); cbn [negb].
      + split_and!; [done|by split|done|done|auto].
      + split_and!; [by split|by split|done|done|]. intros _. simpl. by rewrite Hph2.
    - split_and!; [done|by split|done|done|done]. }
  assert (keeps s s2 (top ++ rest)) as Hk2 by (apply keeps_cl; by eapply scl_trans).
  assert (m ∈ top ++ rest) as Hmin by (apply elem_of_app; by right).
  assert (good s2 m) as Hgm2 by (eapply good_buf, Hgm; by apply Hk2).
  apply wp_bind. eapply (wp_copym_fill s2 m n3 (top ++ rest)); [by eapply W_core|done|done|lia|lia|done| |].
  { intros Hix. unfold data_start. rewrite (em_ext _ _ Hem3), Hp3. destruct copyhdr eqn:Ech.
    - destruct (Hch eq_refl) as (_ & Hfit). specialize (Hfit Hix). unfold MHLEN in Hfit. lia.
    - destruct Hgm2 as [_ Hs He]. pose proof (data_start_nonneg m). unfold capacity in He.
      assert (buf s2 m = m_dat m) as Hb by (unfold buf; by rewrite Hix). rewrite Hb in He.
      rewrite (W_dat HW2 m) in He by (by right). lia. }
  intros n' s3 HW3 Hk3 [C1 C2 C3 C4 C5 C6 C7] _ Hdeep. apply wp_ret. apply (HS n' n3 s3); try done.
  - by eapply keeps_trans.
  - split; try done. rewrite C4. f_equal. apply mdata_buf. by apply Hk2.
  - congruence.
  - congruence.
  - intros E. rewrite C5. auto.
Qed.

Lemma copym_loop_eq fuel m0 m r off len wait deep copyhdr top :
  0 < len ->
  copym_loop (S fuel) m0 (m :: r) off len wait deep copyhdr top =
    (q <- copym_one m0 m off len wait deep copyhdr top ;;
     match q with
     | None => ret []
     | Some n =>
         let len := if negb (len =? M_COPYALL) then len - m_len n else len in
         let off := off + m_len n in
         if m_len m <? off then panic else
         if off =? m_len m then copym_loop fuel m0 r 0 len wait deep false (top ++ [n])
         else copym_loop fuel m0 (m :: r) off len wait deep false (top ++ [n])
     end).
Proof. intros H. simpl. by rewrite (proj2 (Z.leb_gt _ _)). Qed.

(** The result of copying: the new mbufs [top2] after those already there. *)
Record copies (s : mst) (deep copyhdr : bool) (m0 : mbuf) (b : list Z) (plen : Z)
    (top rest : list mbuf) (top2 : list mbuf) (s' : mst) : Prop := {
  cp_W : W s' ((top ++ top2) ++ rest);
  cp_keeps : keeps s s' (top ++ rest);
  cp_good : Forall (good s') top2;
  cp_bytes : bytes s' top2 = b;
  cp_deep : deep = true -> Forall (private ((top ++ top2) ++ rest)) (top ++ top2);
  cp_zer : nozero top2;
  cp_hdr : match top2 with
           | [] => True
           | n :: r => is_pkthdr n = copyhdr /\ (copyhdr = true -> m_pkthdr n = copied_hdr m0 plen) /\
                       Forall (fun m => is_pkthdr m = false) r
           end }.

Lemma copies_nil s deep copyhdr m0 len top rest :
  W s (top ++ rest) -> (deep = true -> Forall (private (top ++ rest)) top) ->
  copies s deep copyhdr m0 [] len top rest [] s.
Proof. intros. split; rewrite ?app_nil_r; done || constructor. Qed.

(** A first piece, and the rest of the copy. *)
Lemma copies_cons s s' s2 deep copyhdr m0 b b2 plen plen2 top rest n top2 :
  keeps s s' (top ++ rest) -> good s' n -> zer n = false -> is_pkthdr n = copyhdr ->
  (copyhdr = true -> m_pkthdr n = copied_hdr m0 plen) -> b = mdata s' n ++ b2 ->
  copies s' deep false m0 b2 plen2 (top ++ [n]) rest top2 s2 ->
  copies s deep copyhdr m0 b plen top rest (n :: top2) s2.
Proof.
  intros Hk Hg Hz Hp Hph Hb [D1 D2 D3 D4 D5 D6 D7].
  assert ((top ++ [n]) ++ top2 = top ++ n :: top2) as Eq by (by rewrite <- app_assoc). rewrite Eq in *.
  rewrite <- app_assoc in D2. apply keeps_app in D2 as [D2a D2b].
  simpl in D2b. apply keeps_cons in D2b as [D2n D2b]. split; try done.
  - eapply keeps_trans; [done|]. apply keeps_app. by split.
  - constructor; [|done]. by eapply good_buf.
  - rewrite bytes_cons, (mdata_buf s' s2), D4 by done. done.
  - by constructor.
  - split_and!; [done..|]. destruct top2 as [|x top2]; [constructor|]. destruct D7 as (? & _ & ?). by constructor.
Qed.

Lemma wp_copym_loop fuel : forall s m0 cur off len wait deep copyhdr top rest Q,
  (length cur + Z.to_nat (chain_len cur - off) <= fuel)%nat ->
  W s (top ++ rest) -> (forall m, m ∈ cur -> m ∈ rest) -> Forall (good s) cur ->
  0 <= off -> match cur with [] => off = 0 | m :: _ => off <= m_len m end ->
  0 <= len -> len_ok len off (chain_len cur) ->
  (copyhdr = true -> hdr_src m0 /\
     match cur with [] => True | m :: _ => is_ext m = false -> m_len m - off <= MHLEN end) ->
  nozero top -> (deep = true -> Forall (private (top ++ rest)) top) ->
  (forall s', refused wait s -> W s' rest -> keeps s s' rest -> Q [] s') ->
  (forall top2 s', copies s deep copyhdr m0 (copied len off (bytes s cur)) len top rest top2 s' ->
     Q (top ++ top2) s') ->
  wp (copym_loop fuel m0 cur off len wait deep copyhdr top) Q s.
Proof.
  induction fuel as [|fuel IH];
    intros s m0 cur off len wait deep copyhdr top rest Q Hf HW Hsub Hg Ho Hoff Hl Hok Hch Hnz Hdp HN HS.
  all: assert (copied len off (bytes s cur) = [] -> Q top s) as Hend by
    (intros E; rewrite <- (app_nil_r top); apply HS; rewrite E; by apply copies_nil).
  all: destruct (Z.eq_dec len 0) as [Hz|Hnzl];
    [rewrite Hz in *; destruct cur; apply wp_ret; by apply Hend|].
  all: destruct cur as [|m r]; [simpl; rewrite (proj2 (Z.leb_gt len 0)) by lia;
    destruct Hok as [->|[_ Hle]]; [|simpl in *; lia]; apply wp_ret, Hend; unfold copied;
    by apply zdrop_all|simpl in Hf; try lia].
  rewrite copym_loop_eq by lia. pose proof Hg as [Hgm Hgr]%list.Forall_cons. pose proof Hgm as [Hml _ _].
  pose proof (chain_len_nonneg _ _ Hgr) as Hcr.
  apply wp_bind. eapply (wp_copym_one s m0 m off len wait deep copyhdr top rest);
    [done|apply Hsub; left|done|lia|lia|done|done| |].
  { intros s' Hw HW' Hk'. apply wp_ret. by apply HN. }
  intros n' n0 s3 HW3 Hk03 [C1 C2 C3 C4 C5 C6 C7] Hz3 Hp3 Hph3 Hdeep.
  cbv beta iota zeta. set (k := m_len n') in *. set (len' := if negb (len =? M_COPYALL) then len - k else len) in *.
  rewrite (proj2 (Z.ltb_ge (m_len m) (off + k))) by lia.
  pose proof (zlen_mdata _ _ Hgm) as Hzm. pose proof (zlen_bytes _ _ Hg) as Hzb.
  assert (len = M_COPYALL \/ k <= len) as Hkl by lia.
  assert (0 <= len' /\ len_ok len' (off + k) (chain_len (m :: r))) as [Hl' Hok'].
  { unfold len'. destruct (Z.eqb_spec len M_COPYALL); cbn [negb]; [split; [done|by left]|].
    destruct Hok as [?|[? ?]]; [done|]. split; [lia|]. right. lia. }
  assert (nozero (top ++ [n'])) as Hnz'.
  { apply nozero_app. split; [done|]. by constructor. }
  assert (W s3 ((top ++ [n']) ++ rest)) as HW3'.
  { rewrite <- app_assoc. simpl. by rewrite <- Permutation_middle. }
  assert (copied len off (bytes s (m :: r)) = mdata s3 n' ++ copied len' (off + k) (bytes s (m :: r))) as Hstep.
  { rewrite (copied_step len off k) by (lia || done || (rewrite Hzb; simpl in *; lia) || by rewrite Hzb).
    f_equal. rewrite bytes_cons, slice_app_l by lia. by rewrite C4. }
  assert (forall top2 s', copies s3 deep false m0 (copied len' (off + k) (bytes s (m :: r))) len'
      (top ++ [n']) rest top2 s' -> Q ((top ++ [n']) ++ top2) s') as Hfin.
  { intros top2 s' Hcp. rewrite <- app_assoc. simpl. apply HS. eapply copies_cons; done. }
  assert (forall s', refused wait s3 -> W s' rest -> keeps s3 s' rest -> Q [] s') as HN'.
  { intros s' Hw HW' Hk'. apply HN; [by eapply refused_keeps|done|].
    eapply keeps_trans, Hk'. apply keeps_app in Hk03. by destruct Hk03. }
  assert (keeps s s3 (m :: r)) as Hkc.
  { split; [|by apply Hk03]. intros x Hx. apply Hk03. apply elem_of_app. right. auto. }
  pose proof (private_snoc deep n' top rest Hdp Hdeep) as Hpr.
  rewrite <- (bytes_keeps s s3 (m :: r) Hkc) in Hfin. clear HS HN Hend Hstep C4.
  destruct (Z.eqb_spec (off + k) (m_len m)) as [Heq|Hneq].
  - apply keeps_cons in Hkc as [Hb Hkr]. apply IH with rest; try done; [simpl in *; lia|..].
    + intros x Hx. apply Hsub. by right.
    + by eapply good_keeps.
    + destruct r as [|x r]; [done|]. by apply list.Forall_cons in Hgr as [[] _].
    + destruct Hok' as [?|[? ?]]; [by left|right; simpl in *; lia].
    + rewrite bytes_cons, (mdata_buf s s3), copied_skip in Hfin by (done || lia).
      by replace (off + k - zlen (mdata s m)) with 0 in Hfin by lia.
  - apply IH with rest; try done; [| |lia|lia].
    + specialize (C2 ltac:(lia)). simpl in *. lia.
    + by eapply good_keeps.
Qed.

(** The header of the copy has the length of the copy. *)
Lemma copies_hdr_ok s s' deep copyhdr m0 c len rest top :
  Forall (good s) c -> hdr_ok c -> head c = Some m0 -> (copyhdr = true -> is_pkthdr m0 = true) ->
  0 <= len -> len_ok len 0 (chain_len c) ->
  forall off, (copyhdr = true -> off = 0) ->
  copies s deep copyhdr m0 (copied len off (bytes s c)) len [] rest top s' -> hdr_ok top.
Proof.
  intros Hg Hh Hhd Hp Hl Hok off Hoff [_ _ Hgt Hb _ _ Hhdr]. destruct top as [|n r]; [done|].
  destruct Hhdr as (Hpn & Hph & _). intros E. rewrite Hpn in E. subst copyhdr. rewrite Hoff in Hb by done.
  rewrite <- (zlen_bytes s') by done. rewrite Hb, Hph by done.
  destruct c as [|x c]; [done|]. simplify_eq/=. specialize (Hh (Hp E)).
  pose proof (zlen_bytes s (m0 :: c) Hg) as Hz. unfold copied, copied_hdr.
  destruct (Z.eqb_spec len M_COPYALL) as [->|Hne].
  - rewrite zdrop_0 by lia. rewrite Hz. done.
  - destruct Hok as [?|[? ?]]; [done|]. rewrite zlen_slice by (rewrite ?Hz; simpl in *; lia). done.
Qed.

(** The copy starts with a packet header exactly when it is taken from the
    start of a chain that does, and the header is the original's with the
    length of the copy; no other mbuf has one. *)
Definition hdr_copied (off len : Z) (m0 : mbuf) (top : list mbuf) : Prop :=
  match top with
  | [] => True
  | n :: r => is_pkthdr n = (off =? 0) && is_pkthdr m0 /\
      (is_pkthdr n = true -> m_pkthdr n = copied_hdr m0 len) /\
      Forall (fun m => is_pkthdr m = false) r
  end.

Lemma wp_m_copym0 s m0 r fr off len wait deep :
  owns s (m0 :: r) fr -> (off = 0 -> hdr_ok (m0 :: r)) -> 0 <= off <= chain_len (m0 :: r) -> 0 <= len ->
  len_ok len off (chain_len (m0 :: r)) ->
  (off = 0 -> is_pkthdr m0 = true -> hdr_src m0 /\ (0 < m_len m0 \/ r = [])) ->
  wp (m_copym0 (m0 :: r) off len wait deep) (fun top s' => keeps s s' ((m0 :: r) ++ fr) /\
    (refused wait s /\ top = [] /\ W s' ((m0 :: r) ++ fr) \/
     owns s' top ((m0 :: r) ++ fr) /\ bytes s' top = copied len off (bytes s (m0 :: r)) /\ hdr_ok top /\
     hdr_copied off len m0 top /\ nozero top /\
     (deep = true -> Forall (fun m => M_READONLY s' m = false) top))) s.
Proof.
  intros [HW Hg] Hh Hoff Hl Hok Hsrc. unfold m_copym0.
  rewrite (proj2 (Z.ltb_ge off 0)), (proj2 (Z.ltb_ge len 0)) by lia. cbn [orb].
  set (copyhdr := (off =? 0) && is_pkthdr m0).
  assert (copyhdr = true -> off = 0 /\ is_pkthdr m0 = true) as Hch.
  { unfold copyhdr. intros [?%Z.eqb_eq ?]%andb_true_iff. done. }
  apply wp_bind, wp_m_getptr; [done|done|lia|lia|].
  intros pre m cur o Hc Hoff' Ho Hend.
  replace (drop (length pre) (m0 :: r)) with (m :: cur) by (rewrite Hc; by rewrite drop_app_length).
  assert (Forall (good s) pre /\ Forall (good s) (m :: cur)) as [Hgp Hgc]
    by (rewrite Hc in Hg; by apply list.Forall_app in Hg).
  pose proof (chain_len_nonneg _ _ Hgp) as Hcp. pose proof (zlen_bytes _ _ Hgp) as Hzp.
  assert (chain_len (m0 :: r) = chain_len pre + chain_len (m :: cur)) as Hcl by (rewrite Hc; apply chain_len_app).
  assert (copyhdr = true -> m = m0) as Hm0.
  { intros E. destruct (Hch E) as [-> Hp0]. destruct (Hsrc eq_refl Hp0) as [_ Hne].
    destruct pre as [|x pre]; [by injection Hc|]. exfalso. injection Hc as <- Hr.
    apply list.Forall_cons in Hgp as [[] Hgp]. pose proof (chain_len_nonneg _ _ Hgp). simpl in *.
    destruct Hne as [?|Hne]; [lia|]. rewrite Hne in Hr. by destruct pre. }
  assert (copied len o (bytes s (m :: cur)) = copied len off (bytes s (m0 :: r))) as Hcpd.
  { rewrite Hc, chain_bytes_app, copied_skip by lia. f_equal. lia. }
  apply (wp_copym_loop _ s m0 (m :: cur) o len wait deep copyhdr [] ((m0 :: r) ++ fr)); try done.
  - unfold copym_fuel. rewrite Hcl, Hc, length_app. lia.
  - intros x Hx. rewrite Hc. set_solver.
  - lia.
  - lia.
  - destruct Hok as [?|[? ?]]; [by left|right; lia].
  - intros E. destruct (Hch E) as [E0 Hp0]. split; [by apply Hsrc|]. rewrite (Hm0 E). intros Hx.
    apply list.Forall_cons in Hg as [[_ Hs He] _]. unfold data_start in Hs. rewrite Hx, Hp0 in Hs.
    rewrite (capacity_int _ _ _ _ HW Hx) in He. unfold MHLEN. lia.
  - by constructor.
  - intros s' Hw HW' Hk'. split; [done|]. by left.
  - intros top s' Hcp2. rewrite Hcpd in Hcp2. simpl.
    pose proof Hcp2 as [D1 D2 D3 D4 D5 D6 D7]. cbn [app] in *. split; [done|]. right.
    split_and!; [by split|done| | |done|].
    + destruct (Sumbool.sumbool_of_bool copyhdr) as [Ec|Ec].
      * destruct (Hch Ec) as [E0 Ep]. eapply (copies_hdr_ok s s' deep copyhdr m0 (m0 :: r));
          [done|by apply Hh|done|done|exact Hl| |intros _; exact E0|exact Hcp2]. by rewrite E0 in Hok.
      * destruct top as [|x t]; [done|]. destruct D7 as [D7 _]. simpl. congruence.
    + unfold hdr_copied. destruct top as [|x t]; [done|]. destruct D7 as (-> & D7). done.
    + intros Ed. specialize (D5 Ed). rewrite list.Forall_forall in D5 |- *. intros x Hx.
      eapply private_writable; [done| |by apply D5]. set_solver.
Qed.

(** C12: [m_copym] and [m_copym2] copy [len] bytes from [off] on, all that
    follow for [M_COPYALL]: the copy holds exactly these bytes; it starts with
    a packet header exactly when [off] is 0 and the chain has one, a duplicate
    of it with the length of the copy; the original and all other buffers stay
    as they are; the mbufs of a deep copy can be written without affecting
    anyone.  They fail only when the pools refuse, and then leave nothing
    behind.  The chain must hold the bytes.  When its packet header is copied,
    it must not start with an empty mbuf followed by others, its tags must be
    well-formed and its first mbuf must not have M_ZEROIZE set ([hdr_src]): the
    flag is copied with the header, and undoing a partial copy would zero, and
    for a shared cluster panic. *)
Theorem m_copym_correct s m0 r fr off len wait deep :
  owns s (m0 :: r) fr -> (off = 0 -> hdr_ok (m0 :: r)) -> 0 <= off <= chain_len (m0 :: r) -> 0 <= len ->
  len_ok len off (chain_len (m0 :: r)) ->
  (off = 0 -> is_pkthdr m0 = true -> hdr_src m0 /\ (0 < m_len m0 \/ r = [])) ->
  wp (m_copym0 (m0 :: r) off len wait deep) (fun top s' => keeps s s' ((m0 :: r) ++ fr) /\
    (refused wait s /\ top = [] /\ W s' ((m0 :: r) ++ fr) \/
     owns s' top ((m0 :: r) ++ fr) /\ bytes s' top = copied len off (bytes s (m0 :: r)) /\ hdr_ok top /\
     hdr_copied off len m0 top /\ nozero top /\
     (deep = true -> Forall (fun m => M_READONLY s' m = false) top))) s.
Proof. apply wp_m_copym0. Qed.
