(* ===== verification/MbufSplit.v ===== *)
(** * Splitting and injecting: m_split, m_inject *)

From stdpp Require Import base numbers list option gmap.
From Stdlib Require Import ZArith Lia Bool.
From S2P Require Import Prelude Mbuf MbufOps MbufFacts MbufInv MbufExt MbufFree MbufChain MbufTrim.
From S2P Require Import MbufJoin MbufPull MbufCopy.

(** ** Splitting one mbuf *)

(** [n] refers to the cluster of [m], if it has one. *)
Definition shares (m n : mbuf) : Prop := is_ext m = true -> is_ext n = true /\ m_ext n = m_ext m.

Lemma wp_split_tail s m n r rest len Q :
  W s (n :: m :: rest) -> good s m -> 0 <= len <= m_len m -> is_ext n = false ->
  (is_ext m = false -> data_start n <= m_data n /\ m_data n + (m_len m - len) <= MLEN) ->
  (forall n' s', W s' (n' :: set_len m len :: rest) -> keeps s s' (m :: rest) -> good s' n' ->
     mdata s' n' = zdrop len (mdata s m) -> m_pkthdr n' = m_pkthdr n -> is_pkthdr n' = is_pkthdr n ->
     shares m n' -> Q (set_len m len, n' :: r) s') ->
  wp (split_tail m n r len (m_len m - len)) Q s.
Proof.
  intros HW Hg Hl Hx Hroom HQ. pose proof (good_data _ _ Hg). pose proof Hg as [? ? ?].
  pose proof (zlen_mdata _ _ Hg) as Hz. unfold split_tail.
  assert (forall d s' (n' : mbuf), Wd d s' (n' :: m :: rest) -> Wd d s' (n' :: set_len m len :: rest)) as Hcore.
  { intros d s' n'. by apply (W_core_mid d s' m (set_len m len) [n'] rest). }
  assert (slice len (m_len m - len) (mdata s m) = zdrop len (mdata s m)) as Hsl.
  { unfold slice. apply ztake_all. rewrite zlen_zdrop; lia. }
  apply wp_bind. destruct (is_ext m) eqn:Hmx.
  - cbv zeta. set (n1 := set_ext n (m_ext m)).
    assert (W s (n1 :: m :: rest)) as HW1 by (eapply W_core, HW; split; try done; intros ?; congruence).
    apply wp_bind. eapply wp_m_extref; [done|left|done|done|done|]. intros s2 n2 HW2 Hk2 Hx2 Hb2.
    apply wp_ret, wp_ret. set (n3 := set_len (set_data n2 (m_data m + len)) (m_len m - len)).
    assert (buf s2 n3 = buf s m) as Hb3 by exact Hb2.
    apply HQ; [|done| | |done| |by split].
    + apply Hcore. eapply W_core, HW2. by split.
    + split; [simpl; lia| |].
      * unfold data_start. change (is_ext n3) with (is_ext n2). rewrite Hx2. simpl. lia.
      * unfold capacity. rewrite Hb3. fold (capacity s m). simpl. lia.
    + rewrite <- Hsl. unfold mdata. rewrite Hb3. by rewrite slice_slice by lia.
    + unfold is_pkthdr, n3, n2, n1. simpl. flag_simpl. done.
  - destruct (Hroom eq_refl) as [Hd Hroom'].
    apply wp_bind, wp_mread; [lia..|].
    assert (slice (m_data m + len) (m_len m - len) (buf s m) = zdrop len (mdata s m)) as ->.
    { rewrite <- Hsl. unfold mdata. by rewrite slice_slice by lia. }
    assert (zlen (zdrop len (mdata s m)) = m_len m - len) as Hzd by (rewrite zlen_zdrop; lia).
    eapply wp_fill; [done|intros ?; congruence|done| |].
    + rewrite (capacity_int _ _ _ _ HW Hx). lia.
    + intros n' s' n'' HW' Hk Hg' Hd' Hn'. apply wp_ret.
      assert (set_len n' (m_len m - len) = n'') as -> by (unfold n''; by rewrite Hzd).
      apply HQ; [by apply Hcore|done|done|done|..|intros ?; congruence]; unfold n''; rewrite Hn'; done.
Qed.

(** ** m_split *)

(** The mbuf where the chain is split, when it has no cluster and the chain a
    packet header, leaves at most [MHLEN] bytes for the new first mbuf. *)
Definition split_fits (c : list mbuf) (len0 : Z) : Prop :=
  match seek_len [] c len0, c with
  | Some (_, m, _, len), m0 :: _ =>
      is_pkthdr m0 = true -> is_ext m = false -> m_len m - len <= MHLEN
  | _, _ => True
  end.

(** Where a chain is cut: the mbufs before the cut are those of the chain, the
    last of them shortened, the first with the new length of the packet; the
    mbufs after it too, behind an mbuf that shares the cluster that was cut. *)
Definition cut_at (c : list mbuf) (len0 : Z) (p : list mbuf * list mbuf) : Prop :=
  exists q m r len, c = q ++ m :: r /\ 0 <= len <= m_len m /\ len0 = chain_len q + len /\
    p.1 = (match c with
           | m0 :: _ => if is_pkthdr m0 then on_head (fun m0 => set_phlen m0 len0) else id
           | [] => id
           end) (q ++ [set_len m len]) /\
    (p.2 = r /\ len = m_len m \/ exists n, p.2 = n :: r /\ shares m n).

(** The two halves. *)
Definition halves (s : mst) (c fr : list mbuf) (len0 : Z) (p : list mbuf * list mbuf) (s' : mst) : Prop :=
  keeps s s' (c ++ fr) /\ W s' (p.1 ++ p.2 ++ fr) /\ Forall (good s') (p.1 ++ p.2) /\
  bytes s' p.1 = ztake len0 (bytes s c) /\ bytes s' p.2 = zdrop len0 (bytes s c) /\
  cut_at c len0 p /\
  (forall m0, head c = Some m0 -> is_pkthdr m0 = true -> hdr_ok p.1 /\ hdr_ok p.2 /\
     (match p.1 with [] => False | n :: _ => is_pkthdr n = true end) /\
     match p.2 with [] => False | n :: _ => is_pkthdr n = true end).

Lemma u32_id x : 0 <= x < 4294967296 -> u32 x = x.
Proof. apply Z.mod_small. Qed.

(** Where the mbuf [m] of [c] is cut. *)
Lemma cut_bytes s pre m r len len0 :
  Forall (good s) (pre ++ m :: r) -> len0 = chain_len pre + len -> 0 <= len <= m_len m ->
  bytes s (pre ++ [set_len m len]) = ztake len0 (bytes s (pre ++ m :: r)) /\
  zdrop len (mdata s m) ++ bytes s r = zdrop len0 (bytes s (pre ++ m :: r)).
Proof.
  intros Hg -> Hl. apply list.Forall_app in Hg as [Hgp Hg]. apply list.Forall_cons in Hg as [Hgm Hgr].
  pose proof (zlen_bytes _ _ Hgp). pose proof (zlen_mdata _ _ Hgm). pose proof (chain_len_nonneg _ _ Hgp).
  rewrite !chain_bytes_app, !bytes_cons, app_nil_r, mdata_set_len by lia.
  rewrite ztake_app_ge, zdrop_app_ge by lia.
  replace (chain_len pre + len - zlen (bytes s pre)) with len by lia.
  by rewrite ztake_app_le, zdrop_app_le by lia.
Qed.

Lemma halves_intro s s' pre m r fr len len0 n' :
  Forall (good s) (pre ++ m :: r) -> len0 = chain_len pre + len -> 0 <= len <= m_len m ->
  W s' (n' :: set_len m len :: pre ++ r ++ fr) -> keeps s s' (m :: pre ++ r ++ fr) -> good s' n' ->
  mdata s' n' = zdrop len (mdata s m) ->
  let p := (pre ++ [set_len m len], n' :: r) in
  keeps s s' fr /\ W s' (p.1 ++ p.2 ++ fr) /\ Forall (good s') (p.1 ++ p.2) /\
  bytes s' p.1 = ztake len0 (bytes s (pre ++ m :: r)) /\
  bytes s' p.2 = zdrop len0 (bytes s (pre ++ m :: r)).
Proof.
  intros Hg Hl0 Hl HW Hk Hgn Hd. cbn [fst snd]. destruct (cut_bytes s pre m r len len0 Hg Hl0 Hl) as [Hb1 Hb2].
  apply keeps_cons in Hk as [Hkm Hk]. apply keeps_app in Hk as [Hkp Hk]. apply keeps_app in Hk as [Hkr Hkf].
  apply list.Forall_app in Hg as [Hgp Hg]. apply list.Forall_cons in Hg as [Hgm Hgr].
  split_and!; [done| | | |].
  - rewrite <- app_assoc. simpl. rewrite <- Permutation_middle, <- Permutation_middle.
    by rewrite Permutation_swap.
  - apply list.Forall_app. split.
    + apply list.Forall_app. split; [by eapply good_keeps|]. constructor; [|constructor].
      apply good_set_len; [|done]. by eapply good_buf.
    + constructor; [done|]. by eapply good_keeps.
  - rewrite <- Hb1. rewrite !chain_bytes_app, !bytes_cons, (bytes_keeps s s') by done.
    do 2 f_equal. unfold mdata. change (buf s' (set_len m len)) with (buf s' m). by rewrite Hkm.
  - by rewrite bytes_cons, Hd, (bytes_keeps s s').
Qed.

(** A new packet header mbuf can be freed. *)
Lemma wp_freem_int s n fr Q :
  W s (n :: fr) -> is_ext n = false -> (forall s', W s' fr -> keeps s s' fr -> Q tt s') ->
  wp (m_freem [n]) Q s.
Proof.
  intros HW Hx HQ. apply (wp_m_freem [n] s fr); [done| |done].
  split; [|done]. intros _. unfold M_READONLY. by rewrite Hx.
Qed.

(** The packet headers of the two halves. *)
Lemma shorten_spec s s' m0 c c1 c2 fr len0 n :
  Forall (good s') (c1 ++ c2) -> W s' (c1 ++ c2 ++ fr) ->
  head c1 = Some m0 -> is_pkthdr m0 = true -> ph_len (m_pkthdr m0) = zlen (bytes s c) ->
  0 <= len0 <= zlen (bytes s c) ->
  bytes s' c1 = ztake len0 (bytes s c) -> bytes s' c2 = zdrop len0 (bytes s c) ->
  head c2 = Some n -> ph_len (m_pkthdr n) = ph_len (m_pkthdr m0) - len0 ->
  let c1' := on_head (fun m0 => set_phlen m0 len0) c1 in
  W s' (c1' ++ c2 ++ fr) /\ Forall (good s') (c1' ++ c2) /\ bytes s' c1' = bytes s' c1 /\
  hdr_ok c1' /\ hdr_ok c2.
Proof.
  intros Hg HW Hh1 Hp Hph Hl Hb1 Hb2 Hh2 Hpn. destruct c1 as [|x c1]; [done|]. injection Hh1 as ->.
  destruct c2 as [|y c2]; [done|]. injection Hh2 as ->. cbn [on_head].
  pose proof Hg as [Hg1 Hg2]%list.Forall_app. pose proof (zlen_bytes _ _ Hg1) as Hz1.
  pose proof (zlen_bytes _ _ Hg2) as Hz2. split_and!.
  - eapply W_core, HW. by split.
  - apply list.Forall_cons in Hg as [[] Hg]. constructor; [by split|done].
  - done.
  - intros _. simpl. change (m_len m0 + chain_len c1) with (chain_len (m0 :: c1)).
    rewrite <- Hz1, Hb1, zlen_ztake; lia.
  - intros _. rewrite Hpn, Hph, <- Hz2, Hb2, zlen_zdrop; lia.
Qed.

Section Split.
Context (s : mst) (m0 : mbuf) (c0 fr q : list mbuf) (m : mbuf) (r : list mbuf) (len len0 : Z).
Context (Q : list mbuf * list mbuf -> mst -> Prop).
Hypothesis Hc : m0 :: c0 = q ++ m :: r.
Hypothesis HW : W s ((m0 :: c0) ++ fr).
Hypothesis Hg : Forall (good s) (m0 :: c0).
Hypothesis Hl0 : len0 = chain_len q + len.
Hypothesis Hlen : 0 <= len <= m_len m.
Hypothesis HS : forall p s', halves s (m0 :: c0) fr len0 p s' -> Q p s'.

Lemma split_perm n s1 : W s1 (n :: (m0 :: c0) ++ fr) -> W s1 (n :: m :: q ++ r ++ fr).
Proof. rewrite Hc, <- app_assoc. simpl. by rewrite <- Permutation_middle. Qed.

Lemma split_good : good s m.
Proof.
  rewrite Hc in Hg. apply list.Forall_app in Hg as [_ Hg']. by apply list.Forall_cons in Hg' as [? _].
Qed.

Lemma split_keeps s1 : keeps s s1 ((m0 :: c0) ++ fr) -> keeps s s1 (m :: q ++ r ++ fr).
Proof. apply keeps_sub. rewrite Hc. set_solver. Qed.

(** Both ways to split end here. *)
Lemma wp_split_end s1 n (f : list mbuf -> list mbuf) :
  W s1 (n :: (m0 :: c0) ++ fr) -> keeps s s1 ((m0 :: c0) ++ fr) -> is_ext n = false ->
  (is_ext m = false -> data_start n <= m_data n /\ m_data n + (m_len m - len) <= MLEN) ->
  (forall n' s', m_pkthdr n' = m_pkthdr n -> is_pkthdr n' = is_pkthdr n -> shares m n' ->
     let c1 := q ++ [set_len m len] in let c2 := n' :: r in
     keeps s s' ((m0 :: c0) ++ fr) -> W s' (c1 ++ c2 ++ fr) -> Forall (good s') (c1 ++ c2) ->
     bytes s' c1 = ztake len0 (bytes s (m0 :: c0)) -> bytes s' c2 = zdrop len0 (bytes s (m0 :: c0)) ->
     Q (f c1, c2) s') ->
  wp (let* '(m1, n1) := split_tail m n r len (m_len m - len) in ret (f (q ++ [m1]), n1)) Q s1.
Proof.
  intros HW1 Hk1 Hx Hroom HQ. pose proof (split_keeps _ Hk1) as Hk1'.
  apply wp_bind. eapply (wp_split_tail s1 m n r (q ++ r ++ fr));
    [by apply split_perm| |done|done|done|].
  { eapply good_buf, split_good. apply Hk1'. left. }
  intros n' s3 HW3 Hk3 Hg3 Hd3 Hph Hp Hsh. apply wp_ret.
  assert (keeps s s3 (m :: q ++ r ++ fr)) as Hk03 by (by eapply keeps_trans).
  assert (keeps s s3 ((m0 :: c0) ++ fr)) as Hkc by (eapply keeps_sub, Hk03; rewrite Hc; set_solver).
  assert (mdata s1 m = mdata s m) as Hmd by (apply mdata_buf, Hk1'; left). rewrite Hmd in Hd3.
  pose proof Hg as Hg'. rewrite Hc in Hg'.
  pose proof (halves_intro s s3 q m r fr len len0 n' Hg' Hl0 Hlen HW3 Hk03 Hg3 Hd3) as (K1 & K2 & K3 & K4 & K5).
  rewrite <- Hc in *. by apply HQ.
Qed.

(** The chain has a packet header, which both halves get. *)
Lemma wp_split_hdr s1 n :
  W s1 (n :: (m0 :: c0) ++ fr) -> keeps s s1 ((m0 :: c0) ++ fr) -> is_ext n = false ->
  (is_ext m = false -> data_start n <= m_data n /\ m_data n + (m_len m - len) <= MLEN) ->
  hdr_ok (m0 :: c0) -> 0 <= len0 <= chain_len (m0 :: c0) ->
  is_pkthdr m0 = true -> is_pkthdr n = true -> ph_len (m_pkthdr n) = ph_len (m_pkthdr m0) - len0 ->
  wp (let* '(m1, n1) := split_tail m n r len (m_len m - len) in
      ret (on_head (fun m0 => set_phlen m0 len0) (q ++ [m1]), n1)) Q s1.
Proof.
  intros HW1 Hk1 Hx Hroom Hh Hl Hp0 Hp Hph.
  apply (wp_split_end s1 n (on_head (fun m0 => set_phlen m0 len0))); [done..|].
  intros n' s3 Hph' Hp' Hsh c1 c2 K1 K2 K3 K4 K5. apply HS.
  pose proof (zlen_bytes _ _ Hg) as Hzb.
  assert (exists x, head c1 = Some x /\ is_pkthdr x = true /\ m_pkthdr x = m_pkthdr m0) as (x & Hhx & Hpx & Hphx).
  { unfold c1. destruct q as [|y q']; injection Hc as -> _; [exists (set_len m len)|exists y]; done. }
  destruct (shorten_spec s s3 x (m0 :: c0) c1 c2 fr len0 n') as (J1 & J2 & J3 & J4 & J5); try done.
  - rewrite Hphx, Hzb. by apply Hh.
  - lia.
  - by rewrite Hph', Hph, Hphx.
  - unfold halves. cbn [fst snd]. split_and!; try done; [by etransitivity| |].
    + exists q, m, r, len. cbn [fst snd]. rewrite Hp0. split_and!; [done|lia|lia|done|done|]. right. by exists n'.
    + intros ? _ _. split_and!; try done; [|unfold c2; congruence].
      destruct c1 as [|y t]; [done|]. by injection Hhx as ->.
Qed.

(** The chain has none. *)
Lemma wp_split_plain wait :
  is_pkthdr m0 = false ->
  (forall s', refused wait s -> W s' ((m0 :: c0) ++ fr) -> keeps s s' ((m0 :: c0) ++ fr) -> Q (m0 :: c0, []) s') ->
  wp (if m_len m - len =? 0 then ret (q ++ [m], r) else
      o <- m_get wait (m_type m) ;;
      match o with
      | None => ret (m0 :: c0, [])
      | Some n =>
          let* '(m1, n1) := split_tail m (M_ALIGN n (m_len m - len)) r len (m_len m - len) in
          ret (q ++ [m1], n1)
      end) Q s.
Proof.
  intros Hp0 HN.
  assert (forall m1, head (m0 :: c0) = Some m1 -> is_pkthdr m1 = true -> False) as Hnp by (intros ? [= <-]; congruence).
  pose proof split_good as Hgm. destruct (Z.eqb_spec (m_len m - len) 0) as [Hr0|Hr0].
  - pose proof Hg as Hg'. rewrite Hc in Hg'. destruct (cut_bytes s q m r len len0 Hg' Hl0 Hlen) as [Hb1 Hb2].
    assert (set_len m len = m) as Hml.
    { clear -Hr0 Hlen. destruct m; simpl in *. unfold set_len. simpl. f_equal. lia. }
    apply wp_ret, HS. rewrite <- Hc in *. unfold halves. cbn [fst snd]. split_and!.
    + done.
    + rewrite <- app_assoc. simpl. rewrite Hc, <- app_assoc in HW. done.
    + rewrite <- app_assoc. simpl. by rewrite <- Hc.
    + by rewrite Hml in Hb1.
    + rewrite <- Hb2. rewrite zdrop_all; [done|]. rewrite zlen_mdata by done. lia.
    + exists q, m, r, len. cbn [fst snd]. rewrite Hp0, Hml. split_and!; [done|lia|lia|done|done|]. left. split; [done|lia].
    + intros m1 H1 H2. by destruct (Hnp m1).
  - apply wp_bind. eapply wp_m_get; [done|intros s' Hw HW' Hcl; apply wp_ret, HN; [done|done|by apply keeps_cl]|].
    intros n s1 HW1 Hcl1 (Hnt & Hnf & Hnd).
    apply (wp_split_end s1 (M_ALIGN n (m_len m - len)) (fun l => l)).
    + eapply W_core, HW1. by split.
    + by apply keeps_cl.
    + unfold is_ext. simpl. by rewrite Hnf.
    + intros Hmx. destruct Hgm as [? ? He].
      rewrite (capacity_int (fun _ => 0) s m (q ++ r ++ fr)) in He; [|..|done].
      2:{ rewrite Hc, <- app_assoc in HW. simpl in HW. by rewrite <- Permutation_middle in HW. }
      pose proof (data_start_nonneg m). pose proof (align8_bounds (MLEN - (m_len m - len)) ltac:(lia)).
      change (data_start (M_ALIGN _ _)) with (data_start n). unfold data_start at 1, is_ext, is_pkthdr.
      rewrite Hnf. simpl. rewrite Hnd. lia.
    + intros n' s' Hph Hp Hsh c1 c2 K1 K2 K3 K4 K5. apply HS. split_and!; try done.
      * exists q, m, r, len. cbn [fst snd]. rewrite Hp0. split_and!; [done|lia|lia|done|done|]. right. by exists n'.
      * intros m1 H1 H2. by destruct (Hnp m1).
Qed.

End Split.

Lemma wp_m_split s c fr len0 wait Q :
  c <> [] -> owns s c fr -> hdr_ok c -> 0 <= len0 <= chain_len c -> len0 <= INT_MAX ->
  split_fits c len0 ->
  (forall m0, head c = Some m0 -> is_pkthdr m0 = true -> Forall tag_ok (ph_tags (m_pkthdr m0))) ->
  (forall s', refused wait s -> W s' (c ++ fr) -> keeps s s' (c ++ fr) -> Q (c, []) s') ->
  (forall p s', halves s c fr len0 p s' -> Q p s') ->
  wp (m_split c len0 wait) Q s.
Proof.
  intros Hne [HW Hg] Hh Hl Hmax Hfit Htg HN HS. unfold m_split, INT_MAX in *. cbn [split_rec].
  unfold split_fits in Hfit. rewrite u32_id by lia.
  pose proof (seek_len_spec s c [] len0 Hg ltac:(lia)) as Hseek.
  destruct (seek_len [] c len0) as [[[[pre m] r] len]|]; [|destruct Hseek; [lia|done]].
  destruct Hseek as (q & -> & Hc & Hl0 & Hlen & _). cbn [app].
  destruct c as [|m0 c0]; [done|]. cbv zeta.
  destruct (is_pkthdr m0) eqn:Hp0; [|by eapply wp_split_plain].
  apply wp_bind. eapply wp_m_gethdr; [done|intros s' Hw HW' Hcl; apply wp_ret, HN; [done|done|by apply keeps_cl]|].
  intros n s1 HW1 Hcl1 (Hnt & Hnf & Hnd & Hnp).
  assert (is_ext n = false) as Hnx by (unfold is_ext; by rewrite Hnf).
  destruct (hdr_flags_bits n m0) as (B1 & _ & B3 & _).
  apply wp_bind. eapply wp_m_dup_pkthdr; [done|unfold tagc; rewrite Hnp; by destruct (is_pkthdr n)|done|by apply Htg| |].
  { intros n' s2 Hw Hcl2 HW2 (Hf2 & _). cbn [Z.eqb negb ENOBUFS]. apply wp_bind.
    eapply wp_freem_int; [done|unfold is_ext; by rewrite Hf2, B1|]. intros s3 HW3 Hk3. apply wp_ret.
    apply HN; [by eapply refused_scl|done|]. eapply keeps_trans, Hk3. apply keeps_cl. by eapply scl_trans. }
  intros s2 Hcl2 HW2. cbn [Z.eqb negb]. unfold dup_to in *. rewrite Hnx in *.
  set (n1 := set_data (set_ph (set_flags n (hdr_flags n m0)) (dup_hdr m0)) PKTHDR_SIZE) in *.
  set (n2 := set_phlen n1 (ph_len (m_pkthdr n1) - len0)).
  assert (is_ext n2 = false /\ is_pkthdr n2 = true) as [Hx2 Hp2].
  { unfold is_ext, is_pkthdr. simpl. rewrite B1, B3. done. }
  assert (data_start n2 = PKTHDR_SIZE) as Hds by (unfold data_start; by rewrite Hx2, Hp2).
  assert (keeps s s2 ((m0 :: c0) ++ fr)) as Hk2 by (apply keeps_cl; by eapply scl_trans).
  destruct (is_ext m) eqn:Hmx.
  { eapply wp_split_hdr; try done; [eapply W_core, HW2; by split|intros ?; congruence]. }
  specialize (Hfit eq_refl eq_refl). rewrite (proj2 (Z.ltb_ge MHLEN (m_len m - len))) by lia.
  pose proof (align8_bounds (MHLEN - (m_len m - len)) ltac:(lia)).
  eapply wp_split_hdr; try done; [eapply W_core, HW2; by split|].
  intros _. change (data_start (MH_ALIGN _ _)) with (data_start n2). rewrite Hds. simpl.
  unfold MHLEN in *. lia.
Qed.

(** C13: [m_split] cuts a chain in two: the first half holds the first [len0]
    bytes, the second the rest, and when the chain starts with a packet header
    both do, with their own length.  The halves are made of the mbufs of the
    chain, the one at the cut shortened and followed by a new one that refers
    to the same cluster when there is one; no buffer, of the chain or of
    anyone else, is changed.  It fails only when the pools refuse, and leaves
    the chain as it was.  Assumed: [len0] is within the chain; when the chain
    has a packet header its length and tags are right and the mbuf that is cut
    leaves at most [MHLEN] bytes of internal data for the new packet header
    mbuf ([split_fits]): otherwise the code calls itself on a part without
    packet header, which is not covered. *)
Theorem m_split_correct s c fr len0 wait :
  c <> [] -> owns s c fr -> hdr_ok c -> 0 <= len0 <= chain_len c -> len0 <= INT_MAX ->
  split_fits c len0 ->
  (forall m0, head c = Some m0 -> is_pkthdr m0 = true -> Forall tag_ok (ph_tags (m_pkthdr m0))) ->
  wp (m_split c len0 wait) (fun p s' =>
    refused wait s /\ p = (c, []) /\ W s' (c ++ fr) /\ keeps s s' (c ++ fr) \/
    halves s c fr len0 p s') s.
Proof. intros. apply wp_m_split with fr; try done; [by left|by right]. Qed.
