(* ===== verification/MbufInject.v ===== *)
(** * Injecting space and defragmenting: m_inject, m_defrag *)

From stdpp Require Import base numbers list option gmap.
From Stdlib Require Import ZArith Lia Bool.
From S2P Require Import Prelude Mbuf MbufOps MbufFacts MbufInv MbufExt MbufFree MbufChain MbufTrim.
From S2P Require Import MbufJoin MbufPull MbufCopy MbufSplit.

(** ** m_inject *)

Lemma adj_ph_app f l r : l <> [] -> adj_ph f l ++ r = adj_ph f (l ++ r).
Proof. by destruct l. Qed.

(** [siz] new bytes after the first [len0], at the start of the mbuf [i]. *)
Definition injected (s : mst) (c fr : list mbuf) (len0 siz : Z) (i : nat) (c' : list mbuf) (s' : mst) : Prop :=
  keeps s s' fr /\ owns s' c' fr /\ hdr_ok c' /\
  bytes s' (take i c') = ztake len0 (bytes s c) /\
  (exists n, c' !! i = Some n /\ siz <= m_len n) /\
  zdrop (len0 + siz) (bytes s' c') = zdrop len0 (bytes s c).

(** The chain with the new space [n] after [pre ++ [m]], and its header. *)
Lemma inject_intro s s' c fr len0 siz pre m n tail b :
  hdr_ok c -> zlen (bytes s c) = chain_len c -> 0 <= len0 <= chain_len c -> 0 <= siz ->
  keeps s s' fr -> W s' ((pre ++ [m]) ++ (n :: tail) ++ fr) ->
  Forall (good s') ((pre ++ [m]) ++ n :: tail) ->
  (forall x, head (pre ++ [m]) = Some x -> is_pkthdr x = true -> ph_len (m_pkthdr x) = chain_len c) ->
  bytes s' (pre ++ [m]) = ztake len0 (bytes s c) -> siz <= m_len n ->
  bytes s' (n :: tail) = b ++ zdrop len0 (bytes s c) -> zlen b = siz ->
  injected s c fr len0 siz (S (length pre)) (adj_ph (fun l => l + siz) (pre ++ [m]) ++ n :: tail) s'.
Proof.
  intros Hh Hz Hl Hs Hk HW Hg Hph Hb1 Hn Hb2 Hbz.
  assert (pre ++ [m] <> []) as Hne by (by destruct pre).
  rewrite adj_ph_app by done.
  assert (owns s' ((pre ++ [m]) ++ n :: tail) fr) as Ho by (split; [by rewrite <- app_assoc|done]).
  destruct (adj_ph_spec s' _ (fun l => l + siz) fr Ho) as (H1 & H2 & H3 & H4).
  assert (chain_len ((pre ++ [m]) ++ n :: tail) = chain_len c + siz) as Hcl.
  { rewrite <- (zlen_bytes s') by done. rewrite chain_bytes_app, Hb1, Hb2, !zlen_app, zlen_ztake, zlen_zdrop; lia. }
  split_and!; [done|done| | | |].
  - apply adj_ph_hdr. intros x Hx Hp. rewrite Hcl. f_equal. apply Hph; [|done]. by destruct pre.
  - rewrite <- Hb1. assert (take (S (length pre)) (adj_ph (fun l => l + siz) ((pre ++ [m]) ++ n :: tail))
      = adj_ph (fun l => l + siz) (pre ++ [m])) as ->.
    { rewrite <- adj_ph_app by done. rewrite take_app_le; [apply take_ge|];
        (destruct pre; simpl; rewrite ?length_app; simpl; lia). }
    destruct pre as [|y pre]; simpl; by destruct (is_pkthdr _).
  - exists n. split; [|done]. rewrite <- adj_ph_app by done. rewrite lookup_app_r.
    + replace (S (length pre) - _)%nat with 0%nat; [done|].
      destruct pre; simpl; rewrite ?length_app; simpl; lia.
    + destruct pre; simpl; rewrite ?length_app; simpl; lia.
  - rewrite H2, chain_bytes_app, Hb1, Hb2.
    assert (zlen (ztake len0 (bytes s c)) = len0) as E by (apply zlen_ztake; lia).
    rewrite zdrop_app_ge by lia. rewrite E. replace (len0 + siz - len0) with siz by lia.
    rewrite zdrop_app_ge by lia. rewrite Hbz, Z.sub_diag. by apply zdrop_0.
Qed.

Section Inject.
Context (s : mst) (c fr q : list mbuf) (m : mbuf) (r : list mbuf) (len len0 siz wait : Z).
Context (Q : option nat * list mbuf -> mst -> Prop).
Hypothesis Hc : c = q ++ m :: r.
Hypothesis HW : W s (c ++ fr).
Hypothesis Hg : Forall (good s) c.
Hypothesis Hh : hdr_ok c.
Hypothesis Hl0 : len0 = chain_len q + len.
Hypothesis Hlen : 0 < len <= m_len m.
Hypothesis Hsiz : 0 <= siz < MHLEN.
Hypothesis HN : forall s', refused wait s -> W s' (c ++ fr) -> keeps s s' (c ++ fr) -> Q (None, c) s'.
Hypothesis HS : forall i c' s', injected s c fr len0 siz i c' s' -> Q (Some i, c') s'.

Lemma inject_facts : Forall (good s) q /\ good s m /\ Forall (good s) r /\ 0 <= chain_len q /\
  0 <= len0 <= chain_len c /\ zlen (bytes s c) = chain_len c.
Proof.
  pose proof (zlen_bytes _ _ Hg) as Hz. rewrite Hc in Hg. apply list.Forall_app in Hg as [H1 H2].
  apply list.Forall_cons in H2 as [H2 H3]. pose proof (chain_len_nonneg _ _ H1).
  pose proof (chain_len_nonneg _ _ H3). split_and!; try done; [lia|].
  rewrite Hc, chain_len_app. simpl. lia.
Qed.

(** The head's total is that of the chain. *)
Lemma inject_head m' x : m_pkthdr m' = m_pkthdr m -> is_pkthdr m' = is_pkthdr m ->
  head (q ++ [m']) = Some x -> is_pkthdr x = true -> ph_len (m_pkthdr x) = chain_len c.
Proof.
  intros Hph Hp Hx Hpx. rewrite Hc in *. destruct q as [|y q']; injection Hx as <-.
  - rewrite Hph. apply Hh. congruence.
  - by apply Hh.
Qed.

(** The free space before the data of the next mbuf is enough. *)
Lemma inject_lead m' r' :
  r = m' :: r' -> len = m_len m -> siz <= m_leadingspace s m' ->
  Q (Some (S (length q)), adj_ph (fun l => l + siz) (q ++ [m]) ++
       set_data (set_len m' (m_len m' + siz)) (m_data m' - siz) :: r') s.
Proof.
  intros Hr Hlm Hsp. destruct inject_facts as (G1 & G2 & G3 & G4 & G5 & G6).
  rewrite Hr in G3. apply list.Forall_cons in G3 as [G3 G7].
  assert (siz <= m_data m' - data_start m') as Hle.
  { unfold m_leadingspace in Hsp. pose proof (good_start _ _ G3). destruct (M_READONLY s m'); lia. }
  destruct (back_up s m' siz G3 ltac:(lia) Hle) as [Hg1 Hd1].
  set (m1 := set_len (set_data m' (m_data m' - siz)) (m_len m' + siz)) in *.
  change (set_data (set_len m' (m_len m' + siz)) (m_data m' - siz)) with m1.
  assert (bytes s (q ++ [m]) = ztake len0 (bytes s c) /\ bytes s r = zdrop len0 (bytes s c)) as [Hb1 Hb2].
  { pose proof Hg as Hg'. rewrite Hc in Hg'. destruct (cut_bytes s q m r len len0 Hg' Hl0 ltac:(lia)) as [B1 B2].
    rewrite Hc, <- B1, <- B2. rewrite zdrop_all by (rewrite zlen_mdata by done; lia). split; [|done].
    rewrite !chain_bytes_app, !bytes_cons, mdata_set_len, ztake_all by (rewrite ?zlen_mdata by done; lia). done. }
  apply HS. apply inject_intro with (b := ztake siz (mdata s m1)); try done.
  - lia.
  - rewrite Hc, Hr, <- app_assoc in HW.
    apply (W_core_mid _ s m' m1 (q ++ [m]) (r' ++ fr)); [by split|]. by rewrite <- app_assoc.
  - apply list.Forall_app. split; [apply list.Forall_app; split; [done|by constructor]|by constructor].
  - intros x. by apply inject_head.
  - unfold m1. simpl. pose proof (good_len _ _ G3). lia.
  - rewrite <- Hb2, Hr, !bytes_cons. rewrite app_assoc. f_equal. rewrite <- Hd1. by rewrite ztake_zdrop.
  - apply zlen_ztake. rewrite zlen_mdata by done. unfold m1. simpl. pose proof (good_len _ _ G3). lia.
Qed.

(** A new mbuf for the space, and [n2] with what followed in [m]. *)
Lemma inject_new s1 n2 :
  W s1 (n2 ++ c ++ fr) -> Forall (good s1) n2 -> keeps s s1 (c ++ fr) -> zok s1 false n2 ->
  bytes s1 n2 = zdrop len (mdata s m) ->
  wp (o <- m_get wait MT_DATA ;;
      match o with
      | None => m_freem n2 ;;; ret (None, c)
      | Some n =>
          ret (Some (S (length q)),
               adj_ph (fun l => l + siz) (q ++ [set_len m (m_len m - (m_len m - len))]) ++
               set_len n siz :: n2 ++ r)
      end) Q s1.
Proof.
  intros HW1 Hg2 Hk1 Hz2 Hb2. destruct inject_facts as (G1 & G2 & G3 & G4 & G5 & G6).
  apply wp_bind. eapply wp_m_get; [done|intros s' Hw HW' Hcl|intros n s2 HW2 Hcl2 (Hnt & Hnf & Hnd)].
  { apply wp_bind, (wp_m_freem n2 s' (c ++ fr)); [done| |].
    - apply (zok_mono s1 s' _ _ (c ++ fr) (c ++ fr)); done.
    - intros s2 HW2 Hk2. apply wp_ret. apply HN; [by eapply refused_keeps|done|].
      eapply keeps_trans; [done|]. eapply keeps_trans, Hk2. by apply keeps_cl. }
  apply wp_ret. replace (m_len m - (m_len m - len)) with len by lia.
  assert (keeps s s2 (c ++ fr)) as Hk2 by (eapply keeps_trans; [done|by apply keeps_cl]).
  assert (is_ext n = false /\ data_start n = 0) as [Hnx Hds].
  { unfold data_start, is_ext, is_pkthdr. by rewrite Hnf. }
  assert (good s2 (set_len n siz)) as Hgn.
  { split; [simpl; lia|change (data_start (set_len n siz)) with (data_start n); simpl; lia|].
    change (capacity s2 (set_len n siz)) with (capacity s2 n). rewrite (capacity_int _ _ _ _ HW2 Hnx).
    simpl. unfold MHLEN, PKTHDR_SIZE in *. lia. }
  pose proof Hg as Hg'. rewrite Hc in Hg'. destruct (cut_bytes s q m r len len0 Hg' Hl0 ltac:(lia)) as [B1 B2].
  apply keeps_app in Hk2 as [Hkc Hkf]. pose proof Hkc as Hkc'. rewrite Hc in Hkc'.
  apply keeps_app in Hkc' as [Hkq Hkr]. apply keeps_cons in Hkr as [Hkm Hkr].
  assert (good s2 (set_len m len)) as Hgm by (apply good_set_len; [by eapply good_buf|lia]).
  assert (mdata s2 (set_len m len) = mdata s (set_len m len)) as Hmd by (apply mdata_buf; exact Hkm).
  apply HS. apply inject_intro with (b := mdata s2 (set_len n siz)); try done.
  - lia.
  - eapply (W_core _ s2 n (set_len n siz)) in HW2; [|by split].
    rewrite Hc, <- !app_assoc in HW2. simpl in *. rewrite <- !app_assoc. simpl.
    apply (W_core_mid _ s2 m (set_len m len) q); [by split|].
    rewrite <- !Permutation_middle. rewrite <- !Permutation_middle in HW2.
    rewrite Permutation_swap. eapply W_perm, HW2. do 2 constructor.
    rewrite !app_assoc. f_equiv. f_equiv. by rewrite Permutation_app_comm.
  - apply list.Forall_app. split; [apply list.Forall_app; split; [by eapply good_keeps|by constructor]|].
    constructor; [done|]. apply list.Forall_app. split; [|by eapply good_keeps].
    eapply good_keeps, Hg2. by apply keeps_cl.
  - intros x. by apply inject_head.
  - rewrite Hc, <- B1. rewrite !chain_bytes_app, !bytes_cons, Hmd, (bytes_keeps s s2) by done. done.
  - rewrite bytes_cons, chain_bytes_app, (bytes_keeps s s2 r) by done. f_equal. rewrite Hc, <- B2. f_equal.
    rewrite <- Hb2. apply bytes_keeps. by apply keeps_cl.
  - apply zlen_mdata. done.
Qed.

End Inject.

Lemma m_inject_spec s c fr len0 siz wait :
  owns s c fr -> hdr_ok c -> 0 < len0 <= chain_len c -> len0 <= INT_MAX -> 0 <= siz < MHLEN ->
  chain_len c < M_COPYALL ->
  wp (m_inject c len0 siz wait) (fun p s' =>
    match p.1 with
    | None => refused wait s /\ p.2 = c /\ W s' (c ++ fr) /\ keeps s s' (c ++ fr)
    | Some i => injected s c fr len0 siz i p.2 s'
    end) s.
Proof.
  intros [HW Hg] Hh Hl Hmax Hsiz Hsmall. unfold m_inject, INT_MAX in *.
  rewrite (proj2 (Z.leb_gt len0 0)) by lia. rewrite ugt_false by lia. cbn [orb].
  rewrite u32_id by lia. pose proof (seek_len_spec s c [] len0 Hg ltac:(lia)) as Hseek.
  destruct (seek_len [] c len0) as [[[[pre m] r] len]|];
    [|destruct Hseek as [?| ->]; [lia|simpl in Hl; lia]].
  destruct Hseek as (q & -> & Hc & Hl0 & Hlen & Hpos). cbn [app]. cbv zeta. specialize (Hpos ltac:(lia)).
  match goal with |- wp _ ?Q _ => set (Post := Q) end.
  assert (forall s', refused wait s -> W s' (c ++ fr) -> keeps s s' (c ++ fr) -> Post (None, c) s') as HN by done.
  assert (forall i c' s', injected s c fr len0 siz i c' s' -> Post (Some i, c') s') as HS by done.
  clearbody Post. destruct (inject_facts s c q m r len len0 Hc Hg Hl0 ltac:(lia)) as (G1 & G2 & G3 & G4 & G5 & G6).
  apply wp_bind, wp_get.
  assert (wp (n2 <- (if m_len m - len =? 0 then ret [] else m_copym2 (m :: r) len (m_len m - len) wait) ;;
     if negb (m_len m - len =? 0) && bool_decide (n2 = []) then ret (None, c) else
     o <- m_get wait MT_DATA ;;
     match o with
     | None => m_freem n2 ;;; ret (None, c)
     | Some n =>
         ret (Some (S (length q)),
              adj_ph (fun l => l + siz) (q ++ [set_len m (m_len m - (m_len m - len))]) ++
              set_len n siz :: n2 ++ r)
     end) Post s) as Hnew.
  { destruct (Z.eqb_spec (m_len m - len) 0) as [Hr0|Hr0]; cbn [negb andb].
    - apply wp_bind, wp_ret. apply (inject_new s c fr q m r len len0 siz wait); try done; [lia|].
      rewrite zdrop_all; [done|]. rewrite zlen_mdata by done. lia.
    - pose proof (chain_len_nonneg _ _ G3) as Hr3.
      assert (chain_len c = chain_len q + (m_len m + chain_len r)) as Hcl by (rewrite Hc, chain_len_app; done).
      assert (copied (m_len m - len) len (bytes s (m :: r)) = zdrop len (mdata s m)) as Hcp.
      { unfold copied. rewrite (proj2 (Z.eqb_neq _ M_COPYALL)) by lia.
        pose proof (zlen_mdata _ _ G2). rewrite bytes_cons, slice_app_l by lia.
        unfold slice. apply ztake_all. rewrite zlen_zdrop; lia. }
      assert (owns s (m :: r) (q ++ fr)) as Hown.
      { split; [|by constructor]. rewrite Hc, <- app_assoc in HW. simpl in *.
        rewrite <- Permutation_middle in HW. eapply W_perm, HW. constructor.
        rewrite !app_assoc. f_equiv. by rewrite Permutation_app_comm. }
      apply wp_bind. eapply wp_mono;
        [apply (wp_m_copym0 s m r (q ++ fr) len (m_len m - len) wait true); try done; simpl; try lia; right; lia|].
      intros n2 s1 [Hk1 Hres].
      assert (keeps s s1 (c ++ fr)) as Hk1' by (eapply keeps_sub, Hk1; rewrite Hc; set_solver).
      assert (forall l, W s1 (l ++ (m :: r) ++ q ++ fr) -> W s1 (l ++ c ++ fr)) as Hperm.
      { intros l Hw. rewrite Hc, <- app_assoc. eapply W_perm, Hw. f_equiv. simpl.
        rewrite <- Permutation_middle. constructor. rewrite !app_assoc. f_equiv. by rewrite Permutation_app_comm. }
      destruct Hres as [(Hw & -> & HW1)|([HW1 Hg1] & Hb1 & _ & _ & Hz1 & _)].
      { rewrite bool_decide_eq_true_2 by done. apply wp_ret. apply HN; [done|by apply (Hperm [])|done]. }
      rewrite bool_decide_eq_false_2.
      + apply (inject_new s c fr q m r len len0 siz wait); try done; [lia|by apply Hperm|by apply nozero_zok|].
        by rewrite Hb1.
      + intros ->. rewrite Hcp in Hb1. apply (f_equal zlen) in Hb1.
        rewrite zlen_zdrop, (zlen_mdata _ _ G2) in Hb1 by (rewrite ?(zlen_mdata _ _ G2); lia).
        change (zlen (bytes s1 [])) with 0 in Hb1. lia. }
  destruct r as [|m' r']; [exact Hnew|].
  destruct ((m_len m - len =? 0) && (siz <=? m_leadingspace s m')) eqn:Hf; [|exact Hnew].
  apply wp_ret. bool_to_prop. eapply (inject_lead s c fr q m (m' :: r') len len0 siz); try done; lia.
Qed.

(** [m_inject] makes [siz] bytes of room after the first [len0] bytes:
    the first [len0] bytes stay in their mbufs, the returned mbuf starts with
    the new space, and after it come the bytes that followed; the total in
    the packet header grows by [siz].  It fails only when the pools refuse,
    with the chain untouched. *)
Theorem m_inject_correct s c fr len0 siz wait :
  owns s c fr -> hdr_ok c -> 0 < len0 <= chain_len c -> len0 <= INT_MAX -> 0 <= siz < MHLEN ->
  chain_len c < M_COPYALL ->
  wp (m_inject c len0 siz wait) (fun p s' =>
    match p.1 with
    | None => refused wait s /\ p.2 = c /\ W s' (c ++ fr) /\ keeps s s' (c ++ fr)
    | Some i => injected s c fr len0 siz i p.2 s'
    end) s.
Proof. apply m_inject_spec. Qed.

(** ** m_defrag *)

(** The cluster of [m0] moves to [m]. *)
Lemma wp_ext_move s m m0 fr Q :
  W s (m :: m0 :: fr) -> is_ext m = false -> is_ext m0 = true -> alone m0 (m :: fr) ->
  (forall s', let m' := set_data (set_flags (set_ext m (m_ext m0)) (Z.lor (m_flags m)
                          (Z.land (m_flags m0) (Z.lor M_EXT M_EXTWR)))) 0 in
     W s' (unref m0 :: m' :: fr) -> keeps s s' fr -> is_ext m' = true -> buf s' m' = buf s m0 -> Q m' s') ->
  wp (m1 <- ext_move m m0 ;;
      ret (set_data (set_flags m1 (Z.lor (m_flags m1) (Z.land (m_flags m0) (Z.lor M_EXT M_EXTWR)))) 0)) Q s.
Proof.
  intros HW Hx Hx0 Ha HQ. apply wp_bind. unfold wp at 1, ext_move.
  assert (W s (m0 :: m :: fr)) as HW' by (by rewrite Permutation_swap).
  destruct (W_ring_of _ _ _ _ HW' Hx0) as (k & Hk & Hr). rewrite Hk. apply wp_ret.
  rewrite (Ha Hx0) in Hr.
  set (c := m_ext m0) in *.
  set (m' := set_data (set_flags (set_ext m c) (Z.lor (m_flags m) (Z.land (m_flags m0) (Z.lor M_EXT M_EXTWR)))) 0).
  assert (is_ext m' = true) as Hx' by (unfold is_ext, m' in *; simpl; flag_simpl; by rewrite Hx0, orb_true_r).
  assert (Wd (fun _ => 0) (with_cl s (<[c := Cluster (cl_buf k) (m_addr m :: cl_ring k)]> (mb_cl s))) (m' :: m0 :: fr)) as HW1.
  { eapply (W_ref_add _ s m m' (m0 :: fr)); try done. unfold tagc, is_pkthdr, m'. simpl. flag_simpl. done. }
  set (s1 := with_cl s (<[c := Cluster (cl_buf k) (m_addr m :: cl_ring k)]> (mb_cl s))) in *.
  rewrite Permutation_swap in HW1.
  assert (forall x, x ∈ fr -> is_ext x = true -> m_ext x <> c) as Hoth.
  { intros x Hin Hxx. apply (alone_buf m0 (m :: fr) x); [done|done|by right|done]. }
  apply HQ; [| |done|].
  - replace (with_cl s _) with (with_cl s1 (<[c := Cluster (cl_buf k) [m_addr m]]> (mb_cl s1)))
      by (unfold s1, with_cl; simpl; by rewrite insert_insert_eq).
    assert (mb_cl s1 !! c = Some (Cluster (cl_buf k) (m_addr m :: cl_ring k))) as Hk1 by apply lookup_insert_eq.
    apply W_ref_del; [done|done| |].
    + intros x Hin Hxx. destruct (decide (c = m_ext x)) as [<-|Hne]; [rewrite lookup_insert_eq; eauto|].
      rewrite lookup_insert_ne by done. apply (W_ext HW1); [by right|done].
    + intros c' k'. destruct (decide (c = c')) as [<-|Hne].
      * rewrite lookup_insert_eq. intros [= <-]. destruct (W_ring HW1 _ _ Hk1) as (_ & _ & Hlt).
        split_and!; [|done|done]. enough (refs (m' :: fr) c = [m_addr m]) as E by (unfold m' in E; by rewrite E).
        rewrite refs_cons, Hx'. change (m_ext m') with c. rewrite Nat.eqb_refl. simpl.
        specialize (Ha Hx0). rewrite refs_cons, Hx in Ha. simpl in Ha. fold c in Ha. by rewrite Ha.
      * rewrite lookup_insert_ne by done. intros Hk'. destruct (W_ring HW1 _ _ Hk') as (Hp & ? & ?).
        rewrite refs_cons, Hx0 in Hp. simpl in Hp. fold c in Hp.
        rewrite (proj2 (Nat.eqb_neq _ _)) in Hp by done. done.
  - split; [|done]. intros x Hin. unfold buf. destruct (is_ext x) eqn:Hxx; [|done]. simpl.
    rewrite lookup_insert_ne; [done|]. symmetry. by apply Hoth.
  - match goal with |- buf ?t _ = _ => change (buf t m' = buf s m0) end.
    unfold buf. rewrite Hx', Hx0. simpl. fold c. by rewrite lookup_insert_eq, Hk.
Qed.

(** The new packet header mbuf [m0] holds the [plen] bytes [b] of the chain:
    the tail is freed, and [m] takes the data over. *)
Lemma wp_defrag_bounce s m m0 r fr plen b Q :
  W s (m0 :: (m :: r) ++ fr) -> zok s false r -> is_pkthdr m = true -> good s m0 ->
  alone m0 ((m :: r) ++ fr) -> (is_ext m0 = true -> m_data m0 = 0) ->
  zer m0 = false -> m_len m0 = plen -> mdata s m0 = b -> (is_ext m0 = false -> plen <= MHLEN) ->
  (forall m' s', W s' (m' :: fr) -> keeps s s' fr -> good s' m' -> mdata s' m' = b -> m_addr m' = m_addr m ->
     ph_len (m_pkthdr m') = plen -> m_len m' = plen -> Q (0, [m']) s') ->
  wp (m_freem r ;;;
      m1 <- (if is_ext m then m_extfree m else ret m) ;;
      m2 <- (if is_ext m0 then
               m <- ext_move m1 m0 ;;
               ret (set_data (set_flags m (Z.lor (m_flags m) (Z.land (m_flags m0) (Z.lor M_EXT M_EXTWR)))) 0)
             else bs <- mread m0 0 (m_len m0) ;; mwrite (set_data m1 PKTHDR_SIZE) 0 bs) ;;
      m_free [set_flags m0 (clr_flag (m_flags m0) (Z.lor M_EXT M_EXTWR))] ;;;
      ret (0, [set_phlen (set_len m2 (m_len m0)) (m_len m0)])) Q s.
Proof.
  intros HW Hz Hp Hg0 Ha0 Hd00 Hz0 Hlen0 Hb Hfit HQ. pose proof Hg0 as [Hl0 Hs0 He0].
  apply wp_bind, (wp_m_freem r s (m0 :: m :: fr)); [|done|].
  { rewrite <- !Permutation_middle. done. }
  intros s1 HW1 Hk1. apply keeps_cons in Hk1 as [Hb0 Hk1]. apply keeps_cons in Hk1 as [_ Hk1].
  assert (forall m1 s2, W s2 (m1 :: m0 :: fr) -> keeps s s2 fr -> buf s2 m0 = buf s m0 ->
    is_ext m1 = false -> is_pkthdr m1 = true -> m_addr m1 = m_addr m ->
    wp (m2 <- (if is_ext m0 then
                 m <- ext_move m1 m0 ;;
                 ret (set_data (set_flags m (Z.lor (m_flags m) (Z.land (m_flags m0) (Z.lor M_EXT M_EXTWR)))) 0)
               else bs <- mread m0 0 (m_len m0) ;; mwrite (set_data m1 PKTHDR_SIZE) 0 bs) ;;
        m_free [set_flags m0 (clr_flag (m_flags m0) (Z.lor M_EXT M_EXTWR))] ;;;
        ret (0, [set_phlen (set_len m2 (m_len m0)) (m_len m0)])) Q s2) as Hgo.
  { intros m1 s2 HW2 Hk2 Hb2 Hx1 Hp1 Ha1.
    assert (forall m2 s3, W s3 (unref m0 :: m2 :: fr) -> keeps s s3 fr -> good s3 (set_len m2 (m_len m0)) ->
      mdata s3 (set_len m2 (m_len m0)) = b -> m_addr m2 = m_addr m -> is_pkthdr m2 = true ->
      wp (m_free [unref m0] ;;; ret (0, [set_phlen (set_len m2 (m_len m0)) (m_len m0)])) Q s3) as Hend.
    { intros m2 s3 HW3 Hk3 Hg3 Hd3 Ha3 Hp3. apply wp_bind, (wp_m_free s3 (unref m0) [] (m2 :: fr)); [done| |].
      - intros _. unfold M_READONLY. by rewrite (proj1 (unref_facts m0)).
      - intros s4 HW4 Hk4. apply keeps_cons in Hk4 as [Hb4 Hk4]. apply wp_ret.
        assert (good s4 (set_len m2 (m_len m0))) as [? ? ?] by (by eapply good_buf).
        apply HQ; try done.
        + eapply W_core, HW4. by split.
        + by eapply keeps_trans.
        + rewrite <- Hd3. change (mdata s4 (set_len m2 (m_len m0)) = mdata s3 (set_len m2 (m_len m0))).
          by apply mdata_buf. }
    assert (good s2 m0 /\ mdata s2 m0 = b) as [Hg2 Hd2].
    { split; [by eapply good_buf|]. rewrite <- Hb. by apply mdata_buf. }
    apply wp_bind. destruct (is_ext m0) eqn:Hx0.
    - assert (alone m0 (m1 :: fr)) as Ha2.
      { intros _. rewrite refs_cons, Hx1. simpl. specialize (Ha0 Hx0). rewrite refs_app in Ha0.
        by apply app_eq_nil in Ha0 as [_ ?]. }
      eapply wp_ext_move; [done|done|done|done|]. intros s3 m2 HW3 Hk3 Hx3 Hb3.
      apply Hend; try done.
      + by eapply keeps_trans.
      + split; [done| |].
        * unfold data_start. change (is_ext (set_len m2 _)) with (is_ext m2). by rewrite Hx3.
        * change (capacity s3 (set_len m2 _)) with (zlen (buf s3 m2)). rewrite Hb3.
          fold (capacity s2 m0). destruct Hg2 as [_ _ He2]. rewrite Hd00 in He2 by done. simpl. lia.
      + rewrite <- Hd2. unfold mdata. change (buf s3 (set_len m2 (m_len m0))) with (buf s3 m2). rewrite Hb3.
        by rewrite Hd00.
      + unfold is_pkthdr, m2 in *. simpl. flag_simpl. by rewrite Hp1.
    - destruct Hg2 as [? Hs2 He2]. pose proof (data_start_nonneg m0).
      apply wp_bind, wp_mread; [lia..|]. rewrite Z.add_0_r.
      change (slice (m_data m0) (m_len m0) (buf s2 m0)) with (mdata s2 m0). rewrite Hd2.
      assert (zlen b = plen) as Hzb by (rewrite <- Hb, zlen_mdata; done).
      eapply (wp_fill s2 _ (m0 :: fr)); [eapply W_core, HW2; by split|intros ?; unfold is_ext in *; simpl in *; congruence| | |].
      + unfold data_start. change (is_ext (set_data m1 _)) with (is_ext m1).
        change (is_pkthdr (set_data m1 _)) with (is_pkthdr m1). by rewrite Hx1, Hp1.
      + change (capacity s2 (set_data m1 _)) with (capacity s2 m1). rewrite (capacity_int _ _ _ _ HW2 Hx1).
        specialize (Hfit eq_refl). unfold MHLEN in Hfit. simpl. lia.
      + intros m2 s3 m3 HW3 Hk3 Hg3 Hd3 Hm2. apply keeps_cons in Hk3 as [Hb3 Hk3].
        assert (set_len m2 (m_len m0) = m3) as E by (unfold m3; congruence).
        apply Hend; try (rewrite E; done); try (rewrite Hm2; done).
        * assert (W s3 (m2 :: m0 :: fr)) as HW3' by (eapply W_core, HW3; by split).
          rewrite Permutation_swap in HW3'. eapply W_core, HW3'. destruct (unref_facts m0) as (? & ? & ?).
          split; try done; congruence.
        * by eapply keeps_trans. }
  apply wp_bind. destruct (is_ext m) eqn:Hx.
  - rewrite Permutation_swap in HW1. eapply wp_m_extfree; [done|done|]. intros s2 HW2 Hk2.
    apply keeps_cons in Hk2 as [Hb2 Hk2]. destruct (unref_facts m) as (? & _ & Hpu).
    apply Hgo; [done|by eapply keeps_trans|congruence|done|congruence|done].
  - apply wp_ret. apply Hgo; try done. by rewrite Permutation_swap.
Qed.

(** The outcomes of [m_defrag]. *)
Definition defragged (s : mst) (c fr : list mbuf) (how : Z) (p : Z * list mbuf) (s' : mst) : Prop :=
  p.1 = ENOBUFS /\ refused how s /\ p.2 = c /\ W s' (c ++ fr) /\ keeps s s' (c ++ fr) \/
  p.1 = 0 /\ keeps s s' fr /\ owns s' p.2 fr /\ hdr_ok p.2 /\ bytes s' p.2 = bytes s c /\
    exists m m', head c = Some m /\ p.2 = [m'] /\ m_addr m' = m_addr m.

(** Copying the packet into the new mbuf [m0] and taking it over. *)
Lemma wp_defrag_go s m r fr how plen m0 s2 :
  W s ((m :: r) ++ fr) -> Forall (good s) (m :: r) -> is_pkthdr m = true -> zok s false r ->
  plen = chain_len (m :: r) ->
  W s2 (m0 :: (m :: r) ++ fr) -> keeps s s2 ((m :: r) ++ fr) -> alone m0 ((m :: r) ++ fr) ->
  data_start m0 = m_data m0 -> m_data m0 + plen <= capacity s2 m0 -> zer m0 = false ->
  (is_ext m0 = false -> plen <= MHLEN) ->
  wp (bs <- m_copydata (m :: r) 0 plen ;;
      m0 <- mwrite m0 0 bs ;;
      let m0 := set_phlen (set_len m0 plen) plen in
      m_freem r ;;;
      m2 <- (if is_ext m then m_extfree m else ret m) ;;
      m3 <- (if is_ext m0 then
               m4 <- ext_move m2 m0 ;;
               ret (set_data (set_flags m4 (Z.lor (m_flags m4) (Z.land (m_flags m0) (Z.lor M_EXT M_EXTWR)))) 0)
             else
               let m4 := set_data m2 PKTHDR_SIZE in
               bs <- mread m0 0 (m_len m0) ;; mwrite m4 0 bs) ;;
      let m3 := set_phlen (set_len m3 (m_len m0)) (m_len m0) in
      let m0 := set_flags m0 (clr_flag (m_flags m0) (Z.lor M_EXT M_EXTWR)) in
      m_free [m0] ;;;
      ret (0, [m3])) (defragged s (m :: r) fr how) s2.
Proof.
  intros HW Hg Hp Hz Hpl HW2 Hk2 Ha2 Hs2 Hr2 Hz2 Hfit.
  pose proof (chain_len_nonneg _ _ Hg) as Hnn. pose proof (zlen_bytes _ _ Hg) as Hzb.
  apply keeps_app in Hk2 as [Hkc Hkf]. pose proof (good_keeps _ _ _ Hkc Hg) as Hg2.
  apply wp_bind, wp_m_copydata; [done|done|lia|lia|lia|].
  rewrite (bytes_keeps s s2) by done.
  replace (slice 0 plen (bytes s (m :: r))) with (bytes s (m :: r)) by (rewrite Hpl, <- Hzb, slice_all; done).
  apply wp_bind. eapply wp_fill; [done|done|lia|lia|]. intros m5 s3 m6 HW3 Hk3 Hg3 Hd3 Hm5.
  apply keeps_app in Hk3 as [Hkc3 Hkf3].
  assert (set_len m5 plen = m6) as E6 by (unfold m6; congruence).
  eapply (wp_defrag_bounce s3 m (set_phlen (set_len m5 plen) plen) r fr plen (bytes s (m :: r))).
  - rewrite E6. eapply W_core, HW3. by split.
  - eapply (zok_new s s3 _ r (m :: fr) m6); [done|by rewrite <- Permutation_middle..|].
    eapply alone_refs, Ha2; [unfold m6; by rewrite Hm5|unfold m6; by rewrite Hm5|].
    intros k Hk. simpl in Hk. rewrite refs_cons in *. rewrite refs_app, refs_cons.
    destruct (is_ext m && Nat.eqb (m_ext m) k); [done|]. by rewrite <- refs_app.
  - done.
  - rewrite E6. destruct Hg3. by split.
  - eapply alone_refs, Ha2; [by rewrite Hm5|by rewrite Hm5|done].
  - intros E. rewrite Hm5 in E |- *. change (is_ext m0 = true) in E. simpl. rewrite <- Hs2.
    unfold data_start. by rewrite E.
  - rewrite Hm5. done.
  - done.
  - rewrite E6. exact Hd3.
  - intros E. apply Hfit. rewrite Hm5 in E. done.
  - intros m' s' HW' Hk' Hg' Hd' Ha' Hph' Hl'. right. cbn [fst snd].
    split_and!; [done| |split; [done|by constructor]| | |exists m, m'; done].
    + eapply keeps_trans; [done|]. by eapply keeps_trans.
    + intros _. simpl. lia.
    + rewrite bytes_cons, Hd'. apply app_nil_r.
Qed.

Lemma m_defrag_spec s m r fr how :
  owns s (m :: r) fr -> hdr_ok (m :: r) -> is_pkthdr m = true -> zok s false r ->
  chain_len (m :: r) <= MAXMCLBYTES ->
  wp (m_defrag (m :: r) how) (defragged s (m :: r) fr how) s.
Proof.
  intros [HW Hg] Hh Hp Hz Hmax. unfold m_defrag.
  destruct r as [|m1 r1]; [apply wp_ret; right; split_and!; try done; exists m, m; done|].
  set (r := m1 :: r1) in *. rewrite Hp. cbn [negb].
  pose proof (Hh Hp) as Hpl. pose proof (chain_len_nonneg _ _ Hg) as Hnn.
  set (plen := ph_len (m_pkthdr m)) in *. cbv zeta.
  apply wp_bind. eapply wp_m_gethdr; [done|intros s' Hw HW' Hcl|intros m0 s1 HW1 Hcl1 (Hnt & Hnf & Hnd & Hnp)].
  { apply wp_ret. left. split_and!; try done. by apply keeps_cl. }
  assert (is_ext m0 = false /\ is_pkthdr m0 = true /\ zer m0 = false) as (Hx0 & Hp0 & Hz0).
  { unfold is_ext, is_pkthdr, zer. rewrite Hnf. done. }
  apply wp_bind. destruct (ugt_spec plen MHLEN) as [[Hu Hlt]|[Hu Hle]]; [lia|..]; rewrite Hu; cbn [andb].
  - eapply wp_m_clget; [done|done|lia|intros s2 Hw HW2 Hcl2|].
    + rewrite Hx0. cbn [negb]. apply wp_bind, (wp_m_free s2 m0 [] ((m :: r) ++ fr)); [done|by rewrite Hz0|].
      intros s3 HW3 Hk3. apply wp_ret. left. split_and!; try done; [by eapply refused_scl|].
      eapply keeps_trans, Hk3. apply keeps_cl. by eapply scl_trans.
    + intros m2 s2 HW2 Hk2 He Hx2 Ha2 Hc2 _. rewrite Hx2. cbn [negb]. apply wp_defrag_go; try done.
      * eapply keeps_trans, Hk2. by apply keeps_cl.
      * unfold data_start. rewrite Hx2. by rewrite He.
      * assert (m_data m2 = 0) as -> by (by rewrite He). lia.
      * rewrite He. unfold zer. simpl. flag_simpl. exact Hz0.
      * congruence.
  - apply wp_ret. apply wp_defrag_go; try done.
    + by apply keeps_cl.
    + intros ?. congruence.
    + unfold data_start. by rewrite Hx0, Hp0, Hnd.
    + rewrite (capacity_int _ _ _ _ HW1 Hx0), Hnd. unfold MHLEN in Hle. lia.
Qed.

(** [m_defrag] gathers a packet into its first mbuf, which stays where it
    is in memory: the bytes are the same, the rest of the chain and the old
    cluster are given back.  It fails only when the pools refuse, with
    [ENOBUFS] and the chain untouched. *)
Theorem m_defrag_correct s m r fr how :
  owns s (m :: r) fr -> hdr_ok (m :: r) -> is_pkthdr m = true -> zok s false r ->
  chain_len (m :: r) <= MAXMCLBYTES ->
  wp (m_defrag (m :: r) how) (defragged s (m :: r) fr how) s.
Proof. apply m_defrag_spec. Qed.
