(* ===== verification/MbufWrite.v ===== *)
(** * Copying into chains: m_copyback *)

From stdpp Require Import base numbers list option gmap.
From Stdlib Require Import ZArith Lia Bool.
From S2P Require Import Prelude Mbuf MbufOps MbufFacts MbufInv MbufExt MbufFree MbufChain MbufTrim.
From S2P Require Import MbufJoin MbufPull MbufCopy.

(** ** Overwriting a byte string *)

(** [cp] written at [off], which is not beyond the end; the string grows when
    [cp] reaches past its end. *)
Definition overwrite (off : Z) (cp b : list Z) : list Z :=
  ztake off b ++ cp ++ zdrop (off + zlen cp) b.

Lemma zlen_overwrite off cp b :
  0 <= off <= zlen b -> zlen (overwrite off cp b) = Z.max (zlen b) (off + zlen cp).
Proof.
  intros H. pose proof (zlen_nonneg cp). unfold overwrite. rewrite !zlen_app, zlen_ztake by lia.
  destruct (Z.le_gt_cases (off + zlen cp) (zlen b)).
  - rewrite zlen_zdrop by lia. lia.
  - rewrite zdrop_all, zlen_nil by lia. lia.
Qed.

Lemma overwrite_nil off b : 0 <= off <= zlen b -> overwrite off [] b = b.
Proof. intros. unfold overwrite. rewrite zlen_nil, Z.add_0_r. simpl. apply ztake_zdrop. Qed.

(** What was appended and is written over does not matter. *)
Lemma overwrite_ext off cp a j :
  0 <= off <= zlen a -> zlen a + zlen j <= off + zlen cp \/ j = [] -> overwrite off cp (a ++ j) = overwrite off cp a.
Proof.
  intros Ho [Hz| ->]; [|by rewrite app_nil_r]. pose proof (zlen_nonneg j). unfold overwrite.
  rewrite ztake_app_le, (zdrop_all (a ++ j)), (zdrop_all a) by (rewrite ?zlen_app; lia). done.
Qed.

Lemma overwrite_fits off cp a b :
  0 <= off -> off + zlen cp <= zlen a -> overwrite off cp (a ++ b) = splice off cp a ++ b.
Proof.
  intros Ho Hz. pose proof (zlen_nonneg cp). unfold overwrite, splice.
  rewrite ztake_app_le, zdrop_app_le by lia. by rewrite <- !app_assoc.
Qed.

Lemma overwrite_step off cp a b k :
  0 <= off -> 0 <= k <= zlen cp -> off + k = zlen a ->
  overwrite off cp (a ++ b) = splice off (ztake k cp) a ++ overwrite 0 (zdrop k cp) b.
Proof.
  intros Ho Hk Hz. unfold overwrite, splice. rewrite zlen_ztake, zlen_zdrop by lia.
  rewrite ztake_app_le, (zdrop_all a), (ztake_0 b) by lia. rewrite zdrop_app_ge by lia.
  rewrite app_nil_r, <- !app_assoc. simpl. f_equal. rewrite app_assoc, ztake_zdrop. do 2 f_equal. lia.
Qed.

Lemma slice_splice_in d n off {A} (bs l : list A) :
  0 <= d -> 0 <= off -> off + zlen bs <= n -> d + n <= zlen l ->
  slice d n (splice (d + off) bs l) = splice off bs (slice d n l).
Proof.
  intros. pose proof (zlen_nonneg bs).
  replace n with (off + (zlen bs + (n - off - zlen bs))) at 1 by lia.
  rewrite !slice_split, slice_splice_before, slice_splice_same, slice_splice_after by lia.
  unfold splice. rewrite ztake_slice by lia. do 2 f_equal.
  replace (slice d n l) with (slice d ((off + zlen bs) + (n - off - zlen bs)) l) by (f_equal; lia).
  rewrite zdrop_slice by lia. f_equal. lia.
Qed.

(** A write inside the data of an mbuf. *)
Lemma wp_write_in s m ms off bs Q :
  W s (m :: ms) -> alone m ms -> good s m -> 0 <= off -> off + zlen bs <= m_len m ->
  (forall m' s', W s' (m' :: ms) -> keeps s s' ms -> good s' m' ->
     mdata s' m' = splice off bs (mdata s m) -> m' = set_dat m (m_dat m') -> Q m' s') ->
  wp (mwrite m off bs) Q s.
Proof.
  intros HW Ha Hg Ho Hb HQ. pose proof (good_data _ _ Hg). pose proof Hg as [? ? ?].
  pose proof (zlen_nonneg bs). unfold capacity in *.
  eapply wp_mwrite; [done|done|lia|unfold capacity; lia|]. intros m' s' HW' Hk Hm' Hb'. apply HQ; try done.
  - split; rewrite Hm'; try done. rewrite <- Hm'. unfold capacity. rewrite Hb', zlen_splice by lia.
    rewrite Hm'. done.
  - unfold mdata. rewrite Hb', Hm'. simpl. by apply slice_splice_in.
Qed.

(** ** Unshared mbufs *)

(** [m] is the only one of [ms] that refers to its buffer. *)
Definition unshared (ms : list mbuf) (m : mbuf) : Prop :=
  is_ext m = true -> refs ms (m_ext m) = [m_addr m].

#[global] Instance unshared_perm : Proper ((≡ₚ) ==> eq ==> iff) unshared.
Proof.
  intros l1 l2 H m ? <-. unfold unshared.
  assert (forall c a, refs l1 c = [a] <-> refs l2 c = [a]) as Hr.
  { intros c a. assert (refs l1 c ≡ₚ refs l2 c) as Hp by (by rewrite H).
    split; intros E; rewrite E in Hp; [symmetry in Hp|]; by apply Permutation_singleton_r in Hp. }
  by setoid_rewrite Hr.
Qed.

Lemma unshared_alone m ms : unshared (m :: ms) m <-> alone m ms.
Proof.
  unfold unshared, alone. split; intros H Hx; specialize (H Hx); rewrite refs_cons, Hx, Nat.eqb_refl in *; simpl in *;
    congruence.
Qed.

Lemma unshared_core ms m m' l x : same_core m m' -> unshared (m :: ms) x -> l = m' :: ms -> unshared l x.
Proof. intros Hc Hx -> He. rewrite (refs_core m m') by done. auto. Qed.

Lemma unshared_self ms m m' : same_core m m' -> unshared (m :: ms) m -> unshared (m' :: ms) m'.
Proof.
  intros Hc Hx He. rewrite (refs_core m m') by done. destruct Hc. rewrite sc_addr, sc_ext by congruence.
  apply Hx. congruence.
Qed.

Lemma unshared_new ms n x : alone n ms -> x ∈ ms -> unshared ms x -> unshared (n :: ms) x.
Proof.
  intros Ha Hin Hu Hx. rewrite refs_cons. destruct (is_ext n) eqn:E; simpl; [|auto].
  destruct (Nat.eqb_spec (m_ext n) (m_ext x)) as [Eq|]; [|auto]. exfalso. by eapply (alone_buf n ms x).
Qed.

(** ** The second loop *)

(** What the first mbuf keeps through [m_copyback]. *)
Definition same_hdr (m m' : mbuf) : Prop := m_pkthdr m' = m_pkthdr m /\ is_pkthdr m' = is_pkthdr m.

(** The chain [c'] after [k] bytes of [cp] were written at [off]. *)
Record wrote (s : mst) (m : mbuf) (r rest : list mbuf) (off : Z) (cp : list Z) (c' : list mbuf) (s' : mst) : Prop := {
  wr_W : W s' (c' ++ rest);
  wr_keeps : keeps s s' rest;
  wr_good : Forall (good s') c';
  wr_bytes : bytes s' c' = overwrite off cp (bytes s (m :: r));
  wr_head : match c' with [] => False | m' :: _ => same_hdr m m' end }.

(** The last mbuf takes what fits behind its data. *)
Definition extend (s : mst) (m : mbuf) (r : list mbuf) (off len : Z) : mbuf :=
  match r with
  | [] => if m_len m - off <? len
          then set_len m (m_len m + Z.min (len - (m_len m - off)) (m_trailingspace s m)) else m
  | _ => m
  end.

Lemma extend_spec s m r rest off cp :
  W s (m :: r ++ rest) -> good s m -> 0 <= off <= m_len m ->
  let m1 := extend s m r off (zlen cp) in
  good s m1 /\ same_core m m1 /\ same_hdr m m1 /\ m_len m <= m_len m1 /\
  (r <> [] -> m1 = m) /\
  (forall b, m_len m1 <= off + zlen b -> overwrite off b (bytes s (m1 :: r)) = overwrite off b (bytes s (m :: r))) /\
  overwrite off cp (bytes s (m1 :: r)) = overwrite off cp (bytes s (m :: r)).
Proof.
  intros HW Hg Ho m1. pose proof Hg as [? ? ?]. pose proof (good_data _ _ Hg).
  assert (r <> [] -> m1 = m) as Hr by (unfold m1; by destruct r).
  destruct r as [|x r]; [|rewrite Hr by done; split_and!; done].
  unfold m1. simpl. destruct (Z.ltb_spec (m_len m - off) (zlen cp)); [|by split_and!].
  set (x := Z.min _ _).
  assert (0 <= x /\ m_data m + (m_len m + x) <= capacity s m) as [Hx0 Hx1].
  { unfold x. destruct (M_READONLY s m) eqn:Hro.
    - unfold m_trailingspace. rewrite Hro. lia.
    - rewrite (trailing_room _ _ _ _ HW Hro). lia. }
  assert (good s (set_len m (m_len m + x))) as Hg1.
  { split; [simpl; lia|done|]. change (capacity s (set_len _ _)) with (capacity s m). simpl. lia. }
  enough (forall b, m_len m + x <= off + zlen b ->
    overwrite off b (bytes s [set_len m (m_len m + x)]) = overwrite off b (bytes s [m])) as Hov.
  { split_and!; [done|by split|done|simpl; lia|done|exact Hov|]. apply Hov. unfold x. lia. }
  intros b Hb. rewrite !bytes_cons, !app_nil_r.
  assert (mdata s (set_len m (m_len m + x)) = mdata s m ++ slice (m_data m + m_len m) x (buf s m)) as ->.
  { unfold mdata. change (buf s (set_len _ _)) with (buf s m). simpl. by rewrite slice_split by lia. }
  apply overwrite_ext; rewrite zlen_mdata by done; [lia|]. left.
  rewrite zlen_slice by (unfold capacity in *; lia). lia.
Qed.

Lemma copyback_fill_eq fuel m r off cp len totlen wait :
  0 < len ->
  copyback_fill fuel m r off cp len totlen wait =
    (s <- get_st ;;
     let m := extend s m r off len in
     let mlen := Z.min (m_len m - off) len in
     if zlen cp <? mlen then overrun else
     m <- mwrite m off (ztake mlen cp) ;;
     if len - mlen =? 0 then ret (0, m :: r, totlen + mlen + off) else
     match fuel with
     | O => nofuel
     | S f =>
       match r with
       | m' :: r' =>
           let* '(e, c, totlen) := copyback_fill f m' r' 0 (zdrop mlen cp) (len - mlen) (totlen + mlen + off) wait in
           ret (e, m :: c, totlen)
       | [] =>
           q <- copyback_get (m_type m) (len - mlen) wait ;;
           match q with
           | None => ret (ENOBUFS, [m], totlen + mlen + off)
           | Some n =>
               let* '(e, c, totlen) := copyback_fill f (set_len n (len - mlen)) [] 0 (zdrop mlen cp) (len - mlen)
                                         (totlen + mlen + off) wait in
               ret (e, m :: c, totlen)
           end
       end
     end).
Proof. intros H. destruct fuel; simpl; by rewrite (proj2 (Z.leb_gt _ _)). Qed.

Lemma same_hdr_trans m1 m2 m3 : same_hdr m1 m2 -> same_hdr m2 m3 -> same_hdr m1 m3.
Proof. intros [? ?] [? ?]. split; congruence. Qed.

Lemma set_dat_core m d : zlen d = zlen (m_dat m) -> same_core m (set_dat m d).
Proof. intros. by split. Qed.

(** One mbuf written, the rest by [c']. *)
Lemma wrote_cons s s1 s2 m m1 m2 x r2 r rest off cp k c' :
  same_hdr m m2 -> mdata s1 m2 = splice off (ztake k cp) (mdata s m1) -> good s1 m2 ->
  keeps s s1 rest -> 0 <= off -> 0 <= k <= zlen cp -> off + k = zlen (mdata s m1) ->
  overwrite off cp (bytes s (m1 :: r)) = overwrite off cp (bytes s (m :: r)) ->
  wrote s1 x r2 (m2 :: rest) 0 (zdrop k cp) c' s2 ->
  overwrite 0 (zdrop k cp) (bytes s1 (x :: r2)) = overwrite 0 (zdrop k cp) (bytes s r) ->
  wrote s m r rest off cp (m2 :: c') s2.
Proof.
  intros Hh Hd Hg Hk Ho Hkk Hz Hov [E1 E2 E3 E4 E5] Hb. apply keeps_cons in E2 as [E2m E2].
  split; [by rewrite <- Permutation_middle in E1|by eapply keeps_trans|constructor; [by eapply good_buf|done]| |done].
  rewrite <- Hov, !bytes_cons, (mdata_buf s1 s2), Hd, E4, Hb by done.
  by rewrite (overwrite_step off cp (mdata s m1) (bytes s r) k) by (lia || done).
Qed.

(** How the second loop goes on behind an mbuf that is full: in the next one,
    or in a new one with room for the rest. *)
Definition next_ok (s s2 : mst) (r : list mbuf) (x : mbuf) (r2 : list mbuf) (n : Z) : Prop :=
  bytes s2 (x :: r2) = bytes s r \/ (r = [] /\ r2 = [] /\ m_len x = n).

Lemma next_overwrite s s2 r x r2 n b :
  Forall (good s2) (x :: r2) -> next_ok s s2 r x r2 n -> n = zlen b \/ bytes s2 (x :: r2) = bytes s r ->
  overwrite 0 b (bytes s2 (x :: r2)) = overwrite 0 b (bytes s r).
Proof.
  intros Hg [->|(-> & -> & Hx)] Hn; [done|]. destruct Hn as [Hn|E]; [|by rewrite E].
  apply (overwrite_ext 0 b [] (bytes s2 [x])); [done|]. left.
  rewrite zlen_bytes by done. change (zlen (@nil Z)) with 0. simpl. lia.
Qed.

(** The outcomes of the second loop, which starts at [off] in [m]. *)
Definition filled (s : mst) (m : mbuf) (r rest : list mbuf) (off : Z) (cp : list Z) (totlen wait : Z)
    (Q : Z * list mbuf * Z -> mst -> Prop) : Prop :=
  (forall k c' s', refused wait s -> 0 <= k < zlen cp -> wrote s m r rest off (ztake k cp) c' s' ->
     chain_len c' = off + k -> Q (ENOBUFS, c', totlen + off + k) s') /\
  (forall c' s', wrote s m r rest off cp c' s' -> Q (0, c', totlen + off + zlen cp) s').

Lemma filled_step s s2 m m1 m2 x r2 r rest off cp k totlen wait Q :
  same_hdr m m2 -> mdata s2 m2 = splice off (ztake k cp) (mdata s m1) -> good s2 m2 -> keeps s s2 rest ->
  0 <= off -> 0 <= k <= zlen cp -> off + k = zlen (mdata s m1) -> m_len m2 = off + k -> good s m1 ->
  (forall b, m_len m1 <= off + zlen b -> overwrite off b (bytes s (m1 :: r)) = overwrite off b (bytes s (m :: r))) ->
  Forall (good s2) (x :: r2) -> next_ok s s2 r x r2 (zlen cp - k) ->
  filled s m r rest off cp totlen wait Q ->
  filled s2 x r2 (m2 :: rest) 0 (zdrop k cp) (totlen + k + off) wait
    (fun p s' => wp (let '(e, c, totlen) := p in ret (e, m2 :: c, totlen)) Q s').
Proof.
  intros Hh Hd Hg Hk Ho Hkk Hz Hlm Hg1 Hovb Hgx Hnx [HN HS]. rewrite (zlen_mdata _ _ Hg1) in Hz.
  assert (zlen (zdrop k cp) = zlen cp - k) as Hzd by (apply zlen_zdrop; lia).
  assert (forall j c' s', 0 <= j <= zlen cp - k -> (j = zlen cp - k \/ bytes s2 (x :: r2) = bytes s r) ->
    wrote s2 x r2 (m2 :: rest) 0 (ztake j (zdrop k cp)) c' s' ->
    wrote s m r rest off (ztake (k + j) cp) (m2 :: c') s') as Hw.
  { intros j c' s' Hj Hjn Hwr. assert (zlen (ztake (k + j) cp) = k + j) as Hzt by (apply zlen_ztake; lia).
    assert (zdrop k (ztake (k + j) cp) = ztake j (zdrop k cp)) as Etd by (apply zdrop_ztake; lia).
    eapply (wrote_cons s s2 s' m m1 m2 x r2 r rest off (ztake (k + j) cp) k); try done.
    - by rewrite ztake_ztake by lia.
    - lia.
    - by rewrite zlen_mdata.
    - apply Hovb. lia.
    - by rewrite Etd.
    - rewrite Etd. eapply next_overwrite; [done|done|]. destruct Hjn as [->|?]; [|by right].
      left. rewrite zlen_ztake; lia. }
  split.
  - intros j c' s' Hrf Hj Hwr Hcl. apply wp_ret.
    replace (totlen + k + off + 0 + j) with (totlen + off + (k + j)) by lia.
    apply HN; [by eapply refused_keeps|lia| |simpl; lia]. apply Hw; [lia| |done].
    destruct Hnx as [?|(-> & -> & Hxl)]; [by right|left].
    destruct Hwr as [_ _ Hgc E _]. rewrite <- (zlen_bytes _ _ Hgc), E in Hcl.
    pose proof (zlen_bytes _ _ Hgx) as Hzx. simpl in Hzx.
    rewrite zlen_overwrite, zlen_ztake in Hcl by lia. lia.
  - intros c' s' Hwr. apply wp_ret.
    replace (totlen + k + off + 0 + zlen (zdrop k cp)) with (totlen + off + zlen cp) by lia.
    apply HS. replace cp with (ztake (k + (zlen cp - k)) cp) by (apply ztake_all; lia).
    apply Hw; [lia|by left|]. by rewrite (ztake_all (zdrop k cp)) by lia.
Qed.

Lemma unshared_next m m2 x r rest :
  same_core m m2 -> Forall (unshared (m :: (x :: r) ++ rest)) (x :: r) ->
  Forall (unshared ((x :: r) ++ m2 :: rest)) (x :: r).
Proof.
  rewrite !list.Forall_forall. intros Hc Hu y Hy. rewrite <- Permutation_middle. intros He.
  rewrite (refs_core m m2) by done. by apply (Hu y Hy).
Qed.

Lemma wp_copyback_fill fuel : forall s m r rest off cp totlen wait Q,
  (length r + (if (m_len m - off <? zlen cp)%Z then 1 else 0) < fuel)%nat ->
  W s ((m :: r) ++ rest) -> Forall (good s) (m :: r) ->
  Forall (unshared ((m :: r) ++ rest)) (m :: r) -> 0 <= off <= m_len m -> 0 < zlen cp <= MAXMCLBYTES ->
  filled s m r rest off cp totlen wait Q ->
  wp (copyback_fill fuel m r off cp (zlen cp) totlen wait) Q s.
Proof.
  induction fuel as [|fuel IH]; intros s m r rest off cp totlen wait Q Hf HW Hg Hu Ho Hcp HQ; [lia|].
  rewrite copyback_fill_eq by lia. apply wp_bind, wp_get. cbv zeta.
  pose proof Hg as [Hgm Hgr]%list.Forall_cons. apply list.Forall_cons in Hu as [Hum Hur].
  destruct (extend_spec s m r rest off cp HW Hgm Ho) as (Hg1 & Hc1 & Hh1 & Hl1 & Hr1 & Hovb & Hov).
  set (m1 := extend s m r off (zlen cp)) in *.
  assert (W s (m1 :: r ++ rest)) as HW1 by (by eapply W_core).
  assert (alone m1 (r ++ rest)) as Ha1 by (apply unshared_alone; by eapply unshared_self).
  pose proof (zlen_mdata _ _ Hg1) as Hz1.
  set (k := Z.min (m_len m1 - off) (zlen cp)). assert (0 <= k <= zlen cp) as Hk by lia.
  rewrite (proj2 (Z.ltb_ge (zlen cp) k)) by lia.
  assert (zlen (ztake k cp) = k) as Hzk by (by apply zlen_ztake).
  apply wp_bind. eapply wp_write_in; [done|done|done|lia|lia|].
  intros m2 s1 HW2 Hk2 Hg2 Hd2 Hm2.
  assert (same_core m1 m2 /\ same_hdr m1 m2 /\ m_len m2 = m_len m1) as (Hc2 & Hh2 & Hl2).
  { rewrite Hm2. split; [|done]. apply set_dat_core.
    rewrite (W_dat HW2 m2), (W_dat HW1 m1) by left. done. }
  assert (same_hdr m m2) as Hh by (by eapply same_hdr_trans).
  assert (same_core m m2) as Hc by (by eapply same_core_trans).
  apply keeps_app in Hk2 as [Hkr Hkrest].
  assert (off + k <= zlen (mdata s m1) -> bytes s1 (m2 :: r) = overwrite off (ztake k cp) (bytes s (m1 :: r))) as Hfit.
  { intros Hb. rewrite !bytes_cons, Hd2, (bytes_keeps s s1) by done. by rewrite overwrite_fits by lia. }
  destruct (Z.eqb_spec (zlen cp - k) 0) as [E0|E0].
  { apply wp_ret. replace (totlen + k + off) with (totlen + off + zlen cp) by lia. apply HQ.
    assert (ztake k cp = cp) as Ek by (apply ztake_all; lia). rewrite Ek in *.
    split; [done|done|constructor; [done|by eapply good_keeps]| |done]. rewrite <- Hov. apply Hfit. lia. }
  assert (zlen (zdrop k cp) = zlen cp - k) as Hzd by (apply zlen_zdrop; lia). rewrite <- Hzd.
  rewrite (proj2 (Z.ltb_lt (m_len m - off) (zlen cp))) in Hf by lia.
  destruct r as [|x r].
  - apply wp_bind. eapply (wp_copyback_get s1 (m2 :: rest)); [done|lia| |].
    + intros s2 Hw HW3 Hk3. apply wp_ret. apply keeps_cons in Hk3 as [Hb3 Hk3].
      replace (totlen + k + off) with (totlen + off + k) by lia. apply HQ; [by eapply refused_keeps|lia| |simpl; lia].
      split; [done|by eapply keeps_trans|constructor; [by eapply good_buf|done]| |done].
      rewrite <- Hovb by lia. rewrite <- Hfit by lia. rewrite !bytes_cons. by rewrite (mdata_buf s1 s2).
    + intros n s2 HW3 Hk3 [B1 B2 B3 B4 B5 B6 B7]. apply keeps_cons in Hk3 as [Hb3 Hk3].
      assert (data_start n = 0) as Hds by (unfold data_start; rewrite B2; by destruct (is_ext n)).
      assert (Forall (good s2) [set_len n (zlen (zdrop k cp))]) as Hgn.
      { constructor; [|done]. split; [simpl; lia|change (data_start (set_len _ _)) with (data_start n); simpl; lia|].
        change (capacity s2 (set_len _ _)) with (capacity s2 n). simpl. lia. }
      apply wp_bind. apply IH with (m2 :: rest); [|eapply W_core, HW3; by split|done| |simpl; lia|lia|].
      * rewrite (proj2 (Z.ltb_ge _ _)) by (simpl; lia). simpl in *. lia.
      * constructor; [|done]. apply unshared_alone. by eapply alone_refs, B5.
      * eapply (filled_step s s2 m m1 m2); try done; [by rewrite (mdata_buf s1 s2)|by eapply good_buf|by eapply keeps_trans|lia|lia|lia|].
        right. split_and!; try done; simpl; lia.
  - apply wp_bind. apply IH with (m2 :: rest); [destruct (_ <? _); simpl in *; lia| | | | |lia|].
    + by rewrite <- Permutation_middle.
    + by eapply good_keeps.
    + by eapply unshared_next.
    + apply list.Forall_cons in Hgr as [[] _]. lia.
    + eapply (filled_step s s1 m m1 m2); try done; [lia|lia|lia|by eapply good_keeps|]. left. by apply bytes_keeps.
Qed.

(** ** The first loop *)

Lemma app_middle {A} (pre r : list A) m fr : (pre ++ m :: r) ++ fr ≡ₚ (m :: r) ++ pre ++ fr.
Proof. by rewrite (Permutation_app_comm pre), <- app_assoc. Qed.

(** A new mbuf behind the chain, with zeros up to the offset wanted. *)
Record appended (s : mst) (c fr : list mbuf) (off len : Z) (n : mbuf) (s' : mst) : Prop := {
  ap_W : W s' (n :: c ++ fr);
  ap_keeps : keeps s s' (c ++ fr);
  ap_good : good s' n;
  ap_len : m_len n = off + len;
  ap_zeros : ztake off (mdata s' n) = zeros off;
  ap_alone : alone n (c ++ fr) }.

Lemma wp_pad s c fr t off len n s1 Q :
  W s1 (n :: c ++ fr) -> keeps s s1 (c ++ fr) -> blank s1 (c ++ fr) t (off + len) n -> 0 <= off -> 0 <= len ->
  (forall n' s', appended s c fr off len (set_len n' (len + off)) s' -> Q n' s') ->
  wp (mwrite n 0 (zeros off)) Q s1.
Proof.
  intros HW1 Hk1 [B1 B2 B3 B4 B5 B6 B7] Ho Hl HS.
  eapply wp_mwrite; [done|done|lia|rewrite zeros_len by lia; lia|].
  intros m' s2 HW2 Hk2 Hm' Hb. apply HS. rewrite B4 in Hb.
  assert (data_start m' = 0) as Hds by (rewrite Hm'; change (data_start (set_dat _ _)) with (data_start n); unfold data_start; rewrite B2;
      by destruct (is_ext n)).
  assert (m_data m' = 0) as Hd0 by (rewrite Hm'; done).
  assert (good s2 (set_len m' (len + off))) as Hg.
  { split; [simpl; lia|change (data_start (set_len _ _)) with (data_start m'); simpl; lia|].
    change (capacity s2 (set_len _ _)) with (zlen (buf s2 m')). unfold capacity in *.
    rewrite Hb, zlen_splice by (rewrite ?zeros_len; lia). simpl. lia. }
  split; try done.
  - eapply W_core, HW2. by split.
  - by eapply keeps_trans.
  - simpl. lia.
  - unfold mdata. change (buf s2 (set_len _ _)) with (buf s2 m'). simpl. rewrite Hd0, Hb.
    unfold capacity in B7. rewrite ztake_slice by lia.
    pose proof (slice_splice_same 0 (zeros off) (buf s1 n)) as E. rewrite zeros_len in E by lia.
    apply E; lia.
  - by rewrite Hm'.
Qed.

Section Seek.
Context (s : mst) (c fr : list mbuf) (off0 len wait : Z) (Q : Z * list mbuf * mbuf * list mbuf * Z * Z -> mst -> Prop).
Hypothesis (HW : W s (c ++ fr)) (Hg : Forall (good s) c) (Hlen : 0 <= len) (Hmax : off0 + len <= MAXMCLBYTES).
Hypothesis Hfound : forall pre m r off, pre ++ m :: r = c -> chain_len pre + off = off0 -> 0 <= off <= m_len m ->
  Q (0, pre, m, r, off, chain_len pre) s.
Hypothesis Hrefused : forall s' pre m, pre ++ [m] = c -> refused wait s -> W s' (c ++ fr) -> keeps s s' (c ++ fr) ->
  chain_len c < off0 -> Q (ENOBUFS, pre, m, [], off0 - chain_len c, chain_len c) s'.
Hypothesis Hnew : forall s' n, chain_len c < off0 -> appended s c fr (off0 - chain_len c) len n s' ->
  Q (0, c, n, [], off0 - chain_len c, chain_len c) s'.

Lemma wp_copyback_seek fuel : forall pre m r off,
  (length r < fuel)%nat -> pre ++ m :: r = c -> chain_len pre + off = off0 -> 0 <= off ->
  wp (copyback_seek fuel pre m r off len (chain_len pre) wait) Q s.
Proof.
  induction fuel as [|fuel IH]; intros pre m r off Hf Hc Ho H0; [lia|]. simpl.
  destruct (Z.ltb_spec (m_len m) off) as [Hlt|Hge]; [|apply wp_ret; by apply Hfound].
  assert (chain_len (pre ++ [m]) = chain_len pre + m_len m) as Hcl by (rewrite chain_len_app; simpl; lia).
  destruct r as [|x r].
  - pose proof (chain_len_nonneg s c Hg) as Hc0. rewrite Hc in Hcl.
    replace (off - m_len m) with (off0 - chain_len c) by lia. rewrite <- Hcl. apply wp_bind.
    eapply wp_copyback_get; [exact HW|lia| |].
    + intros s' ???. apply wp_ret. apply Hrefused; try done. lia.
    + intros n s1 HW1 Hk1 Hb. apply wp_bind. rewrite Hc.
      eapply wp_pad; [done|done|done|lia|lia|]. intros n' s2 Ha.
      destruct fuel; simpl; (rewrite (proj2 (Z.ltb_ge _ _)) by lia; apply wp_ret; apply Hnew; [lia|done]).
  - rewrite <- Hcl. apply IH; [simpl in *; lia|by rewrite <- app_assoc|lia|lia].
Qed.
End Seek.

(** ** m_copyback *)

(** A string filled up with zeros to the length [off]. *)
Definition pad (off : Z) (b : list Z) : list Z := b ++ zeros (off - zlen b).

Lemma pad_within off b : off <= zlen b -> pad off b = b.
Proof. intros. unfold pad, zeros. rewrite Z2Nat.nonpos by lia. apply app_nil_r. Qed.

Lemma zlen_pad off b : zlen (pad off b) = Z.max off (zlen b).
Proof.
  unfold pad. destruct (Z.le_gt_cases off (zlen b)).
  - fold (pad off b). rewrite pad_within by lia. lia.
  - rewrite zlen_app, zeros_len by lia. lia.
Qed.

Lemma overwrite_behind off cp a b :
  0 <= off -> overwrite (zlen a + off) cp (a ++ b) = a ++ overwrite off cp b.
Proof.
  intros. pose proof (zlen_nonneg cp). unfold overwrite.
  rewrite ztake_app_ge, zdrop_app_ge by lia. rewrite <- app_assoc. do 2 f_equal; [f_equal; lia|].
  do 2 f_equal. lia.
Qed.

Lemma overwrite_padded off cp a d :
  zlen a < off -> ztake (off - zlen a) d = zeros (off - zlen a) -> zlen d <= off - zlen a + zlen cp ->
  a ++ overwrite (off - zlen a) cp d = overwrite off cp (pad off a).
Proof.
  intros Ho Hz Hd. pose proof (zlen_nonneg cp). unfold overwrite. rewrite Hz, (zdrop_all d) by lia.
  rewrite (zdrop_all (pad off a)) by (rewrite zlen_pad; lia).
  rewrite ztake_all by (rewrite zlen_pad; lia). unfold pad. by rewrite <- app_assoc.
Qed.

Definition head_hdr (c d : list mbuf) : Prop :=
  match c, d with m :: _, m' :: _ => same_hdr m m' | _, _ => False end.

Lemma head_hdr_app pre m r c' :
  match c' with [] => False | m' :: _ => same_hdr m m' end -> head_hdr (pre ++ m :: r) (pre ++ c').
Proof. destruct pre; [by destruct c'|done]. Qed.

(** The end of [m_copyback]: the packet header gets the new total. *)
Lemma copyback_out_spec s c d fr totlen :
  head_hdr c d -> hdr_ok c -> chain_len d = Z.max (chain_len c) totlen -> owns s d fr ->
  let d' := copyback_out d totlen in
  owns s d' fr /\ hdr_ok d' /\ bytes s d' = bytes s d /\ chain_len d' = chain_len d.
Proof.
  destruct c as [|m r], d as [|m' r']; try done. intros [Hp Hi] Hh Hd Ho. cbn [copyback_out on_head].
  rewrite Hp, Hi. simpl in Hh. destruct (is_pkthdr m) eqn:E; simpl.
  - specialize (Hh eq_refl). destruct (Z.ltb_spec (ph_len (m_pkthdr m)) totlen); simpl in *.
    + split_and!; try done; [|intros _; simpl; lia]. destruct Ho as [H1 H2]. split.
      * eapply W_core, H1. by split.
      * apply list.Forall_cons in H2 as [[] H2]. constructor; [by split|done].
    + split_and!; try done. intros _. simpl. rewrite Hp. lia.
  - split_and!; try done. simpl. congruence.
Qed.

(** What [m_copyback] leaves: with everything written, or when the pools
    refused an mbuf, with what fits in the chain. *)
Definition copied_back (s : mst) (c fr : list mbuf) (off : Z) (cp : list Z) (wait : Z) (p : Z * list mbuf) (s' : mst)
  : Prop :=
  let '(e, c') := p in
  owns s' c' fr /\ keeps s s' fr /\ hdr_ok c' /\
  (e = 0 /\ bytes s' c' = overwrite off cp (pad off (bytes s c)) \/
   e = ENOBUFS /\ refused wait s /\ (chain_len c < off /\ c' = c /\ bytes s' c' = bytes s c \/
     exists k, 0 <= k < zlen cp /\ off <= chain_len c <= off + k /\ bytes s' c' = overwrite off (ztake k cp) (bytes s c))).

Lemma wrote_behind s pre m r fr off b c' s' :
  Forall (good s) pre -> wrote s m r (pre ++ fr) off b c' s' -> 0 <= off ->
  owns s' (pre ++ c') fr /\ keeps s s' fr /\ head_hdr (pre ++ m :: r) (pre ++ c') /\
  bytes s' (pre ++ c') = overwrite (chain_len pre + off) b (bytes s (pre ++ m :: r)).
Proof.
  intros Hg [H1 H2 H3 H4 H5] Ho. apply keeps_app in H2 as [Hp Hfr]. split_and!; [split|done| |].
  - by rewrite app_assoc, (Permutation_app_comm pre) in * .
  - apply list.Forall_app. split; [by eapply good_keeps|done].
  - by apply head_hdr_app.
  - rewrite !chain_bytes_app, <- (zlen_bytes s pre), overwrite_behind, (bytes_keeps s s'), H4 by done. done.
Qed.

Section Copyback.
Context (s : mst) (c fr : list mbuf) (off0 : Z) (cp : list Z) (wait : Z).
Hypothesis (Hc : owns s c fr) (Hh : hdr_ok c) (Hcp : 0 < zlen cp).

Let out (pre : list mbuf) (p : Z * list mbuf * Z) (s' : mst) : Prop :=
  let '(e, c', totlen) := p in copied_back s c fr off0 cp wait (e, copyback_out (pre ++ c') totlen) s'.

(** The offset is inside the chain. *)
Lemma filled_found pre m r off :
  pre ++ m :: r = c -> chain_len pre + off = off0 -> 0 <= off <= m_len m ->
  filled s m r (pre ++ fr) off cp (chain_len pre) wait (out pre).
Proof.
  intros Ec Eo Ho. destruct Hc as [_ Hg]. rewrite <- Ec in Hg. apply list.Forall_app in Hg as [Hgp Hgm].
  assert (off0 <= chain_len c) as Hin.
  { rewrite <- Ec, chain_len_app. apply list.Forall_cons in Hgm as [_ Hgm].
    apply chain_len_nonneg in Hgm. simpl. lia. }
  assert (zlen (bytes s c) = chain_len c) as Hz by (apply zlen_bytes, Hc).
  assert (0 <= off0) as H0 by (apply chain_len_nonneg in Hgp; lia).
  split.
  - intros k c' s' Hr Hk Hw Hcl. destruct (wrote_behind _ _ _ _ _ _ _ _ _ Hgp Hw) as (O1 & O2 & O3 & O4); [lia|].
    rewrite Eo, Ec in *. assert (chain_len (pre ++ c') = off0 + k) as Hl by (rewrite chain_len_app; lia).
    pose proof (zlen_bytes _ _ (owns_good _ _ _ O1)) as Hb. rewrite O4, zlen_overwrite, zlen_ztake in Hb by lia.
    replace (chain_len pre + off + k) with (off0 + k) by lia.
    destruct (copyback_out_spec s' c (pre ++ c') fr (off0 + k)) as (F1 & F2 & F3 & F4); [done..|lia|done|].
    split_and!; [done..|]. right. split_and!; [done..|]. right. exists k. rewrite F3. split_and!; [lia..|done].
  - intros c' s' Hw. destruct (wrote_behind _ _ _ _ _ _ _ _ _ Hgp Hw) as (O1 & O2 & O3 & O4); [lia|].
    rewrite Eo, Ec in *. pose proof (zlen_bytes _ _ (owns_good _ _ _ O1)) as Hb. rewrite O4, zlen_overwrite in Hb by lia.
    replace (chain_len pre + off) with off0 by lia.
    destruct (copyback_out_spec s' c (pre ++ c') fr (off0 + zlen cp)) as (F1 & F2 & F3 & F4); [done..|lia|done|].
    split_and!; [done..|]. left. by rewrite F3, pad_within by lia.
Qed.

(** The offset is beyond the end. *)
Lemma filled_new n s1 :
  c <> [] -> chain_len c < off0 -> appended s c fr (off0 - chain_len c) (zlen cp) n s1 ->
  filled s1 n [] (c ++ fr) (off0 - chain_len c) cp (chain_len c) wait (out c).
Proof.
  intros Hne Hlt [A1 A2 A3 A4 A5 A6]. destruct Hc as [_ Hg].
  assert (zlen (bytes s c) = chain_len c) as Hz by (by apply zlen_bytes).
  assert (zlen (bytes s1 [n]) = off0 - chain_len c + zlen cp) as Hzn.
  { rewrite zlen_bytes by (by constructor). simpl. lia. }
  assert (keeps s s1 c /\ keeps s s1 fr) as [Kc Kf] by (by apply keeps_app).
  split.
  - intros k c' s' Hr Hk [_ _ Hgc Hb _] Hcl. exfalso. pose proof (zlen_bytes _ _ Hgc) as E.
    rewrite Hb, zlen_overwrite, zlen_ztake, Hzn in E by lia. lia.
  - intros c' s' [B1 B2 B3 B4 B5]. apply keeps_app in B2 as [Bc Bf].
    assert (owns s' (c ++ c') fr) as Ho.
    { split; [by rewrite (Permutation_app_comm c), <- app_assoc|]. apply list.Forall_app. split; [|done].
      eapply good_keeps, good_keeps, Hg; done. }
    assert (bytes s' (c ++ c') = overwrite off0 cp (pad off0 (bytes s c))) as Eb.
    { rewrite chain_bytes_app, B4, (bytes_keeps s1 s'), (bytes_keeps s s1) by done. rewrite <- Hz.
      apply overwrite_padded; rewrite ?Hz; [lia| |lia]. by rewrite bytes_cons, app_nil_r. }
    pose proof (zlen_bytes _ _ (owns_good _ _ _ Ho)) as El. rewrite Eb, zlen_overwrite, zlen_pad in El by (rewrite zlen_pad; pose proof (chain_len_nonneg _ _ Hg); lia).
    replace (chain_len c + (off0 - chain_len c)) with off0 by lia.
    destruct (copyback_out_spec s' c (c ++ c') fr (off0 + zlen cp)) as (F1 & F2 & F3 & F4); [by destruct c|done|lia|done|].
    split_and!; [done|by eapply keeps_trans|done|]. left. by rewrite F3.
Qed.
End Copyback.

Lemma m_copyback_spec s c fr off cp wait :
  c <> [] -> owns s c fr -> hdr_ok c -> Forall (unshared (c ++ fr)) c -> 0 <= off -> 0 < zlen cp ->
  off + zlen cp <= MAXMCLBYTES ->
  wp (m_copyback c off (zlen cp) cp wait) (copied_back s c fr off cp wait) s.
Proof.
  intros Hne Ho Hh Hu H0 Hcp Hmax. destruct c as [|m0 r0] eqn:Ec; [done|]. unfold m_copyback. apply wp_bind.
  rewrite <- Ec in Ho, Hh, Hu |- *. clear Hne. assert (c <> []) as Hne by (by rewrite Ec).
  pose proof Ho as [HW Hg].
  refine (wp_copyback_seek s c fr off (zlen cp) wait _ HW Hg ltac:(lia) Hmax _ _ _ (length c) [] m0 r0 off _ _ _ H0);
    [| | |rewrite Ec; simpl; lia|by rewrite Ec|done].
  - intros pre m r off' Epre Eo Ho'. cbn [Z.eqb negb]. apply wp_bind. pose proof HW as HW'. rewrite <- Epre, app_middle in HW'.
    assert (Forall (unshared ((m :: r) ++ pre ++ fr)) (m :: r)) as Hu'.
    { rewrite list.Forall_forall in Hu |- *. intros y Hy. rewrite <- app_middle, Epre. apply Hu.
      rewrite <- Epre. apply elem_of_app. by right. }
    rewrite <- Epre in Hg. apply list.Forall_app in Hg as [_ Hg].
    eapply wp_mono; [apply (wp_copyback_fill _ s m r (pre ++ fr)); [destruct (_ <? _)%Z; lia|done|done|done|done|lia|]|].
    { by apply (filled_found s c fr off cp wait). }
    intros [[e c'] t] s' Hout. apply wp_ret. exact Hout.
  - intros s' pre m Epre Hr HW' Hk Hlt. simpl. rewrite Epre. apply wp_ret. apply keeps_app in Hk as [Kc Kf].
    destruct (copyback_out_spec s' c c fr (chain_len c)) as (F1 & F2 & F3 & F4); [by rewrite Ec|done|lia|split; [done|by eapply good_keeps]|].
    split_and!; [done..|]. right. split_and!; [done..|left]. rewrite F3, (bytes_keeps s s') by done.
    split_and!; [done| |done].
    rewrite Ec. cbn [copyback_out on_head]. rewrite Ec in Hh. simpl in Hh.
    destruct (is_pkthdr m0); [|done]. rewrite Hh, Z.ltb_irrefl by done. done.
  - intros s' n Hlt Ha. cbn [Z.eqb negb]. apply wp_bind. pose proof Ha as [A1 A2 A3 A4 A5 A6].
    eapply wp_mono; [apply (wp_copyback_fill _ s' n [] (c ++ fr)); [destruct (_ <? _)%Z; simpl; lia|done|by constructor| |lia|lia|]|].
    + constructor; [by apply unshared_alone|done].
    + by apply (filled_new s c fr off cp wait).
    + intros [[e c'] t] s2 Hout. apply wp_ret. exact Hout.
Qed.

(** C15: [m_copyback] writes the bytes [cp] at offset [off] of a chain whose
    buffers are not shared, whatever the mbufs they span: bytes before and
    behind stay, a gap is filled with zeros, the chain grows as needed and the
    total in the packet header with it, and no other buffer changes.  Only when
    the pools refuse does it fail, with nothing written when [off] is behind
    the chain and otherwise with a first part of [cp] written.  Assumed: [cp]
    is not empty (with no bytes to write and [off] behind the chain, the length
    in the packet header is left too short, see [mbuf_defects]) and
    [off + len] is at most MAXMCLBYTES (the code asks for one cluster of the
    missing bytes, and m_clget panics above that size). *)
Theorem m_copyback_correct s c fr off cp wait :
  c <> [] -> owns s c fr -> hdr_ok c -> Forall (unshared (c ++ fr)) c -> 0 <= off -> 0 < zlen cp ->
  off + zlen cp <= MAXMCLBYTES ->
  wp (m_copyback c off (zlen cp) cp wait) (copied_back s c fr off cp wait) s.
Proof. apply m_copyback_spec. Qed.
