(* ===== verification/MbufDown.v ===== *)
(** * Contiguous data in the middle of a chain: m_dup1, m_pulldown *)

From stdpp Require Import base numbers list option gmap.
From Stdlib Require Import ZArith Lia Bool.
From S2P Require Import Prelude Mbuf MbufOps MbufFacts MbufInv MbufExt MbufFree MbufChain MbufTrim.
From S2P Require Import MbufJoin MbufPull MbufCopy MbufWrite.

(** ** Room in a new mbuf *)

(** [n] has room for [len] bytes that nobody shares. *)
Record roomy (s : mst) (ms : list mbuf) (len : Z) (n : mbuf) : Prop := {
  rm_alone : alone n ms;
  rm_extwr : extwr n;
  rm_start : data_start n <= m_data n;
  rm_room : m_data n + len <= capacity s n }.

Lemma wp_free_int s n ms Q :
  W s (n :: ms) -> is_ext n = false ->
  (forall s', W s' ms -> keeps s s' ms -> Q [] s') -> wp (m_free [n]) Q s.
Proof.
  intros HW Hx HQ. apply (wp_m_free s n [] ms); [done| |].
  - intros _. unfold M_READONLY. by rewrite Hx.
  - intros s' HW' Hk. destruct (zer n); by apply HQ.
Qed.

(** A cluster if the internal data area is too small, or no mbuf at all. *)
Lemma wp_clget_or_free s n ms len wait Q :
  W s (n :: ms) -> is_ext n = false -> m_data n = data_start n -> 0 <= len <= MAXMCLBYTES ->
  (forall s', refused wait s -> W s' ms -> keeps s s' ms -> Q None s') ->
  (forall n' s', W s' (n' :: ms) -> keeps s s' ms -> roomy s' ms len n' ->
     m_pkthdr n' = m_pkthdr n -> is_pkthdr n' = is_pkthdr n -> zer n' = zer n -> Q (Some n') s') ->
  wp (if ugt len (MLEN - data_start n)
      then n <- m_clget n wait len ;; if is_ext n then ret (Some n) else m_free [n] ;;; ret None
      else ret (Some n)) Q s.
Proof.
  intros HW Hx Hd Hl HN HS. destruct (ugt_spec len (MLEN - data_start n)) as [[-> Hlt]|[-> Hle]]; [lia| |].
  - apply wp_bind. eapply wp_m_clget; [done|done|lia|intros s2 Hw HW2 Hcl2|].
    + rewrite Hx. apply wp_bind. eapply wp_free_int; [done|done|]. intros s3 HW3 Hk3. apply wp_ret.
      apply HN; [done|done|]. eapply keeps_trans, Hk3. by apply keeps_cl.
    + intros n' s2 HW2 Hk2 He Hx' Ha Hc _. rewrite Hx'. apply wp_ret. apply HS; try done.
      * split; [done|intros _; rewrite He; simpl; flag_simpl; done| |].
        -- unfold data_start. rewrite Hx', He. done.
        -- replace (m_data n') with 0 by (by rewrite He). lia.
      * by rewrite He.
      * rewrite He. unfold is_pkthdr. simpl. flag_simpl. done.
      * rewrite He. unfold zer. simpl. flag_simpl. done.
  - apply wp_ret. apply HS; try done.
    split; [intros ?; congruence|intros ?; congruence|lia|]. rewrite (capacity_int _ _ _ _ HW Hx). lia.
Qed.

(** ** m_dup1 *)

(** The first allocation of [m_dup1], with a copy of the packet header when
    the copy starts at the front. *)
Lemma wp_dup1_new s m ms (hdr : bool) wait Q :
  W s ms -> (hdr = true -> is_pkthdr m = true /\ Forall tag_ok (ph_tags (m_pkthdr m))) ->
  (forall l s', refused wait s -> W s' ms -> keeps s s' ms -> Q (None, l) s') ->
  (forall n s', W s' (n :: ms) -> keeps s s' ms -> is_ext n = false -> m_data n = data_start n ->
     is_pkthdr n = hdr -> zer n = hdr && zer m -> Q (Some n, MLEN - data_start n) s') ->
  wp (if hdr then
        q <- m_gethdr wait (m_type m) ;;
        match q with
        | None => ret (None, MHLEN)
        | Some n =>
            let* '(e, n) := m_dup_pkthdr n m wait in
            if negb (e =? 0) then m_free [n] ;;; ret (None, MHLEN) else ret (Some n, MHLEN)
        end
      else q <- m_get wait (m_type m) ;; ret (q, MLEN)) Q s.
Proof.
  intros HW Hh HN HS. destruct hdr; apply wp_bind.
  - destruct (Hh eq_refl) as [Hp Htok].
    eapply wp_m_gethdr; [done|intros s' Hw HW' Hcl; apply wp_ret; apply HN; [done|done|by apply keeps_cl]|].
    intros n s1 HW1 Hcl1 (Ht & Hf & Hd & Hph).
    assert (is_ext n = false) as Hx by (unfold is_ext; by rewrite Hf).
    destruct (hdr_flags_bits n m) as (B1 & _ & B3 & B4).
    apply wp_bind. eapply wp_m_dup_pkthdr; [done|unfold tagc; rewrite Hph; by destruct (is_pkthdr n)|done|done| |].
    + intros n' s2 Hw Hcl2 HW2 (Hff & _). cbn [Z.eqb negb ENOBUFS]. apply wp_bind.
      eapply wp_free_int; [done|unfold is_ext; rewrite Hff; congruence|]. intros s3 HW3 Hk3. apply wp_ret.
      apply HN; [by eapply refused_scl|done|]. eapply keeps_trans, Hk3. apply keeps_cl. by eapply scl_trans.
    + intros s2 Hcl2 HW2. cbn [Z.eqb negb]. apply wp_ret. unfold dup_to in *. rewrite Hx in *.
      set (n' := set_data _ _) in *.
      assert (is_ext n' = false) as Hx' by (unfold is_ext, n'; simpl; congruence).
      assert (is_pkthdr n' = true) as Hp' by (unfold is_pkthdr, n'; simpl; congruence).
      assert (data_start n' = PKTHDR_SIZE) as Hds by (unfold data_start; by rewrite Hx', Hp').
      replace MHLEN with (MLEN - data_start n') by (by rewrite Hds).
      apply HS; try done. apply keeps_cl. by eapply scl_trans.
  - eapply wp_m_get; [done|intros s' Hw HW' Hcl; apply wp_ret; apply HN; [done|done|by apply keeps_cl]|].
    intros n s1 HW1 Hcl1 (Ht & Hf & Hd). apply wp_ret.
    assert (is_ext n = false) as Hx by (unfold is_ext; by rewrite Hf).
    assert (is_pkthdr n = false) as Hp by (unfold is_pkthdr; by rewrite Hf).
    assert (data_start n = 0) as Hds by (unfold data_start; by rewrite Hx, Hp).
    replace MLEN with (MLEN - data_start n) by (rewrite Hds; lia).
    apply HS; try done; [by apply keeps_cl|lia|]. unfold zer. by rewrite Hf.
Qed.

(** A copy of [len] bytes in one new mbuf. *)
Record duplicate (s : mst) (c fr : list mbuf) (b : list Z) (o : mbuf) (s' : mst) : Prop := {
  du_W : W s' (o :: c ++ fr);
  du_keeps : keeps s s' (c ++ fr);
  du_good : good s' o;
  du_data : mdata s' o = b;
  du_private : private (o :: c ++ fr) o }.

Lemma wp_m_dup1 s m r fr off len wait Q :
  W s ((m :: r) ++ fr) -> Forall (good s) (m :: r) -> 0 <= off -> 0 <= len -> off + len <= chain_len (m :: r) ->
  (off = 0 -> is_pkthdr m = true -> Forall tag_ok (ph_tags (m_pkthdr m))) ->
  (forall s', MAXMCLBYTES < len \/ refused wait s -> W s' ((m :: r) ++ fr) -> keeps s s' ((m :: r) ++ fr) ->
     Q None s') ->
  (forall o s', duplicate s (m :: r) fr (slice off len (bytes s (m :: r))) o s' -> Q (Some o) s') ->
  wp (m_dup1 (m :: r) off len wait) Q s.
Proof.
  intros HW Hg Ho Hl Hlen Ht HN HS. unfold m_dup1.
  destruct (Z.ltb_spec MAXMCLBYTES len); [apply wp_ret; apply HN; [by left|done|apply keeps_refl]|].
  apply wp_bind. eapply (wp_dup1_new s m ((m :: r) ++ fr)); [done| | |].
  { intros [?%Z.eqb_eq ?]%andb_true_iff. auto. }
  { intros l s' ???. apply wp_bind, wp_ret. apply wp_ret. apply HN; [by right|done..]. }
  intros n s1 HW1 Hk1 Hx Hd Hp Hz. apply wp_bind. eapply wp_clget_or_free; [done|done|done|lia| |].
  { intros s2 ???. apply wp_ret. apply HN; [right; by eapply refused_keeps|done|by eapply keeps_trans]. }
  intros n2 s2 HW2 Hk2 [R1 R2 R3 R4] _ _ _.
  assert (keeps s s2 ((m :: r) ++ fr)) as Hk by (by eapply keeps_trans).
  assert (keeps s s2 (m :: r)) as Hkc by (by apply (keeps_app s s2 (m :: r) fr) in Hk as [? _]).
  assert (Forall (good s2) (m :: r)) as Hg2 by (by eapply good_keeps).
  apply wp_bind, wp_m_copydata; [done|done|lia|lia|lia|]. rewrite (bytes_keeps s s2) by done.
  assert (zlen (slice off len (bytes s (m :: r))) = len) as Hz2.
  { apply zlen_slice; rewrite ?zlen_bytes by done; lia. }
  apply wp_bind. eapply wp_fill; [done|done|done|lia|]. rewrite Hz2.
  intros n3 s3 n4 HW3 Hk3 Hg3 Hd3 Hn3. apply wp_ret. apply HS.
  split; [done|by eapply keeps_trans|done|done|]. apply private_alone.
  - intros Hx4. rewrite (Hn3 : n3 = _) in Hx4. unfold n4. rewrite Hn3. by apply R1.
  - unfold n4. rewrite Hn3. exact R2.
Qed.

(** ** m_pulldown *)

(** Dropping bytes from the front of a chain without regard to its header. *)
Lemma m_adj_front s c fr k :
  owns s c fr -> 0 <= k -> owns s (m_adj c k) fr /\ bytes s (m_adj c k) = zdrop k (bytes s c).
Proof.
  intros Ho Hk. pose proof Ho as [_ Hg]. unfold m_adj. destruct c as [|m r] eqn:E.
  { split; [done|]. by rewrite zdrop_all by done. }
  rewrite <- E in *. rewrite (proj2 (Z.leb_le 0 k)) by done.
  destruct (adj_head_spec s c k Hg Hk) as (H1 & H2 & H3 & _ & _).
  destruct (adj_head c k) as [r1 l]. simpl in *.
  destruct (adj_ph_spec s r1 (fun l' => l' - (k - l)) fr) as (O1 & O2 & _); [by eapply owns_trimmed|].
  split; [done|]. by rewrite O2.
Qed.

Lemma readonly_extwr s m : M_READONLY s m = false -> extwr m.
Proof.
  unfold M_READONLY. intros H Hx. rewrite Hx in H. simpl in H. apply orb_false_iff in H as [H _].
  by apply negb_false_iff in H.
Qed.

(** The target of [m_pulldown]: [len] bytes from [off0] on in one writable
    mbuf of [c'], at [o] in the [i]-th; what is before stays where it is. *)
Record pulled_down (s : mst) (c fr : list mbuf) (off0 len : Z) (offp : bool) (i : nat) (o : Z)
    (c' : list mbuf) (s' : mst) : Prop := {
  pd_owns : owns s' c' fr;
  pd_hdr : hdr_ok c';
  pd_bytes : bytes s' c' = bytes s c;
  pd_target : exists n, c' !! i = Some n /\ chain_len (take i c') + o = off0 /\ 0 <= o /\ o + len <= m_len n /\
                M_READONLY s' n = false;
  pd_offp : offp = false -> o = 0;
  pd_before : exists pre n r n' r', c = pre ++ n :: r /\ c' = pre ++ n' :: r' /\ keeps s s' pre /\
                chain_len pre <= off0 <= chain_len pre + m_len n' /\ m_addr n' = m_addr n /\ m_data n' = m_data n }.

Section Pulldown.
Context (s : mst) (pre : list mbuf) (n : mbuf) (r fr : list mbuf) (off len : Z) (offp : bool).
Let c := pre ++ n :: r.
Let off0 := chain_len pre + off.
Hypothesis (Hown : owns s c fr) (Hhdr : hdr_ok c) (Hoff : 0 <= off <= m_len n) (Hend : off < m_len n \/ r = []).
Hypothesis (Hlen : 0 <= len).

Let okoff := (off =? 0) || offp.

(** Where the target is, next to [n']. *)
Definition target_at (n' : mbuf) (r' : list mbuf) (i : nat) (o : Z) (s' : mst) : Prop :=
  (i = length pre /\ o = off /\ okoff = true /\ off + len <= m_len n' /\ M_READONLY s' n' = false) \/
  (i = S (length pre) /\ o = 0 /\ m_len n' = off /\
   exists x r2, r' = x :: r2 /\ len <= m_len x /\ M_READONLY s' x = false).

Lemma pulled_at n' r' i o s' :
  W s' ((n' :: r') ++ pre ++ fr) -> keeps s s' (pre ++ fr) -> Forall (good s') (n' :: r') ->
  bytes s' (n' :: r') = bytes s (n :: r) -> m_pkthdr n' = m_pkthdr n -> is_pkthdr n' = is_pkthdr n ->
  m_addr n' = m_addr n -> m_data n' = m_data n -> target_at n' r' i o s' ->
  pulled_down s c fr off0 len offp i o (pre ++ n' :: r') s'.
Proof.
  intros HW [Kp Kf]%keeps_app Hg Hb Hph Hp Ha Hd Ht. destruct Hown as [_ Hgc].
  apply list.Forall_app in Hgc as [Hgp Hgn].
  assert (Forall (good s') (pre ++ n' :: r')) as Hg' by (apply list.Forall_app; split; [by eapply good_keeps|done]).
  assert (bytes s' (pre ++ n' :: r') = bytes s c) as Hb'.
  { unfold c. rewrite !chain_bytes_app, Hb. by rewrite (bytes_keeps s s'). }
  split; try done.
  - split; [|done]. by rewrite (Permutation_app_comm pre), <- app_assoc.
  - assert (chain_len (pre ++ n' :: r') = chain_len c) as El.
    { rewrite <- (zlen_bytes s'), <- (zlen_bytes s), Hb'; [done|by apply list.Forall_app|done]. }
    unfold hdr_ok in *. unfold c in Hhdr, El. destruct pre; simpl in *; [rewrite Hph, Hp|]; rewrite El; done.
  - destruct Ht as [(-> & -> & Hok & Hl & Hro)|(-> & -> & Hl & x & r2 & -> & Hx & Hro)].
    + exists n'. split_and!; try done; [by apply list_lookup_middle| |lia].
      rewrite take_app_length. done.
    + exists x. split_and!; try done; try lia.
      * rewrite lookup_app_r by lia. by replace (S (length pre) - length pre)%nat with 1%nat by lia.
      * rewrite take_app_ge, chain_len_app by lia. replace (S (length pre) - length pre)%nat with 1%nat by lia.
        simpl. unfold off0. lia.
  - destruct Ht as [(_ & -> & Hok & _)|(_ & -> & _)]; [|done]. intros E. unfold okoff in Hok. rewrite E in Hok.
    rewrite orb_false_r in Hok. by apply Z.eqb_eq.
  - exists pre, n, r, n', r'. unfold off0. split_and!; try done; try lia.
    destruct Ht as [(_ & _ & _ & ? & _)|(_ & _ & ? & _)]; lia.
Qed.

Lemma owns_n : W s (n :: r ++ pre ++ fr) /\ good s n /\ Forall (good s) r.
Proof using Hown.
  destruct Hown as [HW Hg]. unfold c in *. rewrite app_middle in HW.
  apply list.Forall_app in Hg as [_ Hg]. by apply list.Forall_cons in Hg.
Qed.

Lemma bytes_cut s' b r' :
  mdata s' n = mdata s n -> bytes s' r' = slice off (m_len n - off) (mdata s n) ++ b -> b = bytes s r ->
  bytes s' (set_len n off :: r') = bytes s (n :: r).
Proof.
  intros Hm Hb ->. destruct owns_n as (_ & Hgn & _). rewrite !bytes_cons, mdata_set_len, Hm, Hb by lia.
  rewrite app_assoc. f_equal. pose proof (zlen_mdata _ _ Hgn).
  unfold slice. rewrite (ztake_all (zdrop off (mdata s n))) by (rewrite zlen_zdrop; lia). apply ztake_zdrop.
Qed.

(** The mbuf is cut in two. *)
Lemma pulldown_chop o s' :
  duplicate s (n :: r) (pre ++ fr) (slice off (m_len n - off) (bytes s (n :: r))) o s' -> len <= m_len n - off ->
  pulled_down s c fr off0 len offp (S (length pre)) 0 (pre ++ set_len n off :: o :: r) s'.
Proof.
  intros [D1 D2 D3 D4 D5] Hl. destruct owns_n as (HW & Hgn & Hgr).
  apply (keeps_app s s' (n :: r)) in D2 as [Kn Kr]. apply keeps_cons in Kn as [Kn Kr'].
  pose proof (zlen_mdata _ _ Hgn) as Hz.
  assert (mdata s' o = slice off (m_len n - off) (mdata s n)) as Hdo by (rewrite D4, bytes_cons, slice_app_l by lia; done).
  apply pulled_at; try done.
  - simpl. apply (W_core _ _ n); [by split|]. by rewrite Permutation_swap.
  - constructor; [by eapply good_set_len; [eapply good_buf|]|]. constructor; [done|by eapply good_keeps].
  - eapply bytes_cut; [by apply mdata_buf| |done]. rewrite bytes_cons, Hdo. by rewrite (bytes_keeps s s').
  - right. split_and!; try done. exists o, r. split_and!; [done| |].
    + rewrite <- (zlen_mdata s' o), Hdo by done. rewrite zlen_slice; lia.
    + eapply private_writable, D5; [done|left].
Qed.

Section Results.
Context (Q : option (nat * Z) * list mbuf -> mst -> Prop).
Hypothesis HQ : forall i o c' s', keeps s s' fr -> pulled_down s c fr off0 len offp i o c' s' -> Q (Some (i, o), c') s'.

(** What follows is moved behind the data of [n]. *)
Lemma wp_pulldown_behind tlen :
  okoff = true -> M_READONLY s n = false -> tlen = len - (m_len n - off) -> 0 < tlen ->
  tlen <= m_trailingspace s n -> tlen <= chain_len r ->
  wp (bs <- m_copydata r 0 tlen ;;
      n <- mwrite n (m_len n) bs ;;
      ret (Some (length pre, off), pre ++ set_len n (m_len n + tlen) :: m_adj r tlen)) Q s.
Proof.
  intros Hok Hro Et H0 Hts Htl. destruct owns_n as (HW & Hgn & Hgr). pose proof (zlen_bytes _ _ Hgr) as Hzr.
  rewrite (trailing_room _ _ _ _ HW Hro) in Hts.
  apply wp_bind, wp_m_copydata; [destruct r; [simpl in Htl; lia|done]|done|lia|lia|lia|].
  assert (zlen (slice 0 tlen (bytes s r)) = tlen) as Hz by (apply zlen_slice; lia).
  apply wp_bind. eapply wp_append; [done|by eapply readonly_alone|done|lia|]. rewrite Hz.
  intros n' s' n'' HW' Hk Hg' Hd Hn' Hc. apply wp_ret.
  assert (set_len n' (m_len n' + tlen) = n'') as -> by (unfold n''; rewrite Hn'; done).
  apply keeps_app in Hk as [Kr Kpf].
  assert (owns s' r (n'' :: pre ++ fr)) as Hor by (split; [by rewrite <- Permutation_middle|by eapply good_keeps]).
  destruct (m_adj_front s' r _ tlen Hor) as [[HWa Hga] Hba]; [lia|].
  apply HQ; [by apply keeps_app in Kpf as [_ ?]|]. apply pulled_at; try done; try (unfold n''; rewrite Hn'; done).
  - simpl. by rewrite Permutation_middle.
  - by constructor.
  - rewrite !bytes_cons, Hd, Hba, (bytes_keeps s s') by done. rewrite <- app_assoc. f_equal.
    unfold slice. rewrite zdrop_0 by lia. apply ztake_zdrop.
  - left. split_and!; try done; [unfold n''; simpl; lia|]. eapply alone_writable; [done| |].
    + unfold n''. rewrite Hn'. exact (readonly_alone _ _ _ _ HW Hro).
    + unfold n''. rewrite Hn'. exact (readonly_extwr _ _ Hro).
Qed.

(** The end of [n] is moved in front of the next mbuf. *)
Lemma wp_pulldown_front x r' hlen :
  r = x :: r' -> hlen = m_len n - off -> 0 < hlen -> hlen <= m_leadingspace s x -> len - hlen <= m_len x ->
  let x1 := set_len (set_data x (m_data x - hlen)) (m_len x + hlen) in
  wp (bs <- mread n off hlen ;;
      x1 <- mwrite x1 0 bs ;;
      ret (Some (S (length pre), 0), pre ++ set_len n (m_len n - hlen) :: x1 :: r')) Q s.
Proof.
  intros Er Eh H0 Hls Hl x1. destruct owns_n as (HW & Hgn & Hgr). rewrite Er in HW, Hgr.
  apply list.Forall_cons in Hgr as [Hgx Hgr].
  assert (M_READONLY s x = false) as Hro by (unfold m_leadingspace in Hls; destruct (M_READONLY s x); [lia|done]).
  assert (hlen <= m_data x - data_start x) as Hds by (unfold m_leadingspace in Hls; by rewrite Hro in Hls).
  destruct (back_up s x hlen Hgx) as [Hg1 Hd1]; [lia|lia|]. fold x1 in Hg1, Hd1.
  assert (W s (x :: n :: r' ++ pre ++ fr)) as HWx by (by rewrite Permutation_swap).
  assert (W s (x1 :: n :: r' ++ pre ++ fr)) as HW1 by (by apply (W_core _ _ x); [by split|]).
  pose proof (good_data _ _ Hgn). pose proof Hgn as [? ? ?].
  apply wp_bind, wp_mread; [lia..|].
  assert (zlen (slice (m_data n + off) hlen (buf s n)) = hlen) as Hz by (unfold capacity in *; rewrite zlen_slice; lia).
  assert (alone x1 (n :: r' ++ pre ++ fr)) as Ha by (exact (readonly_alone _ _ _ _ HWx Hro)).
  assert (0 <= m_len x) as Hx0 by apply Hgx.
  apply wp_bind. eapply wp_write_in; [done|done|done|lia|simpl; lia|].
  intros x2 s' HW2 Hk2 Hg2 Hd2 Hx2. apply wp_ret.
  replace (m_len n - hlen) with off by lia. apply keeps_cons in Hk2 as [Kn Kr]. apply keeps_app in Kr as [Kr Kpf].
  apply HQ; [by apply keeps_app in Kpf as [_ ?]|]. apply pulled_at; try done.
  - simpl. apply (W_core _ _ n); [by split|]. by rewrite Permutation_swap.
  - constructor; [by eapply good_set_len; [eapply good_buf|]|]. constructor; [done|by eapply good_keeps].
  - apply (bytes_cut _ (bytes s (x :: r'))); [by apply mdata_buf| |by rewrite Er].
    rewrite bytes_cons, Hd2, bytes_cons, app_assoc.
    rewrite (bytes_keeps s s' r') by done. f_equal. unfold splice. rewrite ztake_0, Hz by lia. simpl.
    rewrite Z.add_0_l, Hd1. f_equal. unfold mdata. by rewrite slice_slice, <- Eh by lia.
  - right. split_and!; try done. exists x2, r'. split_and!; [done|rewrite Hx2; simpl; lia|].
    eapply alone_writable; [done| |].
    + rewrite Hx2. exact Ha.
    + rewrite Hx2. exact (readonly_extwr _ _ Hro).
Qed.

(** The target is gathered in a new mbuf between [n] and the rest. *)
Lemma wp_pulldown_gather t o s1 hlen tlen :
  W s1 (o :: n :: r ++ pre ++ fr) -> keeps s s1 (n :: r ++ pre ++ fr) -> blank s1 (n :: r ++ pre ++ fr) t len o ->
  hlen = m_len n - off -> tlen = len - hlen -> 0 < tlen -> tlen <= chain_len r ->
  let o0 := set_len o hlen in
  wp (bs <- mread n off hlen ;;
      o <- mwrite o0 0 bs ;;
      let n := set_len n (m_len n - hlen) in
      bs <- m_copydata r 0 tlen ;;
      o <- mwrite o (m_len o) bs ;;
      ret (Some (S (length pre), 0), pre ++ n :: set_len o (m_len o + tlen) :: m_adj r tlen)) Q s1.
Proof.
  intros HW1 [Kn Kr]%keeps_cons [B1 B2 B3 B4 B5 B6 B7] Eh Et H0 Htl o0.
  apply keeps_app in Kr as [Kr Kpf]. destruct owns_n as (_ & Hgn & Hgr).
  assert (good s1 n) as Hgn1 by (by eapply good_buf). pose proof (good_data _ _ Hgn1). pose proof Hgn1 as [? ? ?].
  pose proof (zlen_bytes _ _ Hgr) as Hzr.
  apply wp_bind, wp_mread; [lia..|].
  assert (zlen (slice (m_data n + off) hlen (buf s1 n)) = hlen) as Hz by (unfold capacity in *; rewrite zlen_slice; lia).
  assert (data_start o = 0) as Hds by (unfold data_start; rewrite B2; by destruct (is_ext o)).
  assert (good s1 o0) as Hg0.
  { split; [simpl; lia|change (data_start o0) with (data_start o); simpl; lia|].
    change (capacity s1 o0) with (capacity s1 o). simpl. lia. }
  apply wp_bind. eapply (wp_write_at s1 o0 (n :: r ++ pre ++ fr)); [by apply (W_core _ _ o); [by split|]|exact B5|done|simpl; lia| |].
  { change (capacity s1 o0) with (capacity s1 o). simpl. lia. }
  rewrite Hz. intros o1 s2 o1' HW2 [Kn2 Kr2]%keeps_cons Hg2 Hd2 Ho1 Hb2. apply keeps_app in Kr2 as [Kr2 Kpf2].
  assert (o1' = o1) as Eo by (unfold o1'; rewrite Ho1; done). rewrite Eo in *. clear o1' Eo.
  rewrite ztake_0 in Hd2 by lia. simpl in Hd2.
  assert (m_len o1 = hlen) as Hl1 by (rewrite Ho1; done).
  assert (Forall (good s2) r) as Hgr2 by (eapply good_keeps, good_keeps, Hgr; done).
  assert (m_data o1 = 0) as Hd1 by (rewrite Ho1; done).
  assert (capacity s2 o1 = capacity s1 o) as Hc2.
  { unfold capacity. rewrite Hb2, zlen_splice; [done|simpl; lia|]. change (buf s1 o0) with (buf s1 o).
    unfold capacity in B7. simpl. lia. }
  cbv zeta. apply wp_bind, wp_m_copydata; [destruct r; [simpl in Htl; lia|done]|done|lia|lia|lia|].
  rewrite (bytes_keeps s1 s2), (bytes_keeps s s1) by done.
  assert (zlen (slice 0 tlen (bytes s r)) = tlen) as Hz3 by (apply zlen_slice; lia).
  assert (alone o1 (n :: r ++ pre ++ fr)) as Ha1 by (rewrite Ho1; exact B5).
  apply wp_bind. eapply wp_append; [done|done|done|lia|]. rewrite Hz3.
  intros o2 s3 o3 HW3 [Kn3 Kr3]%keeps_cons Hg3 Hd3 Ho2 Hc3. apply keeps_app in Kr3 as [Kr3 Kpf3]. apply wp_ret.
  assert (set_len o2 (m_len o2 + tlen) = o3) as -> by (unfold o3; rewrite Ho2; done).
  assert (keeps s s3 (pre ++ fr)) as Kpf' by (eapply keeps_trans; [done|]; by eapply keeps_trans).
  assert (keeps s s3 r) as Kr' by (eapply keeps_trans; [done|]; by eapply keeps_trans).
  assert (buf s3 n = buf s n) as Kn' by congruence.
  assert (owns s3 r (o3 :: n :: pre ++ fr)) as Hor.
  { split; [|by eapply good_keeps]. by rewrite <- !Permutation_middle. }
  destruct (m_adj_front s3 r _ tlen Hor) as [[HWa Hga] Hba]; [lia|].
  assert (M_READONLY s3 o3 = false) as Hro3.
  { eapply alone_writable; [done| |]; unfold o3; rewrite Ho2; [exact Ha1|]. rewrite Ho1. exact B6. }
  apply HQ; [by apply keeps_app in Kpf' as [_ ?]|]. replace (m_len n - hlen) with off by lia.
  apply pulled_at; try done.
  - simpl. apply (W_core _ _ n); [by split|]. rewrite <- !Permutation_middle in HWa. by rewrite Permutation_swap.
  - constructor; [by eapply good_set_len; [eapply good_buf|]|]. by constructor.
  - apply (bytes_cut _ (bytes s r)); [by apply mdata_buf| |done].
    rewrite bytes_cons, Hd3, Hd2, Hba, (bytes_keeps s s3) by done. rewrite <- app_assoc. f_equal.
    + unfold mdata. rewrite slice_slice, <- Eh by lia. by rewrite Kn.
    + unfold slice. rewrite zdrop_0 by lia. apply ztake_zdrop.
  - right. split_and!; try done. exists o3, (m_adj r tlen). split_and!; [done|unfold o3; simpl; lia|done].
Qed.
End Results.
End Pulldown.

(** Why it fails: the chain is too short, the data does not fit in a cluster,
    nor that of the mbuf to be copied, or there is no memory. *)
Definition pulldown_fails (s : mst) (c : list mbuf) (off len : Z) : Prop :=
  chain_len c < off + len \/ MAXMCLBYTES < len \/ (exists m, m ∈ c /\ MAXMCLBYTES < m_len m) \/
  refused M_DONTWAIT s.

Definition pulldown_post (s : mst) (c fr : list mbuf) (off len : Z) (offp : bool)
    (p : option (nat * Z) * list mbuf) (s' : mst) : Prop :=
  keeps s s' fr /\
  match p with
  | (Some (i, o), c') => pulled_down s c fr off len offp i o c' s'
  | (None, c') => c' = [] /\ W s' fr /\
      pulldown_fails s c off len
  end.

Lemma keeps_perm s s' l l' : l ≡ₚ l' -> keeps s s' l' -> keeps s s' l.
Proof. intros H. unfold keeps. by setoid_rewrite H. Qed.

Lemma pulldown_fail s s' c fr off len offp :
  W s (c ++ fr) -> zok s false c -> W s' (c ++ fr) -> keeps s s' (c ++ fr) ->
  pulldown_fails s c off len ->
  wp (m_freem c ;;; ret (None, [])) (pulldown_post s c fr off len offp) s'.
Proof.
  intros HW Hz HW' [_ Hk]%keeps_app Hr. apply wp_bind, (wp_m_freem c s' fr); [done|by eapply zok_mono|].
  intros s2 HW2 Hk2. apply wp_ret. split; [by eapply keeps_trans|done].
Qed.

Lemma m_pulldown_spec s c fr off len offp :
  c <> [] -> owns s c fr -> hdr_ok c -> zok s false c -> 0 <= off -> 0 <= len ->
  (forall m, m ∈ c -> is_pkthdr m = true -> Forall tag_ok (ph_tags (m_pkthdr m))) ->
  wp (m_pulldown c off len offp) (pulldown_post s c fr off len offp) s.
Proof.
  intros Hne Ho Hh Hz H0 Hl Ht. pose proof Ho as [HW Hg]. unfold m_pulldown.
  destruct c as [|m0 r0] eqn:Ec; [done|]. rewrite <- Ec in *. clear Hne.
  pose proof (fun o l => pulldown_fail s s c fr o l offp HW Hz HW (keeps_refl _ _)) as Hfail.
  apply wp_bind, wp_m_getptr; [by rewrite Ec|done|done|intros ?; apply Hfail; left; lia|].
  intros pre n r o Epre -> Hoff Hend. generalize (m_type m0). intros t. clear m0 r0 Ec. subst c. rewrite drop_app_length, take_app_length.
  apply wp_bind, wp_get. set (c := pre ++ n :: r) in *.
  assert (forall i o' c' s', keeps s s' fr -> pulled_down s c fr (chain_len pre + o) len offp i o' c' s' ->
    pulldown_post s c fr (chain_len pre + o) len offp (Some (i, o'), c') s') as HQ by (by split).
  destruct (owns_n s pre n r fr Ho) as (HWn & Hgn & Hgr). pose proof (chain_len_nonneg _ _ Hgr) as Hr0.
  assert (chain_len c = chain_len pre + (m_len n + chain_len r)) as Hcl by (unfold c; by rewrite chain_len_app).
  assert (0 <= chain_len pre) as Hp0 by (apply list.Forall_app in Hg as [Hg _]; by eapply chain_len_nonneg).
  set (okoff := (o =? 0) || offp). destruct (Z.leb_spec len (m_len n - o)) as [Hin|Hout].
  - destruct (okoff && true && negb (M_READONLY s n)) eqn:Eok.
    + apply wp_ret. apply HQ; [apply keeps_refl|].
      apply andb_true_iff in Eok as [Eok Hro%negb_true_iff]. rewrite andb_true_r in Eok.
      apply (pulled_at s pre n r fr o len offp Ho Hh Hoff); try done; [by constructor|].
      left. split_and!; try done. lia.
    + apply wp_bind. eapply (wp_m_dup1 s n r (pre ++ fr)); [done|by constructor|lia|lia|simpl; lia| | |].
      * intros _. apply Ht. unfold c. set_solver.
      * intros s' Hf HW' Hk. apply pulldown_fail; try done.
        -- unfold c. by rewrite app_middle.
        -- by apply (keeps_perm _ _ _ _ (app_middle pre r n fr)).
        -- right; right. destruct Hf; [left; exists n; split; [unfold c; set_solver|lia]|by right].
      * intros x s' Hd. apply wp_ret. apply HQ; [|by apply pulldown_chop].
        destruct Hd as [_ Hk _ _ _]. by apply (keeps_app s s' (n :: r)), proj2, keeps_app, proj2 in Hk.
  - rewrite andb_false_r. cbn [andb].
    destruct (Z.ltb_spec (m_len n - o + chain_len r) len); [apply Hfail; left; lia|].
    destruct (okoff && _ && _) eqn:Eok.
    { rewrite !andb_true_iff, Z.leb_le, negb_true_iff in Eok. destruct Eok as [[? ?] ?].
      eapply (wp_pulldown_behind s pre n r fr o len offp); try done; lia. }
    clear Eok. destruct r as [|x r']; [simpl in *; lia|]. assert (o < m_len n) by (by destruct Hend).
    destruct (okoff && _ && _ && _) eqn:Eok.
    { rewrite !andb_true_iff, !Z.leb_le in Eok. destruct Eok as [[[? ?] ?] ?].
      eapply (wp_pulldown_front s pre n (x :: r') fr o len offp); try done; lia. }
    clear Eok. destruct (Z.ltb_spec MAXMCLBYTES len); [apply Hfail; by right; left|].
    assert (c ++ fr ≡ₚ n :: (x :: r') ++ pre ++ fr) as Hperm by (apply app_middle).
    apply wp_bind. eapply wp_copyback_get; [done|lia| |].
    + intros s' Hf HW' Hk. apply pulldown_fail; try done; [by rewrite Hperm|by apply (keeps_perm _ _ _ _ Hperm)|].
      by right; right; right.
    + intros y s' HW' Hk Hb. eapply (wp_pulldown_gather s pre n (x :: r') fr o len offp); try done; lia.
Qed.

