(* ===== verification/MbufDev.v ===== *)
(** * Copying from device memory: m_devget *)

From stdpp Require Import base numbers list option gmap.
From Stdlib Require Import ZArith Lia Bool.
From S2P Require Import Prelude Mbuf MbufOps MbufFacts MbufInv MbufExt MbufFree MbufChain MbufTrim.
From S2P Require Import MbufJoin MbufPull MbufCopy MbufDown.

(** The buffer of the next mbuf, and how much of it may be used. *)
Record devbuf (s : mst) (ms : list mbuf) (m : mbuf) (off : Z) (first : bool) (m' : mbuf) (len : Z) (s' : mst) : Prop := {
  db_W : W s' (m' :: ms);
  db_keeps : keeps s s' ms;
  db_alone : alone m' ms;
  db_extwr : extwr m';
  db_start : data_start m' <= m_data m';
  db_room : m_data m' + len <= capacity s' m';
  db_off : off <= len;
  db_len : first = false -> MLEN <= len;
  db_hdr : m_pkthdr m' = m_pkthdr m;
  db_ishdr : is_pkthdr m' = is_pkthdr m }.

Lemma wp_devget_buf s m ms (first : bool) mlh totlen off len Q :
  W s (m :: ms) -> is_ext m = false -> m_data m = data_start m -> len = MLEN - data_start m ->
  0 <= off <= len -> (first = false -> is_pkthdr m = false) -> 0 <= mlh -> 0 <= totlen ->
  (forall m' l s', devbuf s ms m off first m' l s' -> Q (m', l) s') ->
  wp (devget_room mlh first totlen off m len) Q s.
Proof.
  intros HW Hx Hd El Hoff Hf Hm Ht HQ. unfold devget_room. pose proof (data_start_nonneg m) as Hds.
  assert (first = false -> MLEN <= len) as Hlen.
  { intros E. unfold data_start in El. rewrite Hx, (Hf E) in El. lia. }
  assert (forall k, 0 <= k -> off <= len - k -> (first = false -> k = 0) ->
    devbuf s ms m off first (set_data m (m_data m + k)) (len - k) s) as Hin.
  { intros k Hk Hok Hfk. split; try done.
    - apply (W_core _ _ m); [by split|done].
    - change (alone m ms). intros ?. congruence.
    - change (extwr m). intros ?. congruence.
    - change (data_start (set_data _ _)) with (data_start m). cbn [m_data set_data]. lia.
    - change (capacity s (set_data _ _)) with (capacity s m). rewrite (capacity_int _ _ _ _ HW Hx). simpl. lia.
    - intros E. rewrite (Hfk E), Z.sub_0_r. auto. }
  assert (devbuf s ms m off first m len s) as Hm0.
  { specialize (Hin 0 ltac:(lia) ltac:(lia) ltac:(done)). rewrite Z.add_0_r, Z.sub_0_r in Hin. by destruct m. }
  destruct (Z.leb_spec MINCLSIZE (totlen + off)).
  - apply wp_bind. eapply wp_m_clget; [done|done|done|intros s2 Hw HW2 Hcl2|].
    + rewrite Hx. apply wp_ret. apply HQ. destruct Hm0. split; try done; [by apply keeps_cl|].
      unfold capacity. by rewrite (buf_cl s s2).
    + intros m' s2 HW2 Hk2 He Hx' Ha _ Hc. rewrite Hx'. apply wp_ret. apply HQ.
      assert (m_data m' = 0) as Hd' by (by rewrite He).
      split; try done.
      * intros _. rewrite He. simpl. flag_simpl. done.
      * unfold data_start. rewrite Hx'. lia.
      * rewrite Hd'. unfold MCLBYTES. lia.
      * change MLEN with 224 in *. unfold MCLBYTES. lia.
      * by rewrite He.
      * rewrite He. unfold is_pkthdr. simpl. flag_simpl. done.
  - destruct (first && _) eqn:E; apply wp_ret; [|by apply HQ].
    apply andb_true_iff in E as [-> E%Z.leb_le]. apply HQ, Hin; [done|lia|done].
Qed.

(** The mbuf filled with the next bytes. *)
Record devpiece (s : mst) (ms : list mbuf) (m : mbuf) (b : list Z) (m' : mbuf) (s' : mst) : Prop := {
  dp_W : W s' (m' :: ms);
  dp_keeps : keeps s s' ms;
  dp_good : good s' m';
  dp_data : mdata s' m' = b;
  dp_private : private (m' :: ms) m';
  dp_hdr : m_pkthdr m' = m_pkthdr m;
  dp_ishdr : is_pkthdr m' = is_pkthdr m }.

Lemma wp_devget_fill s ms m0 off first m len s1 totlen dev Q :
  devbuf s ms m0 off first m len s1 -> 0 <= off -> 0 <= totlen <= zlen dev ->
  (forall m' s', devpiece s ms m0 (ztake (Z.min totlen (len - off)) dev) m' s' ->
     Q (m', Z.min totlen (len - off)) s') ->
  wp (devget_fill dev totlen off m len) Q s1.
Proof.
  intros [H1 H2 H3 H4 H5 H6 H7 H8 H9 H10] Ho Ht HQ. unfold devget_fill.
  assert ((if negb (off =? 0) then (set_data m (m_data m + off), len - off) else (m, len)) =
          (set_data m (m_data m + off), len - off)) as ->.
  { destruct (Z.eqb_spec off 0) as [->|]; [|done]. rewrite Z.add_0_r, Z.sub_0_r. by destruct m. }
  set (k := Z.min totlen (len - off)). assert (0 <= k <= zlen dev) as Hk by lia.
  rewrite (proj2 (Z.ltb_ge (zlen dev) k)) by lia.
  set (m1 := set_len (set_data m (m_data m + off)) k).
  assert (zlen (ztake k dev) = k) as Hz by (by apply zlen_ztake).
  apply wp_bind. eapply (wp_fill_len s1 m1 ms); [apply (W_core _ _ m); [by split|done]|exact H3| |by rewrite Hz| |].
  - change (data_start m1) with (data_start m). unfold m1. cbn [m_data set_len set_data]. lia.
  - change (capacity s1 m1) with (capacity s1 m). rewrite Hz. unfold m1. cbn [m_data set_len set_data]. lia.
  - intros m' s' HW' Hk' Hg' Hd' Hm'. apply wp_ret, HQ. split; try done.
    + by eapply keeps_trans.
    + apply private_alone; rewrite Hm'; [exact H3|exact H4].
    + by rewrite Hm'.
    + by rewrite Hm'.
Qed.

(** What has been copied, in mbufs nobody shares. *)
Record devchain (s : mst) (fr : list mbuf) (b : list Z) (top : list mbuf) : Prop := {
  dc_W : W s (top ++ fr);
  dc_good : Forall (good s) top;
  dc_bytes : bytes s top = b;
  dc_private : Forall (private (top ++ fr)) top }.

Lemma private_zok s fr b top : devchain s fr b top -> zok s true top.
Proof.
  intros [HW _ _ Hp]. assert (Forall (fun m => M_READONLY s m = false) top) as Hro.
  { rewrite list.Forall_forall in Hp |- *. intros m Hm. eapply private_writable; [done|set_solver|by apply Hp]. }
  clear HW Hp. induction Hro as [|m r Hm _ IH]; [done|]. by split.
Qed.

Lemma devchain_snoc s fr top a m m' b s' :
  Forall (good s) top -> bytes s top = a -> Forall (private (top ++ fr)) top ->
  devpiece s (top ++ fr) m b m' s' -> devchain s' fr (a ++ b) (top ++ [m']).
Proof.
  intros C2 C3 C4 [P1 P2 P3 P4 P5 _ _]. pose proof P2 as [Kt _]%keeps_app.
  split.
  - rewrite <- app_assoc. simpl. by rewrite <- Permutation_middle.
  - apply list.Forall_app. split; [by eapply good_keeps|by constructor].
  - rewrite chain_bytes_app, (bytes_keeps s s'), C3 by done. by rewrite bytes_cons, P4, app_nil_r.
  - by apply (private_snoc true).
Qed.

Lemma ztake_zdrop_app k n {A} (l : list A) : 0 <= k <= n -> ztake k l ++ ztake (n - k) (zdrop k l) = ztake n l.
Proof.
  intros H. rewrite <- (zdrop_ztake k (n - k)) by lia. replace (k + (n - k)) with n by lia.
  rewrite <- (ztake_ztake k n) by lia. apply ztake_zdrop.
Qed.

Section Loop.
Context (fr : list mbuf) (mlh : Z) (first : mbuf) (Hmlh : 0 <= mlh).

(** The turns after the first. *)
Lemma wp_devget_rest fuel : forall s a top dev totlen Q,
  (Z.to_nat totlen <= fuel)%nat -> top <> [] -> devchain s fr a top -> 0 <= totlen <= zlen dev ->
  (forall s', refused M_DONTWAIT s -> W s' fr -> keeps s s' fr -> Q [] s') ->
  (forall more s', keeps s s' fr -> devchain s' fr (a ++ ztake totlen dev) (top ++ more) -> Q (top ++ more) s') ->
  wp (devget_loop fuel mlh dev totlen 0 first top) Q s.
Proof.
  induction fuel as [|fuel IH]; intros s a top dev totlen Q Hf Hne Hc Ht HN HS.
  { simpl. rewrite (proj2 (Z.leb_le totlen 0)) by lia. apply wp_ret. rewrite <- (app_nil_r top).
    apply HS; [apply keeps_refl|]. by rewrite app_nil_r, ztake_0, app_nil_r by lia. }
  cbn [devget_loop]. destruct (Z.leb_spec totlen 0).
  { apply wp_ret. rewrite <- (app_nil_r top). apply HS; [apply keeps_refl|].
    by rewrite app_nil_r, ztake_0, app_nil_r by lia. }
  pose proof Hc as [HW Hg Hb Hp].
  destruct top as [|t0 top0] eqn:Et; [done|]. rewrite <- Et in *. rewrite bool_decide_eq_false_2 by (by rewrite Et).
  apply wp_bind. eapply wp_m_get; [done|intros s1 Hw HW1 Hcl1|intros m s1 HW1 Hcl1 (Htm & Hfl & Hd)].
  - apply wp_bind, (wp_m_freem _ s1 fr).
    + eapply W_core2, HW1. apply (zprop_core true).
    + apply (zok_zprop s1 true), (zok_mono s s1 true top fr fr); [by eapply private_zok|done|done|done].
    + intros s2 HW2 Hk2. apply wp_ret. apply HN; [done|done|]. eapply keeps_trans, Hk2. by apply keeps_cl.
  - assert (is_ext m = false) as Hx by (unfold is_ext; by rewrite Hfl).
    assert (is_pkthdr m = false) as Hpk by (unfold is_pkthdr; by rewrite Hfl).
    assert (data_start m = 0) as Hds by (unfold data_start; by rewrite Hx, Hpk).
    assert (keeps s s1 (top ++ fr)) as Hk1 by (by apply keeps_cl).
    apply wp_bind. eapply (wp_devget_buf s1 m (top ++ fr) false); [done|done|lia|rewrite Hds; lia|unfold MLEN, MSIZE, M_HDR_SIZE; lia|done|done|lia|].
    intros m1 l s2 Hdb. apply wp_bind. eapply wp_devget_fill; [done|lia|lia|].
    intros m2 s3 Hdp. pose proof (db_len _ _ _ _ _ _ _ _ Hdb eq_refl) as Hl. change MLEN with 224 in Hl.
    set (k := Z.min totlen (l - 0)) in *. pose proof Hk1 as [Kt Kf]%keeps_app.
    assert (keeps s s3 fr) as Hk3.
    { eapply keeps_trans; [exact Kf|]. pose proof (dp_keeps _ _ _ _ _ _ Hdp) as Hkp. by apply keeps_app in Hkp as [_ ?]. }
    apply (IH s3 (a ++ ztake k dev) (top ++ [m2])); [lia|by rewrite Et| |rewrite zlen_zdrop; lia| |].
    + eapply (devchain_snoc s1); [by eapply good_keeps|by rewrite (bytes_keeps s s1)|done|done].
    + intros s' Hr HW' Hk'. apply HN; [by eapply refused_keeps|done|by eapply keeps_trans].
    + intros more s' Hk' Hc'. rewrite <- !app_assoc in Hc'. rewrite <- app_assoc. apply HS; [by eapply keeps_trans|].
      by rewrite <- (ztake_zdrop_app k totlen dev) by lia.
Qed.
End Loop.

Lemma m_devget_spec max_linkhdr s fr dev totlen off :
  W s fr -> 0 <= max_linkhdr -> 0 < totlen <= zlen dev ->
  wp (m_devget max_linkhdr dev totlen off) (fun c s' => keeps s s' fr /\
    match c with
    | [] => W s' fr /\ (off < 0 \/ MHLEN < off \/ refused M_DONTWAIT s)
    | m :: _ => owns s' c fr /\ hdr_ok c /\ is_pkthdr m = true /\ bytes s' c = ztake totlen dev /\
        Forall (fun m => M_READONLY s' m = false) c
    end) s.
Proof.
  intros HW Hm Ht. unfold m_devget. destruct (Z.ltb_spec off 0); [apply wp_ret; by auto using keeps_refl|].
  destruct (Z.ltb_spec MHLEN off); [apply wp_ret; by auto using keeps_refl|]. cbn [orb].
  apply wp_bind. eapply wp_m_gethdr; [done|intros s1 Hw HW1 Hcl; apply wp_ret; by auto using keeps_cl|].
  intros m s1 HW1 Hcl1 (_ & Hf & Hd & _). set (m0 := set_phlen m totlen).
  assert (W s1 (m0 :: fr)) as HW0 by (apply (W_core _ _ m); [by split|done]).
  assert (is_ext m0 = false /\ is_pkthdr m0 = true) as [Hx Hp] by (unfold is_ext, is_pkthdr; simpl; by rewrite Hf).
  assert (data_start m0 = PKTHDR_SIZE) as Hds by (unfold data_start; by rewrite Hx, Hp).
  cbn [devget_loop]. rewrite (proj2 (Z.leb_gt _ _)) by lia. apply wp_bind, wp_ret, wp_bind.
  eapply (wp_devget_buf s1 m0 fr true); [done|done|by rewrite Hds|by rewrite Hds|lia|done|done|lia|].
  intros m1 l s2 Hdb. pose proof (db_off _ _ _ _ _ _ _ _ Hdb). apply wp_bind. eapply wp_devget_fill; [done|lia|lia|].
  intros m2 s3 Hdp. set (k := Z.min totlen (l - off)) in *.
  assert (keeps s s3 fr) as Hk3 by (eapply keeps_trans; [by apply keeps_cl|]; by eapply dp_keeps).
  eapply (wp_devget_rest fr max_linkhdr m0 Hm _ s3 (ztake k dev) [m2]); [lia|done| |rewrite zlen_zdrop; lia| |].
  - by apply (devchain_snoc s1 fr [] [] m0).
  - intros s' Hr HW' Hk'. split; [by eapply keeps_trans|]. split; [done|]. right; right.
    eapply refused_scl; [done|]. by eapply refused_keeps, Hr; eapply dp_keeps.
  - intros more s' Hk' Hc. split; [by eapply keeps_trans|]. rewrite ztake_zdrop_app in Hc by lia. cbn [app] in *.
    destruct Hc as [C1 C2 C3 C4]. destruct Hdp as [_ _ _ _ _ P6 P7].
    split_and!; [done| |by rewrite P7|done|].
    + intros _. change (m_len m2 + chain_len more) with (chain_len (m2 :: more)).
      rewrite P6, <- (zlen_bytes s' (m2 :: more)) by done. simpl in C3. rewrite C3, zlen_ztake by lia. done.
    + rewrite list.Forall_forall in C4 |- *. intros x Hx'. eapply private_writable; [done| |by apply C4].
      apply elem_of_app. by left.
Qed.

(** [m_devget] copies a packet from device memory: the result holds
    exactly the [totlen] bytes, with a packet header that says so, in buffers
    nobody shares.  It returns nothing only when [off] does not fit or the
    pools refuse, and then has given everything back. *)
Theorem m_devget_correct max_linkhdr s fr dev totlen off :
  W s fr -> 0 <= max_linkhdr -> 0 < totlen <= zlen dev ->
  wp (m_devget max_linkhdr dev totlen off) (fun c s' => keeps s s' fr /\
    match c with
    | [] => W s' fr /\ (off < 0 \/ MHLEN < off \/ refused M_DONTWAIT s)
    | m :: _ => owns s' c fr /\ hdr_ok c /\ is_pkthdr m = true /\ bytes s' c = ztake totlen dev /\
        Forall (fun m => M_READONLY s' m = false) c
    end) s.
Proof. apply m_devget_spec. Qed.
