(* ===== verification/MbufRun.v ===== *)
(** * Sequences of operations on mbuf chains

    The chains of a system, the first of them being worked on, and the
    operations on them; an operation within its domain completes and leaves
    every mbuf in exactly one chain. *)

From stdpp Require Import base numbers list option gmap.
From Stdlib Require Import ZArith Lia Bool.
From S2P Require Import Prelude Mbuf MbufOps MbufFacts MbufInv MbufExt MbufFree MbufChain MbufTrim.
From S2P Require Import MbufJoin MbufPull MbufCopy MbufSplit MbufInject MbufWrite MbufDown MbufDev.

Inductive mop :=
  | ORotate
  | OFreem
  | OAdj (req_len : Z)
  | OCat
  | OPrepend (len how : Z)
  | OCopym (off len wait : Z) (deep : bool)
  | OCopyback (off : Z) (cp : list Z) (wait : Z)
  | OSplit (len0 wait : Z)
  | OPullup (len : Z)
  | OPulldown (off len : Z) (offp : bool)
  | OInject (len0 siz wait : Z)
  | ODefrag (how : Z)
  | ODevget (max_linkhdr : Z) (dev : list Z) (totlen off : Z).

Definition exec (o : mop) (cs : list (list mbuf)) : M (list (list mbuf)) :=
  match o, cs with
  | ODevget mlh dev totlen off, _ => c <- m_devget mlh dev totlen off ;; ret (c :: cs)
  | ORotate, c :: r => ret (r ++ [c])
  | OFreem, c :: r => m_freem c ;;; ret r
  | OAdj n, c :: r => ret (m_adj c n :: r)
  | OCat, c1 :: c2 :: r => c <- m_cat c1 c2 ;; ret (c :: r)
  | OPrepend len how, c :: r => c <- m_prepend c len how ;; ret (c :: r)
  | OCopym off len wait deep, c :: r => t <- m_copym0 c off len wait deep ;; ret (t :: c :: r)
  | OCopyback off cp wait, c :: r => let* '(_, c) := m_copyback c off (zlen cp) cp wait in ret (c :: r)
  | OSplit len0 wait, c :: r => let* '(a, b) := m_split c len0 wait in ret (a :: b :: r)
  | OPullup len, c :: r => c <- m_pullup c len ;; ret (c :: r)
  | OPulldown off len offp, c :: r => let* '(_, c) := m_pulldown c off len offp in ret (c :: r)
  | OInject len0 siz wait, c :: r => let* '(_, c) := m_inject c len0 siz wait in ret (c :: r)
  | ODefrag how, c :: r => let* '(_, c) := m_defrag c how in ret (c :: r)
  | _, _ => ret cs
  end.

(** ** Domains *)

Definition tags_fit (m : mbuf) : Prop := is_pkthdr m = true -> Forall tag_ok (ph_tags (m_pkthdr m)).

(** What the callers of the operations have to ensure. *)
Definition dom (o : mop) (s : mst) (cs : list (list mbuf)) : Prop :=
  match o, cs with
  | ODevget mlh dev totlen _, _ => 0 <= mlh /\ 0 < totlen <= zlen dev
  | OCat, c1 :: c2 :: _ => c1 <> [] /\ zok s false c2
  | _, [] :: _ => o = ORotate \/ o = OFreem
  | OFreem, c :: _ => zok s false c
  | OAdj _, c :: _ => hdr_ok c
  | OPrepend len _, c :: _ => hdr_ok c /\ zok s false c /\ 0 <= len <= MHLEN
  | OCopym off len _ _, (m :: r) as c :: _ =>
      (off = 0 -> hdr_ok c) /\ 0 <= off <= chain_len c /\ 0 <= len /\ len_ok len off (chain_len c) /\
      (off = 0 -> is_pkthdr m = true -> hdr_src m /\ (0 < m_len m \/ r = []))
  | OCopyback off cp _, c :: r =>
      hdr_ok c /\ Forall (unshared (c ++ concat r)) c /\ 0 <= off /\ 0 < zlen cp /\ off + zlen cp <= MAXMCLBYTES
  | OSplit len0 _, c :: _ =>
      hdr_ok c /\ 0 <= len0 <= chain_len c /\ len0 <= INT_MAX /\ split_fits c len0 /\ Forall tags_fit c
  | OPullup len, (m :: r0) as c :: r =>
      hdr_ok c /\ zok s false c /\ 0 <= len /\ (is_ext m = true -> MHLEN < len -> alone m (r0 ++ concat r)) /\
      (chain_len c < len -> zer m = false)
  | OPulldown off len _, c :: _ => hdr_ok c /\ zok s false c /\ 0 <= off /\ 0 <= len /\ Forall tags_fit c
  | OInject len0 siz _, c :: _ =>
      hdr_ok c /\ 0 < len0 <= chain_len c /\ len0 <= INT_MAX /\ 0 <= siz < MHLEN /\ chain_len c < M_COPYALL
  | ODefrag _, (m :: r0) as c :: _ =>
      hdr_ok c /\ is_pkthdr m = true /\ zok s false r0 /\ chain_len c <= MAXMCLBYTES
  | _, _ => True
  end.

(** ** Typing *)

(** Every live mbuf is in one place of one chain, with its data inside its
    buffer; the reference rings of the clusters, the tags and the counts by
    type are those of the mbufs. *)
Definition typed (s : mst) (cs : list (list mbuf)) : Prop :=
  W s (concat cs) /\ Forall (good s) (concat cs).

Lemma typed_cons s c cs : typed s (c :: cs) <-> owns s c (concat cs) /\ Forall (good s) (concat cs).
Proof.
  unfold typed. simpl. rewrite list.Forall_app. split.
  - intros (? & ? & ?). split; [by split|done].
  - intros ([? ?] & ?). done.
Qed.

(** The other chains through an operation that keeps their buffers. *)
Lemma typed_next s s' c cs :
  Forall (good s) (concat cs) -> keeps s s' (concat cs) -> owns s' c (concat cs) -> typed s' (c :: cs).
Proof. intros Hg Hk Ho. apply typed_cons. split; [done|]. by eapply good_keeps. Qed.

Lemma typed_nil s s' cs :
  Forall (good s) (concat cs) -> keeps s s' (concat cs) -> W s' (concat cs) -> typed s' ([] :: cs).
Proof. intros Hg Hk HW. eapply typed_next; [done|done|]. by split. Qed.

Lemma good_back s s' c fr : Forall (good s) c -> keeps s s' (c ++ fr) -> W s' (c ++ fr) -> owns s' c fr.
Proof. intros Hg [Hk _]%keeps_app HW. split; [done|by eapply good_keeps]. Qed.

(** An operation that failed and left the first chain as it was. *)
Lemma unchanged s s' m r fr :
  owns s (m :: r) fr -> W s' ((m :: r) ++ fr) -> keeps s s' ((m :: r) ++ fr) ->
  keeps s s' fr /\ owns s' (m :: r) fr.
Proof.
  intros [_ Hg] HW Hk. pose proof (good_back _ _ _ _ Hg Hk HW). by apply (keeps_app s s' (m :: r) fr) in Hk as [_ ?].
Qed.

(** An operation that replaces the first chain. *)
Lemma wp_replace {A} (e : M A) (f : A -> list mbuf) s c cs P :
  typed s (c :: cs) -> wp e P s ->
  (forall a s', P a s' -> keeps s s' (concat cs) /\ owns s' (f a) (concat cs)) ->
  wp (a <- e ;; ret (f a :: cs)) (fun cs' s' => typed s' cs') s.
Proof.
  intros [_ Hg]%typed_cons He Hf. apply wp_bind. eapply wp_mono; [exact He|]. intros a s' Ha.
  apply wp_ret. destruct (Hf _ _ Ha). by eapply typed_next.
Qed.

Lemma wp_replace2 {A} (e : M (A * list mbuf)) s c cs P :
  typed s (c :: cs) -> wp e P s ->
  (forall a c' s', P (a, c') s' -> keeps s s' (concat cs) /\ owns s' c' (concat cs)) ->
  wp (let* '(_, c') := e in ret (c' :: cs)) (fun cs' s' => typed s' cs') s.
Proof.
  intros [_ Hg]%typed_cons He Hf. apply wp_bind. eapply wp_mono; [exact He|]. intros [a c'] s' Ha.
  apply wp_ret. destruct (Hf _ _ _ Ha). by eapply typed_next.
Qed.

Lemma typed_rotate s c cs : typed s (c :: cs) -> typed s (cs ++ [c]).
Proof.
  unfold typed. simpl. rewrite concat_app. simpl. rewrite app_nil_r.
  intros [HW Hg]. by rewrite (Permutation_app_comm (concat cs)).
Qed.

Lemma exec_typed o s cs : typed s cs -> dom o s cs -> wp (exec o cs) (fun cs' s' => typed s' cs') s.
Proof.
  intros Ht Hd. destruct o.
  - destruct cs as [|c cs]; apply wp_ret; [done|by apply typed_rotate].
  - destruct cs as [|c cs]; [by apply wp_ret|]. pose proof Ht as [[HW _] Hg]%typed_cons. simpl.
    apply wp_bind, (wp_m_freem c s (concat cs)); [done|by destruct c|]. intros s' HW' Hk. apply wp_ret.
    split; [done|by eapply good_keeps].
  - destruct cs as [|c cs]; [by apply wp_ret|]. pose proof Ht as [Ho Hg]%typed_cons. simpl. apply wp_ret.
    eapply typed_next; [done|apply keeps_refl|]. destruct c as [|m r]; [done|]. by apply m_adj_spec.
  - destruct cs as [|c1 [|c2 cs]]; [by apply wp_ret..|]. assert (c1 <> [] /\ zok s false c2) as [Hne Hz] by (by destruct c1).
    pose proof Ht as [[HW Hg1] [Hg2 Hg]%list.Forall_app]%typed_cons. simpl in HW. simpl.
    assert (typed s ((c1 ++ c2) :: cs)) as Ht2.
    { apply typed_cons. split; [split|done]; [by rewrite <- app_assoc|by apply list.Forall_app]. }
    eapply (wp_replace (m_cat c1 c2) id s (c1 ++ c2) cs _ Ht2).
    { apply m_cat_spec; [done| |done]. by apply typed_cons in Ht2 as [? _]. }
    intros c s' (? & ? & _). done.
  - destruct cs as [|c cs]; [by apply wp_ret|]. pose proof Ht as [Ho Hg]%typed_cons. simpl.
    destruct c as [|m r]; [by destruct Hd|]. destruct Hd as (D1 & D2 & D3).
    eapply (wp_replace _ id s (m :: r) cs _ Ht); [by apply m_prepend_spec|].
    intros [|x c'] s' [Hk Hc]; split; try done; [by split; [apply Hc|constructor]|apply Hc].
  - destruct cs as [|[|m r] cs]; [by apply wp_ret|by destruct Hd|]. pose proof Ht as [Ho Hg]%typed_cons.
    destruct Hd as (D1 & D2 & D3 & D4 & D5). cbn [exec]. apply wp_bind.
    eapply wp_mono; [by apply (wp_m_copym0 s m r (concat cs))|]. intros top s' [Hk Hc]. apply wp_ret.
    assert (Forall (good s) (concat ((m :: r) :: cs))) as Hgc by apply Ht.
    destruct Hc as [(_ & -> & HW')|[Ho' _]]; [by eapply typed_nil|by eapply typed_next].
  - destruct cs as [|[|m r] cs]; [by apply wp_ret|by destruct Hd|]. pose proof Ht as [Ho Hg]%typed_cons.
    destruct Hd as (D1 & D2 & D3 & D4 & D5). eapply (wp_replace2 _ s (m :: r) cs _ Ht); [by apply m_copyback_spec|].
    intros e c' s' (? & ? & _). done.
  - destruct cs as [|[|m r] cs]; [by apply wp_ret|by destruct Hd|]. pose proof Ht as [Ho Hg]%typed_cons.
    destruct Hd as (D1 & D2 & D3 & D4 & D5). cbn [exec]. apply wp_bind.
    apply wp_m_split with (concat cs); try done.
    + intros m0 [= <-]. by apply list.Forall_cons in D5 as [? _].
    + intros s' _ HW' Hk. apply wp_ret. destruct (unchanged _ _ _ _ _ Ho HW' Hk) as [Hk' [_ Hg']].
      split; [done|]. apply list.Forall_app. split; [done|by eapply good_keeps].
    + intros [a b] s' ([_ Hk]%keeps_app & HW' & Hg' & _). apply wp_ret. simpl in *.
      split; simpl; [done|]. rewrite app_assoc, list.Forall_app. split; [done|by eapply good_keeps].
  - destruct cs as [|[|m r] cs]; [by apply wp_ret|by destruct Hd|]. pose proof Ht as [Ho Hg]%typed_cons.
    destruct Hd as (D1 & D2 & D3 & D4 & D5). eapply (wp_replace _ id s (m :: r) cs _ Ht); [by apply m_pullup_spec|].
    intros [|x c'] s' [Hk Hc]; split; try done; [by split; [apply Hc|constructor]|apply Hc].
  - destruct cs as [|[|m r] cs]; [by apply wp_ret|by destruct Hd|]. pose proof Ht as [Ho Hg]%typed_cons.
    destruct Hd as (D1 & D2 & D3 & D4 & D5). eapply (wp_replace2 _ s (m :: r) cs _ Ht).
    { apply m_pulldown_spec; try done. intros x Hx. rewrite list.Forall_forall in D5. by apply D5. }
    intros [[i o]|] c' s' [Hk Hc]; split; try done; [apply Hc|]. destruct Hc as (-> & HW' & _). by split.
  - destruct cs as [|[|m r] cs]; [by apply wp_ret|by destruct Hd|]. pose proof Ht as [Ho Hg]%typed_cons.
    destruct Hd as (D1 & D2 & D3 & D4 & D5). eapply (wp_replace2 _ s (m :: r) cs _ Ht); [by apply m_inject_spec|].
    intros [i|] c' s' Hc; simpl in Hc; [by destruct Hc as (? & ? & _)|].
    destruct Hc as (_ & -> & HW' & Hk). by eapply unchanged.
  - destruct cs as [|[|m r] cs]; [by apply wp_ret|by destruct Hd|]. pose proof Ht as [Ho Hg]%typed_cons.
    destruct Hd as (D1 & D2 & D3 & D4). eapply (wp_replace2 _ s (m :: r) cs _ Ht); [by apply m_defrag_spec|].
    intros e c' s' [(_ & _ & Ec & HW' & Hk)|(_ & Hk & Ho' & _)]; [|done]. simpl in Ec. rewrite Ec.
    by eapply unchanged.
  - destruct Hd as [D1 D2]. destruct Ht as [HW Hg]. cbn [exec]. apply wp_bind.
    eapply wp_mono; [by apply (m_devget_spec _ s (concat cs))|]. intros c s' [Hk Hc]. apply wp_ret.
    destruct c as [|m r]; [eapply typed_nil; [done|done|apply Hc]|eapply typed_next; [done|done|apply Hc]].
Qed.

(** ** Sequences *)

Fixpoint exec_all (os : list mop) (cs : list (list mbuf)) : M (list (list mbuf)) :=
  match os with
  | [] => ret cs
  | o :: os => cs <- exec o cs ;; exec_all os cs
  end.

(** Every operation is called in its domain. *)
Fixpoint safe_run (os : list mop) (s : mst) (cs : list (list mbuf)) : Prop :=
  match os with
  | [] => True
  | o :: os => dom o s cs /\ forall cs' s', exec o cs s = Ok cs' s' -> safe_run os s' cs'
  end.

Lemma safe_run_step o os s cs cs' s' :
  exec o cs s = Ok cs' s' -> dom o s cs -> safe_run os s' cs' -> safe_run (o :: os) s cs.
Proof. intros E Hd Hr. split; [done|]. intros ? ? E'. rewrite E in E'. by injection E' as <- <-. Qed.

Lemma wp_exec_all os : forall s cs,
  typed s cs -> safe_run os s cs -> wp (exec_all os cs) (fun cs' s' => typed s' cs') s.
Proof.
  induction os as [|o os IH]; intros s cs Ht Hr; [by apply wp_ret|]. destruct Hr as [Hd Hr]. simpl.
  apply wp_bind. pose proof (exec_typed o s cs Ht Hd) as He. apply wp_run in He as (cs' & s' & E & Ht').
  unfold wp. rewrite E. apply IH; [done|by apply Hr].
Qed.

(** Nothing is left of a system without chains. *)
Lemma typed_empty s cs : typed s cs -> concat cs = [] -> mb_live s = ∅ /\ mb_cl s = ∅ /\ mb_ntags s = 0.
Proof.
  intros [HW _] E. rewrite E in HW. split_and!.
  - apply set_eq. intros a. rewrite (W_live HW). set_solver.
  - apply map_empty. intros c. destruct (mb_cl s !! c) as [k|] eqn:Ek; [|done].
    destruct (W_ring HW _ _ Ek) as (Hp & Hne & _). by apply Permutation_nil_r in Hp.
  - apply (W_tags HW).
Qed.

(** C11: mbuf operations are type-safe: any sequence of them, each called in
    its domain, completes without panicking and without touching memory
    outside the buffers, whatever the pools refuse; afterwards every live mbuf
    is in exactly one place of one chain with its data inside its buffer, and
    the reference rings, tags and statistics agree with the mbufs.  In
    particular, when all chains are freed nothing is left allocated. *)
Theorem mbuf_ops_typed os s cs :
  typed s cs -> safe_run os s cs ->
  exists cs' s', exec_all os cs s = Ok cs' s' /\ typed s' cs' /\
    (concat cs' = [] -> mb_live s' = ∅ /\ mb_cl s' = ∅ /\ mb_ntags s' = 0).
Proof.
  intros Ht Hr. destruct (wp_run _ _ _ (wp_exec_all os s cs Ht Hr)) as (cs' & s' & E & Ht').
  exists cs', s'. split_and!; [done|done|]. by apply typed_empty.
Qed.
