(* ===== verification/MbufDemo.v ===== *)
(** * The theorems about mbufs at concrete packets *)

From stdpp Require Import base numbers list option gmap.
From Stdlib Require Import ZArith Lia Bool.
From S2P Require Import Prelude Mbuf MbufOps MbufFacts MbufInv MbufExt MbufFree MbufChain MbufTrim.
From S2P Require Import MbufJoin MbufPull MbufCopy MbufSplit MbufInject MbufWrite MbufDown MbufDev.
From S2P Require Import MbufRead MbufRun.

(** ** A packet *)

Definition junk : mbuf := Mbuf 0 0 0 0 0 zero_pkthdr 0 [].

(** Nothing allocated, and pools that grant everything. *)
Definition s0 : mst := Mst ∅ ∅ (fun _ => 0) 0 (fun _ => true) 0 0 (fun _ => junk) (fun _ => []).

Lemma s0_W : W s0 [].
Proof. split; try done; try set_solver. constructor. Defined.

Definition dev : list Z := seqZ 0 300.

(** A packet of 300 bytes in two mbufs. *)
Definition recv : list mbuf * mst := match m_devget 16 dev 300 0 s0 with Ok c s => (c, s) | _ => ([], s0) end.
Definition c1 : list mbuf := recv.1.
Definition s1 : mst := recv.2.
Definition m1 : mbuf := hd junk c1.
Definition r1 : list mbuf := tl c1.

Lemma demo_cons : c1 = m1 :: r1.
Proof. vm_compute. reflexivity. Qed.

Lemma demo_owns : owns s1 (m1 :: r1) [] /\ hdr_ok (m1 :: r1).
Proof.
  rewrite <- demo_cons.
  pose proof (m_devget_spec 16 s0 [] dev 300 0 s0_W ltac:(lia) ltac:(vm_compute; done)) as H.
  apply wp_run in H as (c & s & E & _ & H). unfold c1, s1, recv. rewrite E. simpl. destruct c as [|m r].
  - exfalso. destruct H as [_ [H|[H|[_ H]]]]; [lia|by unfold MHLEN in H|by apply H].
  - by destruct H as (? & ? & _).
Qed.

Lemma demo_zok : zok s1 false (m1 :: r1).
Proof. vm_compute. repeat split; done. Qed.

Lemma demo_tags : ph_tags (m_pkthdr m1) = [].
Proof. vm_compute. reflexivity. Qed.

Lemma demo_unshared : Forall (unshared ((m1 :: r1) ++ [])) (m1 :: r1).
Proof.
  assert (forallb (fun m => negb (is_ext m)) (m1 :: r1) = true) as H by (vm_compute; reflexivity).
  apply list.Forall_forall. intros m Hm Hx. rewrite forallb_forall in H.
  specialize (H m ltac:(by apply list_elem_of_In)). by rewrite Hx in H.
Qed.

(** ** The operations on it *)

Lemma m_copydata_correct_witness : m_copydata (m1 :: r1) 150 4 s1 = Ok [150; 151; 152; 153] s1.
Proof.
  rewrite (m_copydata_correct s1 (m1 :: r1) 150 4); [vm_compute; reflexivity|done|apply demo_owns|lia|lia].
Defined.

(** The sum of the bytes, and how many pieces there were. *)
Lemma m_apply_correct_witness :
  exists segs, concat segs = slice 150 4 (bytes s1 (m1 :: r1)) /\
    m_apply (fun st b => (0, (st.1 + foldr Z.add 0 b, st.2 + 1))) (m1 :: r1) 150 4 (0, 0) s1 =
      Ok (run_segs (fun st b => (0, (st.1 + foldr Z.add 0 b, st.2 + 1))) (0, 0) segs) s1.
Proof.
  apply (m_apply_correct (fun st b => (0, (st.1 + foldr Z.add 0 b, st.2 + 1)))
           s1 (m1 :: r1) 150 4 (0, 0)); [apply demo_owns|lia|lia|vm_compute; done].
Defined.

Lemma m_adj_correct_witness :
  let c' := m_adj (m1 :: r1) 200 in
  owns s1 c' [] /\ hdr_ok c' /\ length c' = 2%nat /\ bytes s1 c' = zdrop 200 (bytes s1 (m1 :: r1)).
Proof. exact (m_adj_correct s1 (m1 :: r1) [] 200 (proj1 demo_owns) (proj2 demo_owns)). Defined.

Lemma m_cat_correct_witness :
  wp (m_cat [m1] r1) (fun c s' => owns s' c [] /\ keeps s1 s' [] /\ bytes s' c = bytes s1 [m1] ++ bytes s1 r1) s1.
Proof.
  apply (m_cat_correct s1 [m1] r1 []); [done|apply demo_owns|]. vm_compute. repeat split; done.
Defined.

Lemma m_prepend_correct_witness :
  wp (m_prepend (m1 :: r1) 14 M_DONTWAIT) (fun c' s' => keeps s1 s' [] /\
    match c' with
    | [] => refused M_DONTWAIT s1 /\ W s' []
    | m :: _ => owns s' c' [] /\ hdr_ok c' /\ 14 <= m_len m /\
        chain_len c' = chain_len (m1 :: r1) + 14 /\ zdrop 14 (bytes s' c') = bytes s1 (m1 :: r1)
    end) s1.
Proof.
  apply (m_prepend_correct s1 (m1 :: r1) [] 14 M_DONTWAIT); [done|apply demo_owns|apply demo_owns|apply demo_zok|].
  vm_compute. split; discriminate.
Defined.

Lemma m_pullup_correct_witness : wp (m_pullup (m1 :: r1) 160) (pulled s1 (m1 :: r1) [] 160) s1.
Proof.
  apply (m_pullup_correct s1 m1 r1 [] 160); [apply demo_owns|apply demo_owns|apply demo_zok|lia| |].
  - intros H. vm_compute in H. discriminate.
  - intros H. vm_compute in H. discriminate.
Defined.

Lemma m_copym_correct_witness :
  wp (m_copym0 (m1 :: r1) 100 100 M_DONTWAIT true) (fun top s' => keeps s1 s' ((m1 :: r1) ++ []) /\
    (refused M_DONTWAIT s1 /\ top = [] /\ W s' ((m1 :: r1) ++ []) \/
     owns s' top ((m1 :: r1) ++ []) /\ bytes s' top = copied 100 100 (bytes s1 (m1 :: r1)) /\ hdr_ok top /\
     hdr_copied 100 100 m1 top /\ nozero top /\ (true = true -> Forall (fun m => M_READONLY s' m = false) top))) s1.
Proof.
  apply (m_copym_correct s1 m1 r1 [] 100 100 M_DONTWAIT true); [apply demo_owns|discriminate| |lia| |discriminate].
  - vm_compute. split; discriminate.
  - right. vm_compute. split; [reflexivity|discriminate].
Defined.

Lemma m_split_correct_witness :
  wp (m_split (m1 :: r1) 100 M_DONTWAIT) (fun p s' =>
    refused M_DONTWAIT s1 /\ p = (m1 :: r1, []) /\ W s' ((m1 :: r1) ++ []) /\ keeps s1 s' ((m1 :: r1) ++ []) \/
    halves s1 (m1 :: r1) [] 100 p s') s1.
Proof.
  apply (m_split_correct s1 (m1 :: r1) [] 100 M_DONTWAIT); [done|apply demo_owns|apply demo_owns| | | |].
  - vm_compute. split; discriminate.
  - vm_compute. discriminate.
  - vm_compute. discriminate.
  - intros m0 E _. apply (inj Some m1 m0) in E. rewrite <- E, demo_tags. constructor.
Defined.

Lemma m_copyback_correct_witness :
  wp (m_copyback (m1 :: r1) 290 20 (seqZ 1000 20) M_DONTWAIT)
     (copied_back s1 (m1 :: r1) [] 290 (seqZ 1000 20) M_DONTWAIT) s1.
Proof.
  apply (m_copyback_correct s1 (m1 :: r1) [] 290 (seqZ 1000 20) M_DONTWAIT);
    [done|apply demo_owns|apply demo_owns|apply demo_unshared|lia|vm_compute; reflexivity|vm_compute; discriminate].
Defined.


Lemma m_inject_correct_witness :
  wp (m_inject (m1 :: r1) 100 8 M_DONTWAIT) (fun p s' =>
    match p.1 with
    | None => refused M_DONTWAIT s1 /\ p.2 = m1 :: r1 /\ W s' ((m1 :: r1) ++ []) /\ keeps s1 s' ((m1 :: r1) ++ [])
    | Some i => injected s1 (m1 :: r1) [] 100 8 i p.2 s'
    end) s1.
Proof.
  apply (m_inject_correct s1 (m1 :: r1) [] 100 8 M_DONTWAIT); [apply demo_owns|apply demo_owns|..].
  - vm_compute. split; [reflexivity|discriminate].
  - vm_compute. discriminate.
  - vm_compute. split; [discriminate|reflexivity].
  - vm_compute. reflexivity.
Defined.

Lemma m_defrag_correct_witness : wp (m_defrag (m1 :: r1) M_DONTWAIT) (defragged s1 (m1 :: r1) [] M_DONTWAIT) s1.
Proof.
  apply (m_defrag_correct s1 m1 r1 [] M_DONTWAIT); [apply demo_owns|apply demo_owns|vm_compute; reflexivity| |].
  - vm_compute. repeat split; done.
  - vm_compute. discriminate.
Defined.

Lemma m_devget_correct_witness :
  wp (m_devget 16 dev 300 2) (fun c s' => keeps s0 s' [] /\
    match c with
    | [] => W s' [] /\ (2 < 0 \/ MHLEN < 2 \/ refused M_DONTWAIT s0)
    | m :: _ => owns s' c [] /\ hdr_ok c /\ is_pkthdr m = true /\ bytes s' c = ztake 300 dev /\
        Forall (fun m => M_READONLY s' m = false) c
    end) s0.
Proof. apply (m_devget_correct 16 s0 [] dev 300 2 s0_W); [lia|]. vm_compute. split; [reflexivity|discriminate]. Defined.

(** A packet is received, gets a link header, is copied, and both are freed. *)
Definition story : list mop :=
  [ODevget 16 (seqZ 0 5) 5 0; OPrepend 14 M_DONTWAIT; OCopym 1 10 M_DONTWAIT false; ORotate; OFreem; OFreem].

Lemma mbuf_ops_typed_witness :
  exists cs' s', exec_all story [] s0 = Ok cs' s' /\ typed s' cs' /\
    (concat cs' = [] -> mb_live s' = ∅ /\ mb_cl s' = ∅ /\ mb_ntags s' = 0).
Proof.
  apply (mbuf_ops_typed story s0 []); [split; [apply s0_W|constructor]|].
  eapply safe_run_step; [vm_compute; reflexivity|vm_compute; repeat split; discriminate|].
  eapply safe_run_step; [vm_compute; reflexivity|vm_compute; repeat split; discriminate|].
  eapply safe_run_step; [vm_compute; reflexivity| |].
  { split; [discriminate|]. split; [vm_compute; split; discriminate|]. split; [discriminate|].
    split; [|discriminate]. right. vm_compute. split; [reflexivity|discriminate]. }
  do 3 (eapply safe_run_step; [vm_compute; reflexivity|vm_compute; repeat split; done|]).
  done.
Defined.
