(* ===== verification/MbufDefects.v ===== *)
(** * Where the mbuf code departs from its contract *)

From stdpp Require Import base numbers list option gmap.
From Stdlib Require Import ZArith Lia Bool.
From S2P Require Import Prelude Mbuf MbufOps MbufFacts MbufChain MbufDemo.

(** The first bytes of a chain. *)
Definition bytes_now (c : list mbuf) : M (list Z) := s <- get_st ;; ret (ztake 2 (bytes s c)).

(** What a computation that succeeds returns. *)
Definition value {A} (e : M A) (s : mst) : option A := match e s with Ok a _ => Some a | _ => None end.

(** A received packet of [n] bytes 0, 1, 2, ...; from 377 on in a cluster. *)
Definition pkt (n : Z) : M (list mbuf) := m_devget 16 (seqZ 0 n) n 0.
Definition zeroized (c : list mbuf) : list mbuf :=
  on_head (fun m => set_flags m (Z.lor (m_flags m) M_ZEROIZE)) c.
Definition nohdr (c : list mbuf) : list mbuf :=
  on_head (fun m => set_flags m (clr_flag (m_flags m) M_PKTHDR)) c.

(** Memory that holds 77 where an mbuf has its length. *)
Definition s77 : mst := Mst ∅ ∅ (fun _ => 0) 0 (fun _ => true) 0 0 (fun _ => set_len junk 77) (fun _ => []).

(** C38: cases outside the domains of the theorems, where the code does not do
    what it means to, each shown by a run on a small packet.
    [m_copyback] writes through to a copy that shares the cluster, and
    [m_pullup] to the other half of a split packet.
    After copying a packet that is marked [M_ZEROIZE] and has a cluster,
    freeing the original panics, and so does freeing the copy: any chain whose
    first mbuf is marked and has a read-only buffer panics when freed.
    [m_pullup] of a short chain whose first mbuf is marked [M_ZEROIZE] goes on
    to use an mbuf it has already freed.
    [m_copyback] of no bytes beyond the end grows the chain but not the total
    in the packet header.
    [m_copym] of a packet whose first mbuf is empty writes past the end of the
    new mbuf when the second has more bytes than fit behind a header.
    [m_split] of more than [MHLEN] bytes of internal data leaves the length of
    the new first mbuf as the memory had it.
    [m_devget] of an empty packet returns nothing and keeps an mbuf. *)
Theorem mbuf_defects :
  value (c <- pkt 400 ;;
         d <- m_copym c 0 M_COPYALL M_DONTWAIT ;;
         b0 <- bytes_now d ;;
         let* '(_, c) := m_copyback c 0 2 [255; 254] M_DONTWAIT in
         b1 <- bytes_now d ;; ret (b0, b1)) s0 = Some ([0; 1], [255; 254]) /\
  value (c <- pkt 400 ;;
         let* '(a, b) := m_split c 200 M_DONTWAIT in
         x <- pkt 20 ;;
         b0 <- bytes_now b ;;
         c <- m_pullup (a ++ nohdr x) 210 ;;
         b1 <- bytes_now b ;; ret (b0, b1)) s0 = Some ([200; 201], [0; 1]) /\
  (c <- pkt 400 ;; d <- m_copym (zeroized c) 0 M_COPYALL M_DONTWAIT ;; m_freem (zeroized c)) s0 = Panics /\
  (c <- pkt 400 ;; d <- m_copym (zeroized c) 0 M_COPYALL M_DONTWAIT ;; m_freem d) s0 = Panics /\
  (forall s m r, has (m_flags m) M_ZEROIZE = true -> M_READONLY s m = true -> m_freem (m :: r) s = Panics) /\
  (c <- pkt 5 ;; x <- pkt 5 ;; m_pullup (zeroized c ++ nohdr x) 20) s0 = Overrun /\
  value (c <- pkt 5 ;;
         let* '(e, c) := m_copyback c 9 0 [] M_DONTWAIT in
         ret (e, (fun m => ph_len (m_pkthdr m)) <$> head c, chain_len c)) s0 = Some (0, Some 5, 9) /\
  (c <- pkt 376 ;; m_copym (m_adj c 152) 0 M_COPYALL M_DONTWAIT) s0 = Overrun /\
  value (c <- pkt 376 ;;
         let* '(_, b) := m_split c 153 M_DONTWAIT in
         ret (m_len <$> b, (fun m => ph_len (m_pkthdr m)) <$> head b)) s77 = Some ([77; 223], Some 223) /\
  value (c <- pkt 0 ;; s <- get_st ;; ret (c, elements (mb_live s))) s0 = Some ([], [0%nat]).
Proof.
  split_and!; try (vm_compute; reflexivity).
  intros s m r Hz Hro. unfold m_freem. cbn [length freem_loop m_free]. rewrite Hz.
  unfold bind, count_type, m_zero.
  by replace (M_READONLY (with_mtypes s _) m) with true by (by destruct s).
Qed.
