(* ===== verification/MbufList.v ===== *)
(** * Packet lists and queues: ml_* and mq_* of uipc_mbuf.c

    Packets are linked through [m_nextpkt] of their first mbuf; a
    [struct mbuf_list] points to the first and the last of them.  The memory
    here is the [m_nextpkt] field of every mbuf, by address. *)

From stdpp Require Import base functions list option.
From Stdlib Require Import ZArith Lia.
From S2P Require Import Prelude.
Local Open Scope Z_scope.

Definition ptr : Type := option nat.
Definition links : Type := nat -> ptr.

Record mbuf_list := MkList { ml_head : ptr; ml_tail : ptr; ml_len : Z }.

Definition u32l (z : Z) : Z := z mod 2 ^ 32.
Definition ml_empty (ml : mbuf_list) : bool := ml_len ml =? 0.

Definition ml_init : mbuf_list := MkList None None 0.

Definition ml_enqueue (h : links) (ml : mbuf_list) (m : nat) : links * mbuf_list :=
  let '(h, head) := match ml_tail ml with
                    | None => (h, Some m)
                    | Some t => (<[t := Some m]> h, ml_head ml)
                    end in
  (<[m := None]> h, MkList head (Some m) (u32l (ml_len ml + 1))).

(** [None]: a list that claims to have a tail but has none. *)
Definition ml_join (h : links) (mla mlb : mbuf_list) : option (links * mbuf_list * mbuf_list) :=
  if ml_empty mlb then Some (h, mla, mlb)
  else
    let len := u32l (ml_len mla + ml_len mlb) in
    if ml_empty mla then Some (h, MkList (ml_head mlb) (ml_tail mlb) len, ml_init)
    else match ml_tail mla with
         | None => None
         | Some t => Some (<[t := ml_head mlb]> h, MkList (ml_head mla) (ml_tail mlb) len, ml_init)
         end.

Definition ml_dequeue (h : links) (ml : mbuf_list) : ptr * links * mbuf_list :=
  match ml_head ml with
  | None => (None, h, ml)
  | Some m =>
      let head := h m in
      let tail := match head with None => None | Some _ => ml_tail ml end in
      (Some m, <[m := None]> h, MkList head tail (u32l (ml_len ml - 1)))
  end.

Definition ml_dechain (ml : mbuf_list) : ptr * mbuf_list := (ml_head ml, ml_init).

Section Filter.
Context {St : Type} (filter : St -> nat -> bool * St).

(** [*mp = n], where [mp] is [&ml->ml_head] or the [m_nextpkt] of an mbuf. *)
Definition set_link (h : links) (ml : mbuf_list) (mp n : ptr) : links * mbuf_list :=
  match mp with
  | None => (h, MkList n (ml_tail ml) (ml_len ml))
  | Some q => (<[q := n]> h, ml)
  end.

Fixpoint filter_loop (fuel : nat) (h : links) (ml matches : mbuf_list) (mp : ptr) (m : ptr) (ctx : St)
  : option (links * mbuf_list * mbuf_list * St) :=
  match m with
  | None => Some (h, ml, matches, ctx)
  | Some p =>
    match fuel with
    | O => None
    | S f =>
      let n := h p in
      let '(b, ctx) := filter ctx p in
      if b then
        let '(h, ml) := set_link h ml mp n in
        let '(h, matches) := ml_enqueue h matches p in
        filter_loop f h ml matches mp n ctx
      else filter_loop f h (MkList (ml_head ml) (Some p) (ml_len ml)) matches (Some p) n ctx
    end
  end.

(** One turn per element of the list. *)
Definition ml_filter (h : links) (ml : mbuf_list) (ctx : St) : option (ptr * links * mbuf_list * St) :=
  match filter_loop (Z.to_nat (ml_len ml)) h ml ml_init None (ml_head ml) ctx with
  | None => None
  | Some (h, ml, matches, ctx) =>
      let tail := match ml_head ml with None => None | Some _ => ml_tail ml end in
      Some (ml_head matches, h, MkList (ml_head ml) tail (u32l (ml_len ml - ml_len matches)), ctx)
  end.
End Filter.

(** ** Queues *)

Record mbuf_queue := MkQueue { mq_list : mbuf_list; mq_maxlen : Z; mq_drops : Z }.

(** [mq_drops] is left as it was found. *)
Definition mq_init (mq : mbuf_queue) (maxlen : Z) : mbuf_queue := MkQueue ml_init maxlen (mq_drops mq).

Definition mq_len (mq : mbuf_queue) : Z := ml_len (mq_list mq).

(** Whether the packet was dropped; a dropped packet is freed. *)
Definition mq_enqueue (h : links) (mq : mbuf_queue) (m : nat) : bool * links * mbuf_queue :=
  if mq_len mq <? mq_maxlen mq then
    let '(h, l) := ml_enqueue h (mq_list mq) m in (false, h, MkQueue l (mq_maxlen mq) (mq_drops mq))
  else (true, h, MkQueue (mq_list mq) (mq_maxlen mq) (u32l (mq_drops mq + 1))).

Definition mq_dequeue (h : links) (mq : mbuf_queue) : ptr * links * mbuf_queue :=
  let '(m, h, l) := ml_dequeue h (mq_list mq) in (m, h, MkQueue l (mq_maxlen mq) (mq_drops mq)).

Fixpoint drain (fuel : nat) (h : links) (ml : mbuf_list) : option (list nat * links * mbuf_list) :=
  let '(m, h, ml) := ml_dequeue h ml in
  match m with
  | None => Some ([], h, ml)
  | Some m => match fuel with
              | O => None
              | S f => match drain f h ml with
                       | None => None
                       | Some (l, h, ml) => Some (m :: l, h, ml)
                       end
              end
  end.

(** The count, the packets freed, the memory, the queue and the list. *)
Definition mq_enlist (h : links) (mq : mbuf_queue) (ml : mbuf_list)
  : option (Z * list nat * links * mbuf_queue * mbuf_list) :=
  if mq_len mq <? mq_maxlen mq then
    match ml_join h (mq_list mq) ml with
    | None => None
    | Some (h, l, ml) => Some (0, [], h, MkQueue l (mq_maxlen mq) (mq_drops mq), ml)
    end
  else
    let dropped := ml_len ml in
    let mq := MkQueue (mq_list mq) (mq_maxlen mq) (u32l (mq_drops mq + dropped)) in
    if dropped =? 0 then Some (0, [], h, mq, ml)
    else match drain (Z.to_nat dropped) h ml with
         | None => None
         | Some (l, h, ml) => Some (dropped, l, h, mq, ml)
         end.

Definition mq_delist (mq : mbuf_queue) : mbuf_list * mbuf_queue :=
  (mq_list mq, MkQueue ml_init (mq_maxlen mq) (mq_drops mq)).

Definition mq_dechain (mq : mbuf_queue) : ptr * mbuf_queue :=
  let '(m, l) := ml_dechain (mq_list mq) in (m, MkQueue l (mq_maxlen mq) (mq_drops mq)).

Definition mq_filter {St} (filter : St -> nat -> bool * St) (h : links) (mq : mbuf_queue) (ctx : St)
  : option (ptr * links * mbuf_queue * St) :=
  match ml_filter filter h (mq_list mq) ctx with
  | None => None
  | Some (m, h, l, ctx) => Some (m, h, MkQueue l (mq_maxlen mq) (mq_drops mq), ctx)
  end.
