(* ===== verification/MbufListFacts.v ===== *)
(** * Packet lists and queues implement lists *)

From stdpp Require Import base functions list option sets relations.
From Stdlib Require Import ZArith Lia.
From S2P Require Import Prelude MbufList.
Local Open Scope Z_scope.

Lemma link_set (h : links) p v : (<[p := v]> h) p = v.
Proof. apply fn_lookup_insert. Qed.

(** From [a] through the packets [l] to [b]. *)
Fixpoint seg (h : links) (a : ptr) (l : list nat) (b : ptr) : Prop :=
  match l with
  | [] => a = b
  | p :: r => a = Some p /\ seg h (h p) r b
  end.

Lemma seg_app h l1 : forall a l2 b, seg h a (l1 ++ l2) b <-> exists c, seg h a l1 c /\ seg h c l2 b.
Proof. induction l1 as [|p l1 IH]; intros a l2 b; simpl; [naive_solver|]. rewrite IH. naive_solver. Qed.

Lemma seg_ext h h' l : forall a b, (forall p, p ∈ l -> h' p = h p) -> seg h a l b -> seg h' a l b.
Proof.
  induction l as [|p l IH]; intros a b He; [done|]. intros [-> Hs]. split; [done|].
  rewrite He by left. apply IH; [|done]. intros q Hq. apply He. by right.
Qed.

Lemma seg_head h l b : forall a, seg h a l b -> a = match l with [] => b | p :: _ => Some p end.
Proof. destruct l; simpl; naive_solver. Qed.

Lemma seg_set h p v l a b : p ∉ l -> seg h a l b -> seg (<[p := v]> h) a l b.
Proof. intros Hp. apply seg_ext. intros q Hq. apply fn_lookup_insert_ne. set_solver. Qed.

(** The last of a segment made to point elsewhere. *)
Lemma seg_relink h l t a b c :
  t ∉ l -> seg h a (l ++ [t]) b -> seg (<[t := c]> h) a (l ++ [t]) c.
Proof.
  intros Ht. rewrite !seg_app. intros (d & H1 & H2). exists d. split; [by apply seg_set|].
  cbn [seg] in *. rewrite link_set. naive_solver.
Qed.

(** The list [ml] holds the packets [l]. *)
Record holds (h : links) (ml : mbuf_list) (l : list nat) : Prop := {
  ho_seg : seg h (ml_head ml) l None;
  ho_tail : ml_tail ml = last l;
  ho_len : ml_len ml = Z.of_nat (length l);
  ho_nodup : NoDup l;
  ho_max : Z.of_nat (length l) < 2 ^ 32 }.

(** Only the packets [l] changed their link. *)
Definition links_of (l : list nat) (h h' : links) : Prop := forall p, p ∉ l -> h' p = h p.

Lemma links_of_set p v h : links_of [p] h (<[p := v]> h).
Proof. intros q Hq. apply fn_lookup_insert_ne. set_solver. Qed.

Lemma links_of_weaken l l' h h' : l ⊆ l' -> links_of l h h' -> links_of l' h h'.
Proof. intros Hl Ho p Hp. apply Ho. set_solver. Qed.

Lemma links_of_trans l h1 h2 h3 : links_of l h1 h2 -> links_of l h2 h3 -> links_of l h1 h3.
Proof. intros H1 H2 p Hp. by rewrite H2, H1. Qed.

(** Lists without those packets are not affected. *)
Lemma holds_frame h h' ml l l' : links_of l h h' -> l' ## l -> holds h ml l' -> holds h' ml l'.
Proof.
  intros Ho Hd [H1 H2 H3 H4 H5]. split; try done. eapply seg_ext, H1. intros p Hp. apply Ho. set_solver.
Qed.

Lemma holds_nil h : holds h ml_init [].
Proof. split; try done. constructor. Qed.

Lemma holds_empty h ml l : holds h ml l -> ml_empty ml = bool_decide (l = []).
Proof.
  intros [_ _ H _ _]. unfold ml_empty. rewrite H. destruct l; [done|].
  rewrite bool_decide_eq_false_2 by done. apply Z.eqb_neq. simpl. lia.
Qed.

Lemma u32l_small z : 0 <= z < 2 ^ 32 -> u32l z = z.
Proof. intros. by apply Z.mod_small. Qed.

Lemma holds_enqueue h ml l m :
  holds h ml l -> m ∉ l -> Z.of_nat (length l) + 1 < 2 ^ 32 ->
  let '(h', ml') := ml_enqueue h ml m in holds h' ml' (l ++ [m]) /\ links_of (l ++ [m]) h h'.
Proof.
  intros [H1 H2 H3 H4 H5] Hm Hl. unfold ml_enqueue. rewrite H2, H3.
  assert (NoDup (l ++ [m])) as Hnd.
  { apply NoDup_app. split_and!; [done|set_solver|apply NoDup_singleton]. }
  rewrite u32l_small by lia.
  destruct l as [|t l _] using rev_ind.
  - split.
    + split; try done. cbn [ml_head app seg]. by rewrite link_set.
    + apply links_of_set.
  - rewrite last_snoc. apply NoDup_app in H4 as (_ & Ht & _).
    assert (t ∉ l) as Htl by set_solver. assert (t <> m) as Htm by set_solver.
    split.
    + split; simpl; [|by rewrite last_snoc|rewrite !length_app in *; simpl in *; lia|done|rewrite !length_app in *; simpl in *; lia].
      rewrite seg_app. exists (Some m). split.
      * apply seg_set; [done|]. by eapply seg_relink.
      * cbn [seg]. by rewrite link_set.
    + eapply links_of_trans; [apply (links_of_weaken [t])|apply (links_of_weaken [m])];
        [set_solver|apply links_of_set|set_solver|apply links_of_set].
Qed.

Lemma holds_dequeue h ml l :
  holds h ml l ->
  let '(m, h', ml') := ml_dequeue h ml in
  match l with
  | [] => m = None /\ h' = h /\ ml' = ml
  | p :: r => m = Some p /\ h' p = None /\ holds h' ml' r /\ links_of [p] h h'
  end.
Proof.
  intros [H1 H2 H3 H4 H5]. unfold ml_dequeue. destruct l as [|p r]; simpl in H1; [by rewrite H1|].
  destruct H1 as [-> Hs]. apply NoDup_cons in H4 as [Hp Hnd].
  split_and!; [done|by rewrite link_set| |apply links_of_set].
  split; simpl in *; try done; [by apply seg_set| | |lia].
  - rewrite (seg_head _ _ _ _ Hs). destruct r; [done|]. by rewrite H2.
  - rewrite H3, u32l_small by lia. lia.
Qed.

Lemma holds_join h mla mlb la lb :
  holds h mla la -> holds h mlb lb -> la ## lb -> Z.of_nat (length (la ++ lb)) < 2 ^ 32 ->
  exists h' mla' mlb', ml_join h mla mlb = Some (h', mla', mlb') /\
    holds h' mla' (la ++ lb) /\ holds h' mlb' [] /\ links_of la h h'.
Proof.
  intros Ha Hb Hd Hl. unfold ml_join. rewrite (holds_empty _ _ _ Ha), (holds_empty _ _ _ Hb).
  destruct (decide (lb = [])) as [->|Hbe].
  { rewrite bool_decide_eq_true_2, app_nil_r by done. eexists _, _, _. split_and!; done. }
  rewrite bool_decide_eq_false_2 by done.
  destruct Ha as [A1 A2 A3 A4 A5]. pose proof Hb as [B1 B2 B3 B4 B5]. rewrite length_app in Hl.
  assert (u32l (ml_len mla + ml_len mlb) = Z.of_nat (length (la ++ lb))) as Hlen.
  { rewrite u32l_small, length_app by lia. lia. }
  destruct (decide (la = [])) as [->|Hae].
  { rewrite bool_decide_eq_true_2 by done. eexists _, _, _. split_and!; [done| |apply holds_nil|done].
    by split. }
  rewrite bool_decide_eq_false_2 by done.
  destruct la as [|t l _] using rev_ind; [done|]. rewrite A2, last_snoc.
  apply NoDup_app in A4 as (A4 & Ht & _). assert (t ∉ l) as Htl by set_solver.
  eexists _, _, _. split_and!; [done| |apply holds_nil|apply (links_of_weaken [t]); [set_solver|apply links_of_set]].
  split; simpl; try done.
  - rewrite seg_app. exists (ml_head mlb). split; [by eapply seg_relink|]. apply seg_set; [set_solver|done].
  - rewrite B2, last_app. by destruct (last lb) eqn:E; [|apply last_None in E].
  - apply NoDup_app. split_and!; [|set_solver|done]. apply NoDup_app. split_and!; [done|set_solver|apply NoDup_singleton].
  - rewrite length_app. lia.
Qed.

(** ** Filtering *)

Section Filter.
Context {St : Type} (filter : St -> nat -> bool * St).

(** What [ml_filter] means: the packets that match, those that do not, and
    what the calls, from first to last, leave in the context. *)
Fixpoint run_filter (ctx : St) (l : list nat) : list nat * list nat * St :=
  match l with
  | [] => ([], [], ctx)
  | p :: r =>
      let '(b, ctx) := filter ctx p in
      let '(x, k, ctx) := run_filter ctx r in
      if b then (p :: x, k, ctx) else (x, p :: k, ctx)
  end.

Lemma run_filter_perm l : forall ctx, let '(x, k, _) := run_filter ctx l in x ++ k ≡ₚ l.
Proof.
  induction l as [|p r IH]; intros ctx; simpl; [done|]. destruct (filter ctx p) as [b c1].
  specialize (IH c1). destruct (run_filter c1 r) as [[x k] c2]. destruct b; simpl; rewrite <- IH; [done|].
  by rewrite Permutation_middle.
Qed.

(** [mp] points to the link that leads to the current packet; setting it to
    the next one takes the current one out. *)
Lemma unlink h ml k p r :
  NoDup (k ++ p :: r) -> seg h (ml_head ml) (k ++ p :: r) None ->
  let '(h', ml') := set_link h ml (last k) (h p) in
  seg h' (ml_head ml') (k ++ r) None /\ ml_tail ml' = ml_tail ml /\ ml_len ml' = ml_len ml /\ links_of k h h'.
Proof.
  intros Hnd. destruct k as [|q k _] using rev_ind.
  - simpl. intros [_ Hs]. split_and!; done.
  - rewrite last_snoc. unfold set_link. rewrite !seg_app. intros (c & Hs & -> & Hr).
    apply NoDup_app in Hnd as (Hk & Hdis & Hnd). apply NoDup_app in Hk as (_ & Hq & _).
    split_and!; [|done|done|apply (links_of_weaken [q]); [set_solver|apply links_of_set]].
    exists (h p). split; [eapply seg_relink, Hs; set_solver|]. apply seg_set; [|done].
    intros Hin. apply (Hdis q); set_solver.
Qed.

Lemma filter_loop_ok r : forall fuel h ml matches k x ctx,
  (length r <= fuel)%nat -> seg h (ml_head ml) (k ++ r) None -> holds h matches x ->
  NoDup (k ++ x ++ r) -> Z.of_nat (length (x ++ r)) < 2 ^ 32 -> (k <> [] -> ml_tail ml = last k) ->
  let '(xs, ks, ctx') := run_filter ctx r in
  exists h' ml' matches', filter_loop filter fuel h ml matches (last k) (head r) ctx = Some (h', ml', matches', ctx') /\
    seg h' (ml_head ml') (k ++ ks) None /\ (k ++ ks <> [] -> ml_tail ml' = last (k ++ ks)) /\
    ml_len ml' = ml_len ml /\ holds h' matches' (x ++ xs) /\ links_of (k ++ x ++ r) h h'.
Proof.
  induction r as [|p r IH]; intros fuel h ml matches k x ctx Hf Hs Hm Hnd Hl Ht.
  { simpl. exists h, ml, matches. rewrite !app_nil_r in *. destruct fuel; by split_and!. }
  destruct fuel as [|fuel]; [simpl in Hf; lia|]. simpl in Hf. cbn [run_filter filter_loop head].
  pose proof Hs as (c & _ & Ec & Hr)%seg_app. apply seg_head in Hr as Hn.
  assert (h p = head r) as Ehp by (destruct r; done). rewrite Ehp.
  pose proof Hnd as (_ & D1 & (_ & D2 & (D3 & _)%NoDup_cons)%NoDup_app)%NoDup_app.
  destruct (filter ctx p) as [[] c1].
  - assert (NoDup (k ++ p :: r)) as Hnd1.
    { eapply sublist_NoDup; [exact Hnd|]. apply sublist_app; [done|]. by apply sublist_inserts_l. }
    pose proof (unlink h ml k p r Hnd1 Hs) as Hu. rewrite Ehp in Hu.
    destruct (set_link h ml (last k) (head r)) as [h1 ml1]. destruct Hu as (U1 & U2 & U3 & U4).
    assert (holds h1 matches x) as Hm1 by (eapply holds_frame; [done|set_solver|done]).
    pose proof (holds_enqueue h1 matches x p Hm1 ltac:(set_solver)) as He. rewrite length_app in Hl. simpl in Hl.
    specialize (He ltac:(lia)). destruct (ml_enqueue h1 matches p) as [h2 m2]. destruct He as [E1 E2].
    assert (seg h2 (ml_head ml1) (k ++ r) None) as Hs2.
    { eapply seg_ext, U1. intros q Hq. apply E2. set_solver. }
    specialize (IH fuel h2 ml1 m2 k (x ++ [p]) c1 ltac:(lia) Hs2 E1).
    rewrite <- !app_assoc in IH. simpl in IH. specialize (IH Hnd).
    rewrite length_app in IH. simpl in IH. specialize (IH ltac:(lia) ltac:(intros; rewrite U2; auto)).
    destruct (run_filter c1 r) as [[xs ks] ctx']. destruct IH as (h' & ml' & m' & I1 & I2 & I3 & I4 & I5 & I6).
    rewrite <- app_assoc in I5. simpl in I5.
    exists h', ml', m'. split_and!; try done; [congruence|].
    eapply links_of_trans; [|exact I6]. eapply links_of_trans; [apply (links_of_weaken k); [set_solver|done]|].
    apply (links_of_weaken (x ++ [p])); [set_solver|done].
  - specialize (IH fuel h (MkList (ml_head ml) (Some p) (ml_len ml)) matches (k ++ [p]) x c1 ltac:(lia)).
    rewrite <- app_assoc, last_snoc in IH. simpl in IH. rewrite length_app in *. simpl in Hl.
    specialize (IH Hs Hm). rewrite <- app_assoc in IH. simpl in IH.
    specialize (IH ltac:(by rewrite (Permutation_middle x r p)) ltac:(lia) ltac:(done)).
    destruct (run_filter c1 r) as [[xs ks] ctx']. destruct IH as (h' & ml' & m' & I1 & I2 & I3 & I4 & I5 & I6).
    rewrite <- app_assoc in I2, I3. exists h', ml', m'. split_and!; try done.
    eapply links_of_weaken, I6. set_solver.
Qed.
End Filter.

Lemma holds_filter {St} (filter : St -> nat -> bool * St) h ml l ctx :
  holds h ml l ->
  let '(x, k, ctx') := run_filter filter ctx l in
  exists m h' ml', ml_filter filter h ml ctx = Some (m, h', ml', ctx') /\
    seg h' m x None /\ holds h' ml' k /\ links_of l h h'.
Proof.
  intros [H1 H2 H3 H4 H5]. unfold ml_filter. rewrite H3, Nat2Z.id.
  pose proof (seg_head _ _ _ _ H1) as Hh. replace (ml_head ml) with (head l) by (destruct l; done).
  pose proof (filter_loop_ok filter l (length l) h ml ml_init [] [] ctx) as Hloop. cbn [app last] in Hloop.
  specialize (Hloop (le_n _) H1 (holds_nil _) H4 H5 ltac:(done)). pose proof (run_filter_perm filter l ctx) as Hp.
  destruct (run_filter filter ctx l) as [[x k] ctx'].
  destruct Hloop as (h' & ml' & m' & -> & S1 & S2 & S3 & S4 & S5).
  exists (ml_head m'), h'. eexists. split_and!; [done|apply S4| |done].
  assert (length x + length k = length l)%nat as Hlen by (by rewrite <- Hp, length_app).
  split; simpl.
  - done.
  - rewrite (seg_head _ _ _ _ S1). destruct k; [done|]. by apply S2.
  - rewrite S3, H3, (ho_len _ _ _ S4), u32l_small by lia. lia.
  - rewrite <- Hp in H4. by apply NoDup_app in H4 as (_ & _ & ?).
  - lia.
Qed.

Lemma drain_ok l : forall fuel h ml,
  (length l <= fuel)%nat -> holds h ml l ->
  exists h' ml', drain fuel h ml = Some (l, h', ml') /\ holds h' ml' [] /\ links_of l h h'.
Proof.
  induction l as [|p r IH]; intros fuel h ml Hf Hh; pose proof (holds_dequeue _ _ _ Hh) as Hd.
  - destruct fuel; simpl; destruct (ml_dequeue h ml) as [[m h1] ml1]; destruct Hd as (-> & -> & ->);
      by exists h, ml.
  - destruct fuel as [|fuel]; [simpl in Hf; lia|]. simpl in Hf. simpl.
    destruct (ml_dequeue h ml) as [[m h1] ml1]. destruct Hd as (-> & _ & H1 & H2).
    destruct (IH fuel h1 ml1 ltac:(lia) H1) as (h2 & ml2 & -> & H3 & H4). exists h2, ml2. split_and!; try done.
    eapply links_of_trans; [apply (links_of_weaken [p])|apply (links_of_weaken r)]; try done; set_solver.
Qed.

Lemma enlist_ok h mq ml cur l :
  holds h (mq_list mq) cur -> holds h ml l -> cur ## l -> Z.of_nat (length (cur ++ l)) < 2 ^ 32 ->
  exists n fr h' mq' ml', mq_enlist h mq ml = Some (n, fr, h', mq', ml') /\ holds h' ml' [] /\
    links_of (cur ++ l) h h' /\ mq_maxlen mq' = mq_maxlen mq /\
    (mq_len mq < mq_maxlen mq /\ n = 0 /\ fr = [] /\ holds h' (mq_list mq') (cur ++ l) /\ mq_drops mq' = mq_drops mq \/
     mq_maxlen mq <= mq_len mq /\ n = Z.of_nat (length l) /\ fr = l /\ holds h' (mq_list mq') cur /\
     mq_drops mq' = u32l (mq_drops mq + n)).
Proof.
  intros Hc Hl Hd Hmax. unfold mq_enlist. destruct (Z.ltb_spec (mq_len mq) (mq_maxlen mq)).
  - destruct (holds_join h (mq_list mq) ml cur l Hc Hl Hd Hmax) as (h' & q' & ml' & -> & H1 & H2 & H3).
    eexists _, _, _, _, _. split_and!; [done|done| |done|left; by split_and!].
    eapply links_of_weaken, H3. set_solver.
  - rewrite (ho_len _ _ _ Hl). destruct (Z.eqb_spec (Z.of_nat (length l)) 0) as [E|E].
    + assert (l = []) as -> by (destruct l; [done|simpl in E; lia]).
      eexists _, _, _, _, _. split_and!; [done|done|done|done|right; by split_and!].
    + rewrite Nat2Z.id. destruct (drain_ok l (length l) h ml (le_n _) Hl) as (h' & ml' & -> & H1 & H2).
      eexists _, _, _, _, _. split_and!; [done|done| |done|right; split_and!; try done].
      * eapply links_of_weaken, H2. set_solver.
      * by eapply holds_frame.
Qed.

(** Packet lists behave as lists: enqueueing appends, dequeueing takes the
    first and leaves it unlinked, joining concatenates and empties the second
    list, and filtering splits a list into the packets that match, in order,
    and those that do not, calling the filter once per packet from the first
    to the last.  Each changes only the links of the packets it is about. *)
Theorem ml_lists_correct h ml l :
  holds h ml l ->
  (forall m, m ∉ l -> Z.of_nat (length l) + 1 < 2 ^ 32 ->
     let '(h', ml') := ml_enqueue h ml m in holds h' ml' (l ++ [m]) /\ links_of (l ++ [m]) h h') /\
  (let '(m, h', ml') := ml_dequeue h ml in
   match l with
   | [] => m = None /\ h' = h /\ ml' = ml
   | p :: r => m = Some p /\ h' p = None /\ holds h' ml' r /\ links_of [p] h h'
   end) /\
  (forall mlb lb, holds h mlb lb -> l ## lb -> Z.of_nat (length (l ++ lb)) < 2 ^ 32 ->
     exists h' ml' mlb', ml_join h ml mlb = Some (h', ml', mlb') /\
       holds h' ml' (l ++ lb) /\ holds h' mlb' [] /\ links_of l h h') /\
  (let '(m, ml') := ml_dechain ml in seg h m l None /\ holds h ml' []) /\
  (forall St (filter : St -> nat -> bool * St) ctx,
     let '(x, k, ctx') := run_filter filter ctx l in
     exists m h' ml', ml_filter filter h ml ctx = Some (m, h', ml', ctx') /\
       seg h' m x None /\ holds h' ml' k /\ links_of l h h').
Proof.
  intros H. split_and!.
  - intros m. by apply holds_enqueue.
  - by apply holds_dequeue.
  - intros mlb lb. by apply holds_join.
  - split; [apply H|apply holds_nil].
  - intros St filter ctx. by apply holds_filter.
Qed.

(** A list with packet 7 before packet 3. *)
Definition demo_links : links := <[7%nat := Some 3%nat]> (fun _ => None).
Definition demo_list : mbuf_list := MkList (Some 7%nat) (Some 3%nat) 2.

Lemma demo_holds : holds demo_links demo_list [7; 3]%nat.
Proof. split; try done. repeat constructor; set_solver. Defined.

(** Packet 4 appended to 7 and 3; both odd packets filtered out. *)
Lemma ml_lists_correct_witness :
  let '(h1, ml1) := ml_enqueue demo_links demo_list 4 in
  holds h1 ml1 [7; 3; 4]%nat /\ fst (fst (ml_dequeue h1 ml1)) = Some 7%nat /\
  exists h2 ml2, ml_filter (fun n p => (Nat.odd p, S n)) demo_links demo_list O = Some (Some 7%nat, h2, ml2, 2%nat) /\
    holds h2 ml2 [].
Proof.
  destruct (ml_lists_correct demo_links demo_list [7; 3]%nat demo_holds) as (H1 & H2 & _ & _ & H5).
  split; [|split; [done|]].
  - apply (H1 4%nat); [set_solver|done].
  - destruct (H5 nat (fun n p => (Nat.odd p, S n)) O) as (m & h' & ml' & E & _ & Hh & _).
    exists h', ml'. split; [|exact Hh]. rewrite E.
    apply (f_equal (option_map (fun t => t.1.1.1))) in E. vm_compute in E. by injection E as <-.
Defined.

(** ** Queues *)

Lemma seg_inj h l1 : forall a l2, seg h a l1 None -> seg h a l2 None -> l1 = l2.
Proof.
  induction l1 as [|p l1 IH]; intros a [|q l2]; simpl; [done|naive_solver..|].
  intros [-> H1] [[= <-] H2]. f_equal. by eapply IH.
Qed.

Lemma run_filter_keeps {St} (filter : St -> nat -> bool * St) l :
  forall ctx, (run_filter filter ctx l).1.2 `sublist_of` l.
Proof.
  induction l as [|p r IH]; intros ctx; simpl; [done|]. destruct (filter ctx p) as [b c1].
  specialize (IH c1). destruct (run_filter filter c1 r) as [[x k] c2]. simpl in *.
  destruct b; simpl; [by apply sublist_cons|by apply sublist_skip].
Qed.

Lemma sublist_full {A} (l k : list A) : l `sublist_of` k -> length l = length k -> l = k.
Proof.
  induction 1 as [|x l k Hs IH|x l k Hs IH]; simpl; intros E; [done|f_equal; auto|].
  apply sublist_length in Hs. lia.
Qed.

(** A queue in use: the memory, the queue, and the packets accepted, taken
    out from the front, filtered out and dropped so far, each in order. *)
Record qst := Qst { q_h : links; q_mq : mbuf_queue; q_in : list nat; q_out : list nat;
  q_filtered : list nat; q_dropped : list nat }.

(** The calls, each atomic under the mutex of the queue, and whatever happens
    to packets that are not on it.  [mq_delist] and [mq_dechain] take out all
    that the list they return leads to, and [mq_filter] what is linked from
    the packet it returns.  Only with [en] are whole lists enqueued. *)
Inductive qstep (en : bool) : qst -> qst -> Prop :=
  | q_enqueue h mq i o f d m b h' mq' :
      (forall l, holds h (mq_list mq) l -> m ∉ l) -> mq_enqueue h mq m = (b, h', mq') ->
      qstep en (Qst h mq i o f d)
        (Qst h' mq' (i ++ if b then [] else [m]) o f (d ++ if b then [m] else []))
  | q_dequeue h mq i o f d m h' mq' :
      mq_dequeue h mq = (m, h', mq') ->
      qstep en (Qst h mq i o f d) (Qst h' mq' i (o ++ option_list m) f d)
  | q_enlist h mq i o f d ml l n fr h' mq' ml' :
      en = true -> holds h ml l -> (forall l', holds h (mq_list mq) l' -> l' ## l) ->
      mq_len mq + Z.of_nat (length l) < 2 ^ 32 ->
      mq_enlist h mq ml = Some (n, fr, h', mq', ml') ->
      qstep en (Qst h mq i o f d)
        (Qst h' mq' (i ++ if bool_decide (mq_len mq < mq_maxlen mq) then l else []) o f (d ++ fr))
  | q_delist h mq i o f d ml mq' l :
      mq_delist mq = (ml, mq') -> seg h (ml_head ml) l None ->
      qstep en (Qst h mq i o f d) (Qst h mq' i (o ++ l) f d)
  | q_dechain h mq i o f d m mq' l :
      mq_dechain mq = (m, mq') -> seg h m l None ->
      qstep en (Qst h mq i o f d) (Qst h mq' i (o ++ l) f d)
  | q_filter St (filter : St -> nat -> bool * St) ctx h mq i o f d m h' mq' ctx' x :
      mq_filter filter h mq ctx = Some (m, h', mq', ctx') -> seg h' m x None ->
      qstep en (Qst h mq i o f d) (Qst h' mq' i o (f ++ x) d)
  | q_other h mq i o f d h' l :
      links_of l h h' -> (forall l', holds h (mq_list mq) l' -> l' ## l) ->
      qstep en (Qst h mq i o f d) (Qst h' mq i o f d).

(** What holds of a queue for at most [maxlen] packets that had counted
    [drops0] before. *)
Record fifo (en : bool) (maxlen drops0 : Z) (q : qst) : Prop := {
  ff_max : mq_maxlen (q_mq q) = maxlen;
  ff_cur : exists cur, holds (q_h q) (mq_list (q_mq q)) cur /\
             q_in q ≡ₚ (q_out q ++ cur) ++ q_filtered q /\
             (q_out q ++ cur) `sublist_of` q_in q /\
             (en = false -> Z.of_nat (length cur) <= maxlen);
  ff_drops : mq_drops (q_mq q) = u32l (drops0 + Z.of_nat (length (q_dropped q))) }.

Lemma u32l_add a b : u32l (u32l a + b) = u32l (a + b).
Proof. unfold u32l. by rewrite Zplus_mod_idemp_l. Qed.

(** Packets [l] are accepted at the end. *)
Lemma fifo_append en maxlen drops0 i o f cur l h' mq' d' :
  i ≡ₚ (o ++ cur) ++ f -> (o ++ cur) `sublist_of` i -> holds h' (mq_list mq') (cur ++ l) ->
  mq_maxlen mq' = maxlen -> mq_drops mq' = u32l (drops0 + Z.of_nat (length d')) ->
  (en = false -> Z.of_nat (length (cur ++ l)) <= maxlen) ->
  fifo en maxlen drops0 (Qst h' mq' (i ++ l) o f d').
Proof.
  intros Hp Hs Hh Hm Hd Hl. split; simpl; [done| |done]. exists (cur ++ l). rewrite app_assoc.
  split_and!; [done| |by apply sublist_app|done]. rewrite Hp. solve_Permutation.
Qed.

(** All packets are taken out. *)
Lemma fifo_taken en maxlen drops0 h mq i o f d l :
  0 <= maxlen -> fifo en maxlen drops0 (Qst h mq i o f d) -> seg h (ml_head (mq_list mq)) l None ->
  fifo en maxlen drops0 (Qst h (MkQueue ml_init (mq_maxlen mq) (mq_drops mq)) i (o ++ l) f d).
Proof.
  intros Hmax [F1 (cur & Hc & Hin & Hsub & Hlen) F3] Hseg. simpl in *.
  rewrite (seg_inj _ _ _ _ Hseg (ho_seg _ _ _ Hc)). split; simpl; [done| |done].
  exists []. rewrite app_nil_r. split_and!; [apply holds_nil|done|done|simpl; lia].
Qed.

Lemma qstep_fifo en maxlen drops0 q q' :
  0 <= maxlen < 2 ^ 32 -> qstep en q q' -> fifo en maxlen drops0 q -> fifo en maxlen drops0 q'.
Proof.
  intros Hmax Hs HF. pose proof HF as [F1 (cur & Hc & Hin & Hsub & Hlen) F3]. pose proof (ho_len _ _ _ Hc) as Hl.
  destruct Hs as [h mq i o f d m b h' mq' Hm E|h mq i o f d m h' mq' E|
    h mq i o f d ml l n fr h' mq' ml' Een Hml Hd Hsz E|h mq i o f d ml mq' l E Hseg|h mq i o f d m mq' l E Hseg|
    St filter ctx h mq i o f d m h' mq' ctx' x E Hseg|h mq i o f d h' l Hlk Hd]; simpl in *.
  - unfold mq_enqueue, mq_len in E. destruct (Z.ltb_spec (ml_len (mq_list mq)) (mq_maxlen mq)).
    + pose proof (holds_enqueue h _ cur m Hc (Hm _ Hc) ltac:(lia)) as He.
      destruct (ml_enqueue h (mq_list mq) m) as [h1 l1]. injection E as <- <- <-. destruct He as [He _].
      eapply (fifo_append _ _ _ i o f cur [m]); rewrite ?app_nil_r; try done.
      rewrite length_app. simpl. lia.
    + injection E as <- <- <-.
      eapply (fifo_append _ _ _ i o f cur []); rewrite ?app_nil_r; try done.
      simpl. rewrite F3, u32l_add, length_app. simpl. f_equal. lia.
  - unfold mq_dequeue in E. pose proof (holds_dequeue _ _ _ Hc) as Hdq.
    destruct (ml_dequeue h (mq_list mq)) as [[m1 h1] l1]. injection E as <- <- <-. split; simpl; [done| |done].
    destruct cur as [|p r].
    + destruct Hdq as (-> & -> & ->). simpl. rewrite app_nil_r. by exists [].
    + destruct Hdq as (-> & _ & Hr & _). exists r. simpl. rewrite <- (app_assoc o [p] r). simpl in Hlen.
      split_and!; [done|done|done|intros; specialize (Hlen H); lia].
  - unfold mq_len in Hsz. rewrite Hl in Hsz.
    destruct (enlist_ok h mq ml cur l Hc Hml (Hd _ Hc)) as (n1 & fr1 & h1 & mq1 & ml1 & E1 & _ & _ & Hmx & Hcase).
    { rewrite length_app. lia. }
    rewrite E in E1. injection E1 as <- <- <- <- <-.
    destruct Hcase as [(Hlt & _ & -> & Hq & Hdr)|(Hge & -> & -> & Hq & Hdr)].
    + rewrite bool_decide_eq_true_2 by done.
      eapply (fifo_append _ _ _ i o f cur l); rewrite ?app_nil_r; try done; congruence.
    + rewrite bool_decide_eq_false_2 by lia.
      eapply (fifo_append _ _ _ i o f cur []); rewrite ?app_nil_r; try done; try congruence.
      rewrite Hdr, F3, u32l_add, length_app. f_equal. lia.
  - injection E as <- <-. apply (fifo_taken _ _ _ _ _ _ _ _ _ _ (proj1 Hmax) HF Hseg).
  - injection E as <- <-. apply (fifo_taken _ _ _ _ _ _ _ _ _ _ (proj1 Hmax) HF Hseg).
  - unfold mq_filter in E. pose proof (holds_filter filter h _ cur ctx Hc) as Hf.
    pose proof (run_filter_perm filter cur ctx) as Hp. pose proof (run_filter_keeps filter cur ctx) as Hk.
    destruct (run_filter filter ctx cur) as [[x1 k] c1]. destruct Hf as (m1 & h1 & ml1 & E1 & S1 & S2 & _).
    rewrite E1 in E. injection E as <- <- <- <-. rewrite (seg_inj _ _ _ _ Hseg S1).
    simpl in Hk. pose proof (sublist_length _ _ Hk). split; simpl; [done| |done]. exists k. split_and!.
    + done.
    + rewrite Hin, <- Hp. solve_Permutation.
    + etransitivity; [|exact Hsub]. by apply sublist_app.
    + intros He. specialize (Hlen He). lia.
  - split; simpl; [done| |done]. exists cur. split_and!; [|done|done|done]. eapply holds_frame; [done|by apply Hd|done].
Qed.


