(* ===== verification/Bufq.v ===== *)
(** * Disk request queues (sys/kern/kern_bufq.c, sys/sys/buf.h)

    A [bufq] holds the requests ([struct buf]) waiting for a disk; a queueing
    discipline, a table of functions, orders them.  The number of requests
    queued or in flight throttles writers ([bufq_wait]), and all queues can be
    stopped and drained of requests in flight before a suspend
    ([bufq_quiesce], [bufq_restart]).

    Every routine works under the mutex of its queue, or of the list of
    queues, which [msleep] releases; a routine is cut at its sleeps and any
    number of threads interleave between these sections.  A thread's [pc] says
    which routine it is in and whether it sleeps; [start] begins a routine and
    [continue] runs its next section. *)

From stdpp Require Import base numbers list option gmap.
From Stdlib Require Import ZArith Lia Bool.
From S2P Require Import Prelude.
Local Open Scope Z_scope.

Definition BUFQ_HI : Z := 128.
Definition BUFQ_LOW : Z := 64.
Definition BUFQ_HOWMANY : Z := 1.
Definition B_ASYNC : Z := 4.
Definition B_READ : Z := 32768.

Definition u32q (x : Z) : Z := x `mod` 2 ^ 32.

(** ** Disciplines *)

(** The functions of a discipline on its data; [impl_destroy] frees it. *)
Record bufq_impl (D : Type) := Impl {
  impl_create : D;
  impl_queue : D -> nat -> D;
  impl_dequeue : D -> option nat * D;
  impl_requeue : D -> nat -> D;
  impl_peek : D -> bool }.
Arguments Impl {D} _ _ _ _ _.
Arguments impl_create {D} _.
Arguments impl_queue {D} _ _ _.
Arguments impl_dequeue {D} _ _.
Arguments impl_requeue {D} _ _ _.
Arguments impl_peek {D} _ _.

(** First in, first out: a [SIMPLEQ] of requests. *)
Definition bufq_fifo_create : list nat := [].
Definition bufq_fifo_queue (head : list nat) (bp : nat) : list nat := head ++ [bp].
Definition bufq_fifo_dequeue (head : list nat) : option nat * list nat :=
  match head with
  | [] => (None, head)
  | bp :: rest => (Some bp, rest)
  end.
Definition bufq_fifo_requeue (head : list nat) (bp : nat) : list nat := bp :: head.
Definition bufq_fifo_peek (head : list nat) : bool := match head with [] => false | _ => true end.

Definition bufq_fifo : bufq_impl (list nat) :=
  Impl bufq_fifo_create bufq_fifo_queue bufq_fifo_dequeue bufq_fifo_requeue bufq_fifo_peek.
Definition bufq_impls : list (bufq_impl (list nat)) := [bufq_fifo].

Section Bufq.
Context {D : Type} (impls : list (bufq_impl D)).

(** ** Queues and threads *)

(** [bufq_data] is [None] after [bufq_destroy] has freed it. *)
Record bufq := Bufq { bufq_data : option D; bufq_outstanding : Z; bufq_hi : Z; bufq_low : Z;
  bufq_waiting : Z; bufq_stop : bool; bufq_type : Z }.

Definition set_data (bq : bufq) (d : option D) : bufq :=
  Bufq d (bufq_outstanding bq) (bufq_hi bq) (bufq_low bq) (bufq_waiting bq) (bufq_stop bq) (bufq_type bq).
Definition set_outstanding (bq : bufq) (n : Z) : bufq :=
  Bufq (bufq_data bq) n (bufq_hi bq) (bufq_low bq) (bufq_waiting bq) (bufq_stop bq) (bufq_type bq).
Definition set_waiting (bq : bufq) (n : Z) : bufq :=
  Bufq (bufq_data bq) (bufq_outstanding bq) (bufq_hi bq) (bufq_low bq) n (bufq_stop bq) (bufq_type bq).
Definition set_stop (bq : bufq) (b : bool) : bufq :=
  Bufq (bufq_data bq) (bufq_outstanding bq) (bufq_hi bq) (bufq_low bq) (bufq_waiting bq) b (bufq_type bq).
Definition set_impl (bq : bufq) (d : D) (type : Z) : bufq :=
  Bufq (Some d) (bufq_outstanding bq) (bufq_hi bq) (bufq_low bq) (bufq_waiting bq) (bufq_stop bq) type.

(** Where a thread is: outside; in [bufq_queue], before its test of
    [bufq_stop] or asleep; in [bufq_wait], before its test, asleep or woken;
    walking the queues in [bufq_quiesce], before the test of
    [bufq_outstanding] or asleep; after [bufq_quiesce] returned; in
    [bufq_restart]; in [bufq_init] with the new queue, or asleep; in
    [bufq_drain], with a request to complete, on behalf of [bufq_destroy] or
    not; in [bufq_destroy] after the data is freed, or asleep; in
    [bufq_switch] with data created for the new discipline. *)
Inductive pc :=
  | Run
  | InQueue (q b : nat) | StopSleep (q b : nat)
  | InWait (q : nat) | WaitSleep (q : nat) | WaitWoken (q : nat)
  | InQuiesce (rest : list nat) | QuiTest (q : nat) (rest : list nat) | QuiSleep (q : nat) (rest : list nat)
  | Quiesced
  | InRestart (rest : list nat)
  | InInit (q : nat) (bq : bufq) | InitSleep (q : nat) (bq : bufq)
  | InDrain (q : nat) (destroy : bool) | DrainDone (q b : nat) (destroy : bool)
  | InDestroy (q : nat) | DestroySleep (q : nat)
  | InSwitch (q : nat) (type : Z) (data : D).

(** The queues by address, the list of them, [bufqs_stop], [b_bq] of every
    request that has one, and the threads. *)
Record bst := Bst { bqs : gmap nat bufq; bufqs : list nat; bufqs_stop : bool; b_bq : gmap nat nat;
  thr : gmap nat pc }.

Definition with_bq (s : bst) (q : nat) (bq : bufq) : bst :=
  Bst (<[q := bq]> (bqs s)) (bufqs s) (bufqs_stop s) (b_bq s) (thr s).
Definition with_list (s : bst) (l : list nat) : bst := Bst (bqs s) l (bufqs_stop s) (b_bq s) (thr s).
Definition with_stop (s : bst) (b : bool) : bst := Bst (bqs s) (bufqs s) b (b_bq s) (thr s).
Definition with_bbq (s : bst) (f : gmap nat nat) : bst := Bst (bqs s) (bufqs s) (bufqs_stop s) f (thr s).
Definition with_thr (s : bst) (f : gmap nat pc) : bst := Bst (bqs s) (bufqs s) (bufqs_stop s) (b_bq s) f.
Definition goto (s : bst) (t : nat) (p : pc) : bst := with_thr s (<[t := p]> (thr s)).

(** ** Sleeping and waking *)

Inductive chan := ChStop (q : nat) | ChOutstanding (q : nat) | ChWaiting (q : nat) | ChBufqs.

Definition wake_pc (c : chan) (p : pc) : pc :=
  match c, p with
  | ChStop q, StopSleep q' b => if Nat.eqb q q' then InQueue q' b else p
  | ChOutstanding q, QuiSleep q' r => if Nat.eqb q q' then QuiTest q' r else p
  | ChWaiting q, WaitSleep q' => if Nat.eqb q q' then WaitWoken q' else p
  | ChBufqs, InitSleep q bq => InInit q bq
  | ChBufqs, DestroySleep q => InDestroy q
  | _, _ => p
  end.

Definition wakeup (c : chan) (s : bst) : bst := with_thr s (wake_pc c <$> thr s).

(** The thread cannot run; a panic or an access to freed or foreign memory;
    or the new state. *)
Inductive outcome := Stuck | Faults | Goes (s : bst).

(** [bufq_impls[type]] *)
Definition impl_at (type : Z) : option (bufq_impl D) :=
  if type <? 0 then None else impls !! Z.to_nat type.

(** [K] on a queue that exists, with its discipline and data. *)
Definition on_bq (s : bst) (q : nat) (K : bufq -> outcome) : outcome :=
  match bqs s !! q with None => Faults | Some bq => K bq end.
Definition on_impl (bq : bufq) (K : bufq_impl D -> D -> outcome) : outcome :=
  match impl_at (bufq_type bq), bufq_data bq with Some i, Some d => K i d | _, _ => Faults end.

(** ** The sections *)

(** [*bqwait] *)
Definition bqwait (b_flags : Z) : bool := negb (has b_flags B_READ) && has b_flags B_ASYNC.

Definition bufq_queue (s : bst) (t q b : nat) : outcome :=
  on_bq s q (fun bq =>
    if bufq_stop bq then Goes (goto s t (StopSleep q b))
    else
      let s := with_bbq s (<[b := q]> (b_bq s)) in
      let bq := set_outstanding bq (u32q (bufq_outstanding bq + 1)) in
      on_impl bq (fun i d => Goes (goto (with_bq s q (set_data bq (Some (impl_queue i d b)))) t Run))).

Definition bufq_dequeue (s : bst) (q : nat) (K : option nat -> bst -> outcome) : outcome :=
  on_bq s q (fun bq => on_impl bq (fun i d =>
    let '(r, d') := impl_dequeue i d in K r (with_bq s q (set_data bq (Some d'))))).

Definition bufq_requeue (s : bst) (q b : nat) : outcome :=
  on_bq s q (fun bq => on_impl bq (fun i d => Goes (with_bq s q (set_data bq (Some (impl_requeue i d b)))))).

Definition bufq_peek (s : bst) (q : nat) : option bool :=
  match bqs s !! q with
  | None => None
  | Some bq => match impl_at (bufq_type bq), bufq_data bq with Some i, Some d => Some (impl_peek i d) | _, _ => None end
  end.

(** [b_bq] is cleared after [mtx_leave], by the thread that completes the
    request.  Nobody else reads or writes [b_bq] of a request that is in
    flight, so the store is part of this section. *)
Definition bufq_done (s : bst) (q b : nat) : outcome :=
  on_bq s q (fun bq =>
    if negb (0 <? bufq_outstanding bq) then Faults
    else
      let bq := set_outstanding bq (u32q (bufq_outstanding bq - 1)) in
      let s := with_bq s q bq in
      let s := if bufq_stop bq && (bufq_outstanding bq =? 0) then wakeup (ChOutstanding q) s else s in
      let s := if negb (bufq_waiting bq =? 0) && (bufq_outstanding bq <? bufq_low bq)
               then wakeup (ChWaiting q) s else s in
      Goes (with_bbq s (delete b (b_bq s)))).

(** One turn of the loop of [bufq_wait]. *)
Definition wait_turn (s : bst) (t q : nat) (bq : bufq) : bst :=
  if bufq_hi bq <=? bufq_outstanding bq then
    goto (with_bq s q (set_waiting bq (bufq_waiting bq + 1))) t (WaitSleep q)
  else goto (with_bq s q bq) t Run.

Definition bufq_wait (s : bst) (t q : nat) : outcome :=
  on_bq s q (fun bq => if bufq_hi bq =? 0 then Goes (goto s t Run) else Goes (wait_turn s t q bq)).

Definition wait_woken (s : bst) (t q : nat) : outcome :=
  on_bq s q (fun bq => Goes (wait_turn s t q (set_waiting bq (bufq_waiting bq - 1)))).

(** [bufq_quiesce] tests [bufq_outstanding] of [q]; [r] are the queues after
    it on the list, which does not change meanwhile. *)
Definition quiesce_test (s : bst) (t q : nat) (r : list nat) : outcome :=
  on_bq s q (fun bq =>
    Goes (goto s t (if negb (bufq_outstanding bq =? 0) then QuiSleep q r else InQuiesce r))).

Definition bufq_quiesce (s : bst) (t : nat) : bst := goto (with_stop s true) t (InQuiesce (bufqs s)).

Definition quiesce_next (s : bst) (t : nat) (rest : list nat) : outcome :=
  match rest with
  | [] => Goes (goto s t Quiesced)
  | q :: r => on_bq s q (fun bq => quiesce_test (with_bq s q (set_stop bq true)) t q r)
  end.

Definition restart_next (s : bst) (t : nat) (rest : list nat) : outcome :=
  match rest with
  | [] => Goes (goto (wakeup ChBufqs (with_stop s false)) t Run)
  | q :: r => on_bq s q (fun bq =>
      Goes (goto (wakeup (ChStop q) (with_bq s q (set_stop bq false))) t (InRestart r)))
  end.

(** The water marks for [kvaslots] slots of the buffer cache. *)
Definition bufq_marks (kvaslots : Z) : Z * Z :=
  if Z.quot kvaslots 16 <=? BUFQ_HI then
    let hi := u32q (Z.quot kvaslots 16) in
    let hi := if hi <? 2 then 2 else hi in
    (hi, hi / 2)
  else (BUFQ_HI, BUFQ_LOW).

(** The new queue; [mem] says whether [impl_create] gets its memory. *)
Definition bufq_new (type : Z) (kvaslots : Z) (mem : bool) : option bufq :=
  if BUFQ_HOWMANY <? type then None
  else match impl_at type with
       | None => None
       | Some i => if mem then let '(hi, low) := bufq_marks kvaslots in
                                Some (Bufq (Some (impl_create i)) 0 hi low 0 false type)
                   else None
       end.

Definition init_insert (s : bst) (t q : nat) (bq : bufq) : outcome :=
  if bufqs_stop s then Goes (goto s t (InitSleep q bq))
  else Goes (goto (with_list (with_bq s q bq) (q :: bufqs s)) t Run).

Definition destroy_remove (s : bst) (t q : nat) : outcome :=
  if bufqs_stop s then Goes (goto s t (DestroySleep q))
  else Goes (goto (Bst (delete q (bqs s)) (filter (fun x => x <> q) (bufqs s)) false (b_bq s) (thr s)) t Run).

(** [bufq_drain] takes the next request; [bufq_destroy] frees the data when
    there is none. *)
Definition drain_next (s : bst) (t q : nat) (destroy : bool) : outcome :=
  bufq_dequeue s q (fun r s =>
    match r with
    | Some b => Goes (goto s t (DrainDone q b destroy))
    | None => if destroy then on_bq s q (fun bq => Goes (goto (with_bq s q (set_data bq None)) t (InDestroy q)))
              else Goes (goto s t Run)
    end).

(** [biodone] of a request: what it does to the queue. *)
Definition biodone (s : bst) (b : nat) : outcome :=
  match b_bq s !! b with
  | Some q => bufq_done s q b
  | None => Goes s
  end.

Fixpoint switch_move (fuel : nat) (oi ni : bufq_impl D) (odata data : D) : option D :=
  match impl_dequeue oi odata with
  | (None, _) => Some data
  | (Some b, odata) => match fuel with O => None | S f => switch_move f oi ni odata (impl_queue ni data b) end
  end.

(** The second section of [bufq_switch]. *)
Definition switch_swap (fuel : nat) (s : bst) (t q : nat) (type : Z) (data : D) : outcome :=
  on_bq s q (fun bq =>
    if bufq_type bq =? type then Goes (goto s t Run)
    else match impl_at type with
         | None => Faults
         | Some ni => on_impl bq (fun oi d =>
             match switch_move fuel oi ni d data with
             | None => Faults
             | Some d' => Goes (goto (with_bq s q (set_impl bq d' type)) t Run)
             end)
         end).

(** The first; [mem] as above. *)
Definition bufq_switch (s : bst) (t q : nat) (type : Z) (mem : bool) : outcome :=
  on_bq s q (fun bq =>
    if bufq_type bq =? type then Goes s
    else match impl_at type with
         | None => Faults
         | Some i => if mem then Goes (goto s t (InSwitch q type (impl_create i))) else Goes s
         end).

(** ** The machine *)

Inductive call :=
  | CQueue (q b : nat) | CDequeue (q : nat) | CRequeue (q b : nat) | CDone (b : nat)
  | CWait (q : nat) | CQuiesce | CRestart
  | CInit (q : nat) (type kvaslots : Z) (mem : bool) | CDestroy (q : nat) | CDrain (q : nat)
  | CSwitch (q : nat) (type : Z) (mem : bool).

Definition start (s : bst) (t : nat) (c : call) : outcome :=
  match c with
  | CQueue q b => Goes (goto s t (InQueue q b))
  | CDequeue q => bufq_dequeue s q (fun _ s => Goes s)
  | CRequeue q b => bufq_requeue s q b
  | CDone b => biodone s b
  | CWait q => Goes (goto s t (InWait q))
  | CQuiesce => Goes (bufq_quiesce s t)
  | CRestart => Goes (goto s t (InRestart (bufqs s)))
  | CInit q type kvaslots mem =>
      match bufq_new type kvaslots mem with
      | None => Faults
      | Some bq => Goes (goto s t (InInit q bq))
      end
  | CDestroy q => Goes (goto s t (InDrain q true))
  | CDrain q => Goes (goto s t (InDrain q false))
  | CSwitch q type mem => bufq_switch s t q type mem
  end.

Definition continue (fuel : nat) (s : bst) (t : nat) : outcome :=
  match thr s !! t with
  | Some (InQueue q b) => bufq_queue s t q b
  | Some (InWait q) => bufq_wait s t q
  | Some (WaitWoken q) => wait_woken s t q
  | Some (InQuiesce r) => quiesce_next s t r
  | Some (QuiTest q r) => quiesce_test s t q r
  | Some (InRestart r) => restart_next s t r
  | Some (InInit q bq) => init_insert s t q bq
  | Some (InDrain q k) => drain_next s t q k
  | Some (DrainDone q b k) =>
      match biodone s b with Goes s' => Goes (goto s' t (InDrain q k)) | o => o end
  | Some (InDestroy q) => destroy_remove s t q
  | Some (InSwitch q type data) => switch_swap fuel s t q type data
  | _ => Stuck
  end.
End Bufq.
