(* ===== verification/BufqInv.v ===== *)
(** * Disk request queues: the contract of their callers and the invariant

    What a discipline promises ([Discipline]: the requests it holds, as a
    multiset), which calls a driver may start ([guard]: requests are queued
    once, completed only in flight, a queue is destroyed by its only user with
    nothing in flight, and one thread suspends at a time), and the invariant
    [inv] that the sections of [Bufq] keep between them. *)

From stdpp Require Import base numbers list option gmap fin_maps.
From Stdlib Require Import ZArith Lia Bool.
From S2P Require Import Prelude Bufq.
Local Open Scope Z_scope.

(** ** The interface of a discipline *)

Class Discipline {D : Type} (contents : D -> list nat) (i : bufq_impl D) : Prop := {
  create_contents : contents (impl_create i) = [];
  queue_contents : forall d b, contents (impl_queue i d b) ≡ₚ b :: contents d;
  dequeue_none : forall d d', impl_dequeue i d = (None, d') -> contents d = [] /\ contents d' = [];
  dequeue_some : forall d b d', impl_dequeue i d = (Some b, d') -> contents d ≡ₚ b :: contents d';
  requeue_contents : forall d b, contents (impl_requeue i d b) ≡ₚ b :: contents d;
  peek_contents : forall d, impl_peek i d = negb (bool_decide (contents d = [])) }.

#[export] Instance bufq_fifo_discipline : Discipline id bufq_fifo.
Proof.
  split; unfold id; simpl; auto.
  - intros d b. unfold bufq_fifo_queue. by rewrite Permutation_app_comm.
  - intros [|b d] d'; simpl; intros [= <-]; auto.
  - intros [|b d] b' d'; simpl; intros [= -> <-]; auto.
  - by intros [|b d].
Qed.

Arguments Run {D}. Arguments InQueue {D}. Arguments StopSleep {D}. Arguments InWait {D}.
Arguments WaitSleep {D}. Arguments WaitWoken {D}. Arguments InQuiesce {D}. Arguments QuiTest {D}.
Arguments QuiSleep {D}. Arguments Quiesced {D}. Arguments InRestart {D}. Arguments InInit {D}.
Arguments InitSleep {D}. Arguments InDrain {D}. Arguments DrainDone {D}. Arguments InDestroy {D}.
Arguments DestroySleep {D}. Arguments InSwitch {D}.
Arguments bufq_data {D}. Arguments bufq_outstanding {D}. Arguments bufq_hi {D}. Arguments bufq_low {D}.
Arguments bufq_waiting {D}. Arguments bufq_stop {D}. Arguments bufq_type {D}.
Arguments bqs {D}. Arguments bufqs {D}. Arguments bufqs_stop {D}. Arguments b_bq {D}. Arguments thr {D}.
Arguments Stuck {D}. Arguments Faults {D}. Arguments Goes {D}.
Arguments wake_pc {D}. Arguments wakeup {D}. Arguments goto {D}. Arguments Bst {D}. Arguments Bufq {D}.

Section Contract.
Context {D : Type} (impls : list (bufq_impl D)) (contents : D -> list nat) (bufs : gset nat).
Implicit Types (s : bst (D:=D)) (p : pc (D:=D)) (bq : bufq (D:=D)).

(** ** What a thread holds *)

(** The queue it works on, as a user; the request it holds; the queue it
    must be the only user of; whether it is suspending or resuming. *)
Definition pq p : option nat :=
  match p with
  | InQueue q _ | StopSleep q _ | InWait q | WaitSleep q | WaitWoken q | InInit q _ | InitSleep q _
  | InDrain q _ | DrainDone q _ _ | InDestroy q | DestroySleep q | InSwitch q _ _ => Some q
  | _ => None
  end.
Definition pb p : option nat :=
  match p with InQueue _ b | StopSleep _ b | DrainDone _ b _ => Some b | _ => None end.
Definition excl p : option nat :=
  match p with
  | InInit q _ | InitSleep q _ | InDrain q true | DrainDone q _ true | InDestroy q | DestroySleep q => Some q
  | _ => None
  end.
Definition susp p : bool :=
  match p with InQuiesce _ | QuiTest _ _ | QuiSleep _ _ | Quiesced | InRestart _ => true | _ => false end.
Definition waits (q : nat) p : bool :=
  match p with WaitSleep q' | WaitWoken q' => Nat.eqb q q' | _ => false end.

(** The queues that a suspending thread keeps stopped. *)
Definition stops p (q : nat) : Prop :=
  match p with
  | InQuiesce r | QuiTest _ r | QuiSleep _ r => q ∉ r
  | Quiesced => True
  | InRestart r => q ∈ r
  | _ => False
  end.

Definition clash (o o' : option nat) : bool :=
  match o, o' with Some a, Some b => Nat.eqb a b | _, _ => false end.
Definition apart p p' : bool :=
  negb (clash (pb p) (pb p')) && negb (clash (excl p) (pq p')) && negb (clash (pq p) (excl p'))
  && negb (susp p && susp p').

(** No thread but [t] stands in the way of [t] being at [p]. *)
Definition fresh s (t : nat) p : Prop := map_Forall (fun t' p' => t' <> t -> apart p p' = true) (thr s).
#[global] Instance fresh_dec s t p : Decision (fresh s t p).
Proof. unfold fresh. apply _. Defined.

(** ** The contract *)

Definition queued s (q : nat) : list nat :=
  match bqs s !! q with
  | Some bq => match bufq_data bq with Some d => contents d | None => [] end
  | None => []
  end.
Definition live s (q : nat) : Prop :=
  match bqs s !! q with Some bq => is_Some (bufq_data bq) | None => False end.
#[global] Instance live_dec s q : Decision (live s q).
Proof. unfold live. destruct (bqs s !! q); apply _. Defined.

Definition guard s (t : nat) (c : call) : Prop :=
  match c with
  | CQueue q b => thr s !! t = Some Run /\ live s q /\ b ∈ bufs /\ b_bq s !! b = None /\ fresh s t (InQueue q b)
  | CDequeue q => thr s !! t = Some Run /\ live s q /\ fresh s t (InWait q)
  | CRequeue q b => thr s !! t = Some Run /\ live s q /\ b_bq s !! b = Some q /\ (b ∉ queued s q)
      /\ fresh s t (DrainDone q b false)
  | CDone b => thr s !! t = Some Run /\
      match b_bq s !! b with Some q => (b ∉ queued s q) /\ fresh s t (DrainDone q b false) | None => True end
  | CWait q => thr s !! t = Some Run /\ live s q /\ fresh s t (InWait q)
  | CQuiesce => thr s !! t = Some Run /\ fresh s t (InQuiesce (bufqs s))
  | CRestart => thr s !! t = Some Quiesced
  | CInit q type kvaslots mem => thr s !! t = Some Run /\ bqs s !! q = None
      /\ match bufq_new impls type kvaslots mem with Some bq => fresh s t (InInit q bq) | None => True end
  | CDestroy q => thr s !! t = Some Run /\ live s q /\ fresh s t (InDrain q true)
      /\ map_Forall (fun b q' => q' = q -> b ∈ queued s q) (b_bq s)
  | CDrain q => thr s !! t = Some Run /\ live s q /\ fresh s t (InDrain q false)
  | CSwitch q type mem => thr s !! t = Some Run /\ live s q /\ fresh s t (InWait q) /\ is_Some (impl_at impls type)
  end.

Inductive bstep (fuel : nat) : bst (D:=D) -> outcome (D:=D) -> Prop :=
  | bstep_start s t c : guard s t c -> bstep fuel s (start impls s t c)
  | bstep_continue s t : bstep fuel s (continue impls fuel s t).

(** No queue yet, every thread outside. *)
Definition bstart s : Prop :=
  bqs s = ∅ /\ bufqs s = [] /\ bufqs_stop s = false /\ b_bq s = ∅ /\ map_Forall (fun _ p => p = Run) (thr s).

Inductive breach (fuel : nat) : bst (D:=D) -> Prop :=
  | breach_start s : bstart s -> breach fuel s
  | breach_step s s' : breach fuel s -> bstep fuel s (Goes s') -> breach fuel s'.

(** ** The invariant *)

Definition holders s (q : nat) : gset nat := dom (filter (fun kv => kv.2 = q) (b_bq s)).
Definition waiters s (q : nat) : gset nat := dom (filter (fun kv => waits q kv.2 = true) (thr s)).

Definition bq_ok bq (H : gset nat) (w : nat) : Prop :=
  bufq_outstanding bq = Z.of_nat (size H) /\ 1 <= bufq_low bq <= bufq_hi bq
  /\ bufq_waiting bq = Z.of_nat w /\ is_Some (impl_at impls (bufq_type bq))
  /\ forall d, bufq_data bq = Some d -> NoDup (contents d) /\ forall b, b ∈ contents d -> b ∈ H.

Definition at_bq s (q : nat) (P : bufq (D:=D) -> Prop) : Prop :=
  match bqs s !! q with Some bq => P bq | None => False end.
Definition stopped s q : Prop := at_bq s q (fun bq => bufq_stop bq = true).
Definition quiet s q : Prop := at_bq s q (fun bq => bufq_stop bq = true /\ bufq_outstanding bq = 0).
Definition loaded s q : Prop := at_bq s q (fun bq => bufq_low bq <= bufq_outstanding bq).
Definition busy s q : Prop := at_bq s q (fun bq => bufq_outstanding bq <> 0).
Definition dead s q : Prop := at_bq s q (fun bq => bufq_data bq = None /\ bufq_outstanding bq = 0).

Definition new_bq bq : Prop :=
  bq_ok bq ∅ 0 /\ bufq_stop bq = false /\ exists d, bufq_data bq = Some d /\ contents d = [].

Definition settled s q (b0 : option nat) : Prop :=
  forall b, b_bq s !! b = Some q -> b0 <> Some b -> b ∈ queued s q.

Definition walked s (r : list nat) (P : Prop) : Prop :=
  bufqs_stop s = true /\ exists pre, bufqs s = pre ++ r /\ (P -> Forall (quiet s) pre).

Definition pc_ok s p : Prop :=
  match p with
  | Run => True
  | InQueue q b => live s q /\ b ∈ bufs /\ b_bq s !! b = None
  | StopSleep q b => live s q /\ b ∈ bufs /\ b_bq s !! b = None /\ stopped s q
  | InWait q | WaitWoken q => live s q
  | WaitSleep q => live s q /\ loaded s q
  | InQuiesce r => walked s r True
  | QuiTest q r => walked s (q :: r) True /\ stopped s q
  | QuiSleep q r => walked s (q :: r) True /\ stopped s q /\ busy s q
  | Quiesced => walked s [] True
  | InRestart r => walked s r False
  | InInit q bq => bqs s !! q = None /\ new_bq bq
  | InitSleep q bq => bqs s !! q = None /\ new_bq bq /\ bufqs_stop s = true
  | InDrain q k => live s q /\ (k = true -> settled s q None)
  | DrainDone q b k => live s q /\ b_bq s !! b = Some q /\ (b ∉ queued s q) /\ (k = true -> settled s q (Some b))
  | InDestroy q => dead s q
  | DestroySleep q => dead s q /\ bufqs_stop s = true
  | InSwitch q type d => live s q /\ is_Some (impl_at impls type) /\ contents d = []
  end.

Record inv s : Prop := {
  i_queues : forall q bq, bqs s !! q = Some bq -> bq_ok bq (holders s q) (size (waiters s q));
  i_pcs : forall t p, thr s !! t = Some p -> pc_ok s p;
  i_apart : forall t t' p p', t <> t' -> thr s !! t = Some p -> thr s !! t' = Some p' -> apart p p' = true;
  i_nodup : NoDup (bufqs s);
  i_list : forall q, q ∈ bufqs s <-> is_Some (bqs s !! q);
  i_bbq : forall b q, b_bq s !! b = Some q -> b ∈ bufs /\ is_Some (bqs s !! q);
  i_stop : forall q, stopped s q -> exists t p, thr s !! t = Some p /\ stops p q;
  i_bstop : bufqs_stop s = true -> exists t p, thr s !! t = Some p /\ susp p = true }.
End Contract.
