(* ===== verification/BufqSteps.v ===== *)
(** * Disk request queues: the parts of the invariant under a change of state

    Sets of holders and waiters, what waking does to a thread, and the frame
    lemmas: a step that touches one queue keeps what the other threads and
    queues rely on. *)

From stdpp Require Import base numbers list option gmap fin_maps.
From Stdlib Require Import ZArith Lia Bool.
From S2P Require Import Prelude Bufq BufqInv.
Local Open Scope Z_scope.

Section Facts.
Context {D : Type} (impls : list (bufq_impl D)) (contents : D -> list nat) (bufs : gset nat).
Implicit Types (s : bst (D:=D)) (p : pc (D:=D)) (bq : bufq (D:=D)).
Notation pc_ok := (pc_ok impls contents bufs).
Notation inv := (inv impls contents bufs).
Notation bq_ok := (bq_ok impls contents).
Notation queued := (queued contents).

(** ** Holders and waiters *)

Lemma elem_holders s q b : b ∈ holders s q <-> b_bq s !! b = Some q.
Proof.
  unfold holders. rewrite elem_of_dom. split.
  - intros [x Hx]. apply map_lookup_filter_Some in Hx as [Hx E]. simpl in E. by subst.
  - intros H. exists q. by apply map_lookup_filter_Some.
Qed.

Lemma elem_waiters s q t : t ∈ waiters s q <-> exists p, thr s !! t = Some p /\ waits q p = true.
Proof.
  unfold waiters. rewrite elem_of_dom. split.
  - intros [x Hx]. apply map_lookup_filter_Some in Hx as [Hx E]. eauto.
  - intros (p & H & W). exists p. by apply map_lookup_filter_Some.
Qed.

Lemma holders_eq s s' q : b_bq s' = b_bq s -> holders s' q = holders s q.
Proof. unfold holders. by intros ->. Qed.

Lemma holders_nil s q b : size (holders s q) = O -> b_bq s !! b <> Some q.
Proof.
  intros H E%elem_holders. apply size_empty_inv in H. set_solver.
Qed.

(** ** Waking *)

(** What waking keeps of a thread. *)
Definition keeps (f : pc (D:=D) -> pc (D:=D)) : Prop :=
  forall p, pq (f p) = pq p /\ pb (f p) = pb p /\ excl (f p) = excl p /\ susp (f p) = susp p
    /\ (forall q, waits q (f p) = waits q p) /\ (forall q, stops p q -> stops (f p) q)
    /\ (forall s, pc_ok s p -> pc_ok s (f p)).

Lemma keeps_id : keeps id.
Proof. repeat split; auto. Qed.

Lemma keeps_wake c : keeps (wake_pc c).
Proof.
  intros p. destruct c, p; simpl; repeat (case_match; simpl); split_and!; tauto.
Qed.

Lemma keeps_compose f g : keeps f -> keeps g -> keeps (fun p => f (g p)).
Proof.
  intros F G p. destruct (F (g p)) as (A & B & C & E & W & S & O), (G p) as (A' & B' & C' & E' & W' & S' & O').
  split_and!; try congruence; eauto.
Qed.

Lemma apart_sym p p' : apart p p' = apart p' p.
Proof.
  assert (Hc : forall o o', clash o o' = clash o' o).
  { intros [a|] [b|]; simpl; auto. apply Nat.eqb_sym. }
  unfold apart. rewrite (Hc (pb p)), (Hc (excl p)), (Hc (pq p)).
  destruct (clash (pb p') (pb p)), (clash (pq p') (excl p)), (clash (excl p') (pq p)), (susp p), (susp p'); auto.
Qed.

Lemma apart_keeps f p p' : keeps f -> apart p (f p') = apart p p'.
Proof. intros K. destruct (K p') as (A & B & C & E & _). unfold apart. by rewrite A, B, C, E. Qed.

(** What [apart] says. *)
Lemma clash_false o o' x : clash o o' = false -> o = Some x -> o' <> Some x.
Proof. intros H -> ->. simpl in H. by rewrite Nat.eqb_refl in H. Qed.

Lemma apart_spec p p' : apart p p' = true ->
  (forall b, pb p = Some b -> pb p' <> Some b) /\ (forall q, excl p = Some q -> pq p' <> Some q)
  /\ (forall q, pq p = Some q -> excl p' <> Some q) /\ (susp p = true -> susp p' = false).
Proof.
  unfold apart. rewrite !andb_true_iff, !negb_true_iff. intros [[[A B] C] E].
  repeat split; intros; eauto using clash_false. rewrite H in E. by destruct (susp p').
Qed.

(** A thread that holds no more than it did. *)
Definition shrinks p p' : Prop :=
  (pb p' = None \/ pb p' = pb p) /\ (excl p' = None \/ excl p' = excl p) /\ (pq p' = None \/ pq p' = pq p)
  /\ (susp p' = true -> susp p = true).

Lemma apart_shrinks p p' p2 : shrinks p p' -> apart p p2 = true -> apart p' p2 = true.
Proof.
  unfold apart. rewrite !andb_true_iff, !negb_true_iff. intros (A & B & C & E) [[[A' B'] C'] E'].
  repeat split.
  - by destruct A as [-> | ->].
  - by destruct B as [-> | ->].
  - by destruct C as [-> | ->].
  - destruct (susp p'); auto. by rewrite E in E'.
Qed.

(** ** Frames *)

Lemma quiet_stopped s q : quiet s q -> stopped s q.
Proof. unfold quiet, stopped, at_bq. case_match; tauto. Qed.

Lemma walked_frame s s' r P :
  bufqs s' = bufqs s -> (bufqs_stop s = true -> bufqs_stop s' = true) ->
  (P -> forall q, quiet s q -> quiet s' q) -> walked s r P -> walked s' r P.
Proof.
  intros L B Q [Hs (pre & E & F)]. split; auto. exists pre. rewrite L. split; auto.
  intros HP. eapply Forall_impl; [by apply F|]. by apply Q.
Qed.

(** What a thread at [p] relies on is not changed from [s] to [s']. *)
Definition needs_stop p : bool :=
  match p with InitSleep _ _ | DestroySleep _ => true | _ => susp p end.

Lemma frame s s' p :
  (susp p = true -> bufqs s' = bufqs s) -> (needs_stop p = true -> bufqs_stop s = true -> bufqs_stop s' = true) ->
  (susp p = true -> match p with InRestart _ => True | _ => forall q, (quiet s q -> quiet s' q) /\ (stopped s q -> stopped s' q) end) ->
  (forall q b, p = StopSleep q b -> stopped s q -> stopped s' q) ->
  (forall q, pq p = Some q -> live s q -> live s' q) ->
  (forall q, excl p = Some q -> (bqs s !! q = None -> bqs s' !! q = None) /\ (dead s q -> dead s' q)
     /\ (forall b, b ∈ queued s q -> b ∈ queued s' q) /\ forall b, b_bq s' !! b = Some q -> b_bq s !! b = Some q) ->
  (forall b, pb p = Some b -> b_bq s' !! b = b_bq s !! b /\ forall q, b ∈ queued s' q -> b ∈ queued s q) ->
  (forall q, p = WaitSleep q -> loaded s q -> loaded s' q) ->
  (forall q r, p = QuiSleep q r -> busy s q -> busy s' q) ->
  pc_ok s p -> pc_ok s' p.
Proof.
  intros L B S St Lv Ex Pb Ws Qs.
  assert (Wk : susp p = true -> forall r P, (P -> forall q, quiet s q -> quiet s' q) -> walked s r P -> walked s' r P).
  { intros Sp r P. apply walked_frame; auto. apply B. by destruct p. }
  destruct p; simpl in *; try tauto; intros Hp; destruct_and?; try specialize (S eq_refl);
    try specialize (Wk eq_refl); split_and?; eauto.
  all: try (apply Wk; [intros _ ?; apply S | done]); try (by apply S).
  all: try (destruct (Pb _ eq_refl) as [-> Pq]; by eauto).
  all: try (destruct (Ex _ eq_refl) as (? & ? & ? & ?); by auto).
  all: try (by apply Wk); try (intros Hin; by eapply (proj2 (Pb _ eq_refl)) in Hin).
  all: intros ->; destruct (Ex _ eq_refl) as (_ & _ & Eq & Eb); intros b' Hb ?; naive_solver.
Qed.

(** ** A change of one queue *)

Lemma at_upd s s' q0 bq bq' (P : bufq -> Prop) q :
  bqs s' = <[q0 := bq']> (bqs s) -> bqs s !! q0 = Some bq -> (q = q0 -> P bq -> P bq') ->
  at_bq s q P -> at_bq s' q P.
Proof.
  intros E Hq HP. unfold at_bq. rewrite E. destruct (decide (q = q0)) as [->|?].
  - rewrite lookup_insert_eq, Hq. auto.
  - by rewrite lookup_insert_ne by congruence.
Qed.

Lemma at_upd_inv s s' q0 bq' (P : bufq -> Prop) q :
  bqs s' = <[q0 := bq']> (bqs s) -> at_bq s' q P -> (q = q0 /\ P bq') \/ (q <> q0 /\ at_bq s q P).
Proof.
  intros E. unfold at_bq. rewrite E. destruct (decide (q = q0)) as [->|?].
  - rewrite lookup_insert_eq. auto.
  - rewrite lookup_insert_ne by congruence. auto.
Qed.

Lemma queued_upd s s' q0 bq' q :
  bqs s' = <[q0 := bq']> (bqs s) ->
  queued s' q = if decide (q = q0) then match bufq_data bq' with Some d => contents d | None => [] end else queued s q.
Proof.
  intros E. unfold BufqInv.queued. rewrite E. case_decide as Hq; subst.
  - by rewrite lookup_insert_eq.
  - by rewrite lookup_insert_ne by congruence.
Qed.

Lemma queued_at s q bq d : bqs s !! q = Some bq -> bufq_data bq = Some d -> queued s q = contents d.
Proof. unfold BufqInv.queued. by intros -> ->. Qed.

(** ** Waiters after a step *)

Section Waiters.
Context s s' (t : nat) p p' f (Hp : thr s !! t = Some p) (K : keeps f) (E : thr s' = <[t := p']> (f <$> thr s)).

Lemma thr_other t2 p2 : t2 <> t -> thr s' !! t2 = Some p2 -> exists p3, thr s !! t2 = Some p3 /\ p2 = f p3.
Proof.
  intros Hn. rewrite E, lookup_insert_ne, lookup_fmap by congruence.
  destruct (thr s !! t2) eqn:H; simpl; [|done]. intros [= <-]. eauto.
Qed.

Lemma waiters_other q t2 : t2 <> t -> t2 ∈ waiters s' q <-> t2 ∈ waiters s q.
Proof.
  intros Hn. rewrite !elem_waiters, E, lookup_insert_ne, lookup_fmap by congruence.
  destruct (thr s !! t2) as [p2|]; simpl; [|naive_solver].
  destruct (K p2) as (_ & _ & _ & _ & W & _). split; intros (? & [= <-] & ?); eexists; split; eauto; congruence.
Qed.

Lemma waiters_self q : (t ∈ waiters s q <-> waits q p = true) /\ (t ∈ waiters s' q <-> waits q p' = true).
Proof. rewrite !elem_waiters, E, lookup_insert_eq, Hp. naive_solver. Qed.

Lemma waiters_same q : waits q p' = waits q p -> waiters s' q = waiters s q.
Proof.
  intros Hw. apply set_eq. intros t2. destruct (decide (t2 = t)) as [->|?]; [|by apply waiters_other].
  destruct (waiters_self q) as [-> ->]. by rewrite Hw.
Qed.

Lemma waiters_more q : waits q p = false -> waits q p' = true -> size (waiters s' q) = S (size (waiters s q)).
Proof.
  intros H H'. destruct (waiters_self q) as [A B].
  assert (Eq : waiters s' q = {[t]} ∪ waiters s q).
  { apply set_eq. intros t2. rewrite elem_of_union, elem_of_singleton.
    destruct (decide (t2 = t)) as [->|?]; [tauto|]. rewrite waiters_other by done. naive_solver. }
  rewrite Eq, size_union, size_singleton; [lia|]. apply disjoint_singleton_l. rewrite A. congruence.
Qed.

Lemma waiters_less q : waits q p = true -> waits q p' = false -> size (waiters s q) = S (size (waiters s' q)).
Proof.
  intros H H'. destruct (waiters_self q) as [A B].
  assert (Eq : waiters s q = {[t]} ∪ waiters s' q).
  { apply set_eq. intros t2. rewrite elem_of_union, elem_of_singleton.
    destruct (decide (t2 = t)) as [->|?]; [tauto|]. rewrite waiters_other by done. naive_solver. }
  rewrite Eq, size_union, size_singleton; [lia|]. apply disjoint_singleton_l. rewrite B. congruence.
Qed.
End Waiters.

(** ** The invariant after a step of one thread *)

Lemma inv_step s s' t p p' f :
  inv s -> thr s !! t = Some p -> keeps f -> thr s' = <[t := p']> (f <$> thr s) ->
  (forall t2 p2, t2 <> t -> thr s !! t2 = Some p2 -> apart p' p2 = true) ->
  NoDup (bufqs s') -> (forall q, q ∈ bufqs s' <-> is_Some (bqs s' !! q)) ->
  (forall q bq, bqs s' !! q = Some bq -> bq_ok bq (holders s' q) (size (waiters s' q))) ->
  (forall t2 p2, t2 <> t -> thr s !! t2 = Some p2 -> pc_ok s (f p2) -> pc_ok s' (f p2)) ->
  pc_ok s' p' ->
  (forall b q, b_bq s' !! b = Some q -> b ∈ bufs /\ is_Some (bqs s' !! q)) ->
  (forall q, stopped s' q -> stops p' q \/ (stopped s q /\ ~ stops p q)) ->
  (bufqs_stop s' = true -> susp p' = true \/ (bufqs_stop s = true /\ susp p = false)) ->
  inv s'.
Proof.
  intros I Hp K E Ha Hl Hd Hq Ho Hok Hb Hs Hbs. split; try assumption.
  - intros t2 p2 H2. destruct (decide (t2 = t)) as [->|Hn].
    + rewrite E, lookup_insert_eq in H2. by injection H2 as <-.
    + destruct (thr_other s s' t p' f E t2 p2 Hn H2) as (p3 & H3 & ->).
      eapply Ho; eauto. destruct (K p3) as (_ & _ & _ & _ & _ & _ & O). by eapply O, i_pcs.
  - assert (G : forall t2 p2, t2 <> t -> thr s' !! t2 = Some p2 -> apart p' p2 = true).
    { intros t2 p2 Hn H2. destruct (thr_other s s' t p' f E t2 p2 Hn H2) as (p3 & H3 & ->).
      rewrite apart_keeps by done. eauto. }
    intros t1 t2 p1 p2 Hn H1 H2. destruct (decide (t1 = t)) as [->|N1].
    + rewrite E, lookup_insert_eq in H1. injection H1 as <-. by eapply G.
    + destruct (decide (t2 = t)) as [->|N2].
      * rewrite E, lookup_insert_eq in H2. injection H2 as <-. rewrite apart_sym. by eapply G.
      * destruct (thr_other s s' t p' f E t1 p1 N1 H1) as (p3 & H3 & ->).
        destruct (thr_other s s' t p' f E t2 p2 N2 H2) as (p4 & H4 & ->).
        rewrite apart_keeps, apart_sym, apart_keeps, apart_sym by done. by eapply (i_apart _ _ _ s I t1 t2).
  - intros q H. destruct (Hs q H) as [?|[S N]]; [exists t, p'; rewrite E, lookup_insert_eq; split; [reflexivity | assumption]|].
    destruct (i_stop _ _ _ s I q S) as (t2 & p2 & H2 & S2). destruct (decide (t2 = t)) as [->|Hn]; [rewrite Hp in H2; injection H2 as <-; tauto|].
    exists t2, (f p2). rewrite E, lookup_insert_ne, lookup_fmap, H2 by congruence. split; [done|].
    destruct (K p2) as (_ & _ & _ & _ & _ & S3 & _). auto.
  - intros H. destruct (Hbs H) as [?|[S N]]; [exists t, p'; rewrite E, lookup_insert_eq; split; [reflexivity | assumption]|].
    destruct (i_bstop _ _ _ s I S) as (t2 & p2 & H2 & S2). destruct (decide (t2 = t)) as [->|Hn]; [rewrite Hp in H2; congruence|].
    exists t2, (f p2). rewrite E, lookup_insert_ne, lookup_fmap, H2 by congruence. split; [done|].
    destruct (K p2) as (_ & _ & _ & S3 & _). congruence.
Qed.
End Facts.

(** * eVery section keeps the invariant

    One lemma per section of [Bufq], on all its branches; none of them
    faults. *)

Section Steps.
Context {D : Type} (impls : list (bufq_impl D)) (contents : D -> list nat) (bufs : gset nat).
Context (impls_ok : forall i, i ∈ impls -> Discipline contents i) (bufs_small : Z.of_nat (size bufs) < 2 ^ 32).
Implicit Types (s : bst (D:=D)) (p : pc (D:=D)) (bq : bufq (D:=D)).
Notation pc_ok := (pc_ok impls contents bufs).
Notation inv := (inv impls contents bufs).
Notation bq_ok := (bq_ok impls contents).
Notation queued := (queued contents).
Notation keeps := (keeps impls contents bufs).
Notation guard := (guard impls contents bufs).

Definition good (o : outcome (D:=D)) : Prop :=
  match o with Stuck => True | Faults => False | Goes s => inv s end.

(** No other thread stands in the way of [t] at [p]. *)
Definition clear s (t : nat) p : Prop := forall t2 p2, t2 <> t -> thr s !! t2 = Some p2 -> apart p p2 = true.

Lemma clear_fresh s t p : fresh s t p -> clear s t p.
Proof. intros F t2 p2 Hn H. by apply (F t2 p2). Qed.

Lemma clear_at s t p : inv s -> thr s !! t = Some p -> clear s t p.
Proof. intros I H t2 p2 Hn H2. by eapply (i_apart _ _ _ s I t t2). Qed.

Lemma clear_shrinks s t p p' : clear s t p -> shrinks p p' -> clear s t p'.
Proof. intros C S t2 p2 Hn H2. by eapply apart_shrinks, C. Qed.

Lemma clear_excl s t p q t2 p2 : clear s t p -> pq p = Some q -> t2 <> t -> thr s !! t2 = Some p2 -> excl p2 <> Some q.
Proof. intros C E Hn H. destruct (apart_spec _ _ (C t2 p2 Hn H)) as (_ & _ & A & _). auto. Qed.

Lemma clear_pq s t p q t2 p2 : clear s t p -> excl p = Some q -> t2 <> t -> thr s !! t2 = Some p2 -> pq p2 <> Some q.
Proof. intros C E Hn H. destruct (apart_spec _ _ (C t2 p2 Hn H)) as (_ & A & _). auto. Qed.

Lemma clear_pb s t p b t2 p2 : clear s t p -> pb p = Some b -> t2 <> t -> thr s !! t2 = Some p2 -> pb p2 <> Some b.
Proof. intros C E Hn H. destruct (apart_spec _ _ (C t2 p2 Hn H)) as (A & _). auto. Qed.

Lemma live_bq s q : live s q -> exists bq d, bqs s !! q = Some bq /\ bufq_data bq = Some d.
Proof. unfold live. destruct (bqs s !! q) as [bq|]; [|done]. intros [d Hd]. eauto. Qed.

Lemma impl_disc type i : impl_at impls type = Some i -> Discipline contents i.
Proof.
  intros Hi. apply impls_ok. unfold impl_at in Hi. case_match; [done|]. by eapply list_elem_of_lookup_2.
Qed.

Lemma impl_of s q bq : inv s -> bqs s !! q = Some bq ->
  exists i, impl_at impls (bufq_type bq) = Some i /\ Discipline contents i.
Proof.
  intros I H. destruct (i_queues _ _ _ s I q bq H) as (_ & _ & _ & [i Hi] & _). eauto using impl_disc.
Qed.

(** A thread that only moves. *)
Lemma bq_inv_goto s t p p' :
  inv s -> thr s !! t = Some p -> clear s t p' -> (forall q, waits q p' = waits q p) -> pc_ok s p' ->
  (forall q, stopped s q -> stops p q -> stops p' q) -> (susp p = true -> susp p' = true) -> inv (goto s t p').
Proof.
  intros I Hp C W O S B.
  assert (E : thr (goto s t p') = <[t := p']> (id <$> thr s)) by (simpl; by rewrite map_fmap_id).
  eapply (inv_step impls contents bufs s _ t p p' id); eauto using keeps_id; simpl; try done.
  - by eapply i_nodup.
  - intros q. apply (i_list _ _ _ s I).
  - intros q bq H. rewrite (waiters_same impls contents bufs s _ t p p' id) by auto using keeps_id.
    by apply (i_queues _ _ _ s I).
  - intros b q. apply (i_bbq _ _ _ s I).
  - intros q Hq. change (stopped s q) in Hq. destruct (i_stop _ _ _ s I q Hq) as (t2 & p2 & H2 & S2).
    destruct (decide (t2 = t)) as [->|Hn]; [rewrite Hp in H2; injection H2 as <-; auto|].
    right. split; [done|]. intros S1.
    assert (A := i_apart _ _ _ s I t2 t p2 p Hn H2 Hp). apply apart_spec in A as (_ & _ & _ & A).
    destruct p, p2; simpl in *; try done; by specialize (A eq_refl).
  - intros Hb. destruct (susp p); auto.
Qed.

(** What another thread relies on, when one queue changes. *)
Lemma frame_upd s s' p q bq bq' :
  bqs s' = <[q := bq']> (bqs s) -> bqs s !! q = Some bq -> bufqs s' = bufqs s -> bufqs_stop s' = bufqs_stop s ->
  (susp p = true \/ (exists b, p = StopSleep q b) ->
     bufq_stop bq = true -> bufq_stop bq' = true /\ (bufq_outstanding bq = 0 -> bufq_outstanding bq' = 0)) ->
  (pq p = Some q -> is_Some (bufq_data bq) -> is_Some (bufq_data bq')) ->
  (excl p = Some q -> bufq_data bq' = bufq_data bq /\ bufq_outstanding bq' = bufq_outstanding bq
     /\ forall b, b_bq s' !! b = Some q -> b_bq s !! b = Some q) ->
  (forall b q2, q2 <> q -> b_bq s' !! b = Some q2 -> b_bq s !! b = Some q2) ->
  (forall b, pb p = Some b -> b_bq s' !! b = b_bq s !! b /\ (b ∈ queued s' q -> b ∈ queued s q)) ->
  (p = WaitSleep q -> bufq_low bq <= bufq_outstanding bq -> bufq_low bq' <= bufq_outstanding bq') ->
  (forall r, p = QuiSleep q r -> bufq_outstanding bq <> 0 -> bufq_outstanding bq' <> 0) ->
  pc_ok s p -> pc_ok s' p.
Proof.
  intros E Hq Hl Hb Hs Hv Hx Ho Hp Hw Hqs.
  assert (Qs : susp p = true -> forall q2, (quiet s q2 -> quiet s' q2) /\ (stopped s q2 -> stopped s' q2)).
  { intros Sp q2. split; (eapply at_upd; [done|done|intros ->; simpl; tauto]). }
  apply frame; auto; try congruence.
  - intros Sp. case_match; auto.
  - intros q2 b ->. eapply at_upd; [done|done|]. intros ->. apply Hs. eauto.
  - intros q2 Hq2. eapply at_upd; [done|done|]. naive_solver.
  - intros q2 Hq2. split; [|split; [|split]].
    + intros Hn. rewrite E, lookup_insert_ne; [done|]. intros ->. congruence.
    + eapply at_upd; [done|done|]. intros ->. destruct (Hx Hq2) as (-> & -> & _). done.
    + intros b. rewrite (queued_upd contents s s' q bq' q2 E). case_decide; [subst|done].
      destruct (Hx Hq2) as (-> & _). unfold BufqInv.queued. by rewrite Hq.
    + intros b. destruct (decide (q2 = q)) as [->|]; [|by apply Ho]. by apply Hx.
  - intros b Hpb. split; [by apply Hp|]. intros q2. destruct (decide (q2 = q)) as [->|]; [by apply Hp|].
    rewrite (queued_upd contents s s' q bq' q2 E). by rewrite decide_False.
  - intros q2 ->. eapply at_upd; [done|done|]. naive_solver.
  - intros q2 r ->. eapply at_upd; [done|done|]. naive_solver.
Qed.

Lemma not_stops p q : susp p = false -> ~ stops p q.
Proof. destruct p; simpl; intros [=] []. Qed.

(** A step that changes one queue. *)
Lemma inv_upd s s' t p p' f q bq bq' :
  inv s -> thr s !! t = Some p -> keeps f -> thr s' = <[t := p']> (f <$> thr s) -> clear s t p' ->
  bqs s' = <[q := bq']> (bqs s) -> bqs s !! q = Some bq -> bufqs s' = bufqs s -> bufqs_stop s' = bufqs_stop s ->
  (forall q2, q2 <> q -> waits q2 p' = waits q2 p) ->
  (forall b q2, q2 <> q -> b_bq s' !! b = Some q2 <-> b_bq s !! b = Some q2) ->
  (forall b, b_bq s' !! b = Some q -> b ∈ bufs) ->
  bq_ok bq' (holders s' q) (size (waiters s' q)) ->
  (forall t2 p2, t2 <> t -> thr s !! t2 = Some p2 -> pc_ok s (f p2) -> pc_ok s' (f p2)) -> pc_ok s' p' ->
  (bufq_stop bq' = true -> stops p' q \/ (bufq_stop bq = true /\ ~ stops p q)) ->
  (forall q2, q2 <> q -> stops p q2 -> stops p' q2) -> (susp p = true -> susp p' = true) -> inv s'.
Proof.
  intros I Hp K E C Eq Hq Hl Hb W B1 B2 Ok Ho Hok S1 S2 S3.
  assert (Dm : forall q2, is_Some (bqs s' !! q2) <-> is_Some (bqs s !! q2)).
  { intros q2. rewrite Eq. destruct (decide (q2 = q)) as [->|?].
    + rewrite lookup_insert_eq, Hq. split; eauto.
    + by rewrite lookup_insert_ne by congruence. }
  eapply (inv_step impls contents bufs s s' t p p' f); eauto.
  - rewrite Hl. by eapply i_nodup.
  - intros q2. rewrite Hl, Dm. by eapply i_list.
  - intros q2 bq2 H2. rewrite Eq in H2. destruct (decide (q2 = q)) as [->|?].
    + rewrite lookup_insert_eq in H2. by injection H2 as <-.
    + rewrite lookup_insert_ne in H2 by congruence.
      rewrite (waiters_same impls contents bufs s s' t p p' f) by auto.
      replace (holders s' q2) with (holders s q2); [by apply (i_queues _ _ _ s I)|].
      apply set_eq. intros b. rewrite !elem_holders. symmetry. auto.
  - intros b q2 H. rewrite Dm. destruct (decide (q2 = q)) as [->|?]; [eauto|].
    apply B1 in H; [|done]. by apply (i_bbq _ _ _ s I) in H.
  - intros q2 H2. destruct (at_upd_inv s s' q bq' _ q2 Eq H2) as [[-> H3]|[Hn H3]]; clear H2.
    + destruct (S1 H3) as [?|[? ?]]; [auto|]. right. split; [|done]. unfold stopped, at_bq. by rewrite Hq.
    + destruct (susp p) eqn:Sp; [|right; auto using not_stops].
      destruct (i_stop _ _ _ s I q2 H3) as (t2 & p2 & H2 & S4).
      destruct (decide (t2 = t)) as [->|Nt]; [rewrite Hp in H2; injection H2 as <-; auto|].
      assert (A := clear_at s t p I Hp t2 p2 Nt H2). apply apart_spec in A as (_ & _ & _ & A).
      by destruct (not_stops p2 q2 (A Sp)).
  - rewrite Hb. destruct (susp p); auto.
Qed.

(** ** Steps on the data of a queue *)

Lemma inv_data s s' t p p' pg q bq bq' d d' :
  inv s -> thr s !! t = Some p -> thr s' = <[t := p']> (thr s) -> clear s t p' ->
  bqs s' = <[q := bq']> (bqs s) -> bqs s !! q = Some bq -> bufqs s' = bufqs s -> bufqs_stop s' = bufqs_stop s ->
  b_bq s' = b_bq s -> (forall q2, waits q2 p' = waits q2 p) -> susp p = false ->
  clear s t pg -> pq pg = Some q ->
  bufq_data bq = Some d -> bufq_data bq' = Some d' ->
  (bufq_outstanding bq', bufq_hi bq', bufq_low bq', bufq_waiting bq', bufq_stop bq') =
    (bufq_outstanding bq, bufq_hi bq, bufq_low bq, bufq_waiting bq, bufq_stop bq) ->
  is_Some (impl_at impls (bufq_type bq')) -> NoDup (contents d') ->
  (forall b, b ∈ contents d' -> b ∈ contents d \/ (b_bq s !! b = Some q /\ pb pg = Some b)) ->
  pc_ok s' p' -> inv s'.
Proof.
  intros I Hp E C Eq Hq Hl Hb Hbb W Sp Cg Pg Hd Hd' [= Eo Eh El Ew Es] Ty ND Hin Ok.
  assert (E' : thr s' = <[t := p']> (id <$> thr s)) by (by rewrite map_fmap_id).
  destruct (i_queues _ _ _ s I q bq Hq) as (O1 & O2 & O3 & O4 & O5). destruct (O5 d Hd) as [O6 O7].
  eapply (inv_upd s s' t p p' id q bq bq'); eauto using keeps_id.
  - intros b q2 _. by rewrite Hbb.
  - intros b H. rewrite Hbb in H. by apply (i_bbq _ _ _ s I b q).
  - rewrite (holders_eq s) by done. rewrite (waiters_same impls contents bufs s s' t p p' id) by auto using keeps_id.
    split_and!; try congruence; try lia; try done. intros d2 H2.
    rewrite Hd' in H2. injection H2 as <-. split; [done|]. intros b Hb2.
    destruct (Hin b Hb2) as [?|[? ?]]; [auto|by apply elem_holders].
  - intros t2 p2 Hn H2. unfold id. eapply frame_upd; eauto.
    + rewrite Es, Eo. tauto.
    + intros X. by destruct (clear_excl s t pg q t2 p2 Cg Pg Hn H2).
    + intros b q2 _. by rewrite Hbb.
    + intros b Hpb. rewrite Hbb. split; [done|]. rewrite (queued_upd contents s s' q bq' q Eq), decide_True by done.
      rewrite Hd', (queued_at contents s q bq d) by done. intros Hb2. destruct (Hin b Hb2) as [?|[? Pb]]; [done|].
      by destruct (clear_pb s t pg b t2 p2 Cg Pb Hn H2).
    + by rewrite El, Eo.
    + by rewrite Eo.
  - rewrite Es. auto using not_stops.
  - intros q2 _ H2. by apply not_stops in H2.
  - congruence.
Qed.
End Steps.
