(* ===== verification/BufqMoves.v ===== *)
(** * Disk request queues: the sections that move requests

    [bufq_queue], [bufq_dequeue], [bufq_requeue], [bufq_drain], [bufq_switch]
    and [bufq_done] keep the invariant and do not fault. *)

From stdpp Require Import base numbers list option gmap fin_maps.
From Stdlib Require Import ZArith Lia Bool.
From S2P Require Import Prelude Bufq BufqInv BufqSteps.
Local Open Scope Z_scope.

Section Moves.
Context {D : Type} (impls : list (bufq_impl D)) (contents : D -> list nat) (bufs : gset nat).
Context (impls_ok : forall i, i ∈ impls -> Discipline contents i) (bufs_small : Z.of_nat (size bufs) < 2 ^ 32).
Implicit Types (s : bst (D:=D)) (p : pc (D:=D)) (bq : bufq (D:=D)).
Notation pc_ok := (pc_ok impls contents bufs).
Notation inv := (inv impls contents bufs).
Notation bq_ok := (bq_ok impls contents).
Notation queued := (queued contents).
Notation keeps := (keeps impls contents bufs).
Notation good := (good impls contents bufs).

(** A request that is queued is held by no thread. *)
Lemma queued_holder s q b : inv s -> b ∈ queued s q -> b_bq s !! b = Some q.
Proof.
  intros I. unfold BufqInv.queued. destruct (bqs s !! q) as [bq|] eqn:Hq; [|intros H; by apply not_elem_of_nil in H].
  destruct (bufq_data bq) as [d|] eqn:Hd; [|intros H; by apply not_elem_of_nil in H].
  destruct (i_queues _ _ _ s I q bq Hq) as (_ & _ & _ & _ & O). intros H. apply elem_holders. by apply (O d Hd).
Qed.

Lemma queued_not_held s q b t p : inv s -> b ∈ queued s q -> thr s !! t = Some p -> pb p <> Some b.
Proof.
  intros I H Hp E. assert (Hb := queued_holder s q b I H). assert (Ok := i_pcs _ _ _ s I t p Hp).
  destruct p; simpl in *; try done; injection E as ->; destruct_and?; try congruence.
Qed.

(** [bufq_dequeue] and what the discipline gives. *)
Lemma dequeue_cases s q K :
  inv s -> live s q ->
  (forall bq d d', bqs s !! q = Some bq -> bufq_data bq = Some d -> contents d = [] -> contents d' = [] ->
     good (K None (with_bq s q (set_data bq (Some d'))))) ->
  (forall bq d b d', bqs s !! q = Some bq -> bufq_data bq = Some d -> contents d ≡ₚ b :: contents d' ->
     good (K (Some b) (with_bq s q (set_data bq (Some d'))))) ->
  good (bufq_dequeue impls s q K).
Proof.
  intros I L HN HS. destruct (live_bq s q L) as (bq & d & Hq & Hd).
  destruct (impl_of impls contents bufs impls_ok s q bq I Hq) as (i & Hi & Di).
  unfold bufq_dequeue, on_bq, on_impl. rewrite Hq, Hi, Hd. destruct (impl_dequeue i d) as [[b|] d'] eqn:E.
  - eapply HS; eauto. by eapply dequeue_some.
  - destruct (dequeue_none _ _ E) as [? ?]. eapply HN; eauto.
Qed.

(** The discipline's data changes and [t] goes on at [p']. *)
Lemma dequeued_inv s s' t p p' pg q bq d d' :
  inv s -> thr s !! t = Some p -> clear s t p' -> (forall q2, waits q2 p' = waits q2 p) -> susp p = false ->
  clear s t pg -> pq pg = Some q -> bqs s !! q = Some bq -> bufq_data bq = Some d ->
  NoDup (contents d') -> (forall b, b ∈ contents d' -> b ∈ contents d \/ (b_bq s !! b = Some q /\ pb pg = Some b)) ->
  bqs s' = <[q := set_data bq (Some d')]> (bqs s) -> bufqs s' = bufqs s -> bufqs_stop s' = bufqs_stop s ->
  b_bq s' = b_bq s -> thr s' = <[t := p']> (thr s) -> pc_ok s' p' -> inv s'.
Proof.
  intros I Hp C W Sp Cg Pg Hq Hd ND Hin E1 E2 E3 E4 E5 Ok.
  eapply (inv_data impls contents bufs s s' t p p' pg q bq (set_data bq (Some d')) d d'); eauto.
  by destruct (i_queues _ _ _ s I q bq Hq) as (_ & _ & _ & ? & _).
Qed.

Lemma contents_nodup s q bq d : inv s -> bqs s !! q = Some bq -> bufq_data bq = Some d -> NoDup (contents d).
Proof. intros I Hq Hd. destruct (i_queues _ _ _ s I q bq Hq) as (_ & _ & _ & _ & O). by apply O. Qed.

Lemma insert_run s t : thr s !! t = Some Run -> thr s = <[t := Run]> (thr s).
Proof. intros. by rewrite insert_id. Qed.

Lemma clear_run s t : clear s t Run.
Proof. intros t2 p2 _ _. unfold apart. simpl. by destruct (pq p2), (pb p2), (excl p2). Qed.

Lemma start_dequeue_good s t q : inv s -> thr s !! t = Some Run -> live s q -> fresh s t (InWait q) ->
  good (bufq_dequeue impls s q (fun _ s => Goes s)).
Proof.
  intros I Hp L F. apply dequeue_cases; auto; [intros bq d d' Hq Hd C C' | intros bq d b d' Hq Hd C]; simpl.
  all: eapply (dequeued_inv s _ t Run Run (InWait q) q bq d d'); eauto using clear_run, clear_fresh, insert_run; simpl; auto using insert_run.
  - rewrite C'. constructor.
  - rewrite C'. intros b H. by apply not_elem_of_nil in H.
  - assert (N := contents_nodup s q bq d I Hq Hd). rewrite C in N. by apply NoDup_cons in N as [_ N].
  - intros b' H. left. rewrite C. by right.
Qed.

Lemma start_requeue_good s t q b : inv s -> thr s !! t = Some Run -> live s q -> b_bq s !! b = Some q ->
  b ∉ queued s q -> fresh s t (DrainDone q b false) -> good (bufq_requeue impls s q b).
Proof.
  intros I Hp L Hb Hn F. destruct (live_bq s q L) as (bq & d & Hq & Hd).
  destruct (impl_of impls contents bufs impls_ok s q bq I Hq) as (i & Hi & Di).
  unfold bufq_requeue, on_bq, on_impl. rewrite Hq, Hi, Hd. simpl.
  assert (P := requeue_contents d b : contents (impl_requeue i d b) ≡ₚ _).
  eapply (dequeued_inv s _ t Run Run (DrainDone q b false) q bq d (impl_requeue i d b)); eauto using clear_run, clear_fresh, insert_run; simpl; auto using insert_run.
  - rewrite P. apply NoDup_cons. split; [|by eapply contents_nodup]. by rewrite (queued_at contents s q bq d) in Hn.
  - intros b'. rewrite P, elem_of_cons. intros [->|?]; auto.
Qed.

Lemma outstanding_nil s q bq : inv s -> bqs s !! q = Some bq -> (forall b, b_bq s !! b <> Some q) -> bufq_outstanding bq = 0.
Proof.
  intros I Hq H. destruct (i_queues _ _ _ s I q bq Hq) as (-> & _).
  replace (holders s q) with (∅ : gset nat); [by rewrite size_empty|].
  apply set_eq. intros b. rewrite elem_holders. set_solver.
Qed.

(** [bufq_destroy] frees the data. *)
Lemma free_data_good s t q bq d :
  inv s -> thr s !! t = Some (InDrain q true) -> bqs s !! q = Some bq -> bufq_data bq = Some d -> contents d = [] ->
  inv (goto (with_bq s q (set_data bq None)) t (InDestroy q)).
Proof.
  intros I Hp Hq Hd Cd. assert (C := clear_at impls contents bufs s t _ I Hp).
  destruct (i_pcs _ _ _ s I t _ Hp) as [_ St]. specialize (St eq_refl).
  assert (Z0 : bufq_outstanding bq = 0).
  { eapply outstanding_nil; eauto. intros b Hb. specialize (St b Hb).
    rewrite (queued_at contents s q bq d), Cd in St by done. by apply not_elem_of_nil in St. }
  destruct (i_queues _ _ _ s I q bq Hq) as (O1 & O2 & O3 & O4 & _).
  eapply (inv_upd impls contents bufs s _ t (InDrain q true) (InDestroy q) id q bq (set_data bq None)); eauto using keeps_id; simpl; auto.
  - by rewrite map_fmap_id.
  - intros b Hb. by apply (i_bbq _ _ _ s I b q).
  - rewrite (waiters_same impls contents bufs s _ t (InDrain q true) (InDestroy q) id)
      by (simpl; rewrite ?map_fmap_id; auto using keeps_id).
    split_and!; simpl; try done; lia.
  - intros t2 p2 Hn H2. assert (Np := clear_pq s t _ q t2 p2 C eq_refl Hn H2).
    assert (Nx := clear_excl s t _ q t2 p2 C eq_refl Hn H2).
    eapply (frame_upd impls contents bufs s _ p2 q bq (set_data bq None)); simpl; eauto; try done.
    intros b Hb. split; [done|]. intros H. erewrite queued_upd in H by reflexivity.
    rewrite decide_True in H by done. by apply not_elem_of_nil in H.
  - unfold dead, at_bq. simpl. rewrite lookup_insert_eq. done.
Qed.

Lemma drain_next_good s t q k : inv s -> thr s !! t = Some (InDrain q k) -> good (drain_next impls s t q k).
Proof.
  intros I Hp. destruct (i_pcs _ _ _ s I t _ Hp) as [L St].
  assert (C := clear_at impls contents bufs s t _ I Hp).
  apply dequeue_cases; auto; [intros bq d d' Hq Hd Cd Cd' | intros bq d b d' Hq Hd Cd].
  - destruct k.
    + unfold on_bq. simpl. rewrite lookup_insert_eq.
      replace (goto _ t _) with (goto (with_bq s q (set_data bq None)) t (InDestroy q)); [by eapply free_data_good|].
      unfold goto, with_bq, set_data; simpl. by rewrite insert_insert_eq.
    + simpl. eapply (dequeued_inv s _ t _ Run (InDrain q false) q bq d d'); eauto using clear_run; simpl; auto.
      * rewrite Cd'. constructor.
      * rewrite Cd'. intros b H. by apply not_elem_of_nil in H.
  - assert (N := contents_nodup s q bq d I Hq Hd). rewrite Cd in N. apply NoDup_cons in N as [N1 N2].
    assert (Bq : b ∈ queued s q) by (rewrite (queued_at contents s q bq d) by done; rewrite Cd; by left).
    assert (Qb : forall b', b' ∈ queued s q <-> b' = b \/ b' ∈ contents d').
    { intros b'. rewrite (queued_at contents s q bq d), Cd by done. by rewrite elem_of_cons. }
    eapply (dequeued_inv s _ t _ (DrainDone q b k) (InDrain q k) q bq d d'); eauto; simpl; auto.
    + intros t2 p2 Hn H2. specialize (C t2 p2 Hn H2). unfold apart in *. simpl in *.
      rewrite !andb_true_iff, !negb_true_iff in *. destruct_and?. split_and!; try done; try (by destruct k).
      assert (Nb := queued_not_held s q b t2 p2 I Bq H2). destruct (pb p2) as [b2|]; [|done]. simpl.
      apply Nat.eqb_neq. congruence.
    + intros b' H. left. rewrite Cd. by right.
    + set (s' := goto _ t _). assert (E : queued s' q = contents d').
      { unfold s', BufqInv.queued. simpl. by rewrite lookup_insert_eq. }
      split_and!.
      * unfold live. simpl. rewrite lookup_insert_eq. simpl. eauto.
      * by apply queued_holder.
      * by rewrite E.
      * intros Hk b' Hb' Hn. rewrite E. specialize (St Hk b' Hb' (ltac:(done))). apply Qb in St. naive_solver.
Qed.

(** ** [bufq_queue] *)

Lemma u32q_small x : 0 <= x < 2 ^ 32 -> u32q x = x.
Proof. apply Z.mod_small. Qed.

Lemma bufq_queue_good s t q b : inv s -> thr s !! t = Some (InQueue q b) -> good (bufq_queue impls s t q b).
Proof.
  intros I Hp. destruct (i_pcs _ _ _ s I t _ Hp) as (L & Hb & Hn).
  assert (C := clear_at impls contents bufs s t _ I Hp).
  destruct (live_bq s q L) as (bq & d & Hq & Hd).
  destruct (impl_of impls contents bufs impls_ok s q bq I Hq) as (i & Hi & Di).
  unfold bufq_queue, on_bq. rewrite Hq. destruct (bufq_stop bq) eqn:St.
  { simpl. eapply (bq_inv_goto impls contents bufs s t (InQueue q b) (StopSleep q b)); eauto.
    split_and!; auto. unfold stopped, at_bq. by rewrite Hq. }
  set (s1 := with_bbq s (<[b := q]> (b_bq s))).
  destruct (i_queues _ _ _ s I q bq Hq) as (O1 & O2 & O3 & O4 & O5). destruct (O5 d Hd) as [N1 N2].
  assert (P := queue_contents d b : contents (impl_queue i d b) ≡ₚ _).
  assert (Hh : holders s1 q = {[b]} ∪ holders s q).
  { apply set_eq. intros b'. rewrite elem_of_union, elem_of_singleton, !elem_holders. unfold s1. simpl.
    destruct (decide (b' = b)) as [->|?]; [rewrite lookup_insert_eq|rewrite lookup_insert_ne by congruence]; naive_solver. }
  assert (Bn : b ∉ holders s q) by (rewrite elem_holders; congruence).
  assert (Sz : size (holders s1 q) = S (size (holders s q))).
  { rewrite Hh, size_union, size_singleton; [lia|]. by apply disjoint_singleton_l. }
  assert (Lt : (size (holders s1 q) <= size bufs)%nat).
  { apply subseteq_size. intros b'. rewrite Hh, elem_of_union, elem_of_singleton. intros [->|H]; [done|].
    apply elem_holders in H. by apply (i_bbq _ _ _ s I b' q). }
  rewrite u32q_small by lia. set (bq' := set_data (set_outstanding bq (bufq_outstanding bq + 1)) (Some (impl_queue i d b))).
  unfold on_impl. simpl. rewrite Hi, Hd. simpl. fold bq'.
  eapply (inv_upd impls contents bufs s _ t _ Run id q bq bq'); simpl; eauto using keeps_id, clear_run.
  - by rewrite map_fmap_id.
  - intros b' q2 Hq2. destruct (decide (b' = b)) as [->|?]; [rewrite lookup_insert_eq|by rewrite lookup_insert_ne by congruence].
    naive_solver.
  - intros b'. destruct (decide (b' = b)) as [->|?]; [done|rewrite lookup_insert_ne by congruence].
    apply (i_bbq _ _ _ s I).
  - rewrite (waiters_same impls contents bufs s _ t (InQueue q b) Run id)
      by (simpl; rewrite ?map_fmap_id; auto using keeps_id).
    change (bq_ok bq' (holders s1 q) (size (waiters s q))). split_and!; simpl; try done; try lia. intros d2 [= <-]. rewrite P. split.
    + apply NoDup_cons. split; [|done]. intros H. by apply Bn, N2.
    + intros b'. rewrite P, Hh. set_solver.
  - intros t2 p2 Hn2 H2. assert (Nb := clear_pb s t _ b t2 p2 C eq_refl Hn2 H2).
    assert (Nx := clear_excl s t _ q t2 p2 C eq_refl Hn2 H2).
    eapply frame_upd; simpl; eauto; simpl; try done; try congruence; try lia.
    + intros b' q2 Hq2. destruct (decide (b' = b)) as [->|?]; [rewrite lookup_insert_eq|by rewrite lookup_insert_ne by congruence].
      naive_solver.
    + intros b' Hb'. assert (b' <> b) by congruence. rewrite lookup_insert_ne by congruence. split; [done|].
      intros Hin. erewrite queued_upd in Hin by reflexivity. rewrite decide_True in Hin by done. simpl in Hin.
      rewrite P in Hin. rewrite (queued_at contents s q bq d) by done. set_solver.
Qed.

(** ** [bufq_done] *)

(** The queue after a completion, and who it wakes. *)
Definition done_bq bq : bufq := set_outstanding bq (bufq_outstanding bq - 1).
Definition done_wakes (q : nat) bq p : pc :=
  let p1 := if bufq_stop bq && (bufq_outstanding bq - 1 =? 0) then wake_pc (ChOutstanding q) p else p in
  if negb (bufq_waiting bq =? 0) && (bufq_outstanding bq - 1 <? bufq_low bq) then wake_pc (ChWaiting q) p1 else p1.
Definition done_state s (q b : nat) bq : bst :=
  Bst (<[q := done_bq bq]> (bqs s)) (bufqs s) (bufqs_stop s) (delete b (b_bq s)) (done_wakes q bq <$> thr s).

Lemma done_wakes_keeps q bq : keeps (done_wakes q bq).
Proof.
  unfold done_wakes. set (c1 := bufq_stop bq && _). set (c2 := negb _ && _).
  destruct c1, c2.
  - apply (keeps_compose impls contents bufs (wake_pc (ChWaiting q)) (wake_pc (ChOutstanding q))); apply keeps_wake.
  - apply keeps_wake.
  - apply keeps_wake.
  - apply keeps_id.
Qed.

Lemma bufq_done_eq s q b bq : bqs s !! q = Some bq -> 0 < bufq_outstanding bq <= 2 ^ 32 ->
  bufq_done s q b = Goes (done_state s q b bq).
Proof.
  intros Hq Ho. unfold bufq_done, on_bq. rewrite Hq, (proj2 (Z.ltb_lt _ _)) by lia. simpl.
  rewrite u32q_small by lia. unfold done_state, done_wakes, with_bbq, with_bq, wakeup, with_thr. simpl.
  set (c1 := bufq_stop bq && _). set (c2 := negb _ && _). f_equal.
  destruct c1, c2; simpl; f_equal; rewrite ?map_fmap_id, <-?map_fmap_compose; reflexivity.
Qed.

(** A thread that [bufq_done] leaves asleep has a reason to sleep. *)
Lemma done_wakes_sleep q bq p :
  (done_wakes q bq p = WaitSleep q -> p = WaitSleep q /\ (bufq_waiting bq = 0 \/ bufq_low bq <= bufq_outstanding bq - 1))
  /\ (forall r, done_wakes q bq p = QuiSleep q r -> p = QuiSleep q r /\ (bufq_stop bq = false \/ bufq_outstanding bq - 1 <> 0)).
Proof.
  unfold done_wakes.
  destruct (bufq_stop bq), (Z.eqb_spec (bufq_outstanding bq - 1) 0), (Z.eqb_spec (bufq_waiting bq) 0),
    (Z.ltb_spec (bufq_outstanding bq - 1) (bufq_low bq)); simpl; destruct p; simpl; split; intros;
    repeat (case_match; simpl in *); simplify_eq; auto; rewrite ?Nat.eqb_refl in *; try done; auto with lia.
Qed.

Lemma done_inv s t p p' pg q b bq :
  inv s -> thr s !! t = Some p -> bqs s !! q = Some bq -> b_bq s !! b = Some q -> b ∉ queued s q ->
  clear s t pg -> pq pg = Some q -> pb pg = Some b -> clear s t p' ->
  (forall q2, waits q2 p' = waits q2 p) -> susp p = false ->
  pc_ok (goto (done_state s q b bq) t p') p' -> inv (goto (done_state s q b bq) t p').
Proof.
  intros I Hp Hq Hb Hnq C Pq Pb C' W Sp Ok. set (s' := goto _ t p') in *.
  destruct (i_queues _ _ _ s I q bq Hq) as (O1 & O2 & O3 & O4 & O5).
  assert (Hh : holders s q = {[b]} ∪ holders s' q).
  { apply set_eq. intros b'. rewrite elem_of_union, elem_of_singleton, !elem_holders. unfold s'. simpl.
    destruct (decide (b' = b)) as [->|?]; [rewrite lookup_delete_eq|rewrite lookup_delete_ne by congruence]; naive_solver. }
  assert (Bn : b ∉ holders s' q) by (rewrite elem_holders; unfold s'; simpl; by rewrite lookup_delete_eq).
  assert (Sz : size (holders s q) = S (size (holders s' q))).
  { rewrite Hh, size_union, size_singleton; [lia|]. by apply disjoint_singleton_l. }
  assert (Bo : forall b' q2, b_bq s' !! b' = Some q2 -> b_bq s !! b' = Some q2).
  { intros b' q2. unfold s'. simpl. intros H. apply lookup_delete_Some in H; tauto. }
  eapply (inv_upd impls contents bufs s s' t p p' (done_wakes q bq) q bq (done_bq bq));
    eauto using done_wakes_keeps.
  - intros b' q2 Hn. split; [apply Bo|]. intros H. unfold s'. simpl. apply lookup_delete_Some. split; [congruence|done].
  - intros b' H. apply Bo in H. by apply (i_bbq _ _ _ s I b' q).
  - rewrite (waiters_same impls contents bufs s s' t p p' (done_wakes q bq)) by auto using done_wakes_keeps.
    split_and!; simpl; try done; try lia. intros d Hd. destruct (O5 d Hd) as [N1 N2]. split; [done|].
    intros b' H. assert (Hb' := N2 b' H). rewrite (queued_at contents s q bq d) in Hnq by done. set_solver.
  - intros t2 p2 Hn H2. assert (Nb := clear_pb s t pg b t2 p2 C Pb Hn H2).
    assert (Nx := clear_excl s t pg q t2 p2 C Pq Hn H2). assert (Op := i_pcs _ _ _ s I t2 p2 H2).
    destruct (done_wakes_keeps q bq p2) as (K1 & K2 & K3 & _). destruct (done_wakes_sleep q bq p2) as [SW SQ].
    eapply (frame_upd impls contents bufs s s' _ q bq (done_bq bq)); eauto; simpl; rewrite ?K2, ?K3.
    + intros ?; split; [done | lia].
    + done.
    + intros b' Hb'. split; [rewrite lookup_delete_ne; congruence|]. intros H.
      erewrite queued_upd in H by reflexivity. rewrite decide_True in H by done. unfold BufqInv.queued. by rewrite Hq.
    + intros H _. destruct (SW H) as [-> [Hw|?]]; [|done].
      assert (Ht : t2 ∈ waiters s q) by (apply elem_waiters; exists (WaitSleep q); split; [done|]; apply Nat.eqb_refl).
      destruct (size (waiters s q)) eqn:E0; [|lia]. apply size_empty_inv in E0. set_solver.
    + intros r H _. destruct (SQ r H) as [-> [Hs|?]]; [|done]. destruct Op as (_ & St & _).
      unfold stopped, at_bq in St. rewrite Hq in St. congruence.
  - simpl. auto using not_stops.
  - intros q2 _ H. by apply not_stops in H.
  - congruence.
Qed.

Lemma holders_small s q : inv s -> Z.of_nat (size (holders s q)) < 2 ^ 32.
Proof.
  intros I. assert (size (holders s q) <= size bufs)%nat; [|lia]. apply subseteq_size. intros b H.
  apply elem_holders in H. by apply (i_bbq _ _ _ s I b q).
Qed.

Lemma biodone_eq s b q : inv s -> b_bq s !! b = Some q ->
  exists bq, bqs s !! q = Some bq /\ biodone s b = Goes (done_state s q b bq).
Proof.
  intros I Hb. destruct (i_bbq _ _ _ s I b q Hb) as [_ [bq Hq]]. exists bq. split; [done|].
  unfold biodone. rewrite Hb. apply bufq_done_eq; [done|]. destruct (i_queues _ _ _ s I q bq Hq) as (-> & _).
  assert (L := holders_small s q I). split; [|lia].
  destruct (size (holders s q)) eqn:E; [|lia]. by destruct (holders_nil s q b E).
Qed.

Lemma start_done_good s t b : inv s -> thr s !! t = Some Run ->
  match b_bq s !! b with Some q => (b ∉ queued s q) /\ fresh s t (DrainDone q b false) | None => True end ->
  good (biodone s b).
Proof.
  intros I Hp. destruct (b_bq s !! b) as [q|] eqn:Hb; [|intros _; unfold biodone; by rewrite Hb].
  intros [Hn F]. destruct (biodone_eq s b q I Hb) as (bq & Hq & ->). simpl.
  assert (E : done_state s q b bq = goto (done_state s q b bq) t Run).
  { unfold goto, with_thr. simpl. rewrite (insert_id (done_wakes q bq <$> thr s)); [done|]. rewrite lookup_fmap, Hp. simpl.
    unfold done_wakes. do 2 case_match; done. }
  rewrite E. eapply (done_inv s t Run Run (DrainDone q b false)); eauto using clear_run, clear_fresh. done.
Qed.

Lemma drain_done_good s t q b k : inv s -> thr s !! t = Some (DrainDone q b k) ->
  good (match biodone s b with Goes s' => Goes (goto s' t (InDrain q k)) | o => o end).
Proof.
  intros I Hp. destruct (i_pcs _ _ _ s I t _ Hp) as (L & Hb & Hn & St).
  destruct (biodone_eq s b q I Hb) as (bq & Hq & ->). simpl. assert (C := clear_at impls contents bufs s t _ I Hp).
  eapply (done_inv s t (DrainDone q b k) (InDrain q k) (DrainDone q b k)); eauto.
  - eapply clear_shrinks; eauto. repeat split; simpl; auto.
  - split.
    + unfold live in *. rewrite Hq in L. simpl. rewrite lookup_insert_eq. done.
    + intros Hk b' Hb' _. simpl in Hb'. apply lookup_delete_Some in Hb' as [Hne Hb'].
      assert (Hi := St Hk b' Hb' (ltac:(congruence))). unfold BufqInv.queued in *. rewrite Hq in Hi. simpl.
      rewrite lookup_insert_eq. done.
Qed.

(** ** [bufq_switch] *)

Lemma switch_move_spec oi ni : Discipline contents oi -> Discipline contents ni -> forall fuel od nd,
  (length (contents od) <= fuel)%nat ->
  exists d, switch_move fuel oi ni od nd = Some d /\ contents d ≡ₚ contents od ++ contents nd.
Proof.
  intros Do Dn. induction fuel as [|fuel IH]; intros od nd Hf; simpl;
    destruct (impl_dequeue oi od) as [[b|] od'] eqn:E.
  1,3: apply dequeue_some in E; rewrite E in *; simpl in *.
  - lia.
  - destruct (IH od' (impl_queue ni nd b)) as (d & -> & P); [lia|]. exists d. split; [done|].
    rewrite P, queue_contents. rewrite E. symmetry. apply Permutation_middle.
  - exists nd. split; [done|]. by destruct (dequeue_none _ _ E) as [-> _].
  - exists nd. split; [done|]. by destruct (dequeue_none _ _ E) as [-> _].
Qed.

Lemma queued_length s q bq d : inv s -> bqs s !! q = Some bq -> bufq_data bq = Some d ->
  (length (contents d) <= size bufs)%nat.
Proof.
  intros I Hq Hd. rewrite <-(size_list_to_set (C := gset nat)) by (by eapply contents_nodup).
  apply subseteq_size. intros b. rewrite elem_of_list_to_set. intros H.
  destruct (i_queues _ _ _ s I q bq Hq) as (_ & _ & _ & _ & O). apply O in H; [|done].
  apply elem_holders in H. by apply (i_bbq _ _ _ s I b q).
Qed.

Lemma switch_swap_good s t q type data fuel : (size bufs <= fuel)%nat -> inv s ->
  thr s !! t = Some (InSwitch q type data) -> good (switch_swap impls fuel s t q type data).
Proof.
  intros Hf I Hp. destruct (i_pcs _ _ _ s I t _ Hp) as (L & [ni Hi] & Cd).
  assert (C := clear_at impls contents bufs s t _ I Hp).
  destruct (live_bq s q L) as (bq & d & Hq & Hd). unfold switch_swap, on_bq. rewrite Hq.
  destruct (bufq_type bq =? type).
  { simpl. eapply (bq_inv_goto impls contents bufs s t _ Run); eauto using clear_run; done. }
  rewrite Hi. destruct (impl_of impls contents bufs impls_ok s q bq I Hq) as (oi & Ho & Do).
  assert (Dn := impl_disc impls contents impls_ok type ni Hi).
  unfold on_impl. rewrite Ho, Hd. assert (Lq := queued_length s q bq d I Hq Hd).
  destruct (switch_move_spec oi ni Do Dn fuel d data) as (d' & -> & P); [lia|].
  rewrite Cd, app_nil_r in P. simpl.
  eapply (inv_data impls contents bufs s _ t (InSwitch q type data) Run (InSwitch q type data) q bq (set_impl bq d' type) d d'); eauto using clear_run.
  - rewrite P. by eapply contents_nodup.
  - intros b. rewrite P. auto.
  - done.
Qed.

Lemma start_switch_good s t q type mem : inv s -> thr s !! t = Some Run -> live s q -> fresh s t (InWait q) ->
  is_Some (impl_at impls type) -> good (bufq_switch impls s t q type mem).
Proof.
  intros I Hp L F [i Hi]. destruct (live_bq s q L) as (bq & d & Hq & Hd). unfold bufq_switch, on_bq. rewrite Hq.
  destruct (bufq_type bq =? type); [done|]. rewrite Hi. destruct mem; [|done]. simpl.
  assert (Dn := impl_disc impls contents impls_ok type i Hi).
  eapply (bq_inv_goto impls contents bufs s t Run); eauto.
  - apply (clear_shrinks s t (InWait q)); [by apply clear_fresh|]. repeat split; simpl; auto.
  - split_and!; eauto. apply create_contents.
Qed.
End Moves.

(** * tHrottling, suspending, creating and destroying

    [bufq_wait], [bufq_quiesce], [bufq_restart], [bufq_init] and the end of
    [bufq_destroy] keep the invariant and do not fault. *)

Section Waits.
Context {D : Type} (impls : list (bufq_impl D)) (contents : D -> list nat) (bufs : gset nat).
Context (impls_ok : forall i, i ∈ impls -> Discipline contents i) (bufs_small : Z.of_nat (size bufs) < 2 ^ 32).
Implicit Types (s : bst (D:=D)) (p : pc (D:=D)) (bq : bufq (D:=D)).
Notation pc_ok := (pc_ok impls contents bufs).
Notation inv := (inv impls contents bufs).
Notation bq_ok := (bq_ok impls contents).
Notation queued := (queued contents).
Notation good := (good impls contents bufs).

(** ** [bufq_wait] *)

(** A waiter is counted in or out, and goes on at [p']. *)
Lemma waiting_inv s t p p' q bq w :
  inv s -> thr s !! t = Some p -> (p = InWait q \/ p = WaitWoken q) -> (p' = Run \/ p' = WaitSleep q) ->
  bqs s !! q = Some bq -> let s' := goto (with_bq s q (set_waiting bq w)) t p' in
  w = Z.of_nat (size (waiters s' q)) -> (p' = WaitSleep q -> bufq_low bq <= bufq_outstanding bq) -> inv s'.
Proof.
  intros I Hp Cp Cp' Hq s' Hw Hl. destruct (i_queues _ _ _ s I q bq Hq) as (O1 & O2 & O3 & O4 & O5).
  assert (C := clear_at impls contents bufs s t p I Hp). assert (Ok := i_pcs _ _ _ s I t p Hp).
  assert (L : live s' q).
  { unfold live, s'. simpl. rewrite lookup_insert_eq. destruct Cp as [-> | ->]; simpl in Ok; unfold live in Ok; by rewrite Hq in Ok. }
  eapply (inv_upd impls contents bufs s s' t p p' id q bq (set_waiting bq w)); eauto using keeps_id.
  - simpl. by rewrite map_fmap_id.
  - eapply clear_shrinks; eauto. destruct Cp as [-> | ->], Cp' as [-> | ->]; repeat split; simpl; auto.
  - intros q2 Hn. apply Nat.eqb_neq in Hn. destruct Cp as [-> | ->], Cp' as [-> | ->]; simpl; congruence.
  - intros b H. by apply (i_bbq _ _ _ s I b q).
  - split_and!; simpl; try done; lia.
  - intros t2 p2 Hn H2. unfold id. eapply (frame_upd impls contents bufs s s' p2 q bq (set_waiting bq w)); eauto; simpl; try done.
    intros b _. split; [done|]. unfold s', BufqInv.queued. simpl. by rewrite lookup_insert_eq, Hq.
  - destruct Cp' as [-> | ->]; [done|]. split; [done|]. unfold loaded, at_bq, s'. simpl. rewrite lookup_insert_eq. auto.
  - simpl. intros Hs. right. split; [done|]. destruct Cp as [-> | ->]; intros [].
  - intros q2 _. destruct Cp as [-> | ->]; intros [].
  - by destruct Cp as [-> | ->].
Qed.

Lemma wait_turn_good s t p q bq w : inv s -> thr s !! t = Some p -> bqs s !! q = Some bq ->
  (p = InWait q /\ w = bufq_waiting bq) \/ (p = WaitWoken q /\ w = bufq_waiting bq - 1) ->
  inv (wait_turn s t q (set_waiting bq w)).
Proof.
  intros I Hp Hq Cp. destruct (i_queues _ _ _ s I q bq Hq) as (O1 & O2 & O3 & O4 & O5).
  assert (Cp2 : p = InWait q \/ p = WaitWoken q) by tauto. unfold wait_turn. simpl.
  destruct (Z.leb_spec (bufq_hi bq) (bufq_outstanding bq)).
  - eapply (waiting_inv s t p (WaitSleep q) q bq); eauto; [|intros _; lia].
    set (s' := goto _ _ _). destruct Cp as [[-> ->]|[-> ->]].
    + rewrite (waiters_more impls contents bufs s s' t (InWait q) (WaitSleep q) id); simpl;
        rewrite ?map_fmap_id, ?Nat.eqb_refl; auto using keeps_id. lia.
    + rewrite (waiters_same impls contents bufs s s' t (WaitWoken q) (WaitSleep q) id); simpl;
        rewrite ?map_fmap_id, ?Nat.eqb_refl; auto using keeps_id. lia.
  - eapply (waiting_inv s t p Run q bq); eauto; [|done].
    set (s' := goto _ _ _). destruct Cp as [[-> ->]|[-> ->]].
    + rewrite (waiters_same impls contents bufs s s' t (InWait q) Run id); simpl;
        rewrite ?map_fmap_id, ?Nat.eqb_refl; auto using keeps_id.
    + enough (size (waiters s q) = S (size (waiters s' q))) by lia.
      apply (waiters_less impls contents bufs s s' t (WaitWoken q) Run id); simpl;
        rewrite ?map_fmap_id, ?Nat.eqb_refl; auto using keeps_id.
Qed.

Lemma bufq_wait_good s t q : inv s -> thr s !! t = Some (InWait q) -> good (bufq_wait s t q).
Proof.
  intros I Hp. assert (L : live s q) by exact (i_pcs _ _ _ s I t _ Hp).
  destruct (live_bq s q L) as (bq & d & Hq & Hd). unfold bufq_wait, on_bq. rewrite Hq.
  destruct (bufq_hi bq =? 0); simpl.
  - eapply (bq_inv_goto impls contents bufs s t _ Run); eauto using clear_run; done.
  - assert (E : bq = set_waiting bq (bufq_waiting bq)) by (by destruct bq). rewrite E at 1.
    eapply (wait_turn_good s t (InWait q)); eauto.
Qed.

Lemma wait_woken_good s t q : inv s -> thr s !! t = Some (WaitWoken q) -> good (wait_woken s t q).
Proof.
  intros I Hp. assert (L : live s q) by exact (i_pcs _ _ _ s I t _ Hp).
  destruct (live_bq s q L) as (bq & d & Hq & Hd). unfold wait_woken, on_bq. rewrite Hq. simpl.
  eapply (wait_turn_good s t (WaitWoken q)); eauto.
Qed.

(** ** [bufq_quiesce] *)

Lemma susp_unique s t p t2 p2 : inv s -> thr s !! t = Some p -> susp p = true -> thr s !! t2 = Some p2 ->
  susp p2 = true -> t2 = t.
Proof.
  intros I Hp Sp H2 S2. destruct (decide (t2 = t)) as [|Hn]; [done|].
  assert (A := clear_at impls contents bufs s t p I Hp t2 p2 Hn H2). apply apart_spec in A as (_ & _ & _ & A).
  rewrite (A Sp) in S2. done.
Qed.

Lemma quiesce_start_good s t : inv s -> thr s !! t = Some Run -> fresh s t (InQuiesce (bufqs s)) ->
  inv (bufq_quiesce s t).
Proof.
  intros I Hp F. assert (C := clear_fresh s t _ F). unfold bufq_quiesce. set (s' := goto _ _ _).
  assert (Ns : forall t2 p2, thr s !! t2 = Some p2 -> susp p2 = false).
  { intros t2 p2 H2. destruct (decide (t2 = t)) as [->|Hn]; [rewrite Hp in H2; by injection H2 as <-|].
    by apply (apart_spec _ _ (C t2 p2 Hn H2)). }
  assert (Ns2 : forall q, ~ stopped s q).
  { intros q Hs. destruct (i_stop _ _ _ s I q Hs) as (t2 & p2 & H2 & S2). by apply not_stops in S2; eauto. }
  assert (Ek : thr s' = <[t := InQuiesce (bufqs s)]> (id <$> thr s)) by (simpl; by rewrite map_fmap_id).
  eapply (inv_step impls contents bufs s s' t Run _ id); eauto using keeps_id.
  - exact (i_nodup _ _ _ s I).
  - exact (i_list _ _ _ s I).
  - intros q bq H. rewrite (waiters_same impls contents bufs s s' t Run (InQuiesce (bufqs s)) id) by auto using keeps_id.
    by apply (i_queues _ _ _ s I).
  - intros t2 p2 Hn H2. apply frame; unfold id; try done. rewrite (Ns t2 p2 H2). done.
  - split; [done|]. exists []. done.
  - intros b q. apply (i_bbq _ _ _ s I).
Qed.

Lemma walked_mem s r P q : inv s -> walked s r P -> q ∈ r -> is_Some (bqs s !! q).
Proof. intros I (_ & pre & E & _) H. apply (i_list _ _ _ s I). rewrite E. set_solver. Qed.

Lemma walked_snoc s q r : walked s (q :: r) True -> quiet s q -> walked s r True.
Proof.
  intros (B & pre & E & F) Q. split; [done|]. exists (pre ++ [q]). rewrite <-app_assoc. split; [done|].
  intros _. apply Forall_app. split; [by apply F|]. by apply Forall_singleton.
Qed.

Lemma quiesce_test_good s t q r : inv s -> thr s !! t = Some (QuiTest q r) -> good (quiesce_test s t q r).
Proof.
  intros I Hp. destruct (i_pcs _ _ _ s I t _ Hp) as [W St].
  assert (C := clear_at impls contents bufs s t _ I Hp).
  destruct (walked_mem s _ _ q I W) as [bq Hq]; [by left|]. unfold quiesce_test, on_bq. rewrite Hq. simpl.
  destruct (Z.eqb_spec (bufq_outstanding bq) 0) as [Z0|N0]; simpl;
    eapply (bq_inv_goto impls contents bufs s t (QuiTest q r)); eauto.
  - eapply walked_snoc; eauto. unfold stopped, quiet, at_bq in *. rewrite Hq in *. done.
  - split_and!; auto. unfold busy, at_bq. by rewrite Hq.
Qed.

(** Stopping a queue changes nothing that the other threads rely on. *)
Lemma stop_frame s s' p q bq : bqs s' = <[q := set_stop bq true]> (bqs s) -> bqs s !! q = Some bq ->
  bufqs s' = bufqs s -> bufqs_stop s' = bufqs_stop s -> b_bq s' = b_bq s -> pc_ok s p -> pc_ok s' p.
Proof.
  intros E Hq El Es Eb. eapply (frame_upd impls contents bufs s s' p q bq (set_stop bq true)); eauto; simpl; try done.
  - by rewrite Eb.
  - by rewrite Eb.
  - intros b _. rewrite Eb. split; [done|]. unfold BufqInv.queued. by rewrite E, lookup_insert_eq, Hq.
Qed.

Lemma quiesce_stop_good s t q r bq p' : inv s -> thr s !! t = Some (InQuiesce (q :: r)) -> bqs s !! q = Some bq ->
  let s' := goto (with_bq s q (set_stop bq true)) t p' in
  susp p' = true -> shrinks (InQuiesce (q :: r)) p' -> (forall q2, stops p' q2 <-> q2 ∉ r) ->
  (walked s' (q :: r) True -> stopped s' q -> pc_ok s' p') -> inv s'.
Proof.
  intros I Hp Hq s' Sp Sh Hst Ok. destruct (i_queues _ _ _ s I q bq Hq) as (O1 & O2 & O3 & O4 & O5).
  assert (W : walked s (q :: r) True) by exact (i_pcs _ _ _ s I t _ Hp).
  assert (Nq : q ∉ r).
  { destruct W as (_ & pre & E & _). assert (N := i_nodup _ _ _ s I). rewrite E in N.
    apply NoDup_app in N as (_ & _ & N). by apply NoDup_cons in N as [? _]. }
  assert (Ws : forall q2, waits q2 p' = false) by (by destruct p').
  eapply (inv_upd impls contents bufs s s' t _ p' id q bq (set_stop bq true)); eauto using keeps_id.
  - simpl. by rewrite map_fmap_id.
  - eapply clear_shrinks; eauto. by eapply clear_at.
  - intros b H. by apply (i_bbq _ _ _ s I b q).
  - rewrite (waiters_same impls contents bufs s s' t (InQuiesce (q :: r)) p' id);
      simpl; rewrite ?map_fmap_id; auto using keeps_id.
    split_and!; simpl; auto; lia.
  - intros t2 p2 Hn H2. by eapply stop_frame.
  - apply Ok.
    + assert (Ok2 : pc_ok s' (InQuiesce (q :: r))) by (eapply (stop_frame s s' (InQuiesce (q :: r)) q bq); done). exact Ok2.
    + unfold stopped, at_bq, s'. simpl. by rewrite lookup_insert_eq.
  - intros _. left. by apply Hst.
  - intros q2 Hn. simpl. rewrite Hst. set_solver.
Qed.

Lemma quiesce_next_good s t r : inv s -> thr s !! t = Some (InQuiesce r) -> good (quiesce_next s t r).
Proof.
  intros I Hp. assert (W : walked s r True) by exact (i_pcs _ _ _ s I t _ Hp).
  destruct r as [|q r]; simpl.
  { eapply (bq_inv_goto impls contents bufs s t (InQuiesce [])); eauto.
    - exact (clear_at impls contents bufs s t _ I Hp).
    - done. }
  destruct (walked_mem s _ _ q I W) as [bq Hq]; [by left|]. unfold on_bq. rewrite Hq.
  unfold quiesce_test, on_bq. simpl. rewrite lookup_insert_eq. simpl.
  destruct (Z.eqb_spec (bufq_outstanding bq) 0) as [Z0|N0]; simpl;
    eapply (quiesce_stop_good s t q r bq); eauto; try (by repeat split; simpl; auto).
  - intros W' _. eapply walked_snoc; eauto. unfold quiet, at_bq. simpl. by rewrite lookup_insert_eq.
  - intros W' S'. split_and!; auto. unfold busy, at_bq. simpl. by rewrite lookup_insert_eq.
Qed.

(** ** [bufq_restart] *)

Lemma start_restart_good s t : inv s -> thr s !! t = Some Quiesced -> inv (goto s t (InRestart (bufqs s))).
Proof.
  intros I Hp. destruct (i_pcs _ _ _ s I t _ Hp) as (B & _).
  eapply (bq_inv_goto impls contents bufs s t Quiesced); eauto.
  - exact (clear_at impls contents bufs s t _ I Hp).
  - split; [done|]. by exists [].
  - intros q Hs _. simpl. apply (i_list _ _ _ s I). unfold stopped, at_bq in Hs. by destruct (bqs s !! q).
Qed.

Lemma others_idle s t p t2 p2 : inv s -> thr s !! t = Some p -> susp p = true -> t2 <> t -> thr s !! t2 = Some p2 ->
  susp p2 = false.
Proof.
  intros I Hp Sp Hn H2. destruct (susp p2) eqn:S2; [|done]. by destruct (Hn (susp_unique s t p t2 p2 I Hp Sp H2 S2)).
Qed.

Lemma restart_end_good s t : inv s -> thr s !! t = Some (InRestart []) ->
  inv (goto (wakeup ChBufqs (with_stop s false)) t Run).
Proof.
  intros I Hp. set (s' := goto _ _ _).
  assert (K := keeps_wake impls contents bufs ChBufqs).
  eapply (inv_step impls contents bufs s s' t (InRestart []) Run (wake_pc ChBufqs)); eauto using clear_run.
  - exact (i_nodup _ _ _ s I).
  - exact (i_list _ _ _ s I).
  - intros q bq H. rewrite (waiters_same impls contents bufs s s' t (InRestart []) Run (wake_pc ChBufqs)) by done.
    by apply (i_queues _ _ _ s I).
  - intros t2 p2 Hn H2. assert (S2 := others_idle s t _ t2 p2 I Hp eq_refl Hn H2).
    destruct (K p2) as (_ & _ & _ & K4 & _). apply frame; try done; rewrite ?K4, ?S2; try done.
    destruct p2; simpl in *; try done.
  - done.
  - exact (i_bbq _ _ _ s I).
  - intros q Hs. right. split; [exact Hs|]. simpl. set_solver.
Qed.

Lemma restart_one_good s t q r bq : inv s -> thr s !! t = Some (InRestart (q :: r)) -> bqs s !! q = Some bq ->
  inv (goto (wakeup (ChStop q) (with_bq s q (set_stop bq false))) t (InRestart r)).
Proof.
  intros I Hp Hq. set (s' := goto _ _ _). assert (K := keeps_wake impls contents bufs (ChStop q)).
  destruct (i_queues _ _ _ s I q bq Hq) as (O1 & O2 & O3 & O4 & O5).
  destruct (i_pcs _ _ _ s I t _ Hp) as (B & pre & Eb & _).
  eapply (inv_upd impls contents bufs s s' t (InRestart (q :: r)) (InRestart r) (wake_pc (ChStop q)) q bq (set_stop bq false)); eauto.
  - exact (clear_at impls contents bufs s t _ I Hp).
  - intros b H. by apply (i_bbq _ _ _ s I b q).
  - rewrite (waiters_same impls contents bufs s s' t (InRestart (q :: r)) (InRestart r) (wake_pc (ChStop q))) by done.
    split_and!; simpl; auto; lia.
  - intros t2 p2 Hn H2. assert (S2 := others_idle s t _ t2 p2 I Hp eq_refl Hn H2).
    destruct (K p2) as (_ & _ & _ & K4 & _).
    eapply (frame_upd impls contents bufs s s' _ q bq (set_stop bq false)); eauto; try done.
    + rewrite K4, S2. intros [?|[b Hb]]; [done|]. destruct p2; simpl in Hb; try done.
      destruct (Nat.eqb_spec q q0); [done|congruence].
    + intros b _. split; [done|]. unfold s', BufqInv.queued. simpl. by rewrite lookup_insert_eq, Hq.
  - split; [done|]. exists (pre ++ [q]). rewrite <-app_assoc. split; [done|]. done.
  - done.
  - intros q2 Hn. simpl. set_solver.
Qed.

Lemma restart_next_good s t r : inv s -> thr s !! t = Some (InRestart r) -> good (restart_next s t r).
Proof.
  intros I Hp. destruct r as [|q r]; simpl; [by apply restart_end_good|].
  assert (W : walked s (q :: r) False) by exact (i_pcs _ _ _ s I t _ Hp).
  destruct (walked_mem s _ _ q I W) as [bq Hq]; [by left|]. unfold on_bq. rewrite Hq. by apply restart_one_good.
Qed.

(** ** [bufq_init] *)

Lemma bufq_marks_ok k : 1 <= (bufq_marks k).2 <= (bufq_marks k).1.
Proof.
  unfold bufq_marks, u32q, BUFQ_HI, BUFQ_LOW. case_match; simpl; [|lia].
  assert (M := Z.mod_pos_bound (Z.quot k 16) (2 ^ 32) ltac:(lia)).
  destruct (Z.ltb_spec ((Z.quot k 16) mod 2 ^ 32) 2); [done|].
  split; [apply Z.div_le_lower_bound; lia|]. apply Z.div_le_upper_bound; lia.
Qed.

Lemma bufq_new_ok type k mem bq : bufq_new impls type k mem = Some bq -> new_bq impls contents bq.
Proof.
  unfold bufq_new. case_match; [done|]. destruct (impl_at impls type) as [i|] eqn:Hi; [|done].
  destruct mem; [|done]. assert (M := bufq_marks_ok k). destruct (bufq_marks k) as [hi low]. simpl in M.
  intros [= <-]. assert (Di := impl_disc impls contents impls_ok type i Hi).
  assert (Cc := create_contents : contents (impl_create i) = []).
  split; [|split; [done|eauto]]. split_and!; simpl; eauto; try lia.
  intros d [= <-]. rewrite Cc. split; [constructor|]. intros b Hb. by apply not_elem_of_nil in Hb.
Qed.

Lemma no_susp s : inv s -> bufqs_stop s = false -> forall t p, thr s !! t = Some p -> needs_stop p = false.
Proof.
  intros I B t p Hp. assert (Ok := i_pcs _ _ _ s I t p Hp).
  destruct p; try done; exfalso; simpl in Ok; unfold walked in Ok; destruct_and?; congruence.
Qed.

Lemma susp_needs p : needs_stop p = false -> susp p = false.
Proof. by destruct p. Qed.

Lemma init_insert_good s t q bq : inv s -> thr s !! t = Some (InInit q bq) -> good (init_insert s t q bq).
Proof.
  intros I Hp. destruct (i_pcs _ _ _ s I t _ Hp) as [Hn Nb]. unfold init_insert.
  assert (C := clear_at impls contents bufs s t _ I Hp).
  destruct (bufqs_stop s) eqn:B; simpl.
  { eapply (bq_inv_goto impls contents bufs s t (InInit q bq)); eauto. by split_and!. }
  set (s' := goto _ _ _). assert (Nn := no_susp s I B). destruct Nb as (Ok & St & Hd).
  assert (Ek : thr s' = <[t := Run]> (id <$> thr s)) by (simpl; by rewrite map_fmap_id).
  assert (Nl : forall q2, is_Some (bqs s !! q2) -> bqs s' !! q2 = bqs s !! q2).
  { intros q2 [x Hx]. unfold s'. simpl. rewrite lookup_insert_ne; [done|congruence]. }
  assert (At : forall q2 P, at_bq s q2 P -> at_bq s' q2 P).
  { intros q2 P H. unfold at_bq in *. rewrite Nl; [done|]. by destruct (bqs s !! q2). }
  eapply (inv_step impls contents bufs s s' t (InInit q bq) Run id); eauto using clear_run, keeps_id.
  - apply NoDup_cons. split; [|by eapply i_nodup]. rewrite (i_list _ _ _ s I). rewrite Hn. by intros [].
  - intros q2. simpl. rewrite elem_of_cons, (i_list _ _ _ s I). destruct (decide (q2 = q)) as [->|?].
    + rewrite lookup_insert_eq. split; eauto.
    + rewrite lookup_insert_ne by congruence. naive_solver.
  - intros q2 bq2 H. rewrite (waiters_same impls contents bufs s s' t (InInit q bq) Run id) by auto using keeps_id.
    destruct (decide (q2 = q)) as [->|?].
    + simpl in H. rewrite lookup_insert_eq in H. injection H as <-.
      replace (holders s' q) with (∅ : gset nat). 2:{ apply set_eq. intros b. rewrite elem_holders. split; [set_solver|].
        intros H. destruct (i_bbq _ _ _ s I b q H) as [_ [? ?]]. congruence. }
      replace (waiters s q) with (∅ : gset nat); [done|]. apply set_eq. intros t2. rewrite elem_waiters.
      split; [set_solver|]. intros (p2 & H2 & W2). assert (O2 := i_pcs _ _ _ s I t2 p2 H2).
      destruct p2; try done; simpl in W2; apply Nat.eqb_eq in W2 as <-; simpl in O2; unfold live in O2;
        rewrite Hn in O2; tauto.
    + simpl in H. rewrite lookup_insert_ne in H by congruence. by apply (i_queues _ _ _ s I).
  - intros t2 p2 Hn2 H2. assert (N2 := Nn t2 p2 H2). unfold id. assert (S2 := susp_needs p2 N2).
    apply frame; rewrite ?N2, ?S2; try done.
    + intros q2 b _. apply At.
    + intros q2 _. apply At.
    + intros q2 Hx. assert (Nq : q2 <> q) by (intros ->; by destruct (clear_excl s t _ q t2 p2 C eq_refl Hn2 H2)).
      split; [|split; [apply At|split; [|done]]]. { unfold s'. simpl. by rewrite lookup_insert_ne by congruence. }
      intros b. unfold s', BufqInv.queued. simpl. by rewrite lookup_insert_ne by congruence.
    + intros b _. split; [done|]. intros q2. unfold s', BufqInv.queued. simpl.
      destruct (decide (q2 = q)) as [->|?]; [|by rewrite lookup_insert_ne by congruence].
      rewrite lookup_insert_eq. destruct Hd as (d & -> & ->). intros H. by apply not_elem_of_nil in H.
    + intros q2 _. apply At.
    + intros q2 r _. apply At.
  - done.
  - intros b q2 H. destruct (i_bbq _ _ _ s I b q2 H) as [? Hs]. split; [done|]. by rewrite Nl.
  - intros q2 Hs. unfold stopped, at_bq, s' in Hs. simpl in Hs. destruct (decide (q2 = q)) as [->|?].
    + rewrite lookup_insert_eq in Hs. congruence.
    + rewrite lookup_insert_ne in Hs by congruence. right. split; [done|]. intros [].
Qed.

(** ** The end of [bufq_destroy] *)

Lemma destroy_remove_good s t q : inv s -> thr s !! t = Some (InDestroy q) -> good (destroy_remove s t q).
Proof.
  intros I Hp. assert (Dd : dead s q) by exact (i_pcs _ _ _ s I t _ Hp). unfold destroy_remove.
  assert (C := clear_at impls contents bufs s t _ I Hp).
  destruct (bufqs_stop s) eqn:B; simpl.
  { eapply (bq_inv_goto impls contents bufs s t (InDestroy q)); eauto. by split_and!. }
  set (s' := goto _ _ _). assert (Nn := no_susp s I B).
  unfold dead, at_bq in Dd. destruct (bqs s !! q) as [bq|] eqn:Hq; [|done]. destruct Dd as [Hd Ho].
  assert (Nh : forall b, b_bq s !! b <> Some q).
  { intros b. apply holders_nil. destruct (i_queues _ _ _ s I q bq Hq) as (O1 & _). lia. }
  assert (Ek : thr s' = <[t := Run]> (id <$> thr s)) by (simpl; by rewrite map_fmap_id).
  assert (At : forall q2 P, q2 <> q -> at_bq s q2 P -> at_bq s' q2 P).
  { intros q2 P N H. unfold at_bq, s' in *. simpl. by rewrite lookup_delete_ne by congruence. }
  eapply (inv_step impls contents bufs s s' t (InDestroy q) Run id); eauto using clear_run, keeps_id.
  - apply NoDup_filter. by eapply i_nodup.
  - intros q2. unfold s'. simpl. rewrite list_elem_of_filter, (i_list _ _ _ s I). destruct (decide (q2 = q)) as [->|?].
    + rewrite lookup_delete_eq. split; [tauto|by intros []].
    + rewrite lookup_delete_ne by congruence. tauto.
  - intros q2 bq2 H. rewrite (waiters_same impls contents bufs s s' t (InDestroy q) Run id) by auto using keeps_id.
    unfold s' in H. simpl in H. apply lookup_delete_Some in H as [_ H]. by apply (i_queues _ _ _ s I).
  - intros t2 p2 Hn2 H2. assert (N2 := Nn t2 p2 H2). unfold id. assert (S2 := susp_needs p2 N2).
    assert (Np := clear_pq s t _ q t2 p2 C eq_refl Hn2 H2).
    assert (Nx := clear_excl s t _ q t2 p2 C eq_refl Hn2 H2).
    apply frame; rewrite ?N2, ?S2; try done.
    + intros q2 b ->. apply At. simpl in Np. congruence.
    + intros q2 Hx. apply At. congruence.
    + intros q2 Hx. assert (Nq : q2 <> q) by congruence.
      split; [|split; [by apply At|split; [|done]]]. { unfold s'. simpl. by rewrite lookup_delete_ne by congruence. }
      intros b. unfold s', BufqInv.queued. simpl. by rewrite lookup_delete_ne by congruence.
    + intros b _. split; [done|]. intros q2. unfold s', BufqInv.queued. simpl.
      destruct (decide (q2 = q)) as [->|?]; [|by rewrite lookup_delete_ne by congruence].
      rewrite lookup_delete_eq. intros H. by apply not_elem_of_nil in H.
    + intros q2 ->. apply At. simpl in Np. congruence.
    + intros q2 r ->. done.
  - done.
  - intros b q2 H. destruct (i_bbq _ _ _ s I b q2 H) as [? Hs]. split; [done|]. unfold s'. simpl.
    rewrite lookup_delete_ne; [done|]. intros ->. by apply Nh in H.
  - intros q2 Hs. right. split; [|intros []]. unfold stopped, at_bq, s' in *. simpl in Hs.
    destruct (decide (q2 = q)) as [->|?]; [by rewrite lookup_delete_eq in Hs|by rewrite lookup_delete_ne in Hs by congruence].
Qed.
End Waits.
