(* ===== verification/BufqSys.v ===== *)
(** * Disk request queues: the theorems

    The invariant over every interleaving of the calls; what a suspending
    thread finds when [bufq_quiesce] returns; why a thread sleeps and who wakes
    it; and runs of the first-in-first-out discipline that show the hypotheses
    hold. *)

From stdpp Require Import base numbers list option gmap fin_maps.
From Stdlib Require Import ZArith Lia Bool.
From S2P Require Import Prelude Bufq BufqInv BufqSteps BufqMoves.
Local Open Scope Z_scope.

Section System.
Context {D : Type} (impls : list (bufq_impl D)) (contents : D -> list nat) (bufs : gset nat) (fuel : nat).
Context (impls_ok : forall i, i ∈ impls -> Discipline contents i).
Context (bufs_small : Z.of_nat (size bufs) < 2 ^ 32) (fuel_ok : (size bufs <= fuel)%nat).
Implicit Types (s : bst (D:=D)) (p : pc (D:=D)) (bq : bufq (D:=D)).
Notation inv := (inv impls contents bufs).
Notation good := (good impls contents bufs).
Notation guard := (guard impls contents bufs).
Notation breach := (breach impls contents bufs fuel).
Notation bstep := (bstep impls contents bufs fuel).

(** A call that only moves the thread into a routine. *)
Lemma enter_good s t p' : inv s -> thr s !! t = Some Run -> fresh s t p' -> (forall q, waits q p' = false) ->
  pc_ok impls contents bufs s p' -> good (Goes (goto s t p')).
Proof.
  intros I Hp F W Ok. eapply (bq_inv_goto impls contents bufs s t Run); eauto using clear_fresh; done.
Qed.

(** [bufq_init] panics: its type is unknown or there is no memory. *)
Definition init_panics (c : call) : Prop :=
  match c with
  | CInit q type kvaslots mem => BUFQ_HOWMANY < type \/ impl_at impls type = None \/ mem = false
  | _ => False
  end.

Lemma bufq_new_None q type kvaslots mem :
  bufq_new impls type kvaslots mem = None -> init_panics (CInit q type kvaslots mem).
Proof.
  unfold bufq_new. simpl. destruct (Z.ltb_spec BUFQ_HOWMANY type); [by left|].
  destruct (impl_at impls type); [|by right; left]. destruct mem; [|by right; right].
  by destruct (bufq_marks kvaslots).
Qed.

Lemma start_good s t c : inv s -> guard s t c ->
  good (start impls s t c) \/ start impls s t c = Faults /\ init_panics c.
Proof.
  intros I. destruct c; simpl; intros G; pose proof G as G'; destruct_and? G'.
  8: { destruct (bufq_new impls type kvaslots mem) as [bq|] eqn:E;
         [left|right; split; [done|by apply (bufq_new_None q) in E]].
       apply enter_good; try done. split; [done|]. by eapply bufq_new_ok. }
  all: left.
  - by apply enter_good.
  - by eapply start_dequeue_good.
  - by eapply start_requeue_good.
  - by eapply start_done_good.
  - by apply enter_good.
  - by apply quiesce_start_good.
  - by apply start_restart_good.
  - apply enter_good; try done. split; [done|]. intros _ b Hb _. destruct G as (_ & _ & _ & F). by eapply (F b).
  - apply enter_good; try done.
  - by eapply start_switch_good.
Qed.

Lemma continue_good s t : inv s -> good (continue impls fuel s t).
Proof.
  intros I. unfold continue. destruct (thr s !! t) as [[]|] eqn:Hp; try done.
  - by apply bufq_queue_good.
  - by apply bufq_wait_good.
  - by apply wait_woken_good.
  - by apply quiesce_next_good.
  - by apply quiesce_test_good.
  - by apply restart_next_good.
  - by apply init_insert_good.
  - by apply drain_next_good.
  - by apply drain_done_good.
  - by apply destroy_remove_good.
  - by apply switch_swap_good.
Qed.

Lemma bstep_good s s' : inv s -> bstep s (Goes s') -> inv s'.
Proof.
  intros I St. inversion St as [s0 t c G E0 E|s0 t E0 E]; subst s0.
  - destruct (start_good s t c I G) as [H|[H _]]; by rewrite E in H.
  - pose proof (continue_good s t I) as H. by rewrite E in H.
Qed.

Lemma bstart_inv s : bstart s -> inv s.
Proof.
  intros (E1 & E2 & E3 & E4 & F). split.
  - intros q bq. by rewrite E1, lookup_empty.
  - intros t p H. by rewrite (F t p H).
  - intros t t' p p' _ H H'. by rewrite (F t p H), (F t' p' H').
  - rewrite E2. constructor.
  - intros q. rewrite E1, E2, lookup_empty. split; [intros H; by apply not_elem_of_nil in H|by intros []].
  - intros b q. by rewrite E4, lookup_empty.
  - intros q. unfold stopped, at_bq. by rewrite E1, lookup_empty.
  - congruence.
Qed.

Lemma breach_inv s : breach s -> inv s.
Proof. induction 1 as [s H|s s' H IH St]; [by apply bstart_inv|by apply bstep_good in St]. Qed.

Lemma outstanding_holder s q bq : inv s -> bqs s !! q = Some bq -> bufq_outstanding bq <> 0 -> exists b, b_bq s !! b = Some q.
Proof.
  intros I Hq N. destruct (i_queues _ _ _ s I q bq Hq) as (O & _). destruct (set_choose_or_empty (holders s q)) as [[b Hb]|E].
  - exists b. by apply elem_holders.
  - apply leibniz_equiv in E. rewrite E, size_empty in O. lia.
Qed.

(** C17: In every state that the calls of well-behaved drivers reach, in any
    interleaving, with any disciplines that keep a list of requests: the
    invariant holds (among others:
    [bufq_outstanding] is the number of requests with this [b_bq], which
    includes the queued ones; [bufq_waiting] is the number of threads in
    [bufq_wait]; [bufqs] is the list of the queues), and no step panics,
    asserts or uses freed data, except that [bufq_init] panics when its type is
    unknown or [impl_create] gets no memory - and then the system stops.
    Well-behaved: a driver uses queues that exist, queues a request it owns and
    that is on no queue, completes or requeues only requests in flight, has
    none in flight when it destroys a queue, switches to a known discipline,
    and only the thread that quiesced restarts.  There are fewer than 2^32
    requests. *)
Theorem bufq_invariant s : breach s ->
  inv s /\ (forall t c, guard s t c -> start impls s t c = Faults -> init_panics c) /\
  forall t, continue impls fuel s t <> Faults.
Proof.
  intros R. assert (I := breach_inv s R). split_and!; [done| |].
  - intros t c G E. destruct (start_good s t c I G) as [H|[_ H]]; [by rewrite E in H|done].
  - intros t E. pose proof (continue_good s t I) as H. by rewrite E in H.
Qed.

(** C19: When [bufq_quiesce] has returned, and until [bufq_restart] is called,
    every queue on the list is stopped, holds no request, and no request of
    it is in flight; no queue is being added or removed. *)
Theorem bufq_quiesced_correct s t : breach s -> thr s !! t = Some Quiesced ->
  bufqs_stop s = true /\ b_bq s = ∅
  /\ forall q, q ∈ bufqs s -> exists bq, bqs s !! q = Some bq /\ bufq_stop bq = true /\ bufq_outstanding bq = 0 /\ queued contents s q = [].
Proof.
  intros R Hp. assert (I := breach_inv s R). destruct (i_pcs _ _ _ s I t _ Hp) as (B & pre & E & Q).
  rewrite app_nil_r in E. subst pre. specialize (Q Logic.I). rewrite Forall_forall in Q.
  assert (Hq : forall q, q ∈ bufqs s -> exists bq, bqs s !! q = Some bq /\ bufq_stop bq = true /\ bufq_outstanding bq = 0).
  { intros q H. specialize (Q q H). unfold quiet, at_bq in Q. destruct (bqs s !! q) as [bq|]; [eauto|done]. }
  assert (Hb : forall b q, b_bq s !! b <> Some q).
  { intros b q H. destruct (i_bbq _ _ _ s I b q H) as [_ Hs]. apply (i_list _ _ _ s I) in Hs.
    destruct (Hq q Hs) as (bq & H1 & _ & H2). destruct (i_queues _ _ _ s I q bq H1) as (O & _).
    apply (holders_nil s q b); [lia|done]. }
  split_and!; [done| |].
  - apply map_empty. intros b. destruct (b_bq s !! b) as [q|] eqn:H; [by apply Hb in H|done].
  - intros q H. destruct (Hq q H) as (bq & H1 & H2 & H3). exists bq. split_and!; auto.
    destruct (queued contents s q) as [|b l] eqn:El; [done|]. exfalso. apply (Hb b q), (queued_holder impls contents bufs); [done|].
    rewrite El. by left.
Qed.

(** What a thread waits for: a thread that will wake it, or a request in
    flight or queued whose completion will. *)
Definition awaited s p : Prop :=
  match p with
  | StopSleep q _ => stopped s q /\ exists t' p', thr s !! t' = Some p' /\ stops p' q
  | WaitSleep q => loaded s q /\ exists b, b_bq s !! b = Some q
  | QuiSleep q _ => busy s q /\ exists b, b_bq s !! b = Some q
  | InitSleep _ _ | DestroySleep _ => bufqs_stop s = true /\ exists t' p', thr s !! t' = Some p' /\ susp p' = true
  | _ => True
  end.

Lemma sleep_awaited s t p : inv s -> thr s !! t = Some p -> awaited s p.
Proof.
  intros I Hp. assert (Ok := i_pcs _ _ _ s I t p Hp). destruct p; simpl in *; try done; destruct_and?;
    (split; [done|]); try (by apply (i_stop _ _ _ s I)); try (by apply (i_bstop _ _ _ s I)).
  - unfold loaded, at_bq in *. destruct (bqs s !! q) as [bq|] eqn:Hq; [|done].
    destruct (i_queues _ _ _ s I q bq Hq) as (_ & O & _). eapply outstanding_holder; eauto. lia.
  - unfold busy, at_bq in *. destruct (bqs s !! q) as [bq|] eqn:Hq; [|done]. eapply outstanding_holder; eauto.
Qed.

(** [biodone] on the threads. *)
Lemma biodone_wakes s b q bq s' t p : inv s -> b_bq s !! b = Some q -> bqs s !! q = Some bq ->
  biodone s b = Goes s' -> thr s !! t = Some p -> thr s' !! t = Some (done_wakes q bq p).
Proof.
  intros I Hb Hq E Hp. destruct (biodone_eq impls contents bufs bufs_small s b q I Hb) as (bq2 & Hq2 & E2).
  rewrite Hq in Hq2. injection Hq2 as <-. rewrite E in E2. injection E2 as ->. simpl. by rewrite lookup_fmap, Hp.
Qed.

(** C18: No wakeup is lost.  In a reachable state a sleeping thread waits for
    something that is still to come: one in [bufq_queue] for a suspending
    thread, one in [bufq_init] or [bufq_destroy] too, one in [bufq_wait] for
    completions with at least [bufq_low] requests outstanding, the one in
    [bufq_quiesce] for a request of the queue it has stopped.  And the
    completion that brings the count to 0, or below [bufq_low], wakes them. *)
Theorem bufq_no_lost_wakeup s : breach s ->
  (forall t p, thr s !! t = Some p -> awaited s p)
  /\ forall b q bq s', b_bq s !! b = Some q -> bqs s !! q = Some bq -> biodone s b = Goes s' ->
     (forall t r, thr s !! t = Some (QuiSleep q r) -> bufq_outstanding bq = 1 -> thr s' !! t = Some (QuiTest q r))
     /\ forall t, thr s !! t = Some (WaitSleep q) -> bufq_outstanding bq <= bufq_low bq -> thr s' !! t = Some (WaitWoken q).
Proof.
  intros R. assert (I := breach_inv s R). split; [by intros t p; apply sleep_awaited|].
  intros b q bq s' Hb Hq E. split.
  - intros t r Hp H1. rewrite (biodone_wakes s b q bq s' t _ I Hb Hq E Hp).
    destruct (i_pcs _ _ _ s I t _ Hp) as (_ & St & _). unfold stopped, at_bq in St. rewrite Hq in St.
    unfold done_wakes. rewrite St, H1. simpl. rewrite Nat.eqb_refl. by case_match.
  - intros t Hp H1. rewrite (biodone_wakes s b q bq s' t _ I Hb Hq E Hp).
    destruct (i_queues _ _ _ s I q bq Hq) as (_ & _ & Hw & _).
    assert (Ht : t ∈ waiters s q) by (apply elem_waiters; exists (WaitSleep q); split; [done|]; apply Nat.eqb_refl).
    assert (Nz : bufq_waiting bq <> 0).
    { rewrite Hw. destruct (size (waiters s q)) eqn:E0; [|lia]. apply size_empty_inv in E0. set_solver. }
    unfold done_wakes. rewrite (proj2 (Z.eqb_neq _ _)) by done. rewrite (proj2 (Z.ltb_lt _ _)) by lia. simpl.
    destruct (bufq_stop bq && _); simpl; by rewrite Nat.eqb_refl.
Qed.

(** ** Runs *)

#[global] Instance at_run_dec (o : option (pc (D:=D))) : Decision (o = Some Run).
Proof. destruct o as [[]|]; solve [by left | right; congruence]. Defined.
#[global] Instance is_run_dec p : Decision (p = Run).
Proof. destruct p; solve [by left | right; congruence]. Defined.
#[global] Instance at_quiesced_dec (o : option (pc (D:=D))) : Decision (o = Some Quiesced).
Proof. destruct o as [[]|]; solve [by left | right; congruence]. Defined.
#[global] Instance no_bq_dec (o : option (bufq (D:=D))) : Decision (o = None).
Proof. destruct o; solve [by left | right; congruence]. Defined.

#[global] Instance guard_dec s t c : Decision (guard s t c).
Proof.
  destruct c; simpl; repeat apply and_dec; try apply _.
  - destruct (b_bq s !! b); apply _.
  - destruct (bufq_new impls type kvaslots mem); apply _.
Defined.

(** Each entry a thread and the call it starts, or [None] to let it go on. *)
Fixpoint run_calls s (l : list (nat * option call)) : option (bst (D:=D)) :=
  match l with
  | [] => Some s
  | (t, o) :: l =>
      match (match o with Some c => if decide (guard s t c) then start impls s t c else Stuck | None => continue impls fuel s t end) with
      | Goes s' => run_calls s' l
      | _ => None
      end
  end.

Lemma run_calls_breach l : forall s s', breach s -> run_calls s l = Some s' -> breach s'.
Proof.
  induction l as [|[t o] l IH]; intros s s' R; simpl; [by intros [= <-]|]. destruct o as [c|].
  - case_decide as G; [|done]. destruct (start impls s t c) as [| |s1] eqn:E; try done.
    apply IH. eapply breach_step; [done|]. rewrite <-E. by constructor.
  - destruct (continue impls fuel s t) as [| |s1] eqn:E; try done.
    apply IH. eapply breach_step; [done|]. rewrite <-E. by constructor.
Qed.
End System.

(** ** The first-in-first-out discipline *)

Lemma fifo_impls_ok : forall i, i ∈ bufq_impls -> Discipline id i.
Proof. intros i. unfold bufq_impls. rewrite list_elem_of_singleton. intros ->. apply _. Qed.

Definition demo_bufs : gset nat := {[10; 11; 12]}%nat.
Definition demo_fuel : nat := 3.
Definition demo_start : bst (D := list nat) :=
  Bst ∅ [] false ∅ {[1 := Run; 2 := Run; 3 := Run; 4 := Run]}%nat.

Lemma bufq_demo_start_ok : bstart demo_start.
Proof. repeat split. apply (bool_decide_unpack _). vm_compute. exact I. Qed.

Notation demo_run := (run_calls bufq_impls id demo_bufs demo_fuel demo_start).

Lemma demo_reach l s : demo_run l = Some s -> breach bufq_impls id demo_bufs demo_fuel s.
Proof. intros H. eapply run_calls_breach; [|exact H]. by constructor; apply bufq_demo_start_ok. Qed.

(** A queue with two requests, a writer that waits, a suspending thread that
    waits, and a request held back. *)
Definition demo_calls : list (nat * option call) :=
  [(1, Some (CInit 0 0 32 true)); (1, None); (2, Some (CQueue 0 10)); (2, None); (2, Some (CQueue 0 11)); (2, None);
   (1, Some (CWait 0)); (1, None); (3, Some CQuiesce); (3, None); (4, Some (CQueue 0 12)); (4, None)]%nat.
(** The requests complete, and the thread goes on. *)
Definition demo_more : list (nat * option call) :=
  [(2, Some (CDequeue 0)); (2, Some (CDone 10)); (2, Some (CDequeue 0)); (2, Some (CDone 11)); (3, None); (3, None)]%nat.

Definition demo_sleeping : bst (D := list nat) := default demo_start (demo_run demo_calls).
Definition demo_quiesced : bst (D := list nat) := default demo_start (demo_run (demo_calls ++ demo_more)).

Example demo_sleepers : thr demo_sleeping = {[1 := WaitSleep 0; 2 := Run; 3 := QuiSleep 0 []; 4 := StopSleep 0 12]}%nat.
Proof. vm_compute. reflexivity. Qed.

(** After a restart the request that was held back is queued. *)
Example demo_resumes : match demo_run (demo_calls ++ demo_more ++ [(3, Some CRestart); (3, None); (3, None); (4, None); (1, None)])%nat with
  | Some s => (queued id s 0, thr s) = ([12], {[1 := Run; 2 := Run; 3 := Run; 4 := Run]})%nat
  | None => False
  end.
Proof. vm_compute. reflexivity. Qed.

Lemma bufq_invariant_witness :
  inv bufq_impls id demo_bufs demo_sleeping /\
  (forall t c, guard bufq_impls id demo_bufs demo_sleeping t c ->
     start bufq_impls demo_sleeping t c = Faults -> init_panics bufq_impls c) /\
  forall t, continue bufq_impls demo_fuel demo_sleeping t <> Faults.
Proof.
  apply bufq_invariant.
  - exact fifo_impls_ok.
  - vm_compute. reflexivity.
  - unfold demo_fuel. apply Nat.leb_le. vm_compute. reflexivity.
  - apply (demo_reach demo_calls). vm_compute. reflexivity.
Defined.

Lemma bufq_quiesced_correct_witness : bufqs_stop demo_quiesced = true /\ b_bq demo_quiesced = ∅
  /\ forall q, q ∈ bufqs demo_quiesced -> exists bq, bqs demo_quiesced !! q = Some bq /\ bufq_stop bq = true
       /\ bufq_outstanding bq = 0 /\ queued id demo_quiesced q = [].
Proof.
  apply (bufq_quiesced_correct bufq_impls id demo_bufs demo_fuel fifo_impls_ok) with (t := 3%nat).
  - vm_compute. reflexivity.
  - unfold demo_fuel. apply Nat.leb_le. vm_compute. reflexivity.
  - apply (demo_reach (demo_calls ++ demo_more)). vm_compute. reflexivity.
  - vm_compute. reflexivity.
Defined.

Lemma bufq_no_lost_wakeup_witness :
  (forall t p, thr demo_sleeping !! t = Some p -> awaited demo_sleeping p)
  /\ forall b q bq s', b_bq demo_sleeping !! b = Some q -> bqs demo_sleeping !! q = Some bq -> biodone demo_sleeping b = Goes s' ->
     (forall t r, thr demo_sleeping !! t = Some (QuiSleep q r) -> bufq_outstanding bq = 1 -> thr s' !! t = Some (QuiTest q r))
     /\ forall t, thr demo_sleeping !! t = Some (WaitSleep q) -> bufq_outstanding bq <= bufq_low bq -> thr s' !! t = Some (WaitWoken q).
Proof.
  apply (bufq_no_lost_wakeup bufq_impls id demo_bufs demo_fuel fifo_impls_ok).
  - vm_compute. reflexivity.
  - unfold demo_fuel. apply Nat.leb_le. vm_compute. reflexivity.
  - apply (demo_reach demo_calls). vm_compute. reflexivity.
Defined.

(** [bufq_init] lets the first type that is not in the table pass its test. *)
Lemma bufq_init_type_test : (BUFQ_HOWMANY <? BUFQ_HOWMANY) = false /\ impl_at bufq_impls BUFQ_HOWMANY = None.
Proof. split; reflexivity. Qed.
