(* ===== verification/Pipe.v ===== *)
(** * Pipes (sys/kern/sys_pipe.c, sys/sys/pipe.h)

    A pipe is a ring buffer with a lock bit, flags that say who waits, and a
    count of the calls at work on it; two of them, linked as peers, make the
    two directions.  All sleeps on a pipe use its address as the channel, so
    every wake-up reaches every sleeper.

    The kernel lock is given up only where a thread can sleep: in [tsleep], in
    [uiomove] (a page fault of the user's buffer) and in [km_alloc].  A call is
    cut there.  A section is a function on the pipe it works on ([ps]: the
    pipe, whether it called [wakeup], the counters of the module, and what it
    let the outside see); [psys] has the pipes and threads and [step_thread]
    runs a section. *)

From stdpp Require Import base numbers list option gmap.
From Stdlib Require Import ZArith Lia Bool.
From S2P Require Import Prelude.
Local Open Scope Z_scope.

(** ** Constants *)

Definition PIPE_SIZE : Z := 16384.
Definition BIG_PIPE_SIZE : Z := 65536.
Definition PIPE_BUF : Z := 512.
Definition MINPIPESIZE : Z := PIPE_SIZE / 3.
Definition LIMITBIGPIPES : Z := 32.

Definition PIPE_ASYNC : Z := 2 ^ 2.
Definition PIPE_WANTR : Z := 2 ^ 3.
Definition PIPE_WANTW : Z := 2 ^ 4.
Definition PIPE_WANT : Z := 2 ^ 5.
Definition PIPE_SEL : Z := 2 ^ 6.
Definition PIPE_EOF : Z := 2 ^ 7.
Definition PIPE_LOCK : Z := 2 ^ 8.
Definition PIPE_LWANT : Z := 2 ^ 9.

Definition EPIPE : Z := 32.
Definition NO_PID : Z := 32767.
Definition ENOTTY : Z := 25.

(** ** Data *)

Record pipebuf := Pipebuf { cnt : Z; b_in : Z; b_out : Z; b_size : Z; buffer : list Z }.

(** [pipe_freed] says that [pipe_buffer.buffer] is NULL.  The time stamps are
    left out. *)
Record pipe := Pipe { pipe_buffer : pipebuf; pipe_freed : bool; pipe_state : Z; pipe_busy : Z;
  pipe_peer : option nat; pipe_pgid : Z }.

Definition set_buf (P : pipe) (b : pipebuf) : pipe :=
  Pipe b (pipe_freed P) (pipe_state P) (pipe_busy P) (pipe_peer P) (pipe_pgid P).
Definition set_state (P : pipe) (f : Z) : pipe :=
  Pipe (pipe_buffer P) (pipe_freed P) f (pipe_busy P) (pipe_peer P) (pipe_pgid P).
Definition set_busy (P : pipe) (n : Z) : pipe :=
  Pipe (pipe_buffer P) (pipe_freed P) (pipe_state P) n (pipe_peer P) (pipe_pgid P).
Definition set_peer (P : pipe) (o : option nat) : pipe :=
  Pipe (pipe_buffer P) (pipe_freed P) (pipe_state P) (pipe_busy P) o (pipe_pgid P).
Definition set_pgid (P : pipe) (g : Z) : pipe :=
  Pipe (pipe_buffer P) (pipe_freed P) (pipe_state P) (pipe_busy P) (pipe_peer P) g.

(** What the outside sees: bytes taken from and put into the buffer, bytes
    thrown away by a change of the buffer, selecting processes or knotes told,
    the signal. *)
Inductive pevent := ERead (bs : list Z) | EWrote (bs : list Z) (orig_resid : Z) | ELost (bs : list Z)
  | ESelwakeup | EKnote | ESigio (pgid : Z).

(** [nbigpipe] and [amountpipekva] *)
Record pglob := Pglob { nbigpipe : Z; amountpipekva : Z }.

Record ps := PS { ps_p : pipe; ps_wake : bool; ps_g : pglob; ps_log : list pevent }.

Definition on_p (x : ps) (f : pipe -> pipe) : ps := PS (f (ps_p x)) (ps_wake x) (ps_g x) (ps_log x).
Definition logs (x : ps) (e : pevent) : ps := PS (ps_p x) (ps_wake x) (ps_g x) (ps_log x ++ [e]).
Definition wakes (x : ps) : ps := PS (ps_p x) true (ps_g x) (ps_log x).
Definition with_g (x : ps) (g : pglob) : ps := PS (ps_p x) (ps_wake x) g (ps_log x).
Definition setf (x : ps) (m : Z) : ps := on_p x (fun P => set_state P (set_flag (pipe_state P) m)).
Definition clrf (x : ps) (m : Z) : ps := on_p x (fun P => set_state P (clr_flag (pipe_state P) m)).
Definition hasf (x : ps) (m : Z) : bool := has (pipe_state (ps_p x)) m.
Definition buf (x : ps) : pipebuf := pipe_buffer (ps_p x).
Definition busy (x : ps) : Z := pipe_busy (ps_p x).

(** [if (state & m) { state &= ~m; wakeup(pipe); }] *)
Definition clr_wake (x : ps) (m : Z) : ps := if hasf x m then wakes (clrf x m) else x.

(** ** Requests *)

(** A read: what is left to read, what has been read, [FNONBLOCK]. *)
Record rio := Rio { r_resid : Z; r_nread : Z; r_nb : bool }.
(** A write: the bytes left to write, [orig_resid] (an [int]), [FNONBLOCK]. *)
Record wio := Wio { w_src : list Z; w_orig : Z; w_nb : bool }.
Definition w_resid (w : wio) : Z := Z.of_nat (length (w_src w)).

(** Where a call is: in [pipelock] for a read, the first time or after a
    sleep; in the [uiomove] of a read; asleep for data; in [pipelock] to
    resize; in [km_alloc]; in [pipelock] to write, with the space it computed;
    in the first [uiomove] of a write, in the second, with the bytes the first
    has moved; asleep for space; in [pipeclose]. *)
Inductive lpc :=
  | RdLock (again : bool) (r : rio) | RdMove (r : rio) (size : Z) | RdSleep (r : rio)
  | WzLock (w : wio) | WzAlloc (w : wio)
  | WrLock (w : wio) (space : Z) | WrMove (w : wio) (size segsize : Z)
  | WrMove2 (w : wio) (size segsize : Z) (moved : list Z) | WrSleep (w : wio)
  | ClSleep.

Inductive next := Sleeps (l : lpc) | Moves (l : lpc) | Returns (error : Z) | Panics.

(** ** The lock and notification *)

Definition pipeunlock (x : ps) : ps := clr_wake (clrf x PIPE_LOCK) PIPE_LWANT.

(** [pipelock]: [K] with the lock, or asleep at [l]. *)
Definition pipelock (x : ps) (l : lpc) (K : ps -> ps * next) : ps * next :=
  if hasf x PIPE_LOCK then (setf x PIPE_LWANT, Sleeps l) else K (setf x PIPE_LOCK).

Definition pipeselwakeup (x : ps) : ps :=
  let x := if hasf x PIPE_SEL then logs (clrf x PIPE_SEL) ESelwakeup else logs x EKnote in
  if hasf x PIPE_ASYNC && negb (pipe_pgid (ps_p x) =? NO_PID) then logs x (ESigio (pipe_pgid (ps_p x))) else x.

(** ** Buffers *)

(** [n] bytes of the buffer from [from] on. *)
Definition mem_read (b : pipebuf) (from n : Z) : list Z := take (Z.to_nat n) (drop (Z.to_nat from) (buffer b)).
Definition mem_write (b : pipebuf) (from : Z) (bs : list Z) : pipebuf :=
  Pipebuf (cnt b) (b_in b) (b_out b) (b_size b)
    (take (Z.to_nat from) (buffer b) ++ bs ++ drop (Z.to_nat from + length bs) (buffer b)).

(** The bytes in the pipe. *)
Definition contents (b : pipebuf) : list Z :=
  take (Z.to_nat (cnt b)) (drop (Z.to_nat (b_out b)) (buffer b ++ buffer b)).

(** [pipe_free_kmem] *)
Definition pipe_free_kmem (P : pipe) (g : pglob) : pipe * pglob :=
  if pipe_freed P then (P, g)
  else
    let big := if PIPE_SIZE <? b_size (pipe_buffer P) then nbigpipe g - 1 else nbigpipe g in
    (Pipe (pipe_buffer P) true (pipe_state P) (pipe_busy P) (pipe_peer P) (pipe_pgid P),
     Pglob big (amountpipekva g - b_size (pipe_buffer P))).

(** [pipespace] with the block that [km_alloc] gave. *)
Definition pipespace (x : ps) (size : Z) (block : option (list Z)) : ps * Z :=
  match block with
  | None => (x, ENOMEM)
  | Some m =>
      let x := if pipe_freed (ps_p x) || (cnt (buf x) =? 0) then x else logs x (ELost (contents (buf x))) in
      let '(P, g) := pipe_free_kmem (ps_p x) (ps_g x) in
      let P := Pipe (Pipebuf 0 0 0 size m) false (pipe_state P) (pipe_busy P) (pipe_peer P) (pipe_pgid P) in
      (with_g (on_p x (fun _ => P)) (Pglob (nbigpipe g) (amountpipekva g + size)), 0)
  end.

(** [pipe_create] on an item of [pipe_pool]. *)
Definition pipe_create (g : pglob) (block : option (list Z)) : ps * Z :=
  pipespace (PS (Pipe (Pipebuf 0 0 0 0 []) true 0 0 None NO_PID) false g []) PIPE_SIZE block.

(** ** [pipe_read] *)

(** From [unlocked_error] on. *)
Definition rd_unlocked (x : ps) (error : Z) : ps * next :=
  let x := on_p x (fun P => set_busy P (pipe_busy P - 1)) in
  let x :=
    if (busy x =? 0) && hasf x PIPE_WANT then wakes (clrf x (Z.lor PIPE_WANT PIPE_WANTW))
    else if cnt (buf x) <? MINPIPESIZE then clr_wake x PIPE_WANTW
    else x in
  let x := if PIPE_BUF <=? b_size (buf x) - cnt (buf x) then pipeselwakeup x else x in
  (x, Returns error).

(** The loop, with the lock held. *)
Definition rd_loop (x : ps) (r : rio) : ps * next :=
  if r_resid r =? 0 then rd_unlocked (pipeunlock x) 0
  else if 0 <? cnt (buf x) then
    let size := b_size (buf x) - b_out (buf x) in
    let size := if cnt (buf x) <? size then cnt (buf x) else size in
    let size := if r_resid r <? size then r_resid r else size in
    (x, Moves (RdMove r size))
  else if hasf x PIPE_EOF then rd_unlocked (pipeunlock x) 0
  else
    let x := clr_wake x PIPE_WANTW in
    if 0 <? r_nread r then rd_unlocked (pipeunlock x) 0
    else
      let x := pipeunlock x in
      if r_nb r then rd_unlocked x EAGAIN
      else (setf x PIPE_WANTR, Sleeps (RdSleep r)).

(** After the [uiomove] of [size] bytes. *)
Definition rd_moved (x : ps) (r : rio) (size : Z) : ps * next :=
  let b := buf x in
  let x := logs x (ERead (mem_read b (b_out b) size)) in
  let out := if b_size b <=? b_out b + size then 0 else b_out b + size in
  let c := cnt b - size in
  let b := if c =? 0 then Pipebuf c 0 0 (b_size b) (buffer b) else Pipebuf c (b_in b) out (b_size b) (buffer b) in
  rd_loop (on_p x (fun P => set_buf P b)) (Rio (r_resid r - size) (sint 32 (r_nread r + size)) (r_nb r)).

Definition rd_start (x : ps) (r : rio) : ps * next :=
  pipelock x (RdLock false r) (fun x => rd_loop (on_p x (fun P => set_busy P (pipe_busy P + 1))) r).
Definition rd_relock (x : ps) (r : rio) : ps * next := pipelock x (RdLock true r) (fun x => rd_loop x r).

(** ** [pipe_write] *)

(** After the loop. *)
Definition wr_finish (x : ps) (w : wio) (error : Z) : ps * next :=
  let x := on_p x (fun P => set_busy P (pipe_busy P - 1)) in
  let x :=
    if (busy x =? 0) && hasf x PIPE_WANT then wakes (clrf x (Z.lor PIPE_WANT PIPE_WANTR))
    else if 0 <? cnt (buf x) then clr_wake x PIPE_WANTR
    else x in
  let error := if (cnt (buf x) =? 0) && (w_resid w =? 0) && (error =? EPIPE) then 0 else error in
  let x := if negb (cnt (buf x) =? 0) then pipeselwakeup x else x in
  (x, Returns error).

(** The room for a write; 0 when one of at most [PIPE_BUF] does not fit. *)
Definition wr_space (x : ps) (w : wio) : Z :=
  let space := b_size (buf x) - cnt (buf x) in
  if (space <? w_resid w) && (w_orig w <=? PIPE_BUF) then 0 else space.

(** With the lock: [retry] when the space has gone meanwhile. *)
Definition wr_locked (retry : ps -> wio -> ps * next) (x : ps) (w : wio) (space : Z) : ps * next :=
  if b_size (buf x) - cnt (buf x) <? space then retry (pipeunlock x) w
  else
    let size := if w_resid w <? space then w_resid w else space in
    let segsize := b_size (buf x) - b_in (buf x) in
    let segsize := if size <? segsize then size else segsize in
    (x, Moves (WrMove w size segsize)).

(** From [retrywrite] on; after a retry nothing sleeps before the lock is
    taken, so that the space is right then. *)
Fixpoint wr_retry (fuel : nat) (x : ps) (w : wio) : ps * next :=
  if hasf x PIPE_EOF then wr_finish x w EPIPE
  else
    let space := wr_space x w in
    if 0 <? space then
      match fuel with
      | O => (x, Panics)
      | S fuel => pipelock x (WrLock w space) (fun x => wr_locked (wr_retry fuel) x w space)
      end
    else
      let x := clr_wake x PIPE_WANTR in
      if w_nb w then wr_finish x w EAGAIN
      else (setf (pipeselwakeup x) PIPE_WANTW, Sleeps (WrSleep w)).

Definition wr_loop (x : ps) (w : wio) : ps * next :=
  if w_resid w =? 0 then wr_finish x w 0 else wr_retry 2 x w.

(** [pipelock] again, after its sleep. *)
Definition wr_relock (x : ps) (w : wio) (space : Z) : ps * next :=
  pipelock x (WrLock w space) (fun x => wr_locked (wr_retry 2) x w space).

(** Both segments have been moved: [bs] are the bytes. *)
Definition wr_commit (x : ps) (w : wio) (size segsize : Z) (bs : list Z) : ps * next :=
  let b := buf x in
  let i := b_in b + size in
  if (b_size b <=? i) && negb (i =? size - segsize + b_size b) then (x, Panics)
  else
    let i := if b_size b <=? i then size - segsize else i in
    let c := cnt b + size in
    if b_size b <? c then (x, Panics)
    else
      let x := on_p x (fun P => set_buf P (Pipebuf c i (b_out b) (b_size b) (buffer b))) in
      wr_loop (pipeunlock (logs x (EWrote bs (w_orig w)))) w.

(** [uiomove] puts bytes into the buffer and takes them from the request. *)
Definition wr_move (x : ps) (w : wio) (at_ n : Z) : ps * wio * list Z :=
  let bs := take (Z.to_nat n) (w_src w) in
  (on_p x (fun P => set_buf P (mem_write (pipe_buffer P) at_ bs)), Wio (drop (Z.to_nat n) (w_src w)) (w_orig w) (w_nb w), bs).

Definition wr_moved (x : ps) (w : wio) (size segsize : Z) : ps * next :=
  let '(x, w, bs) := wr_move x w (b_in (buf x)) segsize in
  if segsize <? size then
    if negb (b_in (buf x) + segsize =? b_size (buf x)) then (x, Panics)
    else (x, Moves (WrMove2 w size segsize bs))
  else wr_commit x w size segsize bs.

Definition wr_moved2 (x : ps) (w : wio) (size segsize : Z) (moved : list Z) : ps * next :=
  let '(x, w, bs) := wr_move x w 0 (size - segsize) in
  wr_commit x w size segsize (moved ++ bs).

(** [uiomove] fails: [j] bytes reached the buffer at [at_], and the request
    has advanced by [k]. *)
Definition wr_fault (x : ps) (w : wio) (at_ k j : Z) : ps * next :=
  let bs := take (Z.to_nat j) (w_src w) in
  let x := on_p x (fun P => set_buf P (mem_write (pipe_buffer P) at_ bs)) in
  wr_finish (pipeunlock x) (Wio (drop (Z.to_nat k) (w_src w)) (w_orig w) (w_nb w)) EFAULT.

(** The early error. *)
Definition wr_early (x : ps) (error : Z) : ps * next :=
  let x := on_p x (fun P => set_busy P (pipe_busy P - 1)) in
  let x := if (busy x =? 0) && hasf x PIPE_WANT then wakes (clrf x (Z.lor PIPE_WANT PIPE_WANTR)) else x in
  (x, Returns error).

(** The bytes of a request and its [int] count. *)
Definition wio_of (data : list Z) (nb : bool) : wio := Wio data (sint 32 (Z.of_nat (length data))) nb.

(** [x] is the peer of the pipe of the file. *)
Definition wr_start (x : ps) (w : wio) : ps * next :=
  if hasf x PIPE_EOF then (x, Returns EPIPE)
  else
    let x := on_p x (fun P => set_busy P (pipe_busy P + 1)) in
    if (PIPE_SIZE <? w_resid w) && (nbigpipe (ps_g x) <? LIMITBIGPIPES) && (b_size (buf x) <=? PIPE_SIZE) && (cnt (buf x) =? 0)
    then pipelock x (WzLock w) (fun x => (x, Moves (WzAlloc w)))
    else wr_loop x w.

Definition wz_relock (x : ps) (w : wio) : ps * next := pipelock x (WzLock w) (fun x => (x, Moves (WzAlloc w))).

Definition wz_alloc (x : ps) (w : wio) (block : option (list Z)) : ps * next :=
  let '(x, error) := pipespace x BIG_PIPE_SIZE block in
  let x := if error =? 0 then with_g x (Pglob (nbigpipe (ps_g x) + 1) (amountpipekva (ps_g x))) else x in
  wr_loop (pipeunlock x) w.

(** ** A section *)

(** What a sleep, [uiomove] or [km_alloc] gives. *)
Inductive answer := Woken | Signal (error : Z) | Moved | Fault (k j : Z) | Memory (block : option (list Z)).

(** [None]: not an answer to this. *)
Definition section (x : ps) (l : lpc) (a : answer) : option (ps * next) :=
  match l, a with
  | RdLock false r, Woken => Some (rd_start x r)
  | RdLock true r, Woken => Some (rd_relock x r)
  | RdLock false r, Signal e => Some (x, Returns e)
  | RdLock true r, Signal e => Some (rd_unlocked x e)
  | RdMove r size, Moved => Some (rd_moved x r size)
  | RdMove r size, Fault _ _ => Some (rd_unlocked (pipeunlock x) EFAULT)
  | RdSleep r, Woken => Some (rd_relock x r)
  | RdSleep r, Signal e => Some (rd_unlocked x e)
  | WzLock w, Woken => Some (wz_relock x w)
  | WzLock w, Signal e => Some (wr_early x e)
  | WzAlloc w, Memory o =>
      match o with
      | Some m => if Z.of_nat (length m) =? BIG_PIPE_SIZE then Some (wz_alloc x w o) else None
      | None => Some (wz_alloc x w o)
      end
  | WrLock w space, Woken => Some (wr_relock x w space)
  | WrLock w space, Signal e => Some (wr_finish x w e)
  | WrMove w size segsize, Moved => Some (wr_moved x w size segsize)
  | WrMove w size segsize, Fault k j =>
      if (0 <=? k) && (k <=? j) && (j <=? segsize) then Some (wr_fault x w (b_in (buf x)) k j) else None
  | WrMove2 w size segsize moved, Moved => Some (wr_moved2 x w size segsize moved)
  | WrMove2 w size segsize moved, Fault k j =>
      if (0 <=? k) && (k <=? j) && (j <=? size - segsize) then Some (wr_fault x w 0 k j) else None
  | WrSleep w, Woken => Some (if hasf x PIPE_EOF then wr_finish x w EPIPE else wr_loop x w)
  | WrSleep w, Signal e => Some (wr_finish x w e)
  | _, _ => None
  end.

(** ** [pipeclose] on its own pipe *)

Definition cl_turn (x : ps) : ps * next :=
  if busy x =? 0 then (x, Returns 0) else (setf (wakes x) PIPE_WANT, Sleeps ClSleep).
Definition cl_start (x : ps) : ps * next := cl_turn (setf (pipeselwakeup x) PIPE_EOF).

(** ** Polling, ioctls, knotes *)

Definition POLLIN : Z := 2 ^ 0.
Definition POLLOUT : Z := 2 ^ 2.
Definition POLLHUP : Z := 2 ^ 4.
Definition POLLRDNORM : Z := 2 ^ 6.
Definition POLLWRNORM : Z := POLLOUT.

(** [pipe_poll] with the pipe of the file and its peer: the events, and the
    two pipes. *)
Definition pipe_poll (R : pipe) (W : option pipe) (events : Z) : Z * pipe * option pipe :=
  let rd := Z.lor POLLIN POLLRDNORM in
  let wr := Z.lor POLLOUT POLLWRNORM in
  let revents :=
    if has events rd && ((0 <? cnt (pipe_buffer R)) || has (pipe_state R) PIPE_EOF) then Z.land events rd else 0 in
  let revents :=
    match W with
    | None => Z.lor revents POLLHUP
    | Some W =>
        if has (pipe_state R) PIPE_EOF || has (pipe_state W) PIPE_EOF then Z.lor revents POLLHUP
        else if has events wr && (PIPE_BUF <=? b_size (pipe_buffer W) - cnt (pipe_buffer W))
             then Z.lor revents (Z.land events wr) else revents
    end in
  if revents =? 0 then
    (revents,
     if has events rd then set_state R (set_flag (pipe_state R) PIPE_SEL) else R,
     if has events wr then option_map (fun W => set_state W (set_flag (pipe_state W) PIPE_SEL)) W else W)
  else (revents, R, W).

Inductive ioctl_cmd := FIONBIO | FIOASYNC (on : bool) | FIONREAD | SIOCSPGRP (pgid : Z) | SIOCGPGRP | OtherCmd.

(** The value stored through [data], and the pipe; or the error. *)
Definition pipe_ioctl (P : pipe) (cmd : ioctl_cmd) : (option Z * pipe) + Z :=
  match cmd with
  | FIONBIO => inl (None, P)
  | FIOASYNC on => inl (None, set_state P (if on then set_flag (pipe_state P) PIPE_ASYNC else clr_flag (pipe_state P) PIPE_ASYNC))
  | FIONREAD => inl (Some (cnt (pipe_buffer P)), P)
  | SIOCSPGRP pgid => inl (None, set_pgid P pgid)
  | SIOCGPGRP => inl (Some (pipe_pgid P), P)
  | OtherCmd => inr ENOTTY
  end.

(** [kn_data], whether [EV_EOF] is set, and the result. *)
Definition filt_piperead (R : pipe) (W : option pipe) : Z * bool * bool :=
  let data := cnt (pipe_buffer R) in
  if has (pipe_state R) PIPE_EOF || match W with None => true | Some W => has (pipe_state W) PIPE_EOF end
  then (data, true, true) else (data, false, 0 <? data).
Definition filt_pipewrite (W : option pipe) : Z * bool * bool :=
  match W with
  | None => (0, true, true)
  | Some W =>
      if has (pipe_state W) PIPE_EOF then (0, true, true)
      else let data := b_size (pipe_buffer W) - cnt (pipe_buffer W) in (data, false, PIPE_BUF <=? data)
  end.

(** ** The system *)

(** A thread: outside, or in a call on the pipe [q], in [tsleep] on it when
    [asleep]. *)
Inductive thread := Out | At (asleep : bool) (q : nat) (l : lpc).

(** [plog] is the history of events, with the pipe of each. *)
Record psys := Psys { pipes : gmap nat pipe; glob : pglob; thr : gmap nat thread; plog : list (nat * pevent) }.

Inductive outcome := Stuck | Faults | Goes (s : psys).

(** [wakeup(q)] *)
Definition wake (q : nat) (th : thread) : thread :=
  match th with At a q' l => if Nat.eqb q q' then At false q' l else th | Out => Out end.

Definition thread_of (q : nat) (n : next) : thread :=
  match n with Sleeps l => At true q l | Moves l => At false q l | Returns _ | Panics => Out end.

(** The effect of a section of [t] on the pipe [q]. *)
Definition commit (s : psys) (t q : nat) (r : ps * next) : psys :=
  let '(x, n) := r in
  Psys (<[q := ps_p x]> (pipes s)) (ps_g x)
    (<[t := thread_of q n]> (if ps_wake x then wake q <$> thr s else thr s))
    (plog s ++ (pair q <$> ps_log x)).

Definition enter (s : psys) (P : pipe) : ps := PS P false (glob s) [].

Definition run_section (s : psys) (t q : nat) (f : ps -> option (ps * next)) : outcome :=
  match pipes s !! q with
  | None => Faults
  | Some P =>
      match f (enter s P) with
      | None => Stuck
      | Some (_, Panics) => Faults
      | Some r => Goes (commit s t q r)
      end
  end.

(** The rest of [pipeclose], once nobody is at work on the pipe: the peer is
    told and the pipe is freed. *)
Definition disconnect (s : psys) (q : nat) : outcome :=
  match pipes s !! q with
  | None => Faults
  | Some P =>
      let free (s : psys) :=
        let '(_, g) := pipe_free_kmem P (glob s) in Goes (Psys (delete q (pipes s)) g (thr s) (plog s)) in
      match pipe_peer P with
      | None => free s
      | Some q' =>
          match pipes s !! q' with
          | None => Faults
          | Some P' =>
              let x := on_p (setf (pipeselwakeup (enter s P')) PIPE_EOF) (fun P => set_peer P None) in
              free (Psys (<[q' := ps_p x]> (pipes s)) (glob s) (wake q' <$> thr s) (plog s ++ (pair q' <$> ps_log x)))
          end
      end
  end.

(** A section of [pipeclose]; when it comes to its end, [disconnect]. *)
Definition close_section (s : psys) (t q : nat) (f : ps -> ps * next) : outcome :=
  match run_section s t q (fun x => Some (f x)) with
  | Goes s' => match thr s' !! t with Some Out => disconnect s' q | _ => Goes s' end
  | o => o
  end.

Definition continue (s : psys) (t : nat) (a : answer) : outcome :=
  match thr s !! t with
  | Some (At asleep q l) =>
      if asleep && match a with Signal _ => false | _ => true end then Stuck
      else match l, a with
           | ClSleep, Woken => close_section s t q cl_turn
           | _, _ => run_section s t q (fun x => section x l a)
           end
  | _ => Stuck
  end.

Inductive call :=
  | CRead (q : nat) (n : Z) (nb : bool) | CWrite (q : nat) (data : list Z) (nb : bool) | CClose (q : nat)
  | CPipe (q1 q2 : nat) (m1 m2 : option (list Z)) (e1 e2 e3 : Z)
  | CPoll (q : nat) (events : Z) | CIoctl (q : nat) (cmd : ioctl_cmd).

(** [dopipe]: [m1] and [m2] are what [km_alloc] gives, [e1] and [e2] the
    results of the two [falloc], [e3] that of [copyout].  Its error paths
    close what it has made.  It is taken as one step: a thread of the
    process that uses the descriptors before [copyout] returns is left out, so
    that pipes closed here are not busy and have no knotes. *)
Definition dopipe (s : psys) (q1 q2 : nat) (m1 m2 : option (list Z)) (e1 e2 e3 : Z) : outcome * Z :=
  let '(x1, error) := pipe_create (glob s) m1 in
  let '(_, g1') := pipe_free_kmem (ps_p x1) (ps_g x1) in
  if negb (error =? 0) then (Goes (Psys (pipes s) g1' (thr s) (plog s)), error)
  else
    let '(x2, error) := pipe_create (ps_g x1) m2 in
    let '(_, g2') := pipe_free_kmem (ps_p x2) (ps_g x2) in
    let '(_, g12) := pipe_free_kmem (ps_p x1) g2' in
    if negb (error =? 0) then (Goes (Psys (pipes s) g12 (thr s) (plog s)), error)
    else if negb (e1 =? 0) then (Goes (Psys (pipes s) g12 (thr s) (plog s)), e1)
    else if negb (e2 =? 0) then
      let '(_, g1) := pipe_free_kmem (ps_p x1) (ps_g x2) in
      let '(_, g2) := pipe_free_kmem (ps_p x2) g1 in
      (Goes (Psys (pipes s) g2 (thr s) (plog s)), e2)
    else
      let s' := Psys (<[q2 := set_peer (ps_p x2) (Some q1)]> (<[q1 := set_peer (ps_p x1) (Some q2)]> (pipes s)))
                  (ps_g x2) (thr s) (plog s) in
      if negb (e3 =? 0) then
        (match disconnect s' q1 with Goes s' => disconnect s' q2 | o => o end, e3)
      else (Goes s', 0).

Definition start (s : psys) (t : nat) (c : call) : outcome :=
  match c with
  | CRead q n nb => run_section s t q (fun x => Some (rd_start x (Rio n 0 nb)))
  | CWrite q data nb =>
      match pipes s !! q with
      | None => Faults
      | Some R =>
          match pipe_peer R with
          | None => Goes s
          | Some q' => run_section s t q' (fun x => Some (wr_start x (wio_of data nb)))
          end
      end
  | CClose q => close_section s t q cl_start
  | CPipe q1 q2 m1 m2 e1 e2 e3 => (dopipe s q1 q2 m1 m2 e1 e2 e3).1
  | CPoll q events =>
      match pipes s !! q with
      | None => Faults
      | Some R =>
          match pipe_peer R with
          | None => Goes (Psys (<[q := (pipe_poll R None events).1.2]> (pipes s)) (glob s) (thr s) (plog s))
          | Some q' =>
              match pipes s !! q' with
              | None => Faults
              | Some W =>
                  let '(_, R', W') := pipe_poll R (Some W) events in
                  Goes (Psys (<[q' := default W W']> (<[q := R']> (pipes s))) (glob s) (thr s) (plog s))
              end
          end
      end
  | CIoctl q cmd =>
      match pipes s !! q with
      | None => Faults
      | Some P => match pipe_ioctl P cmd with
                  | inl (_, P') => Goes (Psys (<[q := P']> (pipes s)) (glob s) (thr s) (plog s))
                  | inr _ => Goes s
                  end
      end
  end.
