(* ===== verification/PipeInv.v ===== *)
(** * Pipes: flags, counting, and the ring buffer *)

From stdpp Require Import base numbers list option gmap fin_maps.
From Stdlib Require Import ZArith Lia Bool.
From S2P Require Import Prelude Pipe.
Local Open Scope Z_scope.

(** ** Flags *)

Definition pflag (m : Z) : bool :=
  existsb (Z.eqb m) [PIPE_ASYNC; PIPE_WANTR; PIPE_WANTW; PIPE_WANT; PIPE_SEL; PIPE_EOF; PIPE_LOCK; PIPE_LWANT].

Lemma pflag_pow m : pflag m = true -> exists k, 0 <= k /\ m = 2 ^ k.
Proof.
  unfold pflag. rewrite existsb_exists. intros (f & Hf & E). apply Z.eqb_eq in E as ->.
  repeat (destruct Hf as [<-|Hf]; [eexists; split; [|reflexivity]; lia|]). done.
Qed.

Lemma has_set f m k : pflag m = true -> pflag k = true -> has (set_flag f m) k = has f k || (m =? k).
Proof.
  intros (i & Hi & ->)%pflag_pow (j & Hj & ->)%pflag_pow. rewrite has_set_pow2 by done. f_equal.
  destruct (Z.eqb_spec i j) as [->|N]; [by rewrite Z.eqb_refl|]. symmetry. apply Z.eqb_neq. intros E.
  apply N. by apply (Z.pow_inj_r 2).
Qed.

Lemma has_clr f m k : pflag m = true -> pflag k = true -> has (clr_flag f m) k = has f k && negb (m =? k).
Proof.
  intros (i & Hi & ->)%pflag_pow (j & Hj & ->)%pflag_pow. rewrite has_clr_pow2 by done. do 2 f_equal.
  destruct (Z.eqb_spec i j) as [->|N]; [by rewrite Z.eqb_refl|]. symmetry. apply Z.eqb_neq. intros E.
  apply N. by apply (Z.pow_inj_r 2).
Qed.

Lemma clr_lor f m k : clr_flag f (Z.lor m k) = clr_flag (clr_flag f m) k.
Proof. unfold clr_flag. by rewrite Z.lnot_lor, Z.land_assoc. Qed.

(** Computes what flags a state has. *)
Ltac flags_in_goal := rewrite ?clr_lor; repeat first [rewrite has_set by reflexivity | rewrite has_clr by reflexivity].
Ltac flags :=
  flags_in_goal;
  repeat match goal with |- context [?a =? ?b] => let v := eval vm_compute in (a =? b) in change (a =? b) with v end;
  rewrite ?orb_true_r, ?orb_false_r, ?andb_true_r, ?andb_false_r; simpl negb; rewrite ?andb_true_r, ?andb_false_r.

(** ** Counting the entries of a map *)

Section Who.
Context {A : Type} (f : A -> bool).
Implicit Types m : gmap nat A.

Definition who m : gset nat := dom (filter (fun kv => f kv.2 = true) m).
Definition opt_count (o : option A) : nat := match o with Some v => Nat.b2n (f v) | None => 0 end.

Lemma elem_who m t : t ∈ who m <-> exists v, m !! t = Some v /\ f v = true.
Proof.
  unfold who. rewrite elem_of_dom. split.
  - intros [v Hv]. apply map_lookup_filter_Some in Hv as [? ?]. eauto.
  - intros (v & H & E). exists v. by apply map_lookup_filter_Some.
Qed.

Lemma who_delete m t : (size (who (delete t m)) + opt_count (m !! t) = size (who m))%nat.
Proof.
  destruct (m !! t) as [v|] eqn:E; simpl; [destruct (f v) eqn:F; simpl|].
  - assert (W : who m = {[t]} ∪ who (delete t m)).
    { apply set_eq. intros t2. rewrite elem_of_union, elem_of_singleton, !elem_who.
      destruct (decide (t2 = t)) as [->|]; [rewrite E; naive_solver|rewrite lookup_delete_ne by congruence; naive_solver]. }
    rewrite W, size_union, size_singleton; [lia|]. apply disjoint_singleton_l. rewrite elem_who, lookup_delete_eq. naive_solver.
  - rewrite Nat.add_0_r. f_equal. apply set_eq. intros t2. rewrite !elem_who.
    destruct (decide (t2 = t)) as [->|]; [|by rewrite lookup_delete_ne by congruence].
    rewrite E, lookup_delete_eq. split; intros (v' & ? & ?); congruence.
  - by rewrite delete_id, Nat.add_0_r.
Qed.

Lemma who_insert m t v : (size (who (<[t := v]> m)) + opt_count (m !! t) = size (who m) + Nat.b2n (f v))%nat.
Proof.
  rewrite <-(who_delete m t), <-(who_delete (<[t := v]> m) t), delete_insert_eq, lookup_insert_eq. simpl. lia.
Qed.

Lemma who_empty m : size (who m) = O -> forall t v, m !! t = Some v -> f v = false.
Proof.
  intros H t v Hv. destruct (f v) eqn:F; [|done]. apply size_empty_inv in H.
  assert (t ∈ who m) by (apply elem_who; eauto). set_solver.
Qed.

Lemma who_unique m t v t' v' : (size (who m) <= 1)%nat -> m !! t = Some v -> f v = true -> m !! t' = Some v' -> f v' = true -> t' = t.
Proof.
  intros H Hv F Hv' F'. destruct (decide (t' = t)) as [|N]; [done|]. exfalso.
  assert (D := who_delete m t). rewrite Hv in D. simpl in D. rewrite F in D. simpl in D.
  assert (E : size (who (delete t m)) = O) by lia. assert (X := who_empty _ E t' v').
  rewrite lookup_delete_ne in X by congruence. rewrite X in F'; done.
Qed.
End Who.

Lemma who_fmap {A} (f : A -> bool) (g : A -> A) (m : gmap nat A) : (forall v, f (g v) = f v) -> who f (g <$> m) = who f m.
Proof.
  intros E. apply set_eq. intros t. rewrite !elem_who, lookup_fmap. destruct (m !! t) as [v|]; simpl; [|naive_solver].
  split; intros (v' & [= <-] & H); eexists; split; eauto; congruence.
Qed.

(** ** The ring *)

Definition ring (b : pipebuf) : Prop :=
  0 < b_size b /\ Z.of_nat (length (buffer b)) = b_size b /\ 0 <= cnt b <= b_size b /\ 0 <= b_out b < b_size b
  /\ b_in b = (if b_out b + cnt b <? b_size b then b_out b + cnt b else b_out b + cnt b - b_size b).

Definition slot (b : pipebuf) (i : nat) : nat :=
  let k := b_out b + Z.of_nat i in Z.to_nat (if k <? b_size b then k else k - b_size b).

Lemma contents_lookup b i : ring b -> contents b !! i = if decide (Z.of_nat i < cnt b) then buffer b !! slot b i else None.
Proof.
  intros (R1 & R2 & R3 & R4 & _). unfold contents, slot. case_decide as H.
  - rewrite lookup_take by lia. rewrite decide_True by lia. rewrite lookup_drop.
    destruct (Z.ltb_spec (b_out b + Z.of_nat i) (b_size b)).
    + rewrite lookup_app_l by lia. f_equal. lia.
    + rewrite lookup_app_r by lia. f_equal. lia.
  - rewrite lookup_take_ge by lia. done.
Qed.

Lemma contents_length b : ring b -> Z.of_nat (length (contents b)) = cnt b.
Proof. intros (R1 & R2 & R3 & R4 & _). unfold contents. rewrite length_take, length_drop, length_app. lia. Qed.

Lemma mem_read_lookup b from n i : 0 <= from -> 0 <= n -> from + n <= Z.of_nat (length (buffer b)) ->
  mem_read b from n !! i = if decide (Z.of_nat i < n) then buffer b !! (Z.to_nat from + i)%nat else None.
Proof.
  intros. unfold mem_read. case_decide.
  - rewrite lookup_take by lia. rewrite decide_True by lia. by rewrite lookup_drop.
  - by rewrite lookup_take_ge by lia.
Qed.

Lemma mem_write_lookup b from bs i : 0 <= from -> from + Z.of_nat (length bs) <= Z.of_nat (length (buffer b)) ->
  buffer (mem_write b from bs) !! i =
    if decide (Z.to_nat from <= i < Z.to_nat from + length bs)%nat then bs !! (i - Z.to_nat from)%nat else buffer b !! i.
Proof.
  intros. unfold mem_write. simpl. case_decide as D.
  - rewrite lookup_app_r, length_take by (rewrite length_take; lia). rewrite lookup_app_l by lia. f_equal. lia.
  - destruct (decide (i < Z.to_nat from)%nat).
    + rewrite lookup_app_l by (rewrite length_take; lia). rewrite lookup_take by lia. by rewrite decide_True by lia.
    + rewrite lookup_app_r, length_take by (rewrite length_take; lia). rewrite lookup_app_r by lia. rewrite lookup_drop. f_equal. lia.
Qed.

Lemma mem_write_length b from bs : 0 <= from -> from + Z.of_nat (length bs) <= Z.of_nat (length (buffer b)) ->
  length (buffer (mem_write b from bs)) = length (buffer b).
Proof. intros. unfold mem_write. simpl. rewrite !length_app, length_take, length_drop. lia. Qed.

Lemma ring_in b : ring b -> 0 <= b_in b < b_size b.
Proof. intros (R1 & R2 & R3 & R4 & ->). case_match; lia. Qed.

(** Taking [size] bytes at the front. *)
Definition take_front (b : pipebuf) (size : Z) : pipebuf :=
  let out := if b_size b <=? b_out b + size then 0 else b_out b + size in
  let c := cnt b - size in
  if c =? 0 then Pipebuf c 0 0 (b_size b) (buffer b) else Pipebuf c (b_in b) out (b_size b) (buffer b).

Lemma take_front_ring b size : ring b -> 0 < size <= cnt b -> b_out b + size <= b_size b -> ring (take_front b size).
Proof.
  intros (R1 & R2 & R3 & R4 & R5) H1 H2. unfold take_front, ring.
  destruct (Z.eqb_spec (cnt b - size) 0); simpl.
  - split_and!; try lia. rewrite (proj2 (Z.ltb_lt _ _)); lia.
  - rewrite R5. destruct (Z.leb_spec (b_size b) (b_out b + size)); simpl; split_and!; try lia; cmp_cases; lia.
Qed.

Lemma take_front_contents b size : ring b -> 0 < size <= cnt b -> b_out b + size <= b_size b ->
  contents b = mem_read b (b_out b) size ++ contents (take_front b size).
Proof.
  intros R H1 H2. assert (R' := take_front_ring b size R H1 H2). assert (R0 := R). destruct R0 as (R1 & R2 & R3 & R4 & R5).
  assert (Lm : Z.of_nat (length (mem_read b (b_out b) size)) = size).
  { unfold mem_read. rewrite length_take, length_drop. lia. }
  assert (Ec : cnt (take_front b size) = cnt b - size) by (unfold take_front; destruct (_ =? _); reflexivity).
  assert (Eb : buffer (take_front b size) = buffer b) by (unfold take_front; destruct (_ =? _); reflexivity).
  apply list_eq. intros i. rewrite contents_lookup by done. destruct (decide (Z.of_nat i < size)).
  - rewrite lookup_app_l by lia. rewrite mem_read_lookup by lia. rewrite !decide_True by lia. f_equal. unfold slot.
    rewrite (proj2 (Z.ltb_lt _ _)) by lia. lia.
  - rewrite lookup_app_r by lia. rewrite contents_lookup by done. rewrite Ec, Eb.
    do 2 case_decide; try lia; [|done]. f_equal. unfold slot, take_front.
    rewrite (proj2 (Z.eqb_neq (cnt b - size) 0)) by lia. simpl.
    destruct (Z.leb_spec (b_size b) (b_out b + size)); cmp_cases; lia.
Qed.

(** Writing where no byte of the pipe lies. *)
Lemma mem_write_ring b from bs : ring b -> 0 <= from -> from + Z.of_nat (length bs) <= b_size b -> ring (mem_write b from bs).
Proof.
  intros (R1 & R2 & R3 & R4 & R5) H1 H2. unfold ring.
  rewrite mem_write_length by lia. simpl. auto.
Qed.

Lemma mem_write_contents b from bs : ring b -> 0 <= from -> from + Z.of_nat (length bs) <= b_size b ->
  (forall i, Z.of_nat i < cnt b -> ~ (Z.to_nat from <= slot b i < Z.to_nat from + length bs)%nat) ->
  contents (mem_write b from bs) = contents b.
Proof.
  intros R H1 H2 Hd. assert (R' := mem_write_ring b from bs R H1 H2). assert (R0 := R). destruct R0 as (R1 & R2 & _).
  apply list_eq. intros i. rewrite !contents_lookup by done. change (cnt (mem_write b from bs)) with (cnt b). case_decide; [|done].
  change (slot (mem_write b from bs) i) with (slot b i). rewrite mem_write_lookup by lia.
  rewrite decide_False; [done|]. by apply Hd.
Qed.

Lemma free_first b n i : ring b -> 0 <= n -> n <= b_size b - b_in b -> n <= b_size b - cnt b -> Z.of_nat i < cnt b ->
  ~ (Z.to_nat (b_in b) <= slot b i < Z.to_nat (b_in b) + Z.to_nat n)%nat.
Proof.
  intros (R1 & R2 & R3 & R4 & ->) H0 H1 H2 H3. unfold slot. cmp_cases; lia.
Qed.

Lemma free_second b n seg i : ring b -> 0 <= n -> b_in b + seg = b_size b -> seg + n <= b_size b - cnt b -> 0 <= seg ->
  Z.of_nat i < cnt b -> ~ (0 <= slot b i < Z.to_nat n)%nat.
Proof.
  intros (R1 & R2 & R3 & R4 & ->) H0 H1 H2 H3 H4. unfold slot. revert H1. cmp_cases; lia.
Qed.

(** Adding [size] bytes at the end, already in place. *)
Definition add_back (b : pipebuf) (size segsize : Z) : pipebuf :=
  Pipebuf (cnt b + size) (if b_size b <=? b_in b + size then size - segsize else b_in b + size) (b_out b) (b_size b) (buffer b).

Lemma add_back_ok b size seg : ring b -> 0 < size <= b_size b - cnt b -> seg = Z.min size (b_size b - b_in b) ->
  ring (add_back b size seg) /\ contents (add_back b size seg) = contents b ++ mem_read b (b_in b) seg ++ mem_read b 0 (size - seg)
  /\ (b_size b <= b_in b + size -> b_in b + size = size - seg + b_size b).
Proof.
  intros R H1 Hs. assert (Hi := ring_in b R). assert (R0 := R). destruct R0 as (R1 & R2 & R3 & R4 & R5).
  assert (R' : ring (add_back b size seg)).
  { unfold add_back, ring. simpl. split_and!; try lia. subst seg. rewrite R5. cmp_cases; lia. }
  split_and!; [done| |lia].
  assert (L1 := contents_length b R). assert (Hseg : 0 <= seg <= size) by lia.
  assert (L2 : length (mem_read b (b_in b) seg) = Z.to_nat seg) by (unfold mem_read; rewrite length_take, length_drop; lia).
  apply list_eq. intros i. rewrite contents_lookup by done. simpl cnt. simpl buffer.
  change (slot (add_back b size seg) i) with (slot b i).
  destruct (decide (Z.of_nat i < cnt b)).
  - rewrite lookup_app_l by lia. rewrite contents_lookup by done. by rewrite !decide_True by lia.
  - rewrite lookup_app_r by lia. destruct (decide (Z.of_nat i < cnt b + seg)).
    + rewrite lookup_app_l by lia. rewrite mem_read_lookup by lia. rewrite !decide_True by lia. f_equal. unfold slot.
      subst seg. rewrite R5. revert l. rewrite R5. cmp_cases; lia.
    + rewrite lookup_app_r by lia. rewrite mem_read_lookup by lia. do 2 case_decide; try lia; [|done]. f_equal. unfold slot.
      subst seg. revert n0. rewrite L2, R5. cmp_cases; lia.
Qed.

(** What has just been written is read back. *)
Lemma mem_read_write b from bs : 0 <= from -> from + Z.of_nat (length bs) <= Z.of_nat (length (buffer b)) ->
  mem_read (mem_write b from bs) from (Z.of_nat (length bs)) = bs.
Proof.
  intros H1 H2. apply list_eq. intros i. rewrite mem_read_lookup by (rewrite ?mem_write_length by lia; lia).
  case_decide; [|symmetry; apply lookup_ge_None; lia]. rewrite mem_write_lookup by lia. rewrite decide_True by lia. f_equal. lia.
Qed.

Lemma mem_read_write_ne b from bs at_ n : 0 <= from -> from + Z.of_nat (length bs) <= Z.of_nat (length (buffer b)) ->
  0 <= at_ -> 0 <= n -> at_ + n <= Z.of_nat (length (buffer b)) -> from + Z.of_nat (length bs) <= at_ ->
  mem_read (mem_write b from bs) at_ n = mem_read b at_ n.
Proof.
  intros. apply list_eq. intros i. rewrite !mem_read_lookup by (rewrite ?mem_write_length by lia; lia).
  case_decide; [|done]. rewrite mem_write_lookup by lia. by rewrite decide_False by lia.
Qed.

(** * tHe invariant of one pipe

    [linv] relates a pipe, the calls at work on it and the events of its
    history; [local_step] says what a section must establish to keep it. *)

(** ** What a call holds *)

(** The lock bit; a count in [pipe_busy]; a reference through the file of the
    pipe itself. *)
Definition holds (l : lpc) : bool :=
  match l with RdMove _ _ | WzAlloc _ | WrMove _ _ _ | WrMove2 _ _ _ _ => true | _ => false end.
Definition busies (l : lpc) : bool := match l with RdLock false _ | ClSleep => false | _ => true end.
Definition reads (l : lpc) : bool := match l with RdLock _ _ | RdMove _ _ | RdSleep _ => true | _ => false end.
(** A write that will wake the readers when it ends or sleeps; a read that
    will wake the writers. *)
Definition owes (l : lpc) : bool := match l with WrLock _ _ | WrMove _ _ _ | WrMove2 _ _ _ _ => true | _ => false end.
Definition drains (l : lpc) : bool := match l with RdMove _ _ => true | _ => false end.
Definition closes (l : lpc) : bool := match l with ClSleep => true | _ => false end.

(** ** History *)

Definition ev_read (e : pevent) : list Z := match e with ERead bs => bs | _ => [] end.
Definition ev_wrote (e : pevent) : list Z := match e with EWrote bs _ => bs | _ => [] end.
Definition ev_lost (e : pevent) : list Z := match e with ELost bs => bs | _ => [] end.
(** A write of at most [PIPE_BUF] bytes goes in as a whole. *)
Definition ev_atomic (e : pevent) : Prop :=
  match e with EWrote bs orig => orig <= PIPE_BUF -> Z.of_nat (length bs) = orig | _ => True end.

(** ** The invariant *)

Definition wok (w : wio) : Prop := w_orig w <= PIPE_BUF -> w_resid w = w_orig w.

(** What a call relies on of the buffer. *)
Definition lbuf (b : pipebuf) (l : lpc) : Prop :=
  match l with
  | RdLock _ r | RdSleep r => 0 <= r_resid r
  | RdMove r size => 0 < size <= cnt b /\ b_out b + size <= b_size b /\ size <= r_resid r
  | WzLock w | WzAlloc w | WrSleep w => wok w
  | WrLock w space => wok w /\ 0 < w_resid w /\ 0 < space /\ (w_orig w <= PIPE_BUF -> w_resid w <= space)
  | WrMove w size segsize => wok w /\ 0 < size <= b_size b - cnt b /\ segsize = Z.min size (b_size b - b_in b)
      /\ size <= w_resid w /\ (w_orig w <= PIPE_BUF -> size = w_resid w)
  | WrMove2 w size segsize moved => 0 < size <= b_size b - cnt b /\ segsize = Z.min size (b_size b - b_in b)
      /\ segsize < size /\ size - segsize <= w_resid w /\ mem_read b (b_in b) segsize = moved
      /\ (w_orig w <= PIPE_BUF -> size = w_orig w /\ size - segsize = w_resid w)
  | ClSleep => True
  end.

(** Why a call is asleep. *)
Definition lsleep (P : pipe) (l : lpc) : Prop :=
  match l with
  | RdLock _ _ | WzLock _ | WrLock _ _ => has (pipe_state P) PIPE_LWANT = true /\ has (pipe_state P) PIPE_LOCK = true
  | RdSleep _ => has (pipe_state P) PIPE_WANTR = true /\ has (pipe_state P) PIPE_EOF = false
  | WrSleep _ => has (pipe_state P) PIPE_WANTW = true /\ has (pipe_state P) PIPE_EOF = false
  | ClSleep => has (pipe_state P) PIPE_WANT = true /\ pipe_busy P <> 0
  | _ => False
  end.

Notation lmap := (gmap nat (bool * lpc)).
Definition of_pc (f : lpc -> bool) (v : bool * lpc) : bool := f v.2.

Record linv (P : pipe) (m : lmap) (h : list pevent) : Prop := {
  l_alive : pipe_freed P = false;
  l_ring : ring (pipe_buffer P);
  l_lock : size (who (of_pc holds) m) = Nat.b2n (has (pipe_state P) PIPE_LOCK);
  l_busy : pipe_busy P = Z.of_nat (size (who (of_pc busies) m));
  l_buf : forall t a l, m !! t = Some (a, l) -> lbuf (pipe_buffer P) l;
  l_sleep : forall t l, m !! t = Some (true, l) -> lsleep P l;
  l_both : forall t t' r w, m !! t = Some (true, RdSleep r) -> m !! t' <> Some (true, WrSleep w);
  l_close : forall t a, m !! t = Some (a, ClSleep) -> has (pipe_state P) PIPE_EOF = true
    /\ forall t' a' l, m !! t' = Some (a', l) -> t' = t \/ (reads l = false /\ closes l = false);
  l_hist : (h ≫= ev_lost) = [] -> (h ≫= ev_read) ++ contents (pipe_buffer P) = (h ≫= ev_wrote);
  l_atomic : Forall ev_atomic h;
  l_size : PIPE_SIZE <= b_size (pipe_buffer P);
  l_data : forall t r, m !! t = Some (true, RdSleep r) ->
    cnt (pipe_buffer P) = 0 \/ exists t' a l, m !! t' = Some (a, l) /\ owes l = true;
  l_room : forall t w, m !! t = Some (true, WrSleep w) -> (h ≫= ev_lost) = [] ->
    MINPIPESIZE <= cnt (pipe_buffer P) \/ exists t' a l, m !! t' = Some (a, l) /\ drains l = true }.

(** The calls after a section. *)
Definition awake (v : bool * lpc) : bool * lpc := (false, v.2).
Definition moved_on (m : lmap) (t : nat) (wk : bool) (n : next) : lmap :=
  let m := if wk then awake <$> m else m in
  match n with Sleeps l => <[t := (true, l)]> m | Moves l => <[t := (false, l)]> m | _ => delete t m end.

Definition next_count (f : lpc -> bool) (n : next) : nat :=
  match n with Sleeps l | Moves l => Nat.b2n (f l) | _ => 0 end.

Definition before (f : lpc -> bool) (m : lmap) (t : nat) : nat := opt_count (of_pc f) (m !! t).

Lemma moved_count f m t wk n :
  (size (who (of_pc f) (moved_on m t wk n)) + before f m t = size (who (of_pc f) m) + next_count f n)%nat.
Proof.
  unfold moved_on, before. set (m' := if wk then awake <$> m else m).
  assert (E1 : who (of_pc f) m' = who (of_pc f) m) by (unfold m'; destruct wk; [by apply who_fmap|done]).
  assert (E2 : opt_count (of_pc f) (m' !! t) = opt_count (of_pc f) (m !! t)).
  { unfold m'. destruct wk; [|done]. rewrite lookup_fmap. by destruct (m !! t). }
  rewrite <-E1, <-E2. destruct n; simpl.
  - exact (who_insert (of_pc f) m' t (true, l)).
  - exact (who_insert (of_pc f) m' t (false, l)).
  - rewrite who_delete. lia.
  - rewrite who_delete. lia.
Qed.

Lemma moved_other m t wk n t' a l : t' <> t -> moved_on m t wk n !! t' = Some (a, l) ->
  exists a0, m !! t' = Some (a0, l) /\ (a = true -> a0 = true /\ wk = false).
Proof.
  intros Hn. unfold moved_on. set (m' := if wk then awake <$> m else m).
  assert (E : forall v, m' !! t' = Some (a, l) -> v = m' !! t' -> exists a0, m !! t' = Some (a0, l) /\ (a = true -> a0 = true /\ wk = false)).
  { intros _ H _. unfold m' in H. destruct wk; [|exists a; auto]. rewrite lookup_fmap in H.
    destruct (m !! t') as [[a0 l0]|]; simpl in H; [|done]. unfold awake in H. simpl in H. injection H as <- <-. exists a0. split; [done|]. done. }
  destruct n; rewrite ?lookup_insert_ne, ?lookup_delete_ne by congruence; eauto.
Qed.

Lemma moved_stays m t wk n t' a l : t' <> t -> m !! t' = Some (a, l) -> exists a', moved_on m t wk n !! t' = Some (a', l).
Proof.
  intros Hn H. unfold moved_on. set (m' := if wk then awake <$> m else m).
  assert (E : exists a', m' !! t' = Some (a', l)).
  { unfold m'. destruct wk; [|eauto]. exists false. by rewrite lookup_fmap, H. }
  destruct n; rewrite ?lookup_insert_ne, ?lookup_delete_ne by congruence; done.
Qed.

Lemma moved_next f m t wk n : next_count f n = 1%nat -> exists a l, moved_on m t wk n !! t = Some (a, l) /\ f l = true.
Proof.
  unfold moved_on. destruct n as [l|l|e|]; simpl; try done; rewrite lookup_insert_eq; destruct (f l) eqn:F; try done; eauto.
Qed.

(** Another thread that will wake the sleepers is still there. *)
Lemma other_stays f m t wk n : before f m t = O -> (exists t' a l, m !! t' = Some (a, l) /\ f l = true) ->
  exists t' a l, moved_on m t wk n !! t' = Some (a, l) /\ f l = true.
Proof.
  intros B (t' & a & l & H & F). destruct (decide (t' = t)) as [->|Hn].
  - unfold before in B. rewrite H in B. simpl in B. unfold of_pc in B. simpl in B. by rewrite F in B.
  - destruct (moved_stays m t wk n t' a l Hn H) as [a' H']. eauto.
Qed.

Lemma moved_self m t wk n a l : moved_on m t wk n !! t = Some (a, l) -> (n = Sleeps l /\ a = true) \/ (n = Moves l /\ a = false).
Proof.
  unfold moved_on. destruct n; rewrite ?lookup_insert_eq, ?lookup_delete_eq; intros [=]; subst; auto.
Qed.

(** The flags that sleeping calls rely on stay. *)
Definition keeps (P P' : pipe) : Prop :=
  let f := pipe_state P in let f' := pipe_state P' in
  (has f PIPE_WANTR = true -> has f' PIPE_WANTR = true) /\ (has f PIPE_WANTW = true -> has f' PIPE_WANTW = true)
  /\ (has f PIPE_WANT = true -> has f' PIPE_WANT = true /\ (pipe_busy P <> 0 -> pipe_busy P' <> 0))
  /\ (has f PIPE_LWANT = true /\ has f PIPE_LOCK = true -> has f' PIPE_LWANT = true /\ has f' PIPE_LOCK = true)
  /\ (has f' PIPE_EOF = true -> has f PIPE_EOF = true).

Lemma keeps_sleep P P' l : keeps P P' -> lsleep P l -> lsleep P' l.
Proof.
  intros (K1 & K2 & K3 & K4 & K5). destruct l; simpl; try tauto.
  - intros [H1 H2]. split; [auto|]. destruct (has (pipe_state P') PIPE_EOF); [|done]. rewrite K5 in H2; done.
  - intros [H1 H2]. split; [auto|]. destruct (has (pipe_state P') PIPE_EOF); [|done]. rewrite K5 in H2; done.
Qed.

Lemma lbuf_free b b' l : holds l = false -> lbuf b l -> lbuf b' l.
Proof. by destruct l. Qed.

(** What the state must be after a section of [t]. *)
Record section_ok (P : pipe) (m : lmap) (h : list pevent) (t : nat) (P' : pipe) (wk : bool) (n : next) (h' : list pevent) : Prop := {
  o_alive : pipe_freed P' = false;
  o_ring : ring (pipe_buffer P');
  o_lock : (Nat.b2n (has (pipe_state P') PIPE_LOCK) + before holds m t = Nat.b2n (has (pipe_state P) PIPE_LOCK) + next_count holds n)%nat;
  o_busy : pipe_busy P' + Z.of_nat (before busies m t) = pipe_busy P + Z.of_nat (next_count busies n);
  o_buf : pipe_buffer P' = pipe_buffer P \/ before holds m t = 1%nat \/ has (pipe_state P) PIPE_LOCK = false;
  o_keeps : wk = true \/ keeps P P';
  o_eof : has (pipe_state P) PIPE_EOF = true -> has (pipe_state P') PIPE_EOF = true;
  o_next : match n with
           | Sleeps l => lbuf (pipe_buffer P') l /\ lsleep P' l
           | Moves l => lbuf (pipe_buffer P') l
           | Returns _ => True
           | Panics => False
           end;
  o_rd : forall r, n = Sleeps (RdSleep r) -> wk = true \/ has (pipe_state P) PIPE_WANTW = false;
  o_wr : forall w, n = Sleeps (WrSleep w) -> wk = true \/ has (pipe_state P) PIPE_WANTR = false;
  o_close : next_count closes n = 1%nat -> has (pipe_state P') PIPE_EOF = true
    /\ forall t' a' l, t' <> t -> m !! t' = Some (a', l) -> reads l = false /\ closes l = false;
  o_reads : next_count reads n = 1%nat -> before reads m t = 1%nat \/ (forall t' a, t' <> t -> m !! t' <> Some (a, ClSleep));
  o_hist : (h' ≫= ev_lost) = [] -> (h' ≫= ev_read) ++ contents (pipe_buffer P') = (h' ≫= ev_wrote);
  o_atomic : Forall ev_atomic h';
  o_peer : pipe_peer P' = pipe_peer P;
  o_size : PIPE_SIZE <= b_size (pipe_buffer P');
  o_lost : (h' ≫= ev_lost) = [] -> (h ≫= ev_lost) = [];
  o_data : wk = true \/ has (pipe_state P') PIPE_WANTR = false \/ next_count owes n = 1%nat
    \/ cnt (pipe_buffer P') = 0 \/ (before owes m t = O /\ 0 < cnt (pipe_buffer P));
  o_rd_empty : forall r, n = Sleeps (RdSleep r) -> cnt (pipe_buffer P') = 0;
  o_room : wk = true \/ has (pipe_state P') PIPE_WANTW = false \/ next_count drains n = 1%nat
    \/ MINPIPESIZE <= cnt (pipe_buffer P') \/ (before drains m t = O /\ cnt (pipe_buffer P) < MINPIPESIZE) \/ (h' ≫= ev_lost) <> [];
  o_wr_full : forall w, n = Sleeps (WrSleep w) -> MINPIPESIZE <= cnt (pipe_buffer P') }.

Lemma before_one f m t : before f m t = 1%nat -> exists a l, m !! t = Some (a, l) /\ f l = true.
Proof. unfold before, opt_count, of_pc. destruct (m !! t) as [[a l]|]; simpl; [|done]. destruct (f l) eqn:E; [eauto|done]. Qed.

Lemma local_step P m h t P' wk n h' : linv P m h -> section_ok P m h t P' wk n h' -> linv P' (moved_on m t wk n) h'.
Proof.
  intros I O. assert (Lk := l_lock _ _ _ I). assert (C1 := moved_count holds m t wk n). assert (C2 := moved_count busies m t wk n).
  assert (O2 := o_lock _ _ _ _ _ _ _ _ O). assert (O3 := o_busy _ _ _ _ _ _ _ _ O). assert (On := o_next _ _ _ _ _ _ _ _ O).
  assert (Self : forall a l, moved_on m t wk n !! t = Some (a, l) -> lbuf (pipe_buffer P') l /\ (a = true -> lsleep P' l)).
  { intros a l H. apply moved_self in H as [[-> ->]|[-> ->]]; simpl in On; [|done]. by destruct On. }
  assert (Free : forall t' a l, t' <> t -> m !! t' = Some (a, l) -> pipe_buffer P' = pipe_buffer P \/ holds l = false).
  { intros t' a l Hn H. destruct (o_buf _ _ _ _ _ _ _ _ O) as [?|[B|B]]; [auto| |].
    - right. destruct (holds l) eqn:Hl; [|done]. destruct (before_one _ _ _ B) as (a0 & l0 & H0 & F0).
      destruct (Hn (who_unique (of_pc holds) m t (a0, l0) t' (a, l) ltac:(rewrite Lk; destruct (has _ _); simpl; lia) H0 F0 H Hl)).
    - right. rewrite B in Lk. by apply (who_empty (of_pc holds) m Lk t' (a, l)). }
  split.
  - by apply O.
  - by apply O.
  - lia.
  - rewrite (l_busy _ _ _ I) in O3. lia.
  - intros t' a l H. destruct (decide (t' = t)) as [->|Hn]; [by eapply Self|].
    apply moved_other in H as (a0 & H & _); [|done]. destruct (Free t' a0 l Hn H) as [-> |F]; [by eapply l_buf|].
    eapply lbuf_free; [done|]. by eapply l_buf.
  - intros t' l H. destruct (decide (t' = t)) as [->|Hn]; [by eapply Self|].
    apply moved_other in H as (a0 & H & Ha); [|done]. destruct (Ha eq_refl) as [-> ->].
    destruct (o_keeps _ _ _ _ _ _ _ _ O) as [?|K]; [done|]. eapply keeps_sleep; [done|]. by eapply l_sleep.
  - intros t1 t2 r w H1 H2. destruct (decide (t1 = t)) as [->|N1], (decide (t2 = t)) as [->|N2].
    + congruence.
    + apply moved_self in H1 as [[-> _]|[? ?]]; [|done]. apply moved_other in H2 as (a0 & H2 & Ha); [|done].
      destruct (Ha eq_refl) as [-> ->]. destruct (o_rd _ _ _ _ _ _ _ _ O r eq_refl) as [?|F]; [done|].
      destruct (l_sleep _ _ _ I t2 _ H2) as [F2 _]. congruence.
    + apply moved_self in H2 as [[-> _]|[? ?]]; [|done]. apply moved_other in H1 as (a0 & H1 & Ha); [|done].
      destruct (Ha eq_refl) as [-> ->]. destruct (o_wr _ _ _ _ _ _ _ _ O w eq_refl) as [?|F]; [done|].
      destruct (l_sleep _ _ _ I t1 _ H1) as [F2 _]. congruence.
    + apply moved_other in H1 as (a1 & H1 & Ha1); [|done]. apply moved_other in H2 as (a2 & H2 & Ha2); [|done].
      destruct (Ha1 eq_refl) as [-> _], (Ha2 eq_refl) as [-> _]. by apply (l_both _ _ _ I t1 t2 r w H1).
  - intros t1 a H1. destruct (decide (t1 = t)) as [->|N1].
    + assert (N : next_count closes n = 1%nat) by (apply moved_self in H1 as [[-> _]|[-> _]]; done).
      destruct (o_close _ _ _ _ _ _ _ _ O N) as [E F]. split; [done|]. intros t' a' l H'.
      destruct (decide (t' = t)) as [->|Hn]; [by left|]. right. apply moved_other in H' as (a0 & H' & _); [|done]. eauto.
    + apply moved_other in H1 as (a0 & H1 & _); [|done]. destruct (l_close _ _ _ I t1 a0 H1) as [E F].
      split; [by apply O|]. intros t' a' l H'. destruct (decide (t' = t)) as [->|Hn].
      * right. assert (Nl : forall f, next_count f n = Nat.b2n (f l)) by (intros f; apply moved_self in H' as [[-> _]|[-> _]]; done).
        split; [destruct (reads l) eqn:Rl|destruct (closes l) eqn:Cl]; try done; exfalso.
        -- assert (R1 : next_count reads n = 1%nat) by (by rewrite Nl, Rl).
           destruct (o_reads _ _ _ _ _ _ _ _ O R1) as [B|B]; [|by apply (B t1 a0)].
           destruct (before_one _ _ _ B) as (a2 & l2 & H2 & R2). destruct (F t a2 l2 H2) as [?|[? _]]; congruence.
        -- assert (C3 : next_count closes n = 1%nat) by (by rewrite Nl, Cl).
           destruct (o_close _ _ _ _ _ _ _ _ O C3) as [_ G]. by destruct (G t1 a0 ClSleep N1 H1) as [_ ?].
      * apply moved_other in H' as (a2 & H' & _); [|done]. eauto.
  - by apply O.
  - by apply O.
  - by apply O.
  - intros t1 r H1. destruct (decide (t1 = t)) as [->|N1].
    { apply moved_self in H1 as [[-> _]|[? ?]]; [|done]. left. by apply (o_rd_empty _ _ _ _ _ _ _ _ O r). }
    apply moved_other in H1 as (a0 & H1 & Ha); [|done]. destruct (Ha eq_refl) as [-> ->].
    destruct (l_sleep _ _ _ I t1 _ H1) as [F1 _]. destruct (o_keeps _ _ _ _ _ _ _ _ O) as [?|(K1 & _)]; [done|].
    destruct (o_data _ _ _ _ _ _ _ _ O) as [?|[F|[N|[?|[B C]]]]]; [done|rewrite K1 in F; done|right|by left|right].
    + exists t. by apply moved_next.
    + apply other_stays; [done|]. destruct (l_data _ _ _ I t1 r H1) as [?|?]; [lia|done].
  - intros t1 w H1 Lo. destruct (decide (t1 = t)) as [->|N1].
    { apply moved_self in H1 as [[-> _]|[? ?]]; [|done]. left. by apply (o_wr_full _ _ _ _ _ _ _ _ O w). }
    apply moved_other in H1 as (a0 & H1 & Ha); [|done]. destruct (Ha eq_refl) as [-> ->].
    destruct (l_sleep _ _ _ I t1 _ H1) as [F1 _]. destruct (o_keeps _ _ _ _ _ _ _ _ O) as [?|(_ & K1 & _)]; [done|].
    destruct (o_room _ _ _ _ _ _ _ _ O) as [?|[F|[N|[?|[[B C]|?]]]]]; [done|rewrite K1 in F; done|right|by left|right|done].
    + exists t. by apply moved_next.
    + apply other_stays; [done|]. apply (o_lost _ _ _ _ _ _ _ _ O) in Lo.
      destruct (l_room _ _ _ I t1 w H1 Lo) as [?|?]; [lia|done].
Qed.
