(* ===== verification/PipeCalls.v ===== *)
(** * Pipes: inside a section

    [mid] is the invariant while a section runs: what it will have to
    establish at its end, with the lock and busy counts the thread has at the
    moment.  One lemma per primitive: flags, lock, notification, buffer. *)

From stdpp Require Import base numbers list option gmap fin_maps.
From Stdlib Require Import ZArith Lia Bool.
From S2P Require Import Prelude Pipe PipeInv.
Local Open Scope Z_scope.

Section Mid.
Context (P : pipe) (m : lmap) (h : list pevent) (t : nat) (I : linv P m h).
Implicit Types x : ps.

Definition keeps0 (f f' : Z) : Prop :=
  (has f PIPE_WANTR = true -> has f' PIPE_WANTR = true) /\ (has f PIPE_WANTW = true -> has f' PIPE_WANTW = true)
  /\ (has f PIPE_WANT = true -> has f' PIPE_WANT = true)
  /\ (has f PIPE_LWANT = true /\ has f PIPE_LOCK = true -> has f' PIPE_LWANT = true /\ has f' PIPE_LOCK = true)
  /\ (has f' PIPE_EOF = true -> has f PIPE_EOF = true).

Record mid x (lk bz : nat) : Prop := {
  m_alive : pipe_freed (ps_p x) = false;
  m_ring : ring (buf x);
  m_lock : (Nat.b2n (hasf x PIPE_LOCK) + before holds m t = Nat.b2n (has (pipe_state P) PIPE_LOCK) + lk)%nat;
  m_busy : busy x + Z.of_nat (before busies m t) = pipe_busy P + Z.of_nat bz;
  m_buf : buf x = pipe_buffer P \/ before holds m t = 1%nat \/ has (pipe_state P) PIPE_LOCK = false;
  m_keeps : ps_wake x = true \/ keeps0 (pipe_state P) (pipe_state (ps_p x));
  m_eof : has (pipe_state P) PIPE_EOF = true -> hasf x PIPE_EOF = true;
  m_hist : ((h ++ ps_log x) ≫= ev_lost) = [] ->
    ((h ++ ps_log x) ≫= ev_read) ++ contents (buf x) = ((h ++ ps_log x) ≫= ev_wrote);
  m_atomic : Forall ev_atomic (h ++ ps_log x);
  m_peer : pipe_peer (ps_p x) = pipe_peer P;
  m_size : PIPE_SIZE <= b_size (buf x) }.

Definition ok (r : ps * next) : Prop :=
  section_ok P m h t (ps_p r.1) (ps_wake r.1) r.2 (h ++ ps_log r.1).

Lemma mid_enter g : mid (PS P false g []) (before holds m t) (before busies m t).
Proof.
  split; simpl; rewrite ?app_nil_r; try (by apply I); auto.
  right. unfold keeps0. tauto.
Qed.

(** Why the sleeping readers and writers may sleep on although this thread
    does not wake them: the buffer is empty or full enough, or it was as it is
    before the section, in which this thread owed them nothing. *)
Definition rdebt x : Prop := cnt (buf x) = 0 \/ (before owes m t = O /\ 0 < cnt (pipe_buffer P)).
Definition wdebt x : Prop :=
  MINPIPESIZE <= cnt (buf x) \/ (before drains m t = O /\ cnt (pipe_buffer P) < MINPIPESIZE) \/ ((h ++ ps_log x) ≫= ev_lost) <> [].

(** The end of a section. *)
Lemma mid_end x lk bz n :
  mid x lk bz -> lk = next_count holds n -> bz = next_count busies n ->
  (ps_wake x = true \/ hasf x PIPE_WANT = false \/ (pipe_busy P <> 0 -> busy x <> 0)) ->
  match n with
  | Sleeps l => lbuf (buf x) l /\ lsleep (ps_p x) l
  | Moves l => lbuf (buf x) l
  | Returns _ => True
  | Panics => False
  end ->
  (forall r, n = Sleeps (RdSleep r) -> ps_wake x = true \/ hasf x PIPE_WANTW = false) ->
  (forall w, n = Sleeps (WrSleep w) -> ps_wake x = true \/ hasf x PIPE_WANTR = false) ->
  (next_count closes n = 1%nat -> hasf x PIPE_EOF = true
    /\ forall t' a' l, t' <> t -> m !! t' = Some (a', l) -> reads l = false /\ closes l = false) ->
  (next_count reads n = 1%nat -> before reads m t = 1%nat \/ (forall t' a, t' <> t -> m !! t' <> Some (a, ClSleep))) ->
  (ps_wake x = true \/ hasf x PIPE_WANTR = false \/ next_count owes n = 1%nat \/ rdebt x) ->
  (forall r, n = Sleeps (RdSleep r) -> cnt (buf x) = 0) ->
  (ps_wake x = true \/ hasf x PIPE_WANTW = false \/ next_count drains n = 1%nat \/ wdebt x) ->
  (forall w, n = Sleeps (WrSleep w) -> MINPIPESIZE <= cnt (buf x)) ->
  ok (x, n).
Proof.
  intros [M1 M2 M3 M4 M5 M6 M7 M8 M9 M10 M11] -> -> Hw Hn Hr Hwr Hc Hrd Hd Hs Hd2 Hs2. unfold ok, hasf in *. split; simpl; auto.
  - destruct Hw as [?|Hw]; [auto|]. destruct M6 as [?|(K1 & K2 & K3 & K4 & K5)]; [auto|]. right.
    split_and!; auto. intros H. split; [auto|]. destruct Hw as [F|?]; [|done]. rewrite K3 in F by done. done.
  - intros r E. destruct (Hr r E) as [?|F]; [auto|]. destruct M6 as [?|(K1 & K2 & _)]; [auto|].
    right. destruct (has (pipe_state P) PIPE_WANTW); [|done]. by rewrite K2 in F.
  - intros w E. destruct (Hwr w E) as [?|F]; [auto|]. destruct M6 as [?|(K1 & K2 & _)]; [auto|].
    right. destruct (has (pipe_state P) PIPE_WANTR); [|done]. by rewrite K1 in F.
  - rewrite bind_app. intros L. by apply app_eq_nil in L as [? _].
Qed.

(** A thread that is busy keeps the pipe busy. *)
Lemma mid_busy_pos x lk : mid x lk 1 -> 0 < busy x.
Proof.
  intros M. assert (B := m_busy _ _ _ M). rewrite (l_busy _ _ _ I) in B.
  assert (D := who_delete (of_pc busies) m t). change (opt_count (of_pc busies) (m !! t)) with (before busies m t) in D. lia.
Qed.

(** ** Primitives *)

(** A change of flags other than [PIPE_LOCK] that forgets no sleeper. *)
Lemma mid_state x lk bz f :
  mid x lk bz -> has f PIPE_LOCK = hasf x PIPE_LOCK -> (hasf x PIPE_EOF = true -> has f PIPE_EOF = true) ->
  (ps_wake x = true \/ keeps0 (pipe_state (ps_p x)) f) -> mid (on_p x (fun P => set_state P f)) lk bz.
Proof.
  intros [M1 M2 M3 M4 M5 M6 M7 M8 M9 M10 M11] L E K. split; unfold hasf, buf, busy in *; simpl in *; auto; try congruence.
  destruct M6 as [?|(K1 & K2 & K3 & K4 & K5)]; [auto|]. destruct K as [?|(J1 & J2 & J3 & J4 & J5)]; [auto|].
  right. split_and!; auto; tauto.
Qed.

Lemma mid_wakes x lk bz : mid x lk bz -> mid (wakes x) lk bz.
Proof. intros [M1 M2 M3 M4 M5 M6 M7 M8 M9 M10 M11]. split; unfold hasf, buf, busy in *; simpl in *; auto. Qed.

(** [wakeup], after which any of these flags may go. *)
Lemma mid_wakes_clr x lk bz f : mid x lk bz -> has f PIPE_LOCK = hasf x PIPE_LOCK -> has f PIPE_EOF = hasf x PIPE_EOF ->
  mid (wakes (on_p x (fun P => set_state P f))) lk bz.
Proof.
  intros M L E. assert (W := mid_wakes _ _ _ M). change (mid (on_p (wakes x) (fun P => set_state P f)) lk bz).
  apply mid_state; auto. unfold hasf in *. simpl. congruence.
Qed.

Lemma mid_clr_wake x lk bz f : pflag f = true -> f <> PIPE_LOCK -> f <> PIPE_EOF -> mid x lk bz -> mid (clr_wake x f) lk bz.
Proof.
  intros F N1 N2 M. unfold clr_wake. destruct (hasf x f); [|done].
  apply (mid_wakes_clr x lk bz (clr_flag (pipe_state (ps_p x)) f) M);
    rewrite has_clr by done; unfold hasf; rewrite (proj2 (Z.eqb_neq _ _)) by done; simpl; by rewrite andb_true_r.
Qed.

(** Setting a flag that a sleeper or nobody looks at. *)
Lemma mid_setf x lk bz f : pflag f = true -> f <> PIPE_LOCK -> f <> PIPE_EOF -> mid x lk bz -> mid (setf x f) lk bz.
Proof.
  intros F N1 N2 M. apply mid_state; auto.
  - rewrite has_set, (proj2 (Z.eqb_neq _ _)) by done. by rewrite orb_false_r.
  - rewrite has_set, (proj2 (Z.eqb_neq _ _)) by done. by rewrite orb_false_r.
  - right. unfold keeps0. rewrite !has_set by done.
    rewrite (proj2 (Z.eqb_neq f PIPE_EOF)), orb_false_r by done. split_and!; try (intros ->; done); try done.
    intros [-> ->]. done.
Qed.

Lemma mid_log x lk bz e : mid x lk bz -> ev_read e = [] -> ev_wrote e = [] -> ev_lost e = [] -> ev_atomic e -> mid (logs x e) lk bz.
Proof.
  intros [M1 M2 M3 M4 M5 M6 M7 M8 M9 M10 M11] E1 E2 E3 E4. split; unfold hasf, buf, busy in *; simpl in *; auto; rewrite app_assoc.
  - rewrite !bind_app. simpl. rewrite E1, E2, E3. rewrite !app_nil_r. rewrite !bind_app in M8. auto.
  - apply Forall_app. auto.
Qed.

Lemma mid_selwakeup x lk bz : mid x lk bz -> mid (pipeselwakeup x) lk bz.
Proof.
  intros M. unfold pipeselwakeup.
  set (y := if hasf x PIPE_SEL then _ else _). assert (My : mid y lk bz).
  { unfold y. destruct (hasf x PIPE_SEL); apply mid_log; try done. apply mid_state; auto.
    - unfold hasf. by flags.
    - unfold hasf. by flags.
    - right. unfold keeps0. flags. tauto. }
  destruct (_ && _); [|done]. by apply mid_log.
Qed.

Lemma selwakeup_buf x : buf (pipeselwakeup x) = buf x /\ busy (pipeselwakeup x) = busy x.
Proof. unfold pipeselwakeup. destruct (hasf x PIPE_SEL); destruct (_ && _); done. Qed.

Lemma selwakeup_has x f : pflag f = true -> f <> PIPE_SEL -> hasf (pipeselwakeup x) f = hasf x f.
Proof.
  intros F N. unfold pipeselwakeup. destruct (hasf x PIPE_SEL); destruct (_ && _); unfold hasf; simpl; try done;
    rewrite has_clr, (proj2 (Z.eqb_neq _ _)) by (first [done | congruence]); simpl; by rewrite andb_true_r.
Qed.

Lemma selwakeup_wake x : ps_wake (pipeselwakeup x) = ps_wake x.
Proof. unfold pipeselwakeup. destruct (hasf x PIPE_SEL); destruct (_ && _); done. Qed.

(** ** The lock *)

Lemma mid_setlock x bz : hasf x PIPE_LOCK = false -> mid x 0 bz -> mid (setf x PIPE_LOCK) 1 bz.
Proof.
  intros L [M1 M2 M3 M4 M5 M6 M7 M8 M9 M10 M11]. split; unfold hasf, buf, busy in *; simpl in *; auto.
  - rewrite has_set, Z.eqb_refl, orb_true_r by done. rewrite L in M3. simpl in *. lia.
  - destruct M6 as [?|K]; [auto|]. right. revert K. unfold keeps0. flags. rewrite L.
    intros (K1 & K2 & K3 & K4 & K5). split_and!; auto. intros H. destruct (K4 H) as [_ ?]. done.
  - flags. auto.
Qed.

Lemma mid_unlock x bz : mid x 1 bz -> mid (pipeunlock x) 0 bz.
Proof.
  intros [M1 M2 M3 M4 M5 M6 M7 M8 M9 M10 M11].
  assert (L : hasf x PIPE_LOCK = true).
  { destruct (hasf x PIPE_LOCK) eqn:E; [done|]. simpl in M3. assert (Lk := l_lock _ _ _ I).
    assert (D := who_delete (of_pc holds) m t). change (opt_count (of_pc holds) (m !! t)) with (before holds m t) in D. lia. }
  rewrite L in M3. unfold pipeunlock, clr_wake.
  assert (G : mid (wakes (clrf x PIPE_LOCK)) 0 bz).
  { split; unfold hasf, buf, busy in *; simpl in *; auto.
    - flags. simpl. lia.
    - flags. auto. }
  destruct (hasf (clrf x PIPE_LOCK) PIPE_LWANT) eqn:W.
  - change (wakes (clrf (clrf x PIPE_LOCK) PIPE_LWANT)) with (clrf (wakes (clrf x PIPE_LOCK)) PIPE_LWANT).
    apply mid_state; auto.
    + unfold hasf. by flags.
    + unfold hasf. by flags.
  - destruct G as [G1 G2 G3 G4 G5 G6 G7 G8 G9 G10]. split; auto. simpl. destruct M6 as [?|K]; [auto|]. right.
    unfold hasf in *. simpl in *. revert K W. unfold keeps0. flags. intros (K1 & K2 & K3 & K4 & K5) W.
    split_and!; auto. intros H. destruct (K4 H) as [? _]. congruence.
Qed.

(** A sleep for the lock. *)
Lemma pipelock_ok x bz l K :
  mid x 0 bz -> (forall y, mid y 1 bz -> buf y = buf x -> ps_log y = ps_log x -> ok (K y)) ->
  holds l = false -> Nat.b2n (busies l) = bz -> closes l = false ->
  (forall b, lbuf b l) -> (forall y, has (pipe_state y) PIPE_LWANT = true /\ has (pipe_state y) PIPE_LOCK = true -> lsleep y l) ->
  (reads l = true -> before reads m t = 1%nat \/ (forall t' a, t' <> t -> m !! t' <> Some (a, ClSleep))) ->
  (bz = 1%nat \/ busy x = pipe_busy P) -> (owes l = true \/ rdebt x) -> wdebt x -> ok (pipelock x l K).
Proof.
  intros M HK Hl Hb Hc Lb Ls Hr Hz Hd Hd2. unfold pipelock. destruct (hasf x PIPE_LOCK) eqn:L.
  - assert (M' : mid (setf x PIPE_LWANT) 0 bz) by (by apply mid_setf).
    eapply mid_end; eauto; simpl.
    + by rewrite Hl.
    + right; right. destruct Hz as [-> |Hz]; [apply mid_busy_pos in M'|]; unfold busy in *; simpl in *; lia.
    + split; [apply Lb|]. apply Ls. unfold hasf in L. simpl. flags. done.
    + intros r [= ->]. by specialize (Ls (Pipe (Pipebuf 0 0 0 0 []) false (2 ^ 9 + 2 ^ 8) 0 None 0) (conj eq_refl eq_refl)) as [? _].
    + intros w [= ->]. by specialize (Ls (Pipe (Pipebuf 0 0 0 0 []) false (2 ^ 9 + 2 ^ 8) 0 None 0) (conj eq_refl eq_refl)) as [? _].
    + by rewrite Hc.
    + destruct (reads l); [auto|done].
    + destruct Hd as [Ho|?]; [right; right; left; by rewrite Ho|right; right; right; done].
    + intros r [= ->]. by specialize (Ls (Pipe (Pipebuf 0 0 0 0 []) false (2 ^ 9 + 2 ^ 8) 0 None 0) (conj eq_refl eq_refl)) as [? _].
    + intros w [= ->]. by specialize (Ls (Pipe (Pipebuf 0 0 0 0 []) false (2 ^ 9 + 2 ^ 8) 0 None 0) (conj eq_refl eq_refl)) as [? _].
  - apply HK; [by apply mid_setlock|done|done].
Qed.

(** ** The buffer *)

Lemma mid_holder x bz : mid x 1 bz -> before holds m t = 1%nat \/ has (pipe_state P) PIPE_LOCK = false.
Proof.
  intros M. assert (M3 := m_lock _ _ _ M). assert (Lk := l_lock _ _ _ I).
  assert (D := who_delete (of_pc holds) m t). change (opt_count (of_pc holds) (m !! t)) with (before holds m t) in D.
  destruct (has (pipe_state P) PIPE_LOCK); [left|auto]. simpl in *. destruct (hasf x PIPE_LOCK); simpl in *; lia.
Qed.

(** A change of the buffer under the lock, with the event that shows it. *)
Lemma mid_setbuf x bz b e :
  mid x 1 bz -> ring b -> PIPE_SIZE <= b_size b -> ev_atomic e ->
  (ev_lost e = [] -> forall R W : list Z, R ++ contents (buf x) = W -> (R ++ ev_read e) ++ contents b = W ++ ev_wrote e) ->
  mid (on_p (logs x e) (fun P => set_buf P b)) 1 bz.
Proof.
  intros M R Sz A H. assert (Hh := mid_holder x bz M). destruct M as [M1 M2 M3 M4 M5 M6 M7 M8 M9 M10 M11].
  split; unfold hasf, buf, busy in *; simpl in *; auto; rewrite app_assoc.
  - rewrite !bind_app in *. simpl. rewrite !app_nil_r. intros L. apply app_eq_nil in L as [L1 L2].
    rewrite <-!bind_app in *. apply H; auto.
  - apply Forall_app. auto.
Qed.

(** A change of memory only. *)
Lemma mid_setmem x bz b : mid x 1 bz -> ring b -> PIPE_SIZE <= b_size b -> contents b = contents (buf x) -> mid (on_p x (fun P => set_buf P b)) 1 bz.
Proof.
  intros M R Sz E. assert (Hh := mid_holder x bz M). destruct M as [M1 M2 M3 M4 M5 M6 M7 M8 M9 M10 M11].
  split; unfold hasf, buf, busy in *; simpl in *; auto. by rewrite E.
Qed.

Lemma mid_busy x lk bz k : mid x lk bz -> mid (on_p x (fun P => set_busy P (pipe_busy P + Z.of_nat k))) lk (bz + k).
Proof.
  intros [M1 M2 M3 M4 M5 M6 M7 M8 M9 M10 M11]. split; unfold hasf, buf, busy in *; simpl in *; auto. lia.
Qed.

Lemma mid_unbusy x lk : mid x lk 1 -> mid (on_p x (fun P => set_busy P (pipe_busy P - 1))) lk 0.
Proof.
  intros [M1 M2 M3 M4 M5 M6 M7 M8 M9 M10 M11]. split; unfold hasf, buf, busy in *; simpl in *; auto. lia.
Qed.

(** A call that returns: it wakes [pipeclose] when it was the last. *)
Lemma mid_returns x e : mid x 0 0 -> (ps_wake x = true \/ hasf x PIPE_WANT = false \/ busy x <> 0) ->
  (ps_wake x = true \/ hasf x PIPE_WANTR = false \/ rdebt x) -> (ps_wake x = true \/ hasf x PIPE_WANTW = false \/ wdebt x) -> ok (x, Returns e).
Proof. intros M W D1 D2. eapply mid_end; eauto; try done; tauto. Qed.

Lemma clr_wake_done x f : pflag f = true -> ps_wake (clr_wake x f) = true \/ hasf (clr_wake x f) f = false.
Proof. intros F. unfold clr_wake. destruct (hasf x f) eqn:E; [by left|by right]. Qed.

Lemma clr_wake_buf x f : buf (clr_wake x f) = buf x /\ ps_log (clr_wake x f) = ps_log x.
Proof. unfold clr_wake. by destruct (hasf x f). Qed.

Lemma unlock_buf x : buf (pipeunlock x) = buf x /\ ps_log (pipeunlock x) = ps_log x.
Proof. unfold pipeunlock. destruct (clr_wake_buf (clrf x PIPE_LOCK) PIPE_LWANT) as [-> ->]. done. Qed.

Lemma unlock_wake x : ps_wake x = true -> ps_wake (pipeunlock x) = true.
Proof. intros W. unfold pipeunlock, clr_wake. by destruct (hasf _ _). Qed.

Lemma unlock_has x f : pflag f = true -> f <> PIPE_LOCK -> f <> PIPE_LWANT -> hasf (pipeunlock x) f = hasf x f.
Proof.
  intros F N1 N2. unfold pipeunlock, clr_wake. destruct (hasf (clrf x PIPE_LOCK) PIPE_LWANT); unfold hasf; simpl;
    rewrite !has_clr by done; rewrite ?(proj2 (Z.eqb_neq PIPE_LOCK f)), ?(proj2 (Z.eqb_neq PIPE_LWANT f)) by congruence;
    simpl; by rewrite ?andb_true_r.
Qed.

Lemma rdebt_buf x y : buf y = buf x -> rdebt x -> rdebt y.
Proof. unfold rdebt. by intros ->. Qed.
Lemma wdebt_buf x y : buf y = buf x -> ps_log y = ps_log x -> wdebt x -> wdebt y.
Proof. unfold wdebt. by intros -> ->. Qed.

Lemma rdebt_unlock x : rdebt x -> rdebt (pipeunlock x).
Proof. apply rdebt_buf, unlock_buf. Qed.

(** ** [pipe_read] *)

Lemma selwakeup_lost x : ((h ++ ps_log (pipeselwakeup x)) ≫= ev_lost) = ((h ++ ps_log x) ≫= ev_lost).
Proof.
  unfold pipeselwakeup. destruct (hasf x PIPE_SEL); destruct (_ && _); simpl; rewrite ?app_assoc, !bind_app; simpl; by rewrite ?app_nil_r.
Qed.

(** The end of a read wakes the writers, or leaves the buffer full enough. *)
Lemma rd_unlocked_ok x e : mid x 0 1 -> rdebt x -> ok (rd_unlocked x e).
Proof.
  intros M D. unfold rd_unlocked. set (x1 := on_p x _). assert (M1 : mid x1 0 0) by (by apply mid_unbusy).
  set (x2 := if (busy x1 =? 0) && _ then _ else _).
  assert (M2 : mid x2 0 0 /\ (ps_wake x2 = true \/ hasf x2 PIPE_WANT = false \/ busy x2 <> 0) /\ rdebt x2
    /\ (ps_wake x2 = true \/ hasf x2 PIPE_WANTW = false \/ wdebt x2)).
  { unfold x2. destruct ((busy x1 =? 0) && hasf x1 PIPE_WANT) eqn:E.
    - split_and!; [|by left|done|by left]. apply mid_wakes_clr; auto; unfold hasf; by flags.
    - assert (C : hasf x1 PIPE_WANT = false \/ busy x1 <> 0).
      { apply andb_false_iff in E as [E|E]; [right; by apply Z.eqb_neq|by left]. }
      destruct (Z.ltb_spec (cnt (buf x1)) MINPIPESIZE); [|split_and!; auto; right; right; by left].
      split_and!; [by apply mid_clr_wake| | |].
      + unfold clr_wake. destruct (hasf x1 PIPE_WANTW); [by left|by right].
      + eapply rdebt_buf; [apply clr_wake_buf|done].
      + destruct (clr_wake_done x1 PIPE_WANTW eq_refl); auto. }
  destruct M2 as (M2 & C2 & D2 & W2). destruct (_ <=? _); [|apply mid_returns; auto].
  apply mid_returns; rewrite ?selwakeup_wake, ?(proj2 (selwakeup_buf x2)), ?selwakeup_has by done; auto.
  - by apply mid_selwakeup.
  - right; right. eapply rdebt_buf; [apply selwakeup_buf|done].
  - destruct W2 as [?|[?|W2]]; auto. right; right. revert W2. unfold wdebt. rewrite selwakeup_lost.
    by rewrite (proj1 (selwakeup_buf x2)).
Qed.

Definition reader : Prop := before reads m t = 1%nat \/ (forall t' a, t' <> t -> m !! t' <> Some (a, ClSleep)).

Lemma rd_loop_ok x r : mid x 1 1 -> 0 <= r_resid r -> reader -> rdebt x -> ok (rd_loop x r).
Proof.
  intros M Hr Rd D. unfold rd_loop. assert (Rg := m_ring _ _ _ M). assert (Du := rdebt_unlock x D).
  destruct (Z.eqb_spec (r_resid r) 0); [by apply rd_unlocked_ok; [apply mid_unlock|]|].
  destruct (Z.ltb_spec 0 (cnt (buf x))).
  { eapply mid_end; eauto; try done.
    - right; right. apply mid_busy_pos in M. lia.
    - unfold buf in *. simpl. destruct Rg as (R1 & R2 & R3 & R4 & R5).
      destruct (Z.ltb_spec (cnt (pipe_buffer (ps_p x))) (b_size (pipe_buffer (ps_p x)) - b_out (pipe_buffer (ps_p x)))); cmp_cases. }
  destruct (hasf x PIPE_EOF) eqn:Eo; [by apply rd_unlocked_ok; [apply mid_unlock|]|].
  set (x1 := clr_wake x PIPE_WANTW). assert (M1 : mid x1 1 1) by (by apply mid_clr_wake).
  assert (E1 : buf x1 = buf x) by apply clr_wake_buf.
  assert (M2 := mid_unlock _ _ M1). assert (E2 : buf (pipeunlock x1) = buf x) by (rewrite <-E1; apply unlock_buf).
  assert (D2 : rdebt (pipeunlock x1)) by (by eapply rdebt_buf).
  destruct (0 <? r_nread r); [by apply rd_unlocked_ok|].
  destruct (r_nb r); [by apply rd_unlocked_ok|].
  assert (M3 : mid (setf (pipeunlock x1) PIPE_WANTR) 0 1) by (by apply mid_setf).
  assert (Wk : ps_wake (setf (pipeunlock x1) PIPE_WANTR) = true \/ hasf (setf (pipeunlock x1) PIPE_WANTR) PIPE_WANTW = false).
  { destruct (clr_wake_done x PIPE_WANTW eq_refl) as [W|W]; [left; by apply unlock_wake|right].
    unfold hasf. simpl. flags. change (hasf (pipeunlock x1) PIPE_WANTW = false). by rewrite unlock_has. }
  assert (Ec : cnt (buf (setf (pipeunlock x1) PIPE_WANTR)) = 0).
  { change (buf (setf ?y _)) with (buf y). rewrite E2. destruct Rg as (_ & _ & R3 & _). lia. }
  eapply mid_end; eauto; try done.
  - right; right. apply mid_busy_pos in M3. unfold busy in *. simpl in *. lia.
  - split; [done|]. simpl. flags. split; [done|]. change (hasf (pipeunlock x1) PIPE_EOF = false).
    rewrite unlock_has by done. unfold x1, clr_wake. destruct (hasf x PIPE_WANTW); unfold hasf in *; simpl; flags; done.
  - tauto.
Qed.

Lemma rd_moved_ok x r size : mid x 1 1 -> reader -> buf x = pipe_buffer P -> before owes m t = O -> lbuf (buf x) (RdMove r size) -> ok (rd_moved x r size).
Proof.
  intros M Rd Eb Bo (H1 & H2 & H3). unfold rd_moved.
  change (ok (rd_loop (on_p (logs x (ERead (mem_read (buf x) (b_out (buf x)) size))) (fun P => set_buf P (take_front (buf x) size)))
    (Rio (r_resid r - size) (sint 32 (r_nread r + size)) (r_nb r)))).
  assert (Rg := m_ring _ _ _ M). apply rd_loop_ok; [|simpl; lia|done|].
  - apply mid_setbuf; auto using take_front_ring; try done.
    + assert (Sz := m_size _ _ _ M). unfold take_front. by destruct (_ =? _).
    + simpl. intros _ R W E. rewrite app_nil_r, <-E, <-app_assoc. f_equal. by rewrite <-take_front_contents.
  - right. rewrite <-Eb. split; [done|lia].
Qed.

(** The pipe as it was when the section began. *)
Lemma rdebt_same x : ring (buf x) -> buf x = pipe_buffer P -> before owes m t = O -> rdebt x.
Proof. intros (_ & _ & R & _) E B. unfold rdebt. rewrite E in *. destruct (decide (cnt (pipe_buffer P) = 0)); [auto|]. right. split; [done|lia]. Qed.
Lemma wdebt_same x : buf x = pipe_buffer P -> before drains m t = O -> wdebt x.
Proof. intros E B. unfold wdebt. rewrite E. destruct (decide (cnt (pipe_buffer P) < MINPIPESIZE)); [auto|left; lia]. Qed.

Lemma rd_start_ok x r : mid x 0 0 -> busy x = pipe_busy P -> buf x = pipe_buffer P -> before owes m t = O -> before drains m t = O ->
  0 <= r_resid r -> reader -> ok (rd_start x r).
Proof.
  intros M B Eb Bo Bd Hr Rd. assert (D := rdebt_same x (m_ring _ _ _ M) Eb Bo). apply (pipelock_ok x 0); auto using wdebt_same; try done.
  intros y My Ey _. apply rd_loop_ok; auto; [by apply (mid_busy y 1 0 1)|]. eapply rdebt_buf; [|exact D]. done.
Qed.

Lemma rd_relock_ok x r : mid x 0 1 -> buf x = pipe_buffer P -> before owes m t = O -> before drains m t = O -> 0 <= r_resid r -> reader -> ok (rd_relock x r).
Proof.
  intros M Eb Bo Bd Hr Rd. assert (D := rdebt_same x (m_ring _ _ _ M) Eb Bo). apply (pipelock_ok x 1); auto using wdebt_same; try done.
  intros y My Ey _. apply rd_loop_ok; auto. by eapply rdebt_buf.
Qed.
End Mid.

(** * [Pipe_write] and [pipeclose] keep the invariant *)

Section Write.
Context (P : pipe) (m : lmap) (h : list pevent) (t : nat) (I : linv P m h).
Implicit Types x : ps.
Notation mid := (mid P m h t).
Notation ok := (ok P m h t).
Notation rdebt := (rdebt P m t).
Notation wdebt := (wdebt P m h t).

(** A call that returns and wakes [pipeclose] and readers. *)
Lemma wr_finish_ok x w e : mid x 0 1 -> wdebt x -> ok (wr_finish x w e).
Proof.
  intros M D. unfold wr_finish. set (x1 := on_p x _). assert (M1 : mid x1 0 0) by (by apply mid_unbusy).
  set (x2 := if (busy x1 =? 0) && _ then _ else _).
  assert (M2 : mid x2 0 0 /\ (ps_wake x2 = true \/ hasf x2 PIPE_WANT = false \/ busy x2 <> 0) /\ wdebt x2
    /\ (ps_wake x2 = true \/ hasf x2 PIPE_WANTR = false \/ rdebt x2)).
  { unfold x2. destruct ((busy x1 =? 0) && hasf x1 PIPE_WANT) eqn:E.
    - split_and!; [|by left|done|by left]. apply mid_wakes_clr; auto; unfold hasf; by flags.
    - assert (C : hasf x1 PIPE_WANT = false \/ busy x1 <> 0).
      { apply andb_false_iff in E as [E|E]; [right; by apply Z.eqb_neq|by left]. }
      destruct (Z.ltb_spec 0 (cnt (buf x1))).
      + split_and!; [by apply mid_clr_wake| | |].
        * unfold clr_wake. destruct (hasf x1 PIPE_WANTR); [by left|by right].
        * eapply wdebt_buf; [apply clr_wake_buf..|done].
        * destruct (clr_wake_done x1 PIPE_WANTR eq_refl); auto.
      + split_and!; auto. right; right; left. assert (Rg := m_ring _ _ _ _ _ _ _ M1). destruct Rg as (_ & _ & R & _). lia. }
  destruct M2 as (M2 & C2 & D2 & W2). destruct (negb _); [|apply mid_returns; auto].
  apply mid_returns; rewrite ?selwakeup_wake, ?(proj2 (selwakeup_buf x2)), ?selwakeup_has by done; auto.
  - by apply mid_selwakeup.
  - destruct W2 as [?|[?|W2]]; auto. right; right. eapply rdebt_buf; [apply selwakeup_buf|done].
  - right; right. revert D2. unfold wdebt. rewrite selwakeup_lost. by rewrite (proj1 (selwakeup_buf x2)).
Qed.

Lemma wr_early_ok x e : mid x 0 1 -> rdebt x -> wdebt x -> ok (wr_early x e).
Proof.
  intros M D1 D2. unfold wr_early. set (x1 := on_p x _). assert (M1 : mid x1 0 0) by (by apply mid_unbusy).
  destruct ((busy x1 =? 0) && hasf x1 PIPE_WANT) eqn:E.
  - apply mid_returns; [|by left..]. apply mid_wakes_clr; auto; unfold hasf; by flags.
  - apply mid_returns; [done| |auto..]. right. apply andb_false_iff in E as [E|E]; [right; by apply Z.eqb_neq|by left].
Qed.

(** With the lock, space enough. *)
Lemma wr_locked_ok retry x w space :
  mid x 1 1 -> wok w -> 0 < w_resid w -> 0 < space -> (w_orig w <= PIPE_BUF -> w_resid w <= space) -> wdebt x ->
  (b_size (buf x) - cnt (buf x) < space -> ok (retry (pipeunlock x) w)) -> ok (wr_locked retry x w space).
Proof.
  intros M Hw Hr Hs Ha D HR. unfold wr_locked. destruct (Z.ltb_spec (b_size (buf x) - cnt (buf x)) space); [auto|].
  assert (Rg := m_ring _ _ _ _ _ _ _ M). assert (Hi := ring_in _ Rg).
  eapply mid_end; eauto; try done.
  - right; right. apply mid_busy_pos in M; [lia|done].
  - unfold lbuf. split; [done|]. cmp_cases; split_and!; lia.
Qed.

Lemma wr_space_ok x w : 0 < w_resid w -> 0 < wr_space x w ->
  wr_space x w = b_size (buf x) - cnt (buf x) /\ (w_orig w <= PIPE_BUF -> w_resid w <= wr_space x w).
Proof.
  intros Hr. unfold wr_space. destruct (Z.ltb_spec (b_size (buf x) - cnt (buf x)) (w_resid w)); simpl; [|lia].
  destruct (Z.leb_spec (w_orig w) PIPE_BUF); lia.
Qed.

Lemma wr_full x w lk bz : mid x lk bz -> wok w -> wr_space x w <= 0 -> MINPIPESIZE <= cnt (buf x).
Proof.
  intros M Hw. assert (Sz := m_size _ _ _ _ _ _ _ M). unfold wok in Hw.
  unfold wr_space, PIPE_BUF, MINPIPESIZE, PIPE_SIZE in *. change (16384 / 3) with 5461.
  destruct (Z.ltb_spec (b_size (buf x) - cnt (buf x)) (w_resid w)); simpl; [|lia].
  destruct (Z.leb_spec (w_orig w) 512); lia.
Qed.

Lemma wdebt_unlock x : wdebt x -> wdebt (pipeunlock x).
Proof. apply wdebt_buf; apply unlock_buf. Qed.

Lemma wr_retry_ok f x w : mid x 0 1 -> wdebt x -> wok w -> 0 < w_resid w -> ok (wr_retry (S f) x w).
Proof.
  intros M D Hw Hr. cbn [wr_retry]. destruct (hasf x PIPE_EOF) eqn:Eo; [by apply wr_finish_ok|].
  destruct (Z.ltb_spec 0 (wr_space x w)) as [Hs|Hs].
  - destruct (wr_space_ok x w Hr Hs) as [Es Ea]. apply (pipelock_ok P m h t I x 1); auto; try done.
    intros y My Eb Ey. apply wr_locked_ok; auto; [by eapply wdebt_buf|]. rewrite Eb. lia.
  - set (x1 := clr_wake x PIPE_WANTR). assert (M1 : mid x1 0 1) by (by apply mid_clr_wake).
    destruct (clr_wake_buf x PIPE_WANTR) as [B1 B2]. fold x1 in B1, B2.
    destruct (w_nb w); [apply wr_finish_ok; [done|]; by eapply wdebt_buf|].
    assert (M3 : mid (setf (pipeselwakeup x1) PIPE_WANTW) 0 1) by (apply mid_setf; try done; by apply mid_selwakeup).
    assert (Wk : ps_wake (setf (pipeselwakeup x1) PIPE_WANTW) = true \/ hasf (setf (pipeselwakeup x1) PIPE_WANTW) PIPE_WANTR = false).
    { unfold hasf. simpl. flags. change (ps_wake (pipeselwakeup x1) = true \/ hasf (pipeselwakeup x1) PIPE_WANTR = false).
      rewrite selwakeup_wake, selwakeup_has by done. by apply clr_wake_done. }
    assert (Fu : MINPIPESIZE <= cnt (buf (setf (pipeselwakeup x1) PIPE_WANTW))).
    { change (buf (setf ?y _)) with (buf y). rewrite (proj1 (selwakeup_buf x1)), B1. by eapply wr_full. }
    eapply mid_end; eauto; try done.
    + right; right. apply mid_busy_pos in M3; [lia|done].
    + split; [done|]. simpl. flags. split; [done|].
      change (hasf (pipeselwakeup x1) PIPE_EOF = false). rewrite selwakeup_has by done.
      unfold x1, clr_wake, hasf in *. case_match; simpl; flags; done.
    + tauto.
    + right; right; right. by left.
Qed.

Lemma wr_loop_ok x w : mid x 0 1 -> wdebt x -> wok w \/ w_resid w = 0 -> ok (wr_loop x w).
Proof.
  intros M D Hw. unfold wr_loop. destruct (Z.eqb_spec (w_resid w) 0) as [E|N]; [by apply wr_finish_ok|].
  destruct Hw as [Hw|?]; [|done]. apply wr_retry_ok; auto. unfold w_resid in *. lia.
Qed.

Lemma wr_relock_ok x w space : mid x 0 1 -> wdebt x -> wok w -> 0 < w_resid w -> 0 < space -> (w_orig w <= PIPE_BUF -> w_resid w <= space) ->
  ok (wr_relock x w space).
Proof.
  intros M D Hw Hr Hs Ha. apply (pipelock_ok P m h t I x 1); auto; try done.
  intros y My Eb Ey. assert (Dy : wdebt y) by (by eapply wdebt_buf).
  apply wr_locked_ok; auto. intros _. apply wr_retry_ok; auto using wdebt_unlock. by apply mid_unlock.
Qed.

Lemma wdebt_log x y e : wdebt x -> cnt (buf x) <= cnt (buf y) -> ps_log y = ps_log x ++ [e] -> wdebt y.
Proof.
  intros [D|[D|D]] Hc E; unfold wdebt; [left; lia|auto|]. right; right. rewrite E, app_assoc, bind_app.
  intros N. apply app_eq_nil in N as [N _]. by apply D.
Qed.

(** The commit of bytes that are in place. *)
Lemma wr_commit_ok x w size seg bs :
  mid x 1 1 -> wdebt x -> 0 < size <= b_size (buf x) - cnt (buf x) -> seg = Z.min size (b_size (buf x) - b_in (buf x)) ->
  mem_read (buf x) (b_in (buf x)) seg ++ mem_read (buf x) 0 (size - seg) = bs -> Z.of_nat (length bs) = size ->
  (w_orig w <= PIPE_BUF -> size = w_orig w /\ w_resid w = 0) -> ok (wr_commit x w size seg bs).
Proof.
  intros M D Hs Hg Hb Hl Ha. assert (Rg := m_ring _ _ _ _ _ _ _ M).
  destruct (add_back_ok (buf x) size seg Rg Hs Hg) as (R' & C' & Hwr). unfold wr_commit.
  rewrite (proj2 (andb_false_iff _ _)).
  2:{ destruct (Z.leb_spec (b_size (buf x)) (b_in (buf x) + size)); [right|by left].
      apply negb_false_iff, Z.eqb_eq. auto. }
  rewrite (proj2 (Z.ltb_ge _ _)) by lia.
  set (y := logs (on_p x _) _). assert (My : mid y 1 1).
  { change (mid (on_p (logs x (EWrote bs (w_orig w))) (fun P => set_buf P (add_back (buf x) size seg))) 1 1).
    apply mid_setbuf; auto.
    + exact (m_size _ _ _ _ _ _ _ M).
    + simpl. intros Ho. destruct (Ha Ho). lia.
    + simpl. intros _ R W E. rewrite C', Hb, app_nil_r, app_assoc, E. done. }
  apply wr_loop_ok.
  - by apply mid_unlock.
  - apply wdebt_unlock. eapply (wdebt_log x); [done| |reflexivity]. change (cnt (buf x) <= cnt (buf x) + size). lia.
  - destruct (decide (w_orig w <= PIPE_BUF)) as [Ho|Ho]; [right; by apply Ha|left]. intros ?. lia.
Qed.

Lemma wr_take_length w n : 0 <= n <= w_resid w -> Z.of_nat (length (take (Z.to_nat n) (w_src w))) = n.
Proof. unfold w_resid. rewrite length_take. lia. Qed.

Lemma wr_rest_resid w n : 0 <= n <= w_resid w -> w_resid (Wio (drop (Z.to_nat n) (w_src w)) (w_orig w) (w_nb w)) = w_resid w - n.
Proof. unfold w_resid. simpl. rewrite length_drop. lia. Qed.

(** Memory written into the free part at [b_in]. *)
Lemma mid_first x bz bs : mid x 1 bz -> Z.of_nat (length bs) <= b_size (buf x) - b_in (buf x) ->
  Z.of_nat (length bs) <= b_size (buf x) - cnt (buf x) ->
  mid (on_p x (fun P => set_buf P (mem_write (pipe_buffer P) (b_in (buf x)) bs))) 1 bz.
Proof.
  intros M H1 H2. assert (Rg := m_ring _ _ _ _ _ _ _ M). assert (Hi := ring_in _ Rg).
  apply (mid_setmem P m h t I x bz (mem_write (buf x) (b_in (buf x)) bs)); auto.
  - apply mem_write_ring; auto; lia.
  - exact (m_size _ _ _ _ _ _ _ M).
  - apply mem_write_contents; auto; try lia. intros i Hc. rewrite <-(Nat2Z.id (length bs)). apply free_first; auto; lia.
Qed.

Lemma mid_second x bz bs seg : mid x 1 bz -> b_in (buf x) + seg = b_size (buf x) -> 0 <= seg ->
  seg + Z.of_nat (length bs) <= b_size (buf x) - cnt (buf x) ->
  mid (on_p x (fun P => set_buf P (mem_write (pipe_buffer P) 0 bs))) 1 bz.
Proof.
  intros M H1 H2 H3. assert (Rg := m_ring _ _ _ _ _ _ _ M). assert (Hi := ring_in _ Rg).
  assert (Rc : 0 <= cnt (buf x)) by apply Rg.
  apply (mid_setmem P m h t I x bz (mem_write (buf x) 0 bs)); auto.
  - apply mem_write_ring; auto; lia.
  - exact (m_size _ _ _ _ _ _ _ M).
  - apply mem_write_contents; auto; try lia. intros i Hc. rewrite <-(Nat2Z.id (length bs)). by apply (free_second (buf x) _ seg); auto; lia.
Qed.

Lemma wr_moved_ok x w size seg : mid x 1 1 -> wdebt x -> lbuf (buf x) (WrMove w size seg) -> ok (wr_moved x w size seg).
Proof.
  intros M D (Hw & Hs & Hg & Hr & Ha). assert (Rg := m_ring _ _ _ _ _ _ _ M). assert (Hi := ring_in _ Rg).
  assert (Rb : Z.of_nat (length (buffer (buf x))) = b_size (buf x)) by apply Rg.
  unfold wr_moved, wr_move. set (bs := take _ _). set (w' := Wio _ _ _). set (x' := on_p x _).
  assert (Lb : Z.of_nat (length bs) = seg) by (apply wr_take_length; lia).
  assert (Lr : w_resid w' = w_resid w - seg) by (apply wr_rest_resid; lia).
  assert (M' : mid x' 1 1) by (apply mid_first; auto; lia).
  assert (Eb : buf x' = mem_write (buf x) (b_in (buf x)) bs) by done.
  assert (Er : mem_read (buf x') (b_in (buf x)) seg = bs).
  { rewrite Eb, <-Lb. apply mem_read_write; lia. }
  destruct (Z.ltb_spec seg size).
  - rewrite (proj2 (negb_false_iff _)).
    2:{ apply Z.eqb_eq. rewrite Eb. simpl. lia. }
    eapply mid_end; eauto; try done.
    + right; right. apply mid_busy_pos in M'; [lia|done].
    + unfold lbuf. split_and!; auto; rewrite ?Eb; simpl; try lia.
      change (w_orig w') with (w_orig w). intros Ho. specialize (Ha Ho). specialize (Hw Ho). lia.
  - assert (size = seg) by lia. subst size. apply wr_commit_ok; auto.
    + change (b_in (buf x')) with (b_in (buf x)). rewrite Er, Z.sub_diag. unfold mem_read. simpl. by rewrite app_nil_r.
    + change (w_orig w') with (w_orig w). intros Ho. specialize (Ha Ho). specialize (Hw Ho). lia.
Qed.

Lemma wr_moved2_ok x w size seg moved : mid x 1 1 -> wdebt x -> lbuf (buf x) (WrMove2 w size seg moved) -> ok (wr_moved2 x w size seg moved).
Proof.
  intros M D (Hs & Hg & Hlt & Hr & Hm & Ha). assert (Rg := m_ring _ _ _ _ _ _ _ M). assert (Hi := ring_in _ Rg).
  assert (Rc : 0 <= cnt (buf x)) by apply Rg.
  assert (Rb : Z.of_nat (length (buffer (buf x))) = b_size (buf x)) by apply Rg.
  unfold wr_moved2, wr_move. set (bs := take _ _). set (w' := Wio _ _ _). set (x' := on_p x _).
  assert (Lb : Z.of_nat (length bs) = size - seg) by (apply wr_take_length; lia).
  assert (Lr : w_resid w' = w_resid w - (size - seg)) by (apply wr_rest_resid; lia).
  assert (M' : mid x' 1 1) by (apply (mid_second x 1 bs seg); auto; lia).
  assert (Eb : buf x' = mem_write (buf x) 0 bs) by done.
  assert (Lm : Z.of_nat (length moved) = seg) by (rewrite <-Hm; unfold mem_read; rewrite length_take, length_drop; lia).
  apply wr_commit_ok; auto.
  - rewrite Eb. change (b_in (mem_write (buf x) 0 bs)) with (b_in (buf x)).
    rewrite mem_read_write_ne by (rewrite ?Lb; lia). rewrite Hm. f_equal. rewrite <-Lb. apply mem_read_write; lia.
  - rewrite length_app. lia.
  - change (w_orig w') with (w_orig w). intros Ho. destruct (Ha Ho). lia.
Qed.

Lemma wr_fault_ok x w k j at_ : mid x 1 1 -> wdebt x ->
  mid (on_p x (fun P => set_buf P (mem_write (pipe_buffer P) at_ (take (Z.to_nat j) (w_src w))))) 1 1 -> ok (wr_fault x w at_ k j).
Proof. intros M D M'. unfold wr_fault. apply wr_finish_ok; [by apply mid_unlock|]. by apply wdebt_unlock. Qed.

(** ** Resizing *)

Lemma pipespace_mid x bz mem : Z.of_nat (length mem) = BIG_PIPE_SIZE -> mid x 1 bz -> mid (pipespace x BIG_PIPE_SIZE (Some mem)).1 1 bz.
Proof.
  intros Hl M. unfold pipespace. rewrite (m_alive _ _ _ _ _ _ _ M). simpl.
  set (y := if cnt (buf x) =? 0 then x else _). unfold pipe_free_kmem.
  assert (Ey : ps_p y = ps_p x) by (unfold y; by case_match). rewrite Ey, (m_alive _ _ _ _ _ _ _ M). simpl.
  set (b := Pipebuf 0 0 0 BIG_PIPE_SIZE mem).
  assert (Rb : ring b) by (unfold ring, b; simpl; split_and!; try done; lia).
  assert (Cb : contents b = []) by done.
  assert (G : mid (on_p y (fun P => set_buf P b)) 1 bz).
  { unfold y. destruct (Z.eqb_spec (cnt (buf x)) 0) as [Z0|N0].
    - apply mid_setmem; auto; [done|]. rewrite Cb. symmetry. apply nil_length_inv.
      assert (L := contents_length (buf x) (m_ring _ _ _ _ _ _ _ M)). lia.
    - apply mid_setbuf; auto; [done|done|]. simpl. intros El.
      assert (L := contents_length (buf x) (m_ring _ _ _ _ _ _ _ M)). rewrite El in L. simpl in L. lia. }
  destruct G as [G1 G2 G3 G4 G5 G6 G7 G8 G9 G10]. unfold set_buf, hasf, buf, busy in *. simpl in *. rewrite Ey in *.
  split; unfold hasf, buf, busy; simpl; auto.
Qed.

(** What a change of the buffer throws away is in the history. *)
Lemma pipespace_wdebt x mem : mid x 1 1 -> buf x = pipe_buffer P -> before drains m t = O ->
  wdebt (pipespace x BIG_PIPE_SIZE (Some mem)).1.
Proof.
  intros M Eb Bd. unfold pipespace. rewrite (m_alive _ _ _ _ _ _ _ M). simpl. rewrite Eb.
  destruct (decide (cnt (pipe_buffer P) < MINPIPESIZE)) as [Hc|Hc]; [right; left; done|right; right].
  assert (N0 : cnt (pipe_buffer P) <> 0) by (unfold MINPIPESIZE, PIPE_SIZE in Hc; change (16384 / 3) with 5461 in Hc; lia).
  rewrite (proj2 (Z.eqb_neq _ _)) by done. destruct (pipe_free_kmem _ _) as [P1 g1]. simpl. rewrite app_assoc, bind_app. simpl.
  intros N. apply app_eq_nil in N as [_ N]. rewrite app_nil_r in N.
  assert (L := contents_length (pipe_buffer P) (l_ring _ _ _ I)). rewrite N in L. simpl in L. lia.
Qed.

Lemma wz_alloc_ok x w o : mid x 1 1 -> buf x = pipe_buffer P -> before drains m t = O -> wok w ->
  match o with Some mem => Z.of_nat (length mem) = BIG_PIPE_SIZE | None => True end -> ok (wz_alloc x w o).
Proof.
  intros M Eb Bd Hw Ho. unfold wz_alloc. destruct (pipespace x BIG_PIPE_SIZE o) as [y e] eqn:E.
  assert (My : mid y 1 1 /\ wdebt y).
  { destruct o as [mem|]; [|simpl in E; injection E as <- <-; split; [done|by apply wdebt_same]].
    assert (G := pipespace_mid x 1 mem Ho M). assert (D := pipespace_wdebt x mem M Eb Bd). by rewrite E in G, D. }
  destruct My as [My Dy]. set (z := if e =? 0 then _ else _).
  assert (Mz : mid z 1 1 /\ wdebt z).
  { unfold z. destruct (e =? 0); [|done]. split; [|done]. destruct My as [G1 G2 G3 G4 G5 G6 G7 G8 G9 G10 G11]. by split. }
  destruct Mz. apply wr_loop_ok; [by apply mid_unlock|by apply wdebt_unlock|by left].
Qed.

Lemma wz_relock_ok x w : mid x 0 1 -> buf x = pipe_buffer P -> before owes m t = O -> before drains m t = O -> wok w -> ok (wz_relock x w).
Proof.
  intros M Eb Bo Bd Hw. assert (D := rdebt_same P m t x (m_ring _ _ _ _ _ _ _ M) Eb Bo).
  apply (pipelock_ok P m h t I x 1); auto using wdebt_same; try done.
  intros y My Ey Ly. assert (Ey2 : buf y = pipe_buffer P) by congruence. eapply mid_end; eauto; try done.
  - right; right. apply mid_busy_pos in My; [lia|done].
  - right; right; right. by eapply rdebt_buf.
  - right; right; right. by apply wdebt_same.
Qed.

Lemma wok_of data nb : Z.of_nat (length data) < 2 ^ 31 -> wok (wio_of data nb).
Proof.
  intros H _. unfold w_resid, wio_of. simpl. unfold sint. rewrite Z.mod_small by lia. rewrite (proj2 (Z.ltb_lt _ _)); lia.
Qed.

Lemma wr_start_ok x w : mid x 0 0 -> busy x = pipe_busy P -> buf x = pipe_buffer P -> before owes m t = O -> before drains m t = O ->
  wok w -> ok (wr_start x w).
Proof.
  intros M B Eb Bo Bd Hw. unfold wr_start. destruct (hasf x PIPE_EOF).
  { eapply mid_end; eauto; try done.
    - right; right. congruence.
    - right; right; right. apply rdebt_same; auto. by eapply m_ring.
    - right; right; right. by apply wdebt_same. }
  assert (M1 : mid (on_p x (fun P => set_busy P (pipe_busy P + 1))) 0 1) by (by apply (mid_busy P m h t x 0 0 1)).
  destruct (_ && _); [by apply wz_relock_ok|]. apply wr_loop_ok; auto. by apply wdebt_same.
Qed.

(** ** [pipeclose] *)

Definition alone : Prop := forall t' a l, t' <> t -> m !! t' = Some (a, l) -> reads l = false /\ closes l = false.

(** While others are at work, [pipeclose] wakes them and sleeps. *)
Lemma cl_wait_ok x : mid x 0 0 -> busy x <> 0 -> alone -> ok (setf (setf (wakes x) PIPE_EOF) PIPE_WANT, Sleeps ClSleep).
Proof.
  intros M N A. assert (M1 : mid (setf (wakes x) PIPE_EOF) 0 0).
  { apply mid_state; [by apply mid_wakes|..]; unfold hasf; simpl; flags; auto. }
  eapply (mid_end P m h t _ 0 0); [by apply mid_setf|..]; try done.
  - by left.
  - split; [done|]. simpl. flags. done.
  - intros _. split; [|done]. unfold hasf in *. simpl. by flags.
  - by left.
  - by left.
Qed.

Lemma cl_turn_wait_ok x : mid x 0 0 -> hasf x PIPE_EOF = true -> busy x <> 0 -> alone -> ok (setf (wakes x) PIPE_WANT, Sleeps ClSleep).
Proof.
  intros M E N A. eapply (mid_end P m h t _ 0 0); [by apply mid_setf, mid_wakes|..]; try done.
  - by left.
  - split; [done|]. simpl. flags. done.
  - intros _. split; [|done]. unfold hasf in *. simpl. by flags.
  - by left.
  - by left.
Qed.

(** Nobody is at work: the pipe has no other thread. *)
Lemma cl_alone : alone -> before busies m t = O -> pipe_busy P = 0 -> forall t' v, t' <> t -> m !! t' <> Some v.
Proof.
  intros A _ B t' [a l] Hn H. rewrite (l_busy _ _ _ I) in B.
  assert (E := who_empty (of_pc busies) m ltac:(lia) t' (a, l) H). destruct (A t' a l Hn H) as [A1 A2].
  unfold of_pc in E. simpl in E. destruct l as [[] ?| | | | | | | | |]; done.
Qed.
End Write.
