(* ===== verification/PipeSys.v ===== *)
(** * Pipes: the invariant of the system

    The contract of the file layer ([pguard]), the invariant of all pipes and
    threads, and that every step keeps it without a panic or an access to a
    freed pipe. *)

From stdpp Require Import base numbers list option gmap fin_maps.
From Stdlib Require Import ZArith Lia Bool.
From S2P Require Import Prelude Pipe PipeInv PipeCalls.
Local Open Scope Z_scope.

(** ** The contract *)

(** The calls on the pipe [q], and its events. *)
Definition local (q : nat) (th : thread) : option (bool * lpc) :=
  match th with At a q' l => if Nat.eqb q q' then Some (a, l) else None | Out => None end.
Definition locals (s : psys) (q : nat) : lmap := omap (local q) (thr s).
Definition event (q : nat) (e : nat * pevent) : option pevent := if Nat.eqb q e.1 then Some e.2 else None.
Definition events (s : psys) (q : nat) : list pevent := omap (event q) (plog s).

Definition block_ok (o : option (list Z)) : Prop :=
  match o with Some mem => Z.of_nat (length mem) = PIPE_SIZE | None => True end.

(** A thread makes one call at a time on an open file; a file is closed when
    no read on it is left ([f_usecount]); an address is not used again; a write
    is shorter than 2 GB (longer ones go wrong, [pipe_defects]). *)
Definition pguard (s : psys) (t : nat) (c : call) : Prop :=
  thr s !! t = Some Out /\
  match c with
  | CRead q n _ => is_Some (pipes s !! q) /\ 0 <= n /\ map_Forall (fun _ v => closes v.2 = false) (locals s q)
  | CWrite q data _ => is_Some (pipes s !! q) /\ Z.of_nat (length data) < 2 ^ 31
  | CClose q => is_Some (pipes s !! q) /\ map_Forall (fun _ v => reads v.2 = false /\ closes v.2 = false) (locals s q)
  | CPipe q1 q2 m1 m2 _ _ _ => q1 <> q2 /\ pipes s !! q1 = None /\ pipes s !! q2 = None /\ events s q1 = []
      /\ events s q2 = [] /\ block_ok m1 /\ block_ok m2
  | CPoll q _ | CIoctl q _ => is_Some (pipes s !! q)
  end.

Inductive pstep : psys -> outcome -> Prop :=
  | pstep_start s t c : pguard s t c -> pstep s (start s t c)
  | pstep_continue s t a : pstep s (continue s t a).

Definition pinit (s : psys) : Prop := pipes s = ∅ /\ map_Forall (fun _ th => th = Out) (thr s) /\ plog s = [].

Inductive preach : psys -> Prop :=
  | preach_init s : pinit s -> preach s
  | preach_step s s' : preach s -> pstep s (Goes s') -> preach s'.

(** ** The invariant *)

Record pinv (s : psys) : Prop := {
  p_local : forall q P, pipes s !! q = Some P -> linv P (locals s q) (events s q);
  p_thr : forall t a q l, thr s !! t = Some (At a q l) -> is_Some (pipes s !! q);
  p_peer : forall q P q', pipes s !! q = Some P -> pipe_peer P = Some q' ->
    q' <> q /\ exists P', pipes s !! q' = Some P' /\ pipe_peer P' = Some q }.

Definition pgood (o : outcome) : Prop := match o with Stuck => True | Faults => False | Goes s => pinv s end.

(** ** Threads and events of a pipe *)

Lemma locals_lookup s q t a l : locals s q !! t = Some (a, l) <-> thr s !! t = Some (At a q l).
Proof.
  unfold locals. rewrite lookup_omap. destruct (thr s !! t) as [[|a' q' l']|]; simpl; try done.
  destruct (Nat.eqb_spec q q') as [->|N]; split; congruence.
Qed.

Lemma locals_none s q t : thr s !! t = Some Out -> locals s q !! t = None.
Proof. unfold locals. rewrite lookup_omap. by intros ->. Qed.

(** A thread that may run a section on [q]. *)
Definition may_run (s : psys) (t q : nat) : Prop := thr s !! t = Some Out \/ exists a l, thr s !! t = Some (At a q l).

Lemma commit_locals s t q x n : may_run s t q -> locals (commit s t q (x, n)) q = moved_on (locals s q) t (ps_wake x) n.
Proof.
  intros _. apply map_eq. intros t2. unfold locals at 1, commit. simpl. rewrite lookup_omap. unfold moved_on.
  assert (E : (if ps_wake x then wake q <$> thr s else thr s) !! t2 ≫= local q = (if ps_wake x then awake <$> locals s q else locals s q) !! t2).
  { destruct (ps_wake x); [|unfold locals; by rewrite lookup_omap]. rewrite !lookup_fmap. unfold locals. rewrite lookup_omap.
    destruct (thr s !! t2) as [[|a q' l]|]; simpl; try done. destruct (Nat.eqb_spec q q') as [->|N]; simpl.
    - by rewrite Nat.eqb_refl.
    - by rewrite (proj2 (Nat.eqb_neq _ _)). }
  destruct (decide (t2 = t)) as [->|Hn].
  - rewrite lookup_insert_eq. simpl. destruct n; simpl; rewrite ?Nat.eqb_refl, ?lookup_insert_eq, ?lookup_delete_eq; done.
  - rewrite lookup_insert_ne by congruence. destruct n; rewrite ?lookup_insert_ne, ?lookup_delete_ne by congruence; exact E.
Qed.

Lemma wake_other q q' (th : thread) : q' <> q -> local q' (wake q th) = local q' th.
Proof.
  intros N. destruct th as [|a q2 l]; [done|]. simpl. destruct (Nat.eqb_spec q q2) as [<-|]; [|done]. simpl.
  by rewrite (proj2 (Nat.eqb_neq _ _)).
Qed.

Lemma wake_locals (f : gmap nat thread) q q' : q' <> q -> omap (local q') (wake q <$> f) = omap (local q') f :> lmap.
Proof.
  intros N. apply map_eq. intros t. rewrite !lookup_omap, lookup_fmap. destruct (f !! t); simpl; [|done]. by apply wake_other.
Qed.

Lemma commit_locals_other s t q q' x n : q' <> q -> may_run s t q -> locals (commit s t q (x, n)) q' = locals s q'.
Proof.
  intros N R. apply map_eq. intros t2. unfold locals, commit. simpl. rewrite !lookup_omap.
  destruct (decide (t2 = t)) as [->|Hn].
  - rewrite lookup_insert_eq. simpl.
    assert (E1 : thr s !! t ≫= local q' = None).
    { destruct R as [-> | (a & l & ->)]; [done|]. simpl. by rewrite (proj2 (Nat.eqb_neq _ _)). }
    rewrite E1. destruct n; simpl; by rewrite ?(proj2 (Nat.eqb_neq _ _)).
  - rewrite lookup_insert_ne by congruence. destruct (ps_wake x); [|done]. rewrite lookup_fmap.
    destruct (thr s !! t2); simpl; [|done]. by apply wake_other.
Qed.

Lemma events_pair q q' (l : list pevent) : omap (event q') (pair q <$> l) = if Nat.eqb q' q then l else [].
Proof.
  induction l as [|e l IH]; simpl; [by destruct (Nat.eqb q' q)|]. unfold event at 1. simpl. unfold omap, fmap in IH.
  destruct (Nat.eqb q' q); by rewrite IH.
Qed.

Lemma commit_events s t q q' x n : events (commit s t q (x, n)) q' = events s q' ++ (if Nat.eqb q' q then ps_log x else []).
Proof. unfold events, commit. simpl. by rewrite omap_app, events_pair. Qed.

(** ** The invariant of a pipe under changes that it does not see *)

Lemma linv_cong P P' m h : linv P m h -> pipe_buffer P' = pipe_buffer P -> pipe_freed P' = pipe_freed P -> pipe_busy P' = pipe_busy P ->
  (forall f, pflag f = true -> f <> PIPE_SEL -> f <> PIPE_ASYNC -> has (pipe_state P') f = has (pipe_state P) f) -> linv P' m h.
Proof.
  intros [L1 L2 L3 L4 L5 L6 L7 L8 L9 L10 L11 L12 L13] E1 E2 E3 F. split; rewrite ?E1, ?E2, ?E3, ?F by done; auto.
  - intros t l H. specialize (L6 t l H). unfold lsleep in *. rewrite !F, E3 by done. done.
Qed.

(** A section on one pipe. *)
Lemma commit_pinv s t q P x n : pinv s -> pipes s !! q = Some P -> may_run s t q -> n <> Panics ->
  ok P (locals s q) (events s q) t (x, n) -> pinv (commit s t q (x, n)).
Proof.
  intros I Hq R Hn O. assert (Hp := o_peer _ _ _ _ _ _ _ _ O). simpl in Hp. split.
  - intros q2 P2 H2. rewrite commit_events. destruct (decide (q2 = q)) as [->|N].
    + unfold commit in H2. simpl in H2. rewrite lookup_insert_eq in H2. injection H2 as <-.
      rewrite commit_locals, Nat.eqb_refl by done. eapply local_step; [by apply (p_local _ I)|exact O].
    + unfold commit in H2. simpl in H2. rewrite lookup_insert_ne in H2 by congruence.
      rewrite commit_locals_other by done. rewrite (proj2 (Nat.eqb_neq _ _)), app_nil_r by done. by apply (p_local _ I).
  - intros t2 a q2 l H2. unfold commit in *. simpl in *.
    assert (G : is_Some (pipes s !! q2)).
    { destruct (decide (t2 = t)) as [->|N].
      - rewrite lookup_insert_eq in H2. destruct n; simpl in H2; try done; injection H2 as <- <- <-; eauto.
      - rewrite lookup_insert_ne in H2 by congruence. destruct (ps_wake x); [|by eapply p_thr].
        rewrite lookup_fmap in H2. destruct (thr s !! t2) as [[|a2 q3 l2]|] eqn:E; simpl in H2; try done.
        destruct (Nat.eqb q q3); injection H2 as <- <- <-; by eapply p_thr. }
    destruct (decide (q2 = q)) as [->|]; [rewrite lookup_insert_eq; eauto|by rewrite lookup_insert_ne by congruence].
  - intros q2 P2 q3 H2 H3. unfold commit in *. simpl in *.
    assert (G : exists P0, pipes s !! q2 = Some P0 /\ pipe_peer P0 = Some q3).
    { destruct (decide (q2 = q)) as [->|N].
      - rewrite lookup_insert_eq in H2. injection H2 as <-. exists P. split; [done|]. congruence.
      - rewrite lookup_insert_ne in H2 by congruence. eauto. }
    destruct G as (P0 & G1 & G2). destruct (p_peer _ I q2 P0 q3 G1 G2) as (G3 & P3 & G4 & G5). split; [done|].
    destruct (decide (q3 = q)) as [->|N].
    + rewrite lookup_insert_eq. exists (ps_p x). split; [done|]. rewrite Hp. congruence.
    + rewrite lookup_insert_ne by congruence. eauto.
Qed.

(** ** Sections *)

Section OneSection.
Context (s : psys) (t q : nat) (P : pipe) (I : pinv s) (Hq : pipes s !! q = Some P).

Let m := locals s q.
Let h := events s q.
Let L : linv P m h := p_local _ I q P Hq.

Lemma run_section_good f : may_run s t q -> (forall r, f (enter s P) = Some r -> ok P m h t r) -> pgood (run_section s t q f).
Proof.
  intros R H. unfold run_section. rewrite Hq. destruct (f (enter s P)) as [[x n]|] eqn:E; [|done].
  specialize (H _ eq_refl). assert (N := o_next _ _ _ _ _ _ _ _ H). simpl in N.
  destruct n; try done; by apply (commit_pinv s t q P).
Qed.

Lemma enter_mid a l : m !! t = Some (a, l) -> mid P m h t (enter s P) (Nat.b2n (holds l)) (Nat.b2n (busies l)).
Proof.
  intros H. assert (M := mid_enter P m h t L (glob s)). unfold before in M. by rewrite H in M.
Qed.

Lemma enter_mid_out : thr s !! t = Some Out -> mid P m h t (enter s P) 0 0.
Proof.
  intros H. assert (M := mid_enter P m h t L (glob s)).
  assert (E : forall f, before f m t = O) by (intros f; unfold before, m; by rewrite locals_none). by rewrite !E in M.
Qed.

Lemma reader_at a l : m !! t = Some (a, l) -> reads l = true -> reader m t.
Proof. intros H R. left. unfold before. rewrite H. simpl. unfold of_pc. simpl. by rewrite R. Qed.

(** Every answer to a call on [q]. *)
Lemma section_good a l ans r : thr s !! t = Some (At a q l) -> section (enter s P) l ans = Some r -> ok P m h t r.
Proof.
  intros Ht Hs. assert (Hm : m !! t = Some (a, l)) by (by apply locals_lookup).
  assert (M := enter_mid a l Hm). assert (B := l_buf _ _ _ L t a l Hm). change (pipe_buffer P) with (buf (enter s P)) in B.
  assert (Bf : forall f, before f m t = Nat.b2n (f l)) by (intros f; unfold before; by rewrite Hm).
  assert (Dr : before owes m t = O -> rdebt P m t (enter s P)) by (apply rdebt_same; [exact (l_ring _ _ _ L)|done]).
  assert (Dw : before drains m t = O -> wdebt P m h t (enter s P)) by (by apply wdebt_same).
  assert (Rd : reads l = true -> reader m t) by (by eapply reader_at).
  destruct l as [[] rr|rr size|rr|w|w|w space|w size seg|w size seg mv|w|], ans as [|e| |k j|o]; simpl in Hs, M;
    try done; repeat case_match; try done; injection Hs as <-;
    pose proof (Bf owes) as Bo; pose proof (Bf drains) as Bd; simpl in Bo, Bd; try specialize (Dr Bo); try specialize (Dw Bd).
  - apply rd_relock_ok; auto.
  - by apply rd_unlocked_ok.
  - apply rd_start_ok; auto.
  - eapply mid_end; eauto; try done; tauto.
  - apply rd_moved_ok; auto.
  - by apply rd_unlocked_ok; [apply mid_unlock|apply rdebt_unlock].
  - apply rd_relock_ok; auto.
  - by apply rd_unlocked_ok.
  - by apply wz_relock_ok.
  - by apply wr_early_ok.
  - apply wz_alloc_ok; auto. by apply Z.eqb_eq.
  - by apply wz_alloc_ok.
  - destruct B as (B1 & B2 & B3 & B4). by apply wr_relock_ok.
  - by apply wr_finish_ok.
  - by apply wr_moved_ok.
  - bool_to_prop. destruct B as (B1 & B2 & B3 & B4 & B5).
    apply wr_fault_ok; auto. apply mid_first; auto; rewrite ?length_take; lia.
  - by apply wr_moved2_ok.
  - bool_to_prop. destruct B as (B1 & B2 & B3 & B4 & B5 & B6).
    assert (Hi := ring_in _ (l_ring _ _ _ L)). change (pipe_buffer P) with (buf (enter s P)) in Hi.
    apply wr_fault_ok; auto. apply (mid_second P m h t L _ 1 _ seg); auto; try lia. rewrite length_take. lia.
  - by apply wr_finish_ok.
  - apply wr_loop_ok; auto.
  - by apply wr_finish_ok.
Qed.
End OneSection.

(** ** [pipeclose] *)

(** The invariant but for the pipe [q], on which no thread is left. *)
Record pinv_but (s : psys) (q : nat) : Prop := {
  pb_local : forall q2 P, q2 <> q -> pipes s !! q2 = Some P -> linv P (locals s q2) (events s q2);
  pb_thr : forall t a q2 l, thr s !! t = Some (At a q2 l) -> q2 <> q /\ is_Some (pipes s !! q2);
  pb_peer : forall q2 P q', pipes s !! q2 = Some P -> pipe_peer P = Some q' ->
    q' <> q2 /\ exists P', pipes s !! q' = Some P' /\ pipe_peer P' = Some q2 }.

(** The peer is told: it has no peer any more. *)
Definition told (s : psys) (q' : nat) (P' : pipe) : psys :=
  let x := on_p (setf (pipeselwakeup (enter s P')) PIPE_EOF) (fun P => set_peer P None) in
  Psys (<[q' := ps_p x]> (pipes s)) (glob s) (wake q' <$> thr s) (plog s ++ (pair q' <$> ps_log x)).

Lemma told_linv s q' P' : linv P' (locals s q') (events s q') -> exists P'', pipes (told s q' P') !! q' = Some P''
  /\ pipe_peer P'' = None /\ linv P'' (locals (told s q' P') q') (events (told s q' P') q').
Proof.
  intros L. unfold told. set (x0 := pipeselwakeup (enter s P')). set (x := on_p (setf x0 PIPE_EOF) _). simpl.
  exists (ps_p x). rewrite lookup_insert_eq. split_and!; [done|done|].
  (* a section of a thread that is nowhere *)
  set (m := locals s q') in *. set (t := fresh (dom m)).
  assert (Ht : m !! t = None) by (apply not_elem_of_dom, is_fresh).
  assert (M : mid P' m (events s q') t (enter s P') 0 0).
  { assert (M := mid_enter P' m (events s q') t L (glob s)). unfold before in M. by rewrite Ht in M. }
  assert (M1 : mid P' m (events s q') t (setf (wakes x0) PIPE_EOF) 0 0).
  { apply mid_state; [by apply mid_wakes, mid_selwakeup|..]; unfold hasf; simpl; flags; auto. }
  assert (O : ok P' m (events s q') t (setf (wakes x0) PIPE_EOF, Returns 0)) by (apply mid_returns; auto).
  assert (G := local_step _ _ _ _ _ _ _ _ L O). simpl in G.
  assert (E1 : moved_on m t true (Returns 0) = omap (local q') (wake q' <$> thr s)).
  { unfold moved_on. rewrite delete_id by (rewrite lookup_fmap, Ht; done). apply map_eq. intros t2.
    unfold m, locals. rewrite lookup_fmap, !lookup_omap, lookup_fmap. destruct (thr s !! t2) as [[|a q2 l]|]; simpl; try done.
    destruct (Nat.eqb_spec q' q2) as [->|N]; simpl; [by rewrite Nat.eqb_refl|]. by rewrite (proj2 (Nat.eqb_neq _ _)). }
  unfold locals at 1, events at 1. simpl. rewrite <-E1, omap_app, events_pair, Nat.eqb_refl.
  eapply linv_cong; [exact G|done..].
Qed.

Lemma told_other s q' P' q2 : q2 <> q' -> locals (told s q' P') q2 = locals s q2 /\ events (told s q' P') q2 = events s q2.
Proof.
  intros N. unfold told, locals, events. simpl. split; [by apply wake_locals|].
  rewrite omap_app, events_pair, (proj2 (Nat.eqb_neq _ _)) by done. by rewrite app_nil_r.
Qed.

Lemma disconnect_good s q P : pinv_but s q -> pipes s !! q = Some P -> exists s', disconnect s q = Goes s' /\ pinv s'
  /\ pipes s' !! q = None /\ thr s' = match pipe_peer P with Some q' => wake q' <$> thr s | None => thr s end
  /\ (forall q2, q2 <> q -> is_Some (pipes s !! q2) -> is_Some (pipes s' !! q2)).
Proof.
  intros I Hq. unfold disconnect. rewrite Hq. destruct (pipe_free_kmem P (glob s)) as [P0 g] eqn:Ef. destruct (pipe_peer P) as [q'|] eqn:Hp.
  - destruct (pb_peer _ _ I q P q' Hq Hp) as (N & P' & H' & Hp'). rewrite H'.
    change (exists s', (let '(_, g) := pipe_free_kmem P (glob s) in Goes (Psys (delete q (pipes (told s q' P'))) g (thr (told s q' P')) (plog (told s q' P')))) = Goes s'
      /\ pinv s' /\ pipes s' !! q = None /\ thr s' = wake q' <$> thr s /\ (forall q2, q2 <> q -> is_Some (pipes s !! q2) -> is_Some (pipes s' !! q2))).
    rewrite Ef. eexists. split; [reflexivity|].
    assert (Lp := pb_local _ _ I q' P' N H'). destruct (told_linv s q' P' Lp) as (P'' & T1 & T2 & T3).
    assert (Lk : forall q2, q2 <> q -> q2 <> q' -> delete q (pipes (told s q' P')) !! q2 = pipes s !! q2).
    { intros q2 N1 N2. rewrite lookup_delete_ne by congruence. simpl. by rewrite lookup_insert_ne by congruence. }
    assert (Th : thr (told s q' P') = wake q' <$> thr s) by done.
    assert (To := told_other s q' P'). revert T1 T3 Lk Th To. generalize (told s q' P'). intros S T1 T3 Lk Th To.
    split_and!; simpl; [|apply lookup_delete_eq|done|].
    2:{ intros q2 N1 G. destruct (decide (q2 = q')) as [->|]; [rewrite lookup_delete_ne, T1 by congruence; eauto|by rewrite Lk]. }
    split; simpl.
    + intros q2 P2 H2. destruct (decide (q2 = q)) as [->|N1]; [by rewrite lookup_delete_eq in H2|].
      change (linv P2 (locals S q2) (events S q2)). destruct (decide (q2 = q')) as [->|N2].
      * rewrite lookup_delete_ne in H2 by congruence. rewrite T1 in H2. by injection H2 as <-.
      * rewrite (Lk q2 N1 N2) in H2. destruct (To q2 N2) as [-> ->]. by apply (pb_local _ _ I).
    + intros t a q2 l H2. rewrite Th, lookup_fmap in H2. destruct (thr s !! t) as [[|a2 q3 l2]|] eqn:E; simpl in H2; try done.
      assert (q3 = q2) by (destruct (Nat.eqb q' q3); congruence). subst q3.
      destruct (pb_thr _ _ I t a2 q2 l2 E) as [N1 G].
      destruct (decide (q2 = q')) as [->|]; [rewrite lookup_delete_ne, T1 by congruence; eauto|by rewrite Lk].
    + intros q2 P2 q3 H2 H3. destruct (decide (q2 = q)) as [->|N1]; [by rewrite lookup_delete_eq in H2|].
      destruct (decide (q2 = q')) as [->|N2].
      * rewrite lookup_delete_ne, T1 in H2 by congruence. injection H2 as <-. congruence.
      * rewrite (Lk q2 N1 N2) in H2. destruct (pb_peer _ _ I q2 P2 q3 H2 H3) as (G1 & P3 & G2 & G3). split; [done|].
        exists P3. rewrite Lk; [done| |]; intros ->; [rewrite Hq in G2|rewrite H' in G2]; injection G2 as <-; congruence.
  - eexists. split; [reflexivity|]. split_and!; simpl; [|apply lookup_delete_eq|done|intros q2 N1 G; by rewrite lookup_delete_ne by congruence].
    split; simpl.
    + intros q2 P2 H2. apply lookup_delete_Some in H2 as [N1 H2]. by apply (pb_local _ _ I).
    + intros t a q2 l H2. destruct (pb_thr _ _ I t a q2 l H2) as [N1 G]. by rewrite lookup_delete_ne by congruence.
    + intros q2 P2 q3 H2 H3. apply lookup_delete_Some in H2 as [N1 H2].
      destruct (pb_peer _ _ I q2 P2 q3 H2 H3) as (G1 & P3 & G2 & G3). split; [done|]. exists P3. rewrite lookup_delete_ne; [done|].
      intros <-. rewrite Hq in G2. injection G2 as <-. congruence.
Qed.

Lemma commit_but s t q P x e : pinv s -> pipes s !! q = Some P -> may_run s t q -> pipe_peer (ps_p x) = pipe_peer P ->
  (forall t' v, t' <> t -> locals s q !! t' <> Some v) -> pinv_but (commit s t q (x, Returns e)) q.
Proof.
  intros I Hq R Hp Al. split.
  - intros q2 P2 N H2. simpl in H2. rewrite lookup_insert_ne in H2 by congruence.
    rewrite commit_locals_other, commit_events, (proj2 (Nat.eqb_neq _ _)), app_nil_r by done. by apply (p_local _ I).
  - intros t2 a q2 l H2.
    assert (G : t2 <> t /\ exists a0, thr s !! t2 = Some (At a0 q2 l)).
    { simpl in H2. destruct (decide (t2 = t)) as [->|N]; [by rewrite lookup_insert_eq in H2|]. split; [done|].
      rewrite lookup_insert_ne in H2 by congruence. destruct (ps_wake x); [|eauto]. rewrite lookup_fmap in H2.
      destruct (thr s !! t2) as [[|a2 q3 l2]|]; simpl in H2; try done. destruct (Nat.eqb q q3); injection H2 as <- <- <-; eauto. }
    destruct G as (N & a0 & G). assert (Nq : q2 <> q).
    { intros ->. apply (Al t2 (a0, l) N). by apply locals_lookup. }
    split; [done|]. simpl. rewrite lookup_insert_ne by congruence. by eapply p_thr.
  - intros q2 P2 q3 H2 H3. simpl in *.
    assert (G : exists P0, pipes s !! q2 = Some P0 /\ pipe_peer P0 = Some q3).
    { destruct (decide (q2 = q)) as [->|N].
      - rewrite lookup_insert_eq in H2. injection H2 as <-. exists P. split; [done|]. congruence.
      - rewrite lookup_insert_ne in H2 by congruence. eauto. }
    destruct G as (P0 & G1 & G2). destruct (p_peer _ I q2 P0 q3 G1 G2) as (G3 & P3 & G4 & G5). split; [done|].
    destruct (decide (q3 = q)) as [->|N].
    + rewrite lookup_insert_eq. exists (ps_p x). split; [done|]. rewrite Hp. congruence.
    + rewrite lookup_insert_ne by congruence. eauto.
Qed.

Section Close.
Context (s : psys) (t q : nat) (P : pipe) (I : pinv s) (Hq : pipes s !! q = Some P) (R : may_run s t q).
Let m := locals s q.
Let h := events s q.
Let L : linv P m h := p_local _ I q P Hq.
Context (A : alone m t) (B0 : before busies m t = O) (H0 : before holds m t = O).

Lemma close_mid : mid P m h t (enter s P) 0 0.
Proof. assert (M := mid_enter P m h t L (glob s)). by rewrite B0, H0 in M. Qed.

Lemma close_waits f x : f (enter s P) = (x, Sleeps ClSleep) -> ok P m h t (x, Sleeps ClSleep) -> pgood (close_section s t q f).
Proof.
  intros E O. unfold close_section, run_section. rewrite Hq, E. cbn [thr commit]. simpl. rewrite lookup_insert_eq.
  exact (commit_pinv s t q P x (Sleeps ClSleep) I Hq R ltac:(done) O).
Qed.

Lemma close_ends f x : f (enter s P) = (x, Returns 0) -> pipe_busy P = 0 -> pipe_peer (ps_p x) = pipe_peer P -> pgood (close_section s t q f).
Proof.
  intros E B Hp. unfold close_section, run_section. rewrite Hq, E. set (s1 := commit s t q (x, Returns 0)).
  assert (T : thr s1 !! t = Some Out) by (simpl; by rewrite lookup_insert_eq). rewrite T.
  assert (Q : pipes s1 !! q = Some (ps_p x)) by (simpl; by rewrite lookup_insert_eq).
  destruct (disconnect_good s1 q (ps_p x)) as (s2 & -> & G & _); [|done|done].
  apply (commit_but s t q P); auto. intros t' v N. by apply (cl_alone P m h t L A B0 B t' v).
Qed.

Lemma close_start_good : pgood (close_section s t q cl_start).
Proof.
  assert (M := close_mid). assert (Ms : mid P m h t (pipeselwakeup (enter s P)) 0 0) by (by apply mid_selwakeup).
  assert (Bs : busy (pipeselwakeup (enter s P)) = pipe_busy P) by (by rewrite (proj2 (selwakeup_buf (enter s P)))).
  destruct (decide (pipe_busy P = 0)) as [Z0|N0].
  - eapply (close_ends _ (setf (pipeselwakeup (enter s P)) PIPE_EOF)); auto.
    + unfold cl_start, cl_turn. change (busy (setf ?y _)) with (busy y). by rewrite Bs, Z0.
    + exact (m_peer _ _ _ _ _ _ _ Ms).
  - eapply (close_waits _ (setf (setf (wakes (pipeselwakeup (enter s P))) PIPE_EOF) PIPE_WANT)).
    + unfold cl_start, cl_turn. change (busy (setf ?y _)) with (busy y). rewrite Bs, (proj2 (Z.eqb_neq _ _)) by done. reflexivity.
    + apply cl_wait_ok; auto. by rewrite Bs.
Qed.

Lemma close_turn_good : has (pipe_state P) PIPE_EOF = true -> pgood (close_section s t q cl_turn).
Proof.
  intros Eo. assert (M := close_mid). destruct (decide (pipe_busy P = 0)) as [Z0|N0].
  - eapply (close_ends _ (enter s P)); auto. unfold cl_turn, busy. simpl. by rewrite Z0.
  - eapply (close_waits _ (setf (wakes (enter s P)) PIPE_WANT)).
    + unfold cl_turn, busy. simpl. by rewrite (proj2 (Z.eqb_neq _ _)).
    + by apply cl_turn_wait_ok.
Qed.
End Close.

(** ** [dopipe], [pipe_poll], [pipe_ioctl] *)

Lemma pinv_glob s g : pinv s -> pinv (Psys (pipes s) g (thr s) (plog s)).
Proof. intros [A B C]. by split. Qed.

Definition new_pipe (mem : list Z) : pipe := Pipe (Pipebuf 0 0 0 PIPE_SIZE mem) false 0 0 None NO_PID.

Lemma new_pipe_linv mem : Z.of_nat (length mem) = PIPE_SIZE -> linv (new_pipe mem) ∅ [].
Proof.
  intros Hl. split; simpl; done.
Qed.

Lemma pipe_create_eq g o : block_ok o -> exists P g', pipe_create g o = (PS P false g' [], match o with Some _ => 0 | None => ENOMEM end)
  /\ (forall mem, o = Some mem -> P = new_pipe mem).
Proof.
  intros _. unfold pipe_create, pipespace. destruct o as [mem|]; simpl; do 2 eexists; (split; [reflexivity|]); [|done].
  by intros mem' [= ->].
Qed.

(** Two new pipes, linked. *)
Definition linked (s : psys) (q1 q2 : nat) (m1 m2 : list Z) (g : pglob) : psys :=
  Psys (<[q2 := set_peer (new_pipe m2) (Some q1)]> (<[q1 := set_peer (new_pipe m1) (Some q2)]> (pipes s))) g (thr s) (plog s).

Lemma linked_pinv s q1 q2 m1 m2 g : pinv s -> q1 <> q2 -> pipes s !! q1 = None -> pipes s !! q2 = None -> events s q1 = [] ->
  events s q2 = [] -> Z.of_nat (length m1) = PIPE_SIZE -> Z.of_nat (length m2) = PIPE_SIZE -> pinv (linked s q1 q2 m1 m2 g).
Proof.
  intros I N H1 H2 E1 E2 L1 L2.
  assert (Nt : forall q, pipes s !! q = None -> locals s q = ∅).
  { intros q Hq. apply map_empty. intros t. destruct (locals s q !! t) as [[a l]|] eqn:E; [|done].
    apply locals_lookup in E. destruct (p_thr _ I t a q l E). congruence. }
  split; simpl.
  - intros q P Hp. change (linv P (locals s q) (events s q)). destruct (decide (q = q2)) as [->|N2].
    + rewrite lookup_insert_eq in Hp. injection Hp as <-. rewrite Nt, E2 by done.
      eapply linv_cong; [by apply (new_pipe_linv m2)|done..].
    + rewrite lookup_insert_ne in Hp by congruence. destruct (decide (q = q1)) as [->|N1].
      * rewrite lookup_insert_eq in Hp. injection Hp as <-. rewrite Nt, E1 by done.
        eapply linv_cong; [by apply (new_pipe_linv m1)|done..].
      * rewrite lookup_insert_ne in Hp by congruence. by apply (p_local _ I).
  - intros t a q l Ht. destruct (p_thr _ I t a q l Ht) as [P Hp]. rewrite !lookup_insert_ne by congruence. eauto.
  - intros q P q' Hp Hq. destruct (decide (q = q2)) as [->|N2].
    + rewrite lookup_insert_eq in Hp. injection Hp as <-. simpl in Hq. injection Hq as <-. split; [done|].
      rewrite lookup_insert_ne, lookup_insert_eq by congruence. eexists. split; [reflexivity|]. done.
    + rewrite lookup_insert_ne in Hp by congruence. destruct (decide (q = q1)) as [->|N1].
      * rewrite lookup_insert_eq in Hp. injection Hp as <-. simpl in Hq. injection Hq as <-. split; [done|].
        rewrite lookup_insert_eq. eexists. split; [reflexivity|]. done.
      * rewrite lookup_insert_ne in Hp by congruence. destruct (p_peer _ I q P q' Hp Hq) as (G1 & P' & G2 & G3). split; [done|].
        exists P'. rewrite !lookup_insert_ne by congruence. done.
Qed.

Lemma but_of_pinv s q : pinv s -> (forall t a l, thr s !! t <> Some (At a q l)) -> pinv_but s q.
Proof.
  intros I N. split; [intros; by apply (p_local _ I)| |exact (p_peer _ I)].
  intros t a q2 l H. split; [intros ->; by apply (N t a l)|by eapply p_thr].
Qed.

Lemma dopipe_good s t q1 q2 m1 m2 e1 e2 e3 : pinv s -> pguard s t (CPipe q1 q2 m1 m2 e1 e2 e3) ->
  pgood (dopipe s q1 q2 m1 m2 e1 e2 e3).1.
Proof.
  intros I (_ & N & H1 & H2 & E1 & E2 & B1 & B2). unfold dopipe.
  destruct (pipe_create_eq (glob s) m1 B1) as (P1 & g1 & -> & N1). destruct (pipe_free_kmem _ _) as [Pa ga].
  destruct m1 as [mem1|]; simpl; [|by apply pinv_glob]. specialize (N1 mem1 eq_refl).
  destruct (pipe_create_eq g1 m2 B2) as (P2 & g2 & -> & N2). destruct (pipe_free_kmem _ _) as [Pb gb].
  destruct (pipe_free_kmem _ _) as [Pc gc]. destruct m2 as [mem2|]; simpl; [|by apply pinv_glob]. specialize (N2 mem2 eq_refl). subst P1 P2.
  destruct (negb (e1 =? 0)); [by apply pinv_glob|]. destruct (negb (e2 =? 0)).
  { destruct (pipe_free_kmem _ _) as [Pd gd]. destruct (pipe_free_kmem _ _) as [Pe ge]. by apply pinv_glob. }
  assert (G := linked_pinv s q1 q2 mem1 mem2 g2 I N H1 H2 E1 E2 B1 B2).
  change (pgood (if negb (e3 =? 0) then (match disconnect (linked s q1 q2 mem1 mem2 g2) q1 with Goes s' => disconnect s' q2 | o => o end, e3)
    else (Goes (linked s q1 q2 mem1 mem2 g2), 0)).1).
  destruct (negb (e3 =? 0)); [|done]. simpl.
  assert (Nt : forall q, pipes s !! q = None -> forall t a l, thr s !! t <> Some (At a q l)).
  { intros q Hq t' a l Ht. destruct (p_thr _ I t' a q l Ht). congruence. }
  destruct (disconnect_good (linked s q1 q2 mem1 mem2 g2) q1 (set_peer (new_pipe mem1) (Some q2))) as (s1 & -> & I1 & D1 & T1 & X1).
  { apply but_of_pinv; [done|]. by apply Nt. }
  { simpl. rewrite lookup_insert_ne, lookup_insert_eq by congruence. done. }
  destruct (X1 q2) as [P2 Q2]; [congruence|simpl; rewrite lookup_insert_eq; eauto|].
  destruct (disconnect_good s1 q2 P2) as (s2 & -> & I2 & _); [|done|done].
  apply but_of_pinv; [done|]. simpl in T1. intros t' a l Ht. rewrite T1, lookup_fmap in Ht.
  destruct (thr s !! t') as [[|a0 q0 l0]|] eqn:E; simpl in Ht; try done.
  destruct (Nat.eqb q2 q0); injection Ht as ? ? ?; subst; by eapply (Nt _ H2).
Qed.

(** The flags that only selecting and asynchronous processes look at. *)
Lemma linv_sel P m h f : (f = PIPE_SEL \/ f = PIPE_ASYNC) -> linv P m h ->
  linv (set_state P (set_flag (pipe_state P) f)) m h /\ linv (set_state P (clr_flag (pipe_state P) f)) m h.
Proof.
  intros Hf L. assert (Pf : pflag f = true) by (by destruct Hf as [-> | ->]).
  split; (eapply linv_cong; [exact L|done|done|done|]); intros k Pk N1 N2; simpl.
  - rewrite has_set, (proj2 (Z.eqb_neq f k)) by (first [done | destruct Hf; congruence]). by rewrite orb_false_r.
  - rewrite has_clr, (proj2 (Z.eqb_neq f k)) by (first [done | destruct Hf; congruence]). by rewrite andb_true_r.
Qed.

(** A pipe changes in a way that its threads do not see. *)
Lemma pinv_set s q P P' : pinv s -> pipes s !! q = Some P -> pipe_peer P' = pipe_peer P ->
  (forall m h, linv P m h -> linv P' m h) -> pinv (Psys (<[q := P']> (pipes s)) (glob s) (thr s) (plog s)).
Proof.
  intros I Hq Hp HL. split; simpl.
  - intros q2 P2 H2. change (linv P2 (locals s q2) (events s q2)). destruct (decide (q2 = q)) as [->|N].
    + rewrite lookup_insert_eq in H2. injection H2 as <-. by apply HL, (p_local _ I).
    + rewrite lookup_insert_ne in H2 by congruence. by apply (p_local _ I).
  - intros t a q2 l H2. destruct (decide (q2 = q)) as [->|N]; [rewrite lookup_insert_eq; eauto|].
    rewrite lookup_insert_ne by congruence. by eapply p_thr.
  - intros q2 P2 q3 H2 H3.
    assert (G : exists P0, pipes s !! q2 = Some P0 /\ pipe_peer P0 = Some q3).
    { destruct (decide (q2 = q)) as [->|N].
      - rewrite lookup_insert_eq in H2. injection H2 as <-. exists P. split; [done|]. congruence.
      - rewrite lookup_insert_ne in H2 by congruence. eauto. }
    destruct G as (P0 & G1 & G2). destruct (p_peer _ I q2 P0 q3 G1 G2) as (G3 & P3 & G4 & G5). split; [done|].
    destruct (decide (q3 = q)) as [->|N].
    + rewrite lookup_insert_eq. exists P'. split; [done|]. rewrite Hp. congruence.
    + rewrite lookup_insert_ne by congruence. eauto.
Qed.

Lemma pipe_poll_pipes R W ev : let '(_, R', W') := pipe_poll R W ev in
  (R' = R \/ R' = set_state R (set_flag (pipe_state R) PIPE_SEL))
  /\ (W' = W \/ exists V, W = Some V /\ W' = Some (set_state V (set_flag (pipe_state V) PIPE_SEL))).
Proof.
  unfold pipe_poll. set (r := match W with None => _ | Some _ => _ end). clearbody r. destruct (r =? 0); [|auto].
  split; [destruct (has ev (Z.lor POLLIN POLLRDNORM)); auto|].
  destruct (has ev (Z.lor POLLOUT POLLWRNORM)); [|auto]. destruct W; simpl; [right; eauto|auto].
Qed.

Lemma poll_good s q ev : pinv s -> is_Some (pipes s !! q) -> pgood (start s 0 (CPoll q ev)).
Proof.
  intros I [R Hq]. simpl. rewrite Hq. destruct (pipe_peer R) as [q'|] eqn:Hp.
  - destruct (p_peer _ I q R q' Hq Hp) as (N & W & Hw & Hpw). rewrite Hw.
    assert (G := pipe_poll_pipes R (Some W) ev). destruct (pipe_poll R (Some W) ev) as [[rv R'] W']. destruct G as [G1 G2]. simpl.
    assert (I1 : pinv (Psys (<[q := R']> (pipes s)) (glob s) (thr s) (plog s))).
    { apply (pinv_set s q R); auto; destruct G1 as [-> | ->]; auto. intros m h L. apply linv_sel; auto. }
    apply (pinv_set _ q' W _ I1); [simpl; by rewrite lookup_insert_ne by congruence|..];
      (destruct G2 as [-> |(V & [= <-] & ->)]; simpl; auto). intros m h L. apply linv_sel; auto.
  - assert (G := pipe_poll_pipes R None ev). destruct (pipe_poll R None ev) as [[rv R'] W']. destruct G as [G1 _]. simpl.
    apply (pinv_set s q R); auto; destruct G1 as [-> | ->]; auto. intros m h L. apply linv_sel; auto.
Qed.

Lemma ioctl_good s q cmd : pinv s -> is_Some (pipes s !! q) -> pgood (start s 0 (CIoctl q cmd)).
Proof.
  intros I [P Hq]. simpl. rewrite Hq. destruct cmd as [|[]| |g| |]; simpl; auto; apply (pinv_set s q P); auto.
  - intros m h L. apply linv_sel; auto.
  - intros m h L. apply linv_sel; auto.
  - intros m h L. eapply linv_cong; [exact L|done..].
Qed.

(** ** All steps *)

Lemma pstart_good s t c : pinv s -> pguard s t c -> pgood (start s t c).
Proof.
  intros I [Ht G]. assert (R : forall q, may_run s t q) by (intros q; by left).
  assert (B : forall f q, before f (locals s q) t = O) by (intros f q; unfold before; by rewrite locals_none).
  destruct c as [q n nb|q data nb|q|q1 q2 m1 m2 e1 e2 e3|q ev|q cmd].
  - destruct G as ([P Hq] & Hn & F). simpl. apply (run_section_good s t q P I Hq); auto. intros r [= <-].
    apply rd_start_ok; auto using enter_mid_out, p_local. right. intros t' a _ H. by specialize (F t' _ H).
  - destruct G as ([P Hq] & Hl). simpl. rewrite Hq. destruct (pipe_peer P) as [q'|] eqn:Hp; [|done].
    destruct (p_peer _ I q P q' Hq Hp) as (_ & P' & Hq' & _). apply (run_section_good s t q' P' I Hq'); auto. intros r [= <-].
    apply wr_start_ok; auto using enter_mid_out, wok_of, p_local.
  - destruct G as ([P Hq] & F). simpl. apply (close_start_good s t q P I Hq); auto. intros t' a l _ H. exact (F t' (a, l) H).
  - by apply (dopipe_good s t).
  - by apply poll_good.
  - by apply ioctl_good.
Qed.

Lemma pcontinue_good s t a : pinv s -> pgood (continue s t a).
Proof.
  intros I. unfold continue. destruct (thr s !! t) as [[|as_ q l]|] eqn:Ht; try done.
  destruct (as_ && _); [done|]. destruct (p_thr _ I t as_ q l Ht) as [P Hq].
  assert (R : may_run s t q) by (right; eauto). assert (Hm : locals s q !! t = Some (as_, l)) by (by apply locals_lookup).
  assert (G : pgood (run_section s t q (fun x => section x l a))).
  { apply (run_section_good s t q P I Hq _ R). intros r. by eapply section_good. }
  destruct l; try exact G. destruct a; try exact G.
  destruct (l_close _ _ _ (p_local _ I q P Hq) t as_ Hm) as [Eo Al].
  apply (close_turn_good s t q P I Hq R); auto.
  - intros t' a' l' N H. by destruct (Al t' a' l' H).
  - unfold before. by rewrite Hm.
  - unfold before. by rewrite Hm.
Qed.

Lemma pstep_good s o : pinv s -> pstep s o -> pgood o.
Proof. intros I St. revert I. destruct St; intros I; [by apply pstart_good|by apply pcontinue_good]. Qed.

Lemma pinit_pinv s : pinit s -> pinv s.
Proof.
  intros (E1 & E2 & E3). split.
  - intros q P. by rewrite E1, lookup_empty.
  - intros t a q l H. by specialize (E2 t _ H).
  - intros q P q'. by rewrite E1, lookup_empty.
Qed.

Lemma preach_pinv s : preach s -> pinv s.
Proof. induction 1 as [s H|s s' H IH St]; [by apply pinit_pinv|by apply pstep_good in St]. Qed.

(** * The theorems

    Safety over every interleaving, the pipe as a stream of bytes, the reasons
    for which a call sleeps, and polling. *)

(** C20: In every state that reads, writes, closes, polls and ioctls of any
    number of threads reach, in any interleaving of their sections and with
    page faults, signals and allocation failures anywhere: the invariant
    holds (the ring buffer is well-formed, [PIPE_LOCK] is held by exactly one
    call, [pipe_busy] is the number of calls at work, peers point to each
    other), and no step panics or uses a pipe that has been freed.  Assumed of
    the callers: writes of fewer than 2^31 bytes, and no read or close through
    a descriptor that is being closed. *)
Theorem pipe_invariant s : preach s -> pinv s /\ forall o, pstep s o -> o <> Faults.
Proof.
  intros R. assert (I := preach_pinv s R). split; [done|]. intros o St ->. by apply pstep_good in St.
Qed.

(** C21: A pipe is a stream: what has been read, followed by what is in the
    buffer, is what has been written, in this order, whoever wrote and read
    it; and a write of at most [PIPE_BUF] bytes went in as a whole.  This
    holds as long as no change of the buffer has thrown bytes away. *)
Theorem pipe_stream_correct s q P : preach s -> pipes s !! q = Some P ->
  ((events s q ≫= ev_lost) = [] -> (events s q ≫= ev_read) ++ contents (pipe_buffer P) = (events s q ≫= ev_wrote))
  /\ Z.of_nat (length (contents (pipe_buffer P))) = cnt (pipe_buffer P) /\ 0 <= cnt (pipe_buffer P) <= b_size (pipe_buffer P)
  /\ forall bs orig, EWrote bs orig ∈ events s q -> orig <= PIPE_BUF -> Z.of_nat (length bs) = orig.
Proof.
  intros R Hq. assert (L := p_local _ (preach_pinv s R) q P Hq). split_and!.
  - apply L.
  - apply contents_length, L.
  - apply (l_ring _ _ _ L).
  - apply (l_ring _ _ _ L).
  - intros bs orig Hin. assert (A := l_atomic _ _ _ L). rewrite Forall_forall in A. exact (A _ Hin).
Qed.

(** Somebody on the pipe [q] satisfies [f], and does not sleep. *)
Definition at_work (s : psys) (q : nat) (f : lpc -> bool) : Prop := exists t l, thr s !! t = Some (At false q l) /\ f l = true.
Definition someone (s : psys) (q : nat) (f : lpc -> bool) : Prop := exists t a l, thr s !! t = Some (At a q l) /\ f l = true.

Lemma lock_holder s q P : pinv s -> pipes s !! q = Some P -> has (pipe_state P) PIPE_LOCK = true -> at_work s q holds.
Proof.
  intros I Hq H. assert (L := p_local _ I q P Hq). assert (W := l_lock _ _ _ L). rewrite H in W. simpl in W.
  destruct (set_choose_or_empty (who (of_pc holds) (locals s q))) as [[t Ht]|E].
  - apply elem_who in Ht as ([a l] & Hl & F). exists t, l. split; [|done].
    destruct a; [|by apply locals_lookup]. assert (X := l_sleep _ _ _ L t l Hl). unfold of_pc in F. simpl in F. by destruct l.
  - apply leibniz_equiv in E. by rewrite E, size_empty in W.
Qed.

Lemma busy_call s q P : pinv s -> pipes s !! q = Some P -> pipe_busy P <> 0 -> someone s q busies.
Proof.
  intros I Hq H. assert (L := p_local _ I q P Hq). rewrite (l_busy _ _ _ L) in H.
  destruct (set_choose_or_empty (who (of_pc busies) (locals s q))) as [[t Ht]|E].
  - apply elem_who in Ht as ([a l] & Hl & F). exists t, a, l. split; [by apply locals_lookup|done].
  - apply leibniz_equiv in E. by rewrite E, size_empty in H.
Qed.

(** Why a call on [q] sleeps at [l], and who will wake it. *)
Definition pipe_awaits (s : psys) (q : nat) (P : pipe) (l : lpc) : Prop :=
  match l with
  | RdSleep _ => has (pipe_state P) PIPE_WANTR = true /\ has (pipe_state P) PIPE_EOF = false
      /\ (cnt (pipe_buffer P) = 0 \/ someone s q owes)
  | WrSleep _ => has (pipe_state P) PIPE_WANTW = true /\ has (pipe_state P) PIPE_EOF = false
      /\ ((events s q ≫= ev_lost) = [] -> MINPIPESIZE <= cnt (pipe_buffer P) \/ someone s q drains)
  | RdLock _ _ | WzLock _ | WrLock _ _ => has (pipe_state P) PIPE_LWANT = true /\ at_work s q holds
  | ClSleep => has (pipe_state P) PIPE_WANT = true /\ someone s q busies
      /\ forall t l, thr s !! t = Some (At true q l) -> match l with RdSleep _ | WrSleep _ => False | _ => True end
  | _ => False
  end.

(** C22: No wakeup is lost, on a pipe that exists, in the states of C20.  A
    sleeping reader finds the pipe empty, or a write is under way that wakes it
    when it ends or sleeps; a sleeping writer, as long as no change of the
    buffer has thrown bytes of this pipe away, finds at least [MINPIPESIZE]
    bytes, or a read is under way; both sleep only while no end is closed.  A
    call that waits for the lock has a holder that does not sleep on the pipe;
    [pipeclose] sleeps only while calls are at work, none of which sleeps for
    data or space.  A reader and a writer never sleep on the same pipe at
    once.  Assumed of the callers: writes of fewer than 2^31 bytes (a longer
    one can sleep on an empty pipe, see [pipe_defects]), and no read or close
    through a descriptor that is being closed. *)
Theorem pipe_no_lost_wakeup s q P : preach s -> pipes s !! q = Some P ->
  (forall t l, thr s !! t = Some (At true q l) -> pipe_awaits s q P l)
  /\ forall t t' r w, thr s !! t = Some (At true q (RdSleep r)) -> thr s !! t' <> Some (At true q (WrSleep w)).
Proof.
  intros R Hq. assert (I := preach_pinv s R). assert (L := p_local _ I q P Hq).
  assert (Sm : forall f, (exists t a l, locals s q !! t = Some (a, l) /\ f l = true) -> someone s q f).
  { intros f (t & a & l & H & F). exists t, a, l. split; [by apply locals_lookup|done]. }
  split.
  - intros t l H. apply locals_lookup in H. assert (Sl := l_sleep _ _ _ L t l H). destruct l; simpl in Sl |- *; try done.
    + destruct Sl as [Sl1 Sl2]. split; [done|]. by eapply lock_holder.
    + destruct Sl as [Sl1 Sl2]. split_and!; try done. destruct (l_data _ _ _ L t r H) as [?|?]; auto.
    + destruct Sl as [Sl1 Sl2]. split; [done|]. by eapply lock_holder.
    + destruct Sl as [Sl1 Sl2]. split; [done|]. by eapply lock_holder.
    + destruct Sl as [Sl1 Sl2]. split_and!; try done. intros Lo. destruct (l_room _ _ _ L t w H Lo) as [?|?]; auto.
    + destruct Sl as [Sl1 Sl2]. split_and!; [done|by eapply busy_call|]. intros t2 l2 H2. apply locals_lookup in H2.
      destruct (l_close _ _ _ L t true H) as [Eo _]. assert (S2 := l_sleep _ _ _ L t2 l2 H2).
      destruct l2; try done; simpl in S2; destruct S2; congruence.
  - intros t t' r w H1 H2. apply locals_lookup in H1, H2. by apply (l_both _ _ _ L t t' r w H1).
Qed.

(** ** Polling *)

Definition sleeps_for_data (n : next) : bool := match n with Sleeps (RdSleep _) => true | _ => false end.
Definition sleeps_for_space (n : next) : bool := match n with Sleeps (WrSleep _) => true | _ => false end.

Lemma rd_start_data R g n nb : has (pipe_state R) PIPE_LOCK = false -> 0 < n ->
  sleeps_for_data (rd_start (PS R false g []) (Rio n 0 nb)).2 = negb ((0 <? cnt (pipe_buffer R)) || has (pipe_state R) PIPE_EOF || nb).
Proof.
  intros L Hn. unfold rd_start, pipelock, hasf. simpl. rewrite L. unfold rd_loop. simpl.
  rewrite (proj2 (Z.eqb_neq n 0)) by lia. unfold buf, hasf. simpl. destruct (0 <? cnt (pipe_buffer R)); [done|]. flags.
  destruct (has (pipe_state R) PIPE_EOF); [done|]. simpl. by destruct nb.
Qed.

Lemma wr_start_space W g data : has (pipe_state W) PIPE_LOCK = false -> has (pipe_state W) PIPE_EOF = false ->
  0 < Z.of_nat (length data) <= PIPE_BUF -> PIPE_BUF <= b_size (pipe_buffer W) - cnt (pipe_buffer W) ->
  exists seg, (wr_start (PS W false g []) (wio_of data false)).2 = Moves (WrMove (wio_of data false) (Z.of_nat (length data)) seg).
Proof.
  intros L E Hl Hs. unfold wr_start, hasf. simpl. rewrite E. unfold w_resid at 1. simpl.
  rewrite (proj2 (Z.ltb_ge PIPE_SIZE _)) by (unfold PIPE_SIZE, PIPE_BUF in *; lia). simpl.
  unfold wr_loop, w_resid at 1. simpl. rewrite (proj2 (Z.eqb_neq _ 0)) by lia. unfold hasf. simpl. rewrite E.
  unfold wr_space, buf, w_resid. simpl. rewrite (proj2 (Z.ltb_ge (b_size (pipe_buffer W) - cnt (pipe_buffer W)) _)) by lia. simpl.
  rewrite (proj2 (Z.ltb_lt 0 _)) by lia. unfold pipelock, hasf. simpl. rewrite L. unfold wr_locked, buf. simpl.
  rewrite Z.ltb_irrefl. simpl. unfold w_resid. simpl.
  eexists. do 2 f_equal. destruct (Z.ltb_spec (Z.of_nat (length data)) (b_size (pipe_buffer W) - cnt (pipe_buffer W))); lia.
Qed.

Lemma has_two f i j : 0 <= i -> 0 <= j -> has f (Z.lor (2 ^ i) (2 ^ j)) = Z.testbit f i || Z.testbit f j.
Proof.
  intros Hi Hj. unfold has. destruct (Z.testbit f i || Z.testbit f j) eqn:E.
  - apply negb_true_iff, Z.eqb_neq. intros Z0. apply orb_true_iff in E as [E|E].
    + assert (B : Z.testbit (Z.land f (Z.lor (2 ^ i) (2 ^ j))) i = true) by (by rewrite Z.land_spec, Z.lor_spec, E, Z.pow2_bits_true).
      by rewrite Z0, Z.bits_0 in B.
    + assert (B : Z.testbit (Z.land f (Z.lor (2 ^ i) (2 ^ j))) j = true)
        by (rewrite Z.land_spec, Z.lor_spec, E, (Z.pow2_bits_true j) by done; by rewrite orb_true_r).
      by rewrite Z0, Z.bits_0 in B.
  - apply orb_false_iff in E as [E1 E2]. apply negb_false_iff, Z.eqb_eq, Z.bits_inj'. intros n Hn.
    rewrite Z.land_spec, Z.lor_spec, Z.bits_0, !Z.pow2_bits_eqb by done.
    destruct (Z.eqb_spec i n) as [<-|]; [by rewrite E1|]. destruct (Z.eqb_spec j n) as [<-|]; [by rewrite E2|]. by rewrite andb_false_r.
Qed.

(** Either end is closed. *)
Definition hung_up (R : pipe) (W : option pipe) : bool :=
  has (pipe_state R) PIPE_EOF || match W with None => true | Some W => has (pipe_state W) PIPE_EOF end.

(** The peer has room for a write that must not be cut. *)
Definition room (W : option pipe) : bool :=
  match W with None => false | Some W => PIPE_BUF <=? b_size (pipe_buffer W) - cnt (pipe_buffer W) end.

Lemma pipe_poll_events R W ev :
  let rd := Z.lor POLLIN POLLRDNORM in
  let wr := Z.lor POLLOUT POLLWRNORM in
  let r1 := if has ev rd && ((0 <? cnt (pipe_buffer R)) || has (pipe_state R) PIPE_EOF) then Z.land ev rd else 0 in
  (pipe_poll R W ev).1.1 =
    if hung_up R W then Z.lor r1 POLLHUP else if has ev wr && room W then Z.lor r1 (Z.land ev wr) else r1.
Proof.
  cbv zeta. unfold pipe_poll, hung_up, room. set (r1 := if has ev (Z.lor POLLIN POLLRDNORM) && _ then _ else 0).
  destruct W as [W|]; cbv beta zeta iota.
  - destruct (has (pipe_state R) PIPE_EOF || has (pipe_state W) PIPE_EOF);
      [|destruct (has ev (Z.lor POLLOUT POLLWRNORM) && _)]; by destruct (_ =? 0).
  - rewrite orb_true_r. by destruct (_ =? 0).
Qed.

(** The bits of the result. *)
Lemma pipe_poll_bits R W ev :
  let rv := (pipe_poll R W ev).1.1 in
  has rv POLLIN = has ev POLLIN && ((0 <? cnt (pipe_buffer R)) || has (pipe_state R) PIPE_EOF)
  /\ has rv POLLHUP = hung_up R W
  /\ has rv POLLOUT = has ev POLLOUT && negb (hung_up R W) && room W.
Proof.
  cbv zeta. rewrite pipe_poll_events. cbv zeta. set (r1 := if has ev (Z.lor POLLIN POLLRDNORM) && _ then _ else 0).
  unfold POLLIN, POLLHUP, POLLOUT, POLLWRNORM, POLLRDNORM, POLLOUT in *. rewrite !has_pow2 by lia.
  assert (T1 : forall k, 0 <= k -> Z.testbit r1 k = (Z.testbit ev k && ((k =? 0) || (k =? 6))) && ((0 <? cnt (pipe_buffer R)) || has (pipe_state R) PIPE_EOF)).
  { intros k Hk. unfold r1. rewrite has_two by lia.
    destruct ((0 <? cnt (pipe_buffer R)) || has (pipe_state R) PIPE_EOF); rewrite ?andb_true_r, ?andb_false_r, ?Z.bits_0; [|done].
    destruct (Z.testbit ev 0 || Z.testbit ev 6) eqn:E06.
    - rewrite Z.land_spec, Z.lor_spec, !Z.pow2_bits_eqb by lia. rewrite (Z.eqb_sym 0 k), (Z.eqb_sym 6 k). done.
    - apply orb_false_iff in E06 as [E0 E6]. rewrite Z.bits_0.
      destruct (Z.eqb_spec k 0) as [->|]; [by rewrite E0|]. destruct (Z.eqb_spec k 6) as [->|]; [by rewrite E6|]. by rewrite andb_false_r. }
  destruct (hung_up R W); cbv beta iota.
  - rewrite !Z.lor_spec, !T1, !Z.pow2_bits_eqb by lia. simpl. rewrite !andb_true_r, !andb_false_r, !orb_false_r. simpl. done.
  - rewrite has_two by lia. destruct (room W); rewrite ?andb_true_r, ?andb_false_r.
    + destruct (Z.testbit ev 2) eqn:E2; cbv beta iota delta [orb].
      * rewrite !Z.lor_spec, !Z.land_spec, !Z.lor_spec, !T1, !Z.pow2_bits_eqb by lia. simpl.
        rewrite ?andb_true_r, ?andb_false_r, ?orb_false_r. done.
      * rewrite !T1 by lia. simpl. rewrite ?andb_true_r, ?andb_false_r. done.
    + rewrite !T1 by lia. simpl. rewrite ?andb_true_r, ?andb_false_r. done.
Qed.

(** C23: Polling tells the truth about a pipe that is not locked, whether its
    peer still exists ([W] is [Some]) or is gone ([None]): [POLLIN], when asked
    for, says exactly whether a read would not wait for data; [POLLHUP], asked
    for or not, says exactly that the peer is gone or either end is closed;
    [POLLOUT], when asked for, comes exactly when neither is closed and
    [PIPE_BUF] bytes are free, and then a write of at most [PIPE_BUF] bytes to
    the peer starts to copy all of them at once; it never comes together with
    [POLLHUP].  The knote filters say the same: the one for reading reports the
    bytes in the buffer, and EV_EOF exactly with [POLLHUP], and fires exactly
    on [POLLIN] or [POLLHUP]; the one for writing reports the free bytes, or 0
    and EV_EOF when the peer is gone or closed, and, while the own end is open,
    fires exactly on [POLLOUT] or [POLLHUP]. *)
Theorem pipe_poll_correct R W ev g n data :
  has (pipe_state R) PIPE_LOCK = false -> (forall P, W = Some P -> has (pipe_state P) PIPE_LOCK = false) ->
  0 < n -> 0 < Z.of_nat (length data) <= PIPE_BUF ->
  let rv := (pipe_poll R W ev).1.1 in
  (has ev POLLIN = true -> has rv POLLIN = negb (sleeps_for_data (rd_start (PS R false g []) (Rio n 0 false)).2))
  /\ has rv POLLHUP = hung_up R W
  /\ (has ev POLLOUT = true -> has rv POLLOUT = negb (hung_up R W) && room W)
  /\ (has rv POLLOUT = true -> exists P seg, W = Some P /\
       (wr_start (PS P false g []) (wio_of data false)).2 = Moves (WrMove (wio_of data false) (Z.of_nat (length data)) seg))
  /\ has rv POLLHUP && has rv POLLOUT = false
  /\ (has ev POLLIN = true ->
       filt_piperead R W = (cnt (pipe_buffer R), has rv POLLHUP, has rv POLLIN || has rv POLLHUP))
  /\ (has ev POLLOUT = true -> has (pipe_state R) PIPE_EOF = false ->
       filt_pipewrite W = (match W with
                           | Some P => if has rv POLLHUP then 0 else b_size (pipe_buffer P) - cnt (pipe_buffer P)
                           | None => 0
                           end, has rv POLLHUP, has rv POLLOUT || has rv POLLHUP)).
Proof.
  intros LR LW Hn Hd rv. destruct (pipe_poll_bits R W ev) as (B1 & B2 & B3). fold rv in B1, B2, B3. split_and!.
  - intros E. rewrite B1, E, rd_start_data by done. by rewrite negb_involutive, orb_false_r.
  - done.
  - intros E. by rewrite B3, E.
  - intros E. rewrite B3, !andb_true_iff, negb_true_iff in E. destruct E as [[_ E2] E3].
    destruct W as [P|]; [|done]. apply orb_false_iff in E2 as [_ E2]. apply Z.leb_le in E3.
    destruct (wr_start_space P g data (LW P eq_refl) E2 Hd E3) as [seg H]. by exists P, seg.
  - rewrite B2, B3. destruct (hung_up R W); cbn [negb]; [by rewrite andb_false_r|done].
  - intros E. rewrite B1, B2, E. unfold filt_piperead, hung_up. cbv zeta.
    destruct W as [P|]; destruct (has (pipe_state R) PIPE_EOF); try destruct (has (pipe_state P) PIPE_EOF);
      by destruct (0 <? cnt (pipe_buffer R)).
  - intros E ER. rewrite B2, B3, E. unfold filt_pipewrite, hung_up, room. rewrite ER. cbv zeta.
    destruct W as [P|]; [|done]. destruct (has (pipe_state P) PIPE_EOF); [done|].
    by destruct (PIPE_BUF <=? b_size (pipe_buffer P) - cnt (pipe_buffer P)).
Qed.

Lemma dopipe_error_unchanged s q1 q2 m1 m2 e1 e2 e3 : q1 <> q2 -> pipes s !! q1 = None -> pipes s !! q2 = None ->
  let '(o, e) := dopipe s q1 q2 m1 m2 e1 e2 e3 in
  e <> 0 -> exists s', o = Goes s' /\ pipes s' = pipes s /\ glob s' = glob s.
Proof.
  intros N H1 H2. unfold dopipe. destruct (glob s) as [nb kva] eqn:Eg. destruct m1 as [mem1|]; simpl; [|by eexists].
  destruct m2 as [mem2|]; simpl.
  2:{ intros _. eexists. split; [done|]. split; [done|]. simpl. f_equal. lia. }
  destruct (Z.eqb_spec e1 0); simpl; [|intros _; eexists; split; [done|]; split; [done|]; simpl; f_equal; lia].
  destruct (Z.eqb_spec e2 0); simpl; [|intros _; eexists; split; [done|]; split; [done|]; simpl; f_equal; lia].
  destruct (Z.eqb_spec e3 0); simpl; [done|]. intros _. unfold disconnect. simpl.
  rewrite lookup_insert_ne, lookup_insert_eq by congruence. simpl. rewrite lookup_insert_eq. simpl.
  rewrite lookup_delete_ne, lookup_insert_eq by congruence. simpl. eexists. split; [done|]. simpl. split; [|f_equal; lia].
  apply map_eq. intros q. destruct (decide (q = q2)) as [->|]; [by rewrite lookup_delete_eq|].
  rewrite lookup_delete_ne by congruence. destruct (decide (q = q1)) as [->|]; [by rewrite lookup_delete_eq|].
  by rewrite lookup_delete_ne, !lookup_insert_ne by congruence.
Qed.
