(* ===== verification/PipeDemo.v ===== *)
(** * Pipes: executed runs, and the cases that go wrong *)

From stdpp Require Import base numbers list option gmap fin_maps.
From Stdlib Require Import ZArith Lia Bool.
From S2P Require Import Prelude Pipe PipeInv PipeCalls PipeSys.
Local Open Scope Z_scope.

(** ** Running *)

#[global] Instance out_dec (o : option thread) : Decision (o = Some Out).
Proof. destruct o as [[]|]; solve [by left | right; congruence]. Defined.
#[global] Instance no_pipe_dec (o : option pipe) : Decision (o = None).
Proof. destruct o; solve [by left | right; congruence]. Defined.
#[global] Instance is_pipe_dec (o : option pipe) : Decision (is_Some o).
Proof. destruct o; [left; eauto | right; by intros []]. Defined.
#[global] Instance no_events_dec (l : list pevent) : Decision (l = []).
Proof. destruct l; solve [by left | right; congruence]. Defined.
#[global] Instance is_out_dec (th : thread) : Decision (th = Out).
Proof. destruct th; solve [by left | right; congruence]. Defined.
#[global] Instance block_ok_dec o : Decision (block_ok o).
Proof. destruct o; simpl; apply _. Defined.
#[global] Instance pguard_dec s t c : Decision (pguard s t c).
Proof. destruct c; unfold pguard; repeat apply and_dec; apply _. Defined.

(** Each entry a thread with a call to start, or with an answer to go on. *)
Fixpoint run_pipes (s : psys) (l : list (nat * (call + answer))) : option psys :=
  match l with
  | [] => Some s
  | (t, inl c) :: l =>
      if decide (pguard s t c) then match start s t c with Goes s' => run_pipes s' l | _ => None end else None
  | (t, inr a) :: l => match continue s t a with Goes s' => run_pipes s' l | _ => None end
  end.

Lemma run_pipes_reach l : forall s s', preach s -> run_pipes s l = Some s' -> preach s'.
Proof.
  induction l as [|[t [c|a]] l IH]; intros s s' R; simpl; [by intros [= <-]| |].
  - case_decide as G; [|done]. destruct (start s t c) as [| |s1] eqn:E; try done.
    apply IH. eapply preach_step; [done|]. rewrite <-E. by constructor.
  - destruct (continue s t a) as [| |s1] eqn:E; try done.
    apply IH. eapply preach_step; [done|]. rewrite <-E. by constructor.
Qed.

Definition pipe_start : psys := Psys ∅ (Pglob 0 0) {[1 := Out; 2 := Out; 3 := Out; 4 := Out]}%nat [].

Lemma pipe_start_init : pinit pipe_start.
Proof. split_and!; try done. apply (bool_decide_unpack _). vm_compute. exact I. Qed.

Lemma run_reach l s : run_pipes pipe_start l = Some s -> preach s.
Proof. intros H. eapply run_pipes_reach; [|exact H]. constructor. apply pipe_start_init. Qed.

Definition zeros (n : Z) : list Z := replicate (Z.to_nat n) 0.
Definition a_pipe : list (nat * (call + answer)) :=
  [(1, inl (CPipe 0 1 (Some (zeros 16384%Z)) (Some (zeros 16384%Z)) 0 0 0))]%nat.

(** A reader sleeps for data; a writer puts in three bytes and wakes it; the
    reader takes two. *)
Definition stream_run : list (nat * (call + answer)) :=
  (a_pipe ++ [(2, inl (CRead 0 2 false)); (1, inl (CWrite 1 [7; 8; 9]%Z false)); (1, inr Moved); (2, inr Woken); (2, inr Moved)])%nat.
Definition stream_state : psys := default pipe_start (run_pipes pipe_start stream_run).

Example stream_result : (events stream_state 0 ≫= ev_read, contents (pipe_buffer (default (new_pipe []) (pipes stream_state !! 0%nat))),
  events stream_state 0 ≫= ev_wrote) = ([7; 8], [9], [7; 8; 9]).
Proof. vm_compute. reflexivity. Qed.

(** A reader sleeps for data, another for the lock is let in and sleeps too. *)
Definition sleeping_run : list (nat * (call + answer)) :=
  (a_pipe ++ [(2, inl (CRead 0 2 false)); (3, inl (CRead 0 5 false)); (1, inl (CWrite 1 [7; 8; 9]%Z false))])%nat.
Definition sleeping_state : psys := default pipe_start (run_pipes pipe_start sleeping_run).

(** Wrap-around: the buffer is filled but for four bytes, emptied of ten and
    filled with eight more. *)
Definition wrap_run : list (nat * (call + answer)) :=
  (a_pipe ++ [(1, inl (CWrite 1 (zeros 16380%Z) false)); (1, inr Moved); (2, inl (CRead 0 10 false)); (2, inr Moved);
    (1, inl (CWrite 1 [1; 2; 3; 4; 5; 6; 7; 8]%Z false)); (1, inr Moved); (1, inr Moved)])%nat.
Example wrap_result : match run_pipes pipe_start wrap_run with
  | Some s => match pipes s !! 0%nat with
              | Some P => (b_in (pipe_buffer P), b_out (pipe_buffer P), cnt (pipe_buffer P), drop (Z.to_nat 16370) (contents (pipe_buffer P)))
                          = (4, 10, 16378, [1; 2; 3; 4; 5; 6; 7; 8])
              | None => False
              end
  | None => False
  end.
Proof. vm_compute. reflexivity. Qed.

(** ** Witnesses *)

Lemma pipe_invariant_witness : pinv sleeping_state /\ forall o, pstep sleeping_state o -> o <> Faults.
Proof. apply pipe_invariant. apply (run_reach sleeping_run). vm_compute. reflexivity. Defined.

Definition stream_pipe : pipe := default (new_pipe []) (pipes stream_state !! 0%nat).

Lemma pipe_stream_correct_witness :
  ((events stream_state 0 ≫= ev_lost) = [] -> (events stream_state 0 ≫= ev_read) ++ contents (pipe_buffer stream_pipe) = (events stream_state 0 ≫= ev_wrote))
  /\ Z.of_nat (length (contents (pipe_buffer stream_pipe))) = cnt (pipe_buffer stream_pipe)
  /\ 0 <= cnt (pipe_buffer stream_pipe) <= b_size (pipe_buffer stream_pipe)
  /\ forall bs orig, EWrote bs orig ∈ events stream_state 0 -> orig <= PIPE_BUF -> Z.of_nat (length bs) = orig.
Proof.
  apply pipe_stream_correct.
  - apply (run_reach stream_run). vm_compute. reflexivity.
  - vm_compute. reflexivity.
Defined.

Definition sleeping_pipe : pipe := default (new_pipe []) (pipes sleeping_state !! 0%nat).

Lemma pipe_no_lost_wakeup_witness :
  (forall t l, thr sleeping_state !! t = Some (At true 0 l) -> pipe_awaits sleeping_state 0 sleeping_pipe l)
  /\ forall t t' r w, thr sleeping_state !! t = Some (At true 0 (RdSleep r)) -> thr sleeping_state !! t' <> Some (At true 0 (WrSleep w)).
Proof.
  apply pipe_no_lost_wakeup.
  - apply (run_reach sleeping_run). vm_compute. reflexivity.
  - vm_compute. reflexivity.
Defined.

Lemma pipe_poll_correct_witness :
  let R := new_pipe (zeros 16384%Z) in
  (has (pipe_poll R (Some R) 5).1.1 POLLOUT = true /\ exists P seg, Some R = Some P /\
     (wr_start (PS P false (Pglob 0 0) []) (wio_of [1] false)).2 = Moves (WrMove (wio_of [1] false) 1 seg)) /\
  has (pipe_poll R None 5).1.1 POLLHUP = true /\ filt_pipewrite None = (0, true, true).
Proof.
  intros R. split; [|split].
  - destruct (pipe_poll_correct R (Some R) 5 (Pglob 0 0) 1 [1]) as (_ & _ & _ & H & _);
      [vm_compute; reflexivity|by intros P [= <-]|lia|done|]. split; [vm_compute; reflexivity|].
    apply H. vm_compute. reflexivity.
  - destruct (pipe_poll_correct R None 5 (Pglob 0 0) 1 [1]) as (_ & H & _); [vm_compute; reflexivity|done|lia|done|].
    rewrite H. vm_compute. reflexivity.
  - destruct (pipe_poll_correct R None 5 (Pglob 0 0) 1 [1]) as (_ & _ & _ & _ & _ & _ & H);
      [vm_compute; reflexivity|done|lia|done|]. rewrite H by (vm_compute; reflexivity). vm_compute. reflexivity.
Defined.

(** ** What goes wrong *)

(** Thread 1 is in the [uiomove] of a small write when thread 2 finds the pipe
    empty and waits for the lock to enlarge the buffer. *)
Definition resize_run : list (nat * (call + answer)) :=
  (a_pipe ++ [(1, inl (CWrite 1 [7; 8; 9]%Z false)); (2, inl (CWrite 1 (zeros 16385%Z) false)); (1, inr Moved);
    (2, inr Woken); (2, inr (Memory (Some (zeros 65536%Z))))])%nat.

(** A write of 2 GB or more whose length, cut to an [int], is at most
    [PIPE_BUF] never finds space. *)
Lemma huge_write_blocks x data nb : b_size (buf x) <= BIG_PIPE_SIZE -> 0 <= cnt (buf x) -> 2 ^ 31 <= Z.of_nat (length data) ->
  sint 32 (Z.of_nat (length data)) <= PIPE_BUF -> wr_space x (wio_of data nb) = 0.
Proof.
  intros Hb Hc Hl Hs. unfold wr_space. rewrite (proj2 (Z.ltb_lt _ _)).
  2:{ unfold w_resid, BIG_PIPE_SIZE in *. simpl. lia. }
  by rewrite (proj2 (Z.leb_le _ _)).
Qed.

(** C39: Two defects.  The test that the pipe is empty precedes the wait for the
    lock and is not repeated, so that enlarging the buffer throws away bytes
    that were written meanwhile and whose writer was told they were.  And
    [orig_resid] is an [int]: a write of more than 2 GB, or of 4 GB and a few
    bytes, counts as one that must be atomic and waits forever for the space. *)
Theorem pipe_defects :
  (exists s, preach s /\ (events s 0 ≫= ev_wrote) = [7; 8; 9] /\ (events s 0 ≫= ev_lost) = [7; 8; 9] /\ (events s 0 ≫= ev_read) = [])
  /\ forall x data nb, ring (buf x) -> b_size (buf x) <= BIG_PIPE_SIZE ->
       (Z.of_nat (length data) = 2 ^ 31 \/ Z.of_nat (length data) = 2 ^ 32 + 100) -> wr_space x (wio_of data nb) = 0.
Proof.
  split.
  - assert (G : option_map (fun s => (events s 0 ≫= ev_wrote, events s 0 ≫= ev_lost, events s 0 ≫= ev_read)) (run_pipes pipe_start resize_run)
      = Some ([7; 8; 9], [7; 8; 9], [])) by (vm_compute; reflexivity).
    destruct (run_pipes pipe_start resize_run) as [s|] eqn:E; [|discriminate G].
    exists s. split; [exact (run_reach resize_run s E)|]. clear E. cbn [option_map] in G.
    injection G as G1 G2 G3. exact (conj G1 (conj G2 G3)).
  - intros x data nb Rg Hb Hl. assert (Hc : 0 <= cnt (buf x)) by apply Rg.
    apply huge_write_blocks; auto; [lia|]. destruct Hl as [-> | ->]; vm_compute; discriminate.
Qed.
