(* ===== verification/Shm.v ===== *)
(** * System V shared memory (sys/kern/sysv_shm.c, sys/sys/shm.h)

    A table of segments with sequence numbers, and in each address space a
    table of what it has attached.  The calls share [ipcperm] and the
    identifiers with the semaphores ([Sem]).

    A call is cut where it can sleep or asks another part of the kernel:
    [pool_get], [malloc], [uao_create], [uvm_map], [uvm_deallocate], [copyin]
    and [copyout].  [section] goes on with the answer.  A pool item lives in
    its slot of [shmsegs] from [pool_get] to [pool_put], so that a pointer is
    a slot and an address ([shm_addr]), and valid while the slot has that
    item.  What the code asks of the virtual memory is logged. *)

From stdpp Require Import base numbers list option.
From Stdlib Require Import ZArith Lia Bool.
From S2P Require Import Prelude Sem.
Local Open Scope Z_scope.

(** ** Constants *)

Definition PAGE_SHIFT : Z := 12.
Definition PAGE_SIZE : Z := 4096.
Definition PAGE_MASK : Z := 4095.
Definition SHMLBA : Z := PAGE_SIZE.
Definition SHM_RDONLY : Z := 2 ^ 12.
Definition SHM_RND : Z := 2 ^ 13.
Definition SHMSEG_REMOVED : Z := 2 ^ 9.
Definition ACCESSPERMS : Z := 511.
Definition PROT_READ : Z := 1.
Definition PROT_WRITE : Z := 2.
Definition EMFILE : Z := 24.

(** [round_page] of an [int], as a [size_t]; of a [size_t]. *)
Definition round_page_int (x : Z) : Z := ul (Z.land (sint 32 (x + PAGE_MASK)) (Z.lnot PAGE_MASK)).
Definition round_page (x : Z) : Z := Z.land (ul (x + PAGE_MASK)) (Z.lnot PAGE_MASK).
Definition atop (x : Z) : Z := Z.shiftr x PAGE_SHIFT.

(** ** Data *)

Record shmid_ds := Ds { shm_addr : nat; shm_perm : ipc_perm; shm_segsz : Z; shm_lpid : Z; shm_cpid : Z;
  shm_nattch : Z; shm_atime : Z; shm_dtime : Z; shm_ctime : Z; shm_object : nat }.

Record shminfo := Info { shmmax : Z; shmmin : Z; shmmni : Z; shmseg : Z; shmall : Z }.

Record shmmap_state := Att { va : Z; shmid : Z }.

(** Calls of the virtual memory. *)
Inductive sevent := UaoCreate (o : nat) | UaoReference (o : nat) | UaoDetach (o : nat)
  | UvmMap (vm : nat) (va size : Z) (o : nat) (prot : Z) | UvmDeallocate (vm : nat) (va size : Z).

(** [vms]: the [vm_shm] of each address space, [None] when it is NULL; the
    [shmseg] of a [shmmap_head] is the length of its list. *)
Record shm_state := St { sinfo : shminfo; shmsegs : list (option shmid_ds); shmseqs : list Z;
  shm_last_free : Z; shm_nused : Z; shm_committed : Z; vms : list (option (list shmmap_state));
  time_second : Z; slog : list sevent }.

Definition set_segs st x := St (sinfo st) x (shmseqs st) (shm_last_free st) (shm_nused st) (shm_committed st) (vms st) (time_second st) (slog st).
Definition set_seqs st x := St (sinfo st) (shmsegs st) x (shm_last_free st) (shm_nused st) (shm_committed st) (vms st) (time_second st) (slog st).
Definition set_last st x := St (sinfo st) (shmsegs st) (shmseqs st) x (shm_nused st) (shm_committed st) (vms st) (time_second st) (slog st).
Definition set_usage st n c := St (sinfo st) (shmsegs st) (shmseqs st) (shm_last_free st) n c (vms st) (time_second st) (slog st).
Definition set_vms st x := St (sinfo st) (shmsegs st) (shmseqs st) (shm_last_free st) (shm_nused st) (shm_committed st) x (time_second st) (slog st).
Definition set_info st x := St x (shmsegs st) (shmseqs st) (shm_last_free st) (shm_nused st) (shm_committed st) (vms st) (time_second st) (slog st).
Definition slogs st e := St (sinfo st) (shmsegs st) (shmseqs st) (shm_last_free st) (shm_nused st) (shm_committed st) (vms st) (time_second st) (slog st ++ [e]).

Definition with_nattch (d : shmid_ds) (n : Z) : shmid_ds :=
  Ds (shm_addr d) (shm_perm d) (shm_segsz d) (shm_lpid d) (shm_cpid d) n (shm_atime d) (shm_dtime d) (shm_ctime d) (shm_object d).
Definition with_perm (d : shmid_ds) (p : ipc_perm) (ctime : Z) : shmid_ds :=
  Ds (shm_addr d) p (shm_segsz d) (shm_lpid d) (shm_cpid d) (shm_nattch d) (shm_atime d) (shm_dtime d) ctime (shm_object d).
Definition removed (d : shmid_ds) : bool := has (mode (shm_perm d)) SHMSEG_REMOVED.

Definition set_slot st (ix : nat) (o : option shmid_ds) : shm_state := set_segs st (<[ix := o]> (shmsegs st)).

(** The entry [i] of the address space [vm]. *)
Definition entry (st : shm_state) (vm i : nat) : option shmmap_state := mjoin (vms st !! vm) ≫= fun l => l !! i.
Definition set_entry st (vm i : nat) (e : shmmap_state) : shm_state :=
  set_vms st (alter (fmap (fun l => <[i := e]> l)) vm (vms st)).

(** The item at [a], if it is still in its slot. *)
Definition deref (st : shm_state) (ix a : nat) : option shmid_ds :=
  match shmsegs st !! ix with Some (Some d) => if Nat.eqb (shm_addr d) a then Some d else None | _ => None end.

(** ** Finding segments *)

(** The slot [ix], when it is below [shmmni]. *)
Definition seg_at (st : shm_state) (ix : nat) : option shmid_ds :=
  if Z.of_nat ix <? shmmni (sinfo st) then mjoin (shmsegs st !! ix) else None.

Definition has_key (k : Z) (o : option shmid_ds) : Prop := match o with Some d => key (shm_perm d) = k | None => False end.
#[global] Instance shm_key_dec k o : Decision (has_key k o).
Proof. destruct o; simpl; apply _. Defined.

Definition shm_find_segment_by_key (st : shm_state) (k : Z) : option nat :=
  fst <$> list_find (has_key k) (take (Z.to_nat (shmmni (sinfo st))) (shmsegs st)).

Definition shm_find_segment_by_shmid (st : shm_state) (id : Z) : option (nat * shmid_ds) :=
  let segnum := Z.to_nat (IPCID_TO_IX id) in
  match seg_at st segnum with
  | Some d => if seq (shm_perm d) =? IPCID_TO_SEQ id then Some (segnum, d) else None
  | None => None
  end.

(** ** Calls and their stops *)

(** [p_ucred], [ps_pid], [p_vmspace] *)
Record proc := Proc { p_ucred : ucred; ps_pid : Z; p_vmspace : nat }.

(** Where a call is: in the [pool_get] of shmget that may not wait, or may
    (with a second look for the key afterwards); in [uao_create]; in the
    [malloc] of shmat; in [uvm_map]; in [uvm_deallocate] for shmdt or for
    shmexit; copying for shmctl; in the [malloc] of shmfork; in those of
    sysctl. *)
Inductive spc :=
  | GetNowait (k size flg : Z) | GetPool (k size flg : Z) (recheck : bool) | GetUao (segnum a : nat) (k size flg : Z)
  | AtMalloc (id addr flg : Z) | AtMap (id : Z) (i segnum a o : nat) (size prot : Z)
  | DtUnmap (vm i segnum a : nat) | ExUnmap (vm i segnum a : nat)
  | CtlOut (segnum a : nat) | CtlIn (segnum a : nat)
  | ForkMalloc (vm1 : nat) | SysSegs (val : Z) | SysSeqs (val : Z).

(** Error and value returned; a stop; a bad access or panic. *)
Inductive sres := Ret (st : shm_state) (error retval : Z) | Wait (st : shm_state) (pc : spc) | Bad.

Inductive sanswer := Item (a : nat) (junk : shmid_ds) | NoItem | Object (o : nat) | Done
  | Error (e : Z) | Va (v : Z) | Inbuf (iuid igid imode : Z).

(** ** Deallocation, detaching *)

(** The slot is set to NULL by the callers, before anything can sleep. *)
Definition shm_deallocate_segment (st : shm_state) (d : shmid_ds) : shm_state :=
  let size := round_page_int (shm_segsz d) in
  let st := slogs st (UaoDetach (shm_object d)) in
  set_usage st (shm_nused st - 1) (sint 32 (shm_committed st - atop size)).

Definition drop_segment (st : shm_state) (segnum : nat) (d : shmid_ds) : shm_state :=
  set_slot (set_last (shm_deallocate_segment st d) (Z.of_nat segnum)) segnum None.

(** Up to [uvm_deallocate]; [None]: EINVAL. *)
Definition delete_start (st : shm_state) (vm : nat) (e : shmmap_state) : option (shm_state * nat * nat) :=
  let segnum := Z.to_nat (IPCID_TO_IX (shmid e)) in
  match seg_at st segnum with
  | None => None
  | Some d => Some (slogs st (UvmDeallocate vm (va e) (round_page_int (shm_segsz d))), segnum, shm_addr d)
  end.

Definition delete_finish (st : shm_state) (vm i segnum a : nat) : option shm_state :=
  match entry st vm i, deref st segnum a with
  | Some e, Some d =>
      let st := set_entry st vm i (Att (va e) (-1)) in
      let d := Ds (shm_addr d) (shm_perm d) (shm_segsz d) (shm_lpid d) (shm_cpid d) (sint 16 (shm_nattch d - 1))
                 (shm_atime d) (time_second st) (shm_ctime d) (shm_object d) in
      let st := set_slot st segnum (Some d) in
      Some (if (shm_nattch d <=? 0) && removed d then drop_segment st segnum d else st)
  | _, _ => None
  end.

Definition attached_at (v : Z) (e : shmmap_state) : Prop := shmid e <> -1 /\ va e = v.
#[global] Instance attached_at_dec v e : Decision (attached_at v e).
Proof. apply and_dec; apply _. Defined.

Definition sys_shmdt (st : shm_state) (p : proc) (addr : Z) : sres :=
  match mjoin (vms st !! p_vmspace p) with
  | None => Ret st EINVAL 0
  | Some l =>
      match list_find (attached_at addr) l with
      | None => Ret st EINVAL 0
      | Some (i, e) =>
          match delete_start st (p_vmspace p) e with
          | None => Ret st EINVAL 0
          | Some (st, segnum, a) => Wait st (DtUnmap (p_vmspace p) i segnum a)
          end
      end
  end.

(** ** Attaching *)

Definition unattached (e : shmmap_state) : Prop := shmid e = -1.
#[global] Instance unattached_dec e : Decision (unattached e).
Proof. unfold unattached. apply _. Defined.

(** The address asked for; [None]: EINVAL. *)
Definition attach_va (addr flg : Z) : option Z :=
  if addr =? 0 then Some 0
  else if has flg SHM_RND then Some (Z.land addr (Z.lnot (SHMLBA - 1)))
  else if Z.land addr (SHMLBA - 1) =? 0 then Some addr
  else None.

(** With a [vm_shm], up to [uvm_map].  The address asked for and
    [UVM_FLAG_FIXED] are the business of [uvm_map]. *)
Definition at_find (st : shm_state) (p : proc) (l : list shmmap_state) (id addr flg : Z) : sres :=
  match shm_find_segment_by_shmid st id with
  | None => Ret st EINVAL 0
  | Some (segnum, d) =>
      let error := ipcperm (p_ucred p) (shm_perm d) (if has flg SHM_RDONLY then IPC_R else Z.lor IPC_R IPC_W) in
      if negb (error =? 0) then Ret st error 0
      else
        match list_find unattached l with
        | None => Ret st EMFILE 0
        | Some (i, _) =>
            let size := round_page_int (shm_segsz d) in
            let prot := if has flg SHM_RDONLY then PROT_READ else Z.lor PROT_READ PROT_WRITE in
            match attach_va addr flg with
            | None => Ret st EINVAL 0
            | Some _ => Wait (slogs st (UaoReference (shm_object d))) (AtMap id i segnum (shm_addr d) (shm_object d) size prot)
            end
        end
  end.

Definition sys_shmat (st : shm_state) (p : proc) (id addr flg : Z) : sres :=
  match mjoin (vms st !! p_vmspace p) with
  | None => Wait st (AtMalloc id addr flg)
  | Some l => at_find st p l id addr flg
  end.

Definition at_malloc (st : shm_state) (p : proc) (id addr flg : Z) : sres :=
  let l := replicate (Z.to_nat (shmseg (sinfo st))) (Att 0 (-1)) in
  at_find (set_vms st (<[p_vmspace p := Some l]> (vms st))) p l id addr flg.

Definition at_mapped (st : shm_state) (p : proc) (id : Z) (i segnum a o : nat) (size prot v : Z) : sres :=
  match deref st segnum a with
  | None => Bad
  | Some d =>
      let st := slogs st (UvmMap (p_vmspace p) v size o prot) in
      let st := set_entry st (p_vmspace p) i (Att v id) in
      let d := Ds (shm_addr d) (shm_perm d) (shm_segsz d) (ps_pid p) (shm_cpid d) (sint 16 (shm_nattch d + 1))
                 (time_second st) (shm_dtime d) (shm_ctime d) (shm_object d) in
      Ret (set_slot st segnum (Some d)) 0 v
  end.

(** ** shmctl *)

Definition shmctl1 (st : shm_state) (p : proc) (id cmd : Z) : sres :=
  match shm_find_segment_by_shmid st id with
  | None => Ret st EINVAL 0
  | Some (segnum, d) =>
      if cmd =? IPC_STAT then
        let error := ipcperm (p_ucred p) (shm_perm d) IPC_R in
        if negb (error =? 0) then Ret st error 0 else Wait st (CtlOut segnum (shm_addr d))
      else if cmd =? IPC_SET then
        let error := ipcperm (p_ucred p) (shm_perm d) IPC_M in
        if negb (error =? 0) then Ret st error 0 else Wait st (CtlIn segnum (shm_addr d))
      else if cmd =? IPC_RMID then
        let error := ipcperm (p_ucred p) (shm_perm d) IPC_M in
        if negb (error =? 0) then Ret st error 0
        else
          let q := shm_perm d in
          let d := with_perm d (mkPerm (cuid q) (cgid q) (uid q) (gid q) (Z.lor (mode q) SHMSEG_REMOVED) (seq q) IPC_PRIVATE) (shm_ctime d) in
          let st := set_slot st segnum (Some d) in
          Ret (if shm_nattch d <=? 0 then drop_segment st segnum d else st) 0 0
      else Ret st EINVAL 0
  end.

Definition ctl_set (st : shm_state) (segnum a : nat) (iuid igid imode : Z) : sres :=
  match deref st segnum a with
  | None => Bad
  | Some d =>
      let q := shm_perm d in
      let m := Z.lor (Z.land (mode q) (Z.lnot ACCESSPERMS)) (Z.land imode ACCESSPERMS) in
      Ret (set_slot st segnum (Some (with_perm d (mkPerm (cuid q) (cgid q) iuid igid m (seq q) (key q)) (time_second st)))) 0 0
  end.

(** ** shmget *)

Definition shmget_existing (st : shm_state) (p : proc) (size flg md : Z) (segnum : nat) : sres :=
  match shmsegs st !! segnum with
  | Some (Some d) =>
      let error := ipcperm (p_ucred p) (shm_perm d) md in
      if negb (error =? 0) then Ret st error 0
      else if negb (size =? 0) && (ul (shm_segsz d) <? size) then Ret st EINVAL 0
      else if Z.land flg (Z.lor IPC_CREAT IPC_EXCL) =? Z.lor IPC_CREAT IPC_EXCL then Ret st EEXIST 0
      else Ret st 0 (IXSEQ_TO_IPCID (Z.of_nat segnum) (shm_perm d))
  | _ => Bad
  end.

(** Up to [pool_get].  The comparisons with an [int] are of [size_t]. *)
Definition shmget_allocate_segment (st : shm_state) (k size flg : Z) : sres :=
  let i := sinfo st in
  if (size <? ul (shmmin i)) || (ul (shmmax i) <? size) || (INT_MAX <? size) then Ret st EINVAL 0
  else if shmmni i <=? shm_nused st then Ret st ENOSPC 0
  else
    let pages := atop (round_page size) in
    if ul (shmall i) <? ul (shm_committed st + pages) then Ret st ENOMEM 0
    else
      let st := set_usage st (shm_nused st + 1) (sint 32 (shm_committed st + pages)) in
      Wait st (if k =? IPC_PRIVATE then GetPool k size flg false else GetNowait k size flg).

Definition sys_shmget (st : shm_state) (p : proc) (k size flg : Z) : sres :=
  if negb (k =? IPC_PRIVATE) then
    match shm_find_segment_by_key st k with
    | Some segnum => shmget_existing st p size flg (Z.land flg ACCESSPERMS) segnum
    | None => if has flg IPC_CREAT then shmget_allocate_segment st k size flg else Ret st ENOENT 0
    end
  else shmget_allocate_segment st k size flg.

(** The slot for a new segment; [None] is the panic. *)
Definition is_free (o : option shmid_ds) : Prop := o = None.
#[global] Instance shm_free_dec o : Decision (is_free o).
Proof. destruct o; [right|left]; done. Defined.

Definition pick_slot (st : shm_state) : option (shm_state * nat) :=
  let n := shmmni (sinfo st) in
  if shm_last_free st <? 0 then
    match list_find is_free (take (Z.to_nat n) (shmsegs st)) with
    | None => None
    | Some (segnum, _) => Some (st, segnum)
    end
  else
    let l := shm_last_free st + 1 in
    let last := if (n <=? l) || match shmsegs st !! Z.to_nat l with Some (Some _) => true | _ => false end then -1 else l in
    Some (set_last st last, Z.to_nat (shm_last_free st)).

(** With an item at [a], which holds [junk]; up to [uao_create]. *)
Definition get_item (st : shm_state) (k size flg : Z) (a : nat) (junk : shmid_ds) : sres :=
  match pick_slot st with
  | None => Bad
  | Some (st, segnum) =>
      let d := Ds a (shm_perm junk) (shm_segsz junk) (shm_lpid junk) (shm_cpid junk) (shm_nattch junk)
                 (shm_atime junk) (shm_dtime junk) (shm_ctime junk) (shm_object junk) in
      Wait (set_slot st segnum (Some d)) (GetUao segnum a k size flg)
  end.

Definition get_done (st : shm_state) (p : proc) (segnum a : nat) (k size flg : Z) (o : nat) : sres :=
  match deref st segnum a, shmseqs st !! segnum with
  | Some d, Some s =>
      let cred := p_ucred p in
      let sq := Z.land (s + 1) 32767 in
      let perm := mkPerm (cr_uid cred) (cr_gid cred) (cr_uid cred) (cr_gid cred) (Z.land flg ACCESSPERMS) sq k in
      let d := Ds a perm (sint 32 size) 0 (ps_pid p) 0 0 0 (time_second st) o in
      let st := set_slot (set_seqs (slogs st (UaoCreate o)) (<[segnum := sq]> (shmseqs st))) segnum (Some d) in
      Ret st 0 (IXSEQ_TO_IPCID (Z.of_nat segnum) perm)
  | _, _ => Bad
  end.

(** After a [pool_get] that waited; [EAGAIN] goes back to the search. *)
Definition get_waited (st : shm_state) (p : proc) (k size flg : Z) (recheck : bool) (a : nat) (junk : shmid_ds) : sres :=
  if recheck && bool_decide (is_Some (shm_find_segment_by_key st k)) then
    let pages := atop (round_page size) in
    sys_shmget (set_usage st (shm_nused st - 1) (sint 32 (shm_committed st - pages))) p k size flg
  else get_item st k size flg a junk.

(** ** fork, exit *)

(** [shm_nattch++] for each attached entry; [None]: an index out of range. *)
Fixpoint fork_loop (segs : list (option shmid_ds)) (l : list shmmap_state) : option (list (option shmid_ds)) :=
  match l with
  | [] => Some segs
  | e :: l =>
      if shmid e =? -1 then fork_loop segs l
      else
        let ix := Z.to_nat (IPCID_TO_IX (shmid e)) in
        match segs !! ix with
        | None => None
        | Some None => fork_loop segs l
        | Some (Some d) => fork_loop (<[ix := Some (with_nattch d (sint 16 (shm_nattch d + 1)))]> segs) l
        end
  end.

(** The new address space is the last. *)
Definition shmfork (st : shm_state) (vm1 : nat) : sres :=
  match mjoin (vms st !! vm1) with
  | None => Ret (set_vms st (vms st ++ [None])) 0 0
  | Some _ => Wait st (ForkMalloc vm1)
  end.

Definition fork_copy (st : shm_state) (vm1 : nat) : sres :=
  match mjoin (vms st !! vm1) with
  | None => Bad
  | Some l =>
      match fork_loop (shmsegs st) l with
      | None => Bad
      | Some segs => Ret (set_vms (set_segs st segs) (vms st ++ [Some l])) 0 0
      end
  end.

(** The entries from [i] on; those whose segment is not there are passed. *)
Fixpoint exit_loop (st : shm_state) (vm i : nat) (l : list shmmap_state) : sres :=
  match l with
  | [] => Ret (set_vms st (<[vm := None]> (vms st))) 0 0
  | e :: l =>
      if shmid e =? -1 then exit_loop st vm (S i) l
      else match delete_start st vm e with
           | None => exit_loop st vm (S i) l
           | Some (st, segnum, a) => Wait st (ExUnmap vm i segnum a)
           end
  end.

Definition shmexit (st : shm_state) (vm : nat) : sres :=
  match mjoin (vms st !! vm) with
  | None => Ret st 0 0
  | Some l => exit_loop st vm 0 l
  end.

Definition exit_next (st : shm_state) (vm i segnum a : nat) : sres :=
  match delete_finish st vm i segnum a with
  | None => Bad
  | Some st => match mjoin (vms st !! vm) with
               | None => Bad
               | Some l => exit_loop st vm (S i) (drop (S i) l)
               end
  end.

(** ** sysctl, initialisation *)

Definition KERN_SHMINFO_SHMMAX : Z := 1.
Definition KERN_SHMINFO_SHMMIN : Z := 2.
Definition KERN_SHMINFO_SHMMNI : Z := 3.
Definition KERN_SHMINFO_SHMSEG : Z := 4.
Definition KERN_SHMINFO_SHMALL : Z := 5.

Definition sysctl_sysvshm (st : shm_state) (name namelen : Z) (io : sysctl_io) : sres :=
  let i := sinfo st in
  if negb (namelen =? 2) && negb ((1 <=? name) && (name <=? 5)) then Ret st ENOTDIR 0
  else if name =? KERN_SHMINFO_SHMMAX then
    let '(error, val) := sysctl_int io (shmmax i) in
    let st := set_info st (Info val (shmmin i) (shmmni i) (shmseg i) (shmall i)) in
    if negb (error =? 0) || bool_decide (newp io = None) then Ret st error 0
    else
      let pages := Z.shiftr (Z.land (sint 32 (val + PAGE_MASK)) (Z.lnot PAGE_MASK)) PAGE_SHIFT in
      Ret (if shmall i <? pages then set_info st (Info val (shmmin i) (shmmni i) (shmseg i) pages) else st) 0 0
  else if name =? KERN_SHMINFO_SHMMIN then
    let '(error, val) := sysctl_int io (shmmin i) in
    if negb (error =? 0) || (val =? shmmin i) then Ret st error 0
    else if val <=? 0 then Ret st EINVAL 0
    else Ret (set_info st (Info (shmmax i) val (shmmni i) (shmseg i) (shmall i))) 0 0
  else if name =? KERN_SHMINFO_SHMMNI then
    let '(error, val) := sysctl_int io (shmmni i) in
    if negb (error =? 0) || (val =? shmmni i) then Ret st error 0
    else if (val <? shmmni i) || (65535 <? val) then Ret st EINVAL 0
    else Wait st (SysSegs val)
  else if name =? KERN_SHMINFO_SHMSEG then
    let '(error, val) := sysctl_int io (shmseg i) in
    if negb (error =? 0) || (val =? shmseg i) then Ret st error 0
    else if val <=? 0 then Ret st EINVAL 0
    else Ret (set_info st (Info (shmmax i) (shmmin i) (shmmni i) val (shmall i))) 0 0
  else if name =? KERN_SHMINFO_SHMALL then
    let '(error, val) := sysctl_int io (shmall i) in
    if negb (error =? 0) || (val =? shmall i) then Ret st error 0
    else if val <? shmall i then Ret st EINVAL 0
    else Ret (set_info st (Info (shmmax i) (shmmin i) (shmmni i) (shmseg i) val)) 0 0
  else Ret st EOPNOTSUPP 0.

(** A cleared array of [val] with the first [shmmni] of the old one; [Bad]
    when they do not fit, or the old one is shorter. *)
Definition regrow {A} (z : A) (val n : Z) (l : list A) : option (list A) :=
  if (val <? n) || (Z.of_nat (length l) <? n) then None
  else Some (take (Z.to_nat n) l ++ replicate (Z.to_nat (val - n)) z).

Definition sys_segs (st : shm_state) (val : Z) : sres :=
  match regrow None val (shmmni (sinfo st)) (shmsegs st) with
  | None => Bad
  | Some l => Wait (set_segs st l) (SysSeqs val)
  end.
Definition sys_seqs (st : shm_state) (val : Z) : sres :=
  let i := sinfo st in
  match regrow 0 val (shmmni i) (shmseqs st) with
  | None => Bad
  | Some l => Ret (set_info (set_seqs st l) (Info (shmmax i) (shmmin i) val (shmseg i) (shmall i))) 0 0
  end.

Definition shminit (i : shminfo) (now : Z) : shm_state :=
  St (Info (sint 32 (shmmax i * PAGE_SIZE)) (shmmin i) (shmmni i) (shmseg i) (shmall i))
    (replicate (Z.to_nat (shmmni i)) None) (replicate (Z.to_nat (shmmni i)) 0) 0 0 0 [] now [].

(** ** Going on *)

(** [None]: not an answer to this. *)
Definition section (st : shm_state) (p : proc) (pc : spc) (ans : sanswer) : option sres :=
  match pc, ans with
  | GetNowait k size flg, Item a junk => Some (get_item st k size flg a junk)
  | GetNowait k size flg, NoItem => Some (Wait st (GetPool k size flg true))
  | GetPool k size flg recheck, Item a junk => Some (get_waited st p k size flg recheck a junk)
  | GetUao segnum a k size flg, Object o => Some (get_done st p segnum a k size flg o)
  | AtMalloc id addr flg, Done => Some (at_malloc st p id addr flg)
  | AtMap id i segnum a o size prot, Va v => Some (at_mapped st p id i segnum a o size prot v)
  | AtMap id i segnum a o size prot, Error e => Some (Ret (slogs st (UaoDetach o)) e 0)
  | DtUnmap vm i segnum a, Done =>
      Some (match delete_finish st vm i segnum a with Some st => Ret st 0 0 | None => Bad end)
  | ExUnmap vm i segnum a, Done => Some (exit_next st vm i segnum a)
  | CtlOut segnum a, Done => Some (if bool_decide (is_Some (deref st segnum a)) then Ret st 0 0 else Bad)
  | CtlOut segnum a, Error e => Some (Ret st e 0)
  | CtlIn segnum a, Inbuf u g m => Some (ctl_set st segnum a u g m)
  | CtlIn segnum a, Error e => Some (Ret st e 0)
  | ForkMalloc vm1, Done => Some (fork_copy st vm1)
  | SysSegs val, Done => Some (sys_segs st val)
  | SysSeqs val, Done => Some (sys_seqs st val)
  | _, _ => None
  end.

Inductive scall := CGet (k size flg : Z) | CAt (id addr flg : Z) | CDt (addr : Z) | CCtl (id cmd : Z)
  | CFork | CExit | CSysctl (name namelen : Z) (io : sysctl_io).

Definition call (st : shm_state) (p : proc) (c : scall) : sres :=
  match c with
  | CGet k size flg => sys_shmget st p k size flg
  | CAt id addr flg => sys_shmat st p id addr flg
  | CDt addr => sys_shmdt st p addr
  | CCtl id cmd => shmctl1 st p id cmd
  | CFork => shmfork st (p_vmspace p)
  | CExit => shmexit st (p_vmspace p)
  | CSysctl name namelen io => sysctl_sysvshm st name namelen io
  end.
