(* ===== verification/ShmInv.v ===== *)
(** * System V shared memory: the invariant

    Sums over lists, the number of times a segment is attached, and what
    keeps the tables consistent. *)

From stdpp Require Import base numbers list option.
From Stdlib Require Import ZArith Lia Bool.
From S2P Require Import Prelude Sem SemSys Clock ClockFacts Shm.
Local Open Scope Z_scope.

(** ** Sums *)

Fixpoint lsum {A} (f : A -> Z) (l : list A) : Z := match l with [] => 0 | x :: l => f x + lsum f l end.

Section sums.
Context {A : Type}.
Implicit Types (f g : A -> Z) (l : list A).

Lemma lsum_app f l1 l2 : lsum f (l1 ++ l2) = lsum f l1 + lsum f l2.
Proof. induction l1; simpl; lia. Qed.

Lemma lsum_insert f l i x y : l !! i = Some x -> lsum f (<[i := y]> l) = lsum f l - f x + f y.
Proof. revert i. induction l as [|z l IH]; intros [|i] H; simplify_eq/=; [lia|]. rewrite (IH i H). lia. Qed.

Lemma lsum_nonneg f l : (forall x, 0 <= f x) -> 0 <= lsum f l.
Proof. intros H. induction l as [|x l]; simpl; [|specialize (H x)]; lia. Qed.

Lemma lsum_le f l i x : (forall x, 0 <= f x) -> l !! i = Some x -> f x <= lsum f l.
Proof.
  intros H. revert i. induction l as [|z l IH]; intros [|i] E; simplify_eq/=.
  - assert (0 <= lsum f l) by (by apply lsum_nonneg). lia.
  - specialize (IH i E). specialize (H z). lia.
Qed.

Lemma lsum_two f l i j x y : (forall x, 0 <= f x) -> l !! i = Some x -> l !! j = Some y -> i <> j -> f x + f y <= lsum f l.
Proof.
  intros H. revert i j. induction l as [|z l IH]; intros [|i] [|j] E1 E2 N; simplify_eq/=; try done.
  - assert (L := lsum_le f l j y H E2). lia.
  - assert (L := lsum_le f l i x H E1). lia.
  - assert (i <> j) by lia. specialize (IH i j E1 E2 ltac:(done)). specialize (H z). lia.
Qed.

Lemma lsum_zero f l : (forall i x, l !! i = Some x -> f x = 0) -> lsum f l = 0.
Proof.
  induction l as [|x l IH]; intros H; [done|]. simpl. rewrite (H 0%nat x eq_refl), IH; [done|].
  intros i y E. exact (H (S i) y E).
Qed.

Lemma lsum_pos_inv f l : 0 < lsum f l -> exists i x, l !! i = Some x /\ 0 < f x.
Proof.
  induction l as [|x l IH]; simpl; [lia|]. intros H. destruct (Z.lt_ge_cases 0 (f x)); [by exists 0%nat, x|].
  destruct IH as (i & y & E & P); [lia|]. by exists (S i), y.
Qed.

Lemma lsum_Forall2 f l l' : Forall2 (fun x y => f x = f y) l l' -> lsum f l = lsum f l'.
Proof. induction 1; simpl; lia. Qed.

Lemma lsum_mono f g l : (forall x, f x <= g x) -> lsum f l <= lsum g l.
Proof. intros H. induction l as [|x l]; simpl; [|specialize (H x)]; lia. Qed.

End sums.

(** ** Counts *)

Definition occ (o : option shmid_ds) : Z := match o with Some _ => 1 | None => 0 end.
Definition pages (o : option shmid_ds) : Z := match o with Some d => atop (round_page_int (shm_segsz d)) | None => 0 end.
Definition obj (u : nat) (o : option shmid_ds) : Z :=
  match o with Some d => if Nat.eqb (shm_object d) u then 1 else 0 | None => 0 end.

Definition live (e : shmmap_state) : Z := if shmid e =? -1 then 0 else 1.
Definition slot_of (e : shmmap_state) : nat := Z.to_nat (IPCID_TO_IX (shmid e)).
Definition hits (ix : nat) (e : shmmap_state) : Z := if (shmid e =? -1) || negb (Nat.eqb (slot_of e) ix) then 0 else 1.

Definition vm_sum (f : shmmap_state -> Z) (o : option (list shmmap_state)) : Z := lsum f (default [] o).
(** How often the segment in slot [ix] is attached; all attachments. *)
Definition att (st : shm_state) (ix : nat) : Z := lsum (vm_sum (hits ix)) (vms st).
Definition total (st : shm_state) : Z := lsum (vm_sum live) (vms st).

(** The references to the object [u] that are not the virtual memory's. *)
Definition refs (u : nat) (e : sevent) : Z :=
  match e with
  | UaoCreate o | UaoReference o => if Nat.eqb o u then 1 else 0
  | UaoDetach o | UvmMap _ _ _ o _ => if Nat.eqb o u then -1 else 0
  | UvmDeallocate _ _ _ => 0
  end.
Definition balance (st : shm_state) (u : nat) : Z := lsum (refs u) (slog st).

Lemma hits_nonneg ix e : 0 <= hits ix e.
Proof. unfold hits. destruct (_ || _); lia. Qed.
Lemma hits_live ix e : hits ix e <= live e.
Proof. unfold hits, live. destruct (shmid e =? -1); simpl; [lia|]. destruct (negb _); lia. Qed.
Lemma vm_sum_nonneg f o : (forall e, 0 <= f e) -> 0 <= vm_sum f o.
Proof. intros. by apply lsum_nonneg. Qed.
Lemma att_nonneg st ix : 0 <= att st ix.
Proof. apply lsum_nonneg. intros. apply vm_sum_nonneg, hits_nonneg. Qed.
Lemma att_total st ix : att st ix <= total st.
Proof. apply lsum_mono. intros. apply lsum_mono, hits_live. Qed.
Lemma shm_occ_nonneg o : 0 <= occ o.
Proof. destruct o; simpl; lia. Qed.
Lemma obj_nonneg u o : 0 <= obj u o.
Proof. unfold obj. destruct o; [destruct (Nat.eqb _ _)|]; lia. Qed.

Lemma entry_lookup st vm i e : entry st vm i = Some e <-> exists l, vms st !! vm = Some (Some l) /\ l !! i = Some e.
Proof.
  unfold entry. split.
  - destruct (vms st !! vm) as [[l|]|] eqn:E; simpl; try done. intros H. by exists l.
  - by intros (l & -> & ?).
Qed.

Lemma sum_entry f st vm i e e' : entry st vm i = Some e ->
  lsum (vm_sum f) (vms (set_entry st vm i e')) = lsum (vm_sum f) (vms st) - f e + f e'.
Proof.
  intros (l & E & El)%entry_lookup. unfold set_entry. simpl.
  assert (H : alter (fmap (fun l => <[i := e']> l)) vm (vms st) = <[vm := Some (<[i := e']> l)]> (vms st)).
  { apply list_eq. intros j. destruct (decide (j = vm)) as [->|N].
    - rewrite list_lookup_alter_eq, E, list_lookup_insert_eq by (by eapply lookup_lt_Some). done.
    - by rewrite list_lookup_alter_ne, list_lookup_insert_ne by congruence. }
  rewrite H, (lsum_insert _ _ _ _ _ E). unfold vm_sum at 2 3. simpl. rewrite (lsum_insert _ _ _ _ _ El). lia.
Qed.

Lemma entry_set st vm i e0 e' vm1 i1 e : entry st vm i = Some e0 -> entry (set_entry st vm i e') vm1 i1 = Some e ->
  e = e' \/ entry st vm1 i1 = Some e.
Proof.
  intros (l & E & El)%entry_lookup (l1 & E1 & El1)%entry_lookup. simpl in E1.
  destruct (decide (vm1 = vm)) as [->|N].
  - rewrite list_lookup_alter_eq, E in E1. simplify_eq/=. destruct (decide (i1 = i)) as [->|Ni].
    + rewrite list_lookup_insert_eq in El1 by (by eapply lookup_lt_Some). left. congruence.
    + rewrite list_lookup_insert_ne in El1 by congruence. right. apply entry_lookup. by exists l.
  - rewrite list_lookup_alter_ne in E1 by congruence. right. apply entry_lookup. by exists l1.
Qed.

Lemma att_hit st ix vm i e : entry st vm i = Some e -> shmid e <> -1 -> slot_of e = ix -> 0 < att st ix.
Proof.
  intros (l & E & El)%entry_lookup N <-. assert (H : hits (slot_of e) e = 1).
  { unfold hits. rewrite (proj2 (Z.eqb_neq _ _) N), Nat.eqb_refl. done. }
  assert (L1 := lsum_le (hits (slot_of e)) l i e (hits_nonneg _) El).
  assert (L2 := lsum_le (vm_sum (hits (slot_of e))) (vms st) vm (Some l) ltac:(intros; apply vm_sum_nonneg, hits_nonneg) E).
  unfold att. unfold vm_sum at 1 in L2. simpl in L2. lia.
Qed.

Lemma att_pos_entry st ix : 0 < att st ix -> exists vm i e, entry st vm i = Some e /\ shmid e <> -1 /\ slot_of e = ix.
Proof.
  intros (vm & o & E & P)%lsum_pos_inv. apply lsum_pos_inv in P as (i & e & El & P).
  exists vm, i, e. split; [|unfold hits in P; destruct (Z.eqb_spec (shmid e) (-1)); simpl in P; [lia|];
    destruct (Nat.eqb_spec (slot_of e) ix); simpl in P; [done|lia]].
  apply entry_lookup. destruct o as [l|]; [by exists l|]. done.
Qed.

(** ** Sizes *)

Definition MAXSEG : Z := INT_MAX - PAGE_MASK.

Lemma round_page_int_eq x : 0 <= x <= MAXSEG -> round_page_int x = Z.land (x + PAGE_MASK) (Z.lnot PAGE_MASK).
Proof.
  unfold MAXSEG, INT_MAX, PAGE_MASK. intros H. unfold round_page_int, PAGE_MASK.
  rewrite sint_id by (change (2 ^ (32 - 1)) with 2147483648; lia). apply ul_id.
  rewrite <- Z.ldiff_land. change 4095 with (Z.ones 12). rewrite Z.ldiff_ones_r by lia.
  rewrite Z.shiftl_mul_pow2, Z.shiftr_div_pow2 by lia. change (Z.ones 12) with 4095. change (2 ^ 12) with 4096.
  unfold is_ul, UL_MOD. assert (0 <= (x + 4095) / 4096) by (apply Z.div_pos; lia).
  assert (B := Z.mul_div_le (x + 4095) 4096). lia.
Qed.

Lemma round_page_same x : 0 <= x <= MAXSEG -> round_page x = round_page_int x.
Proof.
  intros H. rewrite round_page_int_eq by done. unfold round_page. rewrite ul_id; [done|].
  unfold is_ul, UL_MOD, PAGE_MASK, MAXSEG, INT_MAX, PAGE_MASK in *. lia.
Qed.

Lemma seg_pages_range x : 0 <= x <= MAXSEG -> 0 <= atop (round_page_int x) <= 524288.
Proof.
  intros H. rewrite round_page_int_eq by done. unfold atop, PAGE_SHIFT. unfold MAXSEG, INT_MAX, PAGE_MASK in *.
  rewrite <- Z.ldiff_land. change 4095 with (Z.ones 12). rewrite Z.ldiff_ones_r, Z.shiftr_shiftl_l, Z.shiftl_0_r by lia.
  rewrite Z.shiftr_div_pow2 by lia. change (Z.ones 12) with 4095. change (2 ^ 12) with 4096. split.
  - apply Z.div_pos; lia.
  - apply Z.div_le_upper_bound; lia.
Qed.

(** ** The invariant *)

(** The segment [d] in slot [ix]. *)
Record seg_ok (st : shm_state) (ix : nat) (d : shmid_ds) : Prop := {
  g_seq : shmseqs st !! ix = Some (seq (shm_perm d)) /\ 0 <= seq (shm_perm d) < 32768;
  g_size : 0 <= shm_segsz d <= MAXSEG;
  g_att : shm_nattch d = att st ix;
  g_key : removed d = true -> key (shm_perm d) = IPC_PRIVATE }.

Definition in_slot (st : shm_state) (ix : nat) (d : shmid_ds) : Prop := shmsegs st !! ix = Some (Some d).

(** With [n] identifiers and [pg] pages set aside for calls that wait in
    [pool_get]. *)
Record shm_tables (st : shm_state) (n pg : Z) : Prop := {
  i_mni : 0 < shmmni (sinfo st) <= 65535;
  i_max : 0 <= shmmax (sinfo st) <= MAXSEG;
  i_all : 0 <= shmall (sinfo st) <= INT_MAX;
  i_len : Z.of_nat (length (shmsegs st)) = shmmni (sinfo st);
  i_seqs : Z.of_nat (length (shmseqs st)) = shmmni (sinfo st) /\ Forall (fun s => 0 <= s < 32768) (shmseqs st);
  i_last : shm_last_free st = -1 \/ 0 <= shm_last_free st /\ shmsegs st !! Z.to_nat (shm_last_free st) = Some None;
  i_used : shm_nused st = lsum occ (shmsegs st) + n /\ shm_nused st <= shmmni (sinfo st);
  i_comm : shm_committed st = lsum pages (shmsegs st) + pg /\ shm_committed st <= shmall (sinfo st);
  i_seg : forall ix d, in_slot st ix d -> seg_ok st ix d;
  i_att : forall vm i e, entry st vm i = Some e -> shmid e <> -1 ->
    exists ix d, in_slot st ix d /\ shmid e = IXSEQ_TO_IPCID (Z.of_nat ix) (shm_perm d);
  i_total : total st <= 32767;
  i_addr : forall i j d1 d2, in_slot st i d1 -> in_slot st j d2 -> shm_addr d1 = shm_addr d2 -> i = j;
  i_key : forall i j d1 d2, in_slot st i d1 -> in_slot st j d2 -> key (shm_perm d1) = key (shm_perm d2) ->
    i = j \/ key (shm_perm d1) = IPC_PRIVATE;
  i_obj : forall u, balance st u = lsum (obj u) (shmsegs st) /\ balance st u <= 1 }.

(** A removed segment stays only while it is attached. *)
Definition lingering (st : shm_state) : Prop := forall ix d, in_slot st ix d -> removed d = true -> 0 < shm_nattch d.

Definition shm_inv (st : shm_state) (n pg : Z) : Prop := shm_tables st n pg /\ lingering st.
