(* ===== verification/ShmCalls.v ===== *)
(** * System V shared memory: the changes of the tables

    What each kind of change of the tables needs to keep the invariant: a
    segment that is altered, one that goes, one that comes. *)

From stdpp Require Import base numbers list option.
From Stdlib Require Import ZArith Lia Bool.
From S2P Require Import Prelude Sem SemSys Clock ClockFacts Shm ShmInv.
Local Open Scope Z_scope.

Lemma pages_nonneg o : 0 <= pages o.
Proof.
  destruct o; simpl; [|lia]. unfold atop. apply Z.shiftr_nonneg. apply ul_range.
Qed.

(** ** Altering segments *)

Definition similar (d d' : shmid_ds) : Prop :=
  shm_addr d' = shm_addr d /\ shm_segsz d' = shm_segsz d /\ shm_object d' = shm_object d
  /\ seq (shm_perm d') = seq (shm_perm d) /\ (key (shm_perm d') = key (shm_perm d) \/ key (shm_perm d') = IPC_PRIVATE).

Definition slot_sim (o o' : option shmid_ds) : Prop :=
  match o, o' with None, None => True | Some d, Some d' => similar d d' | _, _ => False end.

#[global] Instance similar_refl : Reflexive similar.
Proof. intros d. by repeat split; auto. Qed.
#[global] Instance slot_sim_refl : Reflexive slot_sim.
Proof. intros [d|]; simpl; [apply similar_refl|done]. Qed.

Lemma sims_insert l l' ix d d' : Forall2 slot_sim l l' -> l !! ix = Some (Some d) -> similar d d' ->
  Forall2 slot_sim l (<[ix := Some d']> l').
Proof.
  intros F H S. rewrite <- (list_insert_id l ix (Some d) H). by apply Forall2_insert.
Qed.

Lemma sims_refl l : Forall2 slot_sim l l.
Proof. induction l; constructor; [reflexivity|done]. Qed.

Lemma sims_back l l' ix d' : Forall2 slot_sim l l' -> l' !! ix = Some (Some d') -> exists d, l !! ix = Some (Some d) /\ similar d d'.
Proof.
  intros F H. destruct (Forall2_lookup_r _ _ _ _ _ F H) as ([d|] & E & S); simpl in S; [by exists d|done].
Qed.

Lemma sims_forth l l' ix d : Forall2 slot_sim l l' -> l !! ix = Some (Some d) -> exists d', l' !! ix = Some (Some d') /\ similar d d'.
Proof.
  intros F H. destruct (Forall2_lookup_l _ _ _ _ _ F H) as ([d'|] & E & S); simpl in S; [by exists d'|done].
Qed.

Lemma sims_sum (f : option shmid_ds -> Z) l l' : (forall o o', slot_sim o o' -> f o = f o') -> Forall2 slot_sim l l' -> lsum f l = lsum f l'.
Proof. intros H F. apply lsum_Forall2. eapply Forall2_impl; [|exact F]. auto. Qed.

Lemma ipcid_perm ix q q' : seq q = seq q' -> IXSEQ_TO_IPCID ix q = IXSEQ_TO_IPCID ix q'.
Proof. unfold IXSEQ_TO_IPCID. by intros ->. Qed.

(** Everything but segments, attachments and the log is as before. *)
Definition same_frame (st st' : shm_state) : Prop :=
  sinfo st' = sinfo st /\ shmseqs st' = shmseqs st /\ shm_last_free st' = shm_last_free st
  /\ shm_nused st' = shm_nused st /\ shm_committed st' = shm_committed st.

Lemma tables_touch st st' n pg : shm_tables st n pg -> same_frame st st' -> Forall2 slot_sim (shmsegs st) (shmsegs st') ->
  (forall ix d, in_slot st' ix d -> shm_nattch d = att st' ix /\ (removed d = true -> key (shm_perm d) = IPC_PRIVATE)) ->
  (forall vm i e, entry st' vm i = Some e -> shmid e <> -1 ->
     exists ix d, in_slot st ix d /\ shmid e = IXSEQ_TO_IPCID (Z.of_nat ix) (shm_perm d)) ->
  total st' <= 32767 -> (forall u, balance st' u = balance st u) -> shm_tables st' n pg.
Proof.
  intros I (E1 & E2 & E3 & E4 & E5) F Ha He Ht Hb. destruct I. constructor; rewrite ?E1, ?E2, ?E3, ?E4, ?E5; auto.
  - by rewrite <- (Forall2_length F).
  - destruct i_last as [?|[? H]]; [by left|right]. split; [done|].
    destruct (Forall2_lookup_l _ _ _ _ _ F H) as ([d|] & E & S); [done|done].
  - rewrite <- (sims_sum occ _ _ ltac:(by intros [] []) F). done.
  - rewrite <- (sims_sum pages _ _ ltac:(intros [] [] S; simpl in *; try done; by destruct S as (_ & -> & _)) F). done.
  - intros ix d' H. destruct (sims_back _ _ _ _ F H) as (d & Hd & S). destruct (i_seg ix d Hd). destruct S as (_ & S2 & _ & S4 & _).
    destruct (Ha ix d' H). constructor; rewrite ?S2, ?S4, ?E2; done.
  - intros vm i e H N. destruct (He vm i e H N) as (ix & d & Hd & ->). destruct (sims_forth _ _ _ _ F Hd) as (d' & Hd' & S).
    exists ix, d'. split; [done|]. apply ipcid_perm. symmetry. apply S.
  - intros i j d1 d2 H1 H2 E. destruct (sims_back _ _ _ _ F H1) as (a1 & A1 & S1). destruct (sims_back _ _ _ _ F H2) as (a2 & A2 & S2).
    apply (i_addr i j a1 a2); auto. destruct S1 as [<- _], S2 as [<- _]. done.
  - intros i j d1 d2 H1 H2 E. destruct (sims_back _ _ _ _ F H1) as (a1 & A1 & S1). destruct (sims_back _ _ _ _ F H2) as (a2 & A2 & S2).
    destruct S1 as (_ & _ & _ & _ & [S1|S1]); [|by right]. destruct S2 as (_ & _ & _ & _ & [S2|S2]); [|right; congruence].
    destruct (i_key i j a1 a2 A1 A2); [congruence|by left|right; congruence].
  - intros u. rewrite Hb. rewrite <- (sims_sum (obj u) _ _ ltac:(intros [] [] S; simpl in *; try done; by destruct S as (_ & _ & -> & _)) F). done.
Qed.

(** Only the log grows, by events without a balance. *)
Lemma tables_log st n pg e : shm_tables st n pg -> (forall u, refs u e = 0) -> shm_tables (slogs st e) n pg.
Proof.
  intros I H. apply (tables_touch st).
  - done.
  - done.
  - apply sims_refl.
  - intros ix d Hd. by destruct (i_seg _ _ _ I ix d Hd).
  - apply (i_att _ _ _ I).
  - apply (i_total _ _ _ I).
  - intros u. unfold balance. simpl. rewrite lsum_app. simpl. rewrite H. lia.
Qed.

(** ** A segment goes *)

Lemma in_slot_insert st ix o j d : in_slot (set_slot st ix o) j d -> j <> ix /\ in_slot st j d \/ j = ix /\ o = Some d.
Proof.
  unfold in_slot. simpl. destruct (decide (j = ix)) as [->|N].
  - intros H. right. split; [done|]. assert (L : (ix < length (shmsegs st))%nat).
    { apply lookup_lt_Some in H. by rewrite length_insert in H. }
    rewrite list_lookup_insert_eq in H by done. congruence.
  - rewrite list_lookup_insert_ne by congruence. auto.
Qed.

Lemma no_entry st n pg ix vm i e : shm_tables st n pg -> att st ix = 0 -> entry st vm i = Some e -> shmid e <> -1 ->
  exists j d, j <> ix /\ in_slot st j d /\ shmid e = IXSEQ_TO_IPCID (Z.of_nat j) (shm_perm d).
Proof.
  intros I A H N. destruct (i_att _ _ _ I vm i e H N) as (j & d & Hd & E). exists j, d. split; [|done]. intros ->.
  assert (P : 0 < att st ix); [|lia]. apply (att_hit st ix vm i e H N). unfold slot_of. rewrite E.
  destruct (i_seg _ _ _ I ix d Hd). assert (L := lookup_lt_Some _ _ _ Hd). assert (Hl := i_len _ _ _ I). assert (Hm := i_mni _ _ _ I).
  destruct (ipcid_roundtrip (Z.of_nat ix) (shm_perm d)) as [-> _]; [lia|apply g_seq|]. lia.
Qed.

Lemma tables_drop st n pg ix d : shm_tables st n pg -> 0 <= n -> 0 <= pg -> in_slot st ix d -> att st ix = 0 ->
  shm_tables (drop_segment st ix d) n pg.
Proof.
  intros I Hn Hp Hd A. assert (N0 := fun vm i e => no_entry st n pg ix vm i e I A). destruct I.
  assert (Hu : lsum occ (<[ix := None]> (shmsegs st)) = lsum occ (shmsegs st) - 1) by (rewrite (lsum_insert _ _ _ _ _ Hd); simpl; lia).
  assert (Hc : lsum pages (<[ix := None]> (shmsegs st)) = lsum pages (shmsegs st) - pages (Some d)) by (rewrite (lsum_insert _ _ _ _ _ Hd); simpl; lia).
  assert (Lp := lsum_le pages _ ix _ pages_nonneg Hd). assert (P0 := pages_nonneg (Some d)).
  assert (Lx := lookup_lt_Some _ _ _ Hd).
  constructor; simpl; auto.
  - by rewrite length_insert.
  - right. rewrite Nat2Z.id, list_lookup_insert_eq by done. split; [lia|done].
  - rewrite Hu. lia.
  - rewrite Hc. change (pages (Some d)) with (atop (round_page_int (shm_segsz d))) in *. assert (P1 := lsum_nonneg pages (shmsegs st) pages_nonneg).
    unfold INT_MAX in *. rewrite sint_id; [lia|lia|].
    change (2 ^ (32 - 1)) with 2147483648. lia.
  - intros j d' H. apply in_slot_insert in H as [[N H]|[_ [=]]]. destruct (i_seg j d' H). by constructor.
  - intros vm i e He Ne. destruct (N0 vm i e He Ne) as (j & d' & N & H & E). exists j, d'. split; [|done].
    unfold in_slot. simpl. by rewrite list_lookup_insert_ne by congruence.
  - intros i j d1 d2 H1 H2. apply in_slot_insert in H1 as [[N1 H1]|[_ [=]]]. apply in_slot_insert in H2 as [[N2 H2]|[_ [=]]]. by apply i_addr.
  - intros i j d1 d2 H1 H2. apply in_slot_insert in H1 as [[N1 H1]|[_ [=]]]. apply in_slot_insert in H2 as [[N2 H2]|[_ [=]]]. by apply i_key.
  - intros u. destruct (i_obj u) as [B1 B2]. rewrite (lsum_insert _ _ _ _ _ Hd). unfold balance in *. simpl. rewrite lsum_app. simpl.
    destruct (Nat.eqb_spec (shm_object d) u); lia.
Qed.

Lemma lingering_drop st ix d : (forall j d, j <> ix -> in_slot st j d -> removed d = true -> 0 < shm_nattch d) ->
  lingering (drop_segment st ix d).
Proof. intros H j d' Hd. apply in_slot_insert in Hd as [[N Hd]|[_ [=]]]. by apply (H j). Qed.

(** ** A segment comes *)

Lemma free_slot l : lsum occ l < Z.of_nat (length l) -> exists i, list_find is_free l = Some (i, None) /\ l !! i = Some None.
Proof.
  intros H. destruct (list_find is_free l) as [[i o]|] eqn:E.
  - apply list_find_Some in E as (E1 & E2 & _). unfold is_free in E2. subst. by exists i.
  - exfalso. apply list_find_None in E. induction l as [|o l IH]; simpl in *; [lia|].
    inversion E as [|? ? E1 E2]; subst. destruct o; [|by destruct E1]. simpl in H. apply IH; [lia|done].
Qed.

Lemma pick_slot_ok st n pg : shm_tables st (n + 1) pg -> 0 <= n ->
  exists last ix, pick_slot st = Some (set_last st last, ix) /\ shmsegs st !! ix = Some None
    /\ (last = -1 \/ 0 <= last /\ Z.to_nat last <> ix /\ shmsegs st !! Z.to_nat last = Some None).
Proof.
  intros I Hn. destruct I. unfold pick_slot. destruct (Z.ltb_spec (shm_last_free st) 0) as [L|L].
  - assert (Ht : take (Z.to_nat (shmmni (sinfo st))) (shmsegs st) = shmsegs st) by (apply take_ge; lia). rewrite Ht.
    destruct (free_slot (shmsegs st)) as (i & -> & Hi); [lia|]. exists (shm_last_free st), i. split; [by destruct st|].
    split; [done|left]. destruct i_last; [done|lia].
  - destruct i_last as [?|[_ Hl]]; [lia|]. eexists _, _. split; [reflexivity|]. split; [done|].
    destruct (Z.leb_spec (shmmni (sinfo st)) (shm_last_free st + 1)); [by left|]. simpl.
    destruct (lookup_lt_is_Some_2 (shmsegs st) (Z.to_nat (shm_last_free st + 1))) as [[d|] Ed]; [lia| |]; rewrite Ed; [by left|right].
    split_and!; [lia|lia|done].
Qed.

Lemma key_unused st n pg k ix d : shm_tables st n pg -> shm_find_segment_by_key st k = None -> in_slot st ix d -> key (shm_perm d) <> k.
Proof.
  intros I H Hd E. destruct I. unfold shm_find_segment_by_key in H. rewrite take_ge in H by lia.
  destruct (list_find _ _) as [[]|] eqn:F; [done|]. apply list_find_None in F. rewrite Forall_lookup in F. by apply (F ix (Some d) Hd).
Qed.

(** The state after the creation of a segment in the slot [ix]. *)
Definition created (st : shm_state) (p : proc) (last : Z) (ix a : nat) (k size flg s : Z) (o : nat) : shm_state :=
  let cred := p_ucred p in
  let sq := Z.land (s + 1) 32767 in
  let perm := mkPerm (cr_uid cred) (cr_gid cred) (cr_uid cred) (cr_gid cred) (Z.land flg ACCESSPERMS) sq k in
  set_slot (set_seqs (slogs (set_last st last) (UaoCreate o)) (<[ix := sq]> (shmseqs st))) ix
    (Some (Ds a perm (sint 32 size) 0 (ps_pid p) 0 0 0 (time_second st) o)).

Lemma get_item_done st p last ix a junk k size flg s : pick_slot st = Some (set_last st last, ix) -> shmsegs st !! ix = Some None ->
  shmseqs st !! ix = Some s ->
  exists st1, get_item st k size flg a junk = Wait st1 (GetUao ix a k size flg) /\ slog st1 = slog st
    /\ forall o, get_done st1 p ix a k size flg o = Ret (created st p last ix a k size flg s o) 0
         (IXSEQ_TO_IPCID (Z.of_nat ix) (mkPerm 0 0 0 0 0 (Z.land (s + 1) 32767) 0)).
Proof.
  intros Hp Hx Hs. unfold get_item. rewrite Hp. eexists. split; [reflexivity|]. split; [done|]. intros o.
  unfold get_done, deref. simpl. rewrite list_lookup_insert_eq by (by eapply lookup_lt_Some). simpl. rewrite Nat.eqb_refl, Hs.
  unfold created, set_slot. simpl. unfold set_segs, set_seqs, slogs. simpl. by rewrite list_insert_insert_eq.
Qed.

Lemma new_not_removed d flg : mode (shm_perm d) = Z.land flg ACCESSPERMS -> removed d = false.
Proof.
  unfold removed, SHMSEG_REMOVED. intros ->. rewrite has_pow2 by lia. rewrite Z.land_spec. change (Z.testbit ACCESSPERMS 9) with false.
  apply andb_false_r.
Qed.

Lemma seq_range s : 0 <= Z.land (s + 1) 32767 < 32768.
Proof.
  change 32767 with (Z.ones 15). rewrite Z.land_ones by lia. change (2 ^ 15) with 32768. apply Z.mod_pos_bound. lia.
Qed.

Lemma tables_create st n pg p last ix a k size flg s o : shm_tables st (n + 1) (pg + atop (round_page size)) -> 0 <= n ->
  shmsegs st !! ix = Some None -> shmseqs st !! ix = Some s ->
  (last = -1 \/ 0 <= last /\ Z.to_nat last <> ix /\ shmsegs st !! Z.to_nat last = Some None) ->
  0 <= size <= MAXSEG -> (k = IPC_PRIVATE \/ shm_find_segment_by_key st k = None) ->
  (forall j d, in_slot st j d -> shm_addr d <> a) -> balance st o = 0 ->
  shm_tables (created st p last ix a k size flg s o) n pg.
Proof.
  intros I Hn Hx Hs Hl Hz Hk Ha Hb. assert (Ku := fun k ix d => key_unused st _ _ k ix d I).
  assert (S32 : sint 32 size = size).
  { unfold MAXSEG, INT_MAX, PAGE_MASK in Hz. apply sint_id; [lia|]. change (2 ^ (32 - 1)) with 2147483648. lia. }
  assert (A0 : att st ix = 0).
  { destruct (Z.le_gt_cases (att st ix) 0) as [H|H]; [assert (X := att_nonneg st ix); lia|].
    apply att_pos_entry in H as (vm & i & e & He & Ne & Se). destruct (i_att _ _ _ I vm i e He Ne) as (j & d & Hd & E).
    destruct (i_seg _ _ _ I j d Hd). assert (L := lookup_lt_Some _ _ _ Hd). assert (Hl2 := i_len _ _ _ I). assert (Hm := i_mni _ _ _ I).
    unfold slot_of in Se. rewrite E in Se. destruct (ipcid_roundtrip (Z.of_nat j) (shm_perm d)) as [R _]; [lia|apply g_seq|].
    rewrite R, Nat2Z.id in Se. subst j. unfold in_slot in Hd. congruence. }
  assert (Lx := lookup_lt_Some _ _ _ Hx). destruct I.
  assert (Hsq : forall j (d : shmid_ds), in_slot st j d -> j <> ix) by (intros j d Hd ->; unfold in_slot in Hd; congruence).
  constructor; simpl; auto.
  - by rewrite length_insert.
  - rewrite length_insert. destruct i_seqs as [? F]. split; [done|]. apply Forall_insert; [done|]. apply seq_range.
  - destruct Hl as [?|(? & N & E)]; [by left|right]. split; [done|]. by rewrite list_lookup_insert_ne by congruence.
  - rewrite (lsum_insert _ _ _ _ _ Hx). simpl. lia.
  - rewrite (lsum_insert _ _ _ _ _ Hx). simpl. rewrite S32, <- round_page_same by done. lia.
  - intros j d H. apply in_slot_insert in H as [[N H]|[-> [= <-]]].
    + destruct (i_seg j d H). constructor; simpl; try done. by rewrite list_lookup_insert_ne by congruence.
    + constructor; simpl.
      * split; [apply list_lookup_insert_eq; by eapply lookup_lt_Some|apply seq_range].
      * by rewrite S32.
      * done.
      * by rewrite (new_not_removed _ flg).
  - intros vm i e He Ne. destruct (i_att vm i e He Ne) as (j & d & Hd & E). exists j, d. split; [|done].
    unfold in_slot. simpl. rewrite list_lookup_insert_ne by (by apply not_eq_sym, (Hsq j d)). done.
  - intros i j d1 d2 H1 H2. apply in_slot_insert in H1 as [[N1 H1]|[-> [= <-]]]; apply in_slot_insert in H2 as [[N2 H2]|[-> [= <-]]]; simpl; auto.
    + by apply i_addr.
    + intros E. by apply (Ha i d1) in H1.
    + intros E. by apply (Ha j d2) in H2.
  - intros i j d1 d2 H1 H2. apply in_slot_insert in H1 as [[N1 H1]|[-> [= <-]]]; apply in_slot_insert in H2 as [[N2 H2]|[-> [= <-]]]; simpl; auto.
    + by apply i_key.
    + intros E. right. destruct Hk as [->|Hk]; [done|]. by apply (Ku k i d1) in H1.
    + intros E. right. destruct Hk as [->|Hk]; [done|]. by apply (Ku k j d2) in H2.
  - intros u. destruct (i_obj u) as [B1 B2]. rewrite (lsum_insert _ _ _ _ _ Hx). unfold balance in *. simpl. rewrite lsum_app. simpl.
    destruct (Nat.eqb_spec o u); subst; lia.
Qed.

(** * tHe calls keep the invariant

    A call is calm when nobody else runs while it is in [uao_create],
    [uvm_map], [uvm_deallocate], [copyin], [copyout] or a [malloc]; others may
    run while it waits in [pool_get].  Calm calls keep the invariant, and never
    use an item that has been freed. *)

(** ** Calm calls *)

Definition pinned (pc : spc) : bool := match pc with GetPool _ _ _ _ => false | _ => true end.

(** An item or object that is given out is not in use.  The item may hold
    anything: what its last user left, except for the bytes [pool_put] links
    it with, the poison of a kernel with POOL_DEBUG, or the zeros of a fresh
    page. *)
Definition answer_ok (st : shm_state) (ans : sanswer) : Prop :=
  match ans with
  | Item a _ => forall ix d, in_slot st ix d -> shm_addr d <> a
  | Object o => balance st o = 0
  | Error e => e <> 0
  | _ => True
  end.

Inductive calm (p : proc) : sres -> sres -> Prop :=
  | calm_ret st e v : calm p (Ret st e v) (Ret st e v)
  | calm_bad : calm p Bad Bad
  | calm_pool st pc : pinned pc = false -> calm p (Wait st pc) (Wait st pc)
  | calm_go st pc ans r o : pinned pc = true -> answer_ok st ans -> section st p pc ans = Some r -> calm p r o -> calm p (Wait st pc) o.

Definition waiter (k size : Z) (recheck : bool) : Prop := 0 <= size <= MAXSEG /\ (k = IPC_PRIVATE \/ recheck = true).

(** A call ends well: [n] identifiers and [pg] pages are set aside for the
    others, and what it has set aside itself when it waits. *)
Definition good (n pg : Z) (r : sres) : Prop :=
  match r with
  | Ret st _ _ => shm_inv st n pg
  | Wait st (GetPool k size _ recheck) => shm_inv st (n + 1) (pg + atop (round_page size)) /\ waiter k size recheck
  | _ => False
  end.

Definition safe (p : proc) (n pg : Z) (r : sres) : Prop := forall o, calm p r o -> good n pg o.

Lemma inv_log st n pg e : shm_inv st n pg -> (forall u, refs u e = 0) -> shm_inv (slogs st e) n pg.
Proof. intros [I L] H. split; [by apply tables_log|done]. Qed.

Lemma hits_self e : shmid e <> -1 -> hits (slot_of e) e = 1.
Proof. intros N. unfold hits. by rewrite (proj2 (Z.eqb_neq _ _) N), Nat.eqb_refl. Qed.
Lemma hits_other ix e : ix <> slot_of e -> hits ix e = 0.
Proof. intros N. unfold hits. rewrite (proj2 (Nat.eqb_neq (slot_of e) ix)) by congruence. by rewrite orb_true_r. Qed.
Lemma hits_free ix v : hits ix (Att v (-1)) = 0.
Proof. done. Qed.

Section calls.
Context (p : proc) (n pg : Z) (Hn : 0 <= n) (Hpg : 0 <= pg).

Lemma safe_ret st e v : shm_inv st n pg -> safe p n pg (Ret st e v).
Proof. intros I o C. by inversion C; subst. Qed.

Lemma safe_pool st k size flg rc : shm_inv st (n + 1) (pg + atop (round_page size)) -> waiter k size rc ->
  safe p n pg (Wait st (GetPool k size flg rc)).
Proof. intros I W o C. inversion C as [| |? ? P|? ? ? ? ? P]; subst; [done|]. done. Qed.

Lemma safe_go st pc : pinned pc = true ->
  (forall ans r, answer_ok st ans -> section st p pc ans = Some r -> safe p n pg r) -> safe p n pg (Wait st pc).
Proof.
  intros P H o C. inversion C as [| |? ? P2|? ? ans r ? P2 A S C2]; subst; [congruence|]. exact (H ans r A S o C2).
Qed.

(** The answers to a stop. *)
Local Ltac stop := apply safe_go; [done|]; intros [] ? Ans S; simpl in S; simplify_eq.

Lemma tables_range st : shm_tables st n pg -> 0 <= shm_committed st <= INT_MAX /\ 0 <= lsum occ (shmsegs st).
Proof.
  intros I. destruct (i_comm _ _ _ I), (i_all _ _ _ I). assert (P := lsum_nonneg pages (shmsegs st) pages_nonneg).
  assert (O := lsum_nonneg occ (shmsegs st) shm_occ_nonneg). lia.
Qed.

Lemma tables_usage st n' pg' u c : shm_tables st n' pg' ->
  u = lsum occ (shmsegs st) + n -> u <= shmmni (sinfo st) -> c = lsum pages (shmsegs st) + pg -> c <= shmall (sinfo st) ->
  shm_tables (set_usage st u c) n pg.
Proof.
  intros I -> ? -> ?. destruct I. constructor; simpl; auto.
  intros ix d Hd. destruct (i_seg ix d Hd). by constructor.
Qed.

Lemma slot_found st n' pg' ix d : shm_tables st n' pg' -> seg_at st ix = Some d <-> in_slot st ix d.
Proof.
  intros I. unfold seg_at, in_slot. split.
  - destruct (Z.of_nat ix <? _); [|done]. by destruct (shmsegs st !! ix) as [[]|]; simpl; intros [= <-].
  - intros H. assert (L := lookup_lt_Some _ _ _ H). assert (E := i_len _ _ _ I). rewrite (proj2 (Z.ltb_lt _ _)) by lia. by rewrite H.
Qed.

Lemma find_shmid st n' pg' id ix d : shm_tables st n' pg' -> shm_find_segment_by_shmid st id = Some (ix, d) ->
  in_slot st ix d /\ ix = Z.to_nat (IPCID_TO_IX id) /\ seq (shm_perm d) = IPCID_TO_SEQ id.
Proof.
  intros I. unfold shm_find_segment_by_shmid. destruct (seg_at st _) as [d'|] eqn:E; [|done].
  destruct (Z.eqb_spec (seq (shm_perm d')) (IPCID_TO_SEQ id)); [|done]. intros [= <- <-]. split; [|done]. by apply (slot_found st n' pg').
Qed.

Lemma deref_found st ix d : in_slot st ix d -> deref st ix (shm_addr d) = Some d.
Proof. unfold deref, in_slot. intros ->. by rewrite Nat.eqb_refl. Qed.

(** ** shmget *)

Lemma get_item_safe st k size flg a junk : shm_inv st (n + 1) (pg + atop (round_page size)) -> 0 <= size <= MAXSEG ->
  (k = IPC_PRIVATE \/ shm_find_segment_by_key st k = None) -> answer_ok st (Item a junk) ->
  safe p n pg (get_item st k size flg a junk).
Proof.
  intros [I L] Hz Hk Ha. destruct (pick_slot_ok st n _ I Hn) as (last & ix & Hp & Hx & Hl).
  destruct (lookup_lt_is_Some_2 (shmseqs st) ix) as [s Hs].
  { assert (X := lookup_lt_Some _ _ _ Hx). destruct (i_seqs _ _ _ I). assert (Y := i_len _ _ _ I). lia. }
  destruct (get_item_done st p last ix a junk k size flg s Hp Hx Hs) as (st1 & -> & Lg & D). stop. rewrite D.
  apply safe_ret. split.
  - eapply tables_create; eauto. unfold answer_ok, balance in Ans. by rewrite Lg in Ans.
  - intros j d Hd R. apply in_slot_insert in Hd as [[N Hd]|[-> [= <-]]]; [by apply (L j d)|].
    by rewrite (new_not_removed _ flg) in R.
Qed.

Lemma committed_back st size : shm_inv st (n + 1) (pg + atop (round_page size)) -> 0 <= size <= MAXSEG ->
  shm_inv (set_usage st (shm_nused st - 1) (sint 32 (shm_committed st - atop (round_page size)))) n pg.
Proof.
  intros [I L] Hz. split; [|done]. assert (P := lsum_nonneg pages (shmsegs st) pages_nonneg).
  destruct (i_used _ _ _ I), (i_comm _ _ _ I), (i_all _ _ _ I). rewrite round_page_same in * by done.
  assert (R := seg_pages_range size Hz). rewrite sint_id by (unfold INT_MAX in *; change (2 ^ (32 - 1)) with 2147483648; lia).
  eapply tables_usage; [exact I|lia..].
Qed.

Lemma allocate_safe st k size flg : shm_inv st n pg -> 0 <= size -> (k = IPC_PRIVATE \/ shm_find_segment_by_key st k = None) ->
  safe p n pg (shmget_allocate_segment st k size flg).
Proof.
  intros [I L] Hz Hk. unfold shmget_allocate_segment. destruct (_ || _) eqn:B; [by apply safe_ret|].
  rewrite !orb_false_iff, !Z.ltb_ge in B. destruct B as [[_ B] _]. assert (M := i_max _ _ _ I).
  rewrite ul_id in B by (unfold is_ul, UL_MOD, MAXSEG, INT_MAX, PAGE_MASK in *; lia). assert (Hm : 0 <= size <= MAXSEG) by lia.
  destruct (Z.leb_spec (shmmni (sinfo st)) (shm_nused st)) as [U|U]; [by apply safe_ret|]. cbv zeta.
  assert (R := seg_pages_range size Hm). rewrite <- round_page_same in R by done. destruct (tables_range st I) as [C _].
  assert (A := i_all _ _ _ I). rewrite !ul_id by (unfold is_ul, UL_MOD, INT_MAX in *; lia).
  destruct (Z.ltb_spec (shmall (sinfo st)) (shm_committed st + atop (round_page size))) as [W|W]; [by apply safe_ret|].
  rewrite sint_id by (unfold INT_MAX in *; change (2 ^ (32 - 1)) with 2147483648; lia).
  set (st1 := set_usage st _ _). assert (I1 : shm_inv st1 (n + 1) (pg + atop (round_page size))).
  { split; [|done]. destruct (i_used _ _ _ I), (i_comm _ _ _ I). destruct I. constructor; simpl; auto; [lia|lia|].
    intros ix d Hd. destruct (i_seg ix d Hd). by constructor. }
  destruct (Z.eqb_spec k IPC_PRIVATE) as [->|Nk].
  - apply safe_pool; [done|]. split; [done|by left].
  - destruct Hk as [?|Hk]; [done|]. stop.
    + apply get_item_safe; auto.
    + apply safe_pool; [done|]. split; [done|by right].
Qed.

Lemma get_safe st k size flg : shm_inv st n pg -> 0 <= size -> safe p n pg (sys_shmget st p k size flg).
Proof.
  intros I Hz. unfold sys_shmget. destruct (Z.eqb_spec k IPC_PRIVATE) as [->|Nk]; simpl; [apply allocate_safe; auto|].
  destruct (shm_find_segment_by_key st k) as [ix|] eqn:F.
  - unfold shm_find_segment_by_key in F. destruct (list_find _ _) as [[i o]|] eqn:E; [|done]. injection F as ->.
    apply list_find_Some in E as (E & K & _). apply lookup_take_Some in E as [E _]. destruct o as [d|]; [|done].
    unfold shmget_existing. rewrite E. repeat case_match; by apply safe_ret.
  - destruct (has flg IPC_CREAT); [apply allocate_safe; auto|by apply safe_ret].
Qed.

Lemma waited_safe st k size flg rc a junk : shm_inv st (n + 1) (pg + atop (round_page size)) -> waiter k size rc ->
  answer_ok st (Item a junk) -> safe p n pg (get_waited st p k size flg rc a junk).
Proof.
  intros I [Hz Hk] Ha. unfold get_waited. destruct (rc && _) eqn:B.
  - apply get_safe; [by apply committed_back|lia].
  - apply get_item_safe; auto. destruct Hk as [-> | ->]; [by left|right]. apply bool_decide_eq_false, eq_None_not_Some in B. done.
Qed.

(** ** Detaching *)

Lemma delete_start_ok st vm i e : shm_inv st n pg -> entry st vm i = Some e -> shmid e <> -1 ->
  exists d, in_slot st (slot_of e) d /\ shmid e = IXSEQ_TO_IPCID (Z.of_nat (slot_of e)) (shm_perm d)
    /\ delete_start st vm e = Some (slogs st (UvmDeallocate vm (va e) (round_page_int (shm_segsz d))), slot_of e, shm_addr d).
Proof.
  intros [I L] He Ne. destruct (i_att _ _ _ I vm i e He Ne) as (ix & d & Hd & E). destruct (i_seg _ _ _ I ix d Hd).
  assert (Lx := lookup_lt_Some _ _ _ Hd). assert (Hl := i_len _ _ _ I). assert (Hm := i_mni _ _ _ I).
  assert (S : slot_of e = ix).
  { unfold slot_of. rewrite E. destruct (ipcid_roundtrip (Z.of_nat ix) (shm_perm d)) as [-> _]; [lia|apply g_seq|]. lia. }
  exists d. rewrite S. split; [done|]. split; [done|]. unfold delete_start. fold (slot_of e). rewrite S.
  by rewrite (proj2 (slot_found st n pg ix d I) Hd).
Qed.

Lemma att_set_entry st vm i e e' ix : entry st vm i = Some e -> att (set_entry st vm i e') ix = att st ix - hits ix e + hits ix e'.
Proof. intros H. unfold att. by rewrite (sum_entry _ _ _ _ _ _ H). Qed.

(** The tables after a detach, before the segment may go. *)
Definition detached (st : shm_state) (vm i : nat) (e : shmmap_state) (d : shmid_ds) : shm_state :=
  set_slot (set_entry st vm i (Att (va e) (-1))) (slot_of e)
    (Some (Ds (shm_addr d) (shm_perm d) (shm_segsz d) (shm_lpid d) (shm_cpid d) (shm_nattch d - 1)
       (shm_atime d) (time_second st) (shm_ctime d) (shm_object d))).

Lemma detached_tables st vm i e d : shm_tables st n pg -> entry st vm i = Some e -> shmid e <> -1 -> in_slot st (slot_of e) d ->
  shm_tables (detached st vm i e d) n pg.
Proof.
  intros I He Ne Hd. assert (Av : forall ix, att (detached st vm i e d) ix = att st ix - hits ix e).
  { intros ix. transitivity (att (set_entry st vm i (Att (va e) (-1))) ix); [done|]. rewrite (att_set_entry _ _ _ _ _ _ He), hits_free. lia. }
  apply (tables_touch st); [done|done|..].
  - eapply sims_insert; [apply sims_refl|exact Hd|]. by repeat split; auto.
  - intros ix d' H. rewrite Av. apply in_slot_insert in H as [[N H]|[-> [= <-]]].
    + rewrite (hits_other ix e) by done. destruct (i_seg _ _ _ I ix d' H). split; [lia|done].
    + rewrite hits_self by done. destruct (i_seg _ _ _ I _ d Hd). simpl. split; [lia|]. exact g_key.
  - intros vm1 i1 e1 H1 N1. destruct (entry_set st vm i e _ vm1 i1 e1 He H1) as [->|H]; [done|]. exact (i_att _ _ _ I vm1 i1 e1 H N1).
  - unfold total. change (vms (detached st vm i e d)) with (vms (set_entry st vm i (Att (va e) (-1)))). rewrite (sum_entry _ _ _ _ _ _ He).
    assert (T := i_total _ _ _ I). unfold total in T. change (live (Att (va e) (-1))) with 0.
    assert (0 <= live e) by (unfold live; destruct (shmid e =? -1); lia). lia.
  - done.
Qed.

Lemma delete_finish_eq st vm i e d : shm_tables st n pg -> entry st vm i = Some e -> shmid e <> -1 -> in_slot st (slot_of e) d ->
  delete_finish st vm i (slot_of e) (shm_addr d) =
    Some (if (shm_nattch d - 1 <=? 0) && removed d
          then drop_segment (detached st vm i e d) (slot_of e) (Ds (shm_addr d) (shm_perm d) (shm_segsz d) (shm_lpid d) (shm_cpid d)
                 (shm_nattch d - 1) (shm_atime d) (time_second st) (shm_ctime d) (shm_object d))
          else detached st vm i e d).
Proof.
  intros I He Ne Hd. unfold delete_finish. rewrite He, (deref_found _ _ _ Hd). destruct (i_seg _ _ _ I _ d Hd).
  assert (0 < att st (slot_of e)) by (by eapply att_hit). assert (T1 := att_total st (slot_of e)). assert (T2 := i_total _ _ _ I).
  rewrite sint_id by (change (2 ^ (16 - 1)) with 32768; lia). done.
Qed.

Lemma delete_finish_ok st vm i e d : shm_inv st n pg -> entry st vm i = Some e -> shmid e <> -1 -> in_slot st (slot_of e) d ->
  exists st', delete_finish st vm i (slot_of e) (shm_addr d) = Some st' /\ shm_inv st' n pg
    /\ vms st' = vms (set_entry st vm i (Att (va e) (-1))).
Proof.
  intros [I L] He Ne Hd. rewrite (delete_finish_eq st vm i e d) by done. eexists. split; [reflexivity|].
  assert (I2 := detached_tables st vm i e d I He Ne Hd).
  assert (H2 : in_slot (detached st vm i e d) (slot_of e) (Ds (shm_addr d) (shm_perm d) (shm_segsz d) (shm_lpid d) (shm_cpid d)
                 (shm_nattch d - 1) (shm_atime d) (time_second st) (shm_ctime d) (shm_object d))).
  { unfold in_slot. simpl. apply list_lookup_insert_eq. by eapply lookup_lt_Some. }
  assert (Lo : forall j d', j <> slot_of e -> in_slot (detached st vm i e d) j d' -> removed d' = true -> 0 < shm_nattch d').
  { intros j d' N H. apply in_slot_insert in H as [[_ H]|[-> _]]; [by apply (L j d')|done]. }
  destruct ((shm_nattch d - 1 <=? 0) && removed d) eqn:B.
  - apply andb_true_iff in B as [B _]. apply Z.leb_le in B. split; [|done]. split; [|by apply lingering_drop].
    apply tables_drop; auto. destruct (i_seg _ _ _ I2 _ _ H2). assert (X := att_nonneg (detached st vm i e d) (slot_of e)). simpl in g_att. lia.
  - split; [|done]. split; [done|]. intros j d' H R. destruct (decide (j = slot_of e)) as [->|N]; [|by apply (Lo j)].
    unfold in_slot in H, H2. rewrite H in H2. injection H2 as ->. simpl. destruct (Z.leb_spec (shm_nattch d - 1) 0); [|lia].
    change (removed d = true) in R. by rewrite R in B.
Qed.

Lemma dt_safe st addr : shm_inv st n pg -> safe p n pg (sys_shmdt st p addr).
Proof.
  intros I. unfold sys_shmdt. destruct (vms st !! p_vmspace p) as [[l|]|] eqn:E; simpl; try (by apply safe_ret).
  destruct (list_find (attached_at addr) l) as [[i e]|] eqn:F; [|by apply safe_ret].
  apply list_find_Some in F as (F & [Ne _] & _).
  assert (He : entry st (p_vmspace p) i = Some e) by (apply entry_lookup; by exists l).
  destruct (delete_start_ok st (p_vmspace p) i e I He Ne) as (d & Hd & _ & ->). stop.
  destruct (delete_finish_ok (slogs st (UvmDeallocate (p_vmspace p) (va e) (round_page_int (shm_segsz d)))) (p_vmspace p) i e d)
    as (st' & -> & I' & _); auto; [by apply inv_log|]. by apply safe_ret.
Qed.

(** ** exit *)

(** Attachments change, but those there are go on to name the same segments. *)
Lemma tables_vms st v : shm_tables st n pg -> (forall ix, lsum (vm_sum (hits ix)) v = att st ix) -> lsum (vm_sum live) v <= 32767 ->
  (forall vm i e, entry (set_vms st v) vm i = Some e -> shmid e <> -1 -> exists vm0 i0 e0, entry st vm0 i0 = Some e0 /\ shmid e0 = shmid e) ->
  shm_tables (set_vms st v) n pg.
Proof.
  intros I Ha Ht He. apply (tables_touch st); [done|done|apply sims_refl|..].
  - intros ix d Hd. unfold att at 1. simpl. rewrite Ha. by destruct (i_seg _ _ _ I ix d Hd).
  - intros vm i e H Ne. destruct (He vm i e H Ne) as (vm0 & i0 & e0 & H0 & E0). rewrite <- E0 in *. exact (i_att _ _ _ I vm0 i0 e0 H0 Ne).
  - done.
  - done.
Qed.

Lemma exit_done st vm l : shm_inv st n pg -> vms st !! vm = Some (Some l) -> (forall j e, l !! j = Some e -> shmid e = -1) ->
  shm_inv (set_vms st (<[vm := None]> (vms st))) n pg.
Proof.
  intros [I L] Hv Hl. split; [|done]. apply tables_vms; [done|..].
  - intros ix. rewrite (lsum_insert _ _ _ _ _ Hv). unfold att, vm_sum at 2 3. simpl.
    rewrite (lsum_zero (hits ix) l); [lia|]. intros j e H. unfold hits. by rewrite (Hl j e H).
  - rewrite (lsum_insert _ _ _ _ _ Hv). assert (T := i_total _ _ _ I). unfold total in T. unfold vm_sum at 2 3. simpl.
    assert (0 <= lsum live l); [|lia]. apply lsum_nonneg. intros x. unfold live. destruct (_ =? _); lia.
  - intros vm1 i e (l1 & E1 & El)%entry_lookup Ne. simpl in E1. destruct (decide (vm1 = vm)) as [->|N].
    + rewrite list_lookup_insert_eq in E1 by (by eapply lookup_lt_Some). done.
    + rewrite list_lookup_insert_ne in E1 by congruence. exists vm1, i, e. split; [|done]. apply entry_lookup. by exists l1.
Qed.

Lemma vms_set_entry st vm i e l : vms st !! vm = Some (Some l) -> vms (set_entry st vm i e) !! vm = Some (Some (<[i := e]> l)).
Proof. intros H. simpl. by rewrite list_lookup_alter_eq, H. Qed.

Lemma exit_loop_safe vm m : forall i st l, shm_inv st n pg -> vms st !! vm = Some (Some l) -> (length l - i = m)%nat ->
  (forall j e, (j < i)%nat -> l !! j = Some e -> shmid e = -1) -> safe p n pg (exit_loop st vm i (drop i l)).
Proof.
  induction m as [|m IH]; intros i st l I Hv Hm Hl.
  - rewrite drop_ge by lia. simpl. apply safe_ret. apply (exit_done st vm l); auto.
    intros j e H. apply (Hl j e); [|done]. apply lookup_lt_Some in H. lia.
  - destruct (lookup_lt_is_Some_2 l i) as [e He]; [lia|]. rewrite (drop_S _ _ _ He). simpl.
    destruct (Z.eqb_spec (shmid e) (-1)) as [Ne|Ne].
    + apply IH; auto; [lia|]. intros j e' Hj H. destruct (decide (j = i)) as [->|]; [congruence|]. apply (Hl j e'); [lia|done].
    + assert (Hx : entry st vm i = Some e) by (apply entry_lookup; by exists l).
      destruct (delete_start_ok st vm i e I Hx Ne) as (d & Hd & _ & ->). stop. unfold exit_next.
      destruct (delete_finish_ok (slogs st (UvmDeallocate vm (va e) (round_page_int (shm_segsz d)))) vm i e d)
        as (st' & -> & I' & V); auto; [by apply inv_log|].
      assert (V2 : vms st' !! vm = Some (Some (<[i := Att (va e) (-1)]> l))) by (rewrite V; by apply (vms_set_entry (slogs st _))).
      rewrite V2. simpl. apply IH; auto.
      * rewrite length_insert. lia.
      * intros j e' Hj H. destruct (decide (j = i)) as [->|].
        { rewrite list_lookup_insert_eq in H by (by eapply lookup_lt_Some). by injection H as <-. }
        rewrite list_lookup_insert_ne in H by congruence. apply (Hl j e'); [lia|done].
Qed.

Lemma exit_safe st vm : shm_inv st n pg -> safe p n pg (shmexit st vm).
Proof.
  intros I. unfold shmexit. destruct (vms st !! vm) as [[l|]|] eqn:E; simpl; try (by apply safe_ret).
  change l with (drop 0 l) at 1. apply (exit_loop_safe vm (length l)); auto; lia.
Qed.

(** ** shmat *)

Lemma shmid_of_int id q ix : INT_MIN <= id <= INT_MAX -> seq q = IPCID_TO_SEQ id -> 0 <= seq q < 32768 -> ix = Z.to_nat (IPCID_TO_IX id) ->
  id = IXSEQ_TO_IPCID (Z.of_nat ix) q.
Proof.
  unfold INT_MIN, INT_MAX, IXSEQ_TO_IPCID, IPCID_TO_SEQ, IPCID_TO_IX. intros Hi -> Hs ->. change 65535 with (Z.ones 16) in *.
  rewrite !Z.land_ones, !Z.shiftr_div_pow2 in * by lia. change (2 ^ 16) with 65536 in *.
  rewrite Z2Nat.id by (apply Z.mod_pos_bound; lia). rewrite Zmod_mod.
  assert (Q : (id / 65536) `mod` 65536 = id / 65536).
  { assert (B : -32768 <= id / 65536 < 32768) by (split; [apply Z.div_le_lower_bound|apply Z.div_lt_upper_bound]; lia).
    destruct (Z.le_gt_cases 0 (id / 65536)); [apply Z.mod_small; lia|].
    rewrite <- (Z_mod_plus _ 1), Z.mod_small in Hs by lia. lia. }
  rewrite Q, Z.shiftl_mul_pow2 by lia. change (2 ^ 16) with 65536. symmetry.
  rewrite <- Z.add_nocarry_lor; [assert (D := Z_div_mod_eq_full id 65536); lia|].
  apply Z.bits_inj'. intros k Hk. rewrite Z.land_spec, Z.bits_0. destruct (Z.lt_ge_cases k 16).
  - change 65536 with (2 ^ 16). by rewrite Z.mul_pow2_bits_low by lia.
  - change (id `mod` 65536) with (id `mod` 2 ^ 16). rewrite (Z.mod_pow2_bits_high id 16 k) by lia. apply andb_false_r.
Qed.

(** The tables after an attach. *)
Definition attached (st : shm_state) (vm i ix : nat) (d : shmid_ds) (id v size prot : Z) : shm_state :=
  let st := slogs (slogs st (UaoReference (shm_object d))) (UvmMap vm v size (shm_object d) prot) in
  set_slot (set_entry st vm i (Att v id)) ix
    (Some (Ds (shm_addr d) (shm_perm d) (shm_segsz d) (ps_pid p) (shm_cpid d) (shm_nattch d + 1)
       (time_second st) (shm_dtime d) (shm_ctime d) (shm_object d))).

Lemma attached_inv st vm i ix d id v size prot e0 : shm_inv st n pg -> entry st vm i = Some e0 -> shmid e0 = -1 -> in_slot st ix d ->
  id = IXSEQ_TO_IPCID (Z.of_nat ix) (shm_perm d) -> id <> -1 -> total st < 32767 -> shm_inv (attached st vm i ix d id v size prot) n pg.
Proof.
  intros [I L] He Ne Hd Hid Nid Ht. destruct (i_seg _ _ _ I ix d Hd) as [Gq Gz Ga Gk].
  assert (S : slot_of (Att v id) = ix).
  { assert (Lx := lookup_lt_Some _ _ _ Hd). assert (Hl := i_len _ _ _ I). assert (Hm := i_mni _ _ _ I).
    unfold slot_of. simpl. rewrite Hid. destruct (ipcid_roundtrip (Z.of_nat ix) (shm_perm d)) as [-> _]; [lia|apply Gq|]. lia. }
  assert (H0 : forall j, hits j e0 = 0) by (intros j; unfold hits; by rewrite Ne).
  assert (Av : forall j, att (attached st vm i ix d id v size prot) j = att st j + hits j (Att v id)).
  { intros j. transitivity (att (set_entry st vm i (Att v id)) j); [done|]. rewrite (att_set_entry _ _ _ _ _ _ He), H0. lia. }
  split.
  - apply (tables_touch st); [done|done|..].
    + eapply sims_insert; [apply sims_refl|exact Hd|]. by repeat split; auto.
    + intros j d' H. rewrite Av. apply in_slot_insert in H as [[N H]|[-> [= <-]]].
      * rewrite (hits_other j) by congruence. destruct (i_seg _ _ _ I j d' H). split; [lia|done].
      * rewrite <- S, hits_self by done. rewrite S. simpl. split; [lia|exact Gk].
    + intros vm1 i1 e1 H1 N1. destruct (entry_set st vm i e0 (Att v id) vm1 i1 e1 He H1) as [->|H]; [by exists ix, d|].
      exact (i_att _ _ _ I vm1 i1 e1 H N1).
    + unfold total. change (vms (attached st vm i ix d id v size prot)) with (vms (set_entry st vm i (Att v id))). rewrite (sum_entry _ _ _ _ _ _ He).
      unfold total in Ht. assert (0 <= live e0) by (unfold live; destruct (_ =? _); lia).
      assert (live (Att v id) <= 1) by (unfold live; destruct (_ =? _); lia). lia.
    + intros u. unfold balance. simpl. rewrite !lsum_app. simpl. destruct (Nat.eqb _ u); lia.
  - intros j d' H R. apply in_slot_insert in H as [[N H]|[-> [= <-]]]; [by apply (L j d')|]. simpl.
    assert (0 < shm_nattch d); [|lia]. by apply (L ix d).
Qed.

Lemma at_find_safe st l id addr flg : shm_inv st n pg -> vms st !! p_vmspace p = Some (Some l) -> total st < 32767 ->
  INT_MIN <= id <= INT_MAX -> safe p n pg (at_find st p l id addr flg).
Proof.
  intros I Hv Ht Hi. unfold at_find. destruct (shm_find_segment_by_shmid st id) as [[ix d]|] eqn:F; [|by apply safe_ret].
  destruct (find_shmid st n pg id ix d (proj1 I) F) as (Hd & Ei & Es). destruct (negb _); [by apply safe_ret|].
  destruct (list_find unattached l) as [[i e0]|] eqn:Fl; [|by apply safe_ret]. destruct (attach_va addr flg); [|by apply safe_ret].
  apply list_find_Some in Fl as (Fl & Ne & _). destruct (i_seg _ _ _ (proj1 I) ix d Hd) as [Gq Gz Ga Gk].
  assert (Eid : id = IXSEQ_TO_IPCID (Z.of_nat ix) (shm_perm d)) by (apply shmid_of_int; auto; apply Gq).
  assert (He : entry st (p_vmspace p) i = Some e0) by (apply entry_lookup; by exists l).
  assert (Nid : id <> -1) by (intros ->; rewrite Es in Gq; destruct Gq as [_ Gq]; vm_compute in Gq; destruct Gq; discriminate).
  stop.
  - apply safe_ret. destruct I as [I L]. split; [|done]. apply (tables_touch st); [done|done|apply sims_refl|..]; try done.
    + intros j d' H. by destruct (i_seg _ _ _ I j d' H).
    + apply (i_att _ _ _ I).
    + apply (i_total _ _ _ I).
    + intros u. unfold balance. simpl. rewrite !lsum_app. simpl. destruct (Nat.eqb _ u); lia.
  - unfold at_mapped. rewrite (deref_found (slogs st (UaoReference (shm_object d))) ix d Hd).
    assert (T1 := att_total st ix). assert (T0 := att_nonneg st ix).
    rewrite sint_id by (change (2 ^ (16 - 1)) with 32768; lia). apply safe_ret. by eapply attached_inv.
Qed.

(** An empty [vm_shm] in place of none. *)
Definition with_head (st : shm_state) (vm : nat) : shm_state :=
  set_vms st (<[vm := Some (replicate (Z.to_nat (shmseg (sinfo st))) (Att 0 (-1)))]> (vms st)).

Lemma with_head_sum st vm f : vms st !! vm = Some None -> f (Att 0 (-1)) = 0 ->
  lsum (vm_sum f) (vms (with_head st vm)) = lsum (vm_sum f) (vms st).
Proof.
  intros Ho Hf. simpl. rewrite (lsum_insert _ _ _ _ _ Ho). unfold vm_sum at 2 3. simpl.
  rewrite (lsum_zero f (replicate _ _)); [lia|]. by intros j e [-> _]%lookup_replicate.
Qed.

Lemma with_head_inv st vm : shm_inv st n pg -> vms st !! vm = Some None -> shm_inv (with_head st vm) n pg.
Proof.
  intros [I L] Ho. split; [|done]. apply tables_vms; [done|..].
  - intros ix. by apply with_head_sum.
  - assert (T := with_head_sum st vm live Ho eq_refl). simpl in T. rewrite T. apply I.
  - intros vm1 i e (l1 & E1 & El)%entry_lookup Ne. simpl in E1. destruct (decide (vm1 = vm)) as [->|N].
    + rewrite list_lookup_insert_eq in E1 by (by eapply lookup_lt_Some). injection E1 as <-. apply lookup_replicate in El as [-> _]. done.
    + rewrite list_lookup_insert_ne in E1 by congruence. exists vm1, i, e. split; [|done]. apply entry_lookup. by exists l1.
Qed.

Lemma at_safe st id addr flg : shm_inv st n pg -> is_Some (vms st !! p_vmspace p) -> total st < 32767 ->
  INT_MIN <= id <= INT_MAX -> safe p n pg (sys_shmat st p id addr flg).
Proof.
  intros I [o Ho] Ht Hi. unfold sys_shmat. rewrite Ho. destruct o as [l|]; simpl; [by apply at_find_safe|].
  stop. unfold at_malloc. fold (with_head st (p_vmspace p)). apply at_find_safe; auto.
  - by apply with_head_inv.
  - simpl. apply list_lookup_insert_eq. by eapply lookup_lt_Some.
  - unfold total. by rewrite with_head_sum.
Qed.
End calls.
