(* ===== verification/ShmSys.v ===== *)
(** * System V shared memory: all calls together

    shmctl, fork and sysctl, and the system: any number of threads that make
    calls and wait in [pool_get].  The theorems. *)

From stdpp Require Import base numbers list option.
From Stdlib Require Import ZArith Lia Bool.
From S2P Require Import Prelude Sem SemSys Clock ClockFacts Shm ShmInv ShmCalls.
Local Open Scope Z_scope.

Section more_calls.
Context (p : proc) (n pg : Z) (Hn : 0 <= n) (Hpg : 0 <= pg).

Local Ltac stop := apply safe_go; [done|]; let S := fresh in intros [] ? _ S; simpl in S; simplify_eq.

(** ** shmctl *)

(** One segment is altered, with the same attachments. *)
Lemma tables_alter st ix d d' : shm_tables st n pg -> in_slot st ix d -> similar d d' -> shm_nattch d' = shm_nattch d ->
  (removed d' = true -> key (shm_perm d') = IPC_PRIVATE) -> shm_tables (set_slot st ix (Some d')) n pg.
Proof.
  intros I Hd S E R. apply (tables_touch st); [done|done|..].
  - eapply sims_insert; [apply sims_refl|exact Hd|done].
  - intros j d1 H. change (att (set_slot st ix (Some d')) j) with (att st j).
    apply in_slot_insert in H as [[N H]|[-> [= <-]]]; [by destruct (i_seg _ _ _ I j d1 H)|]. rewrite E. by destruct (i_seg _ _ _ I ix d Hd).
  - apply (i_att _ _ _ I).
  - apply (i_total _ _ _ I).
  - done.
Qed.

Lemma set_keeps_removed m im : has (Z.lor (Z.land m (Z.lnot ACCESSPERMS)) (Z.land im ACCESSPERMS)) SHMSEG_REMOVED = has m SHMSEG_REMOVED.
Proof.
  unfold SHMSEG_REMOVED. rewrite !has_pow2 by lia. rewrite Z.lor_spec, !Z.land_spec, Z.lnot_spec by lia.
  change (Z.testbit ACCESSPERMS 9) with false. by rewrite andb_false_r, andb_true_r, orb_false_r.
Qed.

(** The descriptor of a segment that is removed. *)
Definition rmid_ds (d : shmid_ds) : shmid_ds :=
  with_perm d (mkPerm (cuid (shm_perm d)) (cgid (shm_perm d)) (uid (shm_perm d)) (gid (shm_perm d))
    (Z.lor (mode (shm_perm d)) SHMSEG_REMOVED) (seq (shm_perm d)) IPC_PRIVATE) (shm_ctime d).

Lemma rmid_tables st ix d : shm_tables st n pg -> in_slot st ix d -> shm_tables (set_slot st ix (Some (rmid_ds d))) n pg.
Proof. intros I Hd. apply (tables_alter st ix d); auto. by repeat split; auto. Qed.

Lemma in_slot_set st ix d d' : in_slot st ix d -> in_slot (set_slot st ix (Some d')) ix d'.
Proof. intros H. unfold in_slot. simpl. apply list_lookup_insert_eq. by eapply lookup_lt_Some. Qed.

Lemma rmid_inv st ix d : shm_inv st n pg -> in_slot st ix d ->
  shm_inv (if shm_nattch d <=? 0 then drop_segment (set_slot st ix (Some (rmid_ds d))) ix (rmid_ds d)
           else set_slot st ix (Some (rmid_ds d))) n pg.
Proof.
  intros [I L] Hd. assert (I2 := rmid_tables st ix d I Hd). assert (H2 := in_slot_set st ix d (rmid_ds d) Hd).
  destruct (Z.leb_spec (shm_nattch d) 0) as [Z0|Z0]; split.
  - apply tables_drop; auto. destruct (i_seg _ _ _ I ix d Hd). assert (X := att_nonneg st ix).
    change (att (set_slot st ix (Some (rmid_ds d))) ix) with (att st ix). lia.
  - apply lingering_drop. intros j d' N H. apply in_slot_insert in H as [[_ H]|[-> _]]; [by apply (L j d')|done].
  - done.
  - intros j d' H R. apply in_slot_insert in H as [[_ H]|[-> [= <-]]]; [by apply (L j d')|done].
Qed.

Lemma ctl_safe st id cmd : shm_inv st n pg -> safe p n pg (shmctl1 st p id cmd).
Proof.
  intros I. unfold shmctl1. destruct (shm_find_segment_by_shmid st id) as [[ix d]|] eqn:F; [|by apply safe_ret].
  destruct (find_shmid st n pg id ix d (proj1 I) F) as (Hd & _ & _).
  destruct (cmd =? IPC_STAT). { destruct (negb _); [by apply safe_ret|]. stop; [|by apply safe_ret].
    rewrite (deref_found _ _ _ Hd). by apply safe_ret. }
  destruct (cmd =? IPC_SET). { destruct (negb _); [by apply safe_ret|]. stop; [by apply safe_ret|].
    unfold ctl_set. rewrite (deref_found _ _ _ Hd). apply safe_ret. destruct I as [I L]. split.
    - apply (tables_alter st ix d); auto; [by repeat split; auto|]. unfold removed. simpl. rewrite set_keeps_removed.
      by destruct (i_seg _ _ _ I ix d Hd).
    - intros j d' H R. apply in_slot_insert in H as [[_ H]|[-> [= <-]]]; [by apply (L j d')|]. simpl. apply (L ix d Hd).
      unfold removed in *. simpl in R. by rewrite set_keeps_removed in R. }
  destruct (cmd =? IPC_RMID); [|by apply safe_ret]. destruct (negb _); [by apply safe_ret|]. apply safe_ret. exact (rmid_inv st ix d I Hd).
Qed.

(** ** fork *)

Definition bump (k : Z) (o : option shmid_ds) : option shmid_ds :=
  match o with Some d => Some (with_nattch d (shm_nattch d + k)) | None => None end.

Lemma bump_0 o : bump 0 o = o.
Proof. destruct o as [[]|]; simpl; [|done]. unfold with_nattch. simpl. by rewrite Z.add_0_r. Qed.
Lemma bump_add j k o : bump j (bump k o) = bump (k + j) o.
Proof. destruct o; simpl; [|done]. unfold with_nattch. simpl. by rewrite Z.add_assoc. Qed.

Lemma fork_loop_ok l : forall segs, (forall i e, l !! i = Some e -> shmid e <> -1 -> exists d, segs !! slot_of e = Some (Some d)) ->
  (forall ix d, segs !! ix = Some (Some d) -> 0 <= shm_nattch d /\ shm_nattch d + lsum live l <= 32767) ->
  exists segs', fork_loop segs l = Some segs' /\ forall ix, segs' !! ix = bump (lsum (hits ix) l) <$> segs !! ix.
Proof.
  induction l as [|e l IH]; intros segs Hs Hb; simpl.
  - exists segs. split; [done|]. intros ix. destruct (segs !! ix) as [o|]; simpl; [by rewrite bump_0|done].
  - assert (Lv : 0 <= lsum live l) by (apply lsum_nonneg; intros x; unfold live; destruct (_ =? _); lia).
    destruct (Z.eqb_spec (shmid e) (-1)) as [Ne|Ne].
    + destruct (IH segs) as (segs' & -> & Hx).
      * intros i e' H N. by apply (Hs (S i) e').
      * intros ix d H. destruct (Hb ix d H) as [? B]. simpl in B. unfold live in B at 1. rewrite Ne in B. simpl in B. lia.
      * exists segs'. split; [done|]. intros ix. rewrite Hx. unfold hits at 2. by rewrite Ne.
    + destruct (Hs 0%nat e eq_refl Ne) as [d Hd]. fold (slot_of e). rewrite Hd. destruct (Hb _ d Hd) as [B0 B]. simpl in B.
      assert (L1 : live e = 1) by (unfold live; by rewrite (proj2 (Z.eqb_neq _ _) Ne)). rewrite L1 in B.
      rewrite sint_id by (change (2 ^ (16 - 1)) with 32768; lia).
      destruct (IH (<[slot_of e := Some (with_nattch d (shm_nattch d + 1))]> segs)) as (segs' & -> & Hx).
      * intros i e' H N. destruct (Hs (S i) e' H N) as [d' Hd']. destruct (decide (slot_of e' = slot_of e)) as [->|Nx].
        -- eexists. apply list_lookup_insert_eq. by eapply lookup_lt_Some.
        -- exists d'. by rewrite list_lookup_insert_ne by congruence.
      * intros ix d' H. destruct (decide (ix = slot_of e)) as [->|Nx].
        -- rewrite list_lookup_insert_eq in H by (by eapply lookup_lt_Some). injection H as <-. simpl. lia.
        -- rewrite list_lookup_insert_ne in H by congruence. destruct (Hb ix d' H) as [? B2]. simpl in B2. lia.
      * exists segs'. split; [done|]. intros ix. rewrite Hx. destruct (decide (ix = slot_of e)) as [->|Nx].
        -- rewrite list_lookup_insert_eq by (by eapply lookup_lt_Some). rewrite Hd, hits_self by done. simpl. unfold with_nattch. simpl.
           by rewrite Z.add_assoc.
        -- rewrite list_lookup_insert_ne, (hits_other ix e) by congruence. done.
Qed.

Lemma sum_none f v : lsum (vm_sum f) (v ++ [None]) = lsum (vm_sum f) v.
Proof. rewrite lsum_app. change (lsum (vm_sum f) [None]) with 0. lia. Qed.

Lemma fork_safe st vm1 : shm_inv st n pg -> total st + vm_sum live (mjoin (vms st !! vm1)) <= 32767 -> safe p n pg (shmfork st vm1).
Proof.
  intros [I L] Ht. unfold shmfork.
  assert (Old : forall v vm i e, entry (set_vms st (vms st ++ [v])) vm i = Some e -> (exists vm0, entry st vm0 i = Some e) \/ v ≫= (fun l => l !! i) = Some e).
  { intros v vm i e (l & E & El)%entry_lookup. simpl in E. apply lookup_app_Some in E as [E|[_ E]].
    - left. exists vm. apply entry_lookup. by exists l.
    - right. destruct (vm - length (vms st))%nat as [|k]; simpl in E; [by injection E as ->|by destruct k]. }
  destruct (vms st !! vm1) as [[l|]|] eqn:E; simpl in *.
  2,3: apply safe_ret; split; [|done]; apply tables_vms; [done|intros ix; apply sum_none|rewrite sum_none; apply I|];
    intros vm i e H Ne; destruct (Old None vm i e H) as [[vm0 H0]|?]; [by exists vm0, i, e|done].
  stop. unfold fork_copy. rewrite E. simpl.
  assert (El : forall i e, l !! i = Some e -> entry st vm1 i = Some e) by (intros i e H; apply entry_lookup; by exists l).
  destruct (fork_loop_ok l (shmsegs st)) as (segs' & -> & Hx).
  { intros i e H Ne. destruct (delete_start_ok n pg st vm1 i e (conj I L) (El i e H) Ne) as (d & Hd & _). by exists d. }
  { intros ix d Hd. destruct (i_seg _ _ _ I ix d Hd). assert (X := att_total st ix). assert (Y := att_nonneg st ix). unfold vm_sum in Ht. simpl in Ht. lia. }
  assert (Hp : forall ix, 0 <= lsum (hits ix) l) by (intros ix; apply lsum_nonneg, hits_nonneg).
  assert (Bk : forall ix d', segs' !! ix = Some (Some d') -> exists d, in_slot st ix d /\ d' = with_nattch d (shm_nattch d + lsum (hits ix) l)).
  { intros ix d' H. rewrite Hx in H. destruct (shmsegs st !! ix) as [[d|]|] eqn:Ed; simpl in H; simplify_eq. by exists d. }
  apply safe_ret. split.
  - apply (tables_touch st); [done|done|..].
    + apply Forall2_lookup. intros ix. simpl. rewrite Hx. destruct (shmsegs st !! ix) as [[d|]|]; simpl; constructor; [|done].
      by repeat split; auto.
    + intros ix d' H. destruct (Bk ix d' H) as (d & Hd & ->). destruct (i_seg _ _ _ I ix d Hd). simpl. split; [|exact g_key].
      unfold att. simpl. rewrite lsum_app. simpl. unfold att in g_att. unfold vm_sum at 2. simpl. lia.
    + intros vm i e H Ne. change (entry (set_vms st (vms st ++ [Some l])) vm i = Some e) in H.
      destruct (Old (Some l) vm i e H) as [[vm0 H0]|H0]; [exact (i_att _ _ _ I vm0 i e H0 Ne)|]. exact (i_att _ _ _ I vm1 i e (El i e H0) Ne).
    + unfold total. simpl. rewrite lsum_app. simpl. unfold total in Ht. lia.
    + done.
  - intros ix d' H R. destruct (Bk ix d' H) as (d & Hd & ->). simpl. specialize (Hp ix). assert (X := L ix d Hd R). lia.
Qed.

(** ** sysctl *)

Lemma tables_info st mx mn sg al : shm_tables st n pg -> 0 <= mx <= MAXSEG -> shmall (sinfo st) <= al <= INT_MAX ->
  shm_tables (set_info st (Info mx mn (shmmni (sinfo st)) sg al)) n pg.
Proof.
  intros I ? ?. destruct I. constructor; simpl; auto; [lia|lia|]. intros ix d Hd. destruct (i_seg ix d Hd). by constructor.
Qed.

(** Both tables are longer. *)
Definition grown (st : shm_state) (val : Z) : shm_state :=
  let k := Z.to_nat (val - shmmni (sinfo st)) in let i := sinfo st in
  set_info (set_seqs (set_segs st (shmsegs st ++ replicate k None)) (shmseqs st ++ replicate k 0))
    (Info (shmmax i) (shmmin i) val (shmseg i) (shmall i)).

Lemma in_slot_grown st val ix d : in_slot (grown st val) ix d <-> in_slot st ix d.
Proof.
  unfold in_slot. simpl. split; [|intros H; by apply lookup_app_l_Some].
  intros [H|[_ H]]%lookup_app_Some; [done|]. by apply lookup_replicate in H as [? _].
Qed.

Lemma grown_sum (f : option shmid_ds -> Z) l k : f None = 0 -> lsum f (l ++ replicate k None) = lsum f l.
Proof. intros H. rewrite lsum_app, (lsum_zero f (replicate k None)); [lia|]. by intros i x [-> _]%lookup_replicate. Qed.

Lemma grown_tables st val : shm_tables st n pg -> shmmni (sinfo st) <= val <= 65535 -> shm_tables (grown st val) n pg.
Proof.
  intros I Hv. destruct I. constructor; simpl; auto.
  - lia.
  - rewrite length_app, length_replicate. lia.
  - rewrite length_app, length_replicate. destruct i_seqs as [? F]. split; [lia|]. apply Forall_app. split; [done|]. apply Forall_replicate. lia.
  - destruct i_last as [?|[? H]]; [by left|right]. split; [done|]. by apply lookup_app_l_Some.
  - rewrite grown_sum by done. lia.
  - rewrite grown_sum by done. lia.
  - intros ix d Hd%in_slot_grown. destruct (i_seg ix d Hd). constructor; auto. destruct g_seq. split; [|done]. by apply lookup_app_l_Some.
  - intros vm i e H Ne. destruct (i_att vm i e H Ne) as (ix & d & Hd & E). exists ix, d. split; [|done]. by apply in_slot_grown.
  - intros i j d1 d2 H1%in_slot_grown H2%in_slot_grown. by apply i_addr.
  - intros i j d1 d2 H1%in_slot_grown H2%in_slot_grown. by apply i_key.
  - intros u. rewrite grown_sum by done. apply i_obj.
Qed.

Lemma regrow_ok {A} (z : A) val m l : Z.of_nat (length l) = m -> m <= val -> regrow z val m l = Some (l ++ replicate (Z.to_nat (val - m)) z).
Proof.
  intros <- H. unfold regrow. rewrite (proj2 (Z.ltb_ge _ _)) by lia. rewrite Z.ltb_irrefl. simpl. by rewrite take_ge by lia.
Qed.

(** New values are [int]s, and [shmmax] is positive and leaves a segment
    room to be rounded up. *)
Definition sysctl_guard (name : Z) (io : sysctl_io) : Prop :=
  match newp io with
  | Some (_, inr v) => INT_MIN <= v <= INT_MAX /\ (name = KERN_SHMINFO_SHMMAX -> 0 <= v <= MAXSEG)
  | _ => True
  end.

Lemma sysctl_value io cur e v : sysctl_int io cur = (e, v) -> v = cur \/ exists len, newp io = Some (len, inr v).
Proof.
  unfold sysctl_int. destruct (newp io) as [[len [?|w]]|]; repeat case_match; intros [= <- <-]; eauto.
Qed.

Lemma sysctl_safe st name namelen io : shm_inv st n pg -> sysctl_guard name io -> safe p n pg (sysctl_sysvshm st name namelen io).
Proof.
  intros [I L] G. unfold sysctl_guard in G. unfold sysctl_sysvshm. destruct (_ && _); [by apply safe_ret|].
  assert (Im := i_max _ _ _ I). assert (Ia := i_all _ _ _ I).
  destruct (Z.eqb_spec name KERN_SHMINFO_SHMMAX) as [->|_].
  { destruct (sysctl_int io _) as [e v] eqn:E. assert (Hv : 0 <= v <= MAXSEG).
    { destruct (sysctl_value _ _ _ _ E) as [->|[len Hl]]; [done|]. rewrite Hl in G. by apply G. }
    destruct (_ || _); apply safe_ret; [split; [|done]; apply tables_info; auto; lia|].
    destruct (Z.ltb_spec (shmall (sinfo st)) (Z.shiftr (Z.land (sint 32 (v + PAGE_MASK)) (Z.lnot PAGE_MASK)) PAGE_SHIFT)) as [B|B];
      (split; [|done]); [|apply tables_info; auto; lia].
    assert (R := seg_pages_range v Hv). rewrite round_page_int_eq in R by done. unfold MAXSEG in Hv.
    rewrite sint_id in * by (unfold INT_MAX, PAGE_MASK in *; change (2 ^ (32 - 1)) with 2147483648; lia).
    apply (tables_info st v (shmmin (sinfo st)) (shmseg (sinfo st)) _ I Hv). unfold atop, INT_MAX in *. lia. }
  destruct (name =? KERN_SHMINFO_SHMMIN).
  { destruct (sysctl_int io _) as [e v]. destruct (_ || _); [by apply safe_ret|]. destruct (_ <=? _); [by apply safe_ret|].
    apply safe_ret. split; [|done]. apply tables_info; auto; lia. }
  destruct (name =? KERN_SHMINFO_SHMMNI).
  { destruct (sysctl_int io _) as [e v]. destruct (_ || _); [by apply safe_ret|]. destruct (_ || _) eqn:B; [by apply safe_ret|].
    rewrite orb_false_iff, !Z.ltb_ge in B. stop. unfold sys_segs. rewrite (regrow_ok None) by (try apply I; lia). stop.
    unfold sys_seqs. simpl. rewrite (regrow_ok 0) by (try apply (proj1 (i_seqs _ _ _ I)); lia). apply safe_ret. split.
    - apply (grown_tables st v); [done|lia].
    - intros ix d Hd. apply (L ix d). by apply (in_slot_grown st v). }
  destruct (name =? KERN_SHMINFO_SHMSEG).
  { destruct (sysctl_int io _) as [e v]. destruct (_ || _); [by apply safe_ret|]. destruct (_ <=? _); [by apply safe_ret|].
    apply safe_ret. split; [|done]. apply tables_info; auto; lia. }
  destruct (name =? KERN_SHMINFO_SHMALL); [|by apply safe_ret].
  destruct (sysctl_int io _) as [e v] eqn:E. destruct (_ || _); [by apply safe_ret|]. destruct (Z.ltb_spec v (shmall (sinfo st))); [by apply safe_ret|].
  apply safe_ret. split; [|done]. apply tables_info; auto. destruct (sysctl_value _ _ _ _ E) as [->|[len Hl]]; [lia|]. rewrite Hl in G. lia.
Qed.

(** ** Any call *)

(** What the model asks of a call: its arguments have their C types, the
    address space exists, there are less than 32768 attachments in all, so
    that [shm_nattch], a short, does not wrap, and sysctl sets no limit beyond
    what [round_page] of an [int] can round.  The code has neither bound;
    [shm_defects] (6) and (7) show what happens beyond them. *)
Definition sguard (st : shm_state) (c : scall) : Prop :=
  match c with
  | CGet _ size _ => 0 <= size
  | CAt id _ _ => is_Some (vms st !! p_vmspace p) /\ total st < 32767 /\ INT_MIN <= id <= INT_MAX
  | CFork => total st + vm_sum live (mjoin (vms st !! p_vmspace p)) <= 32767
  | CSysctl name _ io => sysctl_guard name io
  | _ => True
  end.

Lemma call_safe st c : shm_inv st n pg -> sguard st c -> safe p n pg (call st p c).
Proof.
  intros I G. destruct c; simpl in *.
  - by apply get_safe.
  - apply at_safe; tauto.
  - by apply dt_safe.
  - by apply ctl_safe.
  - by apply fork_safe.
  - by apply exit_safe.
  - by apply sysctl_safe.
Qed.
End more_calls.

(** ** The system *)

(** Threads: outside, or at a stop. *)
Record ssys := Ssys { sst : shm_state; sthr : list (option (proc * spc)) }.

(** What a thread at a stop has set aside. *)
Definition aside_n (th : option (proc * spc)) : Z := match th with Some (_, GetPool _ _ _ _) => 1 | _ => 0 end.
Definition aside_pg (th : option (proc * spc)) : Z :=
  match th with Some (_, GetPool _ size _ _) => atop (round_page size) | _ => 0 end.

Definition after (s : ssys) (t : nat) (p : proc) (r : sres) : option ssys :=
  match r with
  | Ret st _ _ => Some (Ssys st (<[t := None]> (sthr s)))
  | Wait st pc => Some (Ssys st (<[t := Some (p, pc)]> (sthr s)))
  | Bad => None
  end.

(** Thread [t] makes a call, or goes on after its wait, up to where the call
    ends or waits. *)
Inductive sstep (s : ssys) (t : nat) (p : proc) : sres -> Prop :=
  | sstep_call c r : sthr s !! t = Some None -> sguard p (sst s) c -> calm p (call (sst s) p c) r -> sstep s t p r
  | sstep_go pc ans r0 r : sthr s !! t = Some (Some (p, pc)) -> answer_ok (sst s) ans -> section (sst s) p pc ans = Some r0 ->
      calm p r0 r -> sstep s t p r.

Definition set_time (st : shm_state) (now : Z) : shm_state :=
  St (sinfo st) (shmsegs st) (shmseqs st) (shm_last_free st) (shm_nused st) (shm_committed st) (vms st) now (slog st).

(** After [shminit], with address spaces that have nothing attached. *)
Definition sinit (s : ssys) : Prop :=
  exists i now k m, 0 < shmmni i <= 65535 /\ 0 <= shmmax i * PAGE_SIZE <= MAXSEG /\ 0 <= shmall i <= INT_MAX
    /\ s = Ssys (set_vms (shminit i now) (replicate k None)) (replicate m None).

Inductive sreach : ssys -> Prop :=
  | sreach_init s : sinit s -> sreach s
  | sreach_step s t p r s' : sreach s -> sstep s t p r -> after s t p r = Some s' -> sreach s'
  | sreach_tick s now : sreach s -> sreach (Ssys (set_time (sst s) now) (sthr s)).

Definition thread_ok (th : option (proc * spc)) : Prop :=
  match th with None => True | Some (_, GetPool k size _ rc) => waiter k size rc | _ => False end.

Record sys_inv (s : ssys) : Prop := {
  v_state : shm_inv (sst s) (lsum aside_n (sthr s)) (lsum aside_pg (sthr s));
  v_thr : Forall thread_ok (sthr s) }.

Lemma aside_n_nonneg th : 0 <= aside_n th.
Proof. destruct th as [[? []]|]; simpl; lia. Qed.
Lemma aside_pg_nonneg th : 0 <= aside_pg th.
Proof.
  destruct th as [[? []]|]; simpl; try lia. unfold atop. apply Z.shiftr_nonneg. unfold round_page. apply Z.land_nonneg.
  left. apply ul_range.
Qed.

Lemma sstep_good s t p r : sys_inv s -> sstep s t p r -> exists o, sthr s !! t = Some o /\
  good (lsum aside_n (sthr s) - aside_n o) (lsum aside_pg (sthr s) - aside_pg o) r.
Proof.
  intros [I T] St. destruct St as [c r Ht G C|pc ans r0 r Ht A S C].
  - exists None. split; [done|]. simpl. rewrite !Z.sub_0_r. eapply call_safe; eauto; apply lsum_nonneg; [apply aside_n_nonneg|apply aside_pg_nonneg].
  - exists (Some (p, pc)). split; [done|]. assert (Tk := T). rewrite Forall_lookup in Tk. specialize (Tk t _ Ht).
    assert (N1 := lsum_le aside_n _ t _ aside_n_nonneg Ht). assert (N2 := lsum_le aside_pg _ t _ aside_pg_nonneg Ht).
    destruct pc; try done. destruct ans; try done. simpl in *. injection S as <-.
    eapply waited_safe; eauto; [lia|lia|].
    by replace (lsum aside_n (sthr s) - 1 + 1) with (lsum aside_n (sthr s)) by lia;
      replace (lsum aside_pg (sthr s) - atop (round_page size) + atop (round_page size)) with (lsum aside_pg (sthr s)) by lia.
Qed.

Lemma after_inv s t p r s' : sys_inv s -> sstep s t p r -> after s t p r = Some s' -> sys_inv s'.
Proof.
  intros V St A. destruct (sstep_good s t p r V St) as (o & Ho & G). destruct V as [I T].
  destruct r as [st e v|st pc|]; simpl in A; [| |done]; injection A as <-; constructor; simpl.
  - rewrite !(lsum_insert _ _ _ _ _ Ho). simpl in *. by rewrite !Z.add_0_r.
  - by apply Forall_insert.
  - rewrite !(lsum_insert _ _ _ _ _ Ho). destruct pc; try done. apply G.
  - apply Forall_insert; [done|]. destruct pc; try done. apply G.
Qed.

Lemma sinit_inv s : sinit s -> sys_inv s.
Proof.
  intros (i & now & k & m & Hm & Hx & Ha & ->).
  assert (Zt : forall A (f : A -> Z) x j, f x = 0 -> lsum f (replicate j x) = 0).
  { intros A f x j Hf. apply lsum_zero. by intros ? ? [-> _]%lookup_replicate. }
  assert (No : forall ix d, ~ in_slot (set_vms (shminit i now) (replicate k None)) ix d).
  { intros ix d H. unfold in_slot in H. simpl in H. by apply lookup_replicate in H as [? _]. }
  constructor; simpl; [|by apply Forall_replicate]. rewrite !Zt by done. split; [|intros ix d H; by apply No in H].
  assert (Sx : sint 32 (shmmax i * PAGE_SIZE) = shmmax i * PAGE_SIZE).
  { unfold MAXSEG, INT_MAX, PAGE_MASK in Hx. apply sint_id; [lia|]. change (2 ^ (32 - 1)) with 2147483648. lia. }
  constructor; simpl; rewrite ?Sx, ?length_replicate, ?Zt by done; try done; try lia.
  - split; [lia|]. apply Forall_replicate. lia.
  - right. split; [lia|]. apply lookup_replicate. split; [done|]. lia.
  - intros ix d H. by apply No in H.
  - intros vm j e (l & E & _)%entry_lookup. simpl in E. by apply lookup_replicate in E as [? _].
  - unfold total. simpl. by rewrite Zt.
  - intros a b d1 d2 H. by apply No in H.
  - intros a b d1 d2 H. by apply No in H.
  - intros u. unfold balance. simpl. rewrite Zt by done. lia.
Qed.

Lemma sreach_inv s : sreach s -> sys_inv s.
Proof.
  induction 1 as [s I|s t p r s' _ V St A|s now _ V].
  - by apply sinit_inv.
  - by eapply after_inv.
  - destruct V as [[I L] T]. constructor; [|done]. split; [|done]. destruct I. constructor; simpl; auto.
    intros ix d Hd. destruct (i_seg ix d Hd). by constructor.
Qed.

(** * The theorems

    Consistency of the tables over all interleavings, the life of a segment
    that is removed, and attaching as the inverse of detaching. *)

(** C24: In every state that shmget, shmat, shmdt, shmctl, fork, exit and
    sysctl of any number of threads reach, where others may run while a call
    waits in [pool_get]: the invariant holds ([shm_nattch] is the number of
    attachments, every attachment names a segment that exists, [shm_nused] and
    [shm_committed] count the segments and what waiting calls have set aside
    and stay within the limits, [shm_last_free] is a free slot, keys are
    unique, one reference is held to the memory of each segment and to nothing
    else, and a removed segment stays only while it is attached), and no call
    uses a freed item or panics.  Assumed: the other stops of a call (malloc,
    uao_create, uvm_map, copying) do not let others in; at boot and after
    sysctl shmmax is at most INT_MAX - PAGE_MASK bytes; and shmat and fork
    leave at most 32767 attachments in all.  The code has none of these
    bounds; [shm_defects] shows what happens without them. *)
Theorem shm_invariant s : sreach s -> sys_inv s /\ forall t p r, sstep s t p r -> r <> Bad.
Proof.
  intros R. assert (V := sreach_inv s R). split; [done|]. intros t p r St ->.
  by destruct (sstep_good s t p Bad V St) as (o & _ & G).
Qed.

Lemma calm_Ret p st e v r : calm p (Ret st e v) r -> r = Ret st e v.
Proof. by inversion 1. Qed.

Lemma calm_stop p st pc r : pinned pc = true -> calm p (Wait st pc) r ->
  exists ans r', answer_ok st ans /\ section st p pc ans = Some r' /\ calm p r' r.
Proof. intros P C. inversion C as [| |? ? P2|? ? ans r' ? P2 A S C2]; subst; [congruence|]. by exists ans, r'. Qed.

(** ** Removing *)

(** The slot [ix] of [d] is free again in [st'], with the pages and the
    reference to the memory, and [id] is nobody's identifier. *)
Definition segment_gone (st st' : shm_state) (id : Z) (ix : nat) (d : shmid_ds) : Prop :=
  shmsegs st' !! ix = Some None /\ shm_find_segment_by_shmid st' id = None
  /\ shm_nused st' = shm_nused st - 1
  /\ shm_committed st' = shm_committed st - atop (round_page_int (shm_segsz d))
  /\ balance st' (shm_object d) = 0.

(** It is there with [k] attachments, its size and its memory, but removed:
    no key leads to it. *)
Definition segment_lingers (st' : shm_state) (id : Z) (ix : nat) (d : shmid_ds) (k : Z) : Prop :=
  exists d', in_slot st' ix d' /\ shm_find_segment_by_shmid st' id = Some (ix, d')
    /\ removed d' = true /\ shm_nattch d' = k /\ shm_segsz d' = shm_segsz d /\ shm_object d' = shm_object d
    /\ balance st' (shm_object d) = 1
    /\ forall k, k <> IPC_PRIVATE -> shm_find_segment_by_key st' k <> Some ix.

Lemma drop_gone st n pg ix d id : shm_tables st n pg -> 0 <= n -> 0 <= pg -> in_slot st ix d -> att st ix = 0 ->
  Z.to_nat (IPCID_TO_IX id) = ix -> segment_gone st (drop_segment st ix d) id ix d.
Proof.
  intros I Hn Hp Hd A Ei. assert (Lx := lookup_lt_Some _ _ _ Hd). assert (I2 := tables_drop st n pg ix d I Hn Hp Hd A).
  set (st' := drop_segment st ix d) in *.
  assert (Hx : shmsegs st' !! ix = Some None) by (simpl; by apply list_lookup_insert_eq).
  split; [done|]. split. { unfold shm_find_segment_by_shmid, seg_at. rewrite Ei, Hx. by destruct (_ <? _). }
  split; [done|]. split.
  { destruct (i_comm _ _ _ I2) as [-> _]. destruct (i_comm _ _ _ I) as [-> _]. simpl. rewrite (lsum_insert _ _ _ _ _ Hd). simpl. lia. }
  destruct (i_obj _ _ _ I (shm_object d)) as [B1 B2]. unfold balance. simpl. rewrite lsum_app. simpl. rewrite Nat.eqb_refl.
  assert (Y := lsum_le (obj (shm_object d)) _ ix _ (obj_nonneg _) Hd). simpl in Y. rewrite Nat.eqb_refl in Y. unfold balance in *. lia.
Qed.

Lemma in_slot_lingers st n pg ix d d' id k : shm_inv st n pg -> in_slot st ix d' -> Z.to_nat (IPCID_TO_IX id) = ix ->
  seq (shm_perm d') = IPCID_TO_SEQ id -> removed d' = true -> shm_nattch d' = k -> shm_segsz d' = shm_segsz d ->
  shm_object d' = shm_object d -> segment_lingers st id ix d k.
Proof.
  intros [I L] Hd Ei Es R Ek Ez Eo. exists d'. split; [done|]. split.
  { unfold shm_find_segment_by_shmid. rewrite Ei, (proj2 (slot_found _ _ _ _ _ I) Hd). by rewrite Es, Z.eqb_refl. }
  do 4 (split; [done|]). split.
  { rewrite <- Eo. destruct (i_obj _ _ _ I (shm_object d')) as [B1 B2].
    assert (Y := lsum_le (obj (shm_object d')) _ ix _ (obj_nonneg _) Hd). simpl in Y. rewrite Nat.eqb_refl in Y. lia. }
  destruct (i_seg _ _ _ I ix d' Hd) as [_ _ _ Gk]. intros k' Nk H. unfold shm_find_segment_by_key in H.
  destruct (list_find _ _) as [[j o]|] eqn:E; [|done]. injection H as ->. apply list_find_Some in E as (E & K & _).
  apply lookup_take_Some in E as [E _]. unfold in_slot in Hd. rewrite Hd in E. injection E as <-. simpl in K. specialize (Gk R). congruence.
Qed.

(** ** Attaching and detaching *)

Lemma at_find_ret p n pg st l id addr flg st1 v : shm_inv st n pg -> vms st !! p_vmspace p = Some (Some l) -> total st < 32767 ->
  calm p (at_find st p l id addr flg) (Ret st1 0 v) ->
  exists ix d i e0 prot, shm_find_segment_by_shmid st id = Some (ix, d) /\ l !! i = Some e0 /\ shmid e0 = -1
    /\ st1 = attached p st (p_vmspace p) i ix d id v (round_page_int (shm_segsz d)) prot.
Proof.
  intros I Hv Ht. unfold at_find. destruct (shm_find_segment_by_shmid st id) as [[ix d]|] eqn:F; [|by intros ?%calm_Ret].
  destruct (Z.eqb_spec (ipcperm (p_ucred p) (shm_perm d) (if has flg SHM_RDONLY then IPC_R else Z.lor IPC_R IPC_W)) 0) as [P|P]; simpl negb; cbv iota.
  2:{ intros [= _ E]%calm_Ret. congruence. }
  destruct (list_find unattached l) as [[i e0]|] eqn:Fl; [|by intros ?%calm_Ret]. destruct (attach_va addr flg); [|by intros ?%calm_Ret].
  apply list_find_Some in Fl as (Fl & Ne & _). intros (ans & r & A & S & C)%calm_stop; [|done].
  destruct (find_shmid _ _ _ _ _ _ (proj1 I) F) as (Hd & _ & _). destruct ans; simpl in S; simplify_eq.
  { apply calm_Ret in C. injection C as _ E. simpl in A. congruence. }
  unfold at_mapped in C. rewrite (deref_found (slogs st _) ix d Hd) in C. apply calm_Ret in C.
  destruct (i_seg _ _ _ (proj1 I) ix d Hd) as [Gq Gz Ga Gk]. assert (T1 := att_total st ix). assert (T0 := att_nonneg st ix).
  rewrite sint_id in C by (change (2 ^ (16 - 1)) with 32768; lia). injection C as -> ->.
  eexists ix, d, i, e0, _. split; [done|]. split; [done|]. split; [done|]. reflexivity.
Qed.

(** [shmdt] of an address at which the entry [i], and no other, is attached. *)
Lemma dt_ret p n pg st l i e r : shm_inv st n pg -> vms st !! p_vmspace p = Some (Some l) -> l !! i = Some e -> shmid e <> -1 ->
  (forall j e', j <> i -> l !! j = Some e' -> shmid e' <> -1 -> va e' <> va e) -> calm p (sys_shmdt st p (va e)) r ->
  exists d, in_slot st (slot_of e) d
    /\ let st1 := slogs st (UvmDeallocate (p_vmspace p) (va e) (round_page_int (shm_segsz d))) in
       let st2 := detached st1 (p_vmspace p) i e d in
       let d2 := Ds (shm_addr d) (shm_perm d) (shm_segsz d) (shm_lpid d) (shm_cpid d) (shm_nattch d - 1)
                   (shm_atime d) (time_second st) (shm_ctime d) (shm_object d) in
       r = Ret (if (shm_nattch d - 1 <=? 0) && removed d then drop_segment st2 (slot_of e) d2 else st2) 0 0.
Proof.
  intros I Hv Hi Ne Ho C. unfold sys_shmdt in C. rewrite Hv in C. simpl in C.
  assert (F : list_find (attached_at (va e)) l = Some (i, e)).
  { apply list_find_Some. split; [done|]. split; [done|]. intros j e' Hj Lt [N1 N2]. apply (Ho j e'); auto. lia. }
  rewrite F in C. assert (He : entry st (p_vmspace p) i = Some e) by (apply entry_lookup; by exists l).
  destruct (delete_start_ok n pg st (p_vmspace p) i e I He Ne) as (d & Hd & _ & E). rewrite E in C. exists d. split; [done|]. cbv zeta.
  apply calm_stop in C as (ans & r' & _ & S & C); [|done]. destruct ans; simpl in S; simplify_eq.
  rewrite (delete_finish_eq n pg (slogs st _) (p_vmspace p) i e d) in C; auto; [|apply (inv_log st n pg); auto].
  by apply calm_Ret in C.
Qed.

(** C25: A segment that its owner removes is gone at once, with its identifier,
    its pages and the reference to its memory, when nothing has it attached;
    otherwise it stays as it is, attachments, identifier, size and memory, but
    no key leads to it any more.  A shmdt of a segment that was removed leaves
    it there, with one attachment less, as long as others are left, and the
    last one makes it go with its identifier, its pages and the reference to
    its memory.  Neither touches another segment.  The states are those of
    C24, so that there are at most 32767 attachments in all, and unmapping
    does not let others in; at the address given to shmdt there is one
    attachment only. *)
Theorem shm_removal_correct s p : sreach s ->
  (forall id ix d r, shm_find_segment_by_shmid (sst s) id = Some (ix, d) -> ipcperm (p_ucred p) (shm_perm d) IPC_M = 0 ->
     calm p (shmctl1 (sst s) p id IPC_RMID) r ->
     exists st', r = Ret st' 0 0 /\ (forall j, j <> ix -> shmsegs st' !! j = shmsegs (sst s) !! j) /\
       (att (sst s) ix = 0 /\ segment_gone (sst s) st' id ix d
        \/ 0 < att (sst s) ix /\ segment_lingers st' id ix d (att (sst s) ix))) /\
  (forall l i e d r, vms (sst s) !! p_vmspace p = Some (Some l) -> l !! i = Some e -> shmid e <> -1 ->
     (forall j e', j <> i -> l !! j = Some e' -> shmid e' <> -1 -> va e' <> va e) ->
     in_slot (sst s) (slot_of e) d -> removed d = true -> calm p (sys_shmdt (sst s) p (va e)) r ->
     exists st', r = Ret st' 0 0 /\ (forall j, j <> slot_of e -> shmsegs st' !! j = shmsegs (sst s) !! j) /\
       (att (sst s) (slot_of e) = 1 /\ segment_gone (sst s) st' (shmid e) (slot_of e) d
        \/ 1 < att (sst s) (slot_of e) /\ segment_lingers st' (shmid e) (slot_of e) d (att (sst s) (slot_of e) - 1))).
Proof.
  intros R. destruct (v_state _ (sreach_inv s R)) as [I L].
  assert (Hn := lsum_nonneg _ (sthr s) aside_n_nonneg). assert (Hpg := lsum_nonneg _ (sthr s) aside_pg_nonneg). split.
  - intros id ix d r F P C. destruct (find_shmid _ _ _ _ _ _ I F) as (Hd & Ei & Es).
    unfold shmctl1 in C. rewrite F in C. cbv beta iota zeta in C. change (IPC_RMID =? IPC_STAT) with false in C.
    change (IPC_RMID =? IPC_SET) with false in C. change (IPC_RMID =? IPC_RMID) with true in C. rewrite P in C. simpl negb in C.
    cbv beta iota in C. apply calm_Ret in C. fold (rmid_ds d) in C. change (shm_nattch (rmid_ds d)) with (shm_nattch d) in C. subst r.
    destruct (i_seg _ _ _ I ix d Hd) as [Gq Gz Ga Gk].
    assert (I2 := rmid_inv _ _ Hn Hpg (sst s) ix d (conj I L) Hd). assert (I1 := rmid_tables _ _ (sst s) ix d I Hd).
    assert (H2 := in_slot_set (sst s) ix d (rmid_ds d) Hd). assert (X := att_nonneg (sst s) ix).
    eexists. split; [reflexivity|]. destruct (Z.leb_spec (shm_nattch d) 0) as [Z0|Z0].
    + split; [intros j N; simpl; by rewrite !list_lookup_insert_ne by congruence|left]. split; [lia|].
      apply (drop_gone (set_slot (sst s) ix (Some (rmid_ds d))) _ _ ix (rmid_ds d) id I1 Hn Hpg H2); [|done].
      change (att (set_slot (sst s) ix (Some (rmid_ds d))) ix) with (att (sst s) ix). lia.
    + split; [intros j N; simpl; by rewrite list_lookup_insert_ne by congruence|right]. split; [lia|].
      apply (in_slot_lingers _ _ _ ix d (rmid_ds d) id _ I2 H2); try done.
      unfold removed, SHMSEG_REMOVED. simpl. rewrite has_pow2, Z.lor_spec by lia. apply orb_true_r.
  - intros l i e d r Hv Hi Ne Ho Hd Rm C.
    destruct (dt_ret p _ _ (sst s) l i e r (conj I L) Hv Hi Ne Ho C) as (d0 & Hd0 & E). unfold in_slot in Hd, Hd0. rewrite Hd in Hd0.
    injection Hd0 as <-. cbv zeta in E. set (st1 := slogs (sst s) _) in E.
    assert (He : entry (sst s) (p_vmspace p) i = Some e) by (apply entry_lookup; by exists l).
    destruct (i_seg _ _ _ I _ d Hd) as [Gq Gz Ga Gk]. assert (Hat := att_hit (sst s) (slot_of e) _ _ _ He Ne eq_refl).
    destruct (delete_start_ok _ _ (sst s) (p_vmspace p) i e (conj I L) He Ne) as (d1 & Hd1 & Eid & _).
    unfold in_slot in Hd1. rewrite Hd in Hd1. injection Hd1 as <-.
    assert (I1 : shm_inv st1 (lsum aside_n (sthr s)) (lsum aside_pg (sthr s))) by (apply (inv_log (sst s)); [by split|done]).
    destruct (delete_finish_ok _ _ Hn Hpg st1 (p_vmspace p) i e d I1 He Ne Hd) as (st' & Ef & I' & _).
    rewrite (delete_finish_eq _ _ st1 (p_vmspace p) i e d (proj1 I1) He Ne Hd) in Ef. injection Ef as Ef.
    assert (I2 := detached_tables _ _ st1 (p_vmspace p) i e d (proj1 I1) He Ne Hd).
    set (st2 := detached st1 (p_vmspace p) i e d) in *. set (d2 := Ds _ _ _ _ _ _ _ _ _ _) in E.
    change (time_second st1) with (time_second (sst s)) in Ef. fold d2 in Ef. rewrite Rm, andb_true_r in E, Ef.
    assert (H2 : in_slot st2 (slot_of e) d2) by (unfold in_slot; simpl; apply list_lookup_insert_eq; by eapply lookup_lt_Some).
    assert (Esq : IPCID_TO_SEQ (shmid e) = seq (shm_perm d)).
    { assert (Lx := lookup_lt_Some _ _ _ Hd). assert (Hl := i_len _ _ _ I). assert (Hm := i_mni _ _ _ I).
      rewrite Eid. apply ipcid_roundtrip; [lia|apply Gq]. }
    exists st'. split; [by rewrite E, Ef|]. destruct (Z.leb_spec (shm_nattch d - 1) 0) as [Z0|Z0].
    + subst st'. split; [intros j N; simpl; by rewrite !list_lookup_insert_ne by congruence|left]. split; [lia|].
      apply (drop_gone st2 _ _ (slot_of e) d2 (shmid e) I2 Hn Hpg H2); [|done].
      destruct (i_seg _ _ _ I2 _ d2 H2) as [_ _ G2 _]. simpl in G2. lia.
    + subst st'. split; [intros j N; simpl; by rewrite list_lookup_insert_ne by congruence|right]. split; [lia|].
      apply (in_slot_lingers _ _ _ _ d d2 (shmid e) _ I' H2); try done. simpl. lia.
Qed.

(** C26: Detaching undoes attaching.  After a shmat that returns [v], an
    address at which the process had nothing attached, a shmdt of [v] right
    after it succeeds: every segment has as many attachments as before and
    keeps its size, memory and permissions, also if it had been removed
    before; and what is unmapped is what was mapped, the memory of the segment
    at [v] with its size in whole pages.  Assumed: the states are those of
    C24, fewer than 32767 attachments exist in all, and nobody else runs
    while the two calls allocate, map and unmap. *)
Theorem shm_attach_roundtrip s p id addr flg st1 v r : sreach s -> is_Some (vms (sst s) !! p_vmspace p) -> total (sst s) < 32767 ->
  INT_MIN <= id <= INT_MAX -> (forall i e, entry (sst s) (p_vmspace p) i = Some e -> shmid e <> -1 -> va e <> v) ->
  calm p (sys_shmat (sst s) p id addr flg) (Ret st1 0 v) -> calm p (sys_shmdt st1 p v) r ->
  exists st2 ix d d2 prot, r = Ret st2 0 0 /\ shm_find_segment_by_shmid (sst s) id = Some (ix, d)
    /\ (forall j, att st1 j = att (sst s) j + if Nat.eqb j ix then 1 else 0) /\ (forall j, att st2 j = att (sst s) j)
    /\ shmsegs st2 = <[ix := Some d2]> (shmsegs (sst s))
    /\ (shm_nattch d2, shm_segsz d2, shm_object d2, shm_perm d2) = (shm_nattch d, shm_segsz d, shm_object d, shm_perm d)
    /\ slog st2 = slog (sst s) ++ [UaoReference (shm_object d); UvmMap (p_vmspace p) v (round_page_int (shm_segsz d)) (shm_object d) prot;
         UvmDeallocate (p_vmspace p) v (round_page_int (shm_segsz d))].
Proof.
  intros R [o Ho] Ht Hi Hf C1 C2. assert (I := v_state _ (sreach_inv s R)).
  set (n := lsum aside_n (sthr s)) in *. set (pg := lsum aside_pg (sthr s)) in *.
  set (st := match o with Some _ => sst s | None => with_head (sst s) (p_vmspace p) end).
  set (l := match o with Some l => l | None => replicate (Z.to_nat (shmseg (sinfo (sst s)))) (Att 0 (-1)) end).
  assert (I0 : shm_inv st n pg) by (destruct o; [done|by apply with_head_inv]).
  assert (Hv : vms st !! p_vmspace p = Some (Some l)).
  { destruct o; [done|]. simpl. apply list_lookup_insert_eq. by eapply lookup_lt_Some. }
  assert (Ha : forall j, att st j = att (sst s) j) by (intros j; destruct o; [done|]; by apply with_head_sum).
  assert (Ht0 : total st < 32767) by (destruct o; [done|]; unfold total, st; by rewrite with_head_sum).
  assert (Hl : forall i e, l !! i = Some e -> shmid e <> -1 -> va e <> v).
  { intros i e H Ne. destruct o as [l0|].
    - apply (Hf i e); [|done]. apply entry_lookup. by exists l0.
    - by apply lookup_replicate in H as [-> _]. }
  assert (C3 : calm p (at_find st p l id addr flg) (Ret st1 0 v)).
  { unfold sys_shmat in C1. rewrite Ho in C1. destruct o as [l0|]; [done|]. simpl in C1.
    apply calm_stop in C1 as (ans & r' & _ & S & C); [|done]. destruct ans; simpl in S; simplify_eq. exact C. }
  assert (Ef : shm_find_segment_by_shmid st id = shm_find_segment_by_shmid (sst s) id) by (by destruct o).
  assert (Es : shmsegs st = shmsegs (sst s) /\ slog st = slog (sst s)) by (by destruct o). destruct Es as [Es El].
  destruct (at_find_ret p n pg st l id addr flg st1 v I0 Hv Ht0 C3) as (ix & d & i & e0 & prot & F & Hl0 & Ne0 & ->).
  destruct (find_shmid _ _ _ _ _ _ (proj1 I0) F) as (Hd & Ei & Eq). destruct (i_seg _ _ _ (proj1 I0) ix d Hd) as [Gq Gz Ga Gk].
  assert (Eid : id = IXSEQ_TO_IPCID (Z.of_nat ix) (shm_perm d)) by (apply shmid_of_int; auto; apply Gq).
  assert (Nid : id <> -1) by (intros ->; rewrite Eq in Gq; destruct Gq as [_ Gq]; vm_compute in Gq; destruct Gq; discriminate).
  assert (Sl : slot_of (Att v id) = ix) by (by rewrite Ei).
  assert (He : entry st (p_vmspace p) i = Some e0) by (apply entry_lookup; by exists l).
  assert (I1 : shm_inv (attached p st (p_vmspace p) i ix d id v (round_page_int (shm_segsz d)) prot) n pg) by (by eapply attached_inv).
  set (st1 := attached _ _ _ _ _ _ _ _ _ _) in *.
  assert (V1 : vms st1 !! p_vmspace p = Some (Some (<[i := Att v id]> l))) by (by apply vms_set_entry).
  assert (Li : (i < length l)%nat) by (by eapply lookup_lt_Some).
  destruct (dt_ret p n pg st1 _ i (Att v id) r I1 V1) as (d1 & Hd1 & E1); auto.
  { by apply list_lookup_insert_eq. }
  { intros j e' N H. rewrite list_lookup_insert_ne in H by congruence. by apply (Hl j). }
  rewrite Sl in Hd1. apply in_slot_insert in Hd1 as [[? _]|[_ [= <-]]]; [done|]. simpl in E1.
  assert (H0 : forall j, hits j e0 = 0) by (intros j; unfold hits; by rewrite Ne0).
  assert (A1 : forall j, att st1 j = att st j + hits j (Att v id)).
  { intros j. transitivity (att (set_entry st (p_vmspace p) i (Att v id)) j); [done|]. rewrite (att_set_entry _ _ _ _ _ _ He), H0. lia. }
  assert (He1 : entry st1 (p_vmspace p) i = Some (Att v id)) by (apply entry_lookup; eexists; split; [exact V1|by apply list_lookup_insert_eq]).
  rewrite (proj2 (andb_false_iff _ _)) in E1.
  2:{ destruct (removed d) eqn:Rm; [left|by right]. assert (X := proj2 I0 ix d Hd Rm). apply Z.leb_gt. lia. }
  eexists _, ix, d, _, prot. split; [exact E1|].
  split; [by rewrite <- Ef|]. split_and!.
  - intros j. rewrite A1, Ha. f_equal. destruct (Nat.eqb_spec j ix) as [->|N]; [rewrite <- Sl at 1; by apply hits_self|apply hits_other; congruence].
  - intros j. rewrite <- Ha. transitivity (att (set_entry st1 (p_vmspace p) i (Att v (-1))) j); [done|].
    rewrite (att_set_entry _ _ _ _ _ _ He1), hits_free, A1. lia.
  - simpl. rewrite Sl, list_insert_insert_eq, Es. reflexivity.
  - simpl. do 3 f_equal. lia.
  - simpl. rewrite El, <- !app_assoc. reflexivity.
Qed.
