(* ===== verification/ShmDemo.v ===== *)
(** * System V shared memory: executed runs, and the cases that go wrong *)

From stdpp Require Import base numbers list option.
From Stdlib Require Import ZArith Lia Bool.
From S2P Require Import Prelude Sem SemSys Clock ClockFacts Shm ShmInv ShmCalls ShmSys.
Local Open Scope Z_scope.

(** ** Running calm calls *)

Definition answer_okb (st : shm_state) (ans : sanswer) : bool :=
  match ans with
  | Item a _ => forallb (fun o => match o with Some d => negb (Nat.eqb (shm_addr d) a) | None => true end) (shmsegs st)
  | Object o => balance st o =? 0
  | Error e => negb (e =? 0)
  | _ => true
  end.

Lemma answer_okb_ok st ans : answer_okb st ans = true -> answer_ok st ans.
Proof.
  destruct ans; simpl; try done.
  - intros H ix d Hd. rewrite forallb_forall in H. specialize (H (Some d)). simpl in H.
    apply Nat.eqb_neq, negb_true_iff, H. apply list_elem_of_In. by eapply list_elem_of_lookup_2.
  - apply Z.eqb_eq.
  - intros H. by apply Z.eqb_neq, negb_true_iff.
Qed.

(** A call with the answers it gets; [None] when they do not fit. *)
Fixpoint settle (p : proc) (r : sres) (l : list sanswer) : option sres :=
  match r, l with
  | Wait st pc, ans :: l =>
      if pinned pc && answer_okb st ans then section st p pc ans ≫= fun r => settle p r l else None
  | Wait st pc, [] => if pinned pc then None else Some r
  | _, [] => Some r
  | _, _ => None
  end.

Lemma settle_calm p l : forall r o, settle p r l = Some o -> calm p r o.
Proof.
  induction l as [|ans l IH]; intros [st e v|st pc|] o; simpl; try done; try (intros [= <-]; by constructor).
  - destruct (pinned pc) eqn:P; [done|]. intros [= <-]. by constructor.
  - destruct (pinned pc && answer_okb st ans) eqn:P; [|done]. apply andb_true_iff in P as [P A].
    destruct (section st p pc ans) as [r|] eqn:E; [|done]. simpl. intros H.
    eapply calm_go; [done|by apply answer_okb_ok|done|by apply IH].
Qed.

(** A process of the superuser. *)
Definition root (vm : nat) : proc := Proc (mkCred 0 0 []) (Z.of_nat vm + 100) vm.

(** Thread [t] makes a call, or gets the answer to its wait, with the answers
    after that. *)
Definition step_call (s : ssys) (t vm : nat) (c : scall) (l : list sanswer) : option ssys :=
  match sthr s !! t with
  | Some None => settle (root vm) (call (sst s) (root vm) c) l ≫= after s t (root vm)
  | _ => None
  end.
Definition step_go (s : ssys) (t : nat) (ans : sanswer) (l : list sanswer) : option ssys :=
  match sthr s !! t with
  | Some (Some (p, pc)) => 
      if answer_okb (sst s) ans then r0 ← section (sst s) p pc ans; r ← settle p r0 l; after s t p r else None
  | _ => None
  end.

Lemma step_call_reach s t vm c l s' : sreach s -> sguard (root vm) (sst s) c -> step_call s t vm c l = Some s' -> sreach s'.
Proof.
  intros R G. unfold step_call. destruct (sthr s !! t) as [[|]|] eqn:E; try done.
  destruct (settle _ _ l) as [r|] eqn:S; [|done]. simpl. intros A.
  eapply sreach_step; [done|eapply sstep_call; [done|done|by apply settle_calm in S]|done].
Qed.

Lemma step_go_reach s t ans l s' : sreach s -> step_go s t ans l = Some s' -> sreach s'.
Proof.
  intros R. unfold step_go. destruct (sthr s !! t) as [[[p pc]|]|] eqn:E; try done. destruct (answer_okb _ ans) eqn:A; [|done].
  destruct (section (sst s) p pc ans) as [r0|] eqn:S; [|done]. simpl. destruct (settle p r0 l) as [r|] eqn:T; [|done]. simpl. intros Af.
  eapply sreach_step; [done|eapply sstep_go; [done|by apply answer_okb_ok|done|by apply settle_calm in T]|done].
Qed.

Definition junk : shmid_ds := Ds 0 (mkPerm 0 0 0 0 0 0 0) 0 0 0 0 0 0 0 0.
Definition small : shminfo := Info 8192 1 4 3 8192.
Definition s0 : ssys := Ssys (set_vms (shminit small 1000) [None; None]) [None; None; None].

Lemma s0_reach : sreach s0.
Proof.
  constructor. exists small, 1000, 2%nat, 3%nat. simpl. unfold MAXSEG, INT_MAX, PAGE_MASK, PAGE_SIZE. split_and!; [lia..|]. reflexivity.
Qed.

(** Thread 0 makes a segment of 5000 bytes, attaches it and removes it;
    thread 1 waits for an item. *)
Definition s1 : ssys := default s0 (step_call s0 0 0 (CGet 0 5000 384) []).
Definition s2 : ssys := default s0 (step_go s1 0 (Item 7 junk) [Object 5]).
Definition id1 : Z := 65536.
Definition s3 : ssys := default s0 (step_call s2 0 0 (CAt id1 0 0) [Done; Va 40960]).
Definition s4 : ssys := default s0 (step_call s3 1 1 (CGet 77 100 896) [NoItem]).

Lemma s2_reach : sreach s2.
Proof.
  apply (step_go_reach s1 0 (Item 7 junk) [Object 5]); [|vm_compute; reflexivity].
  apply (step_call_reach s0 0 0 (CGet 0 5000 384) []); [apply s0_reach|simpl; lia|vm_compute; reflexivity].
Qed.

Lemma s3_reach : sreach s3.
Proof.
  apply (step_call_reach s2 0 0 (CAt id1 0 0) [Done; Va 40960]); [apply s2_reach| |vm_compute; reflexivity].
  split; [vm_compute; by eexists|]. split; [vm_compute; reflexivity|]. unfold id1, INT_MIN, INT_MAX. lia.
Qed.

Lemma s4_reach : sreach s4.
Proof. apply (step_call_reach s3 1 1 (CGet 77 100 896) [NoItem]); [apply s3_reach|simpl; lia|vm_compute; reflexivity]. Qed.

(** The segment takes two pages and the waiting call has set aside one; the
    segment is attached once. *)
Example s4_tables : (shm_nused (sst s4), shm_committed (sst s4), att (sst s4) 0, balance (sst s4) 5) = (2, 3, 1, 1).
Proof. vm_compute. reflexivity. Qed.

(** ** Witnesses *)

Lemma shm_invariant_witness : sys_inv s4 /\ forall t p r, sstep s4 t p r -> r <> Bad.
Proof. apply shm_invariant. apply s4_reach. Defined.

Definition ds_at (s : ssys) (ix : nat) : shmid_ds := default junk (seg_at (sst s) ix).
Definition res (o : option sres) : sres := default Bad o.

Lemma shm_removal_correct_witness : exists st', res (settle (root 0) (shmctl1 (sst s3) (root 0) id1 IPC_RMID) []) = Ret st' 0 0
  /\ (forall j, j <> 0%nat -> shmsegs st' !! j = shmsegs (sst s3) !! j) /\
    (att (sst s3) 0 = 0 /\ segment_gone (sst s3) st' id1 0 (ds_at s3 0)
     \/ 0 < att (sst s3) 0 /\ segment_lingers st' id1 0 (ds_at s3 0) (att (sst s3) 0)).
Proof.
  apply (shm_removal_correct s3 (root 0) s3_reach); [vm_compute; reflexivity|vm_compute; reflexivity|].
  apply (settle_calm _ []). vm_compute. reflexivity.
Defined.

Definition at2 : sres := res (settle (root 1) (sys_shmat (sst s3) (root 1) id1 0 SHM_RDONLY) [Done; Va 81920]).
Definition at2_st : shm_state := match at2 with Ret st _ _ => st | _ => sst s0 end.
Definition dt2 : sres := res (settle (root 1) (sys_shmdt at2_st (root 1) 81920) [Done]).

Lemma shm_attach_roundtrip_witness : exists st2 ix d d2 prot, dt2 = Ret st2 0 0
    /\ shm_find_segment_by_shmid (sst s3) id1 = Some (ix, d)
    /\ (forall j, att at2_st j = att (sst s3) j + if Nat.eqb j ix then 1 else 0) /\ (forall j, att st2 j = att (sst s3) j)
    /\ shmsegs st2 = <[ix := Some d2]> (shmsegs (sst s3))
    /\ (shm_nattch d2, shm_segsz d2, shm_object d2, shm_perm d2) = (shm_nattch d, shm_segsz d, shm_object d, shm_perm d)
    /\ slog st2 = slog (sst s3) ++ [UaoReference (shm_object d); UvmMap 1 81920 (round_page_int (shm_segsz d)) (shm_object d) prot;
         UvmDeallocate 1 81920 (round_page_int (shm_segsz d))].
Proof.
  apply (shm_attach_roundtrip s3 (root 1) id1 0 SHM_RDONLY at2_st 81920 dt2).
  - apply s3_reach.
  - vm_compute. by eexists.
  - vm_compute. reflexivity.
  - unfold id1, INT_MIN, INT_MAX. lia.
  - intros i e H. vm_compute in H. discriminate.
  - apply (settle_calm _ [Done; Va 81920]). vm_compute. reflexivity.
  - apply (settle_calm _ [Done]). vm_compute. reflexivity.
Defined.

(** ** What goes wrong *)

(** Runs in which others may run at every stop. *)
Inductive turn := RCall (vm : nat) (c : scall) | RGo (ans : sanswer).

Definition raw_step (s : ssys) (t : nat) (x : turn) : option (proc * sres) :=
  match x, sthr s !! t with
  | RCall vm c, Some None => Some (root vm, call (sst s) (root vm) c)
  | RGo ans, Some (Some (p, pc)) => if answer_okb (sst s) ans then pair p <$> section (sst s) p pc ans else None
  | _, _ => None
  end.

Fixpoint raw (s : ssys) (l : list (nat * turn)) : option ssys :=
  match l with
  | [] => Some s
  | (t, x) :: l => match raw_step s t x with Some (p, r) => s' ← after s t p r; raw s' l | None => None end
  end.

Definition crashes (s : ssys) (t : nat) (x : turn) : bool := match raw_step s t x with Some (_, Bad) => true | _ => false end.

Definition make (t : nat) (k size : Z) (item : turn) (o : nat) : list (nat * turn) :=
  [(t, RCall t (CGet k size 896)); (t, item); (t, RGo (Object o))].

(** A freed item comes back while [uao_create] sleeps, with what it held except
    for its first 16 bytes, which the pool has written to. *)
Definition old_item : shmid_ds :=
  let d := rmid_ds (ds_at s2 0) in
  let q := shm_perm d in
  with_perm d (mkPerm 3735928559 1 3735928559 2 (mode q) (seq q) (key q)) (shm_ctime d).
Definition stale_run : list (nat * turn) :=
  make 0 0 5000 (RGo (Item 7 junk)) 5 ++ [(0%nat, RCall 0 (CCtl id1 IPC_RMID)); (0%nat, RCall 0 (CGet 0 5000 896)); (0%nat, RGo (Item 7 old_item))].
Definition set_run : list (nat * turn) :=
  make 0 0 5000 (RGo (Item 7 junk)) 5 ++ [(0%nat, RCall 0 (CCtl id1 IPC_SET)); (1%nat, RCall 1 (CCtl id1 IPC_RMID))].
Definition map_run : list (nat * turn) :=
  make 0 0 5000 (RGo (Item 7 junk)) 5 ++ [(0%nat, RCall 0 (CAt id1 0 0)); (0%nat, RGo Done); (1%nat, RCall 1 (CCtl id1 IPC_RMID))].
Definition entry_run : list (nat * turn) :=
  make 0 0 5000 (RGo (Item 7 junk)) 5 ++ [(0%nat, RCall 0 (CAt id1 0 0)); (0%nat, RGo Done); (1%nat, RCall 0 (CAt id1 0 0));
    (0%nat, RGo (Va 40960)); (1%nat, RGo (Va 81920))].
Definition key_run : list (nat * turn) :=
  [(0%nat, RCall 0 (CGet 77 100 896)); (0%nat, RGo (Item 7 junk)); (1%nat, RCall 1 (CGet 77 100 896)); (1%nat, RGo (Item 8 junk));
   (0%nat, RGo (Object 5)); (1%nat, RGo (Object 6))].
Definition io_of (v : Z) : sysctl_io := mkIo None (Some (4, inr v)).
Definition huge_run : list (nat * turn) :=
  [(0%nat, RCall 0 (CSysctl KERN_SHMINFO_SHMMAX 2 (io_of INT_MAX))); (0%nat, RCall 0 (CSysctl KERN_SHMINFO_SHMALL 2 (io_of INT_MAX)))]
  ++ make 0 0 INT_MAX (RGo (Item 7 junk)) 5 ++ [(0%nat, RCall 0 (CCtl id1 IPC_RMID))].

Lemma find_in_slot st id ix d : shm_find_segment_by_shmid st id = Some (ix, d) ->
  in_slot st ix d /\ forall st' d', in_slot st' ix d' -> sinfo st' = sinfo st -> seq (shm_perm d') = seq (shm_perm d) ->
    shm_find_segment_by_shmid st' id = Some (ix, d').
Proof.
  unfold shm_find_segment_by_shmid, seg_at, in_slot. destruct (Z.of_nat _ <? _) eqn:M; [|done].
  destruct (shmsegs st !! _) as [[d0|]|] eqn:E; simpl; try done. destruct (seq (shm_perm d0) =? _) eqn:Q; [|done]. intros [= <- <-].
  split; [done|]. intros st' d' H1 H2 H3. rewrite H2, M, H1. simpl. by rewrite H3, Q.
Qed.

(** One attachment beyond the range of [shmatt_t], a short. *)
Lemma nattch_wraps st p id i ix d size prot v : shm_find_segment_by_shmid st id = Some (ix, d) -> shm_nattch d = 32767 ->
  ipcperm (p_ucred p) (shm_perm d) IPC_M = 0 ->
  exists st1 st2, at_mapped st p id i ix (shm_addr d) (shm_object d) size prot v = Ret st1 0 v
    /\ shmctl1 st1 p id IPC_RMID = Ret st2 0 0 /\ shmsegs st2 !! ix = Some None.
Proof.
  intros F Hn P. destruct (find_in_slot _ _ _ _ F) as [Hd F2]. unfold at_mapped. rewrite (deref_found _ _ _ Hd).
  assert (Lx := lookup_lt_Some _ _ _ Hd). eexists _, _. split; [reflexivity|]. unfold shmctl1.
  rewrite (F2 _ _ (in_slot_set (set_entry (slogs st _) _ _ _) ix d _ Hd) eq_refl) by done. cbv beta iota zeta.
  change (IPC_RMID =? IPC_STAT) with false. change (IPC_RMID =? IPC_SET) with false. change (IPC_RMID =? IPC_RMID) with true.
  cbn [shm_perm]. rewrite P. simpl negb. cbv beta iota. split; [reflexivity|]. simpl. rewrite Hn. simpl.
  apply list_lookup_insert_eq. by rewrite !length_insert.
Qed.

(** C40: Where others run in the sleeps a call does not expect: (1) a removed
    identifier is valid again while [uao_create] of a new segment in its item
    sleeps, and shmat takes a reference to memory that is gone (in a kernel
    without POOL_DEBUG, where the pool overwrites only the first 16 bytes of a
    freed item, its owner and creator); (2) IPC_SET
    and (3) shmat write to an item that was freed during their copy or
    [uvm_map]; (4) two threads of a process use the same entry, and an
    attachment is lost for ever; (5) two segments are made for one key.  Also
    (6) a segment of [INT_MAX] bytes is rounded up in an [int], and its removal
    adds to the committed pages what it should take away; (7) the 32768th
    attachment makes [shm_nattch] negative, and the next IPC_RMID frees the
    segment though it is attached. *)
Theorem shm_defects :
  (exists s s', raw s0 stale_run = Some s /\ balance (sst s) 5 = 0
     /\ raw s [(1%nat, RCall 1 (CAt id1 0 0)); (1%nat, RGo Done)] = Some s' /\ last (slog (sst s')) (UaoCreate 0) = UaoReference 5)
  /\ (exists s, raw s0 set_run = Some s /\ crashes s 0 (RGo (Inbuf 1 1 0)) = true)
  /\ (exists s, raw s0 map_run = Some s /\ crashes s 0 (RGo (Va 40960)) = true)
  /\ (exists s d, raw s0 entry_run = Some s /\ in_slot (sst s) 0 d /\ shm_nattch d = 2 /\ att (sst s) 0 = 1)
  /\ (exists s d1 d2, raw s0 key_run = Some s /\ in_slot (sst s) 0 d1 /\ in_slot (sst s) 1 d2
       /\ key (shm_perm d1) = 77 /\ key (shm_perm d2) = 77)
  /\ (exists s, raw s0 huge_run = Some s /\ lsum occ (shmsegs (sst s)) = 0 /\ shm_committed (sst s) = 1048576)
  /\ (forall st p id i ix d size prot v, shm_find_segment_by_shmid st id = Some (ix, d) -> shm_nattch d = 32767 ->
       ipcperm (p_ucred p) (shm_perm d) IPC_M = 0 ->
       exists st1 st2, at_mapped st p id i ix (shm_addr d) (shm_object d) size prot v = Ret st1 0 v
         /\ shmctl1 st1 p id IPC_RMID = Ret st2 0 0 /\ shmsegs st2 !! ix = Some None).
Proof.
  split_and!.
  - eexists _, _. split; [vm_compute; reflexivity|]. split; [vm_compute; reflexivity|]. split; vm_compute; reflexivity.
  - eexists. split; [vm_compute; reflexivity|]. vm_compute. reflexivity.
  - eexists. split; [vm_compute; reflexivity|]. vm_compute. reflexivity.
  - eexists _, _. split; [vm_compute; reflexivity|]. split; [vm_compute; reflexivity|]. split; vm_compute; reflexivity.
  - eexists _, _, _. split; [vm_compute; reflexivity|]. split; [vm_compute; reflexivity|]. split; [vm_compute; reflexivity|].
    split; vm_compute; reflexivity.
  - eexists. split; [vm_compute; reflexivity|]. split; vm_compute; reflexivity.
  - apply nattch_wraps.
Qed.
